(* ===== verification/_CoqProject ===== *)
-Q . S2P
Prelude.v
LocksData.v
PlInode.v
PosixLk.v
PosixLkFacts.v
PosixLkSpec.v
EntryLk.v
EntryLkFacts.v
InodeLk.v
InodeLkFacts.v
LocksXlator.v
LocksSystem.v
LocksProps.v
FdTable.v
FdTableFacts.v
ByteOrder.v
HashFn.v
DhtLayout.v
DhtSelfheal.v
DhtFacts.v
DhtProps.v
AfrPending.v
AfrTransaction.v
AfrFacts.v
AfrProps.v
AfrFops.v
AfrCalls.v
AfrInodeWrite.v
AfrDirWrite.v
AfrFanout.v
AfrOps.v
AfrTransFacts.v
AfrSystem.v
AfrSteps.v
AfrCollect.v
AfrBegin.v
AfrOpsProps.v
AfrRead.v
AfrOpendir.v
AfrReadProps.v
AfrOpendirProps.v
Md5.v
Md5Props.v
PosixFile.v
AfrHealAlgo.v
AfrHealInv.v
AfrHealSteps.v
AfrHealFull.v
AfrHealDiff.v
AfrHealProps.v
AfrSelfHeal.v
AfrSelfHealProps.v
Dict.v
DictProps.v
Iobuf.v
IobufProps.v
InodeTable.v
InodePath.v
InodeTableFacts.v
InodeTableOps.v
InodeTableProps.v
InodePathFacts.v
WriteBehind.v
WriteBehindOps.v
WriteBehindFacts.v
WriteBehindInv.v
WriteBehindSteps.v
WriteBehindSafe.v
WriteBehindOrder.v
WriteBehindProps.v
StripeData.v
Stripe.v
StripeConf.v
StripeIO.v
StripeFile.v
StripeIOFacts.v
StripeRequests.v
StripeFileProps.v
StripeWriteProps.v
StripeProps.v
