(* ===== verification/Prelude.v ===== *)
(** * GlusterFS 3.0.2: a verification of its core translators

    GlusterFS builds a file system from translators: objects that receive file
    operations (a [STACK_WIND] from above), do something with them, wind them to
    their children and pass the answers back (a [STACK_UNWIND]).  This library
    models the parts whose decisions the data of a volume depends on, and proves
    what they promise.  The rest of the tree moves bytes between these parts, the
    network and the operating system.

    ** The program and its models

    - features/locks (src/xlators/features/locks/src) keeps, for every inode, the
      fcntl locks, and per domain the inode locks and entry locks, and decides
      which requests are granted, which wait, and which reads and writes are held
      back.
      [LocksData] has the records of locks.h, [PlInode] the per-inode state
      (common.c), [PosixLk] the fcntl locks (common.c and the suspended calls of
      posix.c), [InodeLk] inodelk.c, [EntryLk] entrylk.c and [LocksXlator] the
      handlers of posix.c.  [PlInode] also has what inode and entry locks have in
      common: held and waiting requests under a conflict relation, given as the
      class [Conflict] that both implement.  [PosixLkSpec] is the contract of
      fcntl(2), a map from bytes to lock types per owner, which [PosixLk] refines.
      [LocksSystem] is the step relation of one inode: every handler, with any
      arguments and any outcome of the allocations.
    - cluster/dht (src/xlators/cluster/dht/src) spreads the names of a directory
      over subvolumes by their hash.
      [HashFn] has hashfn.c and dht-hashfn.c, [ByteOrder] byte-order.h,
      [DhtLayout] dht-layout.c and dht-helper.c, [DhtSelfheal] dht-selfheal.c.
    - cluster/afr (src/xlators/cluster/afr/src) replicates files.  Children count
      in xattrs the operations that may be unfinished on the others, and the
      counters tell which copies are good.
      [AfrTransaction] has afr-transaction.c, [AfrPending] the matrix and source
      selection of afr-self-heal-common.c and the addition of counters at a child
      ([do_xattrop] of storage/posix).  [AfrFops] has the local data of an
      operation, [AfrCalls] the functions a transaction calls, [AfrInodeWrite]
      and [AfrDirWrite] the operations of afr-inode-write.c and afr-dir-write.c,
      [AfrFanout] those of afr.c that go to all children, [AfrOps] the flush that
      settles a file before a write (afr-open.c), the requests and their
      callbacks.  [AfrSystem] is the step relation of one operation: the answers
      of the children in any order, with other operations on the same fd between
      them.  [AfrRead] has afr-inode-read.c, [AfrOpendir] afr-dir-read.c and the
      checksum of names.  [AfrHealAlgo] has the two algorithms that copy a file,
      afr-self-heal-algorithm.c, with the files of the children and the threads
      of the driver; [AfrHealInv] states as the class [HealAlgo] what an
      algorithm promises to the driver, and [AfrHealFull] and [AfrHealDiff] are
      its instances.  [AfrSelfHeal] has afr-self-heal-data.c,
      afr-self-heal-metadata.c and the rest of afr-self-heal-common.c: the stages
      of the heal of a file, and a step relation of their answers.
    - cluster/stripe (src/xlators/cluster/stripe/src) cuts files into blocks and
      deals them to its children in turn.
      [StripeData] has the records of stripe.h, the calls and the answers,
      [Stripe] the handlers of stripe.c that send a request to the children and
      collect the answers (with the self-heal of lookup), [StripeIO] readv and
      writev, [StripeConf] init, the options and notify.  [StripeFile] is what a
      file means: its bytes spread over the children, and that [StripeIO] refines
      the plain file of [PosixFile].  [StripeRequests] has the step relation of one
      request: the answers of the children in any order, and in a write between
      any two turns of the loop.
    - performance/write-behind (src/xlators/performance/write-behind/src) answers
      writes before they are done, joins neighbouring ones and keeps their order.
      [WriteBehind] has the queue of a file and its passes, [WriteBehindOps] the
      handlers, the callbacks and the step relation of one file.
    - libglusterfs (src/libglusterfs/src): [FdTable] is fd.c, the table of open
      files of a connection and the per-translator contexts of an fd.  [Dict] is
      dict.c, the string-keyed tables that carry xattrs and options: a hash table
      chained in buckets beside a list of all pairs, reference counts of the
      values, and the form in which a dictionary travels over the network.
      [Iobuf] is iobuf.c, the pool of I/O buffers with its arenas and reference
      counts.  [InodeTable] is inode.c, the table of inodes with its hash tables
      of numbers and names, reference and lookup counts, the lists of active,
      unused and purged inodes and the limit on the unused ones; [InodePath] the
      paths of inodes.  [Md5] is md5.c, the strong checksum of checksum.c.

    They meet in a volume as follows: protocol/server looks up files in an
    [FdTable] and winds operations to a locks translator; afr takes inode and
    entry locks on its children around every transaction; dht sends a name to the
    subvolume its layout gives, often an afr or a stripe.  The layouts of dht,
    the changelogs of afr and the block sizes of stripe are values of
    dictionaries.  All requests name inodes of the table and carry their data in
    buffers of the pool; write-behind stands above the clusters.

    ** How the models correspond to the code

    Definitions carry the names of the C functions they translate.  A C structure
    is a Record, an enumeration an Inductive type, an intrusive list the list of
    its entries in order.  A function that
    changes a structure returns the new one; a handler returns the new state and
    the calls it winds or unwinds, in order.  Integers are [Z], with the width of
    the C type written out wherever it can matter ([u32], [i32], [i64], ...).
    An allocation that may fail is a Boolean argument; a NULL pointer is [None];
    negative return values and errno are kept.  A step of a model is a critical
    section under the mutex of its object, and interleavings are sequences of steps;
    where a handler has several, as in write-behind and the pool of buffers, each is
    a step.  In features/locks a step is a whole handler: [pl_setlk], [pl_flush]
    and [pl_inode_setlk] release the mutex between their critical sections (one to
    change the list of locks, one to grant those that wait), and the model takes
    them without another handler in between.  A callback of afr and stripe is
    one step, from the lock of its frame to its last call.
    Code that reads memory the C standard leaves undefined is given an argument
    for what it finds there (see [InodeLk]).  The conditions under which a step
    may be taken are those of the callers in the tree.

    Recursion that is not structural carries fuel, and a theorem says how much
    is enough: [__insert_and_merge] needs no more calls than a measure on the
    list of locks ([insert_and_merge_terminates]); the granting loops run
    over the list of waiting locks once; [gf_roundup_power_of_two] shifts at most
    32 times, [gf_fd_unused_get] tries again at most twice.  A write to a stripe
    of n bytes is cut by at most n turns of [writev_loop]; the fuel n + 1 is
    shown to be enough in [StripeIOFacts], and runs of a request are sequences of
    steps, whose length [stripe_request_answered_once] bounds, as
    [afr_op_answered_once] does for the operations of afr.  The loop that looks
    for the next child to read from is passed at most twice ([retry_next]).
    The steps of a heal are bounded in [heal_ends_once] by the number of blocks
    and sinks, its answers in [data_heal_completes] by the number of children.
    The algorithms are proved for at most 2^16 children and loops, which is what
    their cookies of two 16-bit halves can tell apart.
    A memory access that faults (a NULL pointer, a released object, a division by
    zero) is the result [None] in the models of inode.c, iobuf.c, write-behind,
    stripe and the operations of afr, so that their safety theorems say there is none.

    ** What is proved

    - [LocksProps]: mutual exclusion of fcntl locks in every reachable state, the
      refinement of fcntl(2), termination, no lost wakeups, one answer per
      request, a reason for every suspended call, the same for inode and entry
      locks; and theorems that exhibit where the code departs from its intent.
    - [FdTableFacts]: numbers are unique and never lost by put and get, the
      references balance, contexts behave as a map.
    - [DhtProps]: new layouts partition the hash space, every name has a
      subvolume, the layout that is written to a directory is the one a lookup
      reads back and has no anomalies, anomalies are detected exactly, round trips
      of the on-disk layout and of inode numbers.
    - [AfrProps]: changelogs record the failures that a transaction notes (other
      than of writes, ftruncate, flush and rename), the children that did not fail are the
      sources of self-heal, split brain is detected exactly, a heal clears what it
      healed where every counter was there.
    - [AfrOpsProps]: an operation of afr on all children is answered exactly once, with success
      if a child had success, whatever the order of the answers, and its post-op
      marks the children that took part; and writes without a lock, failures
      that are forgotten.  [AfrReadProps] and [AfrOpendirProps]: reading fails
      over to the other children, the children of a directory are compared when
      it is opened.
    - [AfrHealProps]: with callbacks one after the other a heal by either
      algorithm ends exactly once, and if it completes the sinks are copies of the
      source, under conditions on reads, writes and holes that the theorems name; and the
      cases in which it hangs, takes a failed read for done, keeps stale data or
      uses freed memory.  [AfrSelfHealProps]: a heal of data alone completes once and takes
      changelogs down only after its algorithm has completed, which it starts with a
      source and sinks; and the heals that do nothing, hang, set wrong times or
      truncate the file to the size of a child that is down.  [Md5Props]: the checksum is the
      one of RFC 1321, for a message in pieces of any size.
    - [DictProps]: a dictionary behaves as a finite map, what is serialised is
      read back, and an input that makes the reader leave its buffer.
    - [InodeTableProps] and [InodePathFacts]: no operation of inode.c faults in a
      well formed table and the table stays well formed, links find their names,
      pruning keeps the bound on unused inodes, paths lead back to their inodes.
    - [IobufProps]: the pool stays consistent, a buffer has one owner.
    - [WriteBehindSafe], [WriteBehindOrder] and [WriteBehindProps]: the queue is
      used safely, the children see the data of the writes in order, other calls
      wait for the writes before them, every write is answered once, the window
      of data that is answered and not yet written is bounded.
    - [StripeFileProps], [StripeRequests], [StripeProps] and
      [StripeWriteProps]: reads and writes through a stripe are those of one file,
      every request is answered exactly once whatever the order of the answers,
      what is answered for the sizes and blocks, what open reads is what create
      wrote, a configuration that is accepted is well formed; and the requests
      that are answered wrongly or not at all.
    The other files hold the lemmas.

    ** What is not modelled

    Logging, statistics and state dumps; the threads and the event loop; the
    fan-out of file operations in dht; lookup, open and lk of afr and the self-heal
    of the entries of a directory (afr-self-heal-entry.c), which a heal ends with; all
    translators and libraries not named above.  In the models of locks, dht, afr, the dictionaries and the fd
    table an access outside of an array is not a fault of its own, though
    definitions show where it happens.

    This first file holds what the components share: machine integers, errno
    values, intrusive lists, a theory of pairwise related lists, tactics and the
    hint database of the library. *)

From stdpp Require Import base list numbers strings gmap.
From Stdlib Require Import ZArith Lia.

Open Scope Z_scope.

(** ** Machine integers

    The C code computes in fixed-width integers.  A value of an unsigned
    w-bit type is a [Z] in [0, 2^w); of a signed one, a [Z] in
    [-2^(w-1), 2^(w-1)); the conversions below reduce an exact result to the
    representative the hardware keeps. *)

Definition u8 (z : Z) : Z := z `mod` 2 ^ 8.
Definition u32 (z : Z) : Z := z `mod` 2 ^ 32.
Definition u64 (z : Z) : Z := z `mod` 2 ^ 64.
Definition i32 (z : Z) : Z := (z + 2 ^ 31) `mod` 2 ^ 32 - 2 ^ 31.
Definition i64 (z : Z) : Z := (z + 2 ^ 63) `mod` 2 ^ 64 - 2 ^ 63.

Definition LLONG_MAX : Z := 2 ^ 63 - 1.
Definition UINT32_MAX : Z := 2 ^ 32 - 1.

Definition is_u32 (z : Z) : Prop := 0 <= z < 2 ^ 32.
Definition is_u64 (z : Z) : Prop := 0 <= z < 2 ^ 64.
Definition is_i64 (z : Z) : Prop := - 2 ^ 63 <= z < 2 ^ 63.

(** ** errno values (Linux, asm-generic) *)

Definition ENOENT : Z := 2.
Definition EIO : Z := 5.
Definition EAGAIN : Z := 11.
Definition ENOMEM : Z := 12.
Definition EEXIST : Z := 17.
Definition EINVAL : Z := 22.
Definition ENOSPC : Z := 28.
Definition ENOSYS : Z := 38.
Definition ENOTEMPTY : Z := 39.
Definition ENODATA : Z := 61.
Definition EBADFD : Z := 77.
Definition ENOTSUP : Z := 95.
Definition ENOTCONN : Z := 107.
Definition ESTALE : Z := 116.
Definition EUCLEAN : Z := 117.

(** ** Intrusive lists

    [struct list_head] of libglusterfs/src/list.h is a circular doubly linked
    list; the sequence of its entries from [head->next] is a Rocq list. *)

(** [list_add (new, head)]: in front of the first entry. *)
Definition list_add {A} (new : A) (head : list A) : list A := new :: head.

(** [list_add_tail (new, head)]: behind the last entry. *)
Definition list_add_tail {A} (new : A) (head : list A) : list A := head ++ [new].

(** [list_splice_init (list, head)]: [list]'s entries in front of [head]'s. *)
Definition list_splice {A} (l head : list A) : list A := l ++ head.

(** [list_del (entry)], where [entry] is in the list, if it is. *)
Definition list_del {A} `{EqDecision A} (x : A) (l : list A) : list A := filter (fun y => y <> x) l.

(** ** Buffers *)

(** A copy of [s] into [buf] from [pos] on; [None] where it leaves the buffer. *)
Definition buf_write {A} (pos : Z) (s buf : list A) : option (list A) :=
  if (0 <=? pos) && (pos + Z.of_nat (length s) <=? Z.of_nat (length buf)) then
    Some (take (Z.to_nat pos) buf ++ s ++ drop (Z.to_nat pos + length s) buf)
  else None.

Lemma buf_write_ok {A} (pre old post s : list A) pos :
  length s = length old -> pos = Z.of_nat (length pre) ->
  buf_write pos s (pre ++ old ++ post) = Some (pre ++ s ++ post).
Proof.
  intros Hlen ->. unfold buf_write. rewrite !length_app, Hlen.
  destruct (Z.leb_spec 0 (Z.of_nat (length pre))); [|lia].
  destruct (Z.leb_spec (Z.of_nat (length pre) + Z.of_nat (length old))
    (Z.of_nat (length pre + (length old + length post)))); [|lia].
  simpl. rewrite Nat2Z.id. do 2 f_equal; [by rewrite take_app_length|].
  rewrite app_assoc, drop_app_length'; [done|]. rewrite length_app. lia.
Qed.

(** A value that fits its type is left alone. *)
Lemma i64_small z : is_i64 z -> i64 z = z.
Proof. unfold is_i64, i64. intros. rewrite Z.mod_small by lia. lia. Qed.

Lemma u64_small z : is_u64 z -> u64 z = z.
Proof. apply Z.mod_small. Qed.

Lemma u32_small z : is_u32 z -> u32 z = z.
Proof. apply Z.mod_small. Qed.

Lemma u32_i32 x : is_u32 x -> u32 (i32 x) = x.
Proof.
  unfold is_u32, u32, i32. intros Hx.
  destruct (Z_lt_dec x (2 ^ 31)) as [Hlt|Hge].
  - rewrite (Z.mod_small (x + 2 ^ 31)) by lia. rewrite Z.mod_small; lia.
  - replace (x + 2 ^ 31) with (x - 2 ^ 31 + 1 * 2 ^ 32) by lia.
    rewrite Z.mod_add by lia. rewrite (Z.mod_small (x - 2 ^ 31)) by lia.
    replace (x - 2 ^ 31 - 2 ^ 31) with (x + (-1) * 2 ^ 32) by lia.
    rewrite Z.mod_add by lia. rewrite Z.mod_small; lia.
Qed.

(** Conversions inside a conversion can be left out. *)
Lemma i32_add_l a b : i32 (i32 a + b) = i32 (a + b).
Proof.
  unfold i32. f_equal.
  replace ((a + 2 ^ 31) `mod` 2 ^ 32 - 2 ^ 31 + b + 2 ^ 31) with ((a + 2 ^ 31) `mod` 2 ^ 32 + b) by lia.
  rewrite Zplus_mod_idemp_l. f_equal. lia.
Qed.

Lemma i32_u32 a : i32 (u32 a) = i32 a.
Proof. unfold i32, u32. f_equal. by rewrite Zplus_mod_idemp_l. Qed.

(** ** Tactics *)

(** Case analysis on which entry of a concrete list an element is. *)
Ltac elem_cases H :=
  repeat (apply elem_of_cons in H as [H|H]; [try subst; try discriminate|]);
  try (by apply elem_of_nil in H).

(** ** Predicates over pairs of list entries *)

Section Pairwise.
Context {A : Type} (R : A -> A -> Prop).

(** Every two entries at different positions are related by [R]. *)
Fixpoint pairwise (l : list A) : Prop :=
  match l with
  | [] => True
  | x :: l' => Forall (R x) l' /\ pairwise l'
  end.

Lemma pairwise_app (l k : list A) :
  pairwise (l ++ k) <->
  pairwise l /\ pairwise k /\ forall x y, x ∈ l -> y ∈ k -> R x y.
Proof.
  induction l as [|a l IH]; simpl.
  - split; [intros; split_and!; auto; set_solver | tauto].
  - rewrite IH, Forall_app, (Forall_forall (R a) k). split.
    + intros ((? & ?) & ? & ? & Hlk). split_and!; auto.
      intros x y [->|?]%elem_of_cons ?; auto.
    + intros ((? & ?) & ? & Hlk). split_and!; auto.
      * intros y ?. apply Hlk; [left|done].
      * intros x y ??. apply Hlk; [by right|done].
Qed.

Lemma pairwise_sublist (l k : list A) : sublist l k -> pairwise k -> pairwise l.
Proof.
  induction 1 as [|x l k Hs IH|x l k Hs IH]; simpl; [done| |tauto].
  intros [HF Hp]. split; [|auto].
  rewrite Forall_forall in *. intros y Hy. apply HF.
  eapply sublist_submseteq, elem_of_submseteq in Hs; eauto.
Qed.

Lemma pairwise_filter (P : A -> Prop) `{!forall x, Decision (P x)} (l : list A) :
  pairwise l -> pairwise (filter P l).
Proof. apply pairwise_sublist, sublist_filter. Qed.

Lemma pairwise_intro (l : list A) :
  (forall x y, x ∈ l -> y ∈ l -> R x y) -> pairwise l.
Proof.
  induction l as [|a l IH]; simpl; [done|]. intros HR. split.
  - apply Forall_forall. intros y ?. apply HR; [left|by right].
  - apply IH. intros x y ??. apply HR; by right.
Qed.

Lemma pairwise_elem (l : list A) (x y : A) :
  pairwise l -> x ∈ l -> y ∈ l -> x = y \/ R x y \/ R y x.
Proof.
  induction l as [|a l IH]; simpl; [by intros _ ?%elem_of_nil|].
  intros [HF Hp] Hx Hy. rewrite Forall_forall in HF.
  apply elem_of_cons in Hx as [->|Hx], Hy as [->|Hy]; auto.
Qed.

Context `{!Symmetric R}.

Lemma pairwise_perm (l k : list A) : l ≡ₚ k -> pairwise l -> pairwise k.
Proof.
  induction 1 as [|x l k Hp IH|x y l|l k m _ IH1 _ IH2]; simpl; try tauto.
  - intros [HF ?]. split; [by rewrite <-Hp|auto].
  - rewrite !Forall_cons. intros [[? ?] [? ?]]. repeat split; auto.
Qed.

(** Two different classes of entries: enough to look inside and across. *)
Lemma pairwise_split (P : A -> Prop) `{!forall x, Decision (P x)} (l : list A) :
  pairwise (filter P l) -> pairwise (filter (fun x => ~ P x) l) ->
  (forall x y, x ∈ l -> P x -> y ∈ l -> ~ P y -> R x y) -> pairwise l.
Proof.
  intros HP HnP Hx. apply (pairwise_perm (filter P l ++ filter (fun x => ~ P x) l)).
  { by rewrite filter_app_complement. }
  apply pairwise_app. split_and!; [done..|].
  intros x y [? ?]%list_elem_of_filter [? ?]%list_elem_of_filter. auto.
Qed.

End Pairwise.

Lemma pairwise_impl {A} (R S : A -> A -> Prop) (l : list A) :
  (forall x y, R x y -> S x y) -> pairwise R l -> pairwise S l.
Proof.
  intros HRS. induction l as [|x l IH]; simpl; [done|]. intros [HF ?]. split; [|auto].
  eapply Forall_impl; [exact HF|]. auto.
Qed.

#[export] Instance pairwise_proper {A} (R : A -> A -> Prop) `{!Symmetric R} :
  Proper ((≡ₚ) ==> iff) (pairwise R).
Proof. intros l k Hp. split; apply pairwise_perm; [done..|by symmetry]. Qed.

Lemma Forall_filter {A} (Q P : A -> Prop) `{!forall x, Decision (P x)} (l : list A) :
  Forall Q l -> Forall Q (filter P l).
Proof. rewrite !Forall_forall. intros HQ x [_ ?]%list_elem_of_filter. auto. Qed.

Lemma Forall_sublist {A} (Q : A -> Prop) (l k : list A) :
  sublist l k -> Forall Q k -> Forall Q l.
Proof.
  intros Hs. rewrite !Forall_forall. intros HQ x Hx. apply HQ.
  by eapply sublist_submseteq, elem_of_submseteq in Hs.
Qed.

Lemma filter_ext_Forall {A} (P Q : A -> Prop) `{!forall x, Decision (P x)}
    `{!forall x, Decision (Q x)} (l : list A) :
  Forall (fun x => P x <-> Q x) l -> filter P l = filter Q l.
Proof.
  induction 1 as [|x l Hx _ IH]; [done|]. rewrite !filter_cons, IH.
  by repeat case_decide; tauto || done.
Qed.

Lemma Exists_elem {A} (P : A -> Prop) (l : list A) :
  Exists P l <-> exists x, x ∈ l /\ P x.
Proof. rewrite List.Exists_exists. by setoid_rewrite <-list_elem_of_In. Qed.

Lemma List_filter_sublist {A} (f : A -> bool) (l : list A) : sublist (List.filter f l) l.
Proof.
  induction l as [|a l IH]; simpl; [constructor|].
  destruct (f a); by constructor.
Qed.

(** Entries with different keys are determined by them. *)
Lemma NoDup_map_eq {A B} (f : A -> B) (l : list A) (x y : A) :
  NoDup (map f l) -> x ∈ l -> y ∈ l -> f x = f y -> x = y.
Proof.
  induction l as [|z l IH]; simpl; [by intros _ ?%elem_of_nil|]. intros [Hz Hl]%NoDup_cons Hx Hy E.
  assert (forall w, w ∈ l -> f w <> f z) as Hne.
  { intros w Hw Hfw. apply Hz. rewrite <-Hfw. by apply list_elem_of_fmap_2. }
  apply elem_of_cons in Hx as [->|Hx], Hy as [->|Hy]; [done| | |by apply IH].
  - by destruct (Hne y Hy).
  - by destruct (Hne x Hx).
Qed.

(** A prefix of a list whose entries are related in order is changed. *)
Lemma pairwise_map_prefix {A} (R R' : A -> A -> Prop) (u : A -> A) (l k : list A) :
  pairwise R (l ++ k) ->
  (forall x y, x ∈ l -> y ∈ l -> R x y -> R' (u x) (u y)) ->
  (forall x y, x ∈ l -> y ∈ k -> R x y -> R' (u x) y) ->
  (forall x y, x ∈ k -> y ∈ k -> R x y -> R' x y) ->
  pairwise R' (map u l ++ k).
Proof.
  intros (Hl & Hk & Hlk)%pairwise_app H1 H2 H3. apply pairwise_app. split_and!.
  - clear H2 Hlk. induction l as [|x l IH]; simpl in *; [done|]. destruct Hl as [HF Hl]. rewrite Forall_forall in HF.
    split; [|apply IH; [done|set_solver]]. apply Forall_forall. intros y' (y & -> & Hy)%list_elem_of_fmap.
    apply H1; [by left|by right|auto].
  - clear H1 H2 Hlk. induction k as [|x k IH]; simpl in *; [done|]. destruct Hk as [HF Hk]. rewrite Forall_forall in HF.
    split; [|apply IH; [done|set_solver]]. apply Forall_forall. intros y Hy. apply H3; [by left|by right|auto].
  - intros x' y (x & -> & Hx)%list_elem_of_fmap Hy. auto.
Qed.

Section ListDel.
Context {A : Type} `{EqDecision A}.
Implicit Types (x y : A) (l : list A).

Lemma elem_of_list_del x y l : y ∈ list_del x l <-> y <> x /\ y ∈ l.
Proof. unfold list_del. by rewrite list_elem_of_filter. Qed.

Lemma NoDup_list_del x l : NoDup l -> NoDup (list_del x l).
Proof. apply NoDup_filter. Qed.

Lemma list_del_notin x l : x ∉ l -> list_del x l = l.
Proof.
  induction l as [|y l IH]; [done|]. intros Hx. unfold list_del in *.
  rewrite filter_cons_True, IH; [done|set_solver..].
Qed.

Lemma list_del_length x l : NoDup l -> x ∈ l -> S (length (list_del x l)) = length l.
Proof.
  induction 1 as [|y l Hy Hl IH]; intros Hx; [by apply elem_of_nil in Hx|].
  unfold list_del in *. destruct (decide (y = x)) as [->|Hne].
  - rewrite filter_cons_False by tauto. simpl. f_equal. f_equal. by apply list_del_notin.
  - rewrite filter_cons_True by done. simpl. f_equal. apply IH. set_solver.
Qed.

Lemma list_del_app x l k : list_del x (l ++ k) = list_del x l ++ list_del x k.
Proof. apply filter_app. Qed.

Lemma list_del_head x l : x ∉ l -> list_del x (x :: l) = l.
Proof. intros Hx. unfold list_del. rewrite filter_cons_False by tauto. by apply list_del_notin. Qed.

Lemma list_del_idemp x l : list_del x (list_del x l) = list_del x l.
Proof. apply list_del_notin. rewrite elem_of_list_del. tauto. Qed.

Lemma list_del_perm x l : NoDup l -> x ∈ l -> x :: list_del x l ≡ₚ l.
Proof.
  induction 1 as [|y l Hy Hl IH]; intros Hx; [by apply elem_of_nil in Hx|].
  destruct (decide (y = x)) as [->|Hne]; [by rewrite list_del_head|].
  unfold list_del in *. rewrite filter_cons_True by done. rewrite perm_swap.
  f_equiv. apply IH. set_solver.
Qed.

End ListDel.

(** ** Automation *)

Create HintDb locks.
