(* ===== verification/LocksData.v ===== *)
(** * features/locks: data of the translator

    The structures of xlators/features/locks/src/locks.h and of the frames
    and stubs the handlers receive.  Pointers that the code only compares
    (transports, frames, file descriptors, the call root) are the integers
    they are compared as; intrusive lists are Rocq lists. *)

From stdpp Require Import base list numbers strings.
From S2P Require Import Prelude.
Open Scope Z_scope.

(** ** Constants of [fcntl.h] and of glusterfs.h *)

Definition F_RDLCK : Z := 0.
Definition F_WRLCK : Z := 1.
Definition F_UNLCK : Z := 2.

Definition F_GETLK : Z := 5.
Definition F_SETLK : Z := 6.
Definition F_SETLKW : Z := 7.

Definition O_NONBLOCK : Z := 2048.
Definition S_ISGID : Z := 1024.
Definition S_IXGRP : Z := 8.

(** ** Requests *)

(** [struct flock]. *)
Record flock := mk_flock {
  l_type : Z;
  l_whence : Z;
  l_start : Z;
  l_len : Z;
  l_pid : Z
}.

(** The all-zero [struct flock] of a CALLOCed lock. *)
Definition flock0 : flock := mk_flock 0 0 0 0 0.

(** What the handlers read of a [call_frame_t]: its identity, the address of
    its root, and the root's transport, pid and lock owner. *)
Record call_frame := mk_frame {
  fr_id : Z;
  fr_root : Z;
  fr_trans : Z;
  fr_pid : Z;
  fr_lk_owner : Z
}.

(** What the handlers read of an [fd_t]: its address and its flags. *)
Record fd_t := mk_fd {
  fd_ptr : Z;
  fd_flags : Z
}.

Record iovec := mk_iovec {
  iov_base : Z;
  iov_len : Z
}.

(** ** Locks *)

(** [posix_lock_t].  [blocked] is a C boolean; [frame] is [None] for the NULL
    pointer of a lock that was never asked for with F_SETLKW. *)
Record posix_lock := mk_posix_lock {
  fl_type : Z;
  fl_start : Z;
  fl_end : Z;
  blocked : bool;
  user_flock : flock;
  fd_num : Z;
  frame : option call_frame;
  transport : Z;
  client_pid : Z;
  owner : Z
}.

(** [pl_inode_lock_t]. *)
Record pl_inode_lock := mk_inode_lock {
  il_fl_type : Z;
  il_fl_start : Z;
  il_fl_end : Z;
  il_volume : string;
  il_user_flock : flock;
  il_frame : option call_frame;
  il_transport : Z;
  il_client_pid : Z;
  il_owner : Z
}.

(** [entrylk_type] and [entrylk_cmd] of glusterfs.h. *)
Inductive entrylk_type := ENTRYLK_RDLCK | ENTRYLK_WRLCK.
Inductive entrylk_cmd := ENTRYLK_LOCK | ENTRYLK_UNLOCK | ENTRYLK_LOCK_NB.

(** [pl_entry_lock_t]; [el_basename] is [None] for a lock on all names. *)
Record pl_entry_lock := mk_entry_lock {
  el_frame : option call_frame;
  el_volume : string;
  el_basename : option string;
  el_type : entrylk_type;
  el_trans : Z;
  el_client_pid : Z;
  el_owner : Z
}.

(** [pl_dom_list_t]: the locks of one domain. *)
Record pl_dom_list := mk_dom {
  domain : string;
  entrylk_list : list pl_entry_lock;
  blocked_entrylks : list pl_entry_lock;
  inodelk_list : list pl_inode_lock;
  blocked_inodelks : list pl_inode_lock
}.

(** The stub of a suspended read or write, and [pl_rw_req_t]. *)
Inductive rw_stub :=
  | readv_stub (fr : call_frame) (fd : fd_t) (size offset : Z)
  | writev_stub (fr : call_frame) (fd : fd_t) (vector : list iovec) (offset : Z).

Record pl_rw_req := mk_rw_req {
  rw_call : rw_stub;
  region : posix_lock
}.

(** [pl_inode_t].  [refkeeper] holds whether the translator holds a reference
    on the inode. *)
Record pl_inode := mk_pl_inode {
  dom_list : list pl_dom_list;
  ext_list : list posix_lock;
  rw_list : list pl_rw_req;
  mandatory : bool;
  refkeeper : bool
}.

(** ** Functional updates *)

Definition set_blocked (b : bool) (l : posix_lock) : posix_lock :=
  mk_posix_lock (fl_type l) (fl_start l) (fl_end l) b (user_flock l)
    (fd_num l) (frame l) (transport l) (client_pid l) (owner l).

Definition set_fl_type (t : Z) (l : posix_lock) : posix_lock :=
  mk_posix_lock t (fl_start l) (fl_end l) (blocked l) (user_flock l)
    (fd_num l) (frame l) (transport l) (client_pid l) (owner l).

Definition set_fl_range (s e : Z) (l : posix_lock) : posix_lock :=
  mk_posix_lock (fl_type l) s e (blocked l) (user_flock l)
    (fd_num l) (frame l) (transport l) (client_pid l) (owner l).

Definition set_frame (f : option call_frame) (l : posix_lock) : posix_lock :=
  mk_posix_lock (fl_type l) (fl_start l) (fl_end l) (blocked l) (user_flock l)
    (fd_num l) f (transport l) (client_pid l) (owner l).

Definition set_user_flock (f : flock) (l : posix_lock) : posix_lock :=
  mk_posix_lock (fl_type l) (fl_start l) (fl_end l) (blocked l) f
    (fd_num l) (frame l) (transport l) (client_pid l) (owner l).

Definition set_ext_list (e : list posix_lock) (p : pl_inode) : pl_inode :=
  mk_pl_inode (dom_list p) e (rw_list p) (mandatory p) (refkeeper p).

Definition set_rw_list (r : list pl_rw_req) (p : pl_inode) : pl_inode :=
  mk_pl_inode (dom_list p) (ext_list p) r (mandatory p) (refkeeper p).

Definition set_dom_list (d : list pl_dom_list) (p : pl_inode) : pl_inode :=
  mk_pl_inode d (ext_list p) (rw_list p) (mandatory p) (refkeeper p).

Definition set_inodelks (held blkd : list pl_inode_lock) (d : pl_dom_list) : pl_dom_list :=
  mk_dom (domain d) (entrylk_list d) (blocked_entrylks d) held blkd.

Definition set_entrylks (held blkd : list pl_entry_lock) (d : pl_dom_list) : pl_dom_list :=
  mk_dom (domain d) held blkd (inodelk_list d) (blocked_inodelks d).

Definition set_refkeeper (b : bool) (p : pl_inode) : pl_inode :=
  mk_pl_inode (dom_list p) (ext_list p) (rw_list p) (mandatory p) b.

(** ** What the translator does to its callers and to its child

    Each handler returns, beside the new state, the calls it makes on other
    translators in the order it makes them. *)
Inductive event :=
  | UNWIND_lk (fr : option call_frame) (op_ret op_errno : Z) (fl : flock)
  | UNWIND_inodelk (fr : option call_frame) (op_ret op_errno : Z)
  | UNWIND_entrylk (fr : option call_frame) (op_ret op_errno : Z)
  | UNWIND_readv (fr : call_frame) (op_ret op_errno : Z)
  | UNWIND_writev (fr : call_frame) (op_ret op_errno : Z)
  | UNWIND_flush (fr : call_frame) (op_ret op_errno : Z)
  | UNWIND_truncate (fr : call_frame) (op_ret op_errno : Z)
  | UNWIND_ftruncate (fr : call_frame) (op_ret op_errno : Z)
  | WIND_stat (fr : call_frame)
  | WIND_fstat (fr : call_frame) (fd : fd_t)
  | WIND_flush (fr : call_frame) (fd : fd_t)
  | WIND_readv (fr : call_frame) (fd : fd_t) (size offset : Z)
  | WIND_writev (fr : call_frame) (fd : fd_t) (vector : list iovec) (offset : Z)
  | WIND_truncate (fr : call_frame) (offset : Z)
  | WIND_ftruncate (fr : call_frame) (fd : fd_t) (offset : Z)
  | INODE_ref
  | INODE_unref
  (** the process reads through a NULL pointer and is killed *)
  | NULL_deref.

#[export] Instance call_frame_eq_dec : EqDecision call_frame.
Proof. solve_decision. Defined.
#[export] Instance flock_eq_dec : EqDecision flock.
Proof. solve_decision. Defined.
#[export] Instance posix_lock_eq_dec : EqDecision posix_lock.
Proof. solve_decision. Defined.
#[export] Instance entrylk_type_eq_dec : EqDecision entrylk_type.
Proof. solve_decision. Defined.
