(* ===== verification/PlInode.v ===== *)
(** * features/locks: the per-inode state

    Model of the parts of xlators/features/locks/src/common.c that create and
    keep the [pl_inode_t] of an inode: [pl_inode_get], the list of domains,
    and the reference the translator holds while an inode has locks.

    The context slot of the inode is an [option pl_inode].  Every allocation
    is a boolean argument that says whether it succeeds; [inode_ctx_put]
    always finds a slot.

    Then what entrylk.c and inodelk.c have in common.  A domain keeps a list of
    held locks and a queue of waiting ones; a request is granted, put at the
    end of the queue, or refused.  [Conflict] is all the two lock classes have
    to provide; the invariant of the queue and its preservation are proved
    once against it. *)

From stdpp Require Import base list numbers strings.
From S2P Require Import Prelude LocksData.
Open Scope Z_scope.

Definition has_bits (v mask : Z) : bool := negb (Z.land v mask =? 0).

Definition pl_inode_get (calloc_ok : bool) (st_mode : Z) (ctx : option pl_inode) :
    option pl_inode :=
  match ctx with
  | Some p => Some p
  | None =>
      if calloc_ok then
        Some (mk_pl_inode [] [] []
                (has_bits st_mode S_ISGID && negb (has_bits st_mode S_IXGRP)) false)
      else None
  end.

Definition allocate_domain (calloc_ok strdup_ok : bool) (volume : string) :
    option pl_dom_list :=
  if calloc_ok then if strdup_ok then Some (mk_dom volume [] [] [] []) else None
  else None.

(** [get_domain]: the domain and the inode that has it. *)
Definition get_domain (calloc_ok strdup_ok : bool) (p : pl_inode) (volume : string) :
    option (pl_inode * pl_dom_list) :=
  match List.find (fun d => String.eqb (domain d) volume) (dom_list p) with
  | Some d => Some (p, d)
  | None =>
      match allocate_domain calloc_ok strdup_ok volume with
      | Some d => Some (set_dom_list (list_add d (dom_list p)) p, d)
      | None => None
      end
  end.

(** The code works on a [pl_dom_list_t] in place: the inode with the domain
    of [d]'s name replaced by [d]. *)
Fixpoint put_dom (d : pl_dom_list) (l : list pl_dom_list) : list pl_dom_list :=
  match l with
  | [] => []
  | d' :: l' => if String.eqb (domain d') (domain d) then d :: l' else d' :: put_dom d l'
  end.

Definition put_domain (d : pl_dom_list) (p : pl_inode) : pl_inode :=
  set_dom_list (put_dom d (dom_list p)) p.

Definition is_nil {A} (l : list A) : bool := match l with [] => true | _ => false end.

Definition __pl_inode_is_empty (p : pl_inode) : bool :=
  is_nil (ext_list p) &&
  forallb (fun d => is_nil (entrylk_list d) && is_nil (inodelk_list d)) (dom_list p).

(** [pl_update_refkeeper]: [None] when [pl_inode_get] returned NULL, which
    the function dereferences. *)
Definition pl_update_refkeeper (calloc_ok : bool) (st_mode : Z) (ctx : option pl_inode) :
    option (pl_inode * list event) :=
  match pl_inode_get calloc_ok st_mode ctx with
  | None => None
  | Some p =>
      let is_empty := __pl_inode_is_empty p in
      if is_empty && refkeeper p then Some (set_refkeeper false p, [INODE_unref])
      else if negb is_empty && negb (refkeeper p) then
        Some (set_refkeeper true p, [INODE_ref])
      else Some (p, [])
  end.

(** The domains of an inode have different names. *)
Definition doms_ok (p : pl_inode) : Prop := NoDup (map domain (dom_list p)).

(** Every domain of an inode satisfies [P]. *)
Definition Forall_dom (P : pl_dom_list -> Prop) (p : pl_inode) : Prop :=
  Forall P (dom_list p).

Lemma pl_inode_get_dom P c m ctx p :
  (forall q, ctx = Some q -> Forall_dom P q) ->
  pl_inode_get c m ctx = Some p -> Forall_dom P p.
Proof.
  unfold pl_inode_get. destruct ctx as [q|]; [intros Hq [= <-]; eauto|].
  destruct c; intros _ [= <-]. constructor.
Qed.

Lemma get_domain_elem c s p v p' d :
  get_domain c s p v = Some (p', d) -> d ∈ dom_list p' /\ domain d = v.
Proof.
  unfold get_domain. destruct (List.find _ _) eqn:Hf.
  - intros [= -> ->]. apply List.find_some in Hf as [Hin Heq%String.eqb_eq].
    by apply list_elem_of_In in Hin.
  - unfold allocate_domain. destruct c, s; intros [= <- <-]. split; [left|done].
Qed.

Lemma get_domain_dom (P : pl_dom_list -> Prop) c s p v p' d :
  get_domain c s p v = Some (p', d) -> P (mk_dom v [] [] [] []) ->
  Forall_dom P p -> Forall_dom P p' /\ P d.
Proof.
  intros Hg Hnew Hp. assert (Forall_dom P p') as Hp'.
  { unfold get_domain in Hg. destruct (List.find _ _); [by simplify_eq|].
    unfold allocate_domain in Hg. destruct c, s; simplify_eq. by constructor. }
  split; [done|]. apply get_domain_elem in Hg as [Hin _].
  unfold Forall_dom in Hp'. rewrite Forall_forall in Hp'. auto.
Qed.

Lemma put_domain_dom (P : pl_dom_list -> Prop) d p :
  Forall_dom P p -> P d -> Forall_dom P (put_domain d p).
Proof.
  unfold Forall_dom, put_domain. simpl. intros HP Hd.
  induction HP as [|d' l Hd' Hl IH]; simpl; [constructor|].
  destruct (String.eqb _ _); constructor; auto.
Qed.

Lemma put_dom_names d l : map domain (put_dom d l) = map domain l.
Proof.
  induction l as [|d' l IH]; [done|]. simpl.
  destruct (String.eqb_spec (domain d') (domain d)) as [->|]; simpl; congruence.
Qed.

Lemma is_empty_refkeeper b p : __pl_inode_is_empty (set_refkeeper b p) = __pl_inode_is_empty p.
Proof. done. Qed.

(** The reference is held exactly while a lock is. *)
Lemma update_refkeeper_spec c m ctx p ev :
  pl_update_refkeeper c m ctx = Some (p, ev) ->
  refkeeper p = negb (__pl_inode_is_empty p).
Proof.
  unfold pl_update_refkeeper. destruct (pl_inode_get c m ctx) as [q|]; [|done].
  pose proof (fun b => is_empty_refkeeper b q) as Hq.
  destruct (__pl_inode_is_empty q) eqn:He, (refkeeper q) eqn:Hr; simpl;
    intros [= <- _]; rewrite ?Hq, ?He, ?Hr; done.
Qed.

(** What [pl_update_refkeeper] leaves alone. *)
Lemma update_refkeeper_lists c m ctx p ev :
  pl_update_refkeeper c m ctx = Some (p, ev) ->
  exists q, pl_inode_get c m ctx = Some q /\ dom_list p = dom_list q /\
    ext_list p = ext_list q /\ rw_list p = rw_list q /\ mandatory p = mandatory q.
Proof.
  unfold pl_update_refkeeper. destruct (pl_inode_get c m ctx) as [q|]; [|done].
  intros Hp. exists q. split; [done|].
  destruct (__pl_inode_is_empty q), (refkeeper q); simpl in Hp; by simplify_eq.
Qed.

(** ** Held and waiting requests of a domain *)

(** The relation that keeps two locks from being held together. *)
Class Conflict (L : Type) := conflicts : L -> L -> Prop.

Section WaitQueue.
Context {L : Type} `{!Conflict L}.

(** No two held locks conflict. *)
Definition exclusive (held : list L) : Prop := pairwise (fun a b => ~ conflicts a b) held.

(** Every waiting lock has a reason to wait: a held lock, or an earlier
    waiting one, that it conflicts with. *)
Definition justified (held queue : list L) : Prop :=
  forall pre b post, queue = pre ++ b :: post -> Exists (conflicts b) (held ++ pre).

Record queue_inv (held queue : list L) : Prop := {
  qi_exclusive : exclusive held;
  qi_justified : justified held queue
}.

(** One request [b] on a domain. *)
Inductive try_step (b : L) (held queue : list L) : list L -> list L -> Prop :=
  | try_grant g :
      (forall c, conflicts g c -> conflicts b c) ->
      Forall (fun c => ~ conflicts b c) held -> try_step b held queue (g :: held) queue
  | try_wait w :
      (forall c, conflicts b c -> conflicts w c) ->
      Exists (conflicts b) (held ++ queue) -> try_step b held queue held (queue ++ [w])
  | try_refuse : try_step b held queue held queue.

Lemma justified_nil held : justified held [].
Proof. intros pre b post Heq. by destruct pre. Qed.

Lemma justified_mono held held' queue :
  (forall c, c ∈ held -> c ∈ held') -> justified held queue -> justified held' queue.
Proof.
  intros Hs Hj pre b post Heq. specialize (Hj pre b post Heq).
  apply Exists_elem in Hj as (c & Hc & ?). apply Exists_elem. exists c. split; [|done].
  rewrite elem_of_app in Hc |- *. destruct Hc; auto.
Qed.

Lemma justified_snoc held queue w :
  justified held queue -> Exists (conflicts w) (held ++ queue) -> justified held (queue ++ [w]).
Proof.
  intros Hj Hw pre b post Heq. destruct post as [|p post _] using rev_ind.
  - apply app_inj_tail in Heq as [<- <-]. done.
  - rewrite app_comm_cons, app_assoc in Heq. apply app_inj_tail in Heq as [-> _]. eauto.
Qed.

Lemma try_step_inv b held queue held' queue' :
  try_step b held queue held' queue' -> queue_inv held queue -> queue_inv held' queue'.
Proof.
  intros [g Hg Hfree|w Hw Hex|] [He Hj]; split; auto.
  - split; [|done]. eapply Forall_impl; [exact Hfree|]. intros c Hn ?. apply Hn, Hg. done.
  - eapply justified_mono, Hj. by right.
  - apply justified_snoc; [done|]. eapply Exists_impl; [exact Hex|]. auto.
Qed.

Lemma try_step_held b held queue held' queue' :
  try_step b held queue held' queue' -> forall c, c ∈ held -> c ∈ held'.
Proof. intros []; [by right|done..]. Qed.

(** The head of a justified queue waits for a held lock. *)
Lemma justified_head held b queue :
  justified held (b :: queue) -> Exists (conflicts b) held.
Proof. intros Hj. specialize (Hj [] b queue eq_refl). by rewrite app_nil_r in Hj. Qed.

(** Nobody waits at a domain in which nothing is held. *)
Lemma nobody_waits_free queue : justified [] queue -> queue = [].
Proof.
  destruct queue as [|b queue]; [done|]. intros Hj%justified_head. by apply Exists_nil in Hj.
Qed.

Lemma exclusive_sublist held held' : sublist held' held -> exclusive held -> exclusive held'.
Proof. apply pairwise_sublist. Qed.

End WaitQueue.
