(* ===== verification/PosixLk.v ===== *)
(** * features/locks: fcntl (byte-range) locks

    Model of xlators/features/locks/src/common.c: the list [ext_list] of held
    and blocked locks of an inode, the test whether a request is grantable,
    the merge of a granted request into the list, and the re-examination of
    blocked requests; with [__rw_allowable] and [do_blocked_rw] of posix.c,
    which [pl_setlk] runs last. *)

From stdpp Require Import base list numbers strings.
From S2P Require Import Prelude LocksData.
Open Scope Z_scope.

(** ** Single locks *)

Definition fd_to_fdnum (fd : fd_t) : Z := fd_ptr fd.

(** A CALLOCed [posix_lock_t]. *)
Definition posix_lock0 : posix_lock :=
  mk_posix_lock 0 0 0 false flock0 0 None 0 0 0.

Definition new_posix_lock (calloc_ok : bool) (fl : flock)
    (trans pid own : Z) (fd : fd_t) : option posix_lock :=
  if calloc_ok then
    Some (mk_posix_lock (l_type fl) (l_start fl)
            (if l_len fl =? 0 then LLONG_MAX
             else i64 (l_start fl + l_len fl - 1))
            false flock0 (fd_to_fdnum fd) None trans pid own)
  else None.

Definition posix_lock_to_flock (lock : posix_lock) (fl : flock) : flock :=
  mk_flock (fl_type lock) (l_whence fl) (fl_start lock)
    (if fl_end lock =? LLONG_MAX then 0
     else i64 (fl_end lock - fl_start lock + 1))
    (client_pid lock).

Definition locks_overlap (l1 l2 : posix_lock) : bool :=
  (fl_start l2 <=? fl_end l1) && (fl_start l1 <=? fl_end l2).

Definition same_owner (l1 l2 : posix_lock) : bool :=
  (owner l1 =? owner l2) && (transport l1 =? transport l2).

(** [add_locks]: only the range of the sum is set, the rest is zero. *)
Definition add_locks (l1 l2 : posix_lock) : posix_lock :=
  set_fl_range (Z.min (fl_start l1) (fl_start l2))
    (Z.max (fl_end l1) (fl_end l2)) posix_lock0.

(** [subtract_locks]: the non-NULL entries of [v.locks], in order. *)
Definition subtract_locks (big small : posix_lock) : list posix_lock :=
  if (fl_start big =? fl_start small) && (fl_end big =? fl_end small) then
    [set_fl_type (fl_type small) big]
  else if (fl_start big <? fl_start small) && (fl_end small <? fl_end big) then
    [set_fl_range (fl_start big) (fl_start small - 1) big;
     small;
     set_fl_range (fl_end small + 1) (fl_end big) big]
  else if fl_start small =? fl_start big then
    [set_fl_range (fl_end small + 1) (fl_end big) big; small]
  else if fl_end small =? fl_end big then
    [set_fl_range (fl_start big) (fl_start small - 1) big; small]
  else [].

(** ** The list of locks of an inode *)

Definition __insert_lock (ext : list posix_lock) (lock : posix_lock) :
    list posix_lock :=
  list_add_tail lock ext.

Definition __delete_unlck_locks (ext : list posix_lock) : list posix_lock :=
  filter (fun l => fl_type l <> F_UNLCK) ext.

Definition first_overlap (ext : list posix_lock) (lock : posix_lock) :
    option posix_lock :=
  List.find (fun l => negb (blocked l) && locks_overlap l lock) ext.

(** The condition under which the loop of [__is_lock_grantable] breaks. *)
Definition lock_denied_by (lock l : posix_lock) : bool :=
  negb (blocked l) && locks_overlap lock l &&
  (((fl_type l =? F_WRLCK) || (fl_type lock =? F_WRLCK)) &&
   negb (fl_type lock =? F_UNLCK) && negb (same_owner l lock)).

Definition __is_lock_grantable (ext : list posix_lock) (lock : posix_lock) : bool :=
  negb (existsb (lock_denied_by lock) ext).

(** Where the loop of [__insert_and_merge] leaves off: at an overlapping lock
    [conf] of the same owner, with [rest] the list without it; at a read lock
    of another owner while reading; or at the end of the list. *)
Inductive scan_result :=
  | scan_conf (conf : posix_lock) (rest : list posix_lock)
  | scan_shared
  | scan_end.

Fixpoint merge_scan (lock : posix_lock) (before after : list posix_lock) :
    scan_result :=
  match after with
  | [] => scan_end
  | conf :: t =>
      if negb (locks_overlap conf lock) then merge_scan lock (before ++ [conf]) t
      else if same_owner conf lock then scan_conf conf (before ++ t)
      else if fl_type lock =? F_UNLCK then merge_scan lock (before ++ [conf]) t
      else if (fl_type conf =? F_RDLCK) && (fl_type lock =? F_RDLCK) then scan_shared
      else merge_scan lock (before ++ [conf]) t
  end.

(** [add_locks (lock, conf)] with the identity of [src], as both branches of
    [__insert_and_merge] fill it in. *)
Definition merge_sum (lock conf src : posix_lock) : posix_lock :=
  let sum := add_locks lock conf in
  mk_posix_lock (fl_type src) (fl_start sum) (fl_end sum) (blocked sum)
    (user_flock sum) (fd_num src) (frame sum) (transport src)
    (client_pid src) (owner src).

(** [__insert_and_merge] calls itself on the merged lock or on the pieces of
    a split; [fuel] bounds the depth of these calls, [None] is running out. *)
Fixpoint __insert_and_merge (fuel : nat) (ext : list posix_lock)
    (lock : posix_lock) : option (list posix_lock) :=
  match fuel with
  | O => None
  | S fuel' =>
      match merge_scan lock [] ext with
      | scan_conf conf rest =>
          if fl_type conf =? fl_type lock then
            __insert_and_merge fuel' rest (merge_sum lock conf lock)
          else
            fmap __delete_unlck_locks
              (foldl (fun acc piece => acc ≫= fun e => __insert_and_merge fuel' e piece)
                 (Some rest)
                 (subtract_locks (merge_sum lock conf conf) lock))
      | scan_shared => Some (__insert_lock ext lock)
      | scan_end =>
          Some (if negb (fl_type lock =? F_UNLCK) then __insert_lock ext lock else ext)
      end
  end.

(** Enough calls for any list of well-formed locks ([insert_and_merge_fuel]). *)
Definition merge_fuel (ext : list posix_lock) : nat :=
  let n := S (length ext) in S (2 * n * n)%nat.

Definition insert_and_merge (ext : list posix_lock) (lock : posix_lock) :
    list posix_lock :=
  default ext (__insert_and_merge (merge_fuel ext) ext lock).

(** ** Suspended reads and writes (posix.c) *)

Definition stub_is_read (s : rw_stub) : bool :=
  match s with readv_stub _ _ _ _ => true | writev_stub _ _ _ _ => false end.

(** [call_resume] of such a stub runs [pl_readv_cont] or [pl_writev_cont]. *)
Definition call_resume (s : rw_stub) : event :=
  match s with
  | readv_stub fr fd size offset => WIND_readv fr fd size offset
  | writev_stub fr fd vector offset => WIND_writev fr fd vector offset
  end.

Definition rw_denied_by (reg : posix_lock) (is_read : bool) (l : posix_lock) : bool :=
  locks_overlap l reg && negb (same_owner l reg) &&
  negb (is_read && negb (fl_type l =? F_WRLCK)).

Definition __rw_allowable (ext : list posix_lock) (reg : posix_lock)
    (is_read : bool) : bool :=
  negb (existsb (rw_denied_by reg is_read) ext).

Definition do_blocked_rw (p : pl_inode) : pl_inode * list event :=
  let allowed rw :=
    __rw_allowable (ext_list p) (region rw) (stub_is_read (rw_call rw)) in
  (set_rw_list (List.filter (fun rw => negb (allowed rw)) (rw_list p)) p,
   map (fun rw => call_resume (rw_call rw)) (List.filter allowed (rw_list p))).

(** ** Blocked requests *)

(** First loop of [__grant_blocked_locks]: a blocked lock that overlaps no
    held lock leaves the list for [tmp_list]. *)
Fixpoint grant_scan (before after tmp : list posix_lock) :
    list posix_lock * list posix_lock :=
  match after with
  | [] => (before, tmp)
  | l :: t =>
      if blocked l then
        match first_overlap (before ++ l :: t) l with
        | Some _ => grant_scan (before ++ [l]) t tmp
        | None => grant_scan before t (list_add_tail (set_blocked false l) tmp)
        end
      else grant_scan (before ++ [l]) t tmp
  end.

Section Grant.
(** Whether the CALLOC of the reply record of a lock succeeds. *)
Variable calloc_ok : posix_lock -> bool.

(** Second loop of [__grant_blocked_locks], over the locks of [tmp_list]. *)
Fixpoint grant_loop (ext tmp granted : list posix_lock) :
    list posix_lock * list posix_lock :=
  match tmp with
  | [] => (ext, granted)
  | l :: t =>
      if __is_lock_grantable ext l then
        if calloc_ok l then
          let conf := set_user_flock (posix_lock_to_flock l flock0)
                        (set_frame (frame l) posix_lock0) in
          grant_loop (insert_and_merge ext (set_frame None l)) t
            (list_add conf granted)
        else grant_loop (__insert_lock ext (set_blocked true l)) t granted
      else grant_loop (__insert_lock ext (set_blocked true l)) t granted
  end.

Definition __grant_blocked_locks (ext : list posix_lock) :
    list posix_lock * list posix_lock :=
  let '(ext', tmp) := grant_scan [] ext [] in grant_loop ext' tmp [].

Definition grant_blocked_locks (p : pl_inode) : pl_inode * list event :=
  let '(ext', granted) := __grant_blocked_locks (ext_list p) in
  (set_ext_list ext' p,
   map (fun conf => UNWIND_lk (frame conf) 0 0 (user_flock conf)) granted).

(** ** Entry points *)

(** [pl_setlk]: the new inode, the replies and resumed calls, the return
    value and errno. *)
Definition pl_setlk (p : pl_inode) (lock : posix_lock) (can_block : bool) :
    pl_inode * list event * (Z * Z) :=
  let '(p1, ret) :=
    if __is_lock_grantable (ext_list p) lock then
      (set_ext_list (insert_and_merge (ext_list p) lock) p, (0, 0))
    else if can_block then
      (set_ext_list (__insert_lock (ext_list p) (set_blocked true lock)) p, (-1, 0))
    else (p, (-1, EAGAIN)) in
  let '(p2, ev2) := grant_blocked_locks p1 in
  let '(p3, ev3) := do_blocked_rw p2 in
  (p3, ev2 ++ ev3, ret).

(** [pl_getlk]: the first overlapping held lock, or the request as unlocked. *)
Definition pl_getlk (p : pl_inode) (lock : posix_lock) : posix_lock :=
  match first_overlap (ext_list p) lock with
  | None => set_fl_type F_UNLCK lock
  | Some conf => conf
  end.

End Grant.
