(* ===== verification/PosixLkFacts.v ===== *)
(** * features/locks: theorems about fcntl locks *)

From stdpp Require Import base list numbers strings.
From S2P Require Import Prelude LocksData PosixLk.
Open Scope Z_scope.

(** ** Ranges *)

(** The bytes a lock covers, and locks with a non-empty range. *)
Definition covers (l : posix_lock) (x : Z) : Prop := fl_start l <= x <= fl_end l.
Definition wf_lock (l : posix_lock) : Prop := fl_start l <= fl_end l.

#[export] Instance covers_dec l x : Decision (covers l x).
Proof. unfold covers. apply _. Defined.

Lemma locks_overlap_true l1 l2 :
  locks_overlap l1 l2 = true <-> fl_start l2 <= fl_end l1 /\ fl_start l1 <= fl_end l2.
Proof. unfold locks_overlap. rewrite andb_true_iff, !Z.leb_le. done. Qed.

Lemma locks_overlap_sym l1 l2 : locks_overlap l1 l2 = locks_overlap l2 l1.
Proof. unfold locks_overlap. apply andb_comm. Qed.

Lemma locks_overlap_covers l1 l2 :
  wf_lock l1 -> wf_lock l2 ->
  locks_overlap l1 l2 = true <-> exists x, covers l1 x /\ covers l2 x.
Proof.
  unfold wf_lock, covers. intros. rewrite locks_overlap_true. split.
  - intros. exists (Z.max (fl_start l1) (fl_start l2)). lia.
  - intros [x ?]. lia.
Qed.

Lemma same_owner_true l1 l2 :
  same_owner l1 l2 = true <-> owner l1 = owner l2 /\ transport l1 = transport l2.
Proof. unfold same_owner. rewrite andb_true_iff, !Z.eqb_eq. done. Qed.

Lemma same_owner_refl l : same_owner l l = true.
Proof. by apply same_owner_true. Qed.

Lemma same_owner_sym l1 l2 : same_owner l1 l2 = same_owner l2 l1.
Proof. unfold same_owner. by rewrite (Z.eqb_sym (owner l1)), (Z.eqb_sym (transport l1)). Qed.

Lemma same_owner_trans l1 l2 l3 :
  same_owner l1 l2 = true -> same_owner l1 l3 = same_owner l2 l3.
Proof. rewrite same_owner_true. unfold same_owner. by intros [-> ->]. Qed.

#[export] Hint Resolve same_owner_refl : locks.

(** ** The pieces of [__insert_and_merge] *)

Lemma merge_sum_covers lock conf src x :
  locks_overlap conf lock = true ->
  covers (merge_sum lock conf src) x <-> covers lock x \/ covers conf x.
Proof. rewrite locks_overlap_true. unfold covers, merge_sum; simpl. lia. Qed.

(** The four ways [subtract_locks] is used: [big] covers [small]. *)
Lemma subtract_locks_cases big small :
  fl_start big <= fl_start small -> fl_end small <= fl_end big ->
  let left := set_fl_range (fl_start big) (fl_start small - 1) big in
  let right := set_fl_range (fl_end small + 1) (fl_end big) big in
  (fl_start big = fl_start small /\ fl_end big = fl_end small /\
   subtract_locks big small = [set_fl_type (fl_type small) big]) \/
  (fl_start big < fl_start small /\ fl_end small < fl_end big /\
   subtract_locks big small = [left; small; right]) \/
  (fl_start big = fl_start small /\ fl_end small < fl_end big /\
   subtract_locks big small = [right; small]) \/
  (fl_start big < fl_start small /\ fl_end small = fl_end big /\
   subtract_locks big small = [left; small]).
Proof.
  intros. unfold subtract_locks.
  destruct (Z.eqb_spec (fl_start big) (fl_start small)),
    (Z.eqb_spec (fl_end big) (fl_end small)),
    (Z.ltb_spec (fl_start big) (fl_start small)),
    (Z.ltb_spec (fl_end small) (fl_end big)),
    (Z.eqb_spec (fl_start small) (fl_start big)),
    (Z.eqb_spec (fl_end small) (fl_end big)); simpl; try lia; tauto.
Qed.

Lemma merge_scan_conf lock conf rest before after :
  merge_scan lock before after = scan_conf conf rest ->
  exists a1 a2, after = a1 ++ conf :: a2 /\ rest = before ++ a1 ++ a2 /\
    locks_overlap conf lock = true /\ same_owner conf lock = true.
Proof.
  revert before; induction after as [|c t IH]; intros before; simpl; [done|].
  assert (merge_scan lock (before ++ [c]) t = scan_conf conf rest ->
    exists a1 a2, c :: t = a1 ++ conf :: a2 /\ rest = before ++ a1 ++ a2 /\
    locks_overlap conf lock = true /\ same_owner conf lock = true) as Hnext.
  { intros (a1 & a2 & -> & -> & ?)%IH. exists (c :: a1), a2.
    rewrite <-!app_assoc. auto. }
  destruct (locks_overlap c lock) eqn:Hov; simpl; [|done].
  destruct (same_owner c lock) eqn:Hown.
  { intros [= <- <-]. exists [], t. auto. }
  destruct (fl_type lock =? F_UNLCK); [done|].
  by destruct ((fl_type c =? F_RDLCK) && (fl_type lock =? F_RDLCK)).
Qed.

Lemma merge_scan_perm lock ext conf rest :
  merge_scan lock [] ext = scan_conf conf rest ->
  ext ≡ₚ conf :: rest /\ locks_overlap conf lock = true /\
  same_owner conf lock = true.
Proof.
  intros (a1 & a2 & -> & -> & ?)%merge_scan_conf. split; [|done].
  simpl. by rewrite Permutation_middle.
Qed.

(** ** [__insert_and_merge] terminates

    A set of sample points that contains the start of every lock and the byte
    behind its end is closed under merging and splitting, and two overlapping
    locks share a point of it.  Every recursive call therefore lowers the
    number of (lock, point) incidences. *)

Definition weight (pts : list Z) (l : posix_lock) : nat :=
  length (filter (covers l) pts).

Definition total (pts : list Z) (ext : list posix_lock) : nat :=
  sum_list_with (weight pts) ext.

Definition sampled (pts : list Z) (l : posix_lock) : Prop :=
  wf_lock l /\ fl_start l ∈ pts /\ fl_end l + 1 ∈ pts.

Definition sample_points (ext : list posix_lock) : list Z :=
  map fl_start ext ++ map (fun l => fl_end l + 1) ext.

Lemma total_perm pts ext ext' : ext ≡ₚ ext' -> total pts ext = total pts ext'.
Proof. unfold total. induction 1; simpl; lia. Qed.

(** Counting one point: [filter] over a cons, as an arithmetic equation. *)
Lemma weight_cons p pts l :
  weight (p :: pts) l = ((if decide (covers l p) then 1 else 0) + weight pts l)%nat.
Proof. unfold weight. rewrite filter_cons. by destruct (decide _). Qed.

Ltac by_points pts :=
  induction pts as [|?p pts ?IH]; [done|]; rewrite ?weight_cons;
  repeat case_decide; unfold covers in *; simpl in *; lia.

Lemma weight_merge pts lock conf src :
  sampled pts lock -> sampled pts conf -> locks_overlap conf lock = true ->
  (weight pts (merge_sum lock conf src) < weight pts lock + weight pts conf)%nat.
Proof.
  intros (? & Hs1 & _) (? & Hs2 & _) Hov%locks_overlap_true. unfold wf_lock in *.
  set (inter := set_fl_range (Z.max (fl_start lock) (fl_start conf))
                  (Z.min (fl_end lock) (fl_end conf)) lock).
  assert (weight pts (merge_sum lock conf src) + weight pts inter
          = weight pts lock + weight pts conf)%nat as Heq.
  { clear Hs1 Hs2. by_points pts. }
  assert (0 < weight pts inter)%nat; [|lia].
  assert (fl_start inter ∈ filter (covers inter) pts) as Hin.
  { apply list_elem_of_filter. split; [unfold covers; simpl; lia|].
    simpl. destruct (Z.max_spec (fl_start lock) (fl_start conf)) as [[_ ->]|[_ ->]]; done. }
  unfold weight. destruct (filter _ pts); [by apply elem_of_nil in Hin|simpl; lia].
Qed.

Lemma weight_subtract pts big small :
  wf_lock small -> fl_start big <= fl_start small -> fl_end small <= fl_end big ->
  total pts (subtract_locks big small) = weight pts big.
Proof.
  unfold wf_lock, total. intros.
  destruct (subtract_locks_cases big small)
    as [(? & ? & ->)|[(? & ? & ->)|[(? & ? & ->)|(? & ? & ->)]]]; [done..| | | |];
    simpl; by_points pts.
Qed.

Lemma sampled_merge pts lock conf src :
  sampled pts lock -> sampled pts conf -> sampled pts (merge_sum lock conf src).
Proof.
  intros (? & ? & ?) (? & ? & ?). unfold sampled, wf_lock in *; simpl.
  destruct (Z.min_spec (fl_start lock) (fl_start conf)) as [[? ->]|[? ->]],
    (Z.max_spec (fl_end lock) (fl_end conf)) as [[? ->]|[? ->]]; split_and!; auto; lia.
Qed.

Lemma sampled_subtract pts big small :
  sampled pts big -> sampled pts small ->
  fl_start big <= fl_start small -> fl_end small <= fl_end big ->
  Forall (sampled pts) (subtract_locks big small).
Proof.
  intros Hb Hs ??.
  destruct (subtract_locks_cases big small)
    as [(? & ? & ->)|[(? & ? & ->)|[(? & ? & ->)|(? & ? & ->)]]]; [done..| | | |];
    repeat constructor; unfold sampled, wf_lock in *; simpl; destruct_and?;
    replace (fl_start small - 1 + 1) with (fl_start small) by lia; auto; lia.
Qed.

Lemma merge_sum_outside lock conf src :
  fl_start (merge_sum lock conf src) <= fl_start lock /\
  fl_end lock <= fl_end (merge_sum lock conf src).
Proof. simpl. lia. Qed.

(** The pieces of a split, inserted one after the other. *)
Definition insert_pieces (fuel : nat) (rest pieces : list posix_lock) :
    option (list posix_lock) :=
  foldl (fun acc piece => acc ≫= fun e => __insert_and_merge fuel e piece)
    (Some rest) pieces.

Lemma insert_pieces_cons fuel rest piece pieces :
  insert_pieces fuel rest (piece :: pieces) =
  e ← __insert_and_merge fuel rest piece; insert_pieces fuel e pieces.
Proof.
  unfold insert_pieces; simpl. destruct (__insert_and_merge fuel rest piece); [done|].
  simpl. induction pieces; done.
Qed.

Definition enough pts fuel ext lock : Prop :=
  exists r, __insert_and_merge fuel ext lock = Some r /\ Forall (sampled pts) r /\
    (total pts r <= total pts ext + weight pts lock)%nat.

Lemma insert_pieces_enough pts fuel pieces :
  (forall ext lock, Forall (sampled pts) ext -> sampled pts lock ->
     (total pts ext + weight pts lock < fuel)%nat -> enough pts fuel ext lock) ->
  forall rest, Forall (sampled pts) rest -> Forall (sampled pts) pieces ->
  (total pts rest + total pts pieces < fuel)%nat ->
  exists r, insert_pieces fuel rest pieces = Some r /\ Forall (sampled pts) r /\
    (total pts r <= total pts rest + total pts pieces)%nat.
Proof.
  intros IH. induction pieces as [|p ps IHp]; intros rest Hr Hps Hlt.
  { exists rest. split_and!; [done..|lia]. }
  apply Forall_cons in Hps as [Hp Hps].
  assert (total pts (p :: ps) = weight pts p + total pts ps)%nat as Ht by done.
  destruct (IH rest p) as (r & Heq & Hs & Hle); [done..|lia|].
  destruct (IHp r) as (r' & Heq' & Hs' & Hle'); [done..|lia|].
  exists r'. rewrite insert_pieces_cons, Heq. simpl. split_and!; auto. lia.
Qed.

Lemma total_filter pts (P : posix_lock -> Prop) `{!forall x, Decision (P x)} ext :
  (total pts (filter P ext) <= total pts ext)%nat.
Proof.
  unfold total. induction ext as [|a l IH]; [done|].
  rewrite filter_cons. case_decide; simpl; lia.
Qed.

Lemma insert_enough pts fuel ext lock :
  Forall (sampled pts) ext -> sampled pts lock ->
  (total pts ext + weight pts lock < fuel)%nat -> enough pts fuel ext lock.
Proof.
  revert ext lock. induction fuel as [|fuel IH]; [lia|]. intros ext lock Hext Hl Hlt.
  assert (total pts (ext ++ [lock]) = total pts ext + weight pts lock)%nat as Happ.
  { unfold total. rewrite sum_list_with_app. simpl. lia. }
  unfold enough; simpl. destruct (merge_scan lock [] ext) as [conf rest| |] eqn:Hscan.
  - apply merge_scan_perm in Hscan as (Hp & Hov & _).
    rewrite Hp in Hext. apply Forall_cons in Hext as [Hc Hrest].
    pose proof (total_perm pts _ _ Hp) as Ht.
    assert (total pts (conf :: rest) = weight pts conf + total pts rest)%nat as Ht' by done.
    destruct (fl_type conf =? fl_type lock).
    + pose proof (weight_merge pts lock conf lock Hl Hc Hov).
      destruct (IH rest (merge_sum lock conf lock)) as (r & -> & ? & ?);
        [done|by apply sampled_merge|lia|]. exists r. split_and!; auto. lia.
    + pose proof (weight_merge pts lock conf conf Hl Hc Hov).
      destruct (merge_sum_outside lock conf conf) as [Ho1 Ho2].
      pose proof (weight_subtract pts _ lock (proj1 Hl) Ho1 Ho2).
      destruct (insert_pieces_enough pts fuel
                  (subtract_locks (merge_sum lock conf conf) lock) IH rest)
        as (r & Heq & ? & ?); [done|apply sampled_subtract; auto using sampled_merge|lia|].
      unfold insert_pieces in Heq. rewrite Heq. simpl. eexists. split_and!; [done| |].
      * by apply Forall_filter.
      * unfold __delete_unlck_locks. pose proof (total_filter pts (fun l => fl_type l <> F_UNLCK) r).
        lia.
  - exists (ext ++ [lock]). split_and!; [done| |lia]. apply Forall_app; auto.
  - destruct (negb _).
    + exists (ext ++ [lock]). split_and!; [done| |lia]. apply Forall_app; auto.
    + exists ext. split_and!; [done..|lia].
Qed.

Lemma weight_le pts l : (weight pts l <= length pts)%nat.
Proof. apply length_filter. Qed.

Lemma total_le pts ext : (total pts ext <= length ext * length pts)%nat.
Proof.
  unfold total. induction ext as [|a l IH]; simpl; [lia|]. pose proof (weight_le pts a). lia.
Qed.

Lemma sample_points_elem ext l :
  l ∈ ext -> fl_start l ∈ sample_points ext /\ fl_end l + 1 ∈ sample_points ext.
Proof.
  intros. unfold sample_points. rewrite !elem_of_app.
  split; [left|right]; apply list_elem_of_fmap; eauto.
Qed.

(** The fuel of [insert_and_merge] is never exhausted. *)
Lemma merge_fuel_enough ext lock :
  Forall wf_lock ext -> wf_lock lock ->
  __insert_and_merge (merge_fuel ext) ext lock = Some (insert_and_merge ext lock).
Proof.
  intros Hext Hl. set (pts := sample_points (lock :: ext)).
  assert (Forall (sampled pts) (lock :: ext)) as [Hls Hes]%Forall_cons.
  { rewrite Forall_forall. intros l Hin. split; [|by apply sample_points_elem].
    apply elem_of_cons in Hin as [->|Hin]; [done|]. by eapply Forall_forall in Hext. }
  destruct (insert_enough pts (merge_fuel ext) ext lock) as (r & Heq & _); auto.
  - pose proof (total_le pts ext). pose proof (weight_le pts lock).
    assert (length pts = 2 * S (length ext))%nat as Hlen.
    { unfold pts, sample_points. rewrite length_app, !length_map. simpl. lia. }
    rewrite Hlen in *. unfold merge_fuel. nia.
  - unfold insert_and_merge. by rewrite Heq.
Qed.

(** More fuel does not change the result. *)
Lemma insert_fuel_mono fuel fuel' ext lock r :
  (fuel <= fuel')%nat -> __insert_and_merge fuel ext lock = Some r ->
  __insert_and_merge fuel' ext lock = Some r.
Proof.
  revert fuel' ext lock r. induction fuel as [|fuel IH]; [done|].
  intros [|fuel'] ext lock r Hle; [lia|]. simpl.
  destruct (merge_scan lock [] ext) as [conf rest| |]; [|done..].
  destruct (fl_type conf =? fl_type lock); [apply IH; lia|].
  fold (insert_pieces fuel rest (subtract_locks (merge_sum lock conf conf) lock)).
  fold (insert_pieces fuel' rest (subtract_locks (merge_sum lock conf conf) lock)).
  intros Hr. destruct (insert_pieces fuel rest _) as [r'|] eqn:Hp; [|done].
  assert (forall ps e r, insert_pieces fuel e ps = Some r -> insert_pieces fuel' e ps = Some r) as Hps.
  { induction ps as [|p ps IHp]; intros e r0; [done|]. rewrite !insert_pieces_cons.
    destruct (__insert_and_merge fuel e p) as [e'|] eqn:He; [|done].
    rewrite (IH fuel' e p e' ltac:(lia) He). apply IHp. }
  by rewrite (Hps _ _ _ Hp).
Qed.

(** ** What [__insert_and_merge] does to a list *)

(** A predicate on locks that merging and splitting preserve. *)
Record merge_closed (P : posix_lock -> Prop) : Prop := {
  mc_merge : forall lock conf, P lock -> P conf ->
    locks_overlap conf lock = true -> same_owner conf lock = true ->
    fl_type conf = fl_type lock -> P (merge_sum lock conf lock);
  mc_split : forall lock conf, P lock -> P conf ->
    locks_overlap conf lock = true -> same_owner conf lock = true ->
    fl_type conf <> fl_type lock ->
    Forall P (subtract_locks (merge_sum lock conf conf) lock)
}.

Lemma insert_pieces_ind (Q : list posix_lock -> Prop) (P : posix_lock -> Prop) fuel :
  (forall e piece r, Q e -> P piece -> __insert_and_merge fuel e piece = Some r -> Q r) ->
  forall pieces rest r, Q rest -> Forall P pieces ->
  insert_pieces fuel rest pieces = Some r -> Q r.
Proof.
  intros IH. induction pieces as [|p ps IHp]; intros rest r HQ HP.
  { intros [= <-]. done. }
  apply Forall_cons in HP as [? ?]. rewrite insert_pieces_cons.
  destruct (__insert_and_merge fuel rest p) as [e|] eqn:He; simpl; [|done].
  eapply IHp; eauto.
Qed.

(** The outcome of a call that meets an overlapping lock of the owner. *)
Lemma insert_conf_cases fuel ext lock conf rest r :
  merge_scan lock [] ext = scan_conf conf rest ->
  __insert_and_merge (S fuel) ext lock = Some r ->
  (fl_type conf = fl_type lock /\
   __insert_and_merge fuel rest (merge_sum lock conf lock) = Some r) \/
  (fl_type conf <> fl_type lock /\ exists r',
   insert_pieces fuel rest (subtract_locks (merge_sum lock conf conf) lock) = Some r' /\
   r = __delete_unlck_locks r').
Proof.
  intros Hscan. simpl. rewrite Hscan.
  destruct (Z.eqb_spec (fl_type conf) (fl_type lock)); [by left|right].
  split; [done|]. unfold insert_pieces.
  destruct (foldl _ _ _) as [r'|]; simpl in *; [|done]. simplify_eq. eauto.
Qed.

(** The outcome of one call, by cases. *)
Lemma insert_and_merge_cases fuel ext lock r :
  __insert_and_merge (S fuel) ext lock = Some r ->
  (exists conf rest, merge_scan lock [] ext = scan_conf conf rest /\
     ext ≡ₚ conf :: rest /\ locks_overlap conf lock = true /\
     same_owner conf lock = true /\
     ((fl_type conf = fl_type lock /\
       __insert_and_merge fuel rest (merge_sum lock conf lock) = Some r) \/
      (fl_type conf <> fl_type lock /\ exists r',
       insert_pieces fuel rest (subtract_locks (merge_sum lock conf conf) lock) = Some r' /\
       r = __delete_unlck_locks r'))) \/
  (fl_type lock = F_UNLCK /\ r = ext) \/
  (fl_type lock <> F_UNLCK /\ r = ext ++ [lock]).
Proof.
  destruct (merge_scan lock [] ext) as [conf rest| |] eqn:Hscan.
  { pose proof (merge_scan_perm _ _ _ _ Hscan) as (Hp & Hov & Hown). intros Hr. left.
    exists conf, rest. split_and!; auto. by eapply insert_conf_cases. }
  all: simpl; rewrite Hscan.
  - intros [= <-]. right; right. split; [|done].
    clear -Hscan. revert Hscan. generalize (@nil posix_lock).
    induction ext as [|c t IH]; simpl; intros b; [done|].
    destruct (negb _); [apply IH|]. destruct (same_owner c lock); [done|].
    destruct (Z.eqb_spec (fl_type lock) F_UNLCK); [apply IH|done].
  - intros [= <-]. right. destruct (Z.eqb_spec (fl_type lock) F_UNLCK); simpl; auto.
Qed.

Lemma insert_closed P fuel ext lock r :
  merge_closed P -> __insert_and_merge fuel ext lock = Some r ->
  Forall P ext -> P lock -> Forall P r.
Proof.
  intros HP. revert ext lock r. induction fuel as [|fuel IH]; [done|].
  intros ext lock r [Hc|[[_ ->]|[_ ->]]]%insert_and_merge_cases Hext Hl; [|done|].
  - destruct Hc as (conf & rest & _ & Hp & Hov & Hown & Hc). rewrite Hp in Hext.
    apply Forall_cons in Hext as [Hconf Hrest].
    destruct Hc as [[Ht Hr]|(Ht & r' & Hr & ->)].
    + eapply IH; [exact Hr|done|]. by apply (mc_merge P HP).
    + apply Forall_filter. eapply (insert_pieces_ind (Forall P) P); [|exact Hrest| |exact Hr].
      * eauto.
      * by apply (mc_split P HP).
  - apply Forall_app; auto.
Qed.

(** No unlock request ever stays in the list. *)
Definition not_unlck (l : posix_lock) : Prop := fl_type l <> F_UNLCK.

Lemma delete_unlck_not_unlck ext : Forall not_unlck (__delete_unlck_locks ext).
Proof. apply Forall_forall. by intros l [? _]%list_elem_of_filter. Qed.

Lemma delete_unlck_id ext :
  Forall not_unlck ext -> __delete_unlck_locks ext = ext.
Proof.
  unfold __delete_unlck_locks. induction 1 as [|l t Hl _ IH]; [done|].
  rewrite filter_cons, IH. by rewrite decide_True.
Qed.

Lemma insert_not_unlck fuel ext lock r :
  __insert_and_merge fuel ext lock = Some r -> Forall not_unlck ext -> Forall not_unlck r.
Proof.
  revert ext lock r. induction fuel as [|fuel IH]; [done|].
  intros ext lock r [Hc|[[_ ->]|[? ->]]]%insert_and_merge_cases Hext; [|done|].
  - destruct Hc as (conf & rest & _ & Hp & _ & _ & Hc). rewrite Hp in Hext.
    apply Forall_cons in Hext as [? ?].
    destruct Hc as [[_ ?]|(_ & r' & _ & ->)]; eauto using delete_unlck_not_unlck.
  - apply Forall_app; auto.
Qed.

(** Membership in the pieces of a split of [merge_sum lock conf conf]. *)
Lemma split_elem lock conf piece :
  locks_overlap conf lock = true -> wf_lock lock -> wf_lock conf ->
  piece ∈ subtract_locks (merge_sum lock conf conf) lock ->
  wf_lock piece /\
  (piece = lock \/
   (blocked piece = false /\ owner piece = owner conf /\
    transport piece = transport conf /\
    ((fl_type piece = fl_type lock /\ forall x, covers piece x <-> covers lock x) \/
     (fl_type piece = fl_type conf /\
      forall x, covers piece x -> covers conf x /\ ~ covers lock x)))).
Proof.
  intros Hov%locks_overlap_true ??. unfold wf_lock in *.
  destruct (merge_sum_outside lock conf conf) as [? ?].
  destruct (subtract_locks_cases (merge_sum lock conf conf) lock)
    as [(? & ? & ->)|[(? & ? & ->)|[(? & ? & ->)|(? & ? & ->)]]]; [done..| | | |];
    rewrite !elem_of_cons, elem_of_nil; intros; destruct_or?; subst;
    try done; (split; [simpl in *; lia|]); auto;
    right; split_and!; try done; unfold covers; simpl in *;
    solve [left; split; [done|intros; lia] | right; split; [done|intros; lia]].
Qed.

(** The pieces of a split cover exactly the merged range. *)
Lemma split_covers lock conf x :
  locks_overlap conf lock = true -> wf_lock lock -> wf_lock conf ->
  covers lock x \/ covers conf x ->
  exists piece, piece ∈ subtract_locks (merge_sum lock conf conf) lock /\ covers piece x.
Proof.
  intros Hov ?? Hx. apply (merge_sum_covers lock conf conf x Hov) in Hx.
  apply locks_overlap_true in Hov. unfold wf_lock in *.
  destruct (merge_sum_outside lock conf conf) as [? ?].
  set (sum := merge_sum lock conf conf) in *.
  destruct (subtract_locks_cases sum lock)
    as [(? & ? & ->)|[(? & ? & ->)|[(? & ? & ->)|(? & ? & ->)]]]; [done..| | | |];
    setoid_rewrite elem_of_cons; unfold covers in *.
  - eexists; split; [by left|]. simpl in *; lia.
  - destruct (decide (x < fl_start lock)); [|destruct (decide (x <= fl_end lock))];
      setoid_rewrite elem_of_cons; setoid_rewrite elem_of_cons.
    + eexists; split; [by left|]. simpl in *; lia.
    + eexists; split; [by right; left|]. simpl in *; lia.
    + eexists; split; [by right; right; left|]. simpl in *; lia.
  - setoid_rewrite elem_of_cons. destruct (decide (x <= fl_end lock)).
    + eexists; split; [by right; left|]. simpl in *; lia.
    + eexists; split; [by left|]. simpl in *; lia.
  - setoid_rewrite elem_of_cons. destruct (decide (x < fl_start lock)).
    + eexists; split; [by left|]. simpl in *; lia.
    + eexists; split; [by right; left|]. simpl in *; lia.
Qed.

Lemma wf_closed : merge_closed wf_lock.
Proof.
  split; intros lock conf ?? Hov **; [unfold wf_lock in *; simpl; lia|].
  apply Forall_forall. intros p Hp. by eapply split_elem.
Qed.

(** Every byte of a lock of the result was covered, for the same owner and
    with the same type, by the request or by a lock of the list. *)
Definition traced (src : list posix_lock) (l : posix_lock) : Prop :=
  forall x, covers l x -> exists c, c ∈ src /\ same_owner c l = true /\
    fl_type c = fl_type l /\ covers c x.

Definition from (src : list posix_lock) (l : posix_lock) : Prop :=
  wf_lock l /\ traced src l /\ (l ∈ src \/ blocked l = false).

Lemma traced_mono src (l l' : posix_lock) :
  traced src l -> same_owner l l' = true -> fl_type l = fl_type l' ->
  (forall x, covers l' x -> covers l x) -> traced src l'.
Proof.
  intros Htr Hown Hty Hsub x (c & ? & Hc & ? & ?)%Hsub%Htr. exists c. split_and!; auto.
  - by rewrite (same_owner_trans _ _ _ Hc).
  - congruence.
Qed.

Lemma from_closed src : merge_closed (from src).
Proof.
  split; intros lock conf (Hw & Htr & Hb) (Hw' & Htr' & Hb') Hov Hown Hty.
  - split_and!; [unfold wf_lock in *; simpl; lia| |by right].
    intros x [Hx|Hx]%(merge_sum_covers _ _ _ x Hov); [by apply Htr|].
    destruct (Htr' x Hx) as (c & ? & Hc & ? & ?). exists c. split_and!; auto; [|simpl; congruence].
    rewrite (same_owner_trans _ _ _ Hc). done.
  - apply Forall_forall. intros piece Hin.
    destruct (split_elem lock conf piece Hov Hw Hw' Hin)
      as [Hwp [->|(Hbp & Ho & Ht & Hcase)]]; [done|].
    split_and!; [done| |by right]. apply same_owner_true in Hown as [? ?].
    destruct Hcase as [[Hpt Hcov]|[Hpt Hcov]].
    + apply (traced_mono _ lock); [done|apply same_owner_true; split; congruence|done|].
      intros x. by rewrite Hcov.
    + apply (traced_mono _ conf); [done|apply same_owner_true; split; congruence|done|].
      intros x Hx. by apply Hcov.
Qed.

Lemma from_src src l : wf_lock l -> l ∈ src -> from src l.
Proof.
  intros ??. split_and!; auto. intros x ?. exists l. split_and!; auto with locks.
Qed.

Lemma insert_and_merge_from ext lock :
  Forall wf_lock ext -> wf_lock lock ->
  Forall (from (lock :: ext)) (insert_and_merge ext lock).
Proof.
  intros Hext Hl. eapply insert_closed; [apply from_closed|by apply merge_fuel_enough| |].
  - rewrite Forall_forall in *. intros l Hin. apply from_src; [auto|by right].
  - apply from_src; [done|left].
Qed.

(** The locks of all owners but that of [q]. *)
Definition others (q : posix_lock) (ext : list posix_lock) : list posix_lock :=
  filter (fun l => ~ same_owner l q = true) ext.

Lemma others_own q l ext : same_owner l q = true -> others q (l :: ext) = others q ext.
Proof. intros. unfold others. rewrite filter_cons, decide_False; auto. Qed.

Lemma others_app q e1 e2 : others q (e1 ++ e2) = others q e1 ++ others q e2.
Proof. apply filter_app. Qed.

Lemma split_own lock conf piece :
  locks_overlap conf lock = true -> wf_lock lock -> wf_lock conf ->
  same_owner conf lock = true ->
  piece ∈ subtract_locks (merge_sum lock conf conf) lock -> same_owner piece lock = true.
Proof.
  intros Hov ?? Hown Hin.
  destruct (split_elem lock conf piece Hov) as [_ [->|(_ & Ho & Ht & _)]]; auto with locks.
  apply same_owner_true in Hown as [? ?]. apply same_owner_true. split; congruence.
Qed.

Lemma others_delete_unlck q ext :
  others q (__delete_unlck_locks ext) = __delete_unlck_locks (others q ext).
Proof. unfold others, __delete_unlck_locks. rewrite !list_filter_filter.
  apply list_filter_iff. tauto. Qed.

Lemma insert_others fuel ext lock r q :
  __insert_and_merge fuel ext lock = Some r -> Forall wf_lock ext -> wf_lock lock ->
  Forall not_unlck ext -> same_owner lock q = true -> others q r = others q ext.
Proof.
  revert ext lock r. induction fuel as [|fuel IH]; [done|].
  intros ext lock r [Hc|[[_ ->]|[_ ->]]]%insert_and_merge_cases Hw Hl Hu Hq; [|done|].
  2:{ rewrite others_app, (others_own q lock); [|done]. apply app_nil_r. }
  destruct Hc as (conf & rest & Hscan & Hp & Hov & Hown & Hc).
  apply merge_scan_conf in Hscan as (a1 & a2 & -> & -> & _). simpl in *.
  assert (others q (a1 ++ conf :: a2) = others q (a1 ++ a2)) as ->.
  { rewrite !others_app, others_own; [done|]. by rewrite (same_owner_trans _ _ _ Hown). }
  rewrite Hp in Hw, Hu. apply Forall_cons in Hw as [Hwc Hw]. apply Forall_cons in Hu as [Huc Hu].
  destruct Hc as [[Ht Hr]|(Ht & r' & Hr & ->)].
  - eapply IH; eauto. unfold wf_lock in *. simpl. lia.
  - rewrite others_delete_unlck.
    set (Q e := Forall wf_lock e /\ Forall not_unlck e /\ others q e = others q (a1 ++ a2)).
    set (P l := wf_lock l /\ same_owner l q = true).
    assert (Q r') as (_ & ? & Heq).
    { eapply (insert_pieces_ind Q P); [|by split_and!| |exact Hr].
      - intros e piece r (? & ? & He) [? ?] Hins. split_and!.
        + eapply insert_closed; [|exact Hins|done..]. apply wf_closed.
        + by eapply insert_not_unlck.
        + rewrite <-He. by eapply IH.
      - apply Forall_forall. intros p Hin. split; [by eapply split_elem|].
        by rewrite (same_owner_trans _ lock) by (by eapply split_own). }
    rewrite <-Heq, <-others_delete_unlck. by rewrite delete_unlck_id.
Qed.

(** ** Mutual exclusion *)

Definition conflict (a b : posix_lock) : Prop :=
  locks_overlap a b = true /\ same_owner a b = false /\
  (fl_type a = F_WRLCK \/ fl_type b = F_WRLCK).

(** Two granted locks never conflict. *)
Definition compatible (a b : posix_lock) : Prop :=
  blocked a = false -> blocked b = false -> ~ conflict a b.

(** No owner waits for two locks. *)
Definition single_wait (a b : posix_lock) : Prop :=
  blocked a = true -> blocked b = true -> same_owner a b = false.

#[export] Instance compatible_sym : Symmetric compatible.
Proof.
  intros a b Hab Hb Ha (Hov & Hown & Hty). apply Hab; [done..|].
  split; [by rewrite locks_overlap_sym|]. split; [by rewrite same_owner_sym|tauto].
Qed.

#[export] Instance single_wait_sym : Symmetric single_wait.
Proof. intros a b Hab ??. rewrite same_owner_sym. auto. Qed.

Record lk_inv (ext : list posix_lock) : Prop := {
  inv_wf : Forall wf_lock ext;
  inv_unlck : Forall not_unlck ext;
  inv_compatible : pairwise compatible ext;
  inv_wait : pairwise single_wait ext
}.

#[export] Instance lk_inv_proper : Proper ((≡ₚ) ==> iff) lk_inv.
Proof.
  assert (forall e e', e ≡ₚ e' -> lk_inv e -> lk_inv e') as Hone.
  { intros e e' Hp [????]. split; by rewrite <-Hp. }
  intros e e' Hp. split; apply Hone; [done|by symmetry].
Qed.

Lemma lk_inv_sublist ext ext' : sublist ext' ext -> lk_inv ext -> lk_inv ext'.
Proof.
  intros Hs [????]. split; try by eapply pairwise_sublist.
  - eapply Forall_sublist; eauto.
  - eapply Forall_sublist; eauto.
Qed.

(** The owner of [lock] waits for no lock. *)
Definition not_waiting (ext : list posix_lock) (lock : posix_lock) : Prop :=
  Forall (fun l => blocked l = true -> same_owner l lock = false) ext.

Lemma grantable_spec ext lock :
  __is_lock_grantable ext lock = true <->
  fl_type lock = F_UNLCK \/
  Forall (fun l => blocked l = false -> ~ conflict lock l) ext.
Proof.
  unfold __is_lock_grantable. rewrite negb_true_iff.
  rewrite <-not_true_iff_false, existsb_exists, Forall_forall. split.
  - intros Hn. destruct (decide (fl_type lock = F_UNLCK)) as [|Hu]; [by left|right].
    intros l Hin Hb (Hov & Hown & Hty). apply Hn. exists l. split; [by apply list_elem_of_In|].
    unfold lock_denied_by. rewrite Hb, Hov, (same_owner_sym l lock), Hown.
    rewrite <-Z.eqb_neq in Hu. rewrite Hu. simpl.
    destruct Hty as [->| ->]; rewrite Z.eqb_refl, ?orb_true_r; done.
  - intros Hc (l & Hin%list_elem_of_In & Hd). unfold lock_denied_by in Hd.
    rewrite !andb_true_iff, orb_true_iff, !negb_true_iff, !Z.eqb_eq, Z.eqb_neq in Hd.
    destruct Hd as ((Hb & Hov) & (Hty & Hu) & Hown).
    destruct Hc as [|Hc]; [done|]. apply (Hc l Hin Hb). split_and!; [done| |tauto].
    by rewrite same_owner_sym.
Qed.

(** A refused request conflicts with a granted lock of another owner. *)
Lemma not_grantable ext lock :
  __is_lock_grantable ext lock = false ->
  exists l, l ∈ ext /\ blocked l = false /\ conflict lock l.
Proof.
  unfold __is_lock_grantable. rewrite negb_false_iff, existsb_exists.
  intros (l & Hin%list_elem_of_In & Hd). exists l. unfold lock_denied_by in Hd.
  rewrite !andb_true_iff, orb_true_iff, !negb_true_iff, !Z.eqb_eq in Hd.
  destruct Hd as ((Hb & Hov) & (Hty & _) & Hown).
  split_and!; [done..|]. split_and!; [done|by rewrite same_owner_sym|tauto].
Qed.

Lemma conflict_covers a b :
  wf_lock a -> wf_lock b -> conflict a b <->
  same_owner a b = false /\ (fl_type a = F_WRLCK \/ fl_type b = F_WRLCK) /\
  exists x, covers a x /\ covers b x.
Proof. intros. unfold conflict. rewrite locks_overlap_covers by done. tauto. Qed.

Lemma insert_wf ext lock :
  Forall wf_lock ext -> wf_lock lock -> Forall wf_lock (insert_and_merge ext lock).
Proof.
  intros. eapply insert_closed; [apply wf_closed|by apply merge_fuel_enough|done..].
Qed.

(** A blocked lock of the result was blocked before. *)
Lemma insert_blocked ext lock l :
  Forall wf_lock ext -> wf_lock lock -> blocked lock = false ->
  l ∈ insert_and_merge ext lock -> blocked l = true -> l ∈ ext.
Proof.
  intros He Hl Hb Hin Hbl. pose proof (insert_and_merge_from ext lock He Hl) as Hf.
  rewrite Forall_forall in Hf. destruct (Hf l Hin) as (_ & _ & [Hs|?]); [|congruence].
  apply elem_of_cons in Hs as [->|?]; [congruence|done].
Qed.

Section Insert.
(** A request granted on a list of locks, of an owner that waits for none. *)
Context (ext : list posix_lock) (lock : posix_lock).
Context (Hinv : lk_inv ext) (Hwf : wf_lock lock) (Hbl : blocked lock = false).
Context (Hgrant : __is_lock_grantable ext lock = true).
Context (Hnw : not_waiting ext lock).

Let r := insert_and_merge ext lock.

Lemma insert_others_eq : others lock r = others lock ext.
Proof using Hinv Hwf.
  destruct Hinv. eapply insert_others; eauto using merge_fuel_enough with locks.
Qed.

Lemma insert_others_elem l : same_owner l lock = false -> l ∈ r <-> l ∈ ext.
Proof using Hinv Hwf.
  intros Ho. pose proof (list_elem_of_filter (fun l => ~ same_owner l lock = true)) as Hf.
  assert (~ same_owner l lock = true) as Ho' by congruence.
  pose proof (Hf r l) as Hr. pose proof (Hf ext l) as He.
  pose proof insert_others_eq as Heq. unfold others in Heq. rewrite Heq in Hr. tauto.
Qed.

Lemma insert_own_held l : l ∈ r -> same_owner l lock = true -> blocked l = false.
Proof using Hinv Hwf Hbl Hnw.
  intros Hin Ho. destruct (blocked l) eqn:Hb; [|done].
  assert (l ∈ ext) as Hin'. { eapply insert_blocked; eauto. apply Hinv. }
  unfold not_waiting in Hnw. rewrite Forall_forall in Hnw. by rewrite (Hnw l Hin' Hb) in Ho.
Qed.

Lemma insert_own_compatible l o :
  l ∈ r -> same_owner l lock = true -> o ∈ r -> same_owner o lock = false ->
  compatible l o.
Proof using Hinv Hwf Hbl Hnw Hgrant.
  intros Hl Hlo Ho Hoo _ Hob Hconf. apply insert_others_elem in Ho; [|done].
  destruct Hinv as [Hw Hu Hc _]. pose proof (insert_not_unlck _ _ _ _ (merge_fuel_enough ext lock Hw Hwf) Hu) as Hu'.
  pose proof (insert_and_merge_from ext lock Hw Hwf) as Hf. unfold not_waiting in Hnw.
  rewrite Forall_forall in Hf, Hw, Hu', Hnw.
  destruct (Hf l Hl) as (Hwl & Htr & _).
  apply conflict_covers in Hconf as (Hso & Hty & x & Hx & Hxo); [|by auto..].
  destruct (Htr x Hx) as (c & Hc' & Hco & Hct & Hcx). apply elem_of_cons in Hc' as [->|Hin].
  - apply grantable_spec in Hgrant as [Hun|Hg]; [by destruct (Hu' l Hl); congruence|].
    rewrite Forall_forall in Hg. apply (Hg o Ho Hob), conflict_covers; eauto.
    split_and!; [by rewrite same_owner_sym|by rewrite Hct|eauto].
  - assert (same_owner c lock = true) as Hcl by by rewrite (same_owner_trans _ _ _ Hco).
    destruct (blocked c) eqn:Hcb; [by rewrite (Hnw c Hin Hcb) in Hcl|].
    assert (c <> o) as Hne by congruence.
    apply list_elem_of_split in Hin as (e1 & e2 & ->).
    assert (e1 ++ c :: e2 ≡ₚ c :: e1 ++ e2) as Hp by by rewrite Permutation_middle.
    rewrite Hp in Hc, Ho. apply elem_of_cons in Ho as [->|Ho]; [done|].
    destruct Hc as [Hc _]. rewrite Forall_forall in Hc. apply (Hc o Ho Hcb Hob).
    apply conflict_covers; [apply Hw; rewrite Hp; by left|apply Hw; rewrite Hp; by right|].
    split_and!; [by rewrite (same_owner_trans _ _ _ Hco)|by rewrite Hct|eauto].
Qed.

Lemma insert_inv : lk_inv r.
Proof using Hinv Hwf Hbl Hnw Hgrant.
  destruct Hinv as [Hw Hu Hc Hs]. pose proof insert_others_eq as Heq.
  split; [by apply insert_wf|by eapply insert_not_unlck, Hu; apply merge_fuel_enough| |];
    (apply (pairwise_split _ (fun l => same_owner l lock = true));
     [|fold (others lock r); rewrite Heq; by apply pairwise_filter|]).
  - apply pairwise_intro.
    intros x y [Hx _]%list_elem_of_filter [Hy _]%list_elem_of_filter _ _ (_ & Hxy & _).
    rewrite (same_owner_sym y) in Hy. by rewrite (same_owner_trans _ _ _ Hx), Hy in Hxy.
  - intros x y ??? Hno%not_true_is_false. by apply insert_own_compatible.
  - apply pairwise_intro. intros x y [Hx Hxr]%list_elem_of_filter _ Hxb.
    by rewrite (insert_own_held x Hxr Hx) in Hxb.
  - intros x y Hx Hox ?? Hb. by rewrite (insert_own_held x Hx Hox) in Hb.
Qed.

Lemma insert_not_waiting q : not_waiting ext q -> not_waiting r q.
Proof using Hinv Hwf Hbl.
  unfold not_waiting. rewrite !Forall_forall. intros Hq l Hin Hb. apply Hq; [|done].
  eapply insert_blocked; eauto. apply Hinv.
Qed.

End Insert.

(** The waiting locks of a list are untouched by a granted request. *)
Definition waiting (ext : list posix_lock) : list posix_lock :=
  filter (fun l => blocked l = true) ext.

Lemma waiting_others q ext : not_waiting ext q -> waiting ext = waiting (others q ext).
Proof.
  intros Hnw. unfold waiting, others. rewrite list_filter_filter.
  apply filter_ext_Forall. eapply Forall_impl; [exact Hnw|]. simpl. intros l Hl. split; [|tauto].
  intros Hb. split; [done|]. by rewrite Hl.
Qed.

Lemma insert_waiting ext lock :
  lk_inv ext -> wf_lock lock -> blocked lock = false -> not_waiting ext lock ->
  waiting (insert_and_merge ext lock) = waiting ext.
Proof.
  intros. rewrite (waiting_others lock ext), (waiting_others lock (insert_and_merge ext lock)).
  - by rewrite insert_others_eq.
  - by apply insert_not_waiting.
  - done.
Qed.

(** ** Bytes that stay locked *)

Definition held_at (ext : list posix_lock) (x : Z) : Prop :=
  exists l, l ∈ ext /\ blocked l = false /\ covers l x.

Lemma insert_held_at fuel ext lock r x :
  __insert_and_merge fuel ext lock = Some r ->
  Forall wf_lock ext -> wf_lock lock -> Forall not_unlck ext -> not_unlck lock ->
  blocked lock = false ->
  held_at ext x \/ covers lock x -> held_at r x.
Proof.
  revert ext lock r. induction fuel as [|fuel IH]; [done|].
  intros ext lock r [Hc|[[? ->]|[_ ->]]]%insert_and_merge_cases Hw Hl Hu Hul Hb Hx; [|done|].
  2:{ destruct Hx as [(l & ? & ?)|Hx]; [exists l|exists lock]; rewrite elem_of_app, elem_of_cons;
      tauto. }
  destruct Hc as (conf & rest & _ & Hp & Hov & Hown & Hc).
  assert (held_at rest x \/ covers conf x \/ covers lock x) as Hx'.
  { destruct Hx as [(l & Hin & ? & ?)|?]; [|tauto]. rewrite Hp in Hin.
    apply elem_of_cons in Hin as [->|?]; [tauto|]. left. exists l. auto. }
  rewrite Hp in Hw, Hu. apply Forall_cons in Hw as [Hwc Hw]. apply Forall_cons in Hu as [Huc Hu].
  destruct Hc as [[Ht Hr]|(Ht & r' & Hr & ->)].
  - eapply IH; eauto; [unfold wf_lock in *; simpl; lia|].
    rewrite merge_sum_covers by done. tauto.
  - assert (Forall (fun p => wf_lock p /\ not_unlck p /\ blocked p = false)
              (subtract_locks (merge_sum lock conf conf) lock)) as Hps.
    { apply Forall_forall. intros p Hin. unfold not_unlck in *.
      destruct (split_elem _ _ _ Hov Hl Hwc Hin) as [? [->|(? & _ & _ & [[-> _]|[-> _]])]]; auto. }
    assert (held_at rest x \/ exists p,
      p ∈ subtract_locks (merge_sum lock conf conf) lock /\ covers p x) as Hx''.
    { destruct Hx' as [|Hx']; [by left|right]. apply split_covers; auto. tauto. }
    clear Hx Hx'. revert Hps Hx'' Hr. generalize (subtract_locks (merge_sum lock conf conf) lock).
    revert Hw Hu. clear -IH. revert rest. intros rest Hw Hu ps. revert rest Hw Hu.
    induction ps as [|p ps IHp]; intros rest Hw Hu Hps Hx.
    + intros [= <-]. rewrite delete_unlck_id by done.
      destruct Hx as [?|(? & []%elem_of_nil & _)]; done.
    + apply Forall_cons in Hps as [(? & ? & ?) ?]. rewrite insert_pieces_cons.
      destruct (__insert_and_merge fuel rest p) as [e|] eqn:He; simpl; [|done].
      apply IHp; auto.
      * eapply insert_closed; eauto using wf_closed.
      * by eapply insert_not_unlck.
      * destruct Hx as [?|(q & Hq & ?)]; [left; eapply IH; eauto|].
        apply elem_of_cons in Hq as [->|?]; [left; eapply IH; eauto|eauto].
Qed.

Lemma first_overlap_some ext l h :
  first_overlap ext l = Some h -> h ∈ ext /\ blocked h = false /\ locks_overlap h l = true.
Proof.
  intros [Hin Hb]%List.find_some. apply andb_true_iff in Hb as [Hb ?].
  apply list_elem_of_In in Hin. by apply negb_true_iff in Hb.
Qed.

Lemma first_overlap_none ext l h :
  first_overlap ext l = None -> h ∈ ext -> blocked h = false -> locks_overlap h l = false.
Proof.
  intros Hn Hin%list_elem_of_In Hb. apply (List.find_none _ _ Hn) in Hin.
  by rewrite Hb in Hin.
Qed.

(** ** Granting blocked requests *)

Definition requeue (tmp : list posix_lock) : list posix_lock := map (set_blocked true) tmp.

Definition held (ext : list posix_lock) : list posix_lock :=
  filter (fun l => blocked l = false) ext.

Definition overlaps_one (hs : list posix_lock) (b : posix_lock) : Prop :=
  exists h, h ∈ hs /\ locks_overlap h b = true.

Lemma set_blocked_restore l : blocked l = true -> set_blocked true (set_blocked false l) = l.
Proof. destruct l; simpl. by intros ->. Qed.

Lemma grant_scan_perm before after tmp e t :
  grant_scan before after tmp = (e, t) ->
  e ++ requeue t ≡ₚ before ++ after ++ requeue tmp /\
  (Forall (fun l => blocked l = false) tmp -> Forall (fun l => blocked l = false) t).
Proof.
  revert before tmp. induction after as [|l after IH]; intros before tmp; simpl.
  { by intros [= <- <-]. }
  destruct (blocked l) eqn:Hb; [destruct (first_overlap _ l)|].
  - intros [Hp ?]%IH. split; [|done]. by rewrite Hp, <-app_assoc.
  - intros [Hp Hf]%IH. split.
    + rewrite Hp. unfold requeue, list_add_tail. rewrite map_app. simpl.
      rewrite set_blocked_restore by done. solve_Permutation.
    + intros ?. apply Hf, Forall_app; auto.
  - intros [Hp ?]%IH. split; [|done]. by rewrite Hp, <-app_assoc.
Qed.

Lemma held_app e1 e2 : held (e1 ++ e2) = held e1 ++ held e2.
Proof. apply filter_app. Qed.

Lemma held_cons_blocked l e : blocked l = true -> held (l :: e) = held e.
Proof. intros Hb. unfold held. rewrite filter_cons, decide_False; [done|congruence]. Qed.

Lemma grant_scan_waits before after tmp e t :
  grant_scan before after tmp = (e, t) ->
  Forall (overlaps_one (held (before ++ after))) (waiting before) ->
  held e = held (before ++ after) /\
  Forall (overlaps_one (held (before ++ after))) (waiting e).
Proof.
  revert before tmp. induction after as [|l after IH]; intros before tmp; simpl.
  { intros [= <- <-]. rewrite app_nil_r. auto. }
  intros Hscan Hf. replace (before ++ l :: after) with ((before ++ [l]) ++ after) in *
    by by rewrite <-app_assoc.
  destruct (blocked l) eqn:Hb; [destruct (first_overlap _ l) as [h|] eqn:Hfo|].
  - eapply IH; eauto. unfold waiting in *. rewrite filter_app. apply Forall_app. split; [done|].
    rewrite filter_cons, decide_True by done. repeat constructor. exists h.
    apply first_overlap_some in Hfo as (? & ? & ?). split; [|done].
    apply list_elem_of_filter. auto.
  - assert (held ((before ++ [l]) ++ after) = held (before ++ after)) as Heq.
    { rewrite !held_app, held_cons_blocked by done. by rewrite app_nil_r. }
    rewrite Heq in *. eapply IH; eauto.
  - eapply IH; eauto. unfold waiting in *. rewrite filter_app. apply Forall_app. split; [done|].
    rewrite filter_cons, decide_False by congruence. constructor.
Qed.

(** Requests that left the list for [tmp_list], seen as still blocked. *)
Record grant_inv (ext tmp : list posix_lock) : Prop := {
  gi_inv : lk_inv (ext ++ requeue tmp);
  gi_tmp : Forall (fun l => blocked l = false) tmp
}.

Lemma grant_scan_inv ext e t :
  lk_inv ext -> grant_scan [] ext [] = (e, t) -> grant_inv e t.
Proof.
  intros Hinv [Hp Ht]%grant_scan_perm. split; [|by apply Ht].
  rewrite Hp. simpl. by rewrite app_nil_r.
Qed.

Lemma requeue_cons l tmp : requeue (l :: tmp) = set_blocked true l :: requeue tmp.
Proof. done. Qed.

Lemma requeue_elem l tmp : l ∈ requeue tmp -> blocked l = true.
Proof. intros (? & -> & _)%list_elem_of_fmap. done. Qed.

Lemma grant_inv_head ext l tmp :
  grant_inv ext (l :: tmp) ->
  lk_inv ext /\ wf_lock l /\ not_unlck l /\ blocked l = false /\ not_waiting ext l.
Proof.
  intros [Hinv Htmp]. apply Forall_cons in Htmp as [Hb _].
  split; [by eapply lk_inv_sublist, Hinv; apply sublist_inserts_r|].
  destruct Hinv as [Hw Hu _ Hs]. rewrite requeue_cons in *.
  rewrite Forall_app, Forall_cons in Hw, Hu. destruct Hw as (_ & Hw & _), Hu as (_ & Hu & _).
  split_and!; auto. apply pairwise_app in Hs as (_ & _ & Hs).
  apply Forall_forall. intros x Hx Hxb. apply (Hs x (set_blocked true l)); auto. by left.
Qed.

Lemma grant_inv_insert ext l tmp :
  grant_inv ext (l :: tmp) -> __is_lock_grantable ext l = true ->
  grant_inv (insert_and_merge ext (set_frame None l)) tmp.
Proof.
  intros Hg Hgr. destruct (grant_inv_head _ _ _ Hg) as (He & Hw & Hu & Hb & Hn).
  destruct Hg as [Hinv Htmp]. apply Forall_cons in Htmp as [_ Htmp]. split; [|done].
  assert (lk_inv (insert_and_merge ext (set_frame None l))) as [W U C S].
  { by apply insert_inv. }
  destruct Hinv as [W' U' C' S']. rewrite requeue_cons in *.
  rewrite Forall_app, Forall_cons in W', U'.
  apply pairwise_app in C' as (_ & [_ C'] & _). apply pairwise_app in S' as (_ & [_ S'] & Sx).
  split; [apply Forall_app; tauto| apply Forall_app; tauto| |]; apply pairwise_app; split_and!; auto.
  - intros x y _ Hy%requeue_elem _. congruence.
  - intros x y Hx Hy Hxb Hyb. apply (Sx x y); [|by right|done..].
    by eapply insert_blocked, Hxb; [apply He| | |exact Hx].
Qed.

Lemma grant_inv_requeue ext l tmp :
  grant_inv ext (l :: tmp) -> grant_inv (__insert_lock ext (set_blocked true l)) tmp.
Proof.
  intros [Hinv Htmp]. apply Forall_cons in Htmp as [_ Htmp]. split; [|done].
  rewrite requeue_cons in Hinv. unfold __insert_lock, list_add_tail. by rewrite <-app_assoc.
Qed.

Section GrantFacts.
Context (calloc_ok : posix_lock -> bool).

Lemma grant_loop_inv tmp ext granted e g :
  grant_inv ext tmp -> grant_loop calloc_ok ext tmp granted = (e, g) -> lk_inv e.
Proof.
  revert ext granted. induction tmp as [|l tmp IH]; intros ext granted Hg; simpl.
  { intros [= <- <-]. destruct Hg as [Hi _]. simpl in Hi. by rewrite app_nil_r in Hi. }
  destruct (__is_lock_grantable ext l) eqn:Hgr; [destruct (calloc_ok l)|]; apply IH;
    auto using grant_inv_insert, grant_inv_requeue.
Qed.

Lemma grant_blocked_inv ext e g :
  lk_inv ext -> __grant_blocked_locks calloc_ok ext = (e, g) -> lk_inv e.
Proof.
  intros Hinv. unfold __grant_blocked_locks. destruct (grant_scan [] ext []) as [e0 t] eqn:Hs.
  apply grant_loop_inv. by eapply grant_scan_inv.
Qed.

(** Every request that waited either still waits or is in the reply list. *)
Lemma grant_loop_frames tmp ext granted e g :
  grant_inv ext tmp -> grant_loop calloc_ok ext tmp granted = (e, g) ->
  map frame (waiting e) ++ map frame g ≡ₚ
  map frame (waiting ext) ++ map frame tmp ++ map frame granted.
Proof.
  revert ext granted. induction tmp as [|l tmp IH]; intros ext granted Hg; simpl.
  { by intros [= <- <-]. }
  assert (grant_loop calloc_ok (__insert_lock ext (set_blocked true l)) tmp granted = (e, g) ->
    map frame (waiting e) ++ map frame g ≡ₚ
    map frame (waiting ext) ++ frame l :: map frame tmp ++ map frame granted) as Hre.
  { intros H%IH; [|by apply grant_inv_requeue]. rewrite H. unfold waiting, __insert_lock, list_add_tail.
    rewrite filter_app, map_app, filter_cons, decide_True by done. by rewrite <-app_assoc. }
  destruct (__is_lock_grantable ext l) eqn:Hgr; [destruct (calloc_ok l)|]; [|done..].
  intros H%IH; [|by apply grant_inv_insert]. rewrite H. simpl.
  destruct (grant_inv_head _ _ _ Hg) as (? & ? & ? & ? & ?).
  rewrite (insert_waiting ext (set_frame None l)) by done.
  apply Permutation_app_head. symmetry. apply Permutation_middle.
Qed.

Lemma waiting_requeue tmp : waiting (requeue tmp) = requeue tmp.
Proof.
  unfold waiting. induction tmp as [|l tmp IH]; [done|].
  rewrite requeue_cons, filter_cons, IH. by rewrite decide_True.
Qed.

Lemma grant_blocked_frames ext e g :
  lk_inv ext -> __grant_blocked_locks calloc_ok ext = (e, g) ->
  map frame (waiting ext) ≡ₚ map frame (waiting e) ++ map frame g.
Proof.
  intros Hinv. unfold __grant_blocked_locks. destruct (grant_scan [] ext []) as [e0 t] eqn:Hs.
  intros Hl%grant_loop_frames; [|by eapply grant_scan_inv].
  rewrite Hl, app_nil_r. apply grant_scan_perm in Hs as [Hp _]. simpl in Hp.
  rewrite app_nil_r in Hp. unfold waiting. rewrite <-Hp, filter_app, map_app.
  fold (waiting (requeue t)). rewrite waiting_requeue. unfold requeue. by rewrite map_map.
Qed.

Lemma held_insert ext l tmp h :
  grant_inv ext (l :: tmp) -> __is_lock_grantable ext l = true ->
  overlaps_one (held ext) h -> wf_lock h ->
  overlaps_one (held (insert_and_merge ext (set_frame None l))) h.
Proof.
  intros Hg Hgr (k & [Hkb Hk]%list_elem_of_filter & Hov) Hwh.
  destruct (grant_inv_head _ _ _ Hg) as ([W U C S] & Hw & Hu & Hb & Hn).
  pose proof W as W'. rewrite Forall_forall in W'.
  apply locks_overlap_covers in Hov as (x & Hx & Hhx); [|by auto..].
  pose proof (insert_wf ext (set_frame None l) W Hw) as W2. rewrite Forall_forall in W2.
  destruct (insert_held_at _ _ _ _ x (merge_fuel_enough ext (set_frame None l) W Hw) W Hw U Hu Hb)
    as (m & Hm & Hmb & Hmx); [left; exists k; auto|].
  exists m. split; [by apply list_elem_of_filter|].
  apply locks_overlap_covers; eauto.
Qed.

Lemma held_app_mono e1 e2 h : overlaps_one (held e1) h -> overlaps_one (held (e1 ++ e2)) h.
Proof.
  intros (k & ? & ?). exists k. split; [|done]. rewrite held_app. apply elem_of_app. auto.
Qed.

Lemma grant_loop_waits tmp ext granted e g :
  (forall l, calloc_ok l = true) -> grant_inv ext tmp ->
  Forall (overlaps_one (held ext)) (waiting ext) ->
  grant_loop calloc_ok ext tmp granted = (e, g) ->
  Forall (overlaps_one (held e)) (waiting e).
Proof.
  intros Hok. revert ext granted. induction tmp as [|l tmp IH]; intros ext granted Hg Hf; simpl.
  { by intros [= <- <-]. }
  destruct (grant_inv_head _ _ _ Hg) as (Hi & Hw & Hu & Hb & Hn).
  destruct (__is_lock_grantable ext l) eqn:Hgr; [rewrite Hok|].
  - apply IH; [by apply grant_inv_insert|]. rewrite insert_waiting by done.
    rewrite Forall_forall in *. intros b Hin. eapply held_insert; eauto.
    destruct Hi as [W _ _ _]. rewrite Forall_forall in W. apply W.
    by apply list_elem_of_filter in Hin as [_ ?].
  - apply IH; [by apply grant_inv_requeue|]. unfold __insert_lock, list_add_tail.
    unfold waiting in *. rewrite filter_app. apply Forall_app. split.
    + eapply Forall_impl; [exact Hf|]. intros. by apply held_app_mono.
    + rewrite filter_cons, decide_True by done. repeat constructor. apply held_app_mono.
      destruct (not_grantable _ _ Hgr) as (k & ? & ? & [Hov _]). exists k.
      split; [by apply list_elem_of_filter|]. by rewrite locks_overlap_sym.
Qed.

End GrantFacts.
