(* ===== verification/PosixLkSpec.v ===== *)
(** * features/locks: the POSIX contract of fcntl locks

    fcntl(2) promises, per owner and byte, the type of the lock last set
    there.  This file states that contract as a function on maps from bytes
    to lock types and proves that [insert_and_merge] implements it. *)

From stdpp Require Import base list numbers strings.
From S2P Require Import Prelude LocksData PosixLk PosixLkFacts.
Open Scope Z_scope.

(** The type an owner holds at each byte. *)
Definition byte_map : Type := Z -> option Z.

(** What setting [lock] does to the map of its owner. *)
Definition set_bytes (lock : posix_lock) (m : byte_map) : byte_map :=
  fun x =>
    if (fl_start lock <=? x) && (x <=? fl_end lock) then
      if fl_type lock =? F_UNLCK then None else Some (fl_type lock)
    else m x.

(** The map a list of locks stands for, for the owner of [q]. *)
Definition bytes_of (q : posix_lock) (ext : list posix_lock) : byte_map :=
  fun x => fl_type <$> List.find (fun l =>
    same_owner l q && ((fl_start l <=? x) && (x <=? fl_end l))) ext.

(** ** Own locks *)

Definition own (q : posix_lock) (ext : list posix_lock) : list posix_lock :=
  filter (fun l => same_owner l q = true) ext.

Definition disjoint_locks (a b : posix_lock) : Prop := locks_overlap a b = false.

#[export] Instance disjoint_locks_sym : Symmetric disjoint_locks.
Proof. intros a b ?. unfold disjoint_locks. by rewrite locks_overlap_sym. Qed.

(** The shape [insert_and_merge] keeps for the owner of [q]: well-formed
    granted locks that do not overlap. *)
Record own_ok (q : posix_lock) (ext : list posix_lock) : Prop := {
  oo_wf : Forall wf_lock ext;
  oo_unlck : Forall not_unlck ext;
  oo_held : Forall (fun l => blocked l = false) (own q ext);
  oo_disjoint : pairwise disjoint_locks (own q ext)
}.

(** [q]'s owner holds type [t] at byte [x]. *)
Definition owns (q : posix_lock) (ext : list posix_lock) (x t : Z) : Prop :=
  exists l, l ∈ own q ext /\ covers l x /\ fl_type l = t.

#[export] Instance own_proper q : Proper ((≡ₚ) ==> (≡ₚ)) (own q).
Proof. intros e e' Hp. unfold own. by rewrite Hp. Qed.

Lemma own_elem q ext l : l ∈ own q ext <-> l ∈ ext /\ same_owner l q = true.
Proof. unfold own. rewrite list_elem_of_filter. tauto. Qed.

Lemma own_app q e1 e2 : own q (e1 ++ e2) = own q e1 ++ own q e2.
Proof. apply filter_app. Qed.

Lemma own_cons q l e : same_owner l q = true -> own q (l :: e) = l :: own q e.
Proof. intros. unfold own. by rewrite filter_cons, decide_True. Qed.

Lemma owns_perm q e e' x t : e ≡ₚ e' -> owns q e x t <-> owns q e' x t.
Proof. intros Hp. unfold owns. by setoid_rewrite Hp. Qed.

Lemma own_ok_perm q e e' : e ≡ₚ e' -> own_ok q e -> own_ok q e'.
Proof. intros Hp [????]. split; by rewrite <-Hp. Qed.

Lemma owns_app q e l x t :
  same_owner l q = true ->
  owns q (e ++ [l]) x t <-> owns q e x t \/ (covers l x /\ fl_type l = t).
Proof.
  intros Ho. unfold owns. setoid_rewrite own_app. rewrite (own_cons q l []) by done.
  setoid_rewrite elem_of_app. setoid_rewrite elem_of_cons. split.
  - intros (k & [?|[->|Hn]] & ? & ?); [left; eauto|right; auto|by apply elem_of_nil in Hn].
  - intros [(k & ? & ? & ?)|[? ?]]; [exists k; auto|exists l; auto].
Qed.

(** No lock of the owner overlaps [p]. *)
Definition own_free (q : posix_lock) (ext : list posix_lock) (p : posix_lock) : Prop :=
  Forall (fun l => locks_overlap l p = false) (own q ext).

Lemma own_free_owns q ext p :
  Forall wf_lock ext -> wf_lock p ->
  own_free q ext p <-> forall x t, covers p x -> ~ owns q ext x t.
Proof.
  intros Hw Hp. unfold own_free, owns. rewrite Forall_forall. split.
  - intros Hf x t Hx (l & Hl & Hlx & _). specialize (Hf l Hl).
    apply own_elem in Hl as [Hl _]. rewrite Forall_forall in Hw.
    assert (locks_overlap l p = true); [|congruence]. apply locks_overlap_covers; eauto.
  - intros Hn l Hl. apply not_true_is_false. intros (x & ? & ?)%locks_overlap_covers; [|
      apply own_elem in Hl as [Hl _]; rewrite Forall_forall in Hw; auto|done].
    eapply Hn; eauto.
Qed.

Lemma own_ok_app q e p :
  own_ok q e -> same_owner p q = true -> wf_lock p -> not_unlck p -> blocked p = false ->
  own_free q e p -> own_ok q (e ++ [p]).
Proof.
  intros [????] Ho ??? Hf. unfold own_free in Hf. rewrite Forall_forall in Hf.
  split; rewrite ?own_app, ?(own_cons q p []) by done.
  - apply Forall_app; auto.
  - apply Forall_app; auto.
  - apply Forall_app; auto.
  - apply pairwise_app. split_and!; [done|by simpl|].
    intros x y Hx [->|[]%elem_of_nil]%elem_of_cons. by apply Hf.
Qed.

Lemma own_ok_cons q c e : own_ok q (c :: e) -> own_ok q e.
Proof.
  intros [W U B D]. apply Forall_cons in W as [_ ?], U as [_ ?]. unfold own in *.
  rewrite filter_cons in B, D.
  case_decide; simpl in *; split; try tauto. by apply Forall_cons in B as [_ ?].
Qed.

(** ** Plain insertions *)

Lemma merge_scan_free lock before after :
  own_free lock after lock ->
  merge_scan lock before after = scan_end \/
  (merge_scan lock before after = scan_shared /\ fl_type lock = F_RDLCK).
Proof.
  revert before. induction after as [|c t IH]; intros before Hf; simpl; [by left|].
  assert (own_free lock t lock) as Ht.
  { unfold own_free, own in *. rewrite filter_cons in Hf.
    case_decide; [by apply Forall_cons in Hf as [_ ?]|done]. }
  destruct (locks_overlap c lock) eqn:Hov; simpl; [|by apply IH].
  destruct (same_owner c lock) eqn:Ho.
  { unfold own_free in Hf. rewrite own_cons in Hf by done.
    apply Forall_cons in Hf as [? _]. congruence. }
  destruct (fl_type lock =? F_UNLCK); [by apply IH|].
  destruct (Z.eqb_spec (fl_type lock) F_RDLCK); [|rewrite andb_false_r; by apply IH].
  destruct (fl_type c =? F_RDLCK); simpl; [by right|by apply IH].
Qed.

Lemma insert_free fuel ext p r :
  own_free p ext p -> not_unlck p -> __insert_and_merge fuel ext p = Some r -> r = ext ++ [p].
Proof.
  destruct fuel as [|fuel]; [done|]. intros Hf Hu. simpl.
  apply Z.eqb_neq in Hu.
  destruct (merge_scan_free p [] ext Hf) as [->|[-> _]]; [rewrite Hu|]; by intros [= <-].
Qed.

Lemma own_same q p e : same_owner p q = true -> own p e = own q e.
Proof.
  intros Hp. unfold own. apply list_filter_iff. intros l.
  by rewrite (same_owner_sym l p), (same_owner_sym l q), (same_owner_trans _ _ _ Hp).
Qed.

(** The owner's read locks are not hidden behind another reader. *)
Definition no_reader (ext : list posix_lock) (lock : posix_lock) : Prop :=
  fl_type lock <> F_RDLCK \/
  Forall (fun l => fl_type l = F_RDLCK -> same_owner l lock = true) ext.

Lemma merge_scan_no_reader lock before after :
  no_reader after lock ->
  (merge_scan lock before after = scan_end /\ own_free lock after lock) \/
  exists conf rest, merge_scan lock before after = scan_conf conf rest.
Proof.
  revert before. induction after as [|c t IH]; intros before Hn; simpl.
  { left. split; [done|]. constructor. }
  assert (no_reader t lock) as Ht.
  { destruct Hn as [?|Hn]; [by left|right]. by apply Forall_cons in Hn as [_ ?]. }
  assert (~ (locks_overlap c lock = true /\ same_owner c lock = true) ->
    (merge_scan lock (before ++ [c]) t = scan_end /\ own_free lock (c :: t) lock) \/
    exists conf rest, merge_scan lock (before ++ [c]) t = scan_conf conf rest) as Hstep.
  { intros Hno. destruct (IH (before ++ [c]) Ht) as [[? Hf]|?]; [left|by right].
    split; [done|]. unfold own_free, own in *. rewrite filter_cons. case_decide; [|done].
    constructor; [|done]. apply not_true_is_false. tauto. }
  destruct (locks_overlap c lock) eqn:Hov; simpl; [|by apply Hstep; intros [? _]].
  destruct (same_owner c lock) eqn:Ho; [right; eauto|].
  destruct (fl_type lock =? F_UNLCK); [by apply Hstep; intros [_ ?]|].
  destruct (_ && _) eqn:Hr; [|by apply Hstep; intros [_ ?]].
  apply andb_true_iff in Hr as [Hc%Z.eqb_eq Hl%Z.eqb_eq].
  destruct Hn as [?|Hn]; [done|]. apply Forall_cons in Hn as [Hn _].
  by rewrite (Hn Hc) in Ho.
Qed.

(** ** Splits *)

Lemma owns_union q e1 e2 x t : owns q (e1 ++ e2) x t <-> owns q e1 x t \/ owns q e2 x t.
Proof.
  unfold owns. setoid_rewrite own_app. setoid_rewrite elem_of_app.
  split; [intros (l & [?|?] & ?); eauto|intros [(l & ? & ?)|(l & ? & ?)]; eauto].
Qed.

Lemma insert_pieces_app fuel rest ps ps' :
  insert_pieces fuel rest (ps ++ ps') =
  e ← insert_pieces fuel rest ps; insert_pieces fuel e ps'.
Proof.
  revert rest. induction ps as [|p ps IH]; intros rest; [done|].
  rewrite <-app_comm_cons, !insert_pieces_cons.
  destruct (__insert_and_merge fuel rest p); [apply IH|done].
Qed.

(** A granted lock of the owner of [q]. *)
Definition own_piece (q p : posix_lock) : Prop :=
  same_owner p q = true /\ wf_lock p /\ not_unlck p /\ blocked p = false.

(** Pieces that overlap nothing of the owner are only appended. *)
Lemma insert_plain q fuel ps e r :
  Forall (fun p => own_piece q p /\ own_free q e p) ps -> pairwise disjoint_locks ps ->
  own_ok q e -> insert_pieces fuel e ps = Some r -> r = e ++ ps /\ own_ok q r.
Proof.
  revert e. induction ps as [|p ps IH]; intros e Hps Hd He.
  { intros [= <-]. by rewrite app_nil_r. }
  apply Forall_cons in Hps as [[(Ho & Hw & Hu & Hb) Hf] Hps]. destruct Hd as [Hd Hd'].
  rewrite insert_pieces_cons. destruct (__insert_and_merge fuel e p) as [e'|] eqn:Hi; [|done].
  apply insert_free in Hi as ->; [|unfold own_free; by rewrite (own_same q p)|done].
  simpl. intros Hr. replace (e ++ p :: ps) with ((e ++ [p]) ++ ps) by by rewrite <-app_assoc.
  apply IH; auto using own_ok_app.
  rewrite Forall_forall in *. intros p' Hp'. destruct (Hps p' Hp') as [? Hf']. split; [done|].
  unfold own_free. rewrite own_app, own_cons by done. apply Forall_app. split; [done|].
  repeat constructor. by apply Hd.
Qed.

(** What an insertion has to do to the owner's bytes. *)
Definition implements (q : posix_lock) (ext : list posix_lock) (lock : posix_lock)
    (r : list posix_lock) : Prop :=
  own_ok q r /\
  forall x t, owns q r x t <->
    (covers lock x /\ t = fl_type lock /\ not_unlck lock) \/
    (~ covers lock x /\ owns q ext x t).

Lemma owns_pieces q ps x t :
  Forall (own_piece q) ps ->
  owns q ps x t <-> exists p, p ∈ ps /\ covers p x /\ fl_type p = t.
Proof.
  intros Hps. rewrite Forall_forall in Hps. unfold owns. setoid_rewrite own_elem.
  split; [intros (p & [? ?] & ?); eauto|]. intros (p & Hp & ?). exists p. split; [|done].
  split; [done|]. by apply Hps.
Qed.

(** Inserting [pre], then [mid], then [post], where only [mid] may meet a
    lock of the owner. *)
Lemma split_implements q fuel rest pre mid post r :
  (forall e r, own_ok q e -> no_reader e mid ->
     __insert_and_merge fuel e mid = Some r -> implements q e mid r) ->
  Forall (fun p => own_piece q p /\ own_free q rest p /\
                   forall x, covers p x -> ~ covers mid x) (pre ++ post) ->
  pairwise disjoint_locks (pre ++ post) -> own_ok q rest ->
  no_reader (rest ++ pre) mid ->
  insert_pieces fuel rest (pre ++ mid :: post) = Some r ->
  own_ok q r /\
  forall x t, owns q r x t <->
    (covers mid x /\ t = fl_type mid /\ not_unlck mid) \/
    (~ covers mid x /\ (owns q rest x t \/ owns q (pre ++ post) x t)).
Proof.
  intros Hmid Hps Hd Hrest Hnr. apply Forall_app in Hps as [Hpre Hpost].
  apply pairwise_app in Hd as (Hd1 & Hd2 & Hd12).
  rewrite insert_pieces_app. destruct (insert_pieces fuel rest pre) as [e|] eqn:He; [|done].
  apply (insert_plain q) in He as [-> Hoe]; auto.
  2:{ eapply Forall_impl; [exact Hpre|]. simpl. tauto. }
  simpl. rewrite insert_pieces_cons.
  destruct (__insert_and_merge fuel (rest ++ pre) mid) as [e|] eqn:He; [|done]. simpl.
  apply Hmid in He as [Hoke Howns]; [|done..]. intros Hr.
  assert (Forall (own_piece q) pre /\ Forall (own_piece q) post) as [Hopre Hopost].
  { split; [eapply Forall_impl; [exact Hpre|]|eapply Forall_impl; [exact Hpost|]]; simpl; tauto. }
  apply (insert_plain q) in Hr as [-> Hok]; [|apply Forall_forall; intros p Hp|done..].
  - split; [done|]. intros x t. rewrite !owns_union, Howns, owns_union.
    assert (owns q post x t -> ~ covers mid x); [|tauto].
    rewrite owns_pieces by done. intros (p & Hp & Hx & _). rewrite Forall_forall in Hpost.
    destruct (Hpost p Hp) as (_ & _ & Hn). auto.
  - rewrite Forall_forall in Hpost. destruct (Hpost p Hp) as (Hop & Hfp & Hn).
    split; [done|]. destruct Hop as (? & Hw & _).
    apply own_free_owns; [apply Hoke|done|]. intros x t Hx. rewrite Howns, owns_union.
    rewrite (own_free_owns q rest p (oo_wf _ _ Hrest) Hw) in Hfp.
    rewrite (owns_pieces q pre) by done. intros [[? _]|[_ [Hr'|(p' & Hp' & Hx' & _)]]].
    + by apply (Hn x).
    + by apply (Hfp x t).
    + specialize (Hd12 p' p Hp' Hp). unfold disjoint_locks in Hd12.
      apply not_true_iff_false in Hd12. apply Hd12, locks_overlap_covers; eauto.
      rewrite Forall_forall in Hopre. by apply Hopre.
Qed.

(** [subtract_locks] as such a sequence. *)
Lemma subtract_split lock conf :
  locks_overlap conf lock = true -> wf_lock lock -> wf_lock conf ->
  exists pre mid post,
    subtract_locks (merge_sum lock conf conf) lock = pre ++ mid :: post /\
    (mid = lock \/ (mid = set_fl_type (fl_type lock) (merge_sum lock conf conf) /\
                    fl_start mid = fl_start lock /\ fl_end mid = fl_end lock)) /\
    pairwise disjoint_locks (pre ++ post) /\
    Forall (fun p => wf_lock p /\ blocked p = false /\ fl_type p = fl_type conf /\
      owner p = owner conf /\ transport p = transport conf) (pre ++ post) /\
    forall x, (exists p, p ∈ pre ++ post /\ covers p x) <-> covers conf x /\ ~ covers lock x.
Proof.
  intros Hov%locks_overlap_true ??. unfold wf_lock in *.
  destruct (merge_sum_outside lock conf conf) as [? ?].
  destruct (subtract_locks_cases (merge_sum lock conf conf) lock)
    as [(? & ? & ->)|[(? & ? & ->)|[(? & ? & ->)|(? & ? & ->)]]]; [done..| | | |].
  - eexists [], _, []. split; [done|]. split; [right; simpl in *; auto|].
    split_and!; [done|constructor|]. intros x. simpl in *. unfold covers. split; [|lia].
    by intros (? & []%elem_of_nil & _).
  - eexists [_], lock, [_]. split; [done|]. split; [by left|]. split_and!.
    + simpl. repeat constructor. unfold disjoint_locks, locks_overlap. simpl. lia.
    + repeat constructor; simpl in *; lia.
    + intros x. simpl. setoid_rewrite elem_of_cons. setoid_rewrite elem_of_cons.
      unfold covers. simpl in *. split.
      * intros (p & [->|[->|[]%elem_of_nil]] & Hp); simpl in *; lia.
      * intros [? ?]. destruct (decide (x < fl_start lock)).
        -- eexists. split; [by left|simpl; lia].
        -- eexists. split; [by right; left|simpl; lia].
  - eexists [_], lock, []. split; [done|]. split; [by left|]. split_and!.
    + simpl. repeat constructor.
    + repeat constructor; simpl in *; lia.
    + intros x. simpl. setoid_rewrite elem_of_cons. unfold covers. simpl in *. split.
      * intros (p & [->|[]%elem_of_nil] & Hp); simpl in *; lia.
      * intros [? ?]. eexists. split; [by left|simpl; lia].
  - eexists [_], lock, []. split; [done|]. split; [by left|]. split_and!.
    + simpl. repeat constructor.
    + repeat constructor; simpl in *; lia.
    + intros x. simpl. setoid_rewrite elem_of_cons. unfold covers. simpl in *. split.
      * intros (p & [->|[]%elem_of_nil] & Hp); simpl in *; lia.
      * intros [? ?]. eexists. split; [by left|simpl; lia].
Qed.

(** ** The insertion implements the contract *)

Lemma own_conf_free q conf rest p :
  own_ok q (conf :: rest) -> same_owner conf q = true -> wf_lock p ->
  (forall x, covers p x -> covers conf x) -> own_free q rest p.
Proof.
  intros [W _ _ D] Ho Hw Hsub. apply Forall_cons in W as [Wc W].
  apply own_free_owns; [done..|]. intros x t Hx (l & Hl & Hlx & _).
  rewrite own_cons in D by done. destruct D as [D _]. rewrite Forall_forall in D.
  specialize (D l Hl). apply own_elem in Hl as [Hl _]. rewrite Forall_forall in W.
  unfold disjoint_locks in D. apply not_true_iff_false in D.
  apply D, locks_overlap_covers; eauto.
Qed.

Lemma own_conf_owns q conf rest x t :
  own_ok q (conf :: rest) -> same_owner conf q = true ->
  covers conf x -> ~ owns q rest x t.
Proof.
  intros Hok Ho. pose proof Hok as [W _ _ _]. apply Forall_cons in W as [Wc W].
  revert x t. by apply own_free_owns, (own_conf_free q conf).
Qed.

Lemma owns_cons q conf rest x t :
  same_owner conf q = true ->
  owns q (conf :: rest) x t <-> (covers conf x /\ fl_type conf = t) \/ owns q rest x t.
Proof.
  intros Ho. unfold owns. rewrite own_cons by done. setoid_rewrite elem_of_cons. split.
  - intros (l & [->|?] & ?); [by left|right; eauto].
  - intros [[? ?]|(l & ? & ?)]; eauto.
Qed.

Lemma merge_implements q conf rest lock r :
  own_ok q (conf :: rest) -> same_owner lock q = true -> same_owner conf lock = true ->
  locks_overlap conf lock = true -> fl_type conf = fl_type lock ->
  implements q rest (merge_sum lock conf lock) r -> implements q (conf :: rest) lock r.
Proof.
  intros Hok Hl Hc Hov Hty [? Hr]. split; [done|]. intros x t. rewrite Hr.
  assert (same_owner conf q = true) as Hcq by by rewrite (same_owner_trans _ _ _ Hc).
  rewrite merge_sum_covers, owns_cons by done.
  change (fl_type (merge_sum lock conf lock)) with (fl_type lock).
  change (not_unlck (merge_sum lock conf lock)) with (not_unlck lock).
  assert (not_unlck lock) as Hu.
  { unfold not_unlck. rewrite <-Hty. destruct Hok as [_ U _ _]. by apply Forall_cons in U as [? _]. }
  assert (covers conf x -> ~ owns q rest x t) as Hfree by (by apply own_conf_owns).
  rewrite <-Hty. destruct (decide (covers lock x)), (decide (covers conf x)); naive_solver.
Qed.

Lemma no_reader_sub ext ext' lock :
  no_reader ext lock -> (forall l, l ∈ ext' -> l ∈ ext) -> no_reader ext' lock.
Proof.
  intros [?|Hn] Hs; [by left|right]. rewrite Forall_forall in *. auto.
Qed.

Lemma delete_unlck_own_ok q e : own_ok q e -> __delete_unlck_locks e = e.
Proof. intros [_ U _ _]. by apply delete_unlck_id. Qed.

Lemma plain_implements q ext lock :
  own_ok q ext -> same_owner lock q = true -> wf_lock lock -> blocked lock = false ->
  own_free q ext lock ->
  implements q ext lock
    (if negb (fl_type lock =? F_UNLCK) then __insert_lock ext lock else ext).
Proof.
  intros Hok Ho Hw Hb Hf. pose proof (own_free_owns q ext lock (oo_wf _ _ Hok) Hw) as Hfo.
  destruct (Z.eqb_spec (fl_type lock) F_UNLCK) as [Hu|Hu]; simpl.
  - split; [done|]. intros x t. pose proof (proj1 Hfo Hf x t). unfold not_unlck.
    destruct (decide (covers lock x)); tauto.
  - split; [by apply own_ok_app|]. intros x t. pose proof (proj1 Hfo Hf x t).
    unfold __insert_lock, list_add_tail. rewrite owns_app by done. unfold not_unlck.
    destruct (decide (covers lock x)); intuition congruence.
Qed.

Lemma conf_split_implements q fuel conf rest lock r :
  (forall ext lock r, __insert_and_merge fuel ext lock = Some r -> own_ok q ext ->
     same_owner lock q = true -> wf_lock lock -> blocked lock = false ->
     no_reader ext lock -> implements q ext lock r) ->
  own_ok q (conf :: rest) -> same_owner lock q = true -> wf_lock lock ->
  blocked lock = false -> no_reader (conf :: rest) lock ->
  locks_overlap conf lock = true -> same_owner conf lock = true ->
  insert_pieces fuel rest (subtract_locks (merge_sum lock conf conf) lock) = Some r ->
  implements q (conf :: rest) lock r.
Proof.
  intros IH Hok Ho Hw Hb Hn Hov Hc Hr.
  assert (same_owner conf q = true) as Hcq by by rewrite (same_owner_trans _ _ _ Hc).
  pose proof Hok as [W U _ _]. apply Forall_cons in W as [Wc W], U as [Uc U].
  destruct (subtract_split lock conf Hov Hw Wc) as (pre & mid & post & Heq & Hmid & Hd & Hps & Hcov).
  rewrite Heq in Hr.
  assert ((forall x, covers mid x <-> covers lock x) /\ fl_type mid = fl_type lock /\
          same_owner mid q = true /\ wf_lock mid /\ blocked mid = false) as (Hmc & Hmt & Hmo & Hmw & Hmb).
  { destruct Hmid as [->|(-> & Hs & He)]; [done|]. unfold covers, wf_lock. rewrite Hs, He.
    split_and!; done. }
  assert (Forall (own_piece q) (pre ++ post)) as Hown.
  { eapply Forall_impl; [exact Hps|]. intros p (? & ? & Ht & Hpo & Hpt). split_and!; auto.
    - apply same_owner_true. apply same_owner_true in Hcq. by rewrite Hpo, Hpt.
    - unfold not_unlck. by rewrite Ht. }
  eapply split_implements in Hr as [Hokr Howns]; [| | |done|by eapply own_ok_cons|].
  2:{ intros e r' He Hne Hins. by apply IH. }
  - split; [done|]. intros x t. rewrite Howns, Hmc, Hmt, owns_cons by done.
    unfold not_unlck. rewrite Hmt. rewrite (owns_pieces q (pre ++ post)) by done.
    assert ((exists p, p ∈ pre ++ post /\ covers p x /\ fl_type p = t) <->
            (covers conf x /\ ~ covers lock x) /\ fl_type conf = t) as ->; [|tauto].
    rewrite <-Hcov. rewrite Forall_forall in Hps. split.
    + intros (p & Hp & ? & <-). destruct (Hps p Hp) as (_ & _ & -> & _). eauto.
    + intros [(p & Hp & ?) <-]. destruct (Hps p Hp) as (_ & _ & ? & _). eauto.
  - apply Forall_forall. intros p Hp. rewrite Forall_forall in Hown.
    assert (forall x, covers p x -> covers conf x /\ ~ covers lock x) as Hpc by (intros x ?; apply Hcov; eauto).
    split_and!; [by apply Hown|apply (own_conf_free q conf); auto; [by apply Hown|intros; by apply Hpc]|].
    intros x Hx. rewrite Hmc. by apply Hpc.
  - destruct Hn as [?|Hn]; [left; congruence|right].
    apply Forall_cons in Hn as [_ Hn]. apply Forall_app in Hown as [Hown _]. apply Forall_app. split.
    + eapply Forall_impl; [exact Hn|]. simpl. intros l Hl Hr'. specialize (Hl Hr').
      rewrite !same_owner_true in *. destruct_and!. split; congruence.
    + eapply Forall_impl; [exact Hown|]. intros l [Hl _] _. rewrite (same_owner_trans _ _ _ Hl).
      by rewrite same_owner_sym.
Qed.

Lemma insert_implements q fuel ext lock r :
  __insert_and_merge fuel ext lock = Some r -> own_ok q ext ->
  same_owner lock q = true -> wf_lock lock -> blocked lock = false ->
  no_reader ext lock -> implements q ext lock r.
Proof.
  revert ext lock r. induction fuel as [|fuel IH]; [done|].
  intros ext lock r Hins Hok Ho Hw Hb Hn.
  destruct (merge_scan_no_reader lock [] ext Hn) as [[Hs Hf]|(conf & rest & Hs)].
  { unfold own_free in Hf. rewrite (own_same q lock) in Hf by done.
    simpl in Hins. rewrite Hs in Hins. injection Hins as <-. by apply plain_implements. }
  pose proof (merge_scan_perm _ _ _ _ Hs) as (Hp & Hov & Hown).
  apply (own_ok_perm q _ _ Hp) in Hok.
  assert (no_reader (conf :: rest) lock) as Hn'.
  { eapply no_reader_sub; [exact Hn|]. intros l. by rewrite Hp. }
  assert (implements q (conf :: rest) lock r) as [? Himp].
  { destruct (insert_conf_cases _ _ _ _ _ _ Hs Hins) as [[Ht Hr]|(Ht & r' & Hr & ->)].
    - eapply merge_implements; eauto. eapply IH; eauto using own_ok_cons.
      + unfold wf_lock in *. simpl. lia.
      + eapply no_reader_sub; [exact Hn'|by right].
    - apply (conf_split_implements q) in Hr as [Hr Hro]; auto.
      split; by rewrite (delete_unlck_own_ok q). }
  split; [done|]. intros x t. by rewrite Himp, (owns_perm _ _ _ _ _ Hp).
Qed.

(** [bytes_of] reads off [owns]. *)
Lemma bytes_of_owns q ext x t :
  own_ok q ext -> bytes_of q ext x = Some t <-> owns q ext x t.
Proof.
  intros Hok. unfold bytes_of. split.
  - destruct (List.find _ ext) as [l|] eqn:Hf; [|done]. intros [= <-].
    apply List.find_some in Hf as [Hin Hb]. rewrite !andb_true_iff, !Z.leb_le in Hb.
    exists l. rewrite own_elem. rewrite <-list_elem_of_In in Hin. unfold covers. tauto.
  - intros (l & Hl & Hx & <-). destruct (List.find _ ext) as [k|] eqn:Hf.
    + apply List.find_some in Hf as [Hin Hb]. rewrite !andb_true_iff, !Z.leb_le in Hb.
      assert (k ∈ own q ext) as Hk by (apply own_elem; rewrite list_elem_of_In; tauto).
      simpl. f_equal. destruct (decide (k = l)) as [->|Hne]; [done|]. exfalso.
      destruct Hok as [W _ _ D]. apply list_elem_of_split in Hl as (e1 & e2 & He).
      rewrite He in D, Hk. assert (e1 ++ l :: e2 ≡ₚ l :: e1 ++ e2) as Hp by by rewrite Permutation_middle.
      rewrite Hp in D, Hk. destruct D as [D _]. rewrite Forall_forall in D.
      apply elem_of_cons in Hk as [?|Hk]; [done|]. specialize (D k Hk). unfold disjoint_locks in D.
      apply not_true_iff_false in D. apply D, locks_overlap_true. unfold covers in Hx. lia.
    + apply own_elem in Hl as [Hin Hs]. apply list_elem_of_In in Hin.
      apply (List.find_none _ _ Hf) in Hin. unfold covers in Hx.
      rewrite Hs in Hin. simpl in Hin. lia.
Qed.

(** The bytes of another owner are read off the locks of the others. *)
Lemma bytes_of_others lock q ext x :
  same_owner q lock = false -> bytes_of q ext x = bytes_of q (others lock ext) x.
Proof.
  intros Hq. unfold bytes_of, others. f_equal.
  induction ext as [|l ext IH]; [done|]. rewrite filter_cons. simpl.
  destruct (same_owner l q) eqn:Hl; simpl.
  - rewrite decide_True by (rewrite (same_owner_trans _ _ _ Hl); congruence).
    simpl. rewrite Hl. simpl. by destruct (_ && _).
  - case_decide; simpl; rewrite ?Hl; done.
Qed.

Lemma set_bytes_covers lock m x :
  set_bytes lock m x =
  if decide (covers lock x) then
    if decide (fl_type lock = F_UNLCK) then None else Some (fl_type lock)
  else m x.
Proof.
  unfold set_bytes, covers.
  destruct (Z.leb_spec (fl_start lock) x), (Z.leb_spec x (fl_end lock)); simpl;
    repeat case_decide; try lia; destruct (Z.eqb_spec (fl_type lock) F_UNLCK); done.
Qed.

Lemma implements_bytes q ext lock r x :
  own_ok q ext -> implements q ext lock r ->
  bytes_of q r x = set_bytes lock (bytes_of q ext) x.
Proof.
  intros Hok [Hr Himp]. apply option_eq. intros t.
  rewrite bytes_of_owns, Himp, set_bytes_covers by done. unfold not_unlck.
  destruct (decide (covers lock x)).
  - case_decide; split; intros; naive_solver.
  - rewrite bytes_of_owns by done. tauto.
Qed.
