(* ===== verification/EntryLk.v ===== *)
(** * features/locks: directory entry locks

    Model of xlators/features/locks/src/entrylk.c. *)

From stdpp Require Import base list numbers strings.
From S2P Require Import Prelude LocksData PlInode.
Open Scope Z_scope.

(** ** Names *)

Definition all_names (basename : option string) : bool :=
  match basename with None => true | Some _ => false end.

Definition names_conflict (n1 n2 : option string) : bool :=
  all_names n1 || all_names n2 ||
  match n1, n2 with Some s1, Some s2 => String.eqb s1 s2 | _, _ => false end.

Definition names_equal (n1 n2 : option string) : bool :=
  match n1, n2 with
  | None, None => true
  | Some s1, Some s2 => String.eqb s1 s2
  | _, _ => false
  end.

Definition __same_entrylk_owner (l1 l2 : pl_entry_lock) : bool :=
  (el_owner l1 =? el_owner l2) && (el_trans l1 =? el_trans l2).

(** [strdup_ok]: where the copy of the name cannot be allocated the lock is kept
    with a NULL name, which stands for all names. *)
Definition new_entrylk_lock (calloc_ok strdup_ok : bool) (basename : option string)
    (type : entrylk_type) (trans client_pid owner : Z) (volume : string) :
    option pl_entry_lock :=
  if calloc_ok then
    Some (mk_entry_lock None volume (if strdup_ok then basename else None) type trans client_pid owner)
  else None.

Definition el_set_frame (fr : call_frame) (l : pl_entry_lock) : pl_entry_lock :=
  mk_entry_lock (Some fr) (el_volume l) (el_basename l) (el_type l) (el_trans l)
    (el_client_pid l) (el_owner l).

(** ** Locking *)

Definition __lock_grantable (dom : pl_dom_list) (basename : option string) :
    option pl_entry_lock :=
  List.find (fun lock => names_conflict (el_basename lock) basename) (entrylk_list dom).

Definition __blocked_lock_conflict (dom : pl_dom_list) (basename : option string) :
    option pl_entry_lock :=
  List.find (fun lock => names_conflict (el_basename lock) basename)
    (blocked_entrylks dom).

Definition __owner_has_lock (dom : pl_dom_list) (newlock : pl_entry_lock) : bool :=
  existsb (fun lock => __same_entrylk_owner lock newlock) (entrylk_list dom) ||
  existsb (fun lock => __same_entrylk_owner lock newlock) (blocked_entrylks dom).

Definition is_some {A} (o : option A) : bool :=
  match o with Some _ => true | None => false end.

(** [list_add_tail (&lock->blocked_locks, &dom->blocked_entrylks)] with the
    frame of the request. *)
Definition block_entrylk (fr : call_frame) (lock : pl_entry_lock) (dom : pl_dom_list) :
    pl_dom_list :=
  set_entrylks (entrylk_list dom)
    (list_add_tail (el_set_frame fr lock) (blocked_entrylks dom)) dom.

(** [__lock_name]: the new domain and the return value. *)
Definition __lock_name (ok : bool * bool) (basename : option string)
    (type : entrylk_type) (fr : call_frame) (dom : pl_dom_list) (nonblock : bool) :
    pl_dom_list * Z :=
  match new_entrylk_lock (fst ok) (snd ok) basename type (fr_trans fr) (fr_pid fr)
          (fr_root fr) (domain dom) with
  | None => (dom, - ENOMEM)
  | Some lock =>
      if is_some (__lock_grantable dom basename) then
        ((if nonblock then dom else block_entrylk fr lock dom), - EAGAIN)
      else if is_some (__blocked_lock_conflict dom basename) &&
              negb (__owner_has_lock dom lock) then
        ((if nonblock then dom else block_entrylk fr lock dom), - EAGAIN)
      else
        match type with
        | ENTRYLK_WRLCK =>
            (set_entrylks (list_add lock (entrylk_list dom)) (blocked_entrylks dom) dom, 0)
        | ENTRYLK_RDLCK => (dom, - EINVAL)
        end
  end.

(** ** Unlocking *)

(** The loop of [__find_most_matching_lock]: the last lock on all names and
    the last lock on exactly this one, with their positions. *)
Fixpoint most_matching (basename : option string) (i : nat) (l : list pl_entry_lock)
    (all exact : option (nat * pl_entry_lock)) : option (nat * pl_entry_lock) :=
  match l with
  | [] => match exact with Some _ => exact | None => all end
  | lock :: t =>
      if all_names (el_basename lock) then
        most_matching basename (S i) t (Some (i, lock)) exact
      else if names_equal (el_basename lock) basename then
        most_matching basename (S i) t all (Some (i, lock))
      else most_matching basename (S i) t all exact
  end.

Definition __find_most_matching_lock (dom : pl_dom_list) (basename : option string) :
    option (nat * pl_entry_lock) :=
  most_matching basename 0 (entrylk_list dom) None None.

Definition type_eqb (t1 t2 : entrylk_type) : bool := bool_decide (t1 = t2).

(** [__unlock_name]: the domain without the unlocked lock, and that lock. *)
Definition __unlock_name (dom : pl_dom_list) (basename : option string)
    (type : entrylk_type) : pl_dom_list * option pl_entry_lock :=
  match __find_most_matching_lock dom basename with
  | None => (dom, None)
  | Some (i, lock) =>
      if names_equal (el_basename lock) basename && type_eqb (el_type lock) type then
        match type with
        | ENTRYLK_WRLCK =>
            (set_entrylks (delete i (entrylk_list dom)) (blocked_entrylks dom) dom, Some lock)
        | ENTRYLK_RDLCK => (dom, None)
        end
      else (dom, None)
  end.

Section Entry.
(** Whether the CALLOC of the record of a request on a name, and the strdup of the
    name, succeed. *)
Variable lock_ok : call_frame -> option string -> bool * bool.

(** ** Blocked requests *)

(** The loop of [__grant_blocked_entry_locks] over [blocked_list]; every
    blocked lock has the frame of its request. *)
Fixpoint grant_entry_loop (dom : pl_dom_list) (bls granted : list pl_entry_lock) :
    pl_dom_list * list pl_entry_lock :=
  match bls with
  | [] => (dom, granted)
  | bl :: t =>
      match el_frame bl with
      | None => grant_entry_loop dom t granted
      | Some fr =>
          let '(dom', ret) :=
            __lock_name (lock_ok fr (el_basename bl)) (el_basename bl) (el_type bl)
              fr dom false in
          grant_entry_loop dom' t (if ret =? 0 then list_add bl granted else granted)
      end
  end.

Definition __grant_blocked_entry_locks (dom : pl_dom_list) :
    pl_dom_list * list pl_entry_lock :=
  grant_entry_loop (set_entrylks (entrylk_list dom) [] dom) (blocked_entrylks dom) [].

Definition grant_blocked_entry_locks (dom : pl_dom_list) : pl_dom_list * list event :=
  let '(dom', granted) := __grant_blocked_entry_locks dom in
  (dom', map (fun lock => UNWIND_entrylk (el_frame lock) 0 0) granted).

Definition release_entry_locks_for_transport (dom : pl_dom_list) (trans : Z) :
    pl_dom_list * list event :=
  let keep lock := negb (el_trans lock =? trans) in
  let released := rev (List.filter (fun l => negb (keep l)) (blocked_entrylks dom)) in
  let dom1 := set_entrylks (List.filter keep (entrylk_list dom))
                (List.filter keep (blocked_entrylks dom)) dom in
  let '(dom2, granted) := __grant_blocked_entry_locks dom1 in
  (dom2, map (fun lock => UNWIND_entrylk (el_frame lock) (-1) EAGAIN) released ++
         map (fun lock => UNWIND_entrylk (el_frame lock) 0 0) granted).

(** ** The handler *)

(** The body of [pl_common_entrylk] once the domain is found: the domain, the
    events, [op_ret], [op_errno] and [unwind]. *)
Definition entrylk_cmd_step (fr : call_frame) (dom : pl_dom_list)
    (basename : option string) (cmd : entrylk_cmd) (type : entrylk_type) :
    pl_dom_list * list event * (Z * Z * bool) :=
  if fr_pid fr =? 0 then
    let '(dom', ev) := release_entry_locks_for_transport dom (fr_trans fr) in
    (dom', ev, (0, 0, true))
  else
    match cmd with
    | ENTRYLK_LOCK =>
        let '(dom', ret) := __lock_name (lock_ok fr basename) basename type fr dom false in
        if ret <? 0 then (dom', [], (-1, - ret, negb (ret =? - EAGAIN)))
        else (dom', [], (0, 0, true))
    | ENTRYLK_LOCK_NB =>
        let '(dom', ret) := __lock_name (lock_ok fr basename) basename type fr dom true in
        if ret <? 0 then (dom', [], (-1, - ret, true)) else (dom', [], (0, 0, true))
    | ENTRYLK_UNLOCK =>
        let '(dom', unlocked) := __unlock_name dom basename type in
        match unlocked with
        | None => (dom', [], (0, 0, true))
        | Some _ => let '(dom'', ev) := grant_blocked_entry_locks dom' in
                    (dom'', ev, (0, 0, true))
        end
    end.

(** The label [out:] of [pl_common_entrylk]. *)
Definition entrylk_out (inode_ok : bool) (st_mode : Z) (ctx : option pl_inode)
    (ev : list event) (fr : call_frame) (op_ret op_errno : Z) (unwind : bool) :
    option pl_inode * list event :=
  match pl_update_refkeeper inode_ok st_mode ctx with
  | None => (ctx, ev ++ [NULL_deref])
  | Some (p, ev') =>
      (Some p, ev ++ ev' ++ (if unwind then [UNWIND_entrylk (Some fr) op_ret op_errno] else []))
  end.

(** [inode_ok] and [inode_ok2] are the two allocations of [pl_inode_get],
    [dom_ok] and [strdup_ok] those of [allocate_domain]. *)
Definition pl_common_entrylk (inode_ok inode_ok2 dom_ok strdup_ok : bool) (st_mode : Z)
    (ctx : option pl_inode) (fr : call_frame) (volume : string)
    (basename : option string) (cmd : entrylk_cmd) (type : entrylk_type) :
    option pl_inode * list event :=
  match pl_inode_get inode_ok st_mode ctx with
  | None => entrylk_out inode_ok2 st_mode ctx [] fr (-1) ENOMEM true
  | Some p =>
      match get_domain dom_ok strdup_ok p volume with
      | None => entrylk_out inode_ok2 st_mode (Some p) [] fr (-1) ENOMEM true
      | Some (p1, dom) =>
          let '(dom', ev, (op_ret, op_errno, unwind)) :=
            entrylk_cmd_step fr dom basename cmd type in
          entrylk_out inode_ok2 st_mode (Some (put_domain dom' p1)) ev fr
            op_ret op_errno unwind
      end
  end.

End Entry.

(** [pl_entrylk] and [pl_fentrylk] pass the inode of the loc or of the fd. *)
Definition pl_entrylk := pl_common_entrylk.
Definition pl_fentrylk := pl_common_entrylk.

Definition __get_entrylk_count (p : pl_inode) : Z :=
  foldl (fun n d => n + Z.of_nat (length (entrylk_list d)) +
                    Z.of_nat (length (blocked_entrylks d))) 0 (dom_list p).

Definition get_entrylk_count (ctx : option pl_inode) : Z :=
  match ctx with None => 0 | Some p => __get_entrylk_count p end.
