(* ===== verification/EntryLkFacts.v ===== *)
(** * features/locks: theorems about directory entry locks *)

From stdpp Require Import base list numbers strings.
From S2P Require Import Prelude LocksData PlInode EntryLk.
Open Scope Z_scope.

#[export] Instance entry_conflict : Conflict pl_entry_lock :=
  fun a b => names_conflict (el_basename a) (el_basename b) = true.

Lemma names_conflict_sym n1 n2 : names_conflict n1 n2 = names_conflict n2 n1.
Proof. destruct n1, n2; try done. apply String.eqb_sym. Qed.

Lemma names_equal_spec n1 n2 : names_equal n1 n2 = true <-> n1 = n2.
Proof. destruct n1, n2; simpl; try done. rewrite String.eqb_eq. split; congruence. Qed.

Lemma names_equal_conflict n1 n2 : names_equal n1 n2 = true -> names_conflict n1 n2 = true.
Proof. by destruct n1, n2. Qed.

Definition entry_inv (d : pl_dom_list) : Prop :=
  queue_inv (entrylk_list d) (blocked_entrylks d).

Lemma find_conflict name l :
  is_some (List.find (fun lock => names_conflict (el_basename lock) name) l) = true <->
  Exists (fun c => names_conflict name (el_basename c) = true) l.
Proof.
  rewrite Exists_elem. destruct (List.find _ l) as [c|] eqn:Hf; simpl.
  - apply List.find_some in Hf as [Hin Hc]. split; [|done]. intros _. exists c.
    by rewrite list_elem_of_In, names_conflict_sym.
  - split; [done|]. intros (c & Hin%list_elem_of_In & Hc).
    apply (List.find_none _ _ Hf) in Hin. by rewrite names_conflict_sym, Hc in Hin.
Qed.

(** [__lock_name] is one request on the domain, if the name can be copied. *)
Lemma lock_name_try ok name type fr dom nb dom' ret :
  snd ok = true -> __lock_name ok name type fr dom nb = (dom', ret) ->
  forall b, el_basename b = name ->
  try_step b (entrylk_list dom) (blocked_entrylks dom) (entrylk_list dom')
    (blocked_entrylks dom').
Proof.
  intros Hdup Hl b Hb. unfold __lock_name, new_entrylk_lock in Hl.
  rewrite Hdup in Hl. destruct (fst ok); [|simplify_eq; constructor].
  set (lock := mk_entry_lock _ _ _ _ _ _ _) in Hl.
  assert (Exists (conflicts b) (entrylk_list dom ++ blocked_entrylks dom) ->
    forall d, (if nb then dom else block_entrylk fr lock dom) = d ->
    try_step b (entrylk_list dom) (blocked_entrylks dom) (entrylk_list d) (blocked_entrylks d)) as Hblk.
  { intros Hex d <-. destruct nb; [constructor|]. unfold block_entrylk, list_add_tail. simpl.
    constructor; [|done]. intros c. unfold conflicts, entry_conflict. simpl. by rewrite Hb. }
  destruct (is_some (__lock_grantable dom name)) eqn:Hg.
  { injection Hl as Hd _. apply Hblk; [|done]. apply Exists_app. left.
    apply find_conflict in Hg. unfold conflicts, entry_conflict. by rewrite Hb. }
  assert (Forall (fun c => ~ conflicts b c) (entrylk_list dom)) as Hfree.
  { apply Forall_Exists_neg. apply not_true_iff_false in Hg. intros Hex. apply Hg, find_conflict.
    unfold conflicts, entry_conflict in Hex. by rewrite Hb in Hex. }
  assert (forall c, conflicts lock c -> conflicts b c) as Hsame.
  { unfold conflicts, entry_conflict. simpl. by rewrite Hb. }
  destruct (is_some (__blocked_lock_conflict dom name)) eqn:Hbc; simpl in Hl.
  - destruct (negb (__owner_has_lock dom lock)).
    { injection Hl as Hd _. apply Hblk; [|done]. apply Exists_app. right.
      apply find_conflict in Hbc. unfold conflicts, entry_conflict. by rewrite Hb. }
    destruct type; injection Hl as <- _; by constructor.
  - destruct type; injection Hl as <- _; by constructor.
Qed.

Lemma lock_name_inv ok name type fr dom nb dom' ret :
  snd ok = true -> __lock_name ok name type fr dom nb = (dom', ret) -> entry_inv dom -> entry_inv dom'.
Proof.
  intros Hdup Hl Hinv. eapply (try_step_inv (mk_entry_lock None EmptyString name type 0 0 0)); [|exact Hinv].
  by eapply lock_name_try.
Qed.

Section EntryGrant.
Context (lock_ok : call_frame -> option string -> bool * bool).

(** The names of all requests can be copied. *)
Definition copies_ok : Prop := forall fr name, snd (lock_ok fr name) = true.

Lemma grant_entry_loop_inv bls dom granted dom' g :
  copies_ok -> grant_entry_loop lock_ok dom bls granted = (dom', g) -> entry_inv dom -> entry_inv dom'.
Proof.
  intros Hdup. revert dom granted. induction bls as [|bl bls IH]; intros dom granted; simpl.
  { by intros [= <- _]. }
  destruct (el_frame bl) as [fr|]; [|apply IH].
  destruct (__lock_name _ _ _ _ _ _) as [d ret] eqn:Hl. intros Hg Hinv.
  eapply IH; [exact Hg|]. by eapply lock_name_inv; [apply Hdup|..].
Qed.

Lemma grant_entry_inv dom dom' g :
  copies_ok -> __grant_blocked_entry_locks lock_ok dom = (dom', g) ->
  exclusive (entrylk_list dom) -> entry_inv dom'.
Proof.
  intros Hdup Hg He. eapply grant_entry_loop_inv; [done|exact Hg|]. split; [done|]. apply justified_nil.
Qed.

Lemma release_entry_inv dom trans dom' ev :
  copies_ok -> release_entry_locks_for_transport lock_ok dom trans = (dom', ev) ->
  entry_inv dom -> entry_inv dom'.
Proof.
  intros Hdup. unfold release_entry_locks_for_transport.
  destruct (__grant_blocked_entry_locks _ _) as [d g] eqn:Hg. intros [= <- _] [He _].
  eapply grant_entry_inv; [done|exact Hg|]. simpl.
  eapply exclusive_sublist; [apply List_filter_sublist|done].
Qed.

Lemma unlock_name_sublist dom name type dom' u :
  __unlock_name dom name type = (dom', u) ->
  sublist (entrylk_list dom') (entrylk_list dom) /\ (u = None -> dom' = dom).
Proof.
  unfold __unlock_name. destruct (__find_most_matching_lock dom name) as [[i l]|].
  - destruct (_ && _); [destruct type|]; intros [= <- <-]; split; try done.
    simpl. apply sublist_delete.
  - by intros [= <- <-].
Qed.

Lemma entrylk_cmd_inv fr dom name cmd type dom' ev res :
  copies_ok -> entrylk_cmd_step lock_ok fr dom name cmd type = (dom', ev, res) ->
  entry_inv dom -> entry_inv dom'.
Proof.
  intros Hdup. unfold entrylk_cmd_step. intros Hs Hinv. destruct (fr_pid fr =? 0).
  { destruct (release_entry_locks_for_transport _ _ _) eqn:Hr. simplify_eq.
    by eapply release_entry_inv. }
  destruct cmd.
  - destruct (__lock_name _ _ _ _ _ _) as [d ret] eqn:Hl.
    destruct (ret <? 0); simplify_eq; by eapply lock_name_inv; [apply Hdup|..].
  - destruct (__unlock_name dom name type) as [d u] eqn:Hu.
    apply unlock_name_sublist in Hu as [Hsub Hid].
    destruct u as [u|]; [|simplify_eq; by rewrite Hid].
    unfold grant_blocked_entry_locks in Hs.
    destruct (__grant_blocked_entry_locks _ _) as [d2 g] eqn:Hg. simplify_eq.
    eapply grant_entry_inv; [done|exact Hg|]. eapply exclusive_sublist; [exact Hsub|]. apply Hinv.
  - destruct (__lock_name _ _ _ _ _ _) as [d ret] eqn:Hl.
    destruct (ret <? 0); simplify_eq; by eapply lock_name_inv; [apply Hdup|..].
Qed.

(** The inode locks of the domain are left alone. *)
Definition same_inodelks (d d' : pl_dom_list) : Prop :=
  inodelk_list d' = inodelk_list d /\ blocked_inodelks d' = blocked_inodelks d.

Lemma lock_name_inode ok name type fr dom nb dom' ret :
  __lock_name ok name type fr dom nb = (dom', ret) -> same_inodelks dom dom'.
Proof.
  unfold __lock_name. destruct (new_entrylk_lock _ _ _ _ _ _ _ _); [|by intros [= <- _]].
  destruct (is_some _); [destruct nb; by intros [= <- _]|].
  destruct (_ && _); [destruct nb; by intros [= <- _]|].
  destruct type; by intros [= <- _].
Qed.

Lemma grant_entry_inode dom dom' g :
  __grant_blocked_entry_locks lock_ok dom = (dom', g) -> same_inodelks dom dom'.
Proof.
  assert (forall bls d granted d' g, grant_entry_loop lock_ok d bls granted = (d', g) ->
    same_inodelks d d') as Hloop.
  { induction bls as [|bl bls IH]; intros d granted d' g0; simpl; [by intros [= <- _]|].
    destruct (el_frame bl); [|apply IH].
    destruct (__lock_name _ _ _ _ _ _) as [d1 ret] eqn:Hl. intros Hg.
    apply IH in Hg as [? ?]. apply lock_name_inode in Hl as [? ?]. split; congruence. }
  intros Hg. by apply Hloop in Hg as [? ?].
Qed.

Lemma entrylk_cmd_inode fr dom name cmd type dom' ev res
    (P : list pl_inode_lock -> list pl_inode_lock -> Prop) :
  entrylk_cmd_step lock_ok fr dom name cmd type = (dom', ev, res) ->
  P (inodelk_list dom) (blocked_inodelks dom) -> P (inodelk_list dom') (blocked_inodelks dom').
Proof.
  intros Hs HP. assert (same_inodelks dom dom') as [-> ->]; [|done].
  unfold entrylk_cmd_step, release_entry_locks_for_transport, grant_blocked_entry_locks in Hs.
  destruct (fr_pid fr =? 0).
  { destruct (__grant_blocked_entry_locks _ _) as [d g] eqn:Hg. simplify_eq.
    by apply grant_entry_inode in Hg as [? ?]. }
  destruct cmd.
  - destruct (__lock_name _ _ _ _ _ _) as [d ret] eqn:Hl.
    destruct (ret <? 0); simplify_eq; by eapply lock_name_inode.
  - unfold __unlock_name in Hs. destruct (__find_most_matching_lock dom name) as [[i l]|].
    + destruct (_ && _); [destruct type|]; try by simplify_eq.
      destruct (__grant_blocked_entry_locks _ _) as [d g] eqn:Hg. simplify_eq.
      by apply grant_entry_inode in Hg as [? ?].
    + by simplify_eq.
  - destruct (__lock_name _ _ _ _ _ _) as [d ret] eqn:Hl.
    destruct (ret <? 0); simplify_eq; by eapply lock_name_inode.
Qed.

End EntryGrant.
