(* ===== verification/InodeLk.v ===== *)
(** * features/locks: inode locks

    Model of xlators/features/locks/src/inodelk.c. *)

From stdpp Require Import base list numbers strings.
From S2P Require Import Prelude LocksData PlInode.
Open Scope Z_scope.

(** ** Pairs of locks *)

Definition inodelk_type_conflict (l1 l2 : pl_inode_lock) : bool :=
  (il_fl_type l2 =? F_WRLCK) || (il_fl_type l1 =? F_WRLCK).

Definition inodelk_overlap (l1 l2 : pl_inode_lock) : bool :=
  (il_fl_start l2 <=? il_fl_end l1) && (il_fl_start l1 <=? il_fl_end l2).

Definition same_inodelk_owner (l1 l2 : pl_inode_lock) : bool :=
  (il_owner l1 =? il_owner l2) && (il_transport l1 =? il_transport l2).

Definition inodelk_conflict (l1 l2 : pl_inode_lock) : bool :=
  if same_inodelk_owner l1 l2 then false
  else if negb (inodelk_overlap l1 l2) then false
  else inodelk_type_conflict l1 l2.

Definition inodelks_equal (l1 l2 : pl_inode_lock) : bool :=
  (il_fl_start l1 =? il_fl_start l2) && (il_fl_end l1 =? il_fl_end l2).

Definition new_inode_lock (calloc_ok : bool) (fl : flock)
    (transport client_pid owner : Z) (volume : string) : option pl_inode_lock :=
  if calloc_ok then
    Some (mk_inode_lock (l_type fl) (l_start fl)
            (if l_len fl =? 0 then LLONG_MAX
             else i64 (l_start fl + l_len fl - 1))
            volume flock0 None transport client_pid owner)
  else None.

Definition il_set_frame (fr : option call_frame) (l : pl_inode_lock) : pl_inode_lock :=
  mk_inode_lock (il_fl_type l) (il_fl_start l) (il_fl_end l) (il_volume l)
    (il_user_flock l) fr (il_transport l) (il_client_pid l) (il_owner l).

Definition il_set_user_flock (fl : flock) (l : pl_inode_lock) : pl_inode_lock :=
  mk_inode_lock (il_fl_type l) (il_fl_start l) (il_fl_end l) (il_volume l)
    fl (il_frame l) (il_transport l) (il_client_pid l) (il_owner l).

(** ** Locking *)

Definition __inodelk_grantable (dom : pl_dom_list) (lock : pl_inode_lock) :
    option pl_inode_lock :=
  List.find (fun l => inodelk_conflict lock l) (inodelk_list dom).

(** Its first test is on the blocked entry locks of the domain. *)
Definition __blocked_lock_conflict (dom : pl_dom_list) (lock : pl_inode_lock) :
    option pl_inode_lock :=
  if is_nil (blocked_entrylks dom) then None
  else List.find (fun l => inodelk_conflict lock l) (blocked_inodelks dom).

Section Inode.
(** [__owner_has_lock] walks the entry locks of the domain as if they were
    inode locks; the owner and the transport it reads there lie at the offsets
    of a [pl_inode_lock_t], behind the end of the entry lock.  [misread] is
    what it finds. *)
Variable misread : pl_entry_lock -> Z * Z.

Definition __owner_has_lock (dom : pl_dom_list) (newlock : pl_inode_lock) : bool :=
  let same lock :=
    (fst (misread lock) =? il_owner newlock) &&
    (snd (misread lock) =? il_transport newlock) in
  existsb same (entrylk_list dom) || existsb same (blocked_entrylks dom).

Definition block_inodelk (lock : pl_inode_lock) (dom : pl_dom_list) : pl_dom_list :=
  set_inodelks (inodelk_list dom) (list_add_tail lock (blocked_inodelks dom)) dom.

Definition __lock_inodelk (lock : pl_inode_lock) (can_block : bool) (dom : pl_dom_list) :
    pl_dom_list * Z :=
  match __inodelk_grantable dom lock with
  | Some _ => ((if can_block then block_inodelk lock dom else dom), - EAGAIN)
  | None =>
      if match __blocked_lock_conflict dom lock with
         | Some _ => negb (__owner_has_lock dom lock)
         | None => false
         end
      then ((if can_block then block_inodelk lock dom else dom), - EAGAIN)
      else (set_inodelks (list_add lock (inodelk_list dom)) (blocked_inodelks dom) dom, 0)
  end.

(** ** Unlocking *)

(** [find_matching_inodelk] and [list_del] of what it finds. *)
Fixpoint remove_matching (lock : pl_inode_lock) (l : list pl_inode_lock) :
    option (pl_inode_lock * list pl_inode_lock) :=
  match l with
  | [] => None
  | h :: t =>
      if inodelks_equal h lock then Some (h, t)
      else match remove_matching lock t with
           | Some (conf, t') => Some (conf, h :: t')
           | None => None
           end
  end.

Definition find_matching_inodelk (lock : pl_inode_lock) (dom : pl_dom_list) :
    option pl_inode_lock :=
  fst <$> remove_matching lock (inodelk_list dom).

Definition __inode_unlock_lock (lock : pl_inode_lock) (dom : pl_dom_list) :
    pl_dom_list * option pl_inode_lock :=
  match remove_matching lock (inodelk_list dom) with
  | None => (dom, None)
  | Some (conf, held) => (set_inodelks held (blocked_inodelks dom) dom, Some conf)
  end.

(** ** Blocked requests *)

Fixpoint grant_inode_loop (dom : pl_dom_list) (bls granted : list pl_inode_lock) :
    pl_dom_list * list pl_inode_lock :=
  match bls with
  | [] => (dom, granted)
  | bl :: t =>
      let '(dom', ret) := __lock_inodelk bl true dom in
      grant_inode_loop dom' t (if ret =? 0 then list_add bl granted else granted)
  end.

Definition __grant_blocked_inode_locks (dom : pl_dom_list) :
    pl_dom_list * list pl_inode_lock :=
  grant_inode_loop (set_inodelks (inodelk_list dom) [] dom) (blocked_inodelks dom) [].

Definition grant_blocked_inode_locks (dom : pl_dom_list) : pl_dom_list * list event :=
  let '(dom', granted) := __grant_blocked_inode_locks dom in
  (dom', map (fun lock => UNWIND_inodelk (il_frame lock) 0 0) granted).

(** The two loops of [release_inode_locks_of_transport]; [path_ok] is whether
    [inode_path] succeeds, which both loops ask after unlinking a lock.  The
    result is what stays, what was released, and whether the loop finished. *)
Fixpoint release_blocked (path_ok : pl_inode_lock -> bool) (trans : Z)
    (l released : list pl_inode_lock) :
    list pl_inode_lock * list pl_inode_lock * bool :=
  match l with
  | [] => ([], released, true)
  | h :: t =>
      if negb (il_transport h =? trans) then
        let '(keep, rel, fin) := release_blocked path_ok trans t released in
        (h :: keep, rel, fin)
      else if path_ok h then release_blocked path_ok trans t (list_add h released)
      else (t, released, false)
  end.

Fixpoint release_held (path_ok : pl_inode_lock -> bool) (trans : Z)
    (l : list pl_inode_lock) : list pl_inode_lock :=
  match l with
  | [] => []
  | h :: t =>
      if negb (il_transport h =? trans) then h :: release_held path_ok trans t
      else if path_ok h then release_held path_ok trans t
      else t
  end.

Definition release_inode_locks_of_transport (path_ok : pl_inode_lock -> bool)
    (dom : pl_dom_list) (trans : Z) : pl_dom_list * list event :=
  let '(blkd, released, fin) := release_blocked path_ok trans (blocked_inodelks dom) [] in
  let held :=
    if fin then release_held path_ok trans (inodelk_list dom) else inodelk_list dom in
  let '(dom', ev) := grant_blocked_inode_locks (set_inodelks held blkd dom) in
  (dom', map (fun l => UNWIND_inodelk (il_frame l) (-1) EAGAIN) released ++ ev).

(** ** The handler *)

Definition pl_inode_setlk (lock : pl_inode_lock) (can_block : bool) (dom : pl_dom_list) :
    pl_dom_list * list event * Z :=
  let '(dom1, ret) :=
    if negb (il_fl_type lock =? F_UNLCK) then __lock_inodelk lock can_block dom
    else match __inode_unlock_lock lock dom with
         | (dom', None) => (dom', - EINVAL)
         | (dom', Some _) => (dom', 0)
         end in
  let '(dom2, ev) := grant_blocked_inode_locks dom1 in
  (dom2, ev, ret).

(** The label [unwind:] of [pl_common_inodelk], for a non-NULL inode and
    flock. *)
Definition inodelk_unwind (inode_ok : bool) (st_mode : Z) (ctx : option pl_inode)
    (ev : list event) (fr : call_frame) (op_ret op_errno : Z) :
    option pl_inode * list event :=
  match pl_update_refkeeper inode_ok st_mode ctx with
  | None => (ctx, ev ++ [NULL_deref])
  | Some (p, ev') => (Some p, ev ++ ev' ++ [UNWIND_inodelk (Some fr) op_ret op_errno])
  end.

(** [pl_common_inodelk]; a NULL domain is dereferenced by the functions it is
    passed to. *)
Definition pl_common_inodelk (path_ok : pl_inode_lock -> bool)
    (inode_ok inode_ok2 dom_ok strdup_ok lock_ok : bool) (st_mode : Z)
    (ctx : option pl_inode) (fr : call_frame) (volume : string) (cmd : Z) (fl : flock) :
    option pl_inode * list event :=
  if (l_start fl <? 0) || (l_len fl <? 0) then
    inodelk_unwind inode_ok2 st_mode ctx [] fr (-1) EINVAL
  else
  match pl_inode_get inode_ok st_mode ctx with
  | None => inodelk_unwind inode_ok2 st_mode ctx [] fr (-1) ENOMEM
  | Some p =>
      let odom := get_domain dom_ok strdup_ok p volume in
      if fr_pid fr =? 0 then
        match odom with
        | None => (Some p, [NULL_deref])
        | Some (p1, dom) =>
            let '(dom', ev) := release_inode_locks_of_transport path_ok dom (fr_trans fr) in
            inodelk_unwind inode_ok2 st_mode (Some (put_domain dom' p1)) ev fr (-1) 0
        end
      else
        let p1 := match odom with Some (p1, _) => p1 | None => p end in
        match new_inode_lock lock_ok fl (fr_trans fr) (fr_pid fr) (fr_root fr) volume with
        | None => inodelk_unwind inode_ok2 st_mode (Some p1) [] fr (-1) ENOMEM
        | Some reqlock =>
            if (cmd =? F_SETLKW) || (cmd =? F_SETLK) then
              let can_block := cmd =? F_SETLKW in
              let reqlock :=
                il_set_user_flock fl
                  (il_set_frame (if can_block then Some fr else None) reqlock) in
              match odom with
              | None => (Some p, [NULL_deref])
              | Some (_, dom) =>
                  let '(dom', ev, ret) := pl_inode_setlk reqlock can_block dom in
                  let ctx' := Some (put_domain dom' p1) in
                  if ret <? 0 then
                    if can_block then (ctx', ev)
                    else inodelk_unwind inode_ok2 st_mode ctx' ev fr (-1) (- ret)
                  else inodelk_unwind inode_ok2 st_mode ctx' ev fr 0 0
              end
            else inodelk_unwind inode_ok2 st_mode (Some p1) [] fr (-1) ENOTSUP
        end
  end.

(** [pl_inodelk] and [pl_finodelk] pass the inode of the loc or of the fd. *)
Definition pl_inodelk := pl_common_inodelk.
Definition pl_finodelk := pl_common_inodelk.

End Inode.

Definition __get_inodelk_count (p : pl_inode) : Z :=
  foldl (fun n d => n + Z.of_nat (length (inodelk_list d)) +
                    Z.of_nat (length (blocked_inodelks d))) 0 (dom_list p).

Definition get_inodelk_count (ctx : option pl_inode) : Z :=
  match ctx with None => 0 | Some p => __get_inodelk_count p end.
