(* ===== verification/InodeLkFacts.v ===== *)
(** * features/locks: theorems about inode locks *)

From stdpp Require Import base list numbers strings.
From S2P Require Import Prelude LocksData PlInode InodeLk.
Open Scope Z_scope.

#[export] Instance inode_conflict : Conflict pl_inode_lock :=
  fun a b => inodelk_conflict a b = true.

Definition inode_inv (d : pl_dom_list) : Prop :=
  queue_inv (inodelk_list d) (blocked_inodelks d).

Lemma find_some_Exists {A} (f : A -> bool) (l : list A) x :
  List.find f l = Some x -> Exists (fun y => f y = true) l.
Proof.
  intros [Hin Hf]%List.find_some. apply Exists_elem. exists x. by rewrite list_elem_of_In.
Qed.

Lemma find_none_Forall {A} (f : A -> bool) (l : list A) :
  List.find f l = None -> Forall (fun y => ~ f y = true) l.
Proof.
  intros Hn. apply Forall_forall. intros y Hy%list_elem_of_In.
  apply (List.find_none _ _ Hn) in Hy. congruence.
Qed.

Lemma remove_matching_sublist lock l conf l' :
  remove_matching lock l = Some (conf, l') ->
  sublist l' l /\ l ≡ₚ conf :: l' /\ inodelks_equal conf lock = true.
Proof.
  revert l'. induction l as [|h t IH]; intros l'; simpl; [done|].
  destruct (inodelks_equal h lock) eqn:He.
  { intros [= <- <-]. split_and!; [by constructor|done..]. }
  destruct (remove_matching lock t) as [[c t']|]; [|done]. intros [= <- <-].
  destruct (IH t' eq_refl) as (? & Hp & ?). split_and!; [by constructor| |done].
  rewrite Hp. apply perm_swap.
Qed.

Lemma remove_matching_none lock l :
  remove_matching lock l = None -> Forall (fun c => inodelks_equal c lock = false) l.
Proof.
  induction l as [|h t IH]; simpl; [constructor|].
  destruct (inodelks_equal h lock) eqn:He; [done|].
  destruct (remove_matching lock t) as [[c t']|]; [done|]. intros _. constructor; auto.
Qed.

Section InodeGrant.
Context (misread : pl_entry_lock -> Z * Z).

Lemma lock_inodelk_try lock cb dom dom' ret :
  __lock_inodelk misread lock cb dom = (dom', ret) ->
  try_step lock (inodelk_list dom) (blocked_inodelks dom) (inodelk_list dom')
    (blocked_inodelks dom').
Proof.
  unfold __lock_inodelk. intros Hl.
  assert (Exists (conflicts lock) (inodelk_list dom ++ blocked_inodelks dom) ->
    forall d, (if cb then block_inodelk lock dom else dom) = d ->
    try_step lock (inodelk_list dom) (blocked_inodelks dom) (inodelk_list d) (blocked_inodelks d)) as Hblk.
  { intros Hex d <-. destruct cb; by constructor. }
  destruct (__inodelk_grantable dom lock) eqn:Hg.
  { injection Hl as Hd _. apply Hblk; [|done]. apply Exists_app. left.
    by eapply find_some_Exists. }
  assert (try_step lock (inodelk_list dom) (blocked_inodelks dom)
    (lock :: inodelk_list dom) (blocked_inodelks dom)) as Hgr.
  { constructor; [done|]. by apply find_none_Forall. }
  destruct (__blocked_lock_conflict dom lock) eqn:Hb; [|by injection Hl as <- _].
  destruct (negb _); [|by injection Hl as <- _].
  injection Hl as Hd _. apply Hblk; [|done]. apply Exists_app. right.
  unfold __blocked_lock_conflict in Hb. destruct (is_nil _); [done|].
  by eapply find_some_Exists.
Qed.

Lemma lock_inodelk_inv lock cb dom dom' ret :
  __lock_inodelk misread lock cb dom = (dom', ret) -> inode_inv dom -> inode_inv dom'.
Proof. intros Hl. eapply try_step_inv, lock_inodelk_try, Hl. Qed.

(** The return value tells whether the lock joined the held locks. *)
Lemma lock_inodelk_ret lock cb dom dom' ret :
  __lock_inodelk misread lock cb dom = (dom', ret) ->
  (ret = 0 /\ dom' = set_inodelks (lock :: inodelk_list dom) (blocked_inodelks dom) dom) \/
  (ret = - EAGAIN /\ dom' = if cb then block_inodelk lock dom else dom).
Proof.
  unfold __lock_inodelk. destruct (__inodelk_grantable dom lock); [intros [= <- <-]; auto|].
  destruct (__blocked_lock_conflict dom lock); [|intros [= <- <-]; auto].
  destruct (negb _); intros [= <- <-]; auto.
Qed.

Lemma grant_inode_loop_inv bls dom granted dom' g :
  grant_inode_loop misread dom bls granted = (dom', g) -> inode_inv dom -> inode_inv dom'.
Proof.
  revert dom granted. induction bls as [|bl bls IH]; intros dom granted; simpl.
  { by intros [= <- _]. }
  destruct (__lock_inodelk _ _ _ _) as [d ret] eqn:Hl. intros Hg Hinv.
  eapply IH; [exact Hg|]. by eapply lock_inodelk_inv.
Qed.

Lemma grant_inode_inv dom dom' ev :
  grant_blocked_inode_locks misread dom = (dom', ev) ->
  exclusive (inodelk_list dom) -> inode_inv dom'.
Proof.
  unfold grant_blocked_inode_locks, __grant_blocked_inode_locks.
  destruct (grant_inode_loop _ _ _ _) as [d g] eqn:Hg. intros [= <- _] He.
  eapply grant_inode_loop_inv; [exact Hg|]. split; [done|]. apply justified_nil.
Qed.

(** Nothing is lost: a request that waited is granted and answered, or waits. *)
Lemma grant_inode_loop_perm bls dom granted dom' g :
  grant_inode_loop misread dom bls granted = (dom', g) ->
  blocked_inodelks dom' ++ g ≡ₚ blocked_inodelks dom ++ bls ++ granted /\
  inodelk_list dom' ++ granted ≡ₚ inodelk_list dom ++ g.
Proof.
  revert dom granted. induction bls as [|bl bls IH]; intros dom granted; simpl.
  { by intros [= <- <-]. }
  destruct (__lock_inodelk _ _ _ _) as [d ret] eqn:Hl.
  destruct (lock_inodelk_ret _ _ _ _ _ Hl) as [[-> ->]|[-> ->]]; simpl; intros [H1 H2]%IH;
    simpl in H1, H2; unfold list_add, list_add_tail in *.
  - split; [rewrite H1; solve_Permutation|].
    apply (Permutation_app_inv_l [bl]). simpl. rewrite <-H2. solve_Permutation.
  - split; [rewrite H1; solve_Permutation|done].
Qed.

Lemma grant_inode_frames dom dom' ev :
  grant_blocked_inode_locks misread dom = (dom', ev) ->
  map (fun l => UNWIND_inodelk (il_frame l) 0 0) (blocked_inodelks dom) ≡ₚ
  map (fun l => UNWIND_inodelk (il_frame l) 0 0) (blocked_inodelks dom') ++ ev.
Proof.
  unfold grant_blocked_inode_locks, __grant_blocked_inode_locks.
  destruct (grant_inode_loop _ _ _ _) as [d g] eqn:Hg. intros [= <- <-].
  apply grant_inode_loop_perm in Hg as [Hp _]. simpl in Hp. rewrite app_nil_r in Hp.
  by rewrite <-map_app, Hp.
Qed.

Lemma release_held_sublist path_ok trans l : sublist (release_held path_ok trans l) l.
Proof.
  induction l as [|h t IH]; simpl; [constructor|].
  destruct (negb _); [by constructor|]. destruct (path_ok h); by constructor.
Qed.

Lemma release_inode_inv path_ok dom trans dom' ev :
  release_inode_locks_of_transport misread path_ok dom trans = (dom', ev) ->
  inode_inv dom -> inode_inv dom'.
Proof.
  unfold release_inode_locks_of_transport.
  destruct (release_blocked _ _ _ _) as [[blkd rel] fin].
  destruct (grant_blocked_inode_locks _ _) as [d e] eqn:Hg. intros [= <- _] [He _].
  eapply grant_inode_inv; [exact Hg|]. simpl. destruct fin; [|done].
  eapply exclusive_sublist; [apply release_held_sublist|done].
Qed.

Lemma unlock_sublist lock dom dom' r :
  __inode_unlock_lock lock dom = (dom', r) -> sublist (inodelk_list dom') (inodelk_list dom).
Proof.
  unfold __inode_unlock_lock. destruct (remove_matching _ _) as [[c l]|] eqn:Hr.
  - intros [= <- _]. by apply remove_matching_sublist in Hr as [? _].
  - by intros [= <- _].
Qed.

Lemma inode_setlk_inv lock cb dom dom' ev ret :
  pl_inode_setlk misread lock cb dom = (dom', ev, ret) -> inode_inv dom -> inode_inv dom'.
Proof.
  unfold pl_inode_setlk. intros Hs Hinv.
  assert (exists d r, (if negb (il_fl_type lock =? F_UNLCK) then __lock_inodelk misread lock cb dom
    else match __inode_unlock_lock lock dom with
         | (dom', None) => (dom', - EINVAL) | (dom', Some _) => (dom', 0) end) = (d, r) /\
    exclusive (inodelk_list d)) as (d & r & Hd & He).
  { destruct (negb _).
    - destruct (__lock_inodelk _ _ _ _) as [d r] eqn:Hl. exists d, r. split; [done|].
      by apply lock_inodelk_inv in Hl as [? _].
    - destruct (__inode_unlock_lock lock dom) as [d [c|]] eqn:Hu; eexists _, _; (split; [done|]);
        eapply exclusive_sublist; [by eapply unlock_sublist|apply Hinv
          |by eapply unlock_sublist|apply Hinv]. }
  rewrite Hd in Hs. destruct (grant_blocked_inode_locks misread d) as [d2 e] eqn:Hg.
  simplify_eq. by eapply grant_inode_inv.
Qed.

(** The entry locks of the domain are left alone. *)
Definition same_entrylks (d d' : pl_dom_list) : Prop :=
  entrylk_list d' = entrylk_list d /\ blocked_entrylks d' = blocked_entrylks d.

Lemma lock_inodelk_entry lock cb dom dom' ret :
  __lock_inodelk misread lock cb dom = (dom', ret) -> same_entrylks dom dom'.
Proof.
  intros [[_ ->]|[_ ->]]%lock_inodelk_ret; [done|]. by destruct cb.
Qed.

Lemma grant_inode_entry dom dom' ev :
  grant_blocked_inode_locks misread dom = (dom', ev) -> same_entrylks dom dom'.
Proof.
  unfold grant_blocked_inode_locks, __grant_blocked_inode_locks.
  assert (forall bls d granted d' g, grant_inode_loop misread d bls granted = (d', g) ->
    same_entrylks d d') as Hloop.
  { induction bls as [|bl bls IH]; intros d granted d' g; simpl; [by intros [= <- _]|].
    destruct (__lock_inodelk _ _ _ _) as [d1 ret] eqn:Hl. intros Hg.
    apply IH in Hg as [? ?]. apply lock_inodelk_entry in Hl as [? ?]. split; congruence. }
  destruct (grant_inode_loop _ _ _ _) as [d g] eqn:Hg. intros [= <- _].
  by apply Hloop in Hg as [? ?].
Qed.

Lemma release_inode_entry path_ok dom trans dom' ev (P : list pl_entry_lock -> list pl_entry_lock -> Prop) :
  release_inode_locks_of_transport misread path_ok dom trans = (dom', ev) ->
  P (entrylk_list dom) (blocked_entrylks dom) -> P (entrylk_list dom') (blocked_entrylks dom').
Proof.
  unfold release_inode_locks_of_transport.
  destruct (release_blocked _ _ _ _) as [[blkd rel] fin].
  destruct (grant_blocked_inode_locks _ _) as [d e] eqn:Hg. intros [= <- _].
  apply grant_inode_entry in Hg as [-> ->]. done.
Qed.

Lemma inode_setlk_entry lock cb dom dom' ev ret (P : list pl_entry_lock -> list pl_entry_lock -> Prop) :
  pl_inode_setlk misread lock cb dom = (dom', ev, ret) ->
  P (entrylk_list dom) (blocked_entrylks dom) -> P (entrylk_list dom') (blocked_entrylks dom').
Proof.
  unfold pl_inode_setlk. intros Hs HP.
  set (s := if negb _ then _ else _) in Hs.
  assert (same_entrylks dom (fst s)) as [He Hb].
  { subst s. destruct (negb _).
    - destruct (__lock_inodelk _ _ _ _) as [d r] eqn:Hl. by eapply lock_inodelk_entry.
    - unfold __inode_unlock_lock. by destruct (remove_matching _ _) as [[c l]|]. }
  destruct s as [d r]. destruct (grant_blocked_inode_locks misread d) as [d2 e] eqn:Hg.
  injection Hs as <- _ _. apply grant_inode_entry in Hg as [-> ->]. simpl in *. by rewrite He, Hb.
Qed.

End InodeGrant.
