(* ===== verification/LocksXlator.v ===== *)
(** * features/locks: the handlers of the translator

    Model of xlators/features/locks/src/posix.c: fcntl locking, flush and
    release, reads, writes and truncation under mandatory locking, forgetting
    an inode, and the lock counts of a lookup.  A handler takes the context
    slot of the inode and returns the new slot and the calls it makes. *)

From stdpp Require Import base list numbers strings.
From S2P Require Import Prelude LocksData PlInode PosixLk EntryLk InodeLk.
Open Scope Z_scope.

(** ** Truncation *)

(** [struct _truncate_ops]; the loc of a truncate is the inode at hand. *)
Inductive truncate_op := TRUNCATE | FTRUNCATE.
Record truncate_ops := mk_truncate_ops {
  tr_op : truncate_op;
  tr_offset : Z;
  tr_fd : option fd_t
}.

Definition truncate_region (trans pid own offset : Z) : posix_lock :=
  mk_posix_lock 0 offset LLONG_MAX false flock0 0 None trans pid own.

Definition truncate_allowed (ext : list posix_lock) (trans pid own offset : Z) : bool :=
  let region := truncate_region trans pid own offset in
  negb (existsb (fun l => negb (blocked l) && locks_overlap region l &&
                          negb (same_owner region l)) ext).

(** [priv->mandatory] is [priv_mandatory]. *)
Definition truncate_stat_cbk (priv_mandatory inode_ok : bool) (st_mode : Z)
    (ctx : option pl_inode) (fr : call_frame) (local : truncate_ops)
    (op_ret op_errno : Z) : option pl_inode * list event :=
  if negb (op_ret =? 0) then (ctx, [UNWIND_truncate fr op_ret op_errno])
  else
    match pl_inode_get inode_ok st_mode ctx with
    | None => (ctx, [UNWIND_truncate fr (-1) ENOMEM])
    | Some p =>
        if priv_mandatory && mandatory p &&
           negb (truncate_allowed (ext_list p) (fr_trans fr) (fr_pid fr)
                   (fr_lk_owner fr) (tr_offset local))
        then (Some p, [UNWIND_truncate fr (-1) EAGAIN])
        else
          (Some p,
           match tr_op local, tr_fd local with
           | FTRUNCATE, Some fd => [WIND_ftruncate fr fd (tr_offset local)]
           | FTRUNCATE, None => []
           | TRUNCATE, _ => [WIND_truncate fr (tr_offset local)]
           end)
    end.

Definition pl_truncate (calloc_ok : bool) (fr : call_frame) (offset : Z) :
    option truncate_ops * list event :=
  if calloc_ok then (Some (mk_truncate_ops TRUNCATE offset None), [WIND_stat fr])
  else (None, [UNWIND_truncate fr (-1) ENOMEM]).

Definition pl_ftruncate (calloc_ok : bool) (fr : call_frame) (fd : fd_t) (offset : Z) :
    option truncate_ops * list event :=
  if calloc_ok then (Some (mk_truncate_ops FTRUNCATE offset (Some fd)), [WIND_fstat fr fd])
  else (None, [UNWIND_ftruncate fr (-1) ENOMEM]).

(** ** Reads and writes *)

Definition iov_length (vector : list iovec) : Z :=
  i32 (foldr (fun v n => u64 (iov_len v + n)) 0 vector).

Definition rw_region (fr : call_frame) (fd : fd_t) (offset len : Z) : posix_lock :=
  mk_posix_lock 0 offset (i64 (offset + len - 1)) false flock0 (fd_to_fdnum fd) None
    (fr_trans fr) (fr_pid fr) (fr_lk_owner fr).

Definition nonblocking (fd : fd_t) : bool := has_bits (fd_flags fd) O_NONBLOCK.

(** The section of [pl_readv] under the mutex: the new inode, [wind_needed]
    and the error the call unwinds with.  [rw_ok] and [stub_ok] are the
    allocations of the request and of its stub. *)
Definition rw_check (rw_ok stub_ok : bool) (p : pl_inode) (fd : fd_t)
    (reg : posix_lock) (stub : rw_stub) : pl_inode * bool * option Z :=
  if __rw_allowable (ext_list p) reg (stub_is_read stub) then (p, true, None)
  else if nonblocking fd then (p, false, Some EAGAIN)
  else if negb rw_ok then (p, false, Some ENOMEM)
  else if negb stub_ok then (p, false, Some ENOMEM)
  else (set_rw_list (list_add_tail (mk_rw_req stub reg) (rw_list p)) p, false, None).

Definition pl_readv (priv_mandatory inode_ok rw_ok stub_ok : bool) (st_mode : Z)
    (ctx : option pl_inode) (fr : call_frame) (fd : fd_t) (size offset : Z) :
    option pl_inode * list event :=
  match pl_inode_get inode_ok st_mode ctx with
  | None => (ctx, if priv_mandatory then [NULL_deref] else [WIND_readv fr fd size offset])
  | Some p =>
      if priv_mandatory && mandatory p then
        let '(p', wind_needed, err) :=
          rw_check rw_ok stub_ok p fd (rw_region fr fd offset size)
            (readv_stub fr fd size offset) in
        (Some p',
         (if wind_needed then [WIND_readv fr fd size offset] else []) ++
         match err with Some e => [UNWIND_readv fr (-1) e] | None => [] end)
      else (Some p, [WIND_readv fr fd size offset])
  end.

Definition pl_writev (priv_mandatory inode_ok rw_ok stub_ok : bool) (st_mode : Z)
    (ctx : option pl_inode) (fr : call_frame) (fd : fd_t) (vector : list iovec)
    (offset : Z) : option pl_inode * list event :=
  match pl_inode_get inode_ok st_mode ctx with
  | None => (ctx, if priv_mandatory then [NULL_deref] else [WIND_writev fr fd vector offset])
  | Some p =>
      if priv_mandatory && mandatory p then
        let '(p', wind_needed, err) :=
          rw_check rw_ok stub_ok p fd (rw_region fr fd offset (iov_length vector))
            (writev_stub fr fd vector offset) in
        (Some p',
         (if wind_needed then [WIND_writev fr fd vector offset] else []) ++
         match err with Some e => [UNWIND_writev fr (-1) e] | None => [] end)
      else (Some p, [WIND_writev fr fd vector offset])
  end.

Section Xlator.
(** Whether the CALLOC of the reply record of a granted lock succeeds. *)
Variable calloc_ok : posix_lock -> bool.

(** ** Flush and release *)

Definition after_delete (p : pl_inode) : pl_inode * list event :=
  let '(p1, ev1) := grant_blocked_locks calloc_ok p in
  let '(p2, ev2) := do_blocked_rw p1 in
  (p2, ev1 ++ ev2).

Definition delete_locks_of_fd (p : pl_inode) (fd : fd_t) : pl_inode * list event :=
  let of_fd l := fd_num l =? fd_to_fdnum fd in
  let blocked_list := List.filter (fun l => of_fd l && blocked l) (ext_list p) in
  let p1 := set_ext_list (List.filter (fun l => negb (of_fd l)) (ext_list p)) p in
  let '(p2, ev) := after_delete p1 in
  (p2, map (fun l => UNWIND_lk (frame l) (-1) EAGAIN (user_flock l)) blocked_list ++ ev).

Definition __delete_locks_of_owner (p : pl_inode) (trans own : Z) : pl_inode :=
  set_ext_list
    (List.filter (fun l => negb ((transport l =? trans) && (owner l =? own))) (ext_list p)) p.

Definition pl_flush (inode_ok : bool) (st_mode : Z) (ctx : option pl_inode)
    (fr : call_frame) (fd : fd_t) : option pl_inode * list event :=
  match pl_inode_get inode_ok st_mode ctx with
  | None => (ctx, [UNWIND_flush fr (-1) EBADFD])
  | Some p =>
      let '(p', ev) :=
        if fr_lk_owner fr =? 0 then delete_locks_of_fd p fd
        else after_delete (__delete_locks_of_owner p (fr_trans fr) (fr_lk_owner fr)) in
      (Some p', ev ++ [WIND_flush fr fd])
  end.

(** [pl_release]: the return value of [inode_ctx_get] is returned. *)
Definition pl_release (ctx : option pl_inode) (fd : fd_t) :
    option pl_inode * list event * Z :=
  match ctx with
  | None => (None, [], -1)
  | Some p => let '(p', ev) := delete_locks_of_fd p fd in (Some p', ev, 0)
  end.

(** ** fcntl locks *)

(** The label [unwind:] of [pl_lk]. *)
Definition lk_unwind (inode_ok : bool) (st_mode : Z) (ctx : option pl_inode)
    (ev : list event) (fr : call_frame) (op_ret op_errno : Z) (fl : flock) :
    option pl_inode * list event :=
  match pl_update_refkeeper inode_ok st_mode ctx with
  | None => (ctx, ev ++ [NULL_deref])
  | Some (p, ev') => (Some p, ev ++ ev' ++ [UNWIND_lk (Some fr) op_ret op_errno fl])
  end.

(** The request as F_SETLK and F_SETLKW complete it. *)
Definition lk_request (fr : call_frame) (fd : fd_t) (can_block : bool) (fl : flock)
    (reqlock : posix_lock) : posix_lock :=
  set_user_flock fl (if can_block then set_frame (Some fr) reqlock else reqlock).

Definition pl_lk (inode_ok inode_ok2 lock_ok : bool) (st_mode : Z)
    (ctx : option pl_inode) (fr : call_frame) (fd : fd_t) (cmd : Z) (fl : flock) :
    option pl_inode * list event :=
  match pl_inode_get inode_ok st_mode ctx with
  | None => lk_unwind inode_ok2 st_mode ctx [] fr (-1) ENOMEM fl
  | Some p =>
      match new_posix_lock lock_ok fl (fr_trans fr) (fr_pid fr) (fr_lk_owner fr) fd with
      | None => lk_unwind inode_ok2 st_mode (Some p) [] fr (-1) ENOMEM fl
      | Some reqlock =>
          if cmd =? F_GETLK then
            lk_unwind inode_ok2 st_mode (Some p) [] fr 0 0
              (posix_lock_to_flock (pl_getlk p reqlock) fl)
          else if (cmd =? F_SETLKW) || (cmd =? F_SETLK) then
            let can_block := cmd =? F_SETLKW in
            let '(p', ev, (ret, _)) :=
              pl_setlk calloc_ok p (lk_request fr fd can_block fl reqlock) can_block in
            if ret =? -1 then
              if can_block then (Some p', ev)
              else lk_unwind inode_ok2 st_mode (Some p') ev fr (-1) EAGAIN fl
            else lk_unwind inode_ok2 st_mode (Some p') ev fr 0 0 fl
          else lk_unwind inode_ok2 st_mode (Some p) [] fr 0 0 fl
      end
  end.

End Xlator.

(** ** Forgetting an inode *)

(** The domains in order; the blocked locks of a domain are released only
    where the matching held list is not empty, each domain's in front of the
    earlier ones'. *)
Definition forget_inodelks (doms : list pl_dom_list) : list pl_inode_lock :=
  foldl (fun acc d =>
    if is_nil (inodelk_list d) then acc else list_splice (blocked_inodelks d) acc) [] doms.

Definition forget_entrylks (doms : list pl_dom_list) : list pl_entry_lock :=
  foldl (fun acc d =>
    if is_nil (entrylk_list d) then acc else list_splice (blocked_entrylks d) acc) [] doms.

Definition pl_forget (inode_ok : bool) (st_mode : Z) (ctx : option pl_inode) : list event :=
  match pl_inode_get inode_ok st_mode ctx with
  | None => [NULL_deref]
  | Some p =>
      map (fun l => UNWIND_lk (frame l) (-1) 0 (user_flock l))
        (List.filter blocked (ext_list p)) ++
      map (fun l => UNWIND_inodelk (il_frame l) (-1) 0) (forget_inodelks (dom_list p)) ++
      map (fun l => UNWIND_entrylk (el_frame l) (-1) 0) (forget_entrylks (dom_list p))
  end.

(** ** Lock counts in a lookup *)

Definition __get_posixlk_count (p : pl_inode) : Z := Z.of_nat (length (ext_list p)).

Definition get_posixlk_count (ctx : option pl_inode) : Z :=
  match ctx with None => 0 | Some p => __get_posixlk_count p end.

Definition GLUSTERFS_ENTRYLK_COUNT : string := "glusterfs.entrylk-count".
Definition GLUSTERFS_INODELK_COUNT : string := "glusterfs.inodelk-count".
Definition GLUSTERFS_POSIXLK_COUNT : string := "glusterfs.posixlk-count".

(** [pl_local_t]: which counts a lookup asked for. *)
Record pl_local := mk_pl_local {
  entrylk_count_req : bool;
  inodelk_count_req : bool;
  posixlk_count_req : bool
}.

Definition pl_lookup_req (xattr_req : list string) : pl_local :=
  mk_pl_local (existsb (String.eqb GLUSTERFS_ENTRYLK_COUNT) xattr_req)
    (existsb (String.eqb GLUSTERFS_INODELK_COUNT) xattr_req)
    (existsb (String.eqb GLUSTERFS_POSIXLK_COUNT) xattr_req).

(** The entries [pl_lookup_cbk] adds to the reply. *)
Definition pl_lookup_cbk (local : option pl_local) (op_ret : Z) (ctx : option pl_inode) :
    list (string * Z) :=
  match local with
  | None => []
  | Some local =>
      if negb (op_ret =? 0) then []
      else
        (if entrylk_count_req local
         then [(GLUSTERFS_ENTRYLK_COUNT, get_entrylk_count ctx)] else []) ++
        (if inodelk_count_req local
         then [(GLUSTERFS_INODELK_COUNT, get_inodelk_count ctx)] else []) ++
        (if posixlk_count_req local
         then [(GLUSTERFS_POSIXLK_COUNT, get_posixlk_count ctx)] else [])
  end.
