(* ===== verification/LocksSystem.v ===== *)
(** * features/locks: the translator as a transition system

    Requests of all handlers arrive at one inode in any order, with any
    outcome of the allocations.  [locks_step] is one request; the invariant of
    the three lock classes is proved for every reachable state. *)

From stdpp Require Import base list numbers strings relations.
From S2P Require Import Prelude LocksData PlInode PosixLk PosixLkFacts EntryLk EntryLkFacts InodeLk InodeLkFacts LocksXlator.
Open Scope Z_scope.

(** What the handlers get from outside: the configuration, the outcome of
    every allocation and of [inode_path]. *)
Record env := mk_env {
  priv_mandatory : bool;
  st_mode : Z;
  inode_ok : bool;
  inode_ok2 : bool;
  lock_ok : bool;
  dom_ok : bool;
  strdup_ok : bool;
  rw_ok : bool;
  stub_ok : bool;
  grant_ok : posix_lock -> bool;
  entry_ok : call_frame -> option string -> bool * bool;
  misread : pl_entry_lock -> Z * Z;
  path_ok : pl_inode_lock -> bool
}.

Inductive request :=
  | LK (fr : call_frame) (fd : fd_t) (cmd : Z) (fl : flock)
  | FLUSH (fr : call_frame) (fd : fd_t)
  | RELEASE (fd : fd_t)
  | READV (fr : call_frame) (fd : fd_t) (size offset : Z)
  | WRITEV (fr : call_frame) (fd : fd_t) (vector : list iovec) (offset : Z)
  | TRUNCATE_STAT (fr : call_frame) (local : truncate_ops) (op_ret op_errno : Z)
  | INODELK (fr : call_frame) (volume : string) (cmd : Z) (fl : flock)
  | ENTRYLK (fr : call_frame) (volume : string) (basename : option string)
      (cmd : entrylk_cmd) (type : entrylk_type).

Definition handle (e : env) (ctx : option pl_inode) (r : request) :
    option pl_inode * list event :=
  match r with
  | LK fr fd cmd fl =>
      pl_lk (grant_ok e) (inode_ok e) (inode_ok2 e) (lock_ok e) (st_mode e) ctx fr fd cmd fl
  | FLUSH fr fd => pl_flush (grant_ok e) (inode_ok e) (st_mode e) ctx fr fd
  | RELEASE fd => fst (pl_release (grant_ok e) ctx fd)
  | READV fr fd size offset =>
      pl_readv (priv_mandatory e) (inode_ok e) (rw_ok e) (stub_ok e) (st_mode e) ctx
        fr fd size offset
  | WRITEV fr fd vector offset =>
      pl_writev (priv_mandatory e) (inode_ok e) (rw_ok e) (stub_ok e) (st_mode e) ctx
        fr fd vector offset
  | TRUNCATE_STAT fr local op_ret op_errno =>
      truncate_stat_cbk (priv_mandatory e) (inode_ok e) (st_mode e) ctx fr local
        op_ret op_errno
  | INODELK fr volume cmd fl =>
      pl_common_inodelk (misread e) (path_ok e) (inode_ok e) (inode_ok2 e) (dom_ok e)
        (strdup_ok e) (lock_ok e) (st_mode e) ctx fr volume cmd fl
  | ENTRYLK fr volume basename cmd type =>
      pl_common_entrylk (entry_ok e) (inode_ok e) (inode_ok2 e) (dom_ok e) (strdup_ok e)
        (st_mode e) ctx fr volume basename cmd type
  end.

Definition ext_of (ctx : option pl_inode) : list posix_lock :=
  match ctx with Some p => ext_list p | None => [] end.

Definition doms_of (ctx : option pl_inode) : list pl_dom_list :=
  match ctx with Some p => dom_list p | None => [] end.

(** A byte range that [off_t] can express. *)
Definition valid_flock (fl : flock) : Prop :=
  0 <= l_start fl <= LLONG_MAX /\ 0 <= l_len fl /\
  l_start fl + l_len fl - 1 <= LLONG_MAX.

(** A client sends valid ranges, and a process that waits for a lock sends no
    other lock request for the file. *)
Definition admissible (ctx : option pl_inode) (r : request) : Prop :=
  match r with
  | LK fr _ _ fl =>
      valid_flock fl /\
      Forall (fun l => blocked l = true ->
                       ~ (transport l = fr_trans fr /\ owner l = fr_lk_owner fr)) (ext_of ctx)
  | _ => True
  end.

(** One request, in an environment that satisfies [E]. *)
Inductive locks_step (E : env -> Prop) (ctx ctx' : option pl_inode) : Prop :=
  | locks_request e r ev :
      E e -> admissible ctx r -> handle e ctx r = (ctx', ev) -> locks_step E ctx ctx'.

(** States of an inode that starts without locks. *)
Definition reachable (E : env -> Prop) (ctx : option pl_inode) : Prop :=
  rtc (locks_step E) None ctx.

Definition any_env : env -> Prop := fun _ => True.

(** The reply records of granted locks can be allocated. *)
Definition replies_ok : env -> Prop := fun e => forall l, grant_ok e l = true.

(** The names of entry locks can be copied. *)
Definition names_ok : env -> Prop := fun e => copies_ok (entry_ok e).

Section Invariant.
Context (E : env -> Prop).

(** Entry locks are in order if no copy of a name fails. *)
Definition entries_ok (d : pl_dom_list) : Prop := (forall e, E e -> names_ok e) -> entry_inv d.

Record locks_inv (ctx : option pl_inode) : Prop := {
  li_ext : lk_inv (ext_of ctx);
  li_entry : Forall entries_ok (doms_of ctx);
  li_inode : Forall inode_inv (doms_of ctx)
}.

(** ** fcntl handlers *)

Lemma new_lock_wf ok fl tr pid own fd l :
  new_posix_lock ok fl tr pid own fd = Some l -> valid_flock fl ->
  wf_lock l /\ blocked l = false /\ transport l = tr /\ owner l = own /\
  0 <= fl_start l /\ fl_end l <= LLONG_MAX.
Proof.
  unfold new_posix_lock, valid_flock, wf_lock. destruct ok; [|done]. intros [= <-] (? & ? & ?).
  simpl. destruct (Z.eqb_spec (l_len fl) 0).
  - unfold LLONG_MAX in *. split_and!; try done; lia.
  - rewrite i64_small by (unfold is_i64, LLONG_MAX in *; lia). split_and!; try done; lia.
Qed.

Lemma rw_lists p p' ev : do_blocked_rw p = (p', ev) -> ext_list p' = ext_list p /\ dom_list p' = dom_list p.
Proof. by intros [= <- _]. Qed.

Lemma grant_lists ok p p' ev :
  grant_blocked_locks ok p = (p', ev) ->
  ext_list p' = fst (__grant_blocked_locks ok (ext_list p)) /\ dom_list p' = dom_list p.
Proof.
  unfold grant_blocked_locks. destruct (__grant_blocked_locks ok (ext_list p)). by intros [= <- _].
Qed.

Lemma after_delete_inv ok p p' ev :
  after_delete ok p = (p', ev) -> lk_inv (ext_list p) ->
  lk_inv (ext_list p') /\ dom_list p' = dom_list p.
Proof.
  unfold after_delete. destruct (grant_blocked_locks ok p) as [p1 e1] eqn:Hg.
  destruct (do_blocked_rw p1) as [p2 e2] eqn:Hr. intros [= <- _] Hinv.
  apply grant_lists in Hg as [He Hd]. apply rw_lists in Hr as [-> ->]. split; [|done].
  rewrite He. destruct (__grant_blocked_locks ok (ext_list p)) eqn:Hgr.
  by eapply grant_blocked_inv.
Qed.

(** A refused request that joins the list as blocked. *)
Lemma block_inv ext lock :
  lk_inv ext -> wf_lock lock -> not_waiting ext lock ->
  __is_lock_grantable ext lock = false ->
  lk_inv (__insert_lock ext (set_blocked true lock)).
Proof.
  intros [W U C S] Hw Hn Hg. unfold __insert_lock, list_add_tail.
  assert (not_unlck lock) as Hu.
  { intros Hu. assert (__is_lock_grantable ext lock = true); [|congruence].
    apply grantable_spec. by left. }
  split; [apply Forall_app; auto|apply Forall_app; auto| |]; apply pairwise_app;
    (split_and!; [done|by repeat constructor|]).
  - intros x y _ [->|[]%elem_of_nil]%elem_of_cons _. done.
  - intros x y Hx [->|[]%elem_of_nil]%elem_of_cons Hxb _.
    unfold not_waiting in Hn. rewrite Forall_forall in Hn. by apply Hn.
Qed.

Lemma setlk_regranted ok p lock cb p' ev ret :
  pl_setlk ok p lock cb = (p', ev, ret) -> lk_inv (ext_list p) ->
  wf_lock lock -> blocked lock = false -> not_waiting (ext_list p) lock ->
  exists p1 ev1, after_delete ok p1 = (p', ev1) /\ lk_inv (ext_list p1) /\
    dom_list p1 = dom_list p.
Proof.
  intros Hs Hinv Hw Hb Hn. unfold pl_setlk in Hs.
  set (s := if __is_lock_grantable _ _ then _ else _) in Hs.
  assert (lk_inv (ext_list (fst s)) /\ dom_list (fst s) = dom_list p) as [Hi Hd].
  { subst s. destruct (__is_lock_grantable (ext_list p) lock) eqn:Hg; simpl.
    - split; [by apply insert_inv|done].
    - destruct cb; simpl; [|done]. split; [by apply block_inv|done]. }
  destruct s as [p1 r1]. simpl in Hi, Hd. exists p1. unfold after_delete.
  destruct (grant_blocked_locks ok p1) as [p2 e2] eqn:Hgr.
  destruct (do_blocked_rw p2) as [p3 e3] eqn:Hrw. injection Hs as <- _ _. eauto.
Qed.

Lemma setlk_inv ok p lock cb p' ev ret :
  pl_setlk ok p lock cb = (p', ev, ret) -> lk_inv (ext_list p) ->
  wf_lock lock -> blocked lock = false -> not_waiting (ext_list p) lock ->
  lk_inv (ext_list p') /\ dom_list p' = dom_list p.
Proof.
  intros Hs Hinv Hw Hb Hn.
  destruct (setlk_regranted _ _ _ _ _ _ _ Hs Hinv Hw Hb Hn) as (p1 & ev1 & Ha & Hi & <-).
  by eapply after_delete_inv.
Qed.

Lemma inode_get_inv c m ctx p :
  pl_inode_get c m ctx = Some p -> locks_inv ctx -> locks_inv (Some p).
Proof.
  unfold pl_inode_get. destruct ctx as [q|]; [by intros [= ->]|].
  destruct c; [|done]. by intros [= <-].
Qed.

(** The inode gets new lists. *)
Lemma locks_inv_ext p p' :
  locks_inv (Some p) -> lk_inv (ext_list p') -> dom_list p' = dom_list p ->
  locks_inv (Some p').
Proof. intros [_ ? ?] ? Hd. split; simpl in *; rewrite ?Hd; done. Qed.

Lemma locks_inv_put p d :
  locks_inv (Some p) -> entries_ok d -> inode_inv d -> locks_inv (Some (put_domain d p)).
Proof. intros [? ? ?] ??. split; [done|by apply put_domain_dom|by apply put_domain_dom]. Qed.

Lemma new_dom_inv v : entries_ok (mk_dom v [] [] [] []) /\ inode_inv (mk_dom v [] [] [] []).
Proof. split; [intros _|]; (split; [done|apply justified_nil]). Qed.

Lemma get_domain_inv c s p v p' d :
  get_domain c s p v = Some (p', d) -> locks_inv (Some p) ->
  locks_inv (Some p') /\ entries_ok d /\ inode_inv d.
Proof.
  intros Hg [He Hen Hin]. destruct (new_dom_inv v) as [? ?].
  destruct (get_domain_dom entries_ok _ _ _ _ _ _ Hg) as [? ?]; [done..|].
  destruct (get_domain_dom inode_inv _ _ _ _ _ _ Hg) as [? ?]; [done..|].
  split; [|done]. split; [|done..].
  assert (ext_list p' = ext_list p) as Hext.
  { unfold get_domain in Hg. destruct (List.find _ _); [by simplify_eq|].
    destruct (allocate_domain _ _ _); by simplify_eq. }
  simpl. by rewrite Hext.
Qed.

Lemma refkeeper_inv c m ctx p ev :
  pl_update_refkeeper c m ctx = Some (p, ev) -> locks_inv ctx -> locks_inv (Some p).
Proof.
  intros (q & Hq & Hd & He & _)%update_refkeeper_lists Hinv.
  apply inode_get_inv in Hq; [|done]. destruct Hq. split; simpl in *; by rewrite ?Hd, ?He.
Qed.

Lemma lk_unwind_inv c m ctx ev fr r e fl ctx' ev' :
  lk_unwind c m ctx ev fr r e fl = (ctx', ev') -> locks_inv ctx -> locks_inv ctx'.
Proof.
  unfold lk_unwind. destruct (pl_update_refkeeper c m ctx) as [[p e']|] eqn:Hu;
    intros [= <- _]; [by apply (refkeeper_inv _ _ _ _ _ Hu)|done].
Qed.

Lemma inodelk_unwind_inv c m ctx ev fr r e ctx' ev' :
  inodelk_unwind c m ctx ev fr r e = (ctx', ev') -> locks_inv ctx -> locks_inv ctx'.
Proof.
  unfold inodelk_unwind. destruct (pl_update_refkeeper c m ctx) as [[p e']|] eqn:Hu;
    intros [= <- _]; [by apply (refkeeper_inv _ _ _ _ _ Hu)|done].
Qed.

Lemma entrylk_out_inv c m ctx ev fr r e u ctx' ev' :
  entrylk_out c m ctx ev fr r e u = (ctx', ev') -> locks_inv ctx -> locks_inv ctx'.
Proof.
  unfold entrylk_out. destruct (pl_update_refkeeper c m ctx) as [[p e']|] eqn:Hu;
    intros [= <- _]; [by apply (refkeeper_inv _ _ _ _ _ Hu)|done].
Qed.

Lemma request_not_waiting fr fd cb fl l ext :
  Forall (fun l => blocked l = true ->
    ~ (transport l = fr_trans fr /\ owner l = fr_lk_owner fr)) ext ->
  transport l = fr_trans fr -> owner l = fr_lk_owner fr ->
  not_waiting ext (lk_request fr fd cb fl l).
Proof.
  intros Hnw Ht Ho. unfold not_waiting. eapply Forall_impl; [exact Hnw|]. simpl.
  intros k Hk Hkb. apply not_true_is_false. rewrite same_owner_true.
  unfold lk_request. destruct cb; simpl; rewrite Ht, Ho; intros [? ?]; by apply Hk.
Qed.

#[local] Hint Resolve lk_unwind_inv inodelk_unwind_inv entrylk_out_inv inode_get_inv : locks.

Lemma lk_handler_inv e ctx fr fd cmd fl ctx' ev :
  handle e ctx (LK fr fd cmd fl) = (ctx', ev) -> admissible ctx (LK fr fd cmd fl) ->
  locks_inv ctx -> locks_inv ctx'.
Proof.
  simpl. unfold pl_lk. intros Hh [Hv Hnw] Hinv.
  destruct (pl_inode_get _ _ ctx) as [p|] eqn:Hp; [|eauto with locks].
  assert (ext_list p = ext_of ctx) as Hext.
  { unfold pl_inode_get in Hp. destruct ctx; [by simplify_eq|]. destruct (inode_ok e); by simplify_eq. }
  destruct (new_posix_lock _ _ _ _ _ _) as [l|] eqn:Hl; [|eauto with locks].
  destruct (cmd =? F_GETLK); [eauto with locks|].
  destruct (_ || _); [|eauto with locks].
  destruct (new_lock_wf _ _ _ _ _ _ _ Hl Hv) as (Hw & Hb & Ht & Ho & _).
  destruct (pl_setlk _ _ _ _) as [[p' e'] [r r']] eqn:Hs.
  assert (locks_inv (Some p')) as Hi.
  { apply setlk_inv in Hs as [? ?].
    - apply locks_inv_ext with (p := p); eauto with locks.
    - rewrite Hext. apply Hinv.
    - unfold lk_request. by destruct (cmd =? F_SETLKW).
    - unfold lk_request. by destruct (cmd =? F_SETLKW).
    - rewrite Hext. by apply request_not_waiting. }
  destruct (r =? -1); [destruct (cmd =? F_SETLKW)|]; eauto with locks. by simplify_eq.
Qed.

Lemma delete_fd_inv ok p fd p' ev :
  delete_locks_of_fd ok p fd = (p', ev) -> locks_inv (Some p) -> locks_inv (Some p').
Proof.
  unfold delete_locks_of_fd. destruct (after_delete _ _) as [p1 e1] eqn:Ha. intros [= <- _] Hinv.
  apply after_delete_inv in Ha as [? ?].
  - by apply locks_inv_ext with (p := p).
  - simpl. eapply lk_inv_sublist; [apply List_filter_sublist|apply Hinv].
Qed.

Lemma flush_handler_inv e ctx fr fd ctx' ev :
  handle e ctx (FLUSH fr fd) = (ctx', ev) -> locks_inv ctx -> locks_inv ctx'.
Proof.
  simpl. unfold pl_flush. intros Hh Hinv.
  destruct (pl_inode_get _ _ ctx) as [p|] eqn:Hp; [|by simplify_eq].
  apply inode_get_inv in Hp; [|done].
  destruct (fr_lk_owner fr =? 0).
  - destruct (delete_locks_of_fd _ _ _) eqn:Hd. simplify_eq. by eapply delete_fd_inv.
  - destruct (after_delete _ _) eqn:Ha. simplify_eq. apply after_delete_inv in Ha as [? ?].
    + by apply locks_inv_ext with (p := p).
    + simpl. eapply lk_inv_sublist; [apply List_filter_sublist|apply Hp].
Qed.

Lemma rw_check_lists a b p fd reg stub p' w err :
  rw_check a b p fd reg stub = (p', w, err) ->
  ext_list p' = ext_list p /\ dom_list p' = dom_list p.
Proof.
  unfold rw_check. intros Hc.
  destruct (__rw_allowable _ _ _), (nonblocking fd), a, b; simpl in Hc; by simplify_eq.
Qed.

Lemma inodelk_handler_inv e ctx fr v cmd fl ctx' ev :
  handle e ctx (INODELK fr v cmd fl) = (ctx', ev) -> locks_inv ctx -> locks_inv ctx'.
Proof.
  simpl. unfold pl_common_inodelk. intros Hh Hinv. destruct (_ || _); [eauto with locks|].
  destruct (pl_inode_get _ _ ctx) as [p|] eqn:Hp; [|eauto with locks].
  apply inode_get_inv in Hp; [|done].
  destruct (get_domain _ _ p v) as [[p1 d]|] eqn:Hd.
  - apply get_domain_inv in Hd as (Hp1 & Hed & Hid); [|done].
    destruct (fr_pid fr =? 0).
    { destruct (release_inode_locks_of_transport _ _ _ _) as [d' e'] eqn:Hr.
      eapply inodelk_unwind_inv; [exact Hh|]. apply locks_inv_put; [done| |].
      - intros HE. apply (release_inode_entry _ _ _ _ _ _ queue_inv Hr). by apply Hed.
      - by eapply release_inode_inv. }
    destruct (new_inode_lock _ _ _ _ _ _) as [l|]; [|eauto with locks].
    destruct (_ || _); [|eauto with locks].
    destruct (pl_inode_setlk _ _ _ _) as [[d' e'] ret] eqn:Hs.
    assert (locks_inv (Some (put_domain d' p1))) as Hput.
    { apply locks_inv_put; [done|intros HE; apply (inode_setlk_entry _ _ _ _ _ _ _ queue_inv Hs); by apply Hed|by eapply inode_setlk_inv]. }
    destruct (ret <? 0); [destruct (cmd =? F_SETLKW)|]; eauto with locks. by simplify_eq.
  - destruct (fr_pid fr =? 0); [by simplify_eq|].
    destruct (new_inode_lock _ _ _ _ _ _) as [l|]; [|eauto with locks].
    destruct (_ || _); [|eauto with locks]. by simplify_eq.
Qed.

Lemma entrylk_handler_inv e ctx fr v name cmd type ctx' ev :
  E e -> handle e ctx (ENTRYLK fr v name cmd type) = (ctx', ev) -> locks_inv ctx -> locks_inv ctx'.
Proof.
  intros HE. simpl. unfold pl_common_entrylk. intros Hh Hinv.
  destruct (pl_inode_get _ _ ctx) as [p|] eqn:Hp; [|eauto with locks].
  apply inode_get_inv in Hp; [|done].
  destruct (get_domain _ _ p v) as [[p1 d]|] eqn:Hd; [|eauto with locks].
  apply get_domain_inv in Hd as (Hp1 & Hed & Hid); [|done].
  destruct (entrylk_cmd_step _ _ _ _ _ _) as [[d' e'] [[r1 r2] u]] eqn:Hs.
  eapply entrylk_out_inv; [exact Hh|]. apply locks_inv_put; [done| |].
  - intros HN. eapply entrylk_cmd_inv; [by apply HN|exact Hs|by apply Hed].
  - by apply (entrylk_cmd_inode _ _ _ _ _ _ _ _ _ queue_inv Hs).
Qed.

Lemma locks_step_inv ctx ctx' : locks_step E ctx ctx' -> locks_inv ctx -> locks_inv ctx'.
Proof.
  intros [e r ev HE Hadm Hh] Hinv.
  destruct r; eauto using lk_handler_inv, flush_handler_inv, inodelk_handler_inv,
    entrylk_handler_inv.
  - simpl in Hh. unfold pl_release in Hh. destruct ctx as [p|]; simpl in Hh; [|by injection Hh as <- _].
    destruct (delete_locks_of_fd _ _ _) eqn:Hd. simpl in Hh. simplify_eq. by eapply delete_fd_inv.
  - simpl in Hh. unfold pl_readv in Hh.
    destruct (pl_inode_get _ _ ctx) as [p|] eqn:Hp; [|by simplify_eq].
    apply inode_get_inv in Hp; [|done]. destruct (_ && _); [|by simplify_eq].
    destruct (rw_check _ _ _ _ _ _) as [[p' w] err] eqn:Hc. simplify_eq.
    apply rw_check_lists in Hc as [He Hd]. apply locks_inv_ext with (p := p); auto.
    rewrite He. apply Hp.
  - simpl in Hh. unfold pl_writev in Hh.
    destruct (pl_inode_get _ _ ctx) as [p|] eqn:Hp; [|by simplify_eq].
    apply inode_get_inv in Hp; [|done]. destruct (_ && _); [|by simplify_eq].
    destruct (rw_check _ _ _ _ _ _) as [[p' w] err] eqn:Hc. simplify_eq.
    apply rw_check_lists in Hc as [He Hd]. apply locks_inv_ext with (p := p); auto.
    rewrite He. apply Hp.
  - simpl in Hh. unfold truncate_stat_cbk in Hh. destruct (negb _); [by simplify_eq|].
    destruct (pl_inode_get _ _ ctx) as [p|] eqn:Hp; [|by simplify_eq].
    apply inode_get_inv in Hp; [|done]. destruct (_ && _); by simplify_eq.
Qed.

Lemma reachable_inv ctx : reachable E ctx -> locks_inv ctx.
Proof.
  intros Hr. assert (locks_inv None) as H0.
  { split; [split; constructor|constructor..]. }
  revert H0. induction Hr; eauto using locks_step_inv.
Qed.

End Invariant.

(** ** Requests that wait *)

(** Which handlers re-examine the waiting fcntl locks, ending in
    [grant_blocked_locks] and [do_blocked_rw]; the others leave the list. *)
Lemma inode_get_lists c m ctx p :
  pl_inode_get c m ctx = Some p -> ext_list p = ext_of ctx /\ dom_list p = doms_of ctx.
Proof.
  unfold pl_inode_get. destruct ctx as [q|]; [by intros [= ->]|].
  destruct c; [|done]. by intros [= <-].
Qed.

Definition rws_of (ctx : option pl_inode) : list pl_rw_req :=
  match ctx with Some p => rw_list p | None => [] end.

(** [ctx'] is [ctx] as far as fcntl locks and suspended calls go. *)
Definition same_lks (ctx ctx' : option pl_inode) : Prop :=
  ext_of ctx' = ext_of ctx /\ rws_of ctx' = rws_of ctx.

(** [ctx'] is what [after_delete] makes of a list that satisfies the invariant. *)
Definition regranted (ok : posix_lock -> bool) (ctx' : option pl_inode) : Prop :=
  exists p p' ev, after_delete ok p = (p', ev) /\ lk_inv (ext_list p) /\ same_lks (Some p') ctx'.

Lemma inode_get_same c m ctx p : pl_inode_get c m ctx = Some p -> same_lks ctx (Some p).
Proof.
  unfold pl_inode_get. destruct ctx as [q|]; [by intros [= ->]|].
  destruct c; [|done]. by intros [= <-].
Qed.

Lemma same_lks_trans c1 c2 c3 : same_lks c1 c2 -> same_lks c2 c3 -> same_lks c1 c3.
Proof. intros [? ?] [? ?]. split; congruence. Qed.

Lemma refkeeper_same c m ctx p ev :
  pl_update_refkeeper c m ctx = Some (p, ev) -> same_lks ctx (Some p).
Proof.
  intros (q & Hq & _ & He & Hr & _)%update_refkeeper_lists.
  apply inode_get_same in Hq as [? ?]. split; simpl in *; congruence.
Qed.

Lemma lk_unwind_same c m ctx ev fr r e fl ctx' ev' :
  lk_unwind c m ctx ev fr r e fl = (ctx', ev') -> same_lks ctx ctx'.
Proof.
  unfold lk_unwind. destruct (pl_update_refkeeper c m ctx) as [[p e']|] eqn:Hu;
    intros [= <- _]; [by eapply refkeeper_same|done].
Qed.

Lemma inodelk_same e ctx fr v cmd fl ctx' ev :
  handle e ctx (INODELK fr v cmd fl) = (ctx', ev) -> same_lks ctx ctx'.
Proof.
  simpl. unfold pl_common_inodelk.
  assert (forall c x evs r er c' ev', inodelk_unwind c (st_mode e) x evs fr r er = (c', ev') ->
    same_lks x c') as Hun.
  { intros c x evs r er c' ev'. unfold inodelk_unwind.
    destruct (pl_update_refkeeper _ _ x) as [[p e']|] eqn:Hu;
      intros [= <- _]; [by eapply refkeeper_same|done]. }
  assert (forall p p' d, get_domain (dom_ok e) (strdup_ok e) p v = Some (p', d) ->
    same_lks (Some p) (Some p')) as Hget.
  { intros p p' d. unfold get_domain. destruct (List.find _ _); [by intros [= -> _]|].
    destruct (allocate_domain _ _ _); [|done]. by intros [= <- _]. }
  destruct (_ || _); [by apply Hun|].
  destruct (pl_inode_get _ _ ctx) as [p|] eqn:Hp; [|by apply Hun].
  apply inode_get_same in Hp. intros Hh. apply (same_lks_trans _ _ _ Hp). revert Hh.
  destruct (get_domain _ _ p v) as [[p1 d]|] eqn:Hd.
  - apply Hget in Hd. intros Hh. apply (same_lks_trans _ _ _ Hd). revert Hh.
    destruct (fr_pid fr =? 0).
    { destruct (release_inode_locks_of_transport _ _ _ _) as [d' e'].
      intros Hh%Hun. by apply same_lks_trans with (c2 := Some (put_domain d' p1)). }
    destruct (new_inode_lock _ _ _ _ _ _) as [l|]; [|by apply Hun].
    destruct (_ || _); [|by apply Hun].
    destruct (pl_inode_setlk _ _ _ _) as [[d' e'] ret].
    assert (forall c evs r er ev', inodelk_unwind c (st_mode e) (Some (put_domain d' p1)) evs fr r er
      = (ctx', ev') -> same_lks (Some p1) ctx') as Hput.
    { intros c evs r er ev' Hh%Hun. by apply same_lks_trans with (c2 := Some (put_domain d' p1)). }
    destruct (ret <? 0); [destruct (cmd =? F_SETLKW)|]; [by intros [= <- _]|by apply Hput..].
  - destruct (fr_pid fr =? 0); [by intros [= <- _]|].
    destruct (new_inode_lock _ _ _ _ _ _) as [l|]; [|by apply Hun].
    destruct (_ || _); [by intros [= <- _]|by apply Hun].
Qed.

Lemma entrylk_same e ctx fr v name cmd type ctx' ev :
  handle e ctx (ENTRYLK fr v name cmd type) = (ctx', ev) -> same_lks ctx ctx'.
Proof.
  simpl. unfold pl_common_entrylk.
  assert (forall c x evs r er u c' ev', entrylk_out c (st_mode e) x evs fr r er u = (c', ev') ->
    same_lks x c') as Hun.
  { intros c x evs r er u c' ev'. unfold entrylk_out.
    destruct (pl_update_refkeeper _ _ x) as [[p e']|] eqn:Hu;
      intros [= <- _]; [by eapply refkeeper_same|done]. }
  destruct (pl_inode_get _ _ ctx) as [p|] eqn:Hp; [|by apply Hun].
  apply inode_get_same in Hp. intros Hh. apply (same_lks_trans _ _ _ Hp). revert Hh.
  destruct (get_domain _ _ p v) as [[p1 d]|] eqn:Hd; [|by apply Hun].
  assert (same_lks (Some p) (Some p1)) as Hs.
  { unfold get_domain in Hd. destruct (List.find _ _); [by simplify_eq|].
    destruct (allocate_domain _ _ _); by simplify_eq. }
  destruct (entrylk_cmd_step _ _ _ _ _ _) as [[d' e'] [[r1 r2] u]].
  intros Hh%Hun. apply (same_lks_trans _ _ _ Hs).
  by apply same_lks_trans with (c2 := Some (put_domain d' p1)).
Qed.

Lemma lk_cases E e ctx fr fd cmd fl ctx' ev :
  handle e ctx (LK fr fd cmd fl) = (ctx', ev) -> admissible ctx (LK fr fd cmd fl) ->
  locks_inv E ctx -> same_lks ctx ctx' \/ regranted (grant_ok e) ctx'.
Proof.
  simpl. unfold pl_lk. intros Hh [Hv Hnw] Hinv.
  destruct (pl_inode_get _ _ ctx) as [p|] eqn:Hp; [|left; by eapply lk_unwind_same].
  destruct (inode_get_lists _ _ _ _ Hp) as [Hext _]. apply inode_get_same in Hp.
  destruct (new_posix_lock _ _ _ _ _ _) as [l|] eqn:Hl.
  2:{ left. eapply same_lks_trans; [exact Hp|]. by eapply lk_unwind_same. }
  destruct (cmd =? F_GETLK).
  { left. eapply same_lks_trans; [exact Hp|]. by eapply lk_unwind_same. }
  destruct (_ || _).
  2:{ left. eapply same_lks_trans; [exact Hp|]. by eapply lk_unwind_same. }
  destruct (new_lock_wf _ _ _ _ _ _ _ Hl Hv) as (Hw & Hb & Ht & Ho & _).
  destruct (pl_setlk _ _ _ _) as [[p' e'] [r r']] eqn:Hs. right.
  apply setlk_regranted in Hs as (p1 & ev1 & Ha & Hi & _).
  - exists p1, p', ev1. split_and!; [done..|].
    destruct (r =? -1); [destruct (cmd =? F_SETLKW)|]; try by eapply lk_unwind_same.
    by simplify_eq.
  - rewrite Hext. apply Hinv.
  - unfold lk_request. by destruct (cmd =? F_SETLKW).
  - unfold lk_request. by destruct (cmd =? F_SETLKW).
  - rewrite Hext. by apply request_not_waiting.
Qed.

Definition suspended (ctx ctx' : option pl_inode) : Prop :=
  ext_of ctx' = ext_of ctx /\ exists rw, rws_of ctx' = rws_of ctx ++ [rw] /\
    __rw_allowable (ext_of ctx) (region rw) (stub_is_read (rw_call rw)) = false.

Lemma rw_check_cases a b p fd reg stub p' w err :
  rw_check a b p fd reg stub = (p', w, err) ->
  same_lks (Some p) (Some p') \/ suspended (Some p) (Some p').
Proof.
  unfold rw_check. destruct (__rw_allowable _ _ _) eqn:Ha; [intros [= <- _ _]; by left|].
  destruct (nonblocking fd); [intros [= <- _ _]; by left|].
  destruct a; [|intros [= <- _ _]; by left]. destruct b; [|intros [= <- _ _]; by left].
  intros [= <- _ _]. right. split; [done|]. by eexists.
Qed.

Lemma suspended_same c1 c2 c3 : same_lks c1 c2 -> suspended c2 c3 -> suspended c1 c3.
Proof. intros [He Hr] [He' (rw & Hr' & Ha)]. split; [congruence|]. exists rw. split; congruence. Qed.

Lemma delete_fd_regranted ok p fd p' ev :
  delete_locks_of_fd ok p fd = (p', ev) -> lk_inv (ext_list p) -> regranted ok (Some p').
Proof.
  unfold delete_locks_of_fd. destruct (after_delete _ _) as [p1 e1] eqn:Ha. intros [= <- _] Hinv.
  eexists _, _, _. split; [exact Ha|]. split; [|done]. simpl.
  eapply lk_inv_sublist; [apply List_filter_sublist|done].
Qed.

Lemma step_cases E e ctx r ctx' ev :
  handle e ctx r = (ctx', ev) -> admissible ctx r -> locks_inv E ctx ->
  same_lks ctx ctx' \/ suspended ctx ctx' \/ regranted (grant_ok e) ctx'.
Proof.
  intros Hh Hadm Hinv.
  destruct r as [fr fd cmd fl|fr fd|fd|fr fd size off|fr fd vec off|fr local r er|fr v cmd fl
    |fr v name cmd type].
  - destruct (lk_cases E _ _ _ _ _ _ _ _ Hh Hadm Hinv); auto.
  - simpl in Hh. unfold pl_flush in Hh.
    destruct (pl_inode_get _ _ ctx) as [p|] eqn:Hp; [|left; by simplify_eq].
    destruct (inode_get_lists _ _ _ _ Hp) as [Hext _]. right; right.
    assert (lk_inv (ext_list p)) by (rewrite Hext; apply Hinv).
    destruct (fr_lk_owner fr =? 0).
    + destruct (delete_locks_of_fd _ _ _) eqn:Hd. simplify_eq. by eapply delete_fd_regranted.
    + destruct (after_delete _ _) eqn:Ha. simplify_eq. eexists _, _, _. split; [exact Ha|].
      split; [|done]. simpl. eapply lk_inv_sublist; [apply List_filter_sublist|done].
  - simpl in Hh. unfold pl_release in Hh.
    destruct ctx as [p|]; simpl in Hh; [|left; by injection Hh as <- _].
    destruct (delete_locks_of_fd _ _ _) eqn:Hd. simpl in Hh. simplify_eq. right; right.
    eapply delete_fd_regranted; [exact Hd|]. apply Hinv.
  - simpl in Hh. unfold pl_readv in Hh.
    destruct (pl_inode_get _ _ ctx) as [p|] eqn:Hp; [|left; by simplify_eq].
    apply inode_get_same in Hp. destruct (_ && _); [|left; by simplify_eq].
    destruct (rw_check _ _ _ _ _ _) as [[p' w] err] eqn:Hc. simplify_eq.
    apply rw_check_cases in Hc as [?|?]; eauto using same_lks_trans, suspended_same.
  - simpl in Hh. unfold pl_writev in Hh.
    destruct (pl_inode_get _ _ ctx) as [p|] eqn:Hp; [|left; by simplify_eq].
    apply inode_get_same in Hp. destruct (_ && _); [|left; by simplify_eq].
    destruct (rw_check _ _ _ _ _ _) as [[p' w] err] eqn:Hc. simplify_eq.
    apply rw_check_cases in Hc as [?|?]; eauto using same_lks_trans, suspended_same.
  - left. simpl in Hh. unfold truncate_stat_cbk in Hh. destruct (negb _); [by simplify_eq|].
    destruct (pl_inode_get _ _ ctx) as [p|] eqn:Hp; [|by simplify_eq].
    apply inode_get_same in Hp. destruct (_ && _); by simplify_eq.
  - left. by eapply inodelk_same.
  - left. by eapply entrylk_same.
Qed.

Lemma after_delete_waits ok p p' ev :
  after_delete ok p = (p', ev) -> (forall l, ok l = true) -> lk_inv (ext_list p) ->
  Forall (overlaps_one (held (ext_list p'))) (waiting (ext_list p')).
Proof.
  unfold after_delete. destruct (grant_blocked_locks ok p) as [p1 e1] eqn:Hg.
  destruct (do_blocked_rw p1) as [p2 e2] eqn:Hr. intros [= <- _] Hok Hinv.
  apply rw_lists in Hr as [-> _]. apply grant_lists in Hg as [-> _].
  unfold __grant_blocked_locks. destruct (grant_scan [] (ext_list p) []) as [e t] eqn:Hs.
  destruct (grant_loop ok e t []) as [e' g] eqn:Hl. simpl.
  eapply grant_loop_waits; [done|by eapply grant_scan_inv| |exact Hl].
  apply grant_scan_waits in Hs as [Hh Hw]; [|constructor]. by rewrite Hh.
Qed.

Definition rw_denied (ctx : option pl_inode) : Prop :=
  Forall (fun rw => __rw_allowable (ext_of ctx) (region rw) (stub_is_read (rw_call rw)) = false)
    (rws_of ctx).

Lemma after_delete_rw ok p p' ev : after_delete ok p = (p', ev) -> rw_denied (Some p').
Proof.
  unfold after_delete. destruct (grant_blocked_locks ok p) as [p1 e1].
  unfold do_blocked_rw. intros [= <- _]. unfold rw_denied. simpl.
  apply Forall_forall. intros rw Hin%list_elem_of_In. apply filter_In in Hin as [_ Hn].
  by apply negb_true_iff in Hn.
Qed.

(** A property of the waiting lists that every step establishes or keeps. *)
Lemma reachable_ind E (P : option pl_inode -> Prop) :
  P None ->
  (forall ctx ctx', same_lks ctx ctx' -> P ctx -> P ctx') ->
  (forall ctx ctx', suspended ctx ctx' -> P ctx -> P ctx') ->
  (forall e ctx, E e -> regranted (grant_ok e) ctx -> P ctx) ->
  forall ctx, reachable E ctx -> P ctx.
Proof.
  intros H0 Hsame Hsusp Hreg ctx Hr. unfold reachable in Hr.
  assert (locks_inv E ctx /\ P ctx) as [_ ?]; [|done]. revert ctx Hr.
  apply (rtc_ind_r (fun c => locks_inv E c /\ P c)).
  - split; [|done]. apply (reachable_inv E). apply rtc_refl.
  - intros ctx ctx' Hr Hs [Hi IH]. split; [by eapply locks_step_inv|].
    destruct Hs as [e r ev He Hadm Hh]. apply (step_cases E) in Hh as [?|[?|?]]; eauto.
Qed.

Lemma regranted_waits ok ctx :
  (forall l, ok l = true) -> regranted ok ctx ->
  Forall (overlaps_one (held (ext_of ctx))) (waiting (ext_of ctx)).
Proof.
  intros Hok (p & p' & ev & Ha & Hi & [He _]). rewrite He. simpl. by eapply after_delete_waits.
Qed.

Lemma reachable_waits ctx :
  reachable replies_ok ctx -> Forall (overlaps_one (held (ext_of ctx))) (waiting (ext_of ctx)).
Proof.
  revert ctx. apply (reachable_ind replies_ok).
  - constructor.
  - intros c c' [-> _]. done.
  - intros c c' [-> _]. done.
  - intros e c He. by apply regranted_waits.
Qed.

Lemma reachable_rw E ctx : reachable E ctx -> rw_denied ctx.
Proof.
  revert ctx. apply reachable_ind.
  - constructor.
  - intros c c' [He Hr]. unfold rw_denied. by rewrite He, Hr.
  - intros c c' [He (rw & Hr & Ha)]. unfold rw_denied. rewrite He, Hr. intros ?.
    apply Forall_app. auto.
  - intros e c _ (p & p' & ev & Ha & _ & [He Hr]). unfold rw_denied. rewrite He, Hr.
    by apply (after_delete_rw _ _ _ _ Ha).
Qed.
