(* ===== verification/LocksProps.v ===== *)
(** * features/locks: what the translator guarantees

    The theorems about fcntl, inode and entry locks, each with an instance on
    a concrete inode. *)

From stdpp Require Import base list numbers strings relations.
From S2P Require Import Prelude LocksData PlInode PosixLk PosixLkFacts PosixLkSpec EntryLk EntryLkFacts InodeLk InodeLkFacts LocksXlator LocksSystem.
Open Scope Z_scope.

(** ** Concrete locks and runs *)

(** A lock of the process [o] of transport 1. *)
Definition mkl (type s e : Z) (blk : bool) (o : Z) : posix_lock :=
  mk_posix_lock type s e blk flock0 0 None 1 o o.

(** An environment in which every allocation succeeds. *)
Definition env0 : env :=
  mk_env true 1024 true true true true true true true (fun _ => true) (fun _ _ => (true, true))
    (fun _ => (0, 0)) (fun _ => true).

Definition fr0 (o : Z) : call_frame := mk_frame o o 1 o o.
Definition fd0 : fd_t := mk_fd 7 0.

Definition lk0 (cmd type s len o : Z) : request :=
  LK (fr0 o) fd0 cmd (mk_flock type 0 s len 0).

(** The state after a sequence of requests, and their being admissible. *)
Fixpoint run (ctx : option pl_inode) (rs : list request) : option pl_inode :=
  match rs with
  | [] => ctx
  | r :: rs' => run (fst (handle env0 ctx r)) rs'
  end.

Fixpoint run_ok (ctx : option pl_inode) (rs : list request) : Prop :=
  match rs with
  | [] => True
  | r :: rs' => admissible ctx r /\ run_ok (fst (handle env0 ctx r)) rs'
  end.

Lemma reachable_run E rs : E env0 -> run_ok None rs -> reachable E (run None rs).
Proof.
  intros HE. assert (forall c, reachable E c -> run_ok c rs -> reachable E (run c rs)) as Hrun.
  { induction rs as [|r rs IH]; intros c Hc; [done|]. intros [Hr Hrs]. simpl.
    apply IH; [|done]. eapply rtc_r; [exact Hc|].
    destruct (handle env0 c r) as [c' ev] eqn:Hh. by apply (locks_request E c c' env0 r ev). }
  apply Hrun. apply rtc_refl.
Qed.

(** Owner 1 writes bytes 0-9; owner 2 waits to write 5-14; owner 3 reads 20-29. *)
Definition lk_run : list request :=
  [lk0 F_SETLK F_WRLCK 0 10 1; lk0 F_SETLKW F_WRLCK 5 10 2; lk0 F_SETLK F_RDLCK 20 10 3].

Ltac solve_admissible :=
  repeat (split || apply Forall_nil || apply Forall_cons); vm_compute; intuition congruence.

(** ** fcntl locks *)

(** C1: Mutual exclusion of fcntl locks.  In every state the translator can
    reach, two granted locks of different owners that overlap are both read
    locks; whatever allocations fail on the way, and whatever flushes, releases,
    reads, writes, truncations, inode and entry lock requests come between.
    Clients are [admissible]: ranges fit [off_t], and an owner that waits for a
    lock of the file asks for no other. *)
Theorem fcntl_mutual_exclusion (ctx : option pl_inode) (a b : posix_lock) :
  reachable any_env ctx -> a ∈ ext_of ctx -> b ∈ ext_of ctx ->
  blocked a = false -> blocked b = false ->
  same_owner a b = false -> locks_overlap a b = true ->
  fl_type a <> F_WRLCK /\ fl_type b <> F_WRLCK.
Proof.
  intros [[_ _ Hc _] _ _]%reachable_inv Ha Hb Hab Hbb Hown Hov.
  destruct (pairwise_elem _ _ _ _ Hc Ha Hb) as [->|[H|H]].
  - by rewrite same_owner_refl in Hown.
  - assert (~ conflict a b) as Hn by auto. unfold conflict in Hn. tauto.
  - assert (~ conflict b a) as Hn by auto. unfold conflict in Hn.
    rewrite locks_overlap_sym, same_owner_sym in Hn. tauto.
Qed.

Lemma fcntl_mutual_exclusion_witness :
  exists ctx a b, reachable any_env ctx /\ a ∈ ext_of ctx /\ b ∈ ext_of ctx /\ a <> b /\
    fl_type a <> F_WRLCK /\ fl_type b <> F_WRLCK.
Proof.
  set (rs := lk_run ++ [lk0 F_SETLK F_RDLCK 25 10 4]).
  pose (a := nth 2 (ext_of (run None rs)) (mkl 0 0 0 false 0)).
  pose (b := nth 3 (ext_of (run None rs)) (mkl 0 0 0 false 0)).
  assert (reachable any_env (run None rs)) as Hr.
  { apply reachable_run; [done|]. solve_admissible. }
  assert (a ∈ ext_of (run None rs)) as Ha by (apply list_elem_of_In; vm_compute; auto 6).
  assert (b ∈ ext_of (run None rs)) as Hb by (apply list_elem_of_In; vm_compute; auto 6).
  exists (run None rs), a, b. split_and!; [done..| | |].
  - vm_compute. discriminate.
  - apply (fcntl_mutual_exclusion (run None rs) a b Hr Ha Hb); reflexivity.
  - apply (fcntl_mutual_exclusion (run None rs) a b Hr Ha Hb); reflexivity.
Defined.

(** The discipline C1 asks of clients is needed.  An owner that waits for
    a write lock on bytes 0-10 and meanwhile sets a read lock on bytes 0-5 gets
    its waiting lock merged and granted: it ends up with a granted write lock on
    bytes 6-10 beside another owner's read lock on bytes 8-10. *)
Theorem waiting_owner_breaks_exclusion :
  let rs := [lk0 F_SETLK F_RDLCK 8 3 2; lk0 F_SETLKW F_WRLCK 0 11 1;
             lk0 F_SETLK F_RDLCK 0 6 1] in
  exists a b, a ∈ ext_of (run None rs) /\ b ∈ ext_of (run None rs) /\
    blocked a = false /\ blocked b = false /\ same_owner a b = false /\
    locks_overlap a b = true /\ fl_type b = F_WRLCK.
Proof.
  intros rs. exists (nth 0 (ext_of (run None rs)) (mkl 0 0 0 false 0)).
  exists (nth 1 (ext_of (run None rs)) (mkl 0 0 0 false 0)).
  split_and!; try reflexivity; apply list_elem_of_In; vm_compute; auto.
Qed.

(** The recursion of [__insert_and_merge] ends.  On every list of
    well-formed locks there is one result, reached with [merge_fuel] nested
    calls and unchanged by allowing more; its locks are well-formed again. *)
Theorem insert_and_merge_terminates (ext : list posix_lock) (lock : posix_lock) :
  Forall wf_lock ext -> wf_lock lock ->
  exists r, (forall fuel, (merge_fuel ext <= fuel)%nat ->
               __insert_and_merge fuel ext lock = Some r) /\
    r = insert_and_merge ext lock /\ Forall wf_lock r.
Proof.
  intros He Hl. exists (insert_and_merge ext lock). split_and!; [|done|by apply insert_wf].
  intros fuel Hf. eapply insert_fuel_mono; [exact Hf|]. by apply merge_fuel_enough.
Qed.

Lemma insert_and_merge_terminates_witness :
  exists r, __insert_and_merge 100 [mkl F_WRLCK 0 9 false 1; mkl F_RDLCK 5 30 false 1]
              (mkl F_RDLCK 3 6 false 1) = Some r /\ length r = 4%nat.
Proof.
  destruct (insert_and_merge_terminates
    [mkl F_WRLCK 0 9 false 1; mkl F_RDLCK 5 30 false 1] (mkl F_RDLCK 3 6 false 1))
    as (r & Hr & Heq & _); [repeat constructor; vm_compute; discriminate..|].
  exists r. split; [apply Hr; vm_compute; lia|]. by rewrite Heq.
Defined.

(** C11: Granting a request implements fcntl(2), under two conditions.  The
    locks of the owner in the list are disjoint and granted; and the request is
    a write lock or an unlock, or a read lock while no other owner has a read
    lock anywhere in the list (where one overlaps, [__insert_and_merge] only
    adds the request beside the locks of the owner, who keeps a write lock that
    should have been replaced).  Then merging leaves exactly the bytes of the
    request with its type (none for an unlock), every other byte of the owner as
    it was, and the bytes of all other owners untouched. *)
Theorem insert_and_merge_refines_fcntl (ext : list posix_lock) (lock : posix_lock) :
  own_ok lock ext -> wf_lock lock -> blocked lock = false -> no_reader ext lock ->
  own_ok lock (insert_and_merge ext lock) /\
  (forall x, bytes_of lock (insert_and_merge ext lock) x =
             set_bytes lock (bytes_of lock ext) x) /\
  (forall q x, same_owner q lock = false ->
     bytes_of q (insert_and_merge ext lock) x = bytes_of q ext x).
Proof.
  intros Hok Hw Hb Hn. destruct Hok as [W U B D] eqn:Heq.
  pose proof (merge_fuel_enough ext lock W Hw) as Hins.
  pose proof (insert_implements lock _ ext lock _ Hins Hok (same_owner_refl lock) Hw Hb Hn) as Himp.
  split_and!; [apply Himp|intros x; by apply implements_bytes|].
  intros q x Hq.
  rewrite (bytes_of_others lock q ext), (bytes_of_others lock q (insert_and_merge ext lock)) by done.
  by rewrite (insert_others _ _ _ _ lock Hins W Hw U (same_owner_refl lock)).
Qed.

Lemma insert_and_merge_refines_fcntl_witness :
  let ext := [mkl F_WRLCK 0 9 false 1; mkl F_RDLCK 12 30 false 1; mkl F_RDLCK 12 15 false 2] in
  let lock := mkl F_UNLCK 5 20 false 1 in
  let r := insert_and_merge ext lock in
  bytes_of lock r 4 = Some F_WRLCK /\ bytes_of lock r 15 = None /\
  bytes_of lock r 21 = Some F_RDLCK /\ bytes_of (mkl 0 0 0 false 2) r 13 = Some F_RDLCK.
Proof.
  intros ext lock r.
  assert (own_ok lock ext) as Hok.
  { split; repeat constructor; vm_compute; discriminate || reflexivity. }
  destruct (insert_and_merge_refines_fcntl ext lock Hok) as (_ & Hown & Hoth);
    [vm_compute; discriminate|reflexivity|left; discriminate|].
  subst r. rewrite !Hown, Hoth by reflexivity. vm_compute. auto.
Defined.

(** Where another owner reads, a downgrade is lost.  With a granted write
    lock of owner 1 on bytes 0-10 behind a read lock of owner 2 on bytes 15-30,
    owner 1's read lock on bytes 5-20 is granted, but bytes 5-10 stay
    write-locked by owner 1. *)
Theorem read_shortcut_keeps_write_lock :
  let p := mk_pl_inode [] [mkl F_RDLCK 15 30 false 2; mkl F_WRLCK 0 10 false 1] [] false false in
  let lock := mkl F_RDLCK 5 20 false 1 in
  exists p' ev, pl_setlk (fun _ => true) p lock false = (p', ev, (0, 0)) /\
    set_bytes lock (bytes_of lock (ext_list p)) 7 = Some F_RDLCK /\
    __is_lock_grantable (ext_list p') (mkl F_RDLCK 7 7 false 3) = false.
Proof. intros p lock. do 2 eexists. split_and!; reflexivity. Qed.

(** C29: No wakeup is lost.  When the reply records of granted locks can be
    allocated, every waiting fcntl lock of a reachable state overlaps a granted
    lock: a request never waits on bytes that are free. *)
Theorem fcntl_no_lost_wakeup (ctx : option pl_inode) (b : posix_lock) :
  reachable replies_ok ctx -> b ∈ ext_of ctx -> blocked b = true ->
  exists h, h ∈ ext_of ctx /\ blocked h = false /\ locks_overlap h b = true.
Proof.
  intros Hw%reachable_waits Hin Hb. rewrite Forall_forall in Hw.
  destruct (Hw b) as (h & [? ?]%list_elem_of_filter & ?); [by apply list_elem_of_filter|eauto].
Qed.

Lemma fcntl_no_lost_wakeup_witness :
  exists b h, b ∈ ext_of (run None lk_run) /\ blocked b = true /\
    h ∈ ext_of (run None lk_run) /\ blocked h = false /\ locks_overlap h b = true.
Proof.
  pose (b := nth 1 (ext_of (run None lk_run)) (mkl 0 0 0 false 0)).
  assert (b ∈ ext_of (run None lk_run)) as Hb by (apply list_elem_of_In; vm_compute; auto).
  destruct (fcntl_no_lost_wakeup (run None lk_run) b) as (h & Hh); [|done|reflexivity|].
  - apply reachable_run; [by intros ?|]. solve_admissible.
  - exists b, h. split; [done|]. split; [reflexivity|done].
Defined.

(** The frames that are answered among some events. *)
Definition lk_replies (ev : list event) : list (option call_frame) :=
  omap (fun e => match e with UNWIND_lk fr _ _ _ => Some fr | _ => None end) ev.

Lemma lk_replies_app ev1 ev2 : lk_replies (ev1 ++ ev2) = lk_replies ev1 ++ lk_replies ev2.
Proof. apply omap_app. Qed.

Lemma lk_replies_rw p p' ev : do_blocked_rw p = (p', ev) -> lk_replies ev = [].
Proof.
  intros [= _ <-]. unfold lk_replies. induction (List.filter _ (rw_list p)) as [|rw l IH]; [done|].
  simpl. by destruct (rw_call rw).
Qed.

Lemma lk_replies_grant g :
  lk_replies (map (fun conf => UNWIND_lk (frame conf) 0 0 (user_flock conf)) g) = map frame g.
Proof. induction g as [|a g IH]; [done|]. simpl. by f_equal. Qed.

(** Every waiting request is answered exactly once.  Across a [pl_setlk],
    the requests that waited before, and the new one if it has to wait, are
    those that wait after together with those that are answered. *)
Theorem setlk_answers_once (ok : posix_lock -> bool) (p p' : pl_inode) (lock : posix_lock)
    (cb : bool) (ev : list event) (ret er : Z) :
  lk_inv (ext_list p) -> wf_lock lock -> blocked lock = false ->
  not_waiting (ext_list p) lock ->
  pl_setlk ok p lock cb = (p', ev, (ret, er)) ->
  map frame (waiting (ext_list p)) ++ (if (ret =? -1) && cb then [frame lock] else []) ≡ₚ
  map frame (waiting (ext_list p')) ++ lk_replies ev.
Proof.
  intros Hinv Hw Hb Hn Hs. unfold pl_setlk in Hs.
  set (s := if __is_lock_grantable _ _ then _ else _) in Hs.
  assert (lk_inv (ext_list (fst s)) /\ map frame (waiting (ext_list (fst s))) =
    map frame (waiting (ext_list p)) ++ if (fst (snd s) =? -1) && cb then [frame lock] else [])
    as [Hi Heq].
  { subst s. destruct (__is_lock_grantable (ext_list p) lock) eqn:Hg; simpl.
    - split; [by apply insert_inv|]. by rewrite insert_waiting, app_nil_r.
    - destruct cb; simpl; [|by rewrite app_nil_r]. split; [by apply block_inv|].
      unfold waiting, __insert_lock, list_add_tail. by rewrite filter_app, map_app. }
  destruct s as [p1 r1]. simpl in Hi, Heq.
  destruct (grant_blocked_locks ok p1) as [p2 e2] eqn:Hgr.
  destruct (do_blocked_rw p2) as [p3 e3] eqn:Hrw. injection Hs as <- <- ->. simpl in Heq.
  rewrite <-Heq, lk_replies_app, (lk_replies_rw _ _ _ Hrw), app_nil_r.
  apply rw_lists in Hrw as [-> _]. unfold grant_blocked_locks in Hgr.
  destruct (__grant_blocked_locks ok (ext_list p1)) as [e g] eqn:Hg. injection Hgr as <- <-.
  rewrite lk_replies_grant. simpl. by eapply grant_blocked_frames.
Qed.

(** An unlock by owner 1 wakes the writer that waits. *)
Lemma setlk_answers_once_witness :
  exists p p' ev, pl_setlk (fun _ => true) p (mkl F_UNLCK 0 9 false 1) false = (p', ev, (0, 0)) /\
    length (waiting (ext_list p)) = 1%nat /\ waiting (ext_list p') = [] /\
    [Some (fr0 2)] ≡ₚ lk_replies ev.
Proof.
  pose (p := default (mk_pl_inode [] [] [] false false) (run None lk_run)).
  pose (r := pl_setlk (fun _ => true) p (mkl F_UNLCK 0 9 false 1) false).
  assert (lk_inv (ext_list p)) as Hinv.
  { change (ext_list p) with (ext_of (run None lk_run)). apply (reachable_inv any_env).
    apply reachable_run; [done|]. solve_admissible. }
  exists p, (fst (fst r)), (snd (fst r)). split_and!; [reflexivity..|].
  apply (setlk_answers_once (fun _ => true) p (fst (fst r)) (mkl F_UNLCK 0 9 false 1) false
    (snd (fst r)) 0 0 Hinv); [vm_compute; discriminate|reflexivity| |reflexivity].
  repeat constructor; vm_compute; congruence.
Defined.

(** A suspended read or write has a reason.  Under mandatory locking,
    every call that waits in a reachable state is denied by a lock of another
    owner that overlaps its range, a write lock where the call is a read; a
    change of the locks resumes all others. *)
Theorem suspended_calls_are_denied (ctx : option pl_inode) (rw : pl_rw_req) :
  reachable any_env ctx -> rw ∈ rws_of ctx ->
  exists l, l ∈ ext_of ctx /\ locks_overlap l (region rw) = true /\
    same_owner l (region rw) = false /\
    (stub_is_read (rw_call rw) = true -> fl_type l = F_WRLCK).
Proof.
  intros Hd%reachable_rw Hin. unfold rw_denied in Hd. rewrite Forall_forall in Hd.
  specialize (Hd rw Hin). unfold __rw_allowable in Hd.
  apply negb_false_iff, existsb_exists in Hd as (l & Hl%list_elem_of_In & Hr).
  exists l. unfold rw_denied_by in Hr. rewrite !andb_true_iff, !negb_true_iff in Hr.
  destruct Hr as [[? ?] Hr]. split_and!; [done..|]. intros Hs. rewrite Hs in Hr. simpl in Hr.
  apply negb_false_iff in Hr. by apply Z.eqb_eq.
Qed.

Definition rw_run : list request :=
  [lk0 F_SETLK F_WRLCK 0 10 1; READV (fr0 2) fd0 4 8; WRITEV (fr0 3) fd0 [mk_iovec 0 2] 40].

Lemma suspended_calls_are_denied_witness :
  exists rw l, rws_of (run None rw_run) = [rw] /\ l ∈ ext_of (run None rw_run) /\
    locks_overlap l (region rw) = true /\ fl_type l = F_WRLCK.
Proof.
  pose (rw := nth 0 (rws_of (run None rw_run)) (mk_rw_req (readv_stub (fr0 0) fd0 0 0) (mkl 0 0 0 false 0))).
  destruct (suspended_calls_are_denied (run None rw_run) rw) as (l & Hl & Hov & _ & Hr).
  - apply reachable_run; [done|]. solve_admissible.
  - apply list_elem_of_In. vm_compute. auto.
  - exists rw, l. split_and!; [reflexivity|done|done|]. apply Hr. reflexivity.
Defined.

(** ** Inode locks *)

(** C27: Inode locks exclude each other.  In every domain of a reachable inode
    no two held locks conflict, each waiting one conflicts with a held or an
    earlier waiting one, and nobody waits where nothing is held. *)
Theorem inodelk_domains_consistent (ctx : option pl_inode) (d : pl_dom_list) :
  reachable any_env ctx -> d ∈ doms_of ctx ->
  pairwise (fun a b => inodelk_conflict a b = false) (inodelk_list d) /\
  (forall pre b post, blocked_inodelks d = pre ++ b :: post ->
     exists c, c ∈ inodelk_list d ++ pre /\ inodelk_conflict b c = true) /\
  (inodelk_list d = [] -> blocked_inodelks d = []).
Proof.
  intros [_ _ Hi]%reachable_inv Hd. rewrite Forall_forall in Hi.
  destruct (Hi d Hd) as [He Hj]. split_and!.
  - eapply pairwise_impl, He. intros a b Hn. by apply not_true_is_false.
  - intros pre b post Heq. specialize (Hj pre b post Heq). by apply Exists_elem in Hj.
  - intros Hnil. rewrite Hnil in Hj. by apply nobody_waits_free.
Qed.

Definition ilk0 (cmd type s len o : Z) : request :=
  INODELK (fr0 o) "dom" cmd (mk_flock type 0 s len 0).

Definition ilk_run : list request :=
  [ilk0 F_SETLKW F_WRLCK 0 10 1; ilk0 F_SETLKW F_WRLCK 5 10 2; ilk0 F_SETLK F_RDLCK 20 0 3].

Lemma inodelk_domains_consistent_witness :
  exists d c, d ∈ doms_of (run None ilk_run) /\ length (blocked_inodelks d) = 1%nat /\
    c ∈ inodelk_list d ++ [] /\
    inodelk_conflict (nth 0 (blocked_inodelks d) c) c = true.
Proof.
  pose (d := nth 0 (doms_of (run None ilk_run)) (mk_dom EmptyString [] [] [] [])).
  assert (d ∈ doms_of (run None ilk_run)) as Hd by (apply list_elem_of_In; vm_compute; auto).
  destruct (inodelk_domains_consistent (run None ilk_run) d) as (_ & Hj & _); [|done|].
  - apply reachable_run; [done|]. solve_admissible.
  - destruct (Hj [] (nth 0 (blocked_inodelks d) (mk_inode_lock 0 0 0 EmptyString flock0 None 0 0 0)) [])
      as (c & Hc & Hconf); [reflexivity|].
    exists d, c. split_and!; [done|reflexivity|done|exact Hconf].
Defined.

(** The frames an inode lock event answers. *)
Definition inodelk_replies (ev : list event) : list (option call_frame) :=
  omap (fun e => match e with UNWIND_inodelk fr _ _ => Some fr | _ => None end) ev.

Lemma inodelk_replies_map r er g :
  inodelk_replies (map (fun l => UNWIND_inodelk (il_frame l) r er) g) = map il_frame g.
Proof. induction g as [|a g IH]; [done|]. simpl. by f_equal. Qed.

(** Across a [pl_inode_setlk] every waiting inode lock request is answered
    exactly once or still waits, the new one included when it has to wait. *)
Theorem inode_setlk_answers_once (misread : pl_entry_lock -> Z * Z) (lock : pl_inode_lock)
    (cb : bool) (dom dom' : pl_dom_list) (ev : list event) (ret : Z) :
  pl_inode_setlk misread lock cb dom = (dom', ev, ret) ->
  map il_frame (blocked_inodelks dom) ++
    (if (ret =? - EAGAIN) && cb then [il_frame lock] else []) ≡ₚ
  map il_frame (blocked_inodelks dom') ++ inodelk_replies ev.
Proof.
  unfold pl_inode_setlk. intros Hs. set (s := if negb _ then _ else _) in Hs.
  assert (map il_frame (blocked_inodelks (fst s)) = map il_frame (blocked_inodelks dom) ++
    if (snd s =? - EAGAIN) && cb then [il_frame lock] else []) as Heq.
  { subst s. destruct (negb _).
    - destruct (__lock_inodelk _ _ _ _) as [d r] eqn:Hl.
      apply lock_inodelk_ret in Hl as [[-> ->]|[-> ->]]; simpl; [by rewrite app_nil_r|].
      destruct cb; simpl; [|by rewrite app_nil_r]. unfold list_add_tail. by rewrite map_app.
    - unfold __inode_unlock_lock. destruct (remove_matching _ _) as [[c l]|]; simpl;
        by rewrite app_nil_r. }
  destruct s as [d r]. destruct (grant_blocked_inode_locks misread d) as [d2 e2] eqn:Hg.
  injection Hs as <- <- <-. simpl in Heq. rewrite <-Heq.
  unfold grant_blocked_inode_locks, __grant_blocked_inode_locks in Hg.
  destruct (grant_inode_loop _ _ _ _) as [d3 g] eqn:Hl. injection Hg as <- <-.
  apply grant_inode_loop_perm in Hl as [Hp _]. simpl in Hp. rewrite app_nil_r in Hp.
  by rewrite inodelk_replies_map, <-map_app, Hp.
Qed.

Definition il0 (type s e o : Z) : pl_inode_lock :=
  mk_inode_lock type s e "dom" flock0 (Some (fr0 o)) 1 o o.

Lemma inode_setlk_answers_once_witness :
  exists dom' ev,
    pl_inode_setlk (fun _ => (0, 0)) (il0 F_UNLCK 0 9 1) true
      (mk_dom "dom" [] [] [il0 F_WRLCK 0 9 1] [il0 F_WRLCK 5 14 2; il0 F_WRLCK 7 9 3])
      = (dom', ev, 0) /\
    [Some (fr0 2); Some (fr0 3)] ≡ₚ map il_frame (blocked_inodelks dom') ++ inodelk_replies ev.
Proof.
  do 2 eexists. split; [reflexivity|].
  exact (inode_setlk_answers_once (fun _ => (0, 0)) (il0 F_UNLCK 0 9 1) true
    (mk_dom "dom" [] [] [il0 F_WRLCK 0 9 1] [il0 F_WRLCK 5 14 2; il0 F_WRLCK 7 9 3]) _ _ 0 eq_refl).
Defined.

(** A blocking unlock of a range that is not locked is never answered.
    F_SETLKW of F_UNLCK on an inode without locks makes no call at all, so its
    caller waits for ever; F_SETLK of the same unlock is answered with EINVAL. *)
Theorem inodelk_bad_unlock_unanswered (mr : pl_entry_lock -> Z * Z)
    (path : pl_inode_lock -> bool) (st_mode : Z) (fr : call_frame) (volume : string) (fl : flock) :
  0 <= l_start fl -> 0 <= l_len fl -> l_type fl = F_UNLCK -> fr_pid fr <> 0 ->
  snd (pl_common_inodelk mr path true true true true true st_mode None fr volume F_SETLKW fl) = [] /\
  snd (pl_common_inodelk mr path true true true true true st_mode None fr volume F_SETLK fl)
    = [UNWIND_inodelk (Some fr) (-1) EINVAL].
Proof.
  intros Hs Hl Ht Hp. unfold pl_common_inodelk.
  destruct (Z.ltb_spec (l_start fl) 0); [lia|]. destruct (Z.ltb_spec (l_len fl) 0); [lia|].
  apply Z.eqb_neq in Hp. simpl. rewrite Hp.
  unfold pl_inode_setlk, new_inode_lock, il_set_user_flock, il_set_frame. simpl. rewrite Ht. simpl.
  split; [done|]. unfold inodelk_unwind, pl_update_refkeeper, put_domain, __pl_inode_is_empty.
  simpl. by rewrite String.eqb_refl.
Qed.

Lemma inodelk_bad_unlock_unanswered_witness :
  snd (pl_common_inodelk (fun _ => (0, 0)) (fun _ => true) true true true true true 0 None (fr0 5)
    "dom" F_SETLKW (mk_flock F_UNLCK 0 0 10 0)) = [].
Proof.
  apply (inodelk_bad_unlock_unanswered (fun _ => (0, 0)) (fun _ => true) 0 (fr0 5) "dom"
    (mk_flock F_UNLCK 0 0 10 0)); [vm_compute; discriminate..|reflexivity|discriminate].
Defined.

(** ** Entry locks *)

(** C28: Entry locks exclude each other.  In every domain of an inode that is
    reached by requests whose names can all be copied (the strdup of
    [new_entrylk_lock] succeeds; any other allocation may fail) no two held locks
    name the same entry, a lock on all names is alone, each waiting lock conflicts
    with a held or an earlier waiting one, and nobody waits where nothing is held. *)
Theorem entrylk_domains_consistent (ctx : option pl_inode) (d : pl_dom_list) :
  reachable names_ok ctx -> d ∈ doms_of ctx ->
  pairwise (fun a b => names_conflict (el_basename a) (el_basename b) = false) (entrylk_list d) /\
  (forall pre b post, blocked_entrylks d = pre ++ b :: post ->
     exists c, c ∈ entrylk_list d ++ pre /\
       names_conflict (el_basename b) (el_basename c) = true) /\
  (entrylk_list d = [] -> blocked_entrylks d = []).
Proof.
  intros [_ Hi _]%reachable_inv Hd. rewrite Forall_forall in Hi.
  destruct (Hi d Hd (fun e He => He)) as [He Hj]. split_and!.
  - eapply pairwise_impl, He. intros a b Hn. by apply not_true_is_false.
  - intros pre b post Heq. specialize (Hj pre b post Heq). by apply Exists_elem in Hj.
  - intros Hnil. rewrite Hnil in Hj. by apply nobody_waits_free.
Qed.

(** A name that cannot be copied makes a lock on all names.  The lock is granted for
    its name, beside locks on other names, and conflicts with every one of them
    from then on. *)
Theorem entrylk_copy_failure_conflicts (name : string) (fr : call_frame) (dom dom' : pl_dom_list) (nb : bool) (c : pl_entry_lock) :
  __lock_name (true, false) (Some name) ENTRYLK_WRLCK fr dom nb = (dom', 0) -> c ∈ entrylk_list dom ->
  names_conflict (el_basename c) (Some name) = false /\
  exists l, entrylk_list dom' = l :: entrylk_list dom /\ names_conflict (el_basename l) (el_basename c) = true.
Proof.
  unfold __lock_name. cbn [fst snd new_entrylk_lock]. set (lock := mk_entry_lock _ _ _ _ _ _ _).
  destruct (is_some (__lock_grantable dom (Some name))) eqn:Hg; [done|].
  destruct (_ && _); [done|]. intros [= <-] Hc. split; [|by exists lock].
  unfold __lock_grantable in Hg. destruct (List.find _ _) eqn:Hf; [done|]. apply (List.find_none _ _ Hf). by apply list_elem_of_In.
Qed.

Lemma entrylk_copy_failure_conflicts_witness :
  exists dom' l, __lock_name (true, false) (Some "b") ENTRYLK_WRLCK (fr0 2)
      (mk_dom "dom" [mk_entry_lock None "dom" (Some "a") ENTRYLK_WRLCK 0 1 1] [] [] []) false = (dom', 0) /\
    entrylk_list dom' = [l; mk_entry_lock None "dom" (Some "a") ENTRYLK_WRLCK 0 1 1] /\ names_conflict (el_basename l) (Some "a") = true.
Proof.
  destruct (__lock_name (true, false) (Some "b") ENTRYLK_WRLCK (fr0 2)
    (mk_dom "dom" [mk_entry_lock None "dom" (Some "a") ENTRYLK_WRLCK 0 1 1] [] [] []) false) as [dom' ret] eqn:E.
  assert (ret = 0) as -> by (vm_compute in E; by injection E).
  destruct (entrylk_copy_failure_conflicts "b" (fr0 2) _ dom' false (mk_entry_lock None "dom" (Some "a") ENTRYLK_WRLCK 0 1 1) E)
    as (_ & l & H1 & H2); [left|]. by exists dom', l.
Defined.

Definition elk0 (name : option string) (cmd : entrylk_cmd) (type : entrylk_type) (o : Z) : request :=
  ENTRYLK (fr0 o) "dom" name cmd type.

Definition elk_run : list request :=
  [elk0 (Some "a") ENTRYLK_LOCK ENTRYLK_WRLCK 1; elk0 (Some "b") ENTRYLK_LOCK ENTRYLK_WRLCK 2;
   elk0 None ENTRYLK_LOCK ENTRYLK_WRLCK 3].

Lemma entrylk_domains_consistent_witness :
  exists d c, d ∈ doms_of (run None elk_run) /\ length (entrylk_list d) = 2%nat /\
    length (blocked_entrylks d) = 1%nat /\ c ∈ entrylk_list d ++ [].
Proof.
  pose (d := nth 0 (doms_of (run None elk_run)) (mk_dom EmptyString [] [] [] [])).
  assert (d ∈ doms_of (run None elk_run)) as Hd by (apply list_elem_of_In; vm_compute; auto).
  destruct (entrylk_domains_consistent (run None elk_run) d) as (_ & Hj & _); [|done|].
  - apply reachable_run; [done|]. solve_admissible.
  - destruct (Hj [] (nth 0 (blocked_entrylks d)
        (mk_entry_lock None EmptyString None ENTRYLK_WRLCK 0 0 0)) [])
      as (c & Hc & _); [reflexivity|].
    exists d, c. split_and!; [done|reflexivity|reflexivity|exact Hc].
Defined.

Lemma most_matching_skip name i l all exact :
  Forall (fun lock => names_conflict (el_basename lock) name = false) l ->
  most_matching name i l all exact = match exact with Some _ => exact | None => all end.
Proof.
  intros Hf. revert i all exact. induction Hf as [|lock l Hn _ IH]; intros i all exact; simpl; [done|].
  destruct (el_basename lock) as [n|]; simpl; [|done].
  destruct name as [m|]; simpl in *; [|done].
  unfold names_conflict in Hn. simpl in Hn. rewrite Hn. apply IH.
Qed.

(** Unlocking undoes locking.  After [__lock_name] has granted a name,
    with a copy of it, [__unlock_name] of the same name finds exactly that lock and restores the
    domain. *)
Theorem lock_unlock_name_roundtrip (ok nb : bool) (name : option string) (fr : call_frame)
    (dom dom' : pl_dom_list) :
  __lock_name (ok, true) name ENTRYLK_WRLCK fr dom nb = (dom', 0) ->
  exists lock, __unlock_name dom' name ENTRYLK_WRLCK = (dom, Some lock) /\
    el_basename lock = name /\ el_trans lock = fr_trans fr /\ el_owner lock = fr_root fr.
Proof.
  unfold __lock_name, new_entrylk_lock. cbn [fst snd]. destruct ok; [|done].
  destruct (is_some (__lock_grantable dom name)) eqn:Hg; [done|].
  assert (Forall (fun lock => names_conflict (el_basename lock) name = false) (entrylk_list dom)) as Hf.
  { unfold __lock_grantable in Hg. destruct (List.find _ _) eqn:Hfind; [done|].
    eapply Forall_impl; [apply (find_none_Forall _ _ Hfind)|]. intros l Hl. by apply not_true_is_false. }
  destruct (_ && _); [done|]. intros [= <-].
  eexists (mk_entry_lock None (domain dom) name ENTRYLK_WRLCK _ _ _).
  unfold __unlock_name, __find_most_matching_lock. simpl. split; [|done].
  assert (names_equal name name = true) as Hn by by apply names_equal_spec.
  destruct name as [n|]; simpl in *.
  - rewrite Hn, most_matching_skip by done. simpl. rewrite Hn. by destruct dom.
  - rewrite most_matching_skip by done. simpl. by destruct dom.
Qed.

Lemma lock_unlock_name_roundtrip_witness :
  exists lock,
    __unlock_name (mk_dom "dom" [mk_entry_lock None "dom" (Some "x") ENTRYLK_WRLCK 1 4 4;
      mk_entry_lock None "dom" (Some "y") ENTRYLK_WRLCK 1 3 3] [] [] []) (Some "x") ENTRYLK_WRLCK =
    (mk_dom "dom" [mk_entry_lock None "dom" (Some "y") ENTRYLK_WRLCK 1 3 3] [] [] [], Some lock).
Proof.
  destruct (lock_unlock_name_roundtrip true true (Some "x") (fr0 4)
    (mk_dom "dom" [mk_entry_lock None "dom" (Some "y") ENTRYLK_WRLCK 1 3 3] [] [] [])
    (mk_dom "dom" [mk_entry_lock None "dom" (Some "x") ENTRYLK_WRLCK 1 4 4;
      mk_entry_lock None "dom" (Some "y") ENTRYLK_WRLCK 1 3 3] [] [] []))
    as (lock & Hl & _); [reflexivity|eauto].
Defined.

(** All events of a sequence of requests. *)
Fixpoint run_events (ctx : option pl_inode) (rs : list request) : list event :=
  match rs with
  | [] => []
  | r :: rs' => snd (handle env0 ctx r) ++ run_events (fst (handle env0 ctx r)) rs'
  end.

(** A waiting read entry lock is dropped without an answer.  Frame 2 asks
    for an ENTRYLK_RDLCK of a name that frame 1 has locked, and waits; when
    frame 1 unlocks, the request leaves the queue, and only frame 1's two
    requests are ever answered. *)
Theorem entrylk_read_lock_dropped :
  let rs := [elk0 (Some "a") ENTRYLK_LOCK ENTRYLK_WRLCK 1;
             elk0 (Some "a") ENTRYLK_LOCK ENTRYLK_RDLCK 2;
             elk0 (Some "a") ENTRYLK_UNLOCK ENTRYLK_WRLCK 1] in
  map blocked_entrylks (doms_of (run None (take 2 rs))) <> [[]] /\
  map blocked_entrylks (doms_of (run None rs)) = [[]] /\
  run_events None rs =
    [INODE_ref; UNWIND_entrylk (Some (fr0 1)) 0 0; INODE_unref;
     UNWIND_entrylk (Some (fr0 1)) 0 0].
Proof. intros rs. split_and!; [vm_compute; discriminate|reflexivity..]. Qed.

(** ** Conversions and the other handlers *)

(** [struct flock] survives the trip through [posix_lock_t].  For a range
    that fits [off_t], and is not a spelled-out range up to its maximum, the
    flock a client reads back has the type, start, length and pid it sent. *)
Theorem flock_roundtrip (fl : flock) (trans own : Z) (fd : fd_t) :
  valid_flock fl -> l_start fl + l_len fl - 1 < LLONG_MAX ->
  exists lock, new_posix_lock true fl trans (l_pid fl) own fd = Some lock /\
    posix_lock_to_flock lock fl = fl.
Proof.
  intros (? & ? & ?) Hlt. eexists. split; [reflexivity|]. destruct fl as [ty wh st len pid].
  unfold posix_lock_to_flock. simpl in *. f_equal.
  destruct (Z.eqb_spec len 0) as [->|Hn]; [by rewrite Z.eqb_refl|].
  unfold LLONG_MAX in *. rewrite (i64_small (st + len - 1)) by (unfold is_i64; lia).
  destruct (Z.eqb_spec (st + len - 1) (2 ^ 63 - 1)); [lia|].
  rewrite i64_small by (unfold is_i64; lia). lia.
Qed.

Lemma flock_roundtrip_witness :
  exists lock, new_posix_lock true (mk_flock F_WRLCK 0 100 50 9) 1 9 2 fd0 = Some lock /\
    posix_lock_to_flock lock (mk_flock F_WRLCK 0 100 50 9) = mk_flock F_WRLCK 0 100 50 9.
Proof.
  apply (flock_roundtrip (mk_flock F_WRLCK 0 100 50 9) 1 2 fd0);
    unfold valid_flock, LLONG_MAX; simpl; lia.
Defined.

(** Under mandatory locking a truncation goes down exactly when no granted
    lock of another owner reaches past the new size; otherwise it is answered
    with EAGAIN. *)
Theorem truncate_gate (p : pl_inode) (fr : call_frame) (st_mode offset : Z) (c : bool) :
  mandatory p = true ->
  let local := mk_truncate_ops TRUNCATE offset None in
  let free := Forall (fun l => blocked l = false -> offset <= fl_end l ->
                fl_start l <= LLONG_MAX ->
                owner l = fr_lk_owner fr /\ transport l = fr_trans fr) (ext_list p) in
  (free -> truncate_stat_cbk true c st_mode (Some p) fr local 0 0 =
             (Some p, [WIND_truncate fr offset])) /\
  (~ free -> truncate_stat_cbk true c st_mode (Some p) fr local 0 0 =
               (Some p, [UNWIND_truncate fr (-1) EAGAIN])).
Proof.
  intros Hm local free. set (reg := truncate_region (fr_trans fr) (fr_pid fr) (fr_lk_owner fr) offset).
  assert (truncate_allowed (ext_list p) (fr_trans fr) (fr_pid fr) (fr_lk_owner fr) offset = true
          <-> free) as Hiff.
  { unfold truncate_allowed, free. fold reg. rewrite negb_true_iff, <-not_true_iff_false.
    rewrite existsb_exists, Forall_forall. split.
    - intros Hn l Hin Hb Ho Hs.
      destruct (same_owner reg l) eqn:Hso; [apply same_owner_true in Hso; simpl in Hso; split; symmetry; tauto|].
      exfalso. apply Hn. exists l. rewrite <-list_elem_of_In. split; [done|].
      rewrite Hb, Hso, andb_true_r. simpl. apply locks_overlap_true. simpl. lia.
    - intros Hf (l & Hin%list_elem_of_In & Hc). rewrite !andb_true_iff, !negb_true_iff in Hc.
      destruct Hc as [[Hb Hov%locks_overlap_true] Hso]. simpl in Hov.
      destruct (Hf l Hin Hb) as [? ?]; [tauto..|].
      assert (same_owner reg l = true); [apply same_owner_true; simpl; auto|congruence]. }
  unfold truncate_stat_cbk. simpl. rewrite Hm. simpl.
  destruct (truncate_allowed _ _ _ _ _); simpl; split; intros Hfree; try done.
  - by destruct Hfree; apply Hiff.
  - by apply Hiff in Hfree.
Qed.

Lemma truncate_gate_witness :
  truncate_stat_cbk true true 0
    (Some (mk_pl_inode [] [mkl F_RDLCK 0 9 false 1] [] true false)) (fr0 2)
    (mk_truncate_ops TRUNCATE 10 None) 0 0 =
  (Some (mk_pl_inode [] [mkl F_RDLCK 0 9 false 1] [] true false), [WIND_truncate (fr0 2) 10]).
Proof.
  apply (truncate_gate (mk_pl_inode [] [mkl F_RDLCK 0 9 false 1] [] true false) (fr0 2) 0 10 true);
    [reflexivity|]. constructor; [|constructor]. intros _ Hoff. exfalso. simpl in Hoff. lia.
Defined.

(** A flush leaks the inode reference.  After a lock is set and its owner
    flushes, the inode has no lock left, yet the translator still holds the
    reference it took for it. *)
Theorem flush_keeps_refkeeper :
  exists p, run None [lk0 F_SETLK F_WRLCK 0 10 1; FLUSH (fr0 1) fd0] = Some p /\
    __pl_inode_is_empty p = true /\ refkeeper p = true.
Proof. eexists. split_and!; reflexivity. Qed.
