(* ===== verification/FdTable.v ===== *)
(** * libglusterfs: file descriptors

    Model of libglusterfs/src/fd.c: the table that hands out descriptor
    numbers, with its chain of free entries; the reference counts of the
    [fd_t]s it points to; and the per-translator context slots of an [fd_t].

    An [fd_t] pointer is a positive [Z]; NULL is [None].  A CALLOC that fails
    aborts the process (ERR_ABORT). *)

From stdpp Require Import base list numbers strings gmap.
From S2P Require Import Prelude.
Open Scope Z_scope.

(** ** The table *)

Definition GF_FDTABLE_END : Z := -1.
Definition GF_FDENTRY_ALLOCATED : Z := -2.

(** [sizeof (fdentry_t)]: a pointer and an int, padded to 8 bytes. *)
Definition sizeof_fdentry : Z := 16.
Definition entries_per_kb : Z := 1024 / sizeof_fdentry.

Record fdentry := mk_fdentry { fde_fd : option Z; next_free : Z }.

(** The zero bytes CALLOC returns. *)
Definition fdentry0 : fdentry := mk_fdentry None 0.

Record fdtable := mk_fdtable {
  max_fds : Z;
  fdentries : list fdentry;
  first_free : Z
}.

(** The loop of [gf_roundup_power_of_two]; [result] doubles in 32 bits, so
    that 32 rounds reach every [nr] below [2^31]. *)
Fixpoint roundup_loop (fuel : nat) (result nr : Z) : Z :=
  match fuel with
  | O => result
  | S fuel' => if result <=? nr then roundup_loop fuel' (u32 (result * 2)) nr else result
  end.

Definition gf_roundup_power_of_two (nr : Z) : Z := roundup_loop 32 1 nr.

Definition set_next (n : Z) (e : fdentry) : fdentry := mk_fdentry (fde_fd e) n.

(** The loop runs from [startidx] to the second to last entry and leaves [i]
    on the last one. *)
Definition gf_fd_chain_fd_entries (entries : list fdentry) (startidx endcount : nat) :
    list fdentry :=
  let steps := (endcount - 1 - startidx)%nat in
  let chained := foldl (fun es i => alter (set_next (Z.of_nat i + 1)) i es)
                   entries (seq startidx steps) in
  alter (set_next GF_FDTABLE_END) (startidx + steps)%nat chained.

(** The size of the table for a wish of [nr] entries. *)
Definition expand_size (nr : Z) : Z :=
  u32 (gf_roundup_power_of_two (u32 (nr `div` entries_per_kb + 1)) * entries_per_kb).

Definition gf_fd_fdtable_expand (t : fdtable) (nr : Z) : fdtable :=
  let nr' := expand_size nr in
  let cpy := u32 (max_fds t * sizeof_fdentry) in
  let copied := take (Z.to_nat (cpy / sizeof_fdentry)) (fdentries t) in
  let entries := copied ++ replicate (Z.to_nat nr' - length copied) fdentry0 in
  mk_fdtable nr' (gf_fd_chain_fd_entries entries (Z.to_nat (max_fds t)) (Z.to_nat nr'))
    (max_fds t).

(** [gf_fd_fdtable_alloc]: a CALLOCed table, expanded. *)
Definition gf_fd_fdtable_alloc : fdtable := gf_fd_fdtable_expand (mk_fdtable 0 [] 0) 0.

(** [gf_fd_unused_get]: the table and the descriptor.  The label
    [fd_alloc_try_again] is passed at most three times. *)
Fixpoint unused_get_try (attempts : nat) (t : fdtable) (fdptr : Z) : fdtable * Z :=
  if negb (first_free t =? GF_FDTABLE_END) then
    let i := Z.to_nat (first_free t) in
    match fdentries t !! i with
    | Some fde =>
        (mk_fdtable (max_fds t)
           (<[i := mk_fdentry (Some fdptr) GF_FDENTRY_ALLOCATED]> (fdentries t))
           (next_free fde), first_free t)
    | None => (t, -1)
    end
  else
    match attempts with
    | O => (t, -1)
    | S n => unused_get_try n (gf_fd_fdtable_expand t (u32 (max_fds t + 1))) fdptr
    end.

Definition gf_fd_unused_get (t : option fdtable) (fdptr : option Z) : option fdtable * Z :=
  match t, fdptr with
  | Some t, Some fdptr => let '(t', fd) := unused_get_try 2 t fdptr in (Some t', fd)
  | _, _ => (t, EINVAL)
  end.

(** ** Reference counts

    The [fd_t]s that exist, with their reference counts. *)

Abbreviation fd_refs := (gmap Z Z) (only parsing).

Definition fd_ref (m : fd_refs) (fd : Z) : fd_refs := alter (fun n => n + 1) fd m.

(** [fd_unref]: the last reference destroys the fd; [None] is the failed
    assertion of [_fd_unref]. *)
Definition fd_unref (m : fd_refs) (fd : Z) : option fd_refs :=
  match m !! fd with
  | None => None
  | Some n =>
      if n =? 0 then None
      else if n - 1 =? 0 then Some (delete fd m) else Some (<[fd := n - 1]> m)
  end.

Definition fd_create (m : fd_refs) (fd : Z) : fd_refs := <[fd := 1]> m.

(** ** Operations that count *)

Definition in_table (t : fdtable) (fd : Z) : bool := (0 <=? fd) && (fd <? max_fds t).

(** [gf_fd_put]: the table and the [fd_t] to drop a reference of. *)
Definition fd_put_entry (t : fdtable) (fd : Z) : fdtable * option Z :=
  if in_table t fd then
    match fdentries t !! Z.to_nat fd with
    | Some fde =>
        if negb (next_free fde =? GF_FDENTRY_ALLOCATED) then (t, None)
        else (mk_fdtable (max_fds t)
                (<[Z.to_nat fd := mk_fdentry None (first_free t)]> (fdentries t)) fd,
              fde_fd fde)
    | None => (t, None)
    end
  else (t, None).

Definition gf_fd_put (t : fdtable) (m : fd_refs) (fd : Z) : fdtable * option fd_refs :=
  let '(t', fdptr) := fd_put_entry t fd in
  (t', match fdptr with Some p => fd_unref m p | None => Some m end).

(** What the table holds under a number. *)
Definition fd_at (t : fdtable) (fd : Z) : option Z :=
  if in_table t fd then fdentries t !! Z.to_nat fd ≫= fde_fd else None.

Definition gf_fd_fdptr_get (t : fdtable) (m : fd_refs) (fd : Z) : option Z * fd_refs :=
  match fd_at t fd with
  | Some p => (Some p, fd_ref m p)
  | None => (None, m)
  end.

(** [__gf_fd_fdtable_get_all_fds]: the old entries, and a table of as many
    new ones; [first_free] is not touched. *)
Definition gf_fd_fdtable_get_all_fds (t : fdtable) : list fdentry * fdtable :=
  let n := Z.to_nat (max_fds t) in
  (fdentries t,
   mk_fdtable (max_fds t) (gf_fd_chain_fd_entries (replicate n fdentry0) 0 n) (first_free t)).

(** [gf_fd_fdtable_destroy]: a reference less for every open descriptor. *)
Fixpoint unref_all (m : fd_refs) (es : list fdentry) : option fd_refs :=
  match es with
  | [] => Some m
  | e :: es' =>
      match fde_fd e with
      | None => unref_all m es'
      | Some p => m' ← fd_unref m p; unref_all m' es'
      end
  end.

Definition gf_fd_fdtable_destroy (t : fdtable) (m : fd_refs) : option fd_refs :=
  unref_all m (fst (gf_fd_fdtable_get_all_fds t)).

(** ** Context slots *)

(** [struct _fd_ctx]; key 0 marks a free slot. *)
Record fd_ctx := mk_fd_ctx { ctx_key : Z; ctx_value : Z }.

(** The loop of [__fd_ctx_set]: the slot of the key, or the first free one. *)
Fixpoint ctx_set_idx (key : Z) (i : nat) (set_idx : option nat) (ctx : list fd_ctx) :
    option nat :=
  match ctx with
  | [] => set_idx
  | c :: ctx' =>
      let set_idx' :=
        if ctx_key c =? 0 then match set_idx with None => Some i | s => s end else set_idx in
      if ctx_key c =? key then Some i else ctx_set_idx key (S i) set_idx' ctx'
  end.

Definition __fd_ctx_set (ctx : list fd_ctx) (key value : Z) : list fd_ctx * Z :=
  match ctx_set_idx key 0 None ctx with
  | None => (ctx, -1)
  | Some i => (<[i := mk_fd_ctx key value]> ctx, 0)
  end.

(** The index at which the loops of [__fd_ctx_get] and [__fd_ctx_del] stop. *)
Fixpoint ctx_find (key : Z) (ctx : list fd_ctx) : option nat :=
  match ctx with
  | [] => None
  | c :: ctx' => if ctx_key c =? key then Some O else S <$> ctx_find key ctx'
  end.

Definition __fd_ctx_get (ctx : list fd_ctx) (key : Z) : option Z :=
  i ← ctx_find key ctx; ctx_value <$> ctx !! i.

Definition __fd_ctx_del (ctx : list fd_ctx) (key : Z) : list fd_ctx * option Z :=
  match ctx_find key ctx with
  | None => (ctx, None)
  | Some i => (<[i := mk_fd_ctx 0 0]> ctx, ctx_value <$> ctx !! i)
  end.

(** [fd_lookup]: the first open fd of a process on the inode, or of any. *)
Definition fd_lookup (fds : list (Z * Z)) (pid : Z) : option Z :=
  fst <$> List.find (fun p => (pid =? 0) || (snd p =? pid)) fds.
