(* ===== verification/FdTableFacts.v ===== *)
(** * libglusterfs: theorems about file descriptors *)

From stdpp Require Import base list numbers strings gmap.
From S2P Require Import Prelude FdTable.
Open Scope Z_scope.

(** ** The chain of free entries *)

(** Following [next_free] from [f] visits the entries [l]. *)
Fixpoint chain (es : list fdentry) (f : Z) (l : list nat) : Prop :=
  match l with
  | [] => f = GF_FDTABLE_END
  | i :: l' => f = Z.of_nat i /\ exists e, es !! i = Some e /\ chain es (next_free e) l'
  end.

(** The entries on the chain are free, all others are open descriptors. *)
Definition entry_ok (l : list nat) (i : nat) (e : fdentry) : Prop :=
  ((i ∈ l) /\ fde_fd e = None /\ next_free e <> GF_FDENTRY_ALLOCATED) \/
  ((i ∉ l) /\ is_Some (fde_fd e) /\ next_free e = GF_FDENTRY_ALLOCATED).

Record fdt_inv (t : fdtable) (l : list nat) : Prop := {
  fi_len : Z.of_nat (length (fdentries t)) = max_fds t;
  fi_chain : chain (fdentries t) (first_free t) l;
  fi_nodup : NoDup l;
  fi_entry : forall i e, fdentries t !! i = Some e -> entry_ok l i e
}.

Definition fdt_ok (t : fdtable) : Prop := exists l, fdt_inv t l.

Lemma chain_insert es f l i x : i ∉ l -> chain es f l -> chain (<[i := x]> es) f l.
Proof.
  revert f. induction l as [|j l IH]; intros f Hi; simpl; [done|].
  apply not_elem_of_cons in Hi as [Hne Hi]. intros (-> & e & He & Hc). split; [done|].
  exists e. rewrite list_lookup_insert_ne by done. auto.
Qed.

Lemma chain_unique es f l l' : chain es f l -> chain es f l' -> l = l'.
Proof.
  revert f l'. induction l as [|i l IH]; intros f [|i' l']; simpl; try done.
  - intros -> [? _]. unfold GF_FDTABLE_END in *. lia.
  - intros [-> _] ?. unfold GF_FDTABLE_END in *. lia.
  - intros (-> & e & He & Hc) (Heq & e' & He' & Hc'). apply Nat2Z.inj in Heq as <-.
    simplify_eq. f_equal. by eapply IH.
Qed.

(** ** Chaining *)

Lemma chain_fold_lookup (es : list fdentry) start n i :
  foldl (fun es i => alter (set_next (Z.of_nat i + 1)) i es) es (seq start n) !! i =
  (if decide (start <= i < start + n)%nat then set_next (Z.of_nat i + 1) <$> es !! i
   else es !! i).
Proof.
  revert start es. induction n as [|n IH]; intros start es; simpl.
  { case_decide; [lia|done]. }
  rewrite IH. destruct (decide (i = start)) as [->|Hne].
  - rewrite decide_False, decide_True by lia. by rewrite list_lookup_alter_eq.
  - rewrite !list_lookup_alter_ne by done. repeat case_decide; try lia; done.
Qed.

Lemma chain_entries_lookup (es : list fdentry) start stop i :
  (start < stop)%nat ->
  gf_fd_chain_fd_entries es start stop !! i =
  (if decide (start <= i < stop)%nat
   then set_next (if decide (S i = stop) then GF_FDTABLE_END else Z.of_nat i + 1) <$> es !! i
   else es !! i).
Proof.
  intros Hlt. unfold gf_fd_chain_fd_entries.
  replace (start + (stop - 1 - start))%nat with (stop - 1)%nat by lia.
  destruct (decide (i = stop - 1)%nat) as [->|Hne].
  - rewrite list_lookup_alter_eq, chain_fold_lookup.
    rewrite decide_False, decide_True, decide_True by lia. done.
  - rewrite list_lookup_alter_ne by done. rewrite chain_fold_lookup.
    repeat case_decide; try lia; done.
Qed.

Lemma chain_entries_length es start stop :
  length (gf_fd_chain_fd_entries es start stop) = length es.
Proof.
  unfold gf_fd_chain_fd_entries. rewrite length_alter.
  generalize (seq start (stop - 1 - start)). intros l. revert es.
  induction l as [|i l IH]; intros es; simpl; [done|]. by rewrite IH, length_alter.
Qed.

Lemma chain_entries_chain es start stop n :
  (start < stop)%nat -> (stop <= length es)%nat -> (n <= stop - start)%nat ->
  chain (gf_fd_chain_fd_entries es start stop)
    (if decide (n = 0)%nat then GF_FDTABLE_END else Z.of_nat (stop - n)) (seq (stop - n) n).
Proof.
  intros Hlt Hlen. induction n as [|n IH]; intros Hn; [done|]. simpl.
  split; [done|]. assert (is_Some (es !! (stop - S n)%nat)) as [e He] by (apply lookup_lt_is_Some; lia).
  exists (set_next (if decide (n = 0)%nat then GF_FDTABLE_END else Z.of_nat (stop - n)) e). split.
  - rewrite chain_entries_lookup, He by done. rewrite decide_True by lia. simpl. do 2 f_equal.
    repeat case_decide; try lia; done.
  - replace (S (stop - S n)) with (stop - n)%nat by lia. simpl. apply IH. lia.
Qed.

(** ** Expansion *)

Lemma roundup_loop_spec fuel result nr k :
  0 <= nr < 2 ^ 31 -> 0 <= k -> result = 2 ^ k -> result <= 2 * nr + 1 ->
  nr < 2 ^ (k + Z.of_nat fuel) ->
  exists j, roundup_loop fuel result nr = 2 ^ j /\ k <= j /\
    nr < 2 ^ j <= Z.max result (2 * nr).
Proof.
  intros Hnr. revert k result. induction fuel as [|fuel IH]; intros k result Hk -> Hle Hlt.
  { exists k. rewrite Z.add_0_r in Hlt. simpl. lia. }
  simpl. destruct (Z.leb_spec (2 ^ k) nr) as [Hr|Hr]; [|exists k; lia].
  assert (2 ^ k * 2 = 2 ^ (k + 1)) as Hp by (rewrite Z.pow_add_r by lia; lia).
  rewrite u32_small by (unfold is_u32; lia). rewrite Hp.
  destruct (IH (k + 1) (2 ^ (k + 1))) as (j & -> & ? & ?); try lia.
  - rewrite <-Z.add_assoc. replace (1 + Z.of_nat fuel) with (Z.of_nat (S fuel)) by lia. done.
  - exists j. lia.
Qed.

Lemma roundup_spec nr :
  0 <= nr < 2 ^ 31 ->
  exists j, 0 <= j /\ gf_roundup_power_of_two nr = 2 ^ j /\ nr < 2 ^ j <= Z.max 1 (2 * nr).
Proof.
  intros Hnr. destruct (roundup_loop_spec 32 1 nr 0) as (j & ? & ? & ?); try lia; [done..|].
  exists j. auto.
Qed.

Lemma expand_size_spec nr : 0 <= nr <= 2 ^ 28 -> nr < expand_size nr < 2 ^ 32.
Proof.
  intros Hnr. unfold expand_size, entries_per_kb, sizeof_fdentry. change (1024 / 16) with 64.
  pose proof (Z.div_mod nr 64 ltac:(lia)). pose proof (Z.mod_pos_bound nr 64 ltac:(lia)).
  set (q := nr `div` 64) in *. rewrite (u32_small (q + 1)) by (unfold is_u32; lia).
  destruct (roundup_spec (q + 1)) as (j & _ & -> & ?); [lia|].
  rewrite u32_small by (unfold is_u32; lia). lia.
Qed.

Lemma expand_inv t nr :
  Z.of_nat (length (fdentries t)) = max_fds t -> max_fds t < expand_size nr < 2 ^ 32 ->
  max_fds t <= 2 ^ 27 ->
  (forall i e, fdentries t !! i = Some e ->
     is_Some (fde_fd e) /\ next_free e = GF_FDENTRY_ALLOCATED) ->
  fdt_inv (gf_fd_fdtable_expand t nr)
    (seq (Z.to_nat (max_fds t)) (Z.to_nat (expand_size nr) - Z.to_nat (max_fds t))) /\
  forall i, fde_fd <$> fdentries (gf_fd_fdtable_expand t nr) !! i =
    if decide (i < length (fdentries t))%nat then fde_fd <$> fdentries t !! i
    else if decide (i < Z.to_nat (expand_size nr))%nat then Some None else None.
Proof.
  intros Hlen Hsize Hmax Hold. set (n := expand_size nr) in *. set (m := max_fds t) in *.
  assert (0 <= m) as Hm by lia.
  unfold gf_fd_fdtable_expand. fold m. fold n. unfold sizeof_fdentry.
  rewrite u32_small by (unfold is_u32; lia). rewrite Z.div_mul by lia.
  rewrite take_ge by lia. set (es := fdentries t ++ replicate _ fdentry0).
  assert (length es = Z.to_nat n) as Hes.
  { unfold es. rewrite length_app, length_replicate. lia. }
  assert (forall i, es !! i = if decide (i < Z.to_nat m)%nat then fdentries t !! i
    else if decide (i < Z.to_nat n)%nat then Some fdentry0 else None) as Hlook.
  { intros i. unfold es. case_decide.
    - rewrite lookup_app_l by lia. done.
    - rewrite lookup_app_r by lia. case_decide.
      + apply lookup_replicate. split; [done|lia].
      + apply lookup_replicate_None. lia. }
  split.
  - split; simpl.
    + rewrite chain_entries_length, Hes. lia.
    + pose proof (chain_entries_chain es (Z.to_nat m) (Z.to_nat n) (Z.to_nat n - Z.to_nat m)) as Hc.
      rewrite decide_False in Hc by lia.
      replace (Z.to_nat n - (Z.to_nat n - Z.to_nat m))%nat with (Z.to_nat m) in Hc by lia.
      rewrite Z2Nat.id in Hc by lia. apply Hc; lia.
    + apply NoDup_seq.
    + intros i e. rewrite chain_entries_lookup, Hlook by lia. unfold entry_ok. rewrite elem_of_seq.
      destruct (decide (i < Z.to_nat m)%nat).
      * rewrite decide_False by lia. intros He. right. destruct (Hold i e He). split; [lia|done].
      * repeat case_decide; try lia; simpl; intros; simplify_eq; left;
          (split; [lia|split; [done|]]); simpl; unfold GF_FDTABLE_END, GF_FDENTRY_ALLOCATED; lia.
  - intros i. simpl. rewrite chain_entries_lookup, Hlook by lia.
    replace (length (fdentries t)) with (Z.to_nat m) by lia.
    destruct (decide (i < Z.to_nat m)%nat); [rewrite decide_False by lia; done|].
    repeat case_decide; try lia; done.
Qed.

#[local] Opaque gf_fd_fdtable_expand.

(** ** Handing out and taking back *)

Lemma unused_get_expand n t fdptr :
  first_free t = GF_FDTABLE_END ->
  unused_get_try (S n) t fdptr =
  unused_get_try n (gf_fd_fdtable_expand t (u32 (max_fds t + 1))) fdptr.
Proof. intros Hf. cbn [unused_get_try]. by rewrite Hf. Qed.

Lemma fd_at_lookup t fd :
  Z.of_nat (length (fdentries t)) = max_fds t -> 0 <= fd ->
  fd_at t fd = fdentries t !! Z.to_nat fd ≫= fde_fd.
Proof.
  intros Hlen Hfd. unfold fd_at, in_table.
  destruct (Z.leb_spec 0 fd); [|lia]. destruct (Z.ltb_spec fd (max_fds t)); [done|].
  simpl. rewrite lookup_ge_None_2 by lia. done.
Qed.

Lemma fd_at_neg t fd : fd < 0 -> fd_at t fd = None.
Proof. intros. unfold fd_at, in_table. by destruct (Z.leb_spec 0 fd); [lia|]. Qed.

(** The entry under a number is replaced. *)
Lemma fd_at_insert t fd e f x :
  Z.of_nat (length (fdentries t)) = max_fds t -> 0 <= fd < max_fds t ->
  fd_at (mk_fdtable (max_fds t) (<[Z.to_nat fd := e]> (fdentries t)) f) x =
  if x =? fd then fde_fd e else fd_at t x.
Proof.
  intros Hlen Hfd. destruct (Z.ltb_spec x 0).
  { rewrite !fd_at_neg by done. destruct (Z.eqb_spec x fd); [lia|done]. }
  rewrite !fd_at_lookup; simpl; rewrite ?length_insert; try done.
  destruct (Z.eqb_spec x fd) as [->|Hne].
  - rewrite list_lookup_insert_eq by lia. done.
  - rewrite list_lookup_insert_ne by lia. done.
Qed.

(** Taking the first entry of the chain. *)
Lemma unused_get_free attempts t i l fdptr t' fd :
  fdt_inv t (i :: l) -> unused_get_try attempts t fdptr = (t', fd) ->
  fdt_inv t' l /\ 0 <= fd < max_fds t /\ max_fds t' = max_fds t /\ fd_at t fd = None /\
  forall x, fd_at t' x = if x =? fd then Some fdptr else fd_at t x.
Proof.
  intros [Hlen Hch Hnd Hent] Hget. destruct Hch as (Hf & e & He & Hch).
  apply NoDup_cons in Hnd as [Hi Hnd].
  assert (i < length (fdentries t))%nat as Hlt by (by eapply lookup_lt_Some).
  assert (t' = mk_fdtable (max_fds t)
    (<[i := mk_fdentry (Some fdptr) GF_FDENTRY_ALLOCATED]> (fdentries t)) (next_free e) /\
    fd = Z.of_nat i) as [-> ->].
  { destruct attempts; simpl in Hget; rewrite Hf in Hget;
      (destruct (Z.eqb_spec (Z.of_nat i) GF_FDTABLE_END); [unfold GF_FDTABLE_END in *; lia|]);
      simpl in Hget; rewrite Nat2Z.id, He in Hget; by simplify_eq. }
  split_and!; [|lia|lia|done| |].
  - split; simpl; [by rewrite length_insert|by apply chain_insert|done|].
    intros j e'. destruct (decide (j = i)) as [->|Hne].
    + rewrite list_lookup_insert_eq by done. intros [= <-]. right. simpl. eauto.
    + rewrite list_lookup_insert_ne by done. intros Hj. unfold entry_ok.
      specialize (Hent j e' Hj). unfold entry_ok in Hent. rewrite elem_of_cons in Hent. tauto.
  - rewrite fd_at_lookup, Nat2Z.id, He by lia. simpl.
    destruct (Hent i e He) as [(_ & ? & _)|(Hn & _)]; [done|]. by destruct Hn; left.
  - intros x. rewrite <-(Nat2Z.id i) at 1. rewrite fd_at_insert by lia. done.
Qed.

Lemma unused_get_spec t fdptr t' fd :
  fdt_ok t -> max_fds t <= 2 ^ 27 -> unused_get_try 2 t fdptr = (t', fd) ->
  fdt_ok t' /\ 0 <= fd /\ fd_at t fd = None /\
  forall x, fd_at t' x = if x =? fd then Some fdptr else fd_at t x.
Proof.
  intros [l Hinv] Hmax Hget. destruct l as [|i l].
  - destruct Hinv as [Hlen Hch _ Hent]. simpl in Hch.
    pose proof (expand_size_spec (u32 (max_fds t + 1))) as Hsz.
    rewrite u32_small in Hsz by (unfold is_u32; lia).
    destruct (expand_inv t (u32 (max_fds t + 1))) as [Hinv' Hlook]; try done.
    { rewrite u32_small by (unfold is_u32; lia). lia. }
    { intros i e He. destruct (Hent i e He) as [(Hn & _)|(_ & ? & ?)]; [by apply elem_of_nil in Hn|done]. }
    set (t1 := gf_fd_fdtable_expand t (u32 (max_fds t + 1))) in *.
    assert (unused_get_try 1 t1 fdptr = (t', fd)) as Hget'.
    { by rewrite unused_get_expand in Hget. }
    assert (forall x, fd_at t1 x = fd_at t x) as Hsame.
    { intros x. destruct (Z.ltb_spec x 0); [by rewrite !fd_at_neg|].
      rewrite !fd_at_lookup by (done || apply Hinv'). specialize (Hlook (Z.to_nat x)).
      clearbody t1. clear -Hlook.
      destruct (decide (Z.to_nat x < length (fdentries t))%nat) as [Hd|Hd].
      - destruct (fdentries t1 !! Z.to_nat x), (fdentries t !! Z.to_nat x); cbn in *; congruence.
      - rewrite (lookup_ge_None_2 (fdentries t)) by lia.
        destruct (fdentries t1 !! Z.to_nat x); [|done]. cbn in *. by case_decide; simplify_eq. }
    clearbody t1. clear Hlook.
    destruct (Z.to_nat (expand_size (u32 (max_fds t + 1))) - Z.to_nat (max_fds t))%nat as [|k] eqn:Hk.
    { rewrite (u32_small (max_fds t + 1)) in Hk by (unfold is_u32; lia). lia. }
    simpl in Hinv'. eapply unused_get_free in Hget' as (? & ? & _ & Hfree & Hat); [|exact Hinv'].
    rewrite Hsame in Hfree. split_and!; [by eexists|lia|done|]. intros x. by rewrite Hat, Hsame.
  - eapply unused_get_free in Hget as (? & ? & _ & ? & ?); [|exact Hinv].
    split_and!; [by eexists|lia|done|done].
Qed.

Lemma put_spec t fd t' r :
  fdt_ok t -> fd_put_entry t fd = (t', r) ->
  fdt_ok t' /\ r = fd_at t fd /\
  forall x, fd_at t' x = if x =? fd then None else fd_at t x.
Proof.
  intros [l Hinv] Hput. pose proof Hinv as [Hlen Hch Hnd Hent]. unfold fd_put_entry in Hput.
  destruct (in_table t fd) eqn:Hin.
  2:{ injection Hput as <- <-. assert (fd_at t fd = None) as Hat by (unfold fd_at; by rewrite Hin).
      split_and!; [by exists l|done|]. intros x. destruct (Z.eqb_spec x fd) as [->|]; done. }
  unfold in_table in Hin. apply andb_true_iff in Hin as [H0%Z.leb_le Hmax%Z.ltb_lt].
  destruct (fdentries t !! Z.to_nat fd) as [e|] eqn:He.
  2:{ apply lookup_ge_None_1 in He. lia. }
  assert (fd_at t fd = fde_fd e) as Hat by (by rewrite fd_at_lookup, He).
  destruct (Hent _ _ He) as [(Hl & Hnone & Hna)|(Hl & [p Hp] & Ha)].
  - destruct (Z.eqb_spec (next_free e) GF_FDENTRY_ALLOCATED); [done|]. simpl in Hput.
    injection Hput as <- <-. split_and!; [by exists l|congruence|].
    intros x. destruct (Z.eqb_spec x fd) as [->|]; [congruence|done].
  - rewrite Ha in Hput. simpl in Hput. injection Hput as <- <-. split_and!; [|congruence|].
    + exists (Z.to_nat fd :: l). split; simpl; [by rewrite length_insert| |by constructor|].
      * split; [lia|]. eexists. split; [by rewrite list_lookup_insert_eq by lia|]. simpl.
        by apply chain_insert.
      * intros j e'. destruct (decide (j = Z.to_nat fd)) as [->|Hne].
        -- rewrite list_lookup_insert_eq by lia. intros [= <-]. left. simpl. split; [left|].
           split; [done|]. destruct l as [|k l]; simpl in Hch.
           ++ rewrite Hch. done.
           ++ destruct Hch as [-> _]. unfold GF_FDENTRY_ALLOCATED. lia.
        -- rewrite list_lookup_insert_ne by done. intros Hj. specialize (Hent j e' Hj).
           unfold entry_ok in *. rewrite elem_of_cons. tauto.
    + intros x. rewrite fd_at_insert by lia. done.
Qed.

(** ** Reference counts *)

Definition refs_of (m : fd_refs) (p : Z) : Z := default 0 (m !! p).

(** Every fd that exists has a reference. *)
Definition refs_ok (m : fd_refs) : Prop := map_Forall (fun _ n => 0 < n) m.

(** How many entries of a table point to an fd. *)
Definition opens (es : list fdentry) (p : Z) : Z :=
  Z.of_nat (length (filter (fun e => fde_fd e = Some p) es)).

Lemma fd_unref_spec m p :
  refs_ok m -> 0 < refs_of m p ->
  exists m', fd_unref m p = Some m' /\ refs_ok m' /\
    (forall q, refs_of m' q = if decide (q = p) then refs_of m p - 1 else refs_of m q) /\
    (m' !! p = None <-> refs_of m p = 1).
Proof.
  unfold refs_of, fd_unref. intros Hok Hpos. destruct (m !! p) as [n|] eqn:Hp; [|simpl in *; lia].
  simpl in Hpos. destruct (Z.eqb_spec n 0); [lia|]. destruct (Z.eqb_spec (n - 1) 0).
  - exists (delete p m). split_and!; [done|by apply map_Forall_delete| |].
    + intros q. case_decide as Hq; [rewrite Hq, lookup_delete_eq; simpl; lia|].
      by rewrite lookup_delete_ne by done.
    + rewrite lookup_delete_eq. simpl. split; [lia|done].
  - exists (<[p := n - 1]> m). split_and!; [done|apply map_Forall_insert_2; [lia|done]| |].
    + intros q. case_decide as Hq; [by rewrite Hq, lookup_insert_eq|].
      by rewrite lookup_insert_ne by done.
    + rewrite lookup_insert_eq. simpl. split; [done|lia].
Qed.

Lemma opens_cons e es p :
  opens (e :: es) p = (if decide (fde_fd e = Some p) then 1 else 0) + opens es p.
Proof. unfold opens. rewrite filter_cons. case_decide; simpl length; lia. Qed.

Lemma unref_all_spec es m :
  refs_ok m -> (forall p, opens es p <= refs_of m p) ->
  exists m', unref_all m es = Some m' /\ refs_ok m' /\
    forall p, refs_of m' p = refs_of m p - opens es p.
Proof.
  revert m. induction es as [|e es IH]; intros m Hok Hle; simpl.
  { exists m. split_and!; [done..|]. intros p. unfold opens. simpl. lia. }
  destruct (fde_fd e) as [p|] eqn:He.
  - assert (0 <= opens es p) by (unfold opens; lia).
    destruct (fd_unref_spec m p) as (m1 & -> & Hok1 & Hr1 & _); [done| |].
    { specialize (Hle p). rewrite opens_cons, He, decide_True in Hle by done. lia. }
    destruct (IH m1 Hok1) as (m' & Hu & Hok' & Hr').
    { intros q. rewrite Hr1. specialize (Hle q). rewrite opens_cons, He in Hle.
      repeat case_decide; simplify_eq; lia. }
    exists m'. split_and!; [done..|]. intros q. rewrite Hr', Hr1, opens_cons, He.
    repeat case_decide; simplify_eq; lia.
  - destruct (IH m Hok) as (m' & ? & ? & Hr').
    { intros q. specialize (Hle q). rewrite opens_cons, He, decide_False in Hle by done. lia. }
    exists m'. split_and!; [done..|]. intros q. rewrite Hr', opens_cons, He, decide_False by done. lia.
Qed.

(** ** Context slots *)

(** No key is in two slots. *)
Definition ctx_ok (ctx : list fd_ctx) : Prop :=
  forall i j c d, ctx !! i = Some c -> ctx !! j = Some d ->
    ctx_key c = ctx_key d -> ctx_key c <> 0 -> i = j.

Lemma ctx_find_some key ctx i :
  ctx_find key ctx = Some i -> exists c, ctx !! i = Some c /\ ctx_key c = key.
Proof.
  revert i. induction ctx as [|c ctx IH]; intros i; simpl; [done|].
  destruct (Z.eqb_spec (ctx_key c) key); [intros [= <-]; eauto|].
  destruct (ctx_find key ctx) as [j|]; [|done]. intros [= <-]. simpl. by apply IH.
Qed.

Lemma ctx_find_none key ctx :
  ctx_find key ctx = None <-> Forall (fun c => ctx_key c <> key) ctx.
Proof.
  induction ctx as [|c ctx IH]; simpl; [done|]. rewrite Forall_cons, <-IH.
  destruct (Z.eqb_spec (ctx_key c) key); [naive_solver|].
  destruct (ctx_find key ctx); simpl; naive_solver.
Qed.

Lemma ctx_find_iff key ctx i :
  ctx_ok ctx -> key <> 0 ->
  ctx_find key ctx = Some i <-> exists c, ctx !! i = Some c /\ ctx_key c = key.
Proof.
  intros Hok Hk. split; [apply ctx_find_some|]. intros (c & Hc & Hkey).
  destruct (ctx_find key ctx) as [j|] eqn:Hf.
  - apply ctx_find_some in Hf as (d & Hd & Hdk). f_equal. eapply (Hok j i d c); congruence.
  - apply ctx_find_none in Hf. rewrite Forall_lookup in Hf. by destruct (Hf i c Hc).
Qed.

(** What is found under a key. *)
Lemma ctx_get_iff key ctx v :
  ctx_ok ctx -> key <> 0 ->
  __fd_ctx_get ctx key = Some v <-> exists i, ctx !! i = Some (mk_fd_ctx key v).
Proof.
  intros Hok Hk. unfold __fd_ctx_get. split.
  - destruct (ctx_find key ctx) as [i|] eqn:Hf; [|done]. simpl.
    apply ctx_find_some in Hf as ([k w] & Hc & Hkey). rewrite Hc. simpl in *.
    intros [= <-]. exists i. by subst.
  - intros [i Hi]. rewrite (proj2 (ctx_find_iff key ctx i Hok Hk)); [|by eexists].
    simpl. by rewrite Hi.
Qed.

Lemma ctx_set_idx_spec key ctx k s :
  match ctx_set_idx key k s ctx with
  | None => s = None /\ Forall (fun c => ctx_key c <> 0 /\ ctx_key c <> key) ctx
  | Some i =>
      (exists j c, i = (k + j)%nat /\ ctx !! j = Some c /\ ctx_key c = key) \/
      (Forall (fun c => ctx_key c <> key) ctx /\
       (s = Some i \/ exists j c, i = (k + j)%nat /\ ctx !! j = Some c /\ ctx_key c = 0))
  end.
Proof.
  revert k s. induction ctx as [|c ctx IH]; intros k s; simpl.
  { destruct s; auto. }
  destruct (Z.eqb_spec (ctx_key c) key) as [Hk|Hk].
  { left. exists O, c. split; [lia|done]. }
  set (s' := if ctx_key c =? 0 then _ else _). specialize (IH (S k) s').
  destruct (ctx_set_idx key (S k) s' ctx) as [i|].
  - destruct IH as [(j & d & -> & Hj & ?)|[Hf Hs]].
    + left. exists (S j), d. split; [lia|done].
    + right. split; [by constructor|]. destruct Hs as [Hs|(j & d & -> & Hj & ?)].
      * unfold s' in Hs. destruct (Z.eqb_spec (ctx_key c) 0) as [H0|]; [|by left].
        destruct s; [by left|]. right. exists O, c. simplify_eq. split; [lia|done].
      * right. exists (S j), d. split; [lia|done].
  - destruct IH as [Hs Hf]. unfold s' in Hs.
    destruct (Z.eqb_spec (ctx_key c) 0); [by destruct s|]. split; [done|]. by constructor.
Qed.

Lemma ctx_set_ok ctx key value ctx' :
  ctx_ok ctx -> key <> 0 -> __fd_ctx_set ctx key value = (ctx', 0) ->
  ctx_ok ctx' /\ exists i, (i < length ctx)%nat /\ ctx' = <[i := mk_fd_ctx key value]> ctx /\
    forall j c, ctx !! j = Some c -> ctx_key c <> 0 ->
      (j = i <-> ctx_key c = key).
Proof.
  intros Hok Hk. unfold __fd_ctx_set. pose proof (ctx_set_idx_spec key ctx 0 None) as Hs.
  destruct (ctx_set_idx key 0 None ctx) as [i|]; [|done]. intros [= <-].
  assert (exists c, ctx !! i = Some c /\ forall j d, ctx !! j = Some d -> ctx_key d <> 0 ->
    (j = i <-> ctx_key d = key)) as (c & Hc & Hiff).
  { destruct Hs as [(j & c & -> & Hj & Hck)|[Hf [?|(j & c & -> & Hj & Hc0)]]]; [|done|].
    - exists c. split; [done|]. intros j' d Hd Hd0. split; [intros ->; simpl in *; congruence|].
      intros. eapply (Hok j' j d c); congruence.
    - exists c. split; [done|]. intros j' d Hd Hd0. rewrite Forall_lookup in Hf. split.
      + intros ->. simpl in *. congruence.
      + intros. by destruct (Hf j' d Hd). }
  assert (i < length ctx)%nat as Hlt by by eapply lookup_lt_Some.
  split; [|eauto]. intros j k d e Hj Hke Heq Hne.
  destruct (decide (j = i)) as [->|Hj'], (decide (k = i)) as [->|Hk'].
  - done.
  - rewrite list_lookup_insert_eq in Hj by done. rewrite list_lookup_insert_ne in Hke by done.
    simplify_eq. simpl in *. symmetry. apply (Hiff k e); congruence.
  - rewrite list_lookup_insert_ne in Hj by done. rewrite list_lookup_insert_eq in Hke by done.
    simplify_eq. simpl in *. by apply (Hiff j d).
  - rewrite list_lookup_insert_ne in Hj, Hke by done. by eapply Hok.
Qed.

(** ** What fd.c guarantees *)

(** A fresh number for every open.  [gf_fd_unused_get] on a table with
    fewer than 2^27 entries never fails: it returns a number under which nothing
    was open, binds exactly that number to the fd, expanding the table where it
    is full, and keeps the chain of free entries intact. *)
Theorem fd_unused_get_fresh (t t' : fdtable) (p fd : Z) :
  fdt_ok t -> max_fds t <= 2 ^ 27 ->
  gf_fd_unused_get (Some t) (Some p) = (Some t', fd) ->
  fdt_ok t' /\ 0 <= fd /\ fd_at t fd = None /\
  forall x, fd_at t' x = if x =? fd then Some p else fd_at t x.
Proof.
  intros Hok Hmax. unfold gf_fd_unused_get. destruct (unused_get_try 2 t p) eqn:Hget.
  intros [= <- <-]. by eapply unused_get_spec.
Qed.

Lemma alloc_ok : fdt_ok gf_fd_fdtable_alloc.
Proof.
  destruct (expand_inv (mk_fdtable 0 [] 0) 0) as [Hinv _]; [done| |done|done|by eexists].
  by vm_compute.
Qed.

Lemma fd_unused_get_fresh_witness :
  exists t', gf_fd_unused_get (Some gf_fd_fdtable_alloc) (Some 9) = (Some t', 0) /\
    fd_at t' 0 = Some 9 /\ fd_at t' 1 = None.
Proof.
  pose (r := gf_fd_unused_get (Some gf_fd_fdtable_alloc) (Some 9)).
  destruct (fd_unused_get_fresh gf_fd_fdtable_alloc (default gf_fd_fdtable_alloc (fst r)) 9 0)
    as (_ & _ & _ & Hat); [apply alloc_ok|by vm_compute|by vm_compute|].
  exists (default gf_fd_fdtable_alloc (fst r)). split; [by vm_compute|]. by rewrite !Hat; vm_compute.
Defined.

(** Closing undoes opening.  [gf_fd_put] of any number leaves exactly that
    number unbound and keeps the table well-formed; it drops one reference of
    the fd that was bound, and does nothing at all for a number that was not. *)
Theorem fd_put_unbinds (t t' : fdtable) (m : gmap Z Z) (m' : option (gmap Z Z)) (fd : Z) :
  fdt_ok t -> gf_fd_put t m fd = (t', m') ->
  fdt_ok t' /\ (forall x, fd_at t' x = if x =? fd then None else fd_at t x) /\
  m' = match fd_at t fd with Some p => fd_unref m p | None => Some m end.
Proof.
  intros Hok. unfold gf_fd_put. destruct (fd_put_entry t fd) as [t1 r] eqn:Hput.
  intros [= <- <-]. apply put_spec in Hput as (? & -> & ?); [|done]. auto.
Qed.

Lemma fd_put_unbinds_witness :
  exists t', gf_fd_put gf_fd_fdtable_alloc ∅ 5 = (t', Some ∅) /\ fd_at t' 5 = None.
Proof.
  pose (r := gf_fd_put gf_fd_fdtable_alloc ∅ 5). exists (fst r). split; [by vm_compute|].
  destruct (fd_put_unbinds gf_fd_fdtable_alloc (fst r) ∅ (snd r) 5) as (_ & Hat & _);
    [apply alloc_ok|by vm_compute|]. by rewrite Hat.
Defined.

(** Destroying a table balances the references.  If every fd has at least
    as many references as the table has descriptors for it, no assertion of
    [fd_unref] fails, and each fd loses exactly that many. *)
Theorem fdtable_destroy_balances (t : fdtable) (m : gmap Z Z) :
  refs_ok m -> (forall p, opens (fdentries t) p <= refs_of m p) ->
  exists m', gf_fd_fdtable_destroy t m = Some m' /\ refs_ok m' /\
    forall p, refs_of m' p = refs_of m p - opens (fdentries t) p.
Proof. intros. unfold gf_fd_fdtable_destroy. simpl. by apply unref_all_spec. Qed.

Lemma fdtable_destroy_balances_witness :
  let t := mk_fdtable 2 [mk_fdentry (Some 9) (-2); mk_fdentry (Some 9) (-2)] (-1) in
  exists m', gf_fd_fdtable_destroy t {[ 9 := 3 ]} = Some m' /\ refs_of m' 9 = 1.
Proof.
  intros t. destruct (fdtable_destroy_balances t {[ 9 := 3 ]}) as (m' & Hd & _ & Hr).
  - by apply map_Forall_singleton.
  - intros p. unfold refs_of, opens. destruct (decide (p = 9)) as [->|Hne].
    + rewrite lookup_singleton_eq. by vm_compute.
    + rewrite lookup_singleton_ne by done. simpl. unfold opens.
      rewrite !filter_cons, !decide_False by (simpl; congruence). done.
  - exists m'. split; [done|]. rewrite Hr. reflexivity.
Defined.

(** [gf_fd_fdtable_get_all_fds] loses descriptors.  Taking all fds out of
    a table in which 0, 1 and 2 were open leaves all entries free, yet the next
    number handed out is 3: 0 to 2 are not on the chain of free entries. *)
Theorem get_all_fds_loses_numbers :
  let t3 := Nat.iter 3 (fun t => fst (unused_get_try 2 t 9)) gf_fd_fdtable_alloc in
  let t := snd (gf_fd_fdtable_get_all_fds t3) in
  Forall (fun e => fde_fd e = None) (fdentries t) /\
  snd (gf_fd_unused_get (Some t) (Some 9)) = 3 /\
  forall l, chain (fdentries t) (first_free t) l -> ~ (0%nat ∈ l).
Proof.
  intros t3 t. split_and!.
  - apply Forall_lookup_2. intros i e. unfold t. simpl.
    rewrite chain_entries_lookup by (vm_compute; lia).
    assert (forall n e, replicate n fdentry0 !! i = Some e -> fde_fd e = None) as Hr.
    { intros n e' [-> _]%lookup_replicate_1. done. }
    case_decide; [|apply Hr]. destruct (replicate _ _ !! i) eqn:Hi; [|done].
    intros [= <-]. by apply Hr in Hi.
  - by vm_compute.
  - intros l Hl. pose proof (chain_entries_chain (replicate 128 fdentry0) 0 128 125) as Hc.
    rewrite (chain_unique _ _ _ _ Hl (Hc ltac:(lia) ltac:(rewrite length_replicate; lia) ltac:(lia))).
    rewrite elem_of_seq. lia.
Qed.

(** Context slots are a map.  [__fd_ctx_set] of a translator's key fails
    only when every slot is taken by another key; otherwise the key reads back
    the value, every other key what it read before, and no key is in two
    slots. *)
Theorem fd_ctx_set_get (ctx : list fd_ctx) (key value : Z) :
  ctx_ok ctx -> key <> 0 ->
  let '(ctx', ret) := __fd_ctx_set ctx key value in
  (ret = -1 /\ ctx' = ctx /\ Forall (fun c => ctx_key c <> 0 /\ ctx_key c <> key) ctx) \/
  (ret = 0 /\ ctx_ok ctx' /\ __fd_ctx_get ctx' key = Some value /\
   forall k, k <> 0 -> k <> key -> __fd_ctx_get ctx' k = __fd_ctx_get ctx k).
Proof.
  intros Hok Hk. destruct (__fd_ctx_set ctx key value) as [ctx' ret] eqn:Hset.
  pose proof Hset as Hset'. unfold __fd_ctx_set in Hset.
  pose proof (ctx_set_idx_spec key ctx 0 None) as Hs.
  destruct (ctx_set_idx key 0 None ctx) as [i0|]; injection Hset as <- <-; [right|left; naive_solver].
  apply ctx_set_ok in Hset' as (Hok' & i & Hlt & Heq & Hiff); [|done..]. rewrite Heq in *.
  split_and!; [done..| |].
  - apply ctx_get_iff; [done..|]. exists i. by apply list_lookup_insert_eq.
  - intros k Hk0 Hne. apply option_eq. intros v. rewrite !ctx_get_iff by done. split.
    + intros [j Hj]. destruct (decide (j = i)) as [->|]; [|exists j; by rewrite list_lookup_insert_ne in Hj].
      rewrite list_lookup_insert_eq in Hj by done. congruence.
    + intros [j Hj]. destruct (decide (j = i)) as [->|]; [|exists j; by rewrite list_lookup_insert_ne].
      destruct (Hiff i _ Hj Hk0) as [Hkey _]. simpl in Hkey. by destruct Hne; apply Hkey.
Qed.

Lemma fd_ctx_set_get_witness :
  __fd_ctx_get (fst (__fd_ctx_set [mk_fd_ctx 5 50; mk_fd_ctx 0 0; mk_fd_ctx 6 60] 6 61)) 5 = Some 50.
Proof.
  pose (ctx := [mk_fd_ctx 5 50; mk_fd_ctx 0 0; mk_fd_ctx 6 60]).
  assert (ctx_ok ctx) as Hok.
  { intros i j c d Hi Hj Hcd Hc.
    destruct i as [|[|[|]]], j as [|[|[|]]]; simpl in *; simplify_eq; done. }
  destruct (fd_ctx_set_get ctx 6 61 Hok) as [(Hr & _)|(_ & _ & _ & Hg)]; [done|discriminate Hr|].
  exact (Hg 5 ltac:(discriminate) ltac:(discriminate)).
Defined.
