(* ===== verification/ByteOrder.v ===== *)
(** * libglusterfs: byte order

    Model of libglusterfs/src/byte-order.h.  On a little-endian machine the
    conversions swap bytes, and [ntoh16/32/64] are the same functions. *)

From stdpp Require Import base list numbers.
From S2P Require Import Prelude.
Open Scope Z_scope.

Definition LS1 : Z := 0x00ff.
Definition MS1 : Z := 0xff00.
Definition LS2 : Z := 0x0000ffff.
Definition MS2 : Z := 0xffff0000.
Definition LS4 : Z := 0x00000000ffffffff.
Definition MS4 : Z := 0xffffffff00000000.

Definition do_swap2 (x : Z) : Z :=
  Z.lor (Z.shiftl (Z.land x LS1) 8) (Z.shiftr (Z.land x MS1) 8).

Definition do_swap4 (x : Z) : Z :=
  Z.lor (Z.shiftl (do_swap2 (Z.land x LS2)) 16) (do_swap2 (Z.shiftr (Z.land x MS2) 16)).

Definition do_swap8 (x : Z) : Z :=
  Z.lor (Z.shiftl (do_swap4 (Z.land x LS4)) 32) (do_swap4 (Z.shiftr (Z.land x MS4) 32)).

Definition hton16 (x : Z) : Z := do_swap2 (x `mod` 2 ^ 16).
Definition hton32 (x : Z) : Z := do_swap4 (u32 x).
Definition hton64 (x : Z) : Z := do_swap8 (u64 x).

Definition ntoh16 := hton16.
Definition ntoh32 := hton32.
Definition ntoh64 := hton64.

(** ** Swapping, on the halves of a number *)

Lemma land_disjoint_shift a b n :
  0 <= n -> 0 <= b < 2 ^ n -> Z.land (Z.shiftl a n) b = 0.
Proof.
  intros Hn Hb. apply Z.bits_inj'. intros i Hi. rewrite Z.land_spec, Z.bits_0.
  destruct (Z.ltb_spec i n).
  - by rewrite Z.shiftl_spec_low.
  - rewrite <-(Z.mod_small b (2 ^ n)) by lia. rewrite Z.mod_pow2_bits_high by lia.
    apply andb_false_r.
Qed.

Lemma lor_shiftl_add a b n :
  0 <= n -> 0 <= b < 2 ^ n -> Z.lor (Z.shiftl a n) b = a * 2 ^ n + b.
Proof.
  intros Hn Hb. rewrite <-Z.add_nocarry_lor by (by apply land_disjoint_shift).
  by rewrite Z.shiftl_mul_pow2.
Qed.

(** One level of [do_swapN]: the halves trade places, each swapped by [f]. *)
Lemma swap_half (f : Z -> Z) n h l :
  0 <= n -> 0 <= h < 2 ^ n -> 0 <= l < 2 ^ n -> 0 <= f h < 2 ^ n ->
  Z.lor (Z.shiftl (f (Z.land (h * 2 ^ n + l) (Z.ones n))) n)
        (f (Z.shiftr (Z.land (h * 2 ^ n + l) (Z.shiftl (Z.ones n) n)) n)) =
  f l * 2 ^ n + f h.
Proof.
  intros Hn Hh Hl Hf. assert (0 < 2 ^ n) as Hp by (apply Z.pow_pos_nonneg; lia).
  assert (Z.land (h * 2 ^ n + l) (Z.ones n) = l) as ->.
  { rewrite Z.land_ones by done. rewrite Z.add_comm, Z.mod_add by lia. by apply Z.mod_small. }
  assert (Z.shiftr (Z.land (h * 2 ^ n + l) (Z.shiftl (Z.ones n) n)) n = h) as ->.
  { rewrite Z.shiftr_land, Z.shiftr_shiftl_l, Z.sub_diag, Z.shiftl_0_r by done.
    rewrite Z.shiftr_div_pow2, Z.div_add_l, Z.div_small, Z.add_0_r by lia.
    rewrite Z.land_ones by done. by apply Z.mod_small. }
  by apply lor_shiftl_add.
Qed.

(** A number as its two halves. *)
Lemma halves x n : 0 <= n -> 0 <= x < 2 ^ (2 * n) ->
  exists h l, x = h * 2 ^ n + l /\ 0 <= h < 2 ^ n /\ 0 <= l < 2 ^ n.
Proof.
  intros Hn Hx. assert (0 < 2 ^ n) as Hp by (apply Z.pow_pos_nonneg; lia).
  exists (x `div` 2 ^ n), (x `mod` 2 ^ n). replace (2 * n) with (n + n) in Hx by lia.
  rewrite Z.pow_add_r in Hx by done. pose proof (Z.div_mod x (2 ^ n) ltac:(lia)).
  split; [lia|]. split; [|by apply Z.mod_pos_bound].
  split; [apply Z.div_pos; lia|]. apply Z.div_lt_upper_bound; lia.
Qed.

Lemma do_swap2_halves h l :
  0 <= h < 2 ^ 8 -> 0 <= l < 2 ^ 8 -> do_swap2 (h * 2 ^ 8 + l) = l * 2 ^ 8 + h.
Proof.
  intros. unfold do_swap2. change LS1 with (Z.ones 8). change MS1 with (Z.shiftl (Z.ones 8) 8).
  by rewrite (swap_half (fun x => x) 8).
Qed.

Lemma do_swap2_bound x : 0 <= x < 2 ^ 16 -> 0 <= do_swap2 x < 2 ^ 16.
Proof.
  intros Hx. destruct (halves x 8) as (h & l & -> & ? & ?); [done..|].
  rewrite do_swap2_halves by done. lia.
Qed.

Lemma do_swap2_involutive x : 0 <= x < 2 ^ 16 -> do_swap2 (do_swap2 x) = x.
Proof.
  intros Hx. destruct (halves x 8) as (h & l & -> & ? & ?); [done..|].
  by rewrite !do_swap2_halves.
Qed.

Lemma do_swap4_halves h l :
  0 <= h < 2 ^ 16 -> 0 <= l < 2 ^ 16 ->
  do_swap4 (h * 2 ^ 16 + l) = do_swap2 l * 2 ^ 16 + do_swap2 h.
Proof.
  intros. unfold do_swap4. change LS2 with (Z.ones 16).
  change MS2 with (Z.shiftl (Z.ones 16) 16). apply swap_half; [done..|]. by apply do_swap2_bound.
Qed.

Lemma do_swap4_bound x : 0 <= x < 2 ^ 32 -> 0 <= do_swap4 x < 2 ^ 32.
Proof.
  intros Hx. destruct (halves x 16) as (h & l & -> & ? & ?); [done..|].
  rewrite do_swap4_halves by done.
  pose proof (do_swap2_bound h). pose proof (do_swap2_bound l). lia.
Qed.

Lemma do_swap4_involutive x : 0 <= x < 2 ^ 32 -> do_swap4 (do_swap4 x) = x.
Proof.
  intros Hx. destruct (halves x 16) as (h & l & -> & ? & ?); [done..|].
  rewrite !do_swap4_halves by (done || by apply do_swap2_bound).
  by rewrite !do_swap2_involutive.
Qed.

Lemma do_swap8_halves h l :
  0 <= h < 2 ^ 32 -> 0 <= l < 2 ^ 32 ->
  do_swap8 (h * 2 ^ 32 + l) = do_swap4 l * 2 ^ 32 + do_swap4 h.
Proof.
  intros. unfold do_swap8. change LS4 with (Z.ones 32).
  change MS4 with (Z.shiftl (Z.ones 32) 32). apply swap_half; [done..|]. by apply do_swap4_bound.
Qed.

Lemma u32_range x : is_u32 (u32 x).
Proof. unfold is_u32, u32. apply Z.mod_pos_bound. lia. Qed.

Lemma hton32_range x : is_u32 (hton32 x).
Proof. apply do_swap4_bound, u32_range. Qed.

(** Converting twice gives the 32-bit value back. *)
Lemma ntoh32_hton32 x : ntoh32 (hton32 x) = u32 x.
Proof.
  unfold ntoh32, hton32 at 1. rewrite (u32_small (hton32 x)) by apply hton32_range.
  apply do_swap4_involutive, u32_range.
Qed.

Lemma ntoh64_hton64 x : ntoh64 (hton64 x) = u64 x.
Proof.
  unfold ntoh64, hton64. assert (0 <= u64 x < 2 ^ 64) as Hx by (apply Z.mod_pos_bound; lia).
  destruct (halves (u64 x) 32) as (h & l & -> & ? & ?); [done..|].
  pose proof (do_swap4_bound h). pose proof (do_swap4_bound l).
  rewrite do_swap8_halves by done. rewrite u64_small by (unfold is_u64; lia).
  rewrite do_swap8_halves by lia. by rewrite !do_swap4_involutive.
Qed.
