(* ===== verification/HashFn.v ===== *)
(** * libglusterfs: hash functions, and names in cluster/dht

    Model of libglusterfs/src/hashfn.c and of
    xlators/cluster/dht/src/dht-hashfn.c.  A C string is the list of its bytes
    without the terminator; words are read in little-endian order, as on the
    x86 machines the code is built for. *)

From stdpp Require Import base list numbers strings.
From S2P Require Import Prelude.
Open Scope Z_scope.

(** ** 32-bit arithmetic *)

Definition add32 (a b : Z) : Z := u32 (a + b).
Definition shl32 (a n : Z) : Z := u32 (Z.shiftl a n).
Definition shr32 (a n : Z) : Z := Z.shiftr a n.
Definition xor32 (a b : Z) : Z := Z.lxor a b.

(** A [char] is signed: the value of a byte, and its conversion to 32 bits. *)
Definition schar (b : Z) : Z := if b <? 128 then b else b - 256.
Definition char32 (b : Z) : Z := u32 (schar b).

(** [*(const uint16_t * ) d] and a 32-bit word at the head of some bytes. *)
Definition get16bits (d : list Z) : Z := nth 0 d 0 + Z.shiftl (nth 1 d 0) 8.
Definition get32bits (d : list Z) : Z :=
  nth 0 d 0 + Z.shiftl (nth 1 d 0) 8 + Z.shiftl (nth 2 d 0) 16 + Z.shiftl (nth 3 d 0) 24.

(** ** ReallySimpleHash

    The loop reads [path[len]] down to [path[1]]. *)
Fixpoint ReallySimpleHash_loop (path : list Z) (len : nat) (hash : Z) : Z :=
  match len with
  | O => hash
  | S n => ReallySimpleHash_loop path n (xor32 hash (char32 (nth len path 0)))
  end.

Definition ReallySimpleHash (path : list Z) : Z :=
  ReallySimpleHash_loop path (length path) 0.

(** ** SuperFastHash *)

Definition sfh_step (hash : Z) (data : list Z) : Z :=
  let hash := add32 hash (get16bits data) in
  let tmp := xor32 (shl32 (get16bits (drop 2 data)) 11) hash in
  let hash := xor32 (shl32 hash 16) tmp in
  add32 hash (shr32 hash 11).

Fixpoint sfh_loop (n : nat) (hash : Z) (data : list Z) : Z * list Z :=
  match n with
  | O => (hash, data)
  | S n' => sfh_loop n' (sfh_step hash data) (drop 4 data)
  end.

Definition sfh_tail (rem hash : Z) (data : list Z) : Z :=
  if rem =? 3 then
    let hash := add32 hash (get16bits data) in
    let hash := xor32 hash (shl32 hash 16) in
    let hash := xor32 hash (u32 (Z.shiftl (schar (nth 2 data 0)) 18)) in
    add32 hash (shr32 hash 11)
  else if rem =? 2 then
    let hash := add32 hash (get16bits data) in
    let hash := xor32 hash (shl32 hash 11) in
    add32 hash (shr32 hash 17)
  else if rem =? 1 then
    let hash := add32 hash (char32 (nth 0 data 0)) in
    let hash := xor32 hash (shl32 hash 10) in
    add32 hash (shr32 hash 1)
  else hash.

Definition sfh_avalanche (hash : Z) : Z :=
  let hash := xor32 hash (shl32 hash 3) in
  let hash := add32 hash (shr32 hash 5) in
  let hash := xor32 hash (shl32 hash 4) in
  let hash := add32 hash (shr32 hash 17) in
  let hash := xor32 hash (shl32 hash 25) in
  add32 hash (shr32 hash 6).

Definition SuperFastHash (data : list Z) : Z :=
  let len := Z.of_nat (length data) in
  if len <=? 1 then 1
  else
    let '(hash, rest) := sfh_loop (Z.to_nat (Z.shiftr len 2)) (u32 len) data in
    sfh_avalanche (sfh_tail (Z.land len 3) hash rest).

(** ** The Davies-Meyer hash *)

Definition DM_DELTA : Z := 2654435769.
Definition DM_FULLROUNDS : nat := 10.
Definition DM_PARTROUNDS : nat := 6.

Record quad := mk_quad { q0 : Z; q1 : Z; q2 : Z; q3 : Z }.

(** One pass through the loop body of [dm_round]. *)
Definition dm_mix (b sum ka kb : Z) : Z :=
  xor32 (xor32 (add32 (shl32 b 4) ka) (add32 b sum)) (add32 (shr32 b 5) kb).

Fixpoint dm_loop (n : nat) (array : quad) (sum b0 b1 : Z) : Z * Z :=
  match n with
  | O => (b0, b1)
  | S n' =>
      let sum := add32 sum DM_DELTA in
      let b0 := add32 b0 (dm_mix b1 sum (q0 array) (q1 array)) in
      let b1 := add32 b1 (dm_mix b0 sum (q2 array) (q3 array)) in
      dm_loop n' array sum b0 b1
  end.

Definition dm_round (rounds : nat) (array : quad) (h0 h1 : Z) : Z * Z :=
  let '(b0, b1) := dm_loop rounds array 0 h0 h1 in (add32 h0 b0, add32 h1 b1).

Definition __pad (len : Z) : Z :=
  let pad := Z.lor (u32 len) (shl32 (u32 len) 8) in
  Z.lor pad (shl32 pad 16).

(** The loop over the full 16-byte blocks. *)
Fixpoint dm_quads (n : nat) (msg : list Z) (h0 h1 : Z) : list Z * Z * Z :=
  match n with
  | O => (msg, h0, h1)
  | S n' =>
      let array := mk_quad (get32bits msg) (get32bits (drop 4 msg))
                     (get32bits (drop 8 msg)) (get32bits (drop 12 msg)) in
      let '(h0, h1) := dm_round DM_PARTROUNDS array h0 h1 in
      dm_quads n' (drop 16 msg) h0 h1
  end.

(** One word of the last block: a full word, or the pad with what is left of
    the message shifted in. *)
Definition dm_last_word (pad : Z) (msg : list Z) : Z * list Z :=
  if (4 <=? Z.of_nat (length msg)) then (get32bits msg, drop 4 msg)
  else (foldl (fun acc b => Z.lor (shl32 acc 8) (char32 b)) pad msg, []).

Definition gf_dm_hashfn (msg : list Z) : Z :=
  let len := Z.of_nat (length msg) in
  let pad := __pad len in
  let '(rest, h0, h1) :=
    dm_quads (Z.to_nat (len / 16)) msg 2489623685 1412307604 in
  let '(w0, r0) := dm_last_word pad rest in
  let '(w1, r1) := dm_last_word pad r0 in
  let '(w2, r2) := dm_last_word pad r1 in
  let '(w3, _) := dm_last_word pad r2 in
  let '(h0, h1) := dm_round DM_FULLROUNDS (mk_quad w0 w1 w2 w3) h0 h1 in
  xor32 h0 h1.

(** ** Names in cluster/dht *)

Inductive dht_hashfn_type := DHT_HASH_TYPE_DM | DHT_HASH_TYPE_OTHER.

(** [dht_hash_compute_internal]; an unknown type fails. *)
Definition dht_hash_compute_internal (type : dht_hashfn_type) (name : list Z) : option Z :=
  match type with
  | DHT_HASH_TYPE_DM => Some (gf_dm_hashfn name)
  | DHT_HASH_TYPE_OTHER => None
  end.

Definition dot : Z := 46.

(** [strrchr (name, '.')], as an offset. *)
Fixpoint strrchr (c : Z) (name : list Z) : option nat :=
  match name with
  | [] => None
  | b :: name' =>
      match strrchr c name' with
      | Some i => Some (S i)
      | None => if b =? c then Some O else None
      end
  end.

(** [MAKE_RSYNC_FRIENDLY_NAME]: ".name.suffix" becomes "name". *)
Definition rsync_friendly_name (name : list Z) : list Z :=
  match name with
  | b :: _ =>
      if b =? dot then
        match strrchr dot name with
        | Some i =>
            if (1 <? Z.of_nat i) && (Z.of_nat i + 1 <? Z.of_nat (length name))
            then take (i - 1) (drop 1 name)
            else name
        | None => name
        end
      else name
  | [] => name
  end.

Definition dht_hash_compute (type : dht_hashfn_type) (name : list Z) : option Z :=
  dht_hash_compute_internal type (rsync_friendly_name name).
