(* ===== verification/DhtLayout.v ===== *)
(** * cluster/dht: layouts

    Model of xlators/cluster/dht/src/dht-layout.c and of the inode number and
    subvolume functions of dht-helper.c.  A subvolume is its name; a NULL
    [xlator_t *] is [None].  The array [list] of a layout is a Rocq list of
    [cnt] entries. *)

From stdpp Require Import base list numbers strings.
From S2P Require Import Prelude ByteOrder HashFn.
Open Scope Z_scope.

(** ** Layouts *)

Record layout_entry := mk_entry {
  le_err : Z;
  le_start : Z;
  le_stop : Z;
  le_xlator : option string
}.

Record dht_layout := mk_layout {
  lt_list : list layout_entry;
  lt_preset : bool;
  lt_gen : Z;
  lt_type : dht_hashfn_type;
  lt_ref : Z
}.

Definition entry0 : layout_entry := mk_entry 0 0 0 None.

Definition set_list (l : list layout_entry) (lt : dht_layout) : dht_layout :=
  mk_layout l (lt_preset lt) (lt_gen lt) (lt_type lt) (lt_ref lt).

Definition le_set_err (e : Z) (en : layout_entry) : layout_entry :=
  mk_entry e (le_start en) (le_stop en) (le_xlator en).

Definition le_set_range (s p : Z) (en : layout_entry) : layout_entry :=
  mk_entry (le_err en) s p (le_xlator en).

Definition dht_layout_new (calloc_ok : bool) (gen : Z) (cnt : nat) : option dht_layout :=
  if calloc_ok then Some (mk_layout (replicate cnt entry0) false gen DHT_HASH_TYPE_DM 1)
  else None.

(** [dht_layout_ref] and [dht_layout_unref]; [None] is a freed layout. *)
Definition dht_layout_ref (lt : dht_layout) : dht_layout :=
  if lt_preset lt then lt
  else mk_layout (lt_list lt) (lt_preset lt) (lt_gen lt) (lt_type lt) (lt_ref lt + 1).

Definition dht_layout_unref (lt : dht_layout) : option dht_layout :=
  if lt_preset lt then Some lt
  else if lt_ref lt - 1 =? 0 then None
  else Some (mk_layout (lt_list lt) (lt_preset lt) (lt_gen lt) (lt_type lt) (lt_ref lt - 1)).

(** [dht_layout_search] *)
Definition entry_has (hash : Z) (en : layout_entry) : bool :=
  (le_start en <=? hash) && (hash <=? le_stop en).

Definition dht_layout_search (lt : dht_layout) (name : list Z) : option string :=
  match dht_hash_compute (lt_type lt) name with
  | None => None
  | Some hash => List.find (entry_has hash) (lt_list lt) ≫= le_xlator
  end.

(** The loop of [dht_layouts_init]: the preset layouts, one per subvolume, up
    to the first [dht_layout_new] that fails.  The slots behind it stay NULL. *)
Fixpoint layouts_init_loop (callocs : list bool) (gen : Z) (subvolumes : list string) :
    list (option dht_layout) * Z :=
  match subvolumes with
  | [] => ([], 0)
  | sv :: svs =>
      match dht_layout_new (default true (head callocs)) gen 1 with
      | None => (replicate (S (length svs)) None, -1)
      | Some lt =>
          let lt' := mk_layout (alter (fun en => mk_entry (le_err en) (le_start en) (le_stop en) (Some sv))
                                  0%nat (lt_list lt)) true (lt_gen lt) (lt_type lt) (lt_ref lt) in
          let '(lts, ret) := layouts_init_loop (tail callocs) gen svs in
          (Some lt' :: lts, ret)
      end
  end.

(** [dht_layouts_init]: [conf->file_layouts] and the return value. *)
Definition dht_layouts_init (calloc_ok : bool) (callocs : list bool) (gen : Z)
    (subvolumes : list string) : option (list (option dht_layout)) * Z :=
  if calloc_ok then let '(lts, ret) := layouts_init_loop callocs gen subvolumes in (Some lts, ret)
  else (None, -1).

Fixpoint dht_layout_for_subvol (subvolumes : list string) (layouts : list (option dht_layout))
    (subvol : string) : option dht_layout :=
  match subvolumes, layouts with
  | sv :: svs, lt :: lts =>
      if String.eqb sv subvol then lt else dht_layout_for_subvol svs lts subvol
  | _, _ => None
  end.

(** ** The on-disk form

    The xattr is four words in network order. *)

Definition type_code (t : dht_hashfn_type) : Z :=
  match t with DHT_HASH_TYPE_DM => 0 | DHT_HASH_TYPE_OTHER => 1 end.

(** [dht_disk_layout_extract], [None] where the allocation fails; callers give a
    position inside the array. *)
Definition dht_disk_layout_extract (calloc_ok : bool) (lt : dht_layout) (pos : nat) :
    option (list Z) :=
  if negb calloc_ok then None else
  match lt_list lt !! pos with
  | Some en => Some [hton32 1; hton32 (type_code (lt_type lt));
                     hton32 (le_start en); hton32 (le_stop en)]
  | None => None
  end.

(** [dht_disk_layout_merge]: the layout and the return value. *)
Definition dht_disk_layout_merge (lt : dht_layout) (pos : nat) (disk : list Z) :
    dht_layout * Z :=
  let cnt := i32 (ntoh32 (nth 0 disk 0)) in
  if negb (cnt =? 1) then (lt, -1)
  else
    let start_off := i32 (ntoh32 (nth 2 disk 0)) in
    let stop_off := i32 (ntoh32 (nth 3 disk 0)) in
    (set_list (alter (le_set_range (u32 start_off) (u32 stop_off)) pos (lt_list lt)) lt, 0).

(** The first loop of [dht_layout_merge]: the entry for the subvolume. *)
Fixpoint merge_slot (i : nat) (l : list layout_entry) : nat :=
  match l with
  | [] => i
  | en :: l' => match le_xlator en with None => i | Some _ => merge_slot (S i) l' end
  end.

(** [dht_layout_merge]; [xattr] is the "trusted.glusterfs.dht" entry of the
    reply, [None] where the dictionary or the entry is missing.  Where no slot
    is free the code goes on with the index behind the array; the model leaves
    the array as it is then. *)
Definition dht_layout_merge (lt : dht_layout) (subvol : string) (op_ret op_errno : Z)
    (xattr : option (list Z)) : dht_layout * Z :=
  let err := if negb (op_ret =? 0) then op_errno else -1 in
  let i := merge_slot 0 (lt_list lt) in
  let lt1 := set_list (alter (fun en => mk_entry err (le_start en) (le_stop en) (Some subvol))
                         i (lt_list lt)) lt in
  if negb (op_ret =? 0) then (lt1, 0)
  else
    match xattr with
    | None => (set_list (alter (le_set_err (-1)) i (lt_list lt1)) lt1, 0)
    | Some disk =>
        let '(lt2, ret) := dht_disk_layout_merge lt1 i disk in
        if negb (ret =? 0) then (lt2, ret)
        else (set_list (alter (le_set_err 0) i (lt_list lt2)) lt2, ret)
    end.

(** ** Sorting *)

(** [strcmp] of two names, as its sign. *)
Fixpoint strcmp (s1 s2 : string) : Z :=
  match s1, s2 with
  | EmptyString, EmptyString => 0
  | EmptyString, String _ _ => -1
  | String _ _, EmptyString => 1
  | String a s1', String b s2' =>
      let x := Z.of_N (Ascii.N_of_ascii a) in
      let y := Z.of_N (Ascii.N_of_ascii b) in
      if x =? y then strcmp s1' s2' else if x <? y then -1 else 1
  end.

Definition dht_layout_entry_cmp (a b : layout_entry) : Z :=
  if negb (le_err a =? 0) || negb (le_err b =? 0) then le_err a - le_err b
  else le_start a - le_start b.

(** The names of two entries; every entry that is sorted by name has one. *)
Definition dht_layout_entry_cmp_volname (a b : layout_entry) : Z :=
  match le_xlator a, le_xlator b with
  | Some x, Some y => strcmp x y
  | _, _ => 0
  end.

Section Sort.
Variable cmp : layout_entry -> layout_entry -> Z.

(** The inner loop, over the entries [j] behind entry [i]: whenever entry [i]
    is greater than entry [j] the two are swapped. *)
Fixpoint sort_inner (x : layout_entry) (rest : list layout_entry) :
    layout_entry * list layout_entry :=
  match rest with
  | [] => (x, [])
  | y :: rest' =>
      if 0 <? cmp x y then let '(m, r) := sort_inner y rest' in (m, x :: r)
      else let '(m, r) := sort_inner x rest' in (m, y :: r)
  end.

(** The outer loop, from entry [i] on; [n] entries are left. *)
Fixpoint sort_outer (n : nat) (l : list layout_entry) : list layout_entry :=
  match n, l with
  | S n', x :: rest => let '(m, r) := sort_inner x rest in m :: sort_outer n' r
  | _, _ => l
  end.

Definition sort_entries (l : list layout_entry) : list layout_entry :=
  sort_outer (length l) l.

End Sort.

Definition dht_layout_sort (lt : dht_layout) : dht_layout :=
  set_list (sort_entries dht_layout_entry_cmp (lt_list lt)) lt.

Definition dht_layout_sort_volname (lt : dht_layout) : dht_layout :=
  set_list (sort_entries dht_layout_entry_cmp_volname (lt_list lt)) lt.

(** ** Anomalies *)

Record anomalies := mk_anomalies {
  hole_cnt : Z;
  overlap_cnt : Z;
  missing : Z;
  down : Z;
  misc : Z
}.

(** The loop of [dht_layout_anomalies]; the state is [prev_stop], the counts
    and [is_virgin]. *)
Fixpoint anomalies_loop (l : list layout_entry) (prev_stop : Z) (a : anomalies)
    (is_virgin : bool) : Z * anomalies * bool :=
  match l with
  | [] => (prev_stop, a, is_virgin)
  | en :: l' =>
      if negb (le_err en =? 0) then
        let a' :=
          if (le_err en =? -1) || (le_err en =? ENOENT) then
            mk_anomalies (hole_cnt a) (overlap_cnt a) (missing a + 1) (down a) (misc a)
          else if (le_err en =? ENOTCONN) || (le_err en =? ENOSPC) then
            mk_anomalies (hole_cnt a) (overlap_cnt a) (missing a) (down a + 1) (misc a)
          else mk_anomalies (hole_cnt a) (overlap_cnt a) (missing a) (down a) (misc a + 1) in
        anomalies_loop l' prev_stop a' is_virgin
      else
        let hole := if u32 (prev_stop + 1) <? le_start en then 1 else 0 in
        let over := if le_start en <? u32 (prev_stop + 1) then 1 else 0 in
        anomalies_loop l' (le_stop en)
          (mk_anomalies (hole_cnt a + hole) (overlap_cnt a + over) (missing a) (down a) (misc a))
          false
  end.

Definition dht_layout_anomalies (lt : dht_layout) : anomalies :=
  let first := match lt_list lt with en :: _ => le_start en | [] => 0 end in
  let last_stop := u32 (first - 1) in
  let '(prev_stop, a, is_virgin) :=
    anomalies_loop (lt_list lt) last_stop (mk_anomalies 0 0 0 0 0) true in
  if negb (u32 (last_stop - prev_stop) =? 0) || is_virgin
  then mk_anomalies (hole_cnt a + 1) (overlap_cnt a) (missing a) (down a) (misc a)
  else a.

(** [dht_layout_normalize]: the sorted layout and whether it needs healing. *)
Definition dht_layout_normalize (lt : dht_layout) : dht_layout * Z :=
  let lt' := dht_layout_sort lt in
  let a := dht_layout_anomalies lt' in
  (lt', if negb (hole_cnt a =? 0) || negb (overlap_cnt a =? 0) ||
           existsb (fun en => le_err en =? ENOENT) (lt_list lt')
        then 1 else 0).

(** [dht_layout_dir_mismatch] *)
Definition dht_layout_dir_mismatch (lt : dht_layout) (subvol : string)
    (xattr : option (list Z)) : Z :=
  match List.find (fun en => bool_decide (le_xlator en = Some subvol)) (lt_list lt) with
  | None => 1
  | Some en =>
      match xattr with
      | None => if le_err en =? 0 then -1 else 0
      | Some disk =>
          if negb (i32 (ntoh32 (nth 0 disk 0)) =? 1) then -1
          else if negb (le_start en =? ntoh32 (nth 2 disk 0)) ||
                  negb (le_stop en =? ntoh32 (nth 3 disk 0)) then 1 else 0
      end
  end.

(** ** Subvolumes and inode numbers (dht-helper.c) *)

(** The index of a subvolume, or -1. *)
Fixpoint subvol_index (i : Z) (subvolumes : list string) (subvol : string) : Z :=
  match subvolumes with
  | [] => -1
  | sv :: svs => if String.eqb subvol sv then i else subvol_index (i + 1) svs subvol
  end.

Definition dht_subvol_cnt (subvolumes : list string) (subvol : string) : Z :=
  subvol_index 0 subvolumes subvol.

Definition dht_itransform (subvolumes : list string) (subvol : string) (x : Z) : Z :=
  if x =? 2 ^ 64 - 1 then 2 ^ 64 - 1
  else u64 (x * Z.of_nat (length subvolumes) + dht_subvol_cnt subvolumes subvol).

Definition dht_deitransform (subvolumes : list string) (y : Z) : option string * Z :=
  let max := Z.of_nat (length subvolumes) in
  (subvolumes !! Z.to_nat (y `mod` max), y `div` max).

Fixpoint dht_subvol_next (subvolumes : list string) (prev : string) : option string :=
  match subvolumes with
  | [] => None
  | sv :: svs => if String.eqb sv prev then head svs else dht_subvol_next svs prev
  end.

Fixpoint dht_first_up_subvol (subvolumes : list string) (status : list bool) : option string :=
  match subvolumes, status with
  | sv :: svs, up :: ups => if up then Some sv else dht_first_up_subvol svs ups
  | _, _ => None
  end.

(** [dht_subvol_get_hashed] of a name in a directory, and
    [dht_subvol_get_cached] of a file. *)
Definition dht_subvol_get_hashed (is_root : bool) (subvolumes : list string)
    (status : list bool) (parent : option dht_layout) (name : list Z) : option string :=
  if is_root then dht_first_up_subvol subvolumes status
  else parent ≫= fun lt => dht_layout_search lt name.

Definition dht_subvol_get_cached (lt : option dht_layout) : option string :=
  lt ≫= fun lt => head (lt_list lt) ≫= le_xlator.

(** [struct stat], as [dht_stat_merge] uses it. *)
Record dstat := mk_dstat {
  d_dev : Z; d_ino : Z; d_mode : Z; d_nlink : Z; d_rdev : Z; d_size : Z; d_blksize : Z;
  d_blocks : Z; d_uid : Z; d_gid : Z; d_atime : Z; d_mtime : Z; d_ctime : Z
}.

Definition set_if_greater (a b : Z) : Z := if a <? b then b else a.

Definition dht_stat_merge (subvolumes : list string) (to from : dstat) (subvol : string) : dstat :=
  mk_dstat (d_dev from) (dht_itransform subvolumes subvol (d_ino from)) (d_mode from)
    (d_nlink from) (d_rdev from) (i64 (d_size to + d_size from)) (d_blksize from)
    (i64 (d_blocks to + d_blocks from)) (set_if_greater (d_uid to) (d_uid from))
    (set_if_greater (d_gid to) (d_gid from)) (set_if_greater (d_atime to) (d_atime from))
    (set_if_greater (d_mtime to) (d_mtime from)) (set_if_greater (d_ctime to) (d_ctime from)).
