(* ===== verification/DhtSelfheal.v ===== *)
(** * cluster/dht: healing the layout of a directory

    Model of xlators/cluster/dht/src/dht-selfheal.c.  The calls to the
    subvolumes are data: which get a mkdir, which get a layout xattr; the
    callbacks take the outcome of one call. *)

From stdpp Require Import base list numbers strings.
From S2P Require Import Prelude ByteOrder HashFn DhtLayout.
Open Scope Z_scope.

(** ** Giving out the hash space *)

(** [dht_selfheal_layout_alloc_start]: the entry that gets the first chunk. *)
Definition dht_selfheal_layout_alloc_start (lt : dht_layout) (path : list Z) : nat :=
  match dht_hash_compute (lt_type lt) path with
  | Some hashval => Z.to_nat (hashval `mod` Z.of_nat (length (lt_list lt)))
  | None => O
  end.

(** The first loop: usable entries are marked and counted. *)
Definition mark_usable (l : list layout_entry) : list layout_entry :=
  map (fun en => if (le_err en =? -1) || (le_err en =? 0) then le_set_err (-1) en else en) l.

(** The second loop, where there are none: full subvolumes are used. *)
Definition mark_full (l : list layout_entry) : list layout_entry :=
  map (fun en => if le_err en =? ENOSPC then le_set_err (-1) en else en) l.

Definition usable (en : layout_entry) : bool := le_err en =? -1.

Definition count_usable (l : list layout_entry) : Z := Z.of_nat (length (List.filter usable l)).

(** The two loops that hand out chunks, each over a part of the array. *)
Fixpoint give_chunks (chunk : Z) (l : list layout_entry) (start cnt : Z) :
    list layout_entry * Z * Z :=
  match l with
  | [] => ([], start, cnt)
  | en :: l' =>
      if usable en then
        let start' := u32 (start + chunk) in
        let cnt' := cnt - 1 in
        if cnt' =? 0 then (le_set_range start UINT32_MAX en :: l', start', cnt')
        else
          let '(r, s, c) := give_chunks chunk l' start' cnt' in
          (le_set_range start (u32 (start + chunk - 1)) en :: r, s, c)
      else let '(r, s, c) := give_chunks chunk l' start cnt in (en :: r, s, c)
  end.

(** [None] is the division by a zero [cnt], which stops the process. *)
Definition dht_selfheal_layout_new_directory (lt : dht_layout) (path : list Z) :
    option dht_layout :=
  let l1 := mark_usable (lt_list lt) in
  let l2 := if count_usable l1 =? 0 then mark_full l1 else l1 in
  let cnt := count_usable l2 in
  if cnt =? 0 then None
  else
    let chunk := UINT32_MAX `div` cnt in
    let k := dht_selfheal_layout_alloc_start lt path in
    let '(back, s, c) := give_chunks chunk (drop k l2) 0 cnt in
    let '(front, _, _) := give_chunks chunk (take k l2) s c in
    Some (set_list (front ++ back) lt).

(** ** The course of a heal *)

(** [dht_selfheal_dir_getafix]: the layout and whether it could be formed;
    [subvolume_cnt] of the translator, the counts from the anomalies. *)
Definition dht_selfheal_dir_getafix (subvolume_cnt : Z) (lt : dht_layout) (path : list Z)
    (a : anomalies) : option (dht_layout * Z) :=
  let again := (missing a + down a =? subvolume_cnt) in
  olt1 ← (if again then dht_selfheal_layout_new_directory lt path else Some lt);
  let ret1 := if again then 0 else -1 in
  let ret2 := if hole_cnt a <=? down a then 0 else ret1 in
  let fix_ := negb (hole_cnt a =? 0) || negb (missing a =? 0) || negb (overlap_cnt a =? 0) in
  olt2 ← (if fix_ then dht_selfheal_layout_new_directory olt1 path else Some olt1);
  let ret3 := if fix_ then 0 else ret2 in
  Some (olt2, if existsb (fun en => le_err en =? ENOENT) (lt_list olt2) then 0 else ret3).

(** The subvolumes [dht_selfheal_dir_mkdir] makes the directory on. *)
Definition dht_selfheal_dir_mkdir (lt : dht_layout) (force : bool) : list (option string) :=
  map le_xlator (List.filter (fun en => (le_err en =? ENOENT) || force) (lt_list lt)).

(** The first entry of a subvolume gets a new [err]. *)
Fixpoint set_err_of (subvol : string) (err : Z) (l : list layout_entry) : list layout_entry :=
  match l with
  | [] => []
  | en :: l' =>
      if bool_decide (le_xlator en = Some subvol) then le_set_err err en :: l'
      else en :: set_err_of subvol err l'
  end.

Definition dht_selfheal_dir_mkdir_cbk (lt : dht_layout) (subvol : string)
    (op_ret op_errno : Z) : dht_layout :=
  if (op_ret =? 0) || (op_errno =? EEXIST)
  then set_list (set_err_of subvol (-1) (lt_list lt)) lt
  else lt.

(** The entries whose range [dht_selfheal_dir_xattr] writes out. *)
Definition needs_xattr (en : layout_entry) : bool :=
  negb (negb (le_err en =? -1) || (le_stop en =? 0)).

(** [dht_selfheal_dir_xattr]: the subvolumes and the xattrs they get, with
    memory for the xattrs. *)
Definition dht_selfheal_dir_xattr (lt : dht_layout) : list (option string * list Z) :=
  omap (fun i => en ← lt_list lt !! i;
                 if needs_xattr en then
                   disk ← dht_disk_layout_extract true lt i; Some (le_xlator en, disk)
                 else None)
    (seq 0 (length (lt_list lt))).

Definition dht_selfheal_dir_xattr_cbk (lt : dht_layout) (subvol : string)
    (op_ret op_errno : Z) : dht_layout :=
  set_list (set_err_of subvol (if op_ret =? 0 then 0 else op_errno) (lt_list lt)) lt.

(** What [dht_selfheal_directory] decides: nothing to fix it with, or a new
    layout and the directories to make first. *)
Inductive heal :=
  | no_fix (ret : Z)
  | heal_with (lt : dht_layout) (mkdirs : list (option string)).

Definition dht_selfheal_directory (subvolume_cnt : Z) (lt : dht_layout) (path : list Z) :
    option heal :=
  let a := dht_layout_anomalies lt in
  if negb (down a =? 0) then Some (no_fix 0)
  else if negb (misc a =? 0) then Some (no_fix 0)
  else
    '(lt', ret) ← dht_selfheal_dir_getafix subvolume_cnt (dht_layout_sort_volname lt) path a;
    if ret =? -1 then Some (no_fix ret)
    else Some (heal_with lt' (dht_selfheal_dir_mkdir lt' false)).

(** [dht_selfheal_new_directory]: the layout of a directory just made, and
    the xattrs to write. *)
Definition dht_selfheal_new_directory (lt : dht_layout) (path : list Z) :
    option (dht_layout * list (option string * list Z)) :=
  lt' ← dht_selfheal_layout_new_directory (dht_layout_sort_volname lt) path;
  Some (lt', dht_selfheal_dir_xattr lt').

Definition dht_selfheal_restore (lt : dht_layout) : list (option string) :=
  dht_selfheal_dir_mkdir lt true.
