(* ===== verification/DhtFacts.v ===== *)
(** * cluster/dht: theorems about layouts *)

From stdpp Require Import base list numbers strings sorting.
From S2P Require Import Prelude ByteOrder HashFn DhtLayout DhtSelfheal.
Open Scope Z_scope.

(** ** Sorting *)

(** What the exchange sort needs of a comparison. *)
Class TotalCmp (cmp : layout_entry -> layout_entry -> Z) := {
  cmp_flip : forall x y, 0 < cmp x y -> cmp y x <= 0;
  cmp_trans : forall x y z, cmp x y <= 0 -> cmp y z <= 0 -> cmp x z <= 0
}.

#[export] Instance entry_cmp_total : TotalCmp dht_layout_entry_cmp.
Proof.
  split; unfold dht_layout_entry_cmp; intros; 
    repeat match goal with
    | |- context [?a =? 0] => destruct (Z.eqb_spec a 0)
    | H : context [?a =? 0] |- _ => destruct (Z.eqb_spec a 0)
    end; simpl in *; lia.
Qed.

Section SortFacts.
Context (cmp : layout_entry -> layout_entry -> Z) `{!TotalCmp cmp}.

Definition le_cmp (x y : layout_entry) : Prop := cmp x y <= 0.

Lemma sort_inner_perm x rest m r : sort_inner cmp x rest = (m, r) -> x :: rest ≡ₚ m :: r.
Proof.
  revert x m r. induction rest as [|y rest IH]; intros x m r; simpl; [by intros [= <- <-]|].
  destruct (0 <? cmp x y).
  - destruct (sort_inner cmp y rest) as [m' r'] eqn:He. intros [= <- <-].
    rewrite (IH _ _ _ He). apply perm_swap.
  - destruct (sort_inner cmp x rest) as [m' r'] eqn:He. intros [= <- <-].
    rewrite perm_swap, (IH _ _ _ He). apply perm_swap.
Qed.

Lemma sort_inner_least x rest m r :
  sort_inner cmp x rest = (m, r) -> (m = x \/ le_cmp m x) /\ Forall (le_cmp m) r.
Proof using TotalCmp0.
  revert x m r. induction rest as [|y rest IH]; intros x m r; simpl.
  { intros [= <- <-]. split; [by left|constructor]. }
  destruct (Z.ltb_spec 0 (cmp x y)) as [Hlt|Hle].
  - destruct (sort_inner cmp y rest) as [m' r'] eqn:He. intros [= <- <-].
    apply cmp_flip in Hlt. destruct (IH _ _ _ He) as [Hm Hr].
    assert (le_cmp m' x) as Hmx by (destruct Hm as [->|Hm]; [done|by eapply cmp_trans]).
    split; [by right|by constructor].
  - destruct (sort_inner cmp x rest) as [m' r'] eqn:He. intros [= <- <-].
    destruct (IH _ _ _ He) as [Hm Hr]. split; [done|]. constructor; [|done].
    destruct Hm as [->|Hm]; [done|by eapply cmp_trans].
Qed.

Lemma sort_outer_spec n l :
  (length l <= n)%nat -> sort_outer cmp n l ≡ₚ l /\ StronglySorted le_cmp (sort_outer cmp n l).
Proof using TotalCmp0.
  revert l. induction n as [|n IH]; intros [|x rest] Hlen; simpl in *; try lia.
  1, 2: split; [done|constructor].
  destruct (sort_inner cmp x rest) as [m r] eqn:He.
  pose proof (sort_inner_perm _ _ _ _ He) as Hp. destruct (sort_inner_least _ _ _ _ He) as [_ Hl].
  assert (length (x :: rest) = length (m :: r)) as Hlr by by rewrite Hp. simpl in Hlr.
  destruct (IH r) as [Hp' Hs]; [lia|]. split; [by rewrite Hp', Hp|].
  constructor; [done|]. by rewrite Hp'.
Qed.

Lemma sort_entries_spec l :
  sort_entries cmp l ≡ₚ l /\ StronglySorted le_cmp (sort_entries cmp l).
Proof using TotalCmp0. by apply sort_outer_spec. Qed.

End SortFacts.

(** ** Tiles

    [tiles s l t]: the ranges of [l] follow each other from [s] up to [t]. *)
Fixpoint tiles (s : Z) (l : list layout_entry) (t : Z) : Prop :=
  match l with
  | [] => s = t
  | en :: l' => le_start en = s /\ s <= le_stop en /\ tiles (le_stop en + 1) l' t
  end.

Lemma tiles_le s l t : tiles s l t -> s <= t.
Proof.
  revert s. induction l as [|en l IH]; intros s; simpl; [lia|].
  intros (? & ? & H%IH). lia.
Qed.

Lemma tiles_app s l1 l2 t u : tiles s l1 t -> tiles t l2 u -> tiles s (l1 ++ l2) u.
Proof.
  revert s. induction l1 as [|en l1 IH]; intros s; simpl; [by intros ->|].
  intros (? & ? & ?) ?. auto.
Qed.

Lemma tiles_unique s l t x :
  tiles s l t -> s <= x < t ->
  exists l1 en l2, l = l1 ++ en :: l2 /\ entry_has x en = true /\
    Forall (fun e => entry_has x e = false) (l1 ++ l2).
Proof.
  revert s. induction l as [|en l IH]; intros s; simpl; [lia|].
  intros (Hs & Hle & Ht) Hx.
  assert (forall e, entry_has x e = true <-> le_start e <= x <= le_stop e) as Hhas.
  { intros e. unfold entry_has. rewrite andb_true_iff, !Z.leb_le. done. }
  destruct (decide (x <= le_stop en)) as [Hin|Hout].
  - exists [], en, l. split; [done|]. split; [apply Hhas; lia|]. simpl.
    assert (forall s' , x < s' -> tiles s' l t -> Forall (fun e => entry_has x e = false) l) as Hrest.
    { clear. induction l as [|e l IH]; intros s' Hx; simpl; [constructor|]. intros (? & ? & ?).
      constructor; [unfold entry_has; lia|]. eapply IH; [|done]. lia. }
    eapply Hrest; [|exact Ht]. lia.
  - destruct (IH (le_stop en + 1) Ht) as (l1 & e & l2 & -> & He & Hf); [lia|].
    exists (en :: l1), e, l2. split; [done|]. split; [done|]. simpl.
    constructor; [unfold entry_has; lia|done].
Qed.

(** ** Chunks *)

Definition usables (l : list layout_entry) : list layout_entry := List.filter usable l.

Lemma usables_app l1 l2 : usables (l1 ++ l2) = usables l1 ++ usables l2.
Proof. apply List.filter_app. Qed.

Lemma count_usable_app l1 l2 : count_usable (l1 ++ l2) = count_usable l1 + count_usable l2.
Proof. unfold count_usable. rewrite List.filter_app, length_app. lia. Qed.

Lemma count_usable_cons en l :
  count_usable (en :: l) = (if usable en then 1 else 0) + count_usable l.
Proof. unfold count_usable. simpl. destruct (usable en); simpl length; lia. Qed.

Lemma count_usable_nonneg l : 0 <= count_usable l.
Proof. unfold count_usable. lia. Qed.

Lemma give_chunks_none chunk l st cn : usables l = [] -> give_chunks chunk l st cn = (l, st, cn).
Proof.
  revert st cn. induction l as [|en l IH]; intros st cn; simpl; [done|].
  destruct (usable en); [done|]. intros Hu. by rewrite IH.
Qed.

Lemma usables_nil l e : count_usable l = 0 -> e ∈ l -> usable e = true -> False.
Proof.
  intros Hc He Hue. unfold count_usable in Hc.
  assert (List.filter usable l = []) as Hnil by (apply length_zero_iff_nil; lia).
  assert (e ∈ List.filter usable l) as Hin.
  { apply list_elem_of_In, List.filter_In. split; [by apply list_elem_of_In|done]. }
  rewrite Hnil in Hin. by apply elem_of_nil in Hin.
Qed.

(** The ranges handed out continue each other.  [cnt] entries are still to be
    served, [count_usable l] of them here; [start] and [cnt] are in step. *)
Lemma give_chunks_tiles chunk n l start cnt r s c :
  0 < chunk -> chunk * n <= UINT32_MAX -> start = chunk * (n - cnt) -> cnt <= n ->
  count_usable l <= cnt -> give_chunks chunk l start cnt = (r, s, c) ->
  c = cnt - count_usable l /\ map le_err r = map le_err l /\ map le_xlator r = map le_xlator l /\
  (0 < c -> s = chunk * (n - c)) /\
  (0 < cnt -> tiles start (usables r) (if c =? 0 then UINT32_MAX + 1 else s)).
Proof.
  intros Hch Hmax. unfold UINT32_MAX in *.
  revert start cnt r s c. induction l as [|en l IH]; intros start cnt r s c Hst Hcn Hcl; simpl.
  { intros [= <- <- <-]. split; [unfold count_usable; simpl; lia|]. split_and!; [done..|].
    intros Hpos. simpl. destruct (Z.eqb_spec cnt 0); [lia|done]. }
  rewrite count_usable_cons in Hcl |- *. pose proof (count_usable_nonneg l) as Hnn.
  destruct (usable en) eqn:Hu.
  - assert (chunk * (n - cnt) + chunk = chunk * (n - (cnt - 1))) as Hstep by lia.
    assert (0 <= chunk * (n - cnt)) as H0 by nia.
    assert (chunk * (n - (cnt - 1)) <= chunk * n) as Hle by nia.
    rewrite (u32_small (start + chunk)) by (unfold is_u32; lia).
    destruct (Z.eqb_spec (cnt - 1) 0) as [Hz|Hz].
    + intros [= <- <- <-]. split; [lia|]. split_and!; [done..|intros; lia|].
      intros _. simpl. unfold usable in Hu |- *. simpl. rewrite Hu. simpl.
      assert (usables l = []) as ->.
      { apply length_zero_iff_nil. unfold count_usable, usables in *. lia. }
      simpl. rewrite Hz. unfold UINT32_MAX. simpl. split_and!; [done| |done].
      assert (chunk * (n - cnt) <= chunk * n) by nia. lia.
    + destruct (give_chunks chunk l (start + chunk) (cnt - 1)) as [[r' s'] c'] eqn:Hg.
      intros [= <- <- <-]. apply IH in Hg as (-> & He & Hx & Hs' & Ht); [|lia..].
      rewrite (u32_small (start + chunk - 1)) by (unfold is_u32; lia).
      split; [lia|]. split_and!; [simpl; by f_equal|simpl; by f_equal|auto|].
      intros Hpos. simpl. unfold usable in Hu |- *. simpl. rewrite Hu. simpl.
      split_and!; [done|lia|]. replace (start + chunk - 1 + 1) with (start + chunk) by lia.
      apply Ht. lia.
  - destruct (give_chunks chunk l start cnt) as [[r' s'] c'] eqn:Hg.
    intros [= <- <- <-]. apply IH in Hg as (-> & He & Hx & Hs' & Ht); [|lia..].
    split; [lia|]. split_and!; [simpl; by f_equal|simpl; by f_equal|auto|].
    intros Hpos. simpl. rewrite Hu. apply Ht. lia.
Qed.

(** With chunks of two hashes or more no range handed out ends at 0, the mark
    of an entry without one. *)
Lemma give_chunks_stops chunk n l start cnt r s c :
  1 < chunk -> chunk * n <= UINT32_MAX -> start = chunk * (n - cnt) -> 0 <= cnt <= n ->
  count_usable l <= cnt -> give_chunks chunk l start cnt = (r, s, c) ->
  Forall (fun en => usable en = true -> 0 < le_stop en) r.
Proof.
  intros Hch Hmax. unfold UINT32_MAX in *.
  revert start cnt r s c. induction l as [|en l IH]; intros start cnt r s c Hst Hcn Hcl; simpl.
  { intros [= <- <- <-]. constructor. }
  rewrite count_usable_cons in Hcl. pose proof (count_usable_nonneg l) as Hnn.
  destruct (usable en) eqn:Hu.
  - assert (0 <= chunk * (n - cnt)) as H0 by nia.
    assert (chunk * (n - (cnt - 1)) <= chunk * n) as Hle by nia.
    rewrite (u32_small (start + chunk)) by (unfold is_u32; lia).
    destruct (Z.eqb_spec (cnt - 1) 0) as [Hz|Hz].
    + intros [= <- <- <-]. constructor; [by simpl|].
      apply Forall_forall. intros e He Hue. exfalso. eapply (usables_nil l e); [lia|done..].
    + destruct (give_chunks chunk l (start + chunk) (cnt - 1)) as [[r' s'] c'] eqn:Hg.
      intros [= <- <- <-]. rewrite (u32_small (start + chunk - 1)) by (unfold is_u32; lia).
      constructor; [simpl; intros _; lia|]. eapply IH; [..|exact Hg]; lia.
  - destruct (give_chunks chunk l start cnt) as [[r' s'] c'] eqn:Hg.
    intros [= <- <- <-]. constructor; [by rewrite Hu|]. eapply IH; [..|exact Hg]; lia.
Qed.

(** ** A new layout covers the hash space once *)

Lemma map_length_eq {A B} (f : A -> B) (l l' : list A) : map f l = map f l' -> length l = length l'.
Proof. intros H. by rewrite <-(length_map f l), H, length_map. Qed.

Lemma new_directory_tiles lt path lt' :
  dht_selfheal_layout_new_directory lt path = Some lt' ->
  Z.of_nat (length (lt_list lt)) <= UINT32_MAX ->
  exists front back l2, lt' = set_list (front ++ back) lt /\
    tiles 0 (usables back ++ usables front) (UINT32_MAX + 1) /\
    (l2 = mark_usable (lt_list lt) \/ l2 = mark_full (mark_usable (lt_list lt))) /\
    map le_err (front ++ back) = map le_err l2 /\
    map le_xlator (front ++ back) = map le_xlator l2.
Proof.
  unfold dht_selfheal_layout_new_directory. cbv zeta. intros Hn Hlen.
  set (l2 := if count_usable (mark_usable (lt_list lt)) =? 0 then _ else _) in Hn.
  assert (l2 = mark_usable (lt_list lt) \/ l2 = mark_full (mark_usable (lt_list lt))) as Hl2.
  { subst l2. destruct (count_usable (mark_usable (lt_list lt)) =? 0); [by right|by left]. }
  assert (length l2 = length (lt_list lt)) as Hlen2.
  { destruct Hl2 as [->| ->]; unfold mark_full, mark_usable; by rewrite ?length_map. }
  clearbody l2. set (n := count_usable l2) in *.
  destruct (Z.eqb_spec n 0) as [|Hne]; [done|].
  assert (0 < n <= UINT32_MAX) as Hnb.
  { pose proof (count_usable_nonneg l2). unfold n, count_usable in *.
    pose proof (List.filter_length_le usable l2). lia. }
  set (chunk := UINT32_MAX `div` n) in *. set (k := dht_selfheal_layout_alloc_start lt path) in *.
  assert (0 < chunk) as Hch by (apply Z.div_str_pos; lia).
  assert (chunk * n <= UINT32_MAX) as Hcn by (rewrite Z.mul_comm; apply Z.mul_div_le; lia).
  assert (n = count_usable (take k l2) + count_usable (drop k l2)) as Hsum.
  { unfold n. by rewrite <-count_usable_app, take_drop. }
  pose proof (count_usable_nonneg (take k l2)). pose proof (count_usable_nonneg (drop k l2)).
  destruct (give_chunks chunk (drop k l2) 0 n) as [[back s] c] eqn:Hb.
  destruct (give_chunks chunk (take k l2) s c) as [[front s'] c'] eqn:Hf. injection Hn as <-.
  destruct (give_chunks_tiles chunk n (drop k l2) 0 n back s c Hch Hcn) as (Hc & He & Hx & Hs & Ht);
    [lia|lia|lia|done|].
  exists front, back, l2. split; [done|].
  assert (map le_err front = map le_err (take k l2) /\ map le_xlator front = map le_xlator (take k l2) /\
    tiles (if c =? 0 then UINT32_MAX + 1 else s) (usables front) (UINT32_MAX + 1)) as (He' & Hx' & Ht').
  { destruct (Z.eqb_spec c 0) as [Hc0|Hc0].
    - assert (count_usable (take k l2) = 0) as Hz by lia.
      assert (usables (take k l2) = []) as Hnil.
      { apply length_zero_iff_nil. unfold count_usable, usables in *. lia. }
      rewrite give_chunks_none in Hf by done. injection Hf as <- _ _. by rewrite Hnil.
    - destruct (give_chunks_tiles chunk n (take k l2) s c front s' c' Hch Hcn)
        as (Hc' & ? & ? & _ & Ht'); [apply Hs; lia|lia|lia|done|].
      split_and!; [done..|]. specialize (Ht' ltac:(lia)).
      destruct (Z.eqb_spec c' 0); [done|lia]. }
  split_and!; [|done| |].
  - eapply tiles_app; [apply Ht; lia|done].
  - rewrite map_app, He, He', <-map_app, take_drop. done.
  - rewrite map_app, Hx, Hx', <-map_app, take_drop. done.
Qed.

Lemma new_directory_stops lt path lt' :
  dht_selfheal_layout_new_directory lt path = Some lt' ->
  Z.of_nat (length (lt_list lt)) < 2 ^ 31 ->
  Forall (fun en => usable en = true -> 0 < le_stop en) (lt_list lt').
Proof.
  unfold dht_selfheal_layout_new_directory. cbv zeta. intros Hn Hlen.
  set (l2 := if count_usable (mark_usable (lt_list lt)) =? 0 then _ else _) in Hn.
  assert (length l2 = length (lt_list lt)) as Hlen2.
  { subst l2. destruct (count_usable (mark_usable (lt_list lt)) =? 0); unfold mark_full, mark_usable; by rewrite ?length_map. }
  clearbody l2. set (n := count_usable l2) in *.
  destruct (Z.eqb_spec n 0) as [|Hne]; [done|].
  assert (0 < n < 2 ^ 31) as Hnb.
  { pose proof (count_usable_nonneg l2). unfold n, count_usable in *.
    pose proof (List.filter_length_le usable l2). lia. }
  set (chunk := UINT32_MAX `div` n) in *. set (k := dht_selfheal_layout_alloc_start lt path) in *.
  assert (1 < chunk) as Hch.
  { assert (2 <= chunk); [|lia]. apply Z.div_le_lower_bound; unfold UINT32_MAX; lia. }
  assert (chunk * n <= UINT32_MAX) as Hcn by (rewrite Z.mul_comm; apply Z.mul_div_le; lia).
  assert (n = count_usable (take k l2) + count_usable (drop k l2)) as Hsum.
  { unfold n. by rewrite <-count_usable_app, take_drop. }
  pose proof (count_usable_nonneg (take k l2)). pose proof (count_usable_nonneg (drop k l2)).
  destruct (give_chunks chunk (drop k l2) 0 n) as [[back s] c] eqn:Hb.
  destruct (give_chunks chunk (take k l2) s c) as [[front s'] c'] eqn:Hf. injection Hn as <-.
  destruct (give_chunks_tiles chunk n (drop k l2) 0 n back s c) as (Hc & _ & _ & Hs & _); [lia..|done|].
  simpl. apply Forall_app. split; [|eapply (give_chunks_stops chunk n (drop k l2)); [..|exact Hb]; lia].
  destruct (Z.eqb_spec c 0) as [Hc0|Hc0]; [|eapply (give_chunks_stops chunk n (take k l2)); [..|exact Hf]; try apply Hs; lia].
  rewrite give_chunks_none in Hf by (apply length_zero_iff_nil; unfold count_usable, usables in *; lia).
  injection Hf as <- _ _. apply Forall_forall. intros e He Hue. exfalso.
  eapply (usables_nil (take k l2) e); [|done..]. unfold count_usable in *. lia.
Qed.

Lemma filter_filter_and {A} (f g : A -> bool) (l : list A) :
  List.filter (fun x => f x && g x) l = List.filter g (List.filter f l).
Proof.
  induction l as [|a l IH]; simpl; [done|]. destruct (f a); simpl; [|done].
  by destruct (g a); rewrite IH.
Qed.

Lemma filter_none {A} (f : A -> bool) (l : list A) :
  Forall (fun e => f e = false) l -> List.filter f l = [].
Proof. induction 1 as [|a l Ha _ IH]; simpl; [done|]. by rewrite Ha. Qed.

(** Exactly one usable entry holds a hash. *)
Lemma tiles_count front back hash :
  tiles 0 (usables back ++ usables front) (UINT32_MAX + 1) -> is_u32 hash ->
  length (List.filter (fun en => usable en && entry_has hash en) (front ++ back)) = 1%nat.
Proof.
  intros Ht Hh. destruct (tiles_unique 0 _ _ hash Ht) as (l1 & en & l2 & Heq & Hen & Hf).
  { unfold is_u32, UINT32_MAX in *. lia. }
  rewrite List.filter_app, !filter_filter_and, length_app, Nat.add_comm.
  fold (usables back) (usables front). rewrite <-length_app, <-List.filter_app, Heq.
  rewrite List.filter_app. simpl. rewrite Hen. apply Forall_app in Hf as [H1 H2].
  rewrite !filter_none by done. done.
Qed.

(** ** Hash values are 32-bit *)

Lemma lxor_u32 a b : is_u32 a -> is_u32 b -> is_u32 (Z.lxor a b).
Proof.
  unfold is_u32. intros Ha Hb.
  assert (forall x i, 0 <= x < 2 ^ 32 -> 32 <= i -> Z.testbit x i = false) as Hhigh.
  { intros x i Hx Hi. rewrite <-(Z.mod_small x (2 ^ 32)) by done. by apply Z.mod_pow2_bits_high; lia. }
  assert (Z.lxor a b = Z.lxor a b `mod` 2 ^ 32) as ->; [|by apply Z.mod_pos_bound].
  apply Z.bits_inj'. intros i Hi. destruct (Z.ltb_spec i 32).
  - by rewrite Z.mod_pow2_bits_low.
  - rewrite Z.mod_pow2_bits_high, Z.lxor_spec by lia. by rewrite !Hhigh.
Qed.

Lemma dm_round_u32 n q h0 h1 a b : dm_round n q h0 h1 = (a, b) -> is_u32 a /\ is_u32 b.
Proof.
  unfold dm_round. destruct (dm_loop n q 0 h0 h1). intros [= <- <-].
  split; apply u32_range.
Qed.

Lemma gf_dm_hashfn_u32 msg : is_u32 (gf_dm_hashfn msg).
Proof.
  unfold gf_dm_hashfn. destruct (dm_quads _ _ _ _) as [[rest h0] h1].
  do 4 destruct (dm_last_word _ _). destruct (dm_round _ _ h0 h1) eqn:Hr.
  apply dm_round_u32 in Hr as [? ?]. by apply lxor_u32.
Qed.

(** ** Healed layouts are clean *)

Definition all_ok (l : list layout_entry) : Prop := Forall (fun en => le_err en = 0) l.

Lemma anomalies_tiles l s t a v :
  all_ok l -> tiles s l t -> 0 <= s -> t <= UINT32_MAX + 1 ->
  anomalies_loop l (u32 (s - 1)) a v =
  (if decide (l = []) then u32 (s - 1) else t - 1, a, if decide (l = []) then v else false).
Proof.
  destruct a as [h o mi d ms].
  revert s v. induction l as [|en l IH]; intros s v Hok Ht Hs Hmax; simpl; [done|].
  apply Forall_cons in Hok as [He Hok]. destruct Ht as (Hst & Hle & Ht).
  pose proof (tiles_le _ _ _ Ht) as Htl. rewrite He. simpl.
  assert (u32 (u32 (s - 1) + 1) = s) as ->.
  { unfold u32, UINT32_MAX in *. rewrite Zplus_mod_idemp_l. rewrite Z.mod_small; lia. }
  rewrite Hst. rewrite Z.ltb_irrefl. simpl. rewrite !Z.add_0_r.
  assert (le_stop en = u32 (le_stop en + 1 - 1)) as Hstop.
  { unfold u32, UINT32_MAX in *. rewrite Z.mod_small; lia. }
  rewrite Hstop at 1. rewrite IH by (done || lia). do 2 f_equal.
  - case_decide as Hn; [|done]. subst l. simpl in Ht. rewrite <-Hstop. f_equal. lia.
  - by case_decide.
Qed.

Lemma tiles_bounds s l t : tiles s l t -> Forall (fun e => s <= le_start e /\ le_start e <= le_stop e < t) l.
Proof.
  revert s. induction l as [|en l IH]; intros s; simpl; [constructor|]. intros (? & ? & Ht).
  pose proof (tiles_le _ _ _ Ht). constructor; [lia|].
  eapply Forall_impl; [by apply IH|]. simpl. intros. lia.
Qed.

Lemma tiles_start_inj s l t x y :
  tiles s l t -> x ∈ l -> y ∈ l -> le_start x = le_start y -> x = y.
Proof.
  revert s. induction l as [|en l IH]; intros s; simpl; [by intros _ ?%elem_of_nil|].
  intros (? & ? & Ht) Hx Hy Heq. pose proof (tiles_bounds _ _ _ Ht) as Hb.
  rewrite Forall_forall in Hb.
  apply elem_of_cons in Hx as [->|Hx], Hy as [->|Hy]; eauto.
  - specialize (Hb _ Hy). simpl in Hb. lia.
  - specialize (Hb _ Hx). simpl in Hb. lia.
Qed.

Lemma tiles_sorted s l t :
  all_ok l -> tiles s l t -> StronglySorted (le_cmp dht_layout_entry_cmp) l.
Proof.
  revert s. induction l as [|en l IH]; intros s Hok; simpl; [constructor|]. intros (? & ? & Ht).
  apply Forall_cons in Hok as [He Hok]. constructor; [by eapply IH|].
  apply Forall_forall. intros y Hy. pose proof (tiles_bounds _ _ _ Ht) as Hb.
  rewrite Forall_forall in Hb. specialize (Hb _ Hy). unfold all_ok in Hok.
  rewrite Forall_forall in Hok. unfold le_cmp, dht_layout_entry_cmp.
  rewrite He, (Hok y Hy). simpl in *. lia.
Qed.

(** A layout whose ranges tile the hash space in some order sorts clean. *)
Lemma tiles_normalize lt l :
  all_ok l -> l <> [] -> lt_list lt ≡ₚ l -> tiles 0 l (UINT32_MAX + 1) ->
  dht_layout_normalize lt = (set_list l lt, 0) /\
  dht_layout_anomalies (set_list l lt) = mk_anomalies 0 0 0 0 0.
Proof.
  intros Hok Hne Hp Ht.
  assert (sort_entries dht_layout_entry_cmp (lt_list lt) = l) as Hs.
  { destruct (sort_entries_spec dht_layout_entry_cmp (lt_list lt)) as [Hsp Hss].
    eapply (StronglySorted_unique_strong (le_cmp dht_layout_entry_cmp)).
    - intros x y Hx Hy Hxy Hyx. rewrite Hsp, Hp in Hx. unfold all_ok in Hok.
      rewrite Forall_forall in Hok. unfold le_cmp, dht_layout_entry_cmp in *.
      rewrite (Hok x Hx), (Hok y Hy) in *. simpl in *.
      eapply tiles_start_inj; [exact Ht|done..|lia].
    - done.
    - by eapply tiles_sorted.
    - by rewrite Hsp. }
  assert (dht_layout_anomalies (set_list l lt) = mk_anomalies 0 0 0 0 0) as Ha.
  { unfold dht_layout_anomalies. simpl. destruct l as [|en l]; [done|].
    pose proof Ht as (Hst & _). rewrite Hst.
    rewrite (anomalies_tiles (en :: l) 0 (UINT32_MAX + 1)) by (done || lia).
    rewrite !decide_False by done. done. }
  split; [|done]. unfold dht_layout_normalize, dht_layout_sort. rewrite Hs, Ha. simpl.
  assert (existsb (fun en => le_err en =? ENOENT) l = false) as ->; [|done].
  apply not_true_is_false. rewrite existsb_exists. intros (en & Hin%list_elem_of_In & He%Z.eqb_eq).
  unfold all_ok in Hok. rewrite Forall_forall in Hok. rewrite (Hok en Hin) in He. done.
Qed.

(** ** Writing the ranges out *)

(** The layout in memory after every setxattr call of [dht_selfheal_dir_xattr] has
    succeeded. *)
Definition xattrs_written (lt : dht_layout) : dht_layout :=
  foldl (fun lt p => match fst p with
                     | Some sv => dht_selfheal_dir_xattr_cbk lt sv 0 0
                     | None => lt
                     end) lt (dht_selfheal_dir_xattr lt).

(** Every entry is for a subvolume, no two for the same. *)
Definition named (l : list layout_entry) : Prop :=
  Forall (fun en => is_Some (le_xlator en)) l /\ NoDup (map le_xlator l).

Lemma set_err_of_skip sv err l1 l2 :
  ~ (Some sv ∈ map le_xlator l1) -> set_err_of sv err (l1 ++ l2) = l1 ++ set_err_of sv err l2.
Proof.
  induction l1 as [|en l1 IH]; simpl; [done|]. intros Hn.
  rewrite bool_decide_eq_false_2 by (intros Heq; apply Hn; rewrite Heq; by left).
  f_equal. apply IH. intros ?. apply Hn. by right.
Qed.

(** The xattr of an entry. *)
Definition disk_of (lt : dht_layout) (en : layout_entry) : list Z :=
  [hton32 1; hton32 (type_code (lt_type lt)); hton32 (le_start en); hton32 (le_stop en)].

Lemma fold_set_err f l1 l2 lt :
  named (l1 ++ l2) -> lt_list lt = map (le_set_err 0) l1 ++ l2 ->
  foldl (fun lt p => match fst p with
                     | Some sv => dht_selfheal_dir_xattr_cbk lt sv 0 0
                     | None => lt
                     end) lt (map (fun en => (le_xlator en, f en : list Z)) l2) =
  set_list (map (le_set_err 0) (l1 ++ l2)) lt.
Proof.
  revert l1 lt. induction l2 as [|en l2 IH]; intros l1 lt [Hs Hnd] Hlt; simpl.
  { rewrite app_nil_r in *. destruct lt. simpl in *. by rewrite Hlt. }
  apply Forall_app in Hs as [Hs1 [[sv Hsv] Hs2]%Forall_cons]. rewrite Hsv.
  assert (~ (Some sv ∈ map le_xlator (map (le_set_err 0) l1))) as Hn.
  { rewrite map_map. simpl. change (map (fun x => le_xlator x) l1) with (map le_xlator l1).
    rewrite map_app in Hnd. simpl in Hnd. rewrite Hsv in Hnd.
    apply NoDup_app in Hnd as (_ & Hd & _). intros Hin. apply (Hd _ Hin). left. }
  rewrite (IH (l1 ++ [en])).
  - unfold dht_selfheal_dir_xattr_cbk. simpl. by rewrite <-app_assoc.
  - rewrite <-app_assoc. split; [|done]. simpl. apply Forall_app. split; [done|].
    constructor; [by rewrite Hsv|done].
  - unfold dht_selfheal_dir_xattr_cbk. simpl. rewrite Hlt, set_err_of_skip by done.
    rewrite map_app, <-app_assoc. simpl. rewrite bool_decide_eq_true_2 by done. done.
Qed.

Lemma dir_xattr_all lt :
  Forall (fun en => needs_xattr en = true) (lt_list lt) ->
  dht_selfheal_dir_xattr lt = map (fun en => (le_xlator en, disk_of lt en)) (lt_list lt).
Proof.
  intros Hall. unfold dht_selfheal_dir_xattr.
  set (f i := en ← lt_list lt !! i; if needs_xattr en then
    disk ← dht_disk_layout_extract true lt i; Some (le_xlator en, disk) else None).
  assert (forall k l, drop k (lt_list lt) = l ->
    omap f (seq k (length l)) = map (fun en => (le_xlator en, disk_of lt en)) l) as Hgen.
  { intros k l. revert k. induction l as [|en l IH]; intros k Hd; [done|].
    assert (lt_list lt !! k = Some en) as Hk.
    { rewrite <-(Nat.add_0_r k), <-lookup_drop, Hd. done. }
    rewrite Forall_lookup in Hall.
    assert (f k = Some (le_xlator en, disk_of lt en)) as Hf.
    { unfold f, dht_disk_layout_extract. rewrite Hk. simpl. by rewrite (Hall _ _ Hk). }
    change (omap f (seq k (length (en :: l)))) with
      (match f k with
       | Some y => y :: omap f (seq (S k) (length l))
       | None => omap f (seq (S k) (length l))
       end).
    rewrite Hf. simpl. f_equal. apply IH. by rewrite <-Nat.add_1_r, <-drop_drop, Hd. }
  by apply (Hgen O).
Qed.

Lemma xattrs_written_all lt :
  Forall (fun en => needs_xattr en = true) (lt_list lt) -> named (lt_list lt) ->
  xattrs_written lt = set_list (map (le_set_err 0) (lt_list lt)) lt.
Proof. intros Hall Hn. unfold xattrs_written. rewrite dir_xattr_all by done. by apply (fold_set_err _ [] (lt_list lt) lt). Qed.

(** ** Reading the ranges back *)

(** The layout that a lookup of the directory builds: a new one of [cnt] entries,
    into which the answer of every subvolume, with the xattr it has, is merged
    ([dht_lookup_dir_cbk]). *)
Definition lookup_layout (gen : Z) (cnt : nat) (answers : list (string * list Z)) : option dht_layout :=
  lt ← dht_layout_new true gen cnt;
  Some (foldl (fun lt a => fst (dht_layout_merge lt (fst a) 0 0 (Some (snd a)))) lt answers).

(** The range of an entry is one. *)
Definition range_ok (en : layout_entry) : Prop :=
  0 <= le_start en <= le_stop en /\ le_stop en <= UINT32_MAX.

Lemma merge_slot_free i l rest :
  Forall (fun en => is_Some (le_xlator en)) l -> merge_slot i (l ++ entry0 :: rest) = (i + length l)%nat.
Proof.
  revert i. induction l as [|e l IH]; intros i Hl; cbn [app length]; [by rewrite Nat.add_0_r|].
  apply Forall_cons in Hl as [[sv Hsv] Hl]. cbn [merge_slot]. rewrite Hsv, IH by done. lia.
Qed.

(** The xattr of an entry, merged into a layout with a free slot, fills the slot. *)
Lemma merge_disk lt lt0 l rest en sv :
  Forall (fun en => is_Some (le_xlator en)) l -> lt_list lt = l ++ entry0 :: rest -> range_ok en ->
  fst (dht_layout_merge lt sv 0 0 (Some (disk_of lt0 en))) =
  set_list (l ++ mk_entry 0 (le_start en) (le_stop en) (Some sv) :: rest) lt.
Proof.
  intros Hl Hlt [Hr1 Hr2]. unfold dht_layout_merge, dht_disk_layout_merge, disk_of. cbn [nth].
  assert (is_u32 (le_start en) /\ is_u32 (le_stop en)) as [Hu1 Hu2] by (unfold is_u32, UINT32_MAX in *; lia).
  rewrite !ntoh32_hton32, (u32_small (le_start en)), (u32_small (le_stop en)) by done.
  rewrite (u32_i32 _ Hu1), (u32_i32 _ Hu2). rewrite Hlt, merge_slot_free by done. cbn -[alter].
  change (i32 (u32 1)) with 1. cbn -[alter].
  rewrite !alter_app_r_alt, Nat.sub_diag by lia. done.
Qed.

Lemma tiles_range_ok s l : 0 <= s -> tiles s l (UINT32_MAX + 1) -> Forall range_ok l.
Proof.
  revert s. induction l as [|en l IH]; intros s Hs; cbn [tiles]; [constructor|]. intros (E & Hle & Ht).
  constructor; [|apply (IH (le_stop en + 1)); [lia|done]]. apply tiles_le in Ht. unfold range_ok. lia.
Qed.

Lemma lookup_reads gen lt ens svs :
  Forall range_ok ens -> map Some svs = map le_xlator ens ->
  exists lt', lookup_layout gen (length ens) (zip svs (map (disk_of lt) ens)) = Some lt' /\ lt_list lt' = map (le_set_err 0) ens.
Proof.
  intros Hr Hsv. unfold lookup_layout. cbn [dht_layout_new mbind option_bind]. eexists. split; [done|].
  set (new := mk_layout _ _ _ _ _).
  assert (forall l lt1, Forall (fun en => is_Some (le_xlator en)) l -> lt_list lt1 = l ++ replicate (length ens) entry0 ->
    lt_list (foldl (fun lt a => fst (dht_layout_merge lt (fst a) 0 0 (Some (snd a)))) lt1 (zip svs (map (disk_of lt) ens))) =
    l ++ map (le_set_err 0) ens) as Hgen; [|by apply (Hgen [] new)].
  clear new. revert svs Hsv. induction Hr as [|en ens Hen Hr IH]; intros svs Hsv l lt1 Hl Hlt.
  - destruct svs; [|done]. simpl in *. by rewrite app_nil_r in *.
  - destruct svs as [|sv svs]; [done|]. injection Hsv as Hsv1 Hsv2. cbn [map zip_with foldl fst snd].
    erewrite merge_disk; [|exact Hl|exact Hlt|exact Hen]. replace (mk_entry 0 (le_start en) (le_stop en) (Some sv)) with (le_set_err 0 en)
      by (unfold le_set_err; by rewrite Hsv1).
    rewrite (IH svs Hsv2 (l ++ [le_set_err 0 en])); [by rewrite <-app_assoc| |cbn [lt_list set_list]; by rewrite <-app_assoc].
    apply Forall_app. split; [done|]. constructor; [|done]. cbn. rewrite <-Hsv1. eauto.
Qed.

(** ** What a clean layout looks like *)

Definition full_range (en : layout_entry) : Prop := le_start en = 0 /\ le_stop en = UINT32_MAX.

(** Each range starts where the one before it stops, in 32-bit arithmetic. *)
Fixpoint chained (prev : Z) (l : list layout_entry) (last : Z) : Prop :=
  match l with
  | [] => prev = last
  | en :: l' => le_start en = u32 (prev + 1) /\ chained (le_stop en) l' last
  end.

Lemma anomalies_mono l p a v p' a' v' :
  anomalies_loop l p a v = (p', a', v') -> hole_cnt a <= hole_cnt a' /\ overlap_cnt a <= overlap_cnt a'.
Proof.
  revert p a v. induction l as [|en l IH]; intros p a v; simpl; [by intros [= <- <- <-]|].
  destruct (negb (le_err en =? 0)); intros H%IH.
  - repeat case_match; simpl in H; lia.
  - simpl in H. repeat case_match; lia.
Qed.

Lemma anomalies_chained l p a v p' a' v' :
  all_ok l -> anomalies_loop l p a v = (p', a', v') ->
  hole_cnt a' = hole_cnt a -> overlap_cnt a' = overlap_cnt a -> chained p l p'.
Proof.
  intros Hok. revert p a v. induction Hok as [|en l He Hok IH]; intros p a v; simpl.
  { by intros [= <- <- <-]. }
  rewrite He. simpl. intros H Hh Ho. pose proof (anomalies_mono _ _ _ _ _ _ _ H) as [Hm1 Hm2].
  simpl in Hm1, Hm2.
  destruct (Z.ltb_spec (u32 (p + 1)) (le_start en)), (Z.ltb_spec (le_start en) (u32 (p + 1))); try lia.
  split; [lia|]. eapply IH; [exact H|simpl; lia..].
Qed.

(** Sorted ranges that chain up, none of them the full one, tile. *)
Lemma chained_tiles l p q :
  chained p l q -> l <> [] -> Forall range_ok l -> StronglySorted (fun x y => le_start x <= le_start y) l ->
  Forall (fun en => ~ full_range en) l \/ length l = 1%nat ->
  exists s, s = u32 (p + 1) /\ tiles s l (q + 1).
Proof.
  intros Hc Hne Hr Hs Hf. eexists. split; [done|]. revert p Hc Hne Hr Hs Hf.
  induction l as [|x l IH]; intros p Hc Hne Hr Hs Hf; [done|]. simpl in Hc. destruct Hc as [Hx Hc].
  apply Forall_cons in Hr as [Hrx Hr]. inversion Hs as [|? ? Hs' Hle]; subst.
  simpl. split_and!; [done|unfold range_ok in Hrx; lia|].
  destruct l as [|y l]; [simpl in *; lia|].
  assert (le_stop x < UINT32_MAX) as Hlt.
  { destruct (Z.eq_dec (le_stop x) UINT32_MAX) as [Hmax|]; [|unfold range_ok in Hrx; lia]. exfalso.
    destruct Hf as [Hf|Hf]; [|simpl in Hf; lia]. apply Forall_cons in Hf as [Hf _]. apply Hf. split; [|done].
    apply Forall_cons in Hle as [Hle _]. simpl in Hc. destruct Hc as [Hy _]. rewrite Hmax in Hy.
    assert (u32 (UINT32_MAX + 1) = 0) as Hz by done. unfold range_ok in Hrx. lia. }
  assert (u32 (le_stop x + 1) = le_stop x + 1) as Hu.
  { apply u32_small. unfold is_u32, range_ok, UINT32_MAX in *. lia. }
  rewrite <-Hu. apply IH; [done..|]. left. destruct Hf as [Hf|Hf]; [by apply Forall_cons in Hf as [_ Hf]|simpl in Hf; lia].
Qed.

Lemma chained_last l p q : chained p l q -> l <> [] -> Forall range_ok l -> 0 <= q <= UINT32_MAX.
Proof.
  revert p. induction l as [|x l IH]; intros p Hc Hne Hr; [done|]. simpl in Hc. destruct Hc as [_ Hc].
  apply Forall_cons in Hr as [Hx Hr]. destruct l as [|y l].
  - simpl in Hc. subst q. unfold range_ok in Hx. lia.
  - by eapply IH.
Qed.

Lemma chained_first_zero l q en l' :
  l = en :: l' -> Forall range_ok l -> StronglySorted (fun x y => le_start x <= le_start y) l ->
  tiles (le_start en) l (q + 1) -> q = u32 (le_start en - 1) -> le_start en = 0 /\ q = UINT32_MAX.
Proof.
  intros -> Hr Hs Ht ->. pose proof (tiles_le _ _ _ Ht) as Hle.
  assert (le_start en < u32 (le_start en - 1) + 1) as Hlt.
  { simpl in Ht. destruct Ht as (_ & ? & Ht). apply tiles_le in Ht. lia. }
  apply Forall_cons in Hr as [Hr _]. unfold range_ok, UINT32_MAX in *.
  destruct (Z.eq_dec (le_start en) 0) as [->|Hz]; [done|].
  rewrite u32_small in Hlt by (unfold is_u32; lia). lia.
Qed.

Lemma anomalies_virgin_false l p a v p' a' v' :
  all_ok l -> l <> [] -> anomalies_loop l p a v = (p', a', v') -> v' = false.
Proof.
  intros Hok. revert p a v. induction Hok as [|en l He Hok IH]; intros p a v Hne; [done|]. simpl.
  rewrite He. simpl. destruct l as [|en' l]; [by intros [= <- <- <-]|]. by apply IH.
Qed.

(** [sort_entries] on entries without errors sorts the starts. *)
Lemma sort_entries_starts l :
  all_ok l -> StronglySorted (fun x y => le_start x <= le_start y) (sort_entries dht_layout_entry_cmp l).
Proof.
  intros Hok. destruct (sort_entries_spec dht_layout_entry_cmp l) as [Hp Hs].
  assert (all_ok (sort_entries dht_layout_entry_cmp l)) as Hok'
    by (unfold all_ok; rewrite Hp; exact Hok).
  clear Hp. induction Hs as [|x l' Hs IH Hle]; [constructor|].
  apply Forall_cons in Hok' as [Hx Hok']. constructor; [by apply IH|].
  rewrite Forall_forall in Hle, Hok' |- *. intros y Hy. specialize (Hle y Hy).
  unfold le_cmp, dht_layout_entry_cmp in Hle. rewrite Hx, (Hok' y Hy) in Hle. simpl in Hle. lia.
Qed.

(** The anomaly count is exact, up to ranges that span the whole space. *)
Lemma normalize_clean lt :
  all_ok (lt_list lt) -> lt_list lt <> [] -> Forall range_ok (lt_list lt) ->
  Forall (fun en => ~ full_range en) (lt_list lt) \/ length (lt_list lt) = 1%nat ->
  snd (dht_layout_normalize lt) = 0 ->
  tiles 0 (lt_list (dht_layout_sort lt)) (UINT32_MAX + 1).
Proof.
  intros Hok Hne Hr Hf Hn.
  pose proof (sort_entries_starts _ Hok) as Hs.
  destruct (sort_entries_spec dht_layout_entry_cmp (lt_list lt)) as [Hp _].
  unfold dht_layout_normalize, dht_layout_anomalies, dht_layout_sort in *. cbn [lt_list set_list snd] in *.
  set (l := sort_entries dht_layout_entry_cmp (lt_list lt)) in *.
  assert (all_ok l) as Hok' by (unfold all_ok; rewrite Hp; exact Hok).
  assert (Forall range_ok l) as Hr' by (rewrite Hp; exact Hr).
  assert (Forall (fun en => ~ full_range en) l \/ length l = 1%nat) as Hf' by (rewrite Hp; exact Hf).
  assert (l <> []) as Hne' by (intros Hl; rewrite Hl in Hp; by apply Permutation_nil_l in Hp).
  clearbody l. destruct l as [|en l]; [done|].
  destruct (anomalies_loop (en :: l) _ _ _) as [[q a] v] eqn:Hl.
  pose proof (anomalies_virgin_false _ _ _ _ _ _ _ Hok' Hne' Hl) as ->.
  pose proof (anomalies_mono _ _ _ _ _ _ _ Hl) as [Hm1 Hm2]. simpl in Hm1, Hm2.
  destruct (Z.eqb_spec (u32 (u32 (le_start en - 1) - q)) 0) as [Hq|Hq]; simpl in Hn.
  2:{ destruct (Z.eqb_spec (hole_cnt a + 1) 0); [lia|done]. }
  destruct (Z.eqb_spec (hole_cnt a) 0) as [Hh|]; [|done].
  destruct (Z.eqb_spec (overlap_cnt a) 0) as [Ho|]; [|done].
  pose proof (anomalies_chained _ _ _ _ _ _ _ Hok' Hl Hh Ho) as Hc.
  destruct (chained_tiles _ _ _ Hc Hne' Hr' Hs Hf') as (s & -> & Ht).
  pose proof (chained_last _ _ _ Hc Hne' Hr') as Hqr.
  assert (le_start en = u32 (u32 (le_start en - 1) + 1)) as Hst by (simpl in Hc; tauto).
  rewrite <-Hst in Ht.
  destruct (chained_first_zero (en :: l) q en l) as [H0 H1]; [done..| |].
  - unfold u32 in Hq |- *. unfold UINT32_MAX in *.
    pose proof (Z.mod_pos_bound (le_start en - 1) (2 ^ 32) ltac:(lia)).
    apply Z.mod_divide in Hq; [|lia]. destruct Hq as [z Hz]. nia.
  - by rewrite H0, H1 in Ht.
Qed.

(** ** Sorting by any comparison *)

Lemma sort_entries_perm cmp l : sort_entries cmp l ≡ₚ l.
Proof.
  unfold sort_entries. generalize (length l) as n. intros n. revert l.
  induction n as [|n IH]; intros [|x l]; simpl; [done..|].
  destruct (sort_inner cmp x l) as [m r] eqn:Hi. apply sort_inner_perm in Hi. by rewrite Hi, IH.
Qed.

(** ** Conversions *)

Lemma subvol_index_spec svs sv i :
  sv ∈ svs -> exists k, (k < length svs)%nat /\ svs !! k = Some sv /\ subvol_index i svs sv = i + Z.of_nat k.
Proof.
  revert i. induction svs as [|s svs IH]; intros i Hin; [by apply elem_of_nil in Hin|]. simpl.
  destruct (String.eqb_spec sv s) as [->|Hne].
  - exists O. split_and!; [lia|done|lia].
  - apply elem_of_cons in Hin as [?|Hin]; [done|]. destruct (IH (i + 1) Hin) as (k & Hk & Hl & ->).
    exists (S k). split_and!; [lia|done|lia].
Qed.

Lemma strrchr_none c s : ~ (c ∈ s) -> strrchr c s = None.
Proof.
  induction s as [|b s IH]; intros Hn; simpl; [done|]. rewrite not_elem_of_cons in Hn.
  rewrite IH by tauto. destruct (Z.eqb_spec b c); [naive_solver|done].
Qed.

Lemma strrchr_app c s t : ~ (c ∈ t) -> strrchr c (s ++ c :: t) = Some (length s).
Proof.
  intros Ht. induction s as [|b s IH]; simpl.
  - rewrite strrchr_none by done. by rewrite Z.eqb_refl.
  - by rewrite IH.
Qed.

Lemma rsync_strips base suffix :
  base <> [] -> suffix <> [] -> ~ (dot ∈ suffix) ->
  rsync_friendly_name (dot :: base ++ dot :: suffix) = base.
Proof.
  intros Hb Hs Hd. unfold rsync_friendly_name. rewrite Z.eqb_refl.
  change (dot :: base ++ dot :: suffix) with ((dot :: base) ++ dot :: suffix).
  rewrite strrchr_app by done. destruct base as [|b base]; [done|]. destruct suffix as [|s suffix]; [done|].
  rewrite length_app. cbn [length].
  destruct (Z.ltb_spec 1 (Z.of_nat (S (S (length base))))); [|lia].
  destruct (Z.ltb_spec (Z.of_nat (S (S (length base))) + 1)
              (Z.of_nat (S (S (length base)) + S (S (length suffix))))); [|lia].
  cbn [andb]. simpl. by rewrite take_app_length.
Qed.

Lemma rsync_plain name : head name <> Some dot -> rsync_friendly_name name = name.
Proof.
  destruct name as [|b name]; [done|]. simpl. intros Hh. destruct (Z.eqb_spec b dot); [congruence|done].
Qed.

(** ** When a new layout cannot be formed *)

Lemma count_usable_zero l : count_usable l = 0 <-> Forall (fun en => usable en = false) l.
Proof.
  split.
  - intros Hc. apply Forall_forall. intros en Hen. destruct (usable en) eqn:Hu; [|done].
    exfalso. by eapply usables_nil.
  - induction 1 as [|en l Hu _ IH]; [done|]. rewrite count_usable_cons, Hu, IH. lia.
Qed.

(** [None] means that no entry has a directory, on a full subvolume or not. *)
Lemma new_directory_None lt path :
  dht_selfheal_layout_new_directory lt path = None <->
  Forall (fun en => le_err en <> -1 /\ le_err en <> 0 /\ le_err en <> ENOSPC) (lt_list lt).
Proof.
  assert (dht_selfheal_layout_new_directory lt path = None <->
          count_usable (mark_usable (lt_list lt)) = 0 /\
          count_usable (mark_full (mark_usable (lt_list lt))) = 0) as ->.
  { unfold dht_selfheal_layout_new_directory. cbv zeta.
    destruct (Z.eqb_spec (count_usable (mark_usable (lt_list lt))) 0) as [Hz|Hz].
    - destruct (Z.eqb_spec (count_usable (mark_full (mark_usable (lt_list lt)))) 0); [done|].
      split; [|naive_solver]. destruct (give_chunks _ (drop _ _) _ _) as [[? ?] ?].
      by destruct (give_chunks _ _ _ _) as [[? ?] ?].
    - destruct (Z.eqb_spec (count_usable (mark_usable (lt_list lt))) 0); [lia|].
      split; [|naive_solver]. destruct (give_chunks _ (drop _ _) _ _) as [[? ?] ?].
      by destruct (give_chunks _ _ _ _) as [[? ?] ?]. }
  rewrite !count_usable_zero. unfold mark_full, mark_usable. rewrite !Forall_map, <-Forall_and.
  apply Forall_proper; [|done]. intros en. unfold usable, ENOSPC. simpl.
  destruct (Z.eqb_spec (le_err en) (-1)) as [He|He], (Z.eqb_spec (le_err en) 0) as [H0|H0]; simpl;
    try (split; [intros [? _]; lia|lia]).
  destruct (Z.eqb_spec (le_err en) 28), (Z.eqb_spec (le_err en) (-1)); simpl; try lia;
    split; intros; try split_and!; try done; naive_solver.
Qed.

(** After a new layout another can be formed. *)
Lemma new_directory_again lt path lt' path' :
  Z.of_nat (length (lt_list lt)) <= UINT32_MAX ->
  dht_selfheal_layout_new_directory lt path = Some lt' ->
  dht_selfheal_layout_new_directory lt' path' <> None.
Proof.
  intros Hlen Hn Hno. apply new_directory_None in Hno.
  pose proof (new_directory_tiles _ _ _ Hn Hlen) as (front & back & _ & -> & Ht & _).
  assert (usables (front ++ back) = []) as Hnil.
  { apply filter_none, Forall_forall. intros en Hen. simpl in Hno. rewrite Forall_forall in Hno.
    specialize (Hno en Hen). unfold usable. destruct (Z.eqb_spec (le_err en) (-1)); [lia|done]. }
  rewrite usables_app in Hnil. apply app_eq_nil in Hnil as [Hf Hb]. rewrite Hf, Hb in Ht.
  simpl in Ht. unfold UINT32_MAX in Ht. lia.
Qed.

(** The counts of the anomalies tell the errors apart. *)
Lemma anomalies_errors l p a v p' a' v' :
  anomalies_loop l p a v = (p', a', v') ->
  down a <= down a' /\ misc a <= misc a' /\
  (down a' = down a -> misc a' = misc a ->
   Forall (fun en => le_err en = 0 \/ le_err en = -1 \/ le_err en = ENOENT) l) /\
  (Forall (fun en => le_err en = ENOENT) l -> down a' = down a /\ misc a' = misc a /\ v' = v).
Proof.
  revert p a v. induction l as [|en l IH]; intros p a v; simpl.
  { intros [= <- <- <-]. split_and!; [lia..|constructor|done]. }
  destruct (Z.eqb_spec (le_err en) 0) as [H0|H0]; cbn [negb].
  - intros (Hd & Hm & Hall & Hen)%IH. simpl in *. split_and!; [lia..| |].
    + intros. constructor; [by left|]. by apply Hall.
    + intros [He _]%Forall_cons. unfold ENOENT in He. lia.
  - destruct (Z.eqb_spec (le_err en) (-1)) as [H1|H1]; cbn [orb];
      [|destruct (Z.eqb_spec (le_err en) ENOENT) as [H2|H2]; cbn [orb]; [|case_match]];
      intros (Hd & Hm & Hall & Hen)%IH; simpl in *; (split_and!; [lia..| |]);
      try (intros; lia); try (intros; constructor; [by auto|by apply Hall]);
      intros [He ?]%Forall_cons; try (unfold ENOENT in *; lia); naive_solver.
Qed.

Lemma anomalies_down lt p a v :
  anomalies_loop (lt_list lt) (u32 (match lt_list lt with en :: _ => le_start en | [] => 0 end - 1))
    (mk_anomalies 0 0 0 0 0) true = (p, a, v) ->
  down (dht_layout_anomalies lt) = down a /\ misc (dht_layout_anomalies lt) = misc a /\
  (v = true -> 0 < hole_cnt (dht_layout_anomalies lt)).
Proof.
  intros Hl. pose proof (anomalies_mono _ _ _ _ _ _ _ Hl) as [Hm _]. simpl in Hm.
  unfold dht_layout_anomalies. cbv zeta. rewrite Hl. destruct v; [rewrite orb_true_r; simpl; lia|].
  rewrite orb_false_r. destruct (negb _); simpl; split_and!; done.
Qed.

Lemma sort_volname_Forall (P : layout_entry -> Prop) lt :
  Forall P (lt_list (dht_layout_sort_volname lt)) <-> Forall P (lt_list lt).
Proof. simpl. by rewrite sort_entries_perm. Qed.

Lemma selfheal_enoent_None cnt lt path :
  Forall (fun en => le_err en = ENOENT) (lt_list lt) -> dht_selfheal_directory cnt lt path = None.
Proof.
  intros He. destruct (anomalies_loop (lt_list lt)
    (u32 (match lt_list lt with en :: _ => le_start en | [] => 0 end - 1))
    (mk_anomalies 0 0 0 0 0) true) as [[p a] v] eqn:Hl.
  destruct (anomalies_down _ _ _ _ Hl) as (Hd & Hm & Hv).
  pose proof (anomalies_errors _ _ _ _ _ _ _ Hl) as (_ & _ & _ & Hen).
  destruct (Hen He) as (Hd' & Hm' & ->). simpl in *. specialize (Hv eq_refl).
  assert (dht_selfheal_layout_new_directory (dht_layout_sort_volname lt) path = None) as Hn.
  { apply new_directory_None, sort_volname_Forall. eapply Forall_impl; [exact He|].
    intros en ->. unfold ENOENT, ENOSPC. simpl. lia. }
  unfold dht_selfheal_directory, dht_selfheal_dir_getafix. cbv zeta. rewrite Hd, Hm, Hd', Hm'.
  set (lv := dht_layout_sort_volname lt) in *. clearbody lv. cbn [negb Z.eqb].
  destruct (Z.eqb_spec (hole_cnt (dht_layout_anomalies lt)) 0) as [|_]; [lia|]. cbn [negb orb].
  destruct (_ =? cnt); cbn; by rewrite Hn.
Qed.

Lemma selfheal_None_enoent cnt lt path :
  Z.of_nat (length (lt_list lt)) <= UINT32_MAX ->
  dht_selfheal_directory cnt lt path = None -> Forall (fun en => le_err en = ENOENT) (lt_list lt).
Proof.
  intros Hlen. destruct (anomalies_loop (lt_list lt)
    (u32 (match lt_list lt with en :: _ => le_start en | [] => 0 end - 1))
    (mk_anomalies 0 0 0 0 0) true) as [[p a] v] eqn:Hl.
  destruct (anomalies_down _ _ _ _ Hl) as (Hd & Hm & Hv).
  pose proof (anomalies_errors _ _ _ _ _ _ _ Hl) as (_ & _ & Hall & _). simpl in Hall.
  unfold dht_selfheal_directory, dht_selfheal_dir_getafix. cbv zeta.
  destruct (Z.eqb_spec (down (dht_layout_anomalies lt)) 0) as [Hd0|]; cbn [negb]; [|done].
  destruct (Z.eqb_spec (misc (dht_layout_anomalies lt)) 0) as [Hm0|]; cbn [negb]; [|done].
  specialize (Hall ltac:(lia) ltac:(lia)).
  assert (Z.of_nat (length (lt_list (dht_layout_sort_volname lt))) <= UINT32_MAX) as Hlen'
    by (simpl; rewrite sort_entries_perm; lia).
  assert (dht_selfheal_layout_new_directory (dht_layout_sort_volname lt) path = None ->
          Forall (fun en => le_err en = ENOENT) (lt_list lt)) as Hend.
  { intros Hn%new_directory_None. rewrite sort_volname_Forall in Hn. rewrite !Forall_forall in *.
    intros en Hen. specialize (Hall en Hen). specialize (Hn en Hen). naive_solver. }
  set (lv := dht_layout_sort_volname lt) in *. clearbody lv.
  destruct (dht_selfheal_layout_new_directory lv path) as [lt1|] eqn:H1; [|by intros _; apply Hend].
  pose proof (new_directory_again _ _ _ path Hlen' H1) as H2.
  destruct (_ =? cnt), (_ || _ || _); cbn; rewrite ?H1; cbn;
    try (destruct (dht_selfheal_layout_new_directory lt1 path); [|done]; cbn);
    repeat case_match; done.
Qed.
