(* ===== verification/DhtProps.v ===== *)
(** * cluster/dht: what layouts guarantee

    The theorems about hashing names to subvolumes, each with an instance on a
    concrete layout. *)

From stdpp Require Import base list numbers strings sorting.
From S2P Require Import Prelude ByteOrder HashFn DhtLayout DhtSelfheal DhtFacts.
Open Scope Z_scope.

(** ** Concrete layouts *)

Definition lt0 (l : list layout_entry) : dht_layout := mk_layout l false 0 DHT_HASH_TYPE_DM 1.

(** Three subvolumes on which a directory exists without a range. *)
Definition lt_abc : dht_layout :=
  lt0 [mk_entry (-1) 0 0 (Some "a"); mk_entry 0 0 0 (Some "b"); mk_entry (-1) 0 0 (Some "c")].

(** The entries all stand for directories that exist. *)
Definition all_present (l : list layout_entry) : Prop :=
  Forall (fun en => le_err en = 0 \/ le_err en = -1) l.

Lemma mark_usable_present l : all_present l -> Forall (fun en => le_err en = -1) (mark_usable l).
Proof.
  intros Hp. apply Forall_map. eapply Forall_impl; [exact Hp|]. simpl.
  intros en [->| ->]; done.
Qed.

Lemma usables_all l : Forall (fun en => le_err en = -1) l -> usables l = l.
Proof.
  unfold usables. induction 1 as [|en l He _ IH]; simpl; [done|]. unfold usable. rewrite He. simpl.
  by f_equal.
Qed.

Lemma err_usable l l' : map le_err l = map le_err l' -> Forall (fun en => le_err en = -1) l' ->
  Forall (fun en => le_err en = -1) l.
Proof.
  intros Hm Hf. apply (Forall_map le_err (fun e => e = -1)). rewrite Hm. by apply Forall_map.
Qed.

(** A new layout for directories that all exist. *)
Lemma new_directory_present lt path :
  all_present (lt_list lt) -> lt_list lt <> [] -> Z.of_nat (length (lt_list lt)) <= UINT32_MAX ->
  exists front back, dht_selfheal_layout_new_directory lt path = Some (set_list (front ++ back) lt) /\
    tiles 0 (back ++ front) (UINT32_MAX + 1) /\
    Forall (fun en => le_err en = -1) (front ++ back) /\
    map le_xlator (front ++ back) = map le_xlator (lt_list lt).
Proof.
  intros Hp Hne Hlen. pose proof (mark_usable_present _ Hp) as Hm.
  assert (0 < count_usable (mark_usable (lt_list lt))) as Hc.
  { unfold count_usable. fold (usables (mark_usable (lt_list lt))). rewrite usables_all by done.
    unfold mark_usable. rewrite length_map. destruct (lt_list lt); [done|]. simpl. lia. }
  destruct (dht_selfheal_layout_new_directory lt path) as [lt'|] eqn:Hn.
  2:{ exfalso. unfold dht_selfheal_layout_new_directory in Hn. cbv zeta in Hn.
      destruct (Z.eqb_spec (count_usable (mark_usable (lt_list lt))) 0); [lia|].
      destruct (Z.eqb_spec (count_usable (mark_usable (lt_list lt))) 0); [lia|].
      destruct (give_chunks _ (drop _ _) _ _) as [[? ?] ?]. by destruct (give_chunks _ _ _ _) as [[? ?] ?]. }
  pose proof Hn as Hn'. apply new_directory_tiles in Hn' as (front & back & l2 & -> & Ht & Hl2 & He & Hx); [|done].
  assert (l2 = mark_usable (lt_list lt)) as ->.
  { destruct Hl2 as [?|Hl2]; [done|]. rewrite Hl2. unfold mark_full.
    rewrite <-(List.map_id (mark_usable (lt_list lt))) at 2. apply map_ext_in.
    intros en Hin%list_elem_of_In. rewrite Forall_forall in Hm. by rewrite (Hm en Hin). }
  pose proof (err_usable _ _ He Hm) as Hall. exists front, back. split_and!; [done| |done|].
  - pose proof Hall as Hall'. apply Forall_app in Hall' as [? ?]. by rewrite !usables_all in Ht.
  - rewrite Hx. unfold mark_usable. rewrite map_map. apply map_ext. intros en.
    by destruct (_ || _).
Qed.

Lemma tiles_set_err e s l t : tiles s l t -> tiles s (map (le_set_err e) l) t.
Proof. revert s. induction l as [|en l IH]; intros s; simpl; [done|]. naive_solver. Qed.

(** A new layout on subvolumes that all have the directory is written out whole. *)
Lemma new_layout_needs lt path l :
  dht_selfheal_layout_new_directory lt path = Some (set_list l lt) -> Z.of_nat (length (lt_list lt)) < 2 ^ 31 ->
  Forall (fun en => le_err en = -1) l -> Forall (fun en => needs_xattr en = true) l.
Proof.
  intros Hn Hlen He. pose proof (new_directory_stops _ _ _ Hn Hlen) as Hst. simpl in Hst.
  apply Forall_forall. intros en Hen. rewrite Forall_forall in Hst, He. specialize (He en Hen). specialize (Hst en Hen).
  unfold needs_xattr, usable in *. rewrite He in *. specialize (Hst eq_refl).
  simpl. destruct (Z.eqb_spec (le_stop en) 0); [lia|done].
Qed.

(** The answers to a lookup are the xattrs of the entries, in some order. *)
Lemma answers_entries (answers : list (string * list Z)) lt l :
  map (prod_map Some id) answers ≡ₚ map (fun en => (le_xlator en, disk_of lt en)) l ->
  exists ens svs, ens ≡ₚ l /\ answers = zip svs (map (disk_of lt) ens) /\ map Some svs = map le_xlator ens.
Proof.
  intros H. apply Permutation_map_inv in H as (ens & E & Hp). exists ens, (map fst answers).
  split; [by symmetry|]. clear Hp. revert ens E. induction answers as [|[sv d] answers IH]; intros [|en ens] E; try done.
  cbn [map] in E. injection E as E1 E2 E3. destruct (IH ens E3) as [IH1 IH2]. cbn [map zip_with fst]. by rewrite <-IH1, IH2, <-E1, <-E2.
Qed.

(** ** Theorems *)

(** C12: A new layout covers the hash space exactly once.  Whatever the states
    of the subvolumes are, and wherever the path makes the assignment start,
    every 32-bit hash lies in the range of exactly one entry that was given one. *)
Theorem new_layout_partitions_hash_space (lt lt' : dht_layout) (path : list Z) (hash : Z) :
  dht_selfheal_layout_new_directory lt path = Some lt' ->
  Z.of_nat (length (lt_list lt)) <= UINT32_MAX -> is_u32 hash ->
  length (List.filter (fun en => usable en && entry_has hash en) (lt_list lt')) = 1%nat.
Proof.
  intros Hn Hlen Hh. apply new_directory_tiles in Hn as (front & back & l2 & -> & Ht & _); [|done].
  by apply tiles_count.
Qed.

Lemma new_layout_partitions_hash_space_witness :
  exists lt', dht_selfheal_layout_new_directory lt_abc [47; 100] = Some lt' /\
    length (List.filter (fun en => usable en && entry_has 3000000000 en) (lt_list lt')) = 1%nat.
Proof.
  destruct (dht_selfheal_layout_new_directory lt_abc [47; 100]) as [lt'|] eqn:Hn;
    [|vm_compute in Hn; discriminate].
  exists lt'. split; [done|].
  apply (new_layout_partitions_hash_space lt_abc lt' [47; 100] 3000000000 Hn);
    unfold UINT32_MAX, is_u32; simpl; lia.
Defined.

(** Every name has a home.  In the new layout of a directory that exists on
    all subvolumes, the lookup of any name succeeds, and leads to the subvolume
    of an entry whose range holds the hash of the name. *)
Theorem new_layout_search_total (lt : dht_layout) (path : list Z) :
  all_present (lt_list lt) -> named (lt_list lt) -> lt_list lt <> [] ->
  Z.of_nat (length (lt_list lt)) <= UINT32_MAX -> lt_type lt = DHT_HASH_TYPE_DM ->
  exists lt', dht_selfheal_layout_new_directory lt path = Some lt' /\
    forall name, exists en sv, en ∈ lt_list lt' /\ le_xlator en = Some sv /\
      entry_has (gf_dm_hashfn (rsync_friendly_name name)) en = true /\
      dht_layout_search lt' name = Some sv.
Proof.
  intros Hp [Hs _] Hne Hlen Hty.
  destruct (new_directory_present lt path Hp Hne Hlen) as (front & back & Hn & Ht & _ & Hx).
  eexists. split; [exact Hn|]. intros name. set (hash := gf_dm_hashfn (rsync_friendly_name name)).
  destruct (tiles_unique 0 _ _ hash Ht) as (l1 & en & l2 & Heq & Hen & _).
  { pose proof (gf_dm_hashfn_u32 (rsync_friendly_name name)). unfold is_u32, UINT32_MAX in *. lia. }
  destruct (List.find (entry_has hash) (front ++ back)) as [en'|] eqn:Hf.
  2:{ exfalso. assert (en ∈ front ++ back) as Hin.
      { rewrite (Permutation_app_comm front back), Heq. apply elem_of_app. right. left. }
      apply list_elem_of_In in Hin. apply (List.find_none _ _ Hf) in Hin. congruence. }
  apply List.find_some in Hf as Hf'. destruct Hf' as [Hin%list_elem_of_In Hh].
  assert (is_Some (le_xlator en')) as [sv Hsv].
  { assert (Forall is_Some (map le_xlator (front ++ back))) as Hall by (rewrite Hx; by apply Forall_map).
    rewrite Forall_forall in Hall. apply Hall. apply list_elem_of_fmap. eauto. }
  exists en', sv. split_and!; [done..|]. unfold dht_layout_search. simpl. rewrite Hty. simpl.
  fold hash. rewrite Hf. done.
Qed.

Lemma lt_abc_named : named (lt_list lt_abc).
Proof.
  split; [repeat constructor; eauto|]. simpl.
  by apply (bool_decide_eq_true_1 _).
Qed.

Lemma new_layout_search_total_witness :
  exists lt', dht_selfheal_layout_new_directory lt_abc [47; 100] = Some lt' /\
    is_Some (dht_layout_search lt' [102; 111; 111]).
Proof.
  destruct (new_layout_search_total lt_abc [47; 100]) as (lt' & Hn & Hs);
    [repeat constructor; simpl; lia|exact lt_abc_named|discriminate|vm_compute; discriminate|reflexivity|].
  exists lt'. split; [done|]. destruct (Hs [102; 111; 111]) as (en & sv & _ & _ & _ & ->). eauto.
Defined.

(** C33: A healed directory needs no healing.  When a directory that exists on
    all subvolumes gets a new layout and every setxattr succeeds, a lookup that
    reads the xattrs back from the subvolumes, in any order of their answers,
    builds the layout that the heal has in memory, the same range for every
    subvolume, and finds no hole, overlap or missing entry in it:
    [dht_layout_normalize] returns 0. *)
Theorem healed_layout_is_clean (lt : dht_layout) (path : list Z) (gen : Z) :
  all_present (lt_list lt) -> named (lt_list lt) -> lt_list lt <> [] ->
  Z.of_nat (length (lt_list lt)) < 2 ^ 31 ->
  exists lt', dht_selfheal_layout_new_directory lt path = Some lt' /\
    forall answers, map (prod_map Some id) answers ≡ₚ dht_selfheal_dir_xattr lt' ->
      exists seen, lookup_layout gen (length (lt_list lt)) answers = Some seen /\
        lt_list seen ≡ₚ lt_list (xattrs_written lt') /\
        snd (dht_layout_normalize seen) = 0 /\
        dht_layout_anomalies (dht_layout_sort seen) = mk_anomalies 0 0 0 0 0.
Proof.
  intros Hp Hnm Hne Hlen.
  destruct (new_directory_present lt path Hp Hne) as (front & back & Hn & Ht & He & Hx).
  { unfold UINT32_MAX. lia. }
  eexists. split; [exact Hn|]. set (lt' := set_list (front ++ back) lt) in *. intros answers Ha.
  assert (length (front ++ back) = length (lt_list lt)) as Hl by (apply (f_equal length) in Hx; by rewrite !length_map in Hx).
  assert (Forall (fun en => needs_xattr en = true) (lt_list lt')) as Hneeds by by apply (new_layout_needs lt path).
  rewrite dir_xattr_all in Ha by done.
  destruct (answers_entries answers lt' (front ++ back)) as (ens & svs & Hens & -> & Hsv); [done|].
  assert (Forall range_ok ens) as Hr.
  { rewrite Hens, (Permutation_app_comm front back). by eapply (tiles_range_ok 0); [lia|]. }
  destruct (lookup_reads gen lt' ens svs Hr Hsv) as (seen & Hs & Hseen).
  exists seen. rewrite <-Hl, <-Hens. split; [exact Hs|].
  rewrite xattrs_written_all; [|done|].
  2:{ destruct Hnm as [Hsome Hd]. split; change (lt_list lt') with (front ++ back); [|by rewrite Hx].
      apply (Forall_map le_xlator is_Some). rewrite Hx. by apply Forall_map. }
  split; [rewrite Hseen; by rewrite Hens|].
  destruct (tiles_normalize seen (map (le_set_err 0) (back ++ front))) as [Hz Hanom].
  - apply Forall_map, Forall_forall. done.
  - intros Hnil%(f_equal length). rewrite length_map, length_app, Nat.add_comm, <-length_app, Hl in Hnil. by destruct (lt_list lt).
  - by rewrite Hseen, Hens, (Permutation_app_comm back front).
  - by apply tiles_set_err.
  - split; [by rewrite Hz|]. apply (f_equal fst) in Hz. by rewrite <-Hanom; f_equal; exact Hz.
Qed.

(** The answers of three subvolumes in an order of their own. *)
Lemma healed_layout_is_clean_witness :
  exists lt' seen, dht_selfheal_layout_new_directory lt_abc [47; 100] = Some lt' /\
    lookup_layout 1 3 (rev (omap (fun p => sv ← fst p; Some (sv, snd p)) (dht_selfheal_dir_xattr lt'))) = Some seen /\
    snd (dht_layout_normalize seen) = 0.
Proof.
  destruct (healed_layout_is_clean lt_abc [47; 100] 1) as (lt' & Hn & Hs);
    [repeat constructor; simpl; lia|exact lt_abc_named|discriminate|vm_compute; reflexivity|].
  destruct (Hs (rev (omap (fun p => sv ← fst p; Some (sv, snd p)) (dht_selfheal_dir_xattr lt')))) as (seen & H1 & _ & H2 & _);
    [|exists lt', seen; split; [exact Hn|split; [exact H1|exact H2]]].
  vm_compute in Hn. injection Hn as <-. rewrite map_rev, <-Permutation_rev. by vm_compute.
Defined.

(** C31: Anomaly detection is exact.  For a layout of entries without errors, no
    one of several of which spans the whole hash space, [dht_layout_normalize]
    reports a clean layout exactly when the sorted ranges follow each other
    without gap or overlap from 0 to the end of the hash space. *)
Theorem normalize_detects_anomalies (lt : dht_layout) :
  all_ok (lt_list lt) -> lt_list lt <> [] -> Forall range_ok (lt_list lt) ->
  Forall (fun en => ~ full_range en) (lt_list lt) \/ length (lt_list lt) = 1%nat ->
  (snd (dht_layout_normalize lt) = 0 <->
   tiles 0 (lt_list (dht_layout_sort lt)) (UINT32_MAX + 1)).
Proof.
  intros Hok Hne Hr Hf. split; [by apply normalize_clean|]. intros Ht.
  destruct (sort_entries_spec dht_layout_entry_cmp (lt_list lt)) as [Hp _].
  destruct (tiles_normalize lt (lt_list (dht_layout_sort lt))) as [-> _]; [| |by simpl|exact Ht|reflexivity].
  - simpl. unfold all_ok. rewrite Hp. exact Hok.
  - simpl. intros Hl. rewrite Hl in Hp. by apply Permutation_nil_l in Hp.
Qed.

Lemma normalize_detects_anomalies_witness :
  let lt := lt0 [mk_entry 0 2147483648 UINT32_MAX (Some "a"); mk_entry 0 0 2147483646 (Some "b")] in
  snd (dht_layout_normalize lt) = 1 /\ ~ tiles 0 (lt_list (dht_layout_sort lt)) (UINT32_MAX + 1).
Proof.
  intros lt. split; [reflexivity|]. intros Ht.
  apply (normalize_detects_anomalies lt) in Ht; [vm_compute in Ht; discriminate| | | |].
  - repeat constructor.
  - discriminate.
  - repeat constructor; unfold range_ok, UINT32_MAX; simpl; lia.
  - left. repeat constructor; unfold full_range, UINT32_MAX; simpl; lia.
Defined.

(** Two ranges that both span the whole space are not seen as an overlap.
    The sum [prev_stop + 1] wraps to 0, the start of the second range, and the
    layout passes as clean. *)
Theorem full_range_overlap_unseen :
  let lt := lt0 [mk_entry 0 0 UINT32_MAX (Some "a"); mk_entry 0 0 UINT32_MAX (Some "b")] in
  dht_layout_anomalies lt = mk_anomalies 0 0 0 0 0 /\ snd (dht_layout_normalize lt) = 0 /\
  forall hash, is_u32 hash -> length (List.filter (entry_has hash) (lt_list lt)) = 2%nat.
Proof.
  intros lt. split; [reflexivity|]. split; [reflexivity|]. intros hash Hh. unfold is_u32 in Hh.
  assert (forall x, entry_has hash (mk_entry 0 0 UINT32_MAX x) = true) as He.
  { intros x. unfold entry_has. apply andb_true_iff. rewrite !Z.leb_le. unfold UINT32_MAX. simpl. lia. }
  cbn [lt lt0 lt_list List.filter]. by rewrite !He.
Qed.

(** Both sorts of a layout rearrange its entries, losing none, in the order
    of their comparison. *)
Lemma layout_sorts (lt : dht_layout) :
  lt_list (dht_layout_sort lt) ≡ₚ lt_list lt /\
  StronglySorted (fun x y => dht_layout_entry_cmp x y <= 0) (lt_list (dht_layout_sort lt)) /\
  lt_list (dht_layout_sort_volname lt) ≡ₚ lt_list lt.
Proof.
  destruct (sort_entries_spec dht_layout_entry_cmp (lt_list lt)) as [Hp Hs].
  split_and!; [exact Hp|exact Hs|]. simpl. apply sort_entries_perm.
Qed.

(** What heals is what a lookup reads.  The xattr written for an entry,
    merged into a layout with a free slot for the subvolume, gives that slot the
    range of the entry and no error. *)
Theorem disk_layout_roundtrip (lt lt2 : dht_layout) (pos : nat) (en : layout_entry)
    (disk : list Z) (subvol : string) (op_errno : Z) :
  lt_list lt !! pos = Some en -> range_ok en -> dht_disk_layout_extract true lt pos = Some disk ->
  let slot := merge_slot 0 (lt_list lt2) in
  (slot < length (lt_list lt2))%nat ->
  snd (dht_layout_merge lt2 subvol 0 op_errno (Some disk)) = 0 /\
  lt_list (fst (dht_layout_merge lt2 subvol 0 op_errno (Some disk))) !! slot
    = Some (mk_entry 0 (le_start en) (le_stop en) (Some subvol)).
Proof.
  intros Hen [Hr1 Hr2] Hd slot Hslot. unfold dht_disk_layout_extract in Hd. cbn [negb] in Hd. rewrite Hen in Hd.
  injection Hd as <-. unfold dht_layout_merge, dht_disk_layout_merge. cbn [nth].
  assert (is_u32 (le_start en) /\ is_u32 (le_stop en)) as [Hu1 Hu2] by (unfold is_u32, UINT32_MAX in *; lia).
  rewrite !ntoh32_hton32, (u32_small (le_start en)), (u32_small (le_stop en)) by done.
  rewrite (u32_i32 _ Hu1), (u32_i32 _ Hu2).
  fold slot. simpl. split; [done|]. apply lookup_lt_is_Some in Hslot as [old Hold].
  by rewrite !list_lookup_alter_eq, Hold.
Qed.

Lemma disk_layout_roundtrip_witness :
  exists disk, dht_disk_layout_extract true (lt0 [mk_entry (-1) 7 4000000000 (Some "a")]) 0 = Some disk /\
    snd (dht_layout_merge (lt0 [entry0]) "a" 0 0 (Some disk)) = 0.
Proof.
  eexists. split; [reflexivity|].
  refine (proj1 (disk_layout_roundtrip (lt0 [mk_entry (-1) 7 4000000000 (Some "a")]) (lt0 [entry0]) 0
            (mk_entry (-1) 7 4000000000 (Some "a")) _ "a" 0 _ _ _ _)).
  - reflexivity.
  - unfold range_ok, UINT32_MAX. simpl. lia.
  - reflexivity.
  - vm_compute. lia.
Defined.

(** Inode numbers identify the subvolume.  While the product fits 64 bits,
    the number [dht_itransform] gives a file of a subvolume is turned back into
    that subvolume and the file's number there by [dht_deitransform]. *)
Theorem itransform_roundtrip (subvolumes : list string) (subvol : string) (x : Z) :
  subvol ∈ subvolumes -> 0 <= x ->
  x * Z.of_nat (length subvolumes) + dht_subvol_cnt subvolumes subvol < 2 ^ 64 ->
  dht_deitransform subvolumes (dht_itransform subvolumes subvol x) = (Some subvol, x).
Proof.
  intros Hin Hx Hlt. destruct (subvol_index_spec subvolumes subvol 0 Hin) as (k & Hk & Hl & Hcnt).
  unfold dht_subvol_cnt in *. rewrite Hcnt in Hlt. set (n := Z.of_nat (length subvolumes)) in *.
  assert (0 <= Z.of_nat k < n) as Hkn by lia.
  assert (dht_itransform subvolumes subvol x = x * n + Z.of_nat k) as ->.
  { unfold dht_itransform, dht_subvol_cnt. rewrite Hcnt. fold n. clearbody n.
    destruct (Z.eqb_spec x (2 ^ 64 - 1)) as [Hm|]; [nia|]. rewrite u64_small by (unfold is_u64; nia). lia. }
  unfold dht_deitransform. fold n. rewrite Z.add_comm, Z.mod_add, Z.div_add by lia.
  rewrite Z.mod_small, Z.div_small by lia. rewrite Nat2Z.id, Hl. done.
Qed.

Lemma itransform_roundtrip_witness :
  dht_deitransform ["a"; "b"; "c"] (dht_itransform ["a"; "b"; "c"] "b" 1234567) = (Some "b", 1234567).
Proof.
  apply (itransform_roundtrip ["a"; "b"; "c"] "b" 1234567); [|lia|vm_compute; reflexivity].
  right. left.
Defined.

(** The temporary file of rsync lands where the final file will.  A name
    [.base.suffix], with a suffix that has no dot, is looked up as [base], so
    that the rename that ends the transfer stays on one subvolume. *)
Theorem rsync_name_same_subvolume (lt : dht_layout) (base suffix : list Z) :
  base <> [] -> head base <> Some dot -> suffix <> [] -> ~ (dot ∈ suffix) ->
  dht_layout_search lt (dot :: base ++ dot :: suffix) = dht_layout_search lt base.
Proof.
  intros Hb Hh Hs Hd. unfold dht_layout_search, dht_hash_compute.
  rewrite rsync_strips by done. by rewrite rsync_plain.
Qed.

Lemma rsync_name_same_subvolume_witness :
  exists lt', dht_selfheal_layout_new_directory lt_abc [47] = Some lt' /\
    dht_layout_search lt' [46; 102; 111; 46; 88; 121] = dht_layout_search lt' [102; 111].
Proof.
  eexists. split; [vm_compute; reflexivity|].
  apply (rsync_name_same_subvolume _ [102; 111] [88; 121]); try discriminate.
  unfold dot. intros H. elem_cases H.
Defined.

(** When healing divides by zero.  [dht_selfheal_directory] fails to form a
    layout, by dividing by a zero count, exactly when the directory is missing
    on every subvolume; with a subvolume down it leaves the layout alone. *)
Theorem selfheal_directory_crash (subvolume_cnt : Z) (lt : dht_layout) (path : list Z) :
  Z.of_nat (length (lt_list lt)) <= UINT32_MAX ->
  (dht_selfheal_directory subvolume_cnt lt path = None <->
   Forall (fun en => le_err en = ENOENT) (lt_list lt)) /\
  (down (dht_layout_anomalies lt) <> 0 ->
   dht_selfheal_directory subvolume_cnt lt path = Some (no_fix 0)).
Proof.
  intros Hlen. split.
  - split; [by apply selfheal_None_enoent|by apply selfheal_enoent_None].
  - intros Hd. unfold dht_selfheal_directory. destruct (Z.eqb_spec (down (dht_layout_anomalies lt)) 0); [done|].
    reflexivity.
Qed.

Lemma selfheal_directory_crash_witness :
  dht_selfheal_directory 1 (lt0 [mk_entry ENOENT 0 0 (Some "a")]) [47] = None.
Proof.
  apply (selfheal_directory_crash 1 (lt0 [mk_entry ENOENT 0 0 (Some "a")]) [47]);
    [vm_compute; discriminate|repeat constructor].
Defined.
