(* ===== verification/AfrPending.v ===== *)
(** * cluster/afr: the pending matrix and the choice of sources

    Model of afr-self-heal-common.c up to [afr_sh_is_matrix_zero] and of the
    changelog addition of storage/posix ([__add_array], [do_xattrop]).

    Every child keeps, for every child, three 32-bit counters of operations
    begun and not known to be finished there (data, metadata, entry), under one
    xattr key per child, in network order.  Row [i] of the pending matrix is
    what child [i] says of the others. *)

From stdpp Require Import base list numbers strings gmap.
From S2P Require Import Prelude ByteOrder.
Open Scope Z_scope.

Inductive afr_transaction_type :=
  | AFR_DATA_TRANSACTION
  | AFR_METADATA_TRANSACTION
  | AFR_ENTRY_TRANSACTION
  | AFR_ENTRY_RENAME_TRANSACTION
  | AFR_FLUSH_TRANSACTION.

Inductive afr_self_heal_type := AFR_SELF_HEAL_ENTRY | AFR_SELF_HEAL_METADATA | AFR_SELF_HEAL_DATA.

#[export] Instance afr_transaction_type_eq : EqDecision afr_transaction_type.
Proof. solve_decision. Defined.

#[export] Instance afr_self_heal_type_eq : EqDecision afr_self_heal_type.
Proof. solve_decision. Defined.

Definition afr_index_for_transaction_type (type : afr_transaction_type) : nat :=
  match type with
  | AFR_DATA_TRANSACTION | AFR_FLUSH_TRANSACTION => 0
  | AFR_METADATA_TRANSACTION => 1
  | AFR_ENTRY_TRANSACTION | AFR_ENTRY_RENAME_TRANSACTION => 2
  end.

(** ** Matrices and xattrs *)

Abbreviation matrix := (list (list Z)) (only parsing).

Definition mget (m : matrix) (i j : nat) : Z := nth j (nth i m []) 0.
Definition mset (m : matrix) (i j : nat) (v : Z) : matrix := alter (<[j := v]>) i m.

(** The changelog xattrs of a file on a child: arrays of words as stored. *)
Abbreviation xattrs := (gmap string (list Z)) (only parsing).

(** [dict_get_ptr] of a dictionary that may be NULL. *)
Definition dict_get_ptr (xattr : option xattrs) (key : string) : option (list Z) :=
  d ← xattr; d !! key.

(** ** Counting sources *)

Fixpoint select_from (i : Z) (sources : list Z) : Z :=
  match sources with
  | [] => -1
  | s :: sources' => if negb (s =? 0) then i else select_from (i + 1) sources'
  end.

Definition afr_sh_select_source (sources : list Z) : Z := select_from 0 sources.

Definition afr_sh_sink_count (sources : list Z) : Z :=
  Z.of_nat (length (List.filter (fun s => s =? 0) sources)).

Definition afr_sh_source_count (sources : list Z) : Z :=
  Z.of_nat (length (List.filter (fun s => negb (s =? 0)) sources)).

Fixpoint afr_sh_supress_errenous_children (sources child_errno : list Z) : list Z :=
  match sources, child_errno with
  | s :: ss, e :: es =>
      (if negb (e =? 0) && negb (s =? 0) then 0 else s) :: afr_sh_supress_errenous_children ss es
  | _, _ => sources
  end.

(** ** The pending matrix *)

Definition ignorant (keys : list string) (xattr : option xattrs) : bool :=
  existsb (fun key => match dict_get_ptr xattr key with None => true | Some _ => false end) keys.

Definition pending_of (k : nat) (xattr : option xattrs) (key : string) : Z :=
  match dict_get_ptr xattr key with
  | Some pending => i32 (ntoh32 (nth k pending 0))
  | None => 0
  end.

(** What a child's row becomes when it points to the ignorant children. *)
Fixpoint accuse_ignorant (row : list Z) (ign : list bool) : list Z :=
  match row, ign with
  | v :: row', b :: ign' => (if b then i32 (v + 1) else v) :: accuse_ignorant row' ign'
  | _, _ => row
  end.

Definition afr_sh_build_pending_matrix (pending_key : list string) (xattr : list (option xattrs))
    (type : afr_transaction_type) : matrix :=
  let k := afr_index_for_transaction_type type in
  let ign := map (ignorant pending_key) xattr in
  map (fun x => let row := map (pending_of k x) pending_key in
                if ignorant pending_key x then row else accuse_ignorant row ign) xattr.

(** ** Characters *)

Inductive afr_node_type := AFR_NODE_INNOCENT | AFR_NODE_FOOL | AFR_NODE_WISE.

#[export] Instance afr_node_type_eq : EqDecision afr_node_type.
Proof. solve_decision. Defined.

Record afr_node_character := mk_char { c_type : afr_node_type; c_wisdom : Z }.

Definition afr_sh_is_innocent (array : list Z) : bool := forallb (fun v => v =? 0) array.
Definition afr_sh_is_fool (array : list Z) (i : nat) : bool := negb (nth i array 0 =? 0).
Definition afr_sh_is_wise (array : list Z) (i : nat) : bool := nth i array 0 =? 0.

(** The classification loop of [afr_sh_mark_sources]; the characters come zeroed
    from CALLOC, zero being [AFR_NODE_INNOCENT]. *)
Definition classify (m : matrix) (i : nat) : afr_node_character :=
  let row := nth i m [] in
  mk_char (if afr_sh_is_innocent row then AFR_NODE_INNOCENT
           else if afr_sh_is_fool row i then AFR_NODE_FOOL
           else if afr_sh_is_wise row i then AFR_NODE_WISE
           else AFR_NODE_INNOCENT) 0.

Definition has_type (t : afr_node_type) (c : afr_node_character) : bool := bool_decide (c_type c = t).

Definition afr_sh_all_nodes_innocent (cs : list afr_node_character) : bool :=
  forallb (has_type AFR_NODE_INNOCENT) cs.

Definition afr_sh_wise_nodes_exist (cs : list afr_node_character) : bool :=
  existsb (has_type AFR_NODE_WISE) cs.

Definition accused_by_wise (m : matrix) (cs : list afr_node_character) (i : nat) : bool :=
  existsb (fun j => match cs !! j with
                    | Some c => has_type AFR_NODE_WISE c && negb (mget m j i =? 0)
                    | None => false
                    end) (seq 0 (length cs)).

Definition afr_sh_compute_wisdom (m : matrix) (cs : list afr_node_character) :
    list afr_node_character :=
  imap (fun i c => if has_type AFR_NODE_WISE c
                   then mk_char (c_type c) (if accused_by_wise m cs i then 0 else 1)
                   else c) cs.

Definition afr_sh_wise_nodes_conflict (cs : list afr_node_character) : bool :=
  negb (existsb (fun c => has_type AFR_NODE_WISE c && (c_wisdom c =? 1)) cs).

Fixpoint afr_sh_mark_wisest_as_sources (sources : list Z) (cs : list afr_node_character) :
    list Z * Z :=
  match sources, cs with
  | s :: ss, c :: cs' =>
      let '(r, n) := afr_sh_mark_wisest_as_sources ss cs' in
      if c_wisdom c =? 1 then (1 :: r, n + 1) else (s :: r, n)
  | _, _ => (sources, 0)
  end.

(** ** Sizes and owners *)

(** What the choice reads of [struct stat]. *)
Record iattr := mk_iattr { st_size : Z; st_uid : Z }.

Definition iattr0 : iattr := mk_iattr 0 0.

Definition SIZE_DIFFERS (a b : iattr) : bool := negb (st_size a =? st_size b).
Definition SIZE_GREATER (a b : iattr) : bool := st_size b <? st_size a.

(** [afr_self_heal_t]; [sh_buf] is [None] where the pointer is NULL. *)
Record afr_self_heal := mk_sh {
  sh_buf : option (list iattr);
  sh_pending : matrix;
  sh_sources : list Z
}.

Definition size_mark (buf : list iattr) (md : matrix * bool) (ij : nat * nat) : matrix * bool :=
  let '(i, j) := ij in
  let '(m, d) := md in
  if SIZE_DIFFERS (nth i buf iattr0) (nth j buf iattr0) && (mget m i j =? 0) && (mget m j i =? 0)
  then (mset (mset m i j 1) j i 1, true)
  else (m, d).

Definition afr_sh_mark_if_size_differs (sh : afr_self_heal) (child_count : nat) : matrix * bool :=
  match sh_buf sh with
  | None => (sh_pending sh, false)
  | Some buf =>
      foldl (size_mark buf) (sh_pending sh, false)
        (list_prod (seq 0 child_count) (seq 0 child_count))
  end.

Fixpoint first_fool (i : nat) (cs : list afr_node_character) : nat :=
  match cs with
  | [] => 0
  | c :: cs' => if has_type AFR_NODE_FOOL c then i else first_fool (S i) cs'
  end.

(** The first of the greatest of the candidates, seen from [biggest]. *)
Definition bigger (buf : list iattr) (biggest i : nat) : nat :=
  if SIZE_GREATER (nth i buf iattr0) (nth biggest buf iattr0) then i else biggest.

Definition afr_sh_mark_biggest_fool_as_source (sh : afr_self_heal)
    (cs : list afr_node_character) (child_count : nat) : list Z * Z :=
  let biggest := first_fool 0 cs in
  let fools := List.filter (fun i => match cs !! i with
                                     | Some c => has_type AFR_NODE_FOOL c
                                     | None => false
                                     end) (seq 0 child_count) in
  let biggest' := match sh_buf sh with
                  | None => biggest
                  | Some buf => foldl (bigger buf) biggest fools
                  end in
  (<[biggest' := 1]> (sh_sources sh), 1).

Definition afr_sh_mark_biggest_as_source (sh : afr_self_heal) (child_count : nat) : list Z * Z :=
  let biggest := match sh_buf sh with
                 | None => 0%nat
                 | Some buf => foldl (bigger buf) 0%nat (seq 0 child_count)
                 end in
  (<[biggest := 1]> (sh_sources sh), 1).

Definition lower_uid (buf : list iattr) (smallest i : nat) : nat :=
  if st_uid (nth i buf iattr0) <? st_uid (nth smallest buf iattr0) then i else smallest.

Definition afr_sh_mark_lowest_uid_as_source (sh : afr_self_heal) (child_count : nat) : list Z * Z :=
  let smallest := match sh_buf sh with
                  | None => 0%nat
                  | Some buf => foldl (lower_uid buf) 0%nat (seq 0 child_count)
                  end in
  (<[smallest := 1]> (sh_sources sh), 1).

(** ** Marking the sources *)

Definition afr_sh_mark_sources (sh : afr_self_heal) (child_count : nat)
    (type : afr_self_heal_type) : afr_self_heal * Z :=
  let sh0 := mk_sh (sh_buf sh) (sh_pending sh) (replicate child_count 0) in
  let cs := map (classify (sh_pending sh)) (seq 0 child_count) in
  let '(m, size_differs) :=
    if bool_decide (type = AFR_SELF_HEAL_DATA) then afr_sh_mark_if_size_differs sh0 child_count
    else (sh_pending sh, false) in
  let sh1 := mk_sh (sh_buf sh) m (sh_sources sh0) in
  let finish (r : list Z * Z) := (mk_sh (sh_buf sh) m (fst r), snd r) in
  if bool_decide (type = AFR_SELF_HEAL_METADATA) && afr_sh_all_nodes_innocent cs then
    finish (afr_sh_mark_lowest_uid_as_source sh1 child_count)
  else if afr_sh_all_nodes_innocent cs then
    if size_differs then finish (afr_sh_mark_biggest_as_source sh1 child_count)
    else finish (sh_sources sh1, 0)
  else if afr_sh_wise_nodes_exist cs then
    let cs' := afr_sh_compute_wisdom m cs in
    if afr_sh_wise_nodes_conflict cs' then finish (sh_sources sh1, -1)
    else finish (afr_sh_mark_wisest_as_sources (sh_sources sh1) cs')
  else finish (afr_sh_mark_biggest_fool_as_source sh1 cs child_count).

(** ** What a heal subtracts *)

(** The inner loop of [afr_sh_pending_to_delta].  [pending] is the pointer the
    loop keeps: a failing [dict_get_ptr] leaves it at the value of the key
    before. *)
Fixpoint delta_row (k : nat) (xattr : option xattrs) (keys : list string) (success : list bool)
    (pending : option (list Z)) : list Z :=
  match keys, success with
  | key :: keys', ok :: success' =>
      let pending' := match dict_get_ptr xattr key with Some p => Some p | None => pending end in
      (if negb ok then 0
       else match pending' with
            | Some p => i32 (- ntoh32 (nth k p 0))
            | None => 0
            end) :: delta_row k xattr keys' success' pending'
  | _, _ => []
  end.

Definition afr_sh_pending_to_delta (pending_key : list string) (xattr : list (option xattrs))
    (success : list bool) (type : afr_transaction_type) : matrix :=
  let k := afr_index_for_transaction_type type in
  map (fun x => delta_row k x pending_key success None) xattr.

(** The array with one word set. *)
Definition pending_array (k : nat) (v : Z) : list Z := <[k := v]> [0; 0; 0].

Definition afr_sh_delta_to_xattr (pending_key : list string) (delta : matrix)
    (xattr : list (option xattrs)) (type : afr_transaction_type) : list (option xattrs) :=
  let k := afr_index_for_transaction_type type in
  zip_with (fun row x =>
    d ← x;
    Some (foldl (fun d kv => <[fst kv := pending_array k (hton32 (snd kv))]> d) d
            (zip pending_key row))) delta xattr.

(** ** Tests *)

Fixpoint has_pending (k : nat) (xattr : option xattrs) (keys : list string) : bool :=
  match keys with
  | [] => false
  | key :: keys' =>
      match dict_get_ptr xattr key with
      | None => false
      | Some pending => if negb (nth k pending 0 =? 0) then true else has_pending k xattr keys'
      end
  end.

Definition afr_sh_has_metadata_pending (keys : list string) (xattr : option xattrs) : bool :=
  has_pending (afr_index_for_transaction_type AFR_METADATA_TRANSACTION) xattr keys.
Definition afr_sh_has_data_pending (keys : list string) (xattr : option xattrs) : bool :=
  has_pending (afr_index_for_transaction_type AFR_DATA_TRANSACTION) xattr keys.
Definition afr_sh_has_entry_pending (keys : list string) (xattr : option xattrs) : bool :=
  has_pending (afr_index_for_transaction_type AFR_ENTRY_TRANSACTION) xattr keys.

Definition afr_sh_is_matrix_zero (m : matrix) : bool := forallb (forallb (fun v => v =? 0)) m.

(** ** The addition at a child (storage/posix) *)

Definition __add_array (dest src : list Z) : list Z :=
  zip_with (fun d s => hton32 (u32 (ntoh32 d + ntoh32 s))) dest src.

Definition ERANGE : Z := 34.

(** The value of an xattr read into a zeroed buffer of [count] words. *)
Definition read_xattr (disk : xattrs) (key : string) (count : nat) : list Z + Z :=
  match disk !! key with
  | None => inl (replicate count 0)
  | Some v => if (count <? length v)%nat then inr ERANGE
              else inl (v ++ replicate (count - length v) 0)
  end.

(** [do_xattrop] of ADD_ARRAY: the xattrs, [op_ret] and [op_errno].  [io] says
    for every key whether reading or writing it fails, and how.  Keys before a
    failing one stay written. *)
Fixpoint do_xattrop (io : string -> option Z) (disk : xattrs) (xattr : list (string * list Z)) :
    xattrs * (Z * Z) :=
  match xattr with
  | [] => (disk, (0, 0))
  | (key, value) :: xattr' =>
      match io key with
      | Some e => (disk, (-1, e))
      | None =>
          match read_xattr disk key (length value) with
          | inr e => (disk, (-1, e))
          | inl array => do_xattrop io (<[key := __add_array array value]> disk) xattr'
          end
      end
  end.
