(* ===== verification/AfrTransaction.v ===== *)
(** * cluster/afr: transactions

    Model of afr-transaction.c.  A transaction locks the object on some of the
    children, adds one to the changelogs of all children that are up (pre-op),
    runs the operation, takes the one back for the children where it succeeded
    (post-op) and unlocks.

    A handler takes the private data of the translator and the state of the
    transaction and gives the new state and what it starts: calls wound to
    children, or the next function of the transaction.  The replies come back
    through the [_cbk] handlers. *)

From stdpp Require Import base list numbers strings.
From S2P Require Import Prelude ByteOrder AfrPending.
Open Scope Z_scope.

Definition LOCKED_NO : Z := 0.
Definition LOCKED_YES : Z := 1.
Definition LOCKED_LOWER : Z := 2.

(** The operations the code tells apart. *)
Inductive glusterfs_fop := GF_FOP_WRITE | GF_FOP_FTRUNCATE | GF_FOP_FLUSH | GF_FOP_OTHER.

#[export] Instance glusterfs_fop_eq : EqDecision glusterfs_fop.
Proof. solve_decision. Defined.

Record afr_private := mk_priv {
  child_count : nat;
  pending_key : list string;
  data_change_log : bool;
  metadata_change_log : bool;
  entry_change_log : bool;
  data_lock_server_count : Z;
  metadata_lock_server_count : Z;
  entry_lock_server_count : Z
}.

(** [afr_fd_ctx_t] *)
Record afr_fd_ctx := mk_fdctx {
  pre_op_done : list bool;
  opened_on : list bool;
  child_failed : list bool
}.

(** The functions [post_post_op] can point to. *)
Inductive post_post := ppo_user | ppo_done | ppo_unlock.

(** [afr_local_t], and the context of the fd of the operation.  [has_fd] says
    whether [local->fd] is set; [fdctx] is what [fd_ctx_get] finds. *)
Record afr_local := mk_local {
  l_op : glusterfs_fop;
  l_type : afr_transaction_type;
  has_fd : bool;
  fdctx : option afr_fd_ctx;
  child_up : list bool;
  pending : list (list Z);
  op_ret : Z;
  op_errno : Z;
  call_count : Z;
  locked_nodes : list Z;
  lock_count : Z;
  post_post_op : option post_post
}.

(** What a handler starts. *)
Inductive target := on_fd | on_loc | on_parent | on_new_parent.

Inductive action :=
  | wind_lock (child : nat)
  | wind_lock_lower (child : nat)
  | wind_lock_higher (child : nat)
  | wind_unlock (child : nat)
  | wind_unlock_lower (child : nat)
  | wind_unlock_higher (child : nat)
  | wind_pre_op (child : nat) (on : target) (xattr : list (string * list Z))
  | wind_post_op (child : nat) (on : target) (xattr : list (string * list Z))
  | run_fop
  | run_done
  | run_post_post_op.

#[export] Instance target_eq : EqDecision target.
Proof. solve_decision. Defined.

#[export] Instance action_eq : EqDecision action.
Proof. solve_decision. Defined.

(** ** Updates *)

Definition set_pending (p : list (list Z)) (l : afr_local) : afr_local :=
  mk_local (l_op l) (l_type l) (has_fd l) (fdctx l) (child_up l) p (op_ret l) (op_errno l)
    (call_count l) (locked_nodes l) (lock_count l) (post_post_op l).
Definition set_fdctx (c : option afr_fd_ctx) (l : afr_local) : afr_local :=
  mk_local (l_op l) (l_type l) (has_fd l) c (child_up l) (pending l) (op_ret l) (op_errno l)
    (call_count l) (locked_nodes l) (lock_count l) (post_post_op l).
Definition set_child_up (u : list bool) (l : afr_local) : afr_local :=
  mk_local (l_op l) (l_type l) (has_fd l) (fdctx l) u (pending l) (op_ret l) (op_errno l)
    (call_count l) (locked_nodes l) (lock_count l) (post_post_op l).
Definition set_op (r e : Z) (l : afr_local) : afr_local :=
  mk_local (l_op l) (l_type l) (has_fd l) (fdctx l) (child_up l) (pending l) r e
    (call_count l) (locked_nodes l) (lock_count l) (post_post_op l).
Definition set_call_count (n : Z) (l : afr_local) : afr_local :=
  mk_local (l_op l) (l_type l) (has_fd l) (fdctx l) (child_up l) (pending l) (op_ret l) (op_errno l)
    n (locked_nodes l) (lock_count l) (post_post_op l).
Definition set_locked (ns : list Z) (n : Z) (l : afr_local) : afr_local :=
  mk_local (l_op l) (l_type l) (has_fd l) (fdctx l) (child_up l) (pending l) (op_ret l) (op_errno l)
    (call_count l) ns n (post_post_op l).
Definition set_post_post (p : option post_post) (l : afr_local) : afr_local :=
  mk_local (l_op l) (l_type l) (has_fd l) (fdctx l) (child_up l) (pending l) (op_ret l) (op_errno l)
    (call_count l) (locked_nodes l) (lock_count l) p.

(** The word of a row that belongs to the transaction. *)
Definition set_word (type : afr_transaction_type) (v : Z) (row : list Z) : list Z :=
  <[afr_index_for_transaction_type type := v]> row.

(** ** Marks *)

Definition __mark_all_pending (l : afr_local) : afr_local :=
  set_pending (map (set_word (l_type l) (hton32 1)) (pending l)) l.

Definition __mark_child_dead (l : afr_local) (child : nat) : afr_local :=
  set_pending (alter (set_word (l_type l) 0) child (pending l)) l.

Definition __mark_fop_failed_on_fd (l : afr_local) (child : nat) : afr_local :=
  match fdctx l with
  | None => l
  | Some c => set_fdctx (Some (mk_fdctx (pre_op_done c) (opened_on c) (<[child := true]> (child_failed c)))) l
  end.

(** Rows for which a flag is set get 0. *)
Fixpoint zero_where (type : afr_transaction_type) (flags : list bool) (p : list (list Z)) :
    list (list Z) :=
  match flags, p with
  | b :: flags', row :: p' => (if b then set_word type 0 row else row) :: zero_where type flags' p'
  | _, _ => p
  end.

Definition __mark_failed_children (l : afr_local) : afr_local :=
  match fdctx l with
  | None => l
  | Some c => set_pending (zero_where (l_type l) (child_failed c) (pending l)) l
  end.

Definition __mark_pre_op_done_on_fd (l : afr_local) (child : nat) : afr_local :=
  match fdctx l with
  | None => l
  | Some c =>
      if bool_decide (l_op l = GF_FOP_WRITE) || bool_decide (l_op l = GF_FOP_FTRUNCATE)
      then set_fdctx (Some (mk_fdctx (<[child := true]> (pre_op_done c)) (opened_on c) (child_failed c))) l
      else l
  end.

Definition __mark_down_children (l : afr_local) : afr_local :=
  set_pending (zero_where (l_type l) (map negb (child_up l)) (pending l)) l.

Definition __mark_all_success (l : afr_local) : afr_local :=
  set_pending (map (set_word (l_type l) (hton32 (-1))) (pending l)) l.

(** ** Tests *)

Definition __is_first_write_on_fd (c : option afr_fd_ctx) : bool :=
  match c with
  | None => false
  | Some c => forallb negb (pre_op_done c)
  end.

(** [__if_fd_pre_op_done] reads the flag of a child and clears it. *)
Definition __if_fd_pre_op_done (l : afr_local) (child : nat) : afr_local * bool :=
  match fdctx l with
  | None => (l, false)
  | Some c => (set_fdctx (Some (mk_fdctx (<[child := false]> (pre_op_done c)) (opened_on c) (child_failed c))) l,
               nth child (pre_op_done c) false)
  end.

Definition afr_pre_op_done_count (l : afr_local) : Z :=
  match fdctx l with
  | None => 0
  | Some c => Z.of_nat (length (List.filter (fun p => fst p && snd p) (zip (pre_op_done c) (child_up l))))
  end.

Definition afr_up_children_count (up : list bool) : Z := Z.of_nat (length (List.filter id up)).

Definition __changelog_enabled (priv : afr_private) (type : afr_transaction_type) : bool :=
  match type with
  | AFR_DATA_TRANSACTION => data_change_log priv
  | AFR_METADATA_TRANSACTION => metadata_change_log priv
  | AFR_ENTRY_TRANSACTION | AFR_ENTRY_RENAME_TRANSACTION => entry_change_log priv
  | AFR_FLUSH_TRANSACTION => true
  end.

Definition __changelog_needed_pre_op (priv : afr_private) (l : afr_local) : bool :=
  __changelog_enabled priv (l_type l) &&
  match l_op l with
  | GF_FOP_WRITE | GF_FOP_FTRUNCATE => negb (has_fd l) || __is_first_write_on_fd (fdctx l)
  | GF_FOP_FLUSH => false
  | GF_FOP_OTHER => true
  end.

Definition __changelog_needed_post_op (priv : afr_private) (l : afr_local) : bool :=
  __changelog_enabled priv (l_type l) &&
  match l_op l with
  | GF_FOP_WRITE | GF_FOP_FTRUNCATE => false
  | GF_FOP_FLUSH => true
  | GF_FOP_OTHER => true
  end.

(** [afr_set_pending_dict], with memory for the dictionary. *)
Definition afr_set_pending_dict (priv : afr_private) (p : list (list Z)) : list (string * list Z) :=
  zip (pending_key priv) p.

Definition afr_lock_server_count (priv : afr_private) (type : afr_transaction_type) : Z :=
  match type with
  | AFR_FLUSH_TRANSACTION | AFR_DATA_TRANSACTION => data_lock_server_count priv
  | AFR_METADATA_TRANSACTION => metadata_lock_server_count priv
  | AFR_ENTRY_TRANSACTION | AFR_ENTRY_RENAME_TRANSACTION => entry_lock_server_count priv
  end.

(** ** Unlocking *)

Definition locked_yes (n : Z) : bool := negb (Z.land n LOCKED_YES =? 0).
Definition locked_lower (n : Z) : bool := negb (Z.land n LOCKED_LOWER =? 0).

Definition is_rename (type : afr_transaction_type) : bool :=
  bool_decide (type = AFR_ENTRY_RENAME_TRANSACTION).

Fixpoint afr_transaction_locked_nodes_count (type : afr_transaction_type) (ns : list Z) : Z :=
  match ns with
  | [] => 0
  | n :: ns' => (if locked_yes n then 1 else 0)
                + (if is_rename type && locked_lower n then 1 else 0)
                + afr_transaction_locked_nodes_count type ns'
  end.

(** [lower_path] of two locations, each a path and a base name: is it the first? *)
Definition lower_path (cmp : string -> string -> Z) (p1 b1 p2 b2 : string) : bool :=
  let ret := cmp p1 p2 in
  let ret' := if ret =? 0 then cmp b1 b2 else ret in
  ret' <=? 0.

Definition unlock_node (type : afr_transaction_type) (i : nat) (n : Z) : list action :=
  match type with
  | AFR_ENTRY_RENAME_TRANSACTION =>
      (if locked_lower n then [wind_unlock_lower i] else [])
      ++ (if locked_yes n then [wind_unlock_higher i] else [])
  | _ => if locked_yes n then [wind_unlock i] else []
  end.

(** The loop of [afr_unlock], from child [i] on. *)
Fixpoint unlock_loop (type : afr_transaction_type) (i : nat) (ns : list Z) (call_count : Z) :
    list action :=
  match ns with
  | [] => []
  | n :: ns' =>
      let acts := unlock_node type i n in
      let cc := call_count - Z.of_nat (length acts) in
      acts ++ if cc =? 0 then [] else unlock_loop type (S i) ns' cc
  end.

Definition afr_unlock (l : afr_local) : afr_local * list action :=
  let cc := afr_transaction_locked_nodes_count (l_type l) (locked_nodes l) in
  if cc =? 0 then (l, [run_done])
  else (set_call_count cc l, unlock_loop (l_type l) 0 (locked_nodes l) cc).

Definition afr_unlock_common_cbk (l : afr_local) : afr_local * list action :=
  let l' := set_call_count (call_count l - 1) l in
  (l', if call_count l' =? 0 then [run_done] else []).

(** ** Changelog *)

Definition run_post_post (p : post_post) (l : afr_local) : afr_local * list action :=
  match p with
  | ppo_user => (l, [run_post_post_op])
  | ppo_done => (l, [run_done])
  | ppo_unlock => afr_unlock l
  end.

Definition afr_changelog_post_op_cbk (priv : afr_private) (l : afr_local) : afr_local * list action :=
  let l1 := set_call_count (call_count l - 1) l in
  if negb (call_count l1 =? 0) then (l1, [])
  else
    let unlocked := afr_lock_server_count priv (l_type l) =? 0 in
    match post_post_op l with
    | Some p => run_post_post p (set_post_post (Some (if unlocked then ppo_done else ppo_unlock)) l1)
    | None => if unlocked then (l1, [run_done]) else afr_unlock l1
    end.

Definition data_target (l : afr_local) : target := if has_fd l then on_fd else on_loc.
Definition entry_target (l : afr_local) : target := if has_fd l then on_fd else on_parent.

(** What the loop of [afr_changelog_post_op] winds to a child that is up. *)
Definition post_node (priv : afr_private) (l : afr_local) (i : nat) : afr_local * list action :=
  let xattr := afr_set_pending_dict priv (pending l) in
  match l_type l with
  | AFR_DATA_TRANSACTION | AFR_METADATA_TRANSACTION => (l, [wind_post_op i (data_target l) xattr])
  | AFR_FLUSH_TRANSACTION =>
      let '(l', done) := __if_fd_pre_op_done l i in
      (l', if done then [wind_post_op i on_fd xattr] else [])
  | AFR_ENTRY_RENAME_TRANSACTION =>
      (l, [wind_post_op i on_new_parent xattr; wind_post_op i (entry_target l) xattr])
  | AFR_ENTRY_TRANSACTION => (l, [wind_post_op i (entry_target l) xattr])
  end.

Fixpoint post_loop (priv : afr_private) (l : afr_local) (i : nat) (up : list bool) (cc : Z) :
    afr_local * list action :=
  match up with
  | [] => (l, [])
  | true :: up' =>
      let '(l1, acts) := post_node priv l i in
      let cc' := cc - Z.of_nat (length acts) in
      if cc' =? 0 then (l1, acts)
      else let '(l2, acts') := post_loop priv l1 (S i) up' cc' in (l2, acts ++ acts')
  | false :: up' => post_loop priv l (S i) up' cc
  end.

Definition afr_changelog_post_op (priv : afr_private) (l : afr_local) : afr_local * list action :=
  let l1 := __mark_down_children l in
  let l2 := if bool_decide (l_op l = GF_FOP_FLUSH) then __mark_failed_children l1 else l1 in
  let cc := if bool_decide (l_op l = GF_FOP_FLUSH) then afr_pre_op_done_count l2
            else if is_rename (l_type l) then afr_up_children_count (child_up l2) * 2
            else afr_up_children_count (child_up l2) in
  let l3 := set_call_count cc l2 in
  if cc =? 0 then afr_unlock l3 else post_loop priv l3 0 (child_up l3) cc.

Definition afr_transaction_resume (priv : afr_private) (l : afr_local) : afr_local * list action :=
  if __changelog_needed_post_op priv l then afr_changelog_post_op priv l
  else if afr_lock_server_count priv (l_type l) =? 0 then (l, [run_done])
  else afr_unlock l.

Definition afr_changelog_pre_op_cbk (priv : afr_private) (l : afr_local) (child : nat)
    (ret errno : Z) : afr_local * list action :=
  let l1 := if ret =? 0 then __mark_pre_op_done_on_fd l child else l in
  let l2 := if ret =? -1 then
              set_op (if errno =? ENOTSUP then -1 else op_ret l1) errno
                (set_child_up (<[child := false]> (child_up l1)) l1)
            else l1 in
  let l3 := set_call_count (call_count l2 - 1) l2 in
  if negb (call_count l3 =? 0) then (l3, [])
  else if (op_ret l3 =? -1) && (op_errno l3 =? ENOTSUP) then afr_transaction_resume priv l3
  else (__mark_all_success l3, [run_fop]).

(** What the loop of [afr_changelog_pre_op] winds to a child that is up. *)
Definition pre_node (priv : afr_private) (l : afr_local) (i : nat) : list action :=
  let xattr := afr_set_pending_dict priv (pending l) in
  match l_type l with
  | AFR_DATA_TRANSACTION | AFR_METADATA_TRANSACTION | AFR_FLUSH_TRANSACTION =>
      [wind_pre_op i (data_target l) xattr]
  | AFR_ENTRY_RENAME_TRANSACTION =>
      [wind_pre_op i on_new_parent xattr; wind_pre_op i (entry_target l) xattr]
  | AFR_ENTRY_TRANSACTION => [wind_pre_op i (entry_target l) xattr]
  end.

Fixpoint pre_loop (priv : afr_private) (l : afr_local) (i : nat) (up : list bool) (cc : Z) :
    list action :=
  match up with
  | [] => []
  | true :: up' =>
      let acts := pre_node priv l i in
      let cc' := cc - Z.of_nat (length acts) in
      if cc' =? 0 then acts else acts ++ pre_loop priv l (S i) up' cc'
  | false :: up' => pre_loop priv l (S i) up' cc
  end.

Definition afr_changelog_pre_op (priv : afr_private) (l : afr_local) : afr_local * list action :=
  let n := afr_up_children_count (child_up l) in
  let cc := if is_rename (l_type l) then n * 2 else n in
  if cc =? 0 then afr_unlock l
  else
    let l1 := __mark_all_pending (set_call_count cc l) in
    (l1, pre_loop priv l1 0 (child_up l1) cc).

(** ** Locking *)

(** The children [afr_lock_rec] passes over, from [child_index] on: those that
    are down, or that do not have the fd open. *)
Fixpoint skip_children (lockable : list bool) (child_index : nat) : nat :=
  match lockable with
  | [] => child_index
  | b :: rest => if b then child_index else skip_children rest (S child_index)
  end.

Definition lockable (l : afr_local) (c : option afr_fd_ctx) : list bool :=
  match c with
  | Some c => zip_with andb (child_up l) (opened_on c)
  | None => child_up l
  end.

(** Where no lock is wanted or needed any more. *)
Definition begin_fop (priv : afr_private) (l : afr_local) : afr_local * list action :=
  if __changelog_needed_pre_op priv l then afr_changelog_pre_op priv l
  else (__mark_all_success l, [run_fop]).

Definition afr_lock_rec (priv : afr_private) (l : afr_local) (child_index : nat) :
    afr_local * list action :=
  if has_fd l && bool_decide (fdctx l = None) then afr_unlock (set_op (-1) EINVAL l)
  else
    let c := if has_fd l then fdctx l else None in
    let i := skip_children (drop child_index (lockable l c)) child_index in
    if (i =? child_count priv)%nat && (lock_count l =? 0) then afr_unlock (set_op (-1) EAGAIN l)
    else if (i =? child_count priv)%nat || (lock_count l =? afr_lock_server_count priv (l_type l))
    then begin_fop priv l
    else (l, [if is_rename (l_type l) then wind_lock_lower i else wind_lock i]).

Definition afr_lock_cbk (priv : afr_private) (l : afr_local) (child : nat) (ret errno : Z) :
    afr_local * list action :=
  let l1 := if ret =? -1 then
              set_op (if errno =? ENOSYS then ret else op_ret l) errno
                (set_child_up (<[child := false]> (child_up l)) l)
            else l in
  if (ret =? -1) && (errno =? ENOSYS) then afr_unlock l1
  else
    let l2 := if ret =? 0
              then set_locked (alter (fun n => Z.lor n LOCKED_YES) child (locked_nodes l1)) (lock_count l1 + 1) l1
              else l1 in
    afr_lock_rec priv l2 (S child).

Definition afr_lock_lower_cbk (l : afr_local) (child : nat) (ret errno : Z) :
    afr_local * list action :=
  let l1 := if ret =? -1 then
              set_op (if errno =? ENOSYS then ret else op_ret l) errno
                (set_child_up (<[child := false]> (child_up l)) l)
            else l in
  if negb (ret =? 0) then afr_unlock l1
  else (set_locked (alter (fun n => Z.lor n LOCKED_LOWER) child (locked_nodes l1)) (lock_count l1) l1,
        [wind_lock_higher child]).

Definition afr_lock (priv : afr_private) (l : afr_local) : afr_local * list action :=
  afr_lock_rec priv l 0.

(** ** The transaction *)

Definition afr_transaction_fop_failed (l : afr_local) (child : nat) : afr_local :=
  match l_op l with
  | GF_FOP_WRITE => __mark_fop_failed_on_fd l child
  | _ => __mark_child_dead l child
  end.

(** [AFR_LOCAL_INIT] and [afr_transaction_local_init], with memory: the local
    data of an operation; [None] is ENOTCONN, no child being up. *)
Definition afr_local_init (priv : afr_private) (op : glusterfs_fop) (fd : bool)
    (c : option afr_fd_ctx) (up : list bool) (ppo : option post_post) : option afr_local :=
  if afr_up_children_count up =? 0 then None
  else Some (mk_local op AFR_DATA_TRANSACTION fd c up (replicate (child_count priv) [0; 0; 0])
               (-1) EUCLEAN (afr_up_children_count up) (replicate (child_count priv) LOCKED_NO) 0 ppo).

Definition afr_transaction (priv : afr_private) (l : afr_local) (type : afr_transaction_type) :
    afr_local * list action :=
  let l1 := mk_local (l_op l) type (has_fd l) (fdctx l) (child_up l) (pending l) (op_ret l) (op_errno l)
              (call_count l) (locked_nodes l) (lock_count l) (post_post_op l) in
  if afr_lock_server_count priv type =? 0 then begin_fop priv l1 else afr_lock priv l1.
