(* ===== verification/AfrFacts.v ===== *)
(** * cluster/afr: theorems about changelogs and sources *)

From stdpp Require Import base list numbers strings gmap.
From S2P Require Import Prelude ByteOrder AfrPending AfrTransaction.
Open Scope Z_scope.

#[local] Opaque hton32 ntoh32.

(** ** Which children are up *)

Fixpoint up_from (i : nat) (up : list bool) : list nat :=
  match up with
  | [] => []
  | b :: up' => (if b then [i] else []) ++ up_from (S i) up'
  end.

Lemma up_from_count i up : Z.of_nat (length (up_from i up)) = afr_up_children_count up.
Proof.
  unfold afr_up_children_count. f_equal. revert i.
  induction up as [|[] up IH]; intros i; simpl; [done|f_equal; apply IH|apply IH].
Qed.

Lemma elem_of_up_from i up j :
  j ∈ up_from i up <-> (i <= j)%nat /\ nth (j - i) up false = true.
Proof.
  revert i. induction up as [|b up IH]; intros i; simpl.
  { rewrite elem_of_nil. split; [done|]. intros [_ H]. by destruct (j - i)%nat. }
  rewrite elem_of_app, IH. destruct (decide (j = i)) as [->|Hne].
  - rewrite Nat.sub_diag. destruct b.
    + rewrite list_elem_of_singleton. split; [intros _; split; [lia|done]|by left].
    + rewrite elem_of_nil. split; [intros [[]|[? _]]; lia|by intros [_ ?]].
  - assert (~ j ∈ (if b then [i] else [])) as Hn.
    { destruct b; [by rewrite list_elem_of_singleton|apply not_elem_of_nil]. }
    split.
    + intros [?|[? H]]; [done|]. split; [lia|]. replace (j - i)%nat with (S (j - S i)) by lia. done.
    + intros [? H]. right. split; [lia|]. replace (j - i)%nat with (S (j - S i)) in H by lia. done.
Qed.

Lemma elem_of_ups up j : j ∈ up_from 0 up <-> nth j up false = true.
Proof. rewrite elem_of_up_from, Nat.sub_0_r. naive_solver lia. Qed.

Lemma up_count_zero up i : afr_up_children_count up = 0 -> up_from i up = [].
Proof. rewrite <-(up_from_count i). intros H. apply length_zero_iff_nil. lia. Qed.

(** ** The winds of pre-op and post-op *)

(** The transactions on one object: neither a rename nor a flush. *)
Definition plain (type : afr_transaction_type) : Prop :=
  type <> AFR_ENTRY_RENAME_TRANSACTION /\ type <> AFR_FLUSH_TRANSACTION.

Definition plain_target (l : afr_local) : target :=
  match l_type l with AFR_ENTRY_TRANSACTION => entry_target l | _ => data_target l end.

Lemma pre_loop_winds priv l i up cc :
  plain (l_type l) -> cc = afr_up_children_count up ->
  pre_loop priv l i up cc
  = map (fun c => wind_pre_op c (plain_target l) (afr_set_pending_dict priv (pending l))) (up_from i up).
Proof.
  intros [Hr Hf]. revert i cc. induction up as [|[] up IH]; intros i cc Hc; simpl; [done| |by apply IH].
  assert (pre_node priv l i = [wind_pre_op i (plain_target l) (afr_set_pending_dict priv (pending l))]) as ->.
  { unfold pre_node, plain_target. destruct (l_type l); naive_solver. }
  assert (cc = afr_up_children_count up + 1) as -> by (unfold afr_up_children_count in *; simpl in *; lia).
  cbn [length app]. change (Z.of_nat 1) with 1.
  destruct (Z.eqb_spec (afr_up_children_count up + 1 - 1) 0) as [Hz|Hz].
  - rewrite (up_count_zero up (S i)) by lia. done.
  - simpl. f_equal. apply IH. lia.
Qed.

Lemma post_loop_winds priv l i up cc :
  plain (l_type l) -> cc = afr_up_children_count up ->
  post_loop priv l i up cc
  = (l, map (fun c => wind_post_op c (plain_target l) (afr_set_pending_dict priv (pending l))) (up_from i up)).
Proof.
  intros [Hr Hf]. revert i cc. induction up as [|[] up IH]; intros i cc Hc; simpl; [done| |by apply IH].
  assert (post_node priv l i = (l, [wind_post_op i (plain_target l) (afr_set_pending_dict priv (pending l))])) as ->.
  { unfold post_node, plain_target. destruct (l_type l); naive_solver. }
  assert (cc = afr_up_children_count up + 1) as -> by (unfold afr_up_children_count in *; simpl in *; lia).
  cbn [length app]. change (Z.of_nat 1) with 1.
  destruct (Z.eqb_spec (afr_up_children_count up + 1 - 1) 0) as [Hz|Hz].
  - rewrite (up_count_zero up (S i)) by lia. done.
  - rewrite IH by lia. done.
Qed.

(** ** The replies to the pre-op *)

(** A reply: the child, [op_ret] and [op_errno]. *)
Abbreviation reply := (nat * (Z * Z))%type (only parsing).

Fixpoint deliver (priv : afr_private) (l : afr_local) (rs : list reply) : afr_local * list action :=
  match rs with
  | [] => (l, [])
  | (child, (ret, errno)) :: rs' =>
      let '(l1, acts) := afr_changelog_pre_op_cbk priv l child ret errno in
      let '(l2, acts') := deliver priv l1 rs' in
      (l2, acts ++ acts')
  end.

(** A child answers with success, or with an error that lets the operation go on. *)
Definition reply_ok (r : reply) : Prop :=
  fst (snd r) = 0 \/ (fst (snd r) = -1 /\ snd (snd r) <> ENOTSUP).

(** The children that are up when the operation is wound. *)
Definition down_after (up : list bool) (rs : list reply) : list bool :=
  foldl (fun up r => if fst (snd r) =? -1 then <[fst r := false]> up else up) up rs.

Lemma down_after_length up rs : length (down_after up rs) = length up.
Proof.
  unfold down_after. revert up. induction rs as [|r rs IH]; intros up; simpl; [done|].
  rewrite IH. destruct (_ =? -1); [by rewrite length_insert|done].
Qed.

Lemma nth_true_lt (up : list bool) j : nth j up false = true -> (j < length up)%nat.
Proof.
  intros H. destruct (Nat.lt_ge_cases j (length up)); [done|]. by rewrite nth_overflow in H.
Qed.

Lemma nth_insert_bool up i j b : nth j (<[i := b]> up) false
  = if decide (i = j /\ (i < length up)%nat) then b else nth j up false.
Proof.
  rewrite !nth_lookup.
  destruct (decide (i = j /\ (i < length up)%nat)) as [[-> Hlt]|Hn].
  - by rewrite list_lookup_insert_eq.
  - destruct (decide (i = j)) as [->|Hne]; [|by rewrite list_lookup_insert_ne].
    rewrite list_insert_ge by lia. done.
Qed.

Lemma down_after_nth up rs j :
  nth j (down_after up rs) false = true <->
  nth j up false = true /\ Forall (fun r => fst r = j -> fst (snd r) <> -1) rs.
Proof.
  unfold down_after. revert up. induction rs as [|[c [ret e]] rs IH]; intros up; simpl.
  { split; [by split|naive_solver]. }
  rewrite IH, Forall_cons. simpl. destruct (Z.eqb_spec ret (-1)) as [->|Hne].
  - rewrite nth_insert_bool. destruct (decide (c = j /\ (c < length up)%nat)) as [[-> Hlt]|Hn].
    + split; [naive_solver|]. intros (_ & H & _). naive_solver.
    + split.
      * intros [Hu Hr]. split_and!; [done| |done]. intros ->. exfalso. apply Hn. split; [done|].
        apply nth_true_lt in Hu. done.
      * naive_solver.
  - naive_solver.
Qed.

Lemma pre_op_cbk_other priv l child ret errno :
  l_op l = GF_FOP_OTHER ->
  afr_changelog_pre_op_cbk priv l child ret errno
  = let l2 := if ret =? -1 then
                set_op (if errno =? ENOTSUP then -1 else op_ret l) errno
                  (set_child_up (<[child := false]> (child_up l)) l)
              else l in
    let l3 := set_call_count (call_count l2 - 1) l2 in
    if negb (call_count l3 =? 0) then (l3, [])
    else if (op_ret l3 =? -1) && (op_errno l3 =? ENOTSUP) then afr_transaction_resume priv l3
    else (__mark_all_success l3, [run_fop]).
Proof.
  intros Hop. unfold afr_changelog_pre_op_cbk.
  assert (__mark_pre_op_done_on_fd l child = l) as ->.
  { unfold __mark_pre_op_done_on_fd. rewrite Hop. by destruct (fdctx l). }
  by destruct (ret =? 0).
Qed.

(** The last reply, whichever child it is from, starts the operation on the
    children that have not failed. *)
Lemma deliver_other priv rs l :
  l_op l = GF_FOP_OTHER -> rs <> [] -> call_count l = Z.of_nat (length rs) ->
  op_errno l <> ENOTSUP -> Forall reply_ok rs ->
  exists r e, deliver priv l rs
  = (mk_local GF_FOP_OTHER (l_type l) (has_fd l) (fdctx l) (down_after (child_up l) rs)
       (map (set_word (l_type l) (hton32 (-1))) (pending l)) r e 0 (locked_nodes l) (lock_count l)
       (post_post_op l), [run_fop]).
Proof.
  revert l. induction rs as [|[c [ret errno]] rs IH]; intros l Hop Hne Hcc Herr Hok; [done|].
  apply Forall_cons in Hok as [Hr Hok]. cbn [deliver]. rewrite pre_op_cbk_other by done.
  set (l2 := if ret =? -1 then _ else _). assert (op_errno l2 <> ENOTSUP) as Herr2.
  { subst l2. destruct (Z.eqb_spec ret (-1)) as [->|]; [|done]. destruct Hr as [Hr|[_ Hr]]; [done|exact Hr]. }
  assert (l_op l2 = GF_FOP_OTHER /\ l_type l2 = l_type l /\ has_fd l2 = has_fd l /\ fdctx l2 = fdctx l /\
          pending l2 = pending l /\ locked_nodes l2 = locked_nodes l /\ lock_count l2 = lock_count l /\
          post_post_op l2 = post_post_op l /\ call_count l2 = call_count l /\
          down_after (child_up l2) rs = down_after (child_up l) ((c, (ret, errno)) :: rs))
    as (H1 & H2 & H3 & H4 & H5 & H6 & H7 & H8 & H9 & H10).
  { subst l2. unfold down_after. simpl. destruct (ret =? -1); done. }
  clearbody l2. cbv zeta. destruct rs as [|r rs].
  - cbn [length] in Hcc. cbn [call_count set_call_count]. rewrite H9, Hcc. cbn [deliver].
    change (Z.of_nat 1 - 1 =? 0) with true. cbn [negb]. cbn [op_errno op_ret set_call_count].
    destruct (Z.eqb_spec (op_errno l2) ENOTSUP); [done|]. rewrite andb_false_r.
    exists (op_ret l2), (op_errno l2). unfold __mark_all_success, set_pending, set_call_count. simpl.
    rewrite H1, H2, H3, H4, H5, H6, H7, H8. simpl in H10. by rewrite <-H10.
  - cbn [call_count set_call_count]. rewrite H9, Hcc.
    destruct (Z.eqb_spec (Z.of_nat (length ((c, (ret, errno)) :: r :: rs)) - 1) 0) as [Hz|Hz];
      [cbn [length] in Hz; lia|]. cbn [negb].
    destruct (IH (set_call_count (call_count l - 1) l2)) as (r' & e' & Hd); [done|done| |done|done|].
    { cbn [call_count set_call_count]. rewrite Hcc. cbn [length]. lia. }
    rewrite Hcc in Hd. rewrite Hd. cbn -[down_after]. exists r', e'. by rewrite H2, H3, H4, H5, H6, H7, H8, H10.
Qed.

(** ** Rows of the pending array *)

Definition rows (k n : nat) (f : nat -> Z) : list (list Z) :=
  map (fun j => pending_array k (f j)) (seq 0 n).

Lemma rows_length k n f : length (rows k n f) = n.
Proof. unfold rows. by rewrite length_map, length_seq. Qed.

Lemma rows_lookup k n f j : (j < n)%nat -> rows k n f !! j = Some (pending_array k (f j)).
Proof.
  intros Hj. unfold rows. rewrite list_lookup_fmap, lookup_seq_lt by done. done.
Qed.

Lemma rows_ext k n f g : (forall j, (j < n)%nat -> f j = g j) -> rows k n f = rows k n g.
Proof.
  intros He. unfold rows. apply map_ext_in. intros j Hj%in_seq. rewrite He by lia. done.
Qed.

Lemma set_word_array type v w :
  set_word type v (pending_array (afr_index_for_transaction_type type) w)
  = pending_array (afr_index_for_transaction_type type) v.
Proof. unfold set_word, pending_array. by rewrite list_insert_insert_eq. Qed.

Lemma rows_mark_all type n f v :
  map (set_word type v) (rows (afr_index_for_transaction_type type) n f)
  = rows (afr_index_for_transaction_type type) n (fun _ => v).
Proof. unfold rows. rewrite map_map. apply map_ext. intros j. apply set_word_array. Qed.

Lemma rows_replicate k n : replicate n [0; 0; 0] = rows k n (fun _ => 0).
Proof.
  apply list_eq. intros j. destruct (Nat.lt_ge_cases j n).
  - rewrite rows_lookup, lookup_replicate_2 by done. f_equal. unfold pending_array.
    by destruct k as [|[|[|]]].
  - rewrite !lookup_ge_None_2; [done|by rewrite rows_length|by rewrite length_replicate].
Qed.

Lemma rows_alter type n f c :
  alter (set_word type 0) c (rows (afr_index_for_transaction_type type) n f)
  = rows (afr_index_for_transaction_type type) n (fun j => if decide (j = c) then 0 else f j).
Proof.
  apply list_eq. intros j. destruct (Nat.lt_ge_cases j n) as [Hj|Hj].
  - rewrite rows_lookup by done. destruct (decide (j = c)) as [->|Hne].
    + rewrite list_lookup_alter_eq, rows_lookup by done. simpl. by rewrite set_word_array.
    + rewrite list_lookup_alter_ne by done. by apply rows_lookup.
  - rewrite !lookup_ge_None_2; [done|by rewrite rows_length|by rewrite length_alter, rows_length].
Qed.

Lemma zero_where_length type flags p : length (zero_where type flags p) = length p.
Proof. revert flags. induction p as [|r p IH]; intros [|b flags]; simpl; [done..|]. by rewrite IH. Qed.

Lemma zero_where_lookup type flags p j :
  zero_where type flags p !! j
  = (fun row => if nth j flags false then set_word type 0 row else row) <$> (p !! j).
Proof.
  revert flags j. induction p as [|r p IH]; intros [|b flags] [|j]; simpl; try done.
  by destruct (p !! j).
Qed.

Lemma rows_zero_where type n f flags :
  zero_where type flags (rows (afr_index_for_transaction_type type) n f)
  = rows (afr_index_for_transaction_type type) n (fun j => if nth j flags false then 0 else f j).
Proof.
  apply list_eq. intros j. rewrite zero_where_lookup. destruct (Nat.lt_ge_cases j n) as [Hj|Hj].
  - rewrite !rows_lookup by done. simpl. destruct (nth j flags false); [by rewrite set_word_array|done].
  - rewrite !lookup_ge_None_2; [done|by rewrite rows_length..].
Qed.

(** ** Additions on disk *)

Definition no_io (_ : string) : option Z := None.

(** The arrays a child has for the keys are of three words. *)
Definition disk_ok (keys : list string) (disk : gmap string (list Z)) : Prop :=
  forall key v, key ∈ keys -> disk !! key = Some v -> length v = 3%nat.

Lemma add_array_length d s : length (__add_array d s) = Nat.min (length d) (length s).
Proof. unfold __add_array. apply length_zip_with. Qed.

Lemma do_xattrop_spec kvs disk :
  NoDup kvs.*1 -> Forall (fun kv => length (snd kv) = 3%nat) kvs -> disk_ok kvs.*1 disk ->
  snd (do_xattrop no_io disk kvs) = (0, 0) /\
  (forall key v, (key, v) ∈ kvs ->
     fst (do_xattrop no_io disk kvs) !! key = Some (__add_array (default [0; 0; 0] (disk !! key)) v)) /\
  (forall key, ~ (key ∈ kvs.*1) -> fst (do_xattrop no_io disk kvs) !! key = disk !! key).
Proof.
  revert disk. induction kvs as [|[key v] kvs IH]; intros disk Hnd Hl Hok; simpl.
  { split_and!; [done| |done]. intros key v Hin. by apply elem_of_nil in Hin. }
  cbn in Hnd. apply NoDup_cons in Hnd as [Hni Hnd]. apply Forall_cons in Hl as [Hlv Hl]. simpl in Hlv.
  assert (read_xattr disk key (length v) = inl (default [0; 0; 0] (disk !! key))) as Hread.
  { unfold read_xattr. rewrite Hlv. destruct (disk !! key) as [w|] eqn:Hw; [|done].
    assert (length w = 3%nat) as -> by (eapply Hok; [left|exact Hw]). simpl. by rewrite app_nil_r. }
  rewrite Hread. destruct (IH (<[key := __add_array (default [0; 0; 0] (disk !! key)) v]> disk))
    as (Hs & Hin & Hout); [done|done| |].
  { intros key' w Hk Hw. destruct (decide (key' = key)) as [->|Hne]; [done|].
    rewrite lookup_insert_ne in Hw by done. eapply Hok; [right; exact Hk|exact Hw]. }
  split; [done|]. split.
  - intros key' v' Hkv. apply elem_of_cons in Hkv as [[= -> ->]|Hkv].
    + rewrite Hout by done. by rewrite lookup_insert_eq.
    + rewrite (Hin key' v') by done. rewrite lookup_insert_ne; [done|].
      intros ->. apply Hni. apply list_elem_of_fmap. by exists (key', v').
  - intros key' Hk. cbn in Hk. apply not_elem_of_cons in Hk as [? ?].
    rewrite Hout by done. by rewrite lookup_insert_ne.
Qed.

Lemma ntoh32_0 : ntoh32 0 = 0.
Proof. by vm_compute. Qed.

(** The counter of a child's array after an addition. *)
Lemma pending_after_add k (d : list Z) v :
  (k < 3)%nat -> length d = 3%nat ->
  i32 (ntoh32 (nth k (__add_array d (pending_array k v)) 0)) = i32 (i32 (ntoh32 (nth k d 0)) + ntoh32 v).
Proof.
  intros Hk Hd. destruct d as [|d0 [|d1 [|d2 [|]]]]; simpl in Hd; try lia.
  rewrite i32_add_l. unfold __add_array, pending_array.
  destruct k as [|[|[|]]]; [..|lia]; cbn; rewrite ntoh32_hton32, !i32_u32; done.
Qed.

Lemma rows_dict_keys (keys : list string) k n f : length keys = n -> (zip keys (rows k n f)).*1 = keys.
Proof. intros Hl. rewrite fst_zip; [done|]. rewrite rows_length. lia. Qed.

Lemma rows_dict_len (keys : list string) k n f : Forall (fun kv => length (snd kv) = 3%nat) (zip keys (rows k n f)).
Proof.
  apply Forall_forall. intros [key v] Hin. apply elem_of_zip_r in Hin. simpl.
  unfold rows in Hin. apply list_elem_of_fmap in Hin as (j & -> & _).
  unfold pending_array. by rewrite length_insert.
Qed.

Lemma index_lt type : (afr_index_for_transaction_type type < 3)%nat.
Proof. destruct type; simpl; lia. Qed.

(** Adding one array of rows to the changelogs of a child. *)
Lemma add_rows (keys : list string) k n f disk :
  length keys = n -> NoDup keys -> disk_ok keys disk -> (k < 3)%nat ->
  let d := fst (do_xattrop no_io disk (zip keys (rows k n f))) in
  disk_ok keys d /\
  forall j key, keys !! j = Some key ->
    pending_of k (Some d) key = i32 (pending_of k (Some disk) key + ntoh32 (f j)) /\
    is_Some (d !! key).
Proof.
  intros Hl Hnd Hok Hk d. pose proof (rows_dict_keys keys k n f Hl) as Hkeys.
  destruct (do_xattrop_spec (zip keys (rows k n f)) disk) as (_ & Hin & _);
    [by rewrite Hkeys|apply rows_dict_len|by rewrite Hkeys|]. fold d in Hin.
  assert (forall j key, keys !! j = Some key ->
            d !! key = Some (__add_array (default [0; 0; 0] (disk !! key)) (pending_array k (f j)))) as Hd.
  { intros j key Hj. apply Hin. apply list_elem_of_lookup. exists j.
    apply lookup_zip_Some. split; [done|]. apply rows_lookup. apply lookup_lt_Some in Hj. lia. }
  assert (forall key, key ∈ keys -> length (default [0; 0; 0] (disk !! key)) = 3%nat) as Hdl.
  { intros key Hkey. destruct (disk !! key) eqn:Hw; [|done]. by eapply Hok. }
  split.
  - intros key v Hkey Hv. apply list_elem_of_lookup in Hkey as [j Hj]. rewrite (Hd j key Hj) in Hv.
    injection Hv as <-. rewrite add_array_length, Hdl by (by eapply list_elem_of_lookup_2).
    unfold pending_array. by rewrite length_insert.
  - intros j key Hj. unfold pending_of, dict_get_ptr. simpl. rewrite (Hd j key Hj). split; [|done].
    rewrite pending_after_add by (done || apply Hdl; by eapply list_elem_of_lookup_2).
    destruct (disk !! key); [done|].
    destruct k as [|[|[|]]]; [..|lia]; cbn; by rewrite ntoh32_0.
Qed.

(** ** A whole transaction *)

Lemma fop_failed_rows n f fs l :
  let k := afr_index_for_transaction_type (l_type l) in
  l_op l = GF_FOP_OTHER -> pending l = rows k n f ->
  foldl afr_transaction_fop_failed l fs
  = set_pending (rows k n (fun j => if decide (j ∈ fs) then 0 else f j)) l.
Proof.
  intros k. subst k. revert l f. induction fs as [|c fs IH]; intros l f Hop Hp; cbn [foldl].
  { rewrite <-(rows_ext _ _ f); [|intros j _; by destruct (decide (j ∈ [])) as [?%elem_of_nil|]].
    rewrite <-Hp. by destruct l. }
  assert (afr_transaction_fop_failed l c = __mark_child_dead l c) as ->.
  { unfold afr_transaction_fop_failed. by rewrite Hop. }
  rewrite (IH _ (fun j => if decide (j = c) then 0 else f j)); [|done|].
  - unfold __mark_child_dead, set_pending. simpl. f_equal. apply rows_ext. intros j _.
    destruct (decide (j ∈ fs)), (decide (j = c)), (decide (j ∈ c :: fs)) as [Hin|Hin]; try done;
      first [apply elem_of_cons in Hin; naive_solver|exfalso; apply Hin, elem_of_cons; naive_solver].
  - simpl. rewrite Hp. apply rows_alter.
Qed.

(** What holds when the changelog phase of a transaction starts. *)
Record startable (priv : afr_private) (l : afr_local) (n : nat) : Prop := {
  st_op : l_op l = GF_FOP_OTHER;
  st_plain : plain (l_type l);
  st_log : __changelog_enabled priv (l_type l) = true;
  st_up : length (child_up l) = n;
  st_keys : length (pending_key priv) = n;
  st_nodup : NoDup (pending_key priv);
  st_pending : pending l = replicate n [0; 0; 0];
  st_errno : op_errno l <> ENOTSUP
}.

(** The counter added for a child: it failed, or was not reached. *)
Definition completed (up : list bool) (fs : list nat) (j : nat) : bool :=
  nth j up false && bool_decide (j ∉ fs).

Lemma pre_op_winds priv l n :
  startable priv l n -> up_from 0 (child_up l) <> [] ->
  let k := afr_index_for_transaction_type (l_type l) in
  afr_changelog_pre_op priv l
  = (set_pending (rows k n (fun _ => hton32 1)) (set_call_count (Z.of_nat (length (up_from 0 (child_up l)))) l),
     map (fun c => wind_pre_op c (plain_target l) (zip (pending_key priv) (rows k n (fun _ => hton32 1))))
       (up_from 0 (child_up l))).
Proof.
  intros [Hop Hpl Hlog Hup Hk Hnd Hp He] Hne k. unfold afr_changelog_pre_op.
  assert (is_rename (l_type l) = false) as ->.
  { unfold is_rename. apply bool_decide_eq_false. apply Hpl. }
  pose proof (up_from_count 0 (child_up l)) as Hc.
  destruct (Z.eqb_spec (afr_up_children_count (child_up l)) 0) as [Hz|Hz].
  { exfalso. apply Hne. by apply up_count_zero. }
  unfold __mark_all_pending. cbn [l_type pending set_call_count].
  rewrite Hp, (rows_replicate k n), rows_mark_all. fold k. cbn [child_up set_pending].
  rewrite pre_loop_winds; [|done|done]. rewrite Hc. done.
Qed.

Lemma resume_winds priv l n f :
  let k := afr_index_for_transaction_type (l_type l) in
  l_op l = GF_FOP_OTHER -> plain (l_type l) -> __changelog_enabled priv (l_type l) = true ->
  length (child_up l) = n -> pending l = rows k n f -> up_from 0 (child_up l) <> [] ->
  snd (afr_transaction_resume priv l)
  = map (fun c => wind_post_op c (plain_target l)
           (zip (pending_key priv) (rows k n (fun j => if nth j (child_up l) false then f j else 0))))
      (up_from 0 (child_up l)).
Proof.
  intros k Hop Hpl Hlog Hup Hp Hne. unfold afr_transaction_resume, __changelog_needed_post_op.
  rewrite Hlog, Hop. cbn [andb]. unfold afr_changelog_post_op. rewrite Hop.
  cbn [bool_decide glusterfs_fop_eq].
  assert (bool_decide (GF_FOP_OTHER = GF_FOP_FLUSH) = false) as -> by done.
  assert (is_rename (l_type l) = false) as ->.
  { unfold is_rename. apply bool_decide_eq_false. apply Hpl. }
  unfold __mark_down_children. cbn [child_up set_pending].
  destruct (Z.eqb_spec (afr_up_children_count (child_up l)) 0) as [Hz|Hz].
  { exfalso. apply Hne. by apply up_count_zero. }
  rewrite post_loop_winds; [|done|done]. cbn [snd pending set_call_count set_pending].
  unfold afr_set_pending_dict. rewrite Hp, rows_zero_where. fold k.
  rewrite (rows_ext k n _ (fun j => if nth j (child_up l) false then f j else 0)); [done|].
  intros j Hj. rewrite <-Hup in Hj.
  rewrite (nth_indep _ false (negb false)) by (by rewrite length_map). rewrite map_nth.
  by destruct (nth j (child_up l) false).
Qed.

(** What happens to the changelogs of child [i], with [d0] before and [d] after:
    where the child is up for the operation both additions are made; where it
    was down or answered the pre-op with an error, the first may have been. *)
Definition child_after (pre post : list action) (i : nat) (up : bool) (d0 d : gmap string (list Z)) : Prop :=
  if up then
    exists t x t' x', wind_pre_op i t x ∈ pre /\ wind_post_op i t' x' ∈ post /\
      d = fst (do_xattrop no_io (fst (do_xattrop no_io d0 x)) x')
  else d = d0 \/ exists t x, wind_pre_op i t x ∈ pre /\ d = fst (do_xattrop no_io d0 x).

(** The three phases together: what they wind and who takes part. *)
Lemma transaction_winds priv l n rs fs l1 pre l2 acts l3 post :
  startable priv l n -> map fst rs ≡ₚ up_from 0 (child_up l) -> Forall reply_ok rs ->
  up_from 0 (down_after (child_up l) rs) <> [] ->
  afr_changelog_pre_op priv l = (l1, pre) -> deliver priv l1 rs = (l2, acts) ->
  afr_transaction_resume priv (foldl afr_transaction_fop_failed l2 fs) = (l3, post) ->
  let k := afr_index_for_transaction_type (l_type l) in
  let up := down_after (child_up l) rs in
  child_up l2 = up /\ acts = [run_fop] /\
  pre = map (fun c => wind_pre_op c (plain_target l) (zip (pending_key priv) (rows k n (fun _ => hton32 1))))
          (up_from 0 (child_up l)) /\
  post = map (fun c => wind_post_op c (plain_target l)
           (zip (pending_key priv) (rows k n (fun j => if completed up fs j then hton32 (-1) else 0))))
          (up_from 0 up).
Proof.
  intros Hst Hperm Hok Hsurv Hpre Hdel Hres k up.
  assert (up_from 0 (child_up l) <> []) as Hne.
  { intros Hnil. apply Hsurv. rewrite Hnil in Hperm. apply Permutation_nil_r in Hperm.
    destruct rs; [done|discriminate]. }
  pose proof (pre_op_winds priv l n Hst Hne) as Hpw. rewrite Hpre in Hpw. injection Hpw as -> ->. fold k in Hdel |- *.
  destruct Hst as [Hop Hpl Hlog Hup Hkeys Hnd Hp He].
  edestruct (deliver_other priv rs) as (r & e & Hd); [..|rewrite Hd in Hdel].
  - exact Hop.
  - intros ->. cbn in Hperm. apply Permutation_nil_l in Hperm. done.
  - cbn [call_count set_pending set_call_count]. by rewrite <-Hperm, length_map.
  - exact He.
  - exact Hok.
  - injection Hdel as <- <-. cbn [child_up set_pending set_call_count l_type pending] in *.
    rewrite rows_mark_all in Hres. fold k in Hres.
    rewrite (fop_failed_rows n (fun _ => hton32 (-1))) in Hres by done.
    split_and!; [done..|]. apply (f_equal snd) in Hres. cbn [snd] in Hres. rewrite <-Hres.
    erewrite resume_winds; [..|reflexivity|];
      [|done|exact Hpl|exact Hlog|cbn; by rewrite down_after_length|done].
    cbn [child_up set_pending l_type pending]. fold k up.
    rewrite (rows_ext k n (fun j => if nth j up false then if decide (j ∈ fs) then 0 else hton32 (-1) else 0)
               (fun j => if completed up fs j then hton32 (-1) else 0)); [done|].
    intros j _. unfold completed. destruct (nth j up false); [|done].
    cbn [andb]. destruct (decide (j ∈ fs)), (bool_decide_reflect (j ∉ fs)); done.
Qed.

(** The counters of a child that took part in the whole transaction. *)
Lemma child_after_counts priv l n rs fs l1 pre l2 acts l3 post i d0 d :
  startable priv l n -> map fst rs ≡ₚ up_from 0 (child_up l) -> Forall reply_ok rs ->
  up_from 0 (down_after (child_up l) rs) <> [] ->
  afr_changelog_pre_op priv l = (l1, pre) -> deliver priv l1 rs = (l2, acts) ->
  afr_transaction_resume priv (foldl afr_transaction_fop_failed l2 fs) = (l3, post) ->
  let k := afr_index_for_transaction_type (l_type l) in
  disk_ok (pending_key priv) d0 -> child_after pre post i (nth i (child_up l2) false) d0 d ->
  (nth i (child_up l2) false = false /\ d = d0) \/
  (forall j key, pending_key priv !! j = Some key ->
    pending_of k (Some d) key
    = i32 (pending_of k (Some d0) key
           + (if nth i (child_up l2) false && completed (child_up l2) fs j then 0 else 1)) /\
    is_Some (d !! key)).
Proof.
  intros Hst Hperm Hok Hsurv Hpre Hdel Hres k Hd0 Hca.
  pose proof (transaction_winds _ _ _ _ _ _ _ _ _ _ _ Hst Hperm Hok Hsurv Hpre Hdel Hres) as (Hup & _ & Hp & Hq).
  rewrite Hup in Hca |- *. clear Hpre Hdel Hres Hup. fold k in Hp, Hq.
  set (up := down_after (child_up l) rs) in *. pose proof (index_lt (l_type l)) as Hk. fold k in Hk.
  assert (forall t x, wind_pre_op i t x ∈ pre -> x = zip (pending_key priv) (rows k n (fun _ => hton32 1))) as Hx.
  { intros t x. rewrite Hp. intros (c & [= -> -> ->] & _)%list_elem_of_fmap. done. }
  destruct (add_rows (pending_key priv) k n (fun _ => hton32 1) d0) as [Hok1 Hadd1];
    [apply Hst|apply Hst|done|done|].
  unfold child_after in Hca. destruct (nth i up false) eqn:Hi.
  - destruct Hca as (t & x & t' & x' & H1 & H2 & ->). apply Hx in H1 as ->. rewrite Hq in H2.
    apply list_elem_of_fmap in H2 as (c & [= -> -> ->] & _). right. intros j key Hj.
    destruct (add_rows (pending_key priv) k n (fun j => if completed up fs j then hton32 (-1) else 0)
                (fst (do_xattrop no_io d0 (zip (pending_key priv) (rows k n (fun _ => hton32 1))))))
      as [_ Hadd2]; [apply Hst|apply Hst|done|done|].
    destruct (Hadd1 j key Hj) as [E1 _]. destruct (Hadd2 j key Hj) as [E2 Hs2]. split; [|done].
    rewrite E2, E1, i32_add_l. cbn [andb]. rewrite ntoh32_hton32.
    destruct (completed up fs j); [rewrite ntoh32_hton32|rewrite ntoh32_0, Z.add_0_r; done].
    rewrite <-(i32_u32 (_ + 0)), <-(i32_u32 (_ + u32 (-1))). f_equal. unfold u32.
    rewrite Z.add_0_r, Zplus_mod_idemp_r. f_equal. rewrite (Z.mod_small 1) by lia. lia.
  - destruct Hca as [->|(t & x & H1 & ->)]; [by left|]. right. apply Hx in H1 as ->. intros j key Hj.
    destruct (Hadd1 j key Hj) as [E1 Hs1]. split; [|done]. rewrite E1, ntoh32_hton32. done.
Qed.

(** ** Sources *)

Lemma mget_mset m i j v a b : mget (mset m i j v) a b <> mget m a b -> a = i /\ b = j.
Proof.
  unfold mget, mset. rewrite !nth_lookup. intros Hne. destruct (decide (a = i)) as [->|Ha].
  - split; [done|]. rewrite list_lookup_alter_eq in Hne. destruct (m !! i) as [row|]; [|done]. simpl in Hne.
    destruct (decide (b = j)) as [->|Hb]; [done|]. by rewrite list_lookup_insert_ne in Hne.
  - by rewrite list_lookup_alter_ne in Hne.
Qed.

Lemma size_differs_sym a b : SIZE_DIFFERS a b = SIZE_DIFFERS b a.
Proof. unfold SIZE_DIFFERS. f_equal. apply Z.eqb_sym. Qed.

(** Marks for differing sizes come only where the sizes differ. *)
Lemma size_marks buf ps m d m' d' :
  foldl (size_mark buf) (m, d) ps = (m', d') -> forall a b, mget m' a b <> mget m a b ->
  SIZE_DIFFERS (nth a buf iattr0) (nth b buf iattr0) = true.
Proof.
  revert m d. induction ps as [|[i j] ps IH]; intros m d; cbn [foldl].
  { intros [= -> ->] a b. done. }
  unfold size_mark at 2. destruct (SIZE_DIFFERS (nth i buf iattr0) (nth j buf iattr0)) eqn:Hsd; cbn [andb];
    [|by apply IH].
  destruct (_ && _); [|by apply IH]. intros H a b Hne.
  destruct (decide (mget m' a b = mget (mset (mset m i j 1) j i 1) a b)) as [Heq|Hneq]; [|by eapply IH].
  rewrite Heq in Hne. destruct (decide (mget (mset (mset m i j 1) j i 1) a b = mget (mset m i j 1) a b)) as [E|E].
  - rewrite E in Hne. apply mget_mset in Hne as [-> ->]. done.
  - apply mget_mset in E as [-> ->]. by rewrite size_differs_sym.
Qed.

Lemma mark_wisest cs :
  afr_sh_mark_wisest_as_sources (replicate (length cs) 0) cs
  = (map (fun c => if c_wisdom c =? 1 then 1 else 0) cs,
     Z.of_nat (length (List.filter (fun c => c_wisdom c =? 1) cs))).
Proof.
  induction cs as [|c cs IH]; simpl; [done|]. rewrite IH. destruct (c_wisdom c =? 1); cbn [length]; [|done].
  f_equal. lia.
Qed.

(** The matrix after operations that were completed on the children [ok]: those
    accuse exactly the others, and each of the others is all zero or accuses
    itself. *)
Definition survivors (ok : nat -> bool) (n : nat) (m : list (list Z)) : Prop :=
  forall i, (i < n)%nat -> length (nth i m []) = n /\
    if ok i then forall j, (j < n)%nat -> (mget m i j = 0 <-> ok j = true)
    else afr_sh_is_innocent (nth i m []) = true \/ mget m i i <> 0.

Lemma classify_ok ok n m i bad :
  survivors ok n m -> (bad < n)%nat -> ok bad = false -> (i < n)%nat ->
  c_type (classify m i) = AFR_NODE_WISE <-> ok i = true.
Proof.
  intros Hs Hb Hbad Hi. destruct (Hs i Hi) as [Hl Hrow]. unfold classify. simpl.
  destruct (ok i) eqn:Hoki.
  - split; [done|intros _]. destruct (afr_sh_is_innocent (nth i m [])) eqn:Hin.
    + exfalso. unfold afr_sh_is_innocent in Hin. rewrite forallb_forall in Hin.
      assert (mget m i bad = 0) as Hz.
      { apply Z.eqb_eq, Hin. unfold mget. apply nth_In. lia. }
      apply Hrow in Hz; [congruence|done].
    + assert (mget m i i = 0) as Hz by (by apply Hrow). unfold mget in Hz.
      unfold afr_sh_is_fool, afr_sh_is_wise. by rewrite Hz.
  - split; [|done]. destruct Hrow as [->|Hne]; [done|].
    destruct (afr_sh_is_innocent (nth i m [])); [done|].
    unfold afr_sh_is_fool. unfold mget in Hne. destruct (Z.eqb_spec (nth i (nth i m []) 0) 0); done.
Qed.

Section Survivors.
Variables (ok : nat -> bool) (n : nat) (m : list (list Z)) (good bad : nat).
Hypotheses (Hs : survivors ok n m) (Hg : (good < n)%nat) (Hgood : ok good = true)
  (Hb : (bad < n)%nat) (Hbad : ok bad = false).

Definition chars : list afr_node_character := map (classify m) (seq 0 n).

Lemma chars_lookup i : (i < n)%nat -> chars !! i = Some (classify m i).
Proof. intros Hi. unfold chars. by rewrite list_lookup_fmap, lookup_seq_lt. Qed.

Lemma chars_length : length chars = n.
Proof. unfold chars. by rewrite length_map, length_seq. Qed.

Lemma chars_wise i : (i < n)%nat -> has_type AFR_NODE_WISE (classify m i) = ok i.
Proof.
  intros Hi. unfold has_type. pose proof (classify_ok ok n m i bad Hs Hb Hbad Hi) as Hc.
  destruct (bool_decide_reflect (c_type (classify m i) = AFR_NODE_WISE)), (ok i); naive_solver.
Qed.

Lemma chars_good : classify m good ∈ chars.
Proof. eapply list_elem_of_lookup_2. by apply chars_lookup. Qed.

Lemma chars_not_innocent : afr_sh_all_nodes_innocent chars = false.
Proof.
  apply not_true_iff_false. unfold afr_sh_all_nodes_innocent. rewrite forallb_forall. intros Hall.
  specialize (Hall (classify m good)). rewrite <-list_elem_of_In in Hall. specialize (Hall chars_good).
  pose proof (chars_wise good Hg) as Hw. rewrite Hgood in Hw. unfold has_type in *.
  apply bool_decide_eq_true in Hw, Hall. congruence.
Qed.

Lemma chars_wise_exist : afr_sh_wise_nodes_exist chars = true.
Proof.
  apply existsb_exists. exists (classify m good). rewrite <-list_elem_of_In.
  split; [apply chars_good|]. by rewrite chars_wise.
Qed.

(** With a matrix in which survivors do not accuse each other. *)
Lemma chars_wisdom m' :
  (forall i j, (i < n)%nat -> (j < n)%nat -> ok i = true -> ok j = true -> mget m' i j = 0) ->
  afr_sh_compute_wisdom m' chars
  = map (fun i => mk_char (c_type (classify m i)) (if ok i then 1 else 0)) (seq 0 n).
Proof.
  intros Hm'. apply list_eq. intros i. unfold afr_sh_compute_wisdom. rewrite list_lookup_imap.
  destruct (Nat.lt_ge_cases i n) as [Hi|Hi].
  2:{ rewrite !lookup_ge_None_2; [done|by rewrite length_map, length_seq|by rewrite chars_length]. }
  rewrite chars_lookup by done. rewrite list_lookup_fmap, lookup_seq_lt by done. cbn.
  rewrite chars_wise by done. destruct (ok i) eqn:Hoki; [|reflexivity].
  assert (accused_by_wise m' chars i = false) as ->; [|done].
  apply not_true_iff_false. unfold accused_by_wise. rewrite existsb_exists.
  intros (j & Hj%in_seq & Hacc). rewrite chars_length in Hj. rewrite chars_lookup in Hacc by lia.
  rewrite chars_wise in Hacc by lia. apply andb_true_iff in Hacc as [Hokj Hacc].
  rewrite Hm' in Hacc by (done || lia). done.
Qed.

Lemma mark_sources_survivors buf src type :
  (forall b, buf = Some b -> forall i j, ok i = true -> ok j = true ->
     st_size (nth i b iattr0) = st_size (nth j b iattr0)) ->
  let r := afr_sh_mark_sources (mk_sh buf m src) n type in
  sh_sources (fst r) = map (fun i => if ok i then 1 else 0) (seq 0 n) /\
  snd r = Z.of_nat (length (List.filter ok (seq 0 n))).
Proof.
  intros Hsize r. unfold afr_sh_mark_sources in r. cbn [sh_buf sh_pending sh_sources] in r. fold chars in r.
  set (md := if bool_decide (type = AFR_SELF_HEAL_DATA) then _ else _) in r.
  destruct md as [m' sd] eqn:Hmd.
  assert (forall i j, (i < n)%nat -> (j < n)%nat -> ok i = true -> ok j = true -> mget m' i j = 0) as Hm'.
  { intros i j Hi Hj Hoki Hokj. destruct (Hs i Hi) as [_ Hrow]. rewrite Hoki in Hrow.
    apply (Hrow j Hj) in Hokj as Hz. destruct (decide (mget m' i j = mget m i j)) as [->|Hne]; [done|].
    exfalso. subst md. destruct (bool_decide (type = AFR_SELF_HEAL_DATA)); [|by injection Hmd as <- _].
    unfold afr_sh_mark_if_size_differs in Hmd. cbn in Hmd. destruct buf as [b|]; [|by injection Hmd as <- _].
    pose proof (size_marks _ _ _ _ _ _ Hmd i j Hne) as Hsd. unfold SIZE_DIFFERS in Hsd.
    rewrite (Hsize b eq_refl i j), Z.eqb_refl in Hsd; done. }
  subst r. rewrite chars_not_innocent, andb_false_r, chars_wise_exist, (chars_wisdom m' Hm').
  assert (afr_sh_wise_nodes_conflict
    (map (fun i => mk_char (c_type (classify m i)) (if ok i then 1 else 0)) (seq 0 n)) = false) as ->.
  { unfold afr_sh_wise_nodes_conflict. apply negb_false_iff, existsb_exists.
    exists (mk_char (c_type (classify m good)) 1). split.
    - apply in_map_iff. exists good. rewrite Hgood. split; [done|]. apply in_seq. lia.
    - pose proof (chars_wise good Hg) as Hw. rewrite Hgood in Hw. unfold has_type in *. cbn [c_type c_wisdom]. by rewrite Hw. }
  cbn [sh_sources fst snd].
  pose proof (mark_wisest (map (fun i => mk_char (c_type (classify m i)) (if ok i then 1 else 0)) (seq 0 n))) as Hmw.
  rewrite length_map, length_seq in Hmw. rewrite Hmw. cbn [fst snd]. rewrite map_map. split.
  - apply map_ext. intros i. cbn. by destruct (ok i).
  - f_equal. rewrite <-(length_map (fun i => mk_char (c_type (classify m i)) (if ok i then 1 else 0)) (List.filter ok (seq 0 n))).
    f_equal. clear. induction (seq 0 n) as [|i l IH]; [done|]. cbn [map List.filter c_wisdom].
    destruct (ok i) eqn:Hoki; cbn [map Z.eqb Pos.eqb]; rewrite IH, ?Hoki; done.
Qed.

End Survivors.
