(* ===== verification/AfrProps.v ===== *)
(** * cluster/afr: what changelogs and sources guarantee *)

From stdpp Require Import base list numbers strings gmap.
From S2P Require Import Prelude ByteOrder AfrPending AfrTransaction AfrFacts.
Open Scope Z_scope.

(** ** Concrete children *)

Definition priv2 : afr_private :=
  mk_priv 2 ["a"; "b"] true true true 0 0 0.

Definition clean2 : gmap string (list Z) := <["a" := [0; 0; 0]]> (<["b" := [0; 0; 0]]> ∅).

Definition local2 (op : glusterfs_fop) (type : afr_transaction_type) (c : option afr_fd_ctx) : afr_local :=
  mk_local op type (bool_decide (c <> None)) c [true; true] (replicate 2 [0; 0; 0]) (-1) EUCLEAN 2
    [LOCKED_NO; LOCKED_NO] 0 None.

(** What wound additions do to the changelogs of the children. *)
Definition apply_winds (disks : list (gmap string (list Z))) (acts : list action) :
    list (gmap string (list Z)) :=
  foldl (fun ds a => match a with
                     | wind_pre_op i _ x | wind_post_op i _ x =>
                         alter (fun d => fst (do_xattrop no_io d x)) i ds
                     | _ => ds
                     end) disks acts.

(** A data operation on an fd of two clean children that fails on [failed], and
    then the flush of the fd: the pending matrix. *)
Definition data_then_flush (op : glusterfs_fop) (failed : list nat) : list (list Z) :=
  let c := mk_fdctx [false; false] [true; true] [false; false] in
  let '(l1, pre) := afr_transaction priv2 (local2 op AFR_DATA_TRANSACTION (Some c)) AFR_DATA_TRANSACTION in
  let '(l2, _) := deliver priv2 l1 [(0%nat, (0, 0)); (1%nat, (0, 0))] in
  let l3 := foldl afr_transaction_fop_failed l2 failed in
  let '(l4, post) := afr_transaction_resume priv2 l3 in
  let disks := apply_winds (apply_winds [clean2; clean2] pre) post in
  let '(f1, _) := afr_transaction priv2 (local2 GF_FOP_FLUSH AFR_FLUSH_TRANSACTION (fdctx l4))
                    AFR_FLUSH_TRANSACTION in
  let '(_, fpost) := afr_transaction_resume priv2 f1 in
  afr_sh_build_pending_matrix (pending_key priv2) (map Some (apply_winds disks fpost)) AFR_DATA_TRANSACTION.

(** ** Facts for the theorems *)

(** The changelogs of a child are there and zero. *)
Definition clean_disk (keys : list string) (d : gmap string (list Z)) : Prop :=
  forall key, key ∈ keys -> d !! key = Some [0; 0; 0].

Lemma clean_disk_ok keys d : clean_disk keys d -> disk_ok keys d.
Proof. intros Hc key v Hk Hv. rewrite Hc in Hv by done. by injection Hv as <-. Qed.

Lemma clean_pending keys d k key : clean_disk keys d -> key ∈ keys -> pending_of k (Some d) key = 0.
Proof.
  intros Hc Hk. unfold pending_of, dict_get_ptr. cbn. rewrite Hc by done.
  by destruct k as [|[|[|[|]]]].
Qed.

(** A child that has all keys is not ignorant. *)
Lemma known_child keys d : (forall key, key ∈ keys -> is_Some (d !! key)) -> ignorant keys (Some d) = false.
Proof.
  intros Hk. apply not_true_iff_false. unfold ignorant. rewrite existsb_exists.
  intros (key & Hin%list_elem_of_In & H). destruct (Hk key Hin) as [v Hv]. unfold dict_get_ptr in H. cbn in H.
  by rewrite Hv in H.
Qed.

Lemma accuse_none row ign : Forall (fun b => b = false) ign -> accuse_ignorant row ign = row.
Proof.
  intros Hf. revert row. induction Hf as [|b ign -> _ IH]; intros [|v row]; simpl; [done..|]. by rewrite IH.
Qed.

Lemma matrix_known keys ds type i j key d :
  Forall (fun d => forall key, key ∈ keys -> is_Some (d !! key)) ds ->
  ds !! i = Some d -> keys !! j = Some key ->
  let m := afr_sh_build_pending_matrix keys (map Some ds) type in
  nth i m [] = map (pending_of (afr_index_for_transaction_type type) (Some d)) keys /\
  mget m i j = pending_of (afr_index_for_transaction_type type) (Some d) key.
Proof.
  intros Hall Hi Hj m.
  assert (nth i m [] = map (pending_of (afr_index_for_transaction_type type) (Some d)) keys) as Hrow.
  { unfold m, afr_sh_build_pending_matrix. rewrite nth_lookup, map_map, list_lookup_fmap, Hi. cbn.
    rewrite known_child by (rewrite Forall_forall in Hall; apply Hall; by eapply list_elem_of_lookup_2).
    apply accuse_none. rewrite map_map. apply Forall_map. eapply Forall_impl; [exact Hall|].
    intros d' Hd'. by apply known_child. }
  split; [done|]. unfold mget. rewrite Hrow, nth_lookup, list_lookup_fmap, Hj. done.
Qed.

(** The data of a split brain: a child that is wise. *)
Definition wise (m : list (list Z)) (i : nat) : Prop := c_type (classify m i) = AFR_NODE_WISE.

#[export] Instance wise_dec m i : Decision (wise m i).
Proof. unfold wise. apply _. Defined.

Lemma chars_elem m n i : (i < n)%nat -> chars n m !! i = Some (classify m i).
Proof. apply chars_lookup. Qed.

Lemma accused_spec m m' n i :
  accused_by_wise m' (chars n m) i = true <-> exists j, (j < n)%nat /\ wise m j /\ mget m' j i <> 0.
Proof.
  unfold accused_by_wise. rewrite existsb_exists. split.
  - intros (j & Hj%in_seq & H). rewrite chars_length in Hj. rewrite chars_elem in H by lia.
    apply andb_true_iff in H as [Hw Hz]. unfold has_type in Hw. apply bool_decide_eq_true in Hw.
    exists j. split_and!; [lia|done|]. destruct (Z.eqb_spec (mget m' j i) 0); done.
  - intros (j & Hj & Hw & Hz). exists j. split; [apply in_seq; rewrite chars_length; lia|].
    rewrite chars_elem by done. unfold has_type. rewrite bool_decide_true by done.
    destruct (Z.eqb_spec (mget m' j i) 0); done.
Qed.

Lemma wisdom_elem m m' n i :
  (i < n)%nat -> wise m i ->
  afr_sh_compute_wisdom m' (chars n m) !! i
  = Some (mk_char AFR_NODE_WISE (if accused_by_wise m' (chars n m) i then 0 else 1)).
Proof.
  intros Hi Hw. unfold afr_sh_compute_wisdom. rewrite list_lookup_imap, chars_elem by done. cbn.
  unfold has_type. rewrite bool_decide_true by done. by rewrite Hw.
Qed.

Lemma conflict_spec m m' n :
  afr_sh_wise_nodes_conflict (afr_sh_compute_wisdom m' (chars n m)) = true <->
  forall i, (i < n)%nat -> wise m i -> exists j, (j < n)%nat /\ wise m j /\ mget m' j i <> 0.
Proof.
  unfold afr_sh_wise_nodes_conflict. rewrite negb_true_iff, <-not_true_iff_false, existsb_exists. split.
  - intros Hn i Hi Hw. apply accused_spec. destruct (accused_by_wise m' (chars n m) i) eqn:Ha; [done|].
    exfalso. apply Hn. exists (mk_char AFR_NODE_WISE 1). split; [|done].
    apply list_elem_of_In. eapply list_elem_of_lookup_2. rewrite wisdom_elem by done. by rewrite Ha.
  - intros Hall (c & Hc%list_elem_of_In & H). apply andb_true_iff in H as [Hw H1].
    apply list_elem_of_lookup in Hc as [i Hc].
    assert ((i < n)%nat) as Hi.
    { apply lookup_lt_Some in Hc. unfold afr_sh_compute_wisdom in Hc. rewrite length_imap, chars_length in Hc. done. }
    unfold afr_sh_compute_wisdom in Hc. rewrite list_lookup_imap, chars_elem in Hc by done. cbn in Hc.
    destruct (has_type AFR_NODE_WISE (classify m i)) eqn:Hwi; [|injection Hc as <-; congruence].
    injection Hc as <-. cbn in H1. unfold has_type in Hwi. apply bool_decide_eq_true in Hwi.
    assert (accused_by_wise m' (chars n m) i = true) as Ha by (apply accused_spec; auto).
    by rewrite Ha in H1.
Qed.

(** ** Theorems *)

(** C13: The changelogs record the failures that are noted.  Take a transaction
    whose fop is none of write, ftruncate and flush (GF_FOP_OTHER) and which is
    not a rename, with its changelog enabled, and replies to the pre-op in any
    order, none of them with ENOTSUP.  The counters that a child which was up
    for the operation, and made the additions of the pre-op and of the post-op,
    keeps of child [j] are then those from before, plus one exactly where [j]
    was down, failed the pre-op, or is one of the children for which
    [afr_transaction_fop_failed] was called.  The callbacks of setxattr and
    removexattr do not call it, and an ftruncate, which has no post-op, is not
    such a transaction. *)
Theorem changelog_records_failures (priv : afr_private) (l l1 l2 l3 : afr_local) (n : nat)
    (rs : list (nat * (Z * Z))) (fs : list nat) (pre acts post : list action) (i : nat)
    (d0 d : gmap string (list Z)) :
  startable priv l n -> map fst rs ≡ₚ up_from 0 (child_up l) -> Forall reply_ok rs ->
  afr_changelog_pre_op priv l = (l1, pre) -> deliver priv l1 rs = (l2, acts) ->
  afr_transaction_resume priv (foldl afr_transaction_fop_failed l2 fs) = (l3, post) ->
  nth i (down_after (child_up l) rs) false = true ->
  disk_ok (pending_key priv) d0 -> child_after pre post i (nth i (child_up l2) false) d0 d ->
  forall j key, pending_key priv !! j = Some key ->
    let k := afr_index_for_transaction_type (l_type l) in
    pending_of k (Some d) key
    = i32 (pending_of k (Some d0) key
           + if nth j (down_after (child_up l) rs) false && bool_decide (j ∉ fs) then 0 else 1).
Proof.
  intros Hst Hperm Hok Hpre Hdel Hres Hi Hd0 Hca j key Hj k.
  assert (up_from 0 (down_after (child_up l) rs) <> []) as Hsurv.
  { apply elem_of_ups in Hi. intros Hnil. rewrite Hnil in Hi. by apply elem_of_nil in Hi. }
  pose proof (transaction_winds _ _ _ _ _ _ _ _ _ _ _ Hst Hperm Hok Hsurv Hpre Hdel Hres) as (Hup & _ & _ & _).
  destruct (child_after_counts _ _ _ _ _ _ _ _ _ _ _ _ _ _ Hst Hperm Hok Hsurv Hpre Hdel Hres Hd0 Hca)
    as [[Hf _]|Hc]; [congruence|].
  destruct (Hc j key Hj) as [Hv _]. unfold k. by rewrite Hv, Hup, Hi.
Qed.

Lemma startable2 : startable priv2 (local2 GF_FOP_OTHER AFR_METADATA_TRANSACTION None) 2.
Proof.
  split; try done. by apply (bool_decide_eq_true_1 _).
Qed.

Lemma clean2_clean : clean_disk ["a"; "b"] clean2.
Proof.
  intros key Hk. elem_cases Hk; done.
Qed.

(** The changelogs after a chmod that fails on the second of two children. *)
Definition after_failure : gmap string (list Z) :=
  <["a" := [0; 0; 0]]> (<["b" := [0; hton32 1; 0]]> ∅).

Lemma changelog_records_failures_witness : pending_of 1 (Some after_failure) "b" = 1.
Proof.
  pose (l := local2 GF_FOP_OTHER AFR_METADATA_TRANSACTION None).
  pose (rs := [(1%nat, (0, 0)); (0%nat, (0, 0))]).
  pose (r1 := afr_changelog_pre_op priv2 l). pose (r2 := deliver priv2 (fst r1) rs).
  pose (r3 := afr_transaction_resume priv2 (foldl afr_transaction_fop_failed (fst r2) [1%nat])).
  assert (child_after (snd r1) (snd r3) 0 (nth 0 (child_up (fst r2)) false) clean2 after_failure) as Hca.
  { replace (nth 0 (child_up (fst r2)) false) with true by (by vm_compute). unfold child_after.
    exists on_loc, (zip ["a"; "b"] (rows 1 2 (fun _ => hton32 1))),
      on_loc, (zip ["a"; "b"] (rows 1 2 (fun j => if (j =? 0)%nat then hton32 (-1) else 0))).
    split; [|split]; [apply (bool_decide_eq_true_1 _); by vm_compute..|by vm_compute]. }
  etransitivity;
    [apply (changelog_records_failures priv2 l (fst r1) (fst r2) (fst r3) 2 rs [1%nat] (snd r1) (snd r2) (snd r3)
              0 clean2 after_failure startable2) with (j := 1%nat) (key := "b")|by vm_compute].
  - apply perm_swap.
  - repeat constructor.
  - apply surjective_pairing.
  - apply surjective_pairing.
  - apply surjective_pairing.
  - reflexivity.
  - apply clean_disk_ok, clean2_clean.
  - exact Hca.
  - reflexivity.
Defined.

(** Children with clean changelogs before the transaction: what they have
    afterwards makes the matrix of its survivors. *)
Lemma transaction_survivors priv l n rs fs l1 pre l2 acts l3 post (ds0 ds : list (gmap string (list Z))) :
  startable priv l n -> map fst rs ≡ₚ up_from 0 (child_up l) -> Forall reply_ok rs ->
  up_from 0 (down_after (child_up l) rs) <> [] ->
  afr_changelog_pre_op priv l = (l1, pre) -> deliver priv l1 rs = (l2, acts) ->
  afr_transaction_resume priv (foldl afr_transaction_fop_failed l2 fs) = (l3, post) ->
  length ds = n ->
  (forall i d, ds !! i = Some d -> exists d0, ds0 !! i = Some d0 /\ clean_disk (pending_key priv) d0 /\
     child_after pre post i (nth i (child_up l2) false) d0 d) ->
  survivors (completed (child_up l2) fs) n
    (afr_sh_build_pending_matrix (pending_key priv) (map Some ds) (l_type l)).
Proof.
  intros Hst Hperm Hok Hsurv Hpre Hdel Hres Hlen Hds.
  set (k := afr_index_for_transaction_type (l_type l)).
  assert (forall i d, ds !! i = Some d ->
    (nth i (child_up l2) false = false /\ (forall key, key ∈ pending_key priv -> d !! key = Some [0; 0; 0])) \/
    (forall j key, pending_key priv !! j = Some key ->
       pending_of k (Some d) key = (if nth i (child_up l2) false && completed (child_up l2) fs j then 0 else 1) /\
       is_Some (d !! key))) as Hch.
  { intros i d Hd. destruct (Hds i d Hd) as (d0 & _ & Hc0 & Hca).
    destruct (child_after_counts _ _ _ _ _ _ _ _ _ _ _ _ _ _ Hst Hperm Hok Hsurv Hpre Hdel Hres
                (clean_disk_ok _ _ Hc0) Hca) as [[? ->]|Hc]; [by left|]. right. intros j key Hj.
    destruct (Hc j key Hj) as [Hv ?]. split; [|done]. fold k in Hv. rewrite Hv.
    rewrite (clean_pending _ _ k key Hc0) by (by eapply list_elem_of_lookup_2). by destruct (_ && _). }
  assert (Forall (fun d => forall key, key ∈ pending_key priv -> is_Some (d !! key)) ds) as Hall.
  { apply Forall_lookup. intros i d Hd key Hkey. destruct (Hch i d Hd) as [[_ Hc]|Hc].
    - rewrite Hc by done. eauto.
    - apply list_elem_of_lookup in Hkey as [j Hj]. by apply (Hc j key). }
  intros i Hi. destruct (lookup_lt_is_Some_2 ds i) as [d Hd]; [lia|].
  pose proof (st_keys _ _ _ Hst) as Hkl.
  assert (forall j, (j < n)%nat -> exists key, pending_key priv !! j = Some key) as Hkey.
  { intros j Hj. apply lookup_lt_is_Some_2. lia. }
  destruct (Hkey i Hi) as [ki Hki].
  destruct (matrix_known _ _ (l_type l) i i ki d Hall Hd Hki) as [Hrow Hii]. fold k in Hrow, Hii.
  rewrite Hrow. split; [by rewrite length_map|]. rewrite Hii.
  destruct (completed (child_up l2) fs i) eqn:Hcomp.
  - assert (nth i (child_up l2) false = true) as Hup.
    { unfold completed in Hcomp. by apply andb_true_iff in Hcomp as [? _]. }
    intros j Hj. destruct (Hkey j Hj) as [kj Hkj].
    destruct (matrix_known _ _ (l_type l) i j kj d Hall Hd Hkj) as [_ ->]. fold k.
    destruct (Hch i d Hd) as [[? _]|Hc]; [congruence|]. destruct (Hc j kj Hkj) as [-> _].
    rewrite Hup. by destruct (completed (child_up l2) fs j).
  - destruct (Hch i d Hd) as [[_ Hc]|Hc].
    + left. unfold afr_sh_is_innocent. rewrite forallb_forall. intros v (key & <- & Hin%list_elem_of_In)%in_map_iff.
      rewrite (clean_pending (pending_key priv) d k key Hc Hin). done.
    + right. destruct (Hc i ki Hki) as [-> _]. by rewrite Hcomp, andb_false_r.
Qed.

(** C2: Self-heal copies from the children that did not fail.  Take a
    transaction whose fop is none of write, ftruncate and flush (GF_FOP_OTHER)
    and which is not a rename, with its changelog enabled, and children whose
    changelogs are clean before it.  No child answers the pre-op with ENOTSUP,
    every child that is up for the operation makes the additions of the pre-op
    and of the post-op, and a child on which the operation failed is one for
    which [afr_transaction_fop_failed] was called (the callbacks of setxattr and
    removexattr do not call it).  If such a transaction is completed on some of
    the children and not on others, then the sources that [afr_sh_mark_sources]
    marks in the matrix read from the children are exactly those where it was
    completed, as long as, where sizes are compared, the sizes on those are the
    same. *)
Theorem survivors_become_sources (priv : afr_private) (l l1 l2 l3 : afr_local) (n : nat)
    (rs : list (nat * (Z * Z))) (fs : list nat) (pre acts post : list action)
    (ds0 ds : list (gmap string (list Z))) (buf : option (list iattr)) (src : list Z)
    (type : afr_self_heal_type) (good bad : nat) :
  startable priv l n -> map fst rs ≡ₚ up_from 0 (child_up l) -> Forall reply_ok rs ->
  afr_changelog_pre_op priv l = (l1, pre) -> deliver priv l1 rs = (l2, acts) ->
  afr_transaction_resume priv (foldl afr_transaction_fop_failed l2 fs) = (l3, post) ->
  length ds = n ->
  (forall i d, ds !! i = Some d -> exists d0, ds0 !! i = Some d0 /\ clean_disk (pending_key priv) d0 /\
     child_after pre post i (nth i (child_up l2) false) d0 d) ->
  let ok := completed (down_after (child_up l) rs) fs in
  (good < n)%nat -> ok good = true -> (bad < n)%nat -> ok bad = false ->
  (forall b, buf = Some b -> forall i j, ok i = true -> ok j = true ->
     st_size (nth i b iattr0) = st_size (nth j b iattr0)) ->
  let m := afr_sh_build_pending_matrix (pending_key priv) (map Some ds) (l_type l) in
  let r := afr_sh_mark_sources (mk_sh buf m src) n type in
  sh_sources (fst r) = map (fun i => if ok i then 1 else 0) (seq 0 n) /\
  snd r = Z.of_nat (length (List.filter ok (seq 0 n))).
Proof.
  intros Hst Hperm Hok Hpre Hdel Hres Hlen Hds ok Hg Hgood Hb Hbad Hsize m r.
  assert (up_from 0 (down_after (child_up l) rs) <> []) as Hsurv.
  { unfold ok, completed in Hgood. apply andb_true_iff in Hgood as [Hgood _].
    apply elem_of_ups in Hgood. intros Hnil. rewrite Hnil in Hgood. by apply elem_of_nil in Hgood. }
  pose proof (transaction_survivors _ _ _ _ _ _ _ _ _ _ _ _ _ Hst Hperm Hok Hsurv Hpre Hdel Hres Hlen Hds) as Hs.
  pose proof (transaction_winds _ _ _ _ _ _ _ _ _ _ _ Hst Hperm Hok Hsurv Hpre Hdel Hres) as (Hup & _ & _ & _).
  rewrite Hup in Hs. fold ok m in Hs.
  exact (mark_sources_survivors ok n m good bad Hs Hg Hgood Hb Hbad buf src type Hsize).
Qed.

Lemma survivors_become_sources_witness :
  let m := afr_sh_build_pending_matrix ["a"; "b"] [Some after_failure; Some after_failure] AFR_METADATA_TRANSACTION in
  sh_sources (fst (afr_sh_mark_sources (mk_sh None m []) 2 AFR_SELF_HEAL_METADATA)) = [1; 0].
Proof.
  pose (l := local2 GF_FOP_OTHER AFR_METADATA_TRANSACTION None).
  pose (rs := [(1%nat, (0, 0)); (0%nat, (0, 0))]).
  pose (r1 := afr_changelog_pre_op priv2 l). pose (r2 := deliver priv2 (fst r1) rs).
  pose (r3 := afr_transaction_resume priv2 (foldl afr_transaction_fop_failed (fst r2) [1%nat])).
  assert (forall i, (i < 2)%nat ->
    child_after (snd r1) (snd r3) i (nth i (child_up (fst r2)) false) clean2 after_failure) as Hca.
  { intros i Hi. replace (nth i (child_up (fst r2)) false) with true
      by (destruct i as [|[|]]; [by vm_compute..|lia]). unfold child_after.
    exists on_loc, (zip ["a"; "b"] (rows 1 2 (fun _ => hton32 1))),
      on_loc, (zip ["a"; "b"] (rows 1 2 (fun j => if (j =? 0)%nat then hton32 (-1) else 0))).
    destruct i as [|[|]]; [..|lia];
      (split; [|split]; [apply (bool_decide_eq_true_1 _); by vm_compute..|by vm_compute]). }
  intros m. etransitivity;
    [apply (survivors_become_sources priv2 l (fst r1) (fst r2) (fst r3) 2 rs [1%nat] (snd r1) (snd r2) (snd r3)
              [clean2; clean2] [after_failure; after_failure] None [] AFR_SELF_HEAL_METADATA 0 1 startable2)|by vm_compute].
  - apply perm_swap.
  - repeat constructor.
  - apply surjective_pairing.
  - apply surjective_pairing.
  - apply surjective_pairing.
  - reflexivity.
  - intros i d Hd. exists clean2. destruct i as [|[|i]]; [..|discriminate]; injection Hd as <-;
      (split; [reflexivity|]; split; [exact clean2_clean|]; apply Hca; lia).
  - lia.
  - by vm_compute.
  - lia.
  - by vm_compute.
  - discriminate.
Defined.

Lemma wise_exist_spec m n :
  afr_sh_wise_nodes_exist (chars n m) = true <-> exists i, (i < n)%nat /\ wise m i.
Proof.
  unfold afr_sh_wise_nodes_exist. rewrite existsb_exists. split.
  - intros (c & Hc & Hw). unfold chars in Hc. apply in_map_iff in Hc as (i & <- & Hi%in_seq).
    apply bool_decide_eq_true in Hw. exists i. split; [lia|done].
  - intros (i & Hi & Hw). exists (classify m i). split; [|by apply bool_decide_eq_true].
    apply list_elem_of_In. eapply list_elem_of_lookup_2. by apply chars_elem.
Qed.

Lemma innocent_not_wise m n :
  afr_sh_all_nodes_innocent (chars n m) = true -> afr_sh_wise_nodes_exist (chars n m) = false.
Proof.
  intros Ha. apply not_true_iff_false. rewrite wise_exist_spec. intros (i & Hi & Hw).
  unfold afr_sh_all_nodes_innocent in Ha. rewrite forallb_forall in Ha. specialize (Ha (classify m i)).
  rewrite <-list_elem_of_In in Ha. unfold has_type in Ha. rewrite bool_decide_eq_true in Ha.
  unfold wise in Hw. rewrite Ha in Hw; [done|]. eapply list_elem_of_lookup_2. by apply chars_elem.
Qed.

(** The sources when wise children exist and do not conflict. *)
Lemma wisest_lookup m m' n i :
  (i < n)%nat ->
  fst (afr_sh_mark_wisest_as_sources (replicate n 0) (afr_sh_compute_wisdom m' (chars n m))) !! i
  = Some (if bool_decide (wise m i) && negb (accused_by_wise m' (chars n m) i) then 1 else 0).
Proof.
  intros Hi. assert (length (afr_sh_compute_wisdom m' (chars n m)) = n) as Hl.
  { unfold afr_sh_compute_wisdom. by rewrite length_imap, chars_length. }
  pose proof (mark_wisest (afr_sh_compute_wisdom m' (chars n m))) as Hw. rewrite Hl in Hw. rewrite Hw.
  cbn [fst]. rewrite list_lookup_fmap. unfold afr_sh_compute_wisdom.
  rewrite list_lookup_imap, chars_elem by done. cbn [fmap option_fmap option_map].
  unfold has_type. fold (wise m i). destruct (bool_decide (wise m i)); cbn [c_wisdom andb]; [|done].
  by destruct (accused_by_wise m' (chars n m) i).
Qed.

(** C32: Split brain is what it is said to be.  [afr_sh_mark_sources] answers -1
    exactly when wise children exist and each of them is accused by another
    wise child; then no child is a source.  When wise children exist and it
    does not answer -1, the sources are the wise children that no wise child
    accuses.  The accusations are those of the matrix after size differences
    have been marked in it. *)
Theorem split_brain_exact (sh : afr_self_heal) (n : nat) (type : afr_self_heal_type) :
  let m := sh_pending sh in
  let r := afr_sh_mark_sources sh n type in
  let accused i := exists j, (j < n)%nat /\ wise m j /\ mget (sh_pending (fst r)) j i <> 0 in
  (snd r = -1 <-> (exists i, (i < n)%nat /\ wise m i) /\ forall i, (i < n)%nat -> wise m i -> accused i) /\
  (snd r = -1 -> sh_sources (fst r) = replicate n 0) /\
  (snd r <> -1 -> (exists i, (i < n)%nat /\ wise m i) -> forall i, (i < n)%nat ->
     (sh_sources (fst r) !! i = Some 1 <-> wise m i /\ ~ accused i)).
Proof.
  intros m r accused. subst accused r. unfold afr_sh_mark_sources. fold m. fold (chars n m).
  set (md := if bool_decide (type = AFR_SELF_HEAL_DATA) then _ else _). clearbody md.
  destruct md as [m' sd]. rewrite <-(wise_exist_spec m n).
  destruct (afr_sh_all_nodes_innocent (chars n m)) eqn:Hin.
  { rewrite (innocent_not_wise _ _ Hin).
    destruct (bool_decide _), sd; cbn; (split; [|split]; [split; [lia|by intros [? _]]|lia|done]). }
  rewrite andb_false_r. destruct (afr_sh_wise_nodes_exist (chars n m)) eqn:Hw.
  2:{ cbn. split; [|split]; [split; [lia|by intros [? _]]|lia|done]. }
  destruct (afr_sh_wise_nodes_conflict (afr_sh_compute_wisdom m' (chars n m))) eqn:Hc;
    cbn [fst snd sh_sources sh_pending].
  - pose proof (proj1 (conflict_spec m m' n) Hc) as Hacc. split; [|split]; [by split|done|lia].
  - assert (snd (afr_sh_mark_wisest_as_sources (replicate n 0) (afr_sh_compute_wisdom m' (chars n m))) <> -1) as Hne.
    { pose proof (mark_wisest (afr_sh_compute_wisdom m' (chars n m))) as Hmw.
      assert (length (afr_sh_compute_wisdom m' (chars n m)) = n) as Hl
        by (unfold afr_sh_compute_wisdom; by rewrite length_imap, chars_length).
      rewrite Hl in Hmw. rewrite Hmw. cbn. lia. }
    split; [|split]; [|done|].
    + split; [done|]. intros [_ Hall]. exfalso. apply not_true_iff_false in Hc. apply Hc. by apply conflict_spec.
    + intros _ _ i Hi. rewrite wisest_lookup, <-accused_spec by done.
      destruct (bool_decide_reflect (wise m i)), (accused_by_wise m' (chars n m) i); cbn; naive_solver.
Qed.

Lemma foldl_insert {V} (f : Z -> V) (l : list (string * Z)) (d : gmap string V) :
  NoDup l.*1 ->
  (forall key v, (key, v) ∈ l -> foldl (fun d kv => <[fst kv := f (snd kv)]> d) d l !! key = Some (f v)) /\
  (forall key, ~ (key ∈ l.*1) -> foldl (fun d kv => <[fst kv := f (snd kv)]> d) d l !! key = d !! key).
Proof.
  revert d. induction l as [|[key v] l IH]; intros d Hnd; cbn in *.
  { split; [|done]. intros key v Hin. by apply elem_of_nil in Hin. }
  apply NoDup_cons in Hnd as [Hni Hnd]. destruct (IH (<[key := f v]> d) Hnd) as [Hin Hout]. split.
  - intros key' v' [[= -> ->]|Hkv]%elem_of_cons; [|by apply Hin]. rewrite Hout by done. apply lookup_insert_eq.
  - intros key' [? ?]%not_elem_of_cons. rewrite Hout by done. by apply lookup_insert_ne.
Qed.

(** The row of deltas when every counter was read. *)
Lemma delta_row_lookup k d keys success p j key v :
  (forall key, key ∈ keys -> is_Some (d !! key)) -> length success = length keys ->
  keys !! j = Some key -> d !! key = Some v ->
  delta_row k (Some d) keys success p !! j
  = Some (if nth j success false then i32 (- ntoh32 (nth k v 0)) else 0).
Proof.
  revert success p j. induction keys as [|key' keys IH]; intros [|ok success] p j Hp Hl Hj Hv; try done.
  destruct (Hp key') as [w Hw]; [left|]. cbn [delta_row]. unfold dict_get_ptr. cbn [mbind option_bind]. rewrite Hw.
  destruct j as [|j]; cbn in Hj |- *.
  - injection Hj as ->. rewrite Hw in Hv. injection Hv as ->. by destruct ok.
  - apply IH; [|cbn in Hl; lia|done..]. intros key'' Hk. apply Hp. by right.
Qed.

Lemma delta_row_length k x keys success p :
  length success = length keys -> length (delta_row k x keys success p) = length keys.
Proof.
  revert success p. induction keys as [|key keys IH]; intros [|ok success] p Hl; cbn in *; try done.
  rewrite IH; lia.
Qed.

(** Adding an array changes only its word. *)
Lemma pending_add_other k k' (d : list Z) v :
  (k < 3)%nat -> length d = 3%nat -> k <> k' ->
  i32 (ntoh32 (nth k (__add_array d (pending_array k' v)) 0)) = i32 (ntoh32 (nth k d 0)).
Proof.
  intros Hk Hd Hne. destruct d as [|d0 [|d1 [|d2 [|]]]]; cbn in Hd; try lia.
  unfold __add_array, pending_array.
  destruct k as [|[|[|]]]; [..|lia]; (destruct k' as [|[|[|k']]]; [..|destruct k']); try done;
    cbn -[hton32 ntoh32]; rewrite ntoh32_hton32, ntoh32_0, !i32_u32; f_equal; lia.
Qed.

Lemma i32_cancel a : i32 (i32 a + ntoh32 (hton32 (i32 (- a)))) = 0.
Proof.
  rewrite ntoh32_hton32, i32_add_l, <-i32_u32. unfold u32. rewrite Zplus_mod_idemp_r.
  change ((a + i32 (- a)) `mod` 2 ^ 32) with (u32 (a + i32 (- a))). rewrite i32_u32, Z.add_comm, i32_add_l.
  by replace (- a + a) with 0 by lia.
Qed.

(** The dictionary of the deltas of a child. *)
Lemma delta_xattr keys xs success type i d x :
  NoDup keys -> length success = length keys -> length xs = length keys -> xs !! i = Some (Some d) ->
  afr_sh_delta_to_xattr keys (afr_sh_pending_to_delta keys xs success type)
    (replicate (length keys) (Some ∅)) type !! i = Some (Some x) ->
  let k := afr_index_for_transaction_type type in
  (forall j key v, keys !! j = Some key -> delta_row k (Some d) keys success None !! j = Some v ->
     x !! key = Some (pending_array k (hton32 v))) /\
  (forall key w, x !! key = Some w -> key ∈ keys /\ length w = 3%nat).
Proof.
  intros Hnd Hls Hlx Hi Hx k. unfold afr_sh_delta_to_xattr, afr_sh_pending_to_delta in Hx. fold k in Hx.
  rewrite lookup_zip_with, list_lookup_fmap, Hi in Hx. apply lookup_lt_Some in Hi as Hlt.
  rewrite lookup_replicate_2 in Hx by lia. cbn [fmap option_fmap option_map mbind option_bind] in Hx.
  injection Hx as <-. set (row := delta_row k (Some d) keys success None).
  assert (length row = length keys) as Hlr by (by apply delta_row_length).
  assert ((zip keys row).*1 = keys) as Hfst by (apply fst_zip; lia).
  destruct (foldl_insert (fun v => pending_array k (hton32 v)) (zip keys row) (∅ : gmap string (list Z)))
    as [Hin Hout]; [by rewrite Hfst|]. rewrite Hfst in Hout.
  split.
  - intros j key v Hj Hv. apply Hin. apply list_elem_of_lookup. exists j. by apply lookup_zip_Some.
  - intros key w Hw. destruct (decide (key ∈ keys)) as [Hk|Hk].
    + split; [done|]. apply list_elem_of_lookup in Hk as [j Hj].
      destruct (lookup_lt_is_Some_2 row j) as [v Hv]; [apply lookup_lt_Some in Hj; lia|].
      erewrite Hin in Hw; [|apply list_elem_of_lookup; exists j; by apply lookup_zip_Some].
      injection Hw as <-. unfold pending_array. by rewrite length_insert.
    + rewrite Hout in Hw by done. by rewrite lookup_empty in Hw.
Qed.

(** C34: A heal clears what it has healed.  Take a child that answered with its
    changelogs, with a counter for every child of the volume among them (a
    counter that is not there is not covered: another one is subtracted in its
    place).  Subtracting the deltas ([afr_sh_pending_to_delta],
    [afr_sh_delta_to_xattr], ADD_ARRAY at the child) from what was read leaves 0
    in the counters of the children that were healed, and leaves the counters of
    the others and of other kinds of operation alone. *)
Theorem heal_clears_pending (keys : list string) (xs : list (option (gmap string (list Z))))
    (success : list bool) (type : afr_transaction_type) (i : nat) (d x : gmap string (list Z))
    (kvs : list (string * list Z)) :
  NoDup keys -> length success = length keys -> length xs = length keys ->
  xs !! i = Some (Some d) -> disk_ok keys d -> (forall key, key ∈ keys -> is_Some (d !! key)) ->
  afr_sh_delta_to_xattr keys (afr_sh_pending_to_delta keys xs success type)
    (replicate (length keys) (Some ∅)) type !! i = Some (Some x) ->
  kvs ≡ₚ map_to_list x ->
  forall j key k, keys !! j = Some key -> (k < 3)%nat ->
    pending_of k (Some (fst (do_xattrop no_io d kvs))) key
    = if (k =? afr_index_for_transaction_type type)%nat && nth j success false then 0
      else pending_of k (Some d) key.
Proof.
  intros Hnd Hls Hlx Hi Hok Hpres Hx Hkvs j key k Hj Hk.
  destruct (delta_xattr _ _ _ _ _ _ _ Hnd Hls Hlx Hi Hx) as [Hxk Hxd].
  set (kk := afr_index_for_transaction_type type) in *.
  assert (key ∈ keys) as Hkey by (by eapply list_elem_of_lookup_2). destruct (Hpres key Hkey) as [v Hv].
  pose proof (delta_row_lookup kk d keys success None j key v Hpres Hls Hj Hv) as Hrow.
  pose proof (Hxk j key _ Hj Hrow) as Hxkey.
  destruct (do_xattrop_spec kvs d) as (_ & Hin & _).
  - rewrite Hkvs. apply NoDup_fst_map_to_list.
  - rewrite Hkvs. apply Forall_forall. intros [key' w] Hw%elem_of_map_to_list. by apply Hxd in Hw as [_ ?].
  - intros key' w Hk' Hw. rewrite Hkvs in Hk'. apply list_elem_of_fmap in Hk' as ([key'' w'] & -> & Hw').
    apply elem_of_map_to_list, Hxd in Hw' as [? _]. by eapply Hok.
  - unfold pending_of, dict_get_ptr. cbn [mbind option_bind].
    rewrite (Hin key _) by (rewrite Hkvs; by apply elem_of_map_to_list). rewrite Hv. cbn [default from_option id].
    assert (length v = 3%nat) as Hlv by (by eapply Hok).
    destruct (Nat.eqb_spec k kk) as [->|Hne]; cbn [andb]; [|by rewrite pending_add_other].
    rewrite pending_after_add by done. destruct (nth j success false); [apply i32_cancel|].
    rewrite ntoh32_hton32, i32_add_l. f_equal. change (u32 0) with 0. lia.
Qed.

Lemma heal_clears_pending_witness :
  exists x, afr_sh_delta_to_xattr ["a"; "b"]
      (afr_sh_pending_to_delta ["a"; "b"] [Some after_failure; Some after_failure] [true; true] AFR_METADATA_TRANSACTION)
      (replicate 2 (Some ∅)) AFR_METADATA_TRANSACTION !! 0%nat = Some (Some x) /\
    pending_of 1 (Some (fst (do_xattrop no_io after_failure (map_to_list x)))) "b" = 0.
Proof.
  eexists. split; [reflexivity|].
  refine (heal_clears_pending ["a"; "b"] [Some after_failure; Some after_failure] [true; true]
            AFR_METADATA_TRANSACTION 0 after_failure _ _ _ _ _ _ _ _ _ _ 1 "b" 1 _ _).
  - by apply (bool_decide_eq_true_1 _).
  - reflexivity.
  - reflexivity.
  - reflexivity.
  - intros key v Hk. elem_cases Hk; by intros [= <-].
  - intros key Hk. elem_cases Hk; by eexists.
  - reflexivity.
  - reflexivity.
  - reflexivity.
  - lia.
Defined.

(** A missing counter is subtracted anyway.  Where a child has no counter for
    one child, [afr_sh_pending_to_delta] takes the counter of the child before
    it, and the heal leaves a negative counter behind. *)
Theorem stale_delta_subtracted :
  let d : gmap string (list Z) := <["a" := [hton32 2; 0; 0]]> ∅ in
  let delta := afr_sh_pending_to_delta ["a"; "b"] [Some d; None] [true; true] AFR_DATA_TRANSACTION in
  afr_sh_build_pending_matrix ["a"; "b"] [Some d; None] AFR_DATA_TRANSACTION = [[2; 0]; [0; 0]] /\
  delta = [[-2; -2]; [0; 0]] /\
  exists x, afr_sh_delta_to_xattr ["a"; "b"] delta [Some ∅; Some ∅] AFR_DATA_TRANSACTION !! 0%nat = Some (Some x) /\
    pending_of 0 (Some (fst (do_xattrop no_io d (map_to_list x)))) "b" = -2.
Proof.
  split; [by vm_compute|]. split; [by vm_compute|]. eexists. split; [reflexivity|]. by vm_compute.
Qed.

(** A failed ftruncate is forgotten.  A write that fails on the second of two
    children leaves both accusing it after the flush of the fd.  A failed
    ftruncate leaves no accusation: it is marked in the data of a transaction
    that has no post-op, and not on the fd where the flush looks. *)
Theorem ftruncate_failure_forgotten :
  data_then_flush GF_FOP_WRITE [1%nat] = [[0; 1]; [0; 1]] /\
  data_then_flush GF_FOP_FTRUNCATE [1%nat] = [[0; 0]; [0; 0]].
Proof. split; by vm_compute. Qed.
