(* ===== verification/AfrFops.v ===== *)
(** * cluster/afr: what the file operations share

    The data the file operations of afr keep while children work on them, the
    calls they wind, and the pieces of code that afr.h, afr.c and every
    operation repeat: the bits of an inode's context, the choice of children,
    the counting of answers. *)

From stdpp Require Import base list numbers strings gmap.
From S2P Require Import Prelude AfrPending AfrTransaction.
Open Scope Z_scope.

(** ** The context of an inode *)

Definition AFR_ICTX_OPENDIR_DONE_MASK : Z := 2 ^ 33.
Definition AFR_ICTX_SPLIT_BRAIN_MASK : Z := 2 ^ 32.
Definition AFR_ICTX_READ_CHILD_MASK : Z := 2 ^ 32 - 1.

(** [ctx] is what [__inode_ctx_get] finds; [None] stands for no context and for
    no inode. *)
Definition afr_is_split_brain (ctx : option Z) : Z :=
  match ctx with None => 0 | Some c => Z.land c AFR_ICTX_SPLIT_BRAIN_MASK end.

Definition afr_is_opendir_done (ctx : option Z) : Z :=
  match ctx with None => 0 | Some c => Z.land c AFR_ICTX_OPENDIR_DONE_MASK end.

Definition afr_read_child (ctx : option Z) : Z :=
  match ctx with None => 0 | Some c => Z.land c AFR_ICTX_READ_CHILD_MASK end.

Definition set_bits (mask : Z) (ctx : option Z) (value : Z) : Z :=
  Z.lor (Z.land (u64 (Z.lnot mask)) (default 0 ctx)) (Z.land value mask).

Definition afr_set_split_brain (ctx : option Z) : Z :=
  set_bits AFR_ICTX_SPLIT_BRAIN_MASK ctx (2 ^ 64 - 1).

Definition afr_set_opendir_done (ctx : option Z) : Z :=
  set_bits AFR_ICTX_OPENDIR_DONE_MASK ctx (2 ^ 64 - 1).

Definition afr_set_read_child (ctx : option Z) (read_child : Z) : Z :=
  set_bits AFR_ICTX_READ_CHILD_MASK ctx (u64 read_child).

(** ** Data *)

(** [struct stat]: the fields the code looks at, the others together. *)
Record stat := mk_stat { st_ino : Z; st_dev : Z; st_mode : Z; st_gid : Z; st_iattr : iattr; st_other : Z }.

Definition stat0 : stat := mk_stat 0 0 0 0 iattr0 0.

Definition set_ino (ino : Z) (st : stat) : stat :=
  mk_stat ino (st_dev st) (st_mode st) (st_gid st) (st_iattr st) (st_other st).
Definition set_ino_dev (ino dev : Z) (st : stat) : stat :=
  mk_stat ino dev (st_mode st) (st_gid st) (st_iattr st) (st_other st).

Record statvfs := mk_statvfs { f_bavail : Z; f_other : Z }.

(** [loc_t]: the last name of its path, the inode and the directory, as inode
    numbers. *)
Record loc_t := mk_loc { loc_name : string; loc_inode : option Z; loc_parent : option Z }.

Definition loc0 : loc_t := mk_loc "" None None.

(** An open file: its inode and whether it was opened with O_APPEND. *)
Record fd_t := mk_fd { fd_inode : Z; fd_append : bool }.

(** The private data of the translator, with what [afr_private] has of it. *)
Record afr_xl := mk_xl {
  xl_priv : afr_private;
  xl_child_up : list bool;
  wait_count : Z;
  xl_read_child : Z;
  read_child_rr : Z;
  up_count : Z;
  down_count : Z
}.

(** The operations wound to the children. *)
Inductive fop_call :=
  | F_writev (fd : fd_t) (vector : list (list Z)) (offset : Z)
  | F_truncate (loc : loc_t) (offset : Z)
  | F_ftruncate (fd : fd_t) (offset : Z)
  | F_setattr (loc : loc_t) (buf : stat) (valid : Z)
  | F_fsetattr (fd : fd_t) (buf : stat) (valid : Z)
  | F_setxattr (loc : loc_t) (dict : list (string * list Z)) (flags : Z)
  | F_removexattr (loc : loc_t) (name : string)
  | F_create (loc : loc_t) (flags mode : Z) (fd : fd_t)
  | F_mknod (loc : loc_t) (mode dev : Z)
  | F_mkdir (loc : loc_t) (mode : Z)
  | F_link (oldloc newloc : loc_t)
  | F_symlink (linkpath : string) (loc : loc_t)
  | F_rename (oldloc newloc : loc_t)
  | F_unlink (loc : loc_t)
  | F_rmdir (loc : loc_t)
  | F_setdents (fd : fd_t) (flags : Z) (entries : list string)
  | F_flush (fd : fd_t)
  | F_fsync (fd : fd_t) (datasync : Z)
  | F_fsyncdir (fd : fd_t) (datasync : Z)
  | F_xattrop (loc : loc_t) (xattr : list (string * list Z))
  | F_fxattrop (fd : fd_t) (xattr : list (string * list Z))
  | F_inodelk (loc : loc_t) (cmd : Z)
  | F_finodelk (fd : fd_t) (cmd : Z)
  | F_entrylk (loc : loc_t) (basename : string) (cmd : Z)
  | F_fentrylk (fd : fd_t) (basename : string) (cmd : Z)
  | F_checksum (loc : loc_t) (flag : Z)
  | F_statfs (loc : loc_t).

(** What an answer carries besides [op_ret] and [op_errno]. *)
Inductive payload :=
  | P_null
  | P_pair (pre post : stat)
  | P_entry (inode : Z) (buf preparent postparent : stat)
  | P_create (fd : fd_t) (inode : Z) (buf preparent postparent : stat)
  | P_rename (buf preoldparent postoldparent prenewparent postnewparent : stat)
  | P_xattr (xattr : list (string * list Z))
  | P_checksum (file dir : list Z)
  | P_statfs (buf : statvfs).

(** What a handler finds around it: the context of the inode, the outcome of an
    allocation, and the location of the inode of the fd. *)
Record env := mk_env { e_ctx : option Z; e_alloc : bool; e_loc : loc_t }.

(** What handlers do: calls of the transaction and of the operation, the answer
    to the caller, and effects on objects outside of [afr_local_t]. *)
Inductive event :=
  | E_act (a : action)
  | E_wind (child : nat) (call : fop_call)
  | E_open (child : nat) (loc : loc_t) (fd : fd_t)
  | E_self_heal
  | E_unwind (ret err : Z) (p : payload)
  | E_destroy
  | E_set_read_child (inode : Z) (read_child : Z)
  | E_iobref_unref.

(** The functions [transaction.fop], [transaction.done] and
    [transaction.unwind] point to; the operations without a transaction have
    their own names. *)
Inductive fop_name :=
  | OP_writev | OP_truncate | OP_ftruncate | OP_setattr | OP_fsetattr | OP_setxattr | OP_removexattr
  | OP_create | OP_mknod | OP_mkdir | OP_link | OP_symlink | OP_rename | OP_unlink | OP_rmdir | OP_setdents
  | OP_flush | OP_up_down_flush
  | OP_plain_flush | OP_fsync | OP_fsyncdir | OP_xattrop | OP_fxattrop
  | OP_inodelk | OP_finodelk | OP_entrylk | OP_fentrylk | OP_checksum | OP_statfs.

#[export] Instance fop_name_eq : EqDecision fop_name.
Proof. solve_decision. Defined.

(** [local->cont], the arguments: one constructor per layout. *)
Inductive cont_args :=
  | C_none
  | C_writev (vector : list (list Z)) (offset : Z)
  | C_truncate (offset : Z)
  | C_setattr (in_buf : stat) (valid : Z)
  | C_setxattr (dict : list (string * list Z)) (flags : Z)
  | C_removexattr (name : string)
  | C_create (flags mode : Z) (fd : fd_t)
  | C_mknod (mode dev : Z)
  | C_mkdir (mode : Z)
  | C_symlink (linkpath : string)
  | C_setdents (flags : Z) (entries : list string).

(** [local->cont], what is collected from the answers.  [c_pre] and [c_post] are
    [prebuf] and [postbuf], or [preparent] and [postparent]; rename has those of
    the new directory in [c_pre2] and [c_post2]. *)
Record cont := mk_cont {
  c_ino : Z; c_gen : Z; c_parent_ino : Z; c_newparent_ino : Z; c_inode : option Z;
  c_buf : stat; c_read_child_buf : stat; c_pre : stat; c_post : stat; c_pre2 : stat; c_post2 : stat;
  c_statfs : option statvfs; c_checksum : option (list Z * list Z)
}.

Definition cont0 : cont := mk_cont 0 0 0 0 None stat0 stat0 stat0 stat0 stat0 stat0 None None.

(** [afr_local_t]: the data of the transaction, and that of the operation. *)
Record wlocal := mk_w {
  w_tr : afr_local;
  w_op : fop_name;
  w_after : option fop_name;           (* up_down_flush_cbk *)
  w_success_count : Z;
  w_read_child_returned : bool;
  w_read_child_index : Z;
  w_first_up_child : Z;
  w_main_frame : bool;                 (* transaction.main_frame is set *)
  w_loc : loc_t;
  w_newloc : loc_t;
  w_fd : option fd_t;
  w_fd_counts : Z * Z;                 (* up_count and down_count of the fd *)
  w_range : Z * Z;                     (* transaction.start and len *)
  w_parent : option Z;                 (* transaction.parent_loc.inode *)
  w_new_parent : option Z;
  w_args : cont_args;
  w_cont : cont;
  w_opened_on : option (list bool)     (* the context of the fd that create makes *)
}.

(** ** Updates *)

Definition set_tr (v : afr_local) (l : wlocal) : wlocal :=
  mk_w v (w_op l) (w_after l) (w_success_count l) (w_read_child_returned l) (w_read_child_index l)
    (w_first_up_child l) (w_main_frame l) (w_loc l) (w_newloc l) (w_fd l) (w_fd_counts l) (w_range
    l) (w_parent l) (w_new_parent l) (w_args l) (w_cont l) (w_opened_on l).
Definition set_w_op (v : fop_name) (l : wlocal) : wlocal :=
  mk_w (w_tr l) v (w_after l) (w_success_count l) (w_read_child_returned l) (w_read_child_index l)
    (w_first_up_child l) (w_main_frame l) (w_loc l) (w_newloc l) (w_fd l) (w_fd_counts l) (w_range
    l) (w_parent l) (w_new_parent l) (w_args l) (w_cont l) (w_opened_on l).
Definition set_after (v : option fop_name) (l : wlocal) : wlocal :=
  mk_w (w_tr l) (w_op l) v (w_success_count l) (w_read_child_returned l) (w_read_child_index l)
    (w_first_up_child l) (w_main_frame l) (w_loc l) (w_newloc l) (w_fd l) (w_fd_counts l) (w_range
    l) (w_parent l) (w_new_parent l) (w_args l) (w_cont l) (w_opened_on l).
Definition set_success_count (v : Z) (l : wlocal) : wlocal :=
  mk_w (w_tr l) (w_op l) (w_after l) v (w_read_child_returned l) (w_read_child_index l)
    (w_first_up_child l) (w_main_frame l) (w_loc l) (w_newloc l) (w_fd l) (w_fd_counts l) (w_range
    l) (w_parent l) (w_new_parent l) (w_args l) (w_cont l) (w_opened_on l).
Definition set_read_child_returned (v : bool) (l : wlocal) : wlocal :=
  mk_w (w_tr l) (w_op l) (w_after l) (w_success_count l) v (w_read_child_index l) (w_first_up_child
    l) (w_main_frame l) (w_loc l) (w_newloc l) (w_fd l) (w_fd_counts l) (w_range l) (w_parent l)
    (w_new_parent l) (w_args l) (w_cont l) (w_opened_on l).
Definition set_main_frame (v : bool) (l : wlocal) : wlocal :=
  mk_w (w_tr l) (w_op l) (w_after l) (w_success_count l) (w_read_child_returned l)
    (w_read_child_index l) (w_first_up_child l) v (w_loc l) (w_newloc l) (w_fd l) (w_fd_counts l)
    (w_range l) (w_parent l) (w_new_parent l) (w_args l) (w_cont l) (w_opened_on l).
Definition set_loc (v : loc_t) (l : wlocal) : wlocal :=
  mk_w (w_tr l) (w_op l) (w_after l) (w_success_count l) (w_read_child_returned l)
    (w_read_child_index l) (w_first_up_child l) (w_main_frame l) v (w_newloc l) (w_fd l)
    (w_fd_counts l) (w_range l) (w_parent l) (w_new_parent l) (w_args l) (w_cont l) (w_opened_on l).
Definition set_fd_counts (v : Z * Z) (l : wlocal) : wlocal :=
  mk_w (w_tr l) (w_op l) (w_after l) (w_success_count l) (w_read_child_returned l)
    (w_read_child_index l) (w_first_up_child l) (w_main_frame l) (w_loc l) (w_newloc l) (w_fd l) v
    (w_range l) (w_parent l) (w_new_parent l) (w_args l) (w_cont l) (w_opened_on l).
Definition set_range (v : Z * Z) (l : wlocal) : wlocal :=
  mk_w (w_tr l) (w_op l) (w_after l) (w_success_count l) (w_read_child_returned l)
    (w_read_child_index l) (w_first_up_child l) (w_main_frame l) (w_loc l) (w_newloc l) (w_fd l)
    (w_fd_counts l) v (w_parent l) (w_new_parent l) (w_args l) (w_cont l) (w_opened_on l).
Definition set_cont (v : cont) (l : wlocal) : wlocal :=
  mk_w (w_tr l) (w_op l) (w_after l) (w_success_count l) (w_read_child_returned l)
    (w_read_child_index l) (w_first_up_child l) (w_main_frame l) (w_loc l) (w_newloc l) (w_fd l)
    (w_fd_counts l) (w_range l) (w_parent l) (w_new_parent l) (w_args l) v (w_opened_on l).
Definition set_opened_on (v : option (list bool)) (l : wlocal) : wlocal :=
  mk_w (w_tr l) (w_op l) (w_after l) (w_success_count l) (w_read_child_returned l)
    (w_read_child_index l) (w_first_up_child l) (w_main_frame l) (w_loc l) (w_newloc l) (w_fd l)
    (w_fd_counts l) (w_range l) (w_parent l) (w_new_parent l) (w_args l) (w_cont l) v.

Definition set_pre_post (pre post : stat) (c : cont) : cont :=
  mk_cont (c_ino c) (c_gen c) (c_parent_ino c) (c_newparent_ino c) (c_inode c) (c_buf c)
    (c_read_child_buf c) pre post (c_pre2 c) (c_post2 c) (c_statfs c) (c_checksum c).
Definition set_pre_post2 (pre post : stat) (c : cont) : cont :=
  mk_cont (c_ino c) (c_gen c) (c_parent_ino c) (c_newparent_ino c) (c_inode c) (c_buf c)
    (c_read_child_buf c) (c_pre c) (c_post c) pre post (c_statfs c) (c_checksum c).
Definition set_buf (b : stat) (c : cont) : cont :=
  mk_cont (c_ino c) (c_gen c) (c_parent_ino c) (c_newparent_ino c) (c_inode c) b (c_read_child_buf
    c) (c_pre c) (c_post c) (c_pre2 c) (c_post2 c) (c_statfs c) (c_checksum c).
Definition set_read_child_buf (b : stat) (c : cont) : cont :=
  mk_cont (c_ino c) (c_gen c) (c_parent_ino c) (c_newparent_ino c) (c_inode c) (c_buf c) b (c_pre c)
    (c_post c) (c_pre2 c) (c_post2 c) (c_statfs c) (c_checksum c).
Definition set_ino_gen (ino gen : Z) (c : cont) : cont :=
  mk_cont ino gen (c_parent_ino c) (c_newparent_ino c) (c_inode c) (c_buf c) (c_read_child_buf c)
    (c_pre c) (c_post c) (c_pre2 c) (c_post2 c) (c_statfs c) (c_checksum c).
Definition set_inode (i : Z) (c : cont) : cont :=
  mk_cont (c_ino c) (c_gen c) (c_parent_ino c) (c_newparent_ino c) (Some i) (c_buf c)
    (c_read_child_buf c) (c_pre c) (c_post c) (c_pre2 c) (c_post2 c) (c_statfs c) (c_checksum c).
Definition set_statfs (b : statvfs) (c : cont) : cont :=
  mk_cont (c_ino c) (c_gen c) (c_parent_ino c) (c_newparent_ino c) (c_inode c) (c_buf c)
    (c_read_child_buf c) (c_pre c) (c_post c) (c_pre2 c) (c_post2 c) (Some b) (c_checksum c).
Definition set_checksum (b : list Z * list Z) (c : cont) : cont :=
  mk_cont (c_ino c) (c_gen c) (c_parent_ino c) (c_newparent_ino c) (c_inode c) (c_buf c)
    (c_read_child_buf c) (c_pre c) (c_post c) (c_pre2 c) (c_post2 c) (c_statfs c) (Some b).

Definition upd_tr (f : afr_local -> afr_local) (l : wlocal) : wlocal := set_tr (f (w_tr l)) l.
Definition upd_cont (f : cont -> cont) (l : wlocal) : wlocal := set_cont (f (w_cont l)) l.

(** [local->op_ret] and [local->op_errno]. *)
Definition set_ret (r : Z) (l : wlocal) : wlocal := upd_tr (fun t => set_op r (op_errno t) t) l.
Definition set_errno (e : Z) (l : wlocal) : wlocal := upd_tr (fun t => set_op (op_ret t) e t) l.

(** ** Children *)

(** [afr_first_up_child] *)
Fixpoint first_up (i : Z) (up : list bool) : Z :=
  match up with
  | [] => -1
  | b :: up => if b then i else first_up (i + 1) up
  end.

Definition afr_first_up_child (this : afr_xl) : Z := first_up 0 (xl_child_up this).

(** [ino64_t] is unsigned. *)
Definition afr_itransform (ino child_count child_index : Z) : Z :=
  if ino =? 2 ^ 64 - 1 then 2 ^ 64 - 1 else u64 (ino * child_count + child_index).

(** [(++priv->read_child_rr) % priv->child_count] *)
Definition next_read_child (this : afr_xl) : afr_xl * Z :=
  let rr := u32 (read_child_rr this + 1) in
  (mk_xl (xl_priv this) (xl_child_up this) (wait_count this) (xl_read_child this) rr (up_count this) (down_count this),
   rr `mod` Z.of_nat (child_count (xl_priv this))).

(** The loop over the children that are up, left when [call_count] calls are
    made. *)
Fixpoint wind_loop (i : nat) (up : list bool) (call_count : Z) (call : fop_call) : list event :=
  match up with
  | [] => []
  | true :: up =>
      E_wind i call :: if call_count - 1 =? 0 then [] else wind_loop (S i) up (call_count - 1) call
  | false :: up => wind_loop (S i) up call_count call
  end.

(** [afr_frame_return]; [call_count] is unsigned. *)
Definition afr_frame_return (l : wlocal) : wlocal := upd_tr (fun t => set_call_count (u32 (call_count t - 1)) t) l.

(** [AFR_LOCAL_INIT] leaves [transaction.lock_count] as it is, and so does
    [afr_transaction_local_init], which makes the arrays anew. *)
Definition afr_transaction_local_init (priv : afr_private) (t : afr_local) : afr_local :=
  mk_local (l_op t) (l_type t) (has_fd t) (fdctx t) (child_up t) (replicate (child_count priv) [0; 0; 0])
    (op_ret t) (op_errno t) (call_count t) (replicate (child_count priv) LOCKED_NO) (lock_count t) (post_post_op t).

(** [local->op] *)
Definition set_fop (op : glusterfs_fop) (t : afr_local) : afr_local :=
  mk_local op (l_type t) (has_fd t) (fdctx t) (child_up t) (pending t) (op_ret t) (op_errno t)
    (call_count t) (locked_nodes t) (lock_count t) (post_post_op t).

(** The local data of an operation, as [CALLOC] and its first lines leave them.
    The first child that is up is looked for when the transaction starts. *)
Definition start_local (this : afr_xl) (op : fop_name) (t : afr_local) (fd : option fd_t) (loc newloc : loc_t)
    (args : cont_args) (c : cont) (range : Z * Z) (parent new_parent : option Z) (read_child_index : Z) : wlocal :=
  mk_w t op None 0 false read_child_index (u32 (afr_first_up_child this)) true loc newloc fd (0, 0) range
    parent new_parent args c None.

(** The results of handlers: a memory fault, or the local data, [None] once
    they are freed, and the effects. *)
Abbreviation result := (option (option wlocal * list event)).
