(* ===== verification/AfrCalls.v ===== *)
(** * cluster/afr: the functions a transaction calls

    A transaction calls three functions of its operation: [fop] winds it to the
    children, [unwind] answers the caller, [done] ends it.  This file has those
    of afr-inode-write.c, afr-dir-write.c and of flush (afr.c), and
    [transaction.resume] as an operation sees it. *)

From stdpp Require Import base list numbers strings gmap.
From S2P Require Import Prelude AfrPending AfrTransaction AfrFops.
Open Scope Z_scope.

(** ** Answering the caller *)

(** The main frame is taken once; [fill] completes the answer. *)
Definition unwind_main (l : wlocal) (fill : cont -> cont * payload) : wlocal * list event :=
  if w_main_frame l then
    let '(c, p) := fill (w_cont l) in
    let l := set_cont c (set_main_frame false l) in
    (l, [E_unwind (op_ret (w_tr l)) (op_errno (w_tr l)) p])
  else (l, []).

(** Both [struct stat] of the object get the inode number of the caller's. *)
Definition fill_pair (c : cont) : cont * payload :=
  let c := set_pre_post (set_ino (c_ino c) (c_pre c)) (set_ino (c_ino c) (c_post c)) c in
  (c, P_pair (c_pre c) (c_post c)).

Definition afr_writev_unwind (l : wlocal) : wlocal * list event := unwind_main l fill_pair.
Definition afr_truncate_unwind (l : wlocal) : wlocal * list event := unwind_main l fill_pair.
Definition afr_ftruncate_unwind (l : wlocal) : wlocal * list event := unwind_main l fill_pair.
Definition afr_setattr_unwind (l : wlocal) : wlocal * list event := unwind_main l fill_pair.
Definition afr_fsetattr_unwind (l : wlocal) : wlocal * list event := unwind_main l fill_pair.

Definition afr_setxattr_unwind (l : wlocal) : wlocal * list event := unwind_main l (fun c => (c, P_null)).
Definition afr_removexattr_unwind (l : wlocal) : wlocal * list event := unwind_main l (fun c => (c, P_null)).
Definition afr_flush_unwind (l : wlocal) : wlocal * list event := unwind_main l (fun c => (c, P_null)).

(** [unwind_buf]: that of the read child if it has one. *)
Definition with_unwind_buf (f : stat -> stat) (c : cont) : cont * stat :=
  if negb (st_ino (c_read_child_buf c) =? 0)
  then (set_read_child_buf (f (c_read_child_buf c)) c, f (c_read_child_buf c))
  else (set_buf (f (c_buf c)) c, f (c_buf c)).

Definition fill_parents (c : cont) : cont :=
  set_pre_post (set_ino (c_parent_ino c) (c_pre c)) (set_ino (c_parent_ino c) (c_post c)) c.

(** A NULL inode is passed on as such: [op_ret] is -1 then. *)
Definition fill_entry (c : cont) : cont * payload :=
  let '(c, b) := with_unwind_buf (set_ino_dev (c_ino c) (c_gen c)) c in
  let c := fill_parents c in
  (c, match c_inode c with Some i => P_entry i b (c_pre c) (c_post c) | None => P_null end).

Definition afr_create_unwind (l : wlocal) : wlocal * list event :=
  unwind_main l (fun c =>
    let '(c, b) := with_unwind_buf (set_ino_dev (c_ino c) (c_gen c)) c in
    let c := fill_parents c in
    (c, match c_inode c, w_args l with
        | Some i, C_create _ _ fd => P_create fd i b (c_pre c) (c_post c)
        | _, _ => P_null
        end)).

Definition afr_mknod_unwind (l : wlocal) : wlocal * list event := unwind_main l fill_entry.
Definition afr_mkdir_unwind (l : wlocal) : wlocal * list event := unwind_main l fill_entry.
Definition afr_symlink_unwind (l : wlocal) : wlocal * list event := unwind_main l fill_entry.

Definition afr_link_unwind (l : wlocal) : wlocal * list event :=
  unwind_main l (fun c =>
    let '(c, b) := with_unwind_buf (set_ino (c_ino c)) c in
    let c := fill_parents c in
    (c, match c_inode c with Some i => P_entry i b (c_pre c) (c_post c) | None => P_null end)).

Definition afr_rename_unwind (l : wlocal) : wlocal * list event :=
  unwind_main l (fun c =>
    let '(c, b) := with_unwind_buf (set_ino (c_ino c)) c in
    let c := fill_parents c in
    let c := set_pre_post2 (set_ino (c_newparent_ino c) (c_pre2 c)) (set_ino (c_newparent_ino c) (c_post2 c)) c in
    (c, P_rename b (c_pre c) (c_post c) (c_pre2 c) (c_post2 c))).

Definition afr_unlink_unwind (l : wlocal) : wlocal * list event :=
  unwind_main l (fun c => let c := fill_parents c in (c, P_pair (c_pre c) (c_post c))).
Definition afr_rmdir_unwind (l : wlocal) : wlocal * list event :=
  unwind_main l (fun c => let c := fill_parents c in (c, P_pair (c_pre c) (c_post c))).

(** ** The end of a transaction *)

(** [local->transaction.unwind], then [AFR_STACK_DESTROY], which frees the local
    data. *)
Definition destroy (r : wlocal * list event) : option wlocal * list event := (None, r.2 ++ [E_destroy]).

Definition afr_writev_done (l : wlocal) : option wlocal * list event :=
  let '(l, ev) := destroy (afr_writev_unwind l) in (l, E_iobref_unref :: ev).
Definition afr_truncate_done (l : wlocal) := destroy (afr_truncate_unwind l).
Definition afr_ftruncate_done (l : wlocal) := destroy (afr_ftruncate_unwind l).
Definition afr_setattr_done (l : wlocal) := destroy (afr_setattr_unwind l).
Definition afr_fsetattr_done (l : wlocal) := destroy (afr_fsetattr_unwind l).
Definition afr_setxattr_done (l : wlocal) := destroy (afr_setxattr_unwind l).
Definition afr_removexattr_done (l : wlocal) := destroy (afr_removexattr_unwind l).
Definition afr_create_done (l : wlocal) := destroy (afr_create_unwind l).
Definition afr_mknod_done (l : wlocal) := destroy (afr_mknod_unwind l).
Definition afr_mkdir_done (l : wlocal) := destroy (afr_mkdir_unwind l).
Definition afr_link_done (l : wlocal) := destroy (afr_link_unwind l).
Definition afr_symlink_done (l : wlocal) := destroy (afr_symlink_unwind l).
Definition afr_rename_done (l : wlocal) := destroy (afr_rename_unwind l).
Definition afr_unlink_done (l : wlocal) := destroy (afr_unlink_unwind l).
Definition afr_rmdir_done (l : wlocal) := destroy (afr_rmdir_unwind l).
Definition afr_flush_done (l : wlocal) := destroy (afr_flush_unwind l).

(** setdents runs its transaction on the frame of the caller. *)
Definition afr_setdents_done (l : wlocal) : option wlocal * list event :=
  (None, [E_unwind (op_ret (w_tr l)) (op_errno (w_tr l)) P_null]).

(** [local->transaction.done], but for that of [afr_up_down_flush], which starts
    another transaction (see [AfrOps]). *)
Definition transaction_done (l : wlocal) : result :=
  match w_op l with
  | OP_writev => Some (afr_writev_done l)
  | OP_truncate => Some (afr_truncate_done l)
  | OP_ftruncate => Some (afr_ftruncate_done l)
  | OP_setattr => Some (afr_setattr_done l)
  | OP_fsetattr => Some (afr_fsetattr_done l)
  | OP_setxattr => Some (afr_setxattr_done l)
  | OP_removexattr => Some (afr_removexattr_done l)
  | OP_create => Some (afr_create_done l)
  | OP_mknod => Some (afr_mknod_done l)
  | OP_mkdir => Some (afr_mkdir_done l)
  | OP_link => Some (afr_link_done l)
  | OP_symlink => Some (afr_symlink_done l)
  | OP_rename => Some (afr_rename_done l)
  | OP_unlink => Some (afr_unlink_done l)
  | OP_rmdir => Some (afr_rmdir_done l)
  | OP_setdents => Some (afr_setdents_done l)
  | OP_flush => Some (afr_flush_done l)
  | _ => None
  end.

(** What the transaction starts after the operation is wound: calls, or the end. *)
Definition is_call (a : action) : bool :=
  match a with run_fop | run_done | run_post_post_op => false | _ => true end.

Definition late (l : wlocal) (acts : list action) : result :=
  match acts with
  | [run_done] => transaction_done l
  | _ => if forallb is_call acts then Some (Some l, map E_act acts) else None
  end.

(** [local->transaction.resume] *)
Definition resume (this : afr_xl) (l : wlocal) : result :=
  let '(t, acts) := afr_transaction_resume (xl_priv this) (w_tr l) in late (set_tr t l) acts.

(** ** Winding the operation *)

Definition wind_fop (this : afr_xl) (l : wlocal) (call : fop_call) : result :=
  let cc := afr_up_children_count (child_up (w_tr l)) in
  if cc =? 0 then resume this l
  else Some (Some (upd_tr (set_call_count cc) l), wind_loop 0 (child_up (w_tr l)) cc call).

Definition afr_writev_wind (this : afr_xl) (l : wlocal) : result :=
  match w_fd l, w_args l with
  | Some fd, C_writev vector offset => wind_fop this l (F_writev fd vector offset) | _, _ => None
  end.
Definition afr_truncate_wind (this : afr_xl) (l : wlocal) : result :=
  match w_args l with C_truncate offset => wind_fop this l (F_truncate (w_loc l) offset) | _ => None end.
Definition afr_ftruncate_wind (this : afr_xl) (l : wlocal) : result :=
  match w_fd l, w_args l with
  | Some fd, C_truncate offset => wind_fop this l (F_ftruncate fd offset) | _, _ => None
  end.
Definition afr_setattr_wind (this : afr_xl) (l : wlocal) : result :=
  match w_args l with C_setattr buf valid => wind_fop this l (F_setattr (w_loc l) buf valid) | _ => None end.
Definition afr_fsetattr_wind (this : afr_xl) (l : wlocal) : result :=
  match w_fd l, w_args l with
  | Some fd, C_setattr buf valid => wind_fop this l (F_fsetattr fd buf valid) | _, _ => None
  end.
Definition afr_setxattr_wind (this : afr_xl) (l : wlocal) : result :=
  match w_args l with C_setxattr dict flags => wind_fop this l (F_setxattr (w_loc l) dict flags) | _ => None end.
Definition afr_removexattr_wind (this : afr_xl) (l : wlocal) : result :=
  match w_args l with C_removexattr name => wind_fop this l (F_removexattr (w_loc l) name) | _ => None end.
Definition afr_create_wind (this : afr_xl) (l : wlocal) : result :=
  match w_args l with
  | C_create flags mode fd => wind_fop this l (F_create (w_loc l) flags mode fd) | _ => None
  end.
Definition afr_mknod_wind (this : afr_xl) (l : wlocal) : result :=
  match w_args l with C_mknod mode dev => wind_fop this l (F_mknod (w_loc l) mode dev) | _ => None end.
Definition afr_mkdir_wind (this : afr_xl) (l : wlocal) : result :=
  match w_args l with C_mkdir mode => wind_fop this l (F_mkdir (w_loc l) mode) | _ => None end.
Definition afr_link_wind (this : afr_xl) (l : wlocal) : result := wind_fop this l (F_link (w_loc l) (w_newloc l)).
Definition afr_symlink_wind (this : afr_xl) (l : wlocal) : result :=
  match w_args l with C_symlink linkpath => wind_fop this l (F_symlink linkpath (w_loc l)) | _ => None end.
Definition afr_rename_wind (this : afr_xl) (l : wlocal) : result :=
  wind_fop this l (F_rename (w_loc l) (w_newloc l)).
Definition afr_unlink_wind (this : afr_xl) (l : wlocal) : result := wind_fop this l (F_unlink (w_loc l)).
Definition afr_rmdir_wind (this : afr_xl) (l : wlocal) : result := wind_fop this l (F_rmdir (w_loc l)).
Definition afr_setdents_wind (this : afr_xl) (l : wlocal) : result :=
  match w_fd l, w_args l with
  | Some fd, C_setdents flags entries => wind_fop this l (F_setdents fd flags entries) | _, _ => None
  end.
Definition afr_flush_wind (this : afr_xl) (l : wlocal) : result :=
  match w_fd l with Some fd => wind_fop this l (F_flush fd) | None => None end.

(** [local->transaction.fop] *)
Definition transaction_fop (this : afr_xl) (l : wlocal) : result :=
  match w_op l with
  | OP_writev => afr_writev_wind this l
  | OP_truncate => afr_truncate_wind this l
  | OP_ftruncate => afr_ftruncate_wind this l
  | OP_setattr => afr_setattr_wind this l
  | OP_fsetattr => afr_fsetattr_wind this l
  | OP_setxattr => afr_setxattr_wind this l
  | OP_removexattr => afr_removexattr_wind this l
  | OP_create => afr_create_wind this l
  | OP_mknod => afr_mknod_wind this l
  | OP_mkdir => afr_mkdir_wind this l
  | OP_link => afr_link_wind this l
  | OP_symlink => afr_symlink_wind this l
  | OP_rename => afr_rename_wind this l
  | OP_unlink => afr_unlink_wind this l
  | OP_rmdir => afr_rmdir_wind this l
  | OP_setdents => afr_setdents_wind this l
  | OP_flush => afr_flush_wind this l
  | _ => None
  end.

(** What the transaction starts. *)
Definition perform (this : afr_xl) (l : wlocal) (acts : list action) : result :=
  match acts with
  | [run_fop] => transaction_fop this l
  | _ => late l acts
  end.

(** [afr_transaction] of an operation that is not [afr_up_down_flush]. *)
Definition run_transaction (this : afr_xl) (type : afr_transaction_type) (l : wlocal) : result :=
  let t := afr_transaction_local_init (xl_priv this) (w_tr l) in
  let '(t, acts) := afr_transaction (xl_priv this) t type in
  perform this (set_tr t l) acts.

(** How operations begin: a frame for the transaction, the local data, a child
    that is up.  [alloc]: the frame and the local data could be allocated. *)
Definition begin_transaction (this : afr_xl) (alloc : bool * bool) (type : afr_transaction_type)
    (mk : afr_local -> option wlocal) : result :=
  if negb alloc.1 then Some (None, [E_unwind (-1) 0 P_null])
  else if negb alloc.2 then Some (None, [E_destroy; E_unwind (-1) ENOMEM P_null])
  else
    match afr_local_init (xl_priv this) GF_FOP_OTHER false None (xl_child_up this) None with
    | None => Some (None, [E_destroy; E_unwind (-1) ENOTCONN P_null])
    | Some t => l ← mk t; run_transaction this type l
    end.

(** How callbacks end: the last answer lets the transaction go on. *)
Definition finish (this : afr_xl) (l : wlocal) (ev : list event) : result :=
  let l := afr_frame_return l in
  if call_count (w_tr l) =? 0 then '(l, ev') ← resume this l; Some (l, ev ++ ev')
  else Some (Some l, ev).

(** The same, where the caller is answered with the last answer. *)
Definition finish_unwind (this : afr_xl) (unwind : wlocal -> wlocal * list event) (l : wlocal) : result :=
  let l := afr_frame_return l in
  if call_count (w_tr l) =? 0 then
    let '(l, ev) := unwind l in '(l, ev') ← resume this l; Some (l, ev ++ ev')
  else Some (Some l, []).
