(* ===== verification/AfrInodeWrite.v ===== *)
(** * cluster/afr: operations that change an inode

    Model of afr-inode-write.c: the callbacks of writev, truncate, ftruncate,
    setattr, fsetattr, setxattr and removexattr, and how these operations
    begin.  The functions the transactions call are in [AfrCalls]; what comes
    before a write on a file whose children have changed is in [AfrOps]. *)

From stdpp Require Import base list numbers strings gmap.
From S2P Require Import Prelude AfrPending AfrTransaction AfrFops AfrCalls.
Open Scope Z_scope.

(** ** The callbacks *)

(** The context of [local->fd->inode] and of [local->loc.inode]. *)
Definition fd_ctx (e : env) (l : wlocal) : option (option Z) := _ ← w_fd l; Some (e_ctx e).
Definition loc_ctx (e : env) (l : wlocal) : option Z := _ ← loc_inode (w_loc l); e_ctx e.

(** A failed call of a child is noted for the changelog. *)
Definition note_failed (child : nat) (ret : Z) (l : wlocal) : wlocal :=
  if ret =? -1 then upd_tr (fun t => afr_transaction_fop_failed t child) l else l.

(** The part under the lock where the children answer with two [struct stat],
    and [need_unwind].  The answer of the first child that succeeds is kept,
    that of the read child replaces it. *)
Definition collect_pair (this : afr_xl) (read_child : Z) (child : nat) (ret err : Z) (p : payload) (l : wlocal) :
    option (wlocal * bool) :=
  let l := if Z.of_nat child =? read_child then set_read_child_returned true l else l in
  let l := note_failed child ret l in
  '(l, need) ← (if negb (ret =? -1) then
      match p with
      | P_pair pre post =>
          let l := if w_success_count l =? 0 then set_ret ret (upd_cont (set_pre_post pre post) l) else l in
          let l := if Z.of_nat child =? read_child then upd_cont (set_pre_post pre post) l else l in
          let l := set_success_count (u32 (w_success_count l + 1)) l in
          Some (l, (wait_count this <=? w_success_count l) && w_read_child_returned l)
      | _ => None
      end
    else Some (l, false));
  Some (set_errno err l, need).

Definition afr_writev_wind_cbk (this : afr_xl) (e : env) (child : nat) (ret err : Z) (p : payload) (l : wlocal) :
    result :=
  ctx ← fd_ctx e l;
  '(l, _) ← collect_pair this (i32 (afr_read_child ctx)) child ret err p l;
  finish_unwind this afr_writev_unwind l.

(** The caller is answered as soon as [need_unwind] says so. *)
Definition early_unwind (need : bool) (unwind : wlocal -> wlocal * list event) (l : wlocal) : wlocal * list event :=
  if need then unwind l else (l, []).

Definition afr_truncate_wind_cbk (this : afr_xl) (e : env) (child : nat) (ret err : Z) (p : payload) (l : wlocal) :
    result :=
  '(l, need) ← collect_pair this (i32 (afr_read_child (loc_ctx e l))) child ret err p l;
  let '(l, ev) := early_unwind need afr_truncate_unwind l in finish this l ev.

Definition afr_ftruncate_wind_cbk (this : afr_xl) (e : env) (child : nat) (ret err : Z) (p : payload) (l : wlocal) :
    result :=
  ctx ← fd_ctx e l;
  '(l, need) ← collect_pair this (i32 (afr_read_child ctx)) child ret err p l;
  let '(l, ev) := early_unwind need afr_ftruncate_unwind l in finish this l ev.

Definition afr_setattr_wind_cbk (this : afr_xl) (e : env) (child : nat) (ret err : Z) (p : payload) (l : wlocal) :
    result :=
  '(l, need) ← collect_pair this (i32 (afr_read_child (loc_ctx e l))) child ret err p l;
  let '(l, ev) := early_unwind need afr_setattr_unwind l in finish this l ev.

(** [local->loc] is read here too, though fsetattr does not set it. *)
Definition afr_fsetattr_wind_cbk (this : afr_xl) (e : env) (child : nat) (ret err : Z) (p : payload) (l : wlocal) :
    result :=
  '(l, need) ← collect_pair this (i32 (afr_read_child (loc_ctx e l))) child ret err p l;
  let '(l, ev) := early_unwind need afr_fsetattr_unwind l in finish this l ev.

(** The part under the lock of setxattr and removexattr, which do not note
    failures, and of flush, which does before. *)
Definition collect_plain (this : afr_xl) (ret err : Z) (l : wlocal) : wlocal * bool :=
  let '(l, need) :=
    if negb (ret =? -1) then
      let l := if w_success_count l =? 0 then set_ret ret l else l in
      let l := set_success_count (u32 (w_success_count l + 1)) l in
      (l, w_success_count l =? wait_count this)
    else (l, false) in
  (set_errno err l, need).

Definition afr_setxattr_wind_cbk (this : afr_xl) (ret err : Z) (l : wlocal) : result :=
  let '(l, need) := collect_plain this ret err l in
  let '(l, ev) := early_unwind need afr_setxattr_unwind l in finish this l ev.

Definition afr_removexattr_wind_cbk (this : afr_xl) (ret err : Z) (l : wlocal) : result :=
  let '(l, need) := collect_plain this ret err l in
  let '(l, ev) := early_unwind need afr_removexattr_unwind l in finish this l ev.

(** ** Beginning *)

Definition METADATA_RANGE : Z * Z := (LLONG_MAX - 1, 0).

Definition afr_truncate (this : afr_xl) (alloc : bool * bool) (loc : loc_t) (offset : Z) : result :=
  begin_transaction this alloc AFR_DATA_TRANSACTION (fun t =>
    ino ← loc_inode loc;
    Some (start_local this OP_truncate t None loc loc0 (C_truncate offset) (set_ino_gen ino 0 cont0)
            (0, offset) None None 0)).

Definition afr_setattr (this : afr_xl) (alloc : bool * bool) (loc : loc_t) (buf : stat) (valid : Z) : result :=
  begin_transaction this alloc AFR_METADATA_TRANSACTION (fun t =>
    ino ← loc_inode loc;
    Some (start_local this OP_setattr t None loc loc0 (C_setattr buf valid) (set_ino_gen ino 0 cont0)
            METADATA_RANGE None None 0)).

(** [local->fd] is set, which the transaction sees. *)
Definition with_fd (fdctx : option afr_fd_ctx) (t : afr_local) : afr_local :=
  mk_local (l_op t) (l_type t) true fdctx (child_up t) (pending t) (op_ret t) (op_errno t)
    (call_count t) (locked_nodes t) (lock_count t) (post_post_op t).

Definition afr_fsetattr (this : afr_xl) (alloc : bool * bool) (fdctx : option afr_fd_ctx) (fd : fd_t)
    (buf : stat) (valid : Z) : result :=
  begin_transaction this alloc AFR_METADATA_TRANSACTION (fun t =>
    Some (start_local this OP_fsetattr (with_fd fdctx t) (Some fd) loc0 loc0 (C_setattr buf valid)
            (set_ino_gen (fd_inode fd) 0 cont0) METADATA_RANGE None None 0)).

Definition afr_setxattr (this : afr_xl) (alloc : bool * bool) (loc : loc_t) (dict : list (string * list Z))
    (flags : Z) : result :=
  begin_transaction this alloc AFR_METADATA_TRANSACTION (fun t =>
    Some (start_local this OP_setxattr t None loc loc0 (C_setxattr dict flags) cont0 METADATA_RANGE None None 0)).

Definition afr_removexattr (this : afr_xl) (alloc : bool * bool) (loc : loc_t) (name : string) : result :=
  begin_transaction this alloc AFR_METADATA_TRANSACTION (fun t =>
    Some (start_local this OP_removexattr t None loc loc0 (C_removexattr name) cont0 METADATA_RANGE None None 0)).

(** [iov_length] *)
Definition iov_length (vector : list (list Z)) : Z := foldr (fun v n => Z.of_nat (length v) + n) 0 vector.

(** [afr_do_writev]: the write itself.  The lock covers what is written; with
    O_APPEND it is not known where that is, and the whole file is locked. *)
Definition afr_do_writev (this : afr_xl) (alloc : bool) (l : wlocal) : result :=
  if negb alloc then Some (None, [E_unwind (-1) ENOMEM P_null])
  else
    match w_fd l, w_args l with
    | Some fd, C_writev vector offset =>
        let l := upd_tr (set_fop GF_FOP_WRITE) (set_success_count 0 (set_w_op OP_writev l)) in
        let l := set_range (if fd_append fd then (0, 0) else (offset, iov_length vector)) (set_main_frame true l) in
        run_transaction this AFR_DATA_TRANSACTION l
    | _, _ => None
    end.

Definition afr_do_ftruncate (this : afr_xl) (alloc : bool) (l : wlocal) : result :=
  if negb alloc then Some (None, [E_unwind (-1) 0 P_null])
  else
    match w_args l with
    | C_truncate offset =>
        let l := upd_tr (set_fop GF_FOP_FTRUNCATE) (set_w_op OP_ftruncate l) in
        let l := set_range (0, offset) (set_main_frame true l) in
        run_transaction this AFR_DATA_TRANSACTION l
    | _ => None
    end.
