(* ===== verification/AfrDirWrite.v ===== *)
(** * cluster/afr: operations that change a directory

    Model of afr-dir-write.c: the callbacks of create, mknod, mkdir, link,
    symlink, rename, unlink, rmdir and setdents, and how these operations
    begin.  The functions the transactions call are in [AfrCalls]. *)

From stdpp Require Import base list numbers strings gmap.
From S2P Require Import Prelude AfrPending AfrTransaction AfrFops AfrCalls AfrInodeWrite.
Open Scope Z_scope.

(** ** The callbacks *)

(** The inode and generation number of an answer. *)
Definition take_ino (this : afr_xl) (child : Z) (buf : stat) (l : wlocal) : wlocal :=
  upd_cont (set_ino_gen (afr_itransform (st_ino buf) (Z.of_nat (child_count (xl_priv this))) child) (st_dev buf)) l.

(** The read child of a new inode: the one of the configuration, or the one of
    the operation. *)
Definition set_new_read_child (this : afr_xl) (inode : Z) (l : wlocal) : event :=
  E_set_read_child inode (if 0 <=? xl_read_child this then xl_read_child this else w_read_child_index l).

(** What create, mknod, mkdir, symlink and link keep of a child that succeeds.
    [own_ino]: the inode number comes from the children, not so for a link. *)
Definition collect_entry (this : afr_xl) (own_ino : bool) (child : nat) (inode : Z) (buf pre post : stat)
    (l : wlocal) : wlocal * list event :=
  let '(l, ev) :=
    if w_success_count l =? 0 then
      let l := upd_cont (set_buf buf) l in
      (if own_ino then take_ino this (Z.of_nat child) buf l else l, [set_new_read_child this inode l])
    else (l, []) in
  let l := if own_ino && (Z.of_nat child =? w_first_up_child l) then take_ino this (w_first_up_child l) buf l else l in
  let l := if Z.of_nat child =? w_read_child_index l
           then upd_cont (fun c => set_pre_post pre post (set_read_child_buf buf c)) l else l in
  (set_success_count (u32 (w_success_count l + 1)) (upd_cont (set_inode inode) l), ev).

(** [finish_unwind] after the events of the callback. *)
Definition finish_entry (this : afr_xl) (unwind : wlocal -> wlocal * list event) (r : wlocal * list event) : result :=
  '(l, ev) ← finish_unwind this unwind r.1; Some (l, r.2 ++ ev).

Definition entry_cbk (this : afr_xl) (own_ino : bool) (unwind : wlocal -> wlocal * list event)
    (child : nat) (ret err : Z) (p : payload) (l : wlocal) : result :=
  let l := note_failed child ret l in
  '(l, ev) ← (if negb (ret =? -1) then
      match p with
      | P_entry inode buf pre post => Some (collect_entry this own_ino child inode buf pre post (set_ret ret l))
      | _ => None
      end
    else Some (l, []));
  finish_entry this unwind (set_errno err l, ev).

(** [afr_fd_ctx_set] makes a context where there is none; without memory the
    code goes on with a pointer that is not set. *)
Definition opened_on_child (this : afr_xl) (alloc : bool) (child : nat) (l : wlocal) : option wlocal :=
  match w_opened_on l with
  | Some o => Some (set_opened_on (Some (<[child := true]> o)) l)
  | None => if alloc then Some (set_opened_on (Some (<[child := true]> (replicate (child_count (xl_priv this)) false))) l)
            else None
  end.

Definition afr_create_wind_cbk (this : afr_xl) (e : env) (child : nat) (ret err : Z) (p : payload) (l : wlocal) :
    result :=
  let l := note_failed child ret l in
  '(l, ev) ← (if negb (ret =? -1) then
      match p with
      | P_create _ inode buf pre post =>
          l ← opened_on_child this (e_alloc e) child (set_ret ret l);
          Some (collect_entry this true child inode buf pre post l)
      | _ => None
      end
    else Some (l, []));
  finish_entry this afr_create_unwind (set_errno err l, ev).

Definition afr_mknod_wind_cbk (this : afr_xl) := entry_cbk this true afr_mknod_unwind.
Definition afr_mkdir_wind_cbk (this : afr_xl) := entry_cbk this true afr_mkdir_unwind.
Definition afr_symlink_wind_cbk (this : afr_xl) := entry_cbk this true afr_symlink_unwind.
Definition afr_link_wind_cbk (this : afr_xl) := entry_cbk this false afr_link_unwind.

Definition afr_rename_wind_cbk (this : afr_xl) (child : nat) (ret err : Z) (p : payload) (l : wlocal) : result :=
  let l := note_failed child ret l in
  l ← (if negb (ret =? -1) then
      match p with
      | P_rename buf pre1 post1 pre2 post2 =>
          let l := if w_success_count l =? 0
                   then set_success_count (u32 (w_success_count l + 1)) (upd_cont (set_buf buf) (set_ret ret l)) else l in
          Some (if Z.of_nat child =? w_read_child_index l
                then upd_cont (fun c => set_pre_post2 pre2 post2 (set_pre_post pre1 post1 (set_read_child_buf buf c))) l
                else l)
      | _ => None
      end
    else Some l);
  finish_unwind this afr_rename_unwind (set_errno err l).

(** The part under the lock of unlink and rmdir. *)
Definition collect_parents (read_child : Z) (child : nat) (ret err : Z) (p : payload) (l : wlocal) : option wlocal :=
  l ← (if negb (ret =? -1) then
      match p with
      | P_pair pre post =>
          let l := if w_success_count l =? 0 then set_ret ret (upd_cont (set_pre_post pre post) l) else l in
          let l := if Z.of_nat child =? read_child then upd_cont (set_pre_post pre post) l else l in
          Some (set_success_count (u32 (w_success_count l + 1)) l)
      | _ => None
      end
    else Some l);
  Some (set_errno err l).

(** The read child is asked for, and [local->read_child_index] used instead,
    which unlink does not set. *)
Definition afr_unlink_wind_cbk (this : afr_xl) (child : nat) (ret err : Z) (p : payload) (l : wlocal) : result :=
  let read_child := w_read_child_index l in
  let l := if Z.of_nat child =? read_child then set_read_child_returned true l else l in
  l ← collect_parents read_child child ret err p (note_failed child ret l);
  finish_unwind this afr_unlink_unwind l.

(** A directory that is not empty on a child is not noted as a failure. *)
Definition afr_rmdir_wind_cbk (this : afr_xl) (e : env) (child : nat) (ret err : Z) (p : payload) (l : wlocal) :
    result :=
  let read_child := i32 (afr_read_child (loc_ctx e l)) in
  let l := if Z.of_nat child =? read_child then set_read_child_returned true l else l in
  l ← collect_parents read_child child ret err p (if err =? ENOTEMPTY then l else note_failed child ret l);
  finish_unwind this afr_rmdir_unwind l.

Definition afr_setdents_wind_cbk (this : afr_xl) (child : nat) (ret err : Z) (l : wlocal) : result :=
  let l := note_failed child ret l in
  let l := if negb (ret =? -1) && (w_success_count l =? 0)
           then set_success_count (u32 (w_success_count l + 1)) (set_ret ret l) else l in
  finish this (set_errno err l) [].

(** ** Beginning *)

(** [afr_build_parent_loc], its inode. *)
Definition afr_build_parent_loc (child : loc_t) : option Z :=
  match loc_parent child with Some p => Some p | None => loc_inode child end.

(** The inode numbers of the object and of its directory. *)
Definition entry_cont (ino : Z) (loc : loc_t) : cont :=
  mk_cont ino 0 (default 0 (loc_parent loc)) 0 None stat0 stat0 stat0 stat0 stat0 stat0 None None.

(** The operations that make an inode take the next child in turn as its read
    child. *)
Definition begin_entry (this : afr_xl) (alloc : bool * bool) (mk : Z -> afr_local -> option wlocal) : afr_xl * result :=
  if alloc.1 && alloc.2 && negb (afr_up_children_count (xl_child_up this) =? 0) then
    let '(this', read_child_index) := next_read_child this in
    (this', begin_transaction this' alloc AFR_ENTRY_TRANSACTION (mk read_child_index))
  else (this, begin_transaction this alloc AFR_ENTRY_TRANSACTION (fun _ => None)).

Definition afr_create (this : afr_xl) (alloc : bool * bool) (loc : loc_t) (flags mode : Z) (fd : fd_t) :
    afr_xl * result :=
  begin_entry this alloc (fun rc t =>
    Some (start_local this OP_create t None loc loc0 (C_create flags mode fd) (entry_cont 0 loc) (0, 0)
            (afr_build_parent_loc loc) None rc)).

Definition afr_mknod (this : afr_xl) (alloc : bool * bool) (loc : loc_t) (mode dev : Z) : afr_xl * result :=
  begin_entry this alloc (fun rc t =>
    Some (start_local this OP_mknod t None loc loc0 (C_mknod mode dev) (entry_cont 0 loc) (0, 0)
            (afr_build_parent_loc loc) None rc)).

Definition afr_mkdir (this : afr_xl) (alloc : bool * bool) (loc : loc_t) (mode : Z) : afr_xl * result :=
  begin_entry this alloc (fun rc t =>
    Some (start_local this OP_mkdir t None loc loc0 (C_mkdir mode) (entry_cont 0 loc) (0, 0)
            (afr_build_parent_loc loc) None rc)).

Definition afr_symlink (this : afr_xl) (alloc : bool * bool) (linkpath : string) (loc : loc_t) : afr_xl * result :=
  begin_entry this alloc (fun rc t =>
    Some (start_local this OP_symlink t None loc loc0 (C_symlink linkpath) (entry_cont 0 loc) (0, 0)
            (afr_build_parent_loc loc) None rc)).

(** The directory of the old name is locked and marked. *)
Definition afr_link (this : afr_xl) (alloc : bool * bool) (oldloc newloc : loc_t) : afr_xl * result :=
  begin_entry this alloc (fun rc t =>
    ino ← loc_inode oldloc;
    Some (start_local this OP_link t None oldloc newloc C_none (entry_cont ino oldloc) (0, 0)
            (afr_build_parent_loc oldloc) None rc)).

(** [ctx]: the context of the inode. *)
Definition afr_rename (this : afr_xl) (alloc : bool * bool) (ctx : option Z) (oldloc newloc : loc_t) : result :=
  begin_transaction this alloc AFR_ENTRY_RENAME_TRANSACTION (fun t =>
    ino ← loc_inode oldloc;
    let c := mk_cont ino 0 (default 0 (loc_parent oldloc)) (default 0 (loc_parent newloc)) None
               stat0 stat0 stat0 stat0 stat0 stat0 None None in
    Some (start_local this OP_rename t None oldloc newloc C_none c (0, 0)
            (afr_build_parent_loc oldloc) (afr_build_parent_loc newloc) (u32 (afr_read_child ctx)))).

Definition afr_unlink (this : afr_xl) (alloc : bool * bool) (loc : loc_t) : result :=
  begin_transaction this alloc AFR_ENTRY_TRANSACTION (fun t =>
    Some (start_local this OP_unlink t None loc loc0 C_none (entry_cont 0 loc) (0, 0)
            (afr_build_parent_loc loc) None 0)).

Definition afr_rmdir (this : afr_xl) (alloc : bool * bool) (loc : loc_t) : result :=
  begin_transaction this alloc AFR_ENTRY_TRANSACTION (fun t =>
    Some (start_local this OP_rmdir t None loc loc0 C_none (entry_cont 0 loc) (0, 0)
            (afr_build_parent_loc loc) None 0)).

(** setdents has no frame of its own for the transaction, hence no main frame. *)
Definition afr_setdents (this : afr_xl) (alloc : bool) (fdctx : option afr_fd_ctx) (fd : fd_t) (flags : Z)
    (entries : list string) : result :=
  if negb alloc then Some (None, [E_unwind (-1) ENOMEM P_null])
  else
    match afr_local_init (xl_priv this) GF_FOP_OTHER true fdctx (xl_child_up this) None with
    | None => Some (None, [E_unwind (-1) ENOTCONN P_null])
    | Some t =>
        run_transaction this AFR_ENTRY_TRANSACTION (set_main_frame false
          (start_local this OP_setdents t (Some fd) loc0 loc0 (C_setdents flags entries) cont0 (0, 0) None None 0))
    end.
