(* ===== verification/AfrFanout.v ===== *)
(** * cluster/afr: flush, and the operations without a transaction

    From afr.c: flush, which has a transaction if there is a changelog to
    settle, and the operations that are sent to all children that are up and
    answered when all have: fsync, fsyncdir, xattrop, fxattrop, the lock
    operations for other translators, checksum and statfs. *)

From stdpp Require Import base list numbers strings gmap.
From S2P Require Import Prelude AfrPending AfrTransaction AfrFops AfrCalls AfrInodeWrite.
Open Scope Z_scope.

(** ** Sending to all children *)

(** [alloc]: there is memory for the local data. *)
Definition fan_out (this : afr_xl) (alloc : bool) (op : fop_name) (fd : option fd_t) (c : cont) (call : fop_call) :
    result :=
  if negb alloc then Some (None, [E_unwind (-1) ENOMEM P_null])
  else
    match afr_local_init (xl_priv this) GF_FOP_OTHER (bool_decide (is_Some fd)) None (xl_child_up this) None with
    | None => Some (None, [E_unwind (-1) ENOTCONN P_null])
    | Some t =>
        Some (Some (set_main_frame false (start_local this op t fd loc0 loc0 C_none c (0, 0) None None 0)),
              wind_loop 0 (child_up t) (call_count t) call)
    end.

(** The last answer is passed on; [fill] gives what it carries. *)
Definition finish_fan_out (l : wlocal) (fill : wlocal -> payload) : result :=
  let l := afr_frame_return l in
  if call_count (w_tr l) =? 0
  then Some (None, [E_unwind (op_ret (w_tr l)) (op_errno (w_tr l)) (fill l)])
  else Some (Some l, []).

(** The operation succeeds if it does on one child. *)
Definition collect_ret (ret err : Z) (l : wlocal) : wlocal :=
  set_errno err (if ret =? 0 then set_ret 0 l else l).

Definition afr_plain_flush_cbk (ret err : Z) (l : wlocal) : result :=
  finish_fan_out (collect_ret ret err l) (fun _ => P_null).
Definition afr_fsyncdir_cbk (ret err : Z) (l : wlocal) : result :=
  finish_fan_out (collect_ret ret err l) (fun _ => P_null).
Definition afr_xattrop_cbk (ret err : Z) (p : payload) (l : wlocal) : result :=
  finish_fan_out (collect_ret ret err l) (fun _ => p).
Definition afr_fxattrop_cbk (ret err : Z) (p : payload) (l : wlocal) : result :=
  finish_fan_out (collect_ret ret err l) (fun _ => p).
Definition afr_inodelk_cbk (ret err : Z) (l : wlocal) : result :=
  finish_fan_out (collect_ret ret err l) (fun _ => P_null).
Definition afr_finodelk_cbk (ret err : Z) (l : wlocal) : result :=
  finish_fan_out (collect_ret ret err l) (fun _ => P_null).
Definition afr_entrylk_cbk (ret err : Z) (l : wlocal) : result :=
  finish_fan_out (collect_ret ret err l) (fun _ => P_null).
Definition afr_fentrylk_cbk (ret err : Z) (l : wlocal) : result :=
  finish_fan_out (collect_ret ret err l) (fun _ => P_null).

Definition afr_fsync_cbk (e : env) (child : nat) (ret err : Z) (p : payload) (l : wlocal) : result :=
  ctx ← fd_ctx e l;
  let read_child := i32 (afr_read_child ctx) in
  let l := if Z.of_nat child =? read_child then set_read_child_returned true l else l in
  l ← (if ret =? 0 then
      match p with
      | P_pair pre post =>
          let l := set_ret 0 l in
          let l := if w_success_count l =? 0 then upd_cont (set_pre_post pre post) l else l in
          let l := if Z.of_nat child =? read_child then upd_cont (set_pre_post pre post) l else l in
          Some (set_success_count (u32 (w_success_count l + 1)) l)
      | _ => None
      end
    else Some l);
  finish_fan_out (set_errno err l) (fun l => (fill_pair (w_cont l)).2).

(** The checksums of the first child that succeeds. *)
Definition afr_checksum_cbk (ret err : Z) (p : payload) (l : wlocal) : result :=
  l ← (if (ret =? 0) && negb (op_ret (w_tr l) =? 0) then
      match p with
      | P_checksum file dir => Some (upd_cont (set_checksum (file, dir)) (set_ret 0 l))
      | _ => None
      end
    else Some l);
  finish_fan_out (set_errno err l)
    (fun l => match c_checksum (w_cont l) with Some (file, dir) => P_checksum file dir | None => P_null end).

(** The child with the least space that is free. *)
Definition afr_statfs_cbk (ret err : Z) (p : payload) (l : wlocal) : result :=
  l ← (if ret =? 0 then
      match p with
      | P_statfs b =>
          let l := set_ret ret l in
          Some (match c_statfs (w_cont l) with
                | Some b' => if f_bavail b <? f_bavail b' then upd_cont (set_statfs b) l else l
                | None => upd_cont (set_statfs b) l
                end)
      | _ => None
      end
    else Some l);
  finish_fan_out (if ret =? -1 then set_errno err l else l)
    (fun l => match c_statfs (w_cont l) with Some b => P_statfs b | None => P_statfs (mk_statvfs 0 0) end).

Definition afr_fsync (this : afr_xl) (alloc : bool) (fd : fd_t) (datasync : Z) : result :=
  fan_out this alloc OP_fsync (Some fd) (set_ino_gen (fd_inode fd) 0 cont0) (F_fsync fd datasync).
Definition afr_fsyncdir (this : afr_xl) (alloc : bool) (fd : fd_t) (datasync : Z) : result :=
  fan_out this alloc OP_fsyncdir None cont0 (F_fsyncdir fd datasync).
Definition afr_xattrop (this : afr_xl) (alloc : bool) (loc : loc_t) (xattr : list (string * list Z)) : result :=
  fan_out this alloc OP_xattrop None cont0 (F_xattrop loc xattr).
Definition afr_fxattrop (this : afr_xl) (alloc : bool) (fd : fd_t) (xattr : list (string * list Z)) : result :=
  fan_out this alloc OP_fxattrop None cont0 (F_fxattrop fd xattr).
Definition afr_inodelk (this : afr_xl) (alloc : bool) (loc : loc_t) (cmd : Z) : result :=
  fan_out this alloc OP_inodelk None cont0 (F_inodelk loc cmd).
Definition afr_finodelk (this : afr_xl) (alloc : bool) (fd : fd_t) (cmd : Z) : result :=
  fan_out this alloc OP_finodelk None cont0 (F_finodelk fd cmd).
Definition afr_entrylk (this : afr_xl) (alloc : bool) (loc : loc_t) (basename : string) (cmd : Z) : result :=
  fan_out this alloc OP_entrylk None cont0 (F_entrylk loc basename cmd).
Definition afr_fentrylk (this : afr_xl) (alloc : bool) (fd : fd_t) (basename : string) (cmd : Z) : result :=
  fan_out this alloc OP_fentrylk None cont0 (F_fentrylk fd basename cmd).
Definition afr_checksum (this : afr_xl) (alloc : bool) (loc : loc_t) (flag : Z) : result :=
  fan_out this alloc OP_checksum None cont0 (F_checksum loc flag).
Definition afr_statfs (this : afr_xl) (alloc : bool) (loc : loc_t) : result :=
  fan_out this alloc OP_statfs None cont0 (F_statfs loc).

(** ** flush *)

Definition afr_flush_wind_cbk (this : afr_xl) (child : nat) (ret err : Z) (l : wlocal) : result :=
  let '(l, need) := collect_plain this ret err (note_failed child ret l) in
  let '(l, ev) := early_unwind need afr_flush_unwind l in finish this l ev.

Definition __no_pre_op_done (c : option afr_fd_ctx) : bool :=
  match c with None => true | Some c => forallb negb (pre_op_done c) end.

(** [alloc]: the frame of the transaction and the local data. *)
Definition afr_flush (this : afr_xl) (alloc : bool * bool) (fdctx : option afr_fd_ctx) (fd : fd_t) : result :=
  if __no_pre_op_done fdctx then fan_out this alloc.2 OP_plain_flush None cont0 (F_flush fd)
  else if negb alloc.2 then Some (None, [E_unwind (-1) ENOMEM P_null])
  else
    match afr_local_init (xl_priv this) GF_FOP_FLUSH true fdctx (xl_child_up this) None with
    | None => Some (None, [E_unwind (-1) ENOTCONN P_null])
    | Some t =>
        if negb alloc.1 then Some (None, [E_unwind (-1) ENOMEM P_null])
        else run_transaction this AFR_FLUSH_TRANSACTION
               (start_local this OP_flush t (Some fd) loc0 loc0 C_none cont0 (0, 0) None None 0)
    end.
