(* ===== verification/AfrOps.v ===== *)
(** * cluster/afr: operations from their beginning to their answer

    The writes on an open file, before which the changelog is settled if
    children have come or gone ([afr_up_down_flush] of afr-open.c), and the
    operations put together: how each one begins, and the callback for each
    call that is answered. *)

From stdpp Require Import base list numbers strings gmap.
From S2P Require Import Prelude AfrPending AfrTransaction AfrFops AfrCalls AfrInodeWrite AfrDirWrite AfrFanout.
Open Scope Z_scope.

(** ** Settling the changelog of an open file *)

Inductive afr_flush_type := AFR_CHILD_UP_FLUSH | AFR_CHILD_DOWN_FLUSH.

(** [local->up_down_flush_cbk] *)
Definition up_down_flush_cbk (this : afr_xl) (alloc : bool) (l : wlocal) : result :=
  match w_after l with
  | Some OP_writev => afr_do_writev this alloc l
  | Some OP_ftruncate => afr_do_ftruncate this alloc l
  | _ => None
  end.

(** The marks of the pre-ops are taken back for the children that are up, and
    the fd has seen all changes so far. *)
Definition clear_pre_op_done (up : list bool) (c : afr_fd_ctx) : afr_fd_ctx :=
  mk_fdctx (zip_with (fun (u d : bool) => if u then false else d) up (pre_op_done c)) (opened_on c) (child_failed c).

Definition afr_up_down_flush_done (this : afr_xl) (e : env) (l : wlocal) : result :=
  let l := match fdctx (w_tr l) with
           | Some c => set_fd_counts (up_count this, down_count this)
                         (upd_tr (fun t => set_fdctx (Some (clear_pre_op_done (child_up t) c)) t) l)
           | None => l
           end in
  up_down_flush_cbk this (e_alloc e) l.

(** The file may be missing on a child that has come up; self-heal is started,
    and [sh->unwind] called when it is over. *)
Definition afr_up_down_flush_post_post_op (e : env) (l : wlocal) : result :=
  fd ← w_fd l;
  let loc := mk_loc (loc_name (e_loc e)) (Some (fd_inode fd)) (loc_parent (e_loc e)) in
  Some (Some (set_success_count 1 (set_loc loc l)), [E_self_heal]).

Definition flush_late (this : afr_xl) (e : env) (l : wlocal) (acts : list action) : result :=
  match acts with
  | [run_done] => afr_up_down_flush_done this e l
  | [run_post_post_op] => afr_up_down_flush_post_post_op e l
  | _ => if forallb is_call acts then Some (Some l, map E_act acts) else None
  end.

(** [afr_up_down_flush_wind] has nothing to wind. *)
Definition afr_up_down_flush_wind (this : afr_xl) (e : env) (l : wlocal) : result :=
  let '(t, acts) := afr_transaction_resume (xl_priv this) (w_tr l) in flush_late this e (set_tr t l) acts.

Definition flush_perform (this : afr_xl) (e : env) (l : wlocal) (acts : list action) : result :=
  match acts with
  | [run_fop] => afr_up_down_flush_wind this e l
  | _ => flush_late this e l acts
  end.

Definition afr_up_down_flush (this : afr_xl) (e : env) (type : afr_flush_type) (l : wlocal) : result :=
  let post := match type with AFR_CHILD_UP_FLUSH => Some ppo_user | AFR_CHILD_DOWN_FLUSH => None end in
  let l := upd_tr (fun t => set_post_post post (set_fop GF_FOP_FLUSH t)) (set_range (0, 0) (set_w_op OP_up_down_flush l)) in
  let t := afr_transaction_local_init (xl_priv this) (w_tr l) in
  let '(t, acts) := afr_transaction (xl_priv this) t AFR_FLUSH_TRANSACTION in
  flush_perform this e (set_tr t l) acts.

(** [local->transaction.post_post_op], which is set by now. *)
Definition call_post_post_op (this : afr_xl) (e : env) (l : wlocal) : result :=
  p ← post_post_op (w_tr l);
  let '(t, acts) := run_post_post p (w_tr l) in flush_late this e (set_tr t l) acts.

Definition __unopened_count (opened_on child_up : list bool) : Z :=
  Z.of_nat (length (List.filter (fun p => negb p.1 && p.2) (zip opened_on child_up))).

Fixpoint open_loop (i : nat) (ps : list (bool * bool)) (call_count : Z) (loc : loc_t) (fd : fd_t) : list event :=
  match ps with
  | [] => []
  | (opened, up) :: ps =>
      if negb opened && up
      then E_open i loc fd :: if call_count - 1 =? 0 then [] else open_loop (S i) ps (call_count - 1) loc fd
      else open_loop (S i) ps call_count loc fd
  end.

(** The fd is opened on the children that are up and have it not. *)
Definition afr_up_down_flush_sh_unwind (this : afr_xl) (e : env) (l : wlocal) : result :=
  match fdctx (w_tr l) with
  | None => call_post_post_op this e l
  | Some c =>
      let cc := __unopened_count (opened_on c) (child_up (w_tr l)) in
      if cc =? 0 then call_post_post_op this e l
      else
        fd ← w_fd l;
        Some (Some (upd_tr (set_call_count cc) l),
              open_loop 0 (zip (opened_on c) (child_up (w_tr l))) cc (w_loc l) fd)
  end.

Definition afr_up_down_flush_open_cbk (this : afr_xl) (e : env) (child : nat) (ret : Z) (l : wlocal) : result :=
  let l := if 0 <=? ret then
             match fdctx (w_tr l) with
             | Some c => upd_tr (set_fdctx (Some (mk_fdctx (pre_op_done c) (<[child := true]> (opened_on c)) (child_failed c)))) l
             | None => l
             end
           else l in
  let l := afr_frame_return l in
  if call_count (w_tr l) =? 0 then call_post_post_op this e l else Some (Some l, []).

(** ** Writes on an open file *)

(** [counts]: [up_count] and [down_count] of the context of the fd.  The second
    allocation, for the frame of the transaction, is that of [e]. *)
Definition afr_writev (this : afr_xl) (alloc : bool) (e : env) (fdctx : option afr_fd_ctx) (counts : Z * Z)
    (fd : fd_t) (vector : list (list Z)) (offset : Z) : result :=
  if negb alloc then Some (None, [E_unwind (-1) ENOMEM P_null])
  else
    match afr_local_init (xl_priv this) GF_FOP_OTHER true fdctx (xl_child_up this) None with
    | None => Some (None, [E_unwind (-1) ENOTCONN P_null])
    | Some t =>
        let l := set_fd_counts counts (set_after (Some OP_writev) (set_main_frame false
                   (start_local this OP_writev t (Some fd) loc0 loc0 (C_writev vector offset)
                      (set_ino_gen (fd_inode fd) 0 cont0) (0, 0) None None 0))) in
        if bool_decide (fdctx = None) then Some (None, [E_unwind (-1) 0 P_null])
        else if counts.2 <? down_count this then afr_up_down_flush this e AFR_CHILD_DOWN_FLUSH l
        else if counts.1 <? up_count this then afr_up_down_flush this e AFR_CHILD_UP_FLUSH l
        else afr_do_writev this (e_alloc e) l
    end.

Definition afr_ftruncate (this : afr_xl) (alloc : bool) (e : env) (fdctx : option afr_fd_ctx) (counts : Z * Z)
    (fd : fd_t) (offset : Z) : result :=
  if negb alloc then Some (None, [E_unwind (-1) ENOMEM P_null])
  else
    match afr_local_init (xl_priv this) GF_FOP_OTHER true fdctx (xl_child_up this) None with
    | None => Some (None, [E_unwind (-1) ENOTCONN P_null])
    | Some t =>
        let l := set_fd_counts counts (set_after (Some OP_ftruncate) (set_main_frame false
                   (start_local this OP_ftruncate t (Some fd) loc0 loc0 (C_truncate offset)
                      (set_ino_gen (fd_inode fd) 0 cont0) (0, 0) None None 0))) in
        if bool_decide (fdctx = None) then Some (None, [E_unwind (-1) 0 P_null])
        else if counts.2 <? down_count this then afr_up_down_flush this e AFR_CHILD_DOWN_FLUSH l
        else afr_do_ftruncate this (e_alloc e) l
    end.

(** ** All operations *)

(** A request of the translator above, with the outcome of the allocations. *)
Inductive request :=
  | Q_writev (alloc : bool) (e : env) (c : option afr_fd_ctx) (counts : Z * Z) (fd : fd_t) (vector : list (list Z)) (offset : Z)
  | Q_ftruncate (alloc : bool) (e : env) (c : option afr_fd_ctx) (counts : Z * Z) (fd : fd_t) (offset : Z)
  | Q_truncate (alloc : bool * bool) (loc : loc_t) (offset : Z)
  | Q_setattr (alloc : bool * bool) (loc : loc_t) (buf : stat) (valid : Z)
  | Q_fsetattr (alloc : bool * bool) (c : option afr_fd_ctx) (fd : fd_t) (buf : stat) (valid : Z)
  | Q_setxattr (alloc : bool * bool) (loc : loc_t) (dict : list (string * list Z)) (flags : Z)
  | Q_removexattr (alloc : bool * bool) (loc : loc_t) (name : string)
  | Q_create (alloc : bool * bool) (loc : loc_t) (flags mode : Z) (fd : fd_t)
  | Q_mknod (alloc : bool * bool) (loc : loc_t) (mode dev : Z)
  | Q_mkdir (alloc : bool * bool) (loc : loc_t) (mode : Z)
  | Q_symlink (alloc : bool * bool) (linkpath : string) (loc : loc_t)
  | Q_link (alloc : bool * bool) (oldloc newloc : loc_t)
  | Q_rename (alloc : bool * bool) (ctx : option Z) (oldloc newloc : loc_t)
  | Q_unlink (alloc : bool * bool) (loc : loc_t)
  | Q_rmdir (alloc : bool * bool) (loc : loc_t)
  | Q_setdents (alloc : bool) (c : option afr_fd_ctx) (fd : fd_t) (flags : Z) (entries : list string)
  | Q_flush (alloc : bool * bool) (c : option afr_fd_ctx) (fd : fd_t)
  | Q_fsync (alloc : bool) (fd : fd_t) (datasync : Z)
  | Q_fsyncdir (alloc : bool) (fd : fd_t) (datasync : Z)
  | Q_xattrop (alloc : bool) (loc : loc_t) (xattr : list (string * list Z))
  | Q_fxattrop (alloc : bool) (fd : fd_t) (xattr : list (string * list Z))
  | Q_inodelk (alloc : bool) (loc : loc_t) (cmd : Z)
  | Q_finodelk (alloc : bool) (fd : fd_t) (cmd : Z)
  | Q_entrylk (alloc : bool) (loc : loc_t) (basename : string) (cmd : Z)
  | Q_fentrylk (alloc : bool) (fd : fd_t) (basename : string) (cmd : Z)
  | Q_checksum (alloc : bool) (loc : loc_t) (flag : Z)
  | Q_statfs (alloc : bool) (loc : loc_t).

Definition begin (this : afr_xl) (q : request) : afr_xl * result :=
  match q with
  | Q_writev alloc e c counts fd vector offset => (this, afr_writev this alloc e c counts fd vector offset)
  | Q_ftruncate alloc e c counts fd offset => (this, afr_ftruncate this alloc e c counts fd offset)
  | Q_truncate alloc loc offset => (this, afr_truncate this alloc loc offset)
  | Q_setattr alloc loc buf valid => (this, afr_setattr this alloc loc buf valid)
  | Q_fsetattr alloc c fd buf valid => (this, afr_fsetattr this alloc c fd buf valid)
  | Q_setxattr alloc loc dict flags => (this, afr_setxattr this alloc loc dict flags)
  | Q_removexattr alloc loc name => (this, afr_removexattr this alloc loc name)
  | Q_create alloc loc flags mode fd => afr_create this alloc loc flags mode fd
  | Q_mknod alloc loc mode dev => afr_mknod this alloc loc mode dev
  | Q_mkdir alloc loc mode => afr_mkdir this alloc loc mode
  | Q_symlink alloc linkpath loc => afr_symlink this alloc linkpath loc
  | Q_link alloc oldloc newloc => afr_link this alloc oldloc newloc
  | Q_rename alloc ctx oldloc newloc => (this, afr_rename this alloc ctx oldloc newloc)
  | Q_unlink alloc loc => (this, afr_unlink this alloc loc)
  | Q_rmdir alloc loc => (this, afr_rmdir this alloc loc)
  | Q_setdents alloc c fd flags entries => (this, afr_setdents this alloc c fd flags entries)
  | Q_flush alloc c fd => (this, afr_flush this alloc c fd)
  | Q_fsync alloc fd datasync => (this, afr_fsync this alloc fd datasync)
  | Q_fsyncdir alloc fd datasync => (this, afr_fsyncdir this alloc fd datasync)
  | Q_xattrop alloc loc xattr => (this, afr_xattrop this alloc loc xattr)
  | Q_fxattrop alloc fd xattr => (this, afr_fxattrop this alloc fd xattr)
  | Q_inodelk alloc loc cmd => (this, afr_inodelk this alloc loc cmd)
  | Q_finodelk alloc fd cmd => (this, afr_finodelk this alloc fd cmd)
  | Q_entrylk alloc loc basename cmd => (this, afr_entrylk this alloc loc basename cmd)
  | Q_fentrylk alloc fd basename cmd => (this, afr_fentrylk this alloc fd basename cmd)
  | Q_checksum alloc loc flag => (this, afr_checksum this alloc loc flag)
  | Q_statfs alloc loc => (this, afr_statfs this alloc loc)
  end.

(** The callback of the operation for the answer of a child. *)
Definition fop_cbk (this : afr_xl) (e : env) (child : nat) (ret err : Z) (p : payload) (l : wlocal) : result :=
  match w_op l with
  | OP_writev => afr_writev_wind_cbk this e child ret err p l
  | OP_truncate => afr_truncate_wind_cbk this e child ret err p l
  | OP_ftruncate => afr_ftruncate_wind_cbk this e child ret err p l
  | OP_setattr => afr_setattr_wind_cbk this e child ret err p l
  | OP_fsetattr => afr_fsetattr_wind_cbk this e child ret err p l
  | OP_setxattr => afr_setxattr_wind_cbk this ret err l
  | OP_removexattr => afr_removexattr_wind_cbk this ret err l
  | OP_create => afr_create_wind_cbk this e child ret err p l
  | OP_mknod => afr_mknod_wind_cbk this child ret err p l
  | OP_mkdir => afr_mkdir_wind_cbk this child ret err p l
  | OP_link => afr_link_wind_cbk this child ret err p l
  | OP_symlink => afr_symlink_wind_cbk this child ret err p l
  | OP_rename => afr_rename_wind_cbk this child ret err p l
  | OP_unlink => afr_unlink_wind_cbk this child ret err p l
  | OP_rmdir => afr_rmdir_wind_cbk this e child ret err p l
  | OP_setdents => afr_setdents_wind_cbk this child ret err l
  | OP_flush => afr_flush_wind_cbk this child ret err l
  | OP_up_down_flush => None
  | OP_plain_flush => afr_plain_flush_cbk ret err l
  | OP_fsync => afr_fsync_cbk e child ret err p l
  | OP_fsyncdir => afr_fsyncdir_cbk ret err l
  | OP_xattrop => afr_xattrop_cbk ret err p l
  | OP_fxattrop => afr_fxattrop_cbk ret err p l
  | OP_inodelk => afr_inodelk_cbk ret err l
  | OP_finodelk => afr_finodelk_cbk ret err l
  | OP_entrylk => afr_entrylk_cbk ret err l
  | OP_fentrylk => afr_fentrylk_cbk ret err l
  | OP_checksum => afr_checksum_cbk ret err p l
  | OP_statfs => afr_statfs_cbk ret err p l
  end.

(** The callback of the transaction for a call it has wound. *)
Definition act_cbk (this : afr_xl) (a : action) (ret err : Z) (t : afr_local) : option (afr_local * list action) :=
  match a with
  | wind_lock i | wind_lock_higher i => Some (afr_lock_cbk (xl_priv this) t i ret err)
  | wind_lock_lower i => Some (afr_lock_lower_cbk t i ret err)
  | wind_unlock _ | wind_unlock_lower _ | wind_unlock_higher _ => Some (afr_unlock_common_cbk t)
  | wind_pre_op i _ _ => Some (afr_changelog_pre_op_cbk (xl_priv this) t i ret err)
  | wind_post_op _ _ _ => Some (afr_changelog_post_op_cbk (xl_priv this) t)
  | run_fop | run_done | run_post_post_op => None
  end.

(** What the transaction starts, whichever it is. *)
Definition perform_any (this : afr_xl) (e : env) (l : wlocal) (acts : list action) : result :=
  if bool_decide (w_op l = OP_up_down_flush) then flush_perform this e l acts else perform this l acts.

(** The answer to a call. *)
Definition handle (this : afr_xl) (e : env) (call : event) (ret err : Z) (p : payload) (l : wlocal) : result :=
  match call with
  | E_act a => '(t, acts) ← act_cbk this a ret err (w_tr l); perform_any this e (set_tr t l) acts
  | E_wind i _ => fop_cbk this e i ret err p l
  | E_open i _ _ => afr_up_down_flush_open_cbk this e i ret l
  | E_self_heal => afr_up_down_flush_sh_unwind this e l
  | _ => None
  end.
