(* ===== verification/AfrTransFacts.v ===== *)
(** * cluster/afr: what the handlers of a transaction start

    Every handler of a transaction either winds calls and counts them, or hands
    over to the operation.  [AfrSystem] follows operations by this. *)

From stdpp Require Import base list numbers strings gmap.
From S2P Require Import Prelude ByteOrder AfrPending AfrTransaction AfrFacts.
Open Scope Z_scope.

(** ** Well-formed local data *)

Record fdctx_ok (n : nat) (c : afr_fd_ctx) : Prop := {
  fc_pre : length (pre_op_done c) = n;
  fc_opened : length (opened_on c) = n;
  fc_failed : length (child_failed c) = n
}.

(** The arrays have one entry per child; flush, and only it, has a transaction of
    that type; the word of the transaction is the only one in use. *)
Record tr_ok (n : nat) (t : afr_local) : Prop := {
  to_up : length (child_up t) = n;
  to_locked : length (locked_nodes t) = n;
  to_ctx : forall c, fdctx t = Some c -> fdctx_ok n c;
  to_flush : l_op t = GF_FOP_FLUSH <-> l_type t = AFR_FLUSH_TRANSACTION;
  to_pending : exists f, pending t = rows (afr_index_for_transaction_type (l_type t)) n f
}.

(** What a handler of the transaction leaves alone. *)
Definition same_kind (t t' : afr_local) : Prop :=
  l_op t' = l_op t /\ l_type t' = l_type t /\ has_fd t' = has_fd t.

(** ** Classes of calls *)

Inductive class := K_pre | K_post | K_unlock.

Definition in_class (k : class) (a : action) : Prop :=
  match k, a with
  | K_pre, wind_pre_op _ _ _ | K_post, wind_post_op _ _ _ => True
  | K_unlock, (wind_unlock _ | wind_unlock_lower _ | wind_unlock_higher _) => True
  | _, _ => False
  end.

(** Calls of one class, as many as are counted, and at most two per child. *)
Definition counted (k : class) (n : nat) (t : afr_local) (acts : list action) : Prop :=
  Forall (in_class k) acts /\ acts <> [] /\ call_count t = Z.of_nat (length acts) /\ (length acts <= 2 * n)%nat.

(** The end of a transaction: the locks are given back. *)
Definition ending (n : nat) (t : afr_local) (acts : list action) : Prop :=
  counted K_unlock n t acts \/ acts = [run_done].

(** ** Unlocking *)

Lemma unlock_node_length type i nd :
  Z.of_nat (length (unlock_node type i nd)) =
    (if locked_yes nd then 1 else 0) + (if is_rename type && locked_lower nd then 1 else 0).
Proof.
  unfold unlock_node, is_rename. destruct type, (locked_yes nd), (locked_lower nd); simpl; lia.
Qed.

Lemma unlock_node_class type i nd : Forall (in_class K_unlock) (unlock_node type i nd).
Proof. unfold unlock_node. destruct type, (locked_yes nd), (locked_lower nd); repeat constructor. Qed.

Lemma locked_count_nonneg type ns : 0 <= afr_transaction_locked_nodes_count type ns.
Proof.
  induction ns as [|nd ns IH]; simpl; [lia|]. pose proof (unlock_node_length type 0 nd). lia.
Qed.

Lemma unlock_loop_counts type i ns cc :
  cc = afr_transaction_locked_nodes_count type ns -> Z.of_nat (length (unlock_loop type i ns cc)) = cc.
Proof.
  revert i cc. induction ns as [|nd ns IH]; intros i cc Hc; simpl in *; [lia|].
  pose proof (unlock_node_length type i nd) as Hl. rewrite length_app, Nat2Z.inj_add.
  destruct (Z.eqb_spec (cc - Z.of_nat (length (unlock_node type i nd))) 0) as [Hz|Hz]; simpl; [lia|].
  rewrite IH; lia.
Qed.

Lemma unlock_loop_class type i ns cc : Forall (in_class K_unlock) (unlock_loop type i ns cc).
Proof.
  revert i cc. induction ns as [|nd ns IH]; intros i cc; simpl; [constructor|].
  apply Forall_app. split; [apply unlock_node_class|]. by destruct (_ =? 0).
Qed.

Lemma locked_count_le type ns : afr_transaction_locked_nodes_count type ns <= 2 * Z.of_nat (length ns).
Proof.
  induction ns as [|nd ns IH]; simpl; [lia|]. destruct (locked_yes nd), (is_rename type && locked_lower nd); lia.
Qed.

Lemma unlock_ending n t : tr_ok n t -> ending n (afr_unlock t).1 (afr_unlock t).2.
Proof.
  intros Hok. unfold afr_unlock. set (cc := afr_transaction_locked_nodes_count _ _).
  destruct (Z.eqb_spec cc 0) as [Hz|Hz]; [by right|]. left. simpl.
  pose proof (unlock_loop_counts (l_type t) 0 (locked_nodes t) cc eq_refl) as Hl.
  pose proof (locked_count_le (l_type t) (locked_nodes t)) as Hle. fold cc in Hle. rewrite (to_locked _ _ Hok) in Hle.
  split_and!; [apply unlock_loop_class| |done|lia]. intros Hn. rewrite Hn in Hl. simpl in Hl. lia.
Qed.

(** ** Pre-op and post-op *)

(** Calls per child: a rename marks two directories. *)
Definition width (type : afr_transaction_type) : Z := if is_rename type then 2 else 1.

Lemma up_count_cons b up : afr_up_children_count (b :: up) = (if b then 1 else 0) + afr_up_children_count up.
Proof. unfold afr_up_children_count. destruct b; simpl; lia. Qed.

Lemma up_count_nonneg up : 0 <= afr_up_children_count up.
Proof. unfold afr_up_children_count. lia. Qed.

Lemma up_count_le up : afr_up_children_count up <= Z.of_nat (length up).
Proof. induction up as [|b up IH]; [done|]. rewrite up_count_cons. cbn [length]. destruct b; lia. Qed.

Lemma pre_node_width priv l i : Z.of_nat (length (pre_node priv l i)) = width (l_type l).
Proof. unfold pre_node, width, is_rename. by destruct (l_type l). Qed.

Lemma pre_loop_counts priv l i up cc :
  cc = width (l_type l) * afr_up_children_count up ->
  Z.of_nat (length (pre_loop priv l i up cc)) = cc /\ Forall (in_class K_pre) (pre_loop priv l i up cc).
Proof.
  assert (forall j, Forall (in_class K_pre) (pre_node priv l j)) as Hk.
  { intros j. unfold pre_node. destruct (l_type l); repeat constructor. }
  revert i cc. induction up as [|[] up IH]; intros i cc Hc; rewrite ?up_count_cons in Hc; simpl.
  - unfold afr_up_children_count in Hc. simpl in Hc. split; [lia|constructor].
  - pose proof (pre_node_width priv l i) as Hw.
    destruct (Z.eqb_spec (cc - Z.of_nat (length (pre_node priv l i))) 0) as [Hz|Hz]; [split; [lia|done]|].
    destruct (IH (S i) (cc - Z.of_nat (length (pre_node priv l i)))) as [IH1 IH2]; [lia|].
    rewrite length_app, Nat2Z.inj_add. split; [lia|]. by apply Forall_app.
  - apply IH. lia.
Qed.

(** A post-op call with the marks of the transaction. *)
Definition post_with (priv : afr_private) (p : list (list Z)) (a : action) : Prop :=
  exists i on, a = wind_post_op i on (afr_set_pending_dict priv p).

Lemma post_loop_plain priv l i up cc :
  l_type l <> AFR_FLUSH_TRANSACTION -> cc = width (l_type l) * afr_up_children_count up ->
  (post_loop priv l i up cc).1 = l /\ Z.of_nat (length (post_loop priv l i up cc).2) = cc /\
  Forall (post_with priv (pending l)) (post_loop priv l i up cc).2.
Proof.
  intros Hf. assert (forall j, (post_node priv l j).1 = l /\
    Z.of_nat (length (post_node priv l j).2) = width (l_type l) /\
    Forall (post_with priv (pending l)) (post_node priv l j).2) as Hk.
  { intros j. unfold post_node, width, is_rename, post_with.
    destruct (l_type l); try done; simpl; (split; [done|split; [done|]]); repeat constructor; by do 2 eexists. }
  revert i cc. induction up as [|[] up IH]; intros i cc Hc; rewrite ?up_count_cons in Hc; simpl.
  - unfold afr_up_children_count in Hc. simpl in Hc. split_and!; [done|lia|constructor].
  - destruct (Hk i) as (H1 & H2 & H3). destruct (post_node priv l i) as [l1 acts]. simpl in H1, H2, H3. subst l1.
    destruct (Z.eqb_spec (cc - Z.of_nat (length acts)) 0) as [Hz|Hz]; [simpl; split_and!; [done|lia|done]|].
    destruct (IH (S i) (cc - Z.of_nat (length acts))) as (I1 & I2 & I3); [lia|].
    destruct (post_loop priv l (S i) up _) as [l2 acts']. simpl in *.
    rewrite length_app, Nat2Z.inj_add. split_and!; [done|lia|]. by apply Forall_app.
  - apply IH. lia.
Qed.

(** The children from [i] on that are up and were marked before. *)
Definition marked_from (i : nat) (c : afr_fd_ctx) (up : list bool) : Z :=
  Z.of_nat (length (List.filter (fun p => fst p && snd p) (zip (drop i (pre_op_done c)) up))).

Lemma marked_from_cons i c b up :
  (i < length (pre_op_done c))%nat ->
  marked_from i c (b :: up) = (if nth i (pre_op_done c) false && b then 1 else 0) + marked_from (S i) c up.
Proof.
  intros Hi. unfold marked_from. destruct (lookup_lt_is_Some_2 (pre_op_done c) i Hi) as [d Hd].
  rewrite (drop_S _ _ _ Hd). rewrite nth_lookup, Hd. simpl.
  destruct (d && b); simpl length; lia.
Qed.

Lemma post_loop_flush priv l i up cc c n :
  l_type l = AFR_FLUSH_TRANSACTION -> fdctx l = Some c -> fdctx_ok n c -> (i + length up = n)%nat ->
  cc = marked_from i c up -> cc <> 0 ->
  exists c', (post_loop priv l i up cc).1 = set_fdctx (Some c') l /\ fdctx_ok n c' /\
    Z.of_nat (length (post_loop priv l i up cc).2) = cc /\ Forall (in_class K_post) (post_loop priv l i up cc).2.
Proof.
  revert l i cc c. induction up as [|b up IH]; intros l i cc c Ht Hc Hok Hi Hcc Hnz.
  { unfold marked_from in Hcc. rewrite zip_with_nil_r in Hcc. simpl in Hcc. lia. }
  rewrite marked_from_cons in Hcc by (rewrite (fc_pre _ _ Hok); simpl in Hi; lia).
  destruct b; [|rewrite andb_false_r in Hcc; apply (IH _ _ _ c); [done..|simpl in Hi; lia|lia|done]].
  rewrite andb_true_r in Hcc. simpl. unfold post_node. rewrite Ht. unfold __if_fd_pre_op_done. rewrite Hc.
  set (c1 := mk_fdctx _ _ _). set (l1 := set_fdctx _ _).
  assert (fdctx_ok n c1) as Hok1 by (destruct Hok; split; simpl; rewrite ?length_insert; done).
  assert (marked_from (S i) c1 up = marked_from (S i) c up) as Hm.
  { unfold marked_from, c1. simpl. by rewrite drop_insert_lt by lia. }
  destruct (nth i (pre_op_done c) false).
  - change (Z.of_nat (length [wind_post_op i on_fd _])) with 1.
    destruct (Z.eqb_spec (cc - 1) 0) as [Hz|Hz].
    { exists c1. simpl. split_and!; [done|done|lia|repeat constructor]. }
    destruct (IH l1 (S i) (cc - 1) c1) as (c2 & E1 & H2 & H3 & H4); [done..|simpl in Hi; lia|lia|done|].
    destruct (post_loop priv l1 (S i) up (cc - 1)) as [l2 acts]. simpl in *.
    exists c2. split_and!; [by rewrite E1|done|lia|by constructor].
  - simpl. rewrite Z.sub_0_r. rewrite (proj2 (Z.eqb_neq cc 0)) by lia.
    destruct (IH l1 (S i) cc c1) as (c2 & E1 & H2 & H3 & H4); [done..|simpl in Hi; lia|lia|done|].
    destruct (post_loop priv l1 (S i) up cc) as [l2 acts]. simpl in *.
    exists c2. split_and!; [by rewrite E1|done..].
Qed.

(** ** What handlers start *)

(** [op_ret], [op_errno], the children that are up and the hook stay. *)
Definition same_result (t t' : afr_local) : Prop :=
  op_ret t' = op_ret t /\ op_errno t' = op_errno t /\ child_up t' = child_up t /\ post_post_op t' = post_post_op t.

(** The marks of a post-op: zero for the children that are down. *)
Definition post_marks (priv : afr_private) (t t' : afr_local) (acts : list action) : Prop :=
  l_type t <> AFR_FLUSH_TRANSACTION ->
  Forall (post_with priv (pending t')) acts /\
  pending t' = zero_where (l_type t) (map negb (child_up t)) (pending t).

(** Writes have no post-op of their own, it comes with the next flush. *)
Definition has_post_op (t : afr_local) : Prop := l_op t <> GF_FOP_WRITE /\ l_op t <> GF_FOP_FTRUNCATE.

(** After the operation: the post-op or the end. *)
Definition late_outcome (priv : afr_private) (n : nat) (t t' : afr_local) (acts : list action) : Prop :=
  ending n t' acts \/ counted K_post n t' acts /\ post_marks priv t t' acts /\ has_post_op t'.

(** The rows with which an operation begins: nobody has failed. *)
Definition all_succeeded (n : nat) (t : afr_local) : Prop :=
  pending t = rows (afr_index_for_transaction_type (l_type t)) n (fun _ => hton32 (-1)).

(** Before the operation: the locks from child [i] on, the pre-op, the operation,
    or what comes after it. *)
Definition lock_call (rename : bool) (i : nat) (a : action) : Prop :=
  if rename then a = wind_lock_lower i else a = wind_lock i.

Definition early_outcome (priv : afr_private) (n i : nat) (t t' : afr_local) (acts : list action) : Prop :=
  late_outcome priv n t t' acts \/
  counted K_pre n t' acts /\ l_op t <> GF_FOP_FLUSH \/
  acts = [run_fop] /\ all_succeeded n t' \/
  exists j a, acts = [a] /\ lock_call (is_rename (l_type t)) j a /\ (i <= j < n)%nat.

Lemma unlock_same t : same_kind t (afr_unlock t).1 /\ same_result t (afr_unlock t).1 /\
  pending (afr_unlock t).1 = pending t /\ fdctx (afr_unlock t).1 = fdctx t /\ locked_nodes (afr_unlock t).1 = locked_nodes t.
Proof. unfold afr_unlock. by destruct (_ =? 0). Qed.

(** [tr_ok] looks at a few fields only. *)
Lemma tr_ok_same n t t' :
  tr_ok n t -> same_kind t t' -> length (child_up t') = length (child_up t) -> locked_nodes t' = locked_nodes t ->
  fdctx t' = fdctx t -> pending t' = pending t -> tr_ok n t'.
Proof.
  intros [H1 H2 H3 H4 H5] (E1 & E2 & E3) Eu El Ef Ep. split.
  - by rewrite Eu.
  - by rewrite El.
  - by rewrite Ef.
  - by rewrite E1, E2.
  - by rewrite Ep, E2.
Qed.

Lemma unlock_ok n t : tr_ok n t -> tr_ok n (afr_unlock t).1.
Proof.
  intros Hok. destruct (unlock_same t) as (Hk & (_ & _ & Hu & _) & Hp & Hf & Hl).
  apply (tr_ok_same n t); try done. by rewrite Hu.
Qed.

Lemma mark_down_ok n t : tr_ok n t -> tr_ok n (__mark_down_children t).
Proof.
  intros [H1 H2 H3 H4 (f & H5)]. split; try done. simpl. rewrite H5, rows_zero_where. by eexists.
Qed.

Lemma mark_failed_ok n t : tr_ok n t -> tr_ok n (__mark_failed_children t).
Proof.
  intros Hok. unfold __mark_failed_children. destruct (fdctx t) as [c|] eqn:Hc; [|done].
  destruct Hok as [H1 H2 H3 H4 (f & H5)]. split; try done. simpl. rewrite H5, rows_zero_where. by eexists.
Qed.

Lemma counted_post_of_with n priv p t acts :
  Forall (post_with priv p) acts -> Z.of_nat (length acts) = call_count t -> call_count t <> 0 ->
  call_count t <= 2 * Z.of_nat n -> counted K_post n t acts.
Proof.
  intros Hf Hl Hnz Hle. split_and!; [|by intros ->|done|lia].
  eapply Forall_impl; [done|]. by intros a (i & on & ->).
Qed.

Lemma same_kind_trans t1 t2 t3 : same_kind t1 t2 -> same_kind t2 t3 -> same_kind t1 t3.
Proof. intros (?&?&?) (?&?&?). split_and!; congruence. Qed.

Lemma same_result_trans t1 t2 t3 : same_result t1 t2 -> same_result t2 t3 -> same_result t1 t3.
Proof. intros (?&?&?&?) (?&?&?&?). split_and!; congruence. Qed.

(** A transaction after its operation. *)
Definition goes_on (priv : afr_private) (n : nat) (t : afr_local) (r : afr_local * list action) : Prop :=
  tr_ok n r.1 /\ same_kind t r.1 /\ same_result t r.1 /\ late_outcome priv n t r.1 r.2.

Lemma unlock_goes_on priv n t0 t :
  tr_ok n t -> same_kind t0 t -> same_result t0 t -> goes_on priv n t0 (afr_unlock t).
Proof.
  intros Hok Hk Hr. destruct (unlock_same t) as (Hk' & Hr' & _).
  split_and!; [by apply unlock_ok|by eapply same_kind_trans|by eapply same_result_trans|left; by apply unlock_ending].
Qed.

Lemma post_flush_goes_on priv n t0 t c :
  tr_ok n t -> same_kind t0 t -> same_result t0 t -> has_post_op t -> l_type t = AFR_FLUSH_TRANSACTION -> fdctx t = Some c ->
  call_count t = marked_from 0 c (child_up t) -> call_count t <> 0 ->
  goes_on priv n t0 (post_loop priv t 0 (child_up t) (call_count t)).
Proof.
  intros Hok Hk Hr Hpo Ht Hc Hcc Hnz.
  destruct (post_loop_flush priv t 0 (child_up t) (call_count t) c n) as (c' & E1 & H2 & H3 & H4);
    [done|done|by apply (to_ctx _ _ Hok)|by rewrite (to_up _ _ Hok)|done|done|].
  unfold goes_on. rewrite E1. split_and!; [|by eapply same_kind_trans|by eapply same_result_trans|].
  - destruct Hok as [? ? ? ? ?]. split; try done. simpl. by intros ? [= <-].
  - right. split; [|split; [intros []; destruct Hk as (_ & <- & _); done|done]].
    split_and!; [done|intros Hn|by rewrite H3|].
    + rewrite Hn in H3. simpl in H3. lia.
    + pose proof (filter_length_le (fun p : bool * bool => p.1 && p.2) (zip (pre_op_done c) (child_up t))) as Hl.
      unfold marked_from in Hcc. rewrite drop_0 in Hcc. rewrite length_zip_with, (to_up _ _ Hok) in Hl. lia.
Qed.

Lemma post_plain_goes_on priv n t0 t :
  tr_ok n t -> same_kind t0 t -> same_result t0 t -> has_post_op t -> l_type t <> AFR_FLUSH_TRANSACTION ->
  pending t = zero_where (l_type t0) (map negb (child_up t0)) (pending t0) ->
  call_count t = width (l_type t) * afr_up_children_count (child_up t) -> call_count t <> 0 ->
  goes_on priv n t0 (post_loop priv t 0 (child_up t) (call_count t)).
Proof.
  intros Hok Hk Hr Hpo Ht Hp Hcc Hnz.
  destruct (post_loop_plain priv t 0 (child_up t) (call_count t)) as (E1 & H2 & H3); [done..|].
  unfold goes_on. rewrite E1. split_and!; [done..|]. right. split; [|split; [by intros _; split|done]].
  eapply counted_post_of_with; [done..|]. pose proof (up_count_le (child_up t)) as Hle.
  rewrite (to_up _ _ Hok) in Hle. unfold width in Hcc. destruct (is_rename _); lia.
Qed.

Lemma post_op_goes_on priv n t : tr_ok n t -> has_post_op t -> goes_on priv n t (afr_changelog_post_op priv t).
Proof.
  intros Hok Hpo. unfold afr_changelog_post_op. set (l1 := __mark_down_children t).
  pose proof (mark_down_ok n t Hok) as Hok1. fold l1 in Hok1.
  destruct (bool_decide_reflect (l_op t = GF_FOP_FLUSH)) as [Hf|Hf].
  - set (l2 := __mark_failed_children l1). pose proof (mark_failed_ok n l1 Hok1) as Hok2. fold l2 in Hok2.
    assert (same_kind t l2 /\ same_result t l2) as (Hk & Hr).
    { unfold l2, __mark_failed_children, l1. by destruct (fdctx _). }
    set (l3 := set_call_count (afr_pre_op_done_count l2) l2).
    assert (tr_ok n l3) as Hok3 by (by apply (tr_ok_same n l2)).
    destruct (Z.eqb_spec (afr_pre_op_done_count l2) 0) as [Hz|Hz]; [by apply unlock_goes_on|].
    assert (exists c, fdctx l2 = Some c) as [c Hc].
    { unfold afr_pre_op_done_count in Hz. destruct (fdctx l2); [by eexists|done]. }
    apply (post_flush_goes_on priv n t l3 c); try done.
    + destruct Hk as (K1 & _). unfold has_post_op in *. change (l_op l3) with (l_op l2). by rewrite K1.
    + apply (to_flush _ _ Hok3). transitivity (l_op t); [apply Hk|done].
    + unfold l3, afr_pre_op_done_count, marked_from. simpl. by rewrite Hc, drop_0.
  - set (cc := if is_rename (l_type t) then _ else _). set (l3 := set_call_count cc l1).
    assert (tr_ok n l3) as Hok3 by (by apply (tr_ok_same n l1)).
    assert (l_type t <> AFR_FLUSH_TRANSACTION) as Ht by (by rewrite <-(to_flush _ _ Hok)).
    destruct (Z.eqb_spec cc 0) as [Hz|Hz]; [by apply unlock_goes_on|].
    apply (post_plain_goes_on priv n t l3); try done.
    unfold l3, cc, width. simpl. destruct (is_rename _); lia.
Qed.

Lemma resume_goes_on priv n t : tr_ok n t -> goes_on priv n t (afr_transaction_resume priv t).
Proof.
  intros Hok. unfold afr_transaction_resume. destruct (__changelog_needed_post_op priv t) eqn:Hp.
  { apply post_op_goes_on; [done|]. unfold __changelog_needed_post_op in Hp. unfold has_post_op.
    destruct (l_op t); rewrite ?andb_false_r in Hp; done. }
  destruct (_ =? 0); [|by apply unlock_goes_on]. split_and!; [done..|]. left. by right.
Qed.

(** ** The callbacks of the transaction *)

(** The calls still out, one less. *)
Definition one_less (t t' : afr_local) : Prop :=
  call_count t' = call_count t - 1 /\ call_count t' <> 0.

Lemma unlock_cbk_outcome n t :
  tr_ok n t ->
  let r := afr_unlock_common_cbk t in
  tr_ok n r.1 /\ same_kind t r.1 /\ same_result t r.1 /\
  (r.2 = [] /\ one_less t r.1 \/ call_count t = 1 /\ r.2 = [run_done]).
Proof.
  intros Hok. cbv zeta. unfold afr_unlock_common_cbk. cbn [fst snd]. split_and!; [by apply (tr_ok_same n t)|done..|].
  change (call_count (set_call_count (call_count t - 1) t)) with (call_count t - 1).
  destruct (Z.eqb_spec (call_count t - 1) 0) as [Hz|Hz]; [right; split; [lia|done]|by left].
Qed.

(** The hook, once the post-op is done: what remains to do after the user's. *)
Definition hook_left (priv : afr_private) (t : afr_local) : post_post :=
  if afr_lock_server_count priv (l_type t) =? 0 then ppo_done else ppo_unlock.

Lemma post_cbk_outcome priv n t :
  tr_ok n t ->
  let r := afr_changelog_post_op_cbk priv t in
  tr_ok n r.1 /\ same_kind t r.1 /\ op_ret r.1 = op_ret t /\ op_errno r.1 = op_errno t /\ child_up r.1 = child_up t /\
  (r.2 = [] /\ one_less t r.1 /\ post_post_op r.1 = post_post_op t /\ pending r.1 = pending t \/
   call_count t = 1 /\ ending n r.1 r.2 /\ (post_post_op t = None -> post_post_op r.1 = None) \/
   call_count t = 1 /\ r.2 = [run_post_post_op] /\ post_post_op t = Some ppo_user /\
   post_post_op r.1 = Some (hook_left priv t)).
Proof.
  intros Hok. cbv zeta. unfold afr_changelog_post_op_cbk. set (l1 := set_call_count (call_count t - 1) t).
  assert (tr_ok n l1) as Hok1 by (by apply (tr_ok_same n t)).
  change (call_count l1) with (call_count t - 1). destruct (Z.eqb_spec (call_count t - 1) 0) as [Hz|Hz]; cbn [negb].
  2: { split_and!; try done. by left. }
  assert (call_count t = 1) as Hone by lia.
  destruct (post_post_op t) as [[| |]|] eqn:Hp; cbn [run_post_post].
  - split_and!; [by apply (tr_ok_same n l1)|done..|]. by do 2 right.
  - split_and!; [by apply (tr_ok_same n l1)|done..|]. right. left. split_and!; [done|by right|done].
  - set (l2 := set_post_post _ l1). assert (tr_ok n l2) as Hok2 by (by apply (tr_ok_same n l1)).
    destruct (unlock_same l2) as (Hk' & (R1 & R2 & R3 & R4) & _).
    split_and!; [by apply unlock_ok|done|by rewrite R1|by rewrite R2|by rewrite R3|].
    right. left. split_and!; [done|by apply unlock_ending|done].
  - destruct (_ =? 0); cbn [fst snd].
    { split_and!; [done..|]. right. left. split_and!; [done|by right|done]. }
    destruct (unlock_same l1) as (Hk' & (R1 & R2 & R3 & R4) & _).
    split_and!; [by apply unlock_ok|done|by rewrite R1|by rewrite R2|by rewrite R3|].
    right. left. split_and!; [done|by apply unlock_ending|by rewrite R4].
Qed.

(** A handler before the operation: nothing has succeeded, and nothing does. *)
Definition before_op (priv : afr_private) (n : nat) (t : afr_local) (r : afr_local * list action) : Prop :=
  tr_ok n r.1 /\ same_kind t r.1 /\ post_post_op r.1 = post_post_op t /\ (op_ret t = -1 -> op_ret r.1 = -1).

Lemma goes_on_before priv n t0 t r :
  same_kind t0 t -> post_post_op t = post_post_op t0 -> (op_ret t0 = -1 -> op_ret t = -1) ->
  goes_on priv n t r -> before_op priv n t0 r.
Proof.
  intros Hk Hp Ho (H1 & H2 & (R1 & R2 & R3 & R4) & H4).
  split_and!; [done|by eapply same_kind_trans|congruence|intros H; rewrite R1; auto].
Qed.

Lemma mark_all_success_ok n t : tr_ok n t -> tr_ok n (__mark_all_success t) /\ all_succeeded n (__mark_all_success t).
Proof.
  intros [H1 H2 H3 H4 (f & H5)].
  assert (all_succeeded n (__mark_all_success t)) as Ha.
  { unfold all_succeeded, __mark_all_success. simpl. by rewrite H5, rows_mark_all. }
  split; [|done]. split; try done. by eexists.
Qed.

Lemma pre_done_ok n t child : tr_ok n t -> tr_ok n (__mark_pre_op_done_on_fd t child).
Proof.
  intros Hok. unfold __mark_pre_op_done_on_fd. destruct (fdctx t) as [c|] eqn:Hc; [|done].
  destruct (_ || _); [|done]. destruct Hok as [H1 H2 H3 H4 H5]. specialize (H3 c Hc). split; try done.
  simpl. intros ? [= <-]. destruct H3. split; simpl; rewrite ?length_insert; done.
Qed.

Lemma child_down_ok n t child r e :
  tr_ok n t -> tr_ok n (set_op r e (set_child_up (<[child := false]> (child_up t)) t)).
Proof. intros Hok. apply (tr_ok_same n t); try done. simpl. by rewrite length_insert. Qed.

Lemma pre_cbk_outcome priv n t child ret errno :
  tr_ok n t ->
  let r := afr_changelog_pre_op_cbk priv t child ret errno in
  before_op priv n t r /\
  (r.2 = [] /\ one_less t r.1 \/
   call_count t = 1 /\ (exists t', late_outcome priv n t' r.1 r.2) \/
   call_count t = 1 /\ r.2 = [run_fop] /\ all_succeeded n r.1).
Proof.
  intros Hok. cbv zeta. unfold afr_changelog_pre_op_cbk.
  set (l1 := if ret =? 0 then _ else t). set (l2 := if ret =? -1 then _ else l1).
  assert (tr_ok n l1 /\ same_kind t l1 /\ post_post_op l1 = post_post_op t /\ op_ret l1 = op_ret t /\
    call_count l1 = call_count t) as (Hok1 & Hk1 & Hp1 & Ho1 & Hc1).
  { unfold l1. destruct (ret =? 0); [|done]. split; [by apply pre_done_ok|].
    unfold __mark_pre_op_done_on_fd. destruct (fdctx t); [|done]. by destruct (_ || _). }
  assert (tr_ok n l2 /\ same_kind t l2 /\ post_post_op l2 = post_post_op t /\ (op_ret t = -1 -> op_ret l2 = -1) /\
    call_count l2 = call_count t) as (Hok2 & Hk2 & Hp2 & Ho2 & Hc2).
  { unfold l2. destruct (ret =? -1); [|by rewrite Ho1]. split_and!; [by apply child_down_ok|done..| |done].
    simpl. destruct (errno =? ENOTSUP); [done|by rewrite Ho1]. }
  set (l3 := set_call_count (call_count l2 - 1) l2).
  assert (tr_ok n l3) as Hok3 by (by apply (tr_ok_same n l2)).
  change (call_count l3) with (call_count l2 - 1). rewrite Hc2.
  destruct (Z.eqb_spec (call_count t - 1) 0) as [Hz|Hz]; cbn [negb].
  2: { split; [exact (conj Hok3 (conj Hk2 (conj Hp2 Ho2)))|]. left. split; [done|].
    split; [|unfold l3; simpl; by rewrite Hc2]. unfold l3. simpl. by rewrite Hc2. }
  destruct ((op_ret l3 =? -1) && (op_errno l3 =? ENOTSUP)).
  - pose proof (resume_goes_on priv n l3 Hok3) as Hg. split; [by eapply goes_on_before|].
    right. left. split; [lia|]. exists l3. apply Hg.
  - destruct (mark_all_success_ok n l3 Hok3) as [Hok4 Ha]. split; [exact (conj Hok4 (conj Hk2 (conj Hp2 Ho2)))|].
    right. right. split_and!; [lia|done|done].
Qed.

Lemma pre_op_outcome priv n t :
  tr_ok n t -> l_op t <> GF_FOP_FLUSH ->
  let r := afr_changelog_pre_op priv t in before_op priv n t r /\ (ending n r.1 r.2 \/ counted K_pre n r.1 r.2).
Proof.
  intros Hok Hf. cbv zeta. unfold afr_changelog_pre_op. set (cc := if is_rename (l_type t) then _ else _).
  assert (cc = width (l_type t) * afr_up_children_count (child_up t)) as Hcc.
  { unfold cc, width. destruct (is_rename _); lia. }
  destruct (Z.eqb_spec cc 0) as [Hz|Hz].
  { split; [|left; by apply unlock_ending]. apply (goes_on_before priv n t t); [done..|by apply unlock_goes_on]. }
  set (l1 := __mark_all_pending _).
  assert (tr_ok n l1) as Hok1.
  { destruct Hok as [H1 H2 H3 H4 (f & H5)]. split; try done. simpl. rewrite H5, rows_mark_all. by eexists. }
  destruct (pre_loop_counts priv l1 0 (child_up l1) cc Hcc) as [H1 H2].
  split; [by split_and!|]. right. pose proof (up_count_le (child_up t)) as Hle. rewrite (to_up _ _ Hok) in Hle.
  split_and!; [done|intros Hn; cbn [snd] in Hn; rewrite Hn in H1; simpl in H1; lia|cbn [fst snd]; by rewrite H1|cbn [snd]].
  unfold width in Hcc. destruct (is_rename _); lia.
Qed.

Lemma begin_fop_outcome priv n i t :
  tr_ok n t -> let r := begin_fop priv t in before_op priv n t r /\ early_outcome priv n i t r.1 r.2.
Proof.
  intros Hok. cbv zeta. unfold begin_fop. destruct (__changelog_needed_pre_op priv t) eqn:Hn.
  - assert (l_op t <> GF_FOP_FLUSH) as Hf.
    { intros E. unfold __changelog_needed_pre_op in Hn. rewrite E, andb_false_r in Hn. done. }
    destruct (pre_op_outcome priv n t Hok Hf) as [Hb [He|Hc]]; (split; [done|]).
    + by left; left.
    + right. by left.
  - destruct (mark_all_success_ok n t Hok) as [Hok1 Ha]. split; [by split_and!|]. do 2 right. by left.
Qed.

Lemma skip_children_bounds bs i : (i <= skip_children bs i <= i + length bs)%nat.
Proof.
  revert i. induction bs as [|b bs IH]; intros i; simpl; [lia|]. destruct b; [lia|]. specialize (IH (S i)). lia.
Qed.

Lemma lockable_length n t c :
  tr_ok n t -> (forall c', c = Some c' -> fdctx_ok n c') -> length (lockable t c) = n.
Proof.
  intros Hok Hc. unfold lockable. destruct c as [c|]; [|apply Hok].
  rewrite length_zip_with, (to_up _ _ Hok), (fc_opened _ _ (Hc c eq_refl)). lia.
Qed.

Lemma set_op_goes_on priv n t r e :
  tr_ok n t -> r = -1 -> let s := afr_unlock (set_op r e t) in
  before_op priv n t s /\ ending n s.1 s.2.
Proof.
  intros Hok ->. cbv zeta. assert (tr_ok n (set_op (-1) e t)) as Hok1 by (by apply (tr_ok_same n t)).
  split; [|by apply unlock_ending].
  apply (goes_on_before priv n t (set_op (-1) e t)); [done..|by apply unlock_goes_on].
Qed.

Lemma lock_rec_outcome priv n i t :
  tr_ok n t -> child_count priv = n -> (i <= n)%nat ->
  let r := afr_lock_rec priv t i in before_op priv n t r /\ early_outcome priv n i t r.1 r.2.
Proof.
  intros Hok Hn Hi. cbv zeta. unfold afr_lock_rec.
  destruct (has_fd t && bool_decide (fdctx t = None)).
  { destruct (set_op_goes_on priv n t (-1) EINVAL Hok eq_refl) as [Hb He]. split; [done|]. by left; left. }
  set (c := if has_fd t then fdctx t else None).
  assert (length (lockable t c) = n) as Hl.
  { apply lockable_length; [done|]. unfold c. destruct (has_fd t); [apply Hok|done]. }
  set (j := skip_children _ i). pose proof (skip_children_bounds (drop i (lockable t c)) i) as Hj. fold j in Hj.
  rewrite length_drop, Hl in Hj.
  destruct ((j =? child_count priv)%nat && (lock_count t =? 0)).
  { destruct (set_op_goes_on priv n t (-1) EAGAIN Hok eq_refl) as [Hb He]. split; [done|]. by left; left. }
  destruct ((j =? child_count priv)%nat || _) eqn:Ej; [by apply begin_fop_outcome|].
  apply orb_false_iff in Ej as [Ej _]. apply Nat.eqb_neq in Ej. split; [done|].
  do 3 right. exists j. eexists. split_and!; [done|by unfold lock_call; destruct (is_rename _)|lia|lia].
Qed.

(** A lock that is refused takes its child out of the transaction. *)
Definition lock_refused (t : afr_local) (child : nat) (ret errno : Z) : afr_local :=
  if ret =? -1 then
    set_op (if errno =? ENOSYS then ret else op_ret t) errno (set_child_up (<[child := false]> (child_up t)) t)
  else t.

Lemma lock_refused_ok priv n t child ret errno :
  tr_ok n t -> let t' := lock_refused t child ret errno in before_op priv n t (t', []).
Proof.
  intros Hok. cbv zeta. unfold lock_refused. destruct (Z.eqb_spec ret (-1)) as [->|]; [|done].
  split_and!; [by apply child_down_ok|done..|]. simpl. by destruct (errno =? ENOSYS).
Qed.

Lemma before_op_trans priv n t t' r :
  before_op priv n t (t', []) -> before_op priv n t' r -> before_op priv n t r.
Proof.
  intros (H1 & H2 & H3 & H4) (H5 & H6 & H7 & H8). simpl in *.
  split_and!; [done|by eapply same_kind_trans|congruence|auto].
Qed.

Lemma set_locked_ok priv n t f child k : tr_ok n t -> before_op priv n t (set_locked (alter f child (locked_nodes t)) k t, []).
Proof.
  intros Hok. split_and!; try done. destruct Hok as [H1 H2 H3 H4 H5]. split; try done. simpl. by rewrite length_alter.
Qed.

(** The kind of transaction decides what comes next, not the handler's input. *)
Lemma early_outcome_kind priv n i t0 t r :
  same_kind t0 t -> (exists t1, late_outcome priv n t1 r.1 r.2) \/ early_outcome priv n i t r.1 r.2 ->
  (exists t1, late_outcome priv n t1 r.1 r.2) \/ early_outcome priv n i t0 r.1 r.2.
Proof.
  intros (H1 & H2 & H3) [Hl|[Hl|[Hp|[Hf|Hk]]]].
  - by left.
  - left. by eexists.
  - right. right. left. by rewrite <-H1.
  - right. do 2 right. by left.
  - right. do 3 right. by rewrite <-H2.
Qed.

Lemma lock_cbk_outcome priv n child t ret errno :
  tr_ok n t -> child_count priv = n -> (child < n)%nat ->
  let r := afr_lock_cbk priv t child ret errno in
  before_op priv n t r /\
  ((exists t1, late_outcome priv n t1 r.1 r.2) \/ early_outcome priv n (S child) t r.1 r.2).
Proof.
  intros Hok Hn Hc. cbv zeta. unfold afr_lock_cbk. fold (lock_refused t child ret errno).
  pose proof (lock_refused_ok priv n t child ret errno Hok) as Hb1. set (l1 := lock_refused t child ret errno) in *.
  cbv zeta in Hb1. pose proof (proj1 Hb1) as Hok1. simpl in Hok1.
  destruct ((ret =? -1) && (errno =? ENOSYS)) eqn:Ens.
  { apply andb_true_iff in Ens as [Er Ee]. split; [|left; exists l1; left; by apply unlock_ending].
    eapply before_op_trans; [done|]. apply (goes_on_before priv n l1 l1); [done..|by apply unlock_goes_on]. }
  set (l2 := if ret =? 0 then _ else l1).
  assert (before_op priv n l1 (l2, [])) as Hb2 by (unfold l2; destruct (ret =? 0); [by apply set_locked_ok|done]).
  pose proof (proj1 Hb2) as Hok2. simpl in Hok2.
  destruct (lock_rec_outcome priv n (S child) l2 Hok2 Hn ltac:(lia)) as [Hb3 Ho].
  split; [by do 2 (eapply before_op_trans; [done|])|].
  eapply early_outcome_kind; [|by right]. eapply same_kind_trans; [apply Hb1|apply Hb2].
Qed.

Lemma lock_lower_cbk_outcome priv n child t ret errno :
  tr_ok n t ->
  let r := afr_lock_lower_cbk t child ret errno in
  before_op priv n t r /\
  ((exists t1, late_outcome priv n t1 r.1 r.2) \/ r.2 = [wind_lock_higher child]).
Proof.
  intros Hok. cbv zeta. unfold afr_lock_lower_cbk. fold (lock_refused t child ret errno).
  pose proof (lock_refused_ok priv n t child ret errno Hok) as Hb1. set (l1 := lock_refused t child ret errno) in *.
  cbv zeta in Hb1. pose proof (proj1 Hb1) as Hok1. simpl in Hok1.
  destruct (negb (ret =? 0)).
  - split; [|left; exists l1; left; by apply unlock_ending].
    eapply before_op_trans; [done|]. apply (goes_on_before priv n l1 l1); [done..|by apply unlock_goes_on].
  - split; [|by right]. eapply before_op_trans; [done|]. apply (set_locked_ok priv n l1 _ child _ Hok1).
Qed.
