(* ===== verification/AfrSystem.v ===== *)
(** * cluster/afr: an operation as a system

    An operation in progress: its local data, the calls that have not been
    answered and what it has done so far.  Children answer in any order, and
    other operations on the same file may change the context of the fd at any
    time. *)

From stdpp Require Import base list numbers strings gmap relations.
From S2P Require Import Prelude ByteOrder AfrPending AfrTransaction AfrFacts AfrTransFacts AfrFops AfrCalls.
From S2P Require Import AfrInodeWrite AfrDirWrite AfrFanout AfrOps.
Open Scope Z_scope.

(** ** Steps *)

(** Events that someone answers. *)
Definition is_pending (ev : event) : bool :=
  match ev with E_act _ | E_wind _ _ | E_open _ _ _ | E_self_heal => true | _ => false end.

Definition calls (ev : list event) : list event := List.filter is_pending ev.
Definition outs (ev : list event) : list event := List.filter (fun e => negb (is_pending e)) ev.

(** The answers to the caller, by their [op_ret]. *)
Definition rets (ev : list event) : list Z := omap (fun e => match e with E_unwind r _ _ => Some r | _ => None end) ev.

(** [r_fops]: the answers of children to the operation itself. *)
Record req := mk_req {
  r_local : option wlocal;
  r_pending : list event;
  r_out : list event;
  r_fops : list (nat * (Z * Z))
}.

Definition start (r : option wlocal * list event) : req := mk_req r.1 (calls r.2) (outs r.2) [].

Definition log_fop (call : event) (ret err : Z) : list (nat * (Z * Z)) :=
  match call with E_wind i _ => [(i, (ret, err))] | _ => [] end.

(** The operations that are sent to all children without a transaction. *)
Definition is_fan_out (op : fop_name) : bool :=
  match op with
  | OP_plain_flush | OP_fsync | OP_fsyncdir | OP_xattrop | OP_fxattrop | OP_inodelk | OP_finodelk
  | OP_entrylk | OP_fentrylk | OP_checksum | OP_statfs => true
  | _ => false
  end.

(** What a child passes with a success. *)
Definition payload_ok (op : fop_name) (p : payload) : Prop :=
  match op with
  | OP_writev | OP_truncate | OP_ftruncate | OP_setattr | OP_fsetattr | OP_unlink | OP_rmdir | OP_fsync =>
      exists pre post, p = P_pair pre post
  | OP_mknod | OP_mkdir | OP_link | OP_symlink => exists i b pre post, p = P_entry i b pre post
  | OP_create => exists fd i b pre post, p = P_create fd i b pre post
  | OP_rename => exists b p1 q1 p2 q2, p = P_rename b p1 q1 p2 q2
  | OP_checksum => exists f d, p = P_checksum f d
  | OP_statfs => exists b, p = P_statfs b
  | _ => True
  end.

(** An answer: -1 or a success, with the data of the operation, and memory for
    the context of a new fd. *)
Definition answer_ok (l : wlocal) (e : env) (call : event) (ret : Z) (p : payload) : Prop :=
  (ret = -1 \/ 0 <= ret) /\
  match call with
  | E_wind _ _ => (ret <> -1 -> payload_ok (w_op l) p) /\ (is_fan_out (w_op l) = true -> ret <= 0) /\ e_alloc e = true
  | _ => True
  end.

(** Another operation on the same fd has changed its context. *)
Inductive env_step (n : nat) : req -> req -> Prop :=
  | env_fdctx r l c c' :
      r_local r = Some l -> fdctx (w_tr l) = Some c -> fdctx_ok n c' ->
      env_step n r (mk_req (Some (upd_tr (set_fdctx (Some c')) l)) (r_pending r) (r_out r) (r_fops r)).

Inductive answer_step (this : afr_xl) : req -> req -> Prop :=
  | req_answer r l e call ret err p p1 p2 l' ev :
      r_local r = Some l -> r_pending r = p1 ++ call :: p2 -> answer_ok l e call ret p ->
      handle this e call ret err p l = Some (l', ev) ->
      answer_step this r (mk_req l' (p1 ++ p2 ++ calls ev) (r_out r ++ outs ev) (r_fops r ++ log_fop call ret err)).

(** Changes of the context, and then an answer. *)
Definition req_step (this : afr_xl) (r r' : req) : Prop :=
  exists r1, rtc (env_step (child_count (xl_priv this))) r r1 /\ answer_step this r1 r'.

Record this_ok (this : afr_xl) : Prop := {
  tk_up : length (xl_child_up this) = child_count (xl_priv this);
  tk_count : Z.of_nat (child_count (xl_priv this)) < 2 ^ 31
}.

(** ** Local data *)

(** [local->op] *)
Definition fop_of (op : fop_name) : glusterfs_fop :=
  match op with
  | OP_writev => GF_FOP_WRITE
  | OP_ftruncate => GF_FOP_FTRUNCATE
  | OP_flush | OP_up_down_flush => GF_FOP_FLUSH
  | _ => GF_FOP_OTHER
  end.

(** The arguments of the operation are there. *)
Definition args_ok (l : wlocal) : Prop :=
  match w_op l with
  | OP_writev => is_Some (w_fd l) /\ exists v o, w_args l = C_writev v o
  | OP_truncate => exists o, w_args l = C_truncate o
  | OP_ftruncate => is_Some (w_fd l) /\ exists o, w_args l = C_truncate o
  | OP_setattr => exists b v, w_args l = C_setattr b v
  | OP_fsetattr => is_Some (w_fd l) /\ exists b v, w_args l = C_setattr b v
  | OP_setxattr => exists d f, w_args l = C_setxattr d f
  | OP_removexattr => exists x, w_args l = C_removexattr x
  | OP_create => exists f m fd, w_args l = C_create f m fd
  | OP_mknod => exists m d, w_args l = C_mknod m d
  | OP_mkdir => exists m, w_args l = C_mkdir m
  | OP_symlink => exists p, w_args l = C_symlink p
  | OP_setdents => is_Some (w_fd l) /\ exists f x, w_args l = C_setdents f x
  | OP_flush | OP_fsync => is_Some (w_fd l)
  | OP_up_down_flush =>
      is_Some (w_fd l) /\
      (w_after l = Some OP_writev /\ (exists v o, w_args l = C_writev v o) \/
       w_after l = Some OP_ftruncate /\ (exists o, w_args l = C_truncate o) /\
         post_post_op (w_tr l) = None /\ w_success_count l = 0)
  | _ => True
  end.

(** Only a settling flush has a hook; a write after one does not use it. *)
Definition hook_ok (l : wlocal) : Prop :=
  match w_op l with
  | OP_writev | OP_ftruncate | OP_up_down_flush => True
  | _ => post_post_op (w_tr l) = None
  end.

Record local_ok (n : nat) (l : wlocal) : Prop := {
  lo_tr : tr_ok n (w_tr l);
  lo_fop : l_op (w_tr l) = fop_of (w_op l);
  lo_args : args_ok l;
  lo_hook : hook_ok l
}.

(** ** Results *)

(** The caller is still to be answered. *)
Definition owes (l : wlocal) : bool :=
  match w_op l with
  | OP_setdents | OP_up_down_flush => true
  | op => is_fan_out op || w_main_frame l
  end.

Definition succeeded (fops : list (nat * (Z * Z))) : bool := existsb (fun f => negb (f.2.1 =? -1)) fops.

(** Success is answered when a child had success. *)
Record res_ok (l : wlocal) (out : list event) (fops : list (nat * (Z * Z))) : Prop := {
  ro_owed : owes l = true -> rets out = [] /\ (op_ret (w_tr l) = -1 <-> succeeded fops = false);
  ro_paid : owes l = false -> exists r, rets out = [r] /\ (r = -1 <-> succeeded fops = false);
  ro_count : w_op l <> OP_up_down_flush -> is_fan_out (w_op l) = false ->
    0 <= w_success_count l <= Z.of_nat (length fops) /\ (w_success_count l = 0 <-> succeeded fops = false)
}.

(** The children whose failure the code notes in the changelog. *)
Definition marked (op : fop_name) (fops : list (nat * (Z * Z))) : list nat :=
  match op with
  | OP_setxattr | OP_removexattr => []
  | OP_rmdir => map fst (List.filter (fun f => (f.2.1 =? -1) && negb (f.2.2 =? ENOTEMPTY)) fops)
  | _ => map fst (List.filter (fun f => f.2.1 =? -1) fops)
  end.

(** The rows of the post-op: -1 for the children that did the operation. *)
Definition mark_rows (n : nat) (l : wlocal) (fs : list nat) : list (list Z) :=
  rows (afr_index_for_transaction_type (l_type (w_tr l))) n (fun j => if decide (j ∈ fs) then 0 else hton32 (-1)).

Definition fop_marks (n : nat) (l : wlocal) (fops : list (nat * (Z * Z))) : Prop :=
  fop_of (w_op l) = GF_FOP_OTHER -> is_fan_out (w_op l) = false -> pending (w_tr l) = mark_rows n l (marked (w_op l) fops).

(** The marks a post-op carries: those of the children that are up and did not
    fail. *)
Definition final_rows (n : nat) (l : wlocal) (fops : list (nat * (Z * Z))) : list (list Z) :=
  rows (afr_index_for_transaction_type (l_type (w_tr l))) n
    (fun j => if nth j (child_up (w_tr l)) false && bool_decide (j ∉ marked (w_op l) fops) then hton32 (-1) else 0).

Definition post_ok (this : afr_xl) (l : wlocal) (acts : list action) (fops : list (nat * (Z * Z))) : Prop :=
  fops <> [] -> fop_of (w_op l) = GF_FOP_OTHER ->
  Forall (post_with (xl_priv this) (final_rows (child_count (xl_priv this)) l fops)) acts.

(** ** Phases *)

Definition is_wind (ev : event) : Prop := match ev with E_wind _ _ => True | _ => False end.
Definition is_open (ev : event) : Prop := match ev with E_open _ _ _ => True | _ => False end.

(** A lock call on child [i]; renames lock two names per child. *)
Definition locking (rename : bool) (i : nat) (a : action) : Prop :=
  if rename then a = wind_lock_lower i \/ a = wind_lock_higher i else a = wind_lock i.

Definition left_hook (l : wlocal) : Prop :=
  post_post_op (w_tr l) = Some ppo_done \/ post_post_op (w_tr l) = Some ppo_unlock.

Inductive phase (this : afr_xl) (n : nat) (l : wlocal) (fops : list (nat * (Z * Z))) : list event -> Prop :=
  | ph_lock i a :
      is_fan_out (w_op l) = false -> locking (is_rename (l_type (w_tr l))) i a -> (i < n)%nat ->
      fops = [] -> owes l = true -> phase this n l fops [E_act a]
  | ph_pre acts :
      is_fan_out (w_op l) = false -> counted K_pre n (w_tr l) acts -> w_op l <> OP_up_down_flush ->
      fops = [] -> owes l = true -> phase this n l fops (map E_act acts)
  | ph_fop pend :
      w_op l <> OP_up_down_flush -> Forall is_wind pend -> pend <> [] ->
      call_count (w_tr l) = Z.of_nat (length pend) -> (length pend + length fops <= n)%nat ->
      fop_marks n l fops -> (owes l = false -> succeeded fops = true) -> phase this n l fops pend
  | ph_post acts :
      is_fan_out (w_op l) = false -> counted K_post n (w_tr l) acts -> has_post_op (w_tr l) ->
      post_ok this l acts fops -> phase this n l fops (map E_act acts)
  | ph_unlock acts :
      is_fan_out (w_op l) = false -> counted K_unlock n (w_tr l) acts -> phase this n l fops (map E_act acts)
  | ph_heal :
      w_op l = OP_up_down_flush -> left_hook l -> phase this n l fops [E_self_heal]
  | ph_open pend :
      w_op l = OP_up_down_flush -> left_hook l -> Forall is_open pend -> pend <> [] ->
      call_count (w_tr l) = Z.of_nat (length pend) -> (length pend <= n)%nat -> phase this n l fops pend.

(** A flush that settles comes before the operation. *)
Definition no_fops_yet (l : wlocal) (fops : list (nat * (Z * Z))) : Prop := w_op l = OP_up_down_flush -> fops = [].

Definition inv (this : afr_xl) (r : req) : Prop :=
  let n := child_count (xl_priv this) in
  match r_local r with
  | Some l => local_ok n l /\ res_ok l (r_out r) (r_fops r) /\ no_fops_yet l (r_fops r) /\
              phase this n l (r_fops r) (r_pending r)
  | None => r_pending r = [] /\ exists x, rets (r_out r) = [x] /\ (x = -1 <-> succeeded (r_fops r) = false)
  end.

(** ** How long it takes *)

(** Each phase has a range of its own, below those of the phases before it; a
    flush that settles comes before all of the operation. *)
Definition span (n : nat) : nat := 2 * n + 1.

Definition base (n : nat) (l : wlocal) : nat := if bool_decide (w_op l = OP_up_down_flush) then 8 * span n else 0.

Definition rank (n : nat) (ev : event) (len : nat) : nat :=
  match ev with
  | E_act (wind_lock i) | E_act (wind_lock_lower i) => 6 * span n + 2 * (n - i)
  | E_act (wind_lock_higher i) => 6 * span n + (2 * (n - i) - 1)
  | E_act (wind_pre_op _ _ _) => 5 * span n + len
  | E_wind _ _ => 4 * span n + len
  | E_act (wind_post_op _ _ _) => 3 * span n + len
  | E_self_heal => 2 * span n + len
  | E_open _ _ _ => 1 * span n + len
  | _ => len
  end.

Definition weight (n : nat) (l : option wlocal) (pend : list event) : nat :=
  match l, pend with
  | Some l, ev :: _ => base n l + rank n ev (length pend)
  | _, _ => 0
  end.
