(* ===== verification/AfrSteps.v ===== *)
(** * cluster/afr: the steps of operations keep the invariant

    Phase by phase: what the transaction and the operation start is a phase of
    [AfrSystem] again, and nothing faults. *)

From stdpp Require Import base list numbers strings gmap relations.
From S2P Require Import Prelude ByteOrder AfrPending AfrTransaction AfrFacts AfrTransFacts AfrFops AfrCalls.
From S2P Require Import AfrInodeWrite AfrDirWrite AfrFanout AfrOps AfrSystem.
Open Scope Z_scope.

(** ** Events *)

Lemma calls_acts acts : calls (map E_act acts) = map E_act acts.
Proof. unfold calls. induction acts as [|a acts IH]; simpl; [done|by rewrite IH]. Qed.

Lemma outs_acts acts : outs (map E_act acts) = [].
Proof. unfold outs. by induction acts as [|a acts IH]. Qed.

Lemma calls_app e1 e2 : calls (e1 ++ e2) = calls e1 ++ calls e2.
Proof. unfold calls. by rewrite List.filter_app. Qed.

Lemma outs_app e1 e2 : outs (e1 ++ e2) = outs e1 ++ outs e2.
Proof. unfold outs. by rewrite List.filter_app. Qed.

Lemma rets_app e1 e2 : rets (e1 ++ e2) = rets e1 ++ rets e2.
Proof. unfold rets. apply omap_app. Qed.

Lemma rets_outs ev : rets (outs ev) = rets ev.
Proof.
  unfold rets, outs. induction ev as [|e ev IH]; [done|]. destruct e; simpl; try done. by f_equal.
Qed.

(** What a handler has started, as a state. *)
Definition fresh (this : afr_xl) (k : nat) (out : list event) (fops : list (nat * (Z * Z)))
    (res : option wlocal * list event) : Prop :=
  inv this (mk_req res.1 (calls res.2) (out ++ outs res.2) fops) /\
  (weight (child_count (xl_priv this)) res.1 (calls res.2) <= k)%nat.

(** Nothing faults, and at most [k] answers are to come. *)
Definition runs (this : afr_xl) (k : nat) (out : list event) (fops : list (nat * (Z * Z))) (res : result) : Prop :=
  exists r, res = Some r /\ fresh this k out fops r.

Lemma runs_events this k out fops res ev :
  calls ev = [] -> runs this k (out ++ outs ev) fops res ->
  runs this k out fops ('(l, ev') ← res; Some (l, ev ++ ev')).
Proof.
  intros Hc ((l & ev') & -> & Hf). eexists. split; [done|]. unfold fresh in *. simpl in *.
  by rewrite calls_app, outs_app, Hc, app_nil_l, app_assoc.
Qed.

(** ** Answering *)

(** [unwind] answers at most once, and leaves what matters alone. *)
Record answers (l : wlocal) (r : wlocal * list event) : Prop := {
  aw_calls : calls r.2 = [];
  aw_rets : rets r.2 = if w_main_frame l then [op_ret (w_tr l)] else [];
  aw_main : w_main_frame r.1 = false;
  aw_tr : w_tr r.1 = w_tr l;
  aw_op : w_op r.1 = w_op l;
  aw_after : w_after r.1 = w_after l;
  aw_fd : w_fd r.1 = w_fd l;
  aw_args : w_args r.1 = w_args l;
  aw_success : w_success_count r.1 = w_success_count l
}.

Lemma unwind_main_answers l fill : answers l (unwind_main l fill).
Proof.
  unfold unwind_main. destruct (w_main_frame l) eqn:Hm; [|by split; rewrite ?Hm].
  destruct (fill (w_cont l)) as [c p]. by split; rewrite ?Hm.
Qed.

(** ** The end *)

Lemma finished this k out fops ev x :
  calls ev = [] -> rets (out ++ outs ev) = [x] -> (x = -1 <-> succeeded fops = false) ->
  runs this k out fops (Some (None, ev)).
Proof. intros Hc Hr Hs. eexists. split; [done|]. split; [|simpl; lia]. unfold inv. simpl. split; [done|]. by exists x. Qed.

Lemma destroy_runs this k out fops l r :
  is_fan_out (w_op l) = false -> w_op l <> OP_setdents -> w_op l <> OP_up_down_flush -> answers l r -> res_ok l out fops ->
  runs this k out fops (Some (destroy r)).
Proof.
  intros Hfan Hset Hud Ha Hres.
  assert (owes l = w_main_frame l) as Ho.
  { unfold owes. destruct (w_op l); done. }
  destruct r as [l' ev], Ha as [Hcl Hrt _ _ _ _ _ _ _]. simpl in Hcl, Hrt. unfold destroy. simpl.
  assert (calls (ev ++ [E_destroy]) = []) as Hc by (by rewrite calls_app, Hcl).
  destruct (w_main_frame l) eqn:Hm.
  - destruct (ro_owed _ _ _ Hres Ho) as [Hr Hs]. apply (finished _ _ _ _ _ (op_ret (w_tr l))); [done| |done].
    by rewrite rets_app, rets_outs, rets_app, Hr, Hrt.
  - destruct (ro_paid _ _ _ Hres Ho) as (x & Hr & Hs). apply (finished _ _ _ _ _ x); [done| |done].
    by rewrite rets_app, rets_outs, rets_app, Hr, Hrt.
Qed.

Lemma done_runs this k n out fops l :
  local_ok n l -> w_op l <> OP_up_down_flush -> is_fan_out (w_op l) = false -> res_ok l out fops ->
  runs this k out fops (transaction_done l).
Proof.
  intros Hok Hud Hfan Hres. unfold transaction_done.
  destruct (w_op l) eqn:Hop; try done;
    try (apply (destroy_runs _ _ _ _ l); rewrite ?Hop; [done..|apply unwind_main_answers|done]).
  - apply (destroy_runs _ _ _ _ l ((afr_writev_unwind l).1, E_iobref_unref :: (afr_writev_unwind l).2)); rewrite ?Hop;
      [done..| |done]. destruct (unwind_main_answers l fill_pair) as [? ? ? ? ? ? ? ? ?]. by split.
  - unfold afr_setdents_done. assert (owes l = true) as Ho by (unfold owes; by rewrite Hop).
    destruct (ro_owed _ _ _ Hres Ho) as [Hr Hs]. apply (finished _ _ _ _ _ (op_ret (w_tr l))); [done| |done].
    by rewrite rets_app, Hr.
Qed.

(** ** After the operation *)

Lemma local_ok_set_tr n l t :
  local_ok n l -> tr_ok n t -> same_kind (w_tr l) t -> post_post_op t = post_post_op (w_tr l) -> local_ok n (set_tr t l).
Proof.
  intros [H1 H2 H3 H4] Ht (K1 & K2 & K3) Hp. split; [done|by simpl; rewrite K1|..].
  - unfold args_ok in *. simpl. by rewrite Hp.
  - unfold hook_ok in *. simpl. by rewrite Hp.
Qed.

Lemma res_ok_set_tr l t out fops : res_ok l out fops -> op_ret t = op_ret (w_tr l) -> res_ok (set_tr t l) out fops.
Proof. intros [H1 H2 H3] Ho. split; [|done..]. simpl. by rewrite Ho. Qed.

(** The calls a transaction has wound are a phase. *)
Lemma calls_run this k n l acts out fops :
  n = child_count (xl_priv this) -> (weight n (Some l) (map E_act acts) <= k)%nat ->
  local_ok n l -> res_ok l out fops -> no_fops_yet l fops -> phase this n l fops (map E_act acts) -> runs this k out fops (Some (Some l, map E_act acts)).
Proof.
  intros -> Hk Hok Hres Hno Hph. eexists. split; [done|]. unfold fresh, inv. cbn [fst snd r_local r_pending r_out r_fops].
  by rewrite calls_acts, outs_acts, app_nil_r.
Qed.

(** The ranges of the classes of calls. *)
Definition class_base (k : class) : nat := match k with K_pre => 5 | K_post => 3 | K_unlock => 0 end.

Lemma counted_weight k n t acts l :
  counted k n t acts ->
  weight n (Some l) (map E_act acts) = (base n l + class_base k * span n + length acts)%nat /\ (length acts < span n)%nat.
Proof.
  intros (Hc & Hne & _ & Hle). unfold span in *. split; [|lia].
  destruct Hc as [|a acts Ha Hc]; [done|]. simpl. rewrite length_map. destruct k, a; try done; unfold span; simpl; lia.
Qed.

Lemma base_main n l : w_op l <> OP_up_down_flush -> base n l = 0%nat.
Proof. intros H. unfold base. by rewrite bool_decide_false. Qed.

Lemma base_flush n l : w_op l = OP_up_down_flush -> base n l = (8 * span n)%nat.
Proof. intros H. unfold base. by rewrite bool_decide_true. Qed.

Lemma class_is_call k acts : Forall (in_class k) acts -> forallb is_call acts = true.
Proof. intros H. induction H as [|a acts Ha _ IH]; [done|]. simpl. rewrite IH, andb_true_r. by destruct k, a. Qed.

(** Calls of a class are not the end of the transaction. *)
Lemma late_calls k n t l acts : counted k n t acts -> late l acts = Some (Some l, map E_act acts).
Proof.
  intros (Hc & Hne & _ & _). unfold late. pose proof (class_is_call k acts Hc) as Hf.
  destruct acts as [|a [|b acts]]; [done| |rewrite Hf; by destruct a]. rewrite Hf. by destruct a.
Qed.

Lemma late_runs this k n l acts out fops :
  n = child_count (xl_priv this) -> (4 * span n <= k)%nat ->
  local_ok n l -> w_op l <> OP_up_down_flush -> is_fan_out (w_op l) = false -> res_ok l out fops -> no_fops_yet l fops ->
  ending n (w_tr l) acts \/ counted K_post n (w_tr l) acts /\ has_post_op (w_tr l) /\ post_ok this l acts fops ->
  runs this k out fops (late l acts).
Proof.
  intros Hn Hk Hok Hud Hfan Hres Hno [[Hc| ->]|(Hc & Hpo & Hp)]; [|by apply (done_runs this k n)|];
    rewrite (late_calls _ _ _ _ _ Hc); destruct (counted_weight _ _ _ _ l Hc) as [Hw Hl]; rewrite (base_main n l Hud) in Hw;
    (apply (calls_run this k n); [done|rewrite Hw; simpl; lia|done..|]); [by apply ph_unlock|by apply ph_post].
Qed.

Lemma final_marks n l t fops :
  tr_ok n (w_tr l) -> fop_marks n l fops -> fop_of (w_op l) = GF_FOP_OTHER -> is_fan_out (w_op l) = false ->
  same_kind (w_tr l) t -> child_up t = child_up (w_tr l) ->
  pending t = zero_where (l_type (w_tr l)) (map negb (child_up (w_tr l))) (pending (w_tr l)) ->
  pending t = final_rows n (set_tr t l) fops.
Proof.
  intros Hok Hm Hf Hfan (_ & K2 & _) Hu ->. rewrite (Hm Hf Hfan). unfold mark_rows, final_rows. simpl.
  rewrite K2, Hu, rows_zero_where. apply rows_ext. intros j Hj.
  assert (nth j (map negb (child_up (w_tr l))) false = negb (nth j (child_up (w_tr l)) false)) as ->.
  { rewrite <-(to_up _ _ Hok) in Hj. rewrite (nth_indep _ false (negb false)) by (by rewrite length_map). by rewrite map_nth. }
  destruct (nth j (child_up (w_tr l)) false); simpl; [|done].
  case_bool_decide; destruct (decide _); naive_solver.
Qed.

Lemma goes_on_runs this k n l r out fops :
  n = child_count (xl_priv this) -> (4 * span n <= k)%nat ->
  local_ok n l -> w_op l <> OP_up_down_flush -> is_fan_out (w_op l) = false -> res_ok l out fops -> fop_marks n l fops ->
  goes_on (xl_priv this) n (w_tr l) r ->
  runs this k out fops (late (set_tr r.1 l) r.2).
Proof.
  intros Hn Hk Hok Hud Hfan Hres Hm (H1 & H2 & (R1 & R2 & R3 & R4) & Ho).
  apply (late_runs this k n); [done|done|by apply local_ok_set_tr|done|done|by apply res_ok_set_tr|by intros ?|].
  destruct Ho as [He|(Hc & Hp & Hpo)]; [by left|right; split; [done|split; [done|]]].
  intros _ Hf. simpl in Hf. destruct Hp as [Hw Ep].
  { rewrite <-(to_flush _ _ (lo_tr _ _ Hok)), (lo_fop _ _ Hok), Hf. done. }
  rewrite (final_marks n l r.1 fops) in Hw; try done; [|apply Hok]. by rewrite <-Hn.
Qed.

Lemma resume_runs this k n l out fops :
  n = child_count (xl_priv this) -> (4 * span n <= k)%nat ->
  local_ok n l -> w_op l <> OP_up_down_flush -> is_fan_out (w_op l) = false -> res_ok l out fops -> fop_marks n l fops ->
  runs this k out fops (resume this l).
Proof.
  intros Hn Hk Hok Hud Hfan Hres Hm. unfold resume.
  pose proof (resume_goes_on (xl_priv this) n (w_tr l) (lo_tr _ _ Hok)) as Hg.
  pose proof (goes_on_runs this k n l _ out fops Hn Hk Hok Hud Hfan Hres Hm Hg) as Hr.
  by destruct (afr_transaction_resume (xl_priv this) (w_tr l)) as [t acts].
Qed.

(** ** The operation *)

Lemma wind_loop_shape i up cc call :
  cc = afr_up_children_count up ->
  wind_loop i up cc call = map (fun j => E_wind j call) (up_from i up).
Proof.
  revert i cc. induction up as [|[] up IH]; intros i cc Hc; rewrite ?up_count_cons in Hc; simpl; [done| |apply IH; lia].
  f_equal. destruct (Z.eqb_spec (cc - 1) 0) as [Hz|Hz]; [by rewrite (up_count_zero up) by lia|]. apply IH. lia.
Qed.

Lemma wind_loop_fresh up call :
  let ev := wind_loop 0 up (afr_up_children_count up) call in
  calls ev = ev /\ outs ev = [] /\ Forall is_wind ev /\ Z.of_nat (length ev) = afr_up_children_count up.
Proof.
  cbv zeta. rewrite wind_loop_shape by done. rewrite length_map, up_from_count.
  split_and!; [..|done]; induction (up_from 0 up) as [|j js IH]; simpl; try done.
  - unfold calls in *. simpl. by rewrite IH.
  - by constructor.
Qed.

Lemma wind_weight n l ev : Forall is_wind ev -> (weight n (Some l) ev <= base n l + 4 * span n + length ev)%nat.
Proof. intros [|e ev' He _]; simpl; [lia|]. destruct e; try done. simpl. lia. Qed.

Lemma wind_fop_runs this k n l call out :
  n = child_count (xl_priv this) -> (5 * span n <= k)%nat ->
  local_ok n l -> w_op l <> OP_up_down_flush -> is_fan_out (w_op l) = false -> res_ok l out [] -> owes l = true -> all_succeeded n (w_tr l) -> runs this k out [] (wind_fop this l call).
Proof.
  intros Hn Hk Hok Hud Hfan Hres Ho Ha. unfold wind_fop. set (up := child_up (w_tr l)).
  assert (fop_marks n l []) as Hm.
  { intros _ _. rewrite Ha. unfold mark_rows. apply rows_ext. intros j _.
    destruct (decide _) as [Hj|]; [|done]. exfalso. revert Hj. unfold marked. destruct (w_op l); simpl; by intros ?%elem_of_nil. }
  destruct (Z.eqb_spec (afr_up_children_count up) 0) as [Hz|Hz]; [apply (resume_runs this k n); [done|lia|done..]|].
  destruct (wind_loop_fresh up call) as (E1 & E2 & E3 & E4). eexists. split; [done|].
  unfold fresh, inv. cbn [fst snd r_local r_pending r_out r_fops]. rewrite E1, E2, app_nil_r, <-Hn. split_and!.
  - apply local_ok_set_tr; try done. by apply (tr_ok_same n (w_tr l)); [apply Hok|..].
  - by apply res_ok_set_tr.
  - by intros ?.
  - apply ph_fop; try done; [intros Hnil; rewrite Hnil in E4; simpl in E4; lia| |by intros Hp; change (owes l = false) in Hp; congruence].
    pose proof (up_count_le up) as Hle. unfold up in Hle. rewrite (to_up _ _ (lo_tr _ _ Hok)) in Hle.
    simpl. fold up in Hle. lia.
  - pose proof (up_count_le up) as Hle. unfold up in Hle at 2. rewrite (to_up _ _ (lo_tr _ _ Hok)) in Hle.
    eapply Nat.le_trans; [by apply wind_weight|]. rewrite (base_main n (upd_tr _ l) Hud). unfold span in *. lia.
Qed.

Lemma fop_is_wind this n l :
  local_ok n l -> w_op l <> OP_up_down_flush -> is_fan_out (w_op l) = false ->
  exists call, transaction_fop this l = wind_fop this l call.
Proof.
  intros [_ _ Ha _] Hud Hfan. unfold transaction_fop, args_ok in *.
  destruct (w_op l); try done;
    unfold afr_writev_wind, afr_truncate_wind, afr_ftruncate_wind, afr_setattr_wind, afr_fsetattr_wind, afr_setxattr_wind,
      afr_removexattr_wind, afr_create_wind, afr_mknod_wind, afr_mkdir_wind, afr_link_wind, afr_symlink_wind,
      afr_rename_wind, afr_unlink_wind, afr_rmdir_wind, afr_setdents_wind, afr_flush_wind;
    repeat match goal with
    | H : _ /\ _ |- _ => destruct H
    | H : is_Some _ |- _ => destruct H as [? ->]
    | H : exists _, _ |- _ => destruct H as [? H]
    | H : w_args l = _ |- _ => rewrite H; clear H
    end; by eexists.
Qed.

(** ** Before the operation *)

Lemma owed_ret l out : res_ok l out [] -> owes l = true -> op_ret (w_tr l) = -1.
Proof. intros Hres Ho. by apply (ro_owed _ _ _ Hres Ho). Qed.

Lemma lock_not_end a l : is_call a = true -> late l [a] = Some (Some l, [E_act a]).
Proof. unfold late. by destruct a. Qed.

Lemma before_op_ok priv n l r out :
  local_ok n l -> res_ok l out [] -> owes l = true -> before_op priv n (w_tr l) r ->
  local_ok n (set_tr r.1 l) /\ res_ok (set_tr r.1 l) out [].
Proof.
  intros Hok Hres Ho (H1 & H2 & H3 & H4). split; [by apply local_ok_set_tr|].
  apply res_ok_set_tr; [done|]. pose proof (owed_ret l out Hres Ho) as Hr. rewrite Hr. auto.
Qed.

Lemma lock_weight n l rename j a :
  lock_call rename j a -> weight n (Some l) [E_act a] = (base n l + (6 * span n + 2 * (n - j)))%nat.
Proof. unfold lock_call. destruct rename; by intros ->. Qed.

(** Once the pre-op is done. *)
Lemma perform_next_runs this k n l r out :
  n = child_count (xl_priv this) -> (5 * span n <= k)%nat ->
  local_ok n l -> w_op l <> OP_up_down_flush -> is_fan_out (w_op l) = false ->
  res_ok l out [] -> owes l = true -> before_op (xl_priv this) n (w_tr l) r ->
  (exists t, late_outcome (xl_priv this) n t r.1 r.2) \/ r.2 = [run_fop] /\ all_succeeded n r.1 ->
  runs this k out [] (perform this (set_tr r.1 l) r.2).
Proof.
  intros Hn Hk Hok Hud Hfan Hres Ho Hb Hout. destruct (before_op_ok _ n l r out Hok Hres Ho Hb) as [Hok1 Hres1].
  destruct Hout as [[t Hl]|[E Ha]].
  - assert (perform this (set_tr r.1 l) r.2 = late (set_tr r.1 l) r.2) as ->.
    { unfold perform. destruct Hl as [[(Hf & _)| ->]|((Hf & _) & _)]; [|done|];
        by destruct r.2 as [|a [|]]; [done|destruct a|destruct a]; inversion Hf. }
    apply (late_runs this k n); [done|lia|done..|by intros ?|]. destruct Hl as [He|(Hc & _ & Hpo)]; [by left|].
    right. split_and!; [done|done|by intros ?].
  - rewrite E. simpl. destruct (fop_is_wind this n _ Hok1 Hud Hfan) as [call ->]. by apply (wind_fop_runs this k n).
Qed.

Lemma perform_runs this k n i l r out :
  n = child_count (xl_priv this) -> (6 * span n + 2 * (n - i) <= k)%nat ->
  local_ok n l -> w_op l <> OP_up_down_flush -> is_fan_out (w_op l) = false ->
  res_ok l out [] -> owes l = true -> before_op (xl_priv this) n (w_tr l) r ->
  (exists t, late_outcome (xl_priv this) n t r.1 r.2) \/ early_outcome (xl_priv this) n i (w_tr l) r.1 r.2 ->
  runs this k out [] (perform this (set_tr r.1 l) r.2).
Proof.
  intros Hn Hk Hok Hud Hfan Hres Ho Hb Hout. pose proof (base_main n (set_tr r.1 l) Hud) as Hbase.
  destruct (before_op_ok _ n l r out Hok Hres Ho Hb) as [Hok1 Hres1].
  destruct Hout as [Hl|[Hl|[[Hc Hne]|[Hf|(j & a & E & Hk' & Hj)]]]];
    try (apply (perform_next_runs this k n); [done|lia|done..|]; eauto; fail).
  - assert (perform this (set_tr r.1 l) r.2 = late (set_tr r.1 l) r.2) as ->.
    { unfold perform. destruct Hc as (Hf & _). destruct r.2 as [|a [|]]; [done|destruct a|destruct a]; inversion Hf; done. }
    rewrite (late_calls _ _ _ _ _ Hc). destruct (counted_weight _ _ _ _ (set_tr r.1 l) Hc) as [Hw Hlen].
    apply (calls_run this k n); [done|rewrite Hw, Hbase; simpl; lia|done..|by intros ?|]. by apply ph_pre.
  - rewrite E. assert (is_call a = true) as Ha by (unfold lock_call in Hk'; by destruct (is_rename _); subst a).
    assert (perform this (set_tr r.1 l) [a] = late (set_tr r.1 l) [a]) as -> by (by destruct a).
    rewrite lock_not_end by done. pose proof (lock_weight n (set_tr r.1 l) _ _ _ Hk') as Hw.
    apply (calls_run this k n _ [a]); [done|cbn [map]; rewrite Hw, Hbase; lia|done..|by intros ?|].
    apply (ph_lock this n _ [] j a); try done; [|lia].
    destruct Hb as (_ & (_ & K2 & _) & _). simpl. rewrite K2. unfold lock_call, locking in *.
    by destruct (is_rename _); [left|].
Qed.

(** ** The start of a transaction *)

Definition set_type (type : afr_transaction_type) (t : afr_local) : afr_local :=
  mk_local (l_op t) type (has_fd t) (fdctx t) (child_up t) (pending t) (op_ret t) (op_errno t)
    (call_count t) (locked_nodes t) (lock_count t) (post_post_op t).

Lemma transaction_start priv n t type :
  child_count priv = n -> length (child_up t) = n -> (forall c, fdctx t = Some c -> fdctx_ok n c) ->
  (l_op t = GF_FOP_FLUSH <-> type = AFR_FLUSH_TRANSACTION) ->
  let t1 := set_type type (afr_transaction_local_init priv t) in
  let r := afr_transaction priv (afr_transaction_local_init priv t) type in
  tr_ok n t1 /\ before_op priv n t1 r /\ early_outcome priv n 0 t1 r.1 r.2.
Proof.
  intros Hn Hu Hc Hf. cbv zeta. set (t1 := set_type type _).
  assert (tr_ok n t1) as Hok.
  { split; try done; simpl; [by rewrite length_replicate|]. rewrite Hn.
    eexists. apply rows_replicate. }
  split; [done|]. unfold afr_transaction. fold (set_type type (afr_transaction_local_init priv t)). fold t1.
  destruct (_ =? 0); [by apply begin_fop_outcome|]. apply lock_rec_outcome; [done..|lia].
Qed.

(** What the local data need when a transaction begins. *)
Record begin_ok (n : nat) (type : afr_transaction_type) (l : wlocal) : Prop := {
  bo_up : length (child_up (w_tr l)) = n;
  bo_ctx : forall c, fdctx (w_tr l) = Some c -> fdctx_ok n c;
  bo_flush : l_op (w_tr l) = GF_FOP_FLUSH <-> type = AFR_FLUSH_TRANSACTION;
  bo_fop : l_op (w_tr l) = fop_of (w_op l);
  bo_args : args_ok l;
  bo_hook : hook_ok l
}.

Lemma begin_local_ok priv n l type :
  begin_ok n type l -> tr_ok n (set_type type (afr_transaction_local_init priv (w_tr l))) ->
  local_ok n (set_tr (set_type type (afr_transaction_local_init priv (w_tr l))) l).
Proof. intros [H1 H2 H3 H4 H5 H6] Hok. by split. Qed.

Lemma run_transaction_runs this k type l out :
  (7 * span (child_count (xl_priv this)) <= k)%nat ->
  begin_ok (child_count (xl_priv this)) type l -> w_op l <> OP_up_down_flush -> is_fan_out (w_op l) = false ->
  res_ok l out [] -> owes l = true -> runs this k out [] (run_transaction this type l).
Proof.
  intros Hk Hb Hud Hfan Hres Ho. unfold run_transaction.
  destruct (transaction_start (xl_priv this) _ (w_tr l) type eq_refl (bo_up _ _ _ Hb) (bo_ctx _ _ _ Hb) (bo_flush _ _ _ Hb))
    as (Hok & Hbef & Hout).
  pose proof (begin_local_ok (xl_priv this) _ l type Hb Hok) as Hlok.
  assert (res_ok (set_tr (set_type type (afr_transaction_local_init (xl_priv this) (w_tr l))) l) out []) as Hres1
    by (by apply res_ok_set_tr).
  assert (6 * span (child_count (xl_priv this)) + 2 * (child_count (xl_priv this) - 0) <= k)%nat as Hk'
    by (unfold span in *; lia).
  pose proof (perform_runs this k _ 0 _ _ out eq_refl Hk' Hlok Hud Hfan Hres1 Ho Hbef (or_intror Hout)) as Hr.
  by destruct (afr_transaction (xl_priv this) _ type) as [t acts].
Qed.

(** ** The flush before a write *)

Lemma owes_flush l out : w_op l = OP_up_down_flush -> res_ok l out [] -> rets out = [] /\ op_ret (w_tr l) = -1.
Proof.
  intros Hop Hres. assert (owes l = true) as Ho by (unfold owes; by rewrite Hop).
  destruct (ro_owed _ _ _ Hres Ho) as [H1 H2]. split; [done|by apply H2].
Qed.

(** An operation that has begun: nothing is answered, nothing has succeeded. *)
Lemma res_ok_begin l out :
  rets out = [] -> op_ret (w_tr l) = -1 -> w_success_count l = 0 -> owes l = true -> res_ok l out [].
Proof. intros H1 H2 H3 H4. split; [done|congruence|]. intros _ _. rewrite H3. done. Qed.

Lemma refused_runs this k out ev err p :
  rets out = [] -> calls ev = [] -> rets ev = [] -> runs this k out [] (Some (None, ev ++ [E_unwind (-1) err p])).
Proof.
  intros Hr Hc He. apply (finished _ _ _ _ _ (-1)); [by rewrite calls_app, Hc| |done].
  by rewrite rets_app, rets_outs, rets_app, Hr, He.
Qed.

Lemma do_writev_runs this k alloc l out :
  let n := child_count (xl_priv this) in
  (7 * span n <= k)%nat -> length (child_up (w_tr l)) = n -> (forall c, fdctx (w_tr l) = Some c -> fdctx_ok n c) ->
  is_Some (w_fd l) -> (exists v o, w_args l = C_writev v o) -> rets out = [] -> op_ret (w_tr l) = -1 ->
  runs this k out [] (afr_do_writev this alloc l).
Proof.
  intros n Hk Hu Hc [fd Hfd] (v & o & Ha) Hr Ho. unfold afr_do_writev.
  destruct alloc; simpl; [|by apply (refused_runs this k out [])].
  rewrite Hfd, Ha. apply run_transaction_runs; [done| |done|done|by apply res_ok_begin|done].
  split; try done. unfold args_ok. simpl. rewrite Hfd. eauto.
Qed.

Lemma do_ftruncate_runs this k alloc l out :
  let n := child_count (xl_priv this) in
  (7 * span n <= k)%nat -> length (child_up (w_tr l)) = n -> (forall c, fdctx (w_tr l) = Some c -> fdctx_ok n c) ->
  is_Some (w_fd l) -> (exists o, w_args l = C_truncate o) -> rets out = [] -> op_ret (w_tr l) = -1 ->
  w_success_count l = 0 -> runs this k out [] (afr_do_ftruncate this alloc l).
Proof.
  intros n Hk Hu Hc Hfd (o & Ha) Hr Ho Hs. unfold afr_do_ftruncate.
  destruct alloc; simpl; [|by apply (refused_runs this k out [])].
  rewrite Ha. apply run_transaction_runs; [done| |done|done|by apply res_ok_begin|done].
  split; try done. unfold args_ok. simpl. eauto.
Qed.

Lemma flush_done_runs this k e l out :
  let n := child_count (xl_priv this) in
  (7 * span n <= k)%nat -> local_ok n l -> w_op l = OP_up_down_flush -> res_ok l out [] ->
  runs this k out [] (afr_up_down_flush_done this e l).
Proof.
  intros n Hk Hok Hop Hres. destruct (owes_flush l out Hop Hres) as [Hr Ho].
  pose proof (lo_args _ _ Hok) as Ha. unfold args_ok in Ha. rewrite Hop in Ha. destruct Ha as [Hfd Ha].
  unfold afr_up_down_flush_done. set (l1 := match fdctx (w_tr l) with Some c => _ | None => l end).
  assert (child_up (w_tr l1) = child_up (w_tr l) /\ op_ret (w_tr l1) = op_ret (w_tr l) /\ w_fd l1 = w_fd l /\
    w_args l1 = w_args l /\ w_after l1 = w_after l /\ w_success_count l1 = w_success_count l) as (E1 & E2 & E3 & E4 & E5 & E6).
  { unfold l1. by destruct (fdctx (w_tr l)). }
  assert (length (child_up (w_tr l1)) = n) as Hu by (rewrite E1; apply Hok).
  assert (forall c, fdctx (w_tr l1) = Some c -> fdctx_ok n c) as Hc.
  { unfold l1. destruct (fdctx (w_tr l)) as [c|] eqn:Hc; [|by rewrite Hc]. simpl. intros ? [= <-].
    destruct (to_ctx _ _ (lo_tr _ _ Hok) c Hc) as [F1 F2 F3]. split; [|done..].
    simpl. rewrite length_zip_with, F1, (to_up _ _ (lo_tr _ _ Hok)). lia. }
  unfold up_down_flush_cbk. rewrite E5.
  destruct Ha as [[Ea Ha]|(Ea & Ha & _ & Hs)]; rewrite Ea.
  - apply do_writev_runs; rewrite ?E3, ?E4, ?E2; done.
  - apply do_ftruncate_runs; rewrite ?E3, ?E4, ?E2, ?E6; done.
Qed.

Lemma flush_late_calls k n t this e l acts : counted k n t acts -> flush_late this e l acts = Some (Some l, map E_act acts).
Proof.
  intros (Hc & Hne & _ & _). unfold flush_late. pose proof (class_is_call k acts Hc) as Hf.
  destruct acts as [|a [|b acts]]; [done| |rewrite Hf; by destruct a]. rewrite Hf. by destruct a.
Qed.

Lemma flush_late_runs this k e l acts out :
  let n := child_count (xl_priv this) in
  (9 * span n <= k)%nat -> local_ok n l -> w_op l = OP_up_down_flush -> res_ok l out [] ->
  ending n (w_tr l) acts \/ counted K_post n (w_tr l) acts /\ has_post_op (w_tr l) /\ (12 * span n <= k)%nat ->
  runs this k out [] (flush_late this e l acts).
Proof.
  intros n Hk Hok Hop Hres [[Hc| ->]|(Hc & Hpo & Hk')]; [|by apply flush_done_runs; [unfold n in *; lia|..]|];
    rewrite (flush_late_calls _ _ _ _ _ _ _ Hc); destruct (counted_weight _ _ _ _ l Hc) as [Hw Hl];
    rewrite (base_flush n l Hop) in Hw; (apply (calls_run this k n); [done|rewrite Hw; simpl; lia|done..|]).
  - apply ph_unlock; [by rewrite Hop|done].
  - apply ph_post; [by rewrite Hop|done|done|]. by intros ?.
Qed.

(** The flush before a truncation has no hook. *)
Lemma hook_is_write n l :
  local_ok n l -> w_op l = OP_up_down_flush -> post_post_op (w_tr l) <> None ->
  is_Some (w_fd l) /\ w_after l = Some OP_writev /\ exists v o, w_args l = C_writev v o.
Proof.
  intros Hok Hop Hp. pose proof (lo_args _ _ Hok) as Ha. unfold args_ok in Ha. rewrite Hop in Ha.
  destruct Ha as [Hfd [[Ha Hv]|(_ & _ & Hn & _)]]; [done|congruence].
Qed.

Lemma heal_runs this k e l out :
  let n := child_count (xl_priv this) in
  (11 * span n <= k)%nat -> local_ok n l -> w_op l = OP_up_down_flush -> res_ok l out [] -> left_hook l ->
  runs this k out [] (afr_up_down_flush_post_post_op e l).
Proof.
  intros n Hk Hok Hop Hres Hh. destruct (owes_flush l out Hop Hres) as [Hr Ho].
  destruct (hook_is_write n l Hok Hop) as ([fd Hfd] & Ha & Hv); [by destruct Hh as [-> | ->]|].
  unfold afr_up_down_flush_post_post_op. rewrite Hfd. eexists. split; [done|]. unfold fresh, inv. simpl.
  rewrite app_nil_r. destruct Hok as [H1 H2 H3 H4]. split_and!.
  - split; [done|done| |by unfold hook_ok; simpl; rewrite Hop]. unfold args_ok. simpl. rewrite Hop, Hfd. split; [done|]. by left.
  - split; [done|unfold owes; simpl; by rewrite Hop|done].
  - done.
  - by apply ph_heal.
  - rewrite (base_flush _ (set_success_count 1 (set_loc _ l)) Hop). unfold span, n in *. lia.
Qed.

Lemma call_post_post_runs this k e l out :
  let n := child_count (xl_priv this) in
  (9 * span n <= k)%nat -> local_ok n l -> w_op l = OP_up_down_flush -> res_ok l out [] -> left_hook l ->
  runs this k out [] (call_post_post_op this e l).
Proof.
  intros n Hk Hok Hop Hres Hh. unfold call_post_post_op. destruct Hh as [Hh|Hh]; rewrite Hh; simpl.
  - apply flush_done_runs; [unfold n in *; lia|by apply local_ok_set_tr; [|apply Hok|..]|done|by apply res_ok_set_tr].
  - pose proof (unlock_goes_on (xl_priv this) n (w_tr l) (w_tr l) (lo_tr _ _ Hok)) as Hg.
    destruct (afr_unlock (w_tr l)) as [t acts] eqn:E. destruct Hg as (G1 & G2 & (R1 & R2 & R3 & R4) & G4); [done..|].
    apply flush_late_runs; [done|by apply local_ok_set_tr|done|by apply res_ok_set_tr|].
    left. pose proof (unlock_ending n (w_tr l) (lo_tr _ _ Hok)) as He. by rewrite E in He.
Qed.

Lemma open_loop_shape i ps cc loc fd :
  cc = Z.of_nat (length (List.filter (fun p => negb p.1 && p.2) ps)) ->
  let ev := open_loop i ps cc loc fd in
  calls ev = ev /\ outs ev = [] /\ Forall is_open ev /\ (cc <> 0 -> Z.of_nat (length ev) = cc).
Proof.
  cbv zeta. revert i cc. induction ps as [|[o u] ps IH]; intros i cc Hc; simpl in *; [split_and!; [done..|lia]|].
  destruct (negb o && u); cbn [length] in Hc.
  - destruct (Z.eqb_spec (cc - 1) 0) as [Hz|Hz]; [split_and!; [done|done|by repeat constructor|simpl; lia]|].
    destruct (IH (S i) (cc - 1)) as (I1 & I2 & I3 & I4); [lia|].
    split_and!; [by unfold calls in *; simpl; rewrite I1|done|by constructor|]. intros _. cbn [length].
    specialize (I4 Hz). lia.
  - by apply IH.
Qed.

Lemma open_weight n l ev : Forall is_open ev -> (weight n (Some l) ev <= base n l + 1 * span n + length ev)%nat.
Proof. intros [|e ev' He _]; simpl; [lia|]. destruct e; try done. simpl. lia. Qed.

Lemma sh_unwind_runs this k e l out :
  let n := child_count (xl_priv this) in
  (10 * span n <= k)%nat -> local_ok n l -> w_op l = OP_up_down_flush -> res_ok l out [] -> left_hook l ->
  runs this k out [] (afr_up_down_flush_sh_unwind this e l).
Proof.
  intros n Hk Hok Hop Hres Hh. unfold afr_up_down_flush_sh_unwind.
  destruct (fdctx (w_tr l)) as [c|] eqn:Hc; [|by apply call_post_post_runs; [unfold n in *; lia|..]].
  set (cc := __unopened_count _ _). destruct (Z.eqb_spec cc 0) as [Hz|Hz]; [by apply call_post_post_runs; [unfold n in *; lia|..]|].
  destruct (hook_is_write n l Hok Hop) as ([fd Hfd] & _); [by destruct Hh as [-> | ->]|]. rewrite Hfd. simpl.
  destruct (open_loop_shape 0 (zip (opened_on c) (child_up (w_tr l))) cc (w_loc l) fd eq_refl) as (E1 & E2 & E3 & E4).
  specialize (E4 Hz). assert (cc <= Z.of_nat n) as Hcn.
  { pose proof (filter_length_le (fun p : bool * bool => negb p.1 && p.2) (zip (opened_on c) (child_up (w_tr l)))) as Hl.
    rewrite length_zip_with, (to_up _ _ (lo_tr _ _ Hok)) in Hl. unfold cc, __unopened_count. lia. }
  eexists. split; [done|]. unfold fresh, inv. cbn [fst snd r_local r_pending r_out r_fops]. rewrite E1, E2, app_nil_r. split_and!.
  - apply local_ok_set_tr; try done. by apply (tr_ok_same n (w_tr l)); [apply Hok|..].
  - by apply res_ok_set_tr.
  - done.
  - apply ph_open; try done; [by intros Hnil; rewrite Hnil in E4; simpl in E4; lia|]. lia.
  - eapply Nat.le_trans; [by apply open_weight|]. rewrite (base_flush _ (upd_tr _ l) Hop). unfold span, n in *. lia.
Qed.

Lemma flush_perform_runs this k i e l r out :
  let n := child_count (xl_priv this) in
  (14 * span n + 2 * (n - i) <= k)%nat -> local_ok n l -> w_op l = OP_up_down_flush -> res_ok l out [] -> before_op (xl_priv this) n (w_tr l) r ->
  (exists t, late_outcome (xl_priv this) n t r.1 r.2) \/ early_outcome (xl_priv this) n i (w_tr l) r.1 r.2 ->
  runs this k out [] (flush_perform this e (set_tr r.1 l) r.2).
Proof.
  intros n Hk Hok Hop Hres Hb Hout.
  assert (owes l = true) as Ho by (unfold owes; by rewrite Hop).
  destruct (before_op_ok _ n l r out Hok Hres Ho Hb) as [Hok1 Hres1].
  assert (forall t, late_outcome (xl_priv this) n t r.1 r.2 -> runs this k out [] (flush_perform this e (set_tr r.1 l) r.2)) as Hlate.
  { intros t Hl. assert (flush_perform this e (set_tr r.1 l) r.2 = flush_late this e (set_tr r.1 l) r.2) as ->.
    { unfold flush_perform. destruct Hl as [[(Hf & _)| ->]|((Hf & _) & _)]; [|done|];
        by destruct r.2 as [|a [|]]; [done|destruct a|destruct a]; inversion Hf. }
    apply flush_late_runs; [unfold n in *; lia|done..|]. destruct Hl as [He|(Hc & _ & Hpo)]; [by left|right; split_and!; [done..|unfold n in *; lia]]. }
  destruct Hout as [[t Hl]|[Hl|[[Hc Hne]|[[E Ha]|(j & a & E & Hk' & Hj)]]]]; [by eapply Hlate|by eapply Hlate|..].
  - exfalso. apply Hne. rewrite (lo_fop _ _ Hok), Hop. done.
  - rewrite E. simpl. unfold afr_up_down_flush_wind.
    pose proof (resume_goes_on (xl_priv this) n r.1 (lo_tr _ _ Hok1)) as Hg. simpl.
    destruct (afr_transaction_resume (xl_priv this) r.1) as [t acts].
    destruct Hg as (G1 & G2 & (R1 & R2 & R3 & R4) & G4). cbn [fst snd] in *.
    apply flush_late_runs; [unfold n in *; lia|by apply (local_ok_set_tr n (set_tr r.1 l))|done|by apply (res_ok_set_tr (set_tr r.1 l))|].
    destruct G4 as [He|(Hc & _ & Hpo)]; [by left|right; split_and!; [done..|unfold n in *; lia]].
  - rewrite E. assert (is_call a = true) as Ha by (unfold lock_call in Hk'; by destruct (is_rename _); subst a).
    assert (flush_perform this e (set_tr r.1 l) [a] = Some (Some (set_tr r.1 l), map E_act [a])) as ->.
    { by destruct a. }
    pose proof (lock_weight n (set_tr r.1 l) _ _ _ Hk') as Hw. rewrite (base_flush n (set_tr r.1 l) Hop) in Hw.
    apply (calls_run this k n _ [a]); [done|cbn [map]; rewrite Hw; lia|done..|]. apply (ph_lock this n _ [] j a); [by simpl; rewrite Hop| |lia|done|].
    + destruct Hb as (_ & (_ & K2 & _) & _). simpl. rewrite K2. unfold lock_call, locking in *.
      by destruct (is_rename _); [left|].
    + unfold owes. simpl. by rewrite Hop.
Qed.
