(* ===== verification/AfrCollect.v ===== *)
(** * cluster/afr: answers and the callbacks of operations

    Every answer keeps the invariant.  What the callbacks have in common: how an
    answer changes the local data, and what follows from it for the result and for
    the marks of the post-op. *)

From stdpp Require Import base list numbers strings gmap relations.
From S2P Require Import Prelude ByteOrder AfrPending AfrTransaction AfrFacts AfrFops AfrCalls AfrInodeWrite AfrDirWrite AfrFanout.
From S2P Require Import AfrOps AfrTransFacts AfrSystem AfrSteps.
Open Scope Z_scope.

(** What the answer to a call leads to, with [rest] still to be answered. *)
Definition goes_to (this : afr_xl) (k : nat) (rest out : list event) (fops : list (nat * (Z * Z))) (res : result) : Prop :=
  exists l' ev, res = Some (l', ev) /\ inv this (mk_req l' (rest ++ calls ev) (out ++ outs ev) fops) /\
    (weight (child_count (xl_priv this)) l' (rest ++ calls ev) <= k)%nat.

Lemma runs_goes_to this k out fops res : runs this k out fops res -> goes_to this k [] out fops res.
Proof. intros ((l & ev) & -> & H). by do 2 eexists. Qed.

(** The answer was not the last. *)
Lemma stays this k rest out fops l :
  let n := child_count (xl_priv this) in
  (weight n (Some l) rest <= k)%nat -> local_ok n l -> res_ok l out fops -> no_fops_yet l fops -> phase this n l fops rest ->
  goes_to this k rest out fops (Some (Some l, [])).
Proof.
  intros n Hk H1 H2 H3 H4. do 2 eexists. split; [done|]. unfold inv. cbn [r_local r_pending r_out r_fops]. by rewrite !app_nil_r.
Qed.

Lemma map_act_split acts p1 call p2 :
  map E_act acts = p1 ++ call :: p2 ->
  exists a1 a a2, acts = a1 ++ a :: a2 /\ p1 = map E_act a1 /\ call = E_act a /\ p2 = map E_act a2.
Proof.
  revert acts. induction p1 as [|x p1 IH]; intros [|a acts] E; simpl in E; try done.
  - injection E as <- <-. by exists [], a, acts.
  - injection E as <- E. destruct (IH acts E) as (a1 & b & a2 & -> & -> & -> & ->). by exists (a :: a1), b, a2.
Qed.

(** One call of a class less. *)
Lemma counted_less k n t t' a1 a a2 :
  counted k n t (a1 ++ a :: a2) -> one_less t t' -> counted k n t' (a1 ++ a2).
Proof.
  intros (H1 & _ & H3 & H4) [H5 H6]. rewrite length_app in *. cbn [length] in *.
  assert (call_count t' = Z.of_nat (length (a1 ++ a2))) as Hc by (rewrite length_app; lia).
  split_and!; [|intros Hn; rewrite Hn in Hc; simpl in Hc; lia|done|rewrite length_app; lia].
  apply Forall_app in H1 as [? [_ ?]%Forall_cons]. by apply Forall_app.
Qed.

Lemma counted_last k n t a1 a a2 : counted k n t (a1 ++ a :: a2) -> call_count t = 1 -> a1 = [] /\ a2 = [].
Proof.
  intros (_ & _ & H3 & _) H1. rewrite length_app in H3. cbn [length] in H3.
  split; apply nil_length_inv; lia.
Qed.

Lemma counted_class k n t a1 a a2 : counted k n t (a1 ++ a :: a2) -> in_class k a.
Proof. intros (H1 & _). by apply Forall_app in H1 as [_ [? _]%Forall_cons]. Qed.

Lemma perform_any_nil this e l : perform_any this e l [] = Some (Some l, []).
Proof. unfold perform_any. by case_bool_decide. Qed.

Lemma perform_any_done this k e l out fops :
  let n := child_count (xl_priv this) in
  (base n l <= k)%nat ->
  local_ok n l -> is_fan_out (w_op l) = false -> res_ok l out fops -> no_fops_yet l fops ->
  runs this k out fops (perform_any this e l [run_done]).
Proof.
  intros n Hk Hok Hfan Hres Hno. unfold perform_any. case_bool_decide as Hop; [|by apply (done_runs this k n)].
  rewrite (Hno Hop) in *. rewrite (base_flush n l Hop) in Hk. apply flush_done_runs; [unfold n in *; lia|done..].
Qed.

Lemma perform_any_runs this k i e l r out :
  let n := child_count (xl_priv this) in
  (base n l + (6 * span n + 2 * (n - i)) <= k)%nat ->
  local_ok n l -> is_fan_out (w_op l) = false -> res_ok l out [] -> owes l = true ->
  before_op (xl_priv this) n (w_tr l) r ->
  (exists t, late_outcome (xl_priv this) n t r.1 r.2) \/ early_outcome (xl_priv this) n i (w_tr l) r.1 r.2 ->
  runs this k out [] (perform_any this e (set_tr r.1 l) r.2).
Proof.
  intros n Hk Hok Hfan Hres Ho Hb Hout. unfold perform_any. simpl.
  case_bool_decide as Hop; [rewrite (base_flush n l Hop) in Hk|rewrite (base_main n l Hop) in Hk].
  - apply (flush_perform_runs this k i); try done. unfold n in *. lia.
  - by apply (perform_runs this k n i).
Qed.

(** ** Locks *)

Lemma lock_next_runs this k e l r out i a :
  let n := child_count (xl_priv this) in
  (weight n (Some l) [E_act a] <= k)%nat ->
  local_ok n l -> is_fan_out (w_op l) = false -> res_ok l out [] -> owes l = true ->
  before_op (xl_priv this) n (w_tr l) r -> r.2 = [a] -> locking (is_rename (l_type (w_tr l))) i a -> (i < n)%nat ->
  runs this k out [] (perform_any this e (set_tr r.1 l) r.2).
Proof.
  intros n Hw Hok Hfan Hres Ho Hb E Hk Hi. destruct (before_op_ok _ n l r out Hok Hres Ho Hb) as [Hok1 Hres1].
  assert (perform_any this e (set_tr r.1 l) r.2 = Some (Some (set_tr r.1 l), map E_act [a])) as ->.
  { rewrite E. unfold perform_any, flush_perform, perform, flush_late, late, locking in *.
    destruct (is_rename _); [destruct Hk as [-> | ->]|subst a]; by case_bool_decide. }
  apply (calls_run this k n _ [a]); [done..|].
  apply (ph_lock this n _ [] i a); [done| |done|done|done]. destruct Hb as (_ & (_ & K2 & _) & _). simpl. by rewrite K2.
Qed.

Lemma lock_answer this k e l i a ret err out :
  let n := child_count (xl_priv this) in
  (weight n (Some l) [E_act a] <= S k)%nat ->
  local_ok n l -> is_fan_out (w_op l) = false -> res_ok l out [] -> owes l = true ->
  locking (is_rename (l_type (w_tr l))) i a -> (i < n)%nat ->
  runs this k out [] ('(t, acts) ← act_cbk this a ret err (w_tr l); perform_any this e (set_tr t l) acts).
Proof.
  intros n Hw Hok Hfan Hres Ho Hk Hi. pose proof (lo_tr _ _ Hok) as Htr.
  assert (forall i', i' = i -> (base n l + (6 * span n + 2 * (n - S i)) <= k)%nat -> runs this k out [] ('(t, acts) ← Some (afr_lock_cbk (xl_priv this) (w_tr l) i' ret err);
    perform_any this e (set_tr t l) acts)) as Hlock.
  { intros ? -> Hk'. destruct (lock_cbk_outcome (xl_priv this) n i (w_tr l) ret err Htr eq_refl Hi) as [Hb Hout].
    pose proof (perform_any_runs this k (S i) e l _ out Hk' Hok Hfan Hres Ho Hb Hout) as Hr.
    by destruct (afr_lock_cbk _ _ _ _ _) as [t acts]. }
  unfold locking in Hk. destruct (is_rename _) eqn:Hren; [destruct Hk as [-> | ->]|subst a]; [|apply Hlock; [done|simpl in Hw; lia]..].
  destruct (lock_lower_cbk_outcome (xl_priv this) n i (w_tr l) ret err Htr) as [Hb Hout].
  assert (runs this k out [] (perform_any this e (set_tr (afr_lock_lower_cbk (w_tr l) i ret err).1 l)
    (afr_lock_lower_cbk (w_tr l) i ret err).2)) as Hr.
  { destruct Hout as [Hl|E]; [apply (perform_any_runs this k n); try done; [simpl in Hw; unfold n in *; lia|by left]|].
    apply (lock_next_runs this k e l _ out i (wind_lock_higher i)); try done; [simpl in *; unfold n in *; lia|rewrite Hren; by right]. }
  simpl. by destruct (afr_lock_lower_cbk _ _ _ _) as [t acts].
Qed.

(** ** Pre-op, post-op, unlocking *)

Lemma pre_answer this k e l a1 a a2 ret err out :
  let n := child_count (xl_priv this) in
  (weight n (Some l) (map E_act (a1 ++ a :: a2)) <= S k)%nat ->
  local_ok n l -> is_fan_out (w_op l) = false -> res_ok l out [] -> owes l = true -> w_op l <> OP_up_down_flush ->
  counted K_pre n (w_tr l) (a1 ++ a :: a2) ->
  goes_to this k (map E_act (a1 ++ a2)) out []
    ('(t, acts) ← act_cbk this a ret err (w_tr l); perform_any this e (set_tr t l) acts).
Proof.
  intros n Hk Hok Hfan Hres Ho Hud Hc. pose proof (lo_tr _ _ Hok) as Htr. destruct (counted_weight _ _ _ _ l Hc) as [Hw _]. rewrite Hw, length_app in Hk. cbn [length class_base] in Hk.
  pose proof (counted_class _ _ _ _ _ _ Hc) as Hcl.
  destruct a as [| | | | | |i on x| | | |]; try done. simpl.
  destruct (pre_cbk_outcome (xl_priv this) n (w_tr l) i ret err Htr) as [Hb Hout].
  set (r := afr_changelog_pre_op_cbk (xl_priv this) (w_tr l) i ret err) in *.
  destruct (before_op_ok _ n l r out Hok Hres Ho Hb) as [Hok1 Hres1].
  destruct Hout as [[E Hless]|[[Hone Hl]|(Hone & E & Ha)]].
  - destruct r as [t acts]. simpl in *. subst acts. rewrite perform_any_nil. pose proof (counted_less _ _ _ _ _ _ _ Hc Hless) as Hc'.
    destruct (counted_weight _ _ _ _ (set_tr t l) Hc') as [Hw' _].
    apply stays; [fold n; rewrite Hw', length_app; simpl; change (base n (set_tr t l)) with (base n l); lia|done|done|by intros ?|]. by apply ph_pre.
  - destruct (counted_last _ _ _ _ _ _ Hc Hone) as [-> ->]. apply runs_goes_to.
    assert (runs this k out [] (perform this (set_tr r.1 l) r.2)) as Hr by (apply (perform_next_runs this k n); try done; [simpl in Hk; lia|by left]).
    unfold perform_any. destruct r. simpl in *. by rewrite bool_decide_false.
  - destruct (counted_last _ _ _ _ _ _ Hc Hone) as [-> ->]. apply runs_goes_to.
    assert (runs this k out [] (perform this (set_tr r.1 l) r.2)) as Hr by (apply (perform_next_runs this k n); try done; [simpl in Hk; lia|by right]).
    unfold perform_any. destruct r. simpl in *. by rewrite bool_decide_false.
Qed.

Lemma unlock_answer this k e l a1 a a2 ret err out fops :
  let n := child_count (xl_priv this) in
  (weight n (Some l) (map E_act (a1 ++ a :: a2)) <= S k)%nat ->
  local_ok n l -> is_fan_out (w_op l) = false -> res_ok l out fops -> no_fops_yet l fops ->
  counted K_unlock n (w_tr l) (a1 ++ a :: a2) ->
  goes_to this k (map E_act (a1 ++ a2)) out fops
    ('(t, acts) ← act_cbk this a ret err (w_tr l); perform_any this e (set_tr t l) acts).
Proof.
  intros n Hk Hok Hfan Hres Hno Hc. pose proof (lo_tr _ _ Hok) as Htr. destruct (counted_weight _ _ _ _ l Hc) as [Hw _]. rewrite Hw, length_app in Hk. cbn [length class_base] in Hk.
  pose proof (counted_class _ _ _ _ _ _ Hc) as Hcl.
  assert (act_cbk this a ret err (w_tr l) = Some (afr_unlock_common_cbk (w_tr l))) as -> by (by destruct a).
  destruct (unlock_cbk_outcome n (w_tr l) Htr) as (H1 & H2 & (R1 & R2 & R3 & R4) & Hout).
  destruct (afr_unlock_common_cbk (w_tr l)) as [t acts]. simpl in *.
  assert (local_ok n (set_tr t l)) as Hok1 by (by apply local_ok_set_tr).
  assert (res_ok (set_tr t l) out fops) as Hres1 by (by apply res_ok_set_tr).
  destruct Hout as [[-> Hless]|[Hone ->]].
  - rewrite perform_any_nil. pose proof (counted_less _ _ _ _ _ _ _ Hc Hless) as Hc'.
    destruct (counted_weight _ _ _ _ (set_tr t l) Hc') as [Hw' _].
    apply stays; [fold n; rewrite Hw', length_app; simpl; change (base n (set_tr t l)) with (base n l); lia|done..|]. by apply ph_unlock.
  - destruct (counted_last _ _ _ _ _ _ Hc Hone) as [-> ->]. apply runs_goes_to. apply perform_any_done; try done.
    change (base n l <= k)%nat. simpl in Hk. lia.
Qed.

Lemma local_ok_hook n l t :
  local_ok n l -> tr_ok n t -> same_kind (w_tr l) t -> (post_post_op (w_tr l) = None -> post_post_op t = None) ->
  local_ok n (set_tr t l).
Proof.
  intros [H1 H2 H3 H4] Ht (K1 & K2 & K3) Hp. split; [done|by simpl; rewrite K1|..].
  - unfold args_ok in *. simpl. destruct (w_op l); try done. naive_solver.
  - unfold hook_ok in *. simpl. destruct (w_op l); auto.
Qed.

Lemma perform_any_ending this k e l acts out fops :
  let n := child_count (xl_priv this) in
  (base n l + span n <= k)%nat ->
  local_ok n l -> is_fan_out (w_op l) = false -> res_ok l out fops -> no_fops_yet l fops -> ending n (w_tr l) acts ->
  runs this k out fops (perform_any this e l acts).
Proof.
  intros n Hk Hok Hfan Hres Hno [Hc| ->]; [|by apply perform_any_done; [unfold n in *; lia|..]].
  destruct (counted_weight _ _ _ _ l Hc) as [Hw Hlen].
  assert (perform_any this e l acts = Some (Some l, map E_act acts)) as ->.
  { unfold perform_any. case_bool_decide.
    - rewrite <-(flush_late_calls _ _ _ this e l _ Hc). destruct Hc as (Hf & _).
      by destruct acts as [|a [|]]; [|destruct a|destruct a]; inversion Hf.
    - rewrite <-(late_calls _ _ _ l _ Hc). destruct Hc as (Hf & _).
      by destruct acts as [|a [|]]; [|destruct a|destruct a]; inversion Hf. }
  apply (calls_run this k n); [done|rewrite Hw; simpl; lia|done..|]. by apply ph_unlock.
Qed.

Lemma post_answer this k e l a1 a a2 ret err out fops :
  let n := child_count (xl_priv this) in
  (weight n (Some l) (map E_act (a1 ++ a :: a2)) <= S k)%nat ->
  local_ok n l -> is_fan_out (w_op l) = false -> res_ok l out fops -> no_fops_yet l fops ->
  counted K_post n (w_tr l) (a1 ++ a :: a2) -> has_post_op (w_tr l) -> post_ok this l (a1 ++ a :: a2) fops ->
  goes_to this k (map E_act (a1 ++ a2)) out fops
    ('(t, acts) ← act_cbk this a ret err (w_tr l); perform_any this e (set_tr t l) acts).
Proof.
  intros n Hk Hok Hfan Hres Hno Hc Hpo Hpok. pose proof (lo_tr _ _ Hok) as Htr. destruct (counted_weight _ _ _ _ l Hc) as [Hw _]. rewrite Hw, length_app in Hk. cbn [length class_base] in Hk.
  pose proof (counted_class _ _ _ _ _ _ Hc) as Hcl.
  assert (act_cbk this a ret err (w_tr l) = Some (afr_changelog_post_op_cbk (xl_priv this) (w_tr l))) as -> by (by destruct a).
  destruct (post_cbk_outcome (xl_priv this) n (w_tr l) Htr) as (H1 & H2 & H3 & H4 & H5 & Hout).
  destruct (afr_changelog_post_op_cbk (xl_priv this) (w_tr l)) as [t acts]. simpl in *.
  assert (res_ok (set_tr t l) out fops) as Hres1 by (by apply res_ok_set_tr).
  destruct Hout as [(-> & Hless & Hp & _)|[(Hone & He & Hp)|(Hone & -> & Hu & Hp)]].
  - rewrite perform_any_nil. pose proof (counted_less _ _ _ _ _ _ _ Hc Hless) as Hc'.
    destruct (counted_weight _ _ _ _ (set_tr t l) Hc') as [Hw' _].
    apply stays; [fold n; rewrite Hw', length_app; simpl; change (base n (set_tr t l)) with (base n l); lia|by apply local_ok_set_tr|done|done|].
    destruct H2 as (K1 & K2 & _). apply ph_post.
    + done.
    + done.
    + unfold has_post_op in *. simpl. by rewrite K1.
    + intros F1 F2. specialize (Hpok F1 F2). unfold final_rows in *. simpl. rewrite K2, H5.
      apply Forall_app in Hpok as [? [_ ?]%Forall_cons]. by apply Forall_app.
  - destruct (counted_last _ _ _ _ _ _ Hc Hone) as [-> ->]. apply runs_goes_to.
    apply perform_any_ending; try done; [|by apply local_ok_hook].
    change (base n l + span n <= k)%nat. simpl in Hk. lia.
  - destruct (counted_last _ _ _ _ _ _ Hc Hone) as [-> ->]. apply runs_goes_to.
    assert (w_op l = OP_up_down_flush) as Hop.
    { destruct Hpo as [P1 P2]. pose proof (lo_hook _ _ Hok) as Hh. unfold hook_ok in Hh. rewrite (lo_fop _ _ Hok) in P1, P2.
      destruct (w_op l); by rewrite ?Hu in Hh. }
    assert (left_hook (set_tr t l)) as Hleft.
    { unfold left_hook. simpl. rewrite Hp. unfold hook_left. destruct (_ =? 0); auto. }
    rewrite (Hno Hop) in *. unfold perform_any. simpl. rewrite bool_decide_true by done.
    rewrite (base_flush n l Hop) in Hk. apply (heal_runs this); [unfold n in *; simpl in Hk; lia| |done..].
    apply local_ok_hook; [done..|congruence].
Qed.

(** ** Opening the fd before a write *)

Lemma open_weight_eq n l ev :
  Forall is_open ev -> ev <> [] -> weight n (Some l) ev = (base n l + 1 * span n + length ev)%nat.
Proof. intros [|e ev' He _] Hne; [done|]. destruct e; try done. simpl. lia. Qed.

Lemma open_answer this k e l p1 p2 i loc fd ret out :
  let n := child_count (xl_priv this) in
  (weight n (Some l) (p1 ++ E_open i loc fd :: p2) <= S k)%nat ->
  Z.of_nat n < 2 ^ 31 -> local_ok n l -> w_op l = OP_up_down_flush -> res_ok l out [] -> left_hook l ->
  Forall is_open (p1 ++ E_open i loc fd :: p2) -> call_count (w_tr l) = Z.of_nat (length (p1 ++ E_open i loc fd :: p2)) ->
  (length (p1 ++ E_open i loc fd :: p2) <= n)%nat ->
  goes_to this k (p1 ++ p2) out [] (afr_up_down_flush_open_cbk this e i ret l).
Proof.
  intros n Hw Hn Hok Hop Hres Hh Hf Hcc Hle.
  assert (8 * span n + 1 * span n + length (p1 ++ E_open i loc fd :: p2) <= S k)%nat as Hw1.
  { rewrite <-(base_flush n l Hop). etransitivity; [|exact Hw]. apply Nat.eq_le_incl, eq_sym, open_weight_eq; [done|]. by destruct p1. } unfold afr_up_down_flush_open_cbk. set (l1 := if 0 <=? ret then _ else l).
  assert (exists t, l1 = set_tr t l /\ tr_ok n t /\ same_kind (w_tr l) t /\ post_post_op t = post_post_op (w_tr l) /\
    op_ret t = op_ret (w_tr l) /\ call_count t = call_count (w_tr l)) as (t & -> & Ht & Hk & Hp & Hr & Hc).
  { pose proof (lo_tr _ _ Hok) as Htr. unfold l1. destruct (0 <=? ret); [|exists (w_tr l); by destruct l].
    destruct (fdctx (w_tr l)) as [c|] eqn:Ec; [|exists (w_tr l); by destruct l]. eexists. split; [done|].
    split; [|done]. destruct (to_ctx _ _ Htr c Ec) as [F1 F2 F3]. destruct Htr. split; try done. simpl.
    intros ? [= <-]. split; try done. simpl. by rewrite length_insert. }
  rewrite length_app in Hcc, Hle, Hw1. cbn [length] in Hcc, Hle, Hw1.
  set (t1 := set_call_count (u32 (call_count t - 1)) t).
  assert (call_count t1 = Z.of_nat (length (p1 ++ p2))) as Hc1.
  { unfold t1. simpl. rewrite Hc, Hcc, u32_small, length_app by (unfold is_u32; lia). lia. }
  assert (local_ok n (set_tr t1 l)) as Hok1 by (apply local_ok_set_tr; [done|by apply (tr_ok_same n t)|done|done]).
  assert (res_ok (set_tr t1 l) out []) as Hres1 by (by apply res_ok_set_tr).
  assert (left_hook (set_tr t1 l)) as Hh1 by (unfold left_hook, t1 in *; simpl; by rewrite Hp).
  change (afr_frame_return (set_tr t l)) with (set_tr t1 l). cbn [w_tr set_tr].
  rewrite Hc1. destruct (Z.eqb_spec (Z.of_nat (length (p1 ++ p2))) 0) as [Hz|Hz].
  - assert (p1 ++ p2 = []) as -> by (apply nil_length_inv; lia). apply runs_goes_to.
    apply call_post_post_runs; [unfold n in *; lia|done..].
  - apply Forall_app in Hf as [? [_ ?]%Forall_cons]. assert (Forall is_open (p1 ++ p2)) as Hf by (by apply Forall_app).
    apply stays; [|done..|].
    { etransitivity; [by apply open_weight|]. rewrite (base_flush _ (set_tr t1 l) Hop), length_app. unfold n in *. lia. }
    apply ph_open; try done.
    + by intros E; rewrite E in Hz.
    + rewrite length_app. lia.
Qed.

(** The failures that the callback of an operation notes. *)
Definition notes (op : fop_name) (ret err : Z) : bool :=
  match op with
  | OP_setxattr | OP_removexattr => false
  | OP_rmdir => (ret =? -1) && negb (err =? ENOTEMPTY)
  | _ => ret =? -1
  end.

(** The answer of child [i] is collected. *)
Record collects (n i : nat) (ret err : Z) (l l' : wlocal) : Prop := {
  co_op : w_op l' = w_op l;
  co_fd : w_fd l' = w_fd l;
  co_args : w_args l' = w_args l;
  co_main : w_main_frame l' = w_main_frame l;
  co_ok : tr_ok n (w_tr l) -> tr_ok n (w_tr l');
  co_kind : same_kind (w_tr l) (w_tr l');
  co_hook : post_post_op (w_tr l') = post_post_op (w_tr l);
  co_calls : call_count (w_tr l') = call_count (w_tr l);
  co_fail : ret = -1 -> op_ret (w_tr l') = op_ret (w_tr l) /\ w_success_count l' = w_success_count l;
  co_succ : ret <> -1 ->
    (op_ret (w_tr l') = ret \/ op_ret (w_tr l') = op_ret (w_tr l) /\ w_success_count l <> 0) /\
    (w_success_count l' = u32 (w_success_count l + 1) \/ w_success_count l' = w_success_count l /\ w_success_count l <> 0);
  co_pending : fop_of (w_op l) = GF_FOP_OTHER ->
    pending (w_tr l') = if notes (w_op l) ret err then alter (set_word (l_type (w_tr l)) 0) i (pending (w_tr l))
                        else pending (w_tr l)
}.

(** What a failure that is noted changes. *)
Lemma note_ok n i t : tr_ok n t -> tr_ok n (afr_transaction_fop_failed t i).
Proof.
  intros Hok. pose proof Hok as [H1 H2 H3 H4 (f & H5)]. unfold afr_transaction_fop_failed, __mark_fop_failed_on_fd, __mark_child_dead.
  assert (tr_ok n (set_pending (alter (set_word (l_type t) 0) i (pending t)) t)) as Hd.
  { split; try done. simpl. rewrite H5, rows_alter. by eexists. }
  destruct (l_op t); try done. destruct (fdctx t) as [c|] eqn:Hc; [|done].
  destruct (H3 c eq_refl) as [F1 F2 F3]. destruct Hok. split; try done.
  simpl. intros ? [= <-]. split; try done. simpl. by rewrite length_insert.
Qed.

Lemma note_same t i :
  let t' := afr_transaction_fop_failed t i in
  same_kind t t' /\ post_post_op t' = post_post_op t /\ call_count t' = call_count t /\ op_ret t' = op_ret t /\
  (l_op t = GF_FOP_OTHER -> pending t' = alter (set_word (l_type t) 0) i (pending t)).
Proof.
  cbv zeta. unfold afr_transaction_fop_failed, __mark_fop_failed_on_fd, __mark_child_dead.
  destruct (l_op t) eqn:E; by destruct (fdctx t).
Qed.

Lemma collects_note n i ret err l :
  l_op (w_tr l) = fop_of (w_op l) -> ret = -1 -> notes (w_op l) ret err = true ->
  collects n i ret err l (note_failed i ret l).
Proof.
  intros Ho -> Hn. unfold note_failed. simpl. destruct (note_same (w_tr l) i) as (H1 & H2 & H3 & H4 & H5).
  split; try done; [intros Ht; by apply note_ok|]. intros Hf. rewrite Hn. apply H5. congruence.
Qed.

(** Where failures are not noted, or there is none. *)
Lemma collects_same n i ret err l : ret = -1 -> notes (w_op l) ret err = false -> collects n i ret err l l.
Proof. intros -> Hn. split; try done. intros _. by rewrite Hn. Qed.

(** Fields that do not matter here. *)
Definition alike (l l' : wlocal) : Prop :=
  w_op l' = w_op l /\ w_fd l' = w_fd l /\ w_args l' = w_args l /\ w_main_frame l' = w_main_frame l /\
  w_success_count l' = w_success_count l /\ exists e, w_tr l' = set_op (op_ret (w_tr l)) e (w_tr l).

Lemma collects_alike n i ret err l l1 l2 : collects n i ret err l l1 -> alike l1 l2 -> collects n i ret err l l2.
Proof.
  intros [H1 H2 H3 H4 H5 H6 H7 H8 H9 H10 H11] (A1 & A2 & A3 & A4 & A5 & e & A6).
  split; rewrite ?A1, ?A2, ?A3, ?A4, ?A5, ?A6; simpl; try done.
  intros Ht. by apply (tr_ok_same n (w_tr l1)); [apply H5|..].
Qed.

(** A success: the first one, or any, gives the result. *)
Lemma collects_success n i ret err l l' :
  ret <> -1 -> notes (w_op l) ret err = false ->
  w_op l' = w_op l -> w_fd l' = w_fd l -> w_args l' = w_args l -> w_main_frame l' = w_main_frame l ->
  (exists r e, w_tr l' = set_op r e (w_tr l) /\ (r = ret \/ r = op_ret (w_tr l) /\ w_success_count l <> 0)) ->
  w_success_count l' = u32 (w_success_count l + 1) \/ w_success_count l' = w_success_count l /\ w_success_count l <> 0 ->
  collects n i ret err l l'.
Proof.
  intros Hr Hn H1 H2 H3 H4 (r & e & Ht & Hv) Hs. split; rewrite ?Ht; try done.
  - intros Htr. by apply (tr_ok_same n (w_tr l)).
  - by intros _; rewrite Hn.
Qed.

(** ** What follows *)

Lemma marked_app op f1 f2 : marked op (f1 ++ f2) = marked op f1 ++ marked op f2.
Proof. unfold marked. destruct op; rewrite ?List.filter_app, ?map_app; done. Qed.

Lemma marked_one op i ret err : marked op [(i, (ret, err))] = if notes op ret err then [i] else [].
Proof.
  unfold marked, notes. destruct op; simpl; try done; try (by destruct (ret =? -1)). by destruct (_ && _).
Qed.

Lemma succeeded_app f1 f2 : succeeded (f1 ++ f2) = succeeded f1 || succeeded f2.
Proof. unfold succeeded. apply existsb_app. Qed.

Lemma succeeded_one i ret err : succeeded [(i, (ret, err))] = negb (ret =? -1).
Proof. unfold succeeded. simpl. by rewrite orb_false_r. Qed.

Lemma collects_local n i ret err l l' :
  local_ok n l -> w_op l <> OP_up_down_flush -> collects n i ret err l l' -> local_ok n l'.
Proof.
  intros [H1 H2 H3 H4] Hud [C1 C2 C3 C4 C5 (K1 & K2 & K3) C7 C8 C9 C10 C11]. split.
  - by apply C5.
  - by rewrite K1, C1.
  - unfold args_ok in *. rewrite C1, C2, C3. by destruct (w_op l).
  - unfold hook_ok in *. by rewrite C1, C7.
Qed.

Lemma owes_same l l' : w_op l' = w_op l -> w_main_frame l' = w_main_frame l -> owes l' = owes l.
Proof. intros H1 H2. unfold owes. by rewrite H1, H2. Qed.

Lemma collects_res n i ret err l l' out fops :
  (ret = -1 \/ 0 <= ret) -> w_op l <> OP_up_down_flush -> is_fan_out (w_op l) = false ->
  Z.of_nat (length fops) + 1 < 2 ^ 32 -> (owes l = false -> succeeded fops = true) -> res_ok l out fops ->
  collects n i ret err l l' -> res_ok l' out (fops ++ [(i, (ret, err))]).
Proof.
  intros Hr Hud Hfan Hlen Hpaid [R1 R2 R3] Hc. pose proof (owes_same l l' (co_op _ _ _ _ _ _ Hc) (co_main _ _ _ _ _ _ Hc)) as Ho.
  destruct Hc as [C1 _ _ _ _ _ _ _ C9 C10 _]. destruct (R3 Hud Hfan) as [S1 S2].
  split; rewrite ?Ho, ?C1, succeeded_app, succeeded_one, ?length_app.
  - intros Hw. destruct (R1 Hw) as [E1 E2]. split; [done|]. destruct (Z.eqb_spec ret (-1)) as [Er|Er]; simpl.
    + rewrite orb_false_r. destruct (C9 Er) as [-> _]. done.
    + rewrite orb_true_r. destruct (C10 Er) as [[->|[-> Hnz]] _]; [split; [lia|done]|]. split; [|done].
      rewrite E2, <-S2. lia.
  - intros Hw. destruct (R2 Hw) as (x & E1 & E2). exists x. split; [done|].
    rewrite (Hpaid Hw) in *. simpl. done.
  - intros _ _. cbn [length]. destruct (Z.eqb_spec ret (-1)) as [Er|Er]; simpl.
    + rewrite orb_false_r. destruct (C9 Er) as [_ ->]. split; [lia|done].
    + rewrite orb_true_r. destruct (C10 Er) as [_ Hs]. rewrite u32_small in Hs by (unfold is_u32; lia).
      split; [lia|]. split; [lia|done].
Qed.

Lemma collects_marks n i ret err l l' fops :
  fop_marks n l fops -> is_fan_out (w_op l) = false -> collects n i ret err l l' ->
  fop_marks n l' (fops ++ [(i, (ret, err))]).
Proof.
  intros Hm Hfan [C1 _ _ _ _ (K1 & K2 & K3) _ _ _ _ C11] Hf _. rewrite C1 in *. specialize (Hm Hf Hfan).
  rewrite (C11 Hf), Hm, marked_app, marked_one. unfold mark_rows. rewrite K2.
  destruct (notes (w_op l) ret err); [|by rewrite app_nil_r]. rewrite rows_alter. apply rows_ext. intros j _.
  destruct (decide (j = i)) as [->|Hne].
  - rewrite decide_True; [done|]. apply elem_of_app. right. by apply list_elem_of_singleton.
  - destruct (decide (j ∈ marked (w_op l) fops)) as [Hj|Hj].
    + rewrite decide_True; [done|]. apply elem_of_app. by left.
    + rewrite decide_False; [done|]. rewrite elem_of_app, list_elem_of_singleton. naive_solver.
Qed.

(** ** Finishing *)

(** An operation with a transaction, between answers. *)
Record ready (n : nat) (l : wlocal) (out : list event) (fops : list (nat * (Z * Z))) : Prop := {
  rd_local : local_ok n l;
  rd_res : res_ok l out fops;
  rd_op : w_op l <> OP_up_down_flush;
  rd_fan : is_fan_out (w_op l) = false;
  rd_marks : fop_marks n l fops
}.

Lemma collects_ready n i ret err l l' out fops :
  (ret = -1 \/ 0 <= ret) -> Z.of_nat (length fops) + 1 < 2 ^ 32 -> (owes l = false -> succeeded fops = true) ->
  ready n l out fops -> collects n i ret err l l' -> ready n l' out (fops ++ [(i, (ret, err))]).
Proof.
  intros Hr Hl Hp [R1 R2 R3 R4 R5] Hc. pose proof (co_op _ _ _ _ _ _ Hc) as Eo. split; rewrite ?Eo; try done.
  - by eapply collects_local.
  - by eapply collects_res.
  - by apply (collects_marks n i ret err l).
Qed.

(** The caller is answered. *)
Lemma answers_ready n l r out fops :
  ready n l out fops -> w_op l <> OP_setdents -> answers l r -> ready n r.1 (out ++ outs r.2) fops.
Proof.
  intros [R1 R2 R3 R4 R5] Hs [A1 A2 A3 A4 A5 A6 A7 A8 A9].
  assert (forall l0, w_op l0 = w_op l -> owes l0 = w_main_frame l0) as Ho.
  { intros l0 E. unfold owes. rewrite E. by destruct (w_op l). }
  split; rewrite ?A5; try done.
  - destruct R1 as [L1 L2 L3 L4]. split; rewrite ?A4, ?A5; try done.
    + unfold args_ok in *. by rewrite A5, A7, A8, A6, A4, A9.
    + unfold hook_ok in *. by rewrite A5, A4.
  - split; rewrite ?Ho, ?A3 by done; [done| |by rewrite A9, A5; apply R2].
    intros _. rewrite rets_app, rets_outs, A2. destruct (w_main_frame l) eqn:Hm.
    + destruct (ro_owed _ _ _ R2) as [E1 E2]; [by rewrite Ho|]. exists (op_ret (w_tr l)). by rewrite E1.
    + destruct (ro_paid _ _ _ R2) as (x & E1 & E2); [by rewrite Ho|]. exists x. by rewrite E1.
  - unfold fop_marks, mark_rows in *. by rewrite A5, A4.
Qed.

(** The calls that are still to be answered, one less than counted. *)
Definition waits (n : nat) (l : wlocal) (rest : list event) (fops : list (nat * (Z * Z))) : Prop :=
  Z.of_nat n < 2 ^ 31 /\ Forall is_wind rest /\ call_count (w_tr l) = Z.of_nat (S (length rest)) /\
  (length rest + length fops <= n)%nat.

Lemma waits_same n l l' rest fops :
  waits n l rest fops -> call_count (w_tr l') = call_count (w_tr l) -> waits n l' rest fops.
Proof. unfold waits. by intros (? & ? & ? & ?) ->. Qed.

Lemma waits_count n l rest fops :
  waits n l rest fops -> call_count (w_tr (afr_frame_return l)) = Z.of_nat (length rest).
Proof. intros (H1 & _ & H2 & H3). simpl. rewrite H2, u32_small by (unfold is_u32; lia). lia. Qed.

Lemma return_ready n l out fops : ready n l out fops -> ready n (afr_frame_return l) out fops.
Proof.
  intros [R1 R2 R3 R4 R5]. split; try done.
  - by apply local_ok_set_tr; [|apply (tr_ok_same n (w_tr l)); [apply R1|..]|..].
  - by apply res_ok_set_tr.
Qed.

Lemma ready_resume this k l out fops :
  let n := child_count (xl_priv this) in (4 * span n <= k)%nat -> ready n l out fops -> runs this k out fops (resume this l).
Proof. intros n Hk [R1 R2 R3 R4 R5]. by apply (resume_runs this k n). Qed.

Lemma goes_events this k rest out fops ev l :
  calls ev = [] -> (goes_to this k rest (out ++ outs ev) fops (Some (Some l, []))) ->
  goes_to this k rest out fops (Some (Some l, ev)).
Proof.
  intros Hc (l1 & ev1 & [= <- <-] & Hi). do 2 eexists. split; [done|].
  simpl in Hi. rewrite !app_nil_r in Hi. by rewrite Hc, app_nil_r.
Qed.

Lemma ready_stays this k l rest out fops :
  let n := child_count (xl_priv this) in (4 * span n + length rest <= k)%nat ->
  ready n l out fops -> waits n l rest fops -> rest <> [] -> (owes l = false -> succeeded fops = true) ->
  goes_to this k rest out fops (Some (Some (afr_frame_return l), [])).
Proof.
  intros n Hk Hr Hw Hne Hp. pose proof (waits_count _ _ _ _ Hw) as Hc. destruct Hw as (_ & W2 & _ & W4).
  destruct (return_ready _ _ _ _ Hr) as [R1 R2 R3 R4 R5]. apply stays; [|done..| |].
  - eapply Nat.le_trans; [by apply wind_weight|]. rewrite (base_main _ _ R3). unfold n in *. lia.
  - by intros ?.
  - by apply ph_fop.
Qed.

Lemma rest_nil n l rest fops :
  waits n l rest fops -> (call_count (w_tr (afr_frame_return l)) =? 0) = true -> rest = [].
Proof. intros Hw Hz%Z.eqb_eq. rewrite (waits_count _ _ _ _ Hw) in Hz. apply nil_length_inv. lia. Qed.

Lemma rest_cons n l rest fops :
  waits n l rest fops -> (call_count (w_tr (afr_frame_return l)) =? 0) = false -> rest <> [].
Proof. intros Hw Hz%Z.eqb_neq ->. rewrite (waits_count _ _ _ _ Hw) in Hz. done. Qed.

Lemma finish_goes_to this k l rest out ev fops :
  let n := child_count (xl_priv this) in (4 * span n + length rest <= k)%nat ->
  ready n l (out ++ outs ev) fops -> calls ev = [] -> waits n l rest fops -> (owes l = false -> succeeded fops = true) ->
  goes_to this k rest out fops (finish this l ev).
Proof.
  intros n Hk Hr Hc Hw Hp. unfold finish. destruct (_ =? 0) eqn:Hz.
  - pose proof (rest_nil _ _ _ _ Hw Hz) as E0. rewrite E0. apply runs_goes_to, runs_events; [done|]. apply ready_resume; [rewrite E0 in Hk; simpl in Hk; unfold n in *; lia|by apply return_ready].
  - apply goes_events; [done|]. apply ready_stays; try done. by apply (rest_cons _ _ _ _ Hw).
Qed.

Lemma finish_unwind_goes_to this k unwind l rest out fops :
  let n := child_count (xl_priv this) in (4 * span n + length rest <= k)%nat ->
  (forall l, answers l (unwind l)) -> w_op l <> OP_setdents ->
  ready n l out fops -> waits n l rest fops -> (owes l = false -> succeeded fops = true) ->
  goes_to this k rest out fops (finish_unwind this unwind l).
Proof.
  intros n Hk Hu Hs Hr Hw Hp. unfold finish_unwind. destruct (_ =? 0) eqn:Hz.
  - pose proof (rest_nil _ _ _ _ Hw Hz) as E0. rewrite E0. apply runs_goes_to.
    pose proof (answers_ready n _ _ _ _ (return_ready _ _ _ _ Hr) Hs (Hu _)) as Ha.
    pose proof (aw_calls _ _ (Hu (afr_frame_return l))) as Hc. destruct (unwind (afr_frame_return l)) as [l1 ev].
    apply runs_events; [done|]. apply ready_resume; [rewrite E0 in Hk; simpl in Hk; unfold n in *; lia|done].
  - apply ready_stays; try done. by apply (rest_cons _ _ _ _ Hw).
Qed.

(** The caller may be answered before all children have. *)
Lemma early_goes_to this k need unwind l rest out fops :
  let n := child_count (xl_priv this) in (4 * span n + length rest <= k)%nat ->
  (forall l, answers l (unwind l)) -> w_op l <> OP_setdents -> (need = true -> succeeded fops = true) ->
  ready n l out fops -> waits n l rest fops -> (owes l = false -> succeeded fops = true) ->
  goes_to this k rest out fops (let '(l, ev) := early_unwind need unwind l in finish this l ev).
Proof.
  intros n Hk Hu Hs Hn Hr Hw Hp. unfold early_unwind. destruct need; [|by apply finish_goes_to; rewrite ?app_nil_r].
  pose proof (answers_ready n _ _ _ _ Hr Hs (Hu _)) as Ha. pose proof (Hu l) as [A1 _ _ A4 _ _ _ _ _].
  destruct (unwind l) as [l1 ev]. apply finish_goes_to; [done|done|done| |by intros _; apply Hn].
  apply (waits_same _ l); [done|]. simpl in A4. by rewrite A4.
Qed.

(** ** The callbacks *)

Lemma alike_if (b : bool) (l l' : wlocal) : alike l l' -> alike l (if b then l' else l).
Proof. destruct b; [done|]. intros _. unfold alike. split_and!; try done. exists (op_errno (w_tr l)). by destruct (w_tr l). Qed.

Lemma alike_returned (b : bool) l : alike l (if b then set_read_child_returned true l else l).
Proof. apply alike_if. split_and!; try done. exists (op_errno (w_tr l)). by destruct l as [[]]. Qed.

(** An answer after an update that does not matter. *)
Lemma alike_collects n i ret err l l1 l2 : alike l l1 -> collects n i ret err l1 l2 -> collects n i ret err l l2.
Proof.
  intros (A1 & A2 & A3 & A4 & A5 & e & A6) [H1 H2 H3 H4 H5 H6 H7 H8 H9 H10 H11].
  rewrite A1, A2, A3, A4, A5, A6 in *. split; try done. intros Ht. apply H5. by apply (tr_ok_same n (w_tr l)).
Qed.

Lemma alike_errno e l : alike l (set_errno e l).
Proof. split_and!; try done. by exists e. Qed.

(** A failure that is noted, and one that is not. *)
Lemma collects_failure n i err l :
  l_op (w_tr l) = fop_of (w_op l) -> notes (w_op l) (-1) err = true ->
  collects n i (-1) err l (set_errno err (note_failed i (-1) l)).
Proof. intros H1 H2. eapply collects_alike; [by apply collects_note|apply alike_errno]. Qed.

Lemma collect_pair_collects n this rc i ret err p l :
  l_op (w_tr l) = fop_of (w_op l) -> notes (w_op l) ret err = (ret =? -1) ->
  (ret <> -1 -> exists pre post, p = P_pair pre post) ->
  exists l' need, collect_pair this rc i ret err p l = Some (l', need) /\ collects n i ret err l l' /\ (need = true -> ret <> -1).
Proof.
  intros Ho Hn Hp. unfold collect_pair. set (l1 := if Z.of_nat i =? rc then _ else l).
  pose proof (alike_returned (Z.of_nat i =? rc) l) as Ha. fold l1 in Ha.
  assert (w_op l1 = w_op l /\ l_op (w_tr l1) = l_op (w_tr l)) as [E1 E2] by (by unfold l1; destruct (Z.of_nat i =? rc)).
  destruct (Z.eqb_spec ret (-1)) as [->|Hr]; simpl.
  - eexists _, false. split; [done|]. split; [|done]. eapply alike_collects; [done|].
    apply collects_failure; rewrite ?E1, ?E2; done.
  - destruct (Hp Hr) as (pre & post & ->). do 2 eexists. split; [done|]. split; [|done].
    eapply alike_collects; [done|]. unfold note_failed. rewrite (proj2 (Z.eqb_neq ret (-1)) Hr).
    apply collects_success; rewrite ?E1; try done; clear Ha;
      destruct (Z.eqb_spec (w_success_count l1) 0) as [Hz|Hz], (Z.of_nat i =? rc); try done; try (by left);
      do 2 eexists; (split; [done|]); try (by left); by right.
Qed.

Lemma collect_plain_collects n i this ret err l :
  notes (w_op l) ret err = false ->
  collects n i ret err l (collect_plain this ret err l).1 /\ ((collect_plain this ret err l).2 = true -> ret <> -1).
Proof.
  intros Hn. unfold collect_plain. destruct (Z.eqb_spec ret (-1)) as [->|Hr]; simpl.
  - split; [|done]. eapply collects_alike; [by apply collects_same|apply alike_errno].
  - split; [|done]. apply collects_success; try done;
      destruct (Z.eqb_spec (w_success_count l) 0) as [Hz|Hz]; try done; try (by left);
      do 2 eexists; (split; [done|]); try (by left); by right.
Qed.

Lemma collect_flush_collects n i this ret err l :
  l_op (w_tr l) = fop_of (w_op l) -> notes (w_op l) ret err = (ret =? -1) ->
  let r := collect_plain this ret err (note_failed i ret l) in
  collects n i ret err l r.1 /\ (r.2 = true -> ret <> -1).
Proof.
  intros Ho Hn. cbv zeta. destruct (Z.eqb_spec ret (-1)) as [->|Hr].
  - unfold collect_plain. simpl. split; [by apply collects_failure|done].
  - assert (note_failed i ret l = l) as -> by (unfold note_failed; by rewrite (proj2 (Z.eqb_neq ret (-1)) Hr)).
    by apply collect_plain_collects.
Qed.

(** An entry is collected: only the stats differ, and a success is counted. *)
Lemma collect_entry_same this own i inode buf pre post l :
  let r := collect_entry this own i inode buf pre post l in
  w_op r.1 = w_op l /\ w_fd r.1 = w_fd l /\ w_args r.1 = w_args l /\ w_main_frame r.1 = w_main_frame l /\
  w_tr r.1 = w_tr l /\ w_success_count r.1 = u32 (w_success_count l + 1) /\ calls r.2 = [] /\ rets r.2 = [].
Proof.
  cbv zeta. unfold collect_entry, take_ino.
  destruct (w_success_count l =? 0), own; simpl; repeat case_match; done.
Qed.

Lemma entry_collects n this own i ret err inode buf pre post l l1 :
  ret <> -1 -> notes (w_op l) ret err = false ->
  w_op l1 = w_op l -> w_fd l1 = w_fd l -> w_args l1 = w_args l -> w_main_frame l1 = w_main_frame l ->
  w_tr l1 = w_tr (set_ret ret l) -> w_success_count l1 = w_success_count l ->
  let r := collect_entry this own i inode buf pre post l1 in
  collects n i ret err l (set_errno err r.1) /\ calls r.2 = [] /\ rets r.2 = [].
Proof.
  intros Hr Hn A1 A2 A3 A4 A5 A6 r.
  destruct (collect_entry_same this own i inode buf pre post l1) as (B1 & B2 & B3 & B4 & B5 & B6 & B7 & B8). fold r in B1, B2, B3, B4, B5, B6, B7, B8.
  split; [|done]. apply collects_success; simpl; try congruence.
  - exists ret, err. rewrite B5, A5. split; [done|]. by left.
  - left. congruence.
Qed.

Lemma collect_parents_collects n rc i ret err p l l1 :
  (ret <> -1 -> exists pre post, p = P_pair pre post) ->
  (ret = -1 -> collects n i ret err l l1) -> (ret <> -1 -> alike l l1) -> (ret <> -1 -> notes (w_op l) ret err = false) ->
  exists l', collect_parents rc i ret err p l1 = Some l' /\ collects n i ret err l l'.
Proof.
  intros Hp Hf Hs Hn. unfold collect_parents. destruct (Z.eqb_spec ret (-1)) as [Er|Er]; simpl.
  - eexists. split; [done|]. eapply collects_alike; [by apply Hf|apply alike_errno].
  - destruct (Hp Er) as (pre & post & ->). eexists. split; [done|]. specialize (Hs Er).
    eapply alike_collects; [done|]. destruct Hs as (A1 & _). apply collects_success; try done; [by rewrite A1; apply Hn|..];
      destruct (Z.eqb_spec (w_success_count l1) 0) as [Hz|Hz], (Z.of_nat i =? rc); try done; try (by left);
      do 2 eexists; (split; [done|]); try (by left); by right.
Qed.

Lemma finish_entry_goes_to this k unwind l ev rest out fops :
  let n := child_count (xl_priv this) in (4 * span n + length rest <= k)%nat ->
  (forall l, answers l (unwind l)) -> w_op l <> OP_setdents -> calls ev = [] -> rets ev = [] ->
  ready n l out fops -> waits n l rest fops -> (owes l = false -> succeeded fops = true) ->
  goes_to this k rest out fops (finish_entry this unwind (l, ev)).
Proof.
  intros n Hk Hu Hs Hc He Hr Hw Hp. unfold finish_entry.
  assert (ready n l (out ++ outs ev) fops) as Hr1.
  { destruct Hr as [R1 [S1 S2 S3] R3 R4 R5]. split; try done. by split; rewrite ?rets_app, ?rets_outs, ?He, ?app_nil_r. }
  destruct (finish_unwind_goes_to this k unwind l rest (out ++ outs ev) fops) as (l' & ev' & E & Hi & Hwt); try done.
  simpl. rewrite E. simpl. do 2 eexists. split; [done|]. by rewrite calls_app, outs_app, Hc, app_nil_l, app_assoc.
Qed.

(** ** Every callback *)

(** What an answer finds. *)
Record asked (this : afr_xl) (k : nat) (l : wlocal) (i : nat) (ret err : Z) (rest out : list event)
    (fops : list (nat * (Z * Z))) : Prop := {
  ak_ready : ready (child_count (xl_priv this)) l out fops;
  ak_waits : waits (child_count (xl_priv this)) l rest (fops ++ [(i, (ret, err))]);
  ak_paid : owes l = false -> succeeded fops = true;
  ak_ret : ret = -1 \/ 0 <= ret;
  ak_weight : (4 * span (child_count (xl_priv this)) + length rest <= k)%nat
}.

Lemma asked_next this k l l' i ret err rest out fops :
  asked this k l i ret err rest out fops -> collects (child_count (xl_priv this)) i ret err l l' ->
  ready (child_count (xl_priv this)) l' out (fops ++ [(i, (ret, err))]) /\
  waits (child_count (xl_priv this)) l' rest (fops ++ [(i, (ret, err))]) /\
  (owes l' = false -> succeeded (fops ++ [(i, (ret, err))]) = true) /\
  (ret <> -1 -> succeeded (fops ++ [(i, (ret, err))]) = true).
Proof.
  intros [H1 H2 H3 H4 _] Hc. split_and!.
  - apply (collects_ready _ i ret err l); try done. destruct H2 as (W1 & _ & _ & W4). rewrite length_app in W4. cbn [length] in W4. lia.
  - apply (waits_same _ l); [done|]. apply Hc.
  - rewrite (owes_same l l' (co_op _ _ _ _ _ _ Hc) (co_main _ _ _ _ _ _ Hc)), succeeded_app. intros Ho. by rewrite H3.
  - intros Hr. rewrite succeeded_app, succeeded_one, (proj2 (Z.eqb_neq ret (-1)) Hr). apply orb_true_r.
Qed.

(** The three ways in which a callback goes on. *)
Lemma asked_unwind this k unwind l l' i ret err rest out fops :
  asked this k l i ret err rest out fops -> collects (child_count (xl_priv this)) i ret err l l' ->
  (forall l, answers l (unwind l)) -> w_op l <> OP_setdents ->
  goes_to this k rest out (fops ++ [(i, (ret, err))]) (finish_unwind this unwind l').
Proof.
  intros Ha Hc Hu Hs. destruct (asked_next _ _ _ _ _ _ _ _ _ _ Ha Hc) as (N1 & N2 & N3 & _).
  apply finish_unwind_goes_to; try done; [apply Ha|]. by rewrite (co_op _ _ _ _ _ _ Hc).
Qed.

Lemma asked_early this k need unwind l l' i ret err rest out fops :
  asked this k l i ret err rest out fops -> collects (child_count (xl_priv this)) i ret err l l' ->
  (forall l, answers l (unwind l)) -> w_op l <> OP_setdents -> (need = true -> ret <> -1) ->
  goes_to this k rest out (fops ++ [(i, (ret, err))])
    (let '(l, ev) := early_unwind need unwind l' in finish this l ev).
Proof.
  intros Ha Hc Hu Hs Hn. destruct (asked_next _ _ _ _ _ _ _ _ _ _ Ha Hc) as (N1 & N2 & N3 & N4).
  apply early_goes_to; try done; [apply Ha|by rewrite (co_op _ _ _ _ _ _ Hc)|auto].
Qed.

Lemma asked_entry this k unwind l l' ev i ret err rest out fops :
  asked this k l i ret err rest out fops -> collects (child_count (xl_priv this)) i ret err l l' ->
  (forall l, answers l (unwind l)) -> w_op l <> OP_setdents -> calls ev = [] -> rets ev = [] ->
  goes_to this k rest out (fops ++ [(i, (ret, err))]) (finish_entry this unwind (l', ev)).
Proof.
  intros Ha Hc Hu Hs He1 He2. destruct (asked_next _ _ _ _ _ _ _ _ _ _ Ha Hc) as (N1 & N2 & N3 & _).
  apply finish_entry_goes_to; try done; [apply Ha|]. by rewrite (co_op _ _ _ _ _ _ Hc).
Qed.
