(* ===== verification/AfrBegin.v ===== *)
(** * cluster/afr: the callback of every operation, and how operations begin

    The answers of children to an operation keep the invariant, and so does
    every answer and every change of the context of the fd.  Every request starts an
    operation that the invariant describes, or is refused at once. *)

From stdpp Require Import base list numbers strings gmap relations.
From S2P Require Import Prelude ByteOrder AfrPending AfrTransaction AfrFacts AfrFops AfrCalls AfrInodeWrite AfrDirWrite AfrFanout.
From S2P Require Import AfrOps AfrTransFacts AfrSystem AfrSteps AfrCollect.
Open Scope Z_scope.

Section callback.
Context (this : afr_xl) (k : nat) (e : env) (l : wlocal) (i : nat) (ret err : Z) (p : payload).
Context (rest out : list event) (fops : list (nat * (Z * Z))).
Context (Ha : asked this k l i ret err rest out fops) (Hp : ret <> -1 -> payload_ok (w_op l) p) (He : e_alloc e = true).

Abbreviation goes := (goes_to this k rest out (fops ++ [(i, (ret, err))])).

Lemma asked_fop : l_op (w_tr l) = fop_of (w_op l).
Proof using Ha. apply Ha. Qed.

Lemma asked_args : args_ok l.
Proof using Ha. apply Ha. Qed.

(** The operations answered with two [struct stat]. *)
Lemma pair_early rc unwind :
  notes (w_op l) ret err = (ret =? -1) -> (ret <> -1 -> exists pre post, p = P_pair pre post) ->
  (forall l, answers l (unwind l)) -> w_op l <> OP_setdents ->
  goes ('(l, need) ← collect_pair this rc i ret err p l; let '(l, ev) := early_unwind need unwind l in finish this l ev).
Proof using Ha.
  intros Hn Hpp Hu Hs.
  destruct (collect_pair_collects (child_count (xl_priv this)) this rc i ret err p l asked_fop Hn Hpp) as (l' & need & E & Hc & Hne).
  rewrite E. simpl. by apply (asked_early this k need unwind l).
Qed.

Lemma writev_goes : w_op l = OP_writev -> goes (afr_writev_wind_cbk this e i ret err p l).
Proof using Ha Hp.
  intros Hop. pose proof asked_args as Hargs. unfold args_ok in Hargs. rewrite Hop in *. destruct Hargs as [[fd Hfd] _].
  unfold afr_writev_wind_cbk, fd_ctx. rewrite Hfd. simpl.
  destruct (collect_pair_collects (child_count (xl_priv this)) this (i32 (afr_read_child (e_ctx e))) i ret err p l asked_fop)
    as (l' & need & E & Hc & _); [by rewrite Hop|done|].
  rewrite E. simpl. apply (asked_unwind this k _ l); [done..|intros ?; apply unwind_main_answers|by rewrite Hop].
Qed.

Lemma ftruncate_goes : w_op l = OP_ftruncate -> goes (afr_ftruncate_wind_cbk this e i ret err p l).
Proof using Ha Hp.
  intros Hop. pose proof asked_args as Hargs. unfold args_ok in Hargs. rewrite Hop in *. destruct Hargs as [[fd Hfd] _].
  unfold afr_ftruncate_wind_cbk, fd_ctx. rewrite Hfd. simpl.
  apply pair_early; rewrite ?Hop; [done..|intros ?; apply unwind_main_answers|done].
Qed.

Lemma plain_goes unwind :
  w_op l = OP_setxattr \/ w_op l = OP_removexattr -> (forall l, answers l (unwind l)) ->
  goes (let '(l, need) := collect_plain this ret err l in let '(l, ev) := early_unwind need unwind l in finish this l ev).
Proof using Ha.
  intros Hop Hu. destruct (collect_plain_collects (child_count (xl_priv this)) i this ret err l) as [Hc Hn].
  { by destruct Hop as [-> | ->]. }
  destruct (collect_plain this ret err l) as [l' need]. apply (asked_early this k need unwind l); try done.
  by destruct Hop as [-> | ->].
Qed.

Lemma flush_goes : w_op l = OP_flush -> goes (afr_flush_wind_cbk this i ret err l).
Proof using Ha.
  intros Hop. unfold afr_flush_wind_cbk.
  destruct (collect_flush_collects (child_count (xl_priv this)) i this ret err l asked_fop) as [Hc Hn]; [by rewrite Hop|].
  destruct (collect_plain _ _ _ _) as [l' need]. apply (asked_early this k need _ l); try done; [|by rewrite Hop].
  intros ?; apply unwind_main_answers.
Qed.

(** The operations that make an entry. *)
Lemma entry_goes own unwind :
  notes (w_op l) ret err = (ret =? -1) -> (ret <> -1 -> exists ino b pre post, p = P_entry ino b pre post) ->
  (forall l, answers l (unwind l)) -> w_op l <> OP_setdents -> goes (entry_cbk this own unwind i ret err p l).
Proof using Ha Hp.
  intros Hn Hpp Hu Hs. unfold entry_cbk. destruct (Z.eqb_spec ret (-1)) as [Hr|Hr].
  - assert (collects (child_count (xl_priv this)) i ret err l (set_errno err (note_failed i ret l))) as Hc
      by (rewrite Hr; apply collects_failure; [apply asked_fop|by rewrite <-Hr]).
    simpl. by apply (asked_entry this k unwind l).
  - destruct (Hpp Hr) as (ino & b & pre & post & ->). simpl. unfold note_failed.
    rewrite (proj2 (Z.eqb_neq ret (-1)) Hr).
    destruct (entry_collects (child_count (xl_priv this)) this own i ret err ino b pre post l (set_ret ret l)) as (Hc & E1 & E2);
      [done..|].
    destruct (collect_entry _ _ _ _ _ _ _ _) as [l' ev]. by apply (asked_entry this k unwind l).
Qed.

Lemma create_goes : w_op l = OP_create -> goes (afr_create_wind_cbk this e i ret err p l).
Proof using Ha Hp He.
  intros Hop. rewrite Hop in Hp. unfold afr_create_wind_cbk. destruct (Z.eqb_spec ret (-1)) as [Hr|Hr].
  - assert (collects (child_count (xl_priv this)) i ret err l (set_errno err (note_failed i ret l))) as Hc
      by (rewrite Hr; apply collects_failure; [apply asked_fop|by rewrite Hop]).
    simpl. apply (asked_entry this k _ l); try done; [|by rewrite Hop]. intros ?; apply unwind_main_answers.
  - destruct (Hp Hr) as (fd & ino & b & pre & post & ->). simpl. unfold note_failed.
    rewrite (proj2 (Z.eqb_neq ret (-1)) Hr).
    assert (exists o, opened_on_child this (e_alloc e) i (set_ret ret l) = Some (set_opened_on o (set_ret ret l))) as [o ->].
    { unfold opened_on_child. rewrite He. destruct (w_opened_on _); by eexists. }
    simpl.
    destruct (entry_collects (child_count (xl_priv this)) this true i ret err ino b pre post l (set_opened_on o (set_ret ret l)))
      as (Hc & E1 & E2); [done|by rewrite Hop; simpl; apply Z.eqb_neq|done..|].
    destruct (collect_entry _ _ _ _ _ _ _ _) as [l' ev]. apply (asked_entry this k _ l); try done; [|by rewrite Hop].
    intros ?; apply unwind_main_answers.
Qed.

Lemma rename_goes : w_op l = OP_rename -> goes (afr_rename_wind_cbk this i ret err p l).
Proof using Ha Hp.
  intros Hop. rewrite Hop in Hp. unfold afr_rename_wind_cbk. destruct (Z.eqb_spec ret (-1)) as [Hr|Hr].
  - assert (collects (child_count (xl_priv this)) i ret err l (set_errno err (note_failed i ret l))) as Hc
      by (rewrite Hr; apply collects_failure; [apply asked_fop|by rewrite Hop]).
    simpl. apply (asked_unwind this k _ l); try done; [|by rewrite Hop]. intros ?; apply unwind_main_answers.
  - destruct (Hp Hr) as (b & p1 & q1 & p2 & q2 & ->). simpl. unfold note_failed.
    rewrite (proj2 (Z.eqb_neq ret (-1)) Hr). 
    apply (asked_unwind this k _ l); [done| |intros ?; apply unwind_main_answers|by rewrite Hop].
    apply collects_success; [done|by rewrite Hop; simpl; apply Z.eqb_neq|..];
      destruct (Z.eqb_spec (w_success_count l) 0), (Z.of_nat i =? _); simpl; auto; do 2 eexists; (split; [done|]); auto.
Qed.

Lemma parents_goes rc unwind l1 :
  (ret <> -1 -> exists pre post, p = P_pair pre post) ->
  (ret = -1 -> collects (child_count (xl_priv this)) i ret err l l1) -> (ret <> -1 -> alike l l1) ->
  (ret <> -1 -> notes (w_op l) ret err = false) -> (forall l, answers l (unwind l)) -> w_op l <> OP_setdents ->
  goes (l ← collect_parents rc i ret err p l1; finish_unwind this unwind l).
Proof using Ha.
  intros Hpp H1 H2 H3 Hu Hs.
  destruct (collect_parents_collects (child_count (xl_priv this)) rc i ret err p l l1 Hpp H1 H2 H3) as (l' & -> & Hc).
  simpl. by apply (asked_unwind this k unwind l).
Qed.

Lemma unlink_goes : w_op l = OP_unlink -> goes (afr_unlink_wind_cbk this i ret err p l).
Proof using Ha Hp.
  intros Hop. rewrite Hop in Hp. unfold afr_unlink_wind_cbk. set (l1 := if Z.of_nat i =? _ then _ else l).
  pose proof (alike_returned (Z.of_nat i =? w_read_child_index l) l) as Hal. fold l1 in Hal.
  assert (w_op l1 = w_op l /\ l_op (w_tr l1) = l_op (w_tr l)) as [E1 E2] by (by unfold l1; destruct (Z.of_nat i =? _)).
  apply parents_goes; [done|..]; rewrite ?Hop; [| | |intros ?; apply unwind_main_answers|done].
  - intros Hr. eapply alike_collects; [done|]. apply collects_note; [|done|by rewrite E1, Hop; simpl; apply Z.eqb_eq].
    rewrite E1, E2. apply asked_fop.
  - intros Hr. unfold note_failed. by rewrite (proj2 (Z.eqb_neq ret (-1)) Hr).
  - intros Hr. by apply Z.eqb_neq.
Qed.

Lemma rmdir_goes : w_op l = OP_rmdir -> goes (afr_rmdir_wind_cbk this e i ret err p l).
Proof using Ha Hp.
  intros Hop. rewrite Hop in Hp. unfold afr_rmdir_wind_cbk. set (rc := i32 _). set (l1 := if Z.of_nat i =? _ then _ else l).
  pose proof (alike_returned (Z.of_nat i =? rc) l) as Hal. fold l1 in Hal.
  assert (w_op l1 = w_op l /\ l_op (w_tr l1) = l_op (w_tr l)) as [E1 E2] by (by unfold l1; destruct (Z.of_nat i =? rc)).
  apply parents_goes; [done|..]; rewrite ?Hop; [| | |intros ?; apply unwind_main_answers|done].
  - intros Hr. eapply alike_collects; [done|]. destruct (Z.eqb_spec err ENOTEMPTY) as [Hee|Hee].
    + apply collects_same; [done|]. rewrite E1, Hop, Hee, Hr. done.
    + apply collects_note; [rewrite E1, E2; apply asked_fop|done|]. rewrite E1, Hop, Hr. simpl.
      by rewrite (proj2 (Z.eqb_neq _ _) Hee).
  - intros Hr. unfold note_failed. rewrite (proj2 (Z.eqb_neq ret (-1)) Hr). by destruct (err =? _).
  - intros Hr. simpl. by rewrite (proj2 (Z.eqb_neq ret (-1)) Hr).
Qed.

Lemma setdents_goes : w_op l = OP_setdents -> goes (afr_setdents_wind_cbk this i ret err l).
Proof using Ha.
  intros Hop. unfold afr_setdents_wind_cbk. set (l1 := if negb _ && _ then _ else _).
  assert (collects (child_count (xl_priv this)) i ret err l (set_errno err l1)) as Hc.
  { unfold l1. destruct (Z.eqb_spec ret (-1)) as [Hr|Hr].
    - simpl. rewrite Hr. apply collects_failure; [apply asked_fop|by rewrite Hop].
    - unfold note_failed. rewrite (proj2 (Z.eqb_neq ret (-1)) Hr). cbn [negb andb].
      apply collects_success; [done|by rewrite Hop; simpl; apply Z.eqb_neq|..];
        destruct (Z.eqb_spec (w_success_count l) 0); simpl; auto; do 2 eexists; (split; [done|]); auto. }
  destruct (asked_next _ _ _ _ _ _ _ _ _ _ Ha Hc) as (N1 & N2 & N3 & _).
  apply finish_goes_to; rewrite ?app_nil_r; [apply Ha|done..].
Qed.

Lemma fop_goes : is_fan_out (w_op l) = false -> w_op l <> OP_up_down_flush -> goes (fop_cbk this e i ret err p l).
Proof using Ha Hp He.
  intros Hfan Hud. unfold fop_cbk. destruct (w_op l) eqn:Hop in |- *; rewrite ?Hop in Hfan, Hud; try done.
  - by apply writev_goes.
  - apply pair_early; rewrite ?Hop; [done|by rewrite Hop in Hp|intros ?; apply unwind_main_answers|done].
  - by apply ftruncate_goes.
  - apply pair_early; rewrite ?Hop; [done|by rewrite Hop in Hp|intros ?; apply unwind_main_answers|done].
  - apply pair_early; rewrite ?Hop; [done|by rewrite Hop in Hp|intros ?; apply unwind_main_answers|done].
  - apply plain_goes; [by left|intros ?; apply unwind_main_answers].
  - apply plain_goes; [by right|intros ?; apply unwind_main_answers].
  - by apply create_goes.
  - apply entry_goes; rewrite ?Hop; [done|by rewrite Hop in Hp|intros ?; apply unwind_main_answers|done].
  - apply entry_goes; rewrite ?Hop; [done|by rewrite Hop in Hp|intros ?; apply unwind_main_answers|done].
  - apply entry_goes; rewrite ?Hop; [done|by rewrite Hop in Hp|intros ?; apply unwind_main_answers|done].
  - apply entry_goes; rewrite ?Hop; [done|by rewrite Hop in Hp|intros ?; apply unwind_main_answers|done].
  - by apply rename_goes.
  - by apply unlink_goes.
  - by apply rmdir_goes.
  - by apply setdents_goes.
  - by apply flush_goes.
Qed.
End callback.

(** ** Operations without a transaction *)

Lemma fan_out_goes this k fill l l' i ret err rest out fops r e :
  let n := child_count (xl_priv this) in
  (4 * span n + length rest <= k)%nat ->
  local_ok n l -> is_fan_out (w_op l) = true -> res_ok l out fops -> waits n l rest (fops ++ [(i, (ret, err))]) ->
  w_op l' = w_op l -> w_fd l' = w_fd l -> w_tr l' = set_op r e (w_tr l) ->
  (r = -1 <-> op_ret (w_tr l) = -1 /\ ret = -1) ->
  goes_to this k rest out (fops ++ [(i, (ret, err))]) (finish_fan_out l' fill).
Proof.
  intros n Hk [L1 L2 L3 L4] Hfan Hres Hw A1 A2 A3 Hr. set (fops' := fops ++ _) in *.
  assert (forall l0, w_op l0 = w_op l -> owes l0 = true) as Ho by (intros l0 E; unfold owes; rewrite E; by destruct (w_op l)).
  destruct (ro_owed _ _ _ Hres (Ho l eq_refl)) as [E1 E2].
  assert (r = -1 <-> succeeded fops' = false) as Hs.
  { unfold fops'. rewrite Hr, E2, succeeded_app, succeeded_one. destruct (Z.eqb_spec ret (-1)), (succeeded fops); naive_solver. }
  assert (waits n l' rest fops') as Hw' by (apply (waits_same _ l); [done|by rewrite A3]).
  unfold finish_fan_out. destruct (_ =? 0) eqn:Hz.
  - rewrite (rest_nil _ _ _ _ Hw' Hz). apply runs_goes_to. apply (finished _ _ _ _ _ r); [done| |done].
    rewrite rets_app, E1. simpl. by rewrite A3.
  - pose proof (rest_cons _ _ _ _ Hw' Hz) as Hne. pose proof (waits_count _ _ _ _ Hw') as Hc. destruct Hw' as (_ & W2 & _ & W4).
    apply stays.
    + eapply Nat.le_trans; [by apply wind_weight|]. rewrite base_main; [unfold n in *; lia|].
      simpl. rewrite A1. intros Hop. by rewrite Hop in Hfan.
    + split; simpl; rewrite ?A3, ?A1; try done; [by apply (tr_ok_same n (w_tr l))|..].
      * unfold args_ok in *. simpl. rewrite A1, A2. by destruct (w_op l).
      * unfold hook_ok in *. simpl. rewrite A1, A3. by destruct (w_op l).
    + split; [|by rewrite Ho|simpl; by rewrite A1, Hfan]. intros _. split; [done|]. simpl. by rewrite A3.
    + intros Hop. simpl in Hop. rewrite A1 in Hop. by rewrite Hop in Hfan.
    + apply ph_fop; try done; simpl; rewrite ?A1; [by intros Hop; rewrite Hop in Hfan|by intros _; simpl; rewrite A1, Hfan|by rewrite Ho].
Qed.

Lemma collect_ret_goes this k fill l i ret err rest out fops :
  let n := child_count (xl_priv this) in
  (4 * span n + length rest <= k)%nat ->
  local_ok n l -> is_fan_out (w_op l) = true -> res_ok l out fops -> waits n l rest (fops ++ [(i, (ret, err))]) ->
  ret = -1 \/ ret = 0 -> goes_to this k rest out (fops ++ [(i, (ret, err))]) (finish_fan_out (collect_ret ret err l) fill).
Proof.
  intros n Hk H1 H2 H3 H4 [-> | ->]; eapply (fan_out_goes this k fill l); try done; simpl.
  - naive_solver.
  - lia.
Qed.

Lemma fan_goes this k e l i ret err p rest out fops :
  let n := child_count (xl_priv this) in
  (4 * span n + length rest <= k)%nat ->
  local_ok n l -> is_fan_out (w_op l) = true -> res_ok l out fops -> waits n l rest (fops ++ [(i, (ret, err))]) ->
  ret = -1 \/ ret = 0 -> (ret <> -1 -> payload_ok (w_op l) p) ->
  goes_to this k rest out (fops ++ [(i, (ret, err))]) (fop_cbk this e i ret err p l).
Proof.
  intros n Hk H1 H2 H3 H4 H5 H6. unfold fop_cbk. destruct (w_op l) eqn:Hop; try done;
    try (apply collect_ret_goes; by rewrite ?Hop).
  - pose proof (lo_args _ _ H1) as Hargs. unfold args_ok in Hargs. rewrite Hop in Hargs. destruct Hargs as [fd Hfd].
    unfold afr_fsync_cbk, fd_ctx. rewrite Hfd. simpl. set (rc := i32 _).
    destruct H5 as [-> | ->]; simpl.
    + eapply (fan_out_goes this k _ l); rewrite ?Hop; try done; destruct (Z.of_nat i =? rc); try done; simpl; naive_solver.
    + destruct H6 as (pre & post & ->); [done|]. simpl.
      eapply (fan_out_goes this k _ l _ _ _ _ _ _ _ 0 err); rewrite ?Hop; try done;
        destruct (Z.of_nat i =? rc); simpl; destruct (w_success_count l =? 0); try done; simpl; lia.
  - unfold afr_checksum_cbk. destruct H5 as [-> | ->]; simpl.
    + eapply (fan_out_goes this k _ l); rewrite ?Hop; try done; simpl; naive_solver.
    + destruct H6 as (f & d & ->); [done|].
      destruct (Z.eqb_spec (op_ret (w_tr l)) 0) as [Hz|Hz]; simpl; eapply (fan_out_goes this k _ l); rewrite ?Hop; try done; simpl; lia.
  - unfold afr_statfs_cbk. destruct H5 as [-> | ->]; simpl.
    + eapply (fan_out_goes this k _ l); rewrite ?Hop; try done; simpl; naive_solver.
    + destruct H6 as (b & ->); [done|]. simpl.
      eapply (fan_out_goes this k _ l _ _ _ _ _ _ _ 0 (op_errno (w_tr l))); rewrite ?Hop; try done;
        destruct (c_statfs (w_cont l)) as [b'|]; try destruct (f_bavail b <? f_bavail b'); try done; simpl; lia.
Qed.

(** ** Every answer *)

Lemma wind_weight_eq n l ev :
  Forall is_wind ev -> ev <> [] -> weight n (Some l) ev = (base n l + 4 * span n + length ev)%nat.
Proof. intros [|e ev' He _] Hne; [done|]. destruct e; try done. simpl. lia. Qed.

Lemma wind_answer this k e l i call ret err p p1 p2 out fops :
  let n := child_count (xl_priv this) in
  (weight n (Some l) (p1 ++ E_wind i call :: p2) <= S k)%nat ->
  Z.of_nat n < 2 ^ 31 -> local_ok n l -> res_ok l out fops -> phase this n l fops (p1 ++ E_wind i call :: p2) ->
  answer_ok l e (E_wind i call) ret p -> goes_to this k (p1 ++ p2) out (fops ++ [(i, (ret, err))]) (fop_cbk this e i ret err p l).
Proof.
  intros n Hk Hn Hok Hres Hph (Hr & Hp & Hf & He).
  assert (Hpend : w_op l <> OP_up_down_flush /\ Forall is_wind (p1 ++ E_wind i call :: p2) /\
    call_count (w_tr l) = Z.of_nat (length (p1 ++ E_wind i call :: p2)) /\
    (length (p1 ++ E_wind i call :: p2) + length fops <= n)%nat /\
    fop_marks n l fops /\ (owes l = false -> succeeded fops = true)).
  { remember (p1 ++ E_wind i call :: p2) as pend eqn:Ep. destruct Hph; try done.
    - by destruct p1 as [|? [|]].
    - apply map_act_split in Ep as (? & ? & ? & _ & _ & ? & _). done.
    - apply map_act_split in Ep as (? & ? & ? & _ & _ & ? & _). done.
    - apply map_act_split in Ep as (? & ? & ? & _ & _ & ? & _). done.
    - by destruct p1 as [|? [|]].
    - subst pend. apply Forall_app in H1 as [_ [? _]%Forall_cons]. done. }
  destruct Hpend as (Hud & Hw & Hcc & Hle & Hm & Hpaid).
  assert (4 * span n + length (p1 ++ p2) <= k)%nat as Hk'.
  { rewrite (wind_weight_eq n l _ Hw), (base_main n l Hud), length_app in Hk by (by destruct p1).
    rewrite length_app. cbn [length] in Hk. lia. }
  assert (waits n l (p1 ++ p2) (fops ++ [(i, (ret, err))])) as Hwait.
  { apply Forall_app in Hw as [? [_ ?]%Forall_cons]. rewrite length_app in Hcc, Hle. cbn [length] in *.
    split_and!; [done|by apply Forall_app|rewrite length_app; lia|rewrite !length_app; cbn [length]; lia]. }
  destruct (is_fan_out (w_op l)) eqn:Hfan.
  - specialize (Hf eq_refl). apply fan_goes; try done. lia.
  - by apply fop_goes.
Qed.

Lemma answer_inv this k r l e call ret err p p1 p2 :
  let n := child_count (xl_priv this) in
  (weight n (r_local r) (r_pending r) <= S k)%nat ->
  Z.of_nat n < 2 ^ 31 -> inv this r -> r_local r = Some l -> r_pending r = p1 ++ call :: p2 -> answer_ok l e call ret p ->
  exists l' ev, handle this e call ret err p l = Some (l', ev) /\
    inv this (mk_req l' (p1 ++ p2 ++ calls ev) (r_out r ++ outs ev) (r_fops r ++ log_fop call ret err)) /\
    (weight n l' (p1 ++ p2 ++ calls ev) <= k)%nat.
Proof.
  intros n Hk Hn Hi Hl Ep Hans.
  assert (goes_to this k (p1 ++ p2) (r_out r) (r_fops r ++ log_fop call ret err) (handle this e call ret err p l)) as Hgo.
  2: { destruct Hgo as (l' & ev & E & Hi' & Hw). exists l', ev. by rewrite app_assoc. }
  unfold inv in Hi. rewrite Hl in Hi, Hk. rewrite Ep in Hk. destruct Hi as (Hok & Hres & Hno & Hph). fold n in Hok, Hph.
  destruct call as [a|i c|i loc fd| | | | |].
  2: { simpl. rewrite Ep in Hph. by apply (wind_answer this k e l i c). }
  all: simpl; rewrite app_nil_r; rewrite Ep in Hph; remember (p1 ++ _ :: p2) as pend eqn:E; destruct Hph as
    [i' a' F1 F2 F3 F4 F5|acts F1 F2 F3 F4 F5|pend F1 F2|acts F1 F2 F3 F4|acts F1 F2|F1 F2|pend F1 F2 F3 F4 F5 F6];
    try (apply map_act_split in E as (a1 & b & a2 & -> & -> & E & ->));
    try (subst pend; match goal with H : Forall _ (_ ++ _ :: _) |- _ => by apply Forall_app in H as [_ [? _]%Forall_cons] end);
    try (destruct p1 as [|? [|]]; [injection E as E <-|done..]); try discriminate E; try (injection E as ->).
  - subst a'. simpl. rewrite F4 in *. apply runs_goes_to. by apply (lock_answer this k e l i').
  - rewrite F4 in *. rewrite <-map_app. by apply pre_answer.
  - rewrite <-map_app. by apply post_answer.
  - rewrite <-map_app. by apply unlock_answer.
  - subst pend. rewrite (Hno F1) in *. by eapply open_answer.
  - destruct p1 as [|? [|]]; [|done..]. injection E as <-. rewrite (Hno F1) in *. apply runs_goes_to.
    simpl in Hk. rewrite (base_flush n l F1) in Hk. apply sh_unwind_runs; [unfold n in *; lia|done..].
Qed.

(** ** Other operations on the fd *)

Lemma env_inv this r r' :
  inv this r -> env_step (child_count (xl_priv this)) r r' -> inv this r'.
Proof.
  intros Hi Hs. destruct Hs as [r l c c' Hl Hc Hok']. unfold inv in *. rewrite Hl in Hi. simpl. destruct Hi as (Hok & Hres & Hno & Hph).
  split_and!.
  - destruct Hok as [[T1 T2 T3 T4 T5] L2 L3 L4]. split; try done. split; try done. simpl. by intros ? [= <-].
  - by apply res_ok_set_tr.
  - done.
  - destruct Hph; [eapply ph_lock|apply ph_pre|apply ph_fop|apply ph_post|apply ph_unlock|apply ph_heal|apply ph_open]; done.
Qed.

Lemma pending_weight n l p1 call p2 : weight n (Some l) (p1 ++ call :: p2) <> 0%nat.
Proof.
  assert (forall ev m, rank n ev (S m) <> 0%nat) as Hr by (intros [[]| | | | | | |] m; simpl; unfold span; lia).
  destruct p1 as [|ev p1]; simpl; [specialize (Hr call (length p2))|specialize (Hr ev (length (p1 ++ call :: p2)))]; lia.
Qed.

(** Every step keeps the invariant, and leaves fewer answers to come. *)
Lemma step_inv this r r' :
  let n := child_count (xl_priv this) in
  Z.of_nat n < 2 ^ 31 -> inv this r -> req_step this r r' ->
  inv this r' /\ (weight n (r_local r') (r_pending r') < weight n (r_local r) (r_pending r))%nat.
Proof.
  intros n Hn Hi (r1 & He & Ha).
  assert (inv this r1 /\ weight n (r_local r1) (r_pending r1) = weight n (r_local r) (r_pending r)) as [Hi1 Hw1].
  { clear Ha. induction He as [|r r2 r3 H1 _ IH]; [done|]. destruct (IH (env_inv _ _ _ Hi H1)) as [I1 I2].
    split; [done|]. rewrite I2. destruct H1 as [r l c c' Hl _ _]. by rewrite Hl. }
  rewrite <-Hw1. clear Hi Hw1 He. destruct Ha as [r1 l e call ret err p p1 p2 l' ev Hl Hp Hans Hh].
  assert (exists k, weight n (r_local r1) (r_pending r1) = S k) as [k Hk].
  { apply Nat.neq_0_r. rewrite Hl, Hp. apply pending_weight. }
  destruct (answer_inv this k r1 l e call ret err p p1 p2) as (l1 & ev1 & E & Hi2 & Hw2); try done; [fold n; lia|].
  rewrite Hh in E. injection E as <- <-. split; [done|]. fold n in Hw2. simpl. lia.
Qed.

(** What the code takes for granted: the context of the fd has an entry per
    child, and a location an inode where it is used at once. *)
Definition ctx_ok (n : nat) (c : option afr_fd_ctx) : Prop := forall c', c = Some c' -> fdctx_ok n c'.

Definition request_ok (n : nat) (q : request) : Prop :=
  match q with
  | Q_writev _ _ c _ _ _ _ | Q_ftruncate _ _ c _ _ _ | Q_fsetattr _ c _ _ _ | Q_setdents _ c _ _ _ | Q_flush _ c _ => ctx_ok n c
  | Q_truncate _ loc _ | Q_setattr _ loc _ _ | Q_link _ loc _ | Q_rename _ _ loc _ => is_Some (loc_inode loc)
  | _ => True
  end.

(** At most this many answers: a flush first, then the operation. *)
Definition most_answers (n : nat) : nat := 15 * span n.

Definition starts (this : afr_xl) (res : result) : Prop := runs this (most_answers (child_count (xl_priv this))) [] [] res.

Lemma local_init_facts priv op fd c up ppo t :
  afr_local_init priv op fd c up ppo = Some t ->
  child_up t = up /\ fdctx t = c /\ l_op t = op /\ op_ret t = -1 /\ post_post_op t = ppo /\
  call_count t = afr_up_children_count up /\ call_count t <> 0 /\ l_type t = AFR_DATA_TRANSACTION /\
  pending t = replicate (child_count priv) [0; 0; 0] /\ locked_nodes t = replicate (child_count priv) LOCKED_NO.
Proof. unfold afr_local_init. destruct (Z.eqb_spec (afr_up_children_count up) 0); [done|]. by intros [= <-]. Qed.

(** A transaction that begins with fresh local data. *)
Lemma start_runs this type l :
  begin_ok (child_count (xl_priv this)) type l -> w_op l <> OP_up_down_flush -> is_fan_out (w_op l) = false ->
  op_ret (w_tr l) = -1 -> w_success_count l = 0 -> owes l = true -> starts this (run_transaction this type l).
Proof. intros Hb Hud Hfan Hr Hs Ho. apply run_transaction_runs; [unfold most_answers; lia|done..|by apply res_ok_begin|done]. Qed.

Lemma refused this ev err p : calls ev = [] -> rets ev = [] -> starts this (Some (None, ev ++ [E_unwind (-1) err p])).
Proof. intros Hc Hr. by apply refused_runs. Qed.

Lemma begin_transaction_runs this alloc type mk :
  (forall t, afr_local_init (xl_priv this) GF_FOP_OTHER false None (xl_child_up this) None = Some t ->
     exists l, mk t = Some l /\ starts this (run_transaction this type l)) ->
  starts this (begin_transaction this alloc type mk).
Proof.
  intros Hmk. unfold begin_transaction. destruct alloc as [[] []]; simpl; [|by apply (refused this [E_destroy])|
    by apply (refused this [])..].
  destruct (afr_local_init _ _ _ _ _ _) as [t|]; [|by apply (refused this [E_destroy])].
  destruct (Hmk t eq_refl) as (l & -> & Hr). done.
Qed.

Section begin.
Context (this : afr_xl) (Hthis : this_ok this).
Abbreviation n := (child_count (xl_priv this)).

(** The local data of an operation that is not a flush. *)
Lemma operation_start type t l :
  afr_local_init (xl_priv this) GF_FOP_OTHER false None (xl_child_up this) None = Some t ->
  type <> AFR_FLUSH_TRANSACTION -> length (child_up (w_tr l)) = length (child_up t) -> l_op (w_tr l) = l_op t ->
  op_ret (w_tr l) = op_ret t -> post_post_op (w_tr l) = post_post_op t -> ctx_ok n (fdctx (w_tr l)) ->
  fop_of (w_op l) = GF_FOP_OTHER -> is_fan_out (w_op l) = false -> args_ok l -> w_success_count l = 0 -> owes l = true ->
  starts this (run_transaction this type l).
Proof using Hthis.
  intros Ht Hty E1 E2 E3 E4 Hc Hf Hfan Ha Hs Ho.
  destruct (local_init_facts _ _ _ _ _ _ _ Ht) as (I1 & I2 & I3 & I4 & I5 & _).
  assert (w_op l <> OP_up_down_flush) as Hud by (intros Hop; by rewrite Hop in Hf).
  apply start_runs; try done; [|congruence]. split; try done.
  - rewrite E1, I1. apply Hthis.
  - rewrite E2, I3. done.
  - congruence.
  - unfold hook_ok. rewrite E4, I5. by destruct (w_op l).
Qed.

End begin.

Ltac start := apply begin_transaction_runs; intros t Ht; eexists; split; [done|]; pose proof Ht as Hi;
  apply local_init_facts in Hi as (_ & Hi & _); apply (operation_start _ ltac:(done) _ t); try done; simpl; rewrite ?Hi; try done.

Lemma truncate_begins this alloc loc offset :
  this_ok this -> is_Some (loc_inode loc) -> starts this (afr_truncate this alloc loc offset).
Proof. intros Hthis [ino Hino]. unfold afr_truncate. rewrite Hino. start. by eexists. Qed.

Lemma setattr_begins this alloc loc buf valid :
  this_ok this -> is_Some (loc_inode loc) -> starts this (afr_setattr this alloc loc buf valid).
Proof. intros Hthis [ino Hino]. unfold afr_setattr. rewrite Hino. start. by do 2 eexists. Qed.

Lemma fsetattr_begins this alloc c fd buf valid :
  this_ok this -> ctx_ok (child_count (xl_priv this)) c -> starts this (afr_fsetattr this alloc c fd buf valid).
Proof. intros Hthis Hc. start. split; [done|]. by do 2 eexists. Qed.

Lemma setxattr_begins this alloc loc dict flags : this_ok this -> starts this (afr_setxattr this alloc loc dict flags).
Proof. intros Hthis. start. by do 2 eexists. Qed.

Lemma removexattr_begins this alloc loc name : this_ok this -> starts this (afr_removexattr this alloc loc name).
Proof. intros Hthis. start. by eexists. Qed.

Lemma rename_begins this alloc ctx oldloc newloc :
  this_ok this -> is_Some (loc_inode oldloc) -> starts this (afr_rename this alloc ctx oldloc newloc).
Proof. intros Hthis [ino Hino]. unfold afr_rename. rewrite Hino. start. Qed.

Lemma unlink_begins this alloc loc : this_ok this -> starts this (afr_unlink this alloc loc).
Proof. intros Hthis. start. Qed.

Lemma rmdir_begins this alloc loc : this_ok this -> starts this (afr_rmdir this alloc loc).
Proof. intros Hthis. start. Qed.

(** The operations that take the next read child. *)
Lemma begin_entry_runs this alloc mk :
  this_ok this ->
  (forall this1 rc t, this_ok this1 ->
     afr_local_init (xl_priv this1) GF_FOP_OTHER false None (xl_child_up this1) None = Some t ->
     exists l, mk rc t = Some l /\ starts this1 (run_transaction this1 AFR_ENTRY_TRANSACTION l)) ->
  starts (begin_entry this alloc mk).1 (begin_entry this alloc mk).2.
Proof.
  intros Hthis Hmk. unfold begin_entry. destruct (_ && _) eqn:Hb.
  - simpl. apply begin_transaction_runs. intros t Ht. apply (Hmk _ _ t); [|done]. by destruct Hthis.
  - simpl. unfold begin_transaction, afr_local_init. destruct alloc as [[] []]; simpl in *;
      [|by apply (refused this [E_destroy])|by apply (refused this [])..].
    apply negb_false_iff in Hb. rewrite Hb. by apply (refused this [E_destroy]).
Qed.

Ltac start_entry Hthis := apply begin_entry_runs; [exact Hthis|]; intros this1 rc t Hthis1 Ht; eexists; split; [done|];
  pose proof Ht as Hi; apply local_init_facts in Hi as (_ & Hi & _);
  apply (operation_start _ Hthis1 _ t); try done; simpl; rewrite ?Hi; try done.

Lemma create_begins this alloc loc flags mode fd :
  this_ok this -> let r := afr_create this alloc loc flags mode fd in starts r.1 r.2.
Proof. intros Hthis. start_entry Hthis. by do 3 eexists. Qed.

Lemma mknod_begins this alloc loc mode dev :
  this_ok this -> let r := afr_mknod this alloc loc mode dev in starts r.1 r.2.
Proof. intros Hthis. start_entry Hthis. by do 2 eexists. Qed.

Lemma mkdir_begins this alloc loc mode : this_ok this -> let r := afr_mkdir this alloc loc mode in starts r.1 r.2.
Proof. intros Hthis. start_entry Hthis. by eexists. Qed.

Lemma symlink_begins this alloc linkpath loc :
  this_ok this -> let r := afr_symlink this alloc linkpath loc in starts r.1 r.2.
Proof. intros Hthis. start_entry Hthis. by eexists. Qed.

Lemma link_begins this alloc oldloc newloc :
  this_ok this -> is_Some (loc_inode oldloc) -> let r := afr_link this alloc oldloc newloc in starts r.1 r.2.
Proof. intros Hthis [ino Hino]. unfold afr_link. rewrite Hino. start_entry Hthis. Qed.

(** ** Operations on an fd *)

Lemma setdents_begins this alloc c fd flags entries :
  this_ok this -> ctx_ok (child_count (xl_priv this)) c -> starts this (afr_setdents this alloc c fd flags entries).
Proof.
  intros Hthis Hc. unfold afr_setdents. destruct alloc; simpl; [|by apply (refused this [])].
  destruct (afr_local_init _ _ _ _ _ _) as [t|] eqn:Ht; [|by apply (refused this [])].
  destruct (local_init_facts _ _ _ _ _ _ _ Ht) as (I1 & I2 & I3 & I4 & I5 & _).
  apply start_runs; try done. split; try done; simpl.
  - rewrite I1. apply Hthis.
  - by rewrite I2.
  - rewrite I3. done.
  - unfold args_ok. simpl. eauto.
Qed.

(** An operation that is sent to all children. *)
Lemma fan_out_begins this alloc op fd c call :
  this_ok this -> is_fan_out op = true -> (op = OP_fsync -> is_Some fd) -> starts this (fan_out this alloc op fd c call).
Proof.
  intros Hthis Hfan Hfd. unfold fan_out. destruct alloc; simpl; [|by apply (refused this [])].
  destruct (afr_local_init _ _ _ _ _ _) as [t|] eqn:Ht; [|by apply (refused this [])].
  destruct (local_init_facts _ _ _ _ _ _ _ Ht) as (I1 & I2 & I3 & I4 & I5 & I6 & I7 & I8 & I9 & I10).
  destruct (wind_loop_fresh (child_up t) call) as (E1 & E2 & E3 & E4). rewrite I6, I1 in *.
  set (l := set_main_frame false _). assert (owes l = true) as Ho by (unfold owes; simpl; by destruct op).
  pose proof (up_count_le (xl_child_up this)) as Hle. rewrite (tk_up _ Hthis) in Hle.
  eexists. split; [done|]. unfold fresh, inv. cbn [fst snd r_local r_pending r_out r_fops]. rewrite E1, E2. split_and!.
  - split; simpl; [|by destruct op|unfold args_ok; simpl; destruct op; auto; done|by destruct op].
    split; rewrite ?I1, ?I2, ?I3, ?I8, ?I9, ?I10; try done; [apply Hthis|by rewrite length_replicate|]. eexists. apply rows_replicate.
  - split; [by simpl; rewrite I4|by rewrite Ho|by simpl; rewrite Hfan].
  - intros Hop. simpl in Hop. by rewrite Hop in Hfan.
  - apply ph_fop; simpl; try done; [by intros Hop; rewrite Hop in Hfan|by intros Hn; rewrite Hn in E4; simpl in E4; lia|lia|lia| |by rewrite Ho].
    intros _. simpl. by rewrite Hfan.
  - eapply Nat.le_trans; [by apply wind_weight|]. rewrite base_main by (intros Hop; simpl in Hop; by rewrite Hop in Hfan).
    unfold most_answers, span. lia.
Qed.

Lemma flush_begins this alloc c fd :
  this_ok this -> ctx_ok (child_count (xl_priv this)) c -> starts this (afr_flush this alloc c fd).
Proof.
  intros Hthis Hc. unfold afr_flush. destruct (__no_pre_op_done c); [by apply fan_out_begins|].
  destruct alloc as [a1 a2]. destruct a2; simpl; [|by apply (refused this [])].
  destruct (afr_local_init _ _ _ _ _ _) as [t|] eqn:Ht; [|by apply (refused this [])].
  destruct (local_init_facts _ _ _ _ _ _ _ Ht) as (I1 & I2 & I3 & I4 & I5 & _).
  destruct a1; simpl; [|by apply (refused this [])].
  apply start_runs; try done. split; try done; simpl.
  - rewrite I1. apply Hthis.
  - by rewrite I2.
  - by unfold args_ok; simpl.
Qed.

(** The flush before a write. *)
Lemma up_down_flush_begins this e type l :
  let n := child_count (xl_priv this) in
  length (child_up (w_tr l)) = n -> ctx_ok n (fdctx (w_tr l)) -> is_Some (w_fd l) -> op_ret (w_tr l) = -1 ->
  w_success_count l = 0 ->
  (w_after l = Some OP_writev /\ (exists v o, w_args l = C_writev v o) \/
   w_after l = Some OP_ftruncate /\ (exists o, w_args l = C_truncate o) /\ type = AFR_CHILD_DOWN_FLUSH) ->
  starts this (afr_up_down_flush this e type l).
Proof.
  intros n Hu Hc Hfd Hr Hs Hargs. unfold afr_up_down_flush. set (l1 := upd_tr _ _).
  assert (begin_ok n AFR_FLUSH_TRANSACTION l1) as Hb.
  { split; try done. unfold args_ok. simpl. split; [done|]. destruct Hargs as [Ha|(Ha & Hv & ->)]; [by left|by right]. }
  destruct (transaction_start (xl_priv this) _ (w_tr l1) AFR_FLUSH_TRANSACTION eq_refl (bo_up _ _ _ Hb) (bo_ctx _ _ _ Hb)
    (bo_flush _ _ _ Hb)) as (Hok & Hbef & Hout).
  pose proof (begin_local_ok (xl_priv this) _ l1 AFR_FLUSH_TRANSACTION Hb Hok) as Hlok.
  set (l2 := set_tr _ l1) in Hlok.
  assert (14 * span n + 2 * (n - 0) <= most_answers n)%nat as Hk by (unfold most_answers, span; lia).
  assert (res_ok l2 [] []) as Hres by (by apply res_ok_begin).
  pose proof (flush_perform_runs this _ 0 e l2 _ [] Hk Hlok eq_refl Hres Hbef (or_intror Hout)) as Hr2.
  by destruct (afr_transaction (xl_priv this) _ AFR_FLUSH_TRANSACTION) as [t acts].
Qed.

Lemma writev_begins this alloc e c counts fd vector offset :
  this_ok this -> ctx_ok (child_count (xl_priv this)) c -> starts this (afr_writev this alloc e c counts fd vector offset).
Proof.
  intros Hthis Hc. unfold afr_writev. destruct alloc; simpl; [|by apply (refused this [])].
  destruct (afr_local_init _ _ _ _ _ _) as [t|] eqn:Ht; [|by apply (refused this [])].
  destruct (local_init_facts _ _ _ _ _ _ _ Ht) as (I1 & I2 & I3 & I4 & I5 & _).
  case_bool_decide; [by apply (refused this [])|].
  destruct (_ <? _); [|destruct (_ <? _)].
  1,2: apply up_down_flush_begins; simpl; rewrite ?I1, ?I2; try done; [apply Hthis|left; eauto].
  apply do_writev_runs; [unfold most_answers; lia|..]; simpl; rewrite ?I1, ?I2; try done; [apply Hthis|eauto].
Qed.

Lemma ftruncate_begins this alloc e c counts fd offset :
  this_ok this -> ctx_ok (child_count (xl_priv this)) c -> starts this (afr_ftruncate this alloc e c counts fd offset).
Proof.
  intros Hthis Hc. unfold afr_ftruncate. destruct alloc; simpl; [|by apply (refused this [])].
  destruct (afr_local_init _ _ _ _ _ _) as [t|] eqn:Ht; [|by apply (refused this [])].
  destruct (local_init_facts _ _ _ _ _ _ _ Ht) as (I1 & I2 & I3 & I4 & I5 & _).
  case_bool_decide; [by apply (refused this [])|].
  destruct (_ <? _).
  - apply up_down_flush_begins; simpl; rewrite ?I1, ?I2; try done; [apply Hthis|right; eauto].
  - apply do_ftruncate_runs; [unfold most_answers; lia|..]; simpl; rewrite ?I1, ?I2; try done; [apply Hthis|eauto].
Qed.

(** Every request. *)
Lemma begin_runs this q :
  this_ok this -> request_ok (child_count (xl_priv this)) q -> starts (begin this q).1 (begin this q).2.
Proof.
  intros Hthis Hq. destruct q; cbn [begin fst snd request_ok] in *.
  - by apply writev_begins.
  - by apply ftruncate_begins.
  - by apply truncate_begins.
  - by apply setattr_begins.
  - by apply fsetattr_begins.
  - by apply setxattr_begins.
  - by apply removexattr_begins.
  - by apply create_begins.
  - by apply mknod_begins.
  - by apply mkdir_begins.
  - by apply symlink_begins.
  - by apply link_begins.
  - by apply rename_begins.
  - by apply unlink_begins.
  - by apply rmdir_begins.
  - by apply setdents_begins.
  - by apply flush_begins.
  - by apply fan_out_begins.
  - by apply fan_out_begins.
  - by apply fan_out_begins.
  - by apply fan_out_begins.
  - by apply fan_out_begins.
  - by apply fan_out_begins.
  - by apply fan_out_begins.
  - by apply fan_out_begins.
  - by apply fan_out_begins.
  - by apply fan_out_begins.
Qed.
