(* ===== verification/AfrOpsProps.v ===== *)
(** * cluster/afr: properties of operations

    Whatever the order of the answers, every operation is answered once, with
    success when a child had success, and the changelog is updated for the
    children that took part.  Then what goes wrong. *)

From stdpp Require Import base list numbers strings gmap relations.
From S2P Require Import Prelude ByteOrder AfrPending AfrTransaction AfrFacts AfrTransFacts AfrFops AfrCalls.
From S2P Require Import AfrInodeWrite AfrDirWrite AfrFanout AfrOps AfrSystem AfrSteps AfrCollect AfrBegin.
Open Scope Z_scope.

(** The states of an operation. *)
Definition runs_to (this : afr_xl) (q : request) (k : nat) (r : req) : Prop :=
  exists st, (begin this q).2 = Some st /\ nsteps (req_step (begin this q).1) k (start st) r.

Lemma next_read_child_priv this : xl_priv (next_read_child this).1 = xl_priv this.
Proof. done. Qed.

Lemma begin_priv this q : xl_priv (begin this q).1 = xl_priv this.
Proof. destruct q; simpl; try done; unfold afr_create, afr_mknod, afr_mkdir, afr_symlink, afr_link, begin_entry; by destruct (_ && _). Qed.

Lemma run_inv this q k r :
  let n := child_count (xl_priv this) in
  this_ok this -> request_ok n q -> runs_to this q k r ->
  inv (begin this q).1 r /\ (k + weight n (r_local r) (r_pending r) <= most_answers n)%nat.
Proof.
  intros n Hthis Hq (st & E & Hs). set (this' := (begin this q).1) in *.
  assert (child_count (xl_priv this') = n) as Hn by (unfold this'; by rewrite begin_priv).
  destruct (begin_runs this q Hthis Hq) as (st' & E' & Hi & Hw). rewrite E in E'. injection E' as <-. fold this' in Hi, Hw.
  rewrite Hn in Hw. change (outs st.2) with ([] ++ outs st.2) in Hi.
  assert (forall r0 m, nsteps (req_step this') k r0 r -> inv this' r0 ->
    (weight n (r_local r0) (r_pending r0) <= m)%nat -> inv this' r /\ (k + weight n (r_local r) (r_pending r) <= m)%nat) as Hall.
  2: { by apply (Hall (start st)). }
  clear -Hthis Hn. induction k as [|k IH]; intros r0 m Hs Hi Hm; inversion Hs; subst; [done|].
  destruct (step_inv this' r0 y) as [Hi' Hw']; [|done|done|].
  { rewrite Hn. apply Hthis. }
  rewrite Hn in Hw'. destruct m as [|m]; [lia|]. destruct (IH y m) as [I1 I2]; [done|done|lia|]. split; [done|lia].
Qed.

Lemma inv_answered this r : inv this r -> (length (rets (r_out r)) <= 1)%nat.
Proof.
  unfold inv. destruct (r_local r) as [l|]; [intros (_ & Hr & _)|by intros (_ & x & -> & _)].
  destruct (owes l) eqn:Ho; [by destruct (ro_owed _ _ _ Hr Ho) as [-> _]; simpl; lia|].
  by destruct (ro_paid _ _ _ Hr Ho) as (x & -> & _).
Qed.

Lemma inv_over this r : inv this r -> r_pending r = [] -> r_local r = None.
Proof.
  unfold inv. destruct (r_local r) as [l|]; [|done]. intros (_ & _ & _ & Hph) E. rewrite E in Hph.
  inversion Hph as [|acts ? Hc|pend ? ? ?|acts ? Hc|acts ? Hc| |pend ? ? ? ?]; try done; destruct acts; try done; by destruct Hc as (_ & ? & _).
Qed.

(** C5: The operations of cluster/afr that go to all children are answered
    exactly once: writev, ftruncate, truncate, setattr, fsetattr, setxattr,
    removexattr, create, mknod, mkdir, symlink, link, rename, unlink, rmdir,
    setdents, flush, fsync, fsyncdir, xattrop, fxattrop, inodelk, finodelk,
    entrylk, fentrylk, checksum and statfs (lookup, open, opendir, lk and the
    readers are not among them).  With children answering in any order, failing
    or not, other operations changing the context of the fd between answers, and
    memory for the context of a new fd, no handler faults, the caller gets at
    most one answer at any time, after at most [15 * (2 * n + 1)] answers of the
    [n] children the operation is over and its data are freed, and then the
    caller has an answer, which is a success exactly if the operation itself
    succeeded on a child. *)
Theorem afr_op_answered_once this q :
  this_ok this -> request_ok (child_count (xl_priv this)) q ->
  (exists st, (begin this q).2 = Some st) /\
  (forall k r, runs_to this q k r ->
    (k <= 15 * (2 * child_count (xl_priv this) + 1))%nat /\
    (length (rets (r_out r)) <= 1)%nat /\
    (forall l call p1 p2 e ret err p, r_local r = Some l -> r_pending r = p1 ++ call :: p2 -> answer_ok l e call ret p ->
       is_Some (handle (begin this q).1 e call ret err p l)) /\
    (r_pending r = [] ->
       r_local r = None /\ exists x, rets (r_out r) = [x] /\ (x = -1 <-> succeeded (r_fops r) = false))).
Proof.
  intros Hthis Hq. split; [destruct (begin_runs this q Hthis Hq) as (st & E & _); by exists st|].
  intros k r Hrun. destruct (run_inv this q k r Hthis Hq Hrun) as [Hi Hw]. split_and!.
  - unfold most_answers, span in Hw. lia.
  - by eapply inv_answered.
  - intros l call p1 p2 e ret err p Hl Hp Ha.
    assert (exists w, weight (child_count (xl_priv (begin this q).1)) (r_local r) (r_pending r) = S w) as [w Hw1].
    { apply Nat.neq_0_r. rewrite Hl, Hp. apply pending_weight. }
    destruct (answer_inv (begin this q).1 w r l e call ret err p p1 p2) as (l' & ev & E & _); try done; [by rewrite Hw1|].
    rewrite begin_priv. apply Hthis.
  - intros Hp. pose proof (inv_over _ _ Hi Hp) as Hl. split; [done|]. unfold inv in Hi. rewrite Hl in Hi. apply Hi.
Qed.

(** ** Executions *)

Definition payload_okb (op : fop_name) (p : payload) : bool :=
  match op, p with
  | (OP_writev | OP_truncate | OP_ftruncate | OP_setattr | OP_fsetattr | OP_unlink | OP_rmdir | OP_fsync), P_pair _ _ => true
  | (OP_writev | OP_truncate | OP_ftruncate | OP_setattr | OP_fsetattr | OP_unlink | OP_rmdir | OP_fsync), _ => false
  | (OP_mknod | OP_mkdir | OP_link | OP_symlink), P_entry _ _ _ _ => true
  | (OP_mknod | OP_mkdir | OP_link | OP_symlink), _ => false
  | OP_create, P_create _ _ _ _ _ => true
  | OP_create, _ => false
  | OP_rename, P_rename _ _ _ _ _ => true
  | OP_rename, _ => false
  | OP_checksum, P_checksum _ _ => true
  | OP_checksum, _ => false
  | OP_statfs, P_statfs _ => true
  | OP_statfs, _ => false
  | _, _ => true
  end.

Definition answer_okb (l : wlocal) (e : env) (call : event) (ret : Z) (p : payload) : bool :=
  ((ret =? -1) || (0 <=? ret)) &&
  match call with
  | E_wind _ _ => ((ret =? -1) || payload_okb (w_op l) p) && (negb (is_fan_out (w_op l)) || (ret <=? 0)) && e_alloc e
  | _ => true
  end.

Lemma answer_okb_ok l e call ret p : answer_okb l e call ret p = true -> answer_ok l e call ret p.
Proof.
  unfold answer_okb, answer_ok. intros [Hr Hc]%andb_true_iff. apply orb_true_iff in Hr. split; [lia|].
  destruct call; try done. apply andb_true_iff in Hc as [[Hp Hf]%andb_true_iff He]. split_and!; [|intros Hx; rewrite Hx in Hf; simpl in Hf; lia|done].
  intros Hne. apply orb_true_iff in Hp as [Hp|Hp]; [lia|]. unfold payload_okb, payload_ok in *.
  destruct (w_op l); try done; destruct p; try done; eauto 10.
Qed.

(** An answer: which of the calls that wait, and what it says. *)
Record answer := mk_answer { an_at : nat; an_ret : Z; an_errno : Z; an_payload : payload; an_env : env }.

Fixpoint drive (this : afr_xl) (answers : list answer) (r : req) : option req :=
  match answers with
  | [] => Some r
  | a :: answers =>
      l ← r_local r;
      call ← r_pending r !! an_at a;
      if answer_okb l (an_env a) call (an_ret a) (an_payload a) then
        '(l', ev) ← handle this (an_env a) call (an_ret a) (an_errno a) (an_payload a) l;
        drive this answers
          (mk_req l' (take (an_at a) (r_pending r) ++ drop (S (an_at a)) (r_pending r) ++ calls ev) (r_out r ++ outs ev)
             (r_fops r ++ log_fop call (an_ret a) (an_errno a)))
      else None
  end.

Lemma drive_steps this answers r r' : drive this answers r = Some r' -> nsteps (req_step this) (length answers) r r'.
Proof.
  revert r. induction answers as [|a answers IH]; intros r E; [injection E as <-; constructor|]. simpl in E.
  destruct (r_local r) as [l|] eqn:Hl; simpl in E; [|done].
  destruct (r_pending r !! an_at a) as [call|] eqn:Hc; simpl in E; [|done].
  destruct (answer_okb _ _ _ _ _) eqn:Ha; [|done]. destruct (handle _ _ _ _ _ _ _) as [[l' ev]|] eqn:Hh; simpl in E; [|done].
  eapply nsteps_l; [|by apply IH]. exists r. split; [done|].
  eapply req_answer; [done|by symmetry; apply take_drop_middle|by apply answer_okb_ok|done].
Qed.

Lemma drive_runs this q answers r :
  (st ← (begin this q).2; drive (begin this q).1 answers (start st)) = Some r -> runs_to this q (length answers) r.
Proof.
  intros E. destruct (begin this q).2 as [st|] eqn:Eb; [|done]. exists st. split; [done|]. by apply (drive_steps _ _ _ _ E).
Qed.

(** Two children, both up. *)
Definition two : afr_private := mk_priv 2 ["trusted.afr.a"; "trusted.afr.b"]%string true true true 1 1 1.
Definition two_xl : afr_xl := mk_xl two [true; true] 1 0 0 2 0.

Lemma two_ok : this_ok two_xl.
Proof. by split. Qed.

Definition env0 : env := mk_env None true loc0.

(** An answer without data, and one with two [struct stat]. *)
Definition plain (ret err : Z) : answer := mk_answer 0 ret err P_null env0.
Definition stats (ret err : Z) : answer := mk_answer 0 ret err (P_pair stat0 stat0) env0.

Definition file : loc_t := mk_loc "/d/f" (Some 20) (Some 10).

(** An unlink that fails on the second child. *)
Definition unlink_answers : list answer :=
  [plain 0 0; plain 0 0; plain 0 0; stats 0 0; stats (-1) ENOENT].

Definition after_unlink (more : list answer) : option req :=
  st ← (begin two_xl (Q_unlink (true, true) file)).2; drive two_xl (unlink_answers ++ more) (start st).

Lemma after_unlink_runs more r :
  after_unlink more = Some r -> runs_to two_xl (Q_unlink (true, true) file) (length (unlink_answers ++ more)) r.
Proof. exact (drive_runs two_xl (Q_unlink (true, true) file) (unlink_answers ++ more) r). Qed.

Definition last_answers : list answer := [plain 0 0; plain 0 0; plain 0 0].
Definition unlink_over : req :=
  Eval vm_compute in default (mk_req None [] [] []) (after_unlink last_answers).

Lemma afr_op_answered_once_witness :
  after_unlink last_answers = Some unlink_over /\ r_local unlink_over = None /\
  exists x, rets (r_out unlink_over) = [x] /\ x <> -1.
Proof.
  assert (after_unlink last_answers = Some unlink_over) as E by (vm_compute; reflexivity).
  destruct (afr_op_answered_once two_xl (Q_unlink (true, true) file) two_ok I) as [_ H].
  destruct (H _ _ (after_unlink_runs last_answers _ E)) as (_ & _ & _ & Hend).
  destruct (Hend eq_refl) as (Hl & x & Hx & Hs). split; [exact E|]. split; [exact Hl|]. exists x. split; [exact Hx|].
  intros Ex. apply Hs in Ex. discriminate Ex.
Defined.

(** ** The changelog *)

(** The rows a post-op carries. *)
Lemma post_op_rows this q k r l i on xattr :
  this_ok this -> request_ok (child_count (xl_priv this)) q -> runs_to this q k r ->
  r_local r = Some l -> fop_of (w_op l) = GF_FOP_OTHER -> r_fops r <> [] ->
  E_act (wind_post_op i on xattr) ∈ r_pending r ->
  xattr = afr_set_pending_dict (xl_priv this) (final_rows (child_count (xl_priv this)) l (r_fops r)).
Proof.
  intros Hthis Hq Hrun Hl Hf Hne Hin. destruct (run_inv this q k r Hthis Hq Hrun) as [Hi _]. unfold inv in Hi. rewrite Hl in Hi.
  destruct Hi as (_ & _ & _ & Hph). rewrite begin_priv in *.
  assert (forall c acts, Forall (in_class c) acts -> c <> K_post -> E_act (wind_post_op i on xattr) ∉ map E_act acts) as Hno.
  { intros c acts Hc Hk Hx. apply list_elem_of_fmap in Hx as (a & [= <-] & Ha). rewrite Forall_forall in Hc. specialize (Hc _ Ha). by destruct c. }
  destruct Hph as [j a _ Hk _ _ _|acts _ (Hc & _)|pend _ Hw|acts _ _ _ Hp|acts _ (Hc & _)| |pend _ _ Ho].
  - apply list_elem_of_singleton in Hin. injection Hin as <-. unfold locking in Hk. by destruct (is_rename _); [destruct Hk|].
  - by destruct (Hno K_pre acts Hc).
  - rewrite Forall_forall in Hw. by specialize (Hw _ Hin).
  - specialize (Hp Hne Hf). rewrite begin_priv in Hp. apply list_elem_of_fmap in Hin as (a & [= <-] & Ha).
    rewrite Forall_forall in Hp. destruct (Hp _ Ha) as (i' & on' & [= -> -> ->]). done.
  - by destruct (Hno K_unlock acts Hc).
  - by apply list_elem_of_singleton in Hin.
  - rewrite Forall_forall in Ho. by specialize (Ho _ Hin).
Qed.




(** Setxattr and removexattr forget the failures of children: the post-op
    carries the same marks whatever the children answered, taking one off the
    counters of every child that is up, so that no child is accused of missing
    the change. *)
Theorem xattr_failure_unrecorded this q k r l i on xattr :
  this_ok this -> request_ok (child_count (xl_priv this)) q -> runs_to this q k r ->
  r_local r = Some l -> w_op l = OP_setxattr \/ w_op l = OP_removexattr -> r_fops r <> [] ->
  E_act (wind_post_op i on xattr) ∈ r_pending r ->
  xattr = afr_set_pending_dict (xl_priv this)
    (map (fun j => pending_array (afr_index_for_transaction_type (l_type (w_tr l)))
            (if nth j (child_up (w_tr l)) false then hton32 (-1) else 0)) (seq 0 (child_count (xl_priv this)))).
Proof.
  intros Hthis Hq Hrun Hl Hop Hne Hin. rewrite (post_op_rows this q k r l i on xattr); try done; [|by destruct Hop as [-> | ->]].
  f_equal. apply rows_ext. intros j _. assert (marked (w_op l) (r_fops r) = []) as -> by (by destruct Hop as [-> | ->]).
  rewrite bool_decide_true by apply not_elem_of_nil. by rewrite andb_true_r.
Qed.

Definition setxattr_request : request := Q_setxattr (true, true) file [("user.x", [1])]%string 0.
Definition setxattr_post : req :=
  Eval vm_compute in default (mk_req None [] [] [])
    (st ← (begin two_xl setxattr_request).2;
     drive two_xl [plain 0 0; plain 0 0; plain 0 0; plain 0 0; plain (-1) ENOSPC] (start st)).

(** Setting an attribute fails on the second child. *)
Lemma xattr_failure_unrecorded_witness :
  r_fops setxattr_post = [(0%nat, (0, 0)); (1%nat, (-1, ENOSPC))] /\
  exists on xattr, E_act (wind_post_op 0 on xattr) ∈ r_pending setxattr_post /\
    xattr = [("trusted.afr.a", [0; hton32 (-1); 0]); ("trusted.afr.b", [0; hton32 (-1); 0])]%string.
Proof.
  split; [reflexivity|]. eexists _, _. split; [simpl; apply list_elem_of_here|].
  assert (runs_to two_xl setxattr_request 5 setxattr_post) as Hrun.
  { eexists. split; [reflexivity|].
    apply (drive_steps two_xl [plain 0 0; plain 0 0; plain 0 0; plain 0 0; plain (-1) ENOSPC]). vm_compute. reflexivity. }
  refine (eq_trans (xattr_failure_unrecorded two_xl setxattr_request 5 setxattr_post _ 0 _ _ two_ok I Hrun eq_refl
    (or_introl eq_refl) _ _) _); [discriminate|apply list_elem_of_here|vm_compute; reflexivity].
Defined.

(** ** Locks *)

(** A write on an fd that was opened when a child was down, which is up now. *)
Definition open_file : fd_t := mk_fd 20 false.
Definition late_write (up : Z) (vector : list (list Z)) (offset : Z) : request :=
  Q_writev true env0 (Some (mk_fdctx [true; true] [true; true] [false; false])) (up, 0) open_file vector offset.

(** A write that has to flush first goes without a lock.  The flush takes
    the lock, settles the changelog and gives the lock back; the count of locks
    that are held is not reset, so the write, which uses the same local data,
    takes it that it has all the locks it wants.  It is sent to both children
    with no lock on either, while the same write on an fd that is up to date
    holds the lock on the first child. *)
Theorem flush_write_unlocked vector offset :
  let sent := [E_wind 0 (F_writev open_file vector offset); E_wind 1 (F_writev open_file vector offset)] in
  afr_lock_server_count (xl_priv two_xl) AFR_DATA_TRANSACTION = 1 /\
  (exists r l, runs_to two_xl (late_write 1 vector offset) 7 r /\ r_local r = Some l /\ w_op l = OP_writev /\
    r_pending r = sent /\ locked_nodes (w_tr l) = [LOCKED_NO; LOCKED_NO]) /\
  (exists r l, runs_to two_xl (late_write 2 vector offset) 1 r /\ r_local r = Some l /\ w_op l = OP_writev /\
    r_pending r = sent /\ locked_nodes (w_tr l) = [LOCKED_YES; LOCKED_NO]).
Proof.
  cbv zeta. split; [done|].
  split.
  - do 2 eexists. split; [apply (drive_runs two_xl _ (replicate 7 (plain 0 0))); vm_compute; reflexivity|]. vm_compute. done.
  - do 2 eexists. split; [apply (drive_runs two_xl _ [plain 0 0]); vm_compute; reflexivity|]. vm_compute. done.
Qed.
