(* ===== verification/AfrRead.v ===== *)
(** * cluster/afr: operations that read

    Model of afr-inode-read.c and of the readers of afr-dir-read.c.  A reader
    asks one child, the read child of the inode if it has one, and the others in
    order while the answer is a failure; readdir asks the first child that is up
    and no other. *)

From stdpp Require Import base list numbers strings gmap.
From S2P Require Import Prelude ByteOrder AfrPending AfrTransaction AfrFops.
Open Scope Z_scope.

(** ** Calls and answers *)

Inductive read_call :=
  | R_access (loc : loc_t) (mask : Z)
  | R_stat (loc : loc_t)
  | R_fstat (fd : fd_t)
  | R_readlink (loc : loc_t) (size : Z)
  | R_getxattr (loc : loc_t) (name : option string)
  | R_readv (fd : fd_t) (size offset : Z)
  | R_getdents (fd : fd_t) (size offset flag : Z).

(** What an answer carries; [None] is a null pointer. *)
Inductive read_data :=
  | D_none
  | D_stat (buf : option stat)
  | D_link (path : option string) (sbuf : option stat)
  | D_dict (dict : option (list (string * list Z)))
  | D_data (vector : list (list Z)) (buf : option stat)
  | D_entries (entries : list string).

(** [afr_local_t]: the call, the child tried last and the inode number for the
    caller. *)
Record rlocal := mk_rl { rl_call : read_call; rl_last_tried : Z; rl_ino : Z }.

Definition set_last_tried (v : Z) (l : rlocal) : rlocal := mk_rl (rl_call l) v (rl_ino l).

Inductive read_event :=
  | R_wind (child : Z) (cookie : Z) (call : read_call)
  | R_unwind (ret err : Z) (d : read_data).

(** [frame->local], [None] if it is not set or the caller has its answer, and
    what was done.  [None] as a whole is a fault. *)
Abbreviation read_result := (option (option rlocal * list read_event)).

Definition all_tried (i : Z) (count : nat) : bool := i =? Z.of_nat count - 1.

(** ** The next child *)

(** The code from the label [retry] on: the new [last_tried], and the child to
    ask unless all were.  The label is passed twice at most. *)
Fixpoint retry (passes : nat) (count : nat) (read_child last_tried : Z) : Z * option Z :=
  match passes with
  | O => (last_tried, None)
  | S passes =>
      if all_tried last_tried count then (last_tried, None)
      else
        let this_try := last_tried + 1 in
        if this_try =? read_child then retry passes count read_child this_try else (this_try, Some this_try)
  end.

(** What the callbacks of readers have in common; [fill] is what they do to the
    data of the answer before they pass it on. *)
Definition read_cbk (this : afr_xl) (local : option rlocal) (read_child ret err : Z) (d : read_data)
    (fill : rlocal -> read_data -> read_data) : read_result :=
  l ← local;
  if ret =? -1 then
    let '(last_tried, next) := retry 2 (child_count (xl_priv this)) read_child (rl_last_tried l) in
    let l := set_last_tried last_tried l in
    match next with
    | Some this_try => Some (Some l, [R_wind this_try read_child (rl_call l)])
    | None => Some (None, [R_unwind ret err (fill l d)])
    end
  else Some (None, [R_unwind ret err (fill l d)]).

(** Without [frame->local] a success is passed on, a failure reads it. *)
Definition afr_access_cbk (this : afr_xl) (local : option rlocal) (read_child ret err : Z) (d : read_data) : read_result :=
  match local with
  | None => if ret =? -1 then None else Some (None, [R_unwind ret err D_none])
  | Some _ => read_cbk this local read_child ret err d (fun _ _ => D_none)
  end.

Definition fill_stat (l : rlocal) (d : read_data) : read_data :=
  match d with D_stat (Some buf) => D_stat (Some (set_ino (rl_ino l) buf)) | _ => d end.

Definition afr_stat_cbk (this : afr_xl) (local : option rlocal) (read_child ret err : Z) (d : read_data) : read_result :=
  read_cbk this local read_child ret err d fill_stat.

Definition afr_fstat_cbk (this : afr_xl) (local : option rlocal) (read_child ret err : Z) (d : read_data) : read_result :=
  read_cbk this local read_child ret err d fill_stat.

Definition afr_readlink_cbk (this : afr_xl) (local : option rlocal) (read_child ret err : Z) (d : read_data) :
    read_result :=
  read_cbk this local read_child ret err d (fun l d =>
    match d with D_link path (Some sbuf) => D_link path (Some (set_ino (rl_ino l) sbuf)) | _ => d end).

Definition afr_readv_cbk (this : afr_xl) (local : option rlocal) (read_child ret err : Z) (d : read_data) : read_result :=
  read_cbk this local read_child ret err d (fun l d =>
    match d with D_data vector (Some buf) => D_data vector (Some (set_ino (rl_ino l) buf)) | _ => d end).

(** getdents has no cookie: the children after the first one are tried. *)
Definition afr_getdents_cbk (this : afr_xl) (local : option rlocal) (ret err : Z) (d : read_data) : read_result :=
  read_cbk this local (-1) ret err d (fun _ d => d).

(** ** Changelog attributes are hidden *)

Definition AFR_XATTR_PREFIX : string := "trusted.afr".

(** A key is missed when there is no memory to note it. *)
Definition __gather_xattr_keys (alloc : string -> bool) (dict : list (string * list Z)) : list string :=
  List.filter (fun k => String.prefix AFR_XATTR_PREFIX k && alloc k) (map fst dict).

Definition __filter_xattrs (alloc : string -> bool) (dict : list (string * list Z)) : list (string * list Z) :=
  List.filter (fun kv => negb (bool_decide (kv.1 ∈ __gather_xattr_keys alloc dict))) dict.

Definition afr_getxattr_cbk (this : afr_xl) (alloc : string -> bool) (local : option rlocal) (read_child ret err : Z)
    (d : read_data) : read_result :=
  read_cbk this local read_child ret err d (fun _ d =>
    match d with
    | D_dict (Some dict) => D_dict (Some (if 0 <=? ret then __filter_xattrs alloc dict else dict))
    | _ => d
    end).

(** ** Beginning *)

(** [ctx]: the context of the inode.  [stored]: the call as [frame->local] keeps it for
    the other children, [None] if [frame->local] is not set.  [ino]
    comes from an inode that may not be there, [children] has [child_count]
    entries. *)
Definition read_start (this : afr_xl) (alloc : bool) (stored : option read_call) (ctx : option Z) (call : read_call) (ino : option Z) :
    read_result :=
  if negb alloc then Some (None, [R_unwind (-1) ENOMEM D_none])
  else
    let read_child := i32 (afr_read_child ctx) in
    let go call_child last_tried :=
      ino ← ino;
      if call_child <? Z.of_nat (child_count (xl_priv this))
      then Some ((fun kept => mk_rl kept last_tried ino) <$> stored, [R_wind call_child call_child call])
      else None in
    if 0 <=? read_child then go read_child (-1)
    else
      let call_child := afr_first_up_child this in
      if call_child =? -1 then Some (None, [R_unwind (-1) ENOTCONN D_none]) else go call_child call_child.

(** [frame->local] is not set here. *)
Definition afr_access (this : afr_xl) (alloc : bool) (ctx : option Z) (loc : loc_t) (mask : Z) : read_result :=
  read_start this alloc None ctx (R_access loc mask) (Some 0).

Definition afr_stat (this : afr_xl) (alloc : bool) (ctx : option Z) (loc : loc_t) : read_result :=
  read_start this alloc (Some (R_stat loc)) ctx (R_stat loc) (loc_inode loc).

Definition afr_fstat (this : afr_xl) (alloc : bool) (ctx : option Z) (fd : fd_t) : read_result :=
  read_start this alloc (Some (R_fstat fd)) ctx (R_fstat fd) (Some (fd_inode fd)).

Definition afr_readlink (this : afr_xl) (alloc : bool) (ctx : option Z) (loc : loc_t) (size : Z) : read_result :=
  read_start this alloc (Some (R_readlink loc size)) ctx (R_readlink loc size) (loc_inode loc).

(** [strdup_ok]: where the name cannot be copied the other children are asked for all
    attributes. *)
Definition afr_getxattr (this : afr_xl) (alloc strdup_ok : bool) (ctx : option Z) (loc : loc_t) (name : option string) : read_result :=
  if negb alloc then Some (None, [R_unwind (-1) ENOMEM D_none])
  else
    let kept := R_getxattr loc (if strdup_ok then name else None) in
    match name with
    | Some name' =>
        if String.prefix AFR_XATTR_PREFIX name' then Some (None, [R_unwind (-1) ENODATA D_none])
        else read_start this true (Some kept) ctx (R_getxattr loc name) (Some 0)
    | None => read_start this true (Some kept) ctx (R_getxattr loc name) (Some 0)
    end.

Definition afr_readv (this : afr_xl) (alloc : bool) (ctx : option Z) (fd : fd_t) (size offset : Z) : read_result :=
  read_start this alloc (Some (R_readv fd size offset)) ctx (R_readv fd size offset) (Some (fd_inode fd)).

Definition afr_getdents (this : afr_xl) (alloc : bool) (fd : fd_t) (size offset flag : Z) : read_result :=
  if negb alloc then Some (None, [R_unwind (-1) ENOMEM D_none])
  else
    let call_child := afr_first_up_child this in
    if call_child =? -1 then Some (None, [R_unwind (-1) ENOTCONN D_none])
    else
      let call := R_getdents fd size offset flag in
      Some (Some (mk_rl call call_child 0), [R_wind call_child (-1) call]).

(** The callback of a call. *)
Definition read_answer (this : afr_xl) (alloc : string -> bool) (local : option rlocal) (cookie : Z) (call : read_call)
    (ret err : Z) (d : read_data) : read_result :=
  match call with
  | R_access _ _ => afr_access_cbk this local cookie ret err d
  | R_stat _ => afr_stat_cbk this local cookie ret err d
  | R_fstat _ => afr_fstat_cbk this local cookie ret err d
  | R_readlink _ _ => afr_readlink_cbk this local cookie ret err d
  | R_getxattr _ _ => afr_getxattr_cbk this alloc local cookie ret err d
  | R_readv _ _ _ => afr_readv_cbk this local cookie ret err d
  | R_getdents _ _ _ _ => afr_getdents_cbk this local ret err d
  end.
