(* ===== verification/AfrOpendir.v ===== *)
(** * cluster/afr: opening and reading directories

    Model of afr-dir-read.c without getdents: readdir and readdirp, and opendir,
    which on the first open of a directory reads all of it on every child that
    is up, compares the checksums of the names and starts a self-heal where they
    differ. *)

From Stdlib Require Import Ascii String.
From stdpp Require Import base list numbers strings gmap.
From S2P Require Import Prelude ByteOrder AfrPending AfrTransaction AfrFops.
Open Scope Z_scope.

(** ** Checksums *)

(** [signed char] *)
Definition signed_char (c : ascii) : Z :=
  let n := Z.of_N (N_of_ascii c) in if 128 <=? n then n - 256 else n.

Definition signed_chars (s : string) : list Z := map signed_char (list_ascii_of_string s).

(** The loop over single bytes. *)
Definition weak_bytes (buf : list Z) (s1 s2 : Z) : Z * Z :=
  foldl (fun '(s1, s2) c => (u32 (s1 + c), u32 (s2 + u32 (s1 + c)))) (s1, s2) buf.

(** The loop over four bytes, while more than four are left, and then the other. *)
Fixpoint weak_blocks (buf : list Z) (s1 s2 : Z) : Z * Z :=
  match buf with
  | a :: b :: c :: d :: ((_ :: _) as rest) =>
      weak_blocks rest (u32 (s1 + (a + b + c + d))) (u32 (s2 + (4 * (s1 + a) + 3 * b + 2 * c + d)))
  | _ => weak_bytes buf s1 s2
  end.

Definition gf_rsync_weak_checksum (buf : list Z) : Z :=
  let '(s1, s2) := weak_blocks buf 0 0 in u32 (Z.land s1 (2 ^ 16 - 1) + Z.shiftl s2 16).

(** ** readdir *)

Record gf_dirent := mk_dirent { d_name : string; d_ino : Z; d_off : Z; d_stat_ino : Z }.

Definition GF_REPLICATE_TRASH_DIR : string := ".landfill".

(** The directory that self-heal moves things to is not shown. *)
Definition hide_trash (is_root : bool) (entries : list gf_dirent) : list gf_dirent :=
  List.filter (fun e => negb (is_root && String.eqb (d_name e) GF_REPLICATE_TRASH_DIR)) entries.

Definition transform (this : afr_xl) (child ino : Z) : Z :=
  afr_itransform ino (Z.of_nat (child_count (xl_priv this))) child.

Definition afr_readdir_cbk (this : afr_xl) (is_root : bool) (child ret : Z) (entries : list gf_dirent) :
    list gf_dirent :=
  if ret =? -1 then entries
  else hide_trash is_root
         (map (fun e => mk_dirent (d_name e) (transform this child (d_ino e)) (d_off e) (d_stat_ino e)) entries).

Definition afr_readdirp_cbk (this : afr_xl) (is_root : bool) (child ret : Z) (entries : list gf_dirent) :
    list gf_dirent :=
  if ret =? -1 then entries
  else hide_trash is_root
         (map (fun e => mk_dirent (d_name e) (transform this child (d_ino e)) (d_off e) (transform this child (d_stat_ino e)))
            entries).

(** The child that readdir asks, or the errno of the answer. *)
Definition afr_do_readdir (this : afr_xl) (alloc : bool) : Z + Z :=
  if negb alloc then inr ENOMEM
  else if afr_up_children_count (xl_child_up this) =? 0 then inr ENOTCONN
  else let call_child := afr_first_up_child this in if call_child =? -1 then inr ENOTCONN else inl call_child.

(** ** opendir *)

Record olocal := mk_ol {
  o_ret : Z;
  o_errno : Z;
  o_call_count : Z;
  o_child_up : list bool;
  o_checksum : option (list Z)           (* cont.opendir.checksum *)
}.

Inductive opendir_event :=
  | O_opendir (child : nat)
  | O_readdir (child : nat) (offset : Z)
  | O_self_heal
  | O_set_opendir_done
  | O_unwind (ret err : Z).

Abbreviation opendir_result := (option (option olocal * list opendir_event)).

Definition set_o_count (c : Z) (l : olocal) : olocal := mk_ol (o_ret l) (o_errno l) c (o_child_up l) (o_checksum l).
Definition set_o_ret (r e : Z) (l : olocal) : olocal := mk_ol r e (o_call_count l) (o_child_up l) (o_checksum l).
Definition set_o_checksum (c : option (list Z)) (l : olocal) : olocal :=
  mk_ol (o_ret l) (o_errno l) (o_call_count l) (o_child_up l) c.

(** The loop over the children that are up. *)
Fixpoint each_up (i : nat) (up : list bool) (call_count : Z) (ev : nat -> opendir_event) : list opendir_event :=
  match up with
  | [] => []
  | true :: up => ev i :: if call_count - 1 =? 0 then [] else each_up (S i) up (call_count - 1) ev
  | false :: up => each_up (S i) up call_count ev
  end.

Definition afr_opendir (this : afr_xl) (alloc : bool) : opendir_result :=
  if negb alloc then Some (None, [O_unwind (-1) ENOMEM])
  else
    let count := afr_up_children_count (xl_child_up this) in
    if count =? 0 then Some (None, [O_unwind (-1) ENOTCONN])
    else Some (Some (mk_ol (-1) EUCLEAN count (xl_child_up this) None), each_up 0 (xl_child_up this) count O_opendir).

(** The loop of [__checksums_differ], [todo] steps before its end. *)
Fixpoint differ_from (checksum : list Z) (todo i : nat) (cksum : Z) : option bool :=
  match todo with
  | O => Some false
  | S todo =>
      match checksum !! i with
      | None => None
      | Some c => if negb (cksum =? c) then Some true else differ_from checksum todo (S i) c
      end
  end.

Definition __checksums_differ (checksum : list Z) (child_count : nat) : option bool :=
  cksum ← head checksum; differ_from checksum child_count 0 cksum.

(** [alloc]: there is memory for the checksums; nobody asks. *)
Definition afr_examine_dir (this : afr_xl) (alloc : bool) (l : olocal) : opendir_result :=
  let checksum := if alloc then Some (replicate (child_count (xl_priv this)) 0) else None in
  let count := afr_up_children_count (o_child_up l) in
  Some (Some (set_o_count count (set_o_checksum checksum l)), each_up 0 (o_child_up l) count (fun i => O_readdir i 0)).

(** [ctx]: the context of the inode. *)
Definition afr_opendir_cbk (this : afr_xl) (alloc : bool) (ctx : option Z) (ret err : Z) (l : olocal) : opendir_result :=
  let l := set_o_ret (if 0 <=? ret then ret else o_ret l) err l in
  let l := set_o_count (u32 (o_call_count l - 1)) l in
  if o_call_count l =? 0 then
    if (o_ret l =? 0) && (afr_is_opendir_done ctx =? 0) then afr_examine_dir this alloc l
    else Some (None, [O_unwind (o_ret l) (o_errno l)])
  else Some (Some l, []).

Definition name_checksum (e : gf_dirent) : Z := gf_rsync_weak_checksum (signed_chars (d_name e)).

(** All names of an answer go into the checksum of the child. *)
Definition add_names (child : nat) (entries : list gf_dirent) (checksum : list Z) : list Z :=
  foldl (fun cs e => alter (fun c => Z.lxor c (name_checksum e)) child cs) checksum entries.

Definition last_offset (entries : list gf_dirent) : Z := foldl (fun _ e => d_off e) 0 entries.

(** The errno of a failure goes to [local->op_ret]. *)
Definition afr_examine_dir_readdir_cbk (this : afr_xl) (child : nat) (ret err : Z) (entries : list gf_dirent) (l : olocal) :
    opendir_result :=
  if (ret =? 0) || (ret =? -1) then
    let l := if ret =? -1 then set_o_ret err (o_errno l) l else l in
    let l := set_o_count (u32 (o_call_count l - 1)) l in
    if o_call_count l =? 0 then
      checksum ← o_checksum l;
      differ ← __checksums_differ checksum (child_count (xl_priv this));
      if differ : bool then Some (Some l, [O_self_heal])
      else Some (None, [O_set_opendir_done; O_unwind (o_ret l) (o_errno l)])
    else Some (Some l, [])
  else
    checksum ← (match entries with
                | [] => Some (o_checksum l)
                | _ => checksum ← o_checksum l; Some (Some (add_names child entries checksum))
                end);
    Some (Some (set_o_checksum checksum l), [O_readdir child (last_offset entries)]).

(** Self-heal is over. *)
Definition afr_examine_dir_sh_unwind (l : olocal) : opendir_result :=
  Some (None, [O_set_opendir_done; O_unwind (o_ret l) (o_errno l)]).
