(* ===== verification/AfrReadProps.v ===== *)
(** * cluster/afr: properties of reading

    A reader asks the children in a fixed order until one succeeds; a failed
    access crashes; the comparison of directories when one is opened. *)

From Stdlib Require Import Ascii String.
From stdpp Require Import base list numbers strings gmap relations.
From S2P Require Import Prelude ByteOrder AfrPending AfrTransaction AfrFops AfrSystem AfrRead AfrOpendir.
Open Scope Z_scope.

(** ** Failover *)

(** The start of any reader. *)
Definition read_begin (this : afr_xl) (alloc strdup_ok : bool) (ctx : option Z) (call : read_call) : read_result :=
  match call with
  | R_access loc mask => afr_access this alloc ctx loc mask
  | R_stat loc => afr_stat this alloc ctx loc
  | R_fstat fd => afr_fstat this alloc ctx fd
  | R_readlink loc size => afr_readlink this alloc ctx loc size
  | R_getxattr loc name => afr_getxattr this alloc strdup_ok ctx loc name
  | R_readv fd size offset => afr_readv this alloc ctx fd size offset
  | R_getdents fd size offset flag => afr_getdents this alloc fd size offset flag
  end.

(** What the children answer to a call. *)
Definition answering : Type := Z -> Z * Z * read_data.
Definition ret_of (answers : answering) (c : Z) : Z := (answers c).1.1.

(** Calls are answered until the caller is: the children asked, and the answer. *)
Fixpoint serve (this : afr_xl) (alloc : string -> bool) (fuel : nat) (answers : read_call -> answering) (local : option rlocal)
    (ev : list read_event) : option (list Z * (Z * Z * read_data)) :=
  match ev with
  | [R_unwind ret err d] => Some ([], (ret, err, d))
  | [R_wind c cookie call] =>
      match fuel with
      | O => None
      | S fuel =>
          let '(ret, err, d) := answers call c in
          '(local, ev) ← read_answer this alloc local cookie call ret err d;
          '(asked, reply) ← serve this alloc fuel answers local ev;
          Some (c :: asked, reply)
      end
  | _ => None
  end.

(** The order in which children are asked: the read child and then all others,
    or the first child that is up and those after it. *)
Definition others (count : nat) (cookie last_tried : Z) : list Z :=
  List.filter (fun c => negb (c =? cookie)) (seqZ (last_tried + 1) (Z.of_nat count - 1 - last_tried)).

Definition read_order (this : afr_xl) (ctx : option Z) (call : read_call) : option (list Z) :=
  let n := child_count (xl_priv this) in
  let read_child := i32 (afr_read_child ctx) in
  let up := afr_first_up_child this in
  let from_up := if up =? -1 then None else Some (up :: others n up up) in
  match call with
  | R_getdents _ _ _ _ => from_up
  | _ =>
      if 0 <=? read_child then
        if read_child <? Z.of_nat n then Some (read_child :: others n read_child (-1)) else None
      else from_up
  end.

(** The first child of an order that succeeds, or the last one, and those asked
    before. *)
Fixpoint ask (answers : answering) (c : Z) (order : list Z) : list Z * Z :=
  match order with
  | [] => ([c], c)
  | c' :: order =>
      if ret_of answers c =? -1 then let '(asked, w) := ask answers c' order in (c :: asked, w) else ([c], c)
  end.

(** What the caller is shown of the data of an answer. *)
Definition shown (alloc : string -> bool) (call : read_call) (ret : Z) (d : read_data) : read_data :=
  match call, d with
  | R_stat loc, D_stat (Some buf) => D_stat (Some (set_ino (default 0 (loc_inode loc)) buf))
  | R_fstat fd, D_stat (Some buf) => D_stat (Some (set_ino (fd_inode fd) buf))
  | R_readlink loc _, D_link path (Some buf) => D_link path (Some (set_ino (default 0 (loc_inode loc)) buf))
  | R_readv fd _ _, D_data vector (Some buf) => D_data vector (Some (set_ino (fd_inode fd) buf))
  | R_getxattr _ _, D_dict (Some dict) => D_dict (Some (if 0 <=? ret then __filter_xattrs alloc dict else dict))
  | _, _ => d
  end.

(** The inode whose number the caller is shown. *)
Definition call_ino (call : read_call) : option Z :=
  match call with
  | R_stat loc | R_readlink loc _ => loc_inode loc
  | R_fstat fd | R_readv fd _ _ => Some (fd_inode fd)
  | _ => Some 0
  end.

Lemma others_end count cookie : others count cookie (Z.of_nat count - 1) = [].
Proof. unfold others. by rewrite seqZ_nil by lia. Qed.

Lemma others_step count cookie last :
  last < Z.of_nat count - 1 ->
  others count cookie last = (if last + 1 =? cookie then [] else [last + 1]) ++ others count cookie (last + 1).
Proof.
  intros H. unfold others. rewrite seqZ_cons by lia. simpl.
  replace (Z.succ (last + 1)) with (last + 1 + 1) by lia.
  replace (Z.pred (Z.of_nat count - 1 - last)) with (Z.of_nat count - 1 - (last + 1)) by lia.
  by destruct (last + 1 =? cookie).
Qed.

(** Two passes of the loop are enough: it finds the next child in the order. *)
Lemma retry_next count cookie last :
  -1 <= last <= Z.of_nat count - 1 ->
  match others count cookie last with
  | [] => (retry 2 count cookie last).2 = None
  | c :: order => retry 2 count cookie last = (c, Some c) /\ others count cookie c = order /\ -1 <= c <= Z.of_nat count - 1
  end.
Proof.
  intros Hl. cbn [retry]. unfold all_tried. destruct (Z.eqb_spec last (Z.of_nat count - 1)) as [->|Hne]; [by rewrite others_end|].
  rewrite (others_step count cookie last) by lia. destruct (Z.eqb_spec (last + 1) cookie) as [Hc|Hc]; simpl; [|split_and!; [done|done|lia|lia]].
  destruct (Z.eqb_spec (last + 1) (Z.of_nat count - 1)) as [E|Hne2]; [by rewrite E, others_end|].
  rewrite (others_step count cookie (last + 1)) by lia. rewrite (proj2 (Z.eqb_neq (last + 1 + 1) cookie)) by lia.
  simpl. split_and!; [done|done|lia|lia].
Qed.

Definition is_access (call : read_call) : bool := match call with R_access _ _ => true | _ => false end.
Definition is_getdents (call : read_call) : bool := match call with R_getdents _ _ _ _ => true | _ => false end.

(** One answer: it is passed on, or the next child of the order is asked. *)
Lemma read_answer_next this alloc call last cookie ret err d ino :
  is_access call = false -> (is_getdents call = true -> cookie = -1) -> call_ino call = Some ino ->
  -1 <= last <= Z.of_nat (child_count (xl_priv this)) - 1 ->
  read_answer this alloc (Some (mk_rl call last ino)) cookie call ret err d =
  match others (child_count (xl_priv this)) cookie last with
  | c :: _ => if ret =? -1 then Some (Some (mk_rl call c ino), [R_wind c cookie call])
              else Some (None, [R_unwind ret err (shown alloc call ret d)])
  | [] => Some (None, [R_unwind ret err (shown alloc call ret d)])
  end.
Proof.
  intros Ha Hg Hi Hl. set (n := child_count (xl_priv this)) in *. pose proof (retry_next n cookie last Hl) as Hr.
  assert (forall fill, read_answer this alloc (Some (mk_rl call last ino)) cookie call ret err d =
      read_cbk this (Some (mk_rl call last ino)) cookie ret err d fill ->
    (forall last', fill (mk_rl call last' ino) d = shown alloc call ret d) ->
    read_answer this alloc (Some (mk_rl call last ino)) cookie call ret err d =
    match others n cookie last with
    | c :: _ => if ret =? -1 then Some (Some (mk_rl call c ino), [R_wind c cookie call])
                else Some (None, [R_unwind ret err (shown alloc call ret d)])
    | [] => Some (None, [R_unwind ret err (shown alloc call ret d)])
    end) as Hcb.
  { intros fill -> Hf. unfold read_cbk, set_last_tried. cbn [mbind option_bind rl_call rl_last_tried rl_ino]. fold n.
    destruct (others n cookie last) as [|c order].
    - destruct (retry 2 n cookie last) as [last' next]. simpl in Hr. subst next. by rewrite !Hf; destruct (ret =? -1).
    - destruct Hr as (-> & _ & _). by rewrite Hf; destruct (ret =? -1). }
  destruct call as [| | | | | |]; try done.
  - apply (Hcb fill_stat); [done|]. intros last'. destruct d as [|[]| | | |]; try done. simpl. simpl in Hi. by rewrite Hi.
  - apply (Hcb fill_stat); [done|]. intros last'. injection Hi as <-. by destruct d as [|[]| | | |].
  - eapply Hcb; [done|]. intros last'. destruct d as [| |path []| | |]; try done. simpl. simpl in Hi. by rewrite Hi.
  - eapply Hcb; [done|]. intros last'. by destruct d as [| | |[]| |].
  - eapply Hcb; [done|]. intros last'. injection Hi as <-. by destruct d as [| | | |? []|].
  - eapply Hcb; [by rewrite (Hg eq_refl)|]. done.
Qed.

Lemma serve_wind this alloc fuel answers local c cookie call ret err d :
  answers call c = (ret, err, d) ->
  serve this alloc (S fuel) answers local [R_wind c cookie call] =
  '(local, ev) ← read_answer this alloc local cookie call ret err d;
  '(asked, reply) ← serve this alloc fuel answers local ev;
  Some (c :: asked, reply).
Proof. intros E. simpl. by rewrite E. Qed.

Lemma serve_order this alloc call cookie ino answers order :
  is_access call = false -> (is_getdents call = true -> cookie = -1) -> call_ino call = Some ino ->
  forall c last, -1 <= last <= Z.of_nat (child_count (xl_priv this)) - 1 ->
  others (child_count (xl_priv this)) cookie last = order ->
  serve this alloc (S (length order)) answers (Some (mk_rl call last ino)) [R_wind c cookie call] =
  let '(asked, w) := ask (answers call) c order in
  let '(ret, err, d) := answers call w in Some (asked, (ret, err, shown alloc call ret d)).
Proof.
  intros Ha Hg Hi. induction order as [|c' order IH]; intros c last Hl Ho.
  - simpl. destruct (answers call c) as [[ret err] d] eqn:E. rewrite (read_answer_next this alloc call last cookie ret err d ino Ha Hg Hi Hl), Ho.
    done.
  - pose proof (retry_next (child_count (xl_priv this)) cookie last Hl) as Hr. rewrite Ho in Hr. destruct Hr as (_ & Ho' & Hl').
    cbn [ask]. unfold ret_of. destruct (answers call c) as [[ret err] d] eqn:E. cbn [fst length].
    rewrite (serve_wind _ _ _ _ _ _ _ _ ret err d E), (read_answer_next this alloc call last cookie ret err d ino Ha Hg Hi Hl), Ho.
    destruct (ret =? -1); cbn [mbind option_bind]; [|simpl; by rewrite E]. rewrite (IH c' c' Hl' Ho').
    destruct (ask (answers call) c' order) as [asked w]. by destruct (answers call w) as [[ret' err'] d'].
Qed.

Lemma elem_of_others count cookie last c :
  c ∈ others count cookie last <-> c <> cookie /\ last < c < Z.of_nat count.
Proof.
  unfold others. rewrite list_elem_of_In, List.filter_In, <-list_elem_of_In, elem_of_seqZ, negb_true_iff, Z.eqb_neq. lia.
Qed.

Lemma others_nodup count cookie last : NoDup (others count cookie last).
Proof. unfold others. apply NoDup_ListNoDup, List.NoDup_filter, NoDup_ListNoDup, NoDup_seqZ. Qed.

Lemma first_up_range i up : first_up i up = -1 \/ i <= first_up i up < i + Z.of_nat (length up).
Proof.
  revert i. induction up as [|[] up IH]; intros i; simpl; [by left|right; lia|].
  destruct (IH (i + 1)) as [->|H]; [by left|right; lia].
Qed.

Lemma ask_facts answers c order :
  let '(asked, w) := ask answers c order in
  asked `prefix_of` c :: order /\ last asked = Some w /\ (ret_of answers w = -1 <-> Forall (fun i => ret_of answers i = -1) (c :: order)).
Proof.
  revert c. induction order as [|c' order IH]; intros c; simpl.
  - split_and!; [done|done|]. by rewrite Forall_singleton.
  - specialize (IH c'). destruct (ask answers c' order) as [asked w]. destruct IH as (I1 & I2 & I3).
    destruct (Z.eqb_spec (ret_of answers c) (-1)) as [Hc|Hc].
    + split_and!; [by apply prefix_cons|by destruct asked|]. rewrite Forall_cons, I3. naive_solver.
    + split_and!; [by exists (c' :: order)|done|]. rewrite Forall_cons. naive_solver.
Qed.

Lemma others_all count cookie last : cookie <= last -> others count cookie last = others count last last.
Proof.
  intros H. unfold others. apply List.filter_ext_in. intros c Hc. apply list_elem_of_In, elem_of_seqZ in Hc.
  f_equal. destruct (Z.eqb_spec c cookie), (Z.eqb_spec c last); lia.
Qed.

Lemma first_up_ok this :
  this_ok this -> afr_first_up_child this <> -1 -> 0 <= afr_first_up_child this < Z.of_nat (child_count (xl_priv this)).
Proof.
  intros Hthis Hne. unfold afr_first_up_child in *.
  destruct (first_up_range 0 (xl_child_up this)) as [H|H]; [done|]. rewrite (tk_up _ Hthis) in H. lia.
Qed.

(** Where the order comes from. *)
Lemma read_start_order this ctx call ino c order :
  this_ok this -> is_getdents call = false -> read_order this ctx call = Some (c :: order) ->
  exists last, read_start this true (Some call) ctx call (Some ino) = Some (Some (mk_rl call last ino), [R_wind c c call]) /\
    order = others (child_count (xl_priv this)) c last /\ -1 <= last <= Z.of_nat (child_count (xl_priv this)) - 1.
Proof.
  intros Hthis Hg Ho. pose proof (first_up_ok this Hthis) as Hup. unfold read_order in Ho. unfold read_start. cbn [negb].
  set (rc := i32 (afr_read_child ctx)) in *. set (up := afr_first_up_child this) in *.
  assert ((if 0 <=? rc then if rc <? Z.of_nat (child_count (xl_priv this))
             then Some (rc :: others (child_count (xl_priv this)) rc (-1)) else None
           else if up =? -1 then None else Some (up :: others (child_count (xl_priv this)) up up)) = Some (c :: order)) as Ho'
    by (by destruct call).
  clear Ho. destruct (0 <=? rc) eqn:Hrc.
  - destruct (rc <? _) eqn:Hlt; [|done]. injection Ho' as <- <-. exists (-1). split_and!; [done|done|lia|lia].
  - destruct (Z.eqb_spec up (-1)) as [Hd|Hd]; [done|]. injection Ho' as <- <-. exists up. specialize (Hup Hd). cbn [mbind option_bind].
    rewrite (proj2 (Z.ltb_lt up _)) by lia. split_and!; [done|done|lia|lia].
Qed.

Lemma read_begin_order this ctx call ino c order :
  this_ok this -> is_access call = false ->
  (forall loc name, call = R_getxattr loc (Some name) -> String.prefix AFR_XATTR_PREFIX name = false) ->
  call_ino call = Some ino -> read_order this ctx call = Some (c :: order) ->
  exists cookie last, read_begin this true true ctx call = Some (Some (mk_rl call last ino), [R_wind c cookie call]) /\
    order = others (child_count (xl_priv this)) cookie last /\ (is_getdents call = true -> cookie = -1) /\
    -1 <= last <= Z.of_nat (child_count (xl_priv this)) - 1.
Proof.
  intros Hthis Ha Hx Hi Ho. destruct (is_getdents call) eqn:Hg.
  - destruct call as [| | | | | |fd size offset flag]; try done. injection Hi as <-. simpl in Ho. unfold afr_getdents, read_begin. simpl.
    unfold afr_getdents. simpl. pose proof (first_up_ok this Hthis) as Hup.
    destruct (Z.eqb_spec (afr_first_up_child this) (-1)) as [Hd|Hd]; [done|]. injection Ho as <- <-. specialize (Hup Hd).
    exists (-1), (afr_first_up_child this). split_and!; [done| |done|lia|lia]. symmetry. apply others_all. lia.
  - destruct (read_start_order this ctx call ino c order Hthis Hg Ho) as (last & Hs & H2 & H3). exists c, last.
    split; [|by split_and!; try lia]. rewrite <-Hs. destruct call as [| | | |loc [name|]| |]; try done; simpl in *.
    + unfold afr_stat. by rewrite Hi.
    + by injection Hi as <-.
    + unfold afr_readlink. by rewrite Hi.
    + unfold afr_getxattr. simpl. rewrite (Hx loc name eq_refl). by injection Hi as <-.
    + by injection Hi as <-.
    + by injection Hi as <-.
Qed.

Lemma read_order_nodup this ctx call c order : read_order this ctx call = Some (c :: order) -> NoDup (c :: order).
Proof.
  intros Ho. assert (exists last, order = others (child_count (xl_priv this)) c last) as [last ->].
  { unfold read_order in Ho. destruct call; repeat case_match; try done; injection Ho as <- <-; by eexists. }
  constructor; [|apply others_nodup]. rewrite elem_of_others. naive_solver.
Qed.

(** C16: The readers stat, fstat, readlink, getxattr, readv and getdents (access and
    readdir are not among them) ask one child after the other for the call of the
    caller, in the order of [read_order], none of them twice, until one succeeds,
    whatever the error of those before was: not only after ENOTCONN, as the comment
    at the top of afr-inode-read.c has it.  The caller gets the answer of the first
    child that succeeds, or of the last one if none does, so the answer is a failure
    exactly if every child failed; the inode number in it is that of the file as the
    caller knows it, and the changelog attributes are removed from it.  The local
    data and the copy of a name are allocated, and getxattr is not for a changelog
    attribute. *)
Theorem afr_read_failover this alloc ctx call answers c order :
  this_ok this -> is_access call = false ->
  (forall loc name, call = R_getxattr loc (Some name) -> String.prefix AFR_XATTR_PREFIX name = false) ->
  is_Some (call_ino call) -> read_order this ctx call = Some (c :: order) ->
  NoDup (c :: order) /\
  exists local ev asked w ret err d,
    read_begin this true true ctx call = Some (local, ev) /\ answers call w = (ret, err, d) /\
    serve this alloc (length (c :: order)) answers local ev = Some (asked, (ret, err, shown alloc call ret d)) /\
    asked `prefix_of` c :: order /\ last asked = Some w /\
    (ret = -1 <-> Forall (fun i => ret_of (answers call) i = -1) (c :: order)).
Proof.
  intros Hthis Ha Hx [ino Hi] Ho. split; [by eapply read_order_nodup|].
  destruct (read_begin_order this ctx call ino c order Hthis Ha Hx Hi Ho) as (cookie & last & Hb & Hor & Hg & Hl).
  pose proof (serve_order this alloc call cookie ino answers order Ha Hg Hi c last Hl (eq_sym Hor)) as Hs.
  pose proof (ask_facts (answers call) c order) as Hf. destruct (ask (answers call) c order) as [asked w].
  destruct Hf as (F1 & F2 & F3). unfold ret_of in F3 at 1. destruct (answers call w) as [[ret err] d] eqn:Ew.
  by exists (Some (mk_rl call last ino)), [R_wind c cookie call], asked, w, ret, err, d.
Qed.

(** Two children; the second one is the read child of the file. *)
Definition mirror : afr_xl :=
  mk_xl (mk_priv 2 ["trusted.afr.a"; "trusted.afr.b"]%string true true true 1 1 1) [true; true] 1 0 0 2 0.
Definition note : fd_t := mk_fd 20 false.

(** The read child fails, the other one has the data. *)
Definition second_fails : read_call -> answering := fun _ c => if c =? 1 then (-1, EIO, D_none) else (3, 0, D_data [[1; 2; 3]] None).

Lemma afr_read_failover_witness :
  read_order mirror (Some 1) (R_readv note 3 0) = Some [1; 0] /\
  exists local ev, read_begin mirror true true (Some 1) (R_readv note 3 0) = Some (local, ev) /\
    serve mirror (fun _ => true) 2 second_fails local ev = Some ([1; 0], (3, 0, D_data [[1; 2; 3]] None)).
Proof.
  assert (read_order mirror (Some 1) (R_readv note 3 0) = Some [1; 0]) as E by reflexivity. split; [exact E|].
  destruct (afr_read_failover mirror (fun _ => true) (Some 1) (R_readv note 3 0) second_fails 1 [0]) as (_ & Hw);
    [by split|reflexivity|discriminate|by eexists|exact E|].
  destruct Hw as (local & ev & asked & w & ret & err & d & Hb & _ & _ & _ & _ & _).
  exists local, ev. split; [exact Hb|]. injection Hb as <- <-. reflexivity.
Defined.

(** A failure of access on the child that is asked first crashes: the local
    data are allocated and filled in, but not attached to the frame, and the
    callback follows the null pointer to find the next child.  A success is
    passed on. *)
Theorem access_failure_crashes this ctx loc mask local c cookie call :
  afr_access this true ctx loc mask = Some (local, [R_wind c cookie call]) ->
  (forall err d, afr_access_cbk this local cookie (-1) err d = None) /\
  (forall ret err d, ret <> -1 -> afr_access_cbk this local cookie ret err d = Some (None, [R_unwind ret err D_none])).
Proof.
  unfold afr_access, read_start. cbn [negb]. intros E.
  assert (local = None) as -> by (repeat case_match; simplify_option_eq; done).
  split; [done|]. intros ret err d Hr. simpl. by rewrite (proj2 (Z.eqb_neq ret (-1)) Hr).
Qed.

Lemma access_failure_crashes_witness :
  afr_access mirror true (Some 0) (mk_loc "f" (Some 20) (Some 1)) 4
    = Some (None, [R_wind 0 0 (R_access (mk_loc "f" (Some 20) (Some 1)) 4)]) /\
  afr_access_cbk mirror None 0 (-1) EIO D_none = None.
Proof.
  assert (afr_access mirror true (Some 0) (mk_loc "f" (Some 20) (Some 1)) 4
    = Some (None, [R_wind 0 0 (R_access (mk_loc "f" (Some 20) (Some 1)) 4)])) as E by reflexivity.
  split; [exact E|]. exact (proj1 (access_failure_crashes _ _ _ _ _ _ _ _ E) EIO D_none).
Defined.

(** ** The weak checksum *)

Definition sum_chars (buf : list Z) : Z := foldr Z.add 0 buf.

(** Every byte counted once for each position from it to the end. *)
Fixpoint weighted (buf : list Z) : Z :=
  match buf with
  | [] => 0
  | b :: rest => Z.of_nat (length buf) * b + weighted rest
  end.

Lemma u32_eq x y k : x = y + k * 2 ^ 32 -> u32 x = u32 y.
Proof. intros ->. unfold u32. apply Z_mod_plus_full. Qed.

Lemma u32_split x : exists k, u32 x = x + k * 2 ^ 32.
Proof. exists (- (x / 2 ^ 32)). unfold u32. rewrite Z.mod_eq by done. lia. Qed.

Lemma weak_bytes_sums buf a b :
  weak_bytes buf (u32 a) (u32 b) = (u32 (a + sum_chars buf), u32 (b + Z.of_nat (length buf) * a + weighted buf)).
Proof.
  revert a b. induction buf as [|c buf IH]; intros a b.
  - unfold weak_bytes. simpl. by rewrite !Z.add_0_r.
  - unfold weak_bytes in *. cbn [foldl]. destruct (u32_split a) as [k Hk], (u32_split b) as [k' Hk'].
    rewrite (u32_eq (u32 a + c) (a + c) k) by lia. destruct (u32_split (a + c)) as [k2 Hk2].
    rewrite (u32_eq (u32 b + u32 (a + c)) (b + (a + c)) (k' + k2)) by lia.
    rewrite IH. f_equal; f_equal; cbn [sum_chars foldr weighted length]; unfold sum_chars; lia.
Qed.

Lemma weak_blocks_sums m buf a b :
  (length buf <= m)%nat ->
  weak_blocks buf (u32 a) (u32 b) = (u32 (a + sum_chars buf), u32 (b + Z.of_nat (length buf) * a + weighted buf)).
Proof.
  revert buf a b. induction m as [|m IH]; intros buf a b Hm.
  - destruct buf; [|simpl in Hm; lia]. apply weak_bytes_sums.
  - destruct buf as [|x [|y [|z [|w [|v rest]]]]]; try apply weak_bytes_sums.
    change (weak_blocks (x :: y :: z :: w :: v :: rest) (u32 a) (u32 b)) with
      (weak_blocks (v :: rest) (u32 (u32 a + (x + y + z + w))) (u32 (u32 b + (4 * (u32 a + x) + 3 * y + 2 * z + w)))).
    destruct (u32_split a) as [k Hk], (u32_split b) as [k' Hk'].
    rewrite (u32_eq (u32 a + (x + y + z + w)) (a + (x + y + z + w)) k) by lia.
    rewrite (u32_eq (u32 b + (4 * (u32 a + x) + 3 * y + 2 * z + w)) (b + (4 * (a + x) + 3 * y + 2 * z + w)) (k' + 4 * k)) by lia.
    rewrite IH by (cbn [length] in *; lia). f_equal; f_equal.
    + unfold sum_chars. simpl. lia.
    + cbn [length weighted]. lia.
Qed.

(** The checksum of a buffer, which the code computes four bytes at a time with
    32 bit arithmetic, has the sum of the bytes in its low half and the sum of
    the bytes weighted by their distance to the end in its high half, both
    modulo [2 ^ 16], for buffers of any length. *)
Theorem weak_checksum_sums buf :
  gf_rsync_weak_checksum buf = (sum_chars buf) `mod` 2 ^ 16 + 2 ^ 16 * (weighted buf `mod` 2 ^ 16).
Proof.
  unfold gf_rsync_weak_checksum. change 0 with (u32 0). rewrite (weak_blocks_sums (length buf)) by lia.
  change (2 ^ 16 - 1) with (Z.ones 16). rewrite Z.mul_0_r, !Z.add_0_l, Z.land_ones, Z.shiftl_mul_pow2 by lia.
  assert (forall x, (u32 x) `mod` 2 ^ 16 = x `mod` 2 ^ 16) as Hm.
  { intros x. unfold u32. replace (2 ^ 32) with (2 ^ 16 * 2 ^ 16) by lia. rewrite Z.rem_mul_r by lia.
    by rewrite (Z.mul_comm (2 ^ 16) (_ `mod` _)), Z_mod_plus_full, Z.mod_mod. }
  rewrite Hm. pose proof (Z.mod_pos_bound (sum_chars buf) (2 ^ 16)) as H1.
  pose proof (Z.mod_pos_bound (weighted buf) (2 ^ 16)) as H2.
  destruct (u32_split (weighted buf)) as [k Hk]. unfold u32 at 1.
  symmetry. apply (Z.mod_unique _ _ (k * 2 ^ 16 + weighted buf / 2 ^ 16)); [lia|]. rewrite Hk.
  rewrite (Z.div_mod (weighted buf) (2 ^ 16)) at 1 by lia. lia.
Qed.
