(* ===== verification/AfrOpendirProps.v ===== *)
(** * cluster/afr: opening a directory

    The first opendir of a directory as a system: children answer in any order,
    and a directory is read in as many parts as a child likes. *)

From stdpp Require Import base list numbers strings gmap relations.
From S2P Require Import Prelude ByteOrder AfrPending AfrTransaction AfrFops AfrTransFacts AfrSystem AfrOpendir.
Open Scope Z_scope.

(** What the children have answered to readdir. *)
Inductive dir_log := L_names (child : nat) (entries : list gf_dirent) | L_failed (err : Z).

(** [d_events]: everything the operation has done. *)
Record dreq := mk_dreq {
  d_local : option olocal;
  d_pending : list opendir_event;
  d_events : list opendir_event;
  d_log : list dir_log
}.

#[export] Instance opendir_event_eq : EqDecision opendir_event.
Proof. solve_decision. Defined.

Definition awaited (ev : opendir_event) : bool :=
  match ev with O_opendir _ | O_readdir _ _ | O_self_heal => true | _ => false end.
Definition awaiting (ev : list opendir_event) : list opendir_event := List.filter awaited ev.

Definition d_start (res : option olocal * list opendir_event) : dreq := mk_dreq res.1 (awaiting res.2) res.2 [].

(** What an answer to a call does.  [alloc]: memory for the checksums. *)
Definition d_handle (this : afr_xl) (ctx : option Z) (alloc : bool) (call : opendir_event) (ret err : Z)
    (entries : list gf_dirent) (l : olocal) : opendir_result :=
  match call with
  | O_opendir _ => afr_opendir_cbk this alloc ctx ret err l
  | O_readdir i _ => afr_examine_dir_readdir_cbk this i ret err entries l
  | O_self_heal => afr_examine_dir_sh_unwind l
  | _ => None
  end.

Definition log_dir (call : opendir_event) (ret err : Z) (entries : list gf_dirent) : list dir_log :=
  match call with
  | O_readdir i _ => if ret =? 0 then [] else if ret =? -1 then [L_failed err] else [L_names i entries]
  | _ => []
  end.

(** opendir answers 0 or -1; there is memory. *)
Definition d_answer_ok (alloc : bool) (call : opendir_event) (ret : Z) : Prop :=
  match call with O_opendir _ => (ret = 0 \/ ret = -1) /\ alloc = true | _ => True end.

Inductive dir_step (this : afr_xl) (ctx : option Z) : dreq -> dreq -> Prop :=
  | dir_answer r l alloc call ret err entries p1 p2 l' ev :
      d_local r = Some l -> d_pending r = p1 ++ call :: p2 -> d_answer_ok alloc call ret ->
      d_handle this ctx alloc call ret err entries l = Some (l', ev) ->
      dir_step this ctx r (mk_dreq l' (p1 ++ p2 ++ awaiting ev) (d_events r ++ ev) (d_log r ++ log_dir call ret err entries)).

(** ** What is to be computed *)

(** The names a child has, as a checksum. *)
Definition names_sum (entries : list gf_dirent) (c : Z) : Z := foldl (fun c e => Z.lxor c (name_checksum e)) c entries.

Definition child_sum (log : list dir_log) (i : nat) : Z :=
  foldl (fun c x => match x with L_names j entries => if (j =? i)%nat then names_sum entries c else c | _ => c end) 0 log.

(** The last error. *)
Definition log_ret (log : list dir_log) : Z := foldl (fun r x => match x with L_failed err => err | _ => r end) 0 log.

Definition sums (n : nat) (log : list dir_log) : list Z := map (child_sum log) (seq 0 n).

Definition answers_of (ev : list opendir_event) : list Z :=
  omap (fun e => match e with O_unwind r _ => Some r | _ => None end) ev.

(** ** Phases *)

Definition opening (ev : opendir_event) : Prop := match ev with O_opendir _ => True | _ => False end.
Definition reading (n : nat) (ev : opendir_event) : Prop := match ev with O_readdir i _ => (i < n)%nat | _ => False end.

Inductive d_phase (n : nat) (l : olocal) (log : list dir_log) (ev : list opendir_event) : list opendir_event -> Prop :=
  | dp_open pend :
      Forall opening pend -> pend <> [] -> o_call_count l = Z.of_nat (length pend) -> (length pend <= n)%nat ->
      log = [] -> O_self_heal ∉ ev -> O_set_opendir_done ∉ ev -> (o_ret l = 0 \/ o_ret l = -1) -> d_phase n l log ev pend
  | dp_read pend :
      Forall (reading n) pend -> pend <> [] -> o_call_count l = Z.of_nat (length pend) -> (length pend <= n)%nat ->
      o_checksum l = Some (sums n log) -> o_ret l = log_ret log -> O_self_heal ∉ ev -> O_set_opendir_done ∉ ev ->
      d_phase n l log ev pend
  | dp_heal :
      o_ret l = log_ret log -> O_self_heal ∈ ev -> O_set_opendir_done ∉ ev ->
      (exists i j, (i < n)%nat /\ (j < n)%nat /\ child_sum log i <> child_sum log j) -> d_phase n l log ev [O_self_heal].

Definition d_inv (n : nat) (r : dreq) : Prop :=
  match d_local r with
  | Some l => answers_of (d_events r) = [] /\ length (o_child_up l) = n /\ afr_up_children_count (o_child_up l) <> 0 /\
              d_phase n l (d_log r) (d_events r) (d_pending r)
  | None =>
      d_pending r = [] /\
      exists ret, answers_of (d_events r) = [ret] /\
        (O_set_opendir_done ∈ d_events r -> ret = log_ret (d_log r)) /\
        (O_self_heal ∈ d_events r -> exists i j, (i < n)%nat /\ (j < n)%nat /\ child_sum (d_log r) i <> child_sum (d_log r) j) /\
        (O_set_opendir_done ∈ d_events r -> O_self_heal ∉ d_events r ->
           forall i j, (i < n)%nat -> (j < n)%nat -> child_sum (d_log r) i = child_sum (d_log r) j) /\
        (O_set_opendir_done ∉ d_events r -> O_self_heal ∉ d_events r)
  end.

(** ** Checksums *)

Lemma differ_from_spec cs todo i c :
  (i + todo = length cs)%nat ->
  exists b, differ_from cs todo i c = Some b /\ (b = false <-> forall j x, (i <= j)%nat -> cs !! j = Some x -> x = c).
Proof.
  revert i c. induction todo as [|todo IH]; intros i c Hl.
  - exists false. split; [done|]. split; [|done]. intros _ j x Hj Hx. apply lookup_lt_Some in Hx. lia.
  - simpl. destruct (lookup_lt_is_Some_2 cs i) as [y Hy]; [lia|]. rewrite Hy.
    destruct (Z.eqb_spec c y) as [<-|Hne]; simpl.
    + destruct (IH (S i) c) as (b & E & Hb); [lia|]. exists b. split; [done|]. rewrite Hb. split; intros H j x Hj Hx.
      * destruct (Nat.eq_dec j i) as [->|]; [congruence|]. apply (H j); [lia|done].
      * apply (H j); [lia|done].
    + exists true. split; [done|]. split; [done|]. intros H. exfalso. apply Hne. symmetry. by apply (H i).
Qed.

Lemma sums_lookup n log i x : sums n log !! i = Some x <-> (i < n)%nat /\ x = child_sum log i.
Proof.
  unfold sums. rewrite list_lookup_fmap, fmap_Some. setoid_rewrite lookup_seq. naive_solver lia.
Qed.

Lemma sums_differ n log :
  (0 < n)%nat ->
  exists b, __checksums_differ (sums n log) n = Some b /\
    (b = false <-> forall i j, (i < n)%nat -> (j < n)%nat -> child_sum log i = child_sum log j).
Proof.
  intros Hn. unfold __checksums_differ. assert (head (sums n log) = Some (child_sum log 0)) as -> by (by destruct n; [lia|]).
  destruct (differ_from_spec (sums n log) n 0 (child_sum log 0)) as (b & E & Hb).
  { unfold sums. by rewrite length_map, length_seq. }
  exists b. split; [done|]. rewrite Hb. split; intros H.
  - assert (forall i, (i < n)%nat -> child_sum log i = child_sum log 0) as H0.
    { intros i Hi. apply (H i); [lia|]. by apply sums_lookup. }
    intros i j Hi Hj. by rewrite (H0 i), (H0 j).
  - intros j x _ [Hj ->]%sums_lookup. apply H; lia.
Qed.

Lemma differ_some n log : 
  ~ (forall i j, (i < n)%nat -> (j < n)%nat -> child_sum log i = child_sum log j) ->
  exists i j, (i < n)%nat /\ (j < n)%nat /\ child_sum log i <> child_sum log j.
Proof.
  intros H. assert (forall m, (m <= n)%nat ->
    (forall i, (i < m)%nat -> child_sum log i = child_sum log 0) \/ exists i, (i < n)%nat /\ child_sum log i <> child_sum log 0) as Hm.
  { induction m as [|m IH]; intros Hm; [left; lia|]. destruct IH as [IH|IH]; [lia| |by right].
    destruct (Z.eq_dec (child_sum log m) (child_sum log 0)) as [E|E]; [left|right; exists m; split; [lia|done]].
    intros i Hi. destruct (Nat.eq_dec i m) as [->|]; [done|]. apply IH. lia. }
  destruct (Hm n) as [Hall|(i & Hi & Hne)]; [lia| |].
  - exfalso. apply H. intros i j Hi Hj. by rewrite (Hall i), (Hall j).
  - exists i, 0%nat. split_and!; [done|lia|done].
Qed.

Lemma add_names_alter i entries cs : add_names i entries cs = alter (names_sum entries) i cs.
Proof.
  unfold add_names, names_sum. revert cs. induction entries as [|e es IH]; intros cs; simpl.
  - symmetry. apply list_eq. intros j. destruct (decide (i = j)) as [->|Hne].
    + rewrite list_lookup_alter_eq. by destruct (cs !! j).
    + by rewrite list_lookup_alter_ne.
  - rewrite IH. apply list_eq. intros j. destruct (decide (i = j)) as [->|Hne].
    + rewrite !list_lookup_alter_eq. by destruct (cs !! j).
    + by rewrite !list_lookup_alter_ne.
Qed.

Lemma child_sum_names log i entries j :
  child_sum (log ++ [L_names i entries]) j = if (i =? j)%nat then names_sum entries (child_sum log j) else child_sum log j.
Proof. unfold child_sum. by rewrite foldl_app. Qed.

Lemma sums_names n log i entries : add_names i entries (sums n log) = sums n (log ++ [L_names i entries]).
Proof.
  rewrite add_names_alter. apply list_eq. intros j. unfold sums. rewrite list_lookup_fmap.
  destruct (decide (i = j)) as [->|Hne].
  - rewrite list_lookup_alter_eq, list_lookup_fmap. destruct (seq 0 n !! j) as [k|] eqn:E; [|done]. simpl.
    apply lookup_seq in E as [-> _]. by rewrite child_sum_names, Nat.eqb_refl.
  - rewrite list_lookup_alter_ne, list_lookup_fmap by done. destruct (seq 0 n !! j) as [k|] eqn:E; [|done]. simpl.
    apply lookup_seq in E as [-> _]. by rewrite child_sum_names, (proj2 (Nat.eqb_neq i (0 + j))).
Qed.

Lemma sums_nil n : sums n [] = replicate n 0.
Proof. apply list_eq. intros j. unfold sums. rewrite list_lookup_fmap. destruct (decide (j < n)%nat) as [Hj|Hj].
  - rewrite lookup_replicate_2, lookup_seq_lt by done. done.
  - rewrite lookup_seq_ge, lookup_ge_None_2; [done|rewrite length_replicate; lia|lia].
Qed.

Lemma sums_failed n log err : sums n (log ++ [L_failed err]) = sums n log.
Proof. unfold sums. apply map_ext. intros i. unfold child_sum. by rewrite foldl_app. Qed.

Lemma log_ret_failed log err : log_ret (log ++ [L_failed err]) = err.
Proof. unfold log_ret. by rewrite foldl_app. Qed.

Lemma log_ret_names log i entries : log_ret (log ++ [L_names i entries]) = log_ret log.
Proof. unfold log_ret. by rewrite foldl_app. Qed.

(** ** Calls *)

Lemma each_up_shape P i up cc ev :
  cc = afr_up_children_count up -> (forall j, (i <= j < i + length up)%nat -> P (ev j)) -> (forall j, awaited (ev j) = true) ->
  let evs := each_up i up cc ev in
  awaiting evs = evs /\ Forall P evs /\ Z.of_nat (length evs) = cc.
Proof.
  cbv zeta. intros Hc Hp Ha. revert i cc Hc Hp.
  induction up as [|[] up IH]; intros i cc Hc Hp; rewrite ?up_count_cons in Hc; simpl; [done| |].
  - assert (P (ev i)) as Hi by (apply Hp; simpl; lia). rewrite Ha.
    destruct (Z.eqb_spec (cc - 1) 0) as [Hz|Hz].
    { split_and!; [done|by constructor|simpl; lia]. }
    destruct (IH (S i) (cc - 1)) as (I1 & I2 & I3); [lia|intros j Hj; apply Hp; simpl; lia|].
    split_and!; [by unfold awaiting in *; rewrite I1|by constructor|cbn [length]; lia].
  - apply IH; [lia|]. intros j Hj. apply Hp. simpl. lia.
Qed.

Lemma opening_plain pend :
  Forall opening pend -> answers_of pend = [] /\ O_self_heal ∉ pend /\ O_set_opendir_done ∉ pend.
Proof.
  intros H. split_and!.
  - induction H as [|ev pend Hev _ IH]; [done|]. by destruct ev.
  - intros Hin. rewrite Forall_forall in H. by specialize (H _ Hin).
  - intros Hin. rewrite Forall_forall in H. by specialize (H _ Hin).
Qed.

Lemma reading_plain n pend :
  Forall (reading n) pend -> answers_of pend = [] /\ O_self_heal ∉ pend /\ O_set_opendir_done ∉ pend.
Proof.
  intros H. split_and!.
  - induction H as [|ev pend Hev _ IH]; [done|]. by destruct ev.
  - intros Hin. rewrite Forall_forall in H. by specialize (H _ Hin).
  - intros Hin. rewrite Forall_forall in H. by specialize (H _ Hin).
Qed.

Lemma answers_of_app e1 e2 : answers_of (e1 ++ e2) = answers_of e1 ++ answers_of e2.
Proof. apply omap_app. Qed.

Lemma opendir_start this alloc :
  this_ok this -> exists res, afr_opendir this alloc = Some res /\ d_inv (child_count (xl_priv this)) (d_start res).
Proof.
  intros Hthis. unfold afr_opendir. destruct alloc; simpl.
  2: { eexists. split; [done|]. unfold d_inv. simpl. split; [done|]. exists (-1). split_and!; try done; set_solver. }
  destruct (Z.eqb_spec (afr_up_children_count (xl_child_up this)) 0) as [Hz|Hz].
  { eexists. split; [done|]. unfold d_inv. simpl. split; [done|]. exists (-1). split_and!; try done; set_solver. }
  destruct (each_up_shape opening 0 (xl_child_up this) _ O_opendir eq_refl) as (E1 & E2 & E3); [done|done|].
  destruct (opening_plain _ E2) as (P1 & P2 & P3). pose proof (up_count_le (xl_child_up this)) as Hle.
  rewrite (tk_up _ Hthis) in Hle.
  eexists. split; [done|]. unfold d_inv. simpl. rewrite E1. split_and!; [done|apply Hthis|done|]. apply dp_open; simpl; try done; [|lia|by right].
  intros Hn. rewrite Hn in E3. simpl in E3. lia.
Qed.

Section steps.
Context (this : afr_xl) (ctx : option Z) (Hthis : this_ok this).
Abbreviation n := (child_count (xl_priv this)).

(** One answer less to come. *)
Lemma count_less (c : Z) (len : nat) : c = Z.of_nat (S len) -> (S len <= n)%nat -> u32 (c - 1) = Z.of_nat len.
Proof using Hthis. intros -> Hl. pose proof (tk_count _ Hthis). rewrite u32_small by (unfold is_u32; lia). lia. Qed.

Lemma opendir_answer l alloc ret err p1 p2 ev i :
  d_answer_ok alloc (O_opendir i) ret -> answers_of ev = [] -> length (o_child_up l) = n ->
  afr_up_children_count (o_child_up l) <> 0 -> d_phase n l [] ev (p1 ++ O_opendir i :: p2) ->
  exists l' ev', afr_opendir_cbk this alloc ctx ret err l = Some (l', ev') /\
    d_inv n (mk_dreq l' (p1 ++ p2 ++ awaiting ev') (ev ++ ev') []).
Proof using Hthis.
  intros [Hr ->] Hans Hu Hup Hph. remember (p1 ++ O_opendir i :: p2) as pend eqn:Ep.
  destruct Hph as [pend F1 F2 F3 F4 F5 F6 F7 F8|pend F1|]; subst.
  2: { apply Forall_app in F1 as [_ [? _]%Forall_cons]. done. }
  2: { by destruct p1 as [|? [|]]. }
  rewrite length_app in F3, F4. cbn [length] in F3, F4.
  unfold afr_opendir_cbk. set (ret' := if 0 <=? ret then ret else o_ret l).
  assert (ret' = 0 \/ ret' = -1) as Hr' by (unfold ret'; destruct (Z.leb_spec 0 ret); lia).
  cbn [o_call_count set_o_count set_o_ret o_ret o_errno].
  rewrite (count_less _ (length p1 + length p2)%nat) by lia.
  destruct (Z.eqb_spec (Z.of_nat (length p1 + length p2)) 0) as [Hz|Hz].
  - assert (p1 = [] /\ p2 = []) as [-> ->] by (split; apply nil_length_inv; lia).
    destruct ((ret' =? 0) && (afr_is_opendir_done ctx =? 0)) eqn:Hex.
    + apply andb_true_iff in Hex as [->%Z.eqb_eq _]. unfold afr_examine_dir. simpl.
      destruct (each_up_shape (reading n) 0 (o_child_up l) _ (fun i => O_readdir i 0) eq_refl) as (E1 & E2 & E3);
        [simpl; lia|done|]. destruct (reading_plain _ _ E2) as (P1 & P2 & P3).
      pose proof (up_count_le (o_child_up l)) as Hle.
      do 2 eexists. split; [done|]. unfold d_inv. simpl. rewrite E1, answers_of_app, Hans, P1. split_and!; [done..|].
      apply dp_read; simpl; try done; [|lia|by rewrite sums_nil|set_solver..].
      intros Hn. rewrite Hn in E3. simpl in E3. lia.
    + do 2 eexists. split; [done|]. unfold d_inv. simpl. rewrite answers_of_app, Hans. split; [done|]. exists ret'.
      split_and!; try done; set_solver.
  - do 2 eexists. split; [done|]. unfold d_inv. simpl. rewrite !app_nil_r. split_and!; [done..|].
    apply Forall_app in F1 as [? [_ ?]%Forall_cons]. apply dp_open; simpl; rewrite ?length_app; try done; [by apply Forall_app| |lia].
    intros Hn. apply app_eq_nil in Hn as [-> ->]. simpl in Hz. done.
Qed.

(** All directories are read: the end. *)
Lemma readdir_last l ev log :
  answers_of ev = [] -> length (o_child_up l) = n -> afr_up_children_count (o_child_up l) <> 0 -> (0 < n)%nat ->
  o_checksum l = Some (sums n log) -> o_ret l = log_ret log -> O_self_heal ∉ ev -> O_set_opendir_done ∉ ev ->
  exists l' ev',
    (checksum ← o_checksum l;
     differ ← __checksums_differ checksum n;
     if differ : bool then Some (Some l, [O_self_heal])
     else Some (None, [O_set_opendir_done; O_unwind (o_ret l) (o_errno l)])) = Some (l', ev') /\
    d_inv n (mk_dreq l' (awaiting ev') (ev ++ ev') log).
Proof using Hthis.
  intros Hans Hu Hup Hn Hc Hr F6 F7. rewrite Hc. simpl. destruct (sums_differ n log Hn) as (b & -> & Hb). simpl. destruct b.
  - do 2 eexists. split; [done|]. unfold d_inv. simpl. rewrite answers_of_app, Hans. split_and!; [done..|].
    apply dp_heal; [done|set_solver|set_solver|]. apply differ_some. intros H. by apply Hb in H.
  - do 2 eexists. split; [done|]. unfold d_inv. simpl. rewrite answers_of_app, Hans. split; [done|]. exists (o_ret l).
    split_and!; [done|done|set_solver| |set_solver]. intros _ _. by apply Hb.
Qed.

Lemma readdir_answer l ret err entries p1 p2 ev log i off :
  answers_of ev = [] -> length (o_child_up l) = n -> afr_up_children_count (o_child_up l) <> 0 ->
  d_phase n l log ev (p1 ++ O_readdir i off :: p2) ->
  exists l' ev', afr_examine_dir_readdir_cbk this i ret err entries l = Some (l', ev') /\
    d_inv n (mk_dreq l' (p1 ++ p2 ++ awaiting ev') (ev ++ ev') (log ++ log_dir (O_readdir i off) ret err entries)).
Proof using Hthis.
  intros Hans Hu Hup Hph. remember (p1 ++ O_readdir i off :: p2) as pend eqn:Ep.
  destruct Hph as [pend F1|pend F1 F2 F3 F4 F5 F6 F7 F8|]; subst.
  1: { apply Forall_app in F1 as [_ [? _]%Forall_cons]. done. }
  2: { by destruct p1 as [|? [|]]. }
  apply Forall_app in F1 as [G1 [G2 G3]%Forall_cons]. rewrite length_app in F3, F4. cbn [length] in F3, F4. simpl in G2.
  unfold afr_examine_dir_readdir_cbk, log_dir. destruct ((ret =? 0) || (ret =? -1)) eqn:Hend.
  - set (log' := log ++ _). set (l1 := if ret =? -1 then _ else l).
    assert (o_child_up l1 = o_child_up l /\ o_call_count l1 = o_call_count l /\ o_checksum l1 = Some (sums n log') /\
      o_ret l1 = log_ret log') as (A1 & A2 & A3 & A4).
    { unfold l1, log'. destruct (Z.eqb_spec ret 0) as [->|Hz]; simpl; [by rewrite app_nil_r|].
      simpl in Hend. rewrite Hend. by rewrite sums_failed, log_ret_failed. }
    cbn [set_o_count o_call_count]. rewrite A2, (count_less _ (length p1 + length p2)%nat) by lia.
    destruct (Z.eqb_spec (Z.of_nat (length p1 + length p2)) 0) as [Hz|Hz].
    + assert (p1 = [] /\ p2 = []) as [-> ->] by (split; apply nil_length_inv; lia).
      by apply readdir_last; simpl; rewrite ?A1; try done; lia.
    + do 2 eexists. split; [done|]. unfold d_inv. simpl. rewrite !app_nil_r, A1. split_and!; [done..|].
      apply dp_read; simpl; rewrite ?length_app; try done; [by apply Forall_app| |lia].
      intros Hn. apply app_eq_nil in Hn as [-> ->]. simpl in Hz. done.
  - apply orb_false_iff in Hend as [-> ->]. rewrite F5.
    assert (match entries with [] => Some (Some (sums n log)) | _ => Some (Some (add_names i entries (sums n log))) end
      = Some (Some (sums n (log ++ [L_names i entries])))) as E by (rewrite <-sums_names; by destruct entries).
    assert ((match entries with [] => Some (Some (sums n log))
             | _ => checksum ← Some (sums n log); Some (Some (add_names i entries checksum)) end)
      = Some (Some (sums n (log ++ [L_names i entries])))) as -> by (rewrite <-E; by destruct entries).
    do 2 eexists. split; [done|]. unfold d_inv. simpl. rewrite answers_of_app, Hans. split_and!; [done..|].
    apply dp_read; simpl; rewrite ?log_ret_names; try done; rewrite ?app_assoc, ?length_app; simpl; [|by destruct p1, p2|lia|lia|set_solver..].
    rewrite !Forall_app, Forall_singleton. done.
Qed.

(** Calls of another kind than those of the phase. *)
Lemma wrong_phase l log ev p1 call p2 :
  d_phase n l log ev (p1 ++ call :: p2) -> awaited call = true /\ (opening call -> log = []).
Proof using.
  intros Hph. remember (p1 ++ call :: p2) as pend eqn:E. destruct Hph as [pend F1 _ _ _ F5|pend F1|]; subst.
  - apply Forall_app in F1 as [_ [F _]%Forall_cons]. by destruct call.
  - apply Forall_app in F1 as [_ [F _]%Forall_cons]. by destruct call.
  - destruct p1 as [|? [|]]; [|done..]. by injection E as <- <-.
Qed.

(** No handler faults, and the invariant is kept. *)
Lemma dir_answer_inv r l alloc call ret err entries p1 p2 :
  d_inv n r -> d_local r = Some l -> d_pending r = p1 ++ call :: p2 -> d_answer_ok alloc call ret ->
  exists l' ev, d_handle this ctx alloc call ret err entries l = Some (l', ev) /\
    d_inv n (mk_dreq l' (p1 ++ p2 ++ awaiting ev) (d_events r ++ ev) (d_log r ++ log_dir call ret err entries)).
Proof using Hthis.
  intros Hi Hl Hp Ha. unfold d_inv in Hi. rewrite Hl, Hp in Hi. destruct Hi as (I1 & I2 & I3 & I4).
  destruct (wrong_phase _ _ _ _ _ _ I4) as [Haw Hlog]. destruct call as [i|i off| | |]; try done; simpl.
  - rewrite (Hlog I) in *. by apply (opendir_answer l alloc ret err p1 p2 (d_events r) i).
  - by apply (readdir_answer l ret err entries p1 p2 (d_events r) (d_log r) i off).
  - do 2 eexists. split; [done|]. remember (p1 ++ _ :: p2) as pend eqn:E.
    destruct I4 as [pend F1|pend F1|F1 F2 F3 F4]; [subst; by apply Forall_app in F1 as [_ [? _]%Forall_cons]..|].
    destruct p1 as [|? [|]]; [|done..]. injection E as <-. unfold d_inv. simpl. rewrite app_nil_r, answers_of_app, I1.
    split; [done|]. exists (o_ret l). split_and!; [done|done|done| |set_solver]. intros _ Hn. set_solver.
Qed.

Lemma dir_run_inv r r' : d_inv n r -> rtc (dir_step this ctx) r r' -> d_inv n r'.
Proof using Hthis.
  intros Hi Hs. induction Hs as [|r r1 r2 H1 _ IH]; [done|]. apply IH.
  destruct H1 as [r l alloc call ret err entries p1 p2 l' ev Hl Hp Ha Hh].
  destruct (dir_answer_inv r l alloc call ret err entries p1 p2 Hi Hl Hp Ha) as (l1 & ev1 & E & Hi').
  rewrite Hh in E. by injection E as <- <-.
Qed.
End steps.

(** C23: opening a directory is answered exactly once, whatever the order of the
    answers and in however many parts the children return their entries, and no
    handler faults.  When the directory was examined, a self-heal was started
    exactly if two children differ in the checksum of their names, where a child
    that is down has that of an empty directory; and [op_ret] of the answer is 0,
    or, if reading failed on a child, the errno of the last such failure, which
    the caller takes for a success. *)
Theorem opendir_compares this ctx alloc st r :
  this_ok this -> afr_opendir this alloc = Some st -> rtc (dir_step this ctx) (d_start st) r ->
  (forall l alloc call ret err entries p1 p2, d_local r = Some l -> d_pending r = p1 ++ call :: p2 ->
     d_answer_ok alloc call ret -> is_Some (d_handle this ctx alloc call ret err entries l)) /\
  (d_pending r <> [] -> answers_of (d_events r) = []) /\
  (d_pending r = [] -> exists ret, answers_of (d_events r) = [ret] /\
     (O_set_opendir_done ∈ d_events r ->
        ret = log_ret (d_log r) /\
        (O_self_heal ∈ d_events r <-> exists i j, (i < child_count (xl_priv this))%nat /\ (j < child_count (xl_priv this))%nat /\
           child_sum (d_log r) i <> child_sum (d_log r) j))).
Proof.
  intros Hthis Est Hs. destruct (opendir_start this alloc Hthis) as (st' & E & Hi). rewrite Est in E. injection E as <-.
  apply (dir_run_inv this ctx Hthis _ r) in Hi; [|done]. split_and!.
  - intros l alloc' call ret err entries p1 p2 Hl Hp Ha.
    destruct (dir_answer_inv this ctx Hthis r l alloc' call ret err entries p1 p2 Hi Hl Hp Ha) as (l' & ev & E & _). by eexists.
  - intros Hne. unfold d_inv in Hi. destruct (d_local r); [apply Hi|]. by destruct Hi.
  - intros Hp. unfold d_inv in Hi. destruct (d_local r) as [l|].
    { destruct Hi as (_ & _ & _ & Hph). rewrite Hp in Hph. by inversion Hph. }
    destruct Hi as (_ & ret & H1 & H2 & H3 & H4 & _). exists ret. split; [done|]. intros Hd. split; [auto|]. split; [done|].
    intros (i & j & Hi & Hj & Hne). destruct (decide (O_self_heal ∈ d_events r)) as [Hin|Hin]; [done|]. by destruct Hne; apply H4.
Qed.

(** Answers to the first call that waits. *)
Fixpoint d_drive (this : afr_xl) (ctx : option Z) (answers : list (Z * Z * list gf_dirent)) (r : dreq) : option dreq :=
  match answers with
  | [] => Some r
  | (ret, err, entries) :: answers =>
      match d_local r, d_pending r with
      | Some l, call :: pend =>
          if match call with O_opendir _ => (ret =? 0) || (ret =? -1) | _ => true end then
            '(l', ev) ← d_handle this ctx true call ret err entries l;
            d_drive this ctx answers
              (mk_dreq l' (pend ++ awaiting ev) (d_events r ++ ev) (d_log r ++ log_dir call ret err entries))
          else None
      | _, _ => None
      end
  end.

Lemma d_drive_steps this ctx answers r r' : d_drive this ctx answers r = Some r' -> rtc (dir_step this ctx) r r'.
Proof.
  revert r. induction answers as [|[[ret err] entries] answers IH]; intros r E; [by injection E as <-|]. simpl in E.
  destruct (d_local r) as [l|] eqn:Hl; [|done]. destruct (d_pending r) as [|call pend] eqn:Hp; [done|].
  destruct (match call with O_opendir _ => _ | _ => true end) eqn:Hr; [|done].
  destruct (d_handle _ _ _ _ _ _ _ _) as [[l' ev]|] eqn:Hh; simpl in E; [|done].
  eapply rtc_l; [|by apply IH]. apply (dir_answer this ctx r l true call ret err entries [] pend l' ev Hl Hp); [|done].
  unfold d_answer_ok. destruct call; try done. apply orb_true_iff in Hr. lia.
Qed.

(** The second child fails to read its directory. *)
Definition pair_xl : afr_xl :=
  mk_xl (mk_priv 2 ["trusted.afr.a"; "trusted.afr.b"]%string true true true 1 1 1) [true; true] 1 0 0 2 0.
Definition half_read : list (Z * Z * list gf_dirent) :=
  [(0, 0, []); (0, 0, []); (1, 0, [mk_dirent "a" 2 1 2]); (-1, EIO, []); (0, 0, []); (0, 0, [])].
Definition opened_dir : dreq :=
  Eval vm_compute in default (mk_dreq None [] [] []) (st ← afr_opendir pair_xl true; d_drive pair_xl None half_read (d_start st)).

Lemma opendir_compares_witness :
  d_log opened_dir = [L_names 0 [mk_dirent "a" 2 1 2]; L_failed EIO] /\ answers_of (d_events opened_dir) = [EIO].
Proof.
  split; [reflexivity|]. assert (this_ok pair_xl) as Hthis by (by split).
  assert (rtc (dir_step pair_xl None) (d_start (default (None, []) (afr_opendir pair_xl true))) opened_dir) as Hrun
    by (apply (d_drive_steps pair_xl None half_read); vm_compute; reflexivity).
  destruct (opendir_compares pair_xl None true _ opened_dir Hthis eq_refl Hrun) as (_ & _ & Hend).
  destruct (Hend eq_refl) as (ret & Ha & Hd). destruct Hd as [Hret _]; [apply (bool_decide_unpack _); vm_compute; exact I|].
  rewrite Ha, Hret. reflexivity.
Defined.
