(* ===== verification/Md5Props.v ===== *)
(** * libglusterfs: the strong checksum is MD5

    A definition of MD5 that follows RFC 1321 (arithmetic on words, constants from
    the sine, one loop of 64 steps, the padded message cut into chunks), and the
    proof that md5.c computes it, for a message in any pieces. *)

From stdpp Require Import base list numbers.
From S2P Require Import Prelude ByteOrder Md5.

Open Scope Z_scope.

(** ** RFC 1321 *)

Definition le_bytes (n : nat) (w : Z) : list Z := map (fun i => (w / 256 ^ Z.of_nat i) `mod` 256) (seq 0 n).

Definition le_word (bs : list Z) : Z := foldr (fun b w => b + 256 * w) 0 bs.

(** The sine of an integer, times 2^256, by the first 160 terms of its series. *)
Fixpoint sine_terms (n : nat) (k x term : Z) : Z :=
  match n with
  | O => 0
  | S n => term + sine_terms n (k + 2) x (- (term * x * x) / ((k + 1) * (k + 2)))
  end.

Definition rfc_T (i : nat) : Z :=
  let x := Z.of_nat i + 1 in Z.shiftr (Z.abs (sine_terms 160 1 x (x * 2 ^ 256))) 224.

Definition rfc_f (i : nat) (x y z : Z) : Z :=
  match (i / 16)%nat with
  | 0%nat => Z.lor (Z.land x y) (Z.land (Z.lnot x) z)
  | 1%nat => Z.lor (Z.land x z) (Z.land y (Z.lnot z))
  | 2%nat => Z.lxor (Z.lxor x y) z
  | _ => Z.lxor y (Z.lor x (Z.lnot z)) `mod` 2 ^ 32
  end.

Definition rfc_k (i : nat) : nat :=
  match (i / 16)%nat with
  | 0%nat => i
  | 1%nat => ((5 * i + 1) mod 16)%nat
  | 2%nat => ((3 * i + 5) mod 16)%nat
  | _ => ((7 * i) mod 16)%nat
  end.

Definition rfc_s (i : nat) : Z :=
  nth (i mod 4) (nth (i / 16) [[7; 12; 17; 22]; [5; 9; 14; 20]; [4; 11; 16; 23]; [6; 10; 15; 21]] []) 0.

Definition rotate_left (x n : Z) : Z := (x * 2 ^ n) `mod` 2 ^ 32 + x / 2 ^ (32 - n).

Definition rfc_step (X : list Z) (r : regs) (i : nat) : regs :=
  let '(mk_regs a b c d) := r in
  mk_regs d ((b + rotate_left ((a + rfc_f i b c d + nth (rfc_k i) X 0 + rfc_T i) `mod` 2 ^ 32) (rfc_s i)) `mod` 2 ^ 32) b c.

Definition add_regs (r r' : regs) : regs :=
  mk_regs ((rA r + rA r') `mod` 2 ^ 32) ((rB r + rB r') `mod` 2 ^ 32) ((rC r + rC r') `mod` 2 ^ 32)
    ((rD r + rD r') `mod` 2 ^ 32).

Definition rfc_compress (r : regs) (chunk : list Z) : regs :=
  let X := map (fun i => le_word (take 4 (drop (4 * i) chunk))) (seq 0 16) in
  add_regs r (foldl (rfc_step X) r (seq 0 64)).

Definition chunks (n : nat) (msg : list Z) : list (list Z) := map (fun i => take 64 (drop (64 * i) msg)) (seq 0 n).

(** The message, a byte 0x80, zeros up to 8 bytes before the end of a chunk, and
    the length in bits. *)
Definition rfc_pad (msg : list Z) : list Z :=
  msg ++ [128] ++ replicate (Z.to_nat ((55 - Z.of_nat (length msg)) `mod` 64)) 0
    ++ le_bytes 8 (8 * Z.of_nat (length msg)).

Definition rfc_init : regs := mk_regs 0x67452301 0xEFCDAB89 0x98BADCFE 0x10325476.

Definition rfc_md5 (msg : list Z) : list Z :=
  let m := rfc_pad msg in
  let r := foldl rfc_compress rfc_init (chunks (length m / 64) m) in
  le_bytes 4 (rA r) ++ le_bytes 4 (rB r) ++ le_bytes 4 (rC r) ++ le_bytes 4 (rD r).

(** ** Words *)

Lemma u32_mod z : u32 z = z `mod` 2 ^ 32.
Proof. done. Qed.

Lemma is_byte_bits (b : Z) : 0 <= b < 256 -> forall n, 8 <= n -> Z.testbit b n = false.
Proof.
  intros Hb n Hn. destruct (decide (b = 0)) as [->|]; [by rewrite Z.bits_0|].
  apply Z.bits_above_log2; [lia|]. apply Z.log2_lt_pow2; [lia|]. apply Z.lt_le_trans with (2 ^ 8); [lia|].
  by apply Z.pow_le_mono_r.
Qed.

Lemma lor_add b a n : 0 <= n -> 0 <= b < 2 ^ n -> Z.lor b (Z.shiftl a n) = b + a * 2 ^ n.
Proof. intros. rewrite Z.lor_comm, lor_shiftl_add by done. lia. Qed.

Definition is_byte (b : Z) : Prop := 0 <= b < 256.

Lemma IVAL_word (data : list Z) pos :
  Forall is_byte data -> (pos + 4 <= length data)%nat -> IVAL data pos = le_word (take 4 (drop pos data)).
Proof.
  intros Hb Hl. unfold IVAL, PVAL, CVAL.
  assert (exists b0 b1 b2 b3 rest, drop pos data = b0 :: b1 :: b2 :: b3 :: rest) as (b0 & b1 & b2 & b3 & rest & E).
  { assert (4 <= length (drop pos data))%nat as Hd by (rewrite length_drop; lia).
    destruct (drop pos data) as [|b0 [|b1 [|b2 [|b3 rest]]]]; simpl in Hd; try lia. eauto 10. }
  assert (forall i, nth (pos + i) data 0 = nth i (drop pos data) 0) as Hn.
  { intros i. by rewrite !nth_lookup, lookup_drop. }
  replace (nth pos data 0) with (nth (pos + 0) data 0) by (f_equal; lia).
  replace (pos + 2 + 1)%nat with (pos + 3)%nat by lia. rewrite !Hn, E. cbn [nth take le_word foldr].
  apply (Forall_drop _ pos) in Hb. rewrite E in Hb. unfold is_byte in Hb. decompose_Forall_hyps.
  rewrite (lor_add b0 b1 8), (lor_add b2 b3 8) by lia. unfold u32. rewrite Z.mod_small by (rewrite Z.shiftl_mul_pow2; lia).
  rewrite lor_add by lia. lia.
Qed.

Lemma SIVAL_bytes v : is_u32 v -> SIVAL v = le_bytes 4 v.
Proof.
  intros Hv. unfold is_u32 in Hv. unfold SIVAL, SSVALX, le_bytes. simpl app. simpl map.
  change 255 with (Z.ones 8). change 65535 with (Z.ones 16). rewrite !Z.land_ones, !Z.shiftr_div_pow2 by lia.
  change (Z.of_nat 0) with 0. change (Z.of_nat 1) with 1. change (Z.of_nat 2) with 2. change (Z.of_nat 3) with 3.
  change (256 ^ 0) with 1. change (256 ^ 1) with 256. change (256 ^ 2) with 65536. change (256 ^ 3) with 16777216.
  change (2 ^ 8) with 256. change (2 ^ 16) with 65536.
  repeat apply (f_equal2 cons); try done; Z.to_euclidean_division_equations; lia.
Qed.

Lemma S_rotates x n : is_u32 x -> 0 < n < 32 -> S_ x n = rotate_left x n.
Proof.
  intros Hx Hn. unfold is_u32 in Hx. unfold S_, rotate_left, u32.
  change 4294967295 with (Z.ones 32). rewrite Z.land_ones, (Z.mod_small x) by lia. rewrite Z.shiftl_mul_pow2, Z.shiftr_div_pow2 by lia.
  replace (2 ^ 32) with (2 ^ (32 - n) * 2 ^ n) by (rewrite <-Z.pow_add_r by lia; f_equal; lia).
  rewrite Z.mul_mod_distr_r by lia. rewrite <-Z.shiftl_mul_pow2 by lia. rewrite lor_shiftl_add; [by rewrite Z.shiftl_mul_pow2 by lia|lia|].
  split; [apply Z.div_pos; lia|]. apply Z.div_lt_upper_bound; [lia|]. rewrite <-Z.pow_add_r by lia.
  replace (32 - n + n) with 32 by lia. lia.
Qed.

Ltac bit_by_bit := apply Z.bits_inj'; intros ? ?; rewrite ?Z.lor_spec, ?Z.land_spec, ?Z.lxor_spec, ?Z.lor_spec, ?Z.land_spec, ?Z.lxor_spec, ?Z.lnot_spec by done;
  repeat match goal with |- context [Z.testbit ?a ?n] => destruct (Z.testbit a n) end; done.

Lemma F1_rfc x y z : F1 x y z = Z.lor (Z.land x y) (Z.land (Z.lnot x) z).
Proof. unfold F1. bit_by_bit. Qed.

Lemma F2_rfc x y z : F2 x y z = Z.lor (Z.land x z) (Z.land y (Z.lnot z)).
Proof. unfold F2. bit_by_bit. Qed.

Lemma u32_high a n : is_u32 a -> 32 <= n -> Z.testbit a n = false.
Proof. intros Ha Hn. rewrite <-(Z.mod_small a (2 ^ 32)) by done. by apply Z.mod_pow2_bits_high. Qed.

Lemma F4_rfc x y z : is_u32 x -> is_u32 y -> is_u32 z -> F4 x y z = Z.lxor y (Z.lor x (Z.lnot z)) `mod` 2 ^ 32.
Proof.
  intros Hx Hy Hz. unfold F4. apply Z.bits_inj'. intros n Hn. change 4294967295 with (Z.ones 32).
  rewrite Z.lxor_spec, Z.lor_spec, Z.lxor_spec. destruct (decide (n < 32)) as [Hlt|Hge].
  - rewrite Z.mod_pow2_bits_low, Z.ones_spec_low, Z.lxor_spec, Z.lor_spec, Z.lnot_spec by lia.
    by destruct (Z.testbit z n), (Z.testbit x n), (Z.testbit y n).
  - by rewrite Z.mod_pow2_bits_high, Z.ones_spec_high, !u32_high by (done || lia).
Qed.

(** ** One chunk *)

Record regs_ok (r : regs) : Prop := { okA : is_u32 (rA r); okB : is_u32 (rB r); okC : is_u32 (rC r); okD : is_u32 (rD r) }.

Definition constants (i : nat) : nat * Z * Z := (rfc_k i, rfc_s i, rfc_T i).

(** The constants of the code are those of the RFC. *)
Lemma constants_rfc :
  round1 = map constants (seq 0 16) /\ round2 = map constants (seq 16 16) /\
  round3 = map constants (seq 32 16) /\ round4 = map constants (seq 48 16).
Proof. by vm_compute. Qed.

Definition gstep (F : Z -> Z -> Z -> Z) (X : list Z) (r : regs) (kst : nat * Z * Z) : regs :=
  let '(mk_regs a b c d) := r in mk_regs d (P_ F X a b c d kst) b c.

Lemma rounds_steps F X n cs r : length cs = (4 * n)%nat -> rounds F X cs r = foldl (gstep F X) r cs.
Proof.
  revert cs r. induction n as [|n IH]; intros cs r Hl.
  - by destruct cs.
  - destruct cs as [|c1 [|c2 [|c3 [|c4 cs]]]]; simpl in Hl; try lia. destruct r as [A B C D].
    cbn [rounds foldl]. rewrite IH by (simpl; lia). done.
Qed.

Definition group (q : nat) : Z -> Z -> Z -> Z := nth q [F1; F2; F3; F4] F4.

Lemma group_rfc i b c d : (i < 64)%nat -> is_u32 b -> is_u32 c -> is_u32 d -> group (i / 16) b c d = rfc_f i b c d.
Proof.
  intros Hi Hb Hc Hd. assert (i / 16 < 4)%nat as Hq by (apply Nat.Div0.div_lt_upper_bound; lia).
  unfold group, rfc_f. destruct (i / 16)%nat as [|[|[|[|q]]]]; [apply F1_rfc|apply F2_rfc|done|by apply F4_rfc|lia].
Qed.

Lemma rfc_s_range i : (i < 64)%nat -> 0 < rfc_s i < 32.
Proof.
  intros Hi. assert (Forall (fun i => 0 < rfc_s i < 32) (seq 0 64)) as H by (vm_compute; repeat constructor).
  rewrite Forall_forall in H. apply H, in_seq. lia.
Qed.

Lemma gstep_rfc X r i : (i < 64)%nat -> regs_ok r -> gstep (group (i / 16)) X r (constants i) = rfc_step X r i.
Proof.
  intros Hi [_ Hb Hc Hd]. destruct r as [a b c d]. cbn in Hb, Hc, Hd. unfold gstep, rfc_step, P_, constants.
  rewrite group_rfc by done. rewrite S_rotates; [|apply u32_range|by apply rfc_s_range]. unfold u32. by rewrite (Z.add_comm _ b), !Z.add_assoc.
Qed.

Lemma rfc_step_ok X r i : regs_ok r -> regs_ok (rfc_step X r i).
Proof. intros [Ha Hb Hc Hd]. destruct r as [a b c d]. split; cbn in *; try done. apply u32_range. Qed.

Lemma group_steps X q is_ r :
  regs_ok r -> Forall (fun i => (i < 64)%nat /\ (i / 16)%nat = q) is_ ->
  foldl (gstep (group q) X) r (map constants is_) = foldl (rfc_step X) r is_ /\ regs_ok (foldl (rfc_step X) r is_).
Proof.
  intros Hr Hi. revert r Hr. induction Hi as [|i is_ [Hi Hq] _ IH]; intros r Hr; [done|].
  cbn [map foldl]. rewrite <-Hq, gstep_rfc, Hq by done. apply IH. by apply rfc_step_ok.
Qed.

Lemma process_rfc r data :
  regs_ok r -> Forall is_byte data -> length data = 64%nat -> md5_process r data = rfc_compress r data.
Proof.
  intros Hr Hb Hl. unfold md5_process, rfc_compress.
  assert (map (fun i => IVAL data (4 * i)) (seq 0 16) = map (fun i => le_word (take 4 (drop (4 * i) data))) (seq 0 16)) as ->.
  { apply map_ext_in. intros i Hi%in_seq. apply IVAL_word; [done|lia]. }
  set (X := map _ _). clearbody X.
  set (r1 := foldl (rfc_step X) r (seq 0 16)). set (r2 := foldl (rfc_step X) r1 (seq 16 16)).
  set (r3 := foldl (rfc_step X) r2 (seq 32 16)).
  assert (foldl (rfc_step X) r (seq 0 64) = foldl (rfc_step X) r3 (seq 48 16)) as -> by done.
  destruct constants_rfc as (E1 & E2 & E3 & E4). rewrite !(rounds_steps _ X 4) by done. rewrite E1, E2, E3, E4.
  change F1 with (group 0). change F2 with (group 1). change F3 with (group 2). change F4 with (group 3).
  destruct (group_steps X 0 (seq 0 16) r Hr ltac:(vm_compute; repeat constructor)) as [-> H1]. fold r1 in H1 |- *.
  destruct (group_steps X 1 (seq 16 16) r1 H1 ltac:(vm_compute; repeat constructor)) as [-> H2]. fold r2 in H2 |- *.
  destruct (group_steps X 2 (seq 32 16) r2 H2 ltac:(vm_compute; repeat constructor)) as [-> H3]. fold r3 in H3 |- *.
  by destruct (group_steps X 3 (seq 48 16) r3 H3 ltac:(vm_compute; repeat constructor)) as [-> _].
Qed.

Lemma compress_ok r chunk : regs_ok (rfc_compress r chunk).
Proof. split; apply u32_range. Qed.

Lemma compress_all_ok cs r : regs_ok r -> regs_ok (foldl rfc_compress r cs).
Proof. revert r. induction cs as [|c cs IH]; intros r Hr; [done|]. apply IH, compress_ok. Qed.

Lemma rfc_init_ok : regs_ok rfc_init.
Proof. split; unfold is_u32; simpl; lia. Qed.

(** ** Whole chunks *)

Lemma chunks_S n msg : chunks (S n) msg = take 64 msg :: chunks n (drop 64 msg).
Proof.
  unfold chunks. cbn [seq map]. rewrite drop_0. f_equal. rewrite <-seq_shift, map_map. apply map_ext.
  intros i. rewrite drop_drop. do 2 f_equal. lia.
Qed.

Lemma chunks_app n m a b : length a = (64 * n)%nat -> chunks (n + m) (a ++ b) = chunks n a ++ chunks m b.
Proof.
  revert a. induction n as [|n IH]; intros a Ha.
  - by destruct a.
  - cbn [Nat.add]. rewrite !chunks_S. cbn [app]. rewrite take_app_le, drop_app_le by lia.
    rewrite IH by (rewrite length_drop; lia). done.
Qed.

Lemma process_chunks_all n fuel r input :
  regs_ok r -> Forall is_byte input -> (64 * n <= length input < 64 * n + 64)%nat -> (n <= fuel)%nat ->
  process_chunks fuel r input = (foldl rfc_compress r (chunks n input), drop (64 * n) input).
Proof.
  revert fuel r input. induction n as [|n IH]; intros fuel r input Hr Hb Hl Hf.
  - rewrite drop_0. destruct fuel; [done|]. cbn [process_chunks]. by rewrite (proj2 (Nat.leb_gt _ _)) by (unfold CSUM_CHUNK; lia).
  - destruct fuel as [|fuel]; [lia|]. cbn [process_chunks]. rewrite (proj2 (Nat.leb_le _ _)) by (unfold CSUM_CHUNK; lia).
    unfold CSUM_CHUNK. rewrite process_rfc; [|done|by apply Forall_take|rewrite length_take; lia].
    rewrite IH; [|apply compress_ok|by apply Forall_drop|rewrite length_drop; lia|lia].
    rewrite chunks_S, drop_drop. do 2 f_equal. lia.
Qed.

(** ** A message in pieces *)

(** The context after the message [W ++ R], whose whole chunks are [W]. *)
Record holds (n : nat) (W R : list Z) (ctx : md_context) : Prop := {
  ho_whole : length W = (64 * n)%nat;
  ho_left : (length R < 64)%nat;
  ho_bytes : Forall is_byte R;
  ho_regs : md_regs ctx = foldl rfc_compress rfc_init (chunks n W);
  ho_buffer : length (md_buffer ctx) = 64%nat;
  ho_rest : take (length R) (md_buffer ctx) = R;
  ho_total : totalN ctx = Z.of_nat (length (W ++ R)) `mod` 2 ^ 32;
  ho_total2 : totalN2 ctx = (Z.of_nat (length (W ++ R)) / 2 ^ 32) `mod` 2 ^ 32 }.

Lemma memcpy_end buf R src :
  take (length R) buf = R -> (length R + length src <= length buf)%nat ->
  length (memcpy buf (length R) src) = length buf /\ take (length R + length src) (memcpy buf (length R) src) = R ++ src.
Proof.
  intros HR Hl. unfold memcpy. rewrite HR, app_assoc. split.
  - rewrite !length_app, length_drop. lia.
  - by rewrite <-length_app, take_app_length.
Qed.

Lemma left_rest n W R ctx : holds n W R ctx -> Z.to_nat (Z.land (totalN ctx) 63) = length R.
Proof.
  intros H. rewrite (ho_total _ _ _ _ H). change 63 with (Z.ones 6). rewrite Z.land_ones by lia.
  rewrite length_app, (ho_whole _ _ _ _ H). pose proof (ho_left _ _ _ _ H).
  replace ((Z.of_nat (64 * n + length R) `mod` 2 ^ 32) `mod` 2 ^ 6) with (Z.of_nat (length R)); [lia|].
  Z.to_euclidean_division_equations; lia.
Qed.

Lemma total_carry (a l : Z) :
  0 <= a -> 0 <= l < 2 ^ 32 ->
  let total := Z.land (u32 (a `mod` 2 ^ 32 + l)) 4294967295 in
  total = (a + l) `mod` 2 ^ 32 /\
  (if total <? l then u32 ((a / 2 ^ 32) `mod` 2 ^ 32 + 1) else (a / 2 ^ 32) `mod` 2 ^ 32) = ((a + l) / 2 ^ 32) `mod` 2 ^ 32.
Proof.
  intros Ha Hl total. assert (total = (a + l) `mod` 2 ^ 32) as E.
  { unfold total, u32. change 4294967295 with (Z.ones 32). rewrite Z.land_ones, Z.mod_mod by lia. by rewrite Zplus_mod_idemp_l. }
  split; [done|]. rewrite E. unfold u32. rewrite Zplus_mod_idemp_l.
  destruct (Z.ltb_spec ((a + l) `mod` 2 ^ 32) l); f_equal; Z.to_euclidean_division_equations; lia.
Qed.

(** The second half of [md5_update], from the loop on. *)
Lemma update_tail n W R buf input :
  length W = (64 * n)%nat -> take (length R) buf = R -> length buf = 64%nat ->
  Forall is_byte R -> Forall is_byte input -> R = [] \/ (length R + length input < 64)%nat ->
  let '(r, input') := process_chunks (length input) (foldl rfc_compress rfc_init (chunks n W)) input in
  let buf' := if (length input' =? 0)%nat then buf else memcpy buf (length R) input' in
  exists n' W' R', W ++ R ++ input = W' ++ R' /\ length W' = (64 * n')%nat /\ (length R' < 64)%nat /\ Forall is_byte R' /\
    r = foldl rfc_compress rfc_init (chunks n' W') /\ length buf' = 64%nat /\ take (length R') buf' = R'.
Proof.
  intros HW HR Hbuf HbR Hbi Hcase. set (k := (length input / 64)%nat).
  assert (64 * k <= length input < 64 * k + 64)%nat as Hk.
  { unfold k. pose proof (Nat.div_mod_eq (length input) 64). pose proof (Nat.mod_upper_bound (length input) 64). lia. }
  rewrite (process_chunks_all k) by (done || lia || apply compress_all_ok, rfc_init_ok). set (input' := drop (64 * k) input).
  assert (length input' = length input - 64 * k)%nat as Hi' by (unfold input'; by rewrite length_drop). cbv zeta.
  assert (input = take (64 * k) input ++ input') as Ein by (unfold input'; by rewrite take_drop).
  assert (R ++ input = take (64 * k) input ++ R ++ input' /\ (length R + length input' < 64)%nat) as [ER Hlt].
  { destruct Hcase as [->|Hlt].
    - simpl. split; [done|lia].
    - assert (k = 0)%nat as -> by lia. simpl in *. unfold input'. rewrite drop_0. split; [done|lia]. }
  exists (n + k)%nat, (W ++ take (64 * k) input), (R ++ input'). split_and!.
  - by rewrite ER, app_assoc.
  - rewrite length_app, length_take. lia.
  - rewrite length_app. lia.
  - apply Forall_app. split; [done|]. by apply Forall_drop.
  - rewrite chunks_app, foldl_app by done. f_equal. rewrite Ein at 1. replace k with (k + 0)%nat at 1 by lia.
    rewrite chunks_app by (rewrite length_take; lia). by rewrite app_nil_r.
  - destruct (Nat.eqb_spec (length input') 0); [done|]. rewrite (proj1 (memcpy_end buf R input' HR ltac:(lia))). done.
  - destruct (Nat.eqb_spec (length input') 0) as [E|E].
    + apply nil_length_inv in E. by rewrite E, app_nil_r.
    + rewrite length_app. apply (memcpy_end buf R input' HR). lia.
Qed.

Lemma update_holds n W R ctx input :
  holds n W R ctx -> Forall is_byte input -> Z.of_nat (length input) < 2 ^ 32 ->
  exists n' W' R', W' ++ R' = (W ++ R) ++ input /\ holds n' W' R' (md5_update ctx input).
Proof.
  intros H Hi Hlen. pose proof (left_rest _ _ _ _ H) as Hleft. destruct H as [HW HR HbR Hregs Hbuf Hrest Ht Ht2].
  unfold md5_update. destruct (Z.eqb_spec (Z.of_nat (length input)) 0) as [E|E].
  { destruct input; [|simpl in E; lia]. exists n, W, R. rewrite app_nil_r. by repeat split. }
  rewrite Hleft. destruct (total_carry (Z.of_nat (length (W ++ R))) (Z.of_nat (length input)) ltac:(lia) ltac:(lia)) as [E1 E2].
  rewrite <-Ht in E1, E2. rewrite <-Ht2 in E2. rewrite E2, E1. clear E1 E2.
  replace (Z.of_nat (length (W ++ R)) + Z.of_nat (length input)) with (Z.of_nat (length ((W ++ R) ++ input))) by (rewrite !length_app; lia).
  destruct (negb (length R =? 0)%nat && (CSUM_CHUNK - length R <=? length input)%nat) eqn:Ec.
  - apply andb_true_iff in Ec as [Hnz Hfill]. apply negb_true_iff, Nat.eqb_neq in Hnz. apply Nat.leb_le in Hfill. unfold CSUM_CHUNK in *.
    set (head_ := take (64 - length R) input) in *. assert (length head_ = 64 - length R)%nat as Hh by (unfold head_; rewrite length_take; lia).
    destruct (memcpy_end (md_buffer ctx) R head_ Hrest ltac:(lia)) as [Hml Hmt]. set (buf := memcpy _ _ _) in *.
    rewrite Hh in Hmt. replace (length R + (64 - length R))%nat with 64%nat in Hmt by lia. rewrite take_ge in Hmt by lia.
    assert (length (W ++ buf) = 64 * S n)%nat as HW' by (rewrite length_app; lia).
    rewrite process_rfc; [|rewrite Hregs; apply compress_all_ok, rfc_init_ok|rewrite Hmt; apply Forall_app; split; [done|by apply Forall_take]|lia].
    assert (rfc_compress (md_regs ctx) buf = foldl rfc_compress rfc_init (chunks (S n) (W ++ buf))) as ->.
    { replace (S n) with (n + 1)%nat by lia. rewrite chunks_app, foldl_app, Hregs by done. rewrite chunks_S. simpl.
      by rewrite firstn_all2 by lia. }
    pose proof (update_tail (S n) (W ++ buf) [] buf (drop (64 - length R) input) HW' eq_refl ltac:(lia) ltac:(constructor)
      ltac:(by apply Forall_drop) ltac:(by left)) as T.
    destruct (process_chunks _ _ _) as [r input']. destruct T as (n' & W' & R' & Eq & Hw' & Hr' & Hb' & Er & Hl' & Htk).
    exists n', W', R'. assert (W' ++ R' = (W ++ R) ++ input) as Emsg.
    { rewrite <-Eq, Hmt. simpl. rewrite <-!app_assoc. do 2 f_equal. unfold head_. by rewrite take_drop. }
    split; [done|]. by split; simpl; rewrite ?Emsg.
  - assert (R = [] \/ (length R + length input < 64)%nat) as Hcase.
    { apply andb_false_iff in Ec as [Ec|Ec]; [left|right; apply Nat.leb_gt in Ec; unfold CSUM_CHUNK in Ec; lia].
      apply negb_false_iff, Nat.eqb_eq in Ec. by apply nil_length_inv. }
    rewrite Hregs. pose proof (update_tail n W R (md_buffer ctx) input HW Hrest Hbuf HbR Hi Hcase) as T.
    destruct (process_chunks _ _ _) as [r input']. destruct T as (n' & W' & R' & Eq & Hw' & Hr' & Hb' & Er & Hl' & Htk).
    exists n', W', R'. rewrite app_assoc in Eq. split; [done|]. by split; simpl; rewrite <-?Eq.
Qed.

Lemma updates_hold pieces n W R ctx :
  holds n W R ctx -> Forall (fun p => Forall is_byte p /\ Z.of_nat (length p) < 2 ^ 32) pieces ->
  exists n' W' R', W' ++ R' = (W ++ R) ++ concat pieces /\ holds n' W' R' (foldl md5_update ctx pieces).
Proof.
  intros H Hp. revert n W R ctx H. induction Hp as [|p pieces [Hb Hl] _ IH]; intros n W R ctx H.
  - exists n, W, R. by rewrite app_nil_r.
  - destruct (update_holds n W R ctx p H Hb Hl) as (n1 & W1 & R1 & E1 & H1).
    destruct (IH n1 W1 R1 _ H1) as (n2 & W2 & R2 & E2 & H2). exists n2, W2, R2. by rewrite E2, E1, <-app_assoc.
Qed.

(** ** The end of a message *)

Lemma length_field (len : Z) :
  0 <= len ->
  let N := len `mod` 2 ^ 32 in let N2 := (len / 2 ^ 32) `mod` 2 ^ 32 in
  SIVAL (u32 (Z.shiftl N 3)) ++ SIVAL (Z.lor (Z.shiftr N 29) (u32 (Z.shiftl N2 3))) = le_bytes 8 (8 * len).
Proof.
  intros Hl N N2. assert (0 <= N < 2 ^ 32) as HN by (apply Z.mod_pos_bound; lia).
  assert (0 <= N2 < 2 ^ 32) as HN2 by (apply Z.mod_pos_bound; lia).
  assert (u32 (Z.shiftl N 3) = (8 * len) `mod` 2 ^ 32) as ->.
  { unfold u32, N. rewrite Z.shiftl_mul_pow2, Z.mul_comm by lia. by rewrite Zmult_mod_idemp_r. }
  assert (Z.lor (Z.shiftr N 29) (u32 (Z.shiftl N2 3)) = (8 * len / 2 ^ 32) `mod` 2 ^ 32) as ->.
  { replace (u32 (Z.shiftl N2 3)) with (Z.shiftl (N2 `mod` 2 ^ 29) 3).
    2:{ unfold u32. rewrite !Z.shiftl_mul_pow2 by lia. change (2 ^ 32) with (2 ^ 29 * 2 ^ 3). by rewrite Z.mul_mod_distr_r. }
    rewrite Z.shiftr_div_pow2 by lia. rewrite lor_add; [|lia|Z.to_euclidean_division_equations; lia].
    unfold N, N2. Z.to_euclidean_division_equations; lia. }
  rewrite !SIVAL_bytes by apply u32_range. unfold le_bytes. simpl map.
  change (256 ^ Z.of_nat 0) with 1. change (256 ^ Z.of_nat 1) with 256. change (256 ^ Z.of_nat 2) with (2 ^ 16).
  change (256 ^ Z.of_nat 3) with (2 ^ 24). change (256 ^ Z.of_nat 4) with (2 ^ 32). change (256 ^ Z.of_nat 5) with (2 ^ 40).
  change (256 ^ Z.of_nat 6) with (2 ^ 48). change (256 ^ Z.of_nat 7) with (2 ^ 56).
  repeat apply (f_equal2 cons); try done; Z.to_euclidean_division_equations; lia.
Qed.

Lemma padding_field (len : Z) :
  0 <= len ->
  let last := Z.land (len `mod` 2 ^ 32) 63 in
  take (Z.to_nat (if last <? 56 then 56 - last else 120 - last)) md5_padding
  = 128 :: replicate (Z.to_nat ((55 - len) `mod` 64)) 0.
Proof.
  intros Hl last. assert (last = len `mod` 64) as E.
  { unfold last. change 63 with (Z.ones 6). rewrite Z.land_ones by lia. Z.to_euclidean_division_equations; lia. }
  assert (0 <= last < 64) as Hlast by (rewrite E; apply Z.mod_pos_bound; lia).
  set (padn := if last <? 56 then 56 - last else 120 - last).
  assert (padn = (55 - len) `mod` 64 + 1 /\ 0 < padn <= 64) as [Ep Hp].
  { unfold padn. rewrite E in *. destruct (Z.ltb_spec (len `mod` 64) 56); Z.to_euclidean_division_equations; lia. }
  rewrite Ep in Hp |- *. set (m := (55 - len) `mod` 64) in *. clearbody m.
  replace (Z.to_nat (m + 1)) with (S (Z.to_nat m)) by lia. unfold md5_padding. cbn [take]. f_equal.
  rewrite take_replicate. f_equal. lia.
Qed.

Lemma le_bytes_ok n w : Forall is_byte (le_bytes n w).
Proof. apply Forall_forall. intros b Hb. unfold le_bytes in Hb. apply in_map_iff in Hb as (i & <- & _). apply Z.mod_pos_bound. lia. Qed.

Lemma replicate_bytes n : Forall is_byte (replicate n 0).
Proof. apply Forall_replicate. unfold is_byte. lia. Qed.

Lemma rfc_pad_length msg : exists k, length (rfc_pad msg) = (64 * k)%nat.
Proof.
  exists (Z.to_nat ((Z.of_nat (length msg) + 9 + (55 - Z.of_nat (length msg)) `mod` 64) / 64)). unfold rfc_pad, le_bytes.
  rewrite !length_app, length_replicate, length_map, length_seq. simpl length. Z.to_euclidean_division_equations; lia.
Qed.

Lemma result_holds n W R ctx : holds n W R ctx -> md5_result ctx = rfc_md5 (W ++ R).
Proof.
  intros H. set (msg := W ++ R). unfold md5_result. rewrite (ho_total _ _ _ _ H), (ho_total2 _ _ _ _ H). fold msg.
  rewrite (length_field (Z.of_nat (length msg))), (padding_field (Z.of_nat (length msg))) by lia.
  set (pad := 128 :: _). set (field := le_bytes 8 _).
  destruct (updates_hold [pad; field] n W R ctx H) as (n' & W' & R' & E & H').
  { constructor; [split|constructor; [split|constructor]]; [|unfold pad; simpl|apply le_bytes_ok|done].
    - constructor; [unfold is_byte; lia|apply replicate_bytes].
    - rewrite length_replicate. pose proof (Z.mod_pos_bound (55 - Z.of_nat (length msg)) 64). lia. }
  assert (W' ++ R' = rfc_pad msg) as Em by (rewrite E; unfold rfc_pad; cbn [concat]; by rewrite app_nil_r).
  destruct (rfc_pad_length msg) as [k Hk]. rewrite <-Em, length_app in Hk. pose proof (ho_whole _ _ _ _ H') as HW'.
  pose proof (ho_left _ _ _ _ H') as HR'. assert (R' = []) as -> by (apply nil_length_inv; lia). rewrite app_nil_r in Em.
  cbn [foldl] in H'. rewrite (ho_regs _ _ _ _ H'). unfold rfc_md5. rewrite <-Em, HW'. rewrite (Nat.mul_comm 64), Nat.div_mul by lia.
  destruct (compress_all_ok (chunks n' W') rfc_init rfc_init_ok). by rewrite !SIVAL_bytes.
Qed.

Lemma begin_holds ctx : length (md_buffer ctx) = 64%nat -> holds 0 [] [] (md5_begin ctx).
Proof. intros Hb. by split; try (simpl; lia || constructor). Qed.

(** C30: md5.c computes MD5 as RFC 1321 defines it: whatever pieces a message of
    any length is fed in, the digest is that of the message, with the words,
    constants, padding and length field of the RFC. *)
Theorem md5_pieces ctx pieces :
  length (md_buffer ctx) = 64%nat ->
  Forall (fun p => Forall is_byte p /\ Z.of_nat (length p) < 2 ^ 32) pieces ->
  md5_result (foldl md5_update (md5_begin ctx) pieces) = rfc_md5 (concat pieces).
Proof.
  intros Hb Hp. destruct (updates_hold pieces 0 [] [] _ (begin_holds ctx Hb) Hp) as (n & W & R & E & H).
  simpl in E. rewrite <-E. by apply (result_holds n).
Qed.

(** "abc" in two pieces, and its digest in the RFC. *)
Lemma md5_pieces_witness :
  md5_result (foldl md5_update (md5_begin md_context0) [[97]; [98; 99]]) = rfc_md5 [97; 98; 99] /\
  rfc_md5 [97; 98; 99] = [0x90; 0x01; 0x50; 0x98; 0x3c; 0xd2; 0x4f; 0xb0; 0xd6; 0x96; 0x3f; 0x7d; 0x28; 0xe1; 0x7f; 0x72].
Proof.
  split; [|by vm_compute]. apply (md5_pieces md_context0 [[97]; [98; 99]]); [done|].
  repeat constructor; unfold is_byte; lia.
Defined.

(** The checksum of a block. *)
Lemma strong_checksum_rfc buf :
  Forall is_byte buf -> Z.of_nat (length buf) < 2 ^ 32 -> gf_rsync_strong_checksum buf = rfc_md5 buf.
Proof.
  intros Hb Hl. destruct (updates_hold [buf] 0 [] [] _ (begin_holds md_context0 eq_refl)) as (n & W & R & E & H).
  { by constructor; [|constructor]. }
  simpl in E. rewrite app_nil_r in E. transitivity (rfc_md5 (W ++ R)); [by apply (result_holds n)|by rewrite E].
Qed.
