(* ===== verification/PosixFile.v ===== *)
(** * Plain files

    A file as read, written and truncated by pread(2), pwrite(2) and ftruncate(2)
    is a list of bytes; what lies behind its end reads as zero once the file has
    grown over it. *)

From stdpp Require Import base list numbers.
From S2P Require Import Prelude.

Open Scope Z_scope.

(** ** Operations *)

Abbreviation file := (list Z).

Definition pread (f : file) (offset size : Z) : list Z := take (Z.to_nat size) (drop (Z.to_nat offset) f).

Definition pwrite (f : file) (offset : Z) (data : list Z) : file :=
  match data with
  | [] => f
  | _ => take (Z.to_nat offset) f ++ replicate (Z.to_nat offset - length f) 0 ++ data
           ++ drop (Z.to_nat offset + length data) f
  end.

Definition ftruncate (f : file) (offset : Z) : file :=
  take (Z.to_nat offset) f ++ replicate (Z.to_nat offset - length f) 0.

(** ** Lemmas *)

Definition byte (f : file) (i : nat) : Z := default 0 (f !! i).

(** Files are equal when they are equally long and have the same bytes. *)
Lemma file_eq (f g : file) : length f = length g -> (forall i, (i < length f)%nat -> byte f i = byte g i) -> f = g.
Proof.
  intros Hl Hb. apply list_eq. intros i. destruct (decide (i < length f)%nat) as [Hi|Hi].
  - specialize (Hb i Hi). unfold byte in Hb.
    destruct (lookup_lt_is_Some_2 f i Hi) as [x Hx], (lookup_lt_is_Some_2 g i ltac:(lia)) as [y Hy].
    rewrite Hx, Hy in Hb |- *. simpl in Hb. by subst.
  - rewrite !lookup_ge_None_2 by lia. done.
Qed.

Lemma pwrite_length f o d :
  length (pwrite f o d) = if decide (d = []) then length f else Nat.max (length f) (Z.to_nat o + length d).
Proof.
  destruct d as [|x d]; [done|]. rewrite decide_False by done. unfold pwrite.
  rewrite !length_app, length_take, length_replicate, length_drop. simpl. lia.
Qed.

Lemma pwrite_byte f o d i :
  byte (pwrite f o d) i =
  if decide (Z.to_nat o <= i < Z.to_nat o + length d)%nat then byte d (i - Z.to_nat o) else byte f i.
Proof.
  unfold byte. destruct d as [|x d]; [simpl; case_decide; [lia|done]|]. unfold pwrite.
  set (n := Z.to_nat o). set (dd := x :: d). case_decide as Hin.
  - rewrite lookup_app_r by (rewrite length_take; lia).
    rewrite lookup_app_r by (rewrite length_take, length_replicate; lia).
    rewrite length_take, length_replicate. rewrite lookup_app_l by lia. do 2 f_equal. lia.
  - destruct (decide (i < n)%nat) as [Hlt|Hge].
    + destruct (decide (i < length f)%nat) as [Hf|Hf].
      * rewrite lookup_app_l by (rewrite length_take; lia). by rewrite lookup_take_lt by lia.
      * rewrite lookup_app_r by (rewrite length_take; lia). rewrite lookup_app_l by (rewrite length_replicate, length_take; lia).
        rewrite length_take, (lookup_ge_None_2 f) by lia. by rewrite lookup_replicate_2 by lia.
    + rewrite lookup_app_r by (rewrite length_take; lia).
      rewrite lookup_app_r by (rewrite length_take, length_replicate; lia).
      rewrite length_take, length_replicate. rewrite lookup_app_r by lia.
      rewrite lookup_drop. do 2 f_equal. lia.
Qed.

Lemma pread_byte f o n i : (i < Z.to_nat n)%nat -> byte (pread f o n) i = byte f (Z.to_nat o + i).
Proof. intros Hi. unfold byte, pread. rewrite lookup_take_lt by done. by rewrite lookup_drop. Qed.

Lemma pread_length f o n : length (pread f o n) = Nat.min (Z.to_nat n) (length f - Z.to_nat o).
Proof. unfold pread. by rewrite length_take, length_drop. Qed.

Lemma ftruncate_length f o : length (ftruncate f o) = Z.to_nat o.
Proof. unfold ftruncate. rewrite length_app, length_take, length_replicate. lia. Qed.

Lemma ftruncate_byte f o i : byte (ftruncate f o) i = if decide (i < Z.to_nat o)%nat then byte f i else 0.
Proof.
  unfold byte, ftruncate. set (n := Z.to_nat o). destruct (decide (i < length f)%nat) as [Hf|Hf]; case_decide as Hn.
  - rewrite lookup_app_l by (rewrite length_take; lia). by rewrite lookup_take_lt by lia.
  - rewrite lookup_ge_None_2; [done|]. rewrite length_app, length_take, length_replicate. lia.
  - rewrite lookup_app_r by (rewrite length_take; lia). rewrite length_take, (lookup_ge_None_2 f) by lia.
    by rewrite lookup_replicate_2 by lia.
  - rewrite lookup_ge_None_2; [done|]. rewrite length_app, length_take, length_replicate. lia.
Qed.

Lemma byte_app_l f g i : (i < length f)%nat -> byte (f ++ g) i = byte f i.
Proof. intros. unfold byte. by rewrite lookup_app_l. Qed.

Lemma byte_app_r f g i : (length f <= i)%nat -> byte (f ++ g) i = byte g (i - length f).
Proof. intros. unfold byte. by rewrite lookup_app_r. Qed.

(** Two writes in a row are one. *)
Lemma pwrite_app f o d1 d2 :
  0 <= o -> pwrite (pwrite f o d1) (o + Z.of_nat (length d1)) d2 = pwrite f o (d1 ++ d2).
Proof.
  intros Ho. apply file_eq.
  - rewrite !pwrite_length. repeat case_decide; subst; simpl in *; rewrite ?app_nil_r in *; try done;
      try (destruct d1; done); rewrite ?length_app; lia.
  - intros i _. rewrite !pwrite_byte, length_app. repeat case_decide; try lia; try done.
    + rewrite byte_app_r by lia. f_equal. lia.
    + by rewrite byte_app_l by lia.
Qed.

(** Writes to different places can be exchanged. *)
Lemma pwrite_comm f o1 d1 o2 d2 :
  0 <= o1 -> 0 <= o2 ->
  o1 + Z.of_nat (length d1) <= o2 \/ o2 + Z.of_nat (length d2) <= o1 ->
  pwrite (pwrite f o1 d1) o2 d2 = pwrite (pwrite f o2 d2) o1 d1.
Proof.
  intros H1 H2 Hd. apply file_eq.
  - rewrite !pwrite_length. repeat case_decide; lia.
  - intros i _. rewrite !pwrite_byte. repeat case_decide; try lia; done.
Qed.

(** Two reads in a row are one, when the first is not cut short inside the file. *)
Lemma pread_app f o n m : 0 <= o -> 0 <= n -> 0 <= m -> pread f o n ++ pread f (o + n) m = pread f o (n + m).
Proof.
  intros. unfold pread. rewrite !Z2Nat.inj_add by lia. rewrite <-drop_drop.
  generalize (drop (Z.to_nat o) f). intros g. by rewrite take_take_drop.
Qed.
