(* ===== verification/AfrHealAlgo.v ===== *)
(** * cluster/afr: the algorithms of data self-heal

    Model of afr-self-heal-algorithm.c.  A file is copied from the source to the
    sinks by loops, one for a block, of which up to a window's number run at a
    time.  The full algorithm reads every block and writes it to all sinks; the
    diff algorithm compares checksums first and writes a block to the sinks that
    differ.  A loop has a frame of its own, on which its calls are wound; when the
    last call is answered the loop returns and the driver starts others or ends
    the heal.

    Callbacks may run on several threads.  A thread is the stack of places in the
    driver where it is; the places are the points between which another thread can
    act. *)

From stdpp Require Import base list numbers.
From S2P Require Import Prelude PosixFile Md5.
Open Scope Z_scope.

(** ** Data *)

(** What the algorithms read of [priv], [this->ctx], [local] and [sh]. *)
Record heal_conf := mk_hc {
  hc_child_count : nat;
  hc_window : Z;               (* data_self_heal_window_size *)
  hc_page_size : Z;
  hc_child_up : list bool;
  hc_sources : list Z;
  hc_source : nat;
  hc_active_sinks : Z;
  hc_block_size : Z;
  hc_file_size : Z;
  hc_has_holes : bool
}.

Record sh_diff_loop_state := mk_dls {
  dl_offset : Z;
  dl_write_needed : list bool;
  dl_checksum : list (list Z);     (* a digest for every child *)
  dl_active : bool
}.

(** [afr_sh_algo_full_private_t] and [afr_sh_algo_diff_private_t]; the former has
    the first two fields only. *)
Record algo_private := mk_ap {
  loops_running : Z;
  ap_offset : Z;
  ap_block_size : Z;
  total_blocks : Z;
  diff_blocks : Z;
  ap_loops : list sh_diff_loop_state
}.

(** What the algorithms change: [sh->private], [None] once it is freed,
    [sh->op_failed], and the calls made so far of [algo_completion_cbk] ([true])
    and [algo_abort_cbk] ([false]). *)
Record heal := mk_heal { h_private : option algo_private; h_op_failed : bool; h_ended : list bool }.

(** Calls to children; an answer comes back with the cookie. *)
Inductive heal_op :=
  | H_readv (size offset : Z)
  | H_writev (vector : list (list Z)) (offset : Z)
  | H_rchecksum (offset len : Z).

Record heal_call := mk_call { hcall_child : nat; hcall_cookie : Z; hcall_op : heal_op }.

(** The frame of a loop: [call_count] of its local, and the calls on it that are
    not answered. *)
Record rw_frame := mk_rw { rw_count : Z; rw_calls : list heal_call }.

Record reply := mk_reply { r_op_ret : Z; r_vector : list (list Z); r_strong : list Z }.

Definition set_running (n : Z) (p : algo_private) : algo_private :=
  mk_ap n (ap_offset p) (ap_block_size p) (total_blocks p) (diff_blocks p) (ap_loops p).
Definition set_loops (ls : list sh_diff_loop_state) (p : algo_private) : algo_private :=
  mk_ap (loops_running p) (ap_offset p) (ap_block_size p) (total_blocks p) (diff_blocks p) ls.
Definition set_private (p : algo_private) (h : heal) : heal := mk_heal (Some p) (h_op_failed h) (h_ended h).
Definition op_failed (h : heal) : heal := mk_heal (h_private h) true (h_ended h).

(** A callback: what it changes, its frame, and whether the loop returned, which
    destroys the frame and goes on with the driver.  [None] is a fault: the access
    to memory that was freed or never there. *)
Abbreviation handled := (option (heal * rw_frame * bool)).

(** ** Sinks *)

Definition is_sink (c : heal_conf) (i : nat) : bool :=
  negb (negb (nth i (hc_sources c) 0 =? 0) || negb (nth i (hc_child_up c) false)).

(** [for (i = 0; i < child_count; i++)], over the children that satisfy [want],
    with [if (!--call_count) break]. *)
Fixpoint wind_loop {T : Type} (want : nat -> bool) (mk : nat -> T) (todo i : nat) (call_count : Z) : list T :=
  match todo with
  | O => []
  | S todo =>
      if want i then mk i :: (if call_count - 1 =? 0 then [] else wind_loop want mk todo (S i) (call_count - 1))
      else wind_loop want mk todo (S i) call_count
  end.

(** [afr_frame_return] *)
Definition frame_return (f : rw_frame) : rw_frame := mk_rw (u32 (rw_count f - 1)) (rw_calls f).

(** [mem_0filled] and [iov_0filled]: the first byte that is not zero, or zero. *)
Fixpoint mem_0filled (buf : list Z) : Z :=
  match buf with [] => 0 | b :: buf => if negb (b =? 0) then b else mem_0filled buf end.

Fixpoint iov_0filled (vector : list (list Z)) : Z :=
  match vector with
  | [] => 0
  | v :: vector => let ret := mem_0filled v in if negb (ret =? 0) then ret else iov_0filled vector
  end.

(** ** The driver *)

(** Where a thread is: at the start; with [op_failed] found set; with it found
    clear; at the label [spawn]. *)
Inductive place := P_driver | P_abort | P_checked | P_spawn.

#[export] Instance place_eq : EqDecision place.
Proof. solve_decision. Defined.

(** The private data is freed and one of the callbacks called. *)
Definition end_heal (completed : bool) (h : heal) : heal := mk_heal None (h_op_failed h) (h_ended h ++ [completed]).

(** A step of the driver of either algorithm: what it changes, the places that
    follow on the stack, and the frames of new loops.  [block] is the size of a
    block, [start] begins a loop: its frame, if there is memory for one. *)
Definition loop_driver (block : algo_private -> Z) (start : Z -> heal -> option (heal * option rw_frame)) (c : heal_conf)
    (at_ : place) (h : heal) : option (heal * list place * list rw_frame) :=
  match at_ with
  | P_driver => Some (h, [if h_op_failed h then P_abort else P_checked], [])
  | P_abort =>
      p ← h_private h;
      if loops_running p =? 0 then Some (end_heal false h, [], []) else Some (h, [], [])
  | P_checked =>
      p ← h_private h;
      if hc_file_size c <=? ap_offset p
      then if loops_running p =? 0 then Some (end_heal true h, [], []) else Some (h, [], [])
      else Some (h, [P_spawn], [])
  | P_spawn =>
      p ← h_private h;
      if (loops_running p <? hc_window c) && (ap_offset p <? hc_file_size c)
      then
        let offset := ap_offset p in
        let p := mk_ap (u32 (loops_running p + 1)) (i64 (ap_offset p + block p)) (ap_block_size p) (total_blocks p)
                   (diff_blocks p) (ap_loops p) in
        let recurse := if ap_offset p <? hc_file_size c then [P_spawn] else [] in
        '(h, frame) ← start offset (set_private p h);
        match frame with
        | Some f => Some (h, recurse, [f])
        | None => Some (h, P_driver :: recurse, [])
        end
      else Some (h, [], [])
  end.

(** ** The full algorithm *)

Definition sh_full_loop_return (f : rw_frame) (h : heal) : handled :=
  p ← h_private h; Some (set_private (set_running (u32 (loops_running p - 1)) p) h, f, true).

Definition sh_full_write_cbk (op_ret : Z) (f : rw_frame) (h : heal) : handled :=
  let h := if op_ret =? -1 then op_failed h else h in
  let f := frame_return f in
  if rw_count f =? 0 then sh_full_loop_return f h else Some (h, f, false).

Definition sh_full_read_cbk (c : heal_conf) (offset op_ret : Z) (vector : list (list Z)) (f : rw_frame) (h : heal) : handled :=
  let call_count := hc_active_sinks c in
  let f := mk_rw (u32 call_count) (rw_calls f) in
  if op_ret <=? 0 then sh_full_loop_return f (op_failed h)
  else if hc_has_holes c && (iov_0filled vector =? 0) then sh_full_loop_return f h
  else Some (h, mk_rw (rw_count f) (rw_calls f ++ wind_loop (is_sink c)
                   (fun i => mk_call i (Z.of_nat i) (H_writev vector offset)) (hc_child_count c) 0 call_count), false).

(** [mem]: there is memory for the frame and its local. *)
Definition sh_full_read_write (c : heal_conf) (mem : bool) (offset : Z) (h : heal) : option (heal * option rw_frame) :=
  if mem then Some (h, Some (mk_rw 0 [mk_call (hc_source c) offset (H_readv (hc_block_size c) offset)]))
  else Some (op_failed h, None).

Definition sh_full_loop_driver (c : heal_conf) (mem : bool) : place -> heal -> option (heal * list place * list rw_frame) :=
  loop_driver (fun _ => hc_block_size c) (sh_full_read_write c mem) c.

(** The algorithm begins: its private data; then comes the driver. *)
Definition afr_sh_algo_full (c : heal_conf) (h : heal) : heal := set_private (mk_ap 0 0 0 0 0 []) h.

(** ** The diff algorithm *)

Definition __make_cookie (loop_index child_index : Z) : Z := u32 (Z.lor (u32 (Z.shiftl loop_index 16)) child_index).
Definition __loop_index (cookie : Z) : nat := Z.to_nat (Z.shiftr (Z.land cookie 4294901760) 16).
Definition __child_index (cookie : Z) : nat := Z.to_nat (Z.land cookie 65535).

Definition sh_diff_loop_state_reset (ls : sh_diff_loop_state) (child_count : nat) : sh_diff_loop_state :=
  mk_dls (dl_offset ls) (replicate child_count false) (replicate child_count (replicate MD5_DIGEST_LEN 0)) false.

Definition sh_diff_number_of_writes_needed (write_needed : list bool) : Z :=
  Z.of_nat (length (List.filter id write_needed)).

Definition sh_diff_loop_return (c : heal_conf) (loop_index : nat) (f : rw_frame) (h : heal) : handled :=
  p ← h_private h;
  ls ← ap_loops p !! loop_index;
  let loops := <[loop_index := sh_diff_loop_state_reset ls (hc_child_count c)]> (ap_loops p) in
  Some (set_private (set_loops loops (set_running (u32 (loops_running p - 1)) p)) h, f, true).

Definition sh_diff_write_cbk (c : heal_conf) (cookie op_ret : Z) (f : rw_frame) (h : heal) : handled :=
  let loop_index := __loop_index cookie in
  p ← h_private h;
  _ ← ap_loops p !! loop_index;
  let h := if op_ret =? -1 then op_failed h else h in
  let f := frame_return f in
  if rw_count f =? 0 then sh_diff_loop_return c loop_index f h else Some (h, f, false).

Definition sh_diff_read_cbk (c : heal_conf) (cookie op_ret : Z) (vector : list (list Z)) (f : rw_frame) (h : heal) : handled :=
  let loop_index := __loop_index cookie in
  p ← h_private h;
  ls ← ap_loops p !! loop_index;
  let call_count := sh_diff_number_of_writes_needed (dl_write_needed ls) in
  let f := mk_rw (u32 call_count) (rw_calls f) in
  if (op_ret <=? 0) || (call_count =? 0) then sh_diff_loop_return c loop_index f h
  else if hc_has_holes c && (iov_0filled vector =? 0) then sh_diff_loop_return c loop_index f h
  else Some (h, mk_rw (rw_count f) (rw_calls f ++ wind_loop (fun i => nth i (dl_write_needed ls) false)
                   (fun i => mk_call i (__make_cookie (Z.of_nat loop_index) (Z.of_nat i)) (H_writev vector (dl_offset ls)))
                   (hc_child_count c) 0 call_count), false).

Definition sh_diff_read (c : heal_conf) (loop_index : nat) (f : rw_frame) (h : heal) : handled :=
  p ← h_private h;
  ls ← ap_loops p !! loop_index;
  let cookie := __make_cookie (Z.of_nat loop_index) (Z.of_nat (hc_source c)) in
  Some (h, mk_rw (rw_count f) (rw_calls f ++ [mk_call (hc_source c) cookie (H_readv (ap_block_size p) (dl_offset ls))]), false).

(** The loop over the sinks once all checksums are there: the sinks that differ
    from the source are marked. *)
Definition mark_sinks (c : heal_conf) (ls : sh_diff_loop_state) : list bool :=
  imap (fun i w => if is_sink c i then w || negb (bool_decide (nth i (dl_checksum ls) [] = nth (hc_source c) (dl_checksum ls) []))
                   else w) (dl_write_needed ls).

(** [write_needed]: some sink was marked. *)
Definition any_marked (c : heal_conf) (ls : sh_diff_loop_state) : bool :=
  existsb (fun i => is_sink c i && negb (bool_decide (nth i (dl_checksum ls) [] = nth (hc_source c) (dl_checksum ls) [])))
    (seq 0 (hc_child_count c)).

Definition count_blocks (write_needed : bool) (p : algo_private) : algo_private :=
  mk_ap (loops_running p) (ap_offset p) (ap_block_size p) (i32 (total_blocks p + 1))
    (if write_needed then i32 (diff_blocks p + 1) else diff_blocks p) (ap_loops p).

Definition sh_diff_checksum_cbk (c : heal_conf) (cookie op_ret : Z) (strong : list Z) (f : rw_frame) (h : heal) : handled :=
  let child_index := __child_index cookie in
  let loop_index := __loop_index cookie in
  p ← h_private h;
  ls ← ap_loops p !! loop_index;
  let '(h, p, ls) :=
    if op_ret <? 0 then (op_failed h, p, ls)
    else let ls := mk_dls (dl_offset ls) (dl_write_needed ls) (<[child_index := strong]> (dl_checksum ls)) (dl_active ls) in
         let p := set_loops (<[loop_index := ls]> (ap_loops p)) p in (set_private p h, p, ls) in
  let f := frame_return f in
  if rw_count f =? 0 then
    let write_needed := any_marked c ls in
    let ls := mk_dls (dl_offset ls) (mark_sinks c ls) (dl_checksum ls) (dl_active ls) in
    let h := set_private (count_blocks write_needed (set_loops (<[loop_index := ls]> (ap_loops p)) p)) h in
    if write_needed && negb (h_op_failed h) then sh_diff_read c loop_index f h else sh_diff_loop_return c loop_index f h
  else Some (h, f, false).

(** The first loop that is not active, or [max]. *)
Fixpoint unused_from (i : nat) (loops : list sh_diff_loop_state) : nat :=
  match loops with [] => i | l :: loops => if negb (dl_active l) then i else unused_from (S i) loops end.

Definition sh_diff_find_unused_loop (loops : list sh_diff_loop_state) : nat := unused_from 0 loops.

Definition sh_diff_checksum (c : heal_conf) (mem : bool) (offset : Z) (h : heal) : option (heal * option rw_frame) :=
  if mem then
    p ← h_private h;
    let call_count := hc_active_sinks c + 1 in
    let loop_index := sh_diff_find_unused_loop (ap_loops p) in
    ls ← ap_loops p !! loop_index;
    let ls := mk_dls offset (dl_write_needed ls) (dl_checksum ls) true in
    let call i := mk_call i (__make_cookie (Z.of_nat loop_index) (Z.of_nat i)) (H_rchecksum offset (ap_block_size p)) in
    Some (set_private (set_loops (<[loop_index := ls]> (ap_loops p)) p) h,
          Some (mk_rw (u32 call_count) (call (hc_source c) :: wind_loop (is_sink c) call (hc_child_count c) 0 call_count)))
  else Some (op_failed h, None).

Definition sh_diff_loop_driver (c : heal_conf) (mem : bool) : place -> heal -> option (heal * list place * list rw_frame) :=
  loop_driver ap_block_size (sh_diff_checksum c mem) c.

Definition afr_sh_algo_diff (c : heal_conf) (h : heal) : heal :=
  let loop := mk_dls 0 (replicate (hc_child_count c) false) (replicate (hc_child_count c) (replicate MD5_DIGEST_LEN 0)) false in
  set_private (mk_ap 0 0 (hc_page_size c) 0 0 (replicate (Z.to_nat (hc_window c)) loop)) h.

(** ** The table of algorithms *)

Record afr_sh_algorithm := mk_algo {
  algo_fn : heal_conf -> heal -> heal;
  algo_driver : heal_conf -> bool -> place -> heal -> option (heal * list place * list rw_frame);
  algo_cbk : heal_conf -> heal_call -> reply -> rw_frame -> heal -> handled
}.

Definition sh_full : afr_sh_algorithm :=
  mk_algo afr_sh_algo_full sh_full_loop_driver (fun c call r f h =>
    match hcall_op call with
    | H_readv _ _ => sh_full_read_cbk c (hcall_cookie call) (r_op_ret r) (r_vector r) f h
    | H_writev _ _ => sh_full_write_cbk (r_op_ret r) f h
    | H_rchecksum _ _ => None
    end).

Definition sh_diff : afr_sh_algorithm :=
  mk_algo afr_sh_algo_diff sh_diff_loop_driver (fun c call r f h =>
    match hcall_op call with
    | H_readv _ _ => sh_diff_read_cbk c (hcall_cookie call) (r_op_ret r) (r_vector r) f h
    | H_writev _ _ => sh_diff_write_cbk c (hcall_cookie call) (r_op_ret r) f h
    | H_rchecksum _ _ => sh_diff_checksum_cbk c (hcall_cookie call) (r_op_ret r) (r_strong r) f h
    end).

(** ** Children *)

(** A child does what it is asked ([vector]: the pieces in which a read is
    answered), fails, leaving anything in a file that was to be written, or writes
    less than it was asked to. *)
Inductive answer := A_ok (vector : list (list Z)) | A_fail (junk : file) | A_short (n : nat).

(** The zeroed buffer of [posix_rchecksum] with what pread(2) found. *)
Definition checksum_buf (f : file) (offset len : Z) : list Z :=
  pread f offset len ++ replicate (Z.to_nat len - length (pread f offset len)) 0.

Definition posix_rchecksum (f : file) (offset len : Z) : list Z := gf_rsync_strong_checksum (checksum_buf f offset len).

(** The reply to a call and the files after it; [None] if a child cannot answer so. *)
Definition child_answer (call : heal_call) (a : answer) (files : list file) : option (reply * list file) :=
  let f := nth (hcall_child call) files [] in
  match hcall_op call, a with
  | H_readv size offset, A_ok vector =>
      if bool_decide (concat vector = pread f offset size)
      then Some (mk_reply (Z.of_nat (length (concat vector))) vector [], files) else None
  | H_writev vector offset, A_ok _ =>
      Some (mk_reply (Z.of_nat (length (concat vector))) [] [], <[hcall_child call := pwrite f offset (concat vector)]> files)
  | H_writev vector offset, A_short n =>
      if (n <? length (concat vector))%nat
      then Some (mk_reply (Z.of_nat n) [] [], <[hcall_child call := pwrite f offset (take n (concat vector))]> files) else None
  | H_rchecksum offset len, A_ok _ => Some (mk_reply 0 [] (posix_rchecksum f offset len), files)
  | H_writev _ _, A_fail junk => Some (mk_reply (-1) [] [], <[hcall_child call := junk]> files)
  | _, A_fail _ => Some (mk_reply (-1) [] [], files)
  | _, A_short _ => None
  end.

(** ** The heal and the children together *)

Record hsys := mk_hsys {
  s_heal : heal;
  s_frames : list rw_frame;
  s_threads : list (list place);
  s_files : list file
}.

(** A thread runs up to the next place, with or without memory for a new loop; or
    a call of a frame is answered. *)
Inductive hevent := E_run (thread : nat) (mem : bool) | E_answer (frame call : nat) (a : answer).

Inductive outcome := Next (s : hsys) | Fault | Disabled.

Definition live_thread (t : list place) : list (list place) := match t with [] => [] | _ => [t] end.

(** With [serial], children are heard only when no thread runs, as from a single
    thread that polls the connections. *)
Definition fire (A : afr_sh_algorithm) (c : heal_conf) (serial : bool) (e : hevent) (s : hsys) : outcome :=
  match e with
  | E_run t mem =>
      match s_threads s !! t with
      | Some (at_ :: stack) =>
          match algo_driver A c mem at_ (s_heal s) with
          | None => Fault
          | Some (h, next, frames) =>
              Next (mk_hsys h (s_frames s ++ frames)
                      (take t (s_threads s) ++ live_thread (next ++ stack) ++ drop (S t) (s_threads s)) (s_files s))
          end
      | _ => Disabled
      end
  | E_answer i k a =>
      if serial && negb (bool_decide (s_threads s = [])) then Disabled
      else match s_frames s !! i with
      | None => Disabled
      | Some f =>
          match rw_calls f !! k with
          | None => Disabled
          | Some call =>
              match child_answer call a (s_files s) with
              | None => Disabled
              | Some (r, files) =>
                  match algo_cbk A c call r (mk_rw (rw_count f) (delete k (rw_calls f))) (s_heal s) with
                  | None => Fault
                  | Some (h, f', returned) =>
                      let frame := if returned : bool then [] else [f'] in
                      Next (mk_hsys h (take i (s_frames s) ++ frame ++ drop (S i) (s_frames s))
                              (s_threads s ++ if returned : bool then [[P_driver]] else []) files)
                  end
              end
          end
      end
  end.

Fixpoint run (A : afr_sh_algorithm) (c : heal_conf) (serial : bool) (es : list hevent) (s : hsys) : outcome :=
  match es with
  | [] => Next s
  | e :: es => match fire A c serial e s with Next s' => run A c serial es s' | o => o end
  end.

(** The heal begins with one thread at the driver. *)
Definition heal_start (A : afr_sh_algorithm) (c : heal_conf) (files : list file) : hsys :=
  mk_hsys (algo_fn A c (mk_heal None false [])) [] [[P_driver]] files.
