(* ===== verification/AfrHealInv.v ===== *)
(** * cluster/afr: the heal of a file, for any algorithm

    What the driver relies on is stated as a class: an algorithm keeps its loops
    in order ([ha_good]), begins a loop on any block, and every answer to a loop
    brings it nearer to its end, at which its block is the same on all sinks or the
    heal has failed.  From that: the driver ends every heal once, touches no freed
    memory, and completes a heal only when the sinks have the bytes of the source.
    The two algorithms are instances (AfrHealFull, AfrHealDiff). *)

From stdpp Require Import base list numbers.
From S2P Require Import Prelude PosixFile Md5 AfrHealAlgo.
Open Scope Z_scope.

(** ** Sinks and blocks *)

Definition sinks (c : heal_conf) : list nat := List.filter (is_sink c) (seq 0 (hc_child_count c)).

Definition file_of (files : list file) (i : nat) : file := nth i files [].

(** The configuration that [afr_sh_data_sync_prepare] starts an algorithm with. *)
Record conf_ok (c : heal_conf) : Prop := {
  co_source : (hc_source c < hc_child_count c)%nat;
  co_not_sink : is_sink c (hc_source c) = false;
  co_active : hc_active_sinks c = Z.of_nat (length (sinks c));
  co_sinks : sinks c <> [];
  co_count : Z.of_nat (hc_child_count c) <= 2 ^ 16;
  co_window : 0 < hc_window c <= 2 ^ 16;
  co_block : 0 < hc_block_size c < 2 ^ 32;
  co_page : 0 < hc_page_size c < 2 ^ 32;
  co_size : 0 <= hc_file_size c < 2 ^ 62 }.

(** Position [n] lies in the block at [o]. *)
Definition in_block (bs o : Z) (n : nat) : Prop := o <= Z.of_nat n < o + bs.

Section Blocks.
Context (c : heal_conf) (files0 : list file) (bs : Z).

(** The source as it was; it is only read. *)
Definition src : file := file_of files0 (hc_source c).

Definition same_bytes (f g : file) (o : Z) : Prop := forall n, in_block bs o n -> byte f n = byte g n.

(** The block at [o] of sink [i] has the bytes of the source, up to its end. *)
Definition clean_at (files : list file) (i : nat) (o : Z) : Prop :=
  forall n, in_block bs o n -> (n < length src)%nat -> byte (file_of files i) n = byte src n.

Definition clean (files : list file) (o : Z) : Prop := forall i, i ∈ sinks c -> clean_at files i o.

(** No sink has been written in the block at [o]. *)
Definition untouched (files : list file) (o : Z) : Prop :=
  forall i, i ∈ sinks c -> same_bytes (file_of files i) (file_of files0 i) o.

(** Outside of the block at [o] the sinks are as before. *)
Definition elsewhere (files files' : list file) (o : Z) : Prop :=
  forall i n, i ∈ sinks c -> ~ in_block bs o n -> byte (file_of files' i) n = byte (file_of files i) n.

(** What the files must be for a heal to be right: the source has the size that
    was found; if it has holes, a sink has nothing but zeros where a block of the
    source is all zeros. *)
Record heal_data : Prop := {
  hd_size : Z.of_nat (length src) = hc_file_size c;
  hd_holes : hc_has_holes c = true -> forall j i, 0 <= j -> i ∈ sinks c ->
    (forall n, in_block bs (j * bs) n -> byte src n = 0) ->
    forall n, in_block bs (j * bs) n -> (n < length src)%nat -> byte (file_of files0 i) n = 0 }.

End Blocks.

Lemma elem_of_sinks c i : i ∈ sinks c <-> (i < hc_child_count c)%nat /\ is_sink c i = true.
Proof. unfold sinks. rewrite list_elem_of_In, filter_In, in_seq. split; intros [? ?]; (split; [lia|done]). Qed.

Lemma sinks_nodup c : NoDup (sinks c).
Proof. unfold sinks. apply NoDup_ListNoDup, List.NoDup_filter, NoDup_ListNoDup, NoDup_seq. Qed.

Lemma file_of_insert files i f j :
  (i < length files)%nat -> file_of (<[i := f]> files) j = if decide (i = j) then f else file_of files j.
Proof.
  intros Hi. unfold file_of. rewrite !nth_lookup. case_decide as E.
  - subst j. by rewrite list_lookup_insert_eq.
  - by rewrite list_lookup_insert_ne.
Qed.

(** Blocks at different multiples of their size do not meet. *)
Lemma blocks_disjoint bs j k n : 0 < bs -> in_block bs (j * bs) n -> in_block bs (k * bs) n -> j = k.
Proof. unfold in_block. intros Hb H1 H2. nia. Qed.

Lemma wind_loop_all {T} want (mk : nat -> T) todo i :
  wind_loop want mk todo i (Z.of_nat (length (List.filter want (seq i todo)))) = map mk (List.filter want (seq i todo)).
Proof.
  revert i. induction todo as [|todo IH]; intros i; [done|]. cbn [wind_loop seq List.filter].
  destruct (want i); [|apply IH]. cbn [length map]. f_equal.
  replace (Z.of_nat (S (length (List.filter want (seq (S i) todo)))) - 1) with (Z.of_nat (length (List.filter want (seq (S i) todo)))) by lia.
  destruct (Z.eqb_spec (Z.of_nat (length (List.filter want (seq (S i) todo)))) 0) as [E|E]; [|apply IH].
  by destruct (List.filter want (seq (S i) todo)).
Qed.

(** With a count that is never used up the loop goes to its end. *)
Lemma wind_loop_more {T} want (mk : nat -> T) todo i n :
  Z.of_nat (length (List.filter want (seq i todo))) < n -> wind_loop want mk todo i n = map mk (List.filter want (seq i todo)).
Proof.
  revert i n. induction todo as [|todo IH]; intros i n Hn; [done|]. cbn [wind_loop seq List.filter] in *.
  destruct (want i); [|by apply IH]. cbn [length map] in *. f_equal.
  rewrite (proj2 (Z.eqb_neq _ _)) by lia. apply IH. lia.
Qed.

(** ** Loops *)

Definition op_offset (o : heal_op) : Z := match o with H_readv _ o | H_writev _ o | H_rchecksum o _ => o end.

(** The block that a loop is at. *)
Definition frame_offset (f : rw_frame) : Z := match rw_calls f with [] => 0 | call :: _ => op_offset (hcall_op call) end.

(** The answers that a loop can still get. *)
Definition frame_weight (c : heal_conf) (f : rw_frame) : nat :=
  length (rw_calls f) +
  match rw_calls f with
  | mk_call _ _ (H_rchecksum _ _) :: _ => 1 + length (sinks c)
  | mk_call _ _ (H_readv _ _) :: _ => length (sinks c)
  | _ => 0
  end.

(** ** What an algorithm promises to the driver *)

(** What the callback of an answer to frame [f] leaves: it changes nothing that
    the driver keeps but the number of loops, the sinks are written in the block of
    the loop only, and the loop returned, with a clean block, or is nearer to its
    end. *)
Definition answered (c : heal_conf) (files0 : list file) (bs : Z)
    (good : bool -> list sh_diff_loop_state -> list rw_frame -> list file -> Prop) (e honest : bool) (h : heal) (p : algo_private)
    (f1 : list rw_frame) (f : rw_frame) (f2 : list rw_frame) (files files' : list file) (result : handled) : Prop :=
  exists h' f' (returned : bool) p',
    result = Some (h', f', returned) /\
    h_private h' = Some p' /\ h_ended h' = h_ended h /\ (h_op_failed h = true -> h_op_failed h' = true) /\
    ap_offset p' = ap_offset p /\ ap_block_size p' = ap_block_size p /\
    loops_running p' = (if returned then u32 (loops_running p - 1) else loops_running p) /\
    length files' = hc_child_count c /\ file_of files' (hc_source c) = src c files0 /\
    let e' := e || negb honest || h_op_failed h' in
    (e' = false -> elsewhere c bs files files' (frame_offset f)) /\
    if returned
    then good e' (ap_loops p') (f1 ++ f2) files' /\ (e' = false -> clean c files0 bs files' (frame_offset f))
    else good e' (ap_loops p') (f1 ++ f' :: f2) files' /\ frame_offset f' = frame_offset f /\
         (frame_weight c f' < frame_weight c f)%nat.

(** [e]: the bytes are excused, because something failed or a child did less than
    it answered. *)
Class HealAlgo (A : afr_sh_algorithm) := {
  ha_block : heal_conf -> Z;
  ha_private_block : heal_conf -> Z;
  ha_private_size : heal_conf -> algo_private -> Z;
  ha_width : heal_conf -> nat;
  ha_honest : heal_call -> answer -> bool;
  ha_data : heal_conf -> list file -> Prop;
  ha_start : heal_conf -> bool -> Z -> heal -> option (heal * option rw_frame);
  ha_loops0 : heal_conf -> list sh_diff_loop_state;
  ha_good : heal_conf -> list file -> bool -> list sh_diff_loop_state -> list rw_frame -> list file -> Prop;

  ha_block_pos c : conf_ok c -> 0 < ha_block c < 2 ^ 32;
  ha_fn c h : algo_fn A c h = set_private (mk_ap 0 0 (ha_private_block c) 0 0 (ha_loops0 c)) h;
  ha_driver c mem at_ h : algo_driver A c mem at_ h = loop_driver (ha_private_size c) (ha_start c mem) c at_ h;
  ha_size c p : ap_block_size p = ha_private_block c -> ha_private_size c p = ha_block c;
  ha_no_memory c o h : ha_start c false o h = Some (op_failed h, None);
  ha_initial c files0 e : conf_ok c -> ha_good c files0 e (ha_loops0 c) [] files0;
  ha_weaken c files0 e e' loops frames files :
    ha_good c files0 e loops frames files -> (e' = false -> e = false) -> ha_good c files0 e' loops frames files;
  ha_calls c files0 e loops frames files f :
    ha_good c files0 e loops frames files -> f ∈ frames -> rw_calls f <> [];
  ha_begin c files0 e h p frames files o j :
    conf_ok c -> h_private h = Some p -> ap_block_size p = ha_private_block c ->
    ha_good c files0 e (ap_loops p) frames files -> Z.of_nat (length frames) < hc_window c ->
    o = j * ha_block c -> 0 <= o < hc_file_size c -> (e = false -> untouched c files0 (ha_block c) files o) ->
    exists loops f, ha_start c true o h = Some (set_private (set_loops loops p) h, Some f) /\
      frame_offset f = o /\ (frame_weight c f <= ha_width c)%nat /\ ha_good c files0 e loops (frames ++ [f]) files;
  ha_answer c files0 e h p f1 f f2 files k call a r files' :
    conf_ok c -> (e = false -> ha_data c files0) ->
    h_private h = Some p -> ap_block_size p = ha_private_block c -> (h_op_failed h = true -> e = true) ->
    ha_good c files0 e (ap_loops p) (f1 ++ f :: f2) files ->
    (forall g, g ∈ f1 ++ f :: f2 -> exists j, 0 <= j /\ frame_offset g = j * ha_block c) ->
    (forall g, g ∈ f1 ++ f2 -> frame_offset g <> frame_offset f) ->
    length files = hc_child_count c -> file_of files (hc_source c) = src c files0 ->
    rw_calls f !! k = Some call -> child_answer call a files = Some (r, files') ->
    answered c files0 (ha_block c) (ha_good c files0) e (ha_honest call a) h p f1 f f2 files files'
      (algo_cbk A c call r (mk_rw (rw_count f) (delete k (rw_calls f))) h)
}.

(** ** Writing a block of the source to a sink *)

Section Writes.
Context (c : heal_conf) (files0 : list file) (bs : Z).
Context (Hc : conf_ok c) (Hbs : 0 < bs).

Lemma src_not_sink : hc_source c ∉ sinks c.
Proof. rewrite elem_of_sinks, (co_not_sink c Hc). by intros [_ ?]. Qed.

(** What any answer to a write leaves alone. *)
Lemma write_keeps files call a r files' v o :
  length files = hc_child_count c -> file_of files (hc_source c) = src c files0 -> hcall_child call ∈ sinks c ->
  hcall_op call = H_writev v o -> child_answer call a files = Some (r, files') ->
  length files' = hc_child_count c /\ file_of files' (hc_source c) = src c files0 /\
  (forall i, i <> hcall_child call -> file_of files' i = file_of files i).
Proof.
  intros Hl Hs Hi Ho Ha. assert (exists f, files' = <[hcall_child call := f]> files) as [f ->].
  { unfold child_answer in Ha. rewrite Ho in Ha. destruct a; simplify_eq; eauto. case_match; simplify_eq. eauto. }
  assert (hcall_child call < length files)%nat as Hlt by (rewrite Hl; by apply elem_of_sinks in Hi as [? _]).
  assert (forall i, i <> hcall_child call -> file_of (<[hcall_child call := f]> files) i = file_of files i) as Hne.
  { intros i Hne. by rewrite file_of_insert, decide_False by done. }
  split_and!; [by rewrite length_insert| |done]. rewrite Hne; [done|]. intros E. apply src_not_sink. by rewrite E.
Qed.

(** A whole block of the source was written. *)
Lemma write_cleans files call vec r files' v o :
  length files = hc_child_count c -> hcall_child call ∈ sinks c -> 0 <= o ->
  hcall_op call = H_writev v o -> concat v = pread (src c files0) o bs -> child_answer call (A_ok vec) files = Some (r, files') ->
  0 <= r_op_ret r /\ elsewhere c bs files files' o /\ clean_at c files0 bs files' (hcall_child call) o.
Proof.
  intros Hl Hi Ho0 Ho Hv Ha. unfold child_answer in Ha. rewrite Ho in Ha. injection Ha as <- <-.
  assert (hcall_child call < length files)%nat as Hlt by (rewrite Hl; by apply elem_of_sinks in Hi as [? _]).
  pose proof (pread_length (src c files0) o bs) as Hpl. rewrite Hv. fold (file_of files (hcall_child call)).
  split_and!; [simpl; lia| |].
  - intros i n Hin Hn. rewrite file_of_insert by done. case_decide as E; [subst i|done]. rewrite pwrite_byte.
    case_decide; [|done]. exfalso. apply Hn. unfold in_block. lia.
  - intros n Hn Hlen. unfold in_block in Hn. rewrite file_of_insert, decide_True by done. rewrite pwrite_byte.
    rewrite decide_True by lia. rewrite pread_byte by lia. f_equal. lia.
Qed.

(** A write that was not done in full. *)
Definition honest_write (a : answer) : bool := match a with A_short _ => false | _ => true end.

(** What is known after an answer to a write, if nothing is excused. *)
Lemma write_facts e hon h files v o i call a r files' :
  length files = hc_child_count c -> i ∈ sinks c -> 0 <= o -> (honest_write a = false -> hon = false) ->
  hcall_child call = i -> hcall_op call = H_writev v o -> concat v = pread (src c files0) o bs ->
  child_answer call a files = Some (r, files') ->
  e || negb hon || h_op_failed (if r_op_ret r =? -1 then op_failed h else h) = false ->
  e = false /\ elsewhere c bs files files' o /\ clean_at c files0 bs files' i o.
Proof.
  intros Hl Hi Ho Hh <- Hop Hv Ha [[He Hhon]%orb_false_iff Hf]%orb_false_iff. split; [done|].
  destruct a as [vec|junk|n]; [|exfalso|by rewrite Hh in Hhon].
  - destruct (write_cleans files call vec r files' v o) as (_ & ? & ?); done.
  - unfold child_answer in Ha. rewrite Hop in Ha. injection Ha as <- _. done.
Qed.

(** An answer to a read. *)
Lemma read_replies files call a r files' o :
  hcall_child call = hc_source c -> file_of files (hc_source c) = src c files0 ->
  hcall_op call = H_readv bs o -> child_answer call a files = Some (r, files') ->
  files' = files /\ ((exists vec, a = A_ok vec /\ concat (r_vector r) = pread (src c files0) o bs /\
                        r_op_ret r = Z.of_nat (length (pread (src c files0) o bs))) \/
                     (exists junk, a = A_fail junk /\ r_op_ret r = -1)).
Proof.
  intros Hcall Hs Ho Ha. unfold child_answer in Ha. rewrite Ho, Hcall in Ha. fold (file_of files (hc_source c)) in Ha. rewrite Hs in Ha.
  destruct a as [vec|junk|n]; simplify_eq.
  - case_bool_decide as E; simplify_eq. split; [done|left]. exists vec. simpl. by rewrite E.
  - split; [done|right]. by exists junk.
Qed.

Lemma mem_0filled_zero b : mem_0filled b = 0 <-> Forall (fun x => x = 0) b.
Proof.
  induction b as [|x b IH]; simpl; [split; [constructor|done]|]. rewrite Forall_cons_iff. destruct (Z.eqb_spec x 0); simpl; [|tauto]. tauto.
Qed.

Lemma iov_0filled_zero vector : iov_0filled vector = 0 <-> Forall (fun x => x = 0) (concat vector).
Proof.
  induction vector as [|v vector IH]; simpl; [split; [constructor|done]|]. rewrite Forall_app, <-IH, <-mem_0filled_zero.
  destruct (Z.eqb_spec (mem_0filled v) 0); simpl; tauto.
Qed.

(** Where the source was read as zeros, sinks that were not written are clean. *)
Lemma hole_clean files v j :
  heal_data c files0 bs -> hc_has_holes c = true -> 0 <= j -> untouched c files0 bs files (j * bs) ->
  concat v = pread (src c files0) (j * bs) bs -> iov_0filled v = 0 -> clean c files0 bs files (j * bs).
Proof.
  intros Hd Hh Hj Hu Hv Hz i Hi n Hn Hl. apply iov_0filled_zero in Hz. rewrite Hv in Hz.
  assert (forall n, in_block bs (j * bs) n -> byte (src c files0) n = 0) as Hsrc.
  { intros m Hm. unfold in_block in Hm. replace m with (Z.to_nat (j * bs) + (m - Z.to_nat (j * bs)))%nat by lia.
    rewrite <-(pread_byte _ (j * bs) bs) by lia. unfold byte. destruct (pread _ _ _ !! _) as [x|] eqn:E; [|done].
    by apply (Forall_lookup_1 _ _ _ _ Hz E). }
  rewrite Hu, Hsrc by done. by apply (hd_holes c files0 bs Hd Hh j i).
Qed.

End Writes.
