(* ===== verification/AfrHealSteps.v ===== *)
(** * cluster/afr: every heal of a file ends once, and ends well

    The invariant of a heal whose callbacks run one after the other, kept by every
    step of the driver and every answer, for any algorithm that keeps its promises;
    and the measure that every step brings down. *)

From stdpp Require Import base list numbers sets.
From S2P Require Import Prelude PosixFile Md5 AfrHealAlgo AfrHealInv.
Open Scope Z_scope.

Section Steps.
Context (A : afr_sh_algorithm) {HA : HealAlgo A} (c : heal_conf) (files0 : list file).
Context (Hc : conf_ok c).

Abbreviation bs := (ha_block c).

Definition excused (x : bool) (h : heal) : bool := x || h_op_failed h.

(** ** The invariant *)

(** The stacks of a thread.  A driver is called from within [spawn] when there is
    no memory for a loop; the loop is never given back then. *)
Definition stack_ok (h : heal) (p : algo_private) (leaked : nat) (stack : list place) : Prop :=
  match stack with
  | [P_driver] => True
  | [P_abort] => h_op_failed h = true
  | [P_checked] => h_op_failed h = false
  | [P_spawn] => ap_offset p < hc_file_size c
  | [P_driver; P_spawn] | [P_abort; P_spawn] => (0 < leaked)%nat /\ ap_offset p < hc_file_size c
  | _ => False
  end.

Definition threads_ok (h : heal) (p : algo_private) (leaked : nat) (threads : list (list place)) : Prop :=
  (threads = [] /\ 0 < loops_running p) \/ exists stack, threads = [stack] /\ stack_ok h p leaked stack.

(** [k] loops were begun, [leaked] of them without a frame. *)
Record running (x : bool) (s : hsys) (p : algo_private) (leaked : nat) (k : Z) : Prop := {
  ru_private : h_private (s_heal s) = Some p;
  ru_ended : h_ended (s_heal s) = [];
  ru_count : loops_running p = Z.of_nat (length (s_frames s)) + Z.of_nat leaked;
  ru_leak : (0 < leaked)%nat -> h_op_failed (s_heal s) = true;
  ru_window : loops_running p <= hc_window c;
  ru_offset : ap_offset p = k * bs /\ 0 <= k;
  ru_bound : ap_offset p < hc_file_size c + bs;
  ru_block : ap_block_size p = ha_private_block c;
  ru_threads : threads_ok (s_heal s) p leaked (s_threads s);
  ru_blocks : forall f, f ∈ s_frames s -> exists j, 0 <= j < k /\ frame_offset f = j * bs;
  ru_nodup : NoDup (map frame_offset (s_frames s));
  ru_good : ha_good c files0 (excused x (s_heal s)) (ap_loops p) (s_frames s) (s_files s);
  ru_done : excused x (s_heal s) = false ->
    forall j, 0 <= j < k -> j * bs ∉ map frame_offset (s_frames s) -> clean c files0 bs (s_files s) (j * bs);
  ru_todo : excused x (s_heal s) = false -> forall j, k <= j -> untouched c files0 bs (s_files s) (j * bs);
  ru_files : length (s_files s) = hc_child_count c;
  ru_source : file_of (s_files s) (hc_source c) = src c files0 }.

Record ended (x : bool) (s : hsys) (b : bool) : Prop := {
  en_private : h_private (s_heal s) = None;
  en_ended : h_ended (s_heal s) = [b];
  en_frames : s_frames s = [];
  en_threads : s_threads s = [];
  en_failed : h_op_failed (s_heal s) = negb b;
  en_clean : b = true -> x = false -> forall i n, i ∈ sinks c -> Z.of_nat n < hc_file_size c -> (n < length (src c files0))%nat ->
    byte (file_of (s_files s) i) n = byte (src c files0) n;
  en_files : length (s_files s) = hc_child_count c;
  en_source : file_of (s_files s) (hc_source c) = src c files0 }.

(** The loops that were lost: none if there was always memory ([m]), and [low] at
    least. *)
Definition leak_ok (m : bool) (low leaked : nat) : Prop := (m = true -> leaked = 0%nat) /\ (low <= leaked)%nat.

Definition Inv (x m : bool) (low : nat) (s : hsys) : Prop :=
  (exists p leaked k, running x s p leaked k /\ leak_ok m low leaked) \/ (low = 0%nat /\ exists b, ended x s b).

(** ** The measure *)

Definition place_weight (at_ : place) : nat := match at_ with P_driver => 3 | P_checked => 2 | P_abort | P_spawn => 1 end.

Definition blocks_left (p : algo_private) : nat := Z.to_nat ((hc_file_size c - ap_offset p + bs - 1) / bs).

Definition sys_weight (s : hsys) : nat :=
  match h_private (s_heal s) with Some p => blocks_left p * (ha_width c + 5) | None => 0 end
  + sum_list_with (fun f => frame_weight c f + 4)%nat (s_frames s)
  + sum_list_with (sum_list_with place_weight) (s_threads s).

(** What a step must give. *)
Definition step_ok (x m : bool) (low : nat) (s : hsys) (o : outcome) : Prop :=
  match o with
  | Next s' => Inv x m low s' /\ (sys_weight s' < sys_weight s)%nat
  | Fault => False
  | Disabled => True
  end.

Lemma leak_ok_and m mem low leaked : leak_ok m low leaked -> leak_ok (m && mem) low leaked.
Proof. intros [H1 H2]. split; [by intros [? _]%andb_true_iff; apply H1|done]. Qed.

Lemma leak_ok_more m low leaked : leak_ok m low leaked -> leak_ok (m && false) low (S leaked).
Proof. intros [H1 H2]. split; [by rewrite andb_false_r|lia]. Qed.

Lemma blocks_left_step p p' :
  0 <= ap_offset p < hc_file_size c -> ap_offset p' = ap_offset p + bs -> blocks_left p = S (blocks_left p').
Proof.
  intros Hp Hp'. pose proof (ha_block_pos c Hc) as Hb. unfold blocks_left. rewrite Hp'.
  replace (hc_file_size c - ap_offset p + bs - 1) with ((hc_file_size c - (ap_offset p + bs) + bs - 1) + 1 * bs) by lia.
  rewrite Z.div_add by lia. rewrite Z2Nat.inj_add; [simpl; lia| |lia]. apply Z.div_pos; lia.
Qed.

(** ** The driver *)

Lemma fire_run h frames at_ st files mem serial :
  fire A c serial (E_run 0 mem) (mk_hsys h frames [at_ :: st] files) =
  match loop_driver (ha_private_size c) (ha_start c mem) c at_ h with
  | None => Fault
  | Some (h', next, frames') => Next (mk_hsys h' (frames ++ frames') (live_thread (next ++ st)) files)
  end.
Proof.
  rewrite <-ha_driver. unfold fire. cbn. destruct (algo_driver A c mem at_ h) as [[[h' next] frames']|]; [|done].
  by rewrite app_nil_r.
Qed.

Lemma step_driver x m low h frames st files p leaked k mem :
  running x (mk_hsys h frames [P_driver :: st] files) p leaked k -> leak_ok m low leaked ->
  step_ok x (m && mem) low (mk_hsys h frames [P_driver :: st] files) (fire A c true (E_run 0 mem) (mk_hsys h frames [P_driver :: st] files)).
Proof.
  intros R Hm. destruct (ru_threads _ _ _ _ _ R) as [[? _]|(stack & E & Hs)]; [done|]. simpl in E. injection E as <-. rewrite fire_run. cbn [loop_driver app live_thread].
  rewrite app_nil_r. split; [|unfold sys_weight; simpl; destruct (h_op_failed h); simpl; lia].
  left. exists p, leaked, k. split; [|by apply leak_ok_and]. destruct R. split; simpl in *; try done. right. eexists; split; [done|].
  destruct (h_op_failed h) eqn:Ef; destruct st as [|[] [|]]; simpl in *; try done. destruct Hs as [Hl _].
  specialize (ru_leak0 Hl). congruence.
Qed.

Lemma step_abort x m low h frames st files p leaked k mem :
  running x (mk_hsys h frames [P_abort :: st] files) p leaked k -> leak_ok m low leaked ->
  step_ok x (m && mem) low (mk_hsys h frames [P_abort :: st] files) (fire A c true (E_run 0 mem) (mk_hsys h frames [P_abort :: st] files)).
Proof.
  intros R Hm. destruct (ru_threads _ _ _ _ _ R) as [[? _]|(stack & E & Hs)]; [done|]. simpl in E. injection E as <-. rewrite fire_run.
  pose proof (ru_private _ _ _ _ _ R) as Hp. pose proof (ru_count _ _ _ _ _ R) as Hn. simpl in Hp, Hn.
  unfold loop_driver. rewrite Hp. simpl. destruct (Z.eqb_spec (loops_running p) 0) as [E0|E0]; simpl; rewrite app_nil_r.
  - assert (frames = []) as -> by (destruct frames; [done|simpl in Hn; lia]). destruct st as [|[] [|]]; simpl in Hs; try done; [|lia].
    split; [|unfold sys_weight; simpl; rewrite Hp; lia]. right. destruct Hm as [_ Hm]. split; [lia|]. exists false. destruct R. split; simpl in *; try done.
    by rewrite ru_ended0.
  - split; [|unfold sys_weight; simpl; destruct st; simpl; lia]. left. exists p, leaked, k. split; [|by apply leak_ok_and]. destruct R.
    split; simpl in *; try done. destruct st as [|[] [|]]; simpl in Hs; try done.
    + left. split; [done|lia].
    + right. eexists. split; [done|]. apply Hs.
Qed.

(** Every block was begun and no loop is left: all blocks are clean. *)
Lemma all_clean x s p k :
  running x s p 0 k -> s_frames s = [] -> hc_file_size c <= ap_offset p -> excused x (s_heal s) = false ->
  forall i n, i ∈ sinks c -> Z.of_nat n < hc_file_size c -> (n < length (src c files0))%nat ->
  byte (file_of (s_files s) i) n = byte (src c files0) n.
Proof.
  intros R Hf Hend He i n Hi Hn Hl. pose proof (ha_block_pos c Hc). destruct (ru_offset _ _ _ _ _ R) as [Ho Hk].
  apply (ru_done _ _ _ _ _ R He (Z.of_nat n / bs)); [|by rewrite Hf; apply not_elem_of_nil|done| |done].
  - split; [apply Z.div_pos; lia|]. apply Z.div_lt_upper_bound; lia.
  - unfold in_block. pose proof (Z.div_mod (Z.of_nat n) bs). pose proof (Z.mod_pos_bound (Z.of_nat n) bs). lia.
Qed.

Lemma step_checked x m low h frames st files p leaked k mem :
  running x (mk_hsys h frames [P_checked :: st] files) p leaked k -> leak_ok m low leaked ->
  step_ok x (m && mem) low (mk_hsys h frames [P_checked :: st] files) (fire A c true (E_run 0 mem) (mk_hsys h frames [P_checked :: st] files)).
Proof.
  intros R Hm. destruct (ru_threads _ _ _ _ _ R) as [[? _]|(stack & E & Hs)]; [done|]. simpl in E. injection E as <-. rewrite fire_run.
  pose proof (ru_private _ _ _ _ _ R) as Hp. pose proof (ru_count _ _ _ _ _ R) as Hn. simpl in Hp, Hn.
  unfold loop_driver. rewrite Hp. simpl. destruct st as [|[] ?]; simpl in Hs; try done.
  assert (leaked = 0)%nat as ->.
  { destruct leaked; [done|]. pose proof (ru_leak _ _ _ _ _ R ltac:(lia)) as Hf. simpl in Hf. congruence. }
  destruct (Z.leb_spec (hc_file_size c) (ap_offset p)) as [Hend|Hend]; [destruct (Z.eqb_spec (loops_running p) 0) as [E0|E0]|];
    simpl; rewrite app_nil_r.
  - assert (frames = []) as -> by (destruct frames; [done|simpl in Hn; lia]).
    split; [|unfold sys_weight; simpl; rewrite Hp; lia]. right. destruct Hm as [_ Hm]. split; [lia|]. exists true. pose proof (all_clean x _ p k R eq_refl Hend) as Hcl.
    destruct R. split; simpl in *; try done.
    + by rewrite ru_ended0.
    + intros _ ->. by apply Hcl.
  - split; [|unfold sys_weight; simpl; lia]. left. exists p, 0%nat, k. split; [|by apply leak_ok_and]. destruct R. split; simpl in *; try done. left. split; [done|lia].
  - split; [|unfold sys_weight; simpl; lia]. left. exists p, 0%nat, k. split; [|by apply leak_ok_and]. destruct R. split; simpl in *; try done. right. by exists [P_spawn].
Qed.

(** A loop is begun, or there is no memory for it. *)
Definition begun (p : algo_private) : algo_private :=
  mk_ap (loops_running p + 1) (ap_offset p + bs) (ap_block_size p) (total_blocks p) (diff_blocks p) (ap_loops p).

Lemma spawn_numbers x s p leaked k :
  running x s p leaked k -> loops_running p < hc_window c -> ap_offset p < hc_file_size c ->
  mk_ap (u32 (loops_running p + 1)) (i64 (ap_offset p + ha_private_size c p)) (ap_block_size p) (total_blocks p)
    (diff_blocks p) (ap_loops p) = begun p.
Proof.
  intros R Hw Ho. destruct (ru_offset _ _ _ _ _ R) as [E Hk]. pose proof (ha_block_pos c Hc). pose proof (co_window c Hc).
  pose proof (co_size c Hc). pose proof (ru_count _ _ _ _ _ R). rewrite (ha_size c p (ru_block _ _ _ _ _ R)).
  rewrite u32_small by (unfold is_u32; lia). rewrite i64_small by (unfold is_i64; nia). done.
Qed.

Definition respawn (p : algo_private) : list place := if ap_offset p <? hc_file_size c then [P_spawn] else [].

Lemma spawn_running x h frames files p leaked k f loops :
  running x (mk_hsys h frames [[P_spawn]] files) p leaked k -> loops_running p < hc_window c -> ap_offset p < hc_file_size c ->
  frame_offset f = ap_offset p -> ha_good c files0 (excused x h) loops (frames ++ [f]) files ->
  let p' := set_loops loops (begun p) in
  running x (mk_hsys (set_private p' h) (frames ++ [f]) (live_thread (respawn p')) files) p' leaked (k + 1).
Proof.
  intros R Hw Ho Hf Hg p'. pose proof (ha_block_pos c Hc). destruct R. simpl in *.
  split; simpl; try done; try (destruct ru_offset0; lia).
  - rewrite length_app. simpl. lia.
  - unfold respawn. simpl. destruct (Z.ltb_spec (ap_offset p + bs) (hc_file_size c)); simpl.
    + right. by exists [P_spawn].
    + left. split; [done|simpl; lia].
  - intros g [Hg'| ->%list_elem_of_singleton]%elem_of_app.
    + destruct (ru_blocks0 g Hg') as (j & Hj & E). exists j. split; [lia|done].
    + exists k. destruct ru_offset0. split; [lia|congruence].
  - rewrite map_app. apply list.NoDup_app. split_and!; [done| |apply NoDup_singleton].
    intros o (g & -> & Hg')%list_elem_of_fmap Ho'. apply list_elem_of_singleton in Ho'.
    destruct (ru_blocks0 g Hg') as (j & Hj & E). destruct ru_offset0. nia.
  - intros He j Hj Hnot. rewrite map_app in Hnot. apply not_elem_of_app in Hnot as [Hnot Hne].
    simpl in Hne. apply ru_done0; [done| |done]. destruct (decide (j = k)) as [->|]; [|lia].
    exfalso. apply Hne, list_elem_of_singleton. destruct ru_offset0. congruence.
  - intros He j Hj. apply ru_todo0; [done|lia].
Qed.

Lemma spawn_failed x h frames files p leaked k :
  running x (mk_hsys h frames [[P_spawn]] files) p leaked k -> loops_running p < hc_window c -> ap_offset p < hc_file_size c ->
  let p' := begun p in
  running x (mk_hsys (op_failed (set_private p' h)) frames [P_driver :: respawn p'] files) p' (S leaked) (k + 1).
Proof.
  intros R Hw Ho p'. pose proof (ha_block_pos c Hc). destruct R. simpl in *.
  assert (forall h, excused x (op_failed h) = true) as Hx by (intros; apply orb_true_r).
  split; simpl; try done; try (destruct ru_offset0; lia); try (by rewrite Hx).
  - right. eexists. split; [done|]. unfold respawn. destruct (Z.ltb_spec (ap_offset p') (hc_file_size c)); simpl; [|done]. split; [lia|done].
  - intros g Hg'. destruct (ru_blocks0 g Hg') as (j & Hj & E). exists j. split; [lia|done].
  - eapply ha_weaken; [done|]. by rewrite Hx.
Qed.

Lemma sum_app {T} (w : T -> nat) l1 l2 : sum_list_with w (l1 ++ l2) = (sum_list_with w l1 + sum_list_with w l2)%nat.
Proof. induction l1 as [|a l1 IH]; simpl; lia. Qed.

Lemma step_spawn x m low h frames st files p leaked k mem :
  running x (mk_hsys h frames [P_spawn :: st] files) p leaked k -> leak_ok m low leaked ->
  step_ok x (m && mem) low (mk_hsys h frames [P_spawn :: st] files) (fire A c true (E_run 0 mem) (mk_hsys h frames [P_spawn :: st] files)).
Proof.
  intros R Hm. destruct (ru_threads _ _ _ _ _ R) as [[? _]|(stack & E & Hs)]; [done|]. simpl in E. injection E as <-.
  destruct st as [|[] ?]; simpl in Hs; try done. rewrite fire_run. unfold loop_driver.
  pose proof (ru_private _ _ _ _ _ R) as Hp. simpl in Hp. rewrite Hp. cbn [mbind option_bind]. pose proof (ha_block_pos c Hc) as Hbs. destruct (ru_offset _ _ _ _ _ R) as [Ek Hk].
  rewrite (proj2 (Z.ltb_lt _ _) Hs).
  destruct (Z.ltb_spec (loops_running p) (hc_window c)) as [Hw|Hw]; simpl andb; cbv iota.
  2:{ rewrite app_nil_r. split; [|unfold sys_weight; simpl; lia]. left. exists p, leaked, k. pose proof (co_window c Hc).
      split; [|by apply leak_ok_and].
      destruct R. split; simpl in *; try done. left. split; [done|lia]. }
  rewrite (spawn_numbers _ _ _ _ _ R Hw Hs). cbv zeta. fold (respawn (begun p)).
  pose proof (blocks_left_step p (begun p) ltac:(nia) eq_refl) as Hleft. destruct mem.
  - destruct (ha_begin c files0 (excused x h) (set_private (begun p) h) (begun p) frames files (ap_offset p) k) as (loops & f & -> & Hf & Hwt & Hg);
      try done; try nia; try (by destruct R); [destruct R; simpl in *; lia|intros He; rewrite Ek; apply (ru_todo _ _ _ _ _ R He k); lia|].
    cbn [mbind option_bind]. rewrite app_nil_r. split; [left; eexists _, leaked, (k + 1); split; [|by apply leak_ok_and]; exact (spawn_running x h frames files p leaked k f loops R Hw Hs Hf Hg)|].
    unfold sys_weight. simpl. rewrite Hp, Hleft, sum_app. replace (blocks_left (set_loops loops (begun p))) with (blocks_left (begun p)) by done.
    unfold respawn. destruct (_ <? _); simpl; nia.
  - rewrite ha_no_memory. simpl. rewrite !app_nil_r. split; [left; eexists _, (S leaked), (k + 1); split; [by apply spawn_failed|by apply leak_ok_more]|].
    unfold sys_weight. simpl. rewrite Hp, Hleft. unfold respawn. destruct (_ <? _); simpl; nia.
Qed.

(** ** Answers *)

Lemma clean_elsewhere files files' j j' :
  j <> j' -> elsewhere c bs files files' (j' * bs) -> clean c files0 bs files (j * bs) -> clean c files0 bs files' (j * bs).
Proof.
  intros Hj He Hcl i Hi n Hn Hl. rewrite He; [by apply Hcl|done|]. intros Hn'. apply Hj.
  by apply (blocks_disjoint bs j j' n (proj1 (ha_block_pos c Hc))).
Qed.

Lemma untouched_elsewhere files files' j j' :
  j <> j' -> elsewhere c bs files files' (j' * bs) -> untouched c files0 bs files (j * bs) -> untouched c files0 bs files' (j * bs).
Proof.
  intros Hj He Hcl i Hi n Hn. rewrite He; [by apply Hcl|done|]. intros Hn'. apply Hj.
  by apply (blocks_disjoint bs j j' n (proj1 (ha_block_pos c Hc))).
Qed.

(** Whether the answer does what it says. *)
Definition honest_event (e : hevent) (s : hsys) : bool :=
  match e with
  | E_run _ _ => true
  | E_answer i k a =>
      match s_frames s !! i with
      | Some f => match rw_calls f !! k with Some call => ha_honest call a | None => true end
      | None => true
      end
  end.

Lemma step_answered x h f1 f f2 files p leaked k h' p' files' (returned : bool) f' b :
  running x (mk_hsys h (f1 ++ f :: f2) [] files) p leaked k ->
  h_private h' = Some p' -> h_ended h' = h_ended h -> (h_op_failed h = true -> h_op_failed h' = true) ->
  ap_offset p' = ap_offset p -> ap_block_size p' = ap_block_size p ->
  loops_running p' = (if returned then loops_running p - 1 else loops_running p) ->
  length files' = hc_child_count c -> file_of files' (hc_source c) = src c files0 ->
  (excused (x || b) h' = false -> elsewhere c bs files files' (frame_offset f)) ->
  ha_good c files0 (excused (x || b) h') (ap_loops p') (f1 ++ (if returned then [] else [f']) ++ f2) files' ->
  (if returned then excused (x || b) h' = false -> clean c files0 bs files' (frame_offset f)
   else frame_offset f' = frame_offset f) ->
  running (x || b) (mk_hsys h' (f1 ++ (if returned then [] else [f']) ++ f2) (if returned then [[P_driver]] else []) files') p' leaked k.
Proof.
  intros R Hp He Hf Ho Hb Hl Hfiles Hsrc Hel Hg Hcl.
  assert (excused (x || b) h' = false -> excused x h = false) as Hex.
  { unfold excused. intros [[-> _]%orb_false_iff Hf']%orb_false_iff. destruct (h_op_failed h); [|done]. by rewrite Hf in Hf'. }
  assert (map frame_offset (f1 ++ f :: f2) ≡ₚ frame_offset f :: map frame_offset (f1 ++ f2)) as Hperm.
  { rewrite !map_app. simpl. symmetry. apply Permutation_middle. }
  assert (forall g, g ∈ f1 ++ (if returned then [] else [f']) ++ f2 -> exists g0, g0 ∈ f1 ++ f :: f2 /\ frame_offset g = frame_offset g0) as Hg0.
  { intros g Hin. destruct returned; simpl in Hin; [exists g; set_solver|]. apply elem_of_app in Hin as [Hin|[->|Hin]%elem_of_cons];
      [exists g|exists f|exists g]; set_solver. }
  assert (f ∈ f1 ++ f :: f2) as Hfin by set_solver.
  destruct (ru_blocks _ _ _ _ _ R f Hfin) as (jf & Hjf & Ejf). simpl in Hjf. rewrite Ejf in Hel.
  destruct R. simpl in *. split; simpl; rewrite ?Ho; auto; try congruence.
  - rewrite Hl, ru_count0, !length_app. destruct returned; simpl; lia.
  - rewrite Hl. destruct returned; lia.
  - unfold threads_ok. destruct returned; [right; by exists [P_driver]|left; split; [done|]]. rewrite Hl, ru_count0, length_app. simpl. lia.
  - intros g Hin. destruct (Hg0 g Hin) as (g0 & Hin0 & ->). by apply ru_blocks0.
  - rewrite Hperm in ru_nodup0. destruct returned; [by apply NoDup_cons in ru_nodup0 as [_ ?]|].
    rewrite !map_app. simpl. rewrite Hcl. rewrite map_app in ru_nodup0. by rewrite <-Permutation_middle.
  - intros Hx j Hj Hnot. specialize (Hel Hx). destruct (decide (j = jf)) as [->|Hne].
    + destruct returned; [rewrite <-Ejf; by apply Hcl|]. exfalso. apply Hnot. rewrite !map_app. simpl.
      rewrite Hcl, Ejf, elem_of_app, elem_of_cons. tauto.
    + apply (clean_elsewhere files files' j jf Hne Hel). apply ru_done0; [by apply Hex|done|]. intros Hin. apply Hnot.
      rewrite Hperm, elem_of_cons, Ejf, map_app, elem_of_app in Hin. rewrite !map_app, !elem_of_app.
      destruct Hin as [Hin|Hin]; [pose proof (ha_block_pos c Hc); nia|tauto].
  - intros Hx j Hj. specialize (Hel Hx). apply (untouched_elsewhere files files' j jf); [lia|done|]. apply ru_todo0; [by apply Hex|done].
Qed.

Lemma step_answer x m low s p leaked k i n a :
  (x = false -> ha_data c files0) -> running x s p leaked k -> leak_ok m low leaked ->
  step_ok (x || negb (honest_event (E_answer i n a) s)) m low s (fire A c true (E_answer i n a) s).
Proof.
  intros Hd R Hm. unfold fire, honest_event. destruct (bool_decide_reflect (s_threads s = [])) as [Et|]; [|done]. simpl andb; cbv iota.
  destruct (s_frames s !! i) as [f|] eqn:Ef; [|done]. destruct (rw_calls f !! n) as [call|] eqn:Ec; [|done].
  destruct (child_answer call a (s_files s)) as [[r files']|] eqn:Ea; [|done].
  destruct s as [h frames threads files]. simpl in Et, Ef, Ea |- *. subst threads. pose proof (take_drop_middle frames i f Ef) as Efr.
  set (f1 := take i frames) in *. set (f2 := drop (S i) frames) in *. clearbody f1 f2. subst frames.
  destruct (ha_answer c files0 (excused x h) h p f1 f f2 files n call a r files') as (h' & f' & ret & p' & -> & Hp & He & Hfl & Ho & Hb & Hl & Hlen & Hsrc & Hel & Hres);
    try done; try (by destruct R).
  - intros Hx. apply Hd. by apply orb_false_iff in Hx as [-> _].
  - intros Hf. unfold excused. by rewrite Hf, orb_true_r.
  - intros g Hg. destruct (ru_blocks _ _ _ _ _ R g Hg) as (j & Hj & E). exists j. split; [lia|done].
  - intros g Hg E. pose proof (ru_nodup _ _ _ _ _ R) as Hnd. simpl in Hnd. rewrite map_app in Hnd. simpl in Hnd.
    rewrite <-Permutation_middle, <-map_app in Hnd. apply NoDup_cons in Hnd as [Hnd _]. apply Hnd. rewrite <-E. apply list_elem_of_fmap. eauto.
  - set (b := negb (ha_honest call a)) in *. assert (excused x h || b || h_op_failed h' = excused (x || b) h') as Ex.
    { unfold excused. destruct x, b, (h_op_failed h) eqn:E1; simpl; try done. by rewrite Hfl. }
    rewrite Ex in Hel, Hres. pose proof (ru_count _ _ _ _ _ R) as Hn. pose proof (ru_window _ _ _ _ _ R). pose proof (co_window c Hc). simpl in Hn.
    rewrite length_app in Hn. simpl in Hn. pose proof (ru_private _ _ _ _ _ R) as Hp0. simpl in Hp0.
    assert (running (x || b) (mk_hsys h' (f1 ++ (if ret then [] else [f']) ++ f2) (if ret then [[P_driver]] else []) files') p' leaked k) as R'.
    { eapply step_answered; try done.
      - rewrite Hl. destruct ret; [|done]. apply u32_small. unfold is_u32. lia.
      - destruct ret; by destruct Hres.
      - destruct ret; [by destruct Hres|]. by destruct Hres as (_ & ? & _). }
    destruct ret; (split; [left; exists p', leaked, k; done|]); unfold sys_weight; simpl; rewrite Hp, Hp0; simpl;
      unfold blocks_left; rewrite Ho, !sum_app; simpl; [lia|]. destruct Hres as (_ & _ & Hw). lia.
Qed.

(** ** All steps *)

Lemma step_any x m low s e :
  (x = false -> ha_data c files0) -> Inv x m low s ->
  step_ok (x || negb (honest_event e s)) (m && match e with E_run _ mem => mem | _ => true end) low s (fire A c true e s).
Proof.
  intros Hd [(p & leaked & k & R & Hm)|(_ & b & E)].
  - destruct e as [t mem|i n a]; [|rewrite andb_true_r; by eapply step_answer]. simpl honest_event. rewrite orb_false_r.
    destruct s as [h frames threads files]. destruct (ru_threads _ _ _ _ _ R) as [[Et _]|(stack & Et & Hs)]; simpl in Et; subst threads; [done|].
    destruct t as [|t]; [|done]. destruct stack as [|at_ st]; [done|].
    destruct at_; [by eapply step_driver|by eapply step_abort|by eapply step_checked|by eapply step_spawn].
  - destruct E. destruct e as [t mem|i n a]; simpl; [by rewrite en_threads0|].
    rewrite bool_decide_true by done. simpl. by rewrite en_frames0.
Qed.

Fixpoint honest_run (es : list hevent) (s : hsys) : bool :=
  match es with
  | [] => true
  | e :: es => honest_event e s && match fire A c true e s with Next s' => honest_run es s' | _ => true end
  end.

Definition has_memory (e : hevent) : bool := match e with E_run _ mem => mem | _ => true end.

Lemma run_any es : forall x m low s,
  (x = false -> ha_data c files0) -> Inv x m low s ->
  match run A c true es s with
  | Next s' => Inv (x || negb (honest_run es s)) (m && forallb has_memory es) low s' /\ (length es + sys_weight s' <= sys_weight s)%nat
  | Fault => False
  | Disabled => True
  end.
Proof.
  induction es as [|e es IH]; intros x m low s Hd HI.
  - simpl. rewrite orb_false_r, andb_true_r. split; [done|lia].
  - cbn [run honest_run forallb length]. pose proof (step_any x m low s e Hd HI) as Hs. destruct (fire A c true e s) as [s'| |]; [|done|done].
    destruct Hs as [HI' Hw]. specialize (IH _ _ low s' (fun Hx => Hd (proj1 (proj1 (orb_false_iff _ _) Hx))) HI').
    destruct (run A c true es s') as [s''| |]; [|done|done]. destruct IH as [IH1 IH2]. split; [|lia].
    destruct (honest_event e s); simpl in *; rewrite ?orb_false_r, ?orb_true_r, <-?andb_assoc in IH1; rewrite ?orb_true_r; done.
Qed.

Lemma start_inv x : length files0 = hc_child_count c -> Inv x true 0 (heal_start A c files0).
Proof.
  intros Hl. left. pose proof (ha_block_pos c Hc). pose proof (co_window c Hc). pose proof (co_size c Hc). unfold heal_start. rewrite ha_fn.
  exists (mk_ap 0 0 (ha_private_block c) 0 0 (ha_loops0 c)), 0%nat, 0. split; [|done]. split; simpl; try done; try lia.
  - right. by exists [P_driver].
  - intros f Hf. by apply not_elem_of_nil in Hf.
  - constructor.
  - by apply ha_initial.
Qed.

(** A heal that has not ended can go on, whatever answer is [pick]ed for a call. *)
Lemma progress_by (pick : heal_call -> list file -> answer) x s p k :
  (forall call files, is_Some (child_answer call (pick call files) files)) -> running x s p 0 k ->
  exists e s', fire A c true e s = Next s' /\
    (e = E_run 0 true \/ exists f frames call calls, s_frames s = f :: frames /\ rw_calls f = call :: calls /\
       e = E_answer 0 0 (pick call (s_files s))).
Proof.
  intros Hpick R. assert (forall e, fire A c true e s <> Disabled -> exists s', fire A c true e s = Next s') as Hgo.
  { intros e Hne. pose proof (step_any true true 0 s e ltac:(done)) as Hs. destruct (fire A c true e s) as [s'| |] eqn:E; [eauto| |done].
    exfalso. apply Hs. left. exists p, 0%nat, k. split; [|by split]. destruct R. split; try done. by eapply ha_weaken. }
  destruct (ru_threads _ _ _ _ _ R) as [[Et Hl]|(stack & Et & Hs)].
  - pose proof (ru_count _ _ _ _ _ R) as Hn. destruct (s_frames s) as [|f frames] eqn:Ef; [simpl in Hn; lia|].
    pose proof (ha_calls _ _ _ _ _ _ f (ru_good _ _ _ _ _ R)) as Hcall. rewrite Ef in Hcall. specialize (Hcall ltac:(by left)).
    destruct (rw_calls f) as [|call calls] eqn:Ec; [done|].
    destruct (Hgo (E_answer 0 0 (pick call (s_files s)))) as [s' Hs'].
    + unfold fire. rewrite Et, Ef. simpl. rewrite Ec. simpl. destruct (Hpick call (s_files s)) as [[r files'] ->].
      by destruct (algo_cbk _ _ _ _ _ _) as [[[h' f'] ret]|].
    + eexists _, s'. split; [exact Hs'|]. right. by exists f, frames, call, calls.
  - destruct (Hgo (E_run 0 true)) as [s' Hs']; [|eexists _, s'; split; [exact Hs'|by left]].
    unfold fire. rewrite Et. simpl. destruct stack as [|at_ st]; [done|].
    by destruct (algo_driver _ _ _ _ _) as [[[h' next] fr]|].
Qed.

(** Every call can be answered as asked. *)
Definition obey (call : heal_call) (files : list file) : answer :=
  A_ok match hcall_op call with H_readv size o => [pread (file_of files (hcall_child call)) o size] | _ => [] end.

Lemma obey_answers call files : is_Some (child_answer call (obey call files) files).
Proof.
  unfold child_answer, obey. destruct (hcall_op call) as [size o| |]; simpl; [|eauto|eauto].
  rewrite app_nil_r, bool_decide_true by done. eauto.
Qed.

Lemma progress x s p k : running x s p 0 k -> exists e s', has_memory e = true /\ fire A c true e s = Next s'.
Proof.
  intros R. destruct (progress_by obey x s p k obey_answers R) as (e & s' & Hs' & He). exists e, s'. split; [|done].
  by destruct He as [->|(f & fs & call & cs & _ & _ & ->)].
Qed.

End Steps.
