(* ===== verification/AfrHealFull.v ===== *)
(** * cluster/afr: the full algorithm keeps its promises *)

From stdpp Require Import base list numbers sets.
From S2P Require Import Prelude PosixFile Md5 AfrHealAlgo AfrHealInv.
Open Scope Z_scope.

Section Full.
Context (c : heal_conf) (files0 : list file).

Abbreviation bs := (hc_block_size c).

Definition full_read (o : Z) : heal_call := mk_call (hc_source c) o (H_readv bs o).
Definition full_write (v : list (list Z)) (o : Z) (i : nat) : heal_call := mk_call i (Z.of_nat i) (H_writev v o).

(** A loop reads its block, or has read it and waits for the sinks of [todo]. *)
Inductive full_frame (e : bool) (files : list file) : rw_frame -> Prop :=
  | FF_read o :
      0 <= o < hc_file_size c -> (e = false -> untouched c files0 bs files o) -> full_frame e files (mk_rw 0 [full_read o])
  | FF_write o v todo :
      0 <= o -> concat v = pread (src c files0) o bs -> todo <> [] -> NoDup todo -> (forall i, i ∈ todo -> i ∈ sinks c) ->
      (e = false -> forall i, i ∈ sinks c -> i ∉ todo -> clean_at c files0 bs files i o) ->
      full_frame e files (mk_rw (Z.of_nat (length todo)) (map (full_write v o) todo)).

Definition full_good (e : bool) (frames : list rw_frame) (files : list file) : Prop := Forall (full_frame e files) frames.

Lemma full_frame_weaken e e' files f : full_frame e files f -> (e' = false -> e = false) -> full_frame e' files f.
Proof. intros [] He; econstructor; eauto. Qed.

(** Loops at other blocks do not notice what happens in a block. *)
Lemma full_frame_elsewhere e files files' f j j' :
  0 < bs -> full_frame e files f -> frame_offset f = j * bs -> j <> j' ->
  (e = false -> elsewhere c bs files files' (j' * bs)) -> full_frame e files' f.
Proof.
  intros Hb Hf Ho Hj He. assert (forall n, in_block bs (j * bs) n -> ~ in_block bs (j' * bs) n) as Hdis.
  { intros n H1 H2. by apply Hj, (blocks_disjoint bs j j' n). }
  destruct Hf as [o Hr Hu|o v todo Ho0 Hv Hne Hnd Hin Hcl].
  - cbn in Ho. subst o. constructor; [done|]. intros E i Hi n Hn. rewrite (He E) by auto. by apply Hu.
  - destruct todo as [|i0 todo]; [done|]. cbn in Ho. subst o. constructor; try done. intros E i Hi Ht n Hn Hl. rewrite (He E) by auto. by apply Hcl.
Qed.

Lemma full_good_others e e' files files' frames jf :
  0 < bs -> full_good e frames files -> (e' = false -> e = false) ->
  (forall g, g ∈ frames -> exists j, 0 <= j /\ frame_offset g = j * bs) ->
  (forall g, g ∈ frames -> frame_offset g <> jf * bs) ->
  (e' = false -> elsewhere c bs files files' (jf * bs)) -> full_good e' frames files'.
Proof.
  intros Hb Hg He Hbl Hd Hel. unfold full_good in *. rewrite List.Forall_forall in *. intros g Hin.
  rewrite <-list_elem_of_In in Hin. destruct (Hbl g Hin) as (j & _ & Ej).
  apply (full_frame_elsewhere e' files files' g j jf); [done| |done| |done].
  - apply full_frame_weaken with e; [|done]. apply Hg. by rewrite <-list_elem_of_In.
  - intros ->. by apply (Hd g Hin).
Qed.

(** ** Answers *)

Definition good_of (e : bool) (_ : list sh_diff_loop_state) : list rw_frame -> list file -> Prop := full_good e.

Lemma full_return_kept e hon h p f1 f f2 files files' fr h1 jf :
  conf_ok c -> h_private h1 = Some p -> h_ended h1 = h_ended h -> (h_op_failed h = true -> h_op_failed h1 = true) ->
  full_good e (f1 ++ f :: f2) files -> (forall g, g ∈ f1 ++ f :: f2 -> exists j, 0 <= j /\ frame_offset g = j * bs) ->
  (forall g, g ∈ f1 ++ f2 -> frame_offset g <> frame_offset f) -> frame_offset f = jf * bs ->
  length files' = hc_child_count c -> file_of files' (hc_source c) = src c files0 ->
  let e' := e || negb hon || h_op_failed h1 in
  (e' = false -> elsewhere c bs files files' (frame_offset f)) -> (e' = false -> clean c files0 bs files' (frame_offset f)) ->
  answered c files0 bs good_of e hon h p f1 f f2 files files' (sh_full_loop_return fr h1).
Proof.
  intros Hc Hp He Hf Hg Hbl Hd Hjf Hl Hs e' Hel Hcl. unfold sh_full_loop_return. rewrite Hp. cbn [mbind option_bind].
  eexists _, fr, true, _. split; [done|]. cbn. split_and!; try done. apply (full_good_others e e' files files' _ jf); try done.
  - apply (co_block c Hc).
  - unfold full_good in *. rewrite Forall_app, Forall_cons_iff in Hg. rewrite Forall_app. tauto.
  - unfold e'. by intros [[? _]%orb_false_iff _]%orb_false_iff.
  - intros g Hin. apply Hbl. set_solver.
  - intros g Hin. rewrite <-Hjf. by apply Hd.
  - rewrite <-Hjf. done.
Qed.

Lemma full_goes_on e hon h p f1 f f2 files files' f' h1 jf :
  conf_ok c -> h_private h1 = Some p -> h_ended h1 = h_ended h -> (h_op_failed h = true -> h_op_failed h1 = true) ->
  full_good e (f1 ++ f :: f2) files -> (forall g, g ∈ f1 ++ f :: f2 -> exists j, 0 <= j /\ frame_offset g = j * bs) ->
  (forall g, g ∈ f1 ++ f2 -> frame_offset g <> frame_offset f) -> frame_offset f = jf * bs ->
  length files' = hc_child_count c -> file_of files' (hc_source c) = src c files0 ->
  let e' := e || negb hon || h_op_failed h1 in
  (e' = false -> elsewhere c bs files files' (frame_offset f)) ->
  full_frame e' files' f' -> frame_offset f' = frame_offset f -> (frame_weight c f' < frame_weight c f)%nat ->
  answered c files0 bs good_of e hon h p f1 f f2 files files' (Some (h1, f', false)).
Proof.
  intros Hc Hp He Hf Hg Hbl Hd Hjf Hl Hs e' Hel Hf' Ho Hw. exists h1, f', false, p. split; [done|]. cbn. split_and!; try done.
  assert (full_good e' (f1 ++ f2) files') as Hrest.
  { apply (full_good_others e e' files files' _ jf); try done.
    - apply (co_block c Hc).
    - unfold full_good in *. rewrite Forall_app, Forall_cons_iff in Hg. rewrite Forall_app. tauto.
    - unfold e'. by intros [[? _]%orb_false_iff _]%orb_false_iff.
    - intros g Hin. apply Hbl. set_solver.
    - intros g Hin. rewrite <-Hjf. by apply Hd.
    - rewrite <-Hjf. done. }
  unfold good_of, full_good in *. rewrite Forall_app in Hrest. rewrite Forall_app, Forall_cons_iff. tauto.
Qed.

Lemma full_read_answered e h p f1 f2 files o a r files' :
  conf_ok c -> (e = false -> heal_data c files0 bs) -> h_private h = Some p -> 
  full_good e (f1 ++ mk_rw 0 [full_read o] :: f2) files ->
  (forall g, g ∈ f1 ++ mk_rw 0 [full_read o] :: f2 -> exists j, 0 <= j /\ frame_offset g = j * bs) ->
  (forall g, g ∈ f1 ++ f2 -> frame_offset g <> o) ->
  length files = hc_child_count c -> file_of files (hc_source c) = src c files0 ->
  0 <= o < hc_file_size c -> (e = false -> untouched c files0 bs files o) ->
  child_answer (full_read o) a files = Some (r, files') ->
  answered c files0 bs good_of e (honest_write a) h p f1 (mk_rw 0 [full_read o]) f2 files files'
    (sh_full_read_cbk c o (r_op_ret r) (r_vector r) (mk_rw 0 []) h).
Proof.
  intros Hc Hdata Hp Hg Hbl Hd Hl Hs Ho Hu Ha.
  destruct (Hbl (mk_rw 0 [full_read o]) ltac:(set_solver)) as (jf & Hjf & Ejf).
  destruct (read_replies c files0 bs files (full_read o) a r files' o eq_refl Hs eq_refl Ha) as [-> Hr].
  assert (forall e', e' = false -> elsewhere c bs files files o) as Hsame by by intros ? _ ? ?.
  unfold sh_full_read_cbk. destruct Hr as [(vec & -> & Hv & Er)|(junk & -> & Er)]; rewrite Er.
  2:{ eapply full_return_kept; simpl; try done; eauto; by rewrite orb_true_r. }
  destruct (Z.leb_spec (Z.of_nat (length (pread (src c files0) o bs))) 0) as [Hz|Hz].
  { eapply full_return_kept; simpl; try done; eauto; by rewrite orb_true_r. }
  destruct (hc_has_holes c && (iov_0filled (r_vector r) =? 0)) eqn:Eh.
  - apply andb_true_iff in Eh as [Hh H0%Z.eqb_eq]. eapply full_return_kept; simpl; try done; eauto. intros Ee.
    apply orb_false_iff in Ee as [Ee _]. rewrite orb_false_r in Ee. cbn in Ejf. cbn. subst o.
    apply (hole_clean c files0 bs (proj1 (co_block c Hc)) files (r_vector r)); auto.
  - rewrite (co_active c Hc). unfold sinks. rewrite wind_loop_all. fold (sinks c).
    pose proof (sinks_nodup c) as Hnd. pose proof (co_sinks c Hc) as Hne. assert (length (sinks c) <= hc_child_count c)%nat as Hlen.
    { unfold sinks. etransitivity; [apply filter_length_le|]. by rewrite length_seq. }
    pose proof (co_count c Hc). rewrite u32_small by (unfold is_u32; lia). simpl.
    eapply full_goes_on; simpl; try done; eauto.
    + apply (FF_write _ _ o (r_vector r) (sinks c)); try done. lia.
    + destruct (sinks c); [done|]. done.
    + unfold frame_weight. simpl. rewrite length_map. destruct (sinks c); simpl; lia.
Qed.

Lemma full_write_answered e h p f1 f2 files o v t1 i t2 a r files' :
  let f := mk_rw (Z.of_nat (length (t1 ++ i :: t2))) (map (full_write v o) (t1 ++ i :: t2)) in
  conf_ok c -> h_private h = Some p ->
  full_good e (f1 ++ f :: f2) files ->
  (forall g, g ∈ f1 ++ f :: f2 -> exists j, 0 <= j /\ frame_offset g = j * bs) ->
  (forall g, g ∈ f1 ++ f2 -> frame_offset g <> frame_offset f) -> 
  length files = hc_child_count c -> file_of files (hc_source c) = src c files0 ->
  0 <= o -> concat v = pread (src c files0) o bs -> NoDup (t1 ++ i :: t2) -> (forall i', i' ∈ t1 ++ i :: t2 -> i' ∈ sinks c) ->
  (e = false -> forall i', i' ∈ sinks c -> i' ∉ t1 ++ i :: t2 -> clean_at c files0 bs files i' o) ->
  child_answer (full_write v o i) a files = Some (r, files') ->
  answered c files0 bs good_of e (honest_write a) h p f1 f f2 files files'
    (sh_full_write_cbk (r_op_ret r) (mk_rw (rw_count f) (map (full_write v o) (t1 ++ t2))) h).
Proof.
  intros f Hc Hp Hg Hbl Hd Hl Hs Ho Hv Hnd Hin Hcl Ha. destruct (Hbl f ltac:(set_solver)) as (jf & Hjf & Ejf).
  assert (frame_offset f = o) as Eo by (unfold f; by destruct t1).
  destruct (write_keeps c files0 Hc files (full_write v o i) a r files' v o Hl Hs (Hin i ltac:(set_solver)) eq_refl Ha) as (Hl' & Hs' & Hsame).
  assert (length (t1 ++ i :: t2) <= length (sinks c))%nat as Hlen.
  { apply submseteq_length, NoDup_submseteq; [done|]. intros i' Hi'. by apply Hin. }
  assert (length (sinks c) <= hc_child_count c)%nat by (unfold sinks; etransitivity; [apply filter_length_le|by rewrite length_seq]).
  pose proof (co_count c Hc). unfold sh_full_write_cbk. set (h1 := if r_op_ret r =? -1 then op_failed h else h).
  assert (h_private h1 = Some p /\ h_ended h1 = h_ended h /\ (h_op_failed h = true -> h_op_failed h1 = true)) as (Hp1 & He1 & Hf1).
  { unfold h1. by destruct (r_op_ret r =? -1). }
  pose proof (write_facts c files0 bs (proj1 (co_block c Hc)) e (honest_write a) h files v o i (full_write v o i) a r files' Hl (Hin i ltac:(set_solver)) Ho ltac:(done) eq_refl eq_refl Hv Ha) as Hfacts.
  fold h1 in Hfacts. unfold frame_return. cbn [rw_count rw_calls].
  assert (e || negb (honest_write a) || h_op_failed h1 = false -> forall i', i' ∈ sinks c -> i' ∉ t1 ++ t2 -> clean_at c files0 bs files' i' o) as Hcl'.
  { intros E i' Hi' Hnot. destruct (Hfacts E) as (E0 & _ & Hi). destruct (decide (i' = i)) as [->|Hne]; [done|].
    unfold clean_at. rewrite Hsame by done. apply Hcl; [done|done|]. set_solver. }
  assert (0 < length (t1 ++ i :: t2))%nat by (rewrite length_app; simpl; lia). change (rw_count f) with (Z.of_nat (length (t1 ++ i :: t2))).
  rewrite u32_small by (unfold is_u32; lia).
  destruct (Z.eqb_spec (Z.of_nat (length (t1 ++ i :: t2)) - 1) 0) as [E1|E1].
  - rewrite length_app in E1. simpl in E1. destruct t1; [|simpl in E1; lia]. destruct t2; [|simpl in E1; lia].
    eapply full_return_kept; try done; rewrite ?Eo; try congruence; try (by intros E; apply Hfacts); eauto.
    intros E i' Hi'. apply Hcl'; [done|done|]. simpl. apply not_elem_of_nil.
  - rewrite length_app in E1. simpl in E1. assert (t1 ++ t2 <> []) as Hne.
    { destruct t1; [destruct t2; [simpl in E1; lia|done]|done]. }
    replace (Z.of_nat (length (t1 ++ i :: t2)) - 1) with (Z.of_nat (length (t1 ++ t2))) by (rewrite !length_app; simpl; lia).
    eapply full_goes_on; try done; rewrite ?Eo; try congruence; try (by intros E; apply Hfacts); eauto.
    + apply FF_write; try done; [|set_solver]. rewrite <-Permutation_middle in Hnd. by apply NoDup_cons in Hnd as [_ ?].
    + unfold frame_offset. cbn. destruct (t1 ++ t2); done.
    + unfold frame_weight, f. cbn [rw_calls]. rewrite !length_map, !length_app. simpl.
      destruct t1, t2; simpl; try done; lia.
Qed.

End Full.

(** ** The instance *)

Lemma full_answered c files0 e h p f1 f f2 files k call a r files' :
  conf_ok c -> (e = false -> heal_data c files0 (hc_block_size c)) -> h_private h = Some p ->
  full_good c files0 e (f1 ++ f :: f2) files ->
  (forall g, g ∈ f1 ++ f :: f2 -> exists j, 0 <= j /\ frame_offset g = j * hc_block_size c) ->
  (forall g, g ∈ f1 ++ f2 -> frame_offset g <> frame_offset f) ->
  length files = hc_child_count c -> file_of files (hc_source c) = src c files0 ->
  rw_calls f !! k = Some call -> child_answer call a files = Some (r, files') ->
  answered c files0 (hc_block_size c) (good_of c files0) e (honest_write a) h p f1 f f2 files files'
    (algo_cbk sh_full c call r (mk_rw (rw_count f) (delete k (rw_calls f))) h).
Proof.
  intros Hc Hd Hp Hg Hbl Hdis Hl Hs Hk Ha. assert (full_frame c files0 e files f) as Hf.
  { unfold full_good in Hg. rewrite Forall_app, Forall_cons_iff in Hg. tauto. }
  destruct Hf as [o Ho Hu|o v todo Ho Hv Hne Hnd Hin Hcl]; cbn [rw_calls rw_count] in *.
  - destruct k as [|[|k]]; [|done|done]. injection Hk as <-. by apply full_read_answered.
  - rewrite list_lookup_fmap in Hk. destruct (todo !! k) as [i|] eqn:Ei; [|done]. injection Hk as <-.
    pose proof (take_drop_middle todo k i Ei) as Et. assert (k = length (take k todo)) as Ek.
    { rewrite length_take. apply lookup_lt_Some in Ei. lia. }
    set (t1 := take k todo) in *. set (t2 := drop (S k) todo) in *. clearbody t1 t2. subst todo.
    assert (delete k (map (full_write v o) (t1 ++ i :: t2)) = map (full_write v o) (t1 ++ t2)) as ->.
    { rewrite !map_app, Ek. simpl. rewrite <-(length_map (full_write v o) t1). apply delete_middle. }
    by apply full_write_answered.
Qed.

#[export] Program Instance full_algo : HealAlgo sh_full := {|
  ha_block := hc_block_size;
  ha_private_block _ := 0;
  ha_private_size c _ := hc_block_size c;
  ha_width c := (1 + length (sinks c))%nat;
  ha_honest _ := honest_write;
  ha_data c files0 := heal_data c files0 (hc_block_size c);
  ha_start := sh_full_read_write;
  ha_loops0 _ := [];
  ha_good c files0 := good_of c files0 |}.
Next Obligation. intros c Hc. apply (co_block c Hc). Qed.
Next Obligation. done. Qed.
Next Obligation. done. Qed.
Next Obligation. done. Qed.
Next Obligation. done. Qed.
Next Obligation. intros. constructor. Qed.
Next Obligation.
  intros c files0 e e' loops frames files Hg He. eapply Forall_impl; [exact Hg|]. intros f Hf. by eapply full_frame_weaken.
Qed.
Next Obligation.
  intros c files0 e loops frames files f Hg Hin. unfold good_of, full_good in Hg. rewrite List.Forall_forall in Hg.
  destruct (Hg f ltac:(by apply list_elem_of_In)) as [|o v [|i todo]]; done.
Qed.
Next Obligation.
  intros c files0 e h p frames files o j Hc Hp _ Hg _ _ Ho Hu. exists (ap_loops p), (mk_rw 0 [full_read c o]). split_and!.
  - unfold sh_full_read_write. do 2 f_equal. destruct h as [pr failed en]. simpl in Hp. subst pr. by destruct p.
  - done.
  - unfold frame_weight. simpl. lia.
  - unfold good_of, full_good in *. rewrite Forall_app. split; [done|]. constructor; [|constructor]. by constructor.
Qed.
Next Obligation. intros. by apply full_answered. Qed.
