(* ===== verification/AfrHealDiff.v ===== *)
(** * cluster/afr: the diff algorithm keeps its promises *)

From stdpp Require Import base list numbers sets.
From S2P Require Import Prelude ByteOrder PosixFile Md5 AfrHealAlgo AfrHealInv AfrHealFull.
Open Scope Z_scope.

(** ** Cookies *)

Lemma make_cookie_split l i : 0 <= l < 2 ^ 16 -> 0 <= i < 2 ^ 16 -> __make_cookie l i = l * 2 ^ 16 + i.
Proof.
  intros Hl Hi. unfold __make_cookie. rewrite (u32_small (Z.shiftl l 16)).
  - rewrite lor_shiftl_add by lia. apply u32_small. unfold is_u32. lia.
  - rewrite Z.shiftl_mul_pow2 by lia. unfold is_u32. lia.
Qed.

Lemma child_index_cookie l i : Z.of_nat l < 2 ^ 16 -> Z.of_nat i < 2 ^ 16 -> __child_index (__make_cookie (Z.of_nat l) (Z.of_nat i)) = i.
Proof.
  intros Hl Hi. rewrite make_cookie_split by lia. unfold __child_index. change 65535 with (Z.ones 16). rewrite Z.land_ones by lia.
  rewrite Z.add_comm, Z.mod_add, Z.mod_small by lia. lia.
Qed.

Lemma loop_index_cookie l i : Z.of_nat l < 2 ^ 16 -> Z.of_nat i < 2 ^ 16 -> __loop_index (__make_cookie (Z.of_nat l) (Z.of_nat i)) = l.
Proof.
  intros Hl Hi. rewrite make_cookie_split by lia. unfold __loop_index. change 4294901760 with (Z.shiftl (Z.ones 16) 16).
  rewrite Z.shiftr_land, Z.shiftr_shiftl_l by lia. simpl (16 - 16). rewrite Z.shiftl_0_r, Z.land_ones, Z.shiftr_div_pow2 by lia.
  rewrite Z.div_add_l, (Z.div_small (Z.of_nat i)), Z.add_0_r, Z.mod_small by lia. lia.
Qed.

(** ** Checksums *)

Lemma checksum_buf_bytes f o len : 0 <= o -> checksum_buf f o len = map (fun k => byte f (Z.to_nat o + k)) (seq 0 (Z.to_nat len)).
Proof.
  intros Ho. unfold checksum_buf. pose proof (pread_length f o len) as Hl. apply file_eq.
  - rewrite length_app, length_replicate, length_map, length_seq. lia.
  - intros k Hk. rewrite length_app, length_replicate in Hk. transitivity (byte f (Z.to_nat o + k)).
    + destruct (decide (k < length (pread f o len))%nat) as [Hlt|Hge].
      * rewrite byte_app_l by done. apply pread_byte. lia.
      * rewrite byte_app_r by lia. unfold byte. rewrite lookup_replicate_2 by lia. rewrite (lookup_ge_None_2 f) by lia. done.
    + unfold byte at 2. rewrite list_lookup_fmap, lookup_seq_lt by lia. done.
Qed.

(** Blocks with the same bytes have the same checksum. *)
Lemma rchecksum_same f g o len :
  0 <= o -> (forall n, in_block len o n -> byte f n = byte g n) -> posix_rchecksum f o len = posix_rchecksum g o len.
Proof.
  intros Ho H. unfold posix_rchecksum. rewrite !checksum_buf_bytes by done. f_equal. apply map_ext_in. intros k Hk%in_seq.
  apply H. unfold in_block. lia.
Qed.

Lemma writes_needed_count wn : length (List.filter id wn) = length (List.filter (fun i => nth i wn false) (seq 0 (length wn))).
Proof.
  induction wn as [|w wn IH]; [done|]. cbn [length seq List.filter]. rewrite <-seq_shift.
  change (nth 0 (w :: wn) false) with w.
  assert (length (List.filter (fun i => nth i (w :: wn) false) (map S (seq 0 (length wn)))) = length (List.filter id wn)) as E.
  { rewrite IH. generalize (seq 0 (length wn)). intros l. induction l as [|i l IHl]; [done|].
    cbn [map List.filter]. change (nth (S i) (w :: wn) false) with (nth i wn false). by destruct (nth i wn false); cbn [length]; rewrite IHl. }
  unfold id at 1. by destruct w; cbn [length]; rewrite E.
Qed.

Section Diff.
Context (c : heal_conf) (files0 : list file).

Abbreviation bs := (hc_page_size c).
Abbreviation count := (hc_child_count c).

Definition cookie (l i : nat) : Z := __make_cookie (Z.of_nat l) (Z.of_nat i).
Definition sum_call (l : nat) (o : Z) (i : nat) : heal_call := mk_call i (cookie l i) (H_rchecksum o bs).
Definition diff_read (l : nat) (o : Z) : heal_call := mk_call (hc_source c) (cookie l (hc_source c)) (H_readv bs o).
Definition diff_write (l : nat) (v : list (list Z)) (o : Z) (i : nat) : heal_call := mk_call i (cookie l i) (H_writev v o).

Definition sum0 (i : nat) (o : Z) : list Z := posix_rchecksum (file_of files0 i) o bs.

(** As for the full algorithm; and no two different blocks that the heal compares
    have the same MD5. *)
Record diff_data : Prop := {
  dd_heal : heal_data c files0 bs;
  dd_sums : forall j i, 0 <= j -> i ∈ sinks c -> sum0 i (j * bs) = sum0 (hc_source c) (j * bs) ->
    forall n, in_block bs (j * bs) n -> byte (file_of files0 i) n = byte (src c files0) n }.

(** A loop, with its state [ls] in slot [l]: it waits for the checksums of [todo];
    it reads the block; or it waits for the sinks of [todo]. *)
Inductive diff_frame (e : bool) (files : list file) (ls : sh_diff_loop_state) (l : nat) : rw_frame -> Prop :=
  | DF_sum todo :
      0 <= dl_offset ls < hc_file_size c -> todo <> [] -> NoDup todo -> (forall i, i ∈ todo -> i ∈ hc_source c :: sinks c) ->
      dl_write_needed ls = replicate count false -> length (dl_checksum ls) = count ->
      (e = false -> untouched c files0 bs files (dl_offset ls)) ->
      (e = false -> forall i, i ∈ hc_source c :: sinks c -> i ∉ todo -> nth i (dl_checksum ls) [] = sum0 i (dl_offset ls)) ->
      diff_frame e files ls l (mk_rw (Z.of_nat (length todo)) (map (sum_call l (dl_offset ls)) todo))
  | DF_read :
      0 <= dl_offset ls < hc_file_size c -> length (dl_write_needed ls) = count -> length (dl_checksum ls) = count ->
      (forall i, nth i (dl_write_needed ls) false = true -> i ∈ sinks c) ->
      (e = false -> untouched c files0 bs files (dl_offset ls)) ->
      (e = false -> forall i, i ∈ sinks c -> nth i (dl_write_needed ls) false = false -> clean_at c files0 bs files i (dl_offset ls)) ->
      diff_frame e files ls l (mk_rw 0 [diff_read l (dl_offset ls)])
  | DF_write v todo :
      0 <= dl_offset ls -> concat v = pread (src c files0) (dl_offset ls) bs -> todo <> [] -> NoDup todo ->
      (forall i, i ∈ todo -> i ∈ sinks c) -> length (dl_checksum ls) = count ->
      (e = false -> forall i, i ∈ sinks c -> i ∉ todo -> clean_at c files0 bs files i (dl_offset ls)) ->
      diff_frame e files ls l (mk_rw (Z.of_nat (length todo)) (map (diff_write l v (dl_offset ls)) todo)).

(** A slot that no loop has. *)
Record idle (ls : sh_diff_loop_state) : Prop := {
  id_active : dl_active ls = false;
  id_writes : dl_write_needed ls = replicate count false;
  id_sums : length (dl_checksum ls) = count }.

Definition slot_frame (e : bool) (loops : list sh_diff_loop_state) (files : list file) (l : nat) (f : rw_frame) : Prop :=
  exists ls, loops !! l = Some ls /\ dl_active ls = true /\ diff_frame e files ls l f.

Record slots_good (e : bool) (loops : list sh_diff_loop_state) (slots : list nat) (frames : list rw_frame) (files : list file) : Prop := {
  sg_length : Z.of_nat (length loops) = hc_window c;
  sg_nodup : NoDup slots;
  sg_frames : Forall2 (slot_frame e loops files) slots frames;
  sg_idle : forall l ls, loops !! l = Some ls -> l ∉ slots -> idle ls }.

Definition diff_good (e : bool) (loops : list sh_diff_loop_state) (frames : list rw_frame) (files : list file) : Prop :=
  exists slots, slots_good e loops slots frames files.

Lemma diff_frame_offset e files ls l f : diff_frame e files ls l f -> frame_offset f = dl_offset ls.
Proof. intros [[|i todo]| |v [|i todo]]; done. Qed.

Lemma diff_frame_weaken e e' files ls l f : diff_frame e files ls l f -> (e' = false -> e = false) -> diff_frame e' files ls l f.
Proof. intros [] He; econstructor; eauto. Qed.

Lemma diff_frame_elsewhere e files files' ls l f j j' :
  0 < bs -> diff_frame e files ls l f -> frame_offset f = j * bs -> j <> j' ->
  (e = false -> elsewhere c bs files files' (j' * bs)) -> diff_frame e files' ls l f.
Proof.
  intros Hb Hf Ho Hj He. rewrite (diff_frame_offset _ _ _ _ _ Hf) in Ho.
  assert (forall n, in_block bs (dl_offset ls) n -> ~ in_block bs (j' * bs) n) as Hdis.
  { rewrite Ho. intros n H1 H2. by apply Hj, (blocks_disjoint bs j j' n). }
  assert (e = false -> untouched c files0 bs files (dl_offset ls) -> untouched c files0 bs files' (dl_offset ls)) as Hun.
  { intros E Hu i Hi n Hn. rewrite (He E) by auto. by apply Hu. }
  assert (forall i, e = false -> i ∈ sinks c -> clean_at c files0 bs files i (dl_offset ls) -> clean_at c files0 bs files' i (dl_offset ls)) as Hcl.
  { intros i E Hi Hcl n Hn Hl. rewrite (He E) by auto. by apply Hcl. }
  destruct Hf; constructor; eauto.
Qed.

(** ** The loops at other blocks *)

Lemma diff_split e loops f1 f f2 files :
  diff_good e loops (f1 ++ f :: f2) files ->
  exists s1 l s2 ls, slots_good e loops (s1 ++ l :: s2) (f1 ++ f :: f2) files /\ length s1 = length f1 /\
    loops !! l = Some ls /\ dl_active ls = true /\ diff_frame e files ls l f /\ l ∉ s1 ++ s2 /\ NoDup (s1 ++ s2).
Proof.
  intros [slots Hg]. pose proof (sg_frames _ _ _ _ _ Hg) as (s1 & s2' & H1 & H2 & ->)%Forall2_app_inv_r.
  apply Forall2_cons_inv_r in H2 as (l & s2 & (ls & El & Ha & Hf) & Hrest & ->).
  exists s1, l, s2, ls. pose proof (sg_nodup _ _ _ _ _ Hg) as Hnd. rewrite <-Permutation_middle in Hnd. apply NoDup_cons in Hnd as [Hni Hnd].
  split_and!; try done. by eapply Forall2_length.
Qed.

Lemma diff_others e e' loops l ls' files files' slots frames jf :
  0 < bs -> Forall2 (slot_frame e loops files) slots frames -> l ∉ slots -> (e' = false -> e = false) ->
  (forall g, g ∈ frames -> exists j, 0 <= j /\ frame_offset g = j * bs) -> (forall g, g ∈ frames -> frame_offset g <> jf * bs) ->
  (e' = false -> elsewhere c bs files files' (jf * bs)) -> Forall2 (slot_frame e' (<[l := ls']> loops) files') slots frames.
Proof.
  intros Hb Hg Hl He Hbl Hd Hel. induction Hg as [|l0 g slots frames (ls & El & Ha & Hf) _ IH]; [constructor|].
  constructor; [|apply IH; [set_solver|intros; apply Hbl; set_solver|intros; apply Hd; set_solver]].
  exists ls. rewrite list_lookup_insert_ne by set_solver. split_and!; [done|done|]. destruct (Hbl g ltac:(set_solver)) as (j & _ & Ej).
  apply (diff_frame_elsewhere e' files files' ls l0 g j jf); [done|by eapply diff_frame_weaken|done| |done].
  intros ->. by apply (Hd g ltac:(set_solver)).
Qed.

(** The good slots without or with another frame in slot [l]. *)
Lemma diff_rest e e' loops l ls' files files' s1 s2 f1 f f2 jf :
  0 < bs -> slots_good e loops (s1 ++ l :: s2) (f1 ++ f :: f2) files -> length s1 = length f1 -> l ∉ s1 ++ s2 -> (e' = false -> e = false) ->
  (forall g, g ∈ f1 ++ f :: f2 -> exists j, 0 <= j /\ frame_offset g = j * bs) -> (forall g, g ∈ f1 ++ f2 -> frame_offset g <> frame_offset f) ->
  frame_offset f = jf * bs -> (e' = false -> elsewhere c bs files files' (frame_offset f)) ->
  Forall2 (slot_frame e' (<[l := ls']> loops) files') s1 f1 /\ Forall2 (slot_frame e' (<[l := ls']> loops) files') s2 f2.
Proof.
  intros Hb Hg Hlen Hl He Hbl Hd Ejf Hel. pose proof (sg_frames _ _ _ _ _ Hg) as Hf. rewrite Ejf in Hd, Hel.
  apply Forall2_app_inv in Hf as [H1 H2]; [|done]. apply Forall2_cons_iff in H2 as [_ H2].
  split; eapply diff_others; eauto; try set_solver; intros g Hin; try apply Hbl; try apply Hd; set_solver.
Qed.

Lemma diff_return_kept e hon h p f1 f f2 files files' fr h1 p1 s1 l s2 ls1 jf :
  conf_ok c -> h_private h1 = Some p1 -> h_ended h1 = h_ended h -> (h_op_failed h = true -> h_op_failed h1 = true) ->
  ap_offset p1 = ap_offset p -> ap_block_size p1 = ap_block_size p -> loops_running p1 = loops_running p ->
  ap_loops p1 = <[l := ls1]> (ap_loops p) -> (l < length (ap_loops p))%nat -> length (dl_checksum ls1) = count ->
  slots_good e (ap_loops p) (s1 ++ l :: s2) (f1 ++ f :: f2) files -> length s1 = length f1 -> l ∉ s1 ++ s2 -> NoDup (s1 ++ s2) ->
  (forall g, g ∈ f1 ++ f :: f2 -> exists j, 0 <= j /\ frame_offset g = j * bs) ->
  (forall g, g ∈ f1 ++ f2 -> frame_offset g <> frame_offset f) -> frame_offset f = jf * bs ->
  length files' = count -> file_of files' (hc_source c) = src c files0 ->
  let e' := e || negb hon || h_op_failed h1 in
  (e' = false -> elsewhere c bs files files' (frame_offset f)) -> (e' = false -> clean c files0 bs files' (frame_offset f)) ->
  answered c files0 bs diff_good e hon h p f1 f f2 files files' (sh_diff_loop_return c l fr h1).
Proof.
  intros Hc Hp He Hf Ho Hb Hr Hloops Hlt Hsum Hg Hlen Hl Hnd Hbl Hd Ejf Hfl Hs e' Hel Hcl. unfold sh_diff_loop_return. rewrite Hp.
  cbn [mbind option_bind]. rewrite Hloops, list_lookup_insert_eq by done. cbn [mbind option_bind]. rewrite list_insert_insert_eq.
  set (p2 := set_loops _ _). exists (set_private p2 h1), fr, true, p2. split; [done|]. cbv zeta.
  split_and!; try done; [unfold p2; simpl; by rewrite Hr|]. exists (s1 ++ s2). unfold p2. cbn [ap_loops set_loops].
  destruct (diff_rest e e' (ap_loops p) l (sh_diff_loop_state_reset ls1 count) files files' s1 s2 f1 f f2 jf) as [H1 H2]; try done.
  { apply (co_page c Hc). }
  { unfold e'. by intros [[? _]%orb_false_iff _]%orb_false_iff. }
  split; [rewrite length_insert; by apply (sg_length _ _ _ _ _ Hg)|done|by apply Forall2_app|].
  intros l0 ls0 E0 Hni. destruct (decide (l0 = l)) as [->|Hne].
  - rewrite list_lookup_insert_eq in E0 by done. injection E0 as <-. split; simpl; [done|done|by rewrite length_replicate].
  - rewrite list_lookup_insert_ne in E0 by done. apply (sg_idle _ _ _ _ _ Hg l0); [done|set_solver].
Qed.

Lemma diff_goes_on e hon h p f1 f f2 files files' f' h1 p1 s1 l s2 ls1 jf :
  conf_ok c -> h_private h1 = Some p1 -> h_ended h1 = h_ended h -> (h_op_failed h = true -> h_op_failed h1 = true) ->
  ap_offset p1 = ap_offset p -> ap_block_size p1 = ap_block_size p -> loops_running p1 = loops_running p ->
  ap_loops p1 = <[l := ls1]> (ap_loops p) -> (l < length (ap_loops p))%nat -> dl_active ls1 = true ->
  slots_good e (ap_loops p) (s1 ++ l :: s2) (f1 ++ f :: f2) files -> length s1 = length f1 -> l ∉ s1 ++ s2 -> NoDup (s1 ++ s2) ->
  (forall g, g ∈ f1 ++ f :: f2 -> exists j, 0 <= j /\ frame_offset g = j * bs) ->
  (forall g, g ∈ f1 ++ f2 -> frame_offset g <> frame_offset f) -> frame_offset f = jf * bs ->
  length files' = count -> file_of files' (hc_source c) = src c files0 ->
  let e' := e || negb hon || h_op_failed h1 in
  (e' = false -> elsewhere c bs files files' (frame_offset f)) ->
  diff_frame e' files' ls1 l f' -> frame_offset f' = frame_offset f -> (frame_weight c f' < frame_weight c f)%nat ->
  answered c files0 bs diff_good e hon h p f1 f f2 files files' (Some (h1, f', false)).
Proof.
  intros Hc Hp He Hf Ho Hb Hr Hloops Hlt Hact Hg Hlen Hl Hnd Hbl Hd Ejf Hfl Hs e' Hel Hf' Hoff Hw.
  exists h1, f', false, p1. split; [done|]. cbv zeta. split_and!; try done. exists (s1 ++ l :: s2). rewrite Hloops.
  destruct (diff_rest e e' (ap_loops p) l ls1 files files' s1 s2 f1 f f2 jf) as [H1 H2]; try done.
  { apply (co_page c Hc). }
  { unfold e'. by intros [[? _]%orb_false_iff _]%orb_false_iff. }
  split; [rewrite length_insert; by apply (sg_length _ _ _ _ _ Hg)|by apply (sg_nodup _ _ _ _ _ Hg)| |].
  - apply Forall2_app; [done|]. constructor; [|done]. exists ls1. by rewrite list_lookup_insert_eq.
  - intros l0 ls0 E0 Hni. rewrite list_lookup_insert_ne in E0 by set_solver. by apply (sg_idle _ _ _ _ _ Hg l0).
Qed.

(** ** Answers *)

(** The frame [f] of slot [l], among the others. *)
Record at_loop (e : bool) (h : heal) (p : algo_private) (f1 : list rw_frame) (f : rw_frame) (f2 : list rw_frame) (files : list file)
    (s1 : list nat) (l : nat) (s2 : list nat) (ls : sh_diff_loop_state) (jf : Z) : Prop := {
  al_conf : conf_ok c;
  al_private : h_private h = Some p;
  al_good : slots_good e (ap_loops p) (s1 ++ l :: s2) (f1 ++ f :: f2) files;
  al_length : length s1 = length f1;
  al_slot : ap_loops p !! l = Some ls;
  al_active : dl_active ls = true;
  al_out : l ∉ s1 ++ s2;
  al_nodup : NoDup (s1 ++ s2);
  al_blocks : forall g, g ∈ f1 ++ f :: f2 -> exists j, 0 <= j /\ frame_offset g = j * bs;
  al_apart : forall g, g ∈ f1 ++ f2 -> frame_offset g <> frame_offset f;
  al_offset : frame_offset f = jf * bs;
  al_pos : 0 <= jf;
  al_files : length files = count;
  al_source : file_of files (hc_source c) = src c files0;
  al_failed : h_op_failed h = true -> e = true }.

(** What the private data can have changed in. *)
Definition same_private (p p1 : algo_private) : Prop :=
  ap_offset p1 = ap_offset p /\ ap_block_size p1 = ap_block_size p /\ loops_running p1 = loops_running p.

Definition same_heal (h h1 : heal) : Prop := h_ended h1 = h_ended h /\ (h_op_failed h = true -> h_op_failed h1 = true).

Lemma at_slot_lt e h p f1 f f2 files s1 l s2 ls jf : at_loop e h p f1 f f2 files s1 l s2 ls jf -> (l < length (ap_loops p))%nat /\ Z.of_nat l < 2 ^ 16.
Proof.
  intros H. pose proof (lookup_lt_Some _ _ _ (al_slot _ _ _ _ _ _ _ _ _ _ _ _ H)). pose proof (sg_length _ _ _ _ _ (al_good _ _ _ _ _ _ _ _ _ _ _ _ H)).
  pose proof (co_window c (al_conf _ _ _ _ _ _ _ _ _ _ _ _ H)). lia.
Qed.

Lemma at_returns e hon h p f1 f f2 files s1 l s2 ls jf files' fr h1 p1 ls1 :
  at_loop e h p f1 f f2 files s1 l s2 ls jf -> h_private h1 = Some p1 -> same_heal h h1 -> same_private p p1 ->
  ap_loops p1 = <[l := ls1]> (ap_loops p) -> length (dl_checksum ls1) = count ->
  length files' = count -> file_of files' (hc_source c) = src c files0 ->
  let e' := e || negb hon || h_op_failed h1 in
  (e' = false -> elsewhere c bs files files' (jf * bs)) -> (e' = false -> clean c files0 bs files' (jf * bs)) ->
  answered c files0 bs diff_good e hon h p f1 f f2 files files' (sh_diff_loop_return c l fr h1).
Proof.
  intros H Hp [He Hf] (Ho & Hb & Hr) Hl Hs Hfl Hsrc e' Hel Hcl. destruct (at_slot_lt _ _ _ _ _ _ _ _ _ _ _ _ H) as [Hlt _]. destruct H.
  rewrite <-al_offset0 in Hel, Hcl. by eapply diff_return_kept.
Qed.

Lemma at_goes_on e hon h p f1 f f2 files s1 l s2 ls jf files' f' h1 p1 ls1 :
  at_loop e h p f1 f f2 files s1 l s2 ls jf -> h_private h1 = Some p1 -> same_heal h h1 -> same_private p p1 ->
  ap_loops p1 = <[l := ls1]> (ap_loops p) -> dl_active ls1 = true ->
  length files' = count -> file_of files' (hc_source c) = src c files0 ->
  let e' := e || negb hon || h_op_failed h1 in
  (e' = false -> elsewhere c bs files files' (jf * bs)) ->
  diff_frame e' files' ls1 l f' -> dl_offset ls1 = jf * bs -> (frame_weight c f' < frame_weight c f)%nat ->
  answered c files0 bs diff_good e hon h p f1 f f2 files files' (Some (h1, f', false)).
Proof.
  intros H Hp [He Hf] (Ho & Hb & Hr) Hl Ha Hfl Hsrc e' Hel Hf' Hof Hw. destruct (at_slot_lt _ _ _ _ _ _ _ _ _ _ _ _ H) as [Hlt _]. destruct H.
  rewrite <-al_offset0 in Hel. eapply diff_goes_on; try done. rewrite (diff_frame_offset _ _ _ _ _ Hf'). congruence.
Qed.

Definition honest_diff (call : heal_call) (a : answer) : bool :=
  match a with
  | A_short _ => false
  | A_fail _ => match hcall_op call with H_readv _ _ => false | _ => true end
  | A_ok _ => true
  end.

(** The sinks that a block is to be written to. *)
Definition marked (wn : list bool) : list nat := List.filter (fun i => nth i wn false) (seq 0 count).

Lemma marked_count wn : length wn = count -> sh_diff_number_of_writes_needed wn = Z.of_nat (length (marked wn)).
Proof. intros Hl. unfold sh_diff_number_of_writes_needed, marked. by rewrite writes_needed_count, Hl. Qed.

Lemma elem_of_marked wn i : length wn = count -> i ∈ marked wn <-> nth i wn false = true.
Proof.
  intros Hl. unfold marked. rewrite list_elem_of_In, filter_In, in_seq. split; [by intros [_ ?]|]. intros E. split; [|done].
  destruct (decide (i < count)%nat); [lia|]. by rewrite nth_overflow in E by lia.
Qed.

Lemma marked_nodup wn : NoDup (marked wn).
Proof. unfold marked. apply NoDup_ListNoDup, List.NoDup_filter, NoDup_ListNoDup, NoDup_seq. Qed.

Lemma sinks_small : conf_ok c -> Z.of_nat (length (sinks c)) <= 2 ^ 16.
Proof.
  intros Hc. pose proof (co_count c Hc). enough (length (sinks c) <= count)%nat by lia.
  unfold sinks. etransitivity; [apply filter_length_le|]. by rewrite length_seq.
Qed.

Lemma within_sinks todo : NoDup todo -> (forall i, i ∈ todo -> i ∈ sinks c) -> (length todo <= length (sinks c))%nat.
Proof. intros Hnd Hin. apply submseteq_length, NoDup_submseteq; [done|]. intros i Hi. by apply Hin. Qed.

(** The block was read: it is wound to the marked sinks. *)
Lemma diff_read_writes e hon h p f1 f2 files s1 l s2 ls jf v :
  let f := mk_rw 0 [diff_read l (dl_offset ls)] in
  at_loop e h p f1 f f2 files s1 l s2 ls jf -> diff_frame e files ls l f -> concat v = pread (src c files0) (dl_offset ls) bs ->
  sh_diff_number_of_writes_needed (dl_write_needed ls) <> 0 ->
  answered c files0 bs diff_good e hon h p f1 f f2 files files
    (Some (h, mk_rw (u32 (sh_diff_number_of_writes_needed (dl_write_needed ls)))
       (wind_loop (fun i => nth i (dl_write_needed ls) false) (diff_write l v (dl_offset ls)) count 0
          (sh_diff_number_of_writes_needed (dl_write_needed ls))), false)).
Proof.
  intros f H Hf Hv Hn. pose proof (al_conf _ _ _ _ _ _ _ _ _ _ _ _ H) as Hc. pose proof (sinks_small Hc) as Hsm.
  pose proof (diff_frame_offset _ _ _ _ _ Hf) as Eof. rewrite (al_offset _ _ _ _ _ _ _ _ _ _ _ _ H) in Eof.
  inversion Hf as [todo _ Hne _ _ _ _ _ _ Eq| Ho Hwl Hsl Hws Hu Hcl|w todo _ _ Hne _ _ _ _ Eq]; [by destruct todo as [|? [|]]| |by destruct todo as [|? [|]]].
  rewrite marked_count in Hn |- * by done. unfold marked at 2. rewrite wind_loop_all. fold (marked (dl_write_needed ls)).
  assert (length (marked (dl_write_needed ls)) <= length (sinks c))%nat as Hlen.
  { apply within_sinks; [apply marked_nodup|]. intros i Hi. by apply Hws, elem_of_marked. }
  rewrite u32_small by (unfold is_u32; lia).
  apply (at_goes_on e hon h p f1 f f2 files s1 l s2 ls jf files _ h p ls); try done; try (by destruct H); try (by split).
  - symmetry. apply list_insert_id. by destruct H.
  - apply DF_write; try done; [lia| |apply marked_nodup| |].
    + intros E. rewrite E in Hn. done.
    + intros i Hi. by apply Hws, elem_of_marked.
    + intros [[-> _]%orb_false_iff _]%orb_false_iff i Hi Hni. apply Hcl; [done|done|]. apply not_true_iff_false. by rewrite <-elem_of_marked.
  - unfold frame_weight. cbn [rw_calls f map length]. rewrite length_map. destruct (marked (dl_write_needed ls)); simpl in *; lia.
Qed.

Lemma no_writes_clean files ls :
  sh_diff_number_of_writes_needed (dl_write_needed ls) = 0 -> length (dl_write_needed ls) = count ->
  (forall i, i ∈ sinks c -> nth i (dl_write_needed ls) false = false -> clean_at c files0 bs files i (dl_offset ls)) ->
  clean c files0 bs files (dl_offset ls).
Proof.
  intros Hn Hl Hcl i Hi. apply Hcl; [done|]. rewrite marked_count in Hn by done. apply not_true_iff_false. rewrite <-elem_of_marked by done.
  destruct (marked (dl_write_needed ls)); [apply not_elem_of_nil|simpl in Hn; lia].
Qed.

Lemma diff_read_answered e h p f1 f2 files s1 l s2 ls jf a r files' :
  let f := mk_rw 0 [diff_read l (dl_offset ls)] in
  at_loop e h p f1 f f2 files s1 l s2 ls jf -> (e = false -> diff_data) -> diff_frame e files ls l f ->
  child_answer (diff_read l (dl_offset ls)) a files = Some (r, files') ->
  answered c files0 bs diff_good e (honest_diff (diff_read l (dl_offset ls)) a) h p f1 f f2 files files'
    (sh_diff_read_cbk c (cookie l (hc_source c)) (r_op_ret r) (r_vector r) (mk_rw 0 []) h).
Proof.
  intros f H Hdata Hf Ha. destruct (at_slot_lt _ _ _ _ _ _ _ _ _ _ _ _ H) as [_ Hl16]. pose proof (al_conf _ _ _ _ _ _ _ _ _ _ _ _ H) as Hc.
  pose proof (diff_frame_offset _ _ _ _ _ Hf) as Eof. rewrite (al_offset _ _ _ _ _ _ _ _ _ _ _ _ H) in Eof.
  destruct (read_replies c files0 bs files (diff_read l (dl_offset ls)) a r files' (dl_offset ls) eq_refl (al_source _ _ _ _ _ _ _ _ _ _ _ _ H) eq_refl Ha) as [-> Hr].
  assert (Z.of_nat (hc_source c) < 2 ^ 16) by (pose proof (co_source c Hc); pose proof (co_count c Hc); lia).
  unfold sh_diff_read_cbk, cookie. rewrite loop_index_cookie by done. rewrite (al_private _ _ _ _ _ _ _ _ _ _ _ _ H). cbn [mbind option_bind].
  rewrite (al_slot _ _ _ _ _ _ _ _ _ _ _ _ H). cbn [mbind option_bind]. pose proof (al_slot _ _ _ _ _ _ _ _ _ _ _ _ H) as Hslot.
  assert (ap_loops p = <[l := ls]> (ap_loops p)) as Eloops by (symmetry; by apply list_insert_id).
  assert (forall e', e' = false -> elsewhere c bs files files (jf * bs)) as Hsame by by intros ? _ ? ?.
  pose proof Hf as Hf0.
  inversion Hf as [todo _ Hne _ _ _ _ _ _ Eq| Ho Hwl Hsl Hws Hu Hcl|v todo _ _ Hne _ _ _ _ Eq]; [by destruct todo as [|? [|]]| |by destruct todo as [|? [|]]].
  destruct ((r_op_ret r <=? 0) || (sh_diff_number_of_writes_needed (dl_write_needed ls) =? 0)) eqn:Eret.
  - eapply (at_returns e _ h p f1 f f2 files s1 l s2 ls jf files _ h p ls); try done; try (by destruct H); try (by split).
    intros [[-> Ehon%negb_false_iff]%orb_false_iff _]%orb_false_iff. rewrite Eof. specialize (Hdata eq_refl).
    destruct Hr as [(vec & -> & Hv & Er)|(junk & -> & Er)]; [|done]. apply orb_true_iff in Eret as [Eret%Z.leb_le|Eret%Z.eqb_eq]; [exfalso|].
    + rewrite Er, pread_length in Eret. pose proof (hd_size _ _ _ (dd_heal Hdata)). pose proof (co_page c Hc). lia.
    + apply no_writes_clean; auto.
  - apply orb_false_iff in Eret as [Eret%Z.leb_gt Ewn%Z.eqb_neq]. destruct Hr as [(vec & -> & Hv & Er)|(junk & -> & Er)]; [|lia].
    destruct (hc_has_holes c && (iov_0filled (r_vector r) =? 0)) eqn:Eh.
    + apply andb_true_iff in Eh as [Hh Hz%Z.eqb_eq].
      eapply (at_returns e _ h p f1 f f2 files s1 l s2 ls jf files _ h p ls); try done; try (by destruct H); try (by split).
      intros [[-> _]%orb_false_iff _]%orb_false_iff. rewrite <-Eof in Hv, Hu.
      apply (hole_clean c files0 bs (proj1 (co_page c Hc)) files (r_vector r)); auto; [apply (dd_heal (Hdata eq_refl))|by destruct H].
    + by eapply (diff_read_writes e _ h p f1 f2 files s1 l s2 ls jf (r_vector r)).
Qed.

Lemma diff_write_answered e h p f1 f2 files s1 l s2 ls jf v t1 i t2 a r files' :
  let f := mk_rw (Z.of_nat (length (t1 ++ i :: t2))) (map (diff_write l v (dl_offset ls)) (t1 ++ i :: t2)) in
  at_loop e h p f1 f f2 files s1 l s2 ls jf ->
  0 <= dl_offset ls -> concat v = pread (src c files0) (dl_offset ls) bs -> NoDup (t1 ++ i :: t2) ->
  (forall i', i' ∈ t1 ++ i :: t2 -> i' ∈ sinks c) -> length (dl_checksum ls) = count ->
  (e = false -> forall i', i' ∈ sinks c -> i' ∉ t1 ++ i :: t2 -> clean_at c files0 bs files i' (dl_offset ls)) ->
  child_answer (diff_write l v (dl_offset ls) i) a files = Some (r, files') ->
  answered c files0 bs diff_good e (honest_diff (diff_write l v (dl_offset ls) i) a) h p f1 f f2 files files'
    (sh_diff_write_cbk c (cookie l i) (r_op_ret r) (mk_rw (rw_count f) (map (diff_write l v (dl_offset ls)) (t1 ++ t2))) h).
Proof.
  intros f H Ho Hv Hnd Hin Hsl Hcl Ha. pose proof (al_conf _ _ _ _ _ _ _ _ _ _ _ _ H) as Hc. destruct (at_slot_lt _ _ _ _ _ _ _ _ _ _ _ _ H) as [_ Hl16].
  assert (frame_offset f = dl_offset ls) as Eof by (unfold f; by destruct t1). rewrite (al_offset _ _ _ _ _ _ _ _ _ _ _ _ H) in Eof.
  assert (i ∈ sinks c) as Hi by (apply Hin; set_solver). pose proof (within_sinks _ Hnd Hin) as Hlen. pose proof (sinks_small Hc) as Hsm.
  assert (Z.of_nat i < 2 ^ 16) as Hi16 by (apply elem_of_sinks in Hi as [? _]; pose proof (co_count c Hc); lia).
  destruct (write_keeps c files0 Hc files (diff_write l v (dl_offset ls) i) a r files' v (dl_offset ls)) as (Hl' & Hs' & Hsame); try done; try (by destruct H).
  unfold sh_diff_write_cbk, cookie. rewrite loop_index_cookie by done. rewrite (al_private _ _ _ _ _ _ _ _ _ _ _ _ H). cbn [mbind option_bind].
  rewrite (al_slot _ _ _ _ _ _ _ _ _ _ _ _ H). cbn [mbind option_bind]. set (h1 := if r_op_ret r =? -1 then op_failed h else h).
  assert (h_private h1 = Some p /\ same_heal h h1) as [Hp1 Hh1].
  { unfold h1. destruct (r_op_ret r =? -1); (split; [by destruct H|by split]). }
  set (hon := honest_diff (diff_write l v (dl_offset ls) i) a).
  pose proof (write_facts c files0 bs (proj1 (co_page c Hc)) e hon h files v (dl_offset ls) i (diff_write l v (dl_offset ls) i) a r files'
    (al_files _ _ _ _ _ _ _ _ _ _ _ _ H) Hi Ho ltac:(by destruct a) eq_refl eq_refl Hv Ha) as Hfacts. fold h1 in Hfacts.
  assert (e || negb hon || h_op_failed h1 = false -> forall i', i' ∈ sinks c -> i' ∉ t1 ++ t2 -> clean_at c files0 bs files' i' (dl_offset ls)) as Hcl'.
  { intros E i' Hi' Hnot. destruct (Hfacts E) as (E0 & _ & Hci). destruct (decide (i' = i)) as [->|Hne]; [done|].
    unfold clean_at. rewrite Hsame by done. apply Hcl; [done|done|]. set_solver. }
  assert (ap_loops p = <[l := ls]> (ap_loops p)) as Eloops by (symmetry; apply list_insert_id; by destruct H).
  assert (0 < length (t1 ++ i :: t2))%nat by (rewrite length_app; simpl; lia). unfold frame_return. cbn [rw_count rw_calls].
  change (rw_count f) with (Z.of_nat (length (t1 ++ i :: t2))). rewrite u32_small by (unfold is_u32; lia).
  assert (length (t1 ++ i :: t2) = S (length (t1 ++ t2))) as Elen by (rewrite !length_app; simpl; lia).
  destruct (Z.eqb_spec (Z.of_nat (length (t1 ++ i :: t2)) - 1) 0) as [E1|E1].
  - eapply (at_returns e _ h p f1 f f2 files s1 l s2 ls jf files' _ h1 p ls); try done; rewrite ?Eof; try (by intros E; apply Hfacts).
    intros E i' Hi'. apply Hcl'; [done|done|]. destruct (t1 ++ t2); [apply not_elem_of_nil|simpl in Elen; lia].
  - replace (Z.of_nat (length (t1 ++ i :: t2)) - 1) with (Z.of_nat (length (t1 ++ t2))) by lia.
    apply (at_goes_on e _ h p f1 f f2 files s1 l s2 ls jf files' _ h1 p ls); try done; rewrite ?Eof; try (by intros E; apply Hfacts); try (by destruct H).
    + apply DF_write; try done; [destruct (t1 ++ t2); [simpl in Elen; lia|done]| |set_solver].
      rewrite <-Permutation_middle in Hnd. by apply NoDup_cons in Hnd as [_ ?].
    + unfold frame_weight, f. cbn [rw_calls]. rewrite !length_map, Elen. destruct t1 as [|? ?], t2 as [|? ?]; simpl; lia.
Qed.

(** ** Comparing checksums *)

Definition differs (ls : sh_diff_loop_state) (i : nat) : bool :=
  negb (bool_decide (nth i (dl_checksum ls) [] = nth (hc_source c) (dl_checksum ls) [])).

Lemma mark_sinks_nth ls i :
  dl_write_needed ls = replicate count false -> nth i (mark_sinks c ls) false = is_sink c i && differs ls i && (i <? count)%nat.
Proof.
  intros Hw. unfold mark_sinks. rewrite nth_lookup, list_lookup_imap, Hw. destruct (Nat.ltb_spec i count) as [Hi|Hi].
  - rewrite lookup_replicate_2 by done. simpl. rewrite andb_true_r. by destruct (is_sink c i).
  - rewrite (lookup_ge_None_2 (replicate _ _)) by (rewrite length_replicate; lia). simpl. by rewrite andb_false_r.
Qed.

Lemma any_marked_false ls : any_marked c ls = false -> forall i, i ∈ sinks c -> differs ls i = false.
Proof.
  intros Hn i [Hi Hs]%elem_of_sinks. unfold any_marked in Hn. apply not_true_iff_false in Hn. destruct (differs ls i) eqn:E; [|done].
  exfalso. apply Hn, existsb_exists. exists i. split; [apply in_seq; lia|]. rewrite Hs. done.
Qed.

(** All checksums are there. *)
Definition summed (ls : sh_diff_loop_state) : Prop := forall i, i ∈ hc_source c :: sinks c -> nth i (dl_checksum ls) [] = sum0 i (dl_offset ls).

Lemma same_sum_clean files ls i jf :
  diff_data -> summed ls -> untouched c files0 bs files (dl_offset ls) -> dl_offset ls = jf * bs -> 0 <= jf -> i ∈ sinks c ->
  differs ls i = false -> clean_at c files0 bs files i (dl_offset ls).
Proof.
  intros Hd Hs Hu Ho Hj Hi Hdif n Hn _. rewrite Hu by done. apply negb_false_iff, bool_decide_eq_true_1 in Hdif.
  rewrite !Hs, Ho in Hdif by set_solver. rewrite Ho in Hn. by apply (dd_sums Hd jf i).
Qed.

(** What follows the last checksum. *)
Lemma diff_compared e hon h p f1 f f2 files s1 l s2 ls jf h1 p1 ls1 :
  at_loop e h p f1 f f2 files s1 l s2 ls jf -> (e = false -> diff_data) -> ap_block_size p = bs ->
  h_private h1 = Some p1 -> same_heal h h1 -> same_private p p1 -> ap_loops p1 = <[l := ls1]> (ap_loops p) ->
  dl_offset ls1 = jf * bs -> dl_active ls1 = true -> dl_write_needed ls1 = replicate count false -> length (dl_checksum ls1) = count ->
  0 <= dl_offset ls1 < hc_file_size c -> (e = false -> untouched c files0 bs files (dl_offset ls1)) ->
  (e || negb hon || h_op_failed h1 = false -> summed ls1) -> (2 + length (sinks c) <= frame_weight c f)%nat ->
  answered c files0 bs diff_good e hon h p f1 f f2 files files
    (let write_needed := any_marked c ls1 in
     let ls := mk_dls (dl_offset ls1) (mark_sinks c ls1) (dl_checksum ls1) (dl_active ls1) in
     let h := set_private (count_blocks write_needed (set_loops (<[l := ls]> (ap_loops p1)) p1)) h1 in
     if write_needed && negb (h_op_failed h) then sh_diff_read c l (mk_rw 0 []) h else sh_diff_loop_return c l (mk_rw 0 []) h).
Proof.
  intros H Hdata Hb Hp1 Hh1 Hpr Hloops Ho Hact Hw Hsl Hrange Hu Hsum Hwt. destruct (at_slot_lt _ _ _ _ _ _ _ _ _ _ _ _ H) as [Hlt _]. cbv zeta.
  set (ls2 := mk_dls _ _ _ _). set (p2 := count_blocks _ _). set (h2 := set_private p2 h1).
  assert (ap_loops p2 = <[l := ls2]> (ap_loops p)) as Hl2 by (unfold p2; simpl; by rewrite Hloops, list_insert_insert_eq).
  assert (same_heal h h2 /\ same_private p p2) as [Hh2 Hpr2] by (split; [exact Hh1|exact Hpr]).
  assert (forall e', e' = false -> elsewhere c bs files files (jf * bs)) as Hsame by by intros ? _ ? ?.
  assert (length (dl_checksum ls2) = count) as Hsl2 by done. change (h_op_failed h2) with (h_op_failed h1).
  destruct (any_marked c ls1 && negb (h_op_failed h1)) eqn:Ego.
  - unfold sh_diff_read. cbn [h_private h2 set_private mbind option_bind]. rewrite Hl2, list_lookup_insert_eq by done. cbn [mbind option_bind rw_calls app rw_count].
    destruct Hpr2 as (Ho2 & Hb2 & Hr2). rewrite Hb2, Hb.
    apply (at_goes_on e hon h p f1 f f2 files s1 l s2 ls jf files _ h2 p2 ls2); try done; try (by destruct H); try (by split).
    apply (DF_read _ _ ls2); try done.
    + simpl. unfold mark_sinks. by rewrite length_imap, Hw, length_replicate.
    + intros i. simpl. rewrite mark_sinks_nth by done. intros [[Hs _]%andb_true_iff Hi%Nat.ltb_lt]%andb_true_iff. by apply elem_of_sinks.
    + intros [[-> _]%orb_false_iff _]%orb_false_iff. by apply Hu.
    + intros E i Hi. simpl. rewrite mark_sinks_nth by done. pose proof (proj1 (elem_of_sinks c i) Hi) as [Hi1 Hi2]. rewrite Hi2, (proj2 (Nat.ltb_lt _ _) Hi1), andb_true_r. simpl.
      specialize (Hsum E). apply orb_false_iff in E as [[-> _]%orb_false_iff _]. apply (same_sum_clean files ls1 i jf); auto. by destruct H.
  - eapply (at_returns e hon h p f1 f f2 files s1 l s2 ls jf files _ h2 p2 ls2); try done; try (by destruct H).
    intros E. change (h_op_failed h2) with (h_op_failed h1) in E. specialize (Hsum E). apply orb_false_iff in E as [[-> _]%orb_false_iff E].
    rewrite E, andb_true_r in Ego. intros i Hi. rewrite <-Ho. apply (same_sum_clean files ls1 i jf); auto; [by destruct H|by apply any_marked_false].
Qed.

(** A checksum is stored, or noted as failed. *)
Lemma sum_stored e hon h p f1 f f2 files s1 l s2 ls jf t1 i t2 a r files' :
  at_loop e h p f1 f f2 files s1 l s2 ls jf -> dl_offset ls = jf * bs -> length (dl_checksum ls) = count ->
  (forall i', i' ∈ t1 ++ i :: t2 -> i' ∈ hc_source c :: sinks c) ->
  (e = false -> untouched c files0 bs files (dl_offset ls)) ->
  (e = false -> forall i', i' ∈ hc_source c :: sinks c -> i' ∉ t1 ++ i :: t2 -> nth i' (dl_checksum ls) [] = sum0 i' (dl_offset ls)) ->
  child_answer (sum_call l (dl_offset ls) i) a files = Some (r, files') ->
  let '(h1, p1, ls1) :=
    if r_op_ret r <? 0 then (op_failed h, p, ls)
    else let ls := mk_dls (dl_offset ls) (dl_write_needed ls) (<[i := r_strong r]> (dl_checksum ls)) (dl_active ls) in
         let p := set_loops (<[l := ls]> (ap_loops p)) p in (set_private p h, p, ls) in
  files' = files /\ h_private h1 = Some p1 /\ same_heal h h1 /\ same_private p p1 /\ ap_loops p1 = <[l := ls1]> (ap_loops p) /\
  dl_offset ls1 = dl_offset ls /\ dl_active ls1 = dl_active ls /\ dl_write_needed ls1 = dl_write_needed ls /\ length (dl_checksum ls1) = count /\
  (e || negb hon || h_op_failed h1 = false -> forall i', i' ∈ hc_source c :: sinks c -> i' ∉ t1 ++ t2 -> nth i' (dl_checksum ls1) [] = sum0 i' (dl_offset ls1)).
Proof.
  intros H Ho Hsl Hin Hu Hsum Ha. pose proof (al_slot _ _ _ _ _ _ _ _ _ _ _ _ H) as Hslot. pose proof (al_conf _ _ _ _ _ _ _ _ _ _ _ _ H) as Hc.
  pose proof (al_pos _ _ _ _ _ _ _ _ _ _ _ _ H) as Hj. pose proof (co_page c Hc) as Hpg.
  unfold child_answer in Ha. simpl in Ha. fold (file_of files i) in Ha. destruct a as [vec|junk|n]; simplify_eq; cbn [r_op_ret r_strong].
  - cbv beta iota zeta. rewrite (proj2 (Z.ltb_ge 0 0)) by lia. split_and!; try done; [simpl; by rewrite length_insert|].
    intros [[-> _]%orb_false_iff _]%orb_false_iff i' Hi' Hni. cbn [dl_checksum dl_offset].
    assert (i < length (dl_checksum ls))%nat as Hlt.
    { rewrite Hsl. specialize (Hin i ltac:(set_solver)). apply elem_of_cons in Hin as [->|[? _]%elem_of_sinks]; [apply (co_source c Hc)|done]. }
    destruct (decide (i' = i)) as [->|Hne].
    + rewrite nth_lookup, list_lookup_insert_eq by done. simpl. unfold sum0. apply elem_of_cons in Hi' as [->|Hi'].
      * by rewrite (al_source _ _ _ _ _ _ _ _ _ _ _ _ H).
      * apply rchecksum_same; [nia|]. by apply (Hu eq_refl i).
    + rewrite nth_lookup, list_lookup_insert_ne, <-nth_lookup by done. apply Hsum; [done|done|set_solver].
  - split_and!; try done; [by destruct H|by rewrite list_insert_id|by rewrite orb_true_r].
Qed.

Lemma diff_sum_answered e h p f1 f2 files s1 l s2 ls jf t1 i t2 a r files' :
  let f := mk_rw (Z.of_nat (length (t1 ++ i :: t2))) (map (sum_call l (dl_offset ls)) (t1 ++ i :: t2)) in
  at_loop e h p f1 f f2 files s1 l s2 ls jf -> (e = false -> diff_data) -> ap_block_size p = bs ->
  0 <= dl_offset ls < hc_file_size c -> NoDup (t1 ++ i :: t2) -> (forall i', i' ∈ t1 ++ i :: t2 -> i' ∈ hc_source c :: sinks c) ->
  dl_write_needed ls = replicate count false -> length (dl_checksum ls) = count ->
  (e = false -> untouched c files0 bs files (dl_offset ls)) ->
  (e = false -> forall i', i' ∈ hc_source c :: sinks c -> i' ∉ t1 ++ i :: t2 -> nth i' (dl_checksum ls) [] = sum0 i' (dl_offset ls)) ->
  child_answer (sum_call l (dl_offset ls) i) a files = Some (r, files') ->
  answered c files0 bs diff_good e (honest_diff (sum_call l (dl_offset ls) i) a) h p f1 f f2 files files'
    (sh_diff_checksum_cbk c (cookie l i) (r_op_ret r) (r_strong r) (mk_rw (rw_count f) (map (sum_call l (dl_offset ls)) (t1 ++ t2))) h).
Proof.
  intros f H Hdata Hb Ho Hnd Hin Hw Hsl Hu Hsum Ha. pose proof (al_conf _ _ _ _ _ _ _ _ _ _ _ _ H) as Hc. destruct (at_slot_lt _ _ _ _ _ _ _ _ _ _ _ _ H) as [_ Hl16].
  assert (frame_offset f = dl_offset ls) as Eof by (unfold f; by destruct t1). rewrite (al_offset _ _ _ _ _ _ _ _ _ _ _ _ H) in Eof. symmetry in Eof.
  assert (i < count)%nat as Hi.
  { specialize (Hin i ltac:(set_solver)). apply elem_of_cons in Hin as [->|[? _]%elem_of_sinks]; [apply (co_source c Hc)|done]. }
  pose proof (co_count c Hc). assert (length (t1 ++ i :: t2) <= S (length (sinks c)))%nat as Hlen.
  { change (S (length (sinks c))) with (length (hc_source c :: sinks c)). apply submseteq_length, NoDup_submseteq; [done|]. intros i' Hi'. by apply Hin. }
  pose proof (sinks_small Hc). unfold sh_diff_checksum_cbk, cookie. rewrite loop_index_cookie, child_index_cookie by lia.
  rewrite (al_private _ _ _ _ _ _ _ _ _ _ _ _ H). cbn [mbind option_bind]. rewrite (al_slot _ _ _ _ _ _ _ _ _ _ _ _ H). cbn [mbind option_bind].
  pose proof (al_active _ _ _ _ _ _ _ _ _ _ _ _ H) as Hact. set (hon := honest_diff (sum_call l (dl_offset ls) i) a).
  pose proof (sum_stored e hon h p f1 f f2 files s1 l s2 ls jf t1 i t2 a r files' H Eof Hsl Hin Hu Hsum Ha) as Hst.
  destruct (if r_op_ret r <? 0 then _ else _) as [[h1 p1] ls1]. destruct Hst as (-> & Hp1 & Hh1 & Hpr & Hl1 & Ho1 & Ha1 & Hw1 & Hs1 & Hsum1).
  assert (length (t1 ++ i :: t2) = S (length (t1 ++ t2))) as Elen by (rewrite !length_app; simpl; lia).
  assert (forall e', e' = false -> elsewhere c bs files files (jf * bs)) as Hsame by by intros ? _ ? ?.
  unfold frame_return. cbn [rw_count rw_calls]. change (rw_count f) with (Z.of_nat (length (t1 ++ i :: t2))). rewrite u32_small by (unfold is_u32; lia).
  destruct (Z.eqb_spec (Z.of_nat (length (t1 ++ i :: t2)) - 1) 0) as [E1|E1].
  - assert (t1 ++ t2 = []) as Et by (apply nil_length_inv; lia). rewrite E1, Et. cbn [map].
    apply (diff_compared e hon h p f1 f f2 files s1 l s2 ls jf h1 p1 ls1); try done; rewrite ?Ho1, ?Ha1, ?Hw1; try done; try (by destruct H).
    + intros E i' Hi'. apply Hsum1; [done|done|]. rewrite Et. apply not_elem_of_nil.
    + unfold f, frame_weight. cbn [rw_calls]. rewrite length_map, Elen, Et. destruct t1; simpl; lia.
  - replace (Z.of_nat (length (t1 ++ i :: t2)) - 1) with (Z.of_nat (length (t1 ++ t2))) by lia. rewrite <-Ho1.
    apply (at_goes_on e hon h p f1 f f2 files s1 l s2 ls jf files _ h1 p1 ls1); try done; try (by destruct H); try congruence.
    + apply DF_sum; try done; rewrite ?Ho1, ?Hw1; try done.
      * destruct (t1 ++ t2); [simpl in Elen; lia|done].
      * rewrite <-Permutation_middle in Hnd. by apply NoDup_cons in Hnd as [_ ?].
      * set_solver.
      * intros [[-> _]%orb_false_iff _]%orb_false_iff. by apply Hu.
    + unfold frame_weight, f. cbn [rw_calls]. rewrite !length_map, Elen. destruct t1 as [|? ?], t2 as [|? ?]; simpl; lia.
Qed.

End Diff.

(** ** A new loop *)

Lemma unused_from_spec loops i :
  let k := unused_from i loops in
  (exists ls, (i <= k)%nat /\ loops !! (k - i)%nat = Some ls /\ dl_active ls = false) \/ Forall (fun ls => dl_active ls = true) loops.
Proof.
  revert i. induction loops as [|l loops IH]; intros i; simpl; [by right|]. destruct (dl_active l) eqn:E; simpl.
  - destruct (IH (S i)) as [(ls & Hle & Hl & Ha)|Hall]; [left|right; by constructor].
    exists ls. split_and!; [lia| |done]. by replace (unused_from (S i) loops - i)%nat with (S (unused_from (S i) loops - S i)) by lia.
  - left. exists l. split_and!; [lia| |done]. by rewrite Nat.sub_diag.
Qed.

(** Fewer loops than slots: one is free. *)
Lemma free_slot c files0 e loops slots frames files :
  slots_good c files0 e loops slots frames files -> Z.of_nat (length frames) < hc_window c ->
  exists ls, loops !! sh_diff_find_unused_loop loops = Some ls /\ dl_active ls = false /\ sh_diff_find_unused_loop loops ∉ slots.
Proof.
  intros Hg Hn. assert (forall l ls, loops !! l = Some ls -> dl_active ls = false -> l ∉ slots) as Hout.
  { intros l ls El Ha Hin. apply list_elem_of_lookup_1 in Hin as [k Hk].
    destruct (Forall2_lookup_l _ _ _ _ _ (sg_frames _ _ _ _ _ _ _ Hg) Hk) as (f & _ & ls' & El' & Ha' & _). congruence. }
  destruct (unused_from_spec loops 0) as [(ls & _ & El & Ha)|Hall].
  - rewrite Nat.sub_0_r in El. exists ls. split_and!; [done|done|]. by apply (Hout _ ls).
  - exfalso. pose proof (sg_length _ _ _ _ _ _ _ Hg) as Hlen. pose proof (Forall2_length _ _ _ (sg_frames _ _ _ _ _ _ _ Hg)) as Hfl.
    assert (length (seq 0 (length loops)) <= length slots)%nat as Hle; [|rewrite length_seq in Hle; lia].
    apply submseteq_length, NoDup_submseteq; [apply NoDup_seq|]. intros l Hl%elem_of_seq.
    destruct (lookup_lt_is_Some_2 loops l ltac:(lia)) as [ls El]. destruct (decide (l ∈ slots)) as [|Hni]; [done|].
    pose proof (id_active _ _ (sg_idle _ _ _ _ _ _ _ Hg l ls El Hni)). pose proof (Forall_lookup_1 _ _ _ _ Hall El). simpl in *. congruence.
Qed.

Lemma diff_begins c files0 e h p frames files o :
  conf_ok c -> h_private h = Some p -> ap_block_size p = hc_page_size c -> diff_good c files0 e (ap_loops p) frames files ->
  Z.of_nat (length frames) < hc_window c -> 0 <= o < hc_file_size c -> (e = false -> untouched c files0 (hc_page_size c) files o) ->
  exists loops f, sh_diff_checksum c true o h = Some (set_private (set_loops loops p) h, Some f) /\
    frame_offset f = o /\ (frame_weight c f <= 2 + 2 * length (sinks c))%nat /\ diff_good c files0 e loops (frames ++ [f]) files.
Proof.
  intros Hc Hp Hb [slots Hg] Hn Ho Hu. destruct (free_slot c files0 e (ap_loops p) slots frames files Hg Hn) as (ls & El & Ha & Hni).
  pose proof (sg_idle _ _ _ _ _ _ _ Hg _ _ El Hni) as [_ Hw Hs]. set (l := sh_diff_find_unused_loop (ap_loops p)) in *.
  set (ls' := mk_dls o (dl_write_needed ls) (dl_checksum ls) true). set (todo := hc_source c :: sinks c).
  pose proof (lookup_lt_Some _ _ _ El) as Hlt. pose proof (sinks_small c Hc).
  exists (<[l := ls']> (ap_loops p)), (mk_rw (Z.of_nat (length todo)) (map (sum_call c l o) todo)). split_and!.
  - unfold sh_diff_checksum. rewrite Hp. cbn [mbind option_bind]. fold l. rewrite El. cbn [mbind option_bind].
    rewrite wind_loop_more; [|rewrite (co_active c Hc); unfold sinks; lia]. fold (sinks c). rewrite (co_active c Hc), Hb.
    rewrite u32_small by (unfold is_u32; lia). do 4 f_equal. unfold todo. simpl. lia.
  - done.
  - unfold frame_weight. simpl. rewrite length_map. lia.
  - exists (slots ++ [l]). destruct Hg as [Hlen Hnd Hfr Hid]. split.
    + by rewrite length_insert.
    + apply list.NoDup_app. split_and!; [done|set_solver|apply NoDup_singleton].
    + apply Forall2_app.
      * clear -Hfr Hni. induction Hfr as [|l0 f slots frames (ls0 & E0 & H0) _ IH]; constructor; [|apply IH; set_solver].
        exists ls0. by rewrite list_lookup_insert_ne by set_solver.
      * constructor; [|constructor]. exists ls'. rewrite list_lookup_insert_eq by done. split_and!; [done|done|].
        apply (DF_sum c files0 e files ls' l todo); try done.
        apply NoDup_cons. split; [apply (src_not_sink c Hc)|apply sinks_nodup].
    + intros l0 ls0 E0 Hn0. rewrite list_lookup_insert_ne in E0 by set_solver. apply (Hid l0); [done|set_solver].
Qed.

(** ** The instance *)

Lemma diff_answered c files0 e h p f1 f f2 files k call a r files' :
  conf_ok c -> (e = false -> diff_data c files0) -> h_private h = Some p -> ap_block_size p = hc_page_size c ->
  (h_op_failed h = true -> e = true) -> diff_good c files0 e (ap_loops p) (f1 ++ f :: f2) files ->
  (forall g, g ∈ f1 ++ f :: f2 -> exists j, 0 <= j /\ frame_offset g = j * hc_page_size c) ->
  (forall g, g ∈ f1 ++ f2 -> frame_offset g <> frame_offset f) ->
  length files = hc_child_count c -> file_of files (hc_source c) = src c files0 ->
  rw_calls f !! k = Some call -> child_answer call a files = Some (r, files') ->
  answered c files0 (hc_page_size c) (diff_good c files0) e (honest_diff call a) h p f1 f f2 files files'
    (algo_cbk sh_diff c call r (mk_rw (rw_count f) (delete k (rw_calls f))) h).
Proof.
  intros Hc Hd Hp Hb Hfail Hg Hbl Hdis Hl Hs Hk Ha. destruct (diff_split c files0 e (ap_loops p) f1 f f2 files Hg) as (s1 & l & s2 & ls & Hsg & Hlen & El & Hact & Hf & Hni & Hnd).
  destruct (Hbl f ltac:(set_solver)) as (jf & Hjf & Ejf).
  assert (at_loop c files0 e h p f1 f f2 files s1 l s2 ls jf) as Hat by by constructor.
  assert (forall (mk : nat -> heal_call) todo, map mk todo !! k = Some call -> exists t1 i t2, todo = t1 ++ i :: t2 /\ call = mk i /\
    delete k (map mk todo) = map mk (t1 ++ t2)) as Hsplit.
  { intros mk todo E. rewrite list_lookup_fmap in E. destruct (todo !! k) as [i|] eqn:Ei; [|done]. injection E as <-.
    exists (take k todo), i, (drop (S k) todo). split_and!; [by rewrite take_drop_middle|done|].
    pose proof (lookup_lt_Some _ _ _ Ei). rewrite <-(take_drop_middle todo k i Ei) at 1. rewrite !map_app. simpl.
    replace k with (length (map mk (take k todo))) at 1 by (rewrite length_map, length_take; lia). apply delete_middle. }
  pose proof Hf as Hf0. destruct Hf as [todo Ho Hne Hndt Hin Hw Hsl Hu Hsum|Ho Hwl Hsl Hws Hu Hcl|v todo Ho Hv Hne Hndt Hin Hsl Hcl]; cbn [rw_calls rw_count] in *.
  - destruct (Hsplit _ _ Hk) as (t1 & i & t2 & -> & -> & ->). by apply (diff_sum_answered c files0 e h p f1 f2 files s1 l s2 ls jf).
  - destruct k as [|[|k]]; [|done|done]. injection Hk as <-. by apply (diff_read_answered c files0 e h p f1 f2 files s1 l s2 ls jf).
  - destruct (Hsplit _ _ Hk) as (t1 & i & t2 & -> & -> & ->). by apply (diff_write_answered c files0 e h p f1 f2 files s1 l s2 ls jf).
Qed.

Definition diff_loop0 (c : heal_conf) : sh_diff_loop_state :=
  mk_dls 0 (replicate (hc_child_count c) false) (replicate (hc_child_count c) (replicate MD5_DIGEST_LEN 0)) false.

#[export] Program Instance diff_algo : HealAlgo sh_diff := {|
  ha_block := hc_page_size;
  ha_private_block := hc_page_size;
  ha_private_size _ := ap_block_size;
  ha_width c := (2 + 2 * length (sinks c))%nat;
  ha_honest := honest_diff;
  ha_data := diff_data;
  ha_start := sh_diff_checksum;
  ha_loops0 c := replicate (Z.to_nat (hc_window c)) (diff_loop0 c);
  ha_good := diff_good |}.
Next Obligation. intros c Hc. apply (co_page c Hc). Qed.
Next Obligation. done. Qed.
Next Obligation. done. Qed.
Next Obligation. done. Qed.
Next Obligation. done. Qed.
Next Obligation.
  intros c files0 e Hc. exists []. pose proof (co_window c Hc). split; [rewrite length_replicate; lia|constructor|constructor|].
  intros l ls [-> _]%lookup_replicate _. split; simpl; [done|done|by rewrite length_replicate].
Qed.
Next Obligation.
  intros c files0 e e' loops frames files [slots [Hl Hn Hf Hi]] He. exists slots. split; try done. eapply Forall2_impl; [exact Hf|].
  intros l f (ls & El & Ha & Hfr). exists ls. split_and!; [done|done|]. by eapply diff_frame_weaken.
Qed.
Next Obligation.
  intros c files0 e loops frames files f [slots [_ _ Hf _]] [k Hk]%list_elem_of_lookup_1.
  destruct (Forall2_lookup_r _ _ _ _ _ Hf Hk) as (l & _ & ls & _ & _ & Hfr).
  destruct Hfr as [[|i todo]| |v [|i todo]]; done.
Qed.
Next Obligation. intros. by apply diff_begins. Qed.
Next Obligation. intros. by apply diff_answered. Qed.
