(* ===== verification/AfrHealProps.v ===== *)
(** * cluster/afr: properties of the algorithms of data self-heal

    A heal by either algorithm ends once and, when it completes, leaves the bytes
    of the source on all sinks; and what breaks this: a failed read of the diff
    algorithm, holes over stale data, no memory for a loop, children that answer
    within the call. *)

From stdpp Require Import base list numbers sets.
From S2P Require Import Prelude PosixFile Md5 AfrHealAlgo AfrHealInv AfrHealSteps AfrHealFull AfrHealDiff.
Open Scope Z_scope.

Definition heal_algo (diff : bool) : afr_sh_algorithm := if diff then sh_diff else sh_full.

#[export] Instance heal_algo_ok (diff : bool) : HealAlgo (heal_algo diff) :=
  match diff with true => diff_algo | false => full_algo end.

(** What is asked of the files before the heal. *)
Definition files_ok (diff : bool) (c : heal_conf) (files : list file) : Prop :=
  if diff then diff_data c files else heal_data c files (hc_block_size c).

(** ** Every heal that completes has copied the file *)

(** C4: A heal that completes has made every sink, once it is cut to the size
    that was found, the same file as the source, which is unchanged, and no
    failure was noted: for both algorithms, for any number of children, sizes
    and window, and answers in any order, with any failures that the conditions
    allow.  The conditions: callbacks run one after the other; a child that
    answers a write with success has written all of it; in the diff algorithm no
    read of the source fails, and no two blocks that are compared differ with
    the same MD5; where the source has holes, the sinks have no other data in
    blocks that are zero on the source; and the size that was found is that of
    the source. *)
Theorem heal_copies diff c files es s :
  conf_ok c -> length files = hc_child_count c -> files_ok diff c files ->
  honest_run (heal_algo diff) c es (heal_start (heal_algo diff) c files) = true ->
  run (heal_algo diff) c true es (heal_start (heal_algo diff) c files) = Next s ->
  h_ended (s_heal s) = [true] ->
  h_op_failed (s_heal s) = false /\ file_of (s_files s) (hc_source c) = file_of files (hc_source c) /\
  forall i, i ∈ sinks c -> ftruncate (file_of (s_files s) i) (hc_file_size c) = file_of files (hc_source c).
Proof.
  intros Hc Hl Hd Hh Hr He.
  pose proof (run_any (heal_algo diff) c files Hc es false true 0 _ ltac:(by intros _; destruct diff) (start_inv (heal_algo diff) c files Hc false Hl)) as HI.
  rewrite Hr, Hh in HI. destruct HI as [[(p & leaked & k & R & _)|(_ & b & E)] _].
  - by rewrite (ru_ended _ _ _ _ _ _ _ _ R) in He.
  - rewrite (en_ended _ _ _ _ _ E) in He. injection He as ->. split; [by rewrite (en_failed _ _ _ _ _ E)|].
    split; [apply (en_source _ _ _ _ _ E)|]. intros i Hi. fold (src c files).
    assert (Z.of_nat (length (src c files)) = hc_file_size c) as Hsize.
    { destruct diff; [apply (hd_size _ _ _ (dd_heal _ _ Hd))|apply (hd_size _ _ _ Hd)]. }
    apply file_eq; [rewrite ftruncate_length; lia|]. intros n Hn. rewrite ftruncate_length in Hn. rewrite ftruncate_byte, decide_True by done.
    apply (en_clean _ _ _ _ _ E); try done; lia.
Qed.

(** ** Every heal ends, once *)

(** The most steps that a heal takes. *)
Definition heal_steps (diff : bool) (c : heal_conf) : nat :=
  let bs := if diff then hc_page_size c else hc_block_size c in
  Z.to_nat ((hc_file_size c + bs - 1) / bs) * ((if diff then 2 + 2 * length (sinks c) else 1 + length (sinks c)) + 5) + 3.

Lemma start_weight diff c files : sys_weight (heal_algo diff) c (heal_start (heal_algo diff) c files) = heal_steps diff c.
Proof.
  unfold sys_weight, heal_start, heal_steps. rewrite (ha_fn c). simpl. unfold blocks_left. simpl. rewrite Z.sub_0_r.
  by destruct diff; simpl; lia.
Qed.

(** C7: If its callbacks run one after the other (children that answer within
    the call are not covered), a heal never touches the private data it has
    freed, takes at most [heal_steps] steps, calls one of its two callbacks at
    most once, with nothing running or unanswered then, the completion callback
    if and only if no failure was noted, and while it has not called one it can
    go on, provided that there was memory for every loop. *)
Theorem heal_ends_once diff c files es :
  conf_ok c -> length files = hc_child_count c ->
  match run (heal_algo diff) c true es (heal_start (heal_algo diff) c files) with
  | Next s =>
      (length es <= heal_steps diff c)%nat /\
      ((h_ended (s_heal s) = [] /\
        (forallb has_memory es = true -> exists e s', has_memory e = true /\ fire (heal_algo diff) c true e s = Next s')) \/
       exists b, h_ended (s_heal s) = [b] /\ h_op_failed (s_heal s) = negb b /\ s_frames s = [] /\ s_threads s = [])
  | Fault => False
  | Disabled => True
  end.
Proof.
  intros Hc Hl. pose proof (run_any (heal_algo diff) c files Hc es true true 0 _ ltac:(done) (start_inv (heal_algo diff) c files Hc true Hl)) as HI.
  destruct (run _ _ _ _ _) as [s| |]; [|done|done]. destruct HI as [HI Hw]. split.
  - pose proof (start_weight diff c files). lia.
  - destruct HI as [(p & leaked & k & R & Hm)|(_ & b & E)].
    + left. split; [apply (ru_ended _ _ _ _ _ _ _ _ R)|]. intros Hmem. destruct Hm as [Hm _]. rewrite Hmem in Hm. rewrite (Hm eq_refl) in R. by eapply progress.
    + right. exists b. by destruct E.
Qed.

(** ** A loop without memory is lost *)

(** C39: When there was no memory for a loop, the loop stays counted as running,
    so the heal calls neither callback, whatever happens after, and comes to a halt
    with the locks of the heal still held. *)
Theorem lost_loop_hangs diff c files es s p es' s' :
  conf_ok c -> length files = hc_child_count c ->
  run (heal_algo diff) c true es (heal_start (heal_algo diff) c files) = Next s ->
  h_private (s_heal s) = Some p -> Z.of_nat (length (s_frames s)) < loops_running p ->
  run (heal_algo diff) c true es' s = Next s' ->
  h_ended (s_heal s') = [] /\ h_op_failed (s_heal s') = true /\ (length es' <= heal_steps diff c)%nat.
Proof.
  intros Hc Hl Hr Hp Hlt Hr'. pose proof (run_any (heal_algo diff) c files Hc es true true 0 _ ltac:(done) (start_inv (heal_algo diff) c files Hc true Hl)) as HI.
  pose proof (start_weight diff c files) as Hw. rewrite Hr in HI. destruct HI as [[(p0 & leaked & k & R & _)|(_ & b & E)] Hw0].
  2:{ by rewrite (en_private _ _ _ _ _ E) in Hp. }
  rewrite (ru_private _ _ _ _ _ _ _ _ R) in Hp. injection Hp as ->. pose proof (ru_count _ _ _ _ _ _ _ _ R) as Hn.
  pose proof (run_any (heal_algo diff) c files Hc es' true false 1 s ltac:(done)) as HI'. rewrite Hr' in HI'. destruct HI' as [HI' Hw'].
  { left. exists p, leaked, k. split; [done|]. split; [done|lia]. }
  destruct HI' as [(p' & leaked' & k' & R' & [_ Hlow])|(? & _)]; [|done].
  split_and!; [by apply (ru_ended _ _ _ _ _ _ _ _ R')|apply (ru_leak _ _ _ _ _ _ _ _ R'); lia|lia].
Qed.

(** ** Examples *)

(** Three children; the file is on child 0, child 2 is down. *)
Definition small_conf (holes : bool) (size : Z) : heal_conf := mk_hc 3 2 2 [true; true; false] [1; 0; 0] 0 1 2 size holes.

Lemma small_conf_ok holes size : 0 <= size < 2 ^ 62 -> conf_ok (small_conf holes size).
Proof. intros Hs. by split; simpl; try lia. Qed.

(** The first call that waits is answered as asked. *)
Definition obliging (s : hsys) : list hevent :=
  match s_frames s with
  | f :: _ =>
      match rw_calls f with
      | mk_call i _ (H_readv size o) :: _ => [E_answer 0 0 (A_ok [pread (file_of (s_files s) i) o size])]
      | _ :: _ => [E_answer 0 0 (A_ok [])]
      | [] => []
      end
  | [] => []
  end.

(** Threads first, then answers. *)
Fixpoint schedule (n : nat) (A : afr_sh_algorithm) (c : heal_conf) (s : hsys) : list hevent :=
  match n with
  | O => []
  | S n =>
      match s_threads s with _ :: _ => [E_run 0 true] | [] => obliging s end ≫= fun e =>
      match fire A c true e s with Next s' => e :: schedule n A c s' | _ => [] end
  end.

Definition final (o : outcome) (s : hsys) : hsys := match o with Next s' => s' | _ => s end.

Definition ex_conf : heal_conf := small_conf false 5.
Definition ex_files : list file := [[1; 2; 3; 4; 5]; [9; 9; 3; 9]; []].
Definition ex_events : list hevent := Eval vm_compute in schedule 100 sh_full ex_conf (heal_start sh_full ex_conf ex_files).
Definition ex_final : hsys :=
  Eval vm_compute in final (run sh_full ex_conf true ex_events (heal_start sh_full ex_conf ex_files)) (heal_start sh_full ex_conf ex_files).

Lemma heal_copies_witness :
  h_op_failed (s_heal ex_final) = false /\ file_of (s_files ex_final) 0 = [1; 2; 3; 4; 5] /\
  forall i, i ∈ sinks ex_conf -> ftruncate (file_of (s_files ex_final) i) 5 = [1; 2; 3; 4; 5].
Proof.
  apply (heal_copies false ex_conf ex_files ex_events ex_final).
  - by apply small_conf_ok.
  - done.
  - split; [done|]. simpl. done.
  - by vm_compute.
  - by vm_compute.
  - by vm_compute.
Defined.

Lemma heal_ends_once_witness :
  match run sh_full ex_conf true ex_events (heal_start sh_full ex_conf ex_files) with
  | Next s =>
      (length ex_events <= heal_steps false ex_conf)%nat /\
      ((h_ended (s_heal s) = [] /\
        (forallb has_memory ex_events = true -> exists e s', has_memory e = true /\ fire sh_full ex_conf true e s = Next s')) \/
       exists b, h_ended (s_heal s) = [b] /\ h_op_failed (s_heal s) = negb b /\ s_frames s = [] /\ s_threads s = [])
  | Fault => False
  | Disabled => True
  end.
Proof. apply (heal_ends_once false ex_conf ex_files ex_events); [by apply small_conf_ok|done]. Defined.

(** No memory for the first of three loops. *)
Definition lost_events : list hevent := [E_run 0 true; E_run 0 true; E_run 0 false; E_run 0 true; E_run 0 true; E_run 0 true].
Definition lost_state : hsys :=
  Eval vm_compute in final (run sh_full ex_conf true lost_events (heal_start sh_full ex_conf ex_files)) (heal_start sh_full ex_conf ex_files).
Definition lost_rest : list hevent := Eval vm_compute in schedule 100 sh_full ex_conf lost_state.
Definition lost_final : hsys := Eval vm_compute in final (run sh_full ex_conf true lost_rest lost_state) lost_state.

(** The other loops go on to their ends; then nothing is left that could happen. *)
Lemma lost_loop_hangs_witness :
  (h_ended (s_heal lost_final) = [] /\ h_op_failed (s_heal lost_final) = true /\ (length lost_rest <= heal_steps false ex_conf)%nat) /\
  s_frames lost_final = [] /\ s_threads lost_final = [].
Proof.
  split; [|by vm_compute].
  apply (lost_loop_hangs false ex_conf ex_files lost_events lost_state (mk_ap 2 4 0 0 0 []) lost_rest lost_final);
    [by apply small_conf_ok|done|by vm_compute|by vm_compute|by vm_compute|by vm_compute].
Defined.

(** ** Reads that fail *)

Definition two_bytes : heal_conf := small_conf false 2.
Definition stale_files : list file := [[1; 2]; [9; 9]; []].

Definition start_of (diff : bool) (c : heal_conf) (files : list file) : hsys := heal_start (heal_algo diff) c files.

(** The driver begins the only loop; for the diff algorithm two checksums follow. *)
Definition failed_read (diff : bool) : list hevent :=
  [E_run 0 true; E_run 0 true; E_run 0 true] ++ (if diff then [E_answer 0 0 (A_ok []); E_answer 0 0 (A_ok [])] else [])
    ++ [E_answer 0 0 (A_fail []); E_run 0 true; E_run 0 true].

(** The call that an event answers. *)
Definition call_of (e : hevent) (s : hsys) : option (heal_op * answer) :=
  match e with
  | E_run _ _ => None
  | E_answer i k a => f ← s_frames s !! i; call ← rw_calls f !! k; Some (hcall_op call, a)
  end.

(** The source is not read ([all]: not even once); nothing else fails, and there
    is memory. *)
Definition only_reads_fail (all : bool) (e : hevent) (s : hsys) : bool :=
  has_memory e &&
  match call_of e s with
  | Some (H_readv _ _, A_fail _) => true
  | Some (H_readv _ _, _) => negb all
  | Some (_, A_fail _) => false
  | _ => true
  end.

(** A read of the source fails. *)
Definition a_read_fails (e : hevent) (s : hsys) : bool :=
  match call_of e s with Some (H_readv _ _, A_fail _) => true | _ => false end.

(** Whether all events of a run, or some event, are such. *)
Fixpoint throughout (A : afr_sh_algorithm) (c : heal_conf) (P : hevent -> hsys -> bool) (es : list hevent) (s : hsys) : bool :=
  match es with
  | [] => true
  | e :: es => P e s && match fire A c true e s with Next s' => throughout A c P es s' | _ => true end
  end.

Definition sometime (A : afr_sh_algorithm) (c : heal_conf) (P : hevent -> hsys -> bool) (es : list hevent) (s : hsys) : bool :=
  negb (throughout A c (fun e s => negb (P e s)) es s).

(** What every step keeps, a run keeps. *)
Lemma throughout_keeps A c P (I : hsys -> Prop) es : forall s s',
  (forall e s s', I s -> P e s = true -> fire A c true e s = Next s' -> I s') ->
  I s -> throughout A c P es s = true -> run A c true es s = Next s' -> I s'.
Proof.
  induction es as [|e es IH]; intros s s' Hstep HI Hall Hr; simpl in *; [by simplify_eq|].
  apply andb_true_iff in Hall as [He Hall]. destruct (fire A c true e s) as [s1| |] eqn:E; [|done|done].
  apply (IH s1 s'); try done. by eapply Hstep.
Qed.

(** What is never lost and gained at some step is there at the end. *)
Lemma sometime_gains A c P (I : hsys -> Prop) es : forall s s',
  (forall e s s', I s \/ P e s = true -> fire A c true e s = Next s' -> I s') ->
  I s \/ sometime A c P es s = true -> run A c true es s = Next s' -> I s'.
Proof.
  unfold sometime. induction es as [|e es IH]; intros s s' Hstep HI Hr; simpl in *; [by simplify_eq; destruct HI|].
  destruct (fire A c true e s) as [s1| |] eqn:E; [|done|done]. apply (IH s1 s'); try done.
  destruct (P e s) eqn:Ep; simpl in HI; [left; by eapply Hstep; [right|]|].
  destruct HI as [HI|HI]; [left; by eapply Hstep; [left|]|by right].
Qed.

(** *** The diff algorithm *)

Definition not_write (call : heal_call) : Prop := match hcall_op call with H_writev _ _ => False | _ => True end.
Definition no_writes (f : rw_frame) : Prop := Forall not_write (rw_calls f).

Lemma diff_driver_reads c at_ h h' next frames :
  sh_diff_loop_driver c true at_ h = Some (h', next, frames) ->
  h_op_failed h' = h_op_failed h /\ Forall no_writes frames.
Proof.
  unfold sh_diff_loop_driver, loop_driver, sh_diff_checksum. intros E. destruct at_.
  - by simplify_eq.
  - destruct (h_private h) as [p|]; [|done]. cbn [mbind option_bind] in E. destruct (_ =? 0); by simplify_eq.
  - destruct (h_private h) as [p|]; [|done]. cbn [mbind option_bind] in E. destruct (_ <=? _); [destruct (_ =? 0)|]; by simplify_eq.
  - destruct (h_private h) as [p|]; [|done]. cbn [mbind option_bind] in E. destruct (_ && _); [|by simplify_eq].
    cbn [h_private set_private mbind option_bind] in E. destruct (ap_loops _ !! _); [|done]. cbn [mbind option_bind] in E. simplify_eq.
    split; [done|]. repeat constructor. simpl. generalize (hc_active_sinks c + 1) as n, (hc_child_count c) as todo, 0%nat as i.
    intros n todo. revert n. induction todo as [|todo IH]; intros n i; simpl; [constructor|].
    destruct (is_sink c i); [|apply IH]. constructor; [done|]. case_match; [constructor|apply IH].
Qed.



(** The cases of a callback that has returned. *)
Ltac cbk_cases E :=
  repeat (cbn beta iota zeta in E;
          match type of E with
          | None ≫= _ = _ => discriminate E
          | Some _ ≫= _ = _ => cbn [mbind option_bind] in E
          | None = Some _ => discriminate E
          | Some _ = Some _ => simplify_eq
          | ?x ≫= _ = _ => destruct x eqn:?
          | (if ?b then _ else _) = _ => destruct b eqn:?
          end).

(** The callback of an answer that is not the failure of a checksum or a write. *)
Lemma diff_cbk_fails c call r f h h' f' ret :
  algo_cbk sh_diff c call r f h = Some (h', f', ret) ->
  (0 <= r_op_ret r \/ exists size o, hcall_op call = H_readv size o) -> h_op_failed h' = h_op_failed h.
Proof.
  simpl. intros E Hr. destruct (hcall_op call) as [size o|v o|o len].
  - unfold sh_diff_read_cbk, sh_diff_loop_return in E. by cbk_cases E.
  - unfold sh_diff_write_cbk, sh_diff_loop_return in E. destruct Hr as [Hr|(? & ? & ?)]; [|done].
    rewrite (proj2 (Z.eqb_neq (r_op_ret r) (-1))) in E by lia. by cbk_cases E.
  - unfold sh_diff_checksum_cbk, sh_diff_read, sh_diff_loop_return in E. destruct Hr as [Hr|(? & ? & ?)]; [|done].
    rewrite (proj2 (Z.ltb_ge (r_op_ret r) 0)) in E by lia. by cbk_cases E.
Qed.

(** A failed read is taken for the end of the loop; checksums lead to reads. *)
Lemma diff_cbk_no_writes c call r f h h' f' :
  algo_cbk sh_diff c call r f h = Some (h', f', false) -> not_write call -> no_writes f ->
  (forall size o, hcall_op call = H_readv size o -> r_op_ret r = -1) -> no_writes f'.
Proof.
  simpl. unfold not_write, no_writes. intros E Hc Hf Hr. destruct (hcall_op call) as [size o|v o|o len]; [|done|].
  - rewrite (Hr size o eq_refl) in E. unfold sh_diff_read_cbk, sh_diff_loop_return in E. by cbk_cases E.
  - unfold sh_diff_checksum_cbk, sh_diff_read, sh_diff_loop_return in E.
    destruct (r_op_ret r <? 0); cbk_cases E; simpl; rewrite ?Forall_app; split_and?; by repeat constructor.
Qed.

(** *** Steps *)

Lemma fire_cases A c e s s' :
  fire A c true e s = Next s' ->
  (exists t mem at_ next frames, e = E_run t mem /\ algo_driver A c mem at_ (s_heal s) = Some (s_heal s', next, frames) /\
     s_frames s' = s_frames s ++ frames /\ s_files s' = s_files s) \/
  (exists i k a f call r f' (ret : bool), e = E_answer i k a /\ s_frames s !! i = Some f /\ rw_calls f !! k = Some call /\
     child_answer call a (s_files s) = Some (r, s_files s') /\
     algo_cbk A c call r (mk_rw (rw_count f) (delete k (rw_calls f))) (s_heal s) = Some (s_heal s', f', ret) /\
     s_frames s' = take i (s_frames s) ++ (if ret then [] else [f']) ++ drop (S i) (s_frames s)).
Proof.
  destruct e as [t mem|i k a]; unfold fire; intros E.
  - left. destruct (s_threads s !! t) as [[|at_ st]|]; [done| |done].
    destruct (algo_driver A c mem at_ (s_heal s)) as [[[h next] frames]|] eqn:Ed; simplify_eq. by exists t, mem, at_, next, frames.
  - right. destruct (_ && _); [done|]. destruct (s_frames s !! i) as [f|] eqn:Ef; [|done].
    destruct (rw_calls f !! k) as [call|] eqn:Ec; [|done].
    destruct (child_answer call a (s_files s)) as [[r files']|] eqn:Ea; [|done].
    destruct (algo_cbk _ _ _ _ _ _) as [[[h f'] ret]|] eqn:Eb; simplify_eq. by exists i, k, a, f, call, r, f', ret.
Qed.

Lemma child_answer_ret call a files r files' :
  child_answer call a files = Some (r, files') ->
  (if a is A_fail _ then r_op_ret r = -1 else 0 <= r_op_ret r) /\ (not_write call -> files' = files).
Proof.
  unfold child_answer, not_write. destruct (hcall_op call), a; intros E; simplify_eq; try done; simpl;
    try case_bool_decide; try case_match; simplify_eq; simpl; split; (done || lia).
Qed.

Lemma diff_step_fails all c e s s' :
  h_op_failed (s_heal s) = false -> only_reads_fail all e s = true -> fire sh_diff c true e s = Next s' ->
  h_op_failed (s_heal s') = false.
Proof.
  unfold only_reads_fail. intros Hf [Hm He]%andb_true_iff Hs.
  destruct (fire_cases _ _ _ _ _ Hs) as [(t & mem & at_ & next & frames & -> & Hd & _)|(i & k & a & f & call & r & f' & ret & -> & Ef & Ec & Ea & Hd & _)].
  - simpl in Hm. subst mem. by destruct (diff_driver_reads _ _ _ _ _ _ Hd) as [-> _].
  - rewrite <-Hf. apply (diff_cbk_fails _ _ _ _ _ _ _ _ Hd). simpl in He. rewrite Ef in He. simpl in He. rewrite Ec in He. simpl in He.
    apply child_answer_ret in Ea as [Ea _]. destruct (hcall_op call); [right; eauto|left..]; by destruct a.
Qed.

Lemma diff_step_files c files e s s' :
  Forall no_writes (s_frames s) /\ s_files s = files -> only_reads_fail true e s = true -> fire sh_diff c true e s = Next s' ->
  Forall no_writes (s_frames s') /\ s_files s' = files.
Proof.
  unfold only_reads_fail. intros [Hw Hf] [Hm He]%andb_true_iff Hs.
  destruct (fire_cases _ _ _ _ _ Hs) as [(t & mem & at_ & next & frames & -> & Hd & -> & ->)|(i & k & a & f & call & r & f' & ret & -> & Ef & Ec & Ea & Hd & ->)].
  - simpl in Hm. subst mem. split; [|done]. apply Forall_app. by destruct (diff_driver_reads _ _ _ _ _ _ Hd).
  - simpl in He. rewrite Ef in He. simpl in He. rewrite Ec in He. simpl in He.
    pose proof (Forall_lookup_1 _ _ _ _ Hw Ef) as Hwf. pose proof (Forall_lookup_1 _ _ _ _ Hwf Ec) as Hwc.
    apply child_answer_ret in Ea as [Ea Efiles]. rewrite (Efiles Hwc). split; [|done]. rewrite !Forall_app. split_and!; [by apply Forall_take| |by apply Forall_drop].
    destruct ret; [constructor|]. constructor; [|constructor]. apply (diff_cbk_no_writes _ _ _ _ _ _ _ Hd Hwc); [by apply Forall_delete|].
    intros size o Eo. rewrite Eo in He. by destruct a.
Qed.

(** In the full algorithm a failed read is a failure of the heal, for good. *)
Lemma full_step_fails c e s s' :
  h_op_failed (s_heal s) = true \/ a_read_fails e s = true -> fire sh_full c true e s = Next s' -> h_op_failed (s_heal s') = true.
Proof.
  unfold a_read_fails. intros Hor Hs.
  destruct (fire_cases _ _ _ _ _ Hs) as [(t & mem & at_ & next & frames & -> & Hd & _)|(i & k & a & f & call & r & f' & ret & -> & Ef & Ec & Ea & Hd & _)].
  - destruct Hor as [Hf|]; [|done]. revert Hd Hf. generalize (s_heal s), (s_heal s'). simpl. intros h h' Hd Hf. unfold sh_full_loop_driver, loop_driver, sh_full_read_write in Hd.
    destruct at_, mem; cbk_cases Hd; done.
  - simpl in Hor. rewrite Ef in Hor. simpl in Hor. rewrite Ec in Hor. apply child_answer_ret in Ea as [Ea _].
    revert Hd Hor. generalize (s_heal s), (s_heal s'). simpl. intros h h' Hd Hor.
    unfold sh_full_read_cbk, sh_full_write_cbk, sh_full_loop_return in Hd.
    destruct (hcall_op call) as [size o|v o|o len]; [| |done].
    + destruct Hor as [Hf|Hr]; [cbk_cases Hd; done|]. destruct a; try done. rewrite Ea in Hd. simpl in Hd. by cbk_cases Hd.
    + destruct Hor as [Hf|]; [|done]. destruct (_ =? -1); cbk_cases Hd; done.
Qed.

(** *** The theorem *)

(** Reads fail; all else is done. *)
Definition unreadable (call : heal_call) (files : list file) : answer :=
  match hcall_op call with H_readv _ _ => A_fail [] | _ => A_ok [] end.

Lemma unreadable_answers call files : is_Some (child_answer call (unreadable call files) files).
Proof. unfold child_answer, unreadable. destruct (hcall_op call); eauto. Qed.

(** C40: A read of the source that fails is taken for the end of its block by the
    diff algorithm.  For every file and configuration and any run, with callbacks
    that run one after the other, in which reads fail but checksums, writes and
    allocations do not: no failure is noted, and the heal goes on, while it has
    not ended, within [heal_steps] steps, to the callback of a completed heal; and
    if every read fails, no file has changed, whatever the sinks hold.  The full
    algorithm is not so: in any run in which some read of the source has failed, the
    failure is noted and the heal does not complete. *)
Theorem diff_read_failure_ignored c files :
  conf_ok c -> length files = hc_child_count c ->
  (forall all es s,
    run sh_diff c true es (heal_start sh_diff c files) = Next s ->
    throughout sh_diff c (only_reads_fail all) es (heal_start sh_diff c files) = true ->
    h_op_failed (s_heal s) = false /\ (length es <= heal_steps true c)%nat /\ (all = true -> s_files s = files) /\
    (h_ended (s_heal s) = [true] \/
     h_ended (s_heal s) = [] /\ exists e s', only_reads_fail true e s = true /\ fire sh_diff c true e s = Next s')) /\
  (forall es s,
    run sh_full c true es (heal_start sh_full c files) = Next s ->
    sometime sh_full c a_read_fails es (heal_start sh_full c files) = true ->
    h_op_failed (s_heal s) = true /\ (h_ended (s_heal s) = [] \/ h_ended (s_heal s) = [false])).
Proof.
  intros Hc Hl. split.
  - intros all es s Hr Hall.
    pose proof (throughout_keeps _ _ _ (fun s => h_op_failed (s_heal s) = false) es (heal_start sh_diff c files) s (fun e s s' => diff_step_fails all c e s s') eq_refl Hall Hr) as Hf. cbv beta in Hf.
    pose proof (run_any sh_diff c files Hc es true true 0 _ ltac:(done) (start_inv sh_diff c files Hc true Hl)) as HI.
    rewrite Hr in HI. destruct HI as [HI Hw]. pose proof (start_weight true c files) as Hw0. simpl in Hw0. split_and!; [done|lia| |].
    + intros ->. apply (throughout_keeps _ _ _ (fun s => Forall no_writes (s_frames s) /\ s_files s = files) es (heal_start sh_diff c files) s (diff_step_files c files)); [by split; [constructor|]|done|done].
    + destruct HI as [(p & leaked & k & R & _)|(_ & b & E)].
      * right. split; [apply (ru_ended _ _ _ _ _ _ _ _ R)|]. assert (leaked = 0)%nat as ->.
        { destruct leaked; [done|]. rewrite (ru_leak _ _ _ _ _ _ _ _ R) in Hf; [done|lia]. }
        destruct (progress_by sh_diff c files Hc unreadable true s p k unreadable_answers R) as (e & s' & Hs' & He).
        exists e, s'. split; [|done]. destruct He as [->|(f & fs & call & cs & Ef & Ec & ->)]; [done|].
        unfold only_reads_fail, call_of, unreadable. rewrite Ef. simpl. rewrite Ec. simpl. by destruct (hcall_op call).
      * left. rewrite (en_ended _ _ _ _ _ E). rewrite (en_failed _ _ _ _ _ E) in Hf. by destruct b.
  - intros es s Hr Hsome.
    pose proof (sometime_gains _ _ _ (fun s => h_op_failed (s_heal s) = true) es _ s (full_step_fails c) (or_intror Hsome) Hr) as Hf. cbv beta in Hf.
    pose proof (run_any sh_full c files Hc es true true 0 _ ltac:(done) (start_inv sh_full c files Hc true Hl)) as HI.
    rewrite Hr in HI. destruct HI as [[(p & leaked & k & R & _)|(_ & b & E)] _]; (split; [done|]).
    + left. apply (ru_ended _ _ _ _ _ _ _ _ R).
    + right. rewrite (en_ended _ _ _ _ _ E). rewrite (en_failed _ _ _ _ _ E) in Hf. by destruct b.
Qed.

Definition failed_diff : hsys :=
  Eval vm_compute in final (run sh_diff two_bytes true (failed_read true) (start_of true two_bytes stale_files)) (start_of true two_bytes stale_files).
Definition failed_full : hsys :=
  Eval vm_compute in final (run sh_full two_bytes true (failed_read false) (start_of false two_bytes stale_files)) (start_of false two_bytes stale_files).

(** The sink has two bytes that the source does not have; the one read fails. *)
Lemma diff_read_failure_ignored_witness :
  (h_op_failed (s_heal failed_diff) = false /\ s_files failed_diff = stale_files) /\
  h_op_failed (s_heal failed_full) = true /\ h_ended (s_heal failed_diff) = [true].
Proof.
  destruct (diff_read_failure_ignored two_bytes stale_files) as [Hd Hfull]; [by apply small_conf_ok|done|].
  destruct (Hd true (failed_read true) failed_diff) as (Hf & _ & Hfiles & _); [by vm_compute|by vm_compute|].
  destruct (Hfull (failed_read false) failed_full) as [Hf' _]; [by vm_compute|by vm_compute|].
  split; [split; [exact Hf|by apply Hfiles]|]. split; [exact Hf'|by vm_compute].
Defined.

(** ** Holes *)

(** A source with a hole of a block and a sink with old data there. *)
Definition hole_conf : heal_conf := small_conf true 4.
Definition hole_files : list file := [[0; 0; 5; 6]; [7; 7; 5; 8]; []].

Definition hole_events (diff : bool) : list hevent := schedule 100 (heal_algo diff) hole_conf (start_of diff hole_conf hole_files).

(** Where the source has holes, a block of zeros is not written to a sink
    that has other data in it, in either algorithm (the diff algorithm even found
    that the checksums differ): every child does all it is asked to, the heal
    completes, and the sink is not the source. *)
Theorem holes_keep_stale_data :
  Forall (fun diff => exists s,
    honest_run (heal_algo diff) hole_conf (hole_events diff) (start_of diff hole_conf hole_files) = true /\
    run (heal_algo diff) hole_conf true (hole_events diff) (start_of diff hole_conf hole_files) = Next s /\
    h_ended (s_heal s) = [true] /\ file_of (s_files s) 0 = [0; 0; 5; 6] /\ ftruncate (file_of (s_files s) 1) 4 = [7; 7; 5; 6])
    [false; true].
Proof. repeat constructor; eexists; (split; [by vm_compute|split; [by vm_compute|by vm_compute]]). Qed.

(** ** Callbacks that do not wait for each other *)

Definition four_bytes : heal_conf := small_conf false 4.
Definition two_blocks : list file := [[1; 2; 3; 4]; []; []].

(** Children that answer within the call, as storage/posix does: the driver is
    within [spawn] when the loop it began returns, and the driver called from there
    begins the second loop, which returns as well and ends the heal. *)
Definition inline_events : list hevent :=
  [E_run 0 true; E_run 0 true; E_run 0 true; E_answer 0 0 (A_ok [[1; 2]]); E_answer 0 0 (A_ok []);
   E_run 1 true; E_run 1 true; E_run 1 true; E_answer 0 0 (A_ok [[3; 4]]); E_answer 0 0 (A_ok []);
   E_run 1 true; E_run 1 true].

(** Two threads: the first has found that nothing failed before the write of the
    second fails. *)
Definition race_events : list hevent :=
  [E_run 0 true; E_run 0 true; E_run 0 true; E_run 0 true;
   E_answer 0 0 (A_ok [[1; 2]]); E_answer 0 0 (A_ok []); E_run 0 true;
   E_answer 0 0 (A_ok [[3; 4]]); E_answer 0 0 (A_fail [1; 2]); E_run 0 true].

(** The driver relies on callbacks that run one after the other.  With
    children that answer within the call the heal of two blocks ends while [spawn]
    is still on the stack, which then takes the lock in the private data that was
    freed.  With two threads a heal is completed although a write has failed, with
    the sink not the source, and the other thread then reads the freed data. *)
Theorem heal_needs_turns :
  (exists s, run sh_full four_bytes false inline_events (heal_start sh_full four_bytes two_blocks) = Next s /\
     h_ended (s_heal s) = [true] /\ s_threads s = [[P_spawn]] /\ fire sh_full four_bytes false (E_run 0 true) s = Fault) /\
  (exists s, run sh_full four_bytes false race_events (heal_start sh_full four_bytes two_blocks) = Next s /\
     h_ended (s_heal s) = [true] /\ h_op_failed (s_heal s) = true /\ file_of (s_files s) 1 = [1; 2] /\
     run sh_full four_bytes false [E_run 0 true; E_run 0 true] s = Fault).
Proof. split; eexists; (split; [by vm_compute|by vm_compute]). Qed.
