(* ===== verification/AfrSelfHeal.v ===== *)
(** * cluster/afr: self-heal of a file

    Model of afr-self-heal-data.c, afr-self-heal-metadata.c and of the part of
    afr-self-heal-common.c that carries a heal out.  A self-heal first makes the
    missing entries, then heals metadata and then data (or the entries of a
    directory, AfrSelfHeal stops there); every stage locks, looks, fixes, takes its
    part out of the changelogs and unlocks.  A handler changes the state of the
    heal and starts calls; the last answer to a batch of calls goes on with the next
    function. *)

From stdpp Require Import base list numbers strings gmap.
From S2P Require Import Prelude ByteOrder AfrPending AfrTransaction AfrHealAlgo.
Open Scope Z_scope.

(** ** Data *)

(** What self-heal reads of [struct stat]; the times as one. *)
Record sh_stat := mk_ss {
  ss_size : Z; ss_blocks : Z; ss_mode : Z; ss_dev : Z; ss_uid : Z; ss_gid : Z; ss_times : Z
}.

Definition stat0 : sh_stat := mk_ss 0 0 0 0 0 0 0.
Definition attr_of (s : sh_stat) : iattr := mk_iattr (ss_size s) (ss_uid s).

Definition FILE_HAS_HOLES (s : sh_stat) : bool := ss_blocks s * 512 <? ss_size s.
Definition PERMISSION_DIFFERS (a b : sh_stat) : bool := negb (ss_mode a =? ss_mode b).
Definition OWNERSHIP_DIFFERS (a b : sh_stat) : bool := negb (ss_uid a =? ss_uid b) || negb (ss_gid a =? ss_gid b).

(** The private data of the translator that self-heal reads. *)
Record heal_priv := mk_hp {
  hp_priv : afr_private;
  hp_favorite_child : Z;
  hp_data_self_heal : bool;
  hp_metadata_self_heal : bool;
  hp_algorithm : string;          (* data_self_heal_algorithm *)
  hp_window : Z;
  hp_page_size : Z
}.

(** What does not change during a heal: [local], and what the caller of the heal has
    set in it. *)
Record heal_env := mk_he {
  he_child_up : list bool;
  he_need_data : bool;
  he_need_metadata : bool;
  he_fd_opened : bool;            (* healing_fd_opened *)
  he_lock_held : bool;            (* data_lock_held *)
  he_background : bool;
  he_mode : Z;
  he_is_root : bool;              (* loc.path is "/" *)
  he_enoent_count : Z
}.

Record heal_local := mk_hl {
  hl_call_count : Z;
  hl_govinda : bool;
  hl_buf : list sh_stat;
  hl_xattr : list (option xattrs);
  hl_child_errno : list Z;
  hl_sources : list Z;
  hl_source : Z;
  hl_active_sinks : Z;
  hl_success : list bool;
  hl_locked : list bool;
  hl_lock_count : Z;
  hl_op_failed : bool;
  hl_has_holes : bool;
  hl_block_size : Z;
  hl_file_size : Z;
  hl_fd : bool;                   (* healing_fd is set *)
  hl_unwound : bool
}.

Definition set_count (v : Z) (l : heal_local) : heal_local :=
  mk_hl v (hl_govinda l) (hl_buf l) (hl_xattr l) (hl_child_errno l) (hl_sources l) (hl_source l) (hl_active_sinks l) (hl_success l)
    (hl_locked l) (hl_lock_count l) (hl_op_failed l) (hl_has_holes l) (hl_block_size l) (hl_file_size l) (hl_fd l) (hl_unwound l).
Definition set_govinda (l : heal_local) : heal_local :=
  mk_hl (hl_call_count l) true (hl_buf l) (hl_xattr l) (hl_child_errno l) (hl_sources l) (hl_source l) (hl_active_sinks l) (hl_success l)
    (hl_locked l) (hl_lock_count l) (hl_op_failed l) (hl_has_holes l) (hl_block_size l) (hl_file_size l) (hl_fd l) (hl_unwound l).
Definition set_found (buf : list sh_stat) (xattr : list (option xattrs)) (errs : list Z) (l : heal_local) : heal_local :=
  mk_hl (hl_call_count l) (hl_govinda l) buf xattr errs (hl_sources l) (hl_source l) (hl_active_sinks l) (hl_success l)
    (hl_locked l) (hl_lock_count l) (hl_op_failed l) (hl_has_holes l) (hl_block_size l) (hl_file_size l) (hl_fd l) (hl_unwound l).
Definition set_sources (sources : list Z) (source : Z) (l : heal_local) : heal_local :=
  mk_hl (hl_call_count l) (hl_govinda l) (hl_buf l) (hl_xattr l) (hl_child_errno l) sources source (hl_active_sinks l) (hl_success l)
    (hl_locked l) (hl_lock_count l) (hl_op_failed l) (hl_has_holes l) (hl_block_size l) (hl_file_size l) (hl_fd l) (hl_unwound l).
Definition set_sinks (active : Z) (success : list bool) (l : heal_local) : heal_local :=
  mk_hl (hl_call_count l) (hl_govinda l) (hl_buf l) (hl_xattr l) (hl_child_errno l) (hl_sources l) (hl_source l) active success
    (hl_locked l) (hl_lock_count l) (hl_op_failed l) (hl_has_holes l) (hl_block_size l) (hl_file_size l) (hl_fd l) (hl_unwound l).
Definition set_locks (locked : list bool) (count : Z) (l : heal_local) : heal_local :=
  mk_hl (hl_call_count l) (hl_govinda l) (hl_buf l) (hl_xattr l) (hl_child_errno l) (hl_sources l) (hl_source l) (hl_active_sinks l)
    (hl_success l) locked count (hl_op_failed l) (hl_has_holes l) (hl_block_size l) (hl_file_size l) (hl_fd l) (hl_unwound l).
Definition set_failed (l : heal_local) : heal_local :=
  mk_hl (hl_call_count l) (hl_govinda l) (hl_buf l) (hl_xattr l) (hl_child_errno l) (hl_sources l) (hl_source l) (hl_active_sinks l)
    (hl_success l) (hl_locked l) (hl_lock_count l) true (hl_has_holes l) (hl_block_size l) (hl_file_size l) (hl_fd l) (hl_unwound l).
Definition set_file (holes : bool) (block size : Z) (l : heal_local) : heal_local :=
  mk_hl (hl_call_count l) (hl_govinda l) (hl_buf l) (hl_xattr l) (hl_child_errno l) (hl_sources l) (hl_source l) (hl_active_sinks l)
    (hl_success l) (hl_locked l) (hl_lock_count l) (hl_op_failed l) holes block size (hl_fd l) (hl_unwound l).
Definition set_fd (fd : bool) (l : heal_local) : heal_local :=
  mk_hl (hl_call_count l) (hl_govinda l) (hl_buf l) (hl_xattr l) (hl_child_errno l) (hl_sources l) (hl_source l) (hl_active_sinks l)
    (hl_success l) (hl_locked l) (hl_lock_count l) (hl_op_failed l) (hl_has_holes l) (hl_block_size l) (hl_file_size l) fd (hl_unwound l).
Definition set_unwound (l : heal_local) : heal_local :=
  mk_hl (hl_call_count l) (hl_govinda l) (hl_buf l) (hl_xattr l) (hl_child_errno l) (hl_sources l) (hl_source l) (hl_active_sinks l)
    (hl_success l) (hl_locked l) (hl_lock_count l) (hl_op_failed l) (hl_has_holes l) (hl_block_size l) (hl_file_size l) (hl_fd l) true.

(** ** Calls *)

Inductive lock_op := LK_LOCK | LK_WAIT | LK_UNLOCK.     (* F_SETLK, F_SETLKW, F_UNLCK *)

Inductive sh_call :=
  | S_entrylk (op : lock_op)
  | S_inodelk (op : lock_op)
  | S_lookup
  | S_mknod (mode dev : Z)
  | S_mkdir (mode : Z)
  | S_readlink
  | S_symlink (link : string)
  | S_setattr (st : sh_stat) (valid : Z)
  | S_parent_setattr
  | S_getxattr
  | S_setxattr (xattr : xattrs)
  | S_xattrop (xattr : xattrs)
  | S_open
  | S_fxattrop_get
  | S_fstat
  | S_ftruncate (size : Z)
  | S_fxattrop (xattr : xattrs)
  | S_flush.

(** The callbacks. *)
Inductive sh_cbk :=
  | CB_missing_lk | CB_missing_lookup | CB_readlink | CB_newentry | CB_destroy | CB_missing_unlck
  | CB_meta_lk | CB_meta_lookup | CB_getxattr | CB_meta_sync | CB_meta_erase | CB_meta_unlck
  | CB_open | CB_data_lock | CB_fxattrop | CB_fstat | CB_trim | CB_data_erase | CB_data_unlck | CB_flush.

Inductive sh_action :=
  | SA_wind (cbk : sh_cbk) (child : nat) (cookie : nat) (call : sh_call)
  | SA_algorithm (diff : bool) (c : heal_conf)
  | SA_read_child (child : Z)
  | SA_found_size (size : Z)            (* orig_local->cont.lookup.buf.st_size *)
  | SA_fd_unref
  | SA_unwind
  | SA_entry                            (* afr_self_heal_entry *)
  | SA_split_brain
  | SA_completion.

Abbreviation sh_result := (heal_local * list sh_action)%type.

(** [a] is done before what follows. *)
Definition after (a : list sh_action) (r : sh_result) : sh_result := (r.1, a ++ r.2).

Definition GF_SET_ATTR_MODE : Z := 1.
Definition GF_SET_ATTR_UID : Z := 2.
Definition GF_SET_ATTR_GID : Z := 4.
Definition GF_SET_ATTR_ATIME : Z := 16.
Definition GF_SET_ATTR_MTIME : Z := 32.

Section SelfHeal.
Context (hp : heal_priv) (he : heal_env).

Abbreviation count := (child_count (hp_priv hp)).
Abbreviation keys := (pending_key (hp_priv hp)).

Definition is_up (i : nat) : bool := nth i (he_child_up he) false.
Definition is_source (l : heal_local) (i : nat) : bool := negb (nth i (hl_sources l) 0 =? 0).
Definition to_heal (l : heal_local) (i : nat) : bool := negb (is_source l i || negb (is_up i)).
Definition buf_of (l : heal_local) (i : Z) : sh_stat := nth (Z.to_nat i) (hl_buf l) stat0.

Definition wind (want : nat -> bool) (mk : nat -> sh_action) (n : Z) (l : heal_local) : sh_result :=
  (set_count (u32 n) l, wind_loop want mk count 0 n).

(** [afr_frame_return], then [next] after the last answer. *)
Definition frame_returned (l : heal_local) (next : heal_local -> sh_result) : sh_result :=
  let l := set_count (u32 (hl_call_count l - 1)) l in
  if hl_call_count l =? 0 then next l else (l, []).

(** ** Data: the end *)

(** [afr_self_heal_completion_cbk]; the frame is destroyed. *)
Definition afr_self_heal_completion_cbk (l : heal_local) : sh_result :=
  (set_unwound l, (if hl_govinda l then [SA_split_brain] else []) ++ (if hl_unwound l then [] else [SA_unwind]) ++ [SA_completion]).

Definition afr_sh_data_done (l : heal_local) : sh_result :=
  let '(l, a) := if hl_fd l && negb (he_fd_opened he) then (set_fd false l, [SA_fd_unref]) else (l, []) in
  after a (afr_self_heal_completion_cbk (set_locks (replicate count false) (hl_lock_count l) l)).

Definition afr_sh_data_flush_cbk (l : heal_local) : sh_result := frame_returned l afr_sh_data_done.

(** The calls to a child: flush and setattr. *)
Definition close_child (st : sh_stat) (i : nat) : list sh_action :=
  [SA_wind CB_flush i i S_flush; SA_wind CB_flush i i (S_setattr st (Z.lor GF_SET_ATTR_ATIME GF_SET_ATTR_MTIME))].

Fixpoint close_loop (l : heal_local) (st : sh_stat) (todo i : nat) (call_count : Z) : list sh_action :=
  match todo with
  | O => []
  | S todo =>
      if to_heal l i
      then close_child st i ++ (if call_count - 2 =? 0 then [] else close_loop l st todo (S i) (call_count - 2))
      else close_loop l st todo (S i) call_count
  end.

Definition afr_sh_data_close (l : heal_local) : sh_result :=
  let st := mk_ss 0 0 0 0 0 0 (ss_times (buf_of l (hl_source l))) in
  if he_fd_opened he then afr_sh_data_done l
  else if negb (hl_fd l) then afr_sh_data_done l
  else
    let call_count := (hl_active_sinks l + 1) * 2 in
    (set_count (u32 call_count) l,
     close_child st (Z.to_nat (hl_source l)) ++ (if call_count - 2 =? 0 then [] else close_loop l st count 0 (call_count - 2))).

Definition afr_sh_data_unlck_cbk (l : heal_local) : sh_result := frame_returned l afr_sh_data_close.

Definition locked_count (l : heal_local) : Z := Z.of_nat (length (List.filter id (take count (hl_locked l)))).

Definition afr_sh_data_unlock (l : heal_local) : sh_result :=
  if he_lock_held he then afr_sh_data_close l
  else if locked_count l =? 0 then afr_sh_data_close l
  else wind (fun i => nth i (hl_locked l) false) (fun i => SA_wind CB_data_unlck i i (S_inodelk LK_UNLOCK)) (locked_count l) l.

Definition afr_sh_data_finish (l : heal_local) : sh_result := afr_sh_data_unlock l.

(** ** Data: the changelogs *)

Definition afr_sh_data_erase_pending_cbk (l : heal_local) : sh_result := frame_returned l afr_sh_data_finish.

(** The additions for the children that have a changelog. *)
Definition erase_xattr (l : heal_local) (type : afr_transaction_type) : list (option xattrs) :=
  afr_sh_delta_to_xattr keys (afr_sh_pending_to_delta keys (hl_xattr l) (hl_success l) type)
    (map (fun x : option xattrs => match x with Some _ => Some ∅ | None => None end) (hl_xattr l)) type.

Definition has_xattr (l : heal_local) (i : nat) : bool := match nth i (hl_xattr l) None with Some _ => true | None => false end.

Definition xattr_count (l : heal_local) : Z := Z.of_nat (length (List.filter (has_xattr l) (seq 0 count))).

Definition afr_sh_data_erase_pending (l : heal_local) : sh_result :=
  let xs := erase_xattr l AFR_DATA_TRANSACTION in
  wind (has_xattr l) (fun i => SA_wind CB_data_erase i i (S_fxattrop (default ∅ (nth i xs None)))) (xattr_count l) l.

Definition afr_sh_data_trim_cbk (l : heal_local) : sh_result := frame_returned l afr_sh_data_erase_pending.

Definition afr_sh_data_trim_sinks (l : heal_local) : sh_result :=
  wind (to_heal l) (fun i => SA_wind CB_trim i i (S_ftruncate (hl_file_size l))) (hl_active_sinks l) l.

(** ** Data: choosing the algorithm *)

(** [true] is "diff", [false] "full"; [None] any other name. *)
Definition sh_algo_from_name (name : string) : option bool :=
  if String.eqb name "full" then Some false else if String.eqb name "diff" then Some true else None.

Definition sh_zero_byte_files_exist (l : heal_local) : bool :=
  existsb (fun i => ss_size (nth i (hl_buf l) stat0) =? 0) (seq 0 count).

Definition afr_sh_data_pick_algo (l : heal_local) : bool :=
  match sh_algo_from_name (hp_algorithm hp) with
  | Some diff => diff
  | None =>
      negb (negb (he_enoent_count he =? 0) || sh_zero_byte_files_exist l || (hl_file_size l <=? hp_window hp * hp_page_size hp))
  end.

Definition conf_of (l : heal_local) : heal_conf :=
  mk_hc count (hp_window hp) (hp_page_size hp) (he_child_up he) (hl_sources l) (Z.to_nat (hl_source l)) (hl_active_sinks l)
    (hl_block_size l) (hl_file_size l) (hl_has_holes l).

Definition sink_count (l : heal_local) : Z := Z.of_nat (length (List.filter (to_heal l) (seq 0 count))).

(** [success] is set for the sinks and for the source. *)
Definition mark_success (l : heal_local) : list bool :=
  <[Z.to_nat (hl_source l) := true]> (imap (fun i s => if to_heal l i then true else s) (hl_success l)).

Definition afr_sh_data_sync_prepare (l : heal_local) : sh_result :=
  let active := sink_count l in
  let success := mark_success l in
  if active =? 0 then afr_sh_data_finish (set_sinks (hl_active_sinks l) success l)
  else
    let l := set_sinks active success l in
    (l, [SA_algorithm (afr_sh_data_pick_algo l) (conf_of l)]).

(** The algorithm has called [algo_completion_cbk] or [algo_abort_cbk]. *)
Definition algorithm_ended (completed : bool) (l : heal_local) : sh_result :=
  if completed then afr_sh_data_trim_sinks l else afr_sh_data_finish l.

(** ** Data: looking and locking *)

(** The matrix and the sources by the changelogs, for one kind of heal. *)
Definition find_sources (l : heal_local) (type : afr_transaction_type) (kind : afr_self_heal_type) : list Z * Z :=
  let m := afr_sh_build_pending_matrix keys (hl_xattr l) type in
  let '(sh, nsources) := afr_sh_mark_sources (mk_sh (Some (map attr_of (hl_buf l))) m (hl_sources l)) count kind in
  (afr_sh_supress_errenous_children (sh_sources sh) (hl_child_errno l), nsources).

(** The favorite child decides a conflict. *)
Definition pick_favorite (l : heal_local) (sources : list Z) (nsources : Z) : list Z * Z :=
  if (nsources =? -1) && negb (hp_favorite_child hp =? -1) && (nth (Z.to_nat (hp_favorite_child hp)) (hl_child_errno l) 0 =? 0)
  then let sources := <[Z.to_nat (hp_favorite_child hp) := 1]> sources in (sources, afr_sh_source_count sources)
  else (sources, nsources).

(** "detect changes not visible through pending flags": a child that differs from
    the source is none. *)
Definition drop_sources (l : heal_local) (source : Z) (differs : sh_stat -> sh_stat -> bool) (sources : list Z) : list Z :=
  imap (fun i s => if (Z.of_nat i =? source) || negb (nth i (hl_child_errno l) 0 =? 0) then s
                   else if differs (nth i (hl_buf l) stat0) (buf_of l source) then 0 else s) sources.

Definition afr_sh_data_fix (l : heal_local) : sh_result :=
  let '(sources, nsources) := find_sources l AFR_DATA_TRANSACTION AFR_SELF_HEAL_DATA in
  let l := set_sources sources (hl_source l) l in
  if nsources =? 0 then afr_sh_data_finish l
  else
    let '(sources, nsources) := pick_favorite l sources nsources in
    let l := set_sources sources (hl_source l) l in
    if nsources =? -1 then afr_sh_data_finish (set_govinda l)
    else
      let source := afr_sh_select_source sources in
      if source =? -1 then afr_sh_data_finish l
      else
        let l := set_sources sources source l in
        let l := set_file (FILE_HAS_HOLES (buf_of l source) || hl_has_holes l) 65536 (ss_size (buf_of l source)) l in
        let found := SA_found_size (hl_file_size l) in
        let l := set_sources (drop_sources l source (fun a b => SIZE_DIFFERS (attr_of a) (attr_of b)) sources) source l in
        let '(l, a) := if he_background he then (set_unwound l, [SA_unwind]) else (l, []) in
        after ([found; SA_read_child source] ++ a) (afr_sh_data_sync_prepare l).

(** For the caller of a lookup: the source by the changelogs alone. *)
Definition afr_self_heal_get_source (xattr : list (option xattrs)) : Z :=
  let m := afr_sh_build_pending_matrix keys xattr AFR_DATA_TRANSACTION in
  afr_sh_select_source (sh_sources (afr_sh_mark_sources (mk_sh None m (replicate count 0)) count AFR_SELF_HEAL_DATA).1).

(** What a child answers: what the callbacks read of it. *)
Record sh_reply := mk_sr { sr_ret : Z; sr_errno : Z; sr_buf : sh_stat; sr_xattr : option xattrs; sr_link : string }.

Definition afr_sh_data_fstat_cbk (child : nat) (r : sh_reply) (l : heal_local) : sh_result :=
  let l := if sr_ret r =? -1 then l else set_found (<[child := sr_buf r]> (hl_buf l)) (hl_xattr l) (hl_child_errno l) l in
  frame_returned l afr_sh_data_fix.

Definition up_count : Z := afr_up_children_count (he_child_up he).

Definition afr_sh_data_fstat (l : heal_local) : sh_result := wind is_up (fun i => SA_wind CB_fstat i i S_fstat) up_count l.

Definition afr_sh_data_fxattrop_cbk (child : nat) (r : sh_reply) (l : heal_local) : sh_result :=
  let l := if sr_ret r =? -1 then l else set_found (hl_buf l) (<[child := sr_xattr r]> (hl_xattr l)) (hl_child_errno l) l in
  frame_returned l afr_sh_data_fstat.

Definition afr_sh_data_fxattrop (l : heal_local) : sh_result := wind is_up (fun i => SA_wind CB_fxattrop i i S_fxattrop_get) up_count l.

(** The children that are down are passed over. *)
Fixpoint skip_down (todo i : nat) : nat :=
  match todo with O => i | S todo => if is_up i then i else skip_down todo (S i) end.

(** The call goes to [priv->children[i]], and [i] is 0. *)
Definition afr_sh_data_lock_rec (child_index : nat) (l : heal_local) : sh_result :=
  let child_index := skip_down (count - child_index) child_index in
  if (child_index =? count)%nat && (hl_lock_count l =? 0) then afr_sh_data_done l
  else if (child_index =? count)%nat || (hl_lock_count l =? afr_lock_server_count (hp_priv hp) AFR_DATA_TRANSACTION)
  then afr_sh_data_fxattrop l
  else (l, [SA_wind CB_data_lock 0 child_index (S_inodelk LK_WAIT)]).

Definition afr_sh_data_lock_cbk (child_index : nat) (r : sh_reply) (l : heal_local) : sh_result :=
  let l := if sr_ret r =? -1 then set_locks (<[child_index := false]> (hl_locked l)) (hl_lock_count l) l
           else set_locks (<[child_index := true]> (hl_locked l)) (hl_lock_count l + 1) l in
  afr_sh_data_lock_rec (S child_index) l.

Definition afr_sh_data_lock (l : heal_local) : sh_result :=
  if he_lock_held he then afr_sh_data_fxattrop l
  else afr_sh_data_lock_rec 0 (set_locks (replicate count false) (hl_lock_count l) l).

Definition afr_sh_data_open_cbk (r : sh_reply) (l : heal_local) : sh_result :=
  let l := if sr_ret r =? -1 then set_failed l else l in
  frame_returned l (fun l => if hl_op_failed l then afr_sh_data_finish l else afr_sh_data_lock l).

Definition afr_sh_data_open (l : heal_local) : sh_result :=
  if he_fd_opened he then afr_sh_data_lock l
  else wind is_up (fun i => SA_wind CB_open i i S_open) up_count (set_fd true l).

Definition afr_self_heal_data (l : heal_local) : sh_result :=
  if he_need_data he && hp_data_self_heal hp then afr_sh_data_open l else afr_sh_data_done l.

(** ** Metadata *)

Definition S_IFMT : Z := 61440.
Definition S_IFSOCK : Z := 49152.
Definition S_IFLNK : Z := 40960.
Definition S_IFREG : Z := 32768.
Definition S_IFBLK : Z := 24576.
Definition S_IFDIR : Z := 16384.
Definition S_IFCHR : Z := 8192.
Definition S_IFIFO : Z := 4096.

Definition file_type (mode : Z) : Z := Z.land mode S_IFMT.

(** The results of a stage are forgotten. *)
Definition forget (l : heal_local) : heal_local := set_found (replicate count stat0) (replicate count None) (hl_child_errno l) l.

Definition afr_sh_metadata_done (l : heal_local) : sh_result :=
  let l := set_sinks (hl_active_sinks l) (replicate count false) (forget l) in
  let l := set_locks (replicate count true) (hl_lock_count l) l in
  if hl_govinda l then afr_self_heal_completion_cbk l
  else if file_type (he_mode he) =? S_IFREG then afr_self_heal_data l
  else if file_type (he_mode he) =? S_IFDIR then (l, [SA_entry])
  else afr_self_heal_completion_cbk l.

Definition afr_sh_metadata_unlck_cbk (l : heal_local) : sh_result := frame_returned l afr_sh_metadata_done.

Definition afr_sh_metadata_finish (l : heal_local) : sh_result :=
  if locked_count l =? 0 then afr_sh_metadata_done l
  else wind (fun i => nth i (hl_locked l) false) (fun i => SA_wind CB_meta_unlck i i (S_inodelk LK_UNLOCK)) (locked_count l) l.

Definition afr_sh_metadata_erase_pending_cbk (l : heal_local) : sh_result := frame_returned l afr_sh_metadata_finish.

Definition afr_sh_metadata_erase_pending (l : heal_local) : sh_result :=
  let xs := erase_xattr l AFR_METADATA_TRANSACTION in
  if xattr_count l =? 0 then afr_sh_metadata_finish (set_count 0 l)
  else wind (has_xattr l) (fun i => SA_wind CB_meta_erase i i (S_xattrop (default ∅ (nth i xs None)))) (xattr_count l) l.

(** Answers to setattr and to setxattr. *)
Definition afr_sh_metadata_sync_cbk (child : nat) (r : sh_reply) (l : heal_local) : sh_result :=
  let l := if sr_ret r =? -1 then set_sinks (hl_active_sinks l) (<[child := false]> (hl_success l)) l else l in
  frame_returned l afr_sh_metadata_erase_pending.

(** The loop of [afr_sh_metadata_sync]. *)
Fixpoint sync_loop (l : heal_local) (st : sh_stat) (xattr : option xattrs) (todo i : nat) (call_count : Z) : list sh_action :=
  match todo with
  | O => []
  | S todo =>
      if call_count =? 0 then []
      else if to_heal l i then
        SA_wind CB_meta_sync i i (S_setattr st (Z.lor GF_SET_ATTR_MODE (Z.lor GF_SET_ATTR_UID (Z.lor GF_SET_ATTR_GID
          (Z.lor GF_SET_ATTR_ATIME GF_SET_ATTR_MTIME)))))
        :: match xattr with
           | None => sync_loop l st xattr todo (S i) (call_count - 1)
           | Some x => SA_wind CB_meta_sync i i (S_setxattr x) :: sync_loop l st xattr todo (S i) (call_count - 2)
           end
      else sync_loop l st xattr todo (S i) call_count
  end.

Definition afr_sh_metadata_sync (xattr : option xattrs) (l : heal_local) : sh_result :=
  let call_count := match xattr with Some _ => hl_active_sinks l * 2 | None => hl_active_sinks l end in
  let b := buf_of l (hl_source l) in
  let st := mk_ss 0 0 (ss_mode b) 0 (ss_uid b) (ss_gid b) (ss_times b) in
  (set_count (u32 call_count) l, sync_loop l st xattr count 0 call_count).

Definition afr_sh_metadata_getxattr_cbk (r : sh_reply) (l : heal_local) : sh_result :=
  if sr_ret r =? -1 then afr_sh_metadata_sync None l
  else afr_sh_metadata_sync (Some (foldl (fun d k => delete k d) (default ∅ (sr_xattr r)) keys)) l.

Definition afr_sh_metadata_sync_prepare (l : heal_local) : sh_result :=
  let active := sink_count l in
  let success := mark_success l in
  if active =? 0 then afr_sh_metadata_finish (set_sinks (hl_active_sinks l) success l)
  else (set_sinks active success l, [SA_wind CB_getxattr (Z.to_nat (hl_source l)) 0 S_getxattr]).

Definition afr_sh_metadata_fix (l : heal_local) : sh_result :=
  let '(sources, nsources) := find_sources l AFR_METADATA_TRANSACTION AFR_SELF_HEAL_METADATA in
  let l := set_sources sources (hl_source l) l in
  if nsources =? 0 then afr_sh_metadata_finish l
  else
    let '(sources, nsources) := pick_favorite l sources nsources in
    let l := set_sources sources (hl_source l) l in
    if nsources =? -1 then afr_sh_metadata_finish (set_govinda l)
    else
      let source := afr_sh_select_source sources in
      if source =? -1 then afr_sh_metadata_finish l
      else
        let sources := drop_sources l source (fun a b => PERMISSION_DIFFERS a b || OWNERSHIP_DIFFERS a b) sources in
        afr_sh_metadata_sync_prepare (set_sources sources source l).

Definition afr_sh_metadata_lookup_cbk (child : nat) (r : sh_reply) (l : heal_local) : sh_result :=
  let l := if sr_ret r =? 0
           then set_found (<[child := sr_buf r]> (hl_buf l))
                  (match sr_xattr r with Some _ => <[child := sr_xattr r]> (hl_xattr l) | None => hl_xattr l end) (hl_child_errno l) l
           else set_found (hl_buf l) (hl_xattr l) (<[child := sr_errno r]> (hl_child_errno l)) l in
  frame_returned l afr_sh_metadata_fix.

Definition afr_sh_metadata_lookup (l : heal_local) : sh_result := wind is_up (fun i => SA_wind CB_meta_lookup i i S_lookup) up_count l.

Definition afr_sh_metadata_lk_cbk (child : nat) (r : sh_reply) (l : heal_local) : sh_result :=
  let l := if sr_ret r =? -1 then set_failed (set_locks (<[child := false]> (hl_locked l)) (hl_lock_count l) l)
           else set_locks (<[child := true]> (hl_locked l)) (hl_lock_count l) l in
  frame_returned l (fun l => if hl_op_failed l then afr_sh_metadata_finish l else afr_sh_metadata_lookup l).

Definition afr_sh_metadata_lock (l : heal_local) : sh_result :=
  wind is_up (fun i => SA_wind CB_meta_lk i i (S_inodelk LK_LOCK)) up_count l.

Definition afr_self_heal_metadata (l : heal_local) : sh_result :=
  if he_need_metadata he && hp_metadata_self_heal hp then afr_sh_metadata_lock l else afr_sh_metadata_done l.

(** ** Missing entries *)

Definition afr_sh_missing_entries_done (l : heal_local) : sh_result :=
  let l := set_locks (replicate count false) (hl_lock_count l) (forget l) in
  if hl_govinda l then afr_self_heal_completion_cbk l else afr_self_heal_metadata l.

Definition sh_missing_entries_unlck_cbk (l : heal_local) : sh_result := frame_returned l afr_sh_missing_entries_done.

Definition sh_missing_entries_finish (l : heal_local) : sh_result :=
  if locked_count l =? 0 then afr_sh_missing_entries_done l
  else wind (fun i => nth i (hl_locked l) false) (fun i => SA_wind CB_missing_unlck i i (S_entrylk LK_UNLOCK)) (locked_count l) l.

(** The attributes of a new entry and of its parent are set on a frame of their own,
    whose answers are not waited for. *)
Definition sh_missing_entries_newentry_cbk (child : nat) (r : sh_reply) (l : heal_local) : sh_result :=
  let b := buf_of l (hl_source l) in
  let st := mk_ss 0 0 0 0 (ss_uid b) (ss_gid b) (ss_times b) in
  let valid := Z.lor GF_SET_ATTR_UID (Z.lor GF_SET_ATTR_GID (Z.lor GF_SET_ATTR_ATIME GF_SET_ATTR_MTIME)) in
  let a := if sr_ret r =? 0 then [SA_wind CB_destroy child 0 (S_setattr st valid); SA_wind CB_destroy child 1 S_parent_setattr] else [] in
  after a (frame_returned l sh_missing_entries_finish).

Definition is_missing (l : heal_local) (i : nat) : bool := nth i (hl_child_errno l) 0 =? ENOENT.
Definition missing_count (l : heal_local) : Z := Z.of_nat (length (List.filter (is_missing l) (seq 0 count))).

Definition sh_missing_entries_mknod (l : heal_local) : sh_result :=
  let b := buf_of l (hl_source l) in
  wind (is_missing l) (fun i => SA_wind CB_newentry i i (S_mknod (ss_mode b) (ss_dev b))) (missing_count l) l.

(** The root is not made. *)
Definition sh_missing_entries_mkdir (l : heal_local) : sh_result :=
  let b := buf_of l (hl_source l) in
  if he_is_root he && negb (missing_count l =? 0) then sh_missing_entries_finish (set_count (u32 (missing_count l)) l)
  else wind (is_missing l) (fun i => SA_wind CB_newentry i i (S_mkdir (ss_mode b))) (missing_count l) l.

Definition sh_missing_entries_symlink (link : string) (l : heal_local) : sh_result :=
  wind (is_missing l) (fun i => SA_wind CB_newentry i i (S_symlink link)) (missing_count l) l.

Definition sh_missing_entries_readlink_cbk (r : sh_reply) (l : heal_local) : sh_result :=
  if 0 <? sr_ret r then sh_missing_entries_symlink (sr_link r) l else sh_missing_entries_finish l.

Definition sh_missing_entries_readlink (l : heal_local) : sh_result :=
  (l, [SA_wind CB_readlink (Z.to_nat (hl_source l)) 0 S_readlink]).

(** The loop over the children: the source, the type of the file (0 if there is
    none yet) and whether types differ. *)
Fixpoint compare_types (l : heal_local) (todo i : nat) (source type : Z) (differ : bool) : Z * Z * bool :=
  match todo with
  | O => (source, type, differ)
  | S todo =>
      if negb (nth i (hl_child_errno l) 0 =? 0) then compare_types l todo (S i) source type differ
      else
        let t := file_type (ss_mode (nth i (hl_buf l) stat0)) in
        if negb (type =? 0) then compare_types l todo (S i) source type (differ || negb (type =? t))
        else compare_types l todo (S i) (Z.of_nat i) t differ
  end.

Definition sh_missing_entries_create (l : heal_local) : sh_result :=
  let '(source, type, differ) := compare_types l count 0 (hl_source l) 0 false in
  let l := set_sources (hl_sources l) source l in
  if differ then sh_missing_entries_finish (set_govinda l)
  else if type =? 0 then sh_missing_entries_finish l
  else if missing_count l =? 0 then sh_missing_entries_finish l
  else if existsb (Z.eqb type) [S_IFSOCK; S_IFREG; S_IFBLK; S_IFCHR; S_IFIFO] then sh_missing_entries_mknod l
  else if type =? S_IFLNK then sh_missing_entries_readlink l
  else if type =? S_IFDIR then sh_missing_entries_mkdir l
  else sh_missing_entries_finish (set_govinda l).

Definition sh_missing_entries_lookup_cbk (child : nat) (r : sh_reply) (l : heal_local) : sh_result :=
  let l := if sr_ret r =? 0 then set_found (<[child := sr_buf r]> (hl_buf l)) (hl_xattr l) (hl_child_errno l) l
           else set_found (hl_buf l) (hl_xattr l) (<[child := sr_errno r]> (hl_child_errno l)) l in
  frame_returned l sh_missing_entries_create.

Definition sh_missing_entries_lookup (l : heal_local) : sh_result :=
  wind is_up (fun i => SA_wind CB_missing_lookup i i S_lookup) up_count l.

Definition sh_missing_entries_lk_cbk (child : nat) (r : sh_reply) (l : heal_local) : sh_result :=
  let l := if sr_ret r =? -1 then set_failed (set_locks (<[child := false]> (hl_locked l)) (hl_lock_count l) l)
           else set_locks (<[child := true]> (hl_locked l)) (hl_lock_count l) l in
  frame_returned l (fun l => if hl_op_failed l then sh_missing_entries_finish l else sh_missing_entries_lookup l).

Definition afr_self_heal_missing_entries (l : heal_local) : sh_result :=
  wind is_up (fun i => SA_wind CB_missing_lk i i (S_entrylk LK_LOCK)) up_count l.

(** ** The start *)

(** The local of a new heal.  [fd]: the caller has given an fd. *)
Definition new_heal (fd : bool) : heal_local :=
  mk_hl 0 false (replicate count stat0) (replicate count None) (replicate count 0) (replicate count 0) 0 0 (replicate count false)
    (replicate count false) 0 false false 0 0 fd false.

(** [missing]: a lookup has found the file on some children and not on others. *)
Definition afr_self_heal (fd missing : bool) : sh_result :=
  if missing then afr_self_heal_missing_entries (new_heal fd) else afr_sh_missing_entries_done (new_heal fd).

(** ** Answers *)

Definition sh_answer (cbk : sh_cbk) (cookie : nat) (r : sh_reply) (l : heal_local) : sh_result :=
  match cbk with
  | CB_missing_lk => sh_missing_entries_lk_cbk cookie r l
  | CB_missing_lookup => sh_missing_entries_lookup_cbk cookie r l
  | CB_readlink => sh_missing_entries_readlink_cbk r l
  | CB_newentry => sh_missing_entries_newentry_cbk cookie r l
  | CB_destroy => (l, [])
  | CB_missing_unlck => sh_missing_entries_unlck_cbk l
  | CB_meta_lk => afr_sh_metadata_lk_cbk cookie r l
  | CB_meta_lookup => afr_sh_metadata_lookup_cbk cookie r l
  | CB_getxattr => afr_sh_metadata_getxattr_cbk r l
  | CB_meta_sync => afr_sh_metadata_sync_cbk cookie r l
  | CB_meta_erase => afr_sh_metadata_erase_pending_cbk l
  | CB_meta_unlck => afr_sh_metadata_unlck_cbk l
  | CB_open => afr_sh_data_open_cbk r l
  | CB_data_lock => afr_sh_data_lock_cbk cookie r l
  | CB_fxattrop => afr_sh_data_fxattrop_cbk cookie r l
  | CB_fstat => afr_sh_data_fstat_cbk cookie r l
  | CB_trim => afr_sh_data_trim_cbk l
  | CB_data_erase => afr_sh_data_erase_pending_cbk l
  | CB_data_unlck => afr_sh_data_unlck_cbk l
  | CB_flush => afr_sh_data_flush_cbk l
  end.

(** ** Runs *)

(** A heal with the calls that are not answered, everything it has done so far and
    how its algorithm ended. *)
Record sh_sys := mk_sys { sy_local : heal_local; sy_calls : list sh_action; sy_log : list sh_action; sy_ran : option bool }.

Definition is_call (a : sh_action) : bool := match a with SA_wind _ _ _ _ | SA_algorithm _ _ => true | _ => false end.

Definition calls_of (a : list sh_action) : list sh_action := List.filter is_call a.

Definition sys_of (r : sh_result) : sh_sys := mk_sys r.1 (calls_of r.2) r.2 None.

(** One call is answered: the [k]th by the reply [r], or, if it is the algorithm, by
    its end. *)
Definition sh_event : Type := nat * sh_reply.

Definition sh_next (s : sh_sys) (ran : option bool) (k : nat) (r : sh_result) : sh_sys :=
  mk_sys r.1 (delete k (sy_calls s) ++ calls_of r.2) (sy_log s ++ r.2) ran.

Definition sh_step (s : sh_sys) (e : sh_event) : option sh_sys :=
  let '(k, r) := e in
  match sy_calls s !! k with
  | Some (SA_wind cbk _ cookie _) => Some (sh_next s (sy_ran s) k (sh_answer cbk cookie r (sy_local s)))
  | Some (SA_algorithm _ _) =>
      let completed := negb (sr_ret r =? -1) in
      Some (sh_next s (Some completed) k (algorithm_ended completed (sy_local s)))
  | _ => None
  end.

Fixpoint sh_run (s : sh_sys) (es : list sh_event) : option sh_sys :=
  match es with [] => Some s | e :: es => s ← sh_step s e; sh_run s es end.

End SelfHeal.
