(* ===== verification/AfrSelfHealProps.v ===== *)
(** * cluster/afr: properties of the self-heal of a file

    A data self-heal ends once and takes the changelogs down only after its
    algorithm has completed; the algorithm is started with a source and sinks that
    it can work with; and what breaks the heal: the lock that always goes to the
    first child, the sinks of the metadata that the data heal takes for its own, and
    a failed lock of the metadata.

    A data self-heal is a sequence of batches of calls, and what follows a batch
    starts when the count of its calls is down to zero.  The invariant says which
    batch a heal is at, that the count is the number of its calls that are not
    answered, and how many answers the heal can still get. *)

From stdpp Require Import base list numbers strings gmap.
From S2P Require Import Prelude ByteOrder AfrPending AfrTransaction AfrHealAlgo AfrHealInv AfrSelfHeal.
Open Scope Z_scope.

(** ** Counting *)

Lemma filter_length_le {A} (f : A -> bool) l : (length (List.filter f l) <= length l)%nat.
Proof. induction l as [|x l IH]; [done|]. simpl. destruct (f x); simpl; lia. Qed.

Lemma filter_shift (f : nat -> bool) l : length (List.filter f (map S l)) = length (List.filter (fun i => f (S i)) l).
Proof. induction l as [|x l IH]; [done|]. cbn [map List.filter]. destruct (f (S x)); cbn [length]; by rewrite IH. Qed.

(** Counting the [true] of a list, and the positions that have it. *)
Lemma count_true (l : list bool) n :
  length (List.filter id (take n l)) = length (List.filter (fun i => nth i l false) (seq 0 n)).
Proof.
  revert l. induction n as [|n IH]; intros l; [done|].
  rewrite <- cons_seq, <- seq_shift. destruct l as [|b l]; cbn [take].
  - clear IH. cbn [List.filter nth]. rewrite filter_shift. by induction (seq 0 n) as [|x xs IH].
  - cbn [List.filter nth]. destruct b; cbn [id length]; rewrite IH; [f_equal|]; symmetry; exact (filter_shift _ _).
Qed.

Lemma sh_calls_of_app a b : calls_of (a ++ b) = calls_of a ++ calls_of b.
Proof. apply List.filter_app. Qed.

(** ** Logs *)

Definition completions (a : list sh_action) : nat := length (List.filter (fun x => match x with SA_completion => true | _ => false end) a).

(** The call takes the data changelog down. *)
Definition is_erasure (a : sh_action) : bool := match a with SA_wind _ _ _ (S_fxattrop _) => true | _ => false end.

Lemma completions_app a b : completions (a ++ b) = (completions a + completions b)%nat.
Proof. unfold completions. rewrite List.filter_app, length_app. done. Qed.

Section Stages.
Context (hp : heal_priv) (he : heal_env).

Abbreviation count := (child_count (hp_priv hp)).

Record heal_sane : Prop := {
  hs_count : Z.of_nat count <= 2 ^ 16;
  hs_up_length : length (he_child_up he) = count;
  hs_up : existsb id (he_child_up he) = true }.

Context (Hs : heal_sane).

(** The answers that a heal can get after the batch of a callback. *)
Definition tail_of (cb : sh_cbk) : nat :=
  match cb with
  | CB_data_unlck => 2 * count + 2
  | CB_data_erase => 3 * count + 2
  | CB_trim => 4 * count + 2
  | CB_fstat => 5 * count + 3
  | CB_fxattrop => 6 * count + 3
  | CB_data_lock => 7 * count + 3
  | CB_open => 8 * count + 3
  | _ => 0
  end.

(** What holds of the sinks and of the algorithm when the answers to a batch come. *)
Definition stage_ok (cb : sh_cbk) (ran : option bool) (l : heal_local) : Prop :=
  match cb with
  | CB_open | CB_data_lock | CB_fxattrop | CB_fstat => ran = None /\ hl_active_sinks l = 0
  | CB_trim | CB_data_erase => ran = Some true /\ hl_active_sinks l = sink_count hp he l
  | CB_data_unlck | CB_flush => hl_active_sinks l = 0 \/ hl_active_sinks l = sink_count hp he l
  | _ => False
  end.

(** [a] is a call whose answer goes to [cb]; only the calls of
    [afr_sh_data_erase_pending] take a changelog down. *)
Definition call_for (cb : sh_cbk) (a : sh_action) : Prop :=
  exists child cookie call, a = SA_wind cb child cookie call /\ (is_erasure a = true -> cb = CB_data_erase).

Definition batch (cb : sh_cbk) (l : heal_local) (calls : list sh_action) : Prop :=
  Forall (call_for cb) calls /\ calls <> [] /\ hl_call_count l = Z.of_nat (length calls) /\ hl_call_count l < 2 ^ 32.

(** [at_stage ran l calls done b]: at most [b] answers are left. *)
Inductive at_stage (ran : option bool) (l : heal_local) : list sh_action -> bool -> nat -> Prop :=
  | at_batch cb calls b : cb <> CB_data_lock -> batch cb l calls -> stage_ok cb ran l -> (length calls + tail_of cb <= b)%nat ->
      at_stage ran l calls false b
  | at_lock i op b : (i < count)%nat -> stage_ok CB_data_lock ran l -> (count - i + tail_of CB_data_lock <= b)%nat ->
      at_stage ran l [SA_wind CB_data_lock 0 i (S_inodelk op)] false b
  | at_algorithm d c b : ran = None -> hl_active_sinks l = sink_count hp he l -> 0 < sink_count hp he l ->
      (5 * count + 3 <= b)%nat -> at_stage ran l [SA_algorithm d c] false b
  | at_end b : at_stage ran l [] true b
  | at_hang b : ran = Some true -> xattr_count hp l = 0 -> at_stage ran l [] false b.

(** What a function leaves when [rest] is not answered yet. *)
Definition leads (ran : option bool) (b : nat) (rest : list sh_action) (r : sh_result) : Prop :=
  exists done_, at_stage ran r.1 (rest ++ calls_of r.2) done_ b /\ completions r.2 = (if done_ then 1 else 0)%nat /\
    (existsb is_erasure r.2 = true -> ran = Some true).

Lemma at_stage_more ran l calls d b b' : at_stage ran l calls d b -> (b <= b')%nat -> at_stage ran l calls d b'.
Proof. intros H Hb. inversion H; subst; econstructor; eauto; lia. Qed.

Lemma leads_more ran b b' rest r : leads ran b rest r -> (b <= b')%nat -> leads ran b' rest r.
Proof. intros (d & H & Hc & He) Hb. exists d. eauto using at_stage_more. Qed.

(** Actions that are no calls, no completion and no erasure change nothing. *)
Definition quiet (a : sh_action) : bool :=
  match a with SA_read_child _ | SA_found_size _ | SA_fd_unref | SA_unwind | SA_entry | SA_split_brain => true | _ => false end.

Lemma quiet_nothing a : forallb quiet a = true -> calls_of a = [] /\ completions a = 0%nat /\ existsb is_erasure a = false.
Proof.
  induction a as [|x a IH]; [done|]. cbn [forallb]. intros [Hx Ha]%andb_prop. destruct (IH Ha) as (H1 & H2 & H3).
  unfold calls_of, completions in *. destruct x; try discriminate; cbn [List.filter is_call existsb is_erasure orb]; auto.
Qed.

Lemma leads_after ran b rest a r : forallb quiet a = true -> leads ran b rest r -> leads ran b rest (after a r).
Proof.
  intros (Hq & Hc & He)%quiet_nothing (d & H & Hc' & He'). exists d. unfold after. cbn [fst snd].
  rewrite sh_calls_of_app, Hq, completions_app, Hc, existsb_app, He. auto.
Qed.

(** ** Batches *)

Lemma calls_nothing a : Forall (fun x => exists cb child cookie call, x = SA_wind cb child cookie call) a -> calls_of a = a /\ completions a = 0%nat.
Proof.
  induction 1 as [|x a (cb & child & cookie & call & ->) _ [IH1 IH2]]; [done|].
  unfold calls_of, completions in *. cbn [List.filter is_call]. by rewrite IH1.
Qed.

(** A list of calls of one callback, started with their number as the count. *)
Lemma leads_batch cb ran b l a :
  cb <> CB_data_lock -> Forall (call_for cb) a -> a <> [] -> Z.of_nat (length a) < 2 ^ 32 -> stage_ok cb ran l ->
  (length a + tail_of cb <= b)%nat -> leads ran b [] (set_count (u32 (Z.of_nat (length a))) l, a).
Proof.
  intros Hcb Ha Hne Hlt Hok Hb. exists false. cbn [fst snd].
  destruct (calls_nothing a) as [E1 E2].
  { eapply Forall_impl; [exact Ha|]. intros x (child & cookie & call & -> & _). eauto. }
  rewrite E1, E2. split_and!; [|done|].
  - assert (E : u32 (Z.of_nat (length a)) = Z.of_nat (length a)) by (apply u32_small; unfold is_u32; lia).
    apply at_batch with cb; auto; [split_and!; auto; cbn [set_count hl_call_count]; by rewrite E].
  - intros (x & Hx & He)%existsb_exists. rewrite List.Forall_forall in Ha. destruct (Ha _ Hx) as (? & ? & ? & _ & Hcb').
    rewrite (Hcb' He) in Hok. apply Hok.
Qed.

Lemma count_le want : (length (List.filter want (seq 0 count)) <= count)%nat.
Proof. etrans; [apply filter_length_le|]. by rewrite length_seq. Qed.

Lemma leads_wind cb ran b want (call : nat -> sh_call) n l :
  cb <> CB_data_lock -> n = Z.of_nat (length (List.filter want (seq 0 count))) -> n <> 0 ->
  (forall i, is_erasure (SA_wind cb i i (call i)) = true -> cb = CB_data_erase) -> stage_ok cb ran l ->
  (count + tail_of cb <= b)%nat -> leads ran b [] (wind hp want (fun i => SA_wind cb i i (call i)) n l).
Proof.
  intros Hcb -> Hn Her Hok Hb. unfold wind. rewrite wind_loop_all. pose proof (count_le want). pose proof (hs_count Hs).
  set (js := List.filter want (seq 0 count)) in *.
  rewrite <- (length_map (fun i => SA_wind cb i i (call i)) js).
  apply leads_batch with cb; auto; rewrite ?length_map; try lia.
  - apply List.Forall_forall. intros x (i & <- & _)%in_map_iff. exists i, i, (call i). split; [done|apply Her].
  - destruct js; done.
Qed.

Lemma wind_up cb ran b (call : nat -> sh_call) l :
  cb <> CB_data_lock -> (forall i, is_erasure (SA_wind cb i i (call i)) = true -> cb = CB_data_erase) -> stage_ok cb ran l ->
  (count + tail_of cb <= b)%nat -> leads ran b [] (wind hp (is_up he) (fun i => SA_wind cb i i (call i)) (up_count he) l).
Proof.
  intros Hcb Her Hok Hb. apply leads_wind; auto; unfold up_count, afr_up_children_count.
  - unfold is_up. rewrite <- count_true, <- (hs_up_length Hs). by rewrite take_ge.
  - pose proof (hs_up Hs) as H. intros E. clear -H E. induction (he_child_up he) as [|[] up IH]; [done|done|]. by apply IH.
Qed.

(** The answer to a call of a batch. *)
Lemma leads_returned cb ran l l' calls k a next :
  cb <> CB_data_lock -> batch cb l calls -> calls !! k = Some a -> hl_call_count l' = hl_call_count l -> stage_ok cb ran l' ->
  (forall n, leads ran (tail_of cb) [] (next (set_count n l'))) ->
  leads ran (length calls + tail_of cb - 1) (delete k calls) (frame_returned l' next).
Proof.
  intros Hcb (Hall & Hne & Hc & Hlt) Hk Hc' Hok Hn. unfold frame_returned. cbn [set_count hl_call_count].
  pose proof (length_delete calls k (mk_is_Some _ _ Hk)) as Hlen. assert (0 < length calls)%nat by (destruct calls; simpl; [done|lia]).
  rewrite Hc', Hc, u32_small by (unfold is_u32; lia).
  destruct (Z.eqb_spec (Z.of_nat (length calls) - 1) 0) as [E|E].
  - rewrite (nil_length_inv (delete k calls)) by lia. eapply leads_more; [apply Hn|lia].
  - exists false. cbn [fst snd]. rewrite app_nil_r. split_and!; [|done|done].
    apply at_batch with cb; auto.
    + split_and!; cbn [set_count hl_call_count]; try lia.
      * eapply Forall_sublist; [|exact Hall]. apply sublist_delete.
      * intros E'. rewrite E' in Hlen. simpl in Hlen. lia.
    + lia.
Qed.

(** ** What each function leads to *)

Lemma leads_done ran b l : leads ran b [] (afr_sh_data_done hp he l).
Proof.
  exists true. unfold afr_sh_data_done, afr_self_heal_completion_cbk.
  destruct (hl_fd l && negb (he_fd_opened he)); cbn [after set_fd set_locks fst snd hl_govinda hl_unwound];
    destruct (hl_govinda l), (hl_unwound l); (split_and!; [constructor|done|done]).
Qed.

Lemma close_loop_all l st todo i :
  List.filter (to_heal he l) (seq i todo) <> [] ->
  close_loop he l st todo i (2 * Z.of_nat (length (List.filter (to_heal he l) (seq i todo)))) =
  flat_map (close_child st) (List.filter (to_heal he l) (seq i todo)).
Proof.
  revert i. induction todo as [|todo IH]; intros i Hne; [done|]. cbn [close_loop seq List.filter] in *.
  destruct (to_heal he l i); [|by apply IH]. cbn [length flat_map].
  replace (2 * Z.of_nat (S (length (List.filter (to_heal he l) (seq (S i) todo)))) - 2)
    with (2 * Z.of_nat (length (List.filter (to_heal he l) (seq (S i) todo)))) by lia.
  destruct (Z.eqb_spec (2 * Z.of_nat (length (List.filter (to_heal he l) (seq (S i) todo)))) 0) as [E|E].
  - by rewrite (nil_length_inv (List.filter (to_heal he l) (seq (S i) todo))) by lia.
  - rewrite IH; [done|]. intros E'. by rewrite E' in E.
Qed.

Lemma close_children st is_ :
  Forall (call_for CB_flush) (flat_map (close_child st) is_) /\ length (flat_map (close_child st) is_) = (2 * length is_)%nat.
Proof.
  induction is_ as [|i is_ [IH1 IH2]]; [done|]. cbn [flat_map]. split.
  - apply Forall_app_2; [|done]. unfold close_child. constructor; [by eexists _, _, _|]. constructor; [by eexists _, _, _|constructor].
  - rewrite length_app, IH2. simpl. lia.
Qed.

Lemma leads_close ran l : stage_ok CB_flush ran l -> leads ran (2 * count + 2) [] (afr_sh_data_close hp he l).
Proof.
  intros Hok. unfold afr_sh_data_close. destruct (he_fd_opened he); [apply leads_done|]. destruct (hl_fd l); cbn [negb]; [|apply leads_done].
  set (st := mk_ss _ _ _ _ _ _ _). pose proof (hs_count Hs). pose proof (count_le (to_heal he l)).
  set (src := Z.to_nat (hl_source l)).
  assert (E : exists js, (length js <= count)%nat /\ hl_active_sinks l = Z.of_nat (length js) /\
    (if (hl_active_sinks l + 1) * 2 - 2 =? 0 then [] else close_loop he l st count 0 ((hl_active_sinks l + 1) * 2 - 2)) = flat_map (close_child st) js).
  { replace ((hl_active_sinks l + 1) * 2 - 2) with (2 * hl_active_sinks l) by lia.
    destruct (Z.eqb_spec (2 * hl_active_sinks l) 0) as [E|E]; [exists []; simpl; split_and!; [lia|lia|done]|].
    exists (List.filter (to_heal he l) (seq 0 count)). destruct Hok as [Hok|Hok]; [lia|]. split_and!; [done|done|].
    rewrite Hok. unfold sink_count. apply close_loop_all. intros E'. unfold sink_count in Hok. rewrite E' in Hok. simpl in Hok. lia. }
  destruct E as (js & Hjs & Hact & ->).
  change (close_child st src ++ flat_map (close_child st) js) with (flat_map (close_child st) (src :: js)).
  destruct (close_children st (src :: js)) as [H1 H2]. cbn [length] in H2.
  replace ((hl_active_sinks l + 1) * 2) with (Z.of_nat (length (flat_map (close_child st) (src :: js)))) by lia.
  apply leads_batch with CB_flush; auto; cbn [tail_of]; lia.
Qed.

Lemma leads_finish ran l : stage_ok CB_flush ran l -> leads ran (3 * count + 2) [] (afr_sh_data_finish hp he l).
Proof.
  intros Hok. unfold afr_sh_data_finish, afr_sh_data_unlock.
  destruct (he_lock_held he); [eapply leads_more; [by apply leads_close|lia]|].
  destruct (Z.eqb_spec (locked_count hp l) 0) as [E|E]; [eapply leads_more; [by apply leads_close|lia]|].
  apply leads_wind; auto; [unfold locked_count; by rewrite count_true|done|cbn [tail_of]; lia].
Qed.

Lemma leads_erase l : hl_active_sinks l = sink_count hp he l -> leads (Some true) (4 * count + 2) [] (afr_sh_data_erase_pending hp l).
Proof.
  intros Hok. unfold afr_sh_data_erase_pending.
  destruct (Z.eqb_spec (xattr_count hp l) 0) as [E|E]; [|apply leads_wind; auto; [done|cbn [tail_of]; lia]].
  rewrite E. exists false. unfold wind. pose proof E as E'. unfold xattr_count in E.
  assert (Ew : forall T (mk : nat -> T), wind_loop (has_xattr l) mk count 0 0 = []).
  { intros T mk. pose proof (wind_loop_all (has_xattr l) mk count 0) as Hw. rewrite E in Hw. rewrite Hw.
    by rewrite (nil_length_inv (List.filter (has_xattr l) (seq 0 count))) by lia. }
  cbn [fst snd]. rewrite Ew. split_and!; [by apply at_hang|done|done].
Qed.

Lemma leads_trim l : hl_active_sinks l = sink_count hp he l -> 0 < sink_count hp he l ->
  leads (Some true) (5 * count + 2) [] (afr_sh_data_trim_sinks hp he l).
Proof. intros Hok Hpos. unfold afr_sh_data_trim_sinks. rewrite Hok. apply leads_wind; auto; [lia|done|done|cbn [tail_of]; lia]. Qed.

Lemma leads_prepare l : hl_active_sinks l = 0 -> leads None (5 * count + 3) [] (afr_sh_data_sync_prepare hp he l).
Proof.
  intros Hz. unfold afr_sh_data_sync_prepare. destruct (Z.eqb_spec (sink_count hp he l) 0) as [E|E].
  - eapply leads_more; [apply leads_finish; by left|lia].
  - exists false. split_and!; [|done|done]. apply at_algorithm; [done|done| |done].
    change (0 < sink_count hp he l). unfold sink_count in *. lia.
Qed.

Lemma leads_fix l : hl_active_sinks l = 0 -> leads None (5 * count + 3) [] (afr_sh_data_fix hp he l).
Proof.
  intros Hz.
  assert (Hf : forall l', hl_active_sinks l' = 0 -> leads None (5 * count + 3) [] (afr_sh_data_finish hp he l'))
    by (intros l' Hl'; eapply leads_more; [apply leads_finish; by left|lia]).
  unfold afr_sh_data_fix. destruct (find_sources hp l AFR_DATA_TRANSACTION AFR_SELF_HEAL_DATA) as [sources nsources].
  destruct (nsources =? 0); [by apply Hf|].
  destruct (pick_favorite hp _ sources nsources) as [sources' nsources'].
  destruct (nsources' =? -1); [by apply Hf|]. destruct (afr_sh_select_source sources' =? -1); [by apply Hf|].
  destruct (he_background he); (apply leads_after; [done|by apply leads_prepare]).
Qed.

Lemma leads_fstat l : hl_active_sinks l = 0 -> leads None (6 * count + 3) [] (afr_sh_data_fstat hp he l).
Proof. intros Hz. apply wind_up; [done|done|done|cbn [tail_of]; lia]. Qed.

Lemma leads_fxattrop l : hl_active_sinks l = 0 -> leads None (7 * count + 3) [] (afr_sh_data_fxattrop hp he l).
Proof. intros Hz. apply wind_up; [done|done|done|cbn [tail_of]; lia]. Qed.

Lemma skip_down_range todo i : (i <= skip_down he todo i <= i + todo)%nat.
Proof. revert i. induction todo as [|todo IH]; intros i; simpl; [lia|]. destruct (is_up he i); [lia|]. pose proof (IH (S i)). lia. Qed.

Lemma leads_lock_rec i l : (i <= count)%nat -> hl_active_sinks l = 0 ->
  leads None (count - i + (7 * count + 3)) [] (afr_sh_data_lock_rec hp he i l).
Proof.
  intros Hi Hz. unfold afr_sh_data_lock_rec. pose proof (skip_down_range (count - i) i) as Hr. set (j := skip_down he (count - i) i) in *.
  destruct ((j =? count)%nat && (hl_lock_count l =? 0)); [apply leads_done|].
  destruct (Nat.eqb_spec j count) as [E|E]; cbn [orb]; [eapply leads_more; [by apply leads_fxattrop|lia]|].
  destruct (hl_lock_count l =? _); [eapply leads_more; [by apply leads_fxattrop|lia]|].
  exists false. split_and!; [|done|done]. apply at_lock; [lia|done|cbn [tail_of]; lia].
Qed.

Lemma leads_lock l : hl_active_sinks l = 0 -> leads None (8 * count + 3) [] (afr_sh_data_lock hp he l).
Proof.
  intros Hz. unfold afr_sh_data_lock. destruct (he_lock_held he); [eapply leads_more; [by apply leads_fxattrop|lia]|].
  eapply leads_more; [apply leads_lock_rec; [lia|done]|lia].
Qed.

Lemma leads_data l : hl_active_sinks l = 0 -> leads None (9 * count + 3) [] (afr_self_heal_data hp he l).
Proof.
  intros Hz. unfold afr_self_heal_data, afr_sh_data_open. destruct (_ && _); [|apply leads_done].
  destruct (he_fd_opened he); [eapply leads_more; [by apply leads_lock|lia]|].
  apply wind_up; [done|done|done|cbn [tail_of]; lia].
Qed.

(** ** Steps *)

Ltac set_reply r := destruct (sr_ret r =? -1).

(** The answer to a call of a batch, for each of the callbacks. *)
Lemma leads_answer cb ran l calls k a cookie r :
  cb <> CB_data_lock -> batch cb l calls -> calls !! k = Some a -> stage_ok cb ran l ->
  leads ran (length calls + tail_of cb - 1) (delete k calls) (sh_answer hp he cb cookie r l).
Proof.
  intros Hcb Hb Hk Hok. destruct cb; try done; cbn [sh_answer].
  - unfold afr_sh_data_open_cbk. destruct Hok as [-> Hz].
    set_reply r; (eapply leads_returned; [done|exact Hb|exact Hk|done|done|]; intros n; cbn [tail_of hl_op_failed set_failed set_count]).
    + eapply leads_more; [apply leads_finish; by left|lia].
    + destruct (hl_op_failed l); [eapply leads_more; [apply leads_finish; by left|lia]|by apply leads_lock].
  - unfold afr_sh_data_fxattrop_cbk. destruct Hok as [-> Hz].
    set_reply r; (eapply leads_returned; [done|exact Hb|exact Hk|done|done|]; intros n; by apply leads_fstat).
  - unfold afr_sh_data_fstat_cbk. destruct Hok as [-> Hz].
    set_reply r; (eapply leads_returned; [done|exact Hb|exact Hk|done|done|]; intros n; by apply leads_fix).
  - destruct Hok as [-> Hz]. eapply leads_returned; [done|exact Hb|exact Hk|done|done|]. intros n. by apply leads_erase.
  - destruct Hok as [-> Hz]. eapply leads_returned; [done|exact Hb|exact Hk|done|done|]. intros n. apply leads_finish. by right.
  - eapply leads_returned; [done|exact Hb|exact Hk|done|done|]. intros n. by apply leads_close.
  - eapply leads_returned; [done|exact Hb|exact Hk|done|done|]. intros n. apply leads_done.
Qed.

(** [b]: the answers that are left. *)
Definition sys_ok (s : sh_sys) (b : nat) : Prop :=
  exists done_, at_stage (sy_ran s) (sy_local s) (sy_calls s) done_ b /\ completions (sy_log s) = (if done_ then 1 else 0)%nat /\
    (existsb is_erasure (sy_log s) = true -> sy_ran s = Some true).

Lemma sys_of_ok b r : leads None b [] r -> sys_ok (sys_of r) b.
Proof. intros (d & H & Hc & He). by exists d. Qed.

(** [r] comes after a state that was not done. *)
Lemma next_ok s ran k r b :
  completions (sy_log s) = 0%nat -> (existsb is_erasure (sy_log s) = true -> ran = Some true) -> leads ran b (delete k (sy_calls s)) r ->
  sys_ok (sh_next s ran k r) b.
Proof.
  intros Hc He (d & H & Hc' & He'). exists d. unfold sh_next. cbn [sy_local sy_calls sy_log sy_ran].
  rewrite completions_app, existsb_app, Hc. split_and!; [done|done|]. intros [?|?]%orb_prop; auto.
Qed.

Lemma step_ok s e s' b : sys_ok s b -> sh_step hp he s e = Some s' -> exists b', b = S b' /\ sys_ok s' b'.
Proof.
  intros (d & Hst & Hc & He) Hstep. destruct e as [k r]. unfold sh_step in Hstep.
  destruct (sy_calls s !! k) as [a|] eqn:Hk; [|done].
  inversion Hst as [cb calls b0 Hcb Hb Hok Hlen E1 E2 E3|i op b0 Hi Hok Hlen E1|dd c b0 Hr Hact Hpos Hlen E1|b0 E1|b0 ? ? E1].
  - subst. pose proof (proj1 Hb) as Hall. rewrite Forall_lookup in Hall. destruct (Hall _ _ Hk) as (child & cookie & call & -> & _).
    injection Hstep as <-. assert (0 < length (sy_calls s))%nat by (apply lookup_lt_Some in Hk; lia).
    exists (b - 1)%nat. split; [lia|]. apply next_ok; [done|done|]. eapply leads_more; [by eapply leads_answer|lia].
  - rewrite <- E1 in Hk. destruct k as [|k]; [|done]. injection Hk as <-. injection Hstep as <-. subst.
    exists (b - 1)%nat. split; [cbn [tail_of] in Hlen; lia|]. apply next_ok; [done|done|]. rewrite <- E1. destruct Hok as [-> Hz].
    cbn [sh_answer delete list_delete]. unfold afr_sh_data_lock_cbk. cbn [tail_of] in Hlen.
    set_reply r; (eapply leads_more; [apply leads_lock_rec; [lia|done]|lia]).
  - rewrite <- E1 in Hk. destruct k as [|k]; [|done]. injection Hk as <-. injection Hstep as <-. subst.
    exists (b - 1)%nat. split; [lia|]. apply next_ok; [done|intros E; rewrite (He E) in Hr; done|]. rewrite <- E1. cbn [delete list_delete].
    unfold algorithm_ended. destruct (negb _); (eapply leads_more; [|]).
    + by apply leads_trim.
    + lia.
    + apply leads_finish. by right.
    + lia.
  - rewrite <- E1 in Hk. done.
  - rewrite <- E1 in Hk. done.
Qed.

Lemma sh_run_ok es : forall s s' b, sys_ok s b -> sh_run hp he s es = Some s' -> (length es <= b)%nat /\ sys_ok s' (b - length es).
Proof.
  induction es as [|e es IH]; intros s s' b H Hr; cbn [sh_run] in Hr.
  - injection Hr as <-. simpl. split; [lia|]. by rewrite Nat.sub_0_r.
  - destruct (sh_step hp he s e) as [s1|] eqn:E; [|done]. destruct (step_ok _ _ _ _ H E) as (b' & -> & H1).
    destruct (IH _ _ _ H1 Hr) as [Hl H2]. simpl. split; [lia|done].
Qed.

End Stages.

(** ** Sources *)

Lemma mark_wisest_length sources cs : length (afr_sh_mark_wisest_as_sources sources cs).1 = length sources.
Proof.
  revert cs. induction sources as [|s sources IH]; intros [|c cs]; [done..|]. simpl. specialize (IH cs).
  destruct (afr_sh_mark_wisest_as_sources sources cs). destruct (c_wisdom c =? 1); simpl in *; by rewrite IH.
Qed.

Lemma mark_sources_length sh n type : length (sh_sources (afr_sh_mark_sources sh n type).1) = n.
Proof.
  unfold afr_sh_mark_sources. destruct (if bool_decide (type = AFR_SELF_HEAL_DATA) then _ else _) as [m size_differs].
  repeat match goal with |- context [if ?b then _ else _] => destruct b end; cbn [fst sh_sources afr_sh_mark_lowest_uid_as_source
    afr_sh_mark_biggest_as_source afr_sh_mark_biggest_fool_as_source]; rewrite ?mark_wisest_length, ?length_insert; apply length_replicate.
Qed.

Lemma supress_length sources errs : length (afr_sh_supress_errenous_children sources errs) = length sources.
Proof. revert errs. induction sources as [|s sources IH]; intros [|e errs]; simpl; by rewrite ?IH. Qed.

(** A child that answered with an error is no source. *)
Lemma supress_sound sources errs i : nth i (afr_sh_supress_errenous_children sources errs) 0 <> 0 -> nth i errs 0 = 0.
Proof.
  revert errs i. induction sources as [|s sources IH]; intros [|e errs] [|i]; simpl; try done.
  - destruct (Z.eqb_spec e 0) as [->|]; [done|]. destruct (Z.eqb_spec s 0) as [->|]; done.
  - apply IH.
Qed.

Lemma select_from_spec k sources :
  select_from k sources = -1 \/ exists i, select_from k sources = k + Z.of_nat i /\ (i < length sources)%nat /\ nth i sources 0 <> 0.
Proof.
  revert k. induction sources as [|s sources IH]; intros k; simpl; [by left|].
  destruct (Z.eqb_spec s 0) as [->|Hs]; cbn [negb]; [|right; exists 0%nat; simpl; split_and!; [lia|lia|done]].
  destruct (IH (k + 1)) as [E|(i & E & Hi & Hn)]; [by left|right]. exists (S i). simpl. split_and!; [lia|lia|done].
Qed.

Lemma find_sources_length hp l type kind : length (find_sources hp l type kind).1 = child_count (hp_priv hp).
Proof.
  unfold find_sources. pose proof (mark_sources_length (mk_sh (Some (map attr_of (hl_buf l)))
    (afr_sh_build_pending_matrix (pending_key (hp_priv hp)) (hl_xattr l) type) (hl_sources l)) (child_count (hp_priv hp)) kind) as H.
  destruct (afr_sh_mark_sources _ _ _) as [sh n]. cbn [fst] in *. by rewrite supress_length.
Qed.

(** No source answered with an error, and the favorite child did not either. *)
Lemma sources_answered hp l type kind i :
  let '(sources, nsources) := find_sources hp l type kind in
  forall l', hl_child_errno l' = hl_child_errno l -> nth i (pick_favorite hp l' sources nsources).1 0 <> 0 -> nth i (hl_child_errno l) 0 = 0.
Proof.
  unfold find_sources. destruct (afr_sh_mark_sources _ _ _) as [sh n]. intros l' El. unfold pick_favorite. rewrite El.
  destruct (_ && _) eqn:E; cbn [fst]; [|apply supress_sound]. apply andb_prop in E as [_ E%Z.eqb_eq].
  set (sources := afr_sh_supress_errenous_children _ _). set (f := Z.to_nat (hp_favorite_child hp)) in *. intros H.
  destruct (decide (f = i)) as [<-|Hne]; [done|]. apply (supress_sound (sh_sources sh)). fold sources.
  rewrite nth_lookup in *. by rewrite list_lookup_insert_ne in H.
Qed.

Lemma pick_favorite_length hp l sources n : length (pick_favorite hp l sources n).1 = length sources.
Proof. unfold pick_favorite. destruct (_ && _); cbn [fst]; by rewrite ?length_insert. Qed.

Lemma nth_drop_sources l source differs sources i :
  nth i (drop_sources l source differs sources) 0 =
  if (Z.of_nat i =? source) || negb (nth i (hl_child_errno l) 0 =? 0) then nth i sources 0
  else if differs (nth i (hl_buf l) stat0) (buf_of l source) then 0 else nth i sources 0.
Proof.
  unfold drop_sources. rewrite (nth_lookup (imap _ _)), (nth_lookup sources), list_lookup_imap. destruct (sources !! i) as [s|]; simpl; [done|].
  by destruct (_ || _); [|destruct (differs (nth i (hl_buf l) stat0) (buf_of l source))].
Qed.

(** ** The end of a heal *)

Definition is_algorithm (a : sh_action) : bool := match a with SA_algorithm _ _ => true | _ => false end.

(** An action of the functions that end a heal. *)
Definition late (a : sh_action) : bool :=
  match a with
  | SA_wind CB_data_unlck _ _ (S_inodelk _) | SA_wind CB_flush _ _ S_flush | SA_wind CB_flush _ _ (S_setattr _ _) => true
  | SA_wind _ _ _ _ | SA_algorithm _ _ => false
  | _ => true
  end.

Lemma wind_loop_forall {T} (P : T -> bool) want mk todo i n : (forall i, P (mk i) = true) -> forallb P (wind_loop want mk todo i n) = true.
Proof.
  intros HP. revert i n. induction todo as [|todo IH]; intros i n; [done|]. cbn [wind_loop]. destruct (want i); [|apply IH].
  cbn [forallb]. rewrite HP. destruct (n - 1 =? 0); [done|apply IH].
Qed.

Section End_.
Context (hp : heal_priv) (he : heal_env).

Lemma done_late l : forallb late (afr_sh_data_done hp he l).2 = true.
Proof.
  unfold afr_sh_data_done, afr_self_heal_completion_cbk.
  destruct (hl_fd l && negb (he_fd_opened he)); cbn [after set_fd set_locks fst snd hl_govinda hl_unwound]; by destruct (hl_govinda l), (hl_unwound l).
Qed.

Lemma close_loop_late l st todo i n : forallb late (close_loop he l st todo i n) = true.
Proof.
  revert i n. induction todo as [|todo IH]; intros i n; [done|]. cbn [close_loop]. destruct (to_heal he l i); [|apply IH].
  cbn [close_child app forallb late andb]. destruct (n - 2 =? 0); [done|apply IH].
Qed.

Lemma close_late l : forallb late (afr_sh_data_close hp he l).2 = true.
Proof.
  unfold afr_sh_data_close. destruct (he_fd_opened he); [apply done_late|]. destruct (hl_fd l); [|apply done_late].
  cbn [negb snd]. rewrite forallb_app. cbn [close_child forallb late andb]. destruct (_ =? 0); [done|apply close_loop_late].
Qed.

Lemma finish_late l : forallb late (afr_sh_data_finish hp he l).2 = true.
Proof.
  unfold afr_sh_data_finish, afr_sh_data_unlock. destruct (he_lock_held he); [apply close_late|].
  destruct (_ =? 0); [apply close_late|]. by apply wind_loop_forall.
Qed.

Lemma late_no_algorithm a d c : forallb late a = true -> SA_algorithm d c ∈ a -> False.
Proof. intros Ha Hin%list_elem_of_In. rewrite forallb_forall in Ha. specialize (Ha _ Hin). done. Qed.

(** ** What an algorithm is started with *)

Lemma prepare_conf l d c :
  (Z.to_nat (hl_source l) < child_count (hp_priv hp))%nat -> nth (Z.to_nat (hl_source l)) (hl_sources l) 0 <> 0 -> heal_sane hp he ->
  0 < hp_window hp <= 2 ^ 16 -> 0 < hp_page_size hp < 2 ^ 32 -> hl_block_size l = 65536 -> 0 <= hl_file_size l < 2 ^ 62 ->
  SA_algorithm d c ∈ (afr_sh_data_sync_prepare hp he l).2 ->
  conf_ok c /\ c = conf_of hp he (set_sinks (sink_count hp he l) (mark_success he l) l).
Proof.
  intros Hsrc Hnth Hs Hw Hp Hb Hsize. unfold afr_sh_data_sync_prepare.
  destruct (Z.eqb_spec (sink_count hp he l) 0) as [E|E]; [intros H; destruct (late_no_algorithm _ _ _ (finish_late _) H)|].
  cbn [snd]. intros H%list_elem_of_singleton. injection H as -> ->. split; [|done]. split; try done.
  - change (to_heal he l (Z.to_nat (hl_source l)) = false). unfold to_heal, is_source. by rewrite (proj2 (Z.eqb_neq _ _) Hnth).
  - intros Hnil. apply E. unfold sink_count. change (List.filter (to_heal he l) _) with (sinks (conf_of hp he l)) in *.
    change (sinks (conf_of hp he l) = []) in Hnil. by rewrite Hnil.
  - apply (hs_count _ _ Hs).
  - cbn. rewrite Hb. lia.
Qed.

End End_.

(** The local that [afr_sh_data_fix] goes on with after it has chosen [source]. *)
Definition fixed_local (he : heal_env) (l : heal_local) (sources : list Z) (source : Z) : heal_local :=
  let l := set_sources sources source l in
  let l := set_file (FILE_HAS_HOLES (buf_of l source) || hl_has_holes l) 65536 (ss_size (buf_of l source)) l in
  let l := set_sources (drop_sources l source (fun a b => SIZE_DIFFERS (attr_of a) (attr_of b)) sources) source l in
  if he_background he then set_unwound l else l.

Lemma fix_starts hp he l d c :
  SA_algorithm d c ∈ (afr_sh_data_fix hp he l).2 ->
  exists sources i, (i < length sources)%nat /\ length sources = child_count (hp_priv hp) /\ nth i sources 0 <> 0 /\ nth i (hl_child_errno l) 0 = 0 /\
    SA_algorithm d c ∈ (afr_sh_data_sync_prepare hp he (fixed_local he l sources (Z.of_nat i))).2.
Proof.
  unfold afr_sh_data_fix. pose proof (find_sources_length hp l AFR_DATA_TRANSACTION AFR_SELF_HEAL_DATA) as Hlen.
  pose proof (fun i => sources_answered hp l AFR_DATA_TRANSACTION AFR_SELF_HEAL_DATA i) as Hans.
  destruct (find_sources hp l AFR_DATA_TRANSACTION AFR_SELF_HEAL_DATA) as [sources nsources]. cbn [fst] in Hlen.
  assert (Hlate : forall l', SA_algorithm d c ∈ (afr_sh_data_finish hp he l').2 -> False)
    by (intros l'; apply late_no_algorithm, finish_late).
  destruct (nsources =? 0); [intros []%Hlate|].
  set (l1 := set_sources sources (hl_source l) l). pose proof (pick_favorite_length hp l1 sources nsources) as Hlen'.
  pose proof (fun i => Hans i l1 eq_refl) as Hans'. destruct (pick_favorite hp l1 sources nsources) as [sources' nsources']. cbn [fst] in *.
  destruct (nsources' =? -1); [intros []%Hlate|].
  destruct (Z.eqb_spec (afr_sh_select_source sources') (-1)) as [E|E]; [intros []%Hlate|].
  destruct (select_from_spec 0 sources') as [E'|(i & Ei & Hi & Hn)]; [done|]. unfold afr_sh_select_source. rewrite Ei, Z.add_0_l.
  intros H. exists sources', i. split_and!; [done|congruence|done|by apply Hans'|]. unfold fixed_local.
  destruct (he_background he); unfold after in H; cbn [snd app] in H; repeat (apply elem_of_cons in H as [H|H]; [discriminate|]); exact H.
Qed.

(** C14: When the heal of the data of a file starts an algorithm, it starts it
    with what the algorithms need: a source that is no sink, at least one sink,
    and the number of sinks.  No error is noted for the source in [child_errno],
    which is all that is asked of it: that is so as well of a child that is
    down, which can be the source if it is the favorite child.  The size is the
    one in the buffer of the source, and a child that is up, for which no error
    is noted and whose file has another size, is a sink, whatever the changelogs
    say. *)
Theorem data_fix_conf hp he l d c :
  heal_sane hp he -> 0 < hp_window hp <= 2 ^ 16 -> 0 < hp_page_size hp < 2 ^ 32 -> (forall i, 0 <= ss_size (buf_of l i) < 2 ^ 62) ->
  SA_algorithm d c ∈ (afr_sh_data_fix hp he l).2 ->
  conf_ok c /\ nth (hc_source c) (hl_child_errno l) 0 = 0 /\ hc_file_size c = ss_size (nth (hc_source c) (hl_buf l) stat0) /\
  forall i, (i < child_count (hp_priv hp))%nat -> nth i (he_child_up he) false = true -> nth i (hl_child_errno l) 0 = 0 ->
    ss_size (nth i (hl_buf l) stat0) <> hc_file_size c -> i ∈ sinks c.
Proof.
  intros Hs Hw Hp Hsize (sources & k & Hk & Hlen & Hn & Herr & H)%fix_starts.
  apply prepare_conf in H as [Hok ->]; try done.
  - assert (Es : hl_source (fixed_local he l sources (Z.of_nat k)) = Z.of_nat k) by (unfold fixed_local; by destruct (he_background he)).
    cbn [hc_source conf_of set_sinks hl_source hc_file_size hl_file_size]. rewrite Es, Nat2Z.id.
    assert (Ef : hl_file_size (fixed_local he l sources (Z.of_nat k)) = ss_size (nth k (hl_buf l) stat0))
      by (unfold fixed_local; destruct (he_background he); cbn; unfold buf_of; by rewrite Nat2Z.id).
    split_and!; [done|done|done|]. rewrite Ef. intros i Hi Hup He Hd. apply elem_of_sinks. split; [done|].
    cbn [is_sink hc_sources hc_child_up conf_of set_sinks hl_sources]. unfold is_sink. cbn. rewrite Hup.
    assert (nth i (hl_sources (fixed_local he l sources (Z.of_nat k))) 0 = 0) as ->; [|done].
    unfold fixed_local. transitivity (nth i (drop_sources (set_sources sources (Z.of_nat k) l) (Z.of_nat k)
      (fun a b => SIZE_DIFFERS (attr_of a) (attr_of b)) sources) 0); [by destruct (he_background he)|].
    rewrite nth_drop_sources. cbn [set_sources hl_child_errno hl_buf]. rewrite He. cbn [Z.eqb negb orb].
    destruct (Z.eqb_spec (Z.of_nat i) (Z.of_nat k)) as [E|E]; [apply Nat2Z.inj in E as ->; done|]. cbn [orb].
    unfold SIZE_DIFFERS, attr_of, buf_of. cbn [st_size set_sources hl_buf]. rewrite Nat2Z.id.
    by rewrite (proj2 (Z.eqb_neq _ _) Hd).
  - unfold fixed_local. destruct (he_background he); cbn; lia.
  - unfold fixed_local. destruct (he_background he); cbn [set_unwound set_sources hl_source hl_sources]; rewrite Nat2Z.id, nth_drop_sources, Z.eqb_refl; done.
  - unfold fixed_local. by destruct (he_background he).
  - unfold fixed_local. destruct (he_background he); cbn; apply Hsize.
Qed.

(** ** Examples *)

(** Three children; their changelogs count data and metadata operations. *)
Definition heal3 : heal_priv :=
  mk_hp (mk_priv 3 ["trusted.afr.a"; "trusted.afr.b"; "trusted.afr.c"]%string true true true 1 1 1) (-1) true true "" 16 131072.

Definition env3 (up : list bool) (need_metadata : bool) : heal_env := mk_he up true need_metadata false false false 33188 false 0.

(** A changelog that accuses the children of [data] and of [metadata]. *)
Definition log3 (data metadata : list Z) : xattrs :=
  list_to_map (zip ["trusted.afr.a"; "trusted.afr.b"; "trusted.afr.c"]%string (zip_with (fun d m => [hton32 d; hton32 m; 0]) data metadata)).

Definition size3 (size : Z) : sh_stat := mk_ss size (size / 512) 33188 0 0 0 7.

Definition ok3 : sh_reply := mk_sr 0 0 stat0 None "".
Definition fail3 : sh_reply := mk_sr (-1) 107 stat0 None "".
Definition found3 (size : Z) (x : xattrs) : sh_reply := mk_sr 0 0 (size3 size) (Some x) "".

(** The state before [afr_sh_data_fix]: child 0 accuses child 1, which has an older
    file; child 2 is down. *)
Definition found_local : heal_local :=
  set_found [size3 1024; size3 512; stat0] [Some (log3 [0; 1; 0] [0; 0; 0]); Some (log3 [0; 0; 0] [0; 0; 0]); None] [0; 0; 0] (new_heal heal3 true).

Lemma sane3 up b : length up = 3%nat -> existsb id up = true -> heal_sane heal3 (env3 up b).
Proof. intros Hl Hu. split; [|done|done]. vm_compute. discriminate. Qed.

Lemma data_fix_conf_witness :
  exists d c, SA_algorithm d c ∈ (afr_sh_data_fix heal3 (env3 [true; true; false] false) found_local).2 /\
    conf_ok c /\ sinks c = [1%nat] /\ hc_source c = 0%nat /\ hc_file_size c = 1024.
Proof.
  pose (r := afr_sh_data_fix heal3 (env3 [true; true; false] false) found_local).
  pose (c := match r.2 with [_; _; SA_algorithm _ c] => c | _ => mk_hc 0 0 0 [] [] 0 0 0 0 false end).
  assert (H : SA_algorithm false c ∈ r.2) by (vm_compute; do 2 right; left).
  exists false, c. split; [exact H|].
  destruct (data_fix_conf heal3 (env3 [true; true; false] false) found_local false c) as (Hok & _);
    [apply sane3; by vm_compute|by vm_compute|by vm_compute| |exact H|split; [exact Hok|by vm_compute]].
  intros i. unfold buf_of. destruct (Z.to_nat i) as [|[|[|[|n]]]]; by vm_compute.
Defined.

(** ** A data self-heal ends, once *)

(** C8: A self-heal of a regular file that has no metadata to heal, only data,
    is over after at most 9n+3 answers for n children, in whatever order they
    come and whatever they say, the end of the algorithm counted as one of them,
    and reports its completion at most once.  When no call is left it has
    reported it, unless no child could give its changelog: then it waits forever
    after its algorithm has completed.  No changelog is taken down before the
    algorithm has completed.  A heal of metadata and data is not covered: its
    second stage can hang otherwise. *)
Theorem data_heal_completes hp he fd es s :
  heal_sane hp he -> he_need_metadata he && hp_metadata_self_heal hp = false -> file_type (he_mode he) = S_IFREG ->
  sh_run hp he (sys_of (afr_self_heal hp he fd false)) es = Some s ->
  (length es <= 9 * child_count (hp_priv hp) + 3)%nat /\ (completions (sy_log s) <= 1)%nat /\
  (existsb is_erasure (sy_log s) = true -> sy_ran s = Some true) /\
  (sy_calls s = [] -> completions (sy_log s) = 1%nat \/ sy_ran s = Some true /\ xattr_count hp (sy_local s) = 0).
Proof.
  intros Hs Hm Hreg Hrun.
  assert (Hlead : leads hp he None (9 * child_count (hp_priv hp) + 3) [] (afr_self_heal hp he fd false)).
  { unfold afr_self_heal, afr_sh_missing_entries_done, afr_self_heal_metadata. rewrite Hm.
    unfold afr_sh_metadata_done. cbn [set_locks set_sinks forget set_found new_heal hl_govinda]. rewrite Hreg. cbn [Z.eqb S_IFREG Pos.eqb].
    by apply leads_data. }
  destruct (sh_run_ok hp he Hs es _ _ _ (sys_of_ok hp he _ _ Hlead) Hrun) as [Hlen (d & Hst & Hc & He)].
  split_and!; [done|destruct d; lia|done|]. intros E. rewrite E in Hst.
  inversion Hst as [cb calls b Hcb Hb Hok Hle E1|i op b Hi Hok Hle E1|dd c b Hr Hact Hpos Hle E1|b E1|b Hr Hx E1]; subst; auto.
  destruct Hb as (_ & [] & _). done.
Qed.

(** Child 0 accuses child 1 and has the longer file; child 2 is down. *)
Definition heal_events : list sh_event :=
  map (pair 0%nat)
    [ok3; ok3; ok3; found3 1024 (log3 [0; 1; 0] [0; 0; 0]); found3 512 (log3 [0; 0; 0] [0; 0; 0]); found3 1024 ∅; found3 512 ∅; ok3; ok3; ok3; ok3;
     ok3; ok3; ok3; ok3; ok3].

Lemma data_heal_completes_witness :
  exists s, sh_run heal3 (env3 [true; true; false] false) (sys_of (afr_self_heal heal3 (env3 [true; true; false] false) false false)) heal_events = Some s /\
    sy_calls s = [] /\ completions (sy_log s) = 1%nat /\ sy_ran s = Some true.
Proof.
  destruct (sh_run heal3 (env3 [true; true; false] false) (sys_of (afr_self_heal heal3 (env3 [true; true; false] false) false false)) heal_events) as [s|] eqn:E;
    [|vm_compute in E; discriminate].
  exists s. split; [done|].
  destruct (data_heal_completes heal3 (env3 [true; true; false] false) false heal_events s) as (_ & _ & _ & H);
    [apply sane3; by vm_compute|by vm_compute|by vm_compute|exact E|].
  vm_compute in E. injection E as <-. split; [done|]. destruct (H eq_refl) as [Hc|[_ Hx]]; [split; [exact Hc|done]|by vm_compute in Hx].
Defined.

(** ** A child that is down *)

(** Calls to children that are down fail. *)
Fixpoint down_fails (hp : heal_priv) (he : heal_env) (s : sh_sys) (es : list sh_event) : bool :=
  match es with
  | [] => true
  | e :: es =>
      match sy_calls s !! e.1 with Some (SA_wind _ child _ _) => is_up he child || (sr_ret e.2 =? -1) | _ => true end &&
      match sh_step hp he s e with Some s => down_fails hp he s es | None => true end
  end.

Section Child0.
Context (hp : heal_priv) (he : heal_env).
Context (Hdown : is_up he 0 = false) (Hheld : he_lock_held he = false) (Hservers : data_lock_server_count (hp_priv hp) <> 0).

(** What a heal does that never gets a lock. *)
Definition lockless (a : sh_action) : bool :=
  match a with SA_wind CB_open _ _ S_open | SA_wind CB_data_lock O _ (S_inodelk _) => true | _ => late a end.

Definition lockless_result (r : sh_result) : Prop := hl_lock_count r.1 = 0 /\ forallb lockless r.2 = true.

Lemma late_lockless a : forallb late a = true -> forallb lockless a = true.
Proof.
  intros H. apply forallb_forall. intros x Hx. rewrite forallb_forall in H. specialize (H x Hx).
  by destruct x as [[] [|child] cookie []| | | | | | | |].
Qed.

Lemma done_keeps l : hl_lock_count (afr_sh_data_done hp he l).1 = hl_lock_count l.
Proof. unfold afr_sh_data_done. by destruct (hl_fd l && negb (he_fd_opened he)). Qed.

Lemma done_lockless l : hl_lock_count l = 0 -> lockless_result (afr_sh_data_done hp he l).
Proof. intros Hl. split; [by rewrite done_keeps|apply late_lockless, done_late]. Qed.

Lemma close_lockless l : hl_lock_count l = 0 -> lockless_result (afr_sh_data_close hp he l).
Proof.
  intros Hl. split; [|apply late_lockless, close_late].
  unfold afr_sh_data_close. destruct (he_fd_opened he); [by rewrite done_keeps|]. destruct (hl_fd l); cbn [negb]; [done|by rewrite done_keeps].
Qed.

Lemma finish_lockless l : hl_lock_count l = 0 -> lockless_result (afr_sh_data_finish hp he l).
Proof.
  intros Hl. unfold afr_sh_data_finish, afr_sh_data_unlock. rewrite Hheld. destruct (_ =? 0); [by apply close_lockless|].
  split; [done|by apply wind_loop_forall].
Qed.

Lemma lock_rec_lockless i l : hl_lock_count l = 0 -> lockless_result (afr_sh_data_lock_rec hp he i l).
Proof.
  intros Hl. unfold afr_sh_data_lock_rec. rewrite Hl, Z.eqb_refl. cbn [afr_lock_server_count].
  destruct (_ =? _)%nat; cbn [andb orb]; [by apply done_lockless|].
  by rewrite (proj2 (Z.eqb_neq 0 _)) by congruence.
Qed.

Lemma lock_lockless l : hl_lock_count l = 0 -> lockless_result (afr_sh_data_lock hp he l).
Proof. intros Hl. unfold afr_sh_data_lock. rewrite Hheld. by apply lock_rec_lockless. Qed.

Lemma data_lockless l : hl_lock_count l = 0 -> lockless_result (afr_self_heal_data hp he l).
Proof.
  intros Hl. unfold afr_self_heal_data, afr_sh_data_open. destruct (_ && _); [|by apply done_lockless].
  destruct (he_fd_opened he); [by apply lock_lockless|]. split; [done|by apply wind_loop_forall].
Qed.

Lemma returned_lockless l next :
  hl_lock_count l = 0 -> (forall n, lockless_result (next (set_count n l))) -> lockless_result (frame_returned l next).
Proof. intros Hl Hn. unfold frame_returned. destruct (_ =? 0); [apply Hn|done]. Qed.

(** An answer to a call of a heal without a lock: if the call went to child 0 it has
    failed. *)
Lemma answer_lockless cb child cookie call r l :
  lockless (SA_wind cb child cookie call) = true -> is_up he child || (sr_ret r =? -1) = true -> hl_lock_count l = 0 ->
  lockless_result (sh_answer hp he cb cookie r l).
Proof.
  intros Ha Hr Hl. destruct cb, child as [|child], call; try discriminate Ha; cbn [sh_answer];
    try (apply returned_lockless; [done|intros n; by first [apply close_lockless|apply done_lockless]]).
  1, 2: unfold afr_sh_data_open_cbk; destruct (sr_ret r =? -1); (apply returned_lockless; [done|]); intros n;
    cbn [hl_op_failed set_failed set_count]; try (destruct (hl_op_failed l)); by first [apply finish_lockless|apply lock_lockless].
  unfold afr_sh_data_lock_cbk. rewrite Hdown in Hr. cbn [orb] in Hr. rewrite Hr. by apply lock_rec_lockless.
Qed.

Definition lockless_sys (s : sh_sys) : Prop :=
  hl_lock_count (sy_local s) = 0 /\ forallb lockless (sy_calls s) = true /\ forallb lockless (sy_log s) = true.

Lemma lockless_calls a : forallb lockless a = true -> forallb lockless (calls_of a) = true.
Proof.
  rewrite !forallb_forall. intros H x Hx. apply filter_In in Hx as [Hx _]. by apply H.
Qed.

Lemma lockless_run es : forall s s', lockless_sys s -> down_fails hp he s es = true -> sh_run hp he s es = Some s' -> lockless_sys s'.
Proof.
  induction es as [|[k r] es IH]; intros s s' (Hl & Hc & Hg) Hd Hr; cbn [sh_run down_fails fst snd] in *; [by injection Hr as <-|].
  apply andb_prop in Hd as [Hd1 Hd2]. destruct (sh_step hp he s (k, r)) as [s1|] eqn:E; [|done]. apply (IH s1 s'); try done.
  unfold sh_step in E. destruct (sy_calls s !! k) as [a|] eqn:Hk; [|done].
  assert (Ha : lockless a = true).
  { rewrite forallb_forall in Hc. apply Hc, list_elem_of_In. by eapply list_elem_of_lookup_2. }
  destruct a as [cb child cookie call| | | | | | | |]; try discriminate.
  injection E as <-. destruct (answer_lockless cb child cookie call r (sy_local s) Ha Hd1 Hl) as [H1 H2].
  split_and!; [exact H1| |unfold sh_next; cbn [sy_log]; by rewrite forallb_app, Hg, H2].
  unfold sh_next. cbn [sy_calls]. rewrite forallb_app, (lockless_calls _ H2), andb_true_r.
  rewrite forallb_forall in *. intros x Hx. apply Hc. apply list_elem_of_In in Hx. apply list_elem_of_In. eapply elem_of_submseteq; [exact Hx|].
  apply sublist_submseteq, sublist_delete.
Qed.

End Child0.

(** C38: With child 0 down, a data self-heal that does not come with the lock heals
    nothing, though all other children may be up: [afr_sh_data_lock_rec] sends
    the locks for all children to child 0, where they fail.  No algorithm is
    started and no changelog is taken down. *)
Theorem data_heal_needs_child_0 hp he l es s :
  nth 0 (he_child_up he) false = false -> he_lock_held he = false -> data_lock_server_count (hp_priv hp) <> 0 -> hl_lock_count l = 0 ->
  down_fails hp he (sys_of (afr_self_heal_data hp he l)) es = true -> sh_run hp he (sys_of (afr_self_heal_data hp he l)) es = Some s ->
  existsb is_algorithm (sy_log s) = false /\ existsb is_erasure (sy_log s) = false.
Proof.
  intros Hdown Hheld Hn Hl Hd Hr. destruct (data_lockless hp he Hheld Hn l Hl) as [H1 H2].
  assert (H0 : lockless_sys (sys_of (afr_self_heal_data hp he l))) by (split_and!; [done|by apply lockless_calls|done]).
  destruct (lockless_run hp he Hdown Hheld Hn es _ _ H0 Hd Hr) as (_ & _ & Hlog). clear -Hlog.
  induction (sy_log s) as [|x log IH]; [done|]. cbn [forallb] in Hlog. apply andb_prop in Hlog as [Hx Hlog].
  destruct (IH Hlog) as [IH1 IH2]. cbn [existsb]. rewrite IH1, IH2, !orb_false_r.
  by destruct x as [[] [|child] cookie []| | | | | | | |].
Qed.

(** Child 0 is down, the others are opened; the locks for 1 and 2 fail. *)
Lemma data_heal_needs_child_0_witness :
  exists s, sh_run heal3 (env3 [false; true; true] false) (sys_of (afr_self_heal_data heal3 (env3 [false; true; true] false) (new_heal heal3 false)))
      [(0%nat, ok3); (0%nat, ok3); (0%nat, fail3); (0%nat, fail3)] = Some s /\
    completions (sy_log s) = 1%nat /\ existsb is_algorithm (sy_log s) = false.
Proof.
  destruct (sh_run heal3 (env3 [false; true; true] false) (sys_of (afr_self_heal_data heal3 (env3 [false; true; true] false) (new_heal heal3 false)))
    [(0%nat, ok3); (0%nat, ok3); (0%nat, fail3); (0%nat, fail3)]) as [s|] eqn:E; [|vm_compute in E; discriminate].
  exists s. split; [done|]. split; [vm_compute in E; by injection E as <-|].
  apply (data_heal_needs_child_0 heal3 (env3 [false; true; true] false) (new_heal heal3 false)
    [(0%nat, ok3); (0%nat, ok3); (0%nat, fail3); (0%nat, fail3)] s); try done; by vm_compute.
Defined.

(** ** What the metadata heal leaves behind *)

(** Child 2 is down.  Metadata: child 0 accuses child 1, which is healed.  Data: 0
    and 1 accuse child 2 only. *)
Definition stale_events : list sh_event :=
  let log0 := log3 [0; 0; 1] [0; 1; 0] in
  let log1 := log3 [0; 0; 1] [0; 0; 0] in
  map (pair 0%nat)
    [ok3; ok3;                                   (* metadata: lock *)
     found3 1024 log0; found3 1024 log1;         (* lookup *)
     fail3; ok3; ok3; ok3;                       (* getxattr, setattr, xattrop *)
     ok3; ok3;                                   (* unlock *)
     ok3; ok3; ok3;                              (* data: open, lock *)
     found3 1024 log0; found3 1024 log1;         (* fxattrop *)
     found3 1024 log0; found3 1024 log1;         (* fstat *)
     ok3; ok3; ok3].                             (* unlock, flush and setattr of the source *)

(** A self-heal of metadata and data hangs when the metadata has a sink and
    the data has none.  [afr_sh_data_sync_prepare] goes to the end without setting
    [active_sinks], which still counts the sinks of the metadata, and
    [afr_sh_data_close] waits for calls to them that its loop does not make: all
    calls are answered, the count is 2 and the completion has not been reported.
    The lookup that started the heal is not answered. *)
Theorem stale_sinks_hang :
  exists s, sh_run heal3 (env3 [true; true; false] true) (sys_of (afr_self_heal heal3 (env3 [true; true; false] true) false false)) stale_events = Some s /\
    sy_calls s = [] /\ hl_call_count (sy_local s) = 2 /\ hl_active_sinks (sy_local s) = 1 /\
    existsb is_algorithm (sy_log s) = false /\ completions (sy_log s) = 0%nat /\ SA_unwind ∉ sy_log s.
Proof.
  destruct (sh_run heal3 (env3 [true; true; false] true) (sys_of (afr_self_heal heal3 (env3 [true; true; false] true) false false)) stale_events) as [s|] eqn:E;
    [|vm_compute in E; discriminate].
  exists s. split; [done|]. vm_compute in E. injection E as <-. split_and!; try done.
  intros H%list_elem_of_In. simpl in H. by decompose [or] H.
Qed.

(** Children 0 and 1 accuse each other, and child 2, the favorite, is down. *)
Definition favor3 : heal_priv := mk_hp (hp_priv heal3) 2 true true "" 16 131072.

Definition favor_events : list sh_event :=
  map (pair 0%nat)
    [ok3; ok3; ok3;                              (* open, lock *)
     found3 1024 (log3 [0; 1; 0] [0; 0; 0]); found3 512 (log3 [1; 0; 0] [0; 0; 0]);  (* fxattrop *)
     found3 1024 ∅; found3 512 ∅].               (* fstat *)

(** A favorite child that is down resolves a split brain.  [afr_sh_data_fix]
    looks at the errno that is noted for the favorite child, which is 0 for a child
    that was never asked, and takes it for the source, with the size 0 that its
    buffer was allocated with.  The algorithm has nothing to copy and completes
    without a call, and the file is then truncated to nothing on both children
    that are up. *)
Theorem down_favorite_truncates :
  let he := env3 [true; true; false] false in
  exists s s' c, sh_run favor3 he (sys_of (afr_self_heal favor3 he false false)) favor_events = Some s /\
    sy_calls s = [SA_algorithm false c] /\ hc_source c = 2%nat /\ nth (hc_source c) (he_child_up he) false = false /\
    (exists done_, run sh_full c true [E_run 0 true; E_run 0 true] (heal_start sh_full c []) = Next done_ /\ h_ended (s_heal done_) = [true]) /\
    sh_run favor3 he s [(0%nat, ok3)] = Some s' /\
    sy_calls s' = [SA_wind CB_trim 0 0 (S_ftruncate 0); SA_wind CB_trim 1 1 (S_ftruncate 0)].
Proof. do 3 eexists. do 4 (split; [by vm_compute|]). split; [eexists; split; by vm_compute|]. split; by vm_compute. Qed.

(** Child 1 refuses the metadata lock; everything else succeeds. *)
Definition epoch_events : list sh_event :=
  map (pair 0%nat)
    [ok3; fail3; ok3;                            (* metadata: lock *)
     ok3; ok3;                                   (* unlock *)
     ok3; ok3; ok3;                              (* data: open *)
     ok3; ok3; ok3].                             (* unlock *)

(** A metadata lock that child 1 refuses, as the lock of a client that is
    healing the file would make it, leaves [op_failed] set for the data heal.  That
    heal opens the file on all children, gives up, releases locks on all three
    children though it holds none, and sets the times of the file on child 0 to zero:
    they are taken from a buffer that has been cleared. *)
Theorem failed_lock_clears_times :
  exists s, sh_run heal3 (env3 [true; true; true] true) (sys_of (afr_self_heal heal3 (env3 [true; true; true] true) false false))
      epoch_events = Some s /\
    sy_calls s = [SA_wind CB_flush 0 0 S_flush; SA_wind CB_flush 0 0 (S_setattr stat0 (Z.lor GF_SET_ATTR_ATIME GF_SET_ATTR_MTIME))] /\
    (forall i, (i < 3)%nat -> SA_wind CB_data_unlck i i (S_inodelk LK_UNLOCK) ∈ sy_log s) /\
    forallb (fun a => match a with SA_wind CB_data_lock _ _ _ | SA_algorithm _ _ => false | _ => true end) (sy_log s) = true.
Proof.
  destruct (sh_run heal3 (env3 [true; true; true] true) (sys_of (afr_self_heal heal3 (env3 [true; true; true] true) false false))
    epoch_events) as [s|] eqn:E; [|vm_compute in E; discriminate].
  exists s. split; [done|]. vm_compute in E. injection E as <-. split_and!; [done| |done].
  intros i Hi. apply list_elem_of_In. destruct i as [|[|[|i]]]; [simpl; tauto..|lia].
Qed.

(** Child 0 has the file, child 1 does not, child 2 is down; all locks succeed. *)
Definition missing_events : list sh_event :=
  map (pair 0%nat) [ok3; ok3; found3 1024 ∅; mk_sr (-1) ENOENT stat0 None ""; ok3; ok3].

(** A file that is missing on one child while a child after the first that has
    it is down is not made but declared split-brain.  The child that is down has no
    error in [child_errno], and the type of its cleared buffer, 0, differs from
    the type that was found. *)
Theorem down_child_is_split_brain :
  exists s, sh_run heal3 (env3 [true; true; false] false) (sys_of (afr_self_heal heal3 (env3 [true; true; false] false) false true)) missing_events = Some s /\
    sy_calls s = [] /\ completions (sy_log s) = 1%nat /\ SA_split_brain ∈ sy_log s /\
    forallb (fun a => match a with SA_wind CB_newentry _ _ _ => false | _ => true end) (sy_log s) = true.
Proof.
  destruct (sh_run heal3 (env3 [true; true; false] false) (sys_of (afr_self_heal heal3 (env3 [true; true; false] false) false true)) missing_events) as [s|] eqn:E;
    [|vm_compute in E; discriminate].
  exists s. split; [done|]. vm_compute in E. injection E as <-. split_and!; [done|done| |done].
  apply list_elem_of_In. simpl. tauto.
Qed.
