(* ===== verification/Dict.v ===== *)
(** * libglusterfs: dictionaries

    Model of dict.c: the hash table of key and value pairs that carries options,
    xattrs and replies, its reference counts, and the form it has on the wire.

    A pair is on two lists at once, the chain of its hash bucket and the list of
    all members; a pair is therefore a cell of a store, and the lists hold
    addresses.  Values are shared between dictionaries and counted; they are cells
    of a store of their own.  Keys and data are lists of bytes. *)

From stdpp Require Import base list numbers gmap.
From S2P Require Import Prelude ByteOrder HashFn.
Open Scope Z_scope.

(** ** Data *)

(** [data_t]; [d_vec] are the lengths of the iovec entries. *)
Record data_t := mk_data {
  d_len : Z;
  d_data : option (list Z);
  d_vec : option (list Z);
  d_static : bool;
  d_refcount : Z
}.

(** The values, and the address of the next one. *)
Record store := mk_store { s_data : gmap nat data_t; s_next : nat }.

Definition d_set_ref (n : Z) (d : data_t) : data_t :=
  mk_data (d_len d) (d_data d) (d_vec d) (d_static d) n.

Definition data_ref (s : store) (v : nat) : store :=
  mk_store (alter (fun d => d_set_ref (d_refcount d + 1) d) v (s_data s)) (s_next s).

(** The last reference destroys the value. *)
Definition data_unref (s : store) (v : nat) : store :=
  match s_data s !! v with
  | None => s
  | Some d =>
      if d_refcount d - 1 =? 0 then mk_store (delete v (s_data s)) (s_next s)
      else mk_store (<[v := d_set_ref (d_refcount d - 1) d]> (s_data s)) (s_next s)
  end.

(** [get_new_data], with its fields filled in. *)
Definition new_data (s : store) (d : data_t) : store * nat :=
  (mk_store (<[s_next s := d]> (s_data s)) (S (s_next s)), s_next s).

Definition is_data_equal (one two : option data_t) : bool :=
  match one, two with
  | Some a, Some b =>
      match d_data a, d_data b with
      | Some x, Some y => (d_len a =? d_len b) && bool_decide (x = y)
      | _, _ => true
      end
  | _, _ => true
  end.

(** ** Dictionaries *)

Record data_pair := mk_pair { p_key : list Z; p_value : nat }.

(** [dict_t]; [pairs] are the cells and [p_next] the address of the next one. *)
Record dict := mk_dict {
  hash_size : Z;
  count : Z;
  members : list (list nat);
  members_list : list nat;
  pairs : gmap nat data_pair;
  p_next : nat
}.

Definition get_new_dict_full (size_hint : Z) : dict :=
  mk_dict size_hint 0 (replicate (Z.to_nat size_hint) []) [] ∅ 0.

Definition get_new_dict : dict := get_new_dict_full 1.

(** The walk along a chain. *)
Fixpoint find_key (ps : gmap nat data_pair) (key : list Z) (chain : list nat) : option nat :=
  match chain with
  | [] => None
  | a :: chain' =>
      match ps !! a with
      | Some p => if bool_decide (p_key p = key) then Some a else find_key ps key chain'
      | None => find_key ps key chain'
      end
  end.

(** The bucket [_dict_lookup] and [dict_del] look in: the remainder of an
    unsigned hash. *)
Definition lookup_bucket (d : dict) (key : list Z) : Z := SuperFastHash key `mod` u32 (hash_size d).

(** The bucket [_dict_set] puts a pair in: the remainder of the hash as an [int]. *)
Definition set_bucket (d : dict) (key : list Z) : Z := Z.rem (i32 (SuperFastHash key)) (hash_size d).

Definition chain_at (d : dict) (h : Z) : list nat := nth (Z.to_nat h) (members d) [].

Definition _dict_lookup (d : dict) (key : list Z) : option nat :=
  find_key (pairs d) key (chain_at d (lookup_bucket d key)).

Definition set_value (v : nat) (p : data_pair) : data_pair := mk_pair (p_key p) v.

(** [_dict_set] of a key; [alloc_ok] is the outcome of the two allocations.  An
    index below zero is outside of the array, and the pair is on no chain. *)
Definition _dict_set (alloc_ok : bool) (d : dict) (s : store) (key : list Z) (value : nat) :
    dict * store * Z :=
  match _dict_lookup d key with
  | Some a =>
      let old := match pairs d !! a with Some p => p_value p | None => value end in
      (mk_dict (hash_size d) (count d) (members d) (members_list d)
         (alter (set_value value) a (pairs d)) (p_next d),
       data_unref (data_ref s value) old, 0)
  | None =>
      if alloc_ok then
        let a := p_next d in
        let h := set_bucket d key in
        (mk_dict (hash_size d) (count d + 1)
           (if h <? 0 then members d else alter (cons a) (Z.to_nat h) (members d))
           (a :: members_list d) (<[a := mk_pair key value]> (pairs d)) (S a),
         data_ref s value, 0)
      else (d, s, -1)
  end.

Definition dict_set (alloc_ok : bool) (d : dict) (s : store) (key : list Z) (value : nat) :
    dict * store * Z := _dict_set alloc_ok d s key value.

Definition dict_get (d : dict) (key : list Z) : option nat :=
  a ← _dict_lookup d key; p ← pairs d !! a; Some (p_value p).

(** [dict_get_with_ref]: the reference is the caller's. *)
Definition dict_get_with_ref (d : dict) (s : store) (key : list Z) : option nat * store :=
  match dict_get d key with
  | Some v => (Some v, data_ref s v)
  | None => (None, s)
  end.

(** [dict_del]: the pair leaves its chain and the list of members. *)
Definition dict_del (d : dict) (s : store) (key : list Z) : dict * store :=
  let h := lookup_bucket d key in
  match find_key (pairs d) key (chain_at d h) with
  | None => (d, s)
  | Some a =>
      let value := match pairs d !! a with Some p => p_value p | None => 0%nat end in
      (mk_dict (hash_size d) (count d - 1)
         (alter (List.filter (fun b => negb (b =? a)%nat)) (Z.to_nat h) (members d))
         (List.filter (fun b => negb (b =? a)%nat) (members_list d))
         (delete a (pairs d)) (p_next d),
       data_unref s value)
  end.

(** [dict_destroy]: what the last [dict_unref] does to the values. *)
Definition dict_destroy (d : dict) (s : store) : store :=
  foldl (fun s a => match pairs d !! a with Some p => data_unref s (p_value p) | None => s end)
    s (members_list d).

(** [dict_foreach] with [_copy]: [dict_copy] into a given dictionary. *)
Definition dict_copy (alloc_ok : bool) (d : dict) (new : dict) (s : store) : dict * store :=
  foldl (fun ns a => match pairs d !! a with
                     | Some p => fst (dict_set alloc_ok (fst ns) (snd ns) (p_key p) (p_value p))
                     | None => ns
                     end) (new, s) (members_list d).

(** ** On the wire *)

Definition DICT_HDR_LEN : Z := 4.
Definition DICT_DATA_HDR_KEY_LEN : Z := 4.
Definition DICT_DATA_HDR_VAL_LEN : Z := 4.

(** A 32-bit word in memory, least significant byte first, and back. *)
Definition word_bytes (w : Z) : list Z :=
  [w `mod` 256; (w / 2 ^ 8) `mod` 256; (w / 2 ^ 16) `mod` 256; (w / 2 ^ 24) `mod` 256].

Definition bytes_word (b : list Z) : Z :=
  nth 0 b 0 + nth 1 b 0 * 2 ^ 8 + nth 2 b 0 * 2 ^ 16 + nth 3 b 0 * 2 ^ 24.

Definition sum_Z (l : list Z) : Z := foldr Z.add 0 l.

(** The loop of [_dict_serialized_length], [n] pairs being left. *)
Fixpoint length_loop (d : dict) (s : store) (n : nat) (l : list nat) (len : Z) : Z :=
  match n, l with
  | O, _ => len
  | S _, [] => - EINVAL
  | S n', a :: l' =>
      match pairs d !! a with
      | None => - EINVAL
      | Some p =>
          let len1 := i32 (len + DICT_DATA_HDR_KEY_LEN + DICT_DATA_HDR_VAL_LEN) in
          let len2 := i32 (len1 + Z.of_nat (length (p_key p)) + 1) in
          match s_data s !! p_value p with
          | None => - EINVAL
          | Some v =>
              match d_vec v with
              | Some vec => length_loop d s n' l' (i32 (len2 + sum_Z (take (Z.to_nat (d_len v)) vec)))
              | None => if d_len v <? 0 then - EINVAL
                        else length_loop d s n' l' (i32 (len2 + d_len v))
              end
          end
      end
  end.

Definition _dict_serialized_length (d : dict) (s : store) : Z :=
  if count d <? 0 then - EINVAL
  else length_loop d s (Z.to_nat (count d)) (members_list d) DICT_HDR_LEN.

(** The loop of [_dict_serialize]: the bytes written, or a failure.  A negative
    [vallen] makes the [memcpy] fail to return. *)
Fixpoint serialize_loop (d : dict) (s : store) (n : nat) (l : list nat) : option (list Z) :=
  match n, l with
  | O, _ => Some []
  | S _, [] => None
  | S n', a :: l' =>
      p ← pairs d !! a;
      v ← s_data s !! p_value p;
      bytes ← d_data v;
      rest ← serialize_loop d s n' l';
      Some (word_bytes (hton32 (Z.of_nat (length (p_key p)))) ++ word_bytes (hton32 (d_len v))
            ++ p_key p ++ [0] ++ take (Z.to_nat (d_len v)) bytes ++ rest)
  end.

Definition _dict_serialize (d : dict) (s : store) : option (list Z) :=
  if count d <? 0 then None
  else
    rest ← serialize_loop d s (Z.to_nat (count d)) (members_list d);
    Some (word_bytes (hton32 (count d)) ++ rest).

Definition dict_serialized_length (d : dict) (s : store) : Z := _dict_serialized_length d s.
Definition dict_serialize (d : dict) (s : store) : option (list Z) := _dict_serialize d s.

(** [dict_allocate_and_serialize]: the buffer and its length, or an error. *)
Definition dict_allocate_and_serialize (calloc_ok : bool) (d : dict) (s : store) : (list Z * Z) + Z :=
  let len := _dict_serialized_length d s in
  if len <? 0 then inr len
  else if negb calloc_ok then inr (- ENOMEM)
  else match _dict_serialize d s with
       | None => inr (-1)
       | Some buf => inl (buf, len)
       end.

(** ** From the wire *)

(** What [dict_unserialize] comes to: a value of [ret] with the dictionary filled
    so far, or an access outside of the buffer. *)
Inductive unser :=
  | unser_ret (ret : Z) (d : dict) (s : store)
  | unser_fault.

(** The bytes at an offset. *)
Definition bytes_at (buf : list Z) (pos : Z) (n : nat) : option (list Z) :=
  if (pos <? 0) || (Z.of_nat (length buf) <? pos + Z.of_nat n) then None
  else Some (take n (drop (Z.to_nat pos) buf)).

(** The C string at an offset; [None] if it is not terminated in the buffer. *)
Fixpoint cstring (buf : list Z) : option (list Z) :=
  match buf with
  | [] => None
  | b :: buf' => if b =? 0 then Some [] else k ← cstring buf'; Some (b :: k)
  end.

Definition cstring_at (buf : list Z) (pos : Z) : option (list Z) :=
  if pos <? 0 then None else cstring (drop (Z.to_nat pos) buf).

(** The loop of [dict_unserialize], from offset [pos]. *)
Fixpoint unserialize_loop (n : nat) (buf : list Z) (size pos : Z) (d : dict) (s : store) : unser :=
  match n with
  | O => unser_ret 0 d s
  | S n' =>
      if size <? pos + DICT_DATA_HDR_KEY_LEN then unser_ret (-1) d s
      else match bytes_at buf pos 4 with
      | None => unser_fault
      | Some b1 =>
      let keylen := i32 (ntoh32 (bytes_word b1)) in
      let pos1 := pos + DICT_DATA_HDR_KEY_LEN in
      if size <? pos1 + DICT_DATA_HDR_VAL_LEN then unser_ret (-1) d s
      else match bytes_at buf pos1 4 with
      | None => unser_fault
      | Some b2 =>
      let vallen := i32 (ntoh32 (bytes_word b2)) in
      let pos2 := pos1 + DICT_DATA_HDR_VAL_LEN in
      if size <? pos2 + keylen then unser_ret (-1) d s
      else
      let pos3 := pos2 + keylen + 1 in
      if size <? pos3 + vallen then unser_ret (-1) d s
      else match cstring_at buf pos2 with
      | None => unser_fault
      | Some key =>
      let '(s1, v) := new_data s (mk_data vallen
                        (Some (take (Z.to_nat vallen) (drop (Z.to_nat pos3) buf))) None true 0) in
      let '(d', s', _) := dict_set true d s1 key v in
      unserialize_loop n' buf size (pos3 + vallen) d' s'
      end end end
  end.

(** [dict_unserialize] of a buffer of [size] bytes into a dictionary. *)
Definition dict_unserialize (buf : list Z) (size : Z) (fill : dict) (s : store) : unser :=
  if size =? 0 then unser_ret (-1) fill s
  else if size <? DICT_HDR_LEN then unser_ret (-1) fill s
  else match bytes_at buf 0 4 with
  | None => unser_fault
  | Some b =>
      let n := i32 (ntoh32 (bytes_word b)) in
      if n <? 0 then unser_ret (-1) fill s
      else
        let d0 := mk_dict (hash_size fill) 0 (members fill) (members_list fill) (pairs fill) (p_next fill) in
        unserialize_loop (Z.to_nat n) buf size DICT_HDR_LEN d0 s
  end.
