(* ===== verification/DictProps.v ===== *)
(** * libglusterfs: what dictionaries guarantee *)

From stdpp Require Import base list numbers gmap.
From S2P Require Import Prelude ByteOrder HashFn Dict.
Open Scope Z_scope.

(** ** Buckets *)

Lemma add32_u32 a b : is_u32 (add32 a b).
Proof. unfold add32, u32, is_u32. apply Z.mod_pos_bound. lia. Qed.

Lemma SuperFastHash_u32 key : is_u32 (SuperFastHash key).
Proof.
  unfold SuperFastHash. destruct (_ <=? 1); [unfold is_u32; lia|].
  destruct (sfh_loop _ _ _) as [hash rest]. apply add32_u32.
Qed.

(** The two ways to compute a bucket agree. *)
Definition key_ok (hs : Z) (key : list Z) : Prop := hs = 1 \/ SuperFastHash key < 2 ^ 31.

Definition bucket (hs : Z) (key : list Z) : nat := Z.to_nat (SuperFastHash key `mod` hs).

Lemma lookup_bucket_spec d key :
  1 <= hash_size d < 2 ^ 31 -> Z.to_nat (lookup_bucket d key) = bucket (hash_size d) key.
Proof. intros H. unfold lookup_bucket, bucket. by rewrite u32_small by (unfold is_u32; lia). Qed.

Lemma set_bucket_spec d key :
  1 <= hash_size d < 2 ^ 31 -> key_ok (hash_size d) key ->
  0 <= set_bucket d key /\ Z.to_nat (set_bucket d key) = bucket (hash_size d) key.
Proof.
  intros Hh [Hone|Hk]; unfold set_bucket, bucket.
  - rewrite Hone, Z.rem_1_r, Z.mod_1_r. done.
  - pose proof (SuperFastHash_u32 key) as Hu. unfold is_u32 in Hu.
    assert (i32 (SuperFastHash key) = SuperFastHash key) as ->.
    { unfold i32. rewrite Z.mod_small by lia. lia. }
    rewrite Z.rem_mod_nonneg by lia. split; [|done]. apply Z.mod_pos_bound. lia.
Qed.

(** ** The invariant *)

Definition in_bucket (d : dict) (h : nat) (a : nat) : bool :=
  match pairs d !! a with Some p => (bucket (hash_size d) (p_key p) =? h)%nat | None => false end.

Record wf (d : dict) : Prop := {
  wf_size : 1 <= hash_size d < 2 ^ 31;
  wf_members : length (members d) = Z.to_nat (hash_size d);
  wf_chains : forall h, (h < length (members d))%nat ->
    members d !! h = Some (List.filter (in_bucket d h) (members_list d));
  wf_nodup : NoDup (members_list d);
  wf_pairs : forall a, a ∈ members_list d <-> is_Some (pairs d !! a);
  wf_next : forall a, a ∈ members_list d -> (a < p_next d)%nat;
  wf_keys : forall a b p q, pairs d !! a = Some p -> pairs d !! b = Some q -> p_key p = p_key q -> a = b;
  wf_key_ok : forall a p, pairs d !! a = Some p -> key_ok (hash_size d) (p_key p);
  wf_count : count d = Z.of_nat (length (members_list d))
}.

Lemma bucket_lt hs key : 1 <= hs -> (bucket hs key < Z.to_nat hs)%nat.
Proof. intros H. unfold bucket. pose proof (Z.mod_pos_bound (SuperFastHash key) hs). lia. Qed.

Lemma get_new_dict_full_wf n : 1 <= n < 2 ^ 31 -> wf (get_new_dict_full n).
Proof.
  intros Hn. split; cbn; try done.
  - by rewrite length_replicate.
  - intros h Hh. rewrite length_replicate in Hh. by rewrite lookup_replicate_2.
  - constructor.
  - intros a. rewrite lookup_empty. split; [by intros ?%elem_of_nil|by intros [? ?]].
  - intros a Ha. by apply elem_of_nil in Ha.
Qed.

(** ** Lookup *)

Lemma find_key_some ps key l a :
  find_key ps key l = Some a -> a ∈ l /\ exists p, ps !! a = Some p /\ p_key p = key.
Proof.
  induction l as [|b l IH]; cbn; [done|]. destruct (ps !! b) as [p|] eqn:Hb.
  - destruct (bool_decide_reflect (p_key p = key)) as [Hk|Hk].
    + intros [= ->]. split; [left|eauto].
    + intros [? ?]%IH. split; [by right|done].
  - intros [? ?]%IH. split; [by right|done].
Qed.

Lemma find_key_none ps key l :
  find_key ps key l = None -> forall a p, a ∈ l -> ps !! a = Some p -> p_key p <> key.
Proof.
  induction l as [|b l IH]; cbn; intros H a p Ha Hp; [by apply elem_of_nil in Ha|].
  apply elem_of_cons in Ha as [->|Ha].
  - rewrite Hp in H. by destruct (bool_decide_reflect (p_key p = key)).
  - destruct (ps !! b) as [q|]; [destruct (bool_decide (p_key q = key)); [done|]|]; by eapply IH.
Qed.

Lemma chain_spec d key :
  wf d -> chain_at d (lookup_bucket d key)
  = List.filter (in_bucket d (bucket (hash_size d) key)) (members_list d).
Proof.
  intros Hw. unfold chain_at. rewrite lookup_bucket_spec by apply Hw.
  rewrite nth_lookup, wf_chains; [done|done|].
  rewrite (wf_members d Hw). apply bucket_lt. apply Hw.
Qed.

(** A pair is found exactly when there is one with the key. *)
Lemma lookup_spec d key a :
  wf d -> _dict_lookup d key = Some a <-> exists p, pairs d !! a = Some p /\ p_key p = key.
Proof.
  intros Hw. unfold _dict_lookup. rewrite chain_spec by done. split.
  - intros H. by apply find_key_some in H as [_ ?].
  - intros (p & Hp & Hk).
    destruct (find_key (pairs d) key _) as [b|] eqn:Hf.
    + apply find_key_some in Hf as [_ (q & Hq & Hkq)]. f_equal.
      eapply (wf_keys d Hw); [exact Hq|exact Hp|congruence].
    + exfalso. eapply (find_key_none _ _ _ Hf a p); [|done|done].
      apply list_elem_of_In, List.filter_In. split; [apply list_elem_of_In, wf_pairs; eauto|].
      unfold in_bucket. rewrite Hp, Hk. apply Nat.eqb_refl.
Qed.

Lemma lookup_none d key :
  wf d -> _dict_lookup d key = None <-> forall a p, pairs d !! a = Some p -> p_key p <> key.
Proof.
  intros Hw. destruct (_dict_lookup d key) as [a|] eqn:Hl.
  - apply lookup_spec in Hl as (p & Hp & Hk); [|done]. split; [done|]. intros H. by destruct (H a p).
  - split; [|done]. intros _ a p Hp Hk. assert (_dict_lookup d key = Some a); [|congruence].
    apply lookup_spec; eauto.
Qed.

Lemma get_spec d key v :
  wf d -> dict_get d key = Some v <-> exists a, pairs d !! a = Some (mk_pair key v).
Proof.
  intros Hw. unfold dict_get. split.
  - destruct (_dict_lookup d key) as [a|] eqn:Hl; [|done]. cbn.
    apply lookup_spec in Hl as (p & Hp & Hk); [|done]. rewrite Hp. cbn. intros [= <-]. exists a.
    rewrite Hp. subst key. by destruct p.
  - intros (a & Ha). assert (_dict_lookup d key = Some a) as -> by (apply lookup_spec; eauto).
    cbn. by rewrite Ha.
Qed.

Lemma get_eq d d' key :
  wf d -> wf d' ->
  (forall v, (exists a, pairs d' !! a = Some (mk_pair key v)) <-> (exists a, pairs d !! a = Some (mk_pair key v))) ->
  dict_get d' key = dict_get d key.
Proof.
  intros Hw Hw' H. destruct (dict_get d key) as [v|] eqn:Hg.
  - apply get_spec; [done|]. apply H. by apply get_spec.
  - destruct (dict_get d' key) as [v|] eqn:Hg'; [|done]. apply get_spec, H, get_spec in Hg'; [congruence|done|done].
Qed.

(** ** Setting *)

Lemma filter_ext_elem {A} (f g : A -> bool) l :
  (forall a, a ∈ l -> f a = g a) -> List.filter f l = List.filter g l.
Proof.
  intros H. apply List.filter_ext_in. intros a Ha%list_elem_of_In. by apply H.
Qed.

Lemma set_found_wf d key v a :
  wf d -> _dict_lookup d key = Some a ->
  wf (mk_dict (hash_size d) (count d) (members d) (members_list d)
        (alter (set_value v) a (pairs d)) (p_next d)).
Proof.
  intros Hw Hl.
  assert (forall b q, alter (set_value v) a (pairs d) !! b = Some q ->
            exists p, pairs d !! b = Some p /\ p_key q = p_key p) as Hal.
  { intros b q Hq. destruct (decide (b = a)) as [->|Hne].
    - rewrite lookup_alter_eq in Hq. apply fmap_Some in Hq as (p & ? & ->). eauto.
    - rewrite lookup_alter_ne in Hq by done. eauto. }
  destruct Hw as [H1 H2 H3 H4 H5 H6 H7 H8 H9]. split; cbn; try done.
  - intros h Hh. rewrite H3 by done. f_equal. apply filter_ext_elem. intros b _. unfold in_bucket. cbn.
    destruct (decide (b = a)) as [->|Hne]; [rewrite lookup_alter_eq; by destruct (pairs d !! a)|].
    by rewrite lookup_alter_ne.
  - intros b. rewrite H5. destruct (decide (b = a)) as [->|Hne].
    + rewrite lookup_alter_eq. by destruct (pairs d !! a).
    + by rewrite lookup_alter_ne.
  - intros b c p q Hp Hq Hk. apply Hal in Hp as (p' & Hp' & Ep), Hq as (q' & Hq' & Eq).
    eapply H7; [exact Hp'|exact Hq'|congruence].
  - intros b p Hp. apply Hal in Hp as (p' & Hp' & ->). by eapply H8.
Qed.

Lemma set_new_wf d key v :
  wf d -> key_ok (hash_size d) key -> _dict_lookup d key = None ->
  let a := p_next d in
  wf (mk_dict (hash_size d) (count d + 1)
        (if set_bucket d key <? 0 then members d else alter (cons a) (Z.to_nat (set_bucket d key)) (members d))
        (a :: members_list d) (<[a := mk_pair key v]> (pairs d)) (S a)).
Proof.
  intros Hw Hk Hl a. destruct (set_bucket_spec d key (wf_size d Hw) Hk) as [Hnn Hb].
  destruct (Z.ltb_spec (set_bucket d key) 0); [lia|]. rewrite Hb.
  assert (~ (a ∈ members_list d)) as Hna.
  { intros Ha%(wf_next d Hw). unfold a in Ha. lia. }
  assert (pairs d !! a = None) as Hnone.
  { destruct (pairs d !! a) eqn:E; [|done]. exfalso. apply Hna, (wf_pairs d Hw). eauto. }
  rewrite lookup_none in Hl by done.
  destruct Hw as [H1 H2 H3 H4 H5 H6 H7 H8 H9]. split; cbn.
  - done.
  - by rewrite length_alter.
  - intros h Hh. rewrite length_alter in Hh. unfold in_bucket. cbn. rewrite lookup_insert_eq. cbn.
    assert (List.filter (fun b => match <[a := mk_pair key v]> (pairs d) !! b with
              | Some p => (bucket (hash_size d) (p_key p) =? h)%nat | None => false end) (members_list d)
            = List.filter (in_bucket d h) (members_list d)) as ->.
    { apply filter_ext_elem. intros b Hin. rewrite lookup_insert_ne; [done|]. intros ->. done. }
    destruct (Nat.eqb_spec (bucket (hash_size d) key) h) as [->|Hne].
    + rewrite list_lookup_alter_eq, H3 by done. done.
    + rewrite list_lookup_alter_ne, H3 by done. done.
  - constructor; done.
  - intros b. rewrite elem_of_cons, H5. destruct (decide (b = a)) as [->|Hne].
    + rewrite lookup_insert_eq. split; [eauto|by left].
    + rewrite lookup_insert_ne by done. naive_solver.
  - intros b [->|Hin]%elem_of_cons; [lia|]. apply H6 in Hin. unfold a. lia.
  - intros b c p q Hp Hq Heq. destruct (decide (b = a)) as [->|Hb'], (decide (c = a)) as [->|Hc']; [done| | |].
    + rewrite lookup_insert_eq in Hp. injection Hp as <-. rewrite lookup_insert_ne in Hq by done.
      exfalso. by eapply Hl.
    + rewrite lookup_insert_eq in Hq. injection Hq as <-. rewrite lookup_insert_ne in Hp by done.
      exfalso. by eapply Hl.
    + rewrite lookup_insert_ne in Hp by done. rewrite lookup_insert_ne in Hq by done. by eapply H7.
  - intros b p Hp. destruct (decide (b = a)) as [->|Hb'].
    + rewrite lookup_insert_eq in Hp. by injection Hp as <-.
    + rewrite lookup_insert_ne in Hp by done. by eapply H8.
  - rewrite H9. lia.
Qed.

(** Setting a key: the invariant, the key and the other keys. *)
Lemma dict_set_spec d s key v d' s' r :
  wf d -> key_ok (hash_size d) key -> dict_set true d s key v = (d', s', r) ->
  r = 0 /\ wf d' /\ hash_size d' = hash_size d /\ dict_get d' key = Some v /\
  forall key', key' <> key -> dict_get d' key' = dict_get d key'.
Proof.
  intros Hw Hk. unfold dict_set, _dict_set. destruct (_dict_lookup d key) as [a|] eqn:Hl.
  - intros [= <- <- <-]. pose proof (set_found_wf d key v a Hw Hl) as Hw'.
    pose proof Hl as Hl'. apply lookup_spec in Hl' as (p & Hp & Hpk); [|done].
    split_and!; [done|done|done| |].
    + apply get_spec; [done|]. exists a. cbn. rewrite lookup_alter_eq, Hp. cbn. unfold set_value. by rewrite Hpk.
    + intros key' Hne. apply get_eq; [done..|]. intros w. cbn. split; intros (b & Hb).
      * destruct (decide (b = a)) as [->|Hba]; [|rewrite lookup_alter_ne in Hb by done; eauto].
        rewrite lookup_alter_eq, Hp in Hb. cbn in Hb. injection Hb as H1 H2. congruence.
      * exists b. destruct (decide (b = a)) as [->|Hba]; [|by rewrite lookup_alter_ne].
        rewrite Hp in Hb. injection Hb as ->. done.
  - intros [= <- <- <-]. pose proof (set_new_wf d key v Hw Hk Hl) as Hw'. cbn zeta in Hw'.
    split_and!; [done|done|done| |].
    + apply get_spec; [done|]. exists (p_next d). cbn. by rewrite lookup_insert_eq.
    + intros key' Hne. apply get_eq; [done..|]. intros w. cbn. split; intros (b & Hb).
      * destruct (decide (b = p_next d)) as [->|Hba]; [|rewrite lookup_insert_ne in Hb by done; eauto].
        rewrite lookup_insert_eq in Hb. injection Hb as H1 H2. congruence.
      * exists b. rewrite lookup_insert_ne; [done|]. intros <-.
        assert (p_next d ∈ members_list d) as Hin by (apply (wf_pairs d Hw); eauto).
        apply (wf_next d Hw) in Hin. lia.
Qed.

(** ** Deleting *)

Lemma filter_comm {A} (f g : A -> bool) l : List.filter f (List.filter g l) = List.filter g (List.filter f l).
Proof.
  induction l as [|a l IH]; cbn; [done|]. destruct (g a) eqn:Hg, (f a) eqn:Hf; cbn; rewrite ?Hg, ?Hf, ?IH; done.
Qed.

Lemma filter_id_elem {A} (f : A -> bool) l : (forall a, a ∈ l -> f a = true) -> List.filter f l = l.
Proof.
  induction l as [|a l IH]; intros H; cbn; [done|]. rewrite (H a) by left. f_equal. apply IH. intros b Hb. apply H. by right.
Qed.

Lemma elem_of_filter_ne (l : list nat) a b :
  b ∈ List.filter (fun b => negb (b =? a)%nat) l <-> b ∈ l /\ b <> a.
Proof.
  rewrite !list_elem_of_In, List.filter_In, negb_true_iff, Nat.eqb_neq. done.
Qed.

Lemma length_filter_ne (l : list nat) a :
  NoDup l -> a ∈ l -> S (length (List.filter (fun b => negb (b =? a)%nat) l)) = length l.
Proof.
  induction 1 as [|b l Hb Hnd IH]; intros Ha; [by apply elem_of_nil in Ha|]. cbn.
  destruct (Nat.eqb_spec b a) as [->|Hne]; cbn.
  - f_equal. rewrite filter_id_elem; [done|]. intros c Hc. apply negb_true_iff, Nat.eqb_neq. by intros ->.
  - f_equal. apply IH. by apply elem_of_cons in Ha as [->|?].
Qed.

Lemma del_wf d key a :
  wf d -> _dict_lookup d key = Some a ->
  wf (mk_dict (hash_size d) (count d - 1)
        (alter (List.filter (fun b => negb (b =? a)%nat)) (Z.to_nat (lookup_bucket d key)) (members d))
        (List.filter (fun b => negb (b =? a)%nat) (members_list d)) (delete a (pairs d)) (p_next d)).
Proof.
  intros Hw Hl. rewrite lookup_bucket_spec by apply Hw.
  apply lookup_spec in Hl as (p & Hp & Hk); [|done].
  assert (a ∈ members_list d) as Ha by (apply (wf_pairs d Hw); eauto).
  destruct Hw as [H1 H2 H3 H4 H5 H6 H7 H8 H9]. split; cbn.
  - done.
  - by rewrite length_alter.
  - intros h Hh. rewrite length_alter in Hh.
    set (d' := mk_dict _ _ _ _ _ _).
    assert (List.filter (in_bucket d' h) (List.filter (fun b => negb (b =? a)%nat) (members_list d))
            = List.filter (fun b => negb (b =? a)%nat) (List.filter (in_bucket d h) (members_list d))) as ->.
    { rewrite (filter_comm _ (in_bucket d h)). apply filter_ext_elem. intros b [Hb Hne]%elem_of_filter_ne.
      unfold in_bucket. cbn. by rewrite lookup_delete_ne. }
    destruct (decide (bucket (hash_size d) key = h)) as [->|Hne].
    + by rewrite list_lookup_alter_eq, H3.
    + rewrite list_lookup_alter_ne, H3 by done. f_equal. symmetry. apply filter_id_elem.
      intros b Hb%list_elem_of_In%List.filter_In. destruct Hb as [_ Hb]. apply negb_true_iff, Nat.eqb_neq.
      intros ->. unfold in_bucket in Hb. rewrite Hp, Hk in Hb. by apply Nat.eqb_eq in Hb.
  - apply NoDup_ListNoDup, List.NoDup_filter. by apply NoDup_ListNoDup.
  - intros b. rewrite elem_of_filter_ne, H5. destruct (decide (b = a)) as [->|Hne].
    + rewrite lookup_delete_eq. split; [naive_solver|by intros [? ?]].
    + rewrite lookup_delete_ne by done. naive_solver.
  - intros b [Hb _]%elem_of_filter_ne. auto.
  - intros b c q q' Hq Hq' Heq. apply lookup_delete_Some in Hq as [_ Hq], Hq' as [_ Hq']. by eapply H7.
  - intros b q Hq. apply lookup_delete_Some in Hq as [_ Hq]. by eapply H8.
  - rewrite H9. pose proof (length_filter_ne _ a H4 Ha). lia.
Qed.

Lemma dict_del_spec d s key d' s' :
  wf d -> dict_del d s key = (d', s') ->
  wf d' /\ dict_get d' key = None /\ forall key', key' <> key -> dict_get d' key' = dict_get d key'.
Proof.
  intros Hw. unfold dict_del. fold (_dict_lookup d key).
  destruct (_dict_lookup d key) as [a|] eqn:Hl.
  - intros [= <- <-]. pose proof (del_wf d key a Hw Hl) as Hw'. split; [done|].
    apply lookup_spec in Hl as (p & Hp & Hk); [|done].
    set (d' := mk_dict _ _ _ _ _ _) in *. split.
    + destruct (dict_get d' key) as [v|] eqn:Hg; [|done]. exfalso. apply get_spec in Hg as (b & Hb); [|done].
      cbn in Hb. apply lookup_delete_Some in Hb as [Hne Hb]. apply Hne. symmetry.
      eapply (wf_keys d Hw); [exact Hb|exact Hp|]. by rewrite Hk.
    + intros key' Hne. apply get_eq; [done..|]. intros v. cbn. split; intros (b & Hb).
      * apply lookup_delete_Some in Hb as [_ Hb]. eauto.
      * exists b. rewrite lookup_delete_ne; [done|]. intros <-. rewrite Hp in Hb. injection Hb as ->. done.
  - intros [= <- <-]. split_and!; [done| |done]. unfold dict_get. by rewrite Hl.
Qed.

(** ** Bytes *)

#[local] Opaque hton32 ntoh32.

Lemma bytes_word_bytes w : is_u32 w -> bytes_word (word_bytes w) = w.
Proof.
  unfold is_u32, bytes_word, word_bytes. intros Hw. cbn [nth].
  rewrite (Z.mod_small (w / 2 ^ 24)) by (split; [apply Z.div_pos; lia|apply Z.div_lt_upper_bound; lia]).
  assert (forall x, x `mod` 256 = x - 256 * (x / 256)) as Hm by (intros x; rewrite Z.mod_eq by lia; done).
  rewrite !Hm. change (2 ^ 24) with (2 ^ 16 * 256). change (2 ^ 16) with (2 ^ 8 * 256).
  rewrite <-!Z.div_div by lia. change (2 ^ 8) with 256. lia.
Qed.

Lemma word_read x : 0 <= x < 2 ^ 31 -> i32 (ntoh32 (bytes_word (word_bytes (hton32 x)))) = x.
Proof.
  intros Hx. rewrite bytes_word_bytes by apply hton32_range. rewrite ntoh32_hton32, i32_u32.
  unfold i32. rewrite Z.mod_small by lia. lia.
Qed.

Lemma bytes_at_app pre mid post :
  bytes_at (pre ++ mid ++ post) (Z.of_nat (length pre)) (length mid) = Some mid.
Proof.
  unfold bytes_at. destruct (Z.ltb_spec (Z.of_nat (length pre)) 0); [lia|].
  destruct (Z.ltb_spec (Z.of_nat (length (pre ++ mid ++ post))) (Z.of_nat (length pre) + Z.of_nat (length mid)));
    [rewrite !length_app in *; lia|]. cbn [orb].
  by rewrite Nat2Z.id, drop_app_length, take_app_length.
Qed.

Lemma cstring_app key rest : Forall (fun b => b <> 0) key -> cstring (key ++ 0 :: rest) = Some key.
Proof.
  induction 1 as [|b key Hb _ IH]; cbn; [done|]. destruct (Z.eqb_spec b 0); [done|]. by rewrite IH.
Qed.

(** ** Items *)

Definition entry_bytes (kv : list Z * list Z) : list Z :=
  word_bytes (hton32 (Z.of_nat (length (fst kv)))) ++ word_bytes (hton32 (Z.of_nat (length (snd kv))))
  ++ fst kv ++ [0] ++ snd kv.

Definition entries_bytes (kvs : list (list Z * list Z)) : list Z := concat (map entry_bytes kvs).

(** A pair at an address, with its value, as a key and bytes. *)
Definition item (d : dict) (s : store) (a : nat) (kv : list Z * list Z) : Prop :=
  exists p v, pairs d !! a = Some p /\ s_data s !! p_value p = Some v /\ p_key p = fst kv /\
    d_data v = Some (snd kv) /\ d_len v = Z.of_nat (length (snd kv)) /\ d_vec v = None.

Lemma serialize_items d s l kvs :
  Forall2 (item d s) l kvs -> serialize_loop d s (length l) l = Some (entries_bytes kvs).
Proof.
  induction 1 as [|a kv l kvs (p & v & Hp & Hv & Hk & Hd & Hl & _) _ IH]; cbn; [done|].
  rewrite Hp. cbn. rewrite Hv. cbn. rewrite Hd. cbn. rewrite IH. cbn. rewrite Hl, Nat2Z.id, Hk.
  rewrite take_ge by lia. unfold entries_bytes. cbn. unfold entry_bytes. by rewrite <-!app_assoc.
Qed.

Lemma entry_bytes_length kv :
  Z.of_nat (length (entry_bytes kv)) = 9 + Z.of_nat (length (fst kv)) + Z.of_nat (length (snd kv)).
Proof. unfold entry_bytes. rewrite !length_app. cbn. lia. Qed.

Lemma length_items d s l kvs len :
  Forall2 (item d s) l kvs -> 0 <= len -> len + Z.of_nat (length (entries_bytes kvs)) < 2 ^ 31 ->
  length_loop d s (length l) l len = len + Z.of_nat (length (entries_bytes kvs)).
Proof.
  intros H. revert len. induction H as [|a kv l kvs (p & v & Hp & Hv & Hk & Hd & Hl & Hvec) _ IH];
    intros len Hlen Hmax; [cbn; lia|].
  assert (length (entries_bytes (kv :: kvs)) = length (entry_bytes kv) + length (entries_bytes kvs))%nat as Hcons
    by (unfold entries_bytes; cbn; by rewrite length_app).
  rewrite Hcons in *. pose proof (entry_bytes_length kv) as He.
  assert (forall x, 0 <= x < 2 ^ 31 -> i32 x = x) as Hi by (intros x Hx; unfold i32; rewrite Z.mod_small; lia).
  cbn [length length_loop]. rewrite Hp, Hv, Hvec, Hl, Hk. unfold DICT_DATA_HDR_KEY_LEN, DICT_DATA_HDR_VAL_LEN.
  destruct (Z.ltb_spec (Z.of_nat (length (snd kv))) 0); [lia|].
  rewrite (Hi (len + 4 + 4)), (Hi (len + 4 + 4 + _ + 1)), (Hi (_ + Z.of_nat (length (snd kv)))) by lia.
  rewrite IH by lia. lia.
Qed.

(** ** Reading back *)

Definition content (d : dict) (s : store) (key : list Z) : option (list Z) :=
  v ← dict_get d key; w ← s_data s !! v; d_data w.

(** Values are cells that have been allocated. *)
Definition store_ok (d : dict) (s : store) : Prop :=
  forall a p, pairs d !! a = Some p -> (p_value p < s_next s)%nat.

Lemma set_new_content d s key bytes len st d' s' r :
  wf d -> store_ok d s -> key_ok (hash_size d) key -> _dict_lookup d key = None ->
  let '(s1, v) := new_data s (mk_data len (Some bytes) None st 0) in
  dict_set true d s1 key v = (d', s', r) ->
  wf d' /\ hash_size d' = hash_size d /\ store_ok d' s' /\ content d' s' key = Some bytes /\
  (forall key', key' <> key -> content d' s' key' = content d s key') /\
  (forall key', _dict_lookup d' key' = None <-> key' <> key /\ _dict_lookup d key' = None).
Proof.
  intros Hw Hs Hk Hl. cbn. intros Hset.
  destruct (dict_set_spec _ _ _ _ _ _ _ Hw Hk Hset) as (_ & Hw' & Hhs & Hget & Hother).
  unfold dict_set, _dict_set in Hset. rewrite Hl in Hset. injection Hset as Hd' Hs' _.
  split; [done|]. split; [done|].
  assert (forall v, (v < s_next s)%nat -> s_data s' !! v = s_data s !! v) as Hold.
  { intros v Hv. rewrite <-Hs'. cbn. rewrite lookup_alter_ne, lookup_insert_ne by lia. done. }
  split_and!.
  - intros a p Hp. rewrite <-Hd' in Hp. rewrite <-Hs'. cbn in *. destruct (decide (a = p_next d)) as [->|Hne].
    + rewrite lookup_insert_eq in Hp. injection Hp as <-. cbn. lia.
    + rewrite lookup_insert_ne in Hp by done. apply Hs in Hp. lia.
  - unfold content. rewrite Hget. cbn. rewrite <-Hs'. cbn. rewrite lookup_alter_eq, lookup_insert_eq. done.
  - intros key' Hne. unfold content. rewrite Hother by done. destruct (dict_get d key') as [v|] eqn:Hg; [|done].
    cbn. rewrite Hold; [done|]. apply get_spec in Hg as (a & Ha); [|done]. by apply Hs in Ha.
  - intros key'. rewrite !lookup_none by done. rewrite <-Hd'. cbn. split.
    + intros H. split.
      * intros ->. eapply (H (p_next d)); [by rewrite lookup_insert_eq|done].
      * intros a p Hp. apply (H a). rewrite lookup_insert_ne; [done|]. intros <-.
        assert (p_next d ∈ members_list d) as Hin by (apply (wf_pairs d Hw); eauto).
        apply (wf_next d Hw) in Hin. lia.
    + intros [Hne H] a p Hp. destruct (decide (a = p_next d)) as [->|Ha].
      * rewrite lookup_insert_eq in Hp. injection Hp as <-. cbn. congruence.
      * rewrite lookup_insert_ne in Hp by done. by eapply H.
Qed.

(** The list of the items as a map. *)
Fixpoint find_item (kvs : list (list Z * list Z)) (key : list Z) : option (list Z) :=
  match kvs with
  | [] => None
  | (k, b) :: kvs' => if bool_decide (k = key) then Some b else find_item kvs' key
  end.

Definition item_ok (hs : Z) (kv : list Z * list Z) : Prop :=
  Forall (fun b => b <> 0) (fst kv) /\ key_ok hs (fst kv) /\
  Z.of_nat (length (fst kv)) < 2 ^ 31 /\ Z.of_nat (length (snd kv)) < 2 ^ 31.

(** One round of the loop. *)
Lemma unserialize_step n pre k b rest d s :
  Forall (fun b => b <> 0) k -> Z.of_nat (length k) < 2 ^ 31 -> Z.of_nat (length b) < 2 ^ 31 ->
  let buf := pre ++ entry_bytes (k, b) ++ rest in
  unserialize_loop (S n) buf (Z.of_nat (length buf)) (Z.of_nat (length pre)) d s
  = let '(s1, v) := new_data s (mk_data (Z.of_nat (length b)) (Some b) None true 0) in
    let '(d', s', _) := dict_set true d s1 k v in
    unserialize_loop n buf (Z.of_nat (length buf)) (Z.of_nat (length (pre ++ entry_bytes (k, b)))) d' s'.
Proof.
  intros Hz Hlk Hlb buf.
  set (wk := word_bytes (hton32 (Z.of_nat (length k)))). set (wb := word_bytes (hton32 (Z.of_nat (length b)))).
  assert (buf = pre ++ wk ++ (wb ++ k ++ [0] ++ b ++ rest)) as Hb1.
  { unfold buf, entry_bytes. cbn [fst snd]. by rewrite <-!app_assoc. }
  assert (buf = (pre ++ wk) ++ wb ++ (k ++ [0] ++ b ++ rest)) as Hb2 by (by rewrite Hb1, <-!app_assoc).
  assert (buf = (pre ++ wk ++ wb) ++ (k ++ 0 :: (b ++ rest))) as Hb3 by (by rewrite Hb1, <-!app_assoc).
  assert (buf = (pre ++ wk ++ wb ++ k ++ [0]) ++ b ++ rest) as Hb4 by (by rewrite Hb1, <-!app_assoc).
  assert (length wk = 4 /\ length wb = 4)%nat as [Hwk Hwb] by done.
  assert (Z.of_nat (length (pre ++ entry_bytes (k, b)))
          = Z.of_nat (length pre) + 4 + 4 + Z.of_nat (length k) + 1 + Z.of_nat (length b)) as Hpos.
  { rewrite length_app, Nat2Z.inj_add, entry_bytes_length. cbn [fst snd]. lia. }
  assert (Z.of_nat (length (pre ++ entry_bytes (k, b))) <= Z.of_nat (length buf)) as Hle.
  { unfold buf. rewrite app_assoc, (length_app (pre ++ _)). lia. }
  clearbody buf. rewrite Hpos in *. cbn [unserialize_loop]. unfold DICT_DATA_HDR_KEY_LEN, DICT_DATA_HDR_VAL_LEN.
  destruct (Z.ltb_spec (Z.of_nat (length buf)) (Z.of_nat (length pre) + 4)); [lia|].
  replace (bytes_at buf (Z.of_nat (length pre)) 4) with (Some wk) by (rewrite Hb1, <-Hwk; by rewrite bytes_at_app).
  replace (i32 (ntoh32 (bytes_word wk))) with (Z.of_nat (length k)) by (symmetry; apply word_read; lia).
  destruct (Z.ltb_spec (Z.of_nat (length buf)) (Z.of_nat (length pre) + 4 + 4)); [lia|].
  replace (bytes_at buf (Z.of_nat (length pre) + 4) 4) with (Some wb).
  2:{ replace (Z.of_nat (length pre) + 4) with (Z.of_nat (length (pre ++ wk))) by (rewrite length_app, Hwk; lia).
      rewrite Hb2. symmetry. apply (bytes_at_app (pre ++ wk) wb). }
  replace (i32 (ntoh32 (bytes_word wb))) with (Z.of_nat (length b)) by (symmetry; apply word_read; lia).
  destruct (Z.ltb_spec (Z.of_nat (length buf)) (Z.of_nat (length pre) + 4 + 4 + Z.of_nat (length k))); [lia|].
  destruct (Z.ltb_spec (Z.of_nat (length buf))
    (Z.of_nat (length pre) + 4 + 4 + Z.of_nat (length k) + 1 + Z.of_nat (length b))); [lia|].
  replace (cstring_at buf (Z.of_nat (length pre) + 4 + 4)) with (Some k).
  2:{ unfold cstring_at. destruct (Z.ltb_spec (Z.of_nat (length pre) + 4 + 4) 0); [lia|].
      replace (Z.to_nat (Z.of_nat (length pre) + 4 + 4)) with (length (pre ++ wk ++ wb))
        by (rewrite !length_app, Hwk, Hwb; lia). rewrite Hb3, drop_app_length. by rewrite cstring_app. }
  replace (take (Z.to_nat (Z.of_nat (length b))) (drop (Z.to_nat (Z.of_nat (length pre) + 4 + 4 + Z.of_nat (length k) + 1)) buf))
    with b; [done|].
  replace (Z.to_nat (Z.of_nat (length pre) + 4 + 4 + Z.of_nat (length k) + 1)) with (length (pre ++ wk ++ wb ++ k ++ [0]))
    by (rewrite !length_app, Hwk, Hwb; cbn; lia).
  by rewrite Hb4, drop_app_length, Nat2Z.id, take_app_length.
Qed.

Lemma unserialize_items kvs pre d s :
  wf d -> store_ok d s -> Forall (item_ok (hash_size d)) kvs -> NoDup kvs.*1 ->
  Forall (fun kv => _dict_lookup d (fst kv) = None) kvs ->
  let buf := pre ++ entries_bytes kvs in
  exists d' s', unserialize_loop (length kvs) buf (Z.of_nat (length buf)) (Z.of_nat (length pre)) d s
                = unser_ret 0 d' s' /\ wf d' /\
    forall key, content d' s' key
      = match find_item kvs key with Some b => Some b | None => content d s key end.
Proof.
  revert pre d s. induction kvs as [|[k b] kvs IH]; intros pre d s Hw Hs Hok Hnd Hnew buf.
  { exists d, s. split_and!; done. }
  apply Forall_cons in Hok as [(Hz & Hkok & Hlk & Hlb) Hok]. cbn [fst snd] in *.
  cbn in Hnd. apply NoDup_cons in Hnd as [Hnk Hnd]. apply Forall_cons in Hnew as [Hnk0 Hnew]. cbn in Hnk0.
  assert (buf = pre ++ entry_bytes (k, b) ++ entries_bytes kvs) as Hb by done.
  clearbody buf. subst buf. cbn [length]. rewrite unserialize_step by done.
  destruct (new_data s (mk_data (Z.of_nat (length b)) (Some b) None true 0)) as [s1 v] eqn:Hnd1.
  destruct (dict_set true d s1 k v) as [[d1 s2] r] eqn:Hset.
  pose proof (set_new_content d s k b (Z.of_nat (length b)) true d1 s2 r Hw Hs Hkok Hnk0) as Hc.
  rewrite Hnd1 in Hc. destruct (Hc Hset) as (Hw1 & Hhs & Hs1 & Hk1 & Ho1 & Hl1).
  destruct (IH (pre ++ entry_bytes (k, b)) d1 s2) as (d' & s' & Hu & Hw' & Hcont); [done|done|by rewrite Hhs|done| |].
  { rewrite Forall_forall in Hnew |- *. intros kv Hin. apply Hl1. split; [|by apply Hnew].
    intros <-. apply Hnk. apply list_elem_of_fmap. eauto. }
  rewrite <-app_assoc in Hu. exists d', s'. split; [exact Hu|]. split; [done|].
  intros key. rewrite Hcont. cbn. destruct (bool_decide_reflect (k = key)) as [->|Hne].
  - assert (find_item kvs key = None) as ->; [|done]. clear -Hnk.
    induction kvs as [|[k' b'] kvs IH]; cbn in *; [done|]. apply not_elem_of_cons in Hnk as [? ?].
    rewrite bool_decide_false by congruence. by apply IH.
  - destruct (find_item kvs key); [done|]. apply Ho1. congruence.
Qed.

(** ** A concrete dictionary *)

Definition value_of (bytes : list Z) : data_t :=
  mk_data (Z.of_nat (length bytes)) (Some bytes) None false 0.

(** Keys "ab" and "cd" with values of two bytes and of none. *)
Definition s_two : store := mk_store (<[0%nat := value_of [1; 0]]> (<[1%nat := value_of []]> ∅)) 2.

Definition two : dict * store :=
  let '(d1, s1, _) := dict_set true get_new_dict s_two [97; 98] 0 in
  let '(d2, s2, _) := dict_set true d1 s1 [99; 100] 1 in
  (d2, s2).

(** ** Facts for the theorems *)

(** Every pair can be put on the wire: a key without NUL bytes and a value of
    plain data, both of a length that fits an [int]. *)
Definition serializable (d : dict) (s : store) (kvs : list (list Z * list Z)) : Prop :=
  wf d /\ Forall2 (item d s) (members_list d) kvs /\
  Forall (fun kv => Forall (fun b => b <> 0) (fst kv)) kvs /\
  DICT_HDR_LEN + Z.of_nat (length (entries_bytes kvs)) < 2 ^ 31.

Lemma entries_bytes_cons kv kvs : entries_bytes (kv :: kvs) = entry_bytes kv ++ entries_bytes kvs.
Proof. done. Qed.

Lemma entries_bytes_in kv kvs :
  kv ∈ kvs -> (length (entry_bytes kv) <= length (entries_bytes kvs))%nat.
Proof.
  induction kvs as [|kv' kvs IH]; intros Hin; [by apply elem_of_nil in Hin|].
  rewrite entries_bytes_cons, length_app.
  apply elem_of_cons in Hin as [->|Hin]; [lia|]. apply IH in Hin. lia.
Qed.

Lemma entries_count kvs : (length kvs <= length (entries_bytes kvs))%nat.
Proof.
  induction kvs as [|kv kvs IH]; [done|]. rewrite entries_bytes_cons, length_app. cbn [length].
  pose proof (entry_bytes_length kv). lia.
Qed.

(** The items hold the keys once and what the dictionary holds under them. *)
Lemma items_keys d s kvs :
  wf d -> Forall2 (item d s) (members_list d) kvs -> NoDup kvs.*1.
Proof.
  intros Hw H. pose proof (wf_nodup d Hw) as Hnd. revert H Hnd. generalize (members_list d). intros l H.
  induction H as [|a kv l kvs (p & v & Hp & _ & Hk & _) Hrest IH]; intros Hnd; cbn; [constructor|].
  apply NoDup_cons in Hnd as [Hna Hnd]. constructor; [|by apply IH]. intros Hin.
  apply list_elem_of_fmap in Hin as (kv' & Heq & Hin).
  apply list_elem_of_lookup in Hin as [i Hi]. 
  destruct (Forall2_lookup_r _ _ _ _ _ Hrest Hi) as (b & Hb & q & w & Hq & _ & Hk' & _).
  apply Hna. replace a with b; [by eapply list_elem_of_lookup_2|].
  eapply (wf_keys d Hw); [exact Hq|exact Hp|congruence].
Qed.

Lemma items_content d s kvs key :
  wf d -> Forall2 (item d s) (members_list d) kvs -> find_item kvs key = content d s key.
Proof.
  intros Hw H.
  assert (forall a kv, a ∈ members_list d -> item d s a kv -> content d s (fst kv) = Some (snd kv)) as Hc.
  { intros a kv _ (p & v & Hp & Hv & Hk & Hd & _). unfold content.
    replace (dict_get d (fst kv)) with (Some (p_value p)).
    - cbn. rewrite Hv. done.
    - symmetry. apply get_spec; [done|]. exists a. rewrite Hp, <-Hk. by destruct p. }
  destruct (content d s key) as [b|] eqn:Hcont.
  - unfold content in Hcont. destruct (dict_get d key) as [v|] eqn:Hg; [|done]. cbn in Hcont.
    apply get_spec in Hg as (a & Ha); [|done].
    assert (a ∈ members_list d) as Hin by (apply (wf_pairs d Hw); eauto).
    apply list_elem_of_lookup in Hin as [i Hi].
    destruct (Forall2_lookup_l _ _ _ _ _ H Hi) as (kv & Hkv & (p & w & Hp & Hv & Hk & Hd & _)).
    rewrite Ha in Hp. injection Hp as <-. cbn in Hk, Hv. rewrite Hv in Hcont. cbn in Hcont.
    assert (kv = (key, b)) as -> by (destruct kv; cbn in *; congruence).
    pose proof (items_keys d s kvs Hw H) as Hnd. clear -Hkv Hnd.
    apply list_elem_of_lookup_2 in Hkv. induction kvs as [|[k c] kvs IH]; [by apply elem_of_nil in Hkv|]. cbn in *.
    apply NoDup_cons in Hnd as [Hnk Hnd]. destruct (bool_decide_reflect (k = key)) as [->|Hne].
    + apply elem_of_cons in Hkv as [[= ->]|Hkv]; [done|]. exfalso. apply Hnk.
      apply list_elem_of_fmap. by exists (key, b).
    + apply IH; [|done]. apply elem_of_cons in Hkv as [[= -> ->]|Hkv]; done.
  - destruct (find_item kvs key) as [b|] eqn:Hf; [|done]. exfalso.
    assert (exists kv, kv ∈ kvs /\ fst kv = key) as (kv & Hin & <-).
    { clear -Hf. induction kvs as [|[k c] kvs IH]; cbn in Hf; [done|].
      destruct (bool_decide_reflect (k = key)) as [->|]; [exists (key, c); split; [left|done]|].
      destruct (IH Hf) as (kv & ? & ?). exists kv. split; [by right|done]. }
    apply list_elem_of_lookup in Hin as [i Hi].
    destruct (Forall2_lookup_r _ _ _ _ _ H Hi) as (a & Ha & Hit).
    rewrite (Hc a kv) in Hcont; [done|by eapply list_elem_of_lookup_2|done].
Qed.

(** ** Theorems *)

(** C35: A dictionary is a map.  Whatever its chains look like, as long as the
    invariant of the lists holds, [dict_set] and [dict_del] keep it, [dict_get]
    finds what was last set under a key and nothing after a delete, and other
    keys are not affected; a [dict_set] without memory changes nothing. *)
Theorem dict_is_a_map (d : dict) (s : store) (key : list Z) (v : nat) :
  wf d -> key_ok (hash_size d) key ->
  (let '(d', s', r) := dict_set true d s key v in
   r = 0 /\ wf d' /\ dict_get d' key = Some v /\
   forall key', key' <> key -> dict_get d' key' = dict_get d key') /\
  (let '(d', s') := dict_del d s key in
   wf d' /\ dict_get d' key = None /\ forall key', key' <> key -> dict_get d' key' = dict_get d key') /\
  (dict_get d key = None -> dict_set false d s key v = (d, s, -1)).
Proof.
  intros Hw Hk. split; [|split].
  - destruct (dict_set true d s key v) as [[d' s'] r] eqn:Hset.
    destruct (dict_set_spec _ _ _ _ _ _ _ Hw Hk Hset) as (-> & Hw' & _ & Hg & Ho). done.
  - destruct (dict_del d s key) as [d' s'] eqn:Hdel. by apply (dict_del_spec _ _ _ _ _ Hw Hdel).
  - intros Hg. unfold dict_set, _dict_set. destruct (_dict_lookup d key) as [a|] eqn:Hl; [|done].
    exfalso. unfold dict_get in Hg. rewrite Hl in Hg. cbn in Hg.
    apply lookup_spec in Hl as (p & Hp & _); [|done]. by rewrite Hp in Hg.
Qed.

Lemma two_wf : wf (fst two).
Proof.
  unfold two.
  destruct (dict_set true get_new_dict s_two [97; 98] 0) as [[d1 s1] r1] eqn:H1.
  apply dict_set_spec in H1 as (_ & Hw1 & Hh1 & _); [|by apply get_new_dict_full_wf|by left].
  destruct (dict_set true d1 s1 [99; 100] 1) as [[d2 s2] r2] eqn:H2.
  apply dict_set_spec in H2 as (_ & Hw2 & _); [done|done|]. left. by rewrite Hh1.
Qed.

Lemma dict_is_a_map_witness :
  let '(d', s') := dict_del (fst two) (snd two) [97; 98] in
  dict_get d' [97; 98] = None /\ dict_get d' [99; 100] = Some 1%nat.
Proof.
  pose proof (dict_is_a_map (fst two) (snd two) [97; 98] 0 two_wf (or_introl eq_refl)) as (_ & Hdel & _).
  destruct (dict_del (fst two) (snd two) [97; 98]) as [d' s']. destruct Hdel as (_ & Hn & Ho).
  split; [exact Hn|]. rewrite Ho by discriminate. reflexivity.
Defined.

(** C37: Dictionaries survive the wire.  For a dictionary of plain values the
    serialized form is exactly as long as [dict_serialized_length] says, and
    [dict_unserialize] of it into a new dictionary succeeds and gives the same
    bytes under the same keys. *)
Theorem dict_wire_roundtrip (d : dict) (s s0 : store) (kvs : list (list Z * list Z)) :
  serializable d s kvs ->
  exists buf d' s', dict_serialize d s = Some buf /\
    dict_serialized_length d s = Z.of_nat (length buf) /\
    dict_unserialize buf (Z.of_nat (length buf)) get_new_dict s0 = unser_ret 0 d' s' /\ wf d' /\
    forall key, content d' s' key = content d s key.
Proof.
  intros (Hw & Hit & Hz & Hmax). unfold DICT_HDR_LEN in Hmax.
  pose proof (Forall2_length _ _ _ Hit) as Hlk. pose proof (entries_count kvs) as Hcnt.
  pose proof (wf_count d Hw) as Hc. set (w := word_bytes (hton32 (count d))).
  assert (wf get_new_dict) as Hnew by (by apply get_new_dict_full_wf).
  destruct (unserialize_items kvs w get_new_dict s0) as (d' & s' & Hu & Hw' & Hcont).
  - done.
  - intros a p Hp. cbn in Hp. by rewrite lookup_empty in Hp.
  - rewrite Forall_forall in Hz |- *. intros kv Hin. split; [by apply Hz|]. split; [by left|].
    apply entries_bytes_in in Hin. pose proof (entry_bytes_length kv). lia.
  - exact (items_keys d s kvs Hw Hit).
  - apply Forall_forall. intros kv _. apply lookup_none; [done|]. intros a p Hp. cbn in Hp.
    by rewrite lookup_empty in Hp.
  - exists (w ++ entries_bytes kvs), d', s'.
    unfold dict_serialize, _dict_serialize, dict_serialized_length, _dict_serialized_length.
    destruct (Z.ltb_spec (count d) 0); [lia|].
    assert (Z.to_nat (count d) = length (members_list d)) as Hn by lia.
    rewrite Hn, (serialize_items _ _ _ _ Hit). split; [done|]. split.
    { rewrite (length_items _ _ _ _ _ Hit) by (unfold DICT_HDR_LEN; lia). rewrite length_app.
      unfold DICT_HDR_LEN, w. cbn [word_bytes length]. lia. }
    split; [|split; [done|]].
    + unfold dict_unserialize. assert (4 <= Z.of_nat (length (w ++ entries_bytes kvs))) as H4.
      { rewrite length_app. unfold w. cbn [word_bytes length]. lia. }
      destruct (Z.eqb_spec (Z.of_nat (length (w ++ entries_bytes kvs))) 0); [lia|]. unfold DICT_HDR_LEN.
      destruct (Z.ltb_spec (Z.of_nat (length (w ++ entries_bytes kvs))) 4); [lia|].
      assert (bytes_at (w ++ entries_bytes kvs) 0 4 = Some w) as -> by apply (bytes_at_app [] w).
      assert (i32 (ntoh32 (bytes_word w)) = count d) as -> by (apply word_read; lia).
      destruct (Z.ltb_spec (count d) 0); [lia|]. rewrite Hn, Hlk. exact Hu.
    + intros key. rewrite Hcont, (items_content d s kvs key Hw Hit).
      destruct (content d s key); [done|]. unfold content, dict_get.
      rewrite (proj2 (lookup_none _ _ Hnew)); [done|]. intros a p Hp. cbn in Hp. by rewrite lookup_empty in Hp.
Qed.

Lemma dict_wire_roundtrip_witness :
  exists buf d' s', dict_serialize (fst two) (snd two) = Some buf /\
    dict_unserialize buf (Z.of_nat (length buf)) get_new_dict s_two = unser_ret 0 d' s' /\
    content d' s' [97; 98] = Some [1; 0].
Proof.
  destruct (dict_wire_roundtrip (fst two) (snd two) s_two [([99; 100], []); ([97; 98], [1; 0])])
    as (buf & d' & s' & H1 & _ & H3 & _ & H5).
  - split; [exact two_wf|]. split; [|split].
    + change (members_list (fst two)) with [1%nat; 0%nat]. constructor; [|constructor; [|constructor]].
      * exists (mk_pair [99; 100] 1), (mk_data 0 (Some []) None false 1). repeat split.
      * exists (mk_pair [97; 98] 0), (mk_data 2 (Some [1; 0]) None false 1). repeat split.
    + repeat constructor; discriminate.
    + vm_compute. reflexivity.
  - exists buf, d', s'. split; [exact H1|]. split; [exact H3|]. rewrite H5. reflexivity.
Defined.

(** A malformed buffer is read past its end.  The checks of
    [dict_unserialize] leave no room for the NUL byte of a key, and accept a
    negative length of a value: this buffer of 13 bytes passes them all, and its
    key is not terminated in the buffer. *)
Theorem unserialize_reads_past_end :
  let buf := [0; 0; 0; 1; 0; 0; 0; 1; 255; 255; 255; 255; 65] in
  dict_unserialize buf (Z.of_nat (length buf)) get_new_dict s_two = unser_fault.
Proof. by vm_compute. Qed.
