(* ===== verification/Iobuf.v ===== *)
(** * libglusterfs: io buffers

    Model of src/libglusterfs/src/iobuf.c: a pool of arenas of memory, each divided
    into buffers that are counted and given back.  An arena is named by its
    address, and a buffer by its arena and its number in it.  [None] is a fault: an
    arena that was freed is touched, an assertion fails, a buffer is taken from an
    empty list, or a division by zero.  Counters are exact: none can pass the number
    of buffers of an arena or of references held. *)

From stdpp Require Import gmap base list numbers strings.
From S2P Require Import Prelude.
Open Scope Z_scope.

(** ** Data *)

Record iobuf := mk_iobuf { ib_ref : Z; ib_ptr : Z }.

Record iobuf_arena := mk_arena {
  ar_mem_base : Z;
  ar_iobufs : list iobuf;
  ar_active_cnt : Z;
  ar_active : list nat;
  ar_passive_cnt : Z;
  ar_passive : list nat
}.

Record iobuf_pool := mk_pool {
  ip_page_size : Z;
  ip_arena_size : Z;
  ip_arena_cnt : Z;
  ip_arenas : list Z;
  ip_filled : list Z;
  ip_purge : list Z;
  ip_mem : gmap Z iobuf_arena
}.

(** A pointer to a buffer. *)
Abbreviation bufp := (Z * nat)%type.

Definition set_lists (arenas filled purge : list Z) (p : iobuf_pool) : iobuf_pool :=
  mk_pool (ip_page_size p) (ip_arena_size p) (ip_arena_cnt p) arenas filled purge (ip_mem p).
Definition set_arena_cnt (n : Z) (p : iobuf_pool) : iobuf_pool :=
  mk_pool (ip_page_size p) (ip_arena_size p) n (ip_arenas p) (ip_filled p) (ip_purge p) (ip_mem p).
Definition set_mem (m : gmap Z iobuf_arena) (p : iobuf_pool) : iobuf_pool :=
  mk_pool (ip_page_size p) (ip_arena_size p) (ip_arena_cnt p) (ip_arenas p) (ip_filled p) (ip_purge p) m.

Definition set_arena (a : Z) (ar : iobuf_arena) (p : iobuf_pool) : iobuf_pool := set_mem (<[a := ar]> (ip_mem p)) p.

(** [list_del] of the node of an arena, in whichever list it is. *)
Definition unlink_arena (a : Z) (p : iobuf_pool) : iobuf_pool :=
  set_lists (list_del a (ip_arenas p)) (list_del a (ip_filled p)) (list_del a (ip_purge p)) p.

Definition set_buf_lists (active passive : list nat) (ar : iobuf_arena) (active_cnt passive_cnt : Z) : iobuf_arena :=
  mk_arena (ar_mem_base ar) (ar_iobufs ar) active_cnt active passive_cnt passive.

Definition set_iobufs (l : list iobuf) (ar : iobuf_arena) : iobuf_arena :=
  mk_arena (ar_mem_base ar) l (ar_active_cnt ar) (ar_active ar) (ar_passive_cnt ar) (ar_passive ar).

(** ** Arenas *)

(** The loop of [__iobuf_arena_init_iobufs]: [i] buffers are made and [n] are left.
    [offset] is an [int]. *)
Fixpoint init_iobufs (page_size : Z) (n i : nat) (offset : Z) (ar : iobuf_arena) : iobuf_arena :=
  match n with
  | O => ar
  | S n' =>
      init_iobufs page_size n' (S i) (i32 (offset + page_size))
        (mk_arena (ar_mem_base ar) (ar_iobufs ar ++ [mk_iobuf 0 (ar_mem_base ar + offset)]) (ar_active_cnt ar)
           (ar_active ar) (ar_passive_cnt ar + 1) (list_add i (ar_passive ar)))
  end.

Definition iobuf_cnt (p : iobuf_pool) : option Z :=
  if ip_page_size p =? 0 then None else Some (i32 (ip_arena_size p / ip_page_size p)).

Definition __iobuf_arena_init_iobufs (mem_base : Z) (p : iobuf_pool) : option iobuf_arena :=
  n ← iobuf_cnt p;
  Some (init_iobufs (ip_page_size p) (Z.to_nat n) 0 0 (mk_arena mem_base [] 0 [] 0 [])).

(** The buffers are not referred to any more. *)
Definition __iobuf_arena_destroy_iobufs (ar : iobuf_arena) : bool := forallb (fun b => ib_ref b =? 0) (ar_iobufs ar).

Definition __iobuf_arena_destroy (a : Z) (p : iobuf_pool) : option iobuf_pool :=
  ar ← ip_mem p !! a;
  if __iobuf_arena_destroy_iobufs ar then Some (set_mem (delete a (ip_mem p)) p) else None.

(** [mem] is the memory for an arena, with its address and that of its buffers, or
    nothing where an allocation fails; what was allocated is then freed again. *)
Definition __iobuf_arena_alloc (mem : option (Z * Z)) (p : iobuf_pool) : option (iobuf_pool * option Z) :=
  match mem with
  | None => Some (p, None)
  | Some (a, mem_base) =>
      ar ← __iobuf_arena_init_iobufs mem_base p;
      Some (set_arena_cnt (ip_arena_cnt p + 1) (set_arena a ar p), Some a)
  end.

Definition __iobuf_arena_unprune (p : iobuf_pool) : iobuf_pool * option Z :=
  match ip_purge p with
  | [] => (p, None)
  | a :: purge => (set_lists (ip_arenas p) (ip_filled p) purge p, Some a)
  end.

Definition __iobuf_pool_add_arena (mem : option (Z * Z)) (p : iobuf_pool) : option (iobuf_pool * option Z) :=
  '(p1, found) ← (let '(p1, found) := __iobuf_arena_unprune p in
                  match found with Some a => Some (p1, Some a) | None => __iobuf_arena_alloc mem p1 end);
  match found with
  | None => Some (p1, None)
  | Some a => Some (set_lists (list_add_tail a (ip_arenas p1)) (ip_filled p1) (ip_purge p1) p1, Some a)
  end.

Definition iobuf_pool_add_arena := __iobuf_pool_add_arena.

(** The outer [option] is the fault, the inner one the pool. *)
Definition iobuf_pool_new (arena_size page_size : Z) (alloc : bool) (mem : option (Z * Z)) : option (option iobuf_pool) :=
  if arena_size <? page_size then Some None
  else if negb alloc then Some None
  else '(p, _) ← iobuf_pool_add_arena mem (mk_pool page_size arena_size 0 [] [] [] ∅); Some (Some p).

(** Both loops over arenas: each is taken off its list and destroyed. *)
Fixpoint destroy_arenas (l : list Z) (p : iobuf_pool) : option iobuf_pool :=
  match l with
  | [] => Some p
  | a :: l' =>
      p' ← __iobuf_arena_destroy a (set_arena_cnt (ip_arena_cnt p - 1) (unlink_arena a p));
      destroy_arenas l' p'
  end.

Definition iobuf_pool_destroy (p : iobuf_pool) : option iobuf_pool := destroy_arenas (ip_arenas p) p.

(** The arenas of the purge list that have no buffer in use. *)
Fixpoint idle_arenas (l : list Z) (p : iobuf_pool) : option (list Z) :=
  match l with
  | [] => Some []
  | a :: l' =>
      ar ← ip_mem p !! a;
      rest ← idle_arenas l' p;
      Some (if ar_active_cnt ar =? 0 then a :: rest else rest)
  end.

Definition __iobuf_pool_prune (p : iobuf_pool) : option iobuf_pool :=
  match ip_arenas p with
  | [] => Some p
  | _ :: _ => l ← idle_arenas (ip_purge p) p; destroy_arenas l p
  end.

Definition iobuf_pool_prune := __iobuf_pool_prune.

(** ** Buffers *)

Fixpoint select_loop (l : list Z) (p : iobuf_pool) : option (option Z) :=
  match l with
  | [] => Some None
  | a :: l' => ar ← ip_mem p !! a; if ar_passive_cnt ar =? 0 then select_loop l' p else Some (Some a)
  end.

Definition __iobuf_select_arena (mem : option (Z * Z)) (p : iobuf_pool) : option (iobuf_pool * option Z) :=
  found ← select_loop (ip_arenas p) p;
  match found with Some a => Some (p, Some a) | None => __iobuf_pool_add_arena mem p end.

(** [iobuf->ref] changes by [d]; the result is the new count. *)
Definition change_ref (d : Z) (b : bufp) (p : iobuf_pool) : option (iobuf_pool * Z) :=
  ar ← ip_mem p !! b.1;
  ib ← ar_iobufs ar !! b.2;
  Some (set_arena b.1 (set_iobufs (<[b.2 := mk_iobuf (ib_ref ib + d) (ib_ptr ib)]> (ar_iobufs ar)) ar) p, ib_ref ib + d).

Definition __iobuf_ref (b : bufp) (p : iobuf_pool) : option iobuf_pool := '(p', _) ← change_ref 1 b p; Some p'.
Definition __iobuf_unref (b : bufp) (p : iobuf_pool) : option (iobuf_pool * Z) := change_ref (-1) b p.

Definition __iobuf_get (a : Z) (p : iobuf_pool) : option (iobuf_pool * bufp) :=
  ar ← ip_mem p !! a;
  match ar_passive ar with
  | [] => None
  | i :: passive =>
      let passive_cnt := ar_passive_cnt ar - 1 in
      let p1 := set_arena a (set_buf_lists (list_add i (ar_active ar)) passive ar (ar_active_cnt ar + 1) passive_cnt) p in
      let p2 := if passive_cnt =? 0 then
                  let q := unlink_arena a p1 in set_lists (ip_arenas q) (list_add a (ip_filled q)) (ip_purge q) q
                else p1 in
      Some (p2, (a, i))
  end.

Definition iobuf_get (mem : option (Z * Z)) (p : iobuf_pool) : option (iobuf_pool * option bufp) :=
  '(p1, found) ← __iobuf_select_arena mem p;
  match found with
  | None => Some (p1, None)
  | Some a => '(p2, b) ← __iobuf_get a p1; p3 ← __iobuf_ref b p2; Some (p3, Some b)
  end.

Definition __iobuf_put (b : bufp) (p : iobuf_pool) : option iobuf_pool :=
  let '(a, i) := b in
  ar ← ip_mem p !! a;
  let p1 := if ar_passive_cnt ar =? 0 then
              let q := unlink_arena a p in set_lists (list_add_tail a (ip_arenas q)) (ip_filled q) (ip_purge q) q
            else p in
  let active_cnt := ar_active_cnt ar - 1 in
  let p2 := set_arena a (set_buf_lists (list_del i (ar_active ar)) (list_add i (list_del i (ar_passive ar))) ar
                           active_cnt (ar_passive_cnt ar + 1)) p1 in
  Some (if active_cnt =? 0 then
          let q := unlink_arena a p2 in set_lists (ip_arenas q) (ip_filled q) (list_add_tail a (ip_purge q)) q
        else p2).

(** [iobuf_put] takes the lock of the pool twice. *)
Definition iobuf_put (b : bufp) (p : iobuf_pool) : option iobuf_pool := p' ← __iobuf_put b p; iobuf_pool_prune p'.

Definition iobuf_unref (b : bufp) (p : iobuf_pool) : option iobuf_pool :=
  '(p', ref) ← __iobuf_unref b p;
  if ref =? 0 then iobuf_put b p' else Some p'.

Definition iobuf_ref (b : bufp) (p : iobuf_pool) : option iobuf_pool := __iobuf_ref b p.

(** ** Sets of buffers *)

Record iobref := mk_iobref { rf_ref : Z; rf_iobrefs : list (option bufp) }.

Definition iobref_new : iobref := mk_iobref 1 (replicate 8 None).

Definition iobref_ref (r : iobref) : iobref := mk_iobref (rf_ref r + 1) (rf_iobrefs r).

Fixpoint iobref_destroy (slots : list (option bufp)) (p : iobuf_pool) : option iobuf_pool :=
  match slots with
  | [] => Some p
  | Some b :: slots' => p' ← iobuf_unref b p; iobref_destroy slots' p'
  | None :: slots' => iobref_destroy slots' p
  end.

(** The set is gone where the first component is [None]. *)
Definition iobref_unref (r : iobref) (p : iobuf_pool) : option (option iobref * iobuf_pool) :=
  let ref := rf_ref r - 1 in
  if ref =? 0 then p' ← iobref_destroy (rf_iobrefs r) p; Some (None, p')
  else Some (Some (mk_iobref ref (rf_iobrefs r)), p).

(** The first slot that is free is filled. *)
Fixpoint fill_slot (b : bufp) (slots : list (option bufp)) : option (list (option bufp)) :=
  match slots with
  | [] => None
  | None :: slots' => Some (Some b :: slots')
  | Some c :: slots' => cons (Some c) <$> fill_slot b slots'
  end.

Definition __iobref_add (r : iobref) (b : bufp) (p : iobuf_pool) : option (iobref * iobuf_pool * Z) :=
  match fill_slot b (rf_iobrefs r) with
  | Some slots => p' ← iobuf_ref b p; Some (mk_iobref (rf_ref r) slots, p', 0)
  | None => Some (r, p, - ENOMEM)
  end.

Definition iobref_add (r : option iobref) (b : option bufp) (p : iobuf_pool) : option (option iobref * iobuf_pool * Z) :=
  match r, b with
  | Some r, Some b => '(r', p', ret) ← __iobref_add r b p; Some (Some r', p', ret)
  | _, _ => Some (r, p, - EINVAL)
  end.

Fixpoint merge_loop (to : iobref) (from : list (option bufp)) (ret : Z) (p : iobuf_pool) : option (iobref * iobuf_pool * Z) :=
  match from with
  | Some b :: from' =>
      '(to', p', ret') ← __iobref_add to b p;
      if ret' <? 0 then Some (to', p', ret') else merge_loop to' from' ret' p'
  | _ => Some (to, p, ret)
  end.

Definition iobref_merge (to from : iobref) (p : iobuf_pool) : option (iobref * iobuf_pool * Z) :=
  merge_loop to (rf_iobrefs from) 0 p.

Definition iobuf_size (b : option bufp) (p : iobuf_pool) : Z := match b with Some _ => ip_page_size p | None => 0 end.

Definition iobref_size (r : option iobref) (p : iobuf_pool) : Z :=
  match r with Some r => foldr (fun b n => u64 (iobuf_size b p + n)) 0 (rf_iobrefs r) | None => 0 end.
