(* ===== verification/IobufProps.v ===== *)
(** * Io buffers: the pool as a system

    The references held by the users of a pool, the buffers that a thread is about
    to give back and the prunes that are still to come, in any interleaving of the
    critical sections.  A buffer that is held stays in memory, is counted exactly
    and is given to nobody else. *)

From stdpp Require Import gmap gmultiset base list numbers strings relations.
From S2P Require Import Prelude Iobuf.
Open Scope Z_scope.

(** ** The system *)

(** [bs_puts] are buffers without references whose [iobuf_put] has not run yet;
    [bs_prunes] counts the prunes that follow. *)
Record buf_sys := mk_buf_sys {
  bs_pool : iobuf_pool;
  bs_held : gmultiset bufp;
  bs_puts : gset bufp;
  bs_prunes : nat
}.

Inductive buf_label :=
  | B_get (mem : option (Z * Z))
  | B_ref (b : bufp)
  | B_unref (b : bufp)
  | B_put (b : bufp)
  | B_prune.

Definition buf_exec (l : buf_label) (y : buf_sys) : option buf_sys :=
  match l with
  | B_get mem =>
      '(p, r) ← iobuf_get mem (bs_pool y);
      Some (mk_buf_sys p (match r with Some b => {[+ b +]} ⊎ bs_held y | None => bs_held y end) (bs_puts y) (bs_prunes y))
  | B_ref b => p ← iobuf_ref b (bs_pool y); Some (mk_buf_sys p ({[+ b +]} ⊎ bs_held y) (bs_puts y) (bs_prunes y))
  | B_unref b =>
      '(p, ref) ← __iobuf_unref b (bs_pool y);
      Some (mk_buf_sys p (bs_held y ∖ {[+ b +]}) (if ref =? 0 then {[b]} ∪ bs_puts y else bs_puts y) (bs_prunes y))
  | B_put b => p ← __iobuf_put b (bs_pool y); Some (mk_buf_sys p (bs_held y) (bs_puts y ∖ {[b]}) (S (bs_prunes y)))
  | B_prune => p ← iobuf_pool_prune (bs_pool y); Some (mk_buf_sys p (bs_held y) (bs_puts y) (pred (bs_prunes y)))
  end.

(** Memory that [mmap] and [calloc] may return: no other arena has it. *)
Definition fresh_mem (p : iobuf_pool) (mem : option (Z * Z)) : Prop :=
  match mem with
  | None => True
  | Some (a, base) => ip_mem p !! a = None /\
      map_Forall (fun _ ar => base + ip_arena_size p <= ar_mem_base ar \/ ar_mem_base ar + ip_arena_size p <= base) (ip_mem p)
  end.

#[export] Instance fresh_mem_dec p mem : Decision (fresh_mem p mem).
Proof. destruct mem as [[a base]|]; simpl; apply _. Defined.

(** References are given up by those who have them. *)
Definition buf_legal (l : buf_label) (y : buf_sys) : Prop :=
  match l with
  | B_get mem => fresh_mem (bs_pool y) mem
  | B_ref b | B_unref b => b ∈ bs_held y
  | B_put b => b ∈ bs_puts y
  | B_prune => (0 < bs_prunes y)%nat
  end.

#[export] Instance buf_legal_dec l y : Decision (buf_legal l y).
Proof. destruct l; simpl; apply _. Defined.

Definition buf_step (y y' : buf_sys) : Prop := exists l, buf_legal l y /\ buf_exec l y = Some y'.

(** ** The invariant *)

Definition all_arenas (p : iobuf_pool) : list Z := ip_arenas p ++ ip_filled p ++ ip_purge p.

Section Pool.
Context (page_size arena_size : Z) (Hpage : 0 < page_size <= arena_size) (Harena : arena_size < 2 ^ 31).

Definition bufs : nat := Z.to_nat (arena_size / page_size).

(** A buffer is active while it is held or about to be given back. *)
Record arena_ok (held : gmultiset bufp) (puts : gset bufp) (a : Z) (ar : iobuf_arena) : Prop := {
  ao_length : length (ar_iobufs ar) = bufs;
  ao_lists : ar_active ar ++ ar_passive ar ≡ₚ seq 0 bufs;
  ao_active_cnt : ar_active_cnt ar = Z.of_nat (length (ar_active ar));
  ao_passive_cnt : ar_passive_cnt ar = Z.of_nat (length (ar_passive ar));
  ao_iobufs : forall i ib, ar_iobufs ar !! i = Some ib ->
    ib_ref ib = Z.of_nat (multiplicity (a, i) held) /\ ib_ptr ib = ar_mem_base ar + Z.of_nat i * page_size;
  ao_active : forall i, i ∈ ar_active ar <-> (a, i) ∈ held \/ (a, i) ∈ puts
}.

Record pool_ok (held : gmultiset bufp) (puts : gset bufp) (p : iobuf_pool) : Prop := {
  po_page : ip_page_size p = page_size;
  po_size : ip_arena_size p = arena_size;
  po_nodup : NoDup (all_arenas p);
  po_dom : forall a, a ∈ all_arenas p <-> is_Some (ip_mem p !! a);
  po_cnt : ip_arena_cnt p = Z.of_nat (length (all_arenas p));
  po_arena : map_Forall (arena_ok held puts) (ip_mem p);
  po_filled : forall a ar, ip_mem p !! a = Some ar -> a ∈ ip_filled p <-> ar_passive ar = [];
  po_purge : forall a ar, ip_mem p !! a = Some ar -> a ∈ ip_purge p -> ar_active ar = [];
  po_live : forall b, b ∈ held \/ b ∈ puts -> is_Some (ip_mem p !! b.1);
  po_disjoint : forall b, b ∈ held -> b ∈ puts -> False;
  po_regions : forall a a' ar ar', ip_mem p !! a = Some ar -> ip_mem p !! a' = Some ar' -> a <> a' ->
    ar_mem_base ar + arena_size <= ar_mem_base ar' \/ ar_mem_base ar' + arena_size <= ar_mem_base ar
}.

Lemma bufs_pos : (0 < bufs)%nat /\ Z.of_nat bufs = arena_size / page_size.
Proof.
  unfold bufs. assert (1 <= arena_size / page_size) by (apply Z.div_le_lower_bound; lia). lia.
Qed.

(** *** New arenas *)

Lemma init_iobufs_spec base n : forall i ar,
  (i + n = bufs)%nat -> ar_mem_base ar = base ->
  init_iobufs page_size n i (Z.of_nat i * page_size) ar =
  mk_arena base (ar_iobufs ar ++ map (fun j => mk_iobuf 0 (base + Z.of_nat j * page_size)) (seq i n)) (ar_active_cnt ar)
    (ar_active ar) (ar_passive_cnt ar + Z.of_nat n) (rev (seq i n) ++ ar_passive ar).
Proof.
  induction n as [|n IH]; intros i ar Hi Hb; simpl.
  { destruct ar. simpl in *. subst. by rewrite Z.add_0_r, app_nil_r. }
  assert (Z.of_nat i * page_size + page_size <= arena_size).
  { pose proof bufs_pos as [_ Hb2]. pose proof (Z.mul_div_le arena_size page_size ltac:(lia)). nia. }
  assert (i32 (Z.of_nat i * page_size + page_size) = Z.of_nat (S i) * page_size) as ->.
  { unfold i32. rewrite Z.mod_small; nia. }
  rewrite IH by (done || lia). simpl. rewrite Hb, <-app_assoc. simpl. f_equal; [lia|].
  rewrite <-app_assoc. done.
Qed.

Lemma init_iobufs_eq base :
  init_iobufs page_size bufs 0 0 (mk_arena base [] 0 [] 0 []) =
  mk_arena base (map (fun j => mk_iobuf 0 (base + Z.of_nat j * page_size)) (seq 0 bufs)) 0 [] (Z.of_nat bufs) (rev (seq 0 bufs)).
Proof.
  pose proof (init_iobufs_spec base bufs 0 (mk_arena base [] 0 [] 0 []) eq_refl eq_refl) as E.
  change (Z.of_nat 0 * page_size) with 0 in E. rewrite E. simpl. by rewrite app_nil_r.
Qed.

Lemma new_arena_ok held puts a base :
  (forall b, b ∈ held \/ b ∈ puts -> b.1 <> a) ->
  arena_ok held puts a (init_iobufs page_size bufs 0 0 (mk_arena base [] 0 [] 0 [])).
Proof.
  intros Hn. rewrite init_iobufs_eq.
  assert (forall i, (a, i) ∈ held \/ (a, i) ∈ puts -> False) as Hno by (intros i Hi; by apply (Hn (a, i))).
  split; simpl.
  - by rewrite length_map, length_seq.
  - symmetry. apply Permutation_rev.
  - done.
  - by rewrite length_rev, length_seq.
  - intros i ib Hi. rewrite list_lookup_fmap in Hi. apply fmap_Some in Hi as (j & [-> _]%lookup_seq & ->). simpl. split; [|done].
    assert (multiplicity (a, i) held = 0%nat) as ->; [|done].
    destruct (decide ((a, i) ∈ held)) as [Hin|Hin]; [exfalso; eauto|]. rewrite elem_of_multiplicity in Hin. lia.
  - intros i. split; [by intros ?%elem_of_nil|]. intros Hi. exfalso. eauto.
Qed.

(** *** Changing an arena *)

Lemma unlink_perm a p :
  NoDup (all_arenas p) -> a ∈ all_arenas p -> a :: all_arenas (unlink_arena a p) ≡ₚ all_arenas p.
Proof. intros Hn Ha. unfold all_arenas at 1. simpl. rewrite <-!list_del_app. by apply list_del_perm. Qed.

Lemma arena_ok_ext held puts held' puts' a ar :
  (forall i, multiplicity (a, i) held' = multiplicity (a, i) held /\ ((a, i) ∈ puts' <-> (a, i) ∈ puts)) ->
  arena_ok held puts a ar -> arena_ok held' puts' a ar.
Proof.
  intros Hext []. split; try done.
  - intros i ib Hi. rewrite (proj1 (Hext i)). auto.
  - intros i. rewrite elem_of_multiplicity, (proj1 (Hext i)), <-elem_of_multiplicity, (proj2 (Hext i)). auto.
Qed.

(** One arena changes, and the lists around it. *)
Lemma pool_change held puts held' puts' p a ar ar' A F P :
  pool_ok held puts p -> ip_mem p !! a = Some ar -> arena_ok held' puts' a ar' -> ar_mem_base ar' = ar_mem_base ar ->
  (forall b, b.1 <> a -> multiplicity b held' = multiplicity b held /\ (b ∈ puts' <-> b ∈ puts)) ->
  (forall b, b ∈ held' -> b ∈ puts' -> False) -> A ++ F ++ P ≡ₚ all_arenas p ->
  (forall a', a' <> a -> a' ∈ F <-> a' ∈ ip_filled p) -> (a ∈ F <-> ar_passive ar' = []) ->
  (forall a', a' <> a -> a' ∈ P -> a' ∈ ip_purge p) -> (a ∈ P -> ar_active ar' = []) ->
  pool_ok held' puts' (set_lists A F P (set_arena a ar' p)).
Proof.
  intros [H1 H2 H3 H4 H5 H6 H7 H8 H9 H10 H11] Ha Har Hb Hoth Hdis HL HF HFa HP HPa.
  assert (forall b, b.1 <> a -> (b ∈ held' <-> b ∈ held)) as Hheld.
  { intros b Hne. rewrite !elem_of_multiplicity. by rewrite (proj1 (Hoth b Hne)). }
  unfold all_arenas in *. split; simpl; try done.
  - by rewrite HL.
  - intros a'. rewrite HL, H4. destruct (decide (a' = a)) as [->|Hne]; [by rewrite Ha, lookup_insert_eq|by rewrite lookup_insert_ne].
  - by rewrite H5, HL.
  - intros a' ar0. destruct (decide (a' = a)) as [->|Hne]; [rewrite lookup_insert_eq; by intros [= <-]|].
    rewrite lookup_insert_ne by done. intros Ha'. eapply arena_ok_ext; [|by apply H6]. intros i. by apply (Hoth (a', i)).
  - intros a' ar0 Hl. destruct (decide (a' = a)) as [->|Hne].
    + rewrite lookup_insert_eq in Hl. by injection Hl as <-.
    + rewrite lookup_insert_ne in Hl by done. rewrite HF by done. by apply H7.
  - intros a' ar0 Hl Hp. destruct (decide (a' = a)) as [->|Hne].
    + rewrite lookup_insert_eq in Hl. injection Hl as <-. auto.
    + rewrite lookup_insert_ne in Hl by done. eapply H8; [exact Hl|auto].
  - intros b Hin. destruct (decide (b.1 = a)) as [->|Hne]; [by rewrite lookup_insert_eq|]. rewrite lookup_insert_ne by done.
    apply H9. rewrite <-Hheld, <-(proj2 (Hoth b Hne)) by done. done.
  - intros a1 a2 ar1 ar2. destruct (decide (a1 = a)) as [->|Hn1], (decide (a2 = a)) as [->|Hn2];
      rewrite ?lookup_insert_eq, ?lookup_insert_ne by done; intros; simplify_eq; rewrite ?Hb; eauto.
Qed.

(** Only the lists change: an arena may leave the purge list. *)
Lemma pool_relist held puts p A F P :
  pool_ok held puts p -> A ++ F ++ P ≡ₚ all_arenas p -> (forall a, a ∈ F <-> a ∈ ip_filled p) ->
  (forall a, a ∈ P -> a ∈ ip_purge p) -> pool_ok held puts (set_lists A F P p).
Proof.
  intros [H1 H2 H3 H4 H5 H6 H7 H8 H9 H10 H11] HL HF HP. unfold all_arenas in *. split; simpl; try done.
  - by rewrite HL.
  - intros a. by rewrite HL.
  - by rewrite H5, HL.
  - intros a ar Ha. rewrite HF. auto.
  - intros a ar Ha Hp. eauto.
Qed.

(** An arena that is added is idle. *)
Lemma pool_new_arena held puts p a base :
  pool_ok held puts p -> fresh_mem p (Some (a, base)) ->
  pool_ok held puts (set_lists (ip_arenas p ++ [a]) (ip_filled p) (ip_purge p)
    (set_arena_cnt (ip_arena_cnt p + 1)
      (set_arena a (init_iobufs page_size bufs 0 0 (mk_arena base [] 0 [] 0 [])) p))).
Proof.
  intros [H1 H2 H3 H4 H5 H6 H7 H8 H9 H10 H11] [Hnew Hreg].
  assert (a ∉ all_arenas p) as Hna by (rewrite H4, Hnew; by intros []).
  assert (forall b, b ∈ held \/ b ∈ puts -> b.1 <> a) as Hlive by (intros b Hb <-; destruct (H9 b Hb); congruence).
  pose proof (new_arena_ok held puts a base Hlive) as Har. rewrite init_iobufs_eq in *.
  set (ar := mk_arena base _ _ _ _ _) in *. set (p' := set_lists _ _ _ _).
  assert (all_arenas p' ≡ₚ a :: all_arenas p) as HL by (unfold all_arenas; simpl; solve_Permutation).
  assert (forall a' ar', ip_mem p' !! a' = Some ar' -> (a' = a /\ ar' = ar) \/ (a' <> a /\ ip_mem p !! a' = Some ar')) as Hcase.
  { intros a' ar'. simpl. destruct (decide (a' = a)) as [->|Hne]; [rewrite lookup_insert_eq; naive_solver|].
    rewrite lookup_insert_ne by done. auto. }
  split; try done.
  - rewrite HL. by constructor.
  - intros a'. rewrite HL, elem_of_cons, H4. simpl. destruct (decide (a' = a)) as [->|Hne]; [rewrite lookup_insert_eq; naive_solver|].
    rewrite lookup_insert_ne by done. naive_solver.
  - rewrite HL. simpl. rewrite H5. lia.
  - intros a' ar' [[-> ->]|[Hne Ha]]%Hcase; [done|by apply H6].
  - intros a' ar' [[-> ->]|[Hne Ha]]%Hcase; [|by apply H7]. split; [unfold all_arenas in Hna; set_solver|].
    intros E%(f_equal length). simpl in E. rewrite length_rev, length_seq in E. pose proof bufs_pos. lia.
  - intros a' ar' [[-> ->]|[Hne Ha]]%Hcase; [done|by apply H8].
  - intros b Hb. simpl. rewrite lookup_insert_ne; [auto|]. intros E. by apply (Hlive b Hb).
  - rewrite H2 in Hreg. intros a1 a2 ar1 ar2 [[-> ->]|[Hn1 Ha1]]%Hcase [[-> ->]|[Hn2 Ha2]]%Hcase Hne; [done| | |by eapply H11].
    + apply (Hreg _ _ Ha2).
    + destruct (Hreg _ _ Ha1); auto.
Qed.

Lemma add_arena_ok held puts p mem :
  pool_ok held puts p -> fresh_mem p mem ->
  exists p' r, __iobuf_pool_add_arena mem p = Some (p', r) /\ pool_ok held puts p' /\
    match r with Some a => a ∈ ip_arenas p' | None => p' = p /\ mem = None end.
Proof.
  intros Hp Hm. unfold __iobuf_pool_add_arena, __iobuf_arena_unprune. destruct (ip_purge p) as [|a purge] eqn:Ep.
  - destruct mem as [[a base]|]; simpl; [|by exists p, None]. unfold __iobuf_arena_init_iobufs, iobuf_cnt.
    rewrite (po_page _ _ _ Hp), (po_size _ _ _ Hp). destruct (Z.eqb_spec page_size 0); [lia|]. simpl.
    assert (Z.to_nat (i32 (arena_size / page_size)) = bufs) as ->.
    { assert (0 <= arena_size / page_size <= arena_size) by (split; [apply Z.div_pos; lia|apply Z.div_le_upper_bound; nia]).
      unfold i32. rewrite Z.mod_small by lia. unfold bufs. f_equal. lia. }
    eexists _, _. split; [done|]. split; [by apply pool_new_arena|]. simpl. unfold list_add_tail. set_solver.
  - simpl. eexists _, _. split; [done|]. split; [|simpl; unfold list_add_tail; set_solver].
    apply (pool_relist _ _ _ (ip_arenas p ++ [a]) (ip_filled p) purge) in Hp; try done.
    + unfold all_arenas. rewrite Ep. solve_Permutation.
    + rewrite Ep. set_solver.
Qed.

(** *** Taking a buffer *)

Lemma arena_nodup held puts a ar : arena_ok held puts a ar -> NoDup (ar_active ar ++ ar_passive ar).
Proof. intros [_ Hl _ _ _ _]. rewrite Hl. apply NoDup_seq. Qed.

Lemma select_ok held puts p mem :
  pool_ok held puts p -> fresh_mem p mem ->
  exists p' r, __iobuf_select_arena mem p = Some (p', r) /\ pool_ok held puts p' /\
    match r with Some a => a ∈ ip_arenas p' | None => p' = p /\ mem = None end.
Proof.
  intros Hp Hm. unfold __iobuf_select_arena.
  assert (exists r, select_loop (ip_arenas p) p = Some r /\ match r with Some a => a ∈ ip_arenas p | None => True end) as (r & -> & Hr).
  { assert (forall a, a ∈ ip_arenas p -> is_Some (ip_mem p !! a)) as Hall.
    { intros a Ha. apply Hp. unfold all_arenas. set_solver. }
    induction (ip_arenas p) as [|a l IH]; simpl; [by exists None|].
    destruct (Hall a) as [ar Har]; [by left|]. rewrite Har. simpl. destruct (ar_passive_cnt ar =? 0).
    - destruct IH as (r & -> & Hr); [intros a' ?; apply Hall; by right|]. exists r. split; [done|]. destruct r; [by right|done].
    - exists (Some a). split; [done|by left]. }
  simpl. destruct r as [a|]; [by exists p, (Some a)|]. by apply add_arena_ok.
Qed.

(** The buffer is active before it has its reference. *)
Lemma get_ok held puts p a :
  pool_ok held puts p -> a ∈ ip_arenas p ->
  exists p' i, __iobuf_get a p = Some (p', (a, i)) /\ pool_ok held ({[(a, i)]} ∪ puts) p' /\ (a, i) ∉ held /\ (a, i) ∉ puts.
Proof.
  intros Hp Ha. pose proof Hp as [_ _ Hnd Hdom _ Hars Hfill _ _ Hdis _].
  destruct (proj1 (Hdom a)) as [ar Har]; [unfold all_arenas; set_solver|].
  pose proof (Hars a ar Har) as Hok. unfold __iobuf_get. rewrite Har. simpl.
  assert (a ∉ ip_filled p /\ a ∉ ip_purge p) as [Hnf Hnp].
  { unfold all_arenas in Hnd. apply NoDup_app in Hnd as (_ & Hd & _). specialize (Hd a Ha). set_solver. }
  destruct (ar_passive ar) as [|i passive] eqn:Epas; [destruct Hnf; by apply (Hfill a ar Har)|].
  assert (i ∉ ar_active ar) as Hni.
  { pose proof (arena_nodup _ _ _ _ Hok) as Hn. rewrite Epas in Hn. apply NoDup_app in Hn as (_ & Hd & _). intros Hi. apply (Hd i Hi). by left. }
  assert ((a, i) ∉ held /\ (a, i) ∉ puts) as [Hnh Hnpu] by (rewrite (ao_active _ _ _ _ Hok) in Hni; tauto).
  exists (if ar_passive_cnt ar - 1 =? 0 then
    set_lists (list_del a (ip_arenas p)) (a :: list_del a (ip_filled p)) (list_del a (ip_purge p))
      (set_arena a (set_buf_lists (i :: ar_active ar) passive ar (ar_active_cnt ar + 1) (ar_passive_cnt ar - 1)) p)
    else set_lists (ip_arenas p) (ip_filled p) (ip_purge p)
      (set_arena a (set_buf_lists (i :: ar_active ar) passive ar (ar_active_cnt ar + 1) (ar_passive_cnt ar - 1)) p)), i.
  split; [by case_match|]. split; [|done].
  set (ar' := set_buf_lists _ _ _ _ _).
  assert (arena_ok held ({[(a, i)]} ∪ puts) a ar') as Hok'.
  { destruct Hok as [O1 O2 O3 O4 O5 O6]. split; simpl; try done.
    - rewrite <-O2, Epas. solve_Permutation.
    - lia.
    - rewrite O4, Epas. simpl. lia.
    - intros j. rewrite elem_of_cons, O6, elem_of_union, elem_of_singleton. split; [intros [->|?]; tauto|].
      intros [?|[[= ->]|?]]; tauto. }
  assert (ar_passive_cnt ar - 1 = Z.of_nat (length passive)) as Ecnt by (rewrite (ao_passive_cnt _ _ _ _ Hok), Epas; simpl; lia).
  assert (forall b : bufp, b.1 <> a -> multiplicity b held = multiplicity b held /\ (b ∈ {[(a, i)]} ∪ puts <-> b ∈ puts)) as Hoth.
  { intros b Hne. split; [done|]. rewrite elem_of_union, elem_of_singleton. split; [intros [->|?]; [done|done]|by right]. }
  assert (forall b, b ∈ held -> b ∈ {[(a, i)]} ∪ puts -> False) as Hdis'.
  { intros b Hb. rewrite elem_of_union, elem_of_singleton. intros [->|?]; [done|eauto]. }
  rewrite Ecnt. destruct (Z.eqb_spec (Z.of_nat (length passive)) 0) as [E|E].
  - assert (passive = []) as -> by (by destruct passive). eapply (pool_change held puts); try done.
    + pose proof (unlink_perm a p Hnd) as HL. unfold all_arenas in *. simpl in HL. rewrite <-HL by set_solver. solve_Permutation.
    + intros a' Hne. rewrite elem_of_cons, elem_of_list_del. tauto.
    + split; [done|]. by left.
    + intros a' Hne. rewrite elem_of_list_del. tauto.
    + rewrite elem_of_list_del. tauto.
  - eapply (pool_change held puts); try done.
    split; [done|]. simpl. intros ->. done.
Qed.

(** *** References *)

Lemma change_ref_ok held puts held' puts' p b d :
  pool_ok held puts p -> b ∈ held \/ b ∈ puts ->
  Z.of_nat (multiplicity b held') = Z.of_nat (multiplicity b held) + d ->
  (forall c, c <> b -> multiplicity c held' = multiplicity c held /\ (c ∈ puts' <-> c ∈ puts)) ->
  (b ∈ held' <-> b ∉ puts') ->
  exists p', change_ref d b p = Some (p', Z.of_nat (multiplicity b held')) /\ pool_ok held' puts' p'.
Proof.
  intros Hp Hb Hm Hoth Hbp. destruct b as [a i]. destruct (po_live _ _ _ Hp (a, i) Hb) as [ar Har]. simpl in Har.
  pose proof (po_arena _ _ _ Hp a ar Har) as Hok. pose proof Hok as [O1 O2 O3 O4 O5 O6].
  assert (i < bufs)%nat as Hi.
  { assert (i ∈ ar_active ar ++ ar_passive ar) as Hin by (apply elem_of_app; left; by apply O6). rewrite O2 in Hin. apply elem_of_seq in Hin. lia. }
  destruct (lookup_lt_is_Some_2 (ar_iobufs ar) i) as [ib Hib]; [lia|]. destruct (O5 i ib Hib) as [Er Ept].
  unfold change_ref. simpl. rewrite Har. simpl. rewrite Hib. simpl. rewrite Er, <-Hm. eexists. split; [done|].
  apply (pool_change held puts held' puts' p a ar
    (set_iobufs (<[i := mk_iobuf (Z.of_nat (multiplicity (a, i) held')) (ib_ptr ib)]> (ar_iobufs ar)) ar)
    (ip_arenas p) (ip_filled p) (ip_purge p)); try done.
  - split; simpl; try done.
    + by rewrite length_insert.
    + intros j ib' Hj. destruct (decide (j = i)) as [->|Hne].
      * rewrite list_lookup_insert_eq in Hj by lia. by injection Hj as <-.
      * rewrite list_lookup_insert_ne in Hj by done. rewrite (proj1 (Hoth (a, j) ltac:(congruence))). auto.
    + intros j. rewrite O6. destruct (decide (j = i)) as [->|Hne].
      * destruct (decide ((a, i) ∈ puts')) as [?|Hnp]; [tauto|]. apply Hbp in Hnp as ?. tauto.
      * destruct (Hoth (a, j) ltac:(congruence)) as [E1 E2]. rewrite !elem_of_multiplicity, E1, E2. done.
  - intros c Hne. apply Hoth. intros ->. done.
  - intros c Hc Hcp. destruct (decide (c = (a, i))) as [->|Hne]; [tauto|]. destruct (Hoth c Hne) as [E1 E2].
    apply (po_disjoint _ _ _ Hp c); [by rewrite elem_of_multiplicity, <-E1, <-elem_of_multiplicity|tauto].
  - exact (po_filled _ _ _ Hp a ar Har).
  - exact (po_purge _ _ _ Hp a ar Har).
Qed.

Lemma iobuf_get_ok held puts p mem :
  pool_ok held puts p -> fresh_mem p mem ->
  exists p' r, iobuf_get mem p = Some (p', r) /\
    match r with
    | Some b => pool_ok ({[+ b +]} ⊎ held) puts p' /\ b ∉ held /\ b ∉ puts
    | None => p' = p /\ mem = None
    end.
Proof.
  intros Hp Hm. unfold iobuf_get. destruct (select_ok held puts p mem Hp Hm) as (p1 & r & -> & Hp1 & Hr). simpl.
  destruct r as [a|]; [|exists p1, None; by destruct Hr as [-> ?]].
  destruct (get_ok held puts p1 a Hp1 Hr) as (p2 & i & -> & Hp2 & Hnh & Hnp). simpl. unfold __iobuf_ref.
  destruct (change_ref_ok held ({[(a, i)]} ∪ puts) ({[+ (a, i) +]} ⊎ held) puts p2 (a, i) 1 Hp2) as (p3 & -> & Hp3).
  - right. set_solver.
  - rewrite multiplicity_disj_union, multiplicity_singleton_eq. lia.
  - intros c Hne. rewrite multiplicity_disj_union, multiplicity_singleton_ne by done. split; [done|]. set_solver.
  - split; [done|]. intros _. multiset_solver.
  - simpl. by exists p3, (Some (a, i)).
Qed.

Lemma iobuf_ref_ok held puts p b :
  pool_ok held puts p -> b ∈ held ->
  exists p', iobuf_ref b p = Some p' /\ pool_ok ({[+ b +]} ⊎ held) puts p'.
Proof.
  intros Hp Hb. unfold iobuf_ref, __iobuf_ref.
  destruct (change_ref_ok held puts ({[+ b +]} ⊎ held) puts p b 1 Hp) as (p' & -> & Hp').
  - by left.
  - rewrite multiplicity_disj_union, multiplicity_singleton_eq. lia.
  - intros c Hne. by rewrite multiplicity_disj_union, multiplicity_singleton_ne.
  - split; [intros _ Hbp; by apply (po_disjoint _ _ _ Hp b)|]. intros _. multiset_solver.
  - by exists p'.
Qed.

Lemma iobuf_unref_ok held puts p b :
  pool_ok held puts p -> b ∈ held ->
  exists p' ref, __iobuf_unref b p = Some (p', ref) /\ ref = Z.of_nat (multiplicity b held) - 1 /\
    pool_ok (held ∖ {[+ b +]}) (if ref =? 0 then {[b]} ∪ puts else puts) p'.
Proof.
  intros Hp Hb. unfold __iobuf_unref. pose proof (po_disjoint _ _ _ Hp b Hb) as Hnp. pose proof Hb as Hm. rewrite elem_of_multiplicity in Hm.
  assert (multiplicity b (held ∖ {[+ b +]}) = multiplicity b held - 1)%nat as Em
    by (rewrite multiplicity_difference, multiplicity_singleton_eq; done).
  set (puts' := if Z.of_nat (multiplicity b held) - 1 =? 0 then {[b]} ∪ puts else puts).
  destruct (change_ref_ok held puts (held ∖ {[+ b +]}) puts' p b (-1) Hp) as (p' & -> & Hp').
  - by left.
  - rewrite Em. lia.
  - intros c Hne. rewrite multiplicity_difference, multiplicity_singleton_ne, Nat.sub_0_r by done.
    split; [done|]. unfold puts'. destruct (_ =? 0); [set_solver|done].
  - rewrite elem_of_multiplicity, Em. unfold puts'. destruct (Z.eqb_spec (Z.of_nat (multiplicity b held) - 1) 0).
    + split; [lia|]. intros Hx. destruct Hx. set_solver.
    + split; [done|lia].
  - eexists _, _. split; [done|]. split; [lia|]. rewrite Em. replace (Z.of_nat (multiplicity b held - 1)) with (Z.of_nat (multiplicity b held) - 1) by lia. done.
Qed.

(** *** Giving a buffer back *)

Lemma put_arena_ok held puts p a i ar :
  pool_ok held puts p -> ip_mem p !! a = Some ar -> (a, i) ∈ puts ->
  i ∈ ar_active ar /\ i ∉ ar_passive ar /\ Z.of_nat (length (list_del i (ar_active ar))) = ar_active_cnt ar - 1 /\
  arena_ok held (puts ∖ {[(a, i)]}) a
    (set_buf_lists (list_del i (ar_active ar)) (i :: ar_passive ar) ar (ar_active_cnt ar - 1) (ar_passive_cnt ar + 1)).
Proof.
  intros Hp Har Hb. pose proof (po_arena _ _ _ Hp a ar Har) as Hok. pose proof Hok as [O1 O2 O3 O4 O5 O6].
  pose proof (arena_nodup _ _ _ _ Hok) as (Hna & Hd & _)%NoDup_app.
  assert (i ∈ ar_active ar) as Hia by (apply O6; by right).
  pose proof (list_del_perm i (ar_active ar) Hna Hia) as Hperm.
  assert (Z.of_nat (length (list_del i (ar_active ar))) = ar_active_cnt ar - 1) as Ecnt by (rewrite O3, <-(Permutation_length Hperm); simpl; lia).
  split_and!; [done|by apply Hd|done|]. split; simpl; try done.
  - rewrite <-O2. rewrite <-Hperm at 2. solve_Permutation.
  - lia.
  - intros j. rewrite elem_of_list_del, O6, elem_of_difference, elem_of_singleton.
    pose proof (po_disjoint _ _ _ Hp (a, i)). naive_solver.
Qed.

Lemma put_ok held puts p b :
  pool_ok held puts p -> b ∈ puts -> exists p', __iobuf_put b p = Some p' /\ pool_ok held (puts ∖ {[b]}) p'.
Proof.
  intros Hp Hb. destruct b as [a i]. destruct (po_live _ _ _ Hp (a, i) ltac:(by right)) as [ar Har]. simpl in Har.
  destruct (put_arena_ok held puts p a i ar Hp Har Hb) as (Hia & Hip & Ecnt & Hok').
  set (active := list_del i (ar_active ar)) in *. set (ar' := set_buf_lists _ _ _ _ _) in *.
  pose proof (ao_passive_cnt _ _ _ _ (po_arena _ _ _ Hp a ar Har)) as O4.
  pose proof (po_nodup _ _ _ Hp) as Hnd. assert (a ∈ all_arenas p) as Ha by (apply (po_dom _ _ _ Hp); eauto).
  assert (forall A F P, A ++ F ++ P ≡ₚ all_arenas p -> (forall a', a' <> a -> a' ∈ F <-> a' ∈ ip_filled p) -> a ∉ F ->
    (forall a', a' <> a -> a' ∈ P -> a' ∈ ip_purge p) -> (a ∈ P -> active = []) ->
    pool_ok held (puts ∖ {[(a, i)]}) (set_lists A F P (set_arena a ar' p))) as Hch.
  { intros A F P HL HF HFa HP HPa. apply (pool_change held puts _ _ p a ar); try done.
    - intros b Hne. split; [done|]. rewrite elem_of_difference, elem_of_singleton. naive_solver.
    - intros b Hbh Hbp. apply (po_disjoint _ _ _ Hp b Hbh). set_solver. }
  assert (list_add i (list_del i (ar_passive ar)) = i :: ar_passive ar) as Epas by (by rewrite list_del_notin).
  assert (passive_cnt_zero : ar_passive_cnt ar =? 0 = false -> a ∉ ip_filled p).
  { intros E Hf. apply (po_filled _ _ _ Hp a ar Har) in Hf. by rewrite O4, Hf in E. }
  unfold __iobuf_put. rewrite Har. cbn [mbind option_bind]. rewrite Epas. eexists. split; [done|].
  pose proof (unlink_perm a p Hnd Ha) as HL. unfold all_arenas in HL. simpl in HL.
  destruct (ar_passive_cnt ar =? 0) eqn:Ez, (Z.eqb_spec (ar_active_cnt ar - 1) 0) as [E|E].
  - refine (Hch (list_del a (list_del a (ip_arenas p) ++ [a])) (list_del a (list_del a (ip_filled p)))
      (list_del a (list_del a (ip_purge p)) ++ [a]) _ _ _ _ _).
    + rewrite list_del_app, !list_del_idemp, list_del_head, app_nil_r, <-HL by set_solver. solve_Permutation.
    + intros a' Hne. rewrite !elem_of_list_del. tauto.
    + rewrite elem_of_list_del. tauto.
    + intros a' Hne. rewrite elem_of_app, !elem_of_list_del, list_elem_of_singleton. tauto.
    + intros _. destruct active; [done|simpl in Ecnt; lia].
  - refine (Hch (list_del a (ip_arenas p) ++ [a]) (list_del a (ip_filled p)) (list_del a (ip_purge p)) _ _ _ _ _).
    + rewrite <-HL. solve_Permutation.
    + intros a' Hne. rewrite elem_of_list_del. tauto.
    + rewrite elem_of_list_del. tauto.
    + intros a' Hne. rewrite elem_of_list_del. tauto.
    + rewrite elem_of_list_del. tauto.
  - refine (Hch (list_del a (ip_arenas p)) (list_del a (ip_filled p)) (list_del a (ip_purge p) ++ [a]) _ _ _ _ _).
    + rewrite <-HL. solve_Permutation.
    + intros a' Hne. rewrite elem_of_list_del. tauto.
    + rewrite elem_of_list_del. tauto.
    + intros a' Hne. rewrite elem_of_app, elem_of_list_del, list_elem_of_singleton. tauto.
    + intros _. destruct active; [done|simpl in Ecnt; lia].
  - refine (Hch (ip_arenas p) (ip_filled p) (ip_purge p) _ _ _ _ _); try done; [by apply passive_cnt_zero|].
    intros Hpu. exfalso. apply (po_purge _ _ _ Hp a ar Har) in Hpu. rewrite Hpu in Hia. by apply elem_of_nil in Hia.
Qed.

(** *** Pruning *)

Lemma drop_ok held puts p a :
  pool_ok held puts p -> a ∈ ip_purge p ->
  exists p', __iobuf_arena_destroy a (set_arena_cnt (ip_arena_cnt p - 1) (unlink_arena a p)) = Some p' /\ pool_ok held puts p' /\
    ip_arenas p' = ip_arenas p /\ ip_filled p' = ip_filled p /\ ip_purge p' = list_del a (ip_purge p).
Proof.
  intros [H1 H2 H3 H4 H5 H6 H7 H8 H9 H10 H11] Ha. assert (a ∈ all_arenas p) as Hall by (unfold all_arenas; set_solver).
  destruct (proj1 (H4 a) Hall) as [ar Har]. pose proof (H8 a ar Har Ha) as Hact. pose proof (H6 a ar Har) as [_ _ _ _ O5 O6].
  assert (a ∉ ip_arenas p /\ a ∉ ip_filled p) as [Hna Hnf].
  { unfold all_arenas in H3. apply NoDup_app in H3 as (_ & Hd & (_ & Hd' & _)%NoDup_app). split; intros Hx; [apply (Hd a Hx); set_solver|by apply (Hd' a Hx)]. }
  assert (forall i, ~ ((a, i) ∈ held \/ (a, i) ∈ puts)) as Hfree.
  { intros i Hi. apply O6 in Hi. rewrite Hact in Hi. by apply elem_of_nil in Hi. }
  unfold __iobuf_arena_destroy. simpl. rewrite Har. simpl.
  assert (__iobuf_arena_destroy_iobufs ar = true) as ->.
  { apply forallb_forall. intros ib [i Hi]%list_elem_of_In%list_elem_of_lookup. apply Z.eqb_eq.
    rewrite (proj1 (O5 i ib Hi)). destruct (multiplicity (a, i) held) eqn:E; [done|]. destruct (Hfree i). left.
    apply elem_of_multiplicity. lia. }
  eexists. split; [done|]. split; [|simpl; rewrite (list_del_notin a (ip_arenas p)), (list_del_notin a (ip_filled p)) by done; done].
  pose proof (unlink_perm a p H3 Hall) as HL. unfold all_arenas in HL. simpl in HL. rewrite (list_del_notin a (ip_arenas p)), (list_del_notin a (ip_filled p)) in HL by done.
  assert (forall a', a' ∈ ip_arenas p ++ ip_filled p ++ list_del a (ip_purge p) <-> a' <> a /\ a' ∈ all_arenas p) as Hel.
  { intros a'. unfold all_arenas. rewrite !elem_of_app, elem_of_list_del. naive_solver. }
  split; simpl; try done; unfold all_arenas; simpl; rewrite ?(list_del_notin a (ip_arenas p)), ?(list_del_notin a (ip_filled p)) by done.
  - unfold all_arenas in H3. rewrite <-HL in H3. by apply NoDup_cons in H3 as [_ ?].
  - intros a'. rewrite Hel, H4, lookup_delete_is_Some. naive_solver.
  - unfold all_arenas in H5. rewrite H5, <-HL. simpl. lia.
  - intros a' ar' [Hne Ha']%lookup_delete_Some. by apply H6.
  - intros a' ar' [Hne Ha']%lookup_delete_Some. by apply H7.
  - intros a' ar' [Hne Ha']%lookup_delete_Some [_ Hp]%elem_of_list_del. by eapply H8.
  - intros b Hb. apply lookup_delete_is_Some. split; [|auto]. intros ->. by apply (Hfree b.2); destruct b.
  - intros a1 a2 ar1 ar2 [_ ?]%lookup_delete_Some [_ ?]%lookup_delete_Some. eauto.
Qed.

Lemma filter_all (l : list Z) : filter (fun a => a ∉ []) l = l.
Proof. induction l as [|x l IH]; [done|]. rewrite filter_cons_True by apply not_elem_of_nil. by rewrite IH. Qed.

Lemma destroy_ok held puts l : forall p,
  pool_ok held puts p -> NoDup l -> (forall a, a ∈ l -> a ∈ ip_purge p) ->
  exists p', destroy_arenas l p = Some p' /\ pool_ok held puts p' /\ ip_arenas p' = ip_arenas p /\ ip_filled p' = ip_filled p /\
    ip_purge p' = filter (fun a => a ∉ l) (ip_purge p).
Proof.
  induction l as [|a l IH]; intros p Hp Hl Hin; simpl.
  { exists p. split_and!; try done. symmetry. apply filter_all. }
  apply NoDup_cons in Hl as [Hal Hl]. destruct (drop_ok held puts p a Hp) as (p1 & -> & Hp1 & E1 & E2 & E3); [apply Hin; by left|].
  destruct (IH p1 Hp1 Hl) as (p' & E & Hp' & E1' & E2' & E3').
  { intros a' Ha'. rewrite E3, elem_of_list_del. split; [by intros ->|apply Hin; by right]. }
  simpl. exists p'. split_and!; [done|done|congruence|congruence|]. rewrite E3', E3. unfold list_del.
  rewrite list_filter_filter. apply list_filter_iff. intros x. set_solver.
Qed.

Lemma idle_ok held puts p l :
  pool_ok held puts p -> (forall a, a ∈ l -> a ∈ ip_purge p) -> idle_arenas l p = Some l.
Proof.
  intros Hp. induction l as [|a l IH]; intros Hl; simpl; [done|].
  assert (a ∈ ip_purge p) as Ha by (apply Hl; by left).
  destruct (proj1 (po_dom _ _ _ Hp a)) as [ar Har]; [unfold all_arenas; set_solver|]. rewrite Har. simpl.
  rewrite IH by (intros a' ?; apply Hl; by right). simpl.
  by rewrite (ao_active_cnt _ _ _ _ (po_arena _ _ _ Hp a ar Har)), (po_purge _ _ _ Hp a ar Har Ha).
Qed.

Lemma prune_ok held puts p :
  pool_ok held puts p -> exists p', iobuf_pool_prune p = Some p' /\ pool_ok held puts p' /\
    ip_arenas p' = ip_arenas p /\ ip_filled p' = ip_filled p /\
    ip_purge p' = match ip_arenas p with [] => ip_purge p | _ => [] end.
Proof.
  intros Hp. unfold iobuf_pool_prune, __iobuf_pool_prune. destruct (ip_arenas p) as [|a l] eqn:Ea; [by exists p|].
  rewrite (idle_ok held puts p (ip_purge p) Hp) by auto. simpl.
  destruct (destroy_ok held puts (ip_purge p) p Hp) as (p' & E & Hp' & E1 & E2 & E3); [|auto|].
  { pose proof (po_nodup _ _ _ Hp) as Hn. unfold all_arenas in Hn. apply NoDup_app in Hn as (_ & _ & (_ & _ & ?)%NoDup_app). done. }
  exists p'. split_and!; [done|done|congruence|done|]. rewrite E3.
  destruct (filter (fun x => x ∉ ip_purge p) (ip_purge p)) as [|x k] eqn:Ef; [done|].
  assert (x ∈ x :: k) as Hx by by left. rewrite <-Ef in Hx. by apply list_elem_of_filter in Hx as [??].
Qed.

(** [iobuf_unref] from its first critical section to its last. *)
Lemma unref_all_ok held puts p b :
  pool_ok held puts p -> b ∈ held -> exists p', iobuf_unref b p = Some p' /\ pool_ok (held ∖ {[+ b +]}) puts p'.
Proof.
  intros Hp Hb. unfold iobuf_unref. destruct (iobuf_unref_ok held puts p b Hp Hb) as (p1 & ref & -> & Hr & Hp1). simpl.
  destruct (ref =? 0); [|by exists p1]. unfold iobuf_put.
  destruct (put_ok _ _ p1 b Hp1) as (p2 & -> & Hp2); [set_solver|]. simpl. destruct (prune_ok _ _ p2 Hp2) as (p3 & -> & Hp3 & _).
  exists p3. split; [done|]. pose proof (po_disjoint _ _ _ Hp b Hb) as Hnp.
  by replace puts with (({[b]} ∪ puts) ∖ {[b]}) by set_solver.
Qed.

(** ** Reachable states *)

Definition buf_sys_ok (y : buf_sys) : Prop := pool_ok (bs_held y) (bs_puts y) (bs_pool y).

Lemma buf_exec_ok l y : buf_sys_ok y -> buf_legal l y -> exists y', buf_exec l y = Some y' /\ buf_sys_ok y'.
Proof.
  unfold buf_sys_ok. intros Hy Hl. destruct l as [mem|b|b|b|]; simpl in *.
  - destruct (iobuf_get_ok _ _ _ mem Hy Hl) as (p' & r & -> & Hr). simpl. eexists. split; [done|].
    destruct r as [b|]; simpl; [apply Hr|]. by destruct Hr as [-> _].
  - destruct (iobuf_ref_ok _ _ _ b Hy Hl) as (p' & -> & Hp). by eexists.
  - destruct (iobuf_unref_ok _ _ _ b Hy Hl) as (p' & ref & -> & _ & Hp). by eexists.
  - destruct (put_ok _ _ _ b Hy Hl) as (p' & -> & Hp). by eexists.
  - destruct (prune_ok _ _ _ Hy) as (p' & -> & Hp & _). by eexists.
Qed.

Lemma pool_new_ok alloc mem p :
  iobuf_pool_new arena_size page_size alloc mem = Some (Some p) -> pool_ok ∅ ∅ p.
Proof.
  unfold iobuf_pool_new, iobuf_pool_add_arena. destruct (_ <? _); [done|]. destruct alloc; [|done]. simpl.
  set (p0 := mk_pool _ _ _ _ _ _ _). assert (pool_ok ∅ ∅ p0) as H0.
  { split; try done; unfold all_arenas; simpl.
    - constructor.
    - intros a. rewrite lookup_empty. split; [by intros ?%elem_of_nil|by intros []].
    - intros b [?|?]; [multiset_solver|set_solver]. }
  destruct (add_arena_ok ∅ ∅ p0 mem H0) as (p' & r & -> & Hp' & _); [by destruct mem as [[]|]|]. by intros [= <-].
Qed.

Lemma buf_reachable_ok y y' : buf_sys_ok y -> rtc buf_step y y' -> buf_sys_ok y'.
Proof.
  intros Hy Hr. induction Hr as [|y1 y2 y3 (l & Hl & E) _ IH]; [done|]. apply IH.
  destruct (buf_exec_ok l y1 Hy Hl) as (y' & E' & ?). congruence.
Qed.

(** ** Sets of buffers *)

(** The buffers of the slots up to the first that is free, and all of them. *)
Fixpoint leading (slots : list (option bufp)) : list bufp :=
  match slots with Some b :: slots' => b :: leading slots' | _ => [] end.

Definition slot_bufs (slots : list (option bufp)) : list bufp := omap id slots.

Definition free_slots (slots : list (option bufp)) : nat := length (filter (fun s => s = None) slots).

Lemma fill_slot_spec b slots :
  match fill_slot b slots with
  | Some slots' => slot_bufs slots' ≡ₚ b :: slot_bufs slots /\ S (free_slots slots') = free_slots slots
  | None => free_slots slots = 0%nat
  end.
Proof.
  induction slots as [|[c|] slots IH]; simpl; [done| |].
  - unfold free_slots in *. rewrite filter_cons_False by done. destruct (fill_slot b slots) as [slots'|]; simpl; [|done].
    rewrite filter_cons_False by done. destruct IH as [-> ->]. split; [|done]. apply perm_swap.
  - unfold free_slots. rewrite filter_cons_False, filter_cons_True by done. done.
Qed.

Lemma merge_loop_ok from : forall held puts to ret p,
  pool_ok held puts p -> (forall b, b ∈ leading from -> b ∈ held) -> 0 <= ret ->
  exists to' p' ret', merge_loop to from ret p = Some (to', p', ret') /\
    slot_bufs (rf_iobrefs to') ≡ₚ take (free_slots (rf_iobrefs to)) (leading from) ++ slot_bufs (rf_iobrefs to) /\
    pool_ok (list_to_set_disj (take (free_slots (rf_iobrefs to)) (leading from)) ⊎ held) puts p' /\
    (ret' < 0 <-> (free_slots (rf_iobrefs to) < length (leading from))%nat).
Proof.
  induction from as [|[b|] from IH]; intros held puts to ret p Hp Hh Hret; simpl.
  - exists to, p, ret. rewrite take_nil. simpl. split_and!; [done|done|by rewrite gmultiset_disj_union_left_id|lia].
  - pose proof (fill_slot_spec b (rf_iobrefs to)) as Hs. unfold __iobref_add.
    destruct (fill_slot b (rf_iobrefs to)) as [slots'|]; simpl.
    + destruct Hs as [Hperm Hfree]. destruct (iobuf_ref_ok held puts p b Hp) as (p1 & -> & Hp1); [apply Hh; by left|]. simpl.
      destruct (IH ({[+ b +]} ⊎ held) puts (mk_iobref (rf_ref to) slots') 0 p1 Hp1) as (to' & p' & ret' & -> & E1 & E2 & E3).
      { intros c Hc. apply gmultiset_elem_of_disj_union. right. apply Hh. by right. }
      { done. }
      exists to', p', ret'. simpl in *. rewrite <-Hfree. simpl. split_and!; [done| | |lia].
      * rewrite E1, Hperm. solve_Permutation.
      * set (M := list_to_set_disj (take (free_slots slots') (leading from)) : gmultiset bufp) in *.
        by replace ({[+ b +]} ⊎ M ⊎ held) with (M ⊎ ({[+ b +]} ⊎ held)) by multiset_solver.
    + exists to, p, (- ENOMEM). rewrite Hs. simpl. split_and!; [done|done|by rewrite gmultiset_disj_union_left_id|].
      split; [lia|done].
  - exists to, p, ret. rewrite take_nil. simpl. split_and!; [done|done|by rewrite gmultiset_disj_union_left_id|lia].
Qed.

Lemma iobref_destroy_ok slots : forall held puts p,
  pool_ok (list_to_set_disj (slot_bufs slots) ⊎ held) puts p ->
  exists p', iobref_destroy slots p = Some p' /\ pool_ok held puts p'.
Proof.
  induction slots as [|[b|] slots IH]; intros held puts p Hp; simpl in *.
  - exists p. split; [done|]. by rewrite gmultiset_disj_union_left_id in Hp.
  - destruct (unref_all_ok _ _ _ b Hp) as (p1 & -> & Hp1); [multiset_solver|]. simpl. apply IH.
    by replace (list_to_set_disj (slot_bufs slots) ⊎ held) with
      ((({[+ b +]} ⊎ list_to_set_disj (slot_bufs slots)) ⊎ held) ∖ {[+ b +]}) by multiset_solver.
  - by apply IH.
Qed.
End Pool.

(** ** The theorems *)

(** Sizes for which the offsets of [__iobuf_arena_init_iobufs] do not overflow. *)
Definition sizes_ok (page_size arena_size : Z) : Prop := 0 < page_size <= arena_size /\ arena_size < 2 ^ 31.

Definition new_buf_sys (p : iobuf_pool) : buf_sys := mk_buf_sys p ∅ ∅ 0.

Lemma new_reachable page_size arena_size alloc mem p y :
  sizes_ok page_size arena_size -> iobuf_pool_new arena_size page_size alloc mem = Some (Some p) ->
  rtc buf_step (new_buf_sys p) y -> buf_sys_ok page_size arena_size y.
Proof.
  intros [H1 H2] Hp Hr. eapply buf_reachable_ok; [done|done| |exact Hr]. by eapply pool_new_ok.
Qed.

(** C25: however the critical sections of [iobuf_get], [iobuf_ref], [iobuf_unref],
    [iobuf_put] and [iobuf_pool_prune] are interleaved, by users who only refer to
    and give up buffers they hold, each succeeds: no arena is used after it was
    freed, no buffer is taken from an empty list, and the assertion that destroyed
    buffers have no references holds. *)
Theorem iobuf_pool_safe page_size arena_size alloc mem p y l :
  sizes_ok page_size arena_size -> iobuf_pool_new arena_size page_size alloc mem = Some (Some p) ->
  rtc buf_step (new_buf_sys p) y -> buf_legal l y -> exists y', buf_exec l y = Some y'.
Proof.
  intros Hs Hp Hr Hl. pose proof (new_reachable _ _ _ _ _ _ Hs Hp Hr) as Hy. destruct Hs as [H1 H2].
  destruct (buf_exec_ok page_size arena_size H1 H2 l y Hy Hl) as (y' & ? & _). eauto.
Qed.

(** What the pool knows of a buffer. *)
Definition buf_at (p : iobuf_pool) (b : bufp) : option iobuf := ar ← ip_mem p !! b.1; ar_iobufs ar !! b.2.

Lemma held_buf page_size arena_size held puts p b :
  pool_ok page_size arena_size held puts p -> b ∈ held ->
  exists ar ib, ip_mem p !! b.1 = Some ar /\ buf_at p b = Some ib /\ ib_ref ib = Z.of_nat (multiplicity b held) /\
    ib_ptr ib = ar_mem_base ar + Z.of_nat b.2 * page_size /\ (b.2 < bufs page_size arena_size)%nat.
Proof.
  intros Hp Hb. destruct (po_live _ _ _ _ _ Hp b ltac:(by left)) as [ar Har]. destruct b as [a i]. simpl in *.
  pose proof (po_arena _ _ _ _ _ Hp a ar Har) as [O1 O2 _ _ O5 O6].
  assert (i < bufs page_size arena_size)%nat as Hi.
  { assert (i ∈ ar_active ar ++ ar_passive ar) as Hin by (apply elem_of_app; left; apply O6; by left). rewrite O2 in Hin.
    apply elem_of_seq in Hin. lia. }
  destruct (lookup_lt_is_Some_2 (ar_iobufs ar) i) as [ib Hib]; [lia|]. destruct (O5 i ib Hib). exists ar, ib.
  unfold buf_at. simpl. rewrite Har. done.
Qed.

(** C26: a buffer that is held is in memory with exactly as many references as are
    held, and the memory of two buffers that are held does not overlap: a buffer is
    never given to two users, also across arenas that came and went. *)
Theorem iobuf_buffers_exclusive page_size arena_size alloc mem p y b c :
  sizes_ok page_size arena_size -> iobuf_pool_new arena_size page_size alloc mem = Some (Some p) ->
  rtc buf_step (new_buf_sys p) y -> b ∈ bs_held y -> c ∈ bs_held y ->
  exists ib ic, buf_at (bs_pool y) b = Some ib /\ buf_at (bs_pool y) c = Some ic /\
    ib_ref ib = Z.of_nat (multiplicity b (bs_held y)) /\
    (b <> c -> ib_ptr ib + page_size <= ib_ptr ic \/ ib_ptr ic + page_size <= ib_ptr ib).
Proof.
  intros Hs Hp Hr Hb Hc. pose proof (new_reachable _ _ _ _ _ _ Hs Hp Hr) as Hy. destruct Hs as [H1 H2].
  destruct (held_buf _ _ _ _ _ b Hy Hb) as (arb & ib & Eb & Hib & Rb & Pb & Lb).
  destruct (held_buf _ _ _ _ _ c Hy Hc) as (arc & ic & Ec & Hic & Rc & Pc & Lc).
  exists ib, ic. split_and!; [done|done|done|]. intros Hne. rewrite Pb, Pc.
  pose proof (bufs_pos page_size arena_size H1) as [_ Hbufs]. pose proof (Z.mul_div_le arena_size page_size ltac:(lia)).
  destruct (decide (b.1 = c.1)) as [E|Hn].
  - rewrite E, Ec in Eb. injection Eb as ->. destruct b as [ab i], c as [ac j]. simpl in *. subst ac.
    assert (i <> j) by congruence. destruct (decide (i < j)%nat); [left|right]; nia.
  - destruct (po_regions _ _ _ _ _ Hy _ _ _ _ Eb Ec Hn); [left|right]; nia.
Qed.

(** [iobref_merge] refers once more to each buffer it takes and to no other; it
    takes the buffers of [from] up to the first free slot, as many as there are free
    slots in [to], and fails exactly when there are more.  Giving up the merged set
    gives up exactly the references it has. *)
Theorem iobref_merge_counts page_size arena_size alloc mem p y to from :
  sizes_ok page_size arena_size -> iobuf_pool_new arena_size page_size alloc mem = Some (Some p) ->
  rtc buf_step (new_buf_sys p) y -> Forall (fun b => b ∈ bs_held y) (leading (rf_iobrefs from)) ->
  let taken := take (free_slots (rf_iobrefs to)) (leading (rf_iobrefs from)) in
  exists to' p' ret, iobref_merge to from (bs_pool y) = Some (to', p', ret) /\
    slot_bufs (rf_iobrefs to') ≡ₚ taken ++ slot_bufs (rf_iobrefs to) /\
    (ret < 0 <-> (free_slots (rf_iobrefs to) < length (leading (rf_iobrefs from)))%nat) /\
    (forall b, b ∈ bs_held y -> exists ib, buf_at p' b = Some ib /\
      ib_ref ib = Z.of_nat (multiplicity b (list_to_set_disj taken ⊎ bs_held y))) /\
    (slot_bufs (rf_iobrefs to) = [] -> exists p'', iobref_destroy (rf_iobrefs to') p' = Some p'' /\
      forall b, b ∈ bs_held y -> exists ib, buf_at p'' b = Some ib /\ ib_ref ib = Z.of_nat (multiplicity b (bs_held y))).
Proof.
  intros Hs Hp Hr Hfrom taken. pose proof (new_reachable _ _ _ _ _ _ Hs Hp Hr) as Hy. destruct Hs as [H1 H2].
  rewrite Forall_forall in Hfrom.
  destruct (merge_loop_ok _ _ H1 H2 (rf_iobrefs from) _ _ to 0 _ Hy Hfrom ltac:(done)) as (to' & p' & ret & E & Hslots & Hp' & Hret).
  exists to', p', ret. split_and!; [done|done|done| |].
  - intros b Hb. destruct (held_buf _ _ _ _ _ b Hp') as (ar & ib & _ & ? & ? & _); [multiset_solver|]. eauto.
  - intros Hto. rewrite Hto, app_nil_r in Hslots.
    destruct (iobref_destroy_ok _ _ H1 H2 (rf_iobrefs to') (bs_held y) (bs_puts y) p') as (p'' & E'' & Hp'').
    { by rewrite (list_to_set_disj_perm _ _ Hslots). }
    exists p''. split; [done|]. intros b Hb. destruct (held_buf _ _ _ _ _ b Hp'' Hb) as (ar & ib & _ & ? & ? & _). eauto.
Qed.

(** ** A run *)

(** Two arenas of two buffers; one buffer is given back. *)
Definition buf_labels : list buf_label :=
  [B_get None; B_get None; B_get (Some (200, 2000)); B_ref (100, 1%nat); B_unref (100, 0%nat); B_put (100, 0%nat); B_prune].

Fixpoint run_buf (ls : list buf_label) (y : buf_sys) : option buf_sys :=
  match ls with
  | [] => Some y
  | l :: ls' => if decide (buf_legal l y) then y' ← buf_exec l y; run_buf ls' y' else None
  end.

Lemma run_buf_rtc ls : forall y y', run_buf ls y = Some y' -> rtc buf_step y y'.
Proof.
  induction ls as [|l ls IH]; simpl; intros y y' Hr; [injection Hr as ->; constructor|].
  case_decide as Hl; [|done]. destruct (buf_exec l y) as [y1|] eqn:E; [|done]. simpl in Hr.
  eapply rtc_l; [by exists l|]. by apply IH.
Qed.

Definition example_pool : iobuf_pool :=
  match iobuf_pool_new 8 4 true (Some (100, 1000)) with Some (Some p) => p | _ => mk_pool 0 0 0 [] [] [] ∅ end.

Definition example_bufs : buf_sys := default (new_buf_sys example_pool) (run_buf buf_labels (new_buf_sys example_pool)).

Lemma example_bufs_run : rtc buf_step (new_buf_sys example_pool) example_bufs.
Proof. apply (run_buf_rtc buf_labels). by vm_compute. Qed.

Lemma example_sizes : sizes_ok 4 8.
Proof. by vm_compute. Qed.

Lemma iobuf_pool_safe_witness : exists y', buf_exec (B_unref (100, 1%nat)) example_bufs = Some y'.
Proof.
  apply (iobuf_pool_safe 4 8 true (Some (100, 1000)) example_pool example_bufs); [apply example_sizes|done|apply example_bufs_run|].
  apply (bool_decide_unpack _). by vm_compute.
Defined.

Lemma iobuf_buffers_exclusive_witness :
  exists ib ic, buf_at (bs_pool example_bufs) (100, 1%nat) = Some ib /\ buf_at (bs_pool example_bufs) (200, 1%nat) = Some ic /\
    ib_ref ib = Z.of_nat (multiplicity (100, 1%nat) (bs_held example_bufs)) /\
    ((100, 1%nat) <> (200, 1%nat) -> ib_ptr ib + 4 <= ib_ptr ic \/ ib_ptr ic + 4 <= ib_ptr ib).
Proof.
  apply (iobuf_buffers_exclusive 4 8 true (Some (100, 1000)) example_pool example_bufs);
    [apply example_sizes|done|apply example_bufs_run|..]; apply (bool_decide_unpack _); by vm_compute.
Defined.

Lemma iobref_merge_counts_witness :
  exists to' p' ret, iobref_merge iobref_new (mk_iobref 1 [Some (100, 1%nat); Some (200, 1%nat)]) (bs_pool example_bufs) = Some (to', p', ret) /\
    slot_bufs (rf_iobrefs to') ≡ₚ [(100, 1%nat); (200, 1%nat)].
Proof.
  destruct (iobref_merge_counts 4 8 true (Some (100, 1000)) example_pool example_bufs iobref_new
    (mk_iobref 1 [Some (100, 1%nat); Some (200, 1%nat)])) as (to' & p' & ret & E & Hs & _);
    [apply example_sizes|done|apply example_bufs_run| |].
  - apply (bool_decide_unpack _). by vm_compute.
  - exists to', p', ret. split; [exact E|exact Hs].
Defined.
