(* ===== verification/InodeTable.v ===== *)
(** * libglusterfs: the inode table

    Model of inode.c.  The heap of a process is two finite maps, from addresses
    to the inodes and to the directory entries that are allocated; all pointers
    are addresses.  A function that can touch freed memory, fail an assertion or
    follow NULL returns an option, where [None] stands for each of these faults.

    Every function that takes the mutex of the table is one critical section
    here.  The functions whose names begin with two underscores run inside
    one. *)

From stdpp Require Import base list numbers strings gmap.
From S2P Require Import Prelude.
Open Scope Z_scope.

Abbreviation addr := Z (only parsing).

(** ** Data *)

(** [struct _inode_ctx]; key 0 marks a free slot. *)
Record inode_ctx := mk_ictx { ic_key : Z; ic_value1 : Z; ic_value2 : Z }.

(** [struct _inode]; [i_dentries] is its [dentry_list]. *)
Record inode := mk_inode {
  i_ino : Z;
  i_generation : Z;
  i_mode : Z;
  i_nlookup : Z;
  i_ref : Z;
  i_in_attic : bool;
  i_dentries : list addr;
  i_ctx : list inode_ctx
}.

(** [struct _dentry]; one is only made with a parent. *)
Record dentry := mk_dentry {
  d_inode : addr;
  d_parent : addr;
  d_name : string
}.

(** [struct _inode_table], and the heap. *)
Record itable := mk_itable {
  it_hashsize : Z;
  it_root : addr;
  it_lru_limit : Z;
  it_inode_hash : gmap Z (list addr);
  it_name_hash : gmap Z (list addr);
  it_attic : list addr;
  it_attic_size : Z;
  it_active : list addr;
  it_active_size : Z;
  it_lru : list addr;
  it_lru_size : Z;
  it_purge : list addr;
  it_purge_size : Z;
  it_inodes : gmap addr inode;
  it_dentries : gmap addr dentry
}.

(** What [__inode_link] reads of a [struct stat]. *)
Record istat := mk_istat { st_ino : Z; st_mode : Z; st_dev : Z }.

(** ** Updates of a table *)

Definition set_root (r : addr) (t : itable) : itable :=
  mk_itable (it_hashsize t) r (it_lru_limit t) (it_inode_hash t) (it_name_hash t) (it_attic t)
    (it_attic_size t) (it_active t) (it_active_size t) (it_lru t) (it_lru_size t) (it_purge t)
    (it_purge_size t) (it_inodes t) (it_dentries t).
Definition set_inode_hash (m : gmap Z (list addr)) (t : itable) : itable :=
  mk_itable (it_hashsize t) (it_root t) (it_lru_limit t) m (it_name_hash t) (it_attic t)
    (it_attic_size t) (it_active t) (it_active_size t) (it_lru t) (it_lru_size t) (it_purge t)
    (it_purge_size t) (it_inodes t) (it_dentries t).
Definition set_name_hash (m : gmap Z (list addr)) (t : itable) : itable :=
  mk_itable (it_hashsize t) (it_root t) (it_lru_limit t) (it_inode_hash t) m (it_attic t)
    (it_attic_size t) (it_active t) (it_active_size t) (it_lru t) (it_lru_size t) (it_purge t)
    (it_purge_size t) (it_inodes t) (it_dentries t).
Definition set_attic (l : list addr) (n : Z) (t : itable) : itable :=
  mk_itable (it_hashsize t) (it_root t) (it_lru_limit t) (it_inode_hash t) (it_name_hash t) l
    n (it_active t) (it_active_size t) (it_lru t) (it_lru_size t) (it_purge t)
    (it_purge_size t) (it_inodes t) (it_dentries t).
Definition set_active (l : list addr) (n : Z) (t : itable) : itable :=
  mk_itable (it_hashsize t) (it_root t) (it_lru_limit t) (it_inode_hash t) (it_name_hash t) (it_attic t)
    (it_attic_size t) l n (it_lru t) (it_lru_size t) (it_purge t)
    (it_purge_size t) (it_inodes t) (it_dentries t).
Definition set_lru (l : list addr) (n : Z) (t : itable) : itable :=
  mk_itable (it_hashsize t) (it_root t) (it_lru_limit t) (it_inode_hash t) (it_name_hash t) (it_attic t)
    (it_attic_size t) (it_active t) (it_active_size t) l n (it_purge t)
    (it_purge_size t) (it_inodes t) (it_dentries t).
Definition set_purge (l : list addr) (n : Z) (t : itable) : itable :=
  mk_itable (it_hashsize t) (it_root t) (it_lru_limit t) (it_inode_hash t) (it_name_hash t) (it_attic t)
    (it_attic_size t) (it_active t) (it_active_size t) (it_lru t) (it_lru_size t) l
    n (it_inodes t) (it_dentries t).
Definition set_inodes (m : gmap addr inode) (t : itable) : itable :=
  mk_itable (it_hashsize t) (it_root t) (it_lru_limit t) (it_inode_hash t) (it_name_hash t) (it_attic t)
    (it_attic_size t) (it_active t) (it_active_size t) (it_lru t) (it_lru_size t) (it_purge t)
    (it_purge_size t) m (it_dentries t).
Definition set_dentries (m : gmap addr dentry) (t : itable) : itable :=
  mk_itable (it_hashsize t) (it_root t) (it_lru_limit t) (it_inode_hash t) (it_name_hash t) (it_attic t)
    (it_attic_size t) (it_active t) (it_active_size t) (it_lru t) (it_lru_size t) (it_purge t)
    (it_purge_size t) (it_inodes t) m.

Definition i_set_ref (r : Z) (i : inode) : inode :=
  mk_inode (i_ino i) (i_generation i) (i_mode i) (i_nlookup i) r (i_in_attic i) (i_dentries i) (i_ctx i).
Definition i_set_nlookup (n : Z) (i : inode) : inode :=
  mk_inode (i_ino i) (i_generation i) (i_mode i) n (i_ref i) (i_in_attic i) (i_dentries i) (i_ctx i).
Definition i_set_in_attic (b : bool) (i : inode) : inode :=
  mk_inode (i_ino i) (i_generation i) (i_mode i) (i_nlookup i) (i_ref i) b (i_dentries i) (i_ctx i).
Definition i_set_dentries (l : list addr) (i : inode) : inode :=
  mk_inode (i_ino i) (i_generation i) (i_mode i) (i_nlookup i) (i_ref i) (i_in_attic i) l (i_ctx i).
Definition i_set_stat (st : istat) (i : inode) : inode :=
  mk_inode (st_ino st) (u64 (st_dev st)) (st_mode st) (i_nlookup i) (i_ref i) (i_in_attic i)
    (i_dentries i) (i_ctx i).
Definition i_set_ctx (c : list inode_ctx) (i : inode) : inode :=
  mk_inode (i_ino i) (i_generation i) (i_mode i) (i_nlookup i) (i_ref i) (i_in_attic i) (i_dentries i) c.

(** A store through a pointer to an inode. *)
Definition upd_inode (a : addr) (f : inode -> inode) (t : itable) : itable :=
  set_inodes (alter f a (it_inodes t)) t.

(** The members [list] of an inode are in one of three lists; [list_del] takes
    it out of the one it is in. *)
Definition inode_list_del (a : addr) (t : itable) : itable :=
  set_active (list_del a (it_active t)) (it_active_size t)
    (set_lru (list_del a (it_lru t)) (it_lru_size t)
       (set_purge (list_del a (it_purge t)) (it_purge_size t) t)).

(** ** Hashing *)

(** A [char], which is signed. *)
Definition schar (c : Ascii.ascii) : Z :=
  let n := Z.of_N (Ascii.N_of_ascii c) in if n <? 128 then n else n - 256.

Fixpoint hash_chars (hash : Z) (s : string) : Z :=
  match s with
  | EmptyString => hash
  | String c s' => hash_chars (i32 (Z.shiftl hash 5 - hash + schar c)) s'
  end.

Definition hash_string (name : string) : Z :=
  match name with
  | EmptyString => 0
  | String c s => hash_chars (schar c) s
  end.

(** The parent of a dentry is hashed by its address. *)
Definition hash_dentry (parent : addr) (name : string) (md : Z) : Z :=
  u64 (hash_string name + parent) `mod` md.

(** [hash_name] hashes the inode number of the parent. *)
Definition hash_name (par : Z) (name : string) (md : Z) : Z :=
  u64 (hash_string name + par) `mod` md.

Definition hash_inode (ino : Z) (md : Z) : Z := ino `mod` md.

(** A bucket of a hash table. *)
Definition bucket (m : gmap Z (list addr)) (h : Z) : list addr := default [] (m !! h).
Definition bucket_add (h : Z) (x : addr) (m : gmap Z (list addr)) : gmap Z (list addr) :=
  <[h := list_add x (bucket m h)]> m.
Definition bucket_del (h : Z) (x : addr) (m : gmap Z (list addr)) : gmap Z (list addr) :=
  <[h := list_del x (bucket m h)]> m.

(** The bucket of a dentry: its name and parent never change. *)
Definition dentry_hash (t : itable) (de : dentry) : Z :=
  hash_dentry (d_parent de) (d_name de) (it_hashsize t).
Definition inode_bucket (t : itable) (i : inode) : Z := hash_inode (i_ino i) (it_hashsize t).

Definition __dentry_unhash (t : itable) (d : addr) : option itable :=
  de ← it_dentries t !! d;
  Some (set_name_hash (bucket_del (dentry_hash t de) d (it_name_hash t)) t).

Definition __dentry_hash (t : itable) (d : addr) : option itable :=
  de ← it_dentries t !! d;
  t1 ← __dentry_unhash t d;
  Some (set_name_hash (bucket_add (dentry_hash t de) d (it_name_hash t1)) t1).

Definition __is_dentry_hashed (t : itable) (d : addr) : bool :=
  match it_dentries t !! d with
  | Some de => bool_decide (d ∈ bucket (it_name_hash t) (dentry_hash t de))
  | None => false
  end.

(** The member [hash] of an inode links it into its bucket or into the attic. *)
Definition __is_inode_hashed (t : itable) (a : addr) : bool :=
  match it_inodes t !! a with
  | Some i => bool_decide (a ∈ bucket (it_inode_hash t) (inode_bucket t i)) || bool_decide (a ∈ it_attic t)
  | None => false
  end.

Definition inode_hash_del (t : itable) (a : addr) (i : inode) : itable :=
  set_attic (list_del a (it_attic t)) (it_attic_size t)
    (set_inode_hash (bucket_del (inode_bucket t i) a (it_inode_hash t)) t).

Definition __inode_unhash (t : itable) (a : addr) : option itable :=
  i ← it_inodes t !! a;
  let t1 :=
    if __is_inode_hashed t a then
      upd_inode a (i_set_in_attic false)
        (if i_in_attic i then set_attic (it_attic t) (u32 (it_attic_size t - 1)) t else t)
    else t in
  Some (inode_hash_del t1 a i).

Definition __inode_hash (t : itable) (a : addr) : option itable :=
  i ← it_inodes t !! a;
  let t1 := inode_hash_del t a i in
  Some (set_inode_hash (bucket_add (inode_bucket t i) a (it_inode_hash t1)) t1).

(** ** Searching *)

(** The lists that are searched hold allocated objects only (see
    [InodeTableFacts]). *)
Definition __inode_search (t : itable) (ino : Z) : option addr :=
  List.find (fun a => match it_inodes t !! a with Some i => i_ino i =? ino | None => false end)
    (bucket (it_inode_hash t) (hash_inode ino (it_hashsize t))).

Definition __inode_search_attic (t : itable) (ino gen : Z) : option addr :=
  List.find (fun a => match it_inodes t !! a with
                      | Some i => (i_ino i =? ino) && (i_generation i =? gen)
                      | None => false
                      end) (it_attic t).

(** [tmp->parent->ino == par && !strcmp (tmp->name, name)] *)
Definition dentry_is (t : itable) (par : Z) (name : string) (d : addr) : bool :=
  match it_dentries t !! d with
  | Some de => match it_inodes t !! d_parent de with
               | Some p => (i_ino p =? par) && String.eqb (d_name de) name
               | None => false
               end
  | None => false
  end.

Definition __dentry_search_for_inode (t : itable) (a : addr) (par : Z) (name : string) : option addr :=
  i ← it_inodes t !! a; List.find (dentry_is t par name) (i_dentries i).

Definition __dentry_search (t : itable) (par : Z) (name : string) : option addr :=
  List.find (dentry_is t par name) (bucket (it_name_hash t) (hash_name par name (it_hashsize t))).

(** [tmp->parent == parent && !strcmp (tmp->name, name)] *)
Definition dentry_under (t : itable) (parent : addr) (name : string) (d : addr) : bool :=
  match it_dentries t !! d with
  | Some de => (d_parent de =? parent) && String.eqb (d_name de) name
  | None => false
  end.

Definition __dentry_grep (t : itable) (parent : addr) (name : string) : option addr :=
  List.find (dentry_under t parent name) (bucket (it_name_hash t) (hash_dentry parent name (it_hashsize t))).

Definition __inode_get (t : itable) (ino gen : Z) : option addr :=
  if ino =? 1 then Some (it_root t)
  else
    let found := __inode_search t ino in
    if gen =? 0 then found
    else
      match found with
      | Some a =>
          match it_inodes t !! a with
          | Some i => if i_generation i =? gen then Some a else __inode_search_attic t ino gen
          | None => None
          end
      | None => __inode_search_attic t ino gen
      end.

(** A hashed dentry of the inode if there is one, else the first. *)
Definition __dentry_search_arbit (t : itable) (a : addr) : option addr :=
  i ← it_inodes t !! a;
  match List.find (__is_dentry_hashed t) (i_dentries i) with
  | Some d => Some d
  | None => head (i_dentries i)
  end.

(** ** Reference counts

    Dropping the last reference of an inode that the kernel does not know
    ([nlookup] is 0) drops its dentries, each of which holds a reference to its
    parent, and so on up the tree.  [unref] is the recursive call. *)

Section Unref.
Variable unref : itable -> addr -> option itable.

(** [__dentry_unset]: the dentry cannot be reached any more when the reference
    to its parent is dropped. *)
Definition __dentry_unset (t : itable) (d : addr) : option itable :=
  de ← it_dentries t !! d;
  t1 ← __dentry_unhash t d;
  let t2 := upd_inode (d_inode de) (fun i => i_set_dentries (list_del d (i_dentries i)) i) t1 in
  unref (set_dentries (delete d (it_dentries t2)) t2) (d_parent de).

(** [list_for_each_entry_safe] over the dentries of an inode. *)
Fixpoint unset_dentries (which : itable -> addr -> bool) (t : itable) (ds : list addr) :
    option itable :=
  match ds with
  | [] => Some t
  | d :: ds' =>
      _ ← it_dentries t !! d;
      t1 ← (if which t d then __dentry_unset t d else Some t);
      unset_dentries which t1 ds'
  end.

Definition __inode_passivate (t : itable) (a : addr) : option itable :=
  i ← it_inodes t !! a;
  let t1 := inode_list_del a t in
  let t2 := set_lru (list_add_tail a (it_lru t1)) (u32 (it_lru_size t1 + 1)) t1 in
  unset_dentries (fun t d => negb (__is_dentry_hashed t d)) t2 (i_dentries i).

Definition __inode_retire (t : itable) (a : addr) : option itable :=
  i ← it_inodes t !! a;
  let t1 := inode_list_del a t in
  let t2 := set_purge (list_add_tail a (it_purge t1)) (u32 (it_purge_size t1 + 1)) t1 in
  t3 ← __inode_unhash t2 a;
  unset_dentries (fun _ _ => true) t3 (i_dentries i).

End Unref.

Fixpoint __inode_unref_fuel (fuel : nat) (t : itable) (a : addr) : option itable :=
  match fuel with
  | O => None
  | S n =>
      i ← it_inodes t !! a;
      if i_ino i =? 1 then Some t
      else if i_ref i =? 0 then None
      else
        let r := u32 (i_ref i - 1) in
        let t1 := upd_inode a (i_set_ref r) t in
        if negb (r =? 0) then Some t1
        else
          let t2 := set_active (it_active t1) (u32 (it_active_size t1 - 1)) t1 in
          if negb (i_nlookup i =? 0) then __inode_passivate (__inode_unref_fuel n) t2 a
          else __inode_retire (__inode_unref_fuel n) t2 a
  end.

(** Each level of the recursion frees a dentry. *)
Definition unref_fuel (t : itable) : nat := S (size (it_dentries t)).

Definition __inode_unref (t : itable) (a : addr) : option itable :=
  __inode_unref_fuel (unref_fuel t) t a.

Definition __inode_activate (t : itable) (a : addr) : itable :=
  let t1 := inode_list_del a t in
  set_active (list_add a (it_active t1)) (u32 (it_active_size t1 + 1)) t1.

Definition __inode_ref (t : itable) (a : addr) : option itable :=
  i ← it_inodes t !! a;
  let t1 := if i_ref i =? 0 then __inode_activate (set_lru (it_lru t) (u32 (it_lru_size t - 1)) t) a
            else t in
  Some (upd_inode a (fun i => i_set_ref (u32 (i_ref i + 1)) i) t1).

(** ** Pruning *)

(** The loop that retires the inodes at the head of the LRU list. *)
Fixpoint prune_loop (fuel : nat) (t : itable) (ret : Z) : option (itable * Z) :=
  if negb (it_lru_limit t =? 0) && (it_lru_limit t <? it_lru_size t) then
    match fuel with
    | O => None
    | S n =>
        entry ← head (it_lru t);
        t1 ← __inode_retire __inode_unref
               (set_lru (it_lru t) (u32 (it_lru_size t - 1)) t) entry;
        prune_loop n t1 (ret + 1)
    end
  else Some (t, ret).

(** [__inode_destroy]: the translators whose [forget] is called. *)
Definition __inode_destroy (t : itable) (a : addr) : option (itable * list Z) :=
  i ← it_inodes t !! a;
  Some (set_inodes (delete a (it_inodes t)) t,
        omap (fun c => if ic_key c =? 0 then None else Some (ic_key c)) (i_ctx i)).

Definition __inode_forget (t : itable) (a : addr) (nlookup : Z) : option itable :=
  i ← it_inodes t !! a;
  if i_nlookup i <? nlookup then None
  else Some (upd_inode a (i_set_nlookup (if nlookup =? 0 then 0 else u64 (i_nlookup i - nlookup))) t).

(** The purged inodes, with the [forget] calls that each causes. *)
Fixpoint destroy_loop (t : itable) (l : list addr) : option (itable * list (addr * list Z)) :=
  match l with
  | [] => Some (t, [])
  | a :: l' =>
      t1 ← __inode_forget t a 0;
      '(t2, keys) ← __inode_destroy t1 a;
      '(t3, calls) ← destroy_loop t2 l';
      Some (t3, (a, keys) :: calls)
  end.

(** [inode_table_prune]; one inode leaves the table per round of the loop. *)
Definition inode_table_prune (t : itable) : option (itable * Z * list (addr * list Z)) :=
  '(t1, ret) ← prune_loop (size (it_inodes t)) t 0;
  '(t2, calls) ← destroy_loop (set_purge [] 0 t1) (it_purge t1);
  Some (t2, ret, calls).

(** ** Operations *)

(** The table after an operation that ends with [inode_table_prune]. *)
Definition pruned (t : itable) : option itable :=
  '(t', _, _) ← inode_table_prune t; Some t'.

Definition inode_unref (t : itable) (a : addr) : option itable :=
  t1 ← __inode_unref t a; pruned t1.

Definition inode_ref (t : itable) (a : addr) : option itable := __inode_ref t a.

(** [__inode_create]: [newi] is the address of the new inode where the
    allocations succeed; [xl_count] slots for contexts. *)
Definition __inode_create (t : itable) (newi : option addr) (xl_count : nat) : itable * option addr :=
  match newi with
  | None => (t, None)
  | Some a =>
      let i := mk_inode 0 0 0 0 0 false [] (replicate xl_count (mk_ictx 0 0 0)) in
      (set_lru (list_add a (it_lru t)) (u32 (it_lru_size t + 1))
         (set_inodes (<[a := i]> (it_inodes t)) t), Some a)
  end.

Definition inode_new (t : itable) (newi : option addr) (xl_count : nat) :
    option (itable * option addr) :=
  match __inode_create t newi xl_count with
  | (t1, Some a) => t2 ← __inode_ref t1 a; Some (t2, Some a)
  | (t1, None) => Some (t1, None)
  end.

(** A lookup that takes a reference of what it finds. *)
Definition ref_found (t : itable) (found : option addr) : option (itable * option addr) :=
  match found with
  | Some a => t1 ← __inode_ref t a; Some (t1, Some a)
  | None => Some (t, None)
  end.

(** The inode of the dentry a search found. *)
Definition found_inode (t : itable) (d : option addr) : option addr :=
  d ← d; d_inode <$> it_dentries t !! d.

Definition inode_search (t : itable) (ino : Z) (name : option string) :
    option (itable * option addr) :=
  ref_found t (match name with
               | None => __inode_search t ino
               | Some n => found_inode t (__dentry_search t ino n)
               end).

Definition inode_grep (t : itable) (parent : addr) (name : string) : option (itable * option addr) :=
  ref_found t (found_inode t (__dentry_grep t parent name)).

Definition inode_get (t : itable) (ino gen : Z) : option (itable * option addr) :=
  ref_found t (__inode_get t ino gen).

Definition __inode_atticize (t : itable) (a : addr) : option itable :=
  t1 ← __inode_unhash t a;
  Some (upd_inode a (i_set_in_attic true)
          (set_attic (list_add a (it_attic t1)) (u32 (it_attic_size t1 + 1)) t1)).

(** [__dentry_create] at the address [newd], where the allocations succeed. *)
Definition __dentry_create (t : itable) (a parent : addr) (name : string) (newd : addr) : option itable :=
  t1 ← __inode_ref t parent;
  Some (set_dentries (<[newd := mk_dentry a parent name]> (it_dentries t1))
          (upd_inode a (fun i => i_set_dentries (list_add newd (i_dentries i)) i) t1)).

(** The first part of [__inode_link]: the inode that stands for the file. *)
Definition link_hash (t : itable) (a : addr) (st : istat) : option (itable * addr) :=
  _ ← it_inodes t !! a;
  if __is_inode_hashed t a then Some (t, a)
  else
    let t1 := upd_inode a (i_set_stat st) t in
    match __inode_search t1 (st_ino st) with
    | Some old =>
        oi ← it_inodes t1 !! old;
        if i_generation oi <? u64 (st_dev st) then
          t2 ← __inode_atticize t1 old; t3 ← __inode_hash t2 a; Some (t3, a)
        else Some (t1, old)
    | None => t2 ← __inode_hash t1 a; Some (t2, a)
    end.

(** The second part: the dentry.  Without memory for it ([newd] is [None]) the
    code goes on with a NULL dentry. *)
Definition link_dentry (t : itable) (link_inode parent : addr) (name : string) (newd : option addr) :
    option itable :=
  let old := __dentry_grep t parent name in
  if bool_decide (found_inode t old = Some link_inode) then Some t
  else
    d ← newd;
    t1 ← __dentry_create t link_inode parent name d;
    t2 ← __dentry_hash t1 d;
    match old with
    | Some od => __dentry_unset __inode_unref t2 od
    | None => Some t2
    end.

Definition __inode_link (t : itable) (a : addr) (parent : option (addr * string)) (st : istat)
    (newd : option addr) : option (itable * addr) :=
  '(t1, link_inode) ← link_hash t a st;
  match parent with
  | None => Some (t1, link_inode)
  | Some (p, name) => t2 ← link_dentry t1 link_inode p name newd; Some (t2, link_inode)
  end.

(** The critical section of [inode_link], and the whole function. *)
Definition inode_link_locked (t : itable) (a : addr) (parent : option (addr * string)) (st : istat)
    (newd : option addr) : option (itable * addr) :=
  '(t1, li) ← __inode_link t a parent st newd;
  t2 ← __inode_ref t1 li;
  Some (t2, li).

Definition inode_link (t : itable) (a : addr) (parent : option (addr * string)) (st : istat)
    (newd : option addr) : option (itable * addr) :=
  '(t1, li) ← inode_link_locked t a parent st newd;
  t2 ← pruned t1;
  Some (t2, li).

Definition inode_lookup (t : itable) (a : addr) : option itable :=
  i ← it_inodes t !! a; Some (upd_inode a (i_set_nlookup (u64 (i_nlookup i + 1))) t).

Definition inode_forget (t : itable) (a : addr) (nlookup : Z) : option itable :=
  t1 ← __inode_forget t a nlookup; pruned t1.

Definition __inode_unlink (t : itable) (a parent : addr) (name : string) : option itable :=
  p ← it_inodes t !! parent;
  _ ← it_inodes t !! a;
  match __dentry_search_for_inode t a (i_ino p) name with
  | Some d => __dentry_unset __inode_unref t d
  | None => Some t
  end.

Definition inode_unlink (t : itable) (a : option addr) (parent : addr) (name : string) : option itable :=
  match a with
  | None => Some t
  | Some a => t1 ← __inode_unlink t a parent name; pruned t1
  end.

Definition inode_rename_locked (t : itable) (srcdir : addr) (srcname : string) (dstdir : addr)
    (dstname : string) (a : addr) (st : istat) (newd : option addr) : option itable :=
  '(t1, _) ← __inode_link t a (Some (dstdir, dstname)) st newd;
  __inode_unlink t1 a srcdir srcname.

Definition inode_rename (t : itable) (srcdir : addr) (srcname : string) (dstdir : addr)
    (dstname : string) (a : addr) (st : istat) (newd : option addr) : option itable :=
  t1 ← inode_rename_locked t srcdir srcname dstdir dstname a st newd; pruned t1.

Definition inode_parent (t : itable) (a : addr) (par : Z) (name : option string) :
    option (itable * option addr) :=
  let d := match name with
           | Some n => if par =? 0 then __dentry_search_arbit t a else __dentry_search_for_inode t a par n
           | None => __dentry_search_arbit t a
           end in
  ref_found t (d ← d; d_parent <$> it_dentries t !! d).

(** [inode_table_new], its root included, where the allocations succeed. *)
Definition empty_table (lru_limit : Z) : itable :=
  mk_itable 14057 0 (u32 lru_limit) ∅ ∅ [] 0 [] 0 [] 0 [] 0 ∅ ∅.

Definition __inode_table_init_root (t : itable) (root : addr) (xl_count : nat) : option itable :=
  let '(t1, _) := __inode_create t (Some root) xl_count in
  '(t2, _) ← __inode_link t1 root None (mk_istat 1 16877 0) None;
  Some (set_root root t2).

Definition inode_table_new (lru_limit : Z) (root : addr) (xl_count : nat) : option itable :=
  __inode_table_init_root (empty_table lru_limit) root xl_count.

(** ** Contexts *)

(** The loop of [__inode_ctx_put2]: the slot of the translator, or the first
    free one. *)
Fixpoint ctx_put_idx (key : Z) (index : nat) (put_idx : option nat) (ctx : list inode_ctx) : option nat :=
  match ctx with
  | [] => put_idx
  | c :: ctx' =>
      let put_idx' :=
        if ic_key c =? 0 then match put_idx with None => Some index | p => p end else put_idx in
      if ic_key c =? key then Some index else ctx_put_idx key (S index) put_idx' ctx'
  end.

Definition __inode_ctx_put2 (ctx : list inode_ctx) (key value1 value2 : Z) : list inode_ctx * Z :=
  match ctx_put_idx key 0 None ctx with
  | None => (ctx, -1)
  | Some i => (<[i := mk_ictx key value1 value2]> ctx, 0)
  end.

(** The index at which the other two loops stop. *)
Fixpoint ctx_index (key : Z) (ctx : list inode_ctx) : option nat :=
  match ctx with
  | [] => None
  | c :: ctx' => if ic_key c =? key then Some O else S <$> ctx_index key ctx'
  end.

Definition __inode_ctx_get2 (ctx : list inode_ctx) (key : Z) : option (Z * Z) :=
  i ← ctx_index key ctx; (fun c => (ic_value1 c, ic_value2 c)) <$> ctx !! i.

Definition __inode_ctx_del2 (ctx : list inode_ctx) (key : Z) : list inode_ctx * option (Z * Z) :=
  match ctx_index key ctx with
  | None => (ctx, None)
  | Some i => (<[i := mk_ictx 0 0 0]> ctx, (fun c => (ic_value1 c, ic_value2 c)) <$> ctx !! i)
  end.

(** [inode_ctx_put2], [inode_ctx_get2] and [inode_ctx_del2] of an inode of the
    table, with their return values; -1 for a NULL inode or translator.
    [inode_ctx_put], [inode_ctx_get] and [inode_ctx_del] are the same functions
    with a second value of 0. *)
Definition inode_ctx_put2 (t : itable) (a : option addr) (key value1 value2 : Z) : option (itable * Z) :=
  match a with
  | None => Some (t, -1)
  | Some a =>
      if key =? 0 then Some (t, -1)
      else
        i ← it_inodes t !! a;
        let '(ctx, ret) := __inode_ctx_put2 (i_ctx i) key value1 value2 in
        Some (upd_inode a (i_set_ctx ctx) t, ret)
  end.

Definition inode_ctx_get2 (t : itable) (a : option addr) (key : Z) : option (option (Z * Z) * Z) :=
  match a with
  | None => Some (None, -1)
  | Some a =>
      if key =? 0 then Some (None, -1)
      else
        i ← it_inodes t !! a;
        match __inode_ctx_get2 (i_ctx i) key with
        | Some v => Some (Some v, 0)
        | None => Some (None, -1)
        end
  end.

Definition inode_ctx_del2 (t : itable) (a : option addr) (key : Z) :
    option (itable * option (Z * Z) * Z) :=
  match a with
  | None => Some (t, None, -1)
  | Some a =>
      if key =? 0 then Some (t, None, -1)
      else
        i ← it_inodes t !! a;
        match __inode_ctx_del2 (i_ctx i) key with
        | (ctx, Some v) => Some (upd_inode a (i_set_ctx ctx) t, Some v, 0)
        | (_, None) => Some (t, None, -1)
        end
  end.

Definition inode_ctx_put (t : itable) (a : option addr) (key value : Z) : option (itable * Z) :=
  inode_ctx_put2 t a key value 0.
