(* ===== verification/InodePath.v ===== *)
(** * libglusterfs: paths of inodes

    Model of [inode_path] and [inode_from_path] of inode.c.  Characters are
    [ascii]; the buffer that [inode_path] fills from its end is a list of them,
    and a write outside of it is the fault [None]. *)

From stdpp Require Import base list numbers strings gmap.
From S2P Require Import Prelude InodeTable.
Open Scope Z_scope.

Definition PATH_MAX : Z := 4096.

Definition slash : Ascii.ascii := Ascii.ascii_of_N 47.
Definition nul : Ascii.ascii := Ascii.ascii_of_N 0.

Definition strlen (s : string) : Z := Z.of_nat (String.length s).
Definition chars (s : string) : list Ascii.ascii := String.list_ascii_of_string s.

(** The first loop: the length of the path, from the dentries up to an inode
    that has none; the error where it gets too long. *)
Fixpoint path_len (fuel : nat) (t : itable) (a : Z) (i : Z) : option (Z + Z) :=
  match fuel with
  | O => None
  | S n =>
      _ ← it_inodes t !! a;
      match __dentry_search_arbit t a with
      | None => Some (inl i)
      | Some d =>
          de ← it_dentries t !! d;
          let i' := i + 1 + strlen (d_name de) in
          if PATH_MAX <? i' then Some (inr (- ENOENT))
          else path_len n t (d_parent de) i'
      end
  end.

(** A name and the slash before it, so that they end at [i]. *)
Definition put_name (i : Z) (name : string) (buf : list Ascii.ascii) : option (list Ascii.ascii * Z) :=
  let len := strlen name in
  b1 ← buf_write (i - len) (chars name) buf;
  b2 ← buf_write (i - len - 1) [slash] b1;
  Some (b2, i - (len + 1)).

(** The second loop. *)
Fixpoint path_fill (fuel : nat) (t : itable) (a : Z) (i : Z) (buf : list Ascii.ascii) :
    option (list Ascii.ascii) :=
  match fuel with
  | O => None
  | S n =>
      _ ← it_inodes t !! a;
      match __dentry_search_arbit t a with
      | None => Some buf
      | Some d =>
          de ← it_dentries t !! d;
          '(buf', i') ← put_name i (d_name de) buf;
          path_fill n t (d_parent de) i' buf'
      end
  end.

(** A round of the first loop adds at least one to the length. *)
Definition path_fuel : nat := Z.to_nat (PATH_MAX + 2).

(** [inode_path]: the return value, and the buffer.  The root gets a buffer of its
    own; where there is no memory for it ([calloc2_ok] is false) [*bufp] is left
    with the first buffer, which has been freed. *)
Definition inode_path (t : itable) (a : Z) (name : option string) (calloc_ok calloc2_ok : bool) :
    option (Z * option (list Ascii.ascii)) :=
  ino ← it_inodes t !! a;
  locked ← (len ← path_len path_fuel t a 0;
            match len with
            | inr e => Some (e, None)
            | inl i =>
                if negb (i_ino ino =? 1) && (i =? 0) then Some (- ENOENT, None)
                else
                  let total := match name with Some n => i + 1 + strlen n | None => i end in
                  if negb calloc_ok then Some (- ENOMEM, None)
                  else
                    let buf := replicate (Z.to_nat (total + 1)) nul in
                    '(buf1, i1) ← match name with
                                  | Some n => put_name total n buf
                                  | None => Some (buf, total)
                                  end;
                    buf2 ← path_fill path_fuel t a i1 buf1;
                    Some (total, Some buf2)
            end);
  match name with
  | None => if i_ino ino =? 1
            then if calloc2_ok then Some (1, Some [slash; nul]) else Some (- ENOMEM, snd locked)
            else Some locked
  | Some _ => Some locked
  end.

(** [strtok_r (pathname, "/", ...)]: the components of a path.  [cur] is the
    component being read, reversed. *)
Fixpoint components (cur : list Ascii.ascii) (s : list Ascii.ascii) : list string :=
  let emit := match cur with [] => [] | _ => [String.string_of_list_ascii (reverse cur)] end in
  match s with
  | [] => emit
  | c :: s' =>
      if bool_decide (c = slash) then emit ++ components [] s' else components (c :: cur) s'
  end.

(** The loop of [inode_from_path]: the table, the inode, and the directory that
    is still referenced. *)
Fixpoint from_path_loop (t : itable) (parent : Z) (comps : list string) :
    option (itable * option Z * Z) :=
  match comps with
  | [] => Some (t, None, parent)
  | c :: rest =>
      '(t1, curr) ← inode_grep t parent c;
      match curr, rest with
      | None, _ => Some (t1, None, parent)
      | Some a, [] => Some (t1, Some a, parent)
      | Some a, _ => t2 ← inode_unref t1 parent; from_path_loop t2 a rest
      end
  end.

Definition inode_from_path (t : itable) (path : list Ascii.ascii) (strdup_ok : bool) :
    option (itable * option Z) :=
  if negb strdup_ok then Some (t, None)
  else
    t1 ← inode_ref t (it_root t);
    let comps := components [] path in
    '(t2, found, parent) ←
      match comps with
      | [] => t2 ← inode_ref t1 (it_root t); Some (t2, Some (it_root t), it_root t)
      | _ => from_path_loop t1 (it_root t) comps
      end;
    t3 ← inode_unref t2 parent;
    Some (t3, found).
