(* ===== verification/InodeTableFacts.v ===== *)
(** * The invariant of the inode table

    What holds of a table between any two critical sections: where an inode is
    listed, what its reference count counts, and that no list or pointer leads
    to freed memory.  The references that callers hold are a multiset of
    inodes, the ghost argument [H]. *)

From stdpp Require Import gmap gmultiset base list numbers strings.
From S2P Require Import Prelude InodeTable.
Open Scope Z_scope.

(** ** Statement *)

(** The number of dentries in a directory. *)
Definition children (ds : gmap Z dentry) (p : Z) : nat :=
  size (filter (fun kv => d_parent (snd kv) = p) ds).

(** Every inode is in one of the three lists, in [active] while referenced. *)
Record lists_ok (act lru purge : list Z) (m : gmap Z inode) : Prop := {
  lk_nodup : NoDup (act ++ lru ++ purge);
  lk_dom : forall a, a ∈ act ++ lru ++ purge <-> is_Some (m !! a);
  lk_active : forall a i, m !! a = Some i -> (a ∈ act <-> i_ref i <> 0);
  lk_room : Z.of_nat (length (act ++ lru ++ purge)) < 2 ^ 32
}.

Record sizes_ok (t : itable) : Prop := {
  sz_active : it_active_size t = Z.of_nat (length (it_active t));
  sz_lru : it_lru_size t = Z.of_nat (length (it_lru t));
  sz_purge : it_purge_size t = Z.of_nat (length (it_purge t));
  sz_attic : it_attic_size t = Z.of_nat (length (it_attic t));
  sz_limit : 0 <= it_lru_limit t
}.

(** A reference count is the number of references held by callers and by the
    dentries of the directory.  The root, which is inode 1, stays referenced. *)
Record refs_ok (H : gmultiset Z) (root : Z) (m : gmap Z inode) (ds : gmap Z dentry) : Prop := {
  rf_range : forall a i, m !! a = Some i -> 0 <= i_ref i < 2 ^ 32 /\ 0 <= i_nlookup i;
  rf_count : forall a i, m !! a = Some i -> a <> root ->
    i_ref i = Z.of_nat (multiplicity a H + children ds a);
  rf_root : exists r, m !! root = Some r /\ i_ref r <> 0;
  rf_one : forall a i, m !! a = Some i -> (i_ino i = 1 <-> a = root);
  rf_held : forall a, a ∈ H -> is_Some (m !! a)
}.

(** Dentries and inodes point to each other; purged inodes have no dentries,
    except those in [X], which are being retired. *)
Record dents_ok (X : gset Z) (root : Z) (purge : list Z) (m : gmap Z inode) (ds : gmap Z dentry) :
    Prop := {
  dn_retiring : forall a, a ∈ X -> a ∈ purge;
  dn_up : forall d de, ds !! d = Some de ->
    is_Some (m !! d_parent de) /\ exists i, m !! d_inode de = Some i /\ d ∈ i_dentries i;
  dn_down : forall a i, m !! a = Some i ->
    NoDup (i_dentries i) /\ forall d, d ∈ i_dentries i -> exists de, ds !! d = Some de /\ d_inode de = a;
  dn_purge : forall a i, a ∈ purge -> m !! a = Some i -> a ∈ X \/ i_dentries i = [];
  dn_root : forall r, m !! root = Some r -> i_dentries r = []
}.

(** The name hash holds all dentries, each in its bucket. *)
Definition names_ok (hs : Z) (nh : gmap Z (list Z)) (ds : gmap Z dentry) : Prop :=
  forall d h, d ∈ bucket nh h <->
    exists de, ds !! d = Some de /\ hash_dentry (d_parent de) (d_name de) hs = h.

(** The inode hash holds at most one inode of a number, the attic the inodes
    that are marked so. *)
Record hash_ok (hs : Z) (ih : gmap Z (list Z)) (attic purge : list Z) (m : gmap Z inode) : Prop := {
  hs_in : forall a h, a ∈ bucket ih h ->
    exists i, m !! a = Some i /\ hash_inode (i_ino i) hs = h /\ i_in_attic i = false /\ (a ∉ purge);
  hs_uniq : forall a b h i j, a ∈ bucket ih h -> b ∈ bucket ih h ->
    m !! a = Some i -> m !! b = Some j -> i_ino i = i_ino j -> a = b;
  hs_attic : forall a, a ∈ attic <-> exists i, m !! a = Some i /\ i_in_attic i = true;
  hs_attic_purge : forall a, a ∈ attic -> a ∉ purge;
  hs_attic_nodup : NoDup attic
}.

Record wf (X : gset Z) (H : gmultiset Z) (t : itable) : Prop := {
  wf_lists : lists_ok (it_active t) (it_lru t) (it_purge t) (it_inodes t);
  wf_sizes : sizes_ok t;
  wf_refs : refs_ok H (it_root t) (it_inodes t) (it_dentries t);
  wf_dents : dents_ok X (it_root t) (it_purge t) (it_inodes t) (it_dentries t);
  wf_names : names_ok (it_hashsize t) (it_name_hash t) (it_dentries t);
  wf_hash : hash_ok (it_hashsize t) (it_inode_hash t) (it_attic t) (it_purge t) (it_inodes t)
}.

(** A directory has one entry of a name. *)
Definition names_unique (ds : gmap Z dentry) : Prop :=
  forall d1 d2 e1 e2, ds !! d1 = Some e1 -> ds !! d2 = Some e2 ->
    d_parent e1 = d_parent e2 -> d_name e1 = d_name e2 -> d1 = d2.

(** ** Maps of inodes that agree on some fields *)

Section Agree.
Context {B : Type} (f : inode -> B).

Definition agree (m m' : gmap Z inode) : Prop := forall a, f <$> m' !! a = f <$> m !! a.

Lemma agree_alter (g : inode -> inode) (a : Z) (m : gmap Z inode) :
  (forall i, m !! a = Some i -> f (g i) = f i) -> agree m (alter g a m).
Proof.
  intros Hg b. destruct (decide (a = b)) as [<-|Hne].
  - rewrite lookup_alter_eq. destruct (m !! a) eqn:E; simpl; [|done]. f_equal. auto.
  - by rewrite lookup_alter_ne.
Qed.

Lemma agree_Some (m m' : gmap Z inode) a i' :
  agree m m' -> m' !! a = Some i' -> exists i, m !! a = Some i /\ f i = f i'.
Proof.
  intros Ha Hi. specialize (Ha a). rewrite Hi in Ha. simpl in Ha.
  destruct (m !! a) as [i|]; simplify_eq/=. eauto.
Qed.

Lemma agree_sym (m m' : gmap Z inode) : agree m m' -> agree m' m.
Proof. intros Ha a. by rewrite Ha. Qed.

Lemma agree_is_Some (m m' : gmap Z inode) a : agree m m' -> is_Some (m' !! a) <-> is_Some (m !! a).
Proof. intros Ha. rewrite <-!(fmap_is_Some f), Ha. done. Qed.

End Agree.

(** Uses an agreement at an inode of the new map, or of the old one. *)
Ltac old_inode Ha H :=
  let i := fresh "io" in let Hi := fresh "Hio" in let Hf := fresh "Hf" in
  destruct (agree_Some _ _ _ _ _ Ha H) as (i & Hi & Hf); simplify_eq/=.

Lemma lists_ok_agree act lru purge m m' :
  agree i_ref m m' -> lists_ok act lru purge m -> lists_ok act lru purge m'.
Proof.
  intros Ha [? Hd Hact ?]. split; [done| | |done].
  - intros a. by rewrite Hd, (agree_is_Some _ _ _ _ Ha).
  - intros a i Hi. old_inode Ha Hi. rewrite (Hact _ _ Hio). by rewrite Hf.
Qed.

Lemma refs_ok_agree H root m m' ds :
  agree (fun i => (i_ino i, i_ref i, i_nlookup i)) m m' -> refs_ok H root m ds -> refs_ok H root m' ds.
Proof.
  intros Ha [Hr Hc (r & Hroot & Hr0) H1 Hh]. split.
  - intros a i Hi. old_inode Ha Hi. destruct (Hr _ _ Hio). lia.
  - intros a i Hi Hne. old_inode Ha Hi. rewrite <-(Hc _ _ Hio Hne). congruence.
  - old_inode (agree_sym _ _ _ Ha) Hroot. exists io. split; [done|congruence].
  - intros a i Hi. old_inode Ha Hi. rewrite <-(H1 _ _ Hio). split; congruence.
  - intros a Hin. rewrite (agree_is_Some _ _ _ _ Ha). auto.
Qed.

Lemma dents_ok_agree X root purge m m' ds :
  agree i_dentries m m' -> dents_ok X root purge m ds -> dents_ok X root purge m' ds.
Proof.
  intros Ha [HX Hup Hdn Hp Hroot]. split; [done| | | |].
  - intros d de Hd. rewrite (agree_is_Some _ _ _ _ Ha). destruct (Hup _ _ Hd) as (? & i & Hi & ?).
    split; [done|]. old_inode (agree_sym _ _ _ Ha) Hi. exists io. split; [done|congruence].
  - intros a i Hi. old_inode Ha Hi. rewrite <-Hf. eauto.
  - intros a i Hin Hi. old_inode Ha Hi. rewrite <-Hf. eauto.
  - intros r Hi. old_inode Ha Hi. rewrite <-Hf. eauto.
Qed.

Lemma hash_ok_agree hs ih attic purge m m' :
  agree (fun i => (i_ino i, i_in_attic i)) m m' ->
  hash_ok hs ih attic purge m -> hash_ok hs ih attic purge m'.
Proof.
  intros Ha [Hin Hu Hat ? ?]. pose proof (agree_sym _ _ _ Ha) as Ha'. split; [| | |done..].
  - intros a h Hah. destruct (Hin _ _ Hah) as (i & Hi & ? & ? & ?). old_inode Ha' Hi.
    eexists; split_and!; [done|congruence..|done].
  - intros a b h i j ?? Hi Hj ?. old_inode Ha Hi. old_inode Ha Hj. eapply (Hu a b h); eauto. congruence.
  - intros a. rewrite Hat. split; intros (i & Hi & ?).
    + old_inode Ha' Hi. eexists; split; [done|congruence].
    + old_inode Ha Hi. eexists; split; [done|congruence].
Qed.

(** ** Counting the children of a directory *)

Lemma children_delete ds d de p :
  ds !! d = Some de ->
  children ds p = (children (delete d ds) p + if decide (d_parent de = p) then 1 else 0)%nat.
Proof.
  intros Hd. unfold children. rewrite map_filter_delete. case_decide as Hp.
  - rewrite map_size_delete_Some by (exists de; by rewrite map_lookup_filter_Some).
    assert (size (filter (fun kv : Z * dentry => d_parent kv.2 = p) ds) <> 0%nat); [|lia].
    apply map_size_ne_0_lookup. exists d, de. by rewrite map_lookup_filter_Some.
  - rewrite Nat.add_0_r. symmetry. f_equal. apply delete_id. rewrite map_lookup_filter_None.
    right. intros x Hx. simplify_eq. done.
Qed.

Lemma children_insert ds d de p :
  ds !! d = None ->
  children (<[d := de]> ds) p = (children ds p + if decide (d_parent de = p) then 1 else 0)%nat.
Proof.
  intros Hd. rewrite (children_delete _ d de p) by apply lookup_insert_eq.
  by rewrite delete_insert_id.
Qed.

Lemma children_pos ds d de : ds !! d = Some de -> (0 < children ds (d_parent de))%nat.
Proof. intros Hd. rewrite (children_delete ds d de _ Hd). case_decide; [lia|done]. Qed.

(** ** Buckets *)

Lemma elem_bucket_add h x m h' y :
  y ∈ bucket (bucket_add h x m) h' <-> (y = x /\ h' = h) \/ y ∈ bucket m h'.
Proof.
  unfold bucket, bucket_add, list_add. destruct (decide (h = h')) as [<-|Hne].
  - rewrite lookup_insert_eq. simpl. rewrite elem_of_cons. naive_solver.
  - rewrite lookup_insert_ne by done. naive_solver.
Qed.

Lemma elem_bucket_del h x m h' y :
  y ∈ bucket (bucket_del h x m) h' <-> (y <> x \/ h' <> h) /\ y ∈ bucket m h'.
Proof.
  unfold bucket, bucket_del. destruct (decide (h = h')) as [<-|Hne].
  - rewrite lookup_insert_eq. simpl. rewrite elem_of_list_del. naive_solver.
  - rewrite lookup_insert_ne by done. naive_solver.
Qed.

(** ** Removing a dentry

    The reference that the dentry held is a loose one then. *)

Definition unset_table (t : itable) (d : Z) (de : dentry) : itable :=
  set_dentries (delete d (it_dentries t))
    (upd_inode (d_inode de) (fun i => i_set_dentries (list_del d (i_dentries i)) i)
       (set_name_hash (bucket_del (dentry_hash t de) d (it_name_hash t)) t)).

Lemma dentry_unset_eq unref t d de :
  it_dentries t !! d = Some de ->
  __dentry_unset unref t d = unref (unset_table t d de) (d_parent de).
Proof. intros Hd. unfold __dentry_unset, __dentry_unhash. by rewrite Hd. Qed.

Lemma refs_ok_delete H root m ds d de :
  ds !! d = Some de -> is_Some (m !! d_parent de) -> refs_ok H root m ds ->
  refs_ok (H ⊎ {[+ d_parent de +]}) root m (delete d ds).
Proof.
  intros Hd Hp [Hr Hc Hroot H1 Hh]. split; [done| |done..|].
  - intros a i Hi Hne. rewrite (Hc _ _ Hi Hne), (children_delete ds d de a Hd).
    rewrite multiplicity_disj_union, multiplicity_singleton. repeat case_decide; subst; done || lia.
  - intros a [?|?%gmultiset_elem_of_singleton]%gmultiset_elem_of_disj_union; subst; auto.
Qed.

Lemma dents_ok_delete X root purge m ds d de :
  ds !! d = Some de -> dents_ok X root purge m ds ->
  dents_ok X root purge (alter (fun i => i_set_dentries (list_del d (i_dentries i)) i) (d_inode de) m)
    (delete d ds).
Proof.
  intros Hd [HX Hup Hdn Hp Hroot]. split; [done| | | |].
  - intros d' de' [Hne Hd']%lookup_delete_Some. destruct (Hup _ _ Hd') as (? & i & Hi & Hin).
    rewrite lookup_alter_is_Some. split; [done|].
    destruct (decide (d_inode de = d_inode de')) as [E|E].
    + rewrite E, lookup_alter_eq, Hi. eexists; split; [done|]. simpl. rewrite elem_of_list_del. done.
    + rewrite lookup_alter_ne by done. eauto.
  - intros a i [(<- & i0 & Hi & ->)|(Hne & Hi)]%lookup_alter_Some; destruct (Hdn _ _ Hi) as (Hnd & Hall).
    + simpl. split; [by apply NoDup_list_del|]. intros d' [Hne Hin]%elem_of_list_del.
      destruct (Hall _ Hin) as (de' & ? & ?). exists de'. by rewrite lookup_delete_ne.
    + split; [done|]. intros d' Hin. destruct (Hall _ Hin) as (de' & Hd' & ?). exists de'.
      rewrite lookup_delete_ne; [done|]. intros <-. congruence.
  - intros a i Hin [(<- & i0 & Hi & ->)|(Hne & Hi)]%lookup_alter_Some; [|eauto].
    destruct (Hp _ _ Hin Hi) as [?|E]; [by left|right]. simpl. by rewrite E.
  - intros r [(<- & i0 & Hi & ->)|(Hne & Hi)]%lookup_alter_Some; [|eauto].
    simpl. by rewrite (Hroot _ Hi).
Qed.

Lemma names_ok_delete hs nh ds d de :
  ds !! d = Some de -> names_ok hs nh ds ->
  names_ok hs (bucket_del (hash_dentry (d_parent de) (d_name de) hs) d nh) (delete d ds).
Proof.
  intros Hd Hn d' h. rewrite elem_bucket_del, (Hn d' h). setoid_rewrite lookup_delete_Some.
  split.
  - intros (Hor & de' & Hd' & Hh). exists de'. split; [split; [|done]|done].
    intros <-. destruct Hor; simplify_eq.
  - intros (de' & (Hne & Hd') & Hh). split; [left; congruence|eauto].
Qed.

Lemma wf_unset X H t d de :
  wf X H t -> it_dentries t !! d = Some de -> wf X (H ⊎ {[+ d_parent de +]}) (unset_table t d de).
Proof.
  intros [Hl Hs Hr Hd Hn Hh] Hde. destruct (dn_up _ _ _ _ _ Hd _ _ Hde) as (Hp & _).
  split; simpl.
  - eapply lists_ok_agree; [|done]. by apply agree_alter.
  - by destruct Hs.
  - eapply refs_ok_agree; [by apply agree_alter|]. by apply refs_ok_delete.
  - by apply dents_ok_delete.
  - by apply names_ok_delete.
  - eapply hash_ok_agree; [|done]. by apply agree_alter.
Qed.

(** ** Moving an inode between the lists *)

(** What the last reference leaves: an inode of the LRU list. *)
Definition to_lru (a : Z) (t : itable) : itable :=
  set_lru (list_add_tail a (list_del a (it_lru t))) (u32 (it_lru_size t + 1))
    (set_active (list_del a (it_active t)) (u32 (it_active_size t - 1))
       (set_purge (list_del a (it_purge t)) (it_purge_size t) (upd_inode a (i_set_ref 0) t))).

Section Lists.
Context {act lru purge : list Z} {m : gmap Z inode} (Hl : lists_ok act lru purge m).

Lemma lists_active_not a : a ∈ act -> (a ∉ lru) /\ (a ∉ purge).
Proof.
  intros Ha. pose proof (lk_nodup _ _ _ _ Hl) as (_ & Hx & _)%NoDup_app. specialize (Hx a Ha).
  rewrite elem_of_app in Hx. tauto.
Qed.

Lemma lists_lru_not a : a ∈ lru -> (a ∉ act) /\ (a ∉ purge).
Proof.
  intros Ha. pose proof (lk_nodup _ _ _ _ Hl) as (_ & Hx & (_ & Hy & _)%NoDup_app)%NoDup_app.
  split; [|auto]. intros Hact. apply (Hx a Hact). set_solver.
Qed.

Lemma lists_nodup : NoDup act /\ NoDup lru /\ NoDup purge.
Proof.
  pose proof (lk_nodup _ _ _ _ Hl) as (? & _ & (? & _ & ?)%NoDup_app)%NoDup_app. done.
Qed.

Lemma lists_referenced a i : m !! a = Some i -> i_ref i <> 0 -> a ∈ act /\ (a ∉ lru) /\ (a ∉ purge).
Proof.
  intros Hi Hr. assert (a ∈ act) as Ha by by apply (lk_active _ _ _ _ Hl a i Hi).
  split; [done|]. by apply lists_active_not.
Qed.

Lemma lists_unreferenced a i : m !! a = Some i -> i_ref i = 0 -> a ∉ purge -> a ∈ lru.
Proof.
  intros Hi Hr Hp. assert (a ∈ act ++ lru ++ purge) as Ha by (apply (lk_dom _ _ _ _ Hl); eauto).
  assert (a ∉ act) by (rewrite (lk_active _ _ _ _ Hl a i Hi); naive_solver). set_solver.
Qed.

End Lists.

Lemma lists_ok_to_lru act lru purge m a :
  lists_ok act lru purge m -> a ∈ act ->
  lists_ok (list_del a act) (list_add_tail a (list_del a lru)) (list_del a purge)
    (alter (i_set_ref 0) a m).
Proof.
  intros Hl Ha. destruct (lists_active_not Hl a Ha) as [Hn1 Hn2].
  destruct (lists_nodup Hl) as (Hnd & _). rewrite (list_del_notin a lru), (list_del_notin a purge) by done.
  assert (list_del a act ++ list_add_tail a lru ++ purge ≡ₚ act ++ lru ++ purge) as Hperm.
  { rewrite <-(list_del_perm a act Hnd Ha) at 2. unfold list_add_tail. solve_Permutation. }
  destruct Hl as [Hx Hd Hact Hroom]. split.
  - by rewrite Hperm.
  - intros b. by rewrite Hperm, lookup_alter_is_Some.
  - intros b i [(<- & i0 & Hi & ->)|(Hne & Hi)]%lookup_alter_Some; rewrite elem_of_list_del; simpl.
    + tauto.
    + rewrite (Hact _ _ Hi). split; [tauto|]. intros; split; [congruence|done].
  - by rewrite Hperm.
Qed.

(** The counts that [u32] keeps are exact. *)
Lemma lists_lengths act lru purge m :
  lists_ok act lru purge m ->
  Z.of_nat (length act) + Z.of_nat (length lru) + Z.of_nat (length purge) < 2 ^ 32.
Proof. intros [_ _ _ Hr]. rewrite !length_app in Hr. lia. Qed.

Lemma refs_ok_drop H root m ds a i r :
  refs_ok (H ⊎ {[+ a +]}) root m ds -> m !! a = Some i -> a <> root -> r = i_ref i - 1 -> 0 <= r ->
  refs_ok H root (alter (i_set_ref r) a m) ds.
Proof.
  intros [Hrg Hc (r' & Hrt & Hr0) H1 Hh'] Hi Hroot -> Hr. split.
  - intros b j [(<- & i0 & Hj & ->)|(Hne & Hj)]%lookup_alter_Some; simpl; [|eauto].
    destruct (Hrg _ _ Hj). simplify_eq. lia.
  - intros b j [(<- & i0 & Hj & ->)|(Hne & Hj)]%lookup_alter_Some Hb; simpl.
    + specialize (Hc _ _ Hj Hb). rewrite multiplicity_disj_union, multiplicity_singleton_eq in Hc.
      simplify_eq. lia.
    + rewrite (Hc _ _ Hj Hb), multiplicity_disj_union, multiplicity_singleton_ne by done. lia.
  - exists r'. by rewrite lookup_alter_ne.
  - intros b j [(<- & i0 & Hj & ->)|(Hne & Hj)]%lookup_alter_Some; simpl; eauto.
  - intros b Hb. rewrite lookup_alter_is_Some. apply Hh'. multiset_solver.
Qed.

Lemma wf_to_lru X H t a i :
  wf X (H ⊎ {[+ a +]}) t -> it_inodes t !! a = Some i -> a <> it_root t -> i_ref i = 1 ->
  wf X H (to_lru a t).
Proof.
  intros [Hl Hs Hr Hd Hn Hh] Hi Hroot Href.
  destruct (lists_referenced Hl a i Hi) as (Hact & Hnl & Hnp); [lia|].
  pose proof (lists_lengths _ _ _ _ Hl) as Hlen. destruct (lists_nodup Hl) as (Hnd & _).
  pose proof (list_del_length a _ Hnd Hact) as Hdel.
  split; simpl.
  - by apply lists_ok_to_lru.
  - destruct Hs as [S1 S2 S3 S4 S5].
    split; simpl; unfold list_add_tail; rewrite ?(list_del_notin a (it_lru t)), ?(list_del_notin a (it_purge t)) by done;
      rewrite ?length_app; simpl; rewrite ?u32_small; unfold is_u32; lia.
  - eapply refs_ok_drop; eauto; lia.
  - rewrite (list_del_notin a (it_purge t)) by done.
    eapply dents_ok_agree; [|done]. by apply agree_alter.
  - done.
  - rewrite (list_del_notin a (it_purge t)) by done.
    eapply hash_ok_agree; [|done]. by apply agree_alter.
Qed.

(** The first half of [__inode_retire]: the inode leaves the table. *)
Definition retire_begin (t : itable) (a : Z) : option itable :=
  let t1 := inode_list_del a t in
  __inode_unhash (set_purge (list_add_tail a (it_purge t1)) (u32 (it_purge_size t1 + 1)) t1) a.

Lemma inode_retire_eq unref t a i :
  it_inodes t !! a = Some i ->
  __inode_retire unref t a =
  (t3 ← retire_begin t a; unset_dentries unref (fun _ _ => true) t3 (i_dentries i)).
Proof. intros Hi. unfold __inode_retire. by rewrite Hi. Qed.

Lemma itable_ext (t t' : itable) :
  it_hashsize t = it_hashsize t' ->
  it_root t = it_root t' ->
  it_lru_limit t = it_lru_limit t' ->
  it_inode_hash t = it_inode_hash t' ->
  it_name_hash t = it_name_hash t' ->
  it_attic t = it_attic t' ->
  it_attic_size t = it_attic_size t' ->
  it_active t = it_active t' ->
  it_active_size t = it_active_size t' ->
  it_lru t = it_lru t' ->
  it_lru_size t = it_lru_size t' ->
  it_purge t = it_purge t' ->
  it_purge_size t = it_purge_size t' ->
  it_inodes t = it_inodes t' ->
  it_dentries t = it_dentries t' -> t = t'.
Proof. destruct t, t'. simpl. intros; by subst. Qed.

(** Retiring a referenced inode at once is the same as through the LRU list. *)
Lemma retire_begin_to_lru t a :
  is_u32 (it_lru_size t) ->
  retire_begin (set_active (it_active t) (u32 (it_active_size t - 1)) (upd_inode a (i_set_ref 0) t)) a =
  retire_begin (set_lru (it_lru (to_lru a t)) (u32 (it_lru_size (to_lru a t) - 1)) (to_lru a t)) a.
Proof.
  intros Hs. unfold retire_begin.
  replace (inode_list_del a (set_lru (it_lru (to_lru a t)) (u32 (it_lru_size (to_lru a t) - 1)) (to_lru a t)))
    with (inode_list_del a (set_active (it_active t) (u32 (it_active_size t - 1)) (upd_inode a (i_set_ref 0) t)));
    [done|].
  apply itable_ext; simpl; unfold list_add_tail;
    rewrite ?list_del_app, ?list_del_idemp, ?(list_del_head a []), ?app_nil_r by apply not_elem_of_nil;
    try done.
  unfold u32, is_u32 in *. rewrite Zminus_mod_idemp_l, Z.mod_small; lia.
Qed.

(** ** What retiring leaves alone

    From one table to a later one of the same operation: inodes may have been
    purged, with their dentries; the others only lose references. *)
Record shrinks (X : gset Z) (t t' : itable) : Prop := {
  sh_const : it_root t' = it_root t /\ it_hashsize t' = it_hashsize t /\ it_lru_limit t' = it_lru_limit t;
  sh_purge : forall a, a ∈ it_purge t -> a ∈ it_purge t';
  sh_dom : forall a, is_Some (it_inodes t' !! a) <-> is_Some (it_inodes t !! a);
  sh_inodes : forall a i', it_inodes t' !! a = Some i' -> a ∉ it_purge t' ->
    exists i, it_inodes t !! a = Some i /\ i' = i_set_ref (i_ref i') i;
  sh_retiring : forall a, a ∈ X -> it_inodes t' !! a = it_inodes t !! a;
  sh_dentries : it_dentries t' ⊆ it_dentries t;
  sh_kept : forall d de, it_dentries t !! d = Some de -> d_inode de ∉ it_purge t' \/ d_inode de ∈ X ->
    it_dentries t' !! d = Some de;
  sh_hash : forall a h, a ∈ bucket (it_inode_hash t') h <-> a ∈ bucket (it_inode_hash t) h /\ (a ∉ it_purge t');
  sh_live : (length (it_active t') + length (it_lru t') <= length (it_active t) + length (it_lru t))%nat
}.

(** ** Unhashing *)

Definition unhashed (t : itable) (a : Z) (i : inode) : itable :=
  set_attic (list_del a (it_attic t))
    (if i_in_attic i then u32 (it_attic_size t - 1) else it_attic_size t)
    (set_inode_hash (bucket_del (inode_bucket t i) a (it_inode_hash t))
       (upd_inode a (i_set_in_attic false) t)).

Lemma alter_in_attic_id a (m : gmap Z inode) i :
  m !! a = Some i -> i_in_attic i = false -> alter (i_set_in_attic false) a m = m.
Proof.
  intros Hi Ha. apply alter_id. intros j Hj. simplify_eq. destruct i; simpl in *. by subst.
Qed.

Lemma inode_unhash_eq t a i :
  it_inodes t !! a = Some i -> (i_in_attic i = true -> a ∈ it_attic t) ->
  __inode_unhash t a = Some (unhashed t a i).
Proof.
  intros Hi Hat. unfold __inode_unhash, __is_inode_hashed. rewrite Hi. simpl. f_equal.
  destruct (i_in_attic i) eqn:Ei.
  - rewrite (bool_decide_eq_true_2 (a ∈ it_attic t)) by auto. rewrite orb_true_r.
    apply itable_ext; simpl; try done. by rewrite Ei.
  - destruct (_ || _) eqn:E; apply itable_ext; simpl; try done; rewrite ?Ei; try done.
    symmetry. by eapply alter_in_attic_id.
Qed.

Lemma hash_ok_unhash hs ih attic purge purge' m a i :
  hash_ok hs ih attic purge m -> m !! a = Some i ->
  (forall b, b ∈ purge' -> b ∈ purge \/ b = a) ->
  hash_ok hs (bucket_del (hash_inode (i_ino i) hs) a ih) (list_del a attic) purge'
    (alter (i_set_in_attic false) a m).
Proof.
  intros [Hin Hu Hat Hap Hnd] Hi Hp. split.
  - intros b h [Hne Hb]%elem_bucket_del. destruct (Hin _ _ Hb) as (j & Hj & Hh & ? & Hnp).
    assert (b <> a) by (intros ->; simplify_eq; tauto).
    exists j. rewrite lookup_alter_ne by done. split_and!; [done..|]. intros [?|?]%Hp; done.
  - intros b c h j k [_ Hb]%elem_bucket_del [_ Hc]%elem_bucket_del Hj Hk E.
    assert (agree i_ino m (alter (i_set_in_attic false) a m)) as Ha by by apply agree_alter.
    old_inode Ha Hj. old_inode Ha Hk. eapply (Hu b c h); eauto. congruence.
  - intros b. rewrite elem_of_list_del, Hat. setoid_rewrite lookup_alter_Some. split.
    + intros (Hne & j & ? & ?). exists j. naive_solver.
    + intros (j & [(<- & j0 & ? & ->)|(? & ?)] & ?); [done|]. naive_solver.
  - intros b [Hne Hb]%elem_of_list_del [?|?]%Hp; [|done]. by eapply Hap.
  - by apply NoDup_list_del.
Qed.

Lemma attic_room hs ih attic purge m act lru :
  hash_ok hs ih attic purge m -> lists_ok act lru purge m -> Z.of_nat (length attic) < 2 ^ 32.
Proof.
  intros Hh Hl. assert (length attic <= length (act ++ lru ++ purge))%nat as Hle.
  { apply submseteq_length, NoDup_submseteq; [by destruct Hh|]. intros b Hb.
    apply (lk_dom _ _ _ _ Hl). apply (hs_attic _ _ _ _ _ Hh) in Hb as (j & ? & _). eauto. }
  pose proof (lk_room _ _ _ _ Hl). lia.
Qed.


Lemma attic_size_unhash hs ih attic purge m a i asz act lru :
  hash_ok hs ih attic purge m -> lists_ok act lru purge m -> m !! a = Some i ->
  asz = Z.of_nat (length attic) ->
  (if i_in_attic i then u32 (asz - 1) else asz) = Z.of_nat (length (list_del a attic)).
Proof.
  intros Hh Hl Hi ->. assert (a ∈ attic <-> i_in_attic i = true) as Ha.
  { rewrite (hs_attic _ _ _ _ _ Hh). split; [intros (j & ? & ?); congruence|eauto]. }
  destruct (i_in_attic i).
  - pose proof (list_del_length a attic (hs_attic_nodup _ _ _ _ _ Hh)) as Hlen.
    pose proof (attic_room _ _ _ _ _ _ _ Hh Hl). rewrite u32_small; unfold is_u32; rewrite <-Hlen in * by tauto; lia.
  - rewrite list_del_notin; [done|]. rewrite Ha. done.
Qed.

(** Moving the head of the LRU list to the purge list. *)
Lemma lists_ok_to_purge act lru purge m a :
  lists_ok act lru purge m -> a ∈ lru ->
  lists_ok (list_del a act) (list_del a lru) (list_add_tail a (list_del a purge)) m.
Proof.
  intros Hl Ha. destruct (lists_lru_not Hl a Ha) as [Hn1 Hn2].
  destruct (lists_nodup Hl) as (_ & Hnd & _). rewrite (list_del_notin a act), (list_del_notin a purge) by done.
  assert (act ++ list_del a lru ++ list_add_tail a purge ≡ₚ act ++ lru ++ purge) as Hperm.
  { rewrite <-(list_del_perm a lru Hnd Ha) at 2. unfold list_add_tail. solve_Permutation. }
  destruct Hl as [Hx Hd Hact Hroom]. split; [by rewrite Hperm| |done|by rewrite Hperm].
  intros b. by rewrite Hperm.
Qed.

Definition lru_to_purge (t : itable) (a : Z) (i : inode) : itable :=
  unhashed (set_purge (list_add_tail a (list_del a (it_purge t))) (u32 (it_purge_size t + 1))
    (inode_list_del a (set_lru (it_lru t) (u32 (it_lru_size t - 1)) t))) a i.

Lemma wf_lru_to_purge X H t a i :
  wf X H t -> a ∈ it_lru t -> it_inodes t !! a = Some i ->
  retire_begin (set_lru (it_lru t) (u32 (it_lru_size t - 1)) t) a = Some (lru_to_purge t a i) /\
  wf (X ∪ {[a]}) H (lru_to_purge t a i) /\ shrinks X t (lru_to_purge t a i).
Proof.
  intros [Hl Hs Hr Hd Hn Hh] Ha Hi.
  destruct (lists_lru_not Hl a Ha) as [Hnact Hnp]. destruct (lists_nodup Hl) as (_ & Hnd & _).
  pose proof (lists_lengths _ _ _ _ Hl) as Hlen. pose proof (list_del_length a _ Hnd Ha) as Hdel.
  split_and!.
  - unfold retire_begin. apply inode_unhash_eq; simpl; [done|]. intros. apply (hs_attic _ _ _ _ _ Hh). eauto.
  - split; simpl.
    + eapply lists_ok_agree; [by apply agree_alter|]. by apply lists_ok_to_purge.
    + pose proof (attic_size_unhash _ _ _ _ _ a i _ _ _ Hh Hl Hi (sz_attic _ Hs)) as Hat.
      destruct Hs as [S1 S2 S3 S4 S5].
      split; simpl; unfold list_add_tail; rewrite ?(list_del_notin a (it_active t)),
        ?(list_del_notin a (it_purge t)) by done; rewrite ?length_app; simpl; [lia| | |done|done];
        rewrite u32_small; unfold is_u32; lia.
    + eapply refs_ok_agree; [by apply agree_alter|done].
    + eapply dents_ok_agree; [by apply agree_alter|]. rewrite (list_del_notin a (it_purge t)) by done.
      destruct Hd as [HX Hup Hdn Hpg Hroot]. unfold list_add_tail. split; [set_solver|done|done| |done].
      intros b j [Hb|Hb]%elem_of_app Hj; [|set_solver]. destruct (Hpg _ _ Hb Hj); set_solver.
    + done.
    + eapply hash_ok_unhash; [done..|]. rewrite (list_del_notin a (it_purge t)) by done.
      unfold list_add_tail. set_solver.
  - split; simpl; unfold list_add_tail; rewrite ?(list_del_notin a (it_purge t)) by done.
    + done.
    + set_solver.
    + intros b. by rewrite lookup_alter_is_Some.
    + intros b j [(<- & i0 & Hj & ->)|(Hne & Hj)]%lookup_alter_Some Hb; [set_solver|].
      exists j. split; [done|]. by destruct j.
    + intros b Hb%(dn_retiring _ _ _ _ _ Hd). rewrite lookup_alter_ne; [done|]. by intros <-.
    + done.
    + done.
    + intros b h. rewrite elem_bucket_del. split.
      * intros [Hne Hb]. destruct (hs_in _ _ _ _ _ Hh _ _ Hb) as (j & Hj & Hbh & _ & Hbp).
        split; [done|]. intros [?|?%list_elem_of_singleton]%elem_of_app; [done|]. subst b. simplify_eq.
        destruct Hne as [?|Hne]; [done|]. by apply Hne.
      * intros [Hb Hbp]. split; [left|done]. intros ->. set_solver.
    + rewrite (list_del_notin a (it_active t)) by done. lia.
Qed.

Lemma shrinks_refl X H t : wf X H t -> shrinks X t t.
Proof.
  intros [Hl Hs Hr Hd Hn Hh]. split; try done.
  - intros a i Hi _. exists i. split; [done|]. by destruct i.
  - intros a h. split; [|tauto]. intros Ha.
    destruct (hs_in _ _ _ _ _ Hh _ _ Ha) as (i & Hi & _ & _ & ?). done.
Qed.

Lemma shrinks_trans X t1 t2 t3 : shrinks X t1 t2 -> shrinks X t2 t3 -> shrinks X t1 t3.
Proof.
  intros [C1 P1 D1 I1 R1 S1 K1 A1 L1] [C2 P2 D2 I2 R2 S2 K2 A2 L2]. split.
  - naive_solver congruence.
  - auto.
  - intros a. by rewrite D2, D1.
  - intros a i3 Hi3 Hp3. destruct (I2 _ _ Hi3 Hp3) as (i2 & Hi2 & E2).
    destruct (I1 _ _ Hi2) as (i1 & Hi1 & E1); [naive_solver|].
    exists i1. split; [done|]. rewrite E2, E1. by destruct i1.
  - intros a Ha. by rewrite R2, R1.
  - by transitivity (it_dentries t2).
  - intros d de Hd Hor. apply K2; [apply K1; [done|]|done]. destruct Hor; [left; naive_solver|by right].
  - intros a h. rewrite A2, A1. naive_solver.
  - lia.
Qed.

Lemma shrinks_weaken X Y t t' : X ⊆ Y -> shrinks Y t t' -> shrinks X t t'.
Proof. intros HXY [? ? ? ? R ? K ? ?]. split; try done; [set_solver|]. intros d de Hd Hor. apply K; set_solver. Qed.

(** An inode whose dentries are all gone has been retired. *)
Lemma wf_retired X H t a i :
  wf (X ∪ {[a]}) H t -> it_inodes t !! a = Some i -> i_dentries i = [] -> wf X H t.
Proof.
  intros [Hl Hs Hr [HX Hup Hdn Hpg Hroot] Hn Hh] Hi E. split; try done. split; try done; [set_solver|].
  intros b j Hb Hj. destruct (Hpg _ _ Hb Hj) as [[?|Hba%elem_of_singleton]%elem_of_union|?]; [by left| |by right].
  right. subst. by simplify_eq.
Qed.

Lemma shrinks_unset X Y H t d de :
  wf Y H t -> it_dentries t !! d = Some de -> d_inode de ∈ it_purge t -> d_inode de ∉ X ->
  shrinks X t (unset_table t d de).
Proof.
  intros Hwf Hde Hp HX. pose proof (shrinks_refl _ _ _ Hwf) as [_ _ _ I _ _ _ A _].
  split; simpl; try done.
  - intros a. by rewrite lookup_alter_is_Some.
  - intros a j [(<- & i0 & Hj & ->)|(Hne & Hj)]%lookup_alter_Some Ha; [done|]. auto.
  - intros a Ha. rewrite lookup_alter_ne; [done|]. by intros <-.
  - apply delete_subseteq.
  - intros d' de' Hd' Hor. rewrite lookup_delete_ne; [done|]. intros <-. simplify_eq. tauto.
Qed.

Lemma shrinks_to_lru X H t a i :
  wf X H t -> it_inodes t !! a = Some i -> i_ref i <> 0 -> shrinks X t (to_lru a t).
Proof.
  intros Hwf Hi Href. pose proof (shrinks_refl _ _ _ Hwf) as [_ _ _ I _ _ _ A _].
  destruct Hwf as [Hl Hs Hr Hd Hn Hh]. destruct (lists_referenced Hl a i Hi Href) as (Hact & Hnl & Hnp).
  split; simpl; rewrite ?(list_del_notin a (it_purge t)) by done; try done.
  - intros b. by rewrite lookup_alter_is_Some.
  - intros b j [(<- & i0 & Hj & ->)|(Hne & Hj)]%lookup_alter_Some Hb; [|auto]. exists i0. by destruct i0.
  - intros b Hb%(dn_retiring _ _ _ _ _ Hd). rewrite lookup_alter_ne; [done|]. by intros <-.
  - destruct (lists_nodup Hl) as (Hnd & _). pose proof (list_del_length a _ Hnd Hact).
    unfold list_add_tail. rewrite (list_del_notin a (it_lru t)), length_app by done. simpl. lia.
Qed.

(** A reference less, while others are left. *)
Definition dec_ref (a : Z) (i : inode) (t : itable) : itable := upd_inode a (i_set_ref (i_ref i - 1)) t.

Lemma wf_dec_ref X H t a i :
  wf X (H ⊎ {[+ a +]}) t -> it_inodes t !! a = Some i -> a <> it_root t -> 1 < i_ref i ->
  wf X H (dec_ref a i t) /\ shrinks X t (dec_ref a i t).
Proof.
  intros Hwf Hi Hroot Href. pose proof (shrinks_refl _ _ _ Hwf) as [_ _ _ I _ _ _ A _].
  destruct Hwf as [Hl Hs Hr Hd Hn Hh]. destruct (lists_referenced Hl a i Hi) as (Hact & Hnl & Hnp); [lia|].
  split; [split|split]; simpl; try done.
  - destruct Hl as [L1 L2 L3 L4]. split; [done| |  |done].
    + intros b. by rewrite L2, lookup_alter_is_Some.
    + intros b j [(<- & i0 & Hj & ->)|(Hne & Hj)]%lookup_alter_Some; [|auto]. simpl. split; [lia|done].
  - by destruct Hs.
  - eapply refs_ok_drop; eauto; lia.
  - eapply dents_ok_agree; [|done]. by apply agree_alter.
  - eapply hash_ok_agree; [|done]. by apply agree_alter.
  - intros b. by rewrite lookup_alter_is_Some.
  - intros b j [(<- & i0 & Hj & ->)|(Hne & Hj)]%lookup_alter_Some Hb; [|auto]. exists i0. by destruct i0.
  - intros b Hb%(dn_retiring _ _ _ _ _ Hd). rewrite lookup_alter_ne; [done|]. by intros <-.
Qed.

(** References to the root are not counted down. *)
Lemma wf_drop_root X H t a : wf X (H ⊎ {[+ a +]}) t -> a = it_root t -> wf X H t.
Proof.
  intros [Hl Hs [Hrg Hc Hrt H1 Hh'] Hd Hn Hh] ->. split; try done. split; try done.
  - intros b j Hj Hb. rewrite (Hc _ _ Hj Hb), multiplicity_disj_union, multiplicity_singleton_ne by done. lia.
  - intros b Hb. apply Hh'. multiset_solver.
Qed.

(** ** Dropping references

    With enough fuel the recursion succeeds: no freed memory is touched, and the
    assertion holds. *)

Section Unref.
Variables (unref : itable -> Z -> option itable) (n : nat).

Hypothesis unref_ok : forall X H t a, wf X (H ⊎ {[+ a +]}) t -> (size (it_dentries t) < n)%nat ->
  exists t', unref t a = Some t' /\ wf X H t' /\ shrinks X t t'.

Lemma unset_dentries_all X H a : forall ds t i,
  wf (X ∪ {[a]}) H t -> a ∉ X -> it_inodes t !! a = Some i -> i_dentries i = ds ->
  (size (it_dentries t) <= n)%nat ->
  exists t', unset_dentries unref (fun _ _ => true) t ds = Some t' /\ wf X H t' /\ shrinks X t t'.
Proof.
  induction ds as [|d ds IH]; intros t i Hwf HaX Hi Hds Hn; simpl.
  { assert (wf X H t) by by eapply wf_retired. exists t. split_and!; [done..|]. by eapply shrinks_refl. }
  pose proof (wf_dents _ _ _ Hwf) as Hdn. destruct (dn_down _ _ _ _ _ Hdn _ _ Hi) as (Hnd & Hall).
  rewrite Hds in Hnd, Hall. destruct (Hall d) as (de & Hde & Ea); [set_solver|].
  rewrite Hde. simpl. rewrite (dentry_unset_eq _ _ _ _ Hde).
  assert (a ∈ it_purge t) as Hap by (apply (dn_retiring _ _ _ _ _ Hdn); set_solver).
  assert (shrinks X t (unset_table t d de)) as Hsh1.
  { subst a. by eapply shrinks_unset. }
  destruct (unref_ok (X ∪ {[a]}) H (unset_table t d de) (d_parent de)) as (t' & -> & Hwf' & Hsh2).
  { by apply wf_unset. }
  { simpl. rewrite map_size_delete_Some by eauto.
    assert (size (it_dentries t) <> 0%nat) by (apply map_size_ne_0_lookup; eauto). lia. }
  simpl. destruct (IH t' (i_set_dentries ds i)) as (t'' & -> & Hwf'' & Hsh3); [done..| | | |].
  { rewrite (sh_retiring _ _ _ Hsh2) by set_solver. simpl. rewrite Ea, lookup_alter_eq, Hi. simpl.
    rewrite Hds. f_equal. f_equal. rewrite list_del_head; [done|]. by inversion Hnd. }
  { done. }
  { pose proof (map_subseteq_size _ _ (sh_dentries _ _ _ Hsh2)). simpl in *.
    rewrite map_size_delete_Some in *; [lia|eauto..]. }
  exists t''. split_and!; [done..|]. eapply shrinks_trans; [done|]. eapply shrinks_trans; [|done].
  eapply shrinks_weaken; [|done]. set_solver.
Qed.

End Unref.

(** Hashed dentries are kept when an inode becomes passive. *)
Lemma unset_dentries_none unref which t ds :
  (forall d, d ∈ ds -> is_Some (it_dentries t !! d) /\ which t d = false) ->
  unset_dentries unref which t ds = Some t.
Proof.
  induction ds as [|d ds IH]; intros Hds; simpl; [done|].
  destruct (Hds d) as ([de Hde] & Hw); [set_solver|]. rewrite Hde, Hw. simpl. apply IH. set_solver.
Qed.

Lemma dentry_hashed X H t d de : wf X H t -> it_dentries t !! d = Some de -> __is_dentry_hashed t d = true.
Proof.
  intros Hwf Hd. unfold __is_dentry_hashed. rewrite Hd. apply bool_decide_eq_true.
  apply (wf_names _ _ _ Hwf). eauto.
Qed.

Lemma inode_passivate_ok X H t a i unref :
  wf X H (to_lru a t) -> it_inodes t !! a = Some i ->
  __inode_passivate unref (set_active (it_active t) (u32 (it_active_size t - 1)) (upd_inode a (i_set_ref 0) t)) a
    = Some (to_lru a t).
Proof.
  intros Hwf Hi. unfold __inode_passivate. simpl. rewrite lookup_alter_eq, Hi. simpl.
  etransitivity; [apply unset_dentries_none|reflexivity].
  intros d Hd. pose proof (wf_dents _ _ _ Hwf) as Hdn.
  destruct (dn_down _ _ _ _ _ Hdn a (i_set_ref 0 i)) as (_ & Hall); [simpl; by rewrite lookup_alter_eq, Hi|].
  destruct (Hall d Hd) as (de & Hde & _). split; [eauto|]. apply negb_false_iff. by eapply dentry_hashed.
Qed.

Lemma held_referenced X H t a i :
  wf X H t -> a ∈ H -> it_inodes t !! a = Some i -> 0 < i_ref i < 2 ^ 32.
Proof.
  intros [_ _ [Hrg Hc (r & Hrt & Hr0) H1 Hh'] _ _ _] Ha Hi. destruct (Hrg _ _ Hi).
  destruct (decide (a = it_root t)) as [->|Hne]; [simplify_eq; lia|].
  specialize (Hc _ _ Hi Hne). rewrite elem_of_multiplicity in Ha. lia.
Qed.

Lemma inode_unref_fuel_ok n : forall X H t a,
  wf X (H ⊎ {[+ a +]}) t -> (size (it_dentries t) < n)%nat ->
  exists t', __inode_unref_fuel n t a = Some t' /\ wf X H t' /\ shrinks X t t'.
Proof.
  induction n as [|n IH]; intros X H t a Hwf Hn; [lia|]. cbn [__inode_unref_fuel].
  destruct (rf_held _ _ _ _ (wf_refs _ _ _ Hwf) a) as [i Hi]; [multiset_solver|].
  assert (a ∈ H ⊎ {[+ a +]}) as Hheld by multiset_solver.
  destruct (held_referenced _ _ _ _ _ Hwf Hheld Hi) as [Hpos Hmax].
  pose proof (rf_one _ _ _ _ (wf_refs _ _ _ Hwf) a i Hi) as Hone. rewrite Hi. cbn [mbind option_bind].
  destruct (Z.eqb_spec (i_ino i) 1) as [E1|E1].
  { exists t. split; [done|]. split; [by eapply wf_drop_root; [|apply Hone]|by eapply shrinks_refl]. }
  assert (a <> it_root t) as Hroot by tauto.
  destruct (Z.eqb_spec (i_ref i) 0) as [E2|E2]; [lia|].
  rewrite (u32_small (i_ref i - 1)) by (unfold is_u32; lia).
  destruct (Z.eqb_spec (i_ref i - 1) 0) as [E3|E3]; cbn [negb].
  2:{ destruct (wf_dec_ref X H t a i) as (? & ?); [done..|lia|]. eauto. }
  rewrite E3. assert (wf X H (to_lru a t)) as Hlru by (eapply wf_to_lru; eauto; lia).
  assert (shrinks X t (to_lru a t)) as Hsh by (eapply shrinks_to_lru; eauto; lia).
  destruct (lists_referenced (wf_lists _ _ _ Hwf) a i Hi) as (Hact & Hnl & Hnp); [done|].
  destruct (Z.eqb_spec (i_nlookup i) 0) as [E4|E4]; cbn [negb].
  - rewrite (inode_retire_eq _ _ a (i_set_ref 0 i)) by (simpl; by rewrite lookup_alter_eq, Hi).
    pose proof (lists_lengths _ _ _ _ (wf_lists _ _ _ Hwf)). pose proof (sz_lru _ (wf_sizes _ _ _ Hwf)) as Hsz.
    change (it_active_size (upd_inode a (i_set_ref 0) t)) with (it_active_size t).
    change (it_active (upd_inode a (i_set_ref 0) t)) with (it_active t).
    rewrite retire_begin_to_lru by (unfold is_u32; lia).
    assert (it_inodes (to_lru a t) !! a = Some (i_set_ref 0 i)) as Hi' by (simpl; by rewrite lookup_alter_eq, Hi).
    destruct (wf_lru_to_purge X H (to_lru a t) a (i_set_ref 0 i)) as (-> & Hpurge & Hsh2); [done| |done|].
    { simpl. unfold list_add_tail. set_solver. }
    cbn [mbind option_bind].
    destruct (unset_dentries_all _ n IH X H a (i_dentries i) (lru_to_purge (to_lru a t) a (i_set_ref 0 i))
      (i_set_in_attic false (i_set_ref 0 i))) as (t' & Ht' & Hwf' & Hsh3); [done| | |done|simpl; lia|].
    { intros HaX. by apply (dn_retiring _ _ _ _ _ (wf_dents _ _ _ Hwf)) in HaX. }
    { simpl. by rewrite !lookup_alter_eq, Hi. }
    exists t'. split_and!; [done..|]. eapply shrinks_trans; [done|]. by eapply shrinks_trans.
  - change (it_active_size (upd_inode a (i_set_ref 0) t)) with (it_active_size t).
    change (it_active (upd_inode a (i_set_ref 0) t)) with (it_active t).
    rewrite (inode_passivate_ok X H t a i) by done. eauto.
Qed.

Lemma inode_unref_ok X H t a :
  wf X (H ⊎ {[+ a +]}) t ->
  exists t', __inode_unref t a = Some t' /\ wf X H t' /\ shrinks X t t'.
Proof. intros Hwf. apply inode_unref_fuel_ok; [done|]. unfold unref_fuel. lia. Qed.

Lemma dentry_unset_ok X H t d de :
  wf X H t -> it_dentries t !! d = Some de ->
  exists t', __dentry_unset __inode_unref t d = Some t' /\ wf X H t' /\ shrinks X (unset_table t d de) t'.
Proof.
  intros Hwf Hd. rewrite (dentry_unset_eq _ _ _ _ Hd). apply inode_unref_ok. by apply wf_unset.
Qed.
