(* ===== verification/InodeTableOps.v ===== *)
(** * The operations of the inode table

    Every operation, called with references that the caller holds, succeeds and
    keeps the invariant of [InodeTableFacts]. *)

From stdpp Require Import gmap gmultiset base list numbers strings.
From S2P Require Import Prelude InodeTable InodeTableFacts.
Open Scope Z_scope.

(** ** Consequences of the invariant *)

Section Consequences.
Context {X : gset Z} {H : gmultiset Z} {t : itable} (Hwf : wf X H t).

Lemma referenced_listed a i :
  it_inodes t !! a = Some i -> i_ref i <> 0 -> a ∈ it_active t /\ (a ∉ it_lru t) /\ (a ∉ it_purge t).
Proof. apply lists_referenced, Hwf. Qed.

Lemma held_inode a : a ∈ H -> exists i, it_inodes t !! a = Some i /\ 0 < i_ref i < 2 ^ 32 /\ (a ∉ it_purge t).
Proof.
  intros Ha. destruct (rf_held _ _ _ _ (wf_refs _ _ _ Hwf) a Ha) as [i Hi]. exists i.
  pose proof (held_referenced _ _ _ _ _ Hwf Ha Hi). split_and!; [done|lia..|].
  eapply referenced_listed; [done|lia].
Qed.

Lemma parent_inode d de :
  it_dentries t !! d = Some de ->
  exists p, it_inodes t !! d_parent de = Some p /\ i_ref p <> 0 /\ (d_parent de ∉ it_purge t).
Proof.
  intros Hd. destruct (dn_up _ _ _ _ _ (wf_dents _ _ _ Hwf) _ _ Hd) as ([p Hp] & _). exists p.
  assert (i_ref p <> 0) as Hr.
  { destruct (wf_refs _ _ _ Hwf) as [_ Hc (r & Hrt & Hr0) _ _]. pose proof (children_pos _ _ _ Hd).
    destruct (decide (d_parent de = it_root t)) as [E|E]; [rewrite E in Hp; by simplify_eq|].
    rewrite (Hc _ _ Hp E). lia. }
  split_and!; [done..|]. by eapply referenced_listed.
Qed.

Lemma root_inode : exists r, it_inodes t !! it_root t = Some r /\ i_ref r <> 0 /\ (it_root t ∉ it_purge t).
Proof.
  destruct (rf_root _ _ _ _ (wf_refs _ _ _ Hwf)) as (r & Hr & ?). exists r.
  split_and!; [done..|]. by eapply referenced_listed.
Qed.

End Consequences.

(** A dentry leads to an inode that is not purged. *)
Lemma dentry_inode H t d de :
  wf ∅ H t -> it_dentries t !! d = Some de ->
  exists i, it_inodes t !! d_inode de = Some i /\ d ∈ i_dentries i /\ (d_inode de ∉ it_purge t).
Proof.
  intros Hwf Hd. pose proof (wf_dents _ _ _ Hwf) as Hdn.
  destruct (dn_up _ _ _ _ _ Hdn _ _ Hd) as (_ & i & Hi & Hin). exists i. split_and!; [done..|].
  intros Hp. destruct (dn_purge _ _ _ _ _ Hdn _ _ Hp Hi) as [?|E]; [set_solver|]. rewrite E in Hin.
  by apply elem_of_nil in Hin.
Qed.

Lemma lists_size act lru purge m :
  lists_ok act lru purge m -> (length (act ++ lru ++ purge) <= size m)%nat.
Proof.
  intros [Hnd Hd _ _]. rewrite <-size_dom. rewrite <-(size_list_to_set (C := gset Z) _ Hnd).
  apply subseteq_size. intros a Ha%elem_of_list_to_set. apply elem_of_dom. by apply Hd.
Qed.

(** ** Pruning *)

Lemma prune_loop_ok H : forall n t r,
  wf ∅ H t -> (length (it_active t) + length (it_lru t) <= n)%nat ->
  exists t' r', prune_loop n t r = Some (t', r') /\ wf ∅ H t' /\ shrinks ∅ t t' /\
    (it_lru_limit t' = 0 \/ it_lru_size t' <= it_lru_limit t').
Proof.
  induction n as [|n IH]; intros t r Hwf Hn; cbn [prune_loop]; destruct (_ && _) eqn:Econd.
  2,4: exists t, r; split_and!; [done..|by eapply shrinks_refl|];
    apply andb_false_iff in Econd as [E%negb_false_iff|E]; lia.
  all: apply andb_true_iff in Econd as [_ Hlt%Z.ltb_lt]; pose proof (sz_lru _ (wf_sizes _ _ _ Hwf)) as Hsz;
    pose proof (sz_limit _ (wf_sizes _ _ _ Hwf)) as Hlim.
  { lia. }
  destruct (it_lru t) as [|a lru] eqn:Elru; [simpl in Hsz; lia|]. cbn [head mbind option_bind].
  assert (a ∈ it_lru t) as Ha by (rewrite Elru; left).
  assert (is_Some (it_inodes t !! a)) as [i Hi] by (apply (lk_dom _ _ _ _ (wf_lists _ _ _ Hwf)); set_solver).
  rewrite <-Elru. rewrite (inode_retire_eq _ _ a i) by done.
  destruct (wf_lru_to_purge ∅ H t a i) as (-> & Hp & Hsh); [done..|]. cbn [mbind option_bind].
  destruct (unset_dentries_all __inode_unref (size (it_dentries t)) (fun X H t a Hw _ => inode_unref_ok X H t a Hw)
    ∅ H a (i_dentries i) (lru_to_purge t a i) (i_set_in_attic false i)) as (t1 & -> & Hwf1 & Hsh1);
    [done|set_solver|simpl; by rewrite lookup_alter_eq, Hi|done|done|].
  cbn [mbind option_bind].
  destruct (IH t1 (r + 1)) as (t' & r' & -> & Hwf' & Hsh' & Hlim'); [done| |].
  { pose proof (sh_live _ _ _ Hsh1) as Hlive. simpl in Hlive.
    destruct (lists_nodup (wf_lists _ _ _ Hwf)) as (_ & Hnd & _). pose proof (list_del_length a _ Hnd Ha).
    destruct (lists_lru_not (wf_lists _ _ _ Hwf) a Ha). rewrite (list_del_notin a (it_active t)) in Hlive by done.
    rewrite <-Elru in Hn. lia. }
  exists t', r'. split_and!; [done..| |done]. eapply shrinks_trans; [done|]. by eapply shrinks_trans.
Qed.

(** The heap without some inodes. *)
Definition without (l : list Z) (m : gmap Z inode) : gmap Z inode := filter (fun kv => fst kv ∉ l) m.

Lemma lookup_without l m a i : without l m !! a = Some i <-> m !! a = Some i /\ (a ∉ l).
Proof. apply map_lookup_filter_Some. Qed.

Lemma destroy_loop_ok : forall l t,
  NoDup l -> (forall a, a ∈ l -> exists i, it_inodes t !! a = Some i /\ 0 <= i_nlookup i) ->
  exists calls, destroy_loop t l = Some (set_inodes (without l (it_inodes t)) t, calls) /\ map fst calls = l.
Proof.
  induction l as [|a l IH]; intros t Hnd Hall.
  { exists []. split; [|done]. simpl. f_equal. f_equal. apply itable_ext; try done. simpl.
    symmetry. apply map_filter_id. intros. apply not_elem_of_nil. }
  destruct (Hall a) as (i & Hi & Hlk); [set_solver|]. inversion Hnd as [|? ? Hal Hnd']; subst.
  assert (i_nlookup i <? 0 = false) as Hlt by lia.
  simpl. unfold __inode_forget, __inode_destroy. rewrite Hi. cbn [mbind option_bind]. rewrite Hlt.
  cbn [mbind option_bind]. simpl. rewrite lookup_alter_eq, Hi. cbn [mbind option_bind fmap option_fmap option_map].
  destruct (IH (set_inodes (delete a (alter (i_set_nlookup 0) a (it_inodes t))) (upd_inode a (i_set_nlookup 0) t)))
    as (calls & -> & Hcalls); [done| |].
  { intros b Hb. simpl. destruct (Hall b) as (j & Hj & ?); [set_solver|]. exists j.
    rewrite lookup_delete_ne, lookup_alter_ne; [done|..]; by intros <-. }
  cbn [mbind option_bind]. eexists. split; [do 2 f_equal|simpl; by rewrite Hcalls].
  apply itable_ext; try done. simpl. apply map_eq. intros b. apply option_eq. intros j.
  rewrite !lookup_without, lookup_delete_Some. split.
  - intros ((Hne & Hj) & ?). rewrite lookup_alter_ne in Hj by done. set_solver.
  - intros (Hj & Hb). assert (a <> b) by set_solver. rewrite lookup_alter_ne by done. set_solver.
Qed.

(** The table without the purged inodes. *)
Definition purged (t : itable) : itable :=
  set_inodes (without (it_purge t) (it_inodes t)) (set_purge [] 0 t).

Lemma wf_purged H t : wf ∅ H t -> wf ∅ H (purged t).
Proof.
  intros Hwf. pose proof Hwf as [Hl Hs Hr Hd Hn Hh]. split; simpl.
  - destruct Hl as [Hnd Hdom Hact Hroom]. rewrite !length_app in Hroom. split.
    + rewrite app_nil_r. rewrite app_assoc in Hnd. by apply NoDup_app in Hnd as (? & _).
    + intros a. rewrite app_nil_r. unfold is_Some. setoid_rewrite lookup_without.
      pose proof (Hdom a) as Ha. rewrite app_assoc in Hnd. apply NoDup_app in Hnd as (_ & Hx & _). split.
      * intros Hin. assert (is_Some (it_inodes t !! a)) as [i Hi] by (apply Ha; set_solver). eauto.
      * intros (i & Hi & Hp). assert (is_Some (it_inodes t !! a)) as Hsome by eauto. apply Ha in Hsome. set_solver.
    + intros a i [Hi _]%lookup_without. auto.
    + rewrite !length_app. simpl. lia.
  - by destruct Hs.
  - destruct Hr as [Hrg Hc Hrt H1 Hh']. split.
    + intros a i [Hi _]%lookup_without. eauto.
    + intros a i [Hi _]%lookup_without. eauto.
    + destruct (root_inode Hwf) as (r & ? & ? & ?). exists r. by rewrite lookup_without.
    + intros a i [Hi _]%lookup_without. eauto.
    + intros a Ha. destruct (held_inode Hwf a Ha) as (i & Hi & _ & Hp). exists i. by apply lookup_without.
  - destruct Hd as [HX Hup Hdn Hpg Hroot]. split; [set_solver| | | |].
    + intros d de Hde. destruct (parent_inode Hwf _ _ Hde) as (p & Hp & _ & Hpp).
      destruct (dentry_inode _ _ _ _ Hwf Hde) as (i & Hi & Hin & Hip).
      split; [exists p|exists i; split; [|done]]; by apply lookup_without.
    + intros a i [Hi _]%lookup_without. eauto.
    + intros a i Ha. by apply elem_of_nil in Ha.
    + intros r [Hi _]%lookup_without. eauto.
  - done.
  - destruct Hh as [Hin Hu Hat Hap Hnd]. split; [| | | |done].
    + intros a h Ha. destruct (Hin _ _ Ha) as (i & ? & ? & ? & ?). exists i. rewrite lookup_without.
      split_and!; try done. apply not_elem_of_nil.
    + intros a b h i j ?? [Hi _]%lookup_without [Hj _]%lookup_without. eauto.
    + intros a. rewrite Hat. setoid_rewrite lookup_without. split; [|naive_solver].
      intros (i & ? & ?). exists i. split_and!; try done. apply Hap, Hat. eauto.
    + intros a _. apply not_elem_of_nil.
Qed.

(** From a table to one that has been pruned: inodes may be gone, with their
    dentries; the others only lose references. *)
Record prunes (t t' : itable) : Prop := {
  pr_const : it_root t' = it_root t /\ it_hashsize t' = it_hashsize t;
  pr_inodes : forall a i', it_inodes t' !! a = Some i' ->
    exists i, it_inodes t !! a = Some i /\ i' = i_set_ref (i_ref i') i;
  pr_dentries : it_dentries t' ⊆ it_dentries t;
  pr_kept : forall d de, it_dentries t !! d = Some de -> is_Some (it_inodes t' !! d_inode de) ->
    it_dentries t' !! d = Some de;
  pr_hash : forall a h, a ∈ bucket (it_inode_hash t') h <->
    a ∈ bucket (it_inode_hash t) h /\ is_Some (it_inodes t' !! a)
}.

Lemma shrinks_purged t t' H : wf ∅ H t' -> shrinks ∅ t t' -> prunes t (purged t').
Proof.
  intros Hwf [C P D I R S K A L]. split; simpl.
  - tauto.
  - intros a i [Hi Hp]%lookup_without. auto.
  - done.
  - intros d de Hd [i [Hi Hp]%lookup_without]. auto.
  - intros a h. rewrite A. unfold is_Some. setoid_rewrite lookup_without. split; [|naive_solver].
    intros [Ha Hp]. split; [done|]. assert (a ∈ bucket (it_inode_hash t') h) as Ha' by by apply A.
    destruct (hs_in _ _ _ _ _ (wf_hash _ _ _ Hwf) _ _ Ha') as (i & Hi & _). eauto.
Qed.

Lemma inode_table_prune_ok H t :
  wf ∅ H t ->
  exists t' r calls, inode_table_prune t = Some (t', r, calls) /\ wf ∅ H t' /\ it_purge t' = [] /\
    (it_lru_limit t = 0 \/ it_lru_size t' <= it_lru_limit t) /\
    (exists t1, shrinks ∅ t t1 /\ wf ∅ H t1 /\ t' = purged t1 /\ map fst calls = it_purge t1).
Proof.
  intros Hwf. unfold inode_table_prune.
  destruct (prune_loop_ok H (size (it_inodes t)) t 0) as (t1 & r & -> & Hwf1 & Hsh & Hlim); [done| |].
  { pose proof (lists_size _ _ _ _ (wf_lists _ _ _ Hwf)) as Hsz. rewrite !length_app in Hsz. lia. }
  cbn [mbind option_bind].
  destruct (destroy_loop_ok (it_purge t1) (set_purge [] 0 t1)) as (calls & -> & Hcalls).
  { by destruct (lists_nodup (wf_lists _ _ _ Hwf1)) as (_ & _ & ?). }
  { intros a Ha. assert (is_Some (it_inodes t1 !! a)) as [i Hi]
      by (apply (lk_dom _ _ _ _ (wf_lists _ _ _ Hwf1)); set_solver).
    exists i. split; [done|]. by apply (rf_range _ _ _ _ (wf_refs _ _ _ Hwf1) a i). }
  cbn [mbind option_bind]. exists (purged t1), r, calls.
  split_and!; [done|by apply wf_purged|done| |exists t1; done].
  destruct (sh_const _ _ _ Hsh) as (_ & _ & E). rewrite <-E. done.
Qed.

Lemma pruned_ok H t : wf ∅ H t ->
  exists t', pruned t = Some t' /\ wf ∅ H t' /\ it_purge t' = [] /\ prunes t t'.
Proof.
  intros Hwf. unfold pruned.
  destruct (inode_table_prune_ok H t Hwf) as (t' & r & calls & -> & ? & ? & _ & t1 & ? & ? & -> & _).
  exists (purged t1). split_and!; [done..|]. by eapply shrinks_purged.
Qed.

(** ** Taking references *)

Definition inc_ref (i : inode) : inode := i_set_ref (u32 (i_ref i + 1)) i.

(** What [__inode_ref] leaves alone. *)
Record ref_frame (a : Z) (t t' : itable) : Prop := {
  fr_const : it_root t' = it_root t /\ it_hashsize t' = it_hashsize t /\ it_lru_limit t' = it_lru_limit t;
  fr_inode_hash : it_inode_hash t' = it_inode_hash t;
  fr_name_hash : it_name_hash t' = it_name_hash t;
  fr_attic : it_attic t' = it_attic t /\ it_attic_size t' = it_attic_size t;
  fr_purge : it_purge t' = it_purge t;
  fr_dentries : it_dentries t' = it_dentries t;
  fr_inodes : it_inodes t' = alter inc_ref a (it_inodes t)
}.

Lemma refs_ok_add H root m ds a i :
  refs_ok H root m ds -> m !! a = Some i -> i_ref i + 1 < 2 ^ 32 ->
  refs_ok (H ⊎ {[+ a +]}) root (alter inc_ref a m) ds.
Proof.
  intros [Hrg Hc (r & Hrt & Hr0) H1 Hh] Hi Hroom. destruct (Hrg _ _ Hi) as [? _].
  assert (i_ref (inc_ref i) = i_ref i + 1) as Hinc by (simpl; apply u32_small; unfold is_u32; lia).
  split.
  - intros b j [(<- & i0 & Hj & ->)|(Hne & Hj)]%lookup_alter_Some; [|eauto].
    simplify_eq. destruct (Hrg _ _ Hi). split; [lia|done].
  - intros b j [(<- & i0 & Hj & ->)|(Hne & Hj)]%lookup_alter_Some Hb.
    + simplify_eq. rewrite Hinc, (Hc _ _ Hi Hb), multiplicity_disj_union, multiplicity_singleton_eq. lia.
    + rewrite (Hc _ _ Hj Hb), multiplicity_disj_union, multiplicity_singleton_ne by done. lia.
  - destruct (decide (a = root)) as [->|Hne].
    + exists (inc_ref i). rewrite lookup_alter_eq, Hi. split; [done|]. lia.
    + exists r. by rewrite lookup_alter_ne.
  - intros b j [(<- & i0 & Hj & ->)|(Hne & Hj)]%lookup_alter_Some; simpl; eauto.
  - intros b Hb. rewrite lookup_alter_is_Some. destruct (decide (b = a)) as [->|]; [eauto|].
    apply Hh. multiset_solver.
Qed.

Lemma lists_ok_activate act lru purge m a i :
  lists_ok act lru purge m -> m !! a = Some i -> a ∈ lru -> 0 <= i_ref i -> i_ref i + 1 < 2 ^ 32 ->
  lists_ok (list_add a (list_del a act)) (list_del a lru) (list_del a purge) (alter inc_ref a m).
Proof.
  intros Hl Hi Ha Hr0 Hr1. destruct (lists_lru_not Hl a Ha) as [Hn1 Hn2].
  destruct (lists_nodup Hl) as (_ & Hnd & _). rewrite (list_del_notin a act), (list_del_notin a purge) by done.
  assert (list_add a act ++ list_del a lru ++ purge ≡ₚ act ++ lru ++ purge) as Hperm.
  { rewrite <-(list_del_perm a lru Hnd Ha) at 2. unfold list_add. solve_Permutation. }
  destruct Hl as [Hx Hd Hact Hroom]. split.
  - by rewrite Hperm.
  - intros b. by rewrite Hperm, lookup_alter_is_Some.
  - intros b j [(<- & i0 & Hj & ->)|(Hne & Hj)]%lookup_alter_Some; unfold list_add; rewrite elem_of_cons.
    + simplify_eq. simpl. rewrite u32_small by (unfold is_u32; lia). split; [lia|by left].
    + rewrite (Hact _ _ Hj). split; [|by right]. intros [->|?]; done.
  - by rewrite Hperm.
Qed.

Lemma inode_ref_ok X H t a i :
  wf X H t -> it_inodes t !! a = Some i -> a ∉ it_purge t -> i_ref i + 1 < 2 ^ 32 ->
  exists t', __inode_ref t a = Some t' /\ wf X (H ⊎ {[+ a +]}) t' /\ ref_frame a t t'.
Proof.
  intros [Hl Hs Hr Hd Hn Hh] Hi Hp Hroom. destruct (rf_range _ _ _ _ Hr _ _ Hi) as [Hrg _].
  unfold __inode_ref. rewrite Hi. cbn [mbind option_bind]. destruct (Z.eqb_spec (i_ref i) 0) as [E|E].
  - pose proof (lists_unreferenced Hl a i Hi E Hp) as Ha. destruct (lists_lru_not Hl a Ha) as [Hn1 _].
    pose proof (lists_lengths _ _ _ _ Hl). destruct (lists_nodup Hl) as (_ & Hnd & _).
    pose proof (list_del_length a _ Hnd Ha). eexists. split; [done|]. split.
    + split; simpl.
      * eapply lists_ok_activate; eauto; lia.
      * destruct Hs as [S1 S2 S3 S4 S5].
        split; simpl; rewrite ?(list_del_notin a (it_active t)), ?(list_del_notin a (it_purge t)) by done;
          rewrite ?u32_small; unfold is_u32; lia.
      * by eapply refs_ok_add.
      * rewrite (list_del_notin a (it_purge t)) by done. eapply dents_ok_agree; [|done]. by apply agree_alter.
      * done.
      * rewrite (list_del_notin a (it_purge t)) by done. eapply hash_ok_agree; [|done]. by apply agree_alter.
    + split; simpl; try done. by apply list_del_notin.
  - eexists. split; [done|]. split; [split; simpl|split; done].
    + destruct Hl as [L1 L2 L3 L4]. split; [done| | |done].
      * intros b. by rewrite L2, lookup_alter_is_Some.
      * intros b j [(<- & i0 & Hj & ->)|(Hne & Hj)]%lookup_alter_Some; [|auto]. simplify_eq. simpl.
        rewrite (L3 _ _ Hi), u32_small; unfold is_u32; lia.
    + by destruct Hs.
    + by eapply refs_ok_add.
    + eapply dents_ok_agree; [|done]. by apply agree_alter.
    + done.
    + eapply hash_ok_agree; [|done]. by apply agree_alter.
Qed.

(** ** New inodes *)

Definition new_inode (xl_count : nat) : inode :=
  mk_inode 0 0 0 0 0 false [] (replicate xl_count (mk_ictx 0 0 0)).

(** There is memory for another inode. *)
Definition inode_room (t : itable) : Prop := Z.of_nat (size (it_inodes t)) + 1 < 2 ^ 32.

Lemma children_none ds a : (forall d de, ds !! d = Some de -> d_parent de <> a) -> children ds a = 0%nat.
Proof.
  intros Hno. unfold children. apply map_size_empty_iff, map_eq. intros d. apply option_eq. intros de.
  rewrite map_lookup_filter_Some, lookup_empty. split; [|done]. intros [Hd Hp]. by apply Hno in Hd.
Qed.

Lemma lists_ok_new act lru purge m a xl_count :
  lists_ok act lru purge m -> m !! a = None -> Z.of_nat (size m) + 1 < 2 ^ 32 ->
  lists_ok act (list_add a lru) purge (<[a := new_inode xl_count]> m).
Proof.
  intros Hl Ha Hroom. pose proof (lists_size _ _ _ _ Hl) as Hsz. destruct Hl as [Hnd Hdom Hact _].
  assert (act ++ list_add a lru ++ purge ≡ₚ a :: (act ++ lru ++ purge)) as Hperm
    by (unfold list_add; solve_Permutation).
  assert (a ∉ act ++ lru ++ purge) as Hn by (rewrite Hdom, Ha; apply is_Some_None). split.
  - rewrite Hperm. by constructor.
  - intros b. rewrite Hperm, elem_of_cons, Hdom, lookup_insert_is_Some. destruct (decide (a = b)); naive_solver.
  - intros b i [[<- <-]|[Hne Hi]]%lookup_insert_Some; [|auto]. simpl. set_solver.
  - rewrite Hperm. simpl. lia.
Qed.

Lemma inode_create_ok H t a xl_count :
  wf ∅ H t -> it_inodes t !! a = None -> inode_room t ->
  wf ∅ H (fst (__inode_create t (Some a) xl_count)).
Proof.
  intros [Hl Hs Hr Hd Hn Hh] Ha Hroom. pose proof (lists_size _ _ _ _ Hl) as Hsz.
  unfold inode_room in *. rewrite !length_app in Hsz. split; simpl.
  - by apply lists_ok_new.
  - destruct Hs as [S1 S2 S3 S4 S5]. split; simpl; rewrite ?u32_small; unfold is_u32; lia.
  - destruct Hr as [Hrg Hc (r & Hrt & Hr0) H1 Hh']. split.
    + intros b i [[<- <-]|[Hne Hi]]%lookup_insert_Some; [simpl; lia|eauto].
    + intros b i [[<- <-]|[Hne Hi]]%lookup_insert_Some Hb; [|eauto]. rewrite children_none.
      * assert (multiplicity a H = 0%nat) as ->; [|done]. apply not_elem_of_multiplicity.
        intros Hin%Hh'. rewrite Ha in Hin. by apply is_Some_None in Hin.
      * intros d de Hde Ep. destruct (dn_up _ _ _ _ _ Hd _ _ Hde) as ([? ?] & _). congruence.
    + exists r. rewrite lookup_insert_ne; [done|]. congruence.
    + intros b i [[<- <-]|[Hne Hi]]%lookup_insert_Some; [|eauto]. simpl. split; [lia|congruence].
    + intros b Hb%Hh'. rewrite lookup_insert_is_Some. destruct (decide (a = b)); auto.
  - destruct Hd as [HX Hup Hdn Hpg Hroot]. split; [done| | | |].
    + intros d de Hde. destruct (Hup _ _ Hde) as ([p Hp] & i & Hi & Hin).
      rewrite !lookup_insert_ne by congruence. eauto.
    + intros b i [[<- <-]|[Hne Hi]]%lookup_insert_Some; [|eauto]. simpl. split; [constructor|set_solver].
    + intros b i Hb [[<- <-]|[Hne Hi]]%lookup_insert_Some; [by right|eauto].
    + intros r [[? <-]|[Hne Hi]]%lookup_insert_Some; [done|eauto].
  - done.
  - destruct Hh as [Hin Hu Hat Hap Hnd]. split; [| | |done..].
    + intros b h Hb. destruct (Hin _ _ Hb) as (i & Hi & ?). exists i.
      by rewrite lookup_insert_ne by congruence.
    + intros b c h i j Hb Hc. destruct (Hin _ _ Hb) as (i' & Hi & _), (Hin _ _ Hc) as (j' & Hj & _).
      rewrite !lookup_insert_ne by congruence. eauto.
    + intros b. rewrite Hat. setoid_rewrite lookup_insert_Some. split; [|naive_solver].
      intros (i & Hi & ?). exists i. split; [right; split; [congruence|done]|done].
Qed.

(** ** Searching the inode hash *)

Lemma find_elem {A} (f : A -> bool) l x : List.find f l = Some x -> x ∈ l /\ f x = true.
Proof. intros [Hx ?]%List.find_some. by rewrite list_elem_of_In. Qed.

Lemma find_none_elem {A} (f : A -> bool) l x : List.find f l = None -> x ∈ l -> f x = false.
Proof. intros Hn Hx. eapply List.find_none; [done|]. by apply list_elem_of_In. Qed.

Lemma find_ext_elem {A} (f g : A -> bool) l :
  (forall x, x ∈ l -> f x = g x) -> List.find f l = List.find g l.
Proof.
  induction l as [|x l IH]; intros Hfg; simpl; [done|]. rewrite Hfg by left.
  rewrite IH; [done|]. intros y ?. apply Hfg. by right.
Qed.

Lemma inode_search_Some t ino a :
  __inode_search t ino = Some a ->
  a ∈ bucket (it_inode_hash t) (hash_inode ino (it_hashsize t)) /\
  exists i, it_inodes t !! a = Some i /\ i_ino i = ino.
Proof.
  intros [Ha Hf]%find_elem. split; [done|]. destruct (it_inodes t !! a) as [i|]; [|done].
  exists i. split; [done|]. by apply Z.eqb_eq.
Qed.

Lemma inode_search_None t ino b i :
  __inode_search t ino = None -> b ∈ bucket (it_inode_hash t) (hash_inode ino (it_hashsize t)) ->
  it_inodes t !! b = Some i -> i_ino i <> ino.
Proof. intros Hn Hb Hi. apply (find_none_elem _ _ _ Hn) in Hb. rewrite Hi in Hb. by apply Z.eqb_neq. Qed.

(** The inode hash is searched exactly. *)
Lemma inode_search_hashed X H t a i :
  wf X H t -> it_inodes t !! a = Some i ->
  a ∈ bucket (it_inode_hash t) (hash_inode (i_ino i) (it_hashsize t)) ->
  __inode_search t (i_ino i) = Some a.
Proof.
  intros Hwf Hi Ha. destruct (__inode_search t (i_ino i)) as [b|] eqn:E.
  - apply inode_search_Some in E as (Hb & j & Hj & Ej). f_equal.
    by eapply (hs_uniq _ _ _ _ _ (wf_hash _ _ _ Hwf)).
  - exfalso. by eapply inode_search_None.
Qed.

(** ** Giving an inode its number *)

Lemma hash_ok_stat hs ih attic purge m a st :
  hash_ok hs ih attic purge m -> (forall h, a ∉ bucket ih h) ->
  hash_ok hs ih attic purge (alter (i_set_stat st) a m).
Proof.
  intros [Hin Hu Hat Hap Hnd] Ha. split; [| | |done..].
  - intros b h Hb. rewrite lookup_alter_ne; [eauto|]. intros <-. by eapply Ha.
  - intros b c h i j Hb Hc. rewrite !lookup_alter_ne; [eauto|..]; intros <-; by eapply Ha.
  - intros b. rewrite Hat. setoid_rewrite lookup_alter_Some. split.
    + intros (i & Hi & ?). destruct (decide (a = b)) as [<-|]; eexists; split; eauto.
    + intros (i & [(<- & i0 & ? & ->)|(? & ?)] & ?); eauto.
Qed.

Lemma hash_ok_add hs ih attic purge m a i :
  hash_ok hs ih attic purge m -> m !! a = Some i -> i_in_attic i = false -> a ∉ purge ->
  (forall b j, b ∈ bucket ih (hash_inode (i_ino i) hs) -> m !! b = Some j -> i_ino j = i_ino i -> b = a) ->
  hash_ok hs (bucket_add (hash_inode (i_ino i) hs) a (bucket_del (hash_inode (i_ino i) hs) a ih))
    (list_del a attic) purge m.
Proof.
  intros [Hin Hu Hat Hap Hnd] Hi Hia Hp Hnew.
  assert (forall b h, b ∈ bucket (bucket_add (hash_inode (i_ino i) hs) a (bucket_del (hash_inode (i_ino i) hs) a ih)) h ->
    (b = a /\ h = hash_inode (i_ino i) hs) \/ b ∈ bucket ih h) as Hmem.
  { intros b h [?|[_ ?]%elem_bucket_del]%elem_bucket_add; auto. }
  assert (a ∉ attic) as Hna by (rewrite Hat; intros (j & ? & ?); congruence).
  rewrite (list_del_notin a attic) by done. split; [| |done..].
  - intros b h [[-> ->]|Hb]%Hmem; [|eauto]. by exists i.
  - intros b c h j k [[-> ->]|Hb]%Hmem [[-> Eh]|Hc]%Hmem Hj Hk E; simplify_eq; [done| | |eauto].
    + symmetry. by eapply Hnew.
    + by eapply Hnew.
Qed.

Lemma hash_ok_atticize hs ih attic purge m a i :
  hash_ok hs ih attic purge m -> m !! a = Some i -> i_in_attic i = false -> a ∉ purge ->
  hash_ok hs (bucket_del (hash_inode (i_ino i) hs) a ih) (list_add a (list_del a attic)) purge
    (alter (i_set_in_attic true) a (alter (i_set_in_attic false) a m)).
Proof.
  intros Hh Hi Hia Hp. destruct (hash_ok_unhash _ _ _ _ purge _ _ _ Hh Hi) as [Hin Hu Hat Hap Hnd]; [auto|].
  assert (forall h, a ∉ bucket (bucket_del (hash_inode (i_ino i) hs) a ih) h) as Hnb.
  { intros h [Hne Ha]%elem_bucket_del. apply (hs_in _ _ _ _ _ Hh) in Ha as (j & ? & ? & _).
    simplify_eq. tauto. }
  assert (a ∉ list_del a attic) as Hna by (rewrite elem_of_list_del; tauto).
  unfold list_add. split.
  - intros b h Hb. rewrite lookup_alter_ne; [eauto|]. intros <-. by eapply Hnb.
  - intros b c h j k Hb Hc. rewrite !(lookup_alter_ne (i_set_in_attic true)); [eauto|..]; intros <-; by eapply Hnb.
  - intros b. rewrite elem_of_cons, Hat. destruct (decide (a = b)) as [<-|Hne].
    + split; [|by left]. intros _. rewrite !lookup_alter_eq, Hi. simpl. eexists; split; [reflexivity|done].
    + rewrite (lookup_alter_ne (i_set_in_attic true)) by done. split; [intros [->|?]; done|by right].
  - intros b [->|Hb]%elem_of_cons; eauto.
  - by constructor.
Qed.

(** What the first part of [__inode_link] leaves alone. *)
Record link_frame (t t' : itable) : Prop := {
  lf_const : it_root t' = it_root t /\ it_hashsize t' = it_hashsize t /\ it_lru_limit t' = it_lru_limit t;
  lf_names : it_name_hash t' = it_name_hash t /\ it_dentries t' = it_dentries t;
  lf_lists : it_active t' = it_active t /\ it_lru t' = it_lru t /\ it_purge t' = it_purge t;
  lf_inodes : agree (fun i => (i_ref i, i_nlookup i, i_dentries i)) (it_inodes t) (it_inodes t')
}.

Lemma agree_weaken {B C} (f : inode -> B) (g : B -> C) m m' :
  agree f m m' -> agree (fun i => g (f i)) m m'.
Proof.
  intros Ha a. specialize (Ha a). apply (f_equal (fmap g)) in Ha. by rewrite <-!option_fmap_compose in Ha.
Qed.

Lemma agree_trans {B} (f : inode -> B) m1 m2 m3 : agree f m1 m2 -> agree f m2 m3 -> agree f m1 m3.
Proof. intros H1 H2 a. by rewrite H2. Qed.

(** A step of the first part keeps all but the hash. *)
Lemma wf_link_step H t t' :
  wf ∅ H t -> link_frame t t' ->
  (forall a i, it_inodes t' !! a = Some i -> (i_ino i = 1 <-> a = it_root t)) ->
  it_active_size t' = it_active_size t -> it_lru_size t' = it_lru_size t ->
  it_purge_size t' = it_purge_size t -> it_attic_size t' = Z.of_nat (length (it_attic t')) ->
  hash_ok (it_hashsize t') (it_inode_hash t') (it_attic t') (it_purge t') (it_inodes t') ->
  wf ∅ H t'.
Proof.
  intros [Hl Hs Hr Hd Hn Hh] [(Er & Ehs & El) (En & Ed) (E1 & E2 & E3) Ha] Hone Z1 Z2 Z3 Z4 Hh'.
  split; rewrite ?E1, ?E2, ?E3, ?En, ?Ed, ?Ehs, ?Er in *.
  - eapply lists_ok_agree; [|done]. apply (agree_weaken _ (fun x => fst (fst x)) _ _ Ha).
  - destruct Hs. split; congruence.
  - destruct Hr as [Hrg Hc (r & Hrt & Hr0) H1 Hh'']. pose proof (agree_sym _ _ _ Ha) as Ha'. split.
    + intros a i Hi. old_inode Ha Hi. destruct (Hrg _ _ Hio). lia.
    + intros a i Hi Hne. old_inode Ha Hi. rewrite <-(Hc _ _ Hio Hne). congruence.
    + old_inode Ha' Hrt. exists io. split; [done|congruence].
    + done.
    + intros a Hin. rewrite (agree_is_Some _ _ _ _ Ha). auto.
  - eapply dents_ok_agree; [|done]. apply (agree_weaken _ snd _ _ Ha).
  - done.
  - done.
Qed.

#[export] Instance link_frame_trans : Transitive link_frame.
Proof.
  intros t1 t2 t3 [(? & ? & ?) (? & ?) (? & ? & ?) ?] [(? & ? & ?) (? & ?) (? & ? & ?) ?].
  split; [split_and!; congruence..|]. by eapply agree_trans.
Qed.

(** An inode that is not hashed is in no bucket. *)
Lemma unhashed_buckets X H t a i :
  wf X H t -> it_inodes t !! a = Some i -> __is_inode_hashed t a = false ->
  (forall h, a ∉ bucket (it_inode_hash t) h) /\ i_in_attic i = false.
Proof.
  intros Hwf Hi Hf. unfold __is_inode_hashed in Hf. rewrite Hi in Hf.
  apply orb_false_iff in Hf as [Hb%bool_decide_eq_false Hat%bool_decide_eq_false].
  destruct (wf_hash _ _ _ Hwf) as [Hin _ Hattic _ _]. split.
  - intros h Ha. destruct (Hin _ _ Ha) as (j & Hj & <- & _). simplify_eq. done.
  - destruct (i_in_attic i) eqn:E; [|done]. exfalso. apply Hat, Hattic. eauto.
Qed.

Lemma link_stat_ok H t a i st :
  wf ∅ H t -> it_inodes t !! a = Some i -> (forall h, a ∉ bucket (it_inode_hash t) h) ->
  a <> it_root t -> st_ino st <> 1 ->
  wf ∅ H (upd_inode a (i_set_stat st) t) /\ link_frame t (upd_inode a (i_set_stat st) t).
Proof.
  intros Hwf Hi Ha Hroot Hst.
  assert (link_frame t (upd_inode a (i_set_stat st) t)) as Hf by (split; try done; by apply agree_alter).
  split; [|done]. eapply wf_link_step; try done; simpl.
  - intros b j [(<- & i0 & Hj & ->)|(Hne & Hj)]%lookup_alter_Some; simpl; [tauto|].
    by apply (rf_one _ _ _ _ (wf_refs _ _ _ Hwf)).
  - apply (sz_attic _ (wf_sizes _ _ _ Hwf)).
  - apply hash_ok_stat; [apply Hwf|done].
Qed.

Lemma inode_hash_step H t a i :
  wf ∅ H t -> it_inodes t !! a = Some i -> i_in_attic i = false -> a ∉ it_purge t ->
  (forall b j, b ∈ bucket (it_inode_hash t) (inode_bucket t i) -> it_inodes t !! b = Some j ->
    i_ino j = i_ino i -> b = a) ->
  exists t', __inode_hash t a = Some t' /\ wf ∅ H t' /\ link_frame t t' /\
    it_inodes t' = it_inodes t /\ a ∈ bucket (it_inode_hash t') (inode_bucket t i).
Proof.
  intros Hwf Hi Hia Hp Hnew. unfold __inode_hash. rewrite Hi. cbn [mbind option_bind]. eexists.
  split; [done|]. assert (a ∉ it_attic t) as Hna.
  { rewrite (hs_attic _ _ _ _ _ (wf_hash _ _ _ Hwf)). intros (j & ? & ?). congruence. }
  match goal with |- wf _ _ ?t' /\ _ => assert (link_frame t t') as Hf by (split; done) end.
  split; [|split; [done|split; [done|]]].
  - eapply wf_link_step; try done; simpl.
    + apply (rf_one _ _ _ _ (wf_refs _ _ _ Hwf)).
    + rewrite (list_del_notin a (it_attic t)) by done. apply (sz_attic _ (wf_sizes _ _ _ Hwf)).
    + apply hash_ok_add; [apply Hwf|done..].
  - simpl. apply elem_bucket_add. by left.
Qed.

Lemma inode_atticize_step H t a i :
  wf ∅ H t -> it_inodes t !! a = Some i -> i_in_attic i = false -> a ∉ it_purge t ->
  exists t', __inode_atticize t a = Some t' /\ wf ∅ H t' /\ link_frame t t' /\
    it_inode_hash t' = bucket_del (inode_bucket t i) a (it_inode_hash t) /\
    it_inodes t' = alter (i_set_in_attic true) a (alter (i_set_in_attic false) a (it_inodes t)).
Proof.
  intros Hwf Hi Hia Hp. unfold __inode_atticize. erewrite inode_unhash_eq by (done || congruence).
  cbn [mbind option_bind]. eexists. split; [done|].
  match goal with |- wf _ _ ?t' /\ _ => assert (link_frame t t') as Hf end.
  { split; try done. simpl. eapply agree_trans; by apply agree_alter. }
  pose proof (hash_ok_atticize _ _ _ _ _ _ _ (wf_hash _ _ _ Hwf) Hi Hia Hp) as Hh'.
  split; [|done]. eapply wf_link_step; try done; simpl.
  - intros b j Hj. assert (agree i_ino (it_inodes t)
      (alter (i_set_in_attic true) a (alter (i_set_in_attic false) a (it_inodes t)))) as Ha
      by (eapply agree_trans; by apply agree_alter).
    old_inode Ha Hj. rewrite <-(rf_one _ _ _ _ (wf_refs _ _ _ Hwf) _ _ Hio). by rewrite Hf0.
  - rewrite Hia. rewrite (sz_attic _ (wf_sizes _ _ _ Hwf)).
    assert (a ∉ it_attic t) as Hna.
    { rewrite (hs_attic _ _ _ _ _ (wf_hash _ _ _ Hwf)). intros (j & ? & ?). congruence. }
    rewrite (list_del_notin a (it_attic t)) in * by done. simpl.
    pose proof (attic_room _ _ _ _ _ (it_active t) (it_lru t) Hh') as Hroom. simpl in Hroom.
    rewrite u32_small; [lia|]. unfold is_u32. split; [lia|].
    enough (Z.of_nat (S (length (it_attic t))) < 2 ^ 32) by lia.
    apply Hroom. eapply lists_ok_agree; [|apply Hwf]. eapply agree_trans; by apply agree_alter.
Qed.

(** What the first part of [__inode_link] gives, from a table in which the inode
    [a] has its number but is not hashed. *)
Definition linked_as (H : gmultiset Z) (t t' : itable) (st : istat) (li : Z) : Prop :=
  wf ∅ H t' /\ link_frame t t' /\
  exists j, it_inodes t' !! li = Some j /\ (li ∉ it_purge t') /\ i_ino j = st_ino st /\
    u64 (st_dev st) <= i_generation j /\ __inode_search t' (st_ino st) = Some li.

Lemma link_hash_new H t a i st :
  wf ∅ H t -> it_inodes t !! a = Some (i_set_stat st i) -> i_in_attic i = false -> a ∉ it_purge t ->
  (forall b j, b ∈ bucket (it_inode_hash t) (hash_inode (st_ino st) (it_hashsize t)) ->
    it_inodes t !! b = Some j -> i_ino j = st_ino st -> b = a) ->
  exists t', __inode_hash t a = Some t' /\ linked_as H t t' st a.
Proof.
  intros Hwf Hi Hia Hp Hnew.
  destruct (inode_hash_step _ _ _ _ Hwf Hi) as (t' & Ht' & Hwf' & Hf & Ei & Hb); [done..|].
  destruct (lf_const _ _ Hf) as (_ & Ehs & _). destruct (lf_lists _ _ Hf) as (_ & _ & Ep).
  exists t'. split; [done|]. split_and!; [done..|]. exists (i_set_stat st i).
  rewrite Ei, Ep. split_and!; [done..|simpl; lia|].
  apply (inode_search_hashed ∅ H t' a (i_set_stat st i)); [done|by rewrite Ei|]. by rewrite Ehs.
Qed.

(** With the old inode of the number in the attic no other one is in the way. *)
Lemma link_hash_replace H t a i old oi st :
  wf ∅ H t -> it_inodes t !! a = Some (i_set_stat st i) -> i_in_attic i = false -> a ∉ it_purge t ->
  old <> a -> __inode_search t (st_ino st) = Some old -> it_inodes t !! old = Some oi ->
  exists t2 t', __inode_atticize t old = Some t2 /\ __inode_hash t2 a = Some t' /\ linked_as H t t' st a.
Proof.
  intros Hwf Hi Hia Hp Hne Es Hoi. pose proof (inode_search_Some _ _ _ Es) as (Hold & oi0 & ? & Eino).
  destruct (hs_in _ _ _ _ _ (wf_hash _ _ _ Hwf) _ _ Hold) as (oi' & Hoi' & _ & Hoia & Hop). simplify_eq.
  destruct (inode_atticize_step _ _ _ _ Hwf Hoi Hoia Hop) as (t2 & Ht2 & Hwf2 & Hf2 & Eh2 & Ei2).
  destruct (lf_const _ _ Hf2) as (_ & Ehs & _). destruct (lf_lists _ _ Hf2) as (_ & _ & Ep).
  destruct (link_hash_new H t2 a i st) as (t' & Ht' & Hwf' & Hf' & Hrest); [done| |done|by rewrite Ep| |].
  - by rewrite Ei2, !lookup_alter_ne by done.
  - intros b j Hb Hj Ej. rewrite Ehs, Eh2, elem_bucket_del in Hb. destruct Hb as [Hor Hb].
    assert (agree i_ino (it_inodes t) (it_inodes t2)) as Ha by (rewrite Ei2; eapply agree_trans; by apply agree_alter).
    old_inode Ha Hj. assert (b = old) as ->.
    { eapply (hs_uniq _ _ _ _ _ (wf_hash _ _ _ Hwf) b old); eauto; congruence. }
    exfalso. destruct Hor as [?|Hx]; [done|]. apply Hx. unfold inode_bucket. by rewrite Eino.
  - exists t2, t'. split_and!; [done..|]. split_and!; [done|by etransitivity|done].
Qed.

(** The first part of [__inode_link]: the inode that stands for the file is in
    the hash under its number, unless the inode was linked before. *)
Lemma link_hash_ok H t a i st :
  wf ∅ H t -> it_inodes t !! a = Some i -> a ∉ it_purge t -> a <> it_root t -> st_ino st <> 1 ->
  exists t' li, link_hash t a st = Some (t', li) /\
    if __is_inode_hashed t a then t' = t /\ li = a
    else linked_as H t t' st li /\ (li = a \/ __inode_search t (st_ino st) = Some li).
Proof.
  intros Hwf Hi Hp Hroot Hst. unfold link_hash. rewrite Hi. cbn [mbind option_bind].
  destruct (__is_inode_hashed t a) eqn:Eh; [by exists t, a|].
  destruct (unhashed_buckets _ _ _ _ _ Hwf Hi Eh) as [Hnb Hia].
  destruct (link_stat_ok _ _ _ _ st Hwf Hi Hnb Hroot Hst) as [Hwf1 Hf1].
  assert (__inode_search (upd_inode a (i_set_stat st) t) (st_ino st) = __inode_search t (st_ino st)) as Esame.
  { unfold __inode_search. simpl. apply find_ext_elem. intros b Hb.
    rewrite lookup_alter_ne; [done|]. intros <-. by eapply Hnb. }
  set (t1 := upd_inode a (i_set_stat st) t) in *.
  assert (it_inodes t1 !! a = Some (i_set_stat st i)) as Hi1 by (simpl; by rewrite lookup_alter_eq, Hi).
  assert (forall t' li, linked_as H t1 t' st li -> linked_as H t t' st li) as Hlift.
  { intros t' li (? & ? & ?). split_and!; [done|by etransitivity|done]. }
  destruct (__inode_search t1 (st_ino st)) as [old|] eqn:Es.
  - pose proof (inode_search_Some _ _ _ Es) as (Hold & oi & Hoi & Eino). rewrite Hoi. cbn [mbind option_bind].
    destruct (Z.ltb_spec (i_generation oi) (u64 (st_dev st))) as [Hgen|Hgen].
    + destruct (link_hash_replace H t1 a i old oi st) as (t2 & t' & -> & Ht' & Hlk); try done.
      { intros ->. by eapply Hnb. }
      cbn [mbind option_bind]. rewrite Ht'. cbn [mbind option_bind].
      exists t', a. split; [done|]. split; [by apply Hlift|by left].
    + exists t1, old. split; [done|]. split; [|by right; rewrite <-Esame]. apply Hlift. split_and!; [done|split; done|].
      destruct (hs_in _ _ _ _ _ (wf_hash _ _ _ Hwf1) _ _ Hold) as (oi' & Hoi' & _ & _ & Hop).
      exists oi. split_and!; done.
  - destruct (link_hash_new H t1 a i st) as (t' & -> & Hlk); try done.
    { intros b j Hb Hj Ej. by destruct (inode_search_None t1 (st_ino st) b j Es Hb Hj). }
    cbn [mbind option_bind].
    exists t', a. split; [done|]. split; [by apply Hlift|by left].
Qed.

(** ** Names *)

Lemma dentry_grep_spec X H t p name d :
  wf X H t -> names_unique (it_dentries t) ->
  __dentry_grep t p name = Some d <->
  exists de, it_dentries t !! d = Some de /\ d_parent de = p /\ d_name de = name.
Proof.
  intros Hwf Hu. pose proof (wf_names _ _ _ Hwf) as Hn.
  assert (forall d', dentry_under t p name d' = true <->
    exists de, it_dentries t !! d' = Some de /\ d_parent de = p /\ d_name de = name) as Hunder.
  { intros d'. unfold dentry_under. destruct (it_dentries t !! d') as [de|].
    - rewrite andb_true_iff, Z.eqb_eq, String.eqb_eq. naive_solver.
    - naive_solver. }
  unfold __dentry_grep. split.
  - intros [_ Hd]%find_elem. by apply Hunder.
  - intros (de & Hd & Ep & En). destruct (List.find _ _) as [d'|] eqn:E.
    + apply find_elem in E as [_ (de' & Hd' & ? & ?)%Hunder]. f_equal. eapply (Hu d' d); [done..|congruence|congruence].
    + apply (find_none_elem _ _ d) in E.
      * exfalso. rewrite (proj2 (Hunder d)) in E; [done|eauto].
      * apply Hn. exists de. split; [done|]. by rewrite Ep, En.
Qed.

(** The inode a name stands for. *)
Definition name_of (t : itable) (p : Z) (name : string) : option Z :=
  found_inode t (__dentry_grep t p name).

Lemma name_of_Some X H t p name a :
  wf X H t -> names_unique (it_dentries t) ->
  name_of t p name = Some a <-> exists d, it_dentries t !! d = Some (mk_dentry a p name).
Proof.
  intros Hwf Hu. unfold name_of, found_inode. split.
  - destruct (__dentry_grep t p name) as [d|] eqn:E; [|done].
    apply (dentry_grep_spec _ _ _ _ _ _ Hwf Hu) in E as (de & Hd & <- & <-).
    simpl. rewrite Hd. intros [= <-]. exists d. rewrite Hd. by destruct de.
  - intros (d & Hd). rewrite (proj2 (dentry_grep_spec _ _ _ p name d Hwf Hu)); [|by eexists].
    simpl. by rewrite Hd.
Qed.

(** Tables with the same dentries have the same names. *)
Lemma name_of_dentries X X' H H' t t' p name :
  wf X H t -> wf X' H' t' -> names_unique (it_dentries t) -> it_dentries t' = it_dentries t ->
  name_of t' p name = name_of t p name.
Proof.
  intros Hwf Hwf' Hu E. apply option_eq. intros a.
  rewrite (name_of_Some _ _ _ _ _ _ Hwf Hu), (name_of_Some X' H' t'); [by rewrite E|done|by rewrite E].
Qed.

(** ** Adding a dentry *)

Lemma refs_ok_insert H root m ds d de :
  ds !! d = None -> refs_ok (H ⊎ {[+ d_parent de +]}) root m ds -> refs_ok H root m (<[d := de]> ds).
Proof.
  intros Hd [Hr Hc Hroot H1 Hh]. split; [done| |done..|].
  - intros a i Hi Hne. rewrite (Hc _ _ Hi Hne), (children_insert ds d de a Hd).
    rewrite multiplicity_disj_union, multiplicity_singleton. repeat case_decide; subst; done || lia.
  - intros a Ha. apply Hh. multiset_solver.
Qed.

Lemma dents_ok_insert root purge m ds d de i :
  ds !! d = None -> m !! d_inode de = Some i -> d_inode de ∉ purge -> d_inode de <> root ->
  is_Some (m !! d_parent de) -> dents_ok ∅ root purge m ds ->
  dents_ok ∅ root purge (alter (fun i => i_set_dentries (list_add d (i_dentries i)) i) (d_inode de) m)
    (<[d := de]> ds).
Proof.
  intros Hd Hi Hp Hroot Hpar [HX Hup Hdn Hpg Hrt]. unfold list_add. split; [done| | | |].
  - intros d' de' [[<- <-]|[Hne Hd']]%lookup_insert_Some.
    + rewrite lookup_alter_is_Some, lookup_alter_eq, Hi. split; [done|]. eexists; split; [done|]. left.
    + destruct (Hup _ _ Hd') as (? & j & Hj & ?). rewrite lookup_alter_is_Some. split; [done|].
      destruct (decide (d_inode de = d_inode de')) as [E|E].
      * rewrite E, lookup_alter_eq, Hj. eexists; split; [done|]. by right.
      * rewrite lookup_alter_ne by done. eauto.
  - intros a j [(<- & i0 & Hj & ->)|(Hne & Hj)]%lookup_alter_Some; destruct (Hdn _ _ Hj) as (Hnd & Hall).
    + simpl. split.
      * constructor; [|done]. intros (? & ? & _)%Hall. congruence.
      * intros d' [->|Hd']%elem_of_cons; [exists de; by rewrite lookup_insert_eq|].
        destruct (Hall _ Hd') as (de' & ? & ?). exists de'. rewrite lookup_insert_ne; [done|congruence].
    + split; [done|]. intros d' Hd'. destruct (Hall _ Hd') as (de' & ? & ?). exists de'.
      rewrite lookup_insert_ne; [done|congruence].
  - intros a j Ha [(<- & i0 & Hj & ->)|(Hne & Hj)]%lookup_alter_Some; [done|eauto].
  - intros r [(? & i0 & Hj & ->)|(Hne & Hj)]%lookup_alter_Some; [done|eauto].
Qed.

Lemma names_ok_insert hs nh ds d de :
  ds !! d = None -> names_ok hs nh ds ->
  let h := hash_dentry (d_parent de) (d_name de) hs in
  names_ok hs (bucket_add h d (bucket_del h d nh)) (<[d := de]> ds).
Proof.
  intros Hd Hn h d' h'. rewrite elem_bucket_add, elem_bucket_del, (Hn d' h'). setoid_rewrite lookup_insert_Some.
  split.
  - intros [[-> ->]|(_ & de' & ? & ?)]; [by exists de; eauto|]. exists de'. split; [right; split|]; congruence.
  - intros (de' & [[<- <-]|[Hne Hd']] & <-); [by left|]. right. split; [left; congruence|eauto].
Qed.

Definition with_dentry (t : itable) (d : Z) (de : dentry) : itable :=
  set_name_hash (bucket_add (dentry_hash t de) d (bucket_del (dentry_hash t de) d (it_name_hash t)))
    (set_dentries (<[d := de]> (it_dentries t))
       (upd_inode (d_inode de) (fun i => i_set_dentries (list_add d (i_dentries i)) i) t)).

Lemma wf_with_dentry H t d de i :
  wf ∅ (H ⊎ {[+ d_parent de +]}) t -> it_dentries t !! d = None ->
  it_inodes t !! d_inode de = Some i -> d_inode de ∉ it_purge t -> d_inode de <> it_root t ->
  wf ∅ H (with_dentry t d de).
Proof.
  intros [Hl Hs Hr Hd Hn Hh] Hfresh Hi Hp Hroot. split; simpl.
  - eapply lists_ok_agree; [|done]. by apply agree_alter.
  - by destruct Hs.
  - eapply refs_ok_agree; [by apply agree_alter|]. by apply refs_ok_insert.
  - eapply dents_ok_insert; [done..| |done]. apply (rf_held _ _ _ _ Hr). multiset_solver.
  - by apply names_ok_insert.
  - eapply hash_ok_agree; [|done]. by apply agree_alter.
Qed.

(** A reference beside one that is kept is only counted down. *)
Lemma inode_unref_held X H t a i :
  wf X (H ⊎ {[+ a +]}) t -> a ∈ H -> it_inodes t !! a = Some i ->
  exists t', __inode_unref t a = Some t' /\ wf X H t' /\ (t' = t \/ t' = dec_ref a i t).
Proof.
  intros Hwf Ha Hi. destruct (inode_unref_ok X H t a Hwf) as (t' & Ht' & Hwf' & Hsh).
  exists t'. split_and!; [done..|]. unfold __inode_unref, unref_fuel in Ht'. cbn [__inode_unref_fuel] in Ht'.
  rewrite Hi in Ht'. cbn [mbind option_bind] in Ht'.
  pose proof (rf_one _ _ _ _ (wf_refs _ _ _ Hwf) _ _ Hi) as Hone.
  destruct (Z.eqb_spec (i_ino i) 1) as [E1|E1]; [left; congruence|].
  destruct (rf_range _ _ _ _ (wf_refs _ _ _ Hwf) _ _ Hi) as [Hrg _].
  assert (1 < i_ref i) as Hr.
  { rewrite (rf_count _ _ _ _ (wf_refs _ _ _ Hwf) _ _ Hi) by tauto.
    rewrite multiplicity_disj_union, multiplicity_singleton_eq. rewrite elem_of_multiplicity in Ha. lia. }
  rewrite (u32_small (i_ref i - 1)) in Ht' by (unfold is_u32; lia).
  destruct (Z.eqb_spec (i_ref i) 0); [lia|]. destruct (Z.eqb_spec (i_ref i - 1) 0); [lia|].
  simpl in Ht'. right. by simplify_eq.
Qed.

(** The table with a dentry gone whose parent the caller holds. *)
Lemma dentry_unset_held H t d de :
  wf ∅ H t -> it_dentries t !! d = Some de -> d_parent de ∈ H ->
  exists t', __dentry_unset __inode_unref t d = Some t' /\ wf ∅ H t' /\
    it_dentries t' = delete d (it_dentries t) /\ it_purge t' = it_purge t /\
    it_root t' = it_root t /\ it_hashsize t' = it_hashsize t /\ it_inode_hash t' = it_inode_hash t /\
    agree (fun i => (i_ino i, i_generation i, i_nlookup i)) (it_inodes t) (it_inodes t').
Proof.
  intros Hwf Hd Hp. rewrite (dentry_unset_eq _ _ _ _ Hd). pose proof (wf_unset _ _ _ _ _ Hwf Hd) as Hwf1.
  destruct (rf_held _ _ _ _ (wf_refs _ _ _ Hwf1) (d_parent de)) as [p Hpi]; [multiset_solver|].
  destruct (inode_unref_held _ _ _ _ _ Hwf1 Hp Hpi) as (t' & -> & Hwf' & Hor).
  exists t'. split; [done|]. split; [done|]. destruct Hor as [->| ->]; simpl; split_and!; try done.
  - by apply agree_alter.
  - eapply agree_trans; by apply agree_alter.
Qed.

(** What linking and unlinking leave alone. *)
Record name_frame (t t' : itable) : Prop := {
  nf_root : it_root t' = it_root t;
  nf_hashsize : it_hashsize t' = it_hashsize t;
  nf_purge : it_purge t' = it_purge t;
  nf_hash : it_inode_hash t' = it_inode_hash t;
  nf_inodes : agree (fun i => (i_ino i, i_generation i, i_nlookup i)) (it_inodes t) (it_inodes t')
}.

#[export] Instance name_frame_preorder : PreOrder name_frame.
Proof.
  split; [by intros t|]. intros t1 t2 t3 [] []. split; congruence.
Qed.

(** There is room for another reference to an inode. *)
Definition ref_room (t : itable) (a : Z) : Prop :=
  forall i, it_inodes t !! a = Some i -> i_ref i + 1 < 2 ^ 32.

Lemma names_unique_subseteq ds ds' : ds' ⊆ ds -> names_unique ds -> names_unique ds'.
Proof. intros Hs Hu d1 d2 e1 e2 H1 H2. apply Hu; by eapply lookup_weaken. Qed.

Lemma dentry_create_ok H t li j p name d :
  wf ∅ H t -> it_inodes t !! li = Some j -> li ∉ it_purge t -> li <> it_root t ->
  p ∈ H -> ref_room t p -> it_dentries t !! d = None ->
  exists t1 t2, __dentry_create t li p name d = Some t1 /\ __dentry_hash t1 d = Some t2 /\ wf ∅ H t2 /\
    name_frame t t2 /\ it_dentries t2 = <[d := mk_dentry li p name]> (it_dentries t).
Proof.
  intros Hwf Hj Hlp Hlr Hp Hroom Hd. destruct (held_inode Hwf p Hp) as (pi & Hpi & _ & Hpp).
  destruct (inode_ref_ok ∅ H t p pi) as (t0 & Ht0 & Hwf0 & [(F1 & F2 & F3) F4 F5 F6 F7 F8 F9]); [done..|by apply Hroom|].
  unfold __dentry_create. rewrite Ht0. cbn [mbind option_bind]. eexists _, (with_dentry t0 d (mk_dentry li p name)).
  split; [done|]. assert (is_Some (it_inodes t0 !! li)) as [j0 Hj0] by (rewrite F9, lookup_alter_is_Some; eauto).
  split_and!.
  - unfold __dentry_hash, __dentry_unhash. simpl. rewrite lookup_insert_eq. cbn [mbind option_bind]. done.
  - eapply wf_with_dentry; simpl; [done|by rewrite F8|done|by rewrite F7|by rewrite F1].
  - split; simpl; try done. rewrite F9. eapply agree_trans; by apply agree_alter.
  - simpl. by rewrite F8.
Qed.

Lemma name_of_insert H H' t t' od d li p name :
  wf ∅ H t -> wf ∅ H' t' -> names_unique (it_dentries t) -> it_dentries t !! d = None ->
  __dentry_grep t p name = od ->
  it_dentries t' = default (<[d := mk_dentry li p name]> (it_dentries t))
    (od ← od; Some (delete od (<[d := mk_dentry li p name]> (it_dentries t)))) ->
  names_unique (it_dentries t') /\
  forall p' n', name_of t' p' n' = if decide ((p', n') = (p, name)) then Some li else name_of t p' n'.
Proof.
  intros Hwf Hwf' Hu Hd Hod Hds.
  assert (forall x e, it_dentries t' !! x = Some e <->
    (x = d /\ e = mk_dentry li p name) \/
    (it_dentries t !! x = Some e /\ ~ (d_parent e = p /\ d_name e = name))) as Hl.
  { intros x e. pose proof (fun y => dentry_grep_spec _ _ _ p name y Hwf Hu) as Hg. rewrite Hod in Hg.
    rewrite Hds. destruct od as [y|]; simpl.
    - destruct (proj1 (Hg y) eq_refl) as (ye & Hy & Ey1 & Ey2). assert (y <> d) by congruence.
      rewrite lookup_delete_Some, lookup_insert_Some. split.
      + intros [Hne [[<- <-]|[? Hx]]]; [by left|]. right. split; [done|]. intros [E1 E2]. apply Hne.
        apply (Hu y x ye e); congruence.
      + intros [[-> ->]|[Hx Hne]]; [by auto|]. split; [intros ->; naive_solver|]. right. split; congruence.
    - rewrite lookup_insert_Some. split.
      + intros [[<- <-]|[? Hx]]; [by left|]. right. split; [done|]. intros [E1 E2].
        assert (None = Some x); [apply Hg|done]. eauto.
      + intros [[-> ->]|[Hx Hne]]; [by auto|]. right. split; congruence. }
  assert (names_unique (it_dentries t')) as Hu'.
  { intros x y e f [[-> ->]|[Hx Hnx]]%Hl [[-> ->]|[Hy Hny]]%Hl; simpl; try done.
    - intros; exfalso; apply Hny; split; congruence.
    - intros; exfalso; apply Hnx; split; congruence.
    - by apply Hu. }
  split; [done|]. intros p' n'. apply option_eq. intros a. rewrite (name_of_Some _ _ _ _ _ _ Hwf' Hu').
  setoid_rewrite Hl. case_decide as E; [injection E as -> ->|rewrite (name_of_Some _ _ _ _ _ _ Hwf Hu)]; simpl; split.
  - intros (x & [[_ E]|[_ Hn]]); [congruence|]. tauto.
  - intros [= ->]. eauto.
  - intros (x & [[_ E']|[Hx _]]); [congruence|eauto].
  - intros (x & Hx). exists x. right. split; [done|]. intros [-> ->]. done.
Qed.

Lemma link_dentry_ok H t li j p name d :
  wf ∅ H t -> names_unique (it_dentries t) -> it_inodes t !! li = Some j -> li ∉ it_purge t ->
  li <> it_root t -> p ∈ H -> ref_room t p -> it_dentries t !! d = None ->
  exists t', link_dentry t li p name (Some d) = Some t' /\ wf ∅ H t' /\ names_unique (it_dentries t') /\
    name_frame t t' /\ (forall x, (children (it_dentries t') x <= children (it_dentries t) x + 1)%nat) /\
    forall p' n', name_of t' p' n' = if decide ((p', n') = (p, name)) then Some li else name_of t p' n'.
Proof.
  intros Hwf Hu Hj Hlp Hlr Hp Hroom Hd. unfold link_dentry. case_bool_decide as Esame.
  { exists t. split_and!; try done; [lia|]. intros p' n'. case_decide as E; [|done]. by injection E as -> ->. }
  assert (forall x, (children (<[d := mk_dentry li p name]> (it_dentries t)) x <= children (it_dentries t) x + 1)%nat)
    as Hch by (intros x; rewrite children_insert by done; case_decide; lia).
  destruct (dentry_create_ok H t li j p name d) as (t1 & t2 & Ht1 & Ht2 & Hwf2 & Hf2 & Hds2); [done..|].
  cbn [mbind option_bind]. rewrite Ht1. cbn [mbind option_bind]. rewrite Ht2. cbn [mbind option_bind].
  destruct (__dentry_grep t p name) as [od|] eqn:Eod.
  - apply (dentry_grep_spec _ _ _ _ _ _ Hwf Hu) in Eod as (ode & Hod & Ep & En).
    assert (it_dentries t2 !! od = Some ode) as Hod2 by (rewrite Hds2, lookup_insert_ne by congruence; done).
    destruct (dentry_unset_held H t2 od ode) as (t' & -> & Hwf' & Hds' & ? & ? & ? & ? & ?); [done..|congruence|].
    exists t'. destruct (name_of_insert H H t t' (Some od) d li p name) as [? ?]; try done.
    { apply (dentry_grep_spec _ _ _ _ _ _ Hwf Hu). eauto. }
    { simpl. by rewrite Hds', Hds2. }
    split_and!; try done; [etransitivity; [done|by split]|]. intros x. rewrite Hds', Hds2.
    etransitivity; [|apply Hch]. rewrite <-Hds2. rewrite (children_delete (it_dentries t2) od ode x) by done. lia.
  - exists t2. destruct (name_of_insert H H t t2 None d li p name) as [? ?]; try done.
    split_and!; try done. by rewrite Hds2.
Qed.

(** ** Linking and unlinking *)

(** No reference count is near its limit. *)
Definition roomy (t : itable) : Prop := forall a i, it_inodes t !! a = Some i -> i_ref i + 2 < 2 ^ 32.

(** An inode that [__inode_link] may be called with. *)
Definition linkable (H : gmultiset Z) (t : itable) (a : Z) (st : istat) : Prop :=
  a ∈ H /\ a <> it_root t /\ st_ino st <> 1.

Definition parent_ok (H : gmultiset Z) (t : itable) (parent : option (Z * string)) (newd : option Z) : Prop :=
  match parent with
  | None => True
  | Some (p, _) => p ∈ H /\ match newd with Some d => it_dentries t !! d = None | None => False end
  end.

#[export] Instance linkable_dec H t a st : Decision (linkable H t a st).
Proof. unfold linkable. apply _. Defined.

#[export] Instance parent_ok_dec H t parent newd : Decision (parent_ok H t parent newd).
Proof. destruct parent as [[p name]|], newd as [d|]; simpl; apply _. Defined.

#[export] Instance roomy_dec t : Decision (roomy t).
Proof. refine (map_Forall_dec (fun _ i => i_ref i + 2 < 2 ^ 32) _). intros. apply Z_lt_dec. Defined.

(** The names after linking. *)
Definition names_linked (t t' : itable) (parent : option (Z * string)) (li : Z) : Prop :=
  forall p' n', name_of t' p' n' = if decide (parent = Some (p', n')) then Some li else name_of t p' n'.

Lemma wf_refs_children H t t' a i i' k :
  wf ∅ H t -> wf ∅ H t' -> it_root t' = it_root t -> a <> it_root t ->
  it_inodes t !! a = Some i -> it_inodes t' !! a = Some i' ->
  (children (it_dentries t') a <= children (it_dentries t) a + k)%nat -> i_ref i' <= i_ref i + Z.of_nat k.
Proof.
  intros Hwf Hwf' Er Ha Hi Hi' Hk. rewrite (rf_count _ _ _ _ (wf_refs _ _ _ Hwf) a i Hi) by done.
  rewrite (rf_count _ _ _ _ (wf_refs _ _ _ Hwf') a i' Hi') by congruence. lia.
Qed.

Lemma link_hash_frame H t a st :
  wf ∅ H t -> linkable H t a st ->
  exists t1 li j, link_hash t a st = Some (t1, li) /\ wf ∅ H t1 /\ link_frame t t1 /\
    it_inodes t1 !! li = Some j /\ (li ∉ it_purge t1) /\ li <> it_root t /\
    (if __is_inode_hashed t a then li = a else __inode_search t1 (st_ino st) = Some li).
Proof.
  intros Hwf (Ha & Hroot & Hst). destruct (held_inode Hwf a Ha) as (i & Hi & _ & Hp).
  destruct (link_hash_ok H t a i st) as (t1 & li & Hlk & Hcase); [done..|]. exists t1, li.
  destruct (__is_inode_hashed t a).
  - destruct Hcase as [-> ->]. exists i. by split_and!.
  - destruct Hcase as [(Hwf1 & Hf & j & Hj & Hjp & Eino & _ & Hs) _]. exists j. split_and!; try done.
    intros E. apply Hst. rewrite <-Eino. destruct (lf_const _ _ Hf) as (Er & _).
    apply (rf_one _ _ _ _ (wf_refs _ _ _ Hwf1) _ _ Hj). congruence.
Qed.

Lemma inode_link_ok H t a parent st newd :
  wf ∅ H t -> names_unique (it_dentries t) -> linkable H t a st -> parent_ok H t parent newd -> roomy t ->
  exists t' li j, __inode_link t a parent st newd = Some (t', li) /\ wf ∅ H t' /\
    names_unique (it_dentries t') /\ it_root t' = it_root t /\ names_linked t t' parent li /\
    it_inodes t' !! li = Some j /\ (li ∉ it_purge t') /\ i_ref j + 1 < 2 ^ 32 /\
    (if __is_inode_hashed t a then li = a else __inode_search t' (st_ino st) = Some li).
Proof.
  intros Hwf Hu Hlk Hpar Hroomy. unfold __inode_link.
  destruct (link_hash_frame H t a st) as (t1 & li & j & -> & Hwf1 & Hf1 & Hj & Hjp & Hjr & Hs); [done..|].
  cbn [mbind option_bind]. destruct Hf1 as [(Er & Ehs & _) (_ & Eds) (_ & _ & Ep) Hag].
  destruct (agree_Some _ _ _ _ _ Hag Hj) as (j0 & Hj0 & Ej). injection Ej as Eref _ _.
  pose proof (Hroomy _ _ Hj0) as Hroom.
  destruct parent as [[p name]|].
  2:{ exists t1, li, j. split_and!; try done; [by rewrite Eds| |lia]. intros p' n'. rewrite decide_False by done.
      by eapply name_of_dentries. }
  destruct Hpar as (Hp & Hd). destruct newd as [d|]; [|done].
  destruct (link_dentry_ok H t1 li j p name d) as (t' & -> & Hwf' & Hu' & [N1 N2 N3 N4 N5] & Hch & Hnames); try done.
  { by rewrite Eds. }
  { congruence. }
  { intros pi Hpi. old_inode Hag Hpi. specialize (Hroomy _ _ Hio). lia. }
  { by rewrite Eds. }
  assert (is_Some (it_inodes t' !! li)) as [j' Hj'] by (rewrite (agree_is_Some _ _ _ _ N5); eauto).
  cbn [mbind option_bind]. exists t', li, j'. split_and!; try done.
  - congruence.
  - intros p' n'. rewrite Hnames. repeat case_decide; simplify_eq; try done. by eapply name_of_dentries.
  - by rewrite N3.
  - enough (i_ref j' <= i_ref j + Z.of_nat 1) by lia. apply (wf_refs_children H t1 t' li j j' 1); auto; congruence.
  - destruct (__is_inode_hashed t a); [done|]. rewrite <-Hs. unfold __inode_search. rewrite N2, N4.
    apply find_ext_elem. intros b _. specialize (N5 b).
    destruct (it_inodes t' !! b), (it_inodes t1 !! b); simplify_eq/=; try done. congruence.
Qed.

(** Unlinking takes away at most the one dentry that the search finds, and what
    hangs on it. *)
Lemma inode_unlink_ok H t a p name :
  wf ∅ H t -> names_unique (it_dentries t) -> a ∈ H -> p ∈ H ->
  exists t', __inode_unlink t a p name = Some t' /\ wf ∅ H t' /\ names_unique (it_dentries t').
Proof.
  intros Hwf Hu Ha Hp. destruct (held_inode Hwf a Ha) as (i & Hi & _). destruct (held_inode Hwf p Hp) as (pi & Hpi & _).
  unfold __inode_unlink. rewrite Hpi, Hi. cbn [mbind option_bind].
  destruct (__dentry_search_for_inode t a (i_ino pi) name) as [d|] eqn:E; [|eauto].
  unfold __dentry_search_for_inode in E. rewrite Hi in E. cbn [mbind option_bind] in E.
  apply find_elem in E as [Hin _].
  destruct (dn_down _ _ _ _ _ (wf_dents _ _ _ Hwf) _ _ Hi) as (_ & Hall). destruct (Hall _ Hin) as (de & Hde & _).
  destruct (dentry_unset_ok ∅ H t d de) as (t' & -> & Hwf' & Hsh); [done..|]. exists t'. split_and!; [done..|].
  eapply names_unique_subseteq; [|done]. etransitivity; [apply Hsh|]. simpl. apply delete_subseteq.
Qed.

(** Where the number of the directory is its own, the name is gone and the
    others stay. *)
Lemma inode_unlink_name H t a p pi name :
  wf ∅ H t -> names_unique (it_dentries t) -> p ∈ H -> a ∈ H -> it_inodes t !! p = Some pi ->
  (forall b j, it_inodes t !! b = Some j -> i_ino j = i_ino pi -> b = p) -> name_of t p name = Some a ->
  exists t', __inode_unlink t a p name = Some t' /\
    forall p' n', name_of t' p' n' = if decide ((p', n') = (p, name)) then None else name_of t p' n'.
Proof.
  intros Hwf Hu Hp Ha Hpi Hino Hname. destruct (held_inode Hwf a Ha) as (i & Hi & _).
  apply (name_of_Some _ _ _ _ _ _ Hwf Hu) in Hname as (d & Hd).
  assert (__dentry_search_for_inode t a (i_ino pi) name = Some d) as Es.
  { unfold __dentry_search_for_inode. rewrite Hi. cbn [mbind option_bind].
    assert (forall x, dentry_is t (i_ino pi) name x = true -> x = d) as Huniq.
    { intros x. unfold dentry_is. destruct (it_dentries t !! x) as [e|] eqn:Ex; [|done].
      destruct (it_inodes t !! d_parent e) as [q|] eqn:Eq; [|done].
      intros [E1%Z.eqb_eq E2%String.eqb_eq]%andb_true_iff. apply (Hu x d _ _ Ex Hd); [|done]. by eapply Hino. }
    destruct (List.find _ _) as [x|] eqn:E; [apply find_elem in E as [_ E]; by rewrite (Huniq x E)|].
    apply (find_none_elem _ _ d) in E.
    - unfold dentry_is in E. rewrite Hd in E. simpl in E. rewrite Hpi, Z.eqb_refl, String.eqb_refl in E. done.
    - destruct (dn_up _ _ _ _ _ (wf_dents _ _ _ Hwf) _ _ Hd) as (_ & i' & Hi' & ?). simpl in Hi'. by simplify_eq. }
  unfold __inode_unlink. rewrite Hpi, Hi. cbn [mbind option_bind]. rewrite Es.
  destruct (dentry_unset_held H t d _ Hwf Hd Hp) as (t' & -> & Hwf' & Hds & _). exists t'. split; [done|].
  assert (names_unique (it_dentries t')) as Hu' by (rewrite Hds; eapply names_unique_subseteq; [apply delete_subseteq|done]).
  intros p' n'. apply option_eq. intros b. rewrite (name_of_Some _ _ _ _ _ _ Hwf' Hu'), Hds.
  setoid_rewrite lookup_delete_Some. case_decide as E; [injection E as -> ->|rewrite (name_of_Some _ _ _ _ _ _ Hwf Hu)]; split.
  - intros (x & Hne & Hx). destruct Hne. by apply (Hu d x _ _ Hd Hx).
  - done.
  - intros (x & _ & Hx). eauto.
  - intros (x & Hx). exists x. split; [|done]. intros <-. congruence.
Qed.
