(* ===== verification/InodeTableProps.v ===== *)
(** * Properties of the inode table

    The table as a system: callers hold references, a multiset of inodes, and
    make calls on what they hold; a step is one critical section.  The theorems
    say that every call succeeds, which means that no freed memory is touched
    and no assertion fails, and what the names and the LRU list are
    afterwards. *)

From stdpp Require Import gmap gmultiset base list numbers strings relations.
From S2P Require Import Prelude InodeTable InodeTableFacts InodeTableOps.
Open Scope Z_scope.

(** ** The system *)

Inductive icall :=
  | c_new (newi : Z) (xl_count : nat)
  | c_ref (a : Z)
  | c_unref (a : Z)
  | c_search (ino : Z) (name : option string)
  | c_grep (parent : Z) (name : string)
  | c_get (ino gen : Z)
  | c_link (a : Z) (parent : option (Z * string)) (st : istat) (newd : option Z)
  | c_lookup (a : Z)
  | c_forget (a nlookup : Z)
  | c_unlink (a parent : Z) (name : string)
  | c_rename (srcdir : Z) (srcname : string) (dstdir : Z) (dstname : string) (a : Z) (st : istat)
      (newd : option Z)
  | c_parent (a par : Z) (name : option string)
  | c_prune
  | c_ctx_put (a key value1 value2 : Z)
  | c_ctx_del (a key : Z).

Abbreviation istate := (itable * gmultiset Z)%type.

(** A call that returns an inode gives its reference to the caller. *)
Definition gain (r : option (itable * option Z)) (H : gmultiset Z) : option istate :=
  '(t, found) ← r; Some (t, match found with Some a => H ⊎ {[+ a +]} | None => H end).

Definition keep (r : option itable) (H : gmultiset Z) : option istate := t ← r; Some (t, H).

Definition exec (c : icall) (s : istate) : option istate :=
  let '(t, H) := s in
  match c with
  | c_new a n => gain (inode_new t (Some a) n) H
  | c_ref a => t' ← inode_ref t a; Some (t', H ⊎ {[+ a +]})
  | c_unref a => t' ← __inode_unref t a; Some (t', H ∖ {[+ a +]})
  | c_search ino name => gain (inode_search t ino name) H
  | c_grep p name => gain (inode_grep t p name) H
  | c_get ino gen => gain (inode_get t ino gen) H
  | c_link a parent st newd => '(t', li) ← inode_link_locked t a parent st newd; Some (t', H ⊎ {[+ li +]})
  | c_lookup a => keep (inode_lookup t a) H
  | c_forget a n => keep (__inode_forget t a n) H
  | c_unlink a p name => keep (__inode_unlink t a p name) H
  | c_rename sd sn dd dn a st newd => keep (inode_rename_locked t sd sn dd dn a st newd) H
  | c_parent a par name => gain (inode_parent t a par name) H
  | c_prune => keep (pruned t) H
  | c_ctx_put a key v1 v2 => '(t', _) ← inode_ctx_put2 t (Some a) key v1 v2; Some (t', H)
  | c_ctx_del a key => '(t', _, _) ← inode_ctx_del2 t (Some a) key; Some (t', H)
  end.

(** The calls that may be made: on inodes the caller holds a reference to, at
    addresses that are free, with the counters in range. *)
Definition legal (c : icall) (s : istate) : Prop :=
  let '(t, H) := s in
  roomy t /\
  match c with
  | c_new a _ => it_inodes t !! a = None /\ inode_room t
  | c_ref a | c_unref a | c_lookup a | c_ctx_put a _ _ _ | c_ctx_del a _ => a ∈ H
  | c_search _ _ | c_get _ _ | c_prune => True
  | c_grep p _ => p ∈ H
  | c_link a parent st newd => linkable H t a st /\ parent_ok H t parent newd
  | c_forget a n => a ∈ H /\ match it_inodes t !! a with Some i => 0 <= n <= i_nlookup i | None => False end
  | c_unlink a p _ => a ∈ H /\ p ∈ H
  | c_rename sd _ dd dn a st newd => sd ∈ H /\ linkable H t a st /\ parent_ok H t (Some (dd, dn)) newd
  | c_parent a _ _ => a ∈ H
  end.

#[export] Instance legal_dec c s : Decision (legal c s).
Proof.
  destruct s as [t H]. destruct c; simpl; try apply _; unfold inode_room; try apply _.
  - destruct (it_inodes t !! a); apply _.
  - destruct newd; apply _.
Defined.

Definition good (s : istate) : Prop := wf ∅ (snd s) (fst s) /\ names_unique (it_dentries (fst s)).

(** ** Calls that find an inode *)

Lemma good_ref t H a i :
  good (t, H) -> it_inodes t !! a = Some i -> a ∉ it_purge t -> i_ref i + 1 < 2 ^ 32 ->
  exists t', __inode_ref t a = Some t' /\ good (t', H ⊎ {[+ a +]}).
Proof.
  intros [Hwf Hu] Hi Hp Hr. destruct (inode_ref_ok ∅ H t a i) as (t' & Ht' & Hwf' & Hf); [done..|].
  exists t'. split; [done|]. split; [done|]. simpl in *. by rewrite (fr_dentries _ _ _ Hf).
Qed.

Lemma gain_found t H found :
  good (t, H) -> roomy t ->
  (forall a, found = Some a -> exists i, it_inodes t !! a = Some i /\ (a ∉ it_purge t)) ->
  exists s', gain (ref_found t found) H = Some s' /\ good s'.
Proof.
  intros Hg Hroom Hf. destruct found as [a|]; simpl; [|by eauto].
  destruct (Hf a eq_refl) as (i & Hi & Hp).
  destruct (good_ref t H a i) as (t' & -> & Hg'); [done..|specialize (Hroom _ _ Hi); lia|]. simpl. eauto.
Qed.

Lemma bucket_inode H t a h :
  wf ∅ H t -> a ∈ bucket (it_inode_hash t) h -> exists i, it_inodes t !! a = Some i /\ (a ∉ it_purge t).
Proof. intros Hwf Ha. destruct (hs_in _ _ _ _ _ (wf_hash _ _ _ Hwf) _ _ Ha) as (i & ? & _ & _ & ?). eauto. Qed.

Lemma attic_inode H t a :
  wf ∅ H t -> a ∈ it_attic t -> exists i, it_inodes t !! a = Some i /\ (a ∉ it_purge t).
Proof.
  intros Hwf Ha. pose proof (hs_attic_purge _ _ _ _ _ (wf_hash _ _ _ Hwf) a Ha).
  apply (hs_attic _ _ _ _ _ (wf_hash _ _ _ Hwf)) in Ha as (i & ? & _). eauto.
Qed.

Lemma found_dentry_inode H t d a :
  wf ∅ H t -> found_inode t d = Some a -> exists i, it_inodes t !! a = Some i /\ (a ∉ it_purge t).
Proof.
  intros Hwf. destruct d as [d|]; simpl; [|done]. destruct (it_dentries t !! d) as [de|] eqn:Hd; [|done].
  intros [= <-]. destruct (dentry_inode _ _ _ _ Hwf Hd) as (i & ? & _ & ?). eauto.
Qed.

Lemma search_inode H t ino name a :
  wf ∅ H t ->
  match name with None => __inode_search t ino | Some n => found_inode t (__dentry_search t ino n) end = Some a ->
  exists i, it_inodes t !! a = Some i /\ (a ∉ it_purge t).
Proof.
  intros Hwf. destruct name as [n|]; [by apply found_dentry_inode with H|].
  intros (Ha & _)%inode_search_Some. by eapply bucket_inode.
Qed.

Lemma get_inode H t ino gen a :
  wf ∅ H t -> __inode_get t ino gen = Some a -> exists i, it_inodes t !! a = Some i /\ (a ∉ it_purge t).
Proof.
  intros Hwf. unfold __inode_get.
  assert (forall b, __inode_search_attic t ino gen = Some b -> exists i, it_inodes t !! b = Some i /\ (b ∉ it_purge t))
    as Hat by (intros b [Hb _]%find_elem; by eapply attic_inode).
  pose proof (search_inode H t ino None) as Hs. simpl in Hs.
  destruct (ino =? 1); [intros [= <-]; destruct (root_inode Hwf) as (r & ? & _ & ?); eauto|].
  destruct (gen =? 0); [by apply Hs|]. destruct (__inode_search t ino) as [b|]; [|by apply Hat].
  destruct (it_inodes t !! b) as [i|] eqn:Hi; [|done].
  destruct (i_generation i =? gen); [|by apply Hat]. by intros [= <-]; apply Hs.
Qed.

Lemma parent_found H t d a :
  wf ∅ H t -> (d ← d; d_parent <$> it_dentries t !! d) = Some a ->
  exists i, it_inodes t !! a = Some i /\ (a ∉ it_purge t).
Proof.
  intros Hwf. destruct d as [d|]; simpl; [|done]. destruct (it_dentries t !! d) as [de|] eqn:Hd; [|done].
  intros [= <-]. destruct (parent_inode Hwf _ _ Hd) as (p & ? & _ & ?). eauto.
Qed.

(** A call that only changes counters of an inode. *)
Lemma good_upd t H a (f : inode -> inode) :
  good (t, H) ->
  (forall i, i_ino (f i) = i_ino i /\ i_ref (f i) = i_ref i /\ i_in_attic (f i) = i_in_attic i /\
    i_dentries (f i) = i_dentries i) ->
  (forall i, it_inodes t !! a = Some i -> 0 <= i_nlookup (f i)) -> good (upd_inode a f t, H).
Proof.
  intros [[Hl Hs Hr Hd Hn Hh] Hu] Hf Hlk. simpl in *. split; [|done]. simpl. split; simpl.
  - eapply lists_ok_agree; [|done]. apply agree_alter. intros. apply Hf.
  - by destruct Hs.
  - destruct Hr as [Hrg Hc (r & Hrt & Hr0) H1 Hh'].
    assert (agree (fun i => (i_ino i, i_ref i)) (it_inodes t) (alter f a (it_inodes t))) as Ha.
    { apply agree_alter. intros i _. destruct (Hf i) as (-> & -> & _). done. }
    split.
    + intros b i [(<- & i0 & Hj & ->)|(Hne & Hj)]%lookup_alter_Some; [|eauto].
      split; [destruct (Hf i0) as (_ & -> & _); by eapply Hrg|by apply Hlk].
    + intros b i Hi Hb. old_inode Ha Hi. rewrite <-(Hc _ _ Hio Hb). congruence.
    + old_inode (agree_sym _ _ _ Ha) Hrt. exists io. split; [done|congruence].
    + intros b i Hi. old_inode Ha Hi. rewrite <-(H1 _ _ Hio). split; congruence.
    + intros b Hb. rewrite lookup_alter_is_Some. auto.
  - eapply dents_ok_agree; [|done]. apply agree_alter. intros. apply Hf.
  - done.
  - eapply hash_ok_agree; [|done]. apply agree_alter. intros i _. destruct (Hf i) as (-> & _ & -> & _). done.
Qed.

(** ** Every legal call succeeds *)

Lemma good_new t H a n :
  good (t, H) -> it_inodes t !! a = None -> inode_room t ->
  exists t', inode_new t (Some a) n = Some (t', Some a) /\ good (t', H ⊎ {[+ a +]}).
Proof.
  intros [Hwf Hu] Ha Hroom. simpl in *. pose proof (inode_create_ok H t a n Hwf Ha Hroom) as Hwf1.
  destruct (good_ref (fst (__inode_create t (Some a) n)) H a (new_inode n)) as (t' & Ht' & Hg').
  - by split.
  - simpl. by rewrite lookup_insert_eq.
  - simpl. intros Hp. assert (is_Some (it_inodes t !! a)) as [? ?]; [|congruence].
    apply (lk_dom _ _ _ _ (wf_lists _ _ _ Hwf)). set_solver.
  - simpl. lia.
  - exists t'. split; [|done]. unfold inode_new. simpl in *. by rewrite Ht'.
Qed.

Lemma good_unref t H a :
  good (t, H) -> a ∈ H -> exists t', __inode_unref t a = Some t' /\ good (t', H ∖ {[+ a +]}).
Proof.
  intros [Hwf Hu] Ha. simpl in *.
  rewrite (gmultiset_disj_union_difference' a H Ha), (comm (⊎)) in Hwf.
  destruct (inode_unref_ok _ _ _ _ Hwf) as (t' & Ht' & Hwf' & Hsh). exists t'. split; [done|].
  split; [done|]. eapply names_unique_subseteq; [apply Hsh|done].
Qed.

Lemma good_link t H a parent st newd :
  good (t, H) -> roomy t -> linkable H t a st -> parent_ok H t parent newd ->
  exists t' li, inode_link_locked t a parent st newd = Some (t', li) /\ good (t', H ⊎ {[+ li +]}).
Proof.
  intros [Hwf Hu] Hroom Hlk Hpar. simpl in *. unfold inode_link_locked.
  destruct (inode_link_ok H t a parent st newd) as (t1 & li & j & -> & Hwf1 & Hu1 & _ & _ & Hj & Hjp & Hjr & _); [done..|].
  cbn [mbind option_bind]. destruct (good_ref t1 H li j) as (t' & -> & Hg'); [done..|]. simpl. eauto.
Qed.

Lemma good_rename t H sd sn dd dn a st newd :
  good (t, H) -> roomy t -> sd ∈ H -> linkable H t a st -> parent_ok H t (Some (dd, dn)) newd ->
  exists t', inode_rename_locked t sd sn dd dn a st newd = Some t' /\ good (t', H).
Proof.
  intros [Hwf Hu] Hroom Hsd Hlk Hpar. simpl in *. unfold inode_rename_locked.
  destruct (inode_link_ok H t a (Some (dd, dn)) st newd) as (t1 & li & j & -> & Hwf1 & Hu1 & _); [done..|].
  cbn [mbind option_bind]. destruct (inode_unlink_ok H t1 a sd sn) as (t' & -> & ? & ?); [done..|apply Hlk|done|].
  exists t'. by split.
Qed.

Lemma good_prune t H : good (t, H) -> exists t', pruned t = Some t' /\ good (t', H).
Proof.
  intros [Hwf Hu]. destruct (pruned_ok H t Hwf) as (t' & -> & Hwf' & _ & Hpr). exists t'. split; [done|].
  split; [done|]. eapply names_unique_subseteq; [apply Hpr|done].
Qed.

Lemma good_ctx t H a c : good (t, H) -> good (upd_inode a (i_set_ctx c) t, H).
Proof.
  intros Hg. apply good_upd; [done|done|]. intros i Hi.
  by apply (rf_range _ _ _ _ (wf_refs _ _ _ (proj1 Hg)) a i).
Qed.

Lemma exec_ok c s : good s -> legal c s -> exists s', exec c s = Some s' /\ good s'.
Proof.
  destruct s as [t H]. intros Hg [Hroom Hleg]. pose proof (proj1 Hg) as Hwf. simpl in Hwf.
  destruct c; cbn [exec]; cbn [legal] in Hleg.
  - destruct Hleg as [Ha Hr]. destruct (good_new t H newi xl_count) as (t' & -> & ?); [done..|]. simpl. eauto.
  - destruct (held_inode Hwf a Hleg) as (i & Hi & _ & Hp).
    destruct (good_ref t H a i) as (t' & Ht' & ?); [done..|specialize (Hroom _ _ Hi); lia|].
    unfold inode_ref. rewrite Ht'. simpl. eauto.
  - destruct (good_unref t H a) as (t' & -> & ?); [done..|]. simpl. eauto.
  - apply gain_found; [done..|]. intros a. by eapply search_inode.
  - apply gain_found; [done..|]. intros a. by apply found_dentry_inode with H.
  - apply gain_found; [done..|]. intros a. by apply get_inode with H.
  - destruct Hleg. destruct (good_link t H a parent st newd) as (t' & li & -> & ?); [done..|]. simpl. eauto.
  - destruct (held_inode Hwf a Hleg) as (i & Hi & _). unfold keep, inode_lookup. rewrite Hi. simpl.
    eexists. split; [done|]. apply good_upd; [done|done|]. intros. simpl. apply Z.mod_pos_bound. lia.
  - destruct Hleg as (Ha & Hn). destruct (it_inodes t !! a) as [i|] eqn:Hi; [|done].
    unfold keep, __inode_forget. rewrite Hi. cbn [mbind option_bind].
    destruct (Z.ltb_spec (i_nlookup i) nlookup); [lia|]. simpl. eexists. split; [done|].
    apply good_upd; [done|done|]. intros. simpl. destruct (nlookup =? 0); [lia|]. apply Z.mod_pos_bound. lia.
  - destruct Hleg. destruct (inode_unlink_ok H t a parent name) as (t' & Ht' & ? & ?); [done|apply Hg|done..|].
    unfold keep. rewrite Ht'. simpl. eexists. split; [done|]. by split.
  - destruct Hleg as (? & ? & ?). destruct (good_rename t H srcdir srcname dstdir dstname a st newd) as (t' & Ht' & ?);
      [done..|]. unfold keep. rewrite Ht'. simpl. eauto.
  - apply gain_found; [done..|]. intros b. by apply parent_found with H.
  - destruct (good_prune t H Hg) as (t' & Ht' & ?). unfold keep. rewrite Ht'. simpl. eauto.
  - unfold inode_ctx_put2. destruct (held_inode Hwf a Hleg) as (i & Hi & _).
    destruct (key =? 0); [simpl; eauto|]. rewrite Hi. cbn [mbind option_bind]. destruct (__inode_ctx_put2 _ _ _ _) as [c r].
    simpl. eexists. split; [done|]. by apply good_ctx.
  - unfold inode_ctx_del2. destruct (held_inode Hwf a Hleg) as (i & Hi & _).
    destruct (key =? 0); [simpl; eauto|]. rewrite Hi. cbn [mbind option_bind].
    destruct (__inode_ctx_del2 _ _) as [c [v|]]; simpl; eexists; (split; [done|]); [by apply good_ctx|done].
Qed.

(** ** Runs *)

Definition istep (s s' : istate) : Prop := exists c, legal c s /\ exec c s = Some s'.

(** A table that has just been made, and whose root the caller has taken. *)
Definition istart (lru_limit root : Z) (xl_count : nat) : option istate :=
  t ← inode_table_new lru_limit root xl_count; gain (inode_get t 1 0) ∅.

Definition root_inode0 (xl_count : nat) : inode :=
  mk_inode 1 0 16877 0 1 false [] (replicate xl_count (mk_ictx 0 0 0)).

Definition table0 (lru_limit root : Z) (xl_count : nat) : itable :=
  mk_itable 14057 root (u32 lru_limit) (bucket_add 1 root (bucket_del 1 root ∅)) ∅ [] 0 [root] 1 [] 0 [] 0
    {[root := root_inode0 xl_count]} ∅.

Lemma bucket_empty h : bucket ∅ h = [].
Proof. unfold bucket. by rewrite lookup_empty. Qed.

Lemma istart_eq lru_limit root xl_count :
  istart lru_limit root xl_count = Some (table0 lru_limit root xl_count, ∅ ⊎ {[+ root +]}).
Proof.
  unfold istart, inode_table_new, __inode_table_init_root, __inode_link, link_hash.
  simpl. rewrite lookup_insert_eq. cbn [mbind option_bind]. unfold __is_inode_hashed. simpl.
  rewrite lookup_insert_eq, bucket_empty, bool_decide_false by apply not_elem_of_nil.
  unfold __inode_search. simpl. rewrite bucket_empty. simpl. unfold __inode_hash. simpl.
  rewrite lookup_alter_eq, lookup_insert_eq. simpl. unfold inode_get. simpl. unfold __inode_ref. simpl.
  rewrite lookup_alter_eq, lookup_insert_eq. simpl. do 2 f_equal.
  apply itable_ext; simpl; try done.
  - by rewrite list_del_head by apply not_elem_of_nil.
  - apply map_eq. intros a. destruct (decide (root = a)) as [<-|Hne].
    + by rewrite !lookup_alter_eq, lookup_insert_eq, lookup_singleton_eq.
    + by rewrite !lookup_alter_ne, lookup_insert_ne, lookup_singleton_ne by done.
Qed.

Lemma istart_good lru_limit root xl_count : good (table0 lru_limit root xl_count, ∅ ⊎ {[+ root +]}).
Proof.
  assert (forall a i, ({[root := root_inode0 xl_count]} : gmap Z inode) !! a = Some i -> a = root /\ i = root_inode0 xl_count)
    as Hone by (intros a i [<- <-]%lookup_singleton_Some; done).
  split; [|intros d1 d2 e1 e2 H; simpl in H; by apply lookup_empty_Some in H].
  split; simpl.
  - split; simpl; [|..|done].
    + apply NoDup_singleton.
    + intros a. rewrite list_elem_of_singleton, lookup_singleton_is_Some. done.
    + intros a i [-> ->]%Hone. rewrite list_elem_of_singleton. done.
  - split; try done. simpl. apply Z.mod_pos_bound. lia.
  - split.
    + by intros a i [-> ->]%Hone.
    + by intros a i [-> ->]%Hone.
    + exists (root_inode0 xl_count). by rewrite lookup_singleton_eq.
    + by intros a i [-> ->]%Hone.
    + intros a Ha. assert (a = root) as -> by multiset_solver. rewrite lookup_singleton_eq. eauto.
  - split; [set_solver| | | |].
    + intros d de Hd. by apply lookup_empty_Some in Hd.
    + intros a i [-> ->]%Hone. split; [constructor|set_solver].
    + intros a i Ha. by apply elem_of_nil in Ha.
    + by intros r [_ ->]%Hone.
  - intros d h. rewrite bucket_empty. split; [by intros ?%elem_of_nil|]. by intros (de & H%lookup_empty_Some & _).
  - assert (forall a h, a ∈ bucket (bucket_add 1 root (bucket_del 1 root ∅)) h -> a = root /\ h = 1) as Hb.
    { intros a h [?|[_ Ha]%elem_bucket_del]%elem_bucket_add; [done|]. rewrite bucket_empty in Ha. by apply elem_of_nil in Ha. }
    split.
    + intros a h [-> ->]%Hb. exists (root_inode0 xl_count). rewrite lookup_singleton_eq. split_and!; try done.
      apply not_elem_of_nil.
    + by intros a b h i j [-> _]%Hb [-> _]%Hb.
    + intros a. split; [by intros ?%elem_of_nil|]. by intros (i & [-> ->]%Hone & ?).
    + intros a Ha. by apply elem_of_nil in Ha.
    + constructor.
Qed.

(** A sequence of calls, each of them legal. *)
Fixpoint run_calls (cs : list icall) (s : istate) : option istate :=
  match cs with
  | [] => Some s
  | c :: cs' => if decide (legal c s) then s' ← exec c s; run_calls cs' s' else None
  end.

Lemma run_calls_rtc cs : forall s s', run_calls cs s = Some s' -> rtc istep s s'.
Proof.
  induction cs as [|c cs IH]; simpl; intros s s' Hr; [injection Hr as ->; constructor|].
  case_decide as Hl; [|done]. destruct (exec c s) as [s1|] eqn:E; [|done]. simpl in Hr.
  eapply rtc_l; [by exists c|]. by apply IH.
Qed.

Lemma rtc_good s s' : good s -> rtc istep s s' -> good s'.
Proof.
  intros Hg. induction 1 as [|s1 s2 s3 (c & Hl & He) _ IH]; [done|]. apply IH.
  destruct (exec_ok c s1 Hg Hl) as (s' & Hs' & Hg'). congruence.
Qed.

(** *** A small tree: the root, a directory [a] in it and a file [b] in that *)

Definition demo_root : Z := 4096.

Definition demo_calls : list icall :=
  [c_new 8192 2; c_link 8192 (Some (demo_root, "a")) (mk_istat 2 16877 7) (Some 100);
   c_lookup 8192; c_new 12288 2; c_link 12288 (Some (8192, "b")) (mk_istat 3 33188 7) (Some 101);
   c_unref 12288; c_lookup 12288].

Definition demo_start : istate := (table0 2 demo_root 2, ∅ ⊎ {[+ demo_root +]}).
Definition demo : istate := default demo_start (run_calls demo_calls demo_start).

Lemma demo_run : run_calls demo_calls demo_start = Some demo.
Proof. unfold demo. destruct (run_calls demo_calls demo_start) eqn:E; [done|]. by vm_compute in E. Qed.

Lemma demo_good : good demo.
Proof. eapply rtc_good; [apply istart_good|]. eapply run_calls_rtc, demo_run. Qed.

(** The same tree with one more inode, not linked yet. *)
Definition demo_new : istate := default demo (exec (c_new 16384 2) demo).

Lemma demo_new_good : good demo_new.
Proof.
  eapply rtc_good; [apply demo_good|]. apply (run_calls_rtc [c_new 16384 2]).
  unfold demo_new. simpl run_calls. by vm_compute.
Qed.

(** ** Theorems *)

(** Decides a closed proposition by computing its decision procedure. *)
Ltac compute_decide := match goal with |- ?P => refine (bool_decide_unpack P _); vm_compute; exact I end.

(** C10: The inode table is safe.  Take a table as [inode_table_new] makes it, with
    its root referenced, and any sequence of calls, each on inodes that the
    callers hold references to, at any free addresses, and interleaved in any
    order.  Then every further such call succeeds: it does not touch a freed
    inode or dentry, no assertion fails, and its recursion and loops end.  Every
    inode that is held is allocated and in the active list, a reference count is
    the number of references held and of dentries below, the sizes are those of
    the lists, and a directory has one entry per name. *)
Theorem inode_table_safe (lru_limit root : Z) (xl_count : nat) (s0 s : istate) :
  istart lru_limit root xl_count = Some s0 -> rtc istep s0 s ->
  (forall c, legal c s -> is_Some (exec c s)) /\
  (forall a, a ∈ snd s -> exists i, it_inodes (fst s) !! a = Some i /\ a ∈ it_active (fst s)) /\
  (forall a i, it_inodes (fst s) !! a = Some i -> a <> it_root (fst s) ->
    i_ref i = Z.of_nat (multiplicity a (snd s) + children (it_dentries (fst s)) a)) /\
  sizes_ok (fst s) /\ names_unique (it_dentries (fst s)).
Proof.
  rewrite istart_eq. intros [= <-] Hrun. pose proof (rtc_good _ _ (istart_good _ _ _) Hrun) as Hg.
  pose proof Hg as [Hwf Hu]. split_and!.
  - intros c Hl. destruct (exec_ok c s Hg Hl) as (s' & -> & _). eauto.
  - intros a Ha. destruct (held_inode Hwf a Ha) as (i & Hi & Hr & _). exists i. split; [done|].
    eapply (referenced_listed Hwf); [done|lia].
  - apply Hwf.
  - apply Hwf.
  - done.
Qed.

Lemma inode_table_safe_witness :
  is_Some (exec (c_unref 8192) demo) /\ is_Some (exec (c_rename demo_root "a" 8192 "c" 12288 (mk_istat 3 0 7) (Some 102)) demo).
Proof.
  assert (rtc istep demo_start demo) as Hrun by (eapply run_calls_rtc, demo_run).
  destruct (inode_table_safe 2 demo_root 2 demo_start demo (istart_eq 2 demo_root 2) Hrun) as (Hall & _).
  split; apply Hall; by compute_decide.
Defined.

(** Pruning.  From a consistent table [inode_table_prune] ends; afterwards the
    LRU list is within its limit and the purge list is empty.  Exactly the inodes
    whose [forget] callbacks it has called are gone, and an inode with a
    reference is never among them. *)
Theorem inode_prune_bounds (t : itable) (H : gmultiset Z) :
  good (t, H) ->
  exists t' ret calls, inode_table_prune t = Some (t', ret, calls) /\ good (t', H) /\
    (it_lru_limit t <> 0 -> Z.of_nat (length (it_lru t')) <= it_lru_limit t) /\ it_purge t' = [] /\
    (forall a, a ∈ map fst calls <-> is_Some (it_inodes t !! a) /\ it_inodes t' !! a = None) /\
    (forall a, a ∈ H -> a ∉ map fst calls) /\
    (forall d de, it_dentries t' !! d = Some de -> d_parent de ∉ map fst calls /\ d_inode de ∉ map fst calls).
Proof.
  intros [Hwf Hu]. simpl in *.
  destruct (inode_table_prune_ok H t Hwf) as (t' & r & calls & -> & Hwf' & Hp & Hlim & t1 & Hsh & Hwf1 & -> & Ecalls).
  exists (purged t1), r, calls. rewrite Ecalls. pose proof (shrinks_purged _ _ _ Hwf1 Hsh) as Hpr. split_and!; try done.
  - split; [done|]. eapply names_unique_subseteq; [apply Hpr|done].
  - intros Hne. destruct Hlim as [?|Hlim]; [done|]. by rewrite (sz_lru _ (wf_sizes _ _ _ Hwf')) in Hlim.
  - intros a. rewrite <-(sh_dom _ _ _ Hsh). simpl. split.
    + intros Ha. split; [apply (lk_dom _ _ _ _ (wf_lists _ _ _ Hwf1)); set_solver|].
      apply map_lookup_filter_None. right. intros i _. simpl. tauto.
    + intros [[i Hi] Hn]. destruct (decide (a ∈ it_purge t1)) as [|Hnp]; [done|].
      assert (without (it_purge t1) (it_inodes t1) !! a = Some i) by by apply lookup_without. congruence.
  - intros a Ha. by destruct (held_inode Hwf1 a Ha) as (i & _ & _ & ?).
  - intros d de Hd. simpl in Hd. split.
    + by destruct (parent_inode Hwf1 d de Hd) as (p & _ & _ & ?).
    + by destruct (dentry_inode _ _ _ _ Hwf1 Hd) as (i & _ & _ & ?).
Qed.

Lemma inode_prune_bounds_witness :
  exists t' ret calls, inode_table_prune (fst demo) = Some (t', ret, calls) /\
    forall a, a ∈ snd demo -> a ∉ map fst calls.
Proof.
  destruct (inode_prune_bounds (fst demo) (snd demo)) as (t' & ret & calls & ? & _ & _ & _ & _ & ? & _).
  - rewrite <-surjective_pairing. apply demo_good.
  - exists t', ret, calls. split; assumption.
Defined.

(** What pruning leaves of the inode a name stood for. *)
Definition still (t : itable) (found : option Z) : option Z :=
  a ← found; match it_inodes t !! a with Some _ => Some a | None => None end.

Lemma prunes_names H H' t t' p n :
  wf ∅ H t -> names_unique (it_dentries t) -> wf ∅ H' t' -> prunes t t' ->
  name_of t' p n = still t' (name_of t p n).
Proof.
  intros Hwf Hu Hwf' Hpr. apply option_eq. intros b.
  rewrite (name_of_Some _ _ _ _ _ _ Hwf'); [|eapply names_unique_subseteq; [apply Hpr|done]].
  unfold still. rewrite bind_Some. setoid_rewrite (name_of_Some _ _ _ _ _ _ Hwf Hu). split.
  - intros (d & Hd). exists b. split; [exists d; by eapply lookup_weaken; [|apply Hpr]|].
    destruct (dentry_inode _ _ _ _ Hwf' Hd) as (i & Hi & _). simpl in Hi. by rewrite Hi.
  - intros (x & (d & Hd) & Hx). destruct (it_inodes t' !! x) as [i|] eqn:E; simplify_eq. exists d.
    by apply (pr_kept _ _ Hpr); [|exists i].
Qed.

Lemma prunes_search H H' t t' ino a :
  wf ∅ H t -> wf ∅ H' t' -> prunes t t' -> is_Some (it_inodes t' !! a) ->
  __inode_search t ino = Some a -> __inode_search t' ino = Some a.
Proof.
  intros Hwf Hwf' Hpr [i' Hi'] (Hb & i & Hi & <-)%inode_search_Some.
  destruct (pr_inodes _ _ Hpr _ _ Hi') as (i0 & ? & Ei). simplify_eq. destruct (pr_const _ _ Hpr) as [_ Ehs].
  replace (i_ino i) with (i_ino i') by by rewrite Ei.
  eapply inode_search_hashed; [done..|]. apply (pr_hash _ _ Hpr). split; [|done]. by rewrite Ehs, Ei.
Qed.

(** The part of [inode_link] that runs under the lock of the table. *)
Lemma inode_link_locked_ok (t : itable) (H : gmultiset Z) (a p d : Z) (name : string) (st : istat) :
  good (t, H) -> roomy t -> linkable H t a st -> p ∈ H -> it_dentries t !! d = None ->
  exists t' li, inode_link_locked t a (Some (p, name)) st (Some d) = Some (t', li) /\
    good (t', H ⊎ {[+ li +]}) /\
    (forall p' n', name_of t' p' n' = if decide ((p', n') = (p, name)) then Some li else name_of t p' n') /\
    if __is_inode_hashed t a then li = a else __inode_search t' (st_ino st) = Some li.
Proof.
  intros [Hwf Hu] Hroom Hlk Hp Hd. simpl in *. unfold inode_link_locked.
  destruct (inode_link_ok H t a (Some (p, name)) st (Some d))
    as (t1 & li & j & -> & Hwf1 & Hu1 & Er & Hn & Hj & Hjp & Hjr & Hs); [done..|].
  cbn [mbind option_bind]. destruct (inode_ref_ok ∅ H t1 li j) as (t' & -> & Hwf' & Hf); [done..|].
  cbn [mbind option_bind]. exists t', li. split_and!; [done| | |].
  - split; [done|]. simpl. by rewrite (fr_dentries _ _ _ Hf).
  - intros p' n'. rewrite (name_of_dentries _ _ _ _ _ _ _ _ Hwf1 Hwf' Hu1 (fr_dentries _ _ _ Hf)), Hn.
    repeat case_decide; simplify_eq; done.
  - destruct (__is_inode_hashed t a); [done|]. rewrite <-Hs. unfold __inode_search.
    destruct (fr_const _ _ _ Hf) as (_ & -> & _). rewrite (fr_inode_hash _ _ _ Hf), (fr_inodes _ _ _ Hf).
    apply find_ext_elem. intros b _. pose proof (agree_alter i_ino inc_ref li (it_inodes t1) (fun _ _ => eq_refl) b) as E.
    destruct (alter inc_ref li (it_inodes t1) !! b), (it_inodes t1 !! b); simplify_eq/=; congruence.
Qed.

(** C24: Linking.  [inode_link] of an inode the caller holds, under a name in a
    directory the caller holds, in a table whose counts have room and with a
    dentry to be had, succeeds and gives the caller one more reference, on the
    linked inode.  After it, the pruning at its end included, the name stands for
    the linked inode; every other name stands for what it stood for before,
    except that the names of the inodes which the pruning has taken away are
    gone with them, and no inode of which the caller holds a reference is.  The
    linked inode is the one given, if it was in the hash or in the attic before;
    else it is the one that the table now finds by its number, which may be an
    older inode of the same file. *)
Theorem inode_link_names (t : itable) (H : gmultiset Z) (a p d : Z) (name : string) (st : istat) :
  good (t, H) -> roomy t -> linkable H t a st -> p ∈ H -> it_dentries t !! d = None ->
  exists t' li, inode_link t a (Some (p, name)) st (Some d) = Some (t', li) /\
    good (t', H ⊎ {[+ li +]}) /\ name_of t' p name = Some li /\
    (forall p' n', (p', n') <> (p, name) -> name_of t' p' n' = still t' (name_of t p' n')) /\
    (forall b, b ∈ H -> is_Some (it_inodes t' !! b)) /\
    if __is_inode_hashed t a then li = a else __inode_search t' (st_ino st) = Some li.
Proof.
  intros Hg Hroom Hlk Hp Hd. unfold inode_link.
  destruct (inode_link_locked_ok t H a p d name st) as (t1 & li & -> & [Hwf1 Hu1] & Hn & Hli); [done..|].
  simpl in Hwf1, Hu1. destruct (pruned_ok _ _ Hwf1) as (t' & Ht' & Hwf' & _ & Hpr).
  cbn [mbind option_bind]. rewrite Ht'. cbn [mbind option_bind]. exists t', li.
  assert (forall b, b ∈ H ⊎ {[+ li +]} -> is_Some (it_inodes t' !! b)) as Hheld.
  { intros b Hb. destruct (held_inode Hwf' b Hb) as (i & Hi & _). by exists i. }
  assert (is_Some (it_inodes t' !! li)) as Hl by (apply Hheld; multiset_solver). split_and!; [done| | | | |].
  - split; [done|]. simpl. eapply names_unique_subseteq; [apply Hpr|done].
  - rewrite (prunes_names _ _ _ _ _ _ Hwf1 Hu1 Hwf' Hpr), Hn, decide_True by done.
    destruct Hl as [i Hi]. simpl. by rewrite Hi.
  - intros p' n' Hne. by rewrite (prunes_names _ _ _ _ _ _ Hwf1 Hu1 Hwf' Hpr), Hn, decide_False by done.
  - intros b Hb. apply Hheld. multiset_solver.
  - destruct (__is_inode_hashed t a); [done|]. apply (prunes_search _ _ t1 t' _ _ Hwf1 Hwf' Hpr Hl Hli).
Qed.

(** The file [c] is new: its inode is in no hash before, and the table finds it
    by its number 4 afterwards. *)
Lemma inode_link_names_witness :
  exists t' li, inode_link (fst demo_new) 16384 (Some (demo_root, "c")) (mk_istat 4 33188 7) (Some 102) = Some (t', li) /\
    name_of t' demo_root "c" = Some li /\ name_of t' demo_root "a" = Some 8192 /\ __inode_search t' 4 = Some li.
Proof.
  destruct (inode_link_names (fst demo_new) (snd demo_new) 16384 demo_root 102 "c" (mk_istat 4 33188 7))
    as (t' & li & E & _ & Hc & Hn & Hh & Hli).
  - rewrite <-surjective_pairing. apply demo_new_good.
  - by compute_decide.
  - by compute_decide.
  - by compute_decide.
  - by vm_compute.
  - assert (__is_inode_hashed (fst demo_new) 16384 = false) as Eh by by vm_compute. rewrite Eh in Hli.
    exists t', li. split; [exact E|]. split; [exact Hc|]. split; [|exact Hli]. rewrite Hn by done.
    assert (name_of (fst demo_new) demo_root "a" = Some 8192) as -> by by vm_compute.
    assert (8192 ∈ snd demo_new) as [i Hi]%Hh by by compute_decide. simpl. by rewrite Hi.
Defined.

(** Renaming.  [inode_rename] of a linked inode moves its name: the new name
    stands for the inode, the old one for nothing, and every other name for what
    it stood for.  The directory that is left must be the only inode with its
    number, because the entry to drop is looked for by that number. *)
Theorem inode_rename_moves (t : itable) (H : gmultiset Z) (a sd dd d : Z) (sn dn : string) (si : inode) (st : istat) :
  good (t, H) -> roomy t -> linkable H t a st -> __is_inode_hashed t a = true ->
  sd ∈ H -> dd ∈ H -> it_dentries t !! d = None -> (dd, dn) <> (sd, sn) -> name_of t sd sn = Some a ->
  it_inodes t !! sd = Some si -> (forall b j, it_inodes t !! b = Some j -> i_ino j = i_ino si -> b = sd) ->
  exists t', inode_rename_locked t sd sn dd dn a st (Some d) = Some t' /\
    forall p n, name_of t' p n = if decide ((p, n) = (sd, sn)) then None
                                 else if decide ((p, n) = (dd, dn)) then Some a else name_of t p n.
Proof.
  intros [Hwf Hu] Hroom (Ha & Hroot & Hst) Hh Hsd Hdd Hd Hne Hsn Hsi Hino. simpl in *.
  destruct (held_inode Hwf a Ha) as (i & Hi & _ & Hp).
  destruct (link_hash_ok H t a i st) as (t0 & li & Hlk & Hcase); [done..|]. rewrite Hh in Hcase.
  destruct Hcase as [-> ->]. unfold inode_rename_locked, __inode_link. rewrite Hlk. cbn [mbind option_bind].
  destruct (link_dentry_ok H t a i dd dn d) as (t1 & -> & Hwf1 & Hu1 & Hf & _ & Hn); try done.
  { intros j Hj. specialize (Hroom _ _ Hj). lia. }
  cbn [mbind option_bind]. pose proof (nf_inodes _ _ Hf) as Hag.
  old_inode (agree_sym _ _ _ Hag) Hsi. destruct (inode_unlink_name H t1 a sd io sn) as (t' & -> & Hn'); try done.
  - intros b j Hj Ej. old_inode Hag Hj. apply (Hino b io0); [done|congruence].
  - rewrite Hn, decide_False by congruence. done.
  - exists t'. split; [done|]. intros p n. rewrite Hn', Hn. done.
Qed.

Lemma inode_rename_moves_witness :
  exists t', inode_rename_locked (fst demo) 8192 "b" demo_root "c" 12288 (mk_istat 3 33188 7) (Some 102) = Some t' /\
    name_of t' 8192 "b" = None /\ name_of t' demo_root "c" = Some 12288 /\ name_of t' demo_root "a" = Some 8192.
Proof.
  destruct (it_inodes (fst demo) !! 8192) as [si|] eqn:E; [|by vm_compute in E].
  destruct (inode_rename_moves (fst demo) (snd demo) 12288 8192 demo_root 102 "b" "c" si (mk_istat 3 33188 7)) as (t' & Ht & Hn).
  - rewrite <-surjective_pairing. apply demo_good.
  - by compute_decide.
  - by compute_decide.
  - by vm_compute.
  - by compute_decide.
  - by compute_decide.
  - by vm_compute.
  - done.
  - by vm_compute.
  - exact E.
  - assert (map_Forall (fun b j => i_ino j = i_ino si -> b = 8192) (it_inodes (fst demo))) as Hall; [|exact Hall].
    assert (i_ino si = 2) as -> by (vm_compute in E; by injection E as <-). compute_decide.
  - exists t'. split; [exact Ht|]. split; [|split]; rewrite Hn; by vm_compute.
Defined.

(** [__dentry_search] looks in a chain chosen by the inode number of the
    directory, while [__dentry_hash] files dentries in a chain chosen by the
    address of the directory.  So a name that is in the table is found by
    [inode_search] exactly when the two chains happen to be the same. *)
Theorem dentry_search_misses (t : itable) (H : gmultiset Z) (d a p : Z) (name : string) (pi : inode) :
  good (t, H) -> it_dentries t !! d = Some (mk_dentry a p name) -> it_inodes t !! p = Some pi ->
  (forall b j, it_inodes t !! b = Some j -> i_ino j = i_ino pi -> b = p) ->
  __dentry_grep t p name = Some d /\
  __dentry_search t (i_ino pi) name =
    if decide (hash_name (i_ino pi) name (it_hashsize t) = hash_dentry p name (it_hashsize t)) then Some d else None.
Proof.
  intros [Hwf Hu] Hd Hpi Hino. simpl in *. pose proof (wf_names _ _ _ Hwf) as Hn.
  split; [apply (dentry_grep_spec _ _ _ _ _ _ Hwf Hu); by eexists|].
  assert (forall x, dentry_is t (i_ino pi) name x = true <-> x = d) as Hone.
  { intros x. unfold dentry_is. split.
    - destruct (it_dentries t !! x) as [e|] eqn:Ex; [|done].
      destruct (it_inodes t !! d_parent e) as [q|] eqn:Eq; [|done].
      intros [E1%Z.eqb_eq E2%String.eqb_eq]%andb_true_iff. apply (Hu x d _ _ Ex Hd); [|done]. by eapply Hino.
    - intros ->. rewrite Hd. simpl. by rewrite Hpi, Z.eqb_refl, String.eqb_refl. }
  assert (forall h, d ∈ bucket (it_name_hash t) h <-> h = hash_dentry p name (it_hashsize t)) as Hb.
  { intros h. rewrite (Hn d h). split; [intros (e & He & Eh); by simplify_eq|]. intros ->. by eexists. }
  unfold __dentry_search. destruct (List.find _ _) as [x|] eqn:E.
  - apply find_elem in E as [Hin ->%Hone]. apply Hb in Hin. by rewrite decide_True.
  - case_decide as Eh; [|done]. apply (find_none_elem _ _ d) in E; [|by apply Hb].
    by rewrite (proj2 (Hone d) eq_refl) in E.
Qed.

Lemma dentry_search_misses_witness :
  __dentry_grep (fst demo) demo_root "a" = Some 100 /\ __dentry_search (fst demo) 1 "a" = None.
Proof.
  destruct (it_inodes (fst demo) !! demo_root) as [pi|] eqn:E; [|by vm_compute in E].
  assert (i_ino pi = 1) as E1 by (vm_compute in E; by injection E as <-).
  destruct (dentry_search_misses (fst demo) (snd demo) 100 8192 demo_root "a" pi) as [Hg Hs].
  - rewrite <-surjective_pairing. apply demo_good.
  - by vm_compute.
  - exact E.
  - assert (map_Forall (fun b j => i_ino j = i_ino pi -> b = demo_root) (it_inodes (fst demo))) as Hall; [|exact Hall].
    rewrite E1. compute_decide.
  - split; [exact Hg|]. rewrite E1 in Hs. rewrite Hs. by vm_compute.
Defined.

(** *** The reference count of the root *)

(** A caller takes the root and gives it back. *)
Definition root_use (t : itable) : option itable :=
  '(t1, _) ← inode_get t 1 0; __inode_unref t1 (it_root t1).

Fixpoint root_uses (n : nat) (t : itable) : option itable :=
  match n with O => Some t | S n' => t1 ← root_uses n' t; root_use t1 end.

Lemma root_use_incr t i :
  it_inodes t !! it_root t = Some i -> i_ino i = 1 -> 0 < i_ref i ->
  root_use t = Some (upd_inode (it_root t) (i_set_ref (u32 (i_ref i + 1))) t).
Proof.
  intros Hi Hino Hr. unfold root_use, inode_get, __inode_get. simpl. unfold __inode_ref. rewrite Hi.
  cbn [mbind option_bind]. rewrite (proj2 (Z.eqb_neq _ _)) by lia. simpl.
  unfold __inode_unref, unref_fuel. simpl. rewrite lookup_alter_eq, Hi. simpl. rewrite Hino. simpl. f_equal.
  apply itable_ext; simpl; try done. apply map_eq. intros a.
  destruct (decide (it_root t = a)) as [<-|]; [by rewrite !lookup_alter_eq, Hi|by rewrite !lookup_alter_ne].
Qed.

Lemma root_uses_incr n t i :
  it_inodes t !! it_root t = Some i -> i_ino i = 1 -> 0 < i_ref i -> i_ref i + Z.of_nat n <= 2 ^ 32 ->
  exists t', root_uses n t = Some t' /\
    t' = upd_inode (it_root t) (i_set_ref (if decide (n = 0%nat) then i_ref i else u32 (i_ref i + Z.of_nat n))) t.
Proof.
  intros Hi Hino Hr. induction n as [|n IH]; intros Hb; simpl.
  - eexists. split; [done|]. apply itable_ext; simpl; try done. apply map_eq. intros a.
    destruct (decide (it_root t = a)) as [<-|]; [rewrite lookup_alter_eq, Hi; by destruct i|by rewrite lookup_alter_ne].
  - destruct IH as (t1 & -> & ->); [lia|]. set (r := if decide _ then _ else _).
    assert (r = i_ref i + Z.of_nat n) as Er.
    { unfold r. case_decide; [subst; lia|]. unfold u32. rewrite Z.mod_small; lia. }
    cbn [mbind option_bind]. erewrite root_use_incr; simpl; [..|by rewrite lookup_alter_eq, Hi|done|simpl; lia].
    eexists. split; [done|]. apply itable_ext; simpl; try done. rewrite Er.
    replace (i_ref i + Z.of_nat n + 1) with (i_ref i + Z.of_nat (S n)) by lia.
    apply map_eq. intros a.
    destruct (decide (it_root t = a)) as [<-|]; [by rewrite !lookup_alter_eq, Hi|by rewrite !lookup_alter_ne].
Qed.

(** The table after the count of the root has come round to zero. *)
Definition wrapped (lru_limit root : Z) (xl_count : nat) : itable :=
  upd_inode root (i_set_ref 0) (table0 lru_limit root xl_count).

Lemma wrapped_get lru_limit root xl_count :
  exists t, inode_get (wrapped lru_limit root xl_count) 1 0 = Some (t, Some root) /\
    it_lru t = [] /\ it_lru_size t = 2 ^ 32 - 1 /\ it_lru_limit t = u32 lru_limit /\
    it_inodes t !! root = Some (root_inode0 xl_count).
Proof.
  unfold inode_get, __inode_get, wrapped. simpl. unfold __inode_ref. simpl.
  rewrite lookup_alter_eq, lookup_singleton_eq. simpl. eexists. split; [done|]. simpl.
  rewrite !lookup_alter_eq, lookup_singleton_eq. done.
Qed.

(** The reference count of the root is 32 bits wide and is only ever
    incremented, because [__inode_unref] returns at once for inode number 1.
    After 2^32 - 1 uses of the root, each of them given back, the count is zero
    again although the root is in the active list; the next [inode_get] takes the
    root from an LRU list that it is not in, so that the size of the LRU list
    wraps to 2^32 - 1, and the prune that follows dereferences the head of the
    empty list. *)
Theorem root_ref_wraps (lru_limit root : Z) (xl_count : nat) :
  0 < lru_limit < 2 ^ 32 - 1 ->
  exists t0 t t', fst <$> istart lru_limit root xl_count = Some t0 /\
    root_uses (Z.to_nat (2 ^ 32 - 1)) t0 = Some t /\
    i_ref <$> it_inodes t !! root = Some 0 /\ it_active t = [root] /\
    inode_get t 1 0 = Some (t', Some root) /\
    it_lru t' = [] /\ it_lru_size t' = 2 ^ 32 - 1 /\ pruned t' = None.
Proof.
  intros Hl. rewrite istart_eq. exists (table0 lru_limit root xl_count). assert (Z.of_nat (Z.to_nat (2 ^ 32 - 1)) = 2 ^ 32 - 1) as En by lia.
  generalize dependent (Z.to_nat (2 ^ 32 - 1)). intros n En.
  destruct (root_uses_incr n (table0 lru_limit root xl_count) (root_inode0 xl_count)) as (t & -> & Et); [|done|done|simpl; lia|].
  { simpl. by rewrite lookup_singleton_eq. }
  rewrite decide_False in Et by lia. simpl i_ref in Et. rewrite En in Et. change (u32 _) with 0 in Et.
  destruct (wrapped_get lru_limit root xl_count) as (t' & Hg & Hlru & Hsz & Hlim & Hi).
  exists t, t'. split; [done|]. split; [done|]. change (it_root _) with root in Et. fold (wrapped lru_limit root xl_count) in Et. subst t.
  split_and!; try done.
  - simpl. by rewrite lookup_alter_eq, lookup_singleton_eq.
  - unfold pruned, inode_table_prune. destruct (size (it_inodes t')) as [|m] eqn:Em.
    { apply map_size_empty_inv in Em. by rewrite Em in Hi. }
    simpl. rewrite Hlim, Hsz, Hlru. unfold u32. rewrite Z.mod_small by lia.
    rewrite (proj2 (Z.eqb_neq _ _)), (proj2 (Z.ltb_lt _ _)) by lia. done.
Qed.

Lemma root_ref_wraps_witness :
  exists t0 t t', fst <$> istart 16384 demo_root 1 = Some t0 /\
    root_uses (Z.to_nat (2 ^ 32 - 1)) t0 = Some t /\ inode_get t 1 0 = Some (t', Some demo_root) /\ pruned t' = None.
Proof.
  destruct (root_ref_wraps 16384 demo_root 1) as (t0 & t & t' & Hs & Hu & _ & _ & Hg & _ & _ & Hp); [lia|].
  exists t0, t, t'. split; [exact Hs|]. split; [exact Hu|]. split; [exact Hg|exact Hp].
Defined.
