(* ===== verification/InodePathFacts.v ===== *)
(** * Paths lead back to their inodes

    [inode_path] writes the names from the root down to an inode; walking them
    with [inode_from_path] ends at that inode. *)

From stdpp Require Import gmap gmultiset base list numbers strings.
From S2P Require Import Prelude InodeTable InodePath InodeTableFacts InodeTableOps InodeTableProps.
Open Scope Z_scope.

(** ** The path of an inode *)

(** The names from an inode up to the root. *)
Inductive path_to (t : itable) : Z -> list string -> Prop :=
  | pt_root : path_to t (it_root t) []
  | pt_name a d de ns :
      __dentry_search_arbit t a = Some d -> it_dentries t !! d = Some de ->
      path_to t (d_parent de) ns -> path_to t a (d_name de :: ns).

(** The path these names make, and its length. *)
Fixpoint path_str (ns : list string) : list Ascii.ascii :=
  match ns with
  | [] => []
  | n :: ns' => path_str ns' ++ slash :: chars n
  end.

Definition path_size (ns : list string) : Z := Z.of_nat (length (path_str ns)).

Lemma strlen_chars s : Z.of_nat (length (chars s)) = strlen s.
Proof. unfold chars, strlen. induction s as [|c s IH]; simpl; [done|]. lia. Qed.

Lemma path_size_cons n ns : path_size (n :: ns) = path_size ns + 1 + strlen n.
Proof. unfold path_size. simpl. rewrite length_app. simpl. rewrite <-strlen_chars. lia. Qed.

Lemma path_size_length ns : Z.of_nat (length ns) <= path_size ns.
Proof.
  induction ns as [|n ns IH]; [done|]. rewrite path_size_cons. simpl. unfold strlen. lia.
Qed.

Lemma root_no_dentry X H t : wf X H t -> __dentry_search_arbit t (it_root t) = None.
Proof.
  intros Hwf. unfold __dentry_search_arbit. destruct (rf_root _ _ _ _ (wf_refs _ _ _ Hwf)) as (r & Hr & _).
  rewrite Hr. simpl. by rewrite (dn_root _ _ _ _ _ (wf_dents _ _ _ Hwf) r Hr).
Qed.

Lemma search_arbit_alloc t a d : __dentry_search_arbit t a = Some d -> is_Some (it_inodes t !! a).
Proof. unfold __dentry_search_arbit. destruct (it_inodes t !! a); [eauto|done]. Qed.

Lemma path_len_ok X H t a ns : wf X H t -> path_to t a ns -> forall fuel i,
  (length ns < fuel)%nat -> i + path_size ns <= PATH_MAX ->
  path_len fuel t a i = Some (inl (i + path_size ns)).
Proof.
  intros Hwf. induction 1 as [|a d de ns Hs Hd Hp IH]; intros [|fuel] i Hf Hmax; try (simpl in Hf; lia); cbn [path_len].
  - destruct (rf_root _ _ _ _ (wf_refs _ _ _ Hwf)) as (r & -> & _). cbn [mbind option_bind].
    rewrite (root_no_dentry _ _ _ Hwf). do 2 f_equal. unfold path_size. simpl. lia.
  - destruct (search_arbit_alloc _ _ _ Hs) as [i0 ->]. cbn [mbind option_bind]. rewrite Hs, Hd. cbn [mbind option_bind].
    rewrite path_size_cons in *. unfold path_size, strlen in *.
    destruct (Z.ltb_spec PATH_MAX (i + 1 + Z.of_nat (String.length (d_name de)))); [lia|].
    rewrite IH; [|simpl in Hf; lia|lia]. do 2 f_equal. lia.
Qed.

(** ** Filling the buffer *)

Lemma put_name_ok k name rest :
  put_name (Z.of_nat k + 1 + strlen name) name (replicate (k + 1 + length (chars name)) nul ++ rest)
    = Some (replicate k nul ++ slash :: chars name ++ rest, Z.of_nat k).
Proof.
  unfold put_name. rewrite !replicate_add, <-!app_assoc.
  rewrite (app_assoc (replicate k nul)), (buf_write_ok (replicate k nul ++ replicate 1 nul));
    [|by rewrite length_replicate|rewrite length_app, !length_replicate; lia].
  cbn [mbind option_bind]. rewrite <-app_assoc.
  rewrite (buf_write_ok (replicate k nul) (replicate 1 nul)); [|done|rewrite length_replicate; lia].
  cbn [mbind option_bind]. do 2 f_equal. lia.
Qed.

Lemma path_fill_ok X H t a ns : wf X H t -> path_to t a ns -> forall fuel rest,
  (length ns < fuel)%nat ->
  path_fill fuel t a (path_size ns) (replicate (length (path_str ns)) nul ++ rest) = Some (path_str ns ++ rest).
Proof.
  intros Hwf. induction 1 as [|a d de ns Hs Hd Hp IH]; intros [|fuel] rest Hf; try (simpl in Hf; lia); cbn [path_fill].
  - destruct (rf_root _ _ _ _ (wf_refs _ _ _ Hwf)) as (r & -> & _). cbn [mbind option_bind].
    by rewrite (root_no_dentry _ _ _ Hwf).
  - destruct (search_arbit_alloc _ _ _ Hs) as [i0 ->]. cbn [mbind option_bind]. rewrite Hs, Hd. cbn [mbind option_bind].
    rewrite path_size_cons. cbn [path_str]. rewrite length_app. cbn [length].
    replace (length (path_str ns) + S (length (chars (d_name de))))%nat
      with (length (path_str ns) + 1 + length (chars (d_name de)))%nat by lia.
    unfold path_size. rewrite put_name_ok. cbn [mbind option_bind].
    change (Z.of_nat (length (path_str ns))) with (path_size ns). rewrite IH by (simpl in Hf; lia).
    f_equal. by rewrite <-app_assoc.
Qed.

Lemma inode_path_ok X H t a ns :
  wf X H t -> path_to t a ns -> a <> it_root t -> path_size ns <= PATH_MAX ->
  inode_path t a None true true = Some (path_size ns, Some (path_str ns ++ [nul])).
Proof.
  intros Hwf Hp Ha Hmax. pose proof (path_size_length ns) as Hlen. unfold inode_path.
  assert (length ns < path_fuel)%nat as Hfuel by (unfold path_fuel, PATH_MAX in *; lia).
  destruct Hp as [|a d de ns Hs Hd Hp]; [done|]. destruct (search_arbit_alloc _ _ _ Hs) as [i Hi].
  assert (path_to t a (d_name de :: ns)) as Hpath by by econstructor.
  assert (i_ino i =? 1 = false) as E1.
  { apply Z.eqb_neq. by rewrite (rf_one _ _ _ _ (wf_refs _ _ _ Hwf) _ _ Hi). }
  rewrite Hi. cbn [mbind option_bind]. rewrite (path_len_ok _ _ _ _ _ Hwf Hpath) by (done || lia). cbn [mbind option_bind].
  rewrite E1. cbn [negb andb]. rewrite Z.add_0_l.
  assert (path_size (d_name de :: ns) =? 0 = false) as ->.
  { apply Z.eqb_neq. simpl in Hlen. lia. }
  replace (Z.to_nat (path_size (d_name de :: ns) + 1)) with (length (path_str (d_name de :: ns)) + 1)%nat
    by (unfold path_size; lia).
  rewrite replicate_add. cbn [mbind option_bind]. rewrite (path_fill_ok _ _ _ _ _ Hwf Hpath) by done. done.
Qed.

(** ** Splitting a path *)

(** A name that a path can hold. *)
Definition name_ok (n : string) : Prop := n <> EmptyString /\ slash ∉ chars n.

Lemma components_name cur n s :
  slash ∉ n -> components cur (n ++ slash :: s) =
  match reverse n ++ cur with [] => [] | l => [String.string_of_list_ascii (reverse l)] end ++ components [] s.
Proof.
  revert cur. induction n as [|c n IH]; intros cur Hn; cbn [components app].
  - rewrite bool_decide_true by done. by destruct cur.
  - rewrite bool_decide_false by set_solver. rewrite IH by set_solver.
    by rewrite reverse_cons, <-app_assoc.
Qed.

Lemma components_last cur n :
  slash ∉ n -> components cur n =
  match reverse n ++ cur with [] => [] | l => [String.string_of_list_ascii (reverse l)] end.
Proof.
  revert cur. induction n as [|c n IH]; intros cur Hn; cbn [components app]; [by destruct cur|].
  rewrite bool_decide_false by set_solver. rewrite IH by set_solver.
  by rewrite reverse_cons, <-app_assoc.
Qed.

Lemma emit_name n :
  n <> EmptyString ->
  match reverse (chars n) ++ [] with
  | [] => []
  | l => [String.string_of_list_ascii (reverse l)]
  end = [n].
Proof.
  intros Hn. rewrite app_nil_r. destruct (reverse (chars n)) as [|c l] eqn:E.
  - destruct n; [done|]. simpl in E. rewrite reverse_cons in E. by destruct (reverse (chars n)).
  - f_equal. rewrite <-E, reverse_involutive. apply String.string_of_list_ascii_of_string.
Qed.

(** The components from the root down, with the name that is read last behind. *)
Lemma components_snoc ns s :
  Forall name_ok ns ->
  components [] (path_str ns ++ slash :: s) = reverse ns ++ components [] s.
Proof.
  intros Hns. revert s. induction Hns as [|n ns [Hne Hsl] Hns IH]; intros s; cbn [path_str].
  - cbn [components app]. by rewrite bool_decide_true.
  - rewrite <-app_assoc. cbn [app]. rewrite IH, reverse_cons, <-app_assoc. f_equal.
    rewrite components_name by done. by rewrite emit_name.
Qed.

Lemma components_path n ns :
  Forall name_ok (n :: ns) -> components [] (path_str (n :: ns)) = reverse (n :: ns).
Proof.
  intros [[Hne Hsl] Hns]%Forall_cons. cbn [path_str]. rewrite components_snoc by done.
  rewrite reverse_cons. f_equal. rewrite components_last by done. by rewrite emit_name.
Qed.

(** ** Walking down *)

Inductive walk (t : itable) : Z -> list string -> Z -> Prop :=
  | wk_nil a : walk t a [] a
  | wk_cons p c q cs a : name_of t p c = Some q -> walk t q cs a -> walk t p (c :: cs) a.

Lemma walk_snoc t p cs q c a : walk t p cs q -> name_of t q c = Some a -> walk t p (cs ++ [c]) a.
Proof. induction 1; simpl; intros; econstructor; eauto. by constructor. Qed.

Lemma path_walk X H t a ns :
  wf X H t -> names_unique (it_dentries t) -> path_to t a ns -> walk t (it_root t) (reverse ns) a.
Proof.
  intros Hwf Hu. induction 1 as [|a d de ns Hs Hd Hp IH]; [constructor|]. rewrite reverse_cons.
  eapply walk_snoc; [done|]. apply (name_of_Some _ _ _ _ _ _ Hwf Hu). exists d. rewrite Hd.
  unfold __dentry_search_arbit in Hs. destruct (it_inodes t !! a) as [i|] eqn:Hi; [|done].
  cbn [mbind option_bind] in Hs.
  destruct (dn_down _ _ _ _ _ (wf_dents _ _ _ Hwf) _ _ Hi) as (_ & Hall).
  destruct (Hall d) as (de' & Hd' & Ea).
  { destruct (List.find _ _) as [d'|] eqn:E; [apply find_elem in E as [? _]; by simplify_eq|].
    destruct (i_dentries i); simplify_eq/=. left. }
  simplify_eq. by destruct de.
Qed.

(** Directories on the way to an inode that is still there are there too. *)
Lemma walk_alloc X H t p cs a :
  wf X H t -> names_unique (it_dentries t) -> walk t p cs a -> is_Some (it_inodes t !! a) -> is_Some (it_inodes t !! p).
Proof.
  intros Hwf Hu Hw Ha. destruct Hw as [|p c q cs a Hn Hw]; [done|].
  apply (name_of_Some _ _ _ _ _ _ Hwf Hu) in Hn as (d & Hd).
  by apply (dn_up _ _ _ _ _ (wf_dents _ _ _ Hwf)) in Hd as (? & _).
Qed.

Lemma walk_stable t t' H H' p cs a :
  good (t, H) -> good (t', H') -> prunes t t' -> walk t p cs a -> is_Some (it_inodes t' !! a) -> walk t' p cs a.
Proof.
  intros [Hwf Hu] [Hwf' Hu'] Hpr Hw Ha. simpl in *. induction Hw as [|p c q cs a Hn Hw IH]; [constructor|].
  specialize (IH Ha). econstructor; [|done]. apply (name_of_Some _ _ _ _ _ _ Hwf' Hu').
  apply (name_of_Some _ _ _ _ _ _ Hwf Hu) in Hn as (d & Hd). exists d.
  apply (pr_kept _ _ Hpr); [done|]. simpl. by eapply walk_alloc.
Qed.

Lemma walk_dentries t t' H H' p cs a :
  good (t, H) -> good (t', H') -> it_dentries t' = it_dentries t -> walk t p cs a -> walk t' p cs a.
Proof.
  intros [Hwf Hu] [Hwf' _] E Hw. simpl in *. induction Hw as [|p c q cs a Hn Hw IH]; econstructor; [|done].
  rewrite <-Hn. by eapply name_of_dentries.
Qed.

(** ** [inode_from_path] *)

Lemma good_inode_unref t H a :
  good (t, H) -> a ∈ H ->
  exists t', inode_unref t a = Some t' /\ good (t', H ∖ {[+ a +]}) /\ prunes t t'.
Proof.
  intros [Hwf Hu] Ha. simpl in *. unfold inode_unref.
  rewrite (gmultiset_disj_union_difference' a H Ha), (comm (⊎)) in Hwf.
  destruct (inode_unref_ok _ _ _ _ Hwf) as (t1 & -> & Hwf1 & Hsh). cbn [mbind option_bind]. unfold pruned.
  destruct (inode_table_prune_ok _ _ Hwf1) as (t' & r & calls & -> & Hwf' & _ & _ & t2 & Hsh2 & Hwf2 & -> & _).
  cbn [mbind option_bind]. exists (purged t2). split; [done|].
  assert (prunes t (purged t2)) as Hpr by (eapply shrinks_purged; [done|by eapply shrinks_trans]).
  split; [|done]. split; [done|]. eapply names_unique_subseteq; [apply Hpr|done].
Qed.

(** Room for [k] more references to each inode but the root. *)
Definition slack (k : Z) (t : itable) (H : gmultiset Z) : Prop :=
  forall b, Z.of_nat (multiplicity b H + children (it_dentries t) b) + k < 2 ^ 32.

Lemma slack_size k t H : Z.of_nat (size H + size (it_dentries t)) + k < 2 ^ 32 -> slack k t H.
Proof.
  intros Hk b. assert (children (it_dentries t) b <= size (it_dentries t))%nat
    by apply map_subseteq_size, map_filter_subseteq.
  assert (multiplicity b H <= size H)%nat; [|lia].
  assert (multiplicity b H *: {[+ b +]} ⊆ H) as Hs%gmultiset_subseteq_size.
  { intros x. rewrite multiplicity_scalar_mul, multiplicity_singleton. case_decide; [subst|]; lia. }
  rewrite gmultiset_size_scalar_mul, gmultiset_size_singleton in Hs. lia.
Qed.

Lemma children_mono ds ds' p : ds' ⊆ ds -> (children ds' p <= children ds p)%nat.
Proof. intros Hs. apply map_subseteq_size. by apply map_filter_subseteq_mono. Qed.

Lemma slack_prunes k t t' H : prunes t t' -> slack k t H -> slack k t' H.
Proof. intros Hpr Hs b. specialize (Hs b). pose proof (children_mono _ _ b (pr_dentries _ _ Hpr)). lia. Qed.

Lemma good_grep t H p c q :
  good (t, H) -> slack 1 t H -> q <> it_root t -> name_of t p c = Some q ->
  exists t', inode_grep t p c = Some (t', Some q) /\ good (t', H ⊎ {[+ q +]}) /\ it_root t' = it_root t /\
    it_dentries t' = it_dentries t.
Proof.
  intros [Hwf Hu] Hs Hq Hn. simpl in *. unfold inode_grep. change (found_inode t (__dentry_grep t p c)) with (name_of t p c).
  rewrite Hn. simpl. destruct (found_dentry_inode H t (__dentry_grep t p c) q) as (i & Hi & Hp); [done..|].
  destruct (inode_ref_ok ∅ H t q i) as (t' & -> & Hwf' & Hf); [done..| |].
  { rewrite (rf_count _ _ _ _ (wf_refs _ _ _ Hwf) _ _ Hi Hq). apply Hs. }
  cbn [mbind option_bind]. exists t'. split; [done|]. split; [split; [done|]|]; simpl; rewrite (fr_dentries _ _ _ Hf).
  - done.
  - split; [|done]. by destruct (fr_const _ _ _ Hf).
Qed.

(** Entries lead to other inodes than the root. *)
Lemma name_of_not_root H t p c q : good (t, H) -> name_of t p c = Some q -> q <> it_root t.
Proof.
  intros [Hwf Hu] Hn ->. simpl in *. apply (name_of_Some _ _ _ _ _ _ Hwf Hu) in Hn as (d & Hd).
  destruct (dentry_inode _ _ _ _ Hwf Hd) as (i & Hi & Hin & _). simpl in Hi.
  rewrite (dn_root _ _ _ _ _ (wf_dents _ _ _ Hwf) _ Hi) in Hin. by apply elem_of_nil in Hin.
Qed.

Lemma from_path_loop_ok a cs : forall t H p,
  good (t, H ⊎ {[+ p +]}) -> a ∈ H -> slack 2 t H -> walk t p cs a -> cs <> [] ->
  exists t' q, from_path_loop t p cs = Some (t', Some a, q) /\ good (t', H ⊎ {[+ a +]} ⊎ {[+ q +]}).
Proof.
  induction cs as [|c cs IH]; intros t H p Hg Ha Hs Hw Hne; [done|]. inversion Hw as [|? ? q ? ? Hn Hw']; subst.
  assert (slack 1 t (H ⊎ {[+ p +]})) as Hs1.
  { intros b. specialize (Hs b). rewrite multiplicity_disj_union, multiplicity_singleton. case_decide; lia. }
  destruct (good_grep t _ p c q Hg Hs1 (name_of_not_root _ _ _ _ _ Hg Hn) Hn) as (t1 & Ht1 & Hg1 & Er1 & Ed1).
  cbn [from_path_loop]. rewrite Ht1. cbn [mbind option_bind].
  destruct cs as [|c2 cs].
  { inversion Hw'; subst. exists t1, p. split; [done|]. by rewrite <-(assoc (⊎)), (comm (⊎) {[+ a +]}), (assoc (⊎)). }
  destruct (good_inode_unref t1 _ p Hg1) as (t2 & -> & Hg2 & Hpr); [multiset_solver|]. cbn [mbind option_bind].
  replace ((H ⊎ {[+ p +]} ⊎ {[+ q +]}) ∖ {[+ p +]}) with (H ⊎ {[+ q +]}) in Hg2 by multiset_solver.
  apply (IH t2 H q Hg2 Ha).
  - eapply slack_prunes; [done|]. intros b. rewrite Ed1. apply Hs.
  - eapply (walk_stable t1 t2 _ _ q); [done..| |].
    + by apply (walk_dentries t t1 _ _ q _ a Hg Hg1 Ed1).
    + apply (rf_held _ _ _ _ (wf_refs _ _ _ (proj1 Hg2))). simpl. multiset_solver.
  - done.
Qed.

(** C36: A path leads back to its inode.  For an inode that a caller holds, and
    whose dentries reach the root with names that make a path of at most
    [PATH_MAX] characters, [inode_path] returns the length of the path and fills
    its buffer with the names, each after a slash, and a NUL; [inode_from_path] of
    these characters finds the inode again, takes one reference to it, and gives
    back those it took on the way. *)
Theorem inode_path_roundtrip (t : itable) (H : gmultiset Z) (a : Z) (ns : list string) :
  good (t, H) -> a ∈ H -> path_to t a ns -> ns <> [] -> path_size ns <= PATH_MAX -> Forall name_ok ns ->
  slack 2 t H -> ref_room t (it_root t) ->
  exists path t', path = path_str ns /\
    inode_path t a None true true = Some (Z.of_nat (length path), Some (path ++ [nul])) /\
    inode_from_path t path true = Some (t', Some a) /\ good (t', H ⊎ {[+ a +]}).
Proof.
  intros Hg Ha Hp Hne Hmax Hok Hs Hroom. pose proof Hg as [Hwf Hu]. simpl in Hwf, Hu.
  assert (a <> it_root t) as Hroot.
  { intros ->. inversion Hp as [|? d de ns' Hd]; subst; [done|]. by rewrite (root_no_dentry _ _ _ Hwf) in Hd. }
  exists (path_str ns). destruct (root_inode Hwf) as (r & Hr & _ & Hrp).
  destruct (inode_ref_ok ∅ H t (it_root t) r) as (t1 & Ht1 & Hwf1 & Hf); [done..|by apply Hroom|].
  assert (good (t1, H ⊎ {[+ it_root t +]})) as Hg1 by (split; [done|]; simpl; by rewrite (fr_dentries _ _ _ Hf)).
  destruct (from_path_loop_ok a (reverse ns) t1 H (it_root t)) as (t2 & q & Hloop & Hg2); [done..| | | |].
  { intros b. rewrite (fr_dentries _ _ _ Hf). apply Hs. }
  { apply (walk_dentries t t1 _ _ _ _ _ Hg Hg1 (fr_dentries _ _ _ Hf)). by eapply path_walk. }
  { intros E. apply Hne. by rewrite <-(reverse_involutive ns), E. }
  destruct (good_inode_unref t2 _ q Hg2) as (t3 & Ht3 & Hg3 & _); [multiset_solver|].
  replace ((H ⊎ {[+ a +]} ⊎ {[+ q +]}) ∖ {[+ q +]}) with (H ⊎ {[+ a +]}) in Hg3 by multiset_solver.
  exists t3. split_and!; [done|by eapply inode_path_ok| |done].
  destruct ns as [|n ns]; [done|]. unfold inode_from_path, inode_ref. cbn [negb]. rewrite Ht1. cbn [mbind option_bind].
  rewrite components_path by done. destruct (reverse (n :: ns)) as [|c cs] eqn:E.
  { apply (f_equal length) in E. by rewrite length_reverse in E. }
  rewrite Hloop. cbn [mbind option_bind]. by rewrite Ht3.
Qed.

Lemma inode_path_roundtrip_witness :
  exists t', inode_path (fst demo) 12288 None true true =
      Some (4, Some (chars "/a/b" ++ [nul])) /\
    inode_from_path (fst demo) (chars "/a/b") true = Some (t', Some 12288).
Proof.
  destruct (inode_path_roundtrip (fst demo) (snd demo) 12288 ["b"; "a"]) as (path & t' & Ep & Hp & Hf & _).
  - rewrite <-surjective_pairing. apply demo_good.
  - by compute_decide.
  - refine (pt_name _ _ 101 (mk_dentry 12288 8192 "b") _ _ _ _); [by vm_compute..|].
    refine (pt_name _ _ 100 (mk_dentry 8192 demo_root "a") _ _ _ _); [by vm_compute..|]. apply pt_root.
  - done.
  - by vm_compute.
  - repeat constructor; try done; by compute_decide.
  - apply slack_size. by vm_compute.
  - intros i Hi. vm_compute in Hi. injection Hi as <-. by vm_compute.
  - exists t'. rewrite Ep in Hp, Hf. split; [exact Hp|exact Hf].
Defined.
