(* ===== verification/WriteBehind.v ===== *)
(** * performance/write-behind: the queue of a file

    Model of src/xlators/performance/write-behind/src/write-behind.c, its data
    and what is done under the lock of a file.  Requests are records in the order
    of the list they are linked in; a request is named by the frame it belongs
    to, and freeing it takes it out of its list.  A use of a request that is not
    there any more, a write outside of a buffer and a NULL dereference are the
    fault [None].  Sizes are those of [size_t]; offsets are exact, files being
    smaller than 2^63, and what [wb_sync] returns is not cut to 32 bits. *)

From stdpp Require Import base list numbers strings.
From S2P Require Import Prelude.
Open Scope Z_scope.

Definition MAX_VECTOR_COUNT : Z := 8.
Definition WB_AGGREGATE_SIZE : Z := 131072.
Definition WB_WINDOW_SIZE : Z := 1048576.

(** ** Data *)

Inductive glfop :=
  | GF_FOP_WRITE | GF_FOP_STAT | GF_FOP_FSTAT | GF_FOP_TRUNCATE | GF_FOP_FTRUNCATE
  | GF_FOP_SETATTR | GF_FOP_READ | GF_FOP_FSYNC | GF_FOP_FLUSH.

#[export] Instance glfop_eq_dec : EqDecision glfop.
Proof. solve_decision. Defined.

(** [iov_base] is the memory from there to the end of the buffer it lies in, of
    which the first [iov_len] bytes are the data. *)
Record iovec := mk_iovec { iov_base : list Z; iov_len : Z }.

Definition iov_bytes (v : iovec) : list Z := take (Z.to_nat (iov_len v)) (iov_base v).

(** [iov_length] of common-utils.h: it adds the lengths as [size_t] and returns an
    [int], which its callers make a [size_t] again. *)
Fixpoint iov_total (vector : list iovec) : Z :=
  match vector with [] => 0 | v :: vector' => u64 (iov_len v + iov_total vector') end.

Definition iov_length (vector : list iovec) : Z := u64 (i32 (iov_total vector)).

(** The bytes that [iov_unload] copies. *)
Definition iov_data (vector : list iovec) : list Z := concat (map iov_bytes vector).

(** [wind] tells a call to resume from an answer to pass up. *)
Record call_stub := mk_stub {
  st_fop : glfop;
  st_wind : bool;
  st_off : Z;
  st_vector : list iovec
}.

(** [struct wb_request], with the answer kept in the [local] of its frame.  The
    flags of writes and of other requests share memory in C; the operation of a
    request is fixed, so that none is read both ways. *)
Record wb_request := mk_request {
  rq_frame : Z;
  rq_stub : option call_stub;
  rq_write_size : Z;
  rq_refcount : Z;
  rq_write_behind : bool;
  rq_stack_wound : bool;
  rq_got_reply : bool;
  rq_marked_for_resume : bool;
  rq_op_ret : Z;
  rq_op_errno : Z
}.

Record wb_file := mk_wb_file {
  wb_disabled : bool;
  wb_disable_till : Z;
  wb_window_conf : Z;
  wb_window_current : Z;
  wb_aggregate_current : Z;
  wb_refcount : Z;
  wb_op_ret : Z;
  wb_op_errno : Z;
  wb_requests : list wb_request;
  wb_passive_requests : list wb_request
}.

Record wb_conf := mk_wb_conf {
  aggregate_size : Z;
  window_size : Z;
  disable_till : Z;
  enable_O_SYNC : bool;
  flush_behind : bool;
  enable_trickling_writes : bool
}.

(** ** Updates *)

Definition rq_set_stub (s : option call_stub) (r : wb_request) : wb_request :=
  mk_request (rq_frame r) s (rq_write_size r) (rq_refcount r) (rq_write_behind r) (rq_stack_wound r)
    (rq_got_reply r) (rq_marked_for_resume r) (rq_op_ret r) (rq_op_errno r).
Definition rq_set_size (n : Z) (r : wb_request) : wb_request :=
  mk_request (rq_frame r) (rq_stub r) n (rq_refcount r) (rq_write_behind r) (rq_stack_wound r)
    (rq_got_reply r) (rq_marked_for_resume r) (rq_op_ret r) (rq_op_errno r).
Definition rq_set_refcount (n : Z) (r : wb_request) : wb_request :=
  mk_request (rq_frame r) (rq_stub r) (rq_write_size r) n (rq_write_behind r) (rq_stack_wound r)
    (rq_got_reply r) (rq_marked_for_resume r) (rq_op_ret r) (rq_op_errno r).
Definition rq_set_write_behind (r : wb_request) : wb_request :=
  mk_request (rq_frame r) (rq_stub r) (rq_write_size r) (rq_refcount r) true (rq_stack_wound r)
    (rq_got_reply r) (rq_marked_for_resume r) (rq_op_ret r) (rq_op_errno r).
Definition rq_set_stack_wound (r : wb_request) : wb_request :=
  mk_request (rq_frame r) (rq_stub r) (rq_write_size r) (rq_refcount r) (rq_write_behind r) true
    (rq_got_reply r) (rq_marked_for_resume r) (rq_op_ret r) (rq_op_errno r).
Definition rq_set_got_reply (r : wb_request) : wb_request :=
  mk_request (rq_frame r) (rq_stub r) (rq_write_size r) (rq_refcount r) (rq_write_behind r) (rq_stack_wound r)
    true (rq_marked_for_resume r) (rq_op_ret r) (rq_op_errno r).
Definition rq_set_marked (r : wb_request) : wb_request :=
  mk_request (rq_frame r) (rq_stub r) (rq_write_size r) (rq_refcount r) (rq_write_behind r) (rq_stack_wound r)
    (rq_got_reply r) true (rq_op_ret r) (rq_op_errno r).
Definition rq_set_answer (op_ret op_errno : Z) (r : wb_request) : wb_request :=
  mk_request (rq_frame r) (rq_stub r) (rq_write_size r) (rq_refcount r) (rq_write_behind r) (rq_stack_wound r)
    (rq_got_reply r) (rq_marked_for_resume r) op_ret op_errno.

Definition set_requests (l : list wb_request) (f : wb_file) : wb_file :=
  mk_wb_file (wb_disabled f) (wb_disable_till f) (wb_window_conf f) (wb_window_current f) (wb_aggregate_current f)
    (wb_refcount f) (wb_op_ret f) (wb_op_errno f) l (wb_passive_requests f).
Definition set_passive (l : list wb_request) (f : wb_file) : wb_file :=
  mk_wb_file (wb_disabled f) (wb_disable_till f) (wb_window_conf f) (wb_window_current f) (wb_aggregate_current f)
    (wb_refcount f) (wb_op_ret f) (wb_op_errno f) (wb_requests f) l.
Definition set_window (n : Z) (f : wb_file) : wb_file :=
  mk_wb_file (wb_disabled f) (wb_disable_till f) (wb_window_conf f) n (wb_aggregate_current f)
    (wb_refcount f) (wb_op_ret f) (wb_op_errno f) (wb_requests f) (wb_passive_requests f).
Definition set_aggregate (n : Z) (f : wb_file) : wb_file :=
  mk_wb_file (wb_disabled f) (wb_disable_till f) (wb_window_conf f) (wb_window_current f) n
    (wb_refcount f) (wb_op_ret f) (wb_op_errno f) (wb_requests f) (wb_passive_requests f).
Definition set_error (op_ret op_errno : Z) (f : wb_file) : wb_file :=
  mk_wb_file (wb_disabled f) (wb_disable_till f) (wb_window_conf f) (wb_window_current f) (wb_aggregate_current f)
    (wb_refcount f) op_ret op_errno (wb_requests f) (wb_passive_requests f).
Definition set_disable_till (n : Z) (f : wb_file) : wb_file :=
  mk_wb_file (wb_disabled f) n (wb_window_conf f) (wb_window_current f) (wb_aggregate_current f)
    (wb_refcount f) (wb_op_ret f) (wb_op_errno f) (wb_requests f) (wb_passive_requests f).
Definition set_file_refcount (n : Z) (f : wb_file) : wb_file :=
  mk_wb_file (wb_disabled f) (wb_disable_till f) (wb_window_conf f) (wb_window_current f) (wb_aggregate_current f)
    n (wb_op_ret f) (wb_op_errno f) (wb_requests f) (wb_passive_requests f).

(** ** Requests *)

(** [request->stub && request->stub->fop == GF_FOP_WRITE]. *)
Definition is_write (r : wb_request) : bool :=
  match rq_stub r with Some s => bool_decide (st_fop s = GF_FOP_WRITE) | None => false end.

(** [request->stub->args.writev.off], where the stub is that of a write. *)
Definition rq_off (r : wb_request) : Z := match rq_stub r with Some s => st_off s | None => 0 end.

Definition rq_vector (r : wb_request) : list iovec :=
  match rq_stub r with Some s => st_vector s | None => [] end.

Definition find_request (fr : Z) (l : list wb_request) : option wb_request :=
  List.find (fun r => rq_frame r =? fr) l.

(** A request, in whichever list it is linked. *)
Definition get_request (fr : Z) (f : wb_file) : option wb_request :=
  match find_request fr (wb_requests f) with
  | Some r => Some r
  | None => find_request fr (wb_passive_requests f)
  end.

Definition map_request (fr : Z) (g : wb_request -> wb_request) (l : list wb_request) : list wb_request :=
  map (fun r => if rq_frame r =? fr then g r else r) l.

Definition upd_request (fr : Z) (g : wb_request -> wb_request) (f : wb_file) : wb_file :=
  set_passive (map_request fr g (wb_passive_requests f)) (set_requests (map_request fr g (wb_requests f)) f).

(** The request of a list gives up a reference, and is freed with the last. *)
Fixpoint unref_in (fr : Z) (l : list wb_request) : option (list wb_request) :=
  match l with
  | [] => None
  | r :: l' =>
      if rq_frame r =? fr then
        Some (if rq_refcount r <=? 0 then l
              else if rq_refcount r - 1 =? 0 then l'
              else rq_set_refcount (rq_refcount r - 1) r :: l')
      else cons r <$> unref_in fr l'
  end.

Definition __wb_request_unref (fr : Z) (f : wb_file) : option wb_file :=
  match unref_in fr (wb_requests f) with
  | Some l => Some (set_requests l f)
  | None => l ← unref_in fr (wb_passive_requests f); Some (set_passive l f)
  end.

Definition __wb_request_ref (r : wb_request) : wb_request :=
  if rq_refcount r <? 0 then r else rq_set_refcount (rq_refcount r + 1) r.

(** The request is linked at the end of the list, with the references to wind
    and to answer it. *)
Definition wb_enqueue (f : wb_file) (fr : Z) (stub : call_stub) : wb_file :=
  if decide (st_fop stub = GF_FOP_WRITE) then
    let size := iov_length (st_vector stub) in
    let r := __wb_request_ref (__wb_request_ref
               (mk_request fr (Some stub) size 0 false false false false (i32 size) 0)) in
    set_aggregate (u64 (wb_aggregate_current f + size))
      (set_requests (list_add_tail r (wb_requests f)) f)
  else
    let r := __wb_request_ref (mk_request fr (Some stub) 0 0 false false false false 0 0) in
    set_requests (list_add_tail r (wb_requests f)) f.

(** ** Files *)

Definition O_ACCMODE : Z := 3.
Definition O_RDONLY : Z := 0.
Definition O_DIRECT : Z := 16384.
Definition O_SYNC : Z := 1052672.
Definition S_ISGID : Z := 1024.
Definition S_IXGRP : Z := 8.
Definition GF_OPEN_NOWB : Z := 2.

Definition wb_file_create (conf : wb_conf) : wb_file :=
  mk_wb_file false (disable_till conf) (window_size conf) 0 0 1 0 0 [] [].

(** Mandatory locking is on for the file. *)
Definition mandatory_mode (mode : Z) : bool :=
  negb (Z.land mode S_ISGID =? 0) && (Z.land mode S_IXGRP =? 0).

(** Opened so that writes should not be cached. *)
Definition uncached_flags (conf : wb_conf) (flags : Z) : bool :=
  (Z.land flags O_DIRECT =? O_DIRECT) || (Z.land flags O_ACCMODE =? O_RDONLY) ||
  ((Z.land flags O_SYNC =? O_SYNC) && enable_O_SYNC conf).

Definition set_open (disabled uncached : bool) (f : wb_file) : wb_file :=
  mk_wb_file (wb_disabled f || disabled) (wb_disable_till f) (if uncached then 0 else wb_window_conf f)
    (wb_window_current f) (wb_aggregate_current f) (wb_refcount f) (wb_op_ret f) (wb_op_errno f)
    (wb_requests f) (wb_passive_requests f).

(** The answer to an open: the file that is made for it. *)
Definition wb_open_cbk (conf : wb_conf) (local : option (Z * Z)) (mode : Z) (alloc : bool) (op_ret op_errno : Z) :
    option wb_file * Z * Z :=
  match local with
  | None => (None, -1, EINVAL)
  | Some (flags, wbflags) =>
      if op_ret =? -1 then (None, op_ret, op_errno)
      else if negb alloc then (None, -1, ENOMEM)
      else (Some (set_open (mandatory_mode mode || negb (Z.land wbflags GF_OPEN_NOWB =? 0))
                    (uncached_flags conf flags) (wb_file_create conf)), op_ret, op_errno)
  end.

(** [frame->local] holds the flags; flags that are zero are taken for none. *)
Definition wb_create_cbk (conf : wb_conf) (flags : Z) (mode : Z) (alloc : bool) (op_ret op_errno : Z) :
    option wb_file * Z * Z :=
  if op_ret =? -1 then (None, op_ret, op_errno)
  else if negb alloc then (None, -1, ENOMEM)
  else (Some (set_open (mandatory_mode mode) (negb (flags =? 0) && uncached_flags conf flags)
                (wb_file_create conf)), op_ret, op_errno).

(** The file is freed with its last reference. *)
Definition wb_file_destroy (f : wb_file) : option wb_file :=
  let refcount := wb_refcount f - 1 in
  if refcount =? 0 then None else Some (set_file_refcount refcount f).

(** The inner [option] is the file, which may be gone; the outer one the
    assertion. *)
Definition wb_release (f : wb_file) : option (option wb_file) :=
  match wb_requests f with [] => Some (wb_file_destroy f) | _ :: _ => None end.

(** ** Marking requests *)

(** What [__wb_mark_wind_all] takes: the writes not yet wound at the head of the
    list, while each follows the one before. *)
Fixpoint wind_all_loop (first_request : bool) (offset_expected : Z) (l : list wb_request) :
    list wb_request * list Z * Z :=
  match l with
  | [] => ([], [], 0)
  | r :: l' =>
      if negb (is_write r) then (l, [], 0)
      else if rq_stack_wound r then
        let '(k, winds, size) := wind_all_loop first_request offset_expected l' in (r :: k, winds, size)
      else
        let expected := if first_request then rq_off r else offset_expected in
        if negb (rq_off r =? expected) then (l, [], 0)
        else
          let '(k, winds, size) := wind_all_loop false (expected + rq_write_size r) l' in
          (rq_set_stack_wound r :: k, rq_frame r :: winds, rq_write_size r + size)
  end.

Definition __wb_mark_wind_all (f : wb_file) : wb_file * list Z * Z :=
  let '(l, winds, size) := wind_all_loop true 0 (wb_requests f) in
  (set_aggregate (u64 (wb_aggregate_current f - size)) (set_requests l f), winds, u64 size).

(** Whether another operation is queued, the writes are not contiguous, or a
    write is still on its way. *)
Fixpoint __wb_can_wind (first_request : bool) (offset_expected : Z) (l : list wb_request) : bool * bool * bool :=
  match l with
  | [] => (false, false, false)
  | r :: l' =>
      if negb (is_write r) then (match rq_stub r with Some _ => true | None => false end, false, false)
      else if rq_stack_wound r && negb (rq_got_reply r) then (false, false, true)
      else if rq_stack_wound r then __wb_can_wind first_request offset_expected l'
      else
        let expected := if first_request then rq_off r else offset_expected in
        if negb (expected =? rq_off r) then (false, true, false)
        else __wb_can_wind false (expected + rq_write_size r) l'
  end.

Definition __wb_mark_winds (conf : wb_conf) (wind_all : bool) (f : wb_file) : wb_file * list Z :=
  match wb_requests f with
  | [] => (f, [])
  | _ :: _ =>
      let '(other_fop, non_contiguous, incomplete) :=
        if negb wind_all && (wb_aggregate_current f <? aggregate_size conf)
        then __wb_can_wind true 0 (wb_requests f) else (false, false, false) in
      if (enable_trickling_writes conf && negb incomplete) || wind_all || non_contiguous || other_fop ||
         (aggregate_size conf <=? wb_aggregate_current f)
      then let '(f', winds, _) := __wb_mark_wind_all f in (f', winds)
      else (f, [])
  end.

(** Writes are answered before they are written, in order, until more than
    [size] bytes are. *)
Fixpoint unwind_till_loop (size written_behind : Z) (l : list wb_request) :
    list wb_request * list Z * Z :=
  match l with
  | [] => ([], [], 0)
  | r :: l' =>
      if negb (is_write r) then
        let '(k, unwinds, window) := unwind_till_loop size written_behind l' in (r :: k, unwinds, window)
      else if written_behind <=? size then
        if rq_write_behind r then
          let '(k, unwinds, window) := unwind_till_loop size written_behind l' in (r :: k, unwinds, window)
        else
          let '(k, unwinds, window) := unwind_till_loop size (u64 (written_behind + rq_write_size r)) l' in
          (rq_set_write_behind r :: k, rq_frame r :: unwinds,
           (if rq_got_reply r then 0 else rq_write_size r) + window)
      else (l, [], 0)
  end.

Definition __wb_mark_unwind_till (size : Z) (f : wb_file) : wb_file * list Z :=
  let '(l, unwinds, window) := unwind_till_loop size 0 (wb_requests f) in
  (set_window (u64 (wb_window_current f + window)) (set_requests l f), unwinds).

Definition __wb_mark_unwinds (f : wb_file) : wb_file * list Z :=
  match wb_requests f with
  | [] => (f, [])
  | _ :: _ =>
      if wb_window_current f <=? wb_window_conf f
      then __wb_mark_unwind_till (wb_window_conf f - wb_window_current f) f
      else (f, [])
  end.

(** The first request in front of all writes that has not been resumed. *)
Fixpoint get_other_loop (l : list wb_request) : list wb_request * list Z :=
  match l with
  | [] => ([], [])
  | r :: l' =>
      match rq_stub r with
      | None => (l, [])
      | Some s =>
          if decide (st_fop s = GF_FOP_WRITE) then (l, [])
          else if rq_marked_for_resume r then let '(k, others) := get_other_loop l' in (r :: k, others)
          else (rq_set_marked r :: l', [rq_frame r])
      end
  end.

Definition __wb_get_other_requests (f : wb_file) : wb_file * list Z :=
  let '(l, others) := get_other_loop (wb_requests f) in (set_requests l f, others).

(** ** Collapsing writes *)

(** The variables of [__wb_collapse_write_bufs].  [c_head] is the request that
    [iov_len] and [write_size] point into, and [c_ptr] the distance of [ptr] from
    the buffer of that request. *)
Record collapse := mk_collapse {
  c_first : bool;
  c_expected : Z;
  c_space : Z;
  c_ptr : option Z;
  c_head : option Z
}.

(** [iov_unload] of a request to [ptr], and the new lengths of the request that
    takes its bytes. *)
Definition append_bytes (ptr : option Z) (r head : wb_request) : option wb_request :=
  s ← rq_stub head;
  match st_vector s with
  | [] => None
  | v :: vs =>
      base ← match ptr with
             | Some p => buf_write p (iov_data (rq_vector r)) (iov_base v)
             | None => match iov_data (rq_vector r) with [] => Some (iov_base v) | _ :: _ => None end
             end;
      let v' := mk_iovec base (u64 (iov_len v + rq_write_size r)) in
      Some (rq_set_size (u64 (rq_write_size head + rq_write_size r))
              (rq_set_stub (Some (mk_stub (st_fop s) (st_wind s) (st_off s) (v' :: vs))) head))
  end.

Fixpoint append_to (head : Z) (ptr : option Z) (r : wb_request) (l : list wb_request) :
    option (list wb_request) :=
  match l with
  | [] => None
  | h :: l' =>
      if rq_frame h =? head then h' ← append_bytes ptr r h; Some (h' :: l')
      else cons h <$> append_to head ptr r l'
  end.

(** The loop, with the requests it has passed and the passive ones.  A request
    whose bytes were taken is moved and gives up a reference; its size is read
    afterwards. *)
Fixpoint collapse_loop (page_size : Z) (c : collapse) (passed l passive : list wb_request) :
    option (list wb_request * list wb_request) :=
  match l with
  | [] => Some (passed, passive)
  | r :: l' =>
      if negb (is_write r) || rq_stack_wound r then
        collapse_loop page_size (mk_collapse true (c_expected c) 0 None (c_head c)) (passed ++ [r]) l' passive
      else if negb (rq_write_behind r) then Some (passed ++ l, passive)
      else
        let expected := if c_first c then rq_off r else c_expected c in
        let size := rq_write_size r in
        let here e := collapse_loop page_size
          (mk_collapse false e (u64 (page_size - size)) (Some size) (Some (rq_frame r))) (passed ++ [r]) l' passive in
        if negb (rq_off r =? expected) then _ ← head (rq_vector r); here (rq_off r + size)
        else if size <=? c_space c then
          h ← c_head c;
          passed' ← append_to h (c_ptr c) r passed;
          passive' ← unref_in (rq_frame r) (passive ++ [r]);
          r' ← find_request (rq_frame r) passive';
          collapse_loop page_size
            (mk_collapse false (expected + rq_write_size r') (u64 (c_space c - size))
               ((fun p => p + size) <$> c_ptr c) (Some h)) passed' l' passive'
        else _ ← head (rq_vector r); here (expected + size)
  end.

Definition __wb_collapse_write_bufs (page_size : Z) (f : wb_file) : option wb_file :=
  '(l, passive) ← collapse_loop page_size (mk_collapse true 0 0 None None) [] (wb_requests f) (wb_passive_requests f);
  Some (set_passive passive (set_requests l f)).

(** ** The queue *)

(** The critical section of [wb_process_queue]: what to answer, to wind and to
    resume. *)
Definition process_locked (conf : wb_conf) (page_size : Z) (flush_all : bool) (f : wb_file) :
    option (wb_file * list Z * list Z * list Z) :=
  let '(f1, unwinds) := __wb_mark_unwinds f in
  f2 ← __wb_collapse_write_bufs page_size f1;
  let '(f3, others) := __wb_get_other_requests f2 in
  match others with
  | [] => let '(f4, winds) := __wb_mark_winds conf flush_all f3 in Some (f4, unwinds, winds, [])
  | _ :: _ => Some (f3, unwinds, [], others)
  end.

(** The critical section of [wb_sync_cbk]: the writes of a call that has been
    answered. *)
Fixpoint sync_replies (winds : list Z) (op_ret op_errno : Z) (f : wb_file) : option wb_file :=
  match winds with
  | [] => Some f
  | fr :: winds' =>
      r ← get_request fr f;
      let f1 := upd_request fr rq_set_got_reply f in
      let f2 := if negb (rq_write_behind r) && (op_ret =? -1)
                then upd_request fr (rq_set_answer op_ret op_errno) f1 else f1 in
      let f3 := if rq_write_behind r then set_window (u64 (wb_window_current f2 - rq_write_size r)) f2 else f2 in
      f4 ← __wb_request_unref fr f3;
      sync_replies winds' op_ret op_errno f4
  end.

Definition sync_cbk_locked (winds : list Z) (op_ret op_errno : Z) (f : wb_file) : option wb_file :=
  f' ← sync_replies winds op_ret op_errno f;
  Some (if op_ret =? -1 then set_error op_ret op_errno f' else f').

(** ** Winding writes *)

(** The outcome of the next allocation; they succeed when nothing else is said. *)
Definition alloc (allocs : list bool) : bool * list bool :=
  match allocs with [] => (true, []) | b :: allocs' => (b, allocs') end.

(** The calls that [wb_sync] makes for the writes it is given, each with the
    requests it carries, and the bytes they have, or -1.  [cur] are the requests
    collected for the next call, with [count] vectors and [size] bytes. *)
Fixpoint sync_loop (conf : wb_conf) (allocs : list bool) (cur : list wb_request) (count size bytes : Z)
    (l : list wb_request) : option (list (list wb_request) * Z) :=
  match l with
  | [] => Some ([], bytes)
  | r :: l' =>
      let '(vector_ok, allocs1) := match cur with [] => alloc allocs | _ :: _ => (true, allocs) end in
      if negb vector_ok then Some ([], -1)
      else
        let size0 := match cur with [] => 0 | _ :: _ => size end in
        let count' := count + Z.of_nat (length (rq_vector r)) in
        if MAX_VECTOR_COUNT <? count' then None
        else
          let size' := size0 + rq_write_size r in
          let cur' := cur ++ [r] in
          let full := match l' with
                      | [] => true
                      | next :: _ => (MAX_VECTOR_COUNT <? count' + Z.of_nat (length (rq_vector next))) ||
                                     (aggregate_size conf <? size' + rq_write_size next)
                      end in
          if full then
            let '(frame_ok, allocs2) := alloc allocs1 in
            if negb frame_ok then Some ([], -1)
            else
              '(calls, bytes') ← sync_loop conf allocs2 [] 0 size' (bytes + size') l';
              Some (cur' :: calls, bytes')
          else sync_loop conf allocs1 cur' count' size' bytes l'
  end.

Definition wb_sync (conf : wb_conf) (allocs : list bool) (winds : list wb_request) :
    option (list (list wb_request) * Z) :=
  if forallb (fun r => match rq_vector r with [] => true | _ :: _ => false end) winds then Some ([], 0)
  else sync_loop conf allocs [] 0 0 0 winds.

(** ** Options *)

(** What an option of the volume file holds: nothing, something that cannot be
    read, or a value. *)
Inductive wb_option (A : Type) := Unset | Unreadable | Set_to (x : A).
Arguments Unset {A}.
Arguments Unreadable {A}.
Arguments Set_to {A} x.

Definition option_or {A} (dflt : A) (o : wb_option A) : option A :=
  match o with Unset => Some dflt | Unreadable => None | Set_to x => Some x end.

(** [init], where there is one child and memory for the configuration. *)
Definition init (o_sync : wb_option bool) (first_nbytes cache_size : wb_option Z)
    (flush trickling : wb_option bool) : option wb_conf :=
  osync ← option_or false o_sync;
  till ← option_or 1 first_nbytes;
  window ← option_or WB_WINDOW_SIZE cache_size;
  let window := if (window =? 0) && negb (WB_AGGREGATE_SIZE =? 0) then WB_AGGREGATE_SIZE else window in
  if window <? WB_AGGREGATE_SIZE then None
  else
    fl ← option_or false flush;
    tr ← option_or true trickling;
    Some (mk_wb_conf WB_AGGREGATE_SIZE window till osync fl tr).
