(* ===== verification/WriteBehindOps.v ===== *)
(** * performance/write-behind: the operations

    The handlers and callbacks of write-behind.c.  A thread is the list of what
    it has still to do: actions, each of which is one critical section of the lock
    of the file, or one call to the child or answer to the parent.  A handler and a
    callback are the actions they start with.  Where [wb_process_queue] fails for
    want of memory the thread goes on with other actions than where it succeeds,
    which the action carries.  The references to the fd, which keep the file alive
    until the last answer, belong to fd.c and are left out.

    The calls of the parent, the threads that run them, the calls in flight to
    the child and its answers, in any interleaving; and the orderly runs, in which
    a thread ends before the next begins. *)

From stdpp Require Import base list numbers strings gmap relations.
From S2P Require Import Prelude WriteBehind.
Open Scope Z_scope.

(** A call wound to the child, with what its answer needs: the requests of a
    collected write; a write that was not queued; another operation, and whether
    it has a request in the queue; a flush, and whether its answer is ignored. *)
Inductive wb_call :=
  | C_writev (winds : list Z) (off : Z) (data : list Z)
  | C_direct (fr off : Z) (data : list Z)
  | C_other (fop : glfop) (fr : Z) (request : bool)
  | C_flush (fr : Z) (background : bool).

Inductive action :=
  | A_answer (fr op_ret op_errno : Z)
  | A_wind (c : wb_call)
  | A_writev (fr off : Z) (vector : list iovec) (allocs : bool)
  | A_enqueue (fr : Z) (stub : call_stub)
  | A_process (flush_all : bool) (on_enomem : list action)
  | A_unwind (fr : Z)
  | A_sync (winds others : list Z) (on_enomem : list action)
  | A_resume (fr : Z) (on_enomem : list action)
  | A_unref (fr : Z)
  | A_sync_cbk (winds : list Z) (op_ret op_errno : Z)
  | A_set_error (op_ret op_errno : Z)
  | A_fsync_cbk (fr : Z) (request : bool) (op_ret op_errno : Z)
  | A_flush (fr : Z) (allocs : bool)
  | A_ffr_cbk (fr op_ret op_errno : Z)
  | A_ffr_unwind (fr op_ret op_errno : Z)
  | A_destroy_stub (fr : Z).

(** ** Handlers *)

(** What [fd_ctx_get] finds: no context, the NULL of a directory, the file. *)
Inductive fd_file := FD_NONE | FD_DIR | FD_FILE.

(** An operation is queued behind the writes, and the queue flushed. *)
Definition queue_op (fop : glfop) (fr : Z) : list action :=
  [A_enqueue fr (mk_stub fop true 0 []); A_process true [A_answer fr (-1) ENOMEM; A_destroy_stub fr]].

(** [local], [stub] and [request] tell which of their allocations succeed. *)
Definition queue_fd_op (fop : glfop) (fd : fd_file) (local stub request : bool) (fr : Z) : list action :=
  match fd with
  | FD_NONE => [A_answer fr (-1) EBADFD]
  | FD_DIR => if local then [A_wind (C_other fop fr false)] else [A_answer fr (-1) ENOMEM]
  | FD_FILE => if local && stub && request then queue_op fop fr else [A_answer fr (-1) ENOMEM]
  end.

(** [file] tells whether [fd_lookup] finds an open file of the process. *)
Definition queue_loc_op (fop : glfop) (file : bool) (local stub request : bool) (fr : Z) : list action :=
  if negb local then [A_answer fr (-1) ENOMEM]
  else if negb file then [A_wind (C_other fop fr false)]
  else if stub && request then queue_op fop fr
  else [A_answer fr (-1) ENOMEM].

Definition wb_stat := queue_loc_op GF_FOP_STAT.
Definition wb_truncate := queue_loc_op GF_FOP_TRUNCATE.

Definition GF_SET_ATTR_ATIME : Z := 16.
Definition GF_SET_ATTR_MTIME : Z := 32.

Definition wb_setattr (file : bool) (valid : Z) (local stub request : bool) (fr : Z) : list action :=
  if negb local then [A_answer fr (-1) ENOMEM]
  else if Z.land valid (Z.lor GF_SET_ATTR_ATIME GF_SET_ATTR_MTIME) =? 0 then [A_wind (C_other GF_FOP_SETATTR fr false)]
  else queue_loc_op GF_FOP_SETATTR file local stub request fr.

Definition wb_fstat := queue_fd_op GF_FOP_FSTAT.
Definition wb_ftruncate := queue_fd_op GF_FOP_FTRUNCATE.
Definition wb_readv := queue_fd_op GF_FOP_READ.
Definition wb_fsync := queue_fd_op GF_FOP_FSYNC.

Definition wb_flush (fd : fd_file) (local stub process_frame allocs : bool) (fr : Z) : list action :=
  match fd with
  | FD_NONE => [A_answer fr (-1) EBADFD]
  | FD_DIR => [A_wind (C_flush fr false)]
  | FD_FILE => if local && stub && process_frame then [A_flush fr allocs] else [A_answer fr (-1) ENOMEM]
  end.

(** For a directory [op_ret] is still -1, its first value. *)
Definition wb_writev (fd : fd_file) (allocs : bool) (off : Z) (vector : list iovec) (fr : Z) : list action :=
  match fd with
  | FD_NONE => [A_answer fr (-1) EBADFD]
  | FD_DIR => [A_answer fr (-1) EINVAL]
  | FD_FILE => [A_writev fr off vector allocs]
  end.

(** ** Callbacks *)

(** [wb_stat_cbk], [wb_truncate_cbk] and [wb_setattr_cbk] answer first. *)
Definition loc_cbk (request process_frame : bool) (fr op_ret op_errno : Z) : list action :=
  let '(ret, errno) := if request && negb process_frame then (-1, ENOMEM) else (op_ret, op_errno) in
  A_answer fr ret errno ::
  (if request then [A_unref fr] else []) ++
  (if request && process_frame then [A_process false [A_set_error (-1) ENOMEM]] else []).

Definition wb_stat_cbk := loc_cbk.
Definition wb_truncate_cbk := loc_cbk.
Definition wb_setattr_cbk := loc_cbk.

(** [wb_fstat_cbk], [wb_ftruncate_cbk] and [wb_readv_cbk] answer last. *)
Definition fd_cbk (request : bool) (fr op_ret op_errno : Z) : list action :=
  (if request then [A_unref fr; A_process false [A_answer fr (-1) ENOMEM]] else []) ++ [A_answer fr op_ret op_errno].

Definition wb_fstat_cbk := fd_cbk.
Definition wb_ftruncate_cbk := fd_cbk.
Definition wb_readv_cbk := fd_cbk.

Definition wb_fsync_cbk (request : bool) (fr op_ret op_errno : Z) : list action :=
  [A_fsync_cbk fr request op_ret op_errno].

Definition wb_writev_cbk (fr op_ret op_errno : Z) : list action := [A_answer fr op_ret op_errno].

Definition wb_sync_cbk (winds : list Z) (op_ret op_errno : Z) : list action := [A_sync_cbk winds op_ret op_errno].

Definition wb_ffr_cbk (fr op_ret op_errno : Z) : list action := [A_ffr_cbk fr op_ret op_errno].

(** The callback of a call; [frame] tells whether [copy_frame] succeeds. *)
Definition callback (c : wb_call) (frame : bool) (op_ret op_errno : Z) : list action :=
  match c with
  | C_writev winds _ _ => wb_sync_cbk winds op_ret op_errno
  | C_direct fr _ _ => wb_writev_cbk fr op_ret op_errno
  | C_other GF_FOP_STAT fr request => wb_stat_cbk request frame fr op_ret op_errno
  | C_other GF_FOP_TRUNCATE fr request => wb_truncate_cbk request frame fr op_ret op_errno
  | C_other GF_FOP_SETATTR fr request => wb_setattr_cbk request frame fr op_ret op_errno
  | C_other GF_FOP_FSTAT fr request => wb_fstat_cbk request fr op_ret op_errno
  | C_other GF_FOP_FTRUNCATE fr request => wb_ftruncate_cbk request fr op_ret op_errno
  | C_other GF_FOP_READ fr request => wb_readv_cbk request fr op_ret op_errno
  | C_other GF_FOP_FSYNC fr request => wb_fsync_cbk request fr op_ret op_errno
  | C_other (GF_FOP_WRITE | GF_FOP_FLUSH) fr _ => []
  | C_flush fr background => if background then [] else wb_ffr_cbk fr op_ret op_errno
  end.

(** ** Actions *)

(** The file, and the [reply_count] of the flushes that wait for two replies. *)
Record wb_state := mk_wb_state { ws_file : wb_file; ws_replies : gmap Z Z }.

Definition set_file (f : wb_file) (s : wb_state) : wb_state := mk_wb_state f (ws_replies s).

(** What a thread shows: an answer to the parent, an answer to a queued write by
    [wb_stack_unwind], or a call to the child. *)
Inductive output :=
  | O_answer (fr op_ret op_errno : Z)
  | O_unwind (fr op_ret op_errno : Z)
  | O_call (c : wb_call).

(** The test of [wb_flush] and [wb_ffr_cbk]. *)
Definition flushes_behind (conf : wb_conf) (f : wb_file) : bool :=
  flush_behind conf && negb (wb_disabled f) && (wb_disable_till f =? 0).

(** The critical section of [wb_writev]: an error that is due, and whether the
    write goes to the child at once. *)
Definition writev_locked (size : Z) (f : wb_file) : wb_file * bool :=
  if (wb_op_ret f =? 0) && (wb_disabled f || negb (wb_disable_till f =? 0)) then
    (set_disable_till (if wb_disable_till f <? size then 0 else wb_disable_till f - size)
       (set_error 0 (wb_op_errno f) f), true)
  else (set_error 0 (wb_op_errno f) f, false).

Definition writev_actions (f : wb_file) (disabled allocs : bool) (fr off : Z) (vector : list iovec) : list action :=
  if wb_op_ret f =? -1 then [A_answer fr (-1) (wb_op_errno f)]
  else if disabled then [A_wind (C_direct fr off (iov_data vector))]
  else if negb allocs then [A_answer fr (-1) ENOMEM]
  else [A_enqueue fr (mk_stub GF_FOP_WRITE true off vector);
        A_process false [A_answer fr (-1) ENOMEM; A_destroy_stub fr]].

(** The error of an earlier write replaces the answer, and is forgotten. *)
Definition take_error (op_ret op_errno : Z) (f : wb_file) : wb_file * Z * Z :=
  if wb_op_ret f =? -1 then (set_error 0 (wb_op_errno f) f, -1, wb_op_errno f) else (f, op_ret, op_errno).

(** The call for requests that [wb_sync] collected. *)
Definition sync_call (rs : list wb_request) : wb_call :=
  C_writev (map rq_frame rs) (match rs with r :: _ => rq_off r | [] => 0 end)
    (concat (map (fun r => iov_data (rq_vector r)) rs)).

(** One action of a thread that goes on with [k]: the new state, what the thread
    goes on with, and its output. *)
Definition run (conf : wb_conf) (page_size : Z) (allocs : list bool) (a : action) (k : list action) (s : wb_state) :
    option (wb_state * list action * list output) :=
  let f := ws_file s in
  match a with
  | A_answer fr op_ret op_errno => Some (s, k, [O_answer fr op_ret op_errno])
  | A_wind c => Some (s, k, [O_call c])
  | A_writev fr off vector ok =>
      let '(f', disabled) := writev_locked (iov_length vector) f in
      Some (set_file f' s, writev_actions f disabled ok fr off vector ++ k, [])
  | A_enqueue fr stub => Some (set_file (wb_enqueue f fr stub) s, k, [])
  | A_process flush_all on_enomem =>
      '(f', unwinds, winds, others) ← process_locked conf page_size flush_all f;
      Some (set_file f' s, map A_unwind unwinds ++ A_sync winds others on_enomem :: k, [])
  | A_unwind fr =>
      r ← get_request fr f;
      f' ← __wb_request_unref fr f;
      Some (set_file f' s, k, [O_unwind fr (rq_op_ret r) (rq_op_errno r)])
  | A_sync winds others on_enomem =>
      rs ← mapM (fun fr => get_request fr f) winds;
      '(calls, bytes) ← wb_sync conf allocs rs;
      Some (s, map (fun rs => A_wind (sync_call rs)) calls ++
               (if bytes =? -1 then on_enomem else map (fun fr => A_resume fr on_enomem) others ++ k), [])
  | A_resume fr on_enomem =>
      r ← get_request fr f;
      stub ← rq_stub r;
      Some (set_file (upd_request fr (rq_set_stub None) f) s,
            (if st_wind stub then [A_wind (C_other (st_fop stub) fr true)]
             else [A_unref fr; A_ffr_cbk fr 0 0; A_process false on_enomem]) ++ k, [])
  | A_unref fr => f' ← __wb_request_unref fr f; Some (set_file f' s, k, [])
  | A_sync_cbk winds op_ret op_errno =>
      f' ← sync_cbk_locked winds op_ret op_errno f;
      Some (set_file f' s, A_process false (A_set_error (-1) ENOMEM :: k) :: k, [])
  | A_set_error op_ret op_errno => Some (set_file (set_error op_ret op_errno f) s, k, [])
  | A_fsync_cbk fr request op_ret op_errno =>
      let '(f', ret, errno) := take_error op_ret op_errno f in
      Some (set_file f' s,
            (if request then [A_unref fr; A_process false (A_answer fr (-1) ENOMEM :: k)] else []) ++
            A_answer fr ret errno :: k, [])
  | A_flush fr ok =>
      if negb ok then Some (s, A_answer fr (-1) ENOMEM :: k, [])
      else Some (s, [A_enqueue fr (mk_stub GF_FOP_FLUSH false 0 []);
                     A_process true [A_answer fr (-1) ENOMEM; A_destroy_stub fr];
                     A_wind (C_flush fr (flushes_behind conf f))] ++ k, [])
  | A_ffr_cbk fr op_ret op_errno =>
      if flushes_behind conf f then Some (s, A_ffr_unwind fr op_ret op_errno :: k, [])
      else
        let n := default 0 (ws_replies s !! fr) + 1 in
        Some (mk_wb_state f (<[fr := n]> (ws_replies s)),
              (if n =? 2 then [A_ffr_unwind fr op_ret op_errno] else []) ++ k, [])
  | A_ffr_unwind fr op_ret op_errno =>
      let '(f', ret, errno) := take_error op_ret op_errno f in
      Some (set_file f' s, A_process false (A_answer fr (-1) ENOMEM :: k) :: A_answer fr ret errno :: k, [])
  | A_destroy_stub _ => None
  end.

(** ** The system *)

(** The calls of the parent on an open file; the Booleans are the allocations
    that succeed. *)
Inductive client_call :=
  | K_writev (allocs : bool) (off : Z) (vector : list iovec)
  | K_stat (local stub request : bool)
  | K_truncate (local stub request : bool)
  | K_setattr (valid : Z) (local stub request : bool)
  | K_fstat (local stub request : bool)
  | K_ftruncate (local stub request : bool)
  | K_readv (local stub request : bool)
  | K_fsync (local stub request : bool)
  | K_flush (local stub process_frame allocs : bool).

Definition start (c : client_call) (fr : Z) : list action :=
  match c with
  | K_writev allocs off vector => wb_writev FD_FILE allocs off vector fr
  | K_stat l s r => wb_stat true l s r fr
  | K_truncate l s r => wb_truncate true l s r fr
  | K_setattr valid l s r => wb_setattr true valid l s r fr
  | K_fstat l s r => wb_fstat FD_FILE l s r fr
  | K_ftruncate l s r => wb_ftruncate FD_FILE l s r fr
  | K_readv l s r => wb_readv FD_FILE l s r fr
  | K_fsync l s r => wb_fsync FD_FILE l s r fr
  | K_flush l s p a => wb_flush FD_FILE l s p a fr
  end.

(** Beside the state: the threads, the calls the child has not answered, the
    number of the next frame, what was shown so far, and what was queued so far. *)
Record wb_sys := mk_sys {
  y_state : wb_state;
  y_threads : list (list action);
  y_calls : list wb_call;
  y_next : Z;
  y_log : list output;
  y_queued : list (Z * call_stub)
}.

Definition y_file (y : wb_sys) : wb_file := ws_file (y_state y).

Definition calls_of (outs : list output) : list wb_call :=
  omap (fun o => match o with O_call c => Some c | _ => None end) outs.

Definition queued_by (a : action) : list (Z * call_stub) :=
  match a with A_enqueue fr stub => [(fr, stub)] | _ => [] end.

Inductive wb_label :=
  | L_start (c : client_call)
  | L_run (i : nat) (allocs : list bool)
  | L_reply (j : nat) (frame : bool) (op_ret op_errno : Z).

Section System.
Context (conf : wb_conf) (page_size : Z).

Definition exec (l : wb_label) (y : wb_sys) : option wb_sys :=
  match l with
  | L_start c =>
      Some (mk_sys (y_state y) (y_threads y ++ [start c (y_next y)]) (y_calls y) (y_next y + 1) (y_log y) (y_queued y))
  | L_run i allocs =>
      th ← y_threads y !! i;
      match th with
      | [] => Some y
      | a :: k =>
          '(st, k', outs) ← run conf page_size allocs a k (y_state y);
          Some (mk_sys st (<[i := k']> (y_threads y)) (y_calls y ++ calls_of outs) (y_next y) (y_log y ++ outs)
                  (y_queued y ++ queued_by a))
      end
  | L_reply j frame op_ret op_errno =>
      c ← y_calls y !! j;
      Some (mk_sys (y_state y) (y_threads y ++ [callback c frame op_ret op_errno]) (delete j (y_calls y)) (y_next y)
              (y_log y) (y_queued y))
  end.

(** The memory behind a write is a page, and the write has one vector with
    something in it. *)
Definition good_vector (vector : list iovec) : Prop :=
  match vector with
  | [v] => 0 < iov_len v <= page_size /\ page_size <= Z.of_nat (length (iov_base v))
  | _ => False
  end.

#[export] Instance good_vector_dec vector : Decision (good_vector vector).
Proof. destruct vector as [|v [|]]; simpl; apply _. Defined.

(** A step that can be taken: threads and calls that exist, writes as above, and
    memory for what the threads need. *)
Definition legal (l : wb_label) (y : wb_sys) : Prop :=
  match l with
  | L_start (K_writev _ _ vector) => good_vector vector
  | L_start _ => True
  | L_run i allocs => (i < length (y_threads y))%nat /\ allocs = []
  | L_reply j frame _ _ => (j < length (y_calls y))%nat /\ frame = true
  end.

#[export] Instance legal_dec l y : Decision (legal l y).
Proof. destruct l as [[]| |]; simpl; apply _. Defined.

Definition wb_step (y y' : wb_sys) : Prop := exists l, legal l y /\ exec l y = Some y'.

(** No thread is at work. *)
Definition idle (y : wb_sys) : Prop := Forall (fun th => th = []) (y_threads y).

#[export] Instance idle_dec y : Decision (idle y).
Proof. apply (Forall_dec (fun th => th = [])). Defined.

(** A thread begins when the others have ended. *)
Definition orderly (l : wb_label) (y : wb_sys) : Prop :=
  match l with L_run _ _ => True | _ => idle y end.

#[export] Instance orderly_dec l y : Decision (orderly l y).
Proof. destruct l; simpl; apply _. Defined.

Definition orderly_step (y y' : wb_sys) : Prop :=
  exists l, legal l y /\ orderly l y /\ exec l y = Some y'.

(** A sequence of steps that can be taken. *)
Fixpoint run_labels (ls : list wb_label) (y : wb_sys) : option wb_sys :=
  match ls with
  | [] => Some y
  | l :: ls' => if decide (legal l y) then y' ← exec l y; run_labels ls' y' else None
  end.

Lemma run_labels_rtc ls : forall y y', run_labels ls y = Some y' -> rtc wb_step y y'.
Proof.
  induction ls as [|l ls IH]; simpl; intros y y' Hr; [injection Hr as ->; constructor|].
  case_decide as Hl; [|done]. destruct (exec l y) as [y1|] eqn:E; [|done]. simpl in Hr.
  eapply rtc_l; [by exists l|]. by apply IH.
Qed.

(** The same for orderly runs. *)
Fixpoint run_orderly (ls : list wb_label) (y : wb_sys) : option wb_sys :=
  match ls with
  | [] => Some y
  | l :: ls' => if decide (legal l y /\ orderly l y) then y' ← exec l y; run_orderly ls' y' else None
  end.

Lemma run_orderly_rtc ls : forall y y', run_orderly ls y = Some y' -> rtc orderly_step y y'.
Proof.
  induction ls as [|l ls IH]; simpl; intros y y' Hr; [injection Hr as ->; constructor|].
  case_decide as Hl; [|done]. destruct (exec l y) as [y1|] eqn:E; [|done]. simpl in Hr.
  eapply rtc_l; [by exists l; destruct Hl|]. by apply IH.
Qed.

End System.

(** A file that has just been opened. *)
Definition fresh_sys (f : wb_file) : wb_sys := mk_sys (mk_wb_state f ∅) [] [] 0 [] [].
