(* ===== verification/WriteBehindFacts.v ===== *)
(** * Lemmas on the write-behind queue

    What the loops over the list of requests do, and the invariant of a file: the
    reference counts agree with what is still to be done for each request, the
    counters with the sizes in the list, and the list is in an order that lets the
    loops see what they need at its head. *)

From stdpp Require Import gmap base list numbers strings.
From S2P Require Import Prelude WriteBehind WriteBehindOps.
Open Scope Z_scope.

(** ** Sums and names *)

Definition total (g : wb_request -> Z) (l : list wb_request) : Z := foldr (fun r z => g r + z) 0 l.

Abbreviation frames := (map rq_frame).

Lemma total_app g l k : total g (l ++ k) = total g l + total g k.
Proof. induction l as [|r l IH]; simpl; [done|]. rewrite IH. lia. Qed.

Lemma total_ext g h l : Forall (fun r => g r = h r) l -> total g l = total h l.
Proof. induction 1 as [|r l Hr _ IH]; simpl; congruence. Qed.

Lemma total_nonneg g l : Forall (fun r => 0 <= g r) l -> 0 <= total g l.
Proof. induction 1 as [|r l Hr _ IH]; simpl; lia. Qed.

Lemma total_map g u l : total g (map u l) = total (fun r => g (u r)) l.
Proof. induction l as [|r l IH]; simpl; congruence. Qed.

(** [u64] absorbs itself. *)
Lemma u64_add_l a b : u64 (u64 a + b) = u64 (a + b).
Proof. apply Zplus_mod_idemp_l. Qed.

Lemma u64_sub_l a b : u64 (u64 a - b) = u64 (a - b).
Proof. apply Zminus_mod_idemp_l. Qed.

(** ** Marking *)

(** Requests whose offsets follow each other from [e] on. *)
Fixpoint contiguous (e : Z) (rs : list wb_request) : Prop :=
  match rs with [] => True | r :: rs' => rq_off r = e /\ contiguous (e + rq_write_size r) rs' end.

Definition not_wound (r : wb_request) : Prop := rq_stack_wound r = false.

Lemma wind_all_spec first e l :
  exists l1 l2, l = l1 ++ l2 /\ Forall (fun r => is_write r = true) l1 /\
    wind_all_loop first e l =
      (map rq_set_stack_wound l1 ++ l2, frames (filter not_wound l1), total rq_write_size (filter not_wound l1)) /\
    contiguous (if first then match filter not_wound l1 with r :: _ => rq_off r | [] => e end else e)
      (filter not_wound l1).
Proof.
  revert first e. induction l as [|r l IH]; intros first e; simpl.
  { exists [], []. by destruct first. }
  destruct (is_write r) eqn:Ew; simpl; [|exists [], (r :: l); by destruct first].
  destruct (rq_stack_wound r) eqn:Es.
  - destruct (IH first e) as (l1 & l2 & -> & Hw & -> & Hc). exists (r :: l1), l2.
    rewrite filter_cons_False by (unfold not_wound; congruence). simpl.
    replace (rq_set_stack_wound r) with r by (by destruct r; simpl in *; subst).
    split_and!; [done|by constructor|done|done].
  - destruct (Z.eqb_spec (rq_off r) (if first then rq_off r else e)) as [He|]; simpl;
      [|exists [], (r :: l); by destruct first].
    rewrite <-He. destruct (IH false (rq_off r + rq_write_size r)) as (l1 & l2 & -> & Hw & -> & Hc).
    exists (r :: l1), l2. rewrite filter_cons_True by done. simpl.
    split_and!; [done|by constructor|done|by destruct first|by rewrite <-He].
Qed.

Definition mark_behind (r : wb_request) : wb_request := if is_write r then rq_set_write_behind r else r.

(** A write that has not been answered. *)
Definition unanswered (r : wb_request) : Prop := is_write r = true /\ rq_write_behind r = false.

#[export] Instance unanswered_dec r : Decision (unanswered r).
Proof. unfold unanswered. apply _. Defined.

Lemma unwind_till_spec size n l B :
  0 <= n -> Forall (fun r => is_write r = true -> 0 <= rq_write_size r <= B) l -> size + B < 2 ^ 64 ->
  exists l1 l2, l = l1 ++ l2 /\
    unwind_till_loop size n l =
      (map mark_behind l1 ++ l2, frames (filter unanswered l1),
       total (fun r => if rq_got_reply r then 0 else rq_write_size r) (filter unanswered l1)) /\
    n + total rq_write_size (filter unanswered l1) <= Z.max n (size + B).
Proof.
  intros Hn Hl Hs. revert n Hn. induction Hl as [|r l Hr Hl IH]; intros n Hn; simpl.
  { exists [], []. simpl. split_and!; [done..|lia]. }
  assert (forall n, 0 <= n -> mark_behind r = r -> ~ unanswered r ->
    (let '(k, u, w) := unwind_till_loop size n l in (r :: k, u, w)) = unwind_till_loop size n (r :: l) ->
    exists l1 l2, r :: l = l1 ++ l2 /\
    unwind_till_loop size n (r :: l) =
      (map mark_behind l1 ++ l2, frames (filter unanswered l1),
       total (fun r => if rq_got_reply r then 0 else rq_write_size r) (filter unanswered l1)) /\
    n + total rq_write_size (filter unanswered l1) <= Z.max n (size + B)) as Hskip.
  { intros m Hm Hid Hnu <-. destruct (IH m Hm) as (l1 & l2 & -> & -> & Hb). exists (r :: l1), l2.
    rewrite filter_cons_False by done. simpl. rewrite Hid. done. }
  destruct (is_write r) eqn:Ew; simpl.
  2:{ specialize (Hskip n Hn). simpl in Hskip. rewrite Ew in Hskip. apply Hskip; [|intros [? _]; congruence|done].
      unfold mark_behind. by rewrite Ew. }
  destruct (Z.leb_spec n size) as [Hle|Hgt].
  2:{ exists [], (r :: l). simpl. split_and!; [done..|lia]. }
  destruct (rq_write_behind r) eqn:Eb.
  { specialize (Hskip n Hn). simpl in Hskip. rewrite Ew, Eb, (proj2 (Z.leb_le _ _)) in Hskip by lia.
    apply Hskip; [|intros [_ ?]; congruence|done]. unfold mark_behind. rewrite Ew. by destruct r; simpl in *; subst. }
  rewrite u64_small by (unfold is_u64; specialize (Hr eq_refl); lia).
  specialize (Hr eq_refl).
  destruct (IH (n + rq_write_size r)) as (l1 & l2 & -> & -> & Hb); [lia|]. exists (r :: l1), l2.
  rewrite filter_cons_True by done. simpl.
  replace (mark_behind r) with (rq_set_write_behind r) by (unfold mark_behind; by rewrite Ew).
  split_and!; [done..|]. lia.
Qed.

Lemma get_other_spec l :
  (get_other_loop l = (l, [])) \/
  exists l1 r s l2, l = l1 ++ r :: l2 /\ Forall (fun r => is_write r = false) l1 /\
    Forall (fun r => rq_marked_for_resume r = true) l1 /\
    rq_stub r = Some s /\ is_write r = false /\ rq_marked_for_resume r = false /\
    get_other_loop l = (l1 ++ rq_set_marked r :: l2, [rq_frame r]).
Proof.
  induction l as [|r l IH]; simpl; [by left|].
  destruct (rq_stub r) as [s|] eqn:Es; [|by left]. case_decide as Ef; [by left|].
  assert (is_write r = false) as Ew by (unfold is_write; by rewrite Es, bool_decide_false).
  destruct (rq_marked_for_resume r) eqn:Em.
  - destruct IH as [->|(l1 & r' & s' & l2 & -> & Hw & Hm & Hs & Hw' & Hm' & ->)]; [by left|]. right.
    exists (r :: l1), r', s', l2. split_and!; try done; by constructor.
  - right. exists [], r, s, l. by split_and!.
Qed.

(** ** Collapsing *)

Definition rq_data (r : wb_request) : list Z := iov_data (rq_vector r).

(** Everything about a request but its bytes. *)
Definition same_flags (r r' : wb_request) : Prop :=
  rq_frame r' = rq_frame r /\ is_write r' = is_write r /\ rq_refcount r' = rq_refcount r /\
  rq_write_behind r' = rq_write_behind r /\ rq_stack_wound r' = rq_stack_wound r /\
  rq_got_reply r' = rq_got_reply r /\ rq_marked_for_resume r' = rq_marked_for_resume r /\
  (rq_stub r' = None <-> rq_stub r = None) /\ rq_off r' = rq_off r.

#[export] Instance same_flags_refl : Reflexive same_flags.
Proof. intros r. unfold same_flags. naive_solver. Qed.

#[export] Instance same_flags_trans : Transitive same_flags.
Proof. unfold same_flags. intros r1 r2 r3 H1 H2. destruct_and!. split_and!; try congruence. naive_solver. Qed.

Section Collapse.
Context (page : Z) (Hpage : page < 2 ^ 64).

(** The bytes of a write are in one vector, with the rest of a page behind them. *)
Definition holds (r : wb_request) : Prop :=
  0 < rq_write_size r <= page /\
  exists v, rq_vector r = [v] /\ iov_len v = rq_write_size r /\ page <= Z.of_nat (length (iov_base v)).

Lemma holds_length r : holds r -> Z.of_nat (length (rq_data r)) = rq_write_size r.
Proof.
  intros (Hs & v & Hv & Hl & Hb). unfold rq_data, iov_data. rewrite Hv. simpl.
  rewrite app_nil_r. unfold iov_bytes. rewrite length_take. lia.
Qed.

(** The first write with the bytes of the second behind its own. *)
Definition absorb (h r : wb_request) : wb_request := default h (append_bytes (Some (rq_write_size h)) r h).

Lemma append_bytes_ok h r :
  holds h -> holds r -> rq_write_size h + rq_write_size r <= page ->
  append_bytes (Some (rq_write_size h)) r h = Some (absorb h r) /\ holds (absorb h r) /\
  same_flags h (absorb h r) /\ rq_write_size (absorb h r) = rq_write_size h + rq_write_size r /\
  rq_data (absorb h r) = rq_data h ++ rq_data r.
Proof.
  intros Hh Hr Hfit. pose proof (holds_length r Hr) as Hlen.
  destruct Hh as (Hhs & v & Hv & Hl & Hb), Hr as (Hrs & _).
  unfold absorb, append_bytes. unfold rq_vector in Hv. destruct (rq_stub h) as [s|] eqn:Es; [|done].
  simpl. rewrite Hv. change (iov_data (rq_vector r)) with (rq_data r).
  set (n := Z.to_nat (rq_write_size h)). set (m := length (rq_data r)).
  assert (buf_write (rq_write_size h) (rq_data r) (iov_base v) =
    Some (take n (iov_base v) ++ rq_data r ++ drop (n + m) (iov_base v))) as ->.
  { unfold buf_write. rewrite (proj2 (Z.leb_le _ _)), (proj2 (Z.leb_le _ _)) by lia. done. }
  rewrite !u64_small by (unfold is_u64; lia). simpl.
  assert (length (take n (iov_base v)) = n) as Htake by (rewrite length_take; lia).
  split_and!; [done| | |done|].
  - split; simpl; [lia|]. eexists. split; [done|]. simpl. split; [lia|].
    rewrite !length_app, length_drop, Htake. lia.
  - unfold same_flags, is_write, rq_off. simpl. rewrite Es. split_and!; try done.
  - assert (rq_data h = take n (iov_base v)) as ->.
    { unfold rq_data, rq_vector, iov_data. rewrite Es, Hv. simpl. rewrite app_nil_r. unfold iov_bytes. by rewrite Hl. }
    generalize (rq_data r) m Hlen Htake. intros d m' Hd Ht. unfold rq_data, rq_vector, iov_data. simpl.
    rewrite app_nil_r. unfold iov_bytes. simpl. rewrite Hl, app_assoc.
    rewrite take_app_length'; [done|]. rewrite length_app, Ht. lia.
Qed.

(** A write that may be collapsed. *)
Definition loose (r : wb_request) : bool := is_write r && negb (rq_stack_wound r) && rq_write_behind r.

(** Two writes that make one. *)
Definition joins (h r : wb_request) : Prop :=
  rq_off r = rq_off h + rq_write_size h /\ rq_write_size h + rq_write_size r <= page.

#[export] Instance joins_dec h r : Decision (joins h r).
Proof. unfold joins. apply _. Defined.

(** What collapsing does: the requests that stay, and those that are absorbed by
    the one in front of them.  [p] is the write at hand. *)
Fixpoint squeeze (p : option wb_request) (l : list wb_request) : list wb_request * list wb_request :=
  match l with
  | [] => (option_list p, [])
  | r :: l' =>
      if negb (is_write r) || rq_stack_wound r then
        let '(k, moved) := squeeze None l' in (option_list p ++ r :: k, moved)
      else if negb (rq_write_behind r) then (option_list p ++ l, [])
      else
        match p with
        | None => squeeze (Some r) l'
        | Some h =>
            if decide (joins h r) then let '(k, moved) := squeeze (Some (absorb h r)) l' in (k, r :: moved)
            else let '(k, moved) := squeeze (Some r) l' in (h :: k, moved)
        end
  end.

(** The variables of the loop, in terms of the write at hand. *)
Definition at_hand (p : option wb_request) (c : collapse) : Prop :=
  match p with
  | None => c_first c = true /\ c_space c = 0
  | Some h => c_first c = false /\ c_expected c = rq_off h + rq_write_size h /\ c_space c = page - rq_write_size h /\
      c_ptr c = Some (rq_write_size h) /\ c_head c = Some (rq_frame h)
  end.

Lemma append_to_last passed h r :
  rq_frame h ∉ frames passed -> append_to (rq_frame h) (Some (rq_write_size h)) r (passed ++ [h]) =
    h' ← append_bytes (Some (rq_write_size h)) r h; Some (passed ++ [h']).
Proof.
  induction passed as [|x l IH]; simpl; intros Hn; [by rewrite Z.eqb_refl|].
  destruct (Z.eqb_spec (rq_frame x) (rq_frame h)) as [E|]; [set_solver|].
  rewrite IH by set_solver. by destruct (append_bytes _ _ _).
Qed.

Lemma unref_in_last passed r :
  rq_frame r ∉ frames passed -> rq_refcount r = 2 ->
  unref_in (rq_frame r) (passed ++ [r]) = Some (passed ++ [rq_set_refcount 1 r]).
Proof.
  intros Hn Hr. induction passed as [|x l IH]; simpl in *.
  - rewrite Z.eqb_refl, Hr. done.
  - destruct (Z.eqb_spec (rq_frame x) (rq_frame r)) as [E|]; [set_solver|]. by rewrite IH by set_solver.
Qed.

Lemma find_request_last passed r :
  rq_frame r ∉ frames passed -> find_request (rq_frame r) (passed ++ [r]) = Some r.
Proof.
  unfold find_request. induction passed as [|x l IH]; simpl; intros Hn; [by rewrite Z.eqb_refl|].
  destruct (Z.eqb_spec (rq_frame x) (rq_frame r)) as [E|]; [set_solver|]. apply IH. set_solver.
Qed.

Lemma collapse_squeeze l : forall p c passed passive,
  at_hand p c -> Forall holds (option_list p) -> Forall (fun r => loose r = true -> holds r) l ->
  NoDup (frames (passed ++ option_list p ++ l ++ passive)) ->
  Forall (fun r => rq_refcount r = 2) (snd (squeeze p l)) ->
  collapse_loop page c (passed ++ option_list p) l passive =
    Some (passed ++ fst (squeeze p l), passive ++ map (rq_set_refcount 1) (snd (squeeze p l))).
Proof.
  induction l as [|r l IH]; intros p c passed passive Hc Hp Hl Hnd Hm; simpl; [by rewrite app_nil_r|].
  apply Forall_cons in Hl as [Hr Hl]. simpl in Hm.
  destruct (negb (is_write r) || rq_stack_wound r) eqn:E1.
  { rewrite <-app_assoc. destruct (squeeze None l) as [k moved] eqn:Ek. simpl in Hm.
    specialize (IH None (mk_collapse true (c_expected c) 0 None (c_head c)) (passed ++ option_list p ++ [r]) passive).
    rewrite Ek in IH. simpl in IH. rewrite app_nil_r in IH. rewrite IH; [|done|constructor|done| |done].
    - simpl. by rewrite <-!app_assoc.
    - by rewrite <-!app_assoc. }
  apply orb_false_elim in E1 as [Ew Es]. apply negb_false_iff in Ew.
  destruct (rq_write_behind r) eqn:Eb; simpl; [|by rewrite app_nil_r, app_assoc].
  assert (holds r) as Hhr by (apply Hr; unfold loose; by rewrite Ew, Es, Eb).
  pose proof Hhr as (Hsz & v & Hv & _).
  assert (forall e k passed, squeeze (Some r) l = k -> Forall (fun r => rq_refcount r = 2) (snd k) ->
    e = rq_off r + rq_write_size r -> NoDup (frames (passed ++ r :: l ++ passive)) ->
    collapse_loop page (mk_collapse false e (u64 (page - rq_write_size r)) (Some (rq_write_size r)) (Some (rq_frame r)))
      (passed ++ [r]) l passive = Some (passed ++ fst k, passive ++ map (rq_set_refcount 1) (snd k))) as Hhere.
  { intros e k q <- Hk -> Hq. apply (IH (Some r)); simpl; [|by apply Forall_singleton|done|done|done].
    rewrite u64_small by (unfold is_u64; lia). by split_and!. }
  rewrite Hv. simpl. destruct p as [h|]; simpl in *.
  2:{ destruct Hc as [-> Hsp]. rewrite Z.eqb_refl, Hsp, (proj2 (Z.leb_gt _ _)) by lia. simpl. rewrite app_nil_r.
      by apply Hhere. }
  destruct Hc as (-> & -> & -> & -> & ->). apply Forall_cons in Hp as [Hh _].
  assert (forall e, ~ joins h r -> e = rq_off r + rq_write_size r ->
    collapse_loop page (mk_collapse false e (u64 (page - rq_write_size r)) (Some (rq_write_size r)) (Some (rq_frame r)))
      ((passed ++ [h]) ++ [r]) l passive =
    Some (passed ++ fst (if decide (joins h r) then let '(k, moved) := squeeze (Some (absorb h r)) l in (k, r :: moved)
            else let '(k, moved) := squeeze (Some r) l in (h :: k, moved)),
          passive ++ map (rq_set_refcount 1) (snd (if decide (joins h r)
            then let '(k, moved) := squeeze (Some (absorb h r)) l in (k, r :: moved)
            else let '(k, moved) := squeeze (Some r) l in (h :: k, moved))))) as Hapart.
  { intros e Hj ->. rewrite decide_False in Hm |- * by done. destruct (squeeze (Some r) l) as [k moved] eqn:Ek.
    simpl in Hm. rewrite (Hhere _ (k, moved) (passed ++ [h])); [by rewrite <-app_assoc|done..|by rewrite <-app_assoc]. }
  destruct (Z.eqb_spec (rq_off r) (rq_off h + rq_write_size h)) as [Eo|Ho]; simpl; [|by apply Hapart; [intros [? _]|]].
  destruct (Z.leb_spec (rq_write_size r) (page - rq_write_size h)) as [Hfit|]; [|apply Hapart; [intros [_ ?]|]; lia].
  clear Hapart Hhere. rewrite decide_True in Hm |- * by (split; [done|lia]).
  destruct (append_bytes_ok h r) as (Ha & Hha & Hfl & Hsa & _); [done..|lia|].
  assert (rq_frame h ∉ frames passed) as Hnh.
  { intros Hin. rewrite !map_app in Hnd. apply NoDup_app in Hnd as (_ & Hnd & _). set_solver. }
  rewrite append_to_last, Ha by done. cbn [mbind option_bind].
  destruct (squeeze (Some (absorb h r)) l) as [k moved] eqn:Ek. simpl in Hm. apply Forall_cons in Hm as [Hr2 Hm].
  assert (rq_frame r ∉ frames passive) as Hnr.
  { intros Hin. rewrite map_app in Hnd. apply NoDup_app in Hnd as (_ & _ & Hnd). simpl in Hnd.
    apply NoDup_cons in Hnd as [_ Hnd]. apply NoDup_cons in Hnd as [Hnd _]. apply Hnd. rewrite map_app. set_solver. }
  rewrite unref_in_last by done. cbn [mbind option_bind].
  pose proof (find_request_last passive (rq_set_refcount 1 r) Hnr) as Hfind. simpl in Hfind. rewrite Hfind. cbn [mbind option_bind].
  destruct Hfl as (Ef & _ & _ & _ & _ & _ & _ & _ & Eoff). destruct Hh as [Hhs _].
  rewrite (IH (Some (absorb h r)) _ passed (passive ++ [rq_set_refcount 1 r])); rewrite ?Ek; simpl.
  - by rewrite <-!app_assoc.
  - rewrite u64_small by (unfold is_u64; lia). rewrite Hsa, Eoff, Ef. split_and!; try done; try lia.
  - by apply Forall_singleton.
  - done.
  - rewrite !map_app in *. simpl in *. rewrite map_app, Ef. simpl. revert Hnd. apply NoDup_Permutation_proper.
    apply Permutation_app_head, Permutation_skip.
    rewrite !map_app. simpl. by rewrite (Permutation_cons_append (frames l ++ frames passive)), app_assoc.
  - done.
Qed.

(** *** What stays *)

(** A request that may have grown. *)
Definition kept (r r' : wb_request) : Prop := same_flags r r' /\ (holds r -> holds r').

#[export] Instance kept_refl : Reflexive kept.
Proof. intros r. by split. Qed.

#[export] Instance kept_trans : Transitive kept.
Proof. intros r1 r2 r3 [? ?] [? ?]. split; [by etransitivity|auto]. Qed.

Lemma squeeze_split l : forall p, Forall holds (option_list p) -> Forall (fun r => loose r = true -> holds r) l ->
  exists l0, sublist l0 l /\ l0 ++ snd (squeeze p l) ≡ₚ l /\
    Forall2 kept (option_list p ++ l0) (fst (squeeze p l)).
Proof.
  induction l as [|r l IH]; intros p Hp Hl; simpl.
  { exists []. rewrite !app_nil_r. split_and!; [done..|reflexivity]. }
  apply Forall_cons in Hl as [Hr Hl].
  destruct (negb (is_write r) || rq_stack_wound r) eqn:E1.
  { destruct (IH None) as (l0 & Hs & Hpm & Hf); [constructor|done|].
    destruct (squeeze None l) as [k moved]. exists (r :: l0). simpl in *. split_and!; [by constructor|by f_equiv|].
    apply Forall2_app; [reflexivity|]. by constructor. }
  apply orb_false_elim in E1 as [Ew Es]. apply negb_false_iff in Ew.
  destruct (rq_write_behind r) eqn:Eb; simpl.
  2:{ exists (r :: l). rewrite !app_nil_r. split_and!; [done..|reflexivity]. }
  assert (holds r) as Hhr by (apply Hr; unfold loose; by rewrite Ew, Es, Eb).
  assert (exists l0, sublist l0 (r :: l) /\ l0 ++ snd (squeeze (Some r) l) ≡ₚ r :: l /\
    Forall2 kept l0 (fst (squeeze (Some r) l))) as Hnext.
  { destruct (IH (Some r)) as (l0 & Hs & Hpm & Hf); [by apply Forall_singleton|done|].
    exists (r :: l0). simpl in *. split_and!; [by constructor|by f_equiv|done]. }
  destruct p as [h|]; simpl in *; [|done]. case_decide as Hj.
  - apply Forall_cons in Hp as [Hh _]. destruct (append_bytes_ok h r Hh Hhr) as (_ & Hha & Hfl & _); [apply Hj|].
    destruct (IH (Some (absorb h r))) as (l0 & Hs & Hpm & Hf); [by apply Forall_singleton|done|].
    destruct (squeeze (Some (absorb h r)) l) as [k moved]. exists l0. simpl in *. split_and!.
    + by constructor.
    + by rewrite <-Hpm, Permutation_middle.
    + inversion Hf as [|? ? ? ? Hk]; subst. constructor; [|done]. transitivity (absorb h r); [by split|done].
  - destruct Hnext as (l0 & Hs & Hpm & Hf). destruct (squeeze (Some r) l) as [k moved]. exists l0.
    split_and!; [done..|]. by constructor.
Qed.

(** A measure of the list that does not see that two writes are joined is kept. *)
Lemma squeeze_measure {B} (op : B -> B -> B) (m : list wb_request -> B) (Q : wb_request -> Prop) :
  (forall l k, m (l ++ k) = op (m l) (m k)) ->
  (forall h r, Q h -> Q r -> loose h = true -> loose r = true -> holds h -> holds r -> joins h r ->
    Q (absorb h r) /\ m [absorb h r] = m [h; r]) ->
  forall l p, Forall (fun r => holds r /\ loose r = true) (option_list p) ->
    Forall (fun r => loose r = true -> holds r) l -> Forall Q (option_list p ++ l) ->
    m (fst (squeeze p l)) = m (option_list p ++ l).
Proof.
  intros Happ Hg. assert (forall x l, m (x :: l) = op (m [x]) (m l)) as Hcons by (intros x l; apply (Happ [x])).
  induction l as [|r l IH]; intros p Hp Hl HQ; simpl; [by rewrite app_nil_r|].
  apply Forall_cons in Hl as [Hr Hl]. pose proof HQ as [HQp [HQr HQl]%Forall_cons]%Forall_app.
  destruct (negb (is_write r) || rq_stack_wound r) eqn:E1.
  { specialize (IH None). destruct (squeeze None l) as [k moved]. simpl in *.
    by rewrite !(Happ (option_list p)), (Hcons r k), (Hcons r l), IH. }
  apply orb_false_elim in E1 as [Ew Es]. apply negb_false_iff in Ew.
  destruct (rq_write_behind r) eqn:Eb; simpl; [|done].
  assert (loose r = true) as Hlr by (unfold loose; by rewrite Ew, Es, Eb).
  destruct p as [h|]; simpl in *; [|by apply IH; [apply Forall_singleton; auto|..]].
  apply Forall_cons in Hp as [[Hh Hlh] _]. apply Forall_cons in HQp as [HQh _]. case_decide as Hj.
  - destruct (append_bytes_ok h r Hh (Hr Hlr)) as (_ & Hha & Hfl & _); [apply Hj|].
    destruct (Hg h r) as [HQa Ega]; auto. specialize (IH (Some (absorb h r))).
    destruct (squeeze (Some (absorb h r)) l) as [k moved]. simpl in *. rewrite IH; [|..|done|by constructor].
    + by rewrite (Hcons (absorb h r)), Ega, <-Happ.
    + apply Forall_singleton. split; [done|]. destruct Hfl as (_ & E1 & _ & E2 & E3 & _).
      unfold loose in *. by rewrite E1, E2, E3.
  - specialize (IH (Some r)). destruct (squeeze (Some r) l) as [k moved]. simpl in *.
    rewrite (Hcons h), IH, <-(Hcons h); [done|by apply Forall_singleton; auto|done|by constructor].
Qed.

(** No two neighbours are left to be joined. *)
Definition clash (h r : wb_request) : Prop := loose h = true /\ loose r = true /\ joins h r.

(** Neighbours that can be joined are such that the second is in [U]. *)
Fixpoint settled (U : wb_request -> Prop) (l : list wb_request) : Prop :=
  match l with
  | x :: l' => match l' with y :: _ => clash x y -> U y | [] => True end /\ settled U l'
  | [] => True
  end.

Lemma squeeze_moved (U : wb_request -> Prop) l : forall p,
  Forall (fun r => loose r = true) (option_list p) -> settled U (option_list p ++ l) ->
  pairwise (fun x y => U x -> loose y = true -> U y) l ->
  Forall (fun r => U r /\ loose r = true) (snd (squeeze p l)).
Proof.
  induction l as [|r l IH]; intros p Hp Hs Hu; simpl; [constructor|]. destruct Hu as [Hur Hu].
  assert (settled U (r :: l)) as Hsr by (destruct p as [h|]; [destruct Hs as [_ Hs]|]; done).
  assert (settled U l) as Hsl by apply Hsr.
  destruct (negb (is_write r) || rq_stack_wound r) eqn:E1.
  { specialize (IH None). destruct (squeeze None l) as [k moved]. by apply IH. }
  apply orb_false_elim in E1 as [Ew Es]. apply negb_false_iff in Ew.
  destruct (rq_write_behind r) eqn:Eb; simpl; [|constructor].
  assert (loose r = true) as Hlr by (unfold loose; by rewrite Ew, Es, Eb).
  destruct p as [h|]; [|by apply IH; [apply Forall_singleton|..]].
  apply Forall_cons in Hp as [Hh _]. case_decide as Hj.
  - assert (U r) as HUr by (apply Hs; by split_and!).
    specialize (IH (Some (absorb h r))). destruct (squeeze (Some (absorb h r)) l) as [k moved].
    constructor; [done|]. apply IH; [apply Forall_singleton| |done].
    + unfold absorb, append_bytes. destruct (rq_stub h) as [s|] eqn:Est; [|done]. simpl.
      destruct (st_vector s); [done|]. destruct (buf_write _ _ _); [|done].
      simpl. unfold loose, is_write in *. by rewrite Est in Hh.
    + destruct l as [|y l]; [done|]. split; [|done]. intros (_ & Hly & _).
      apply Forall_cons in Hur as [Hury _]. auto.
  - specialize (IH (Some r)). destruct (squeeze (Some r) l) as [k moved]. apply IH; [by apply Forall_singleton|done|done].
Qed.

(** Behind a write that has not been answered none has. *)
Definition answered_first (x y : wb_request) : Prop :=
  is_write x = true -> rq_write_behind y = true -> rq_write_behind x = true.

Lemma settled_not_loose U l : Forall (fun r => loose r = false) l -> settled U l.
Proof.
  induction 1 as [|x l Hx Hl IH]; simpl; [done|]. split; [|done]. destruct l as [|y l]; [done|].
  intros (? & _). congruence.
Qed.

Lemma settled_cons_not_loose U x l : loose x = false -> settled U l -> settled U (x :: l).
Proof. intros Hx Hl. split; [|done]. destruct l; [done|]. intros (? & _). congruence. Qed.

Lemma squeeze_settled l : forall p,
  Forall (fun r => holds r /\ loose r = true) (option_list p) -> Forall (fun r => loose r = true -> holds r) l ->
  pairwise answered_first l ->
  settled (fun _ => False) (fst (squeeze p l)) /\
  match p with
  | Some h => exists h' k, fst (squeeze p l) = h' :: k /\ rq_off h' = rq_off h /\ rq_write_size h <= rq_write_size h'
  | None => True
  end.
Proof.
  induction l as [|r l IH]; intros p Hp Hl Ho; simpl.
  { destruct p as [h|]; simpl; [|done]. split; [done|]. by exists h, []. }
  apply Forall_cons in Hl as [Hr Hl]. destruct Ho as [Hor Ho].
  assert (forall k, loose r = false -> settled (fun _ => False) (r :: k) ->
    settled (fun _ => False) (option_list p ++ r :: k) /\
    match p with
    | Some h => exists h' k', option_list p ++ r :: k = h' :: k' /\ rq_off h' = rq_off h /\ rq_write_size h <= rq_write_size h'
    | None => True
    end) as Hbar.
  { intros k Hk Hset. destruct p as [h|]; simpl; [|done]. split; [|by exists h, (r :: k)]. split; [|done].
    intros (_ & ? & _). congruence. }
  destruct (negb (is_write r) || rq_stack_wound r) eqn:E1.
  { destruct (IH None) as [Hset _]; [constructor|done|done|]. destruct (squeeze None l) as [k moved]. simpl in *.
    assert (loose r = false) as Hlr by (unfold loose; destruct (is_write r), (rq_stack_wound r); done).
    apply Hbar; [done|]. by apply settled_cons_not_loose. }
  apply orb_false_elim in E1 as [Ew Es]. apply negb_false_iff in Ew.
  destruct (rq_write_behind r) eqn:Eb; simpl.
  2:{ assert (forall y, rq_write_behind y = false -> loose y = false) as Hlo by (intros y Hy; unfold loose; by rewrite Hy, andb_false_r).
      apply Hbar; [auto|]. apply settled_not_loose. constructor; [auto|]. eapply Forall_impl; [exact Hor|]. intros y Hy.
      apply Hlo, not_true_iff_false. intros Hyb. specialize (Hy Ew Hyb). congruence. }
  assert (loose r = true) as Hlr by (unfold loose; by rewrite Ew, Es, Eb).
  destruct p as [h|]; [|split; [|done]; apply (IH (Some r)); [apply Forall_singleton; auto|done|done]].
  apply Forall_cons in Hp as [[Hh Hlh] _]. case_decide as Hj.
  - destruct (append_bytes_ok h r Hh (Hr Hlr)) as (_ & Hha & Hfl & Hsa & _); [apply Hj|].
    destruct Hfl as (_ & F1 & _ & F2 & F3 & _ & _ & _ & Foff). destruct (Hr Hlr) as [Hrs _].
    destruct (IH (Some (absorb h r))) as [Hset (h' & k' & Ek & Eo & Esz)]; [|done|done|].
    { apply Forall_singleton. split; [done|]. unfold loose in *. by rewrite F1, F2, F3. }
    destruct (squeeze (Some (absorb h r)) l) as [k moved]. simpl in *. split; [done|]. exists h', k'.
    split_and!; [done|congruence|lia].
  - destruct (IH (Some r)) as [Hset (h' & k' & Ek & Eo & Esz)]; [apply Forall_singleton; auto|done|done|].
    destruct (squeeze (Some r) l) as [k moved]. simpl in *. subst k. split; [|by exists h, (h' :: k')].
    split; [|done]. intros (_ & _ & E1 & E2). apply Hj. split; [congruence|lia].
Qed.

End Collapse.

(** ** What a queue still has to do *)

(** The bytes a file gets, one by one, and the operations in between. *)
Inductive event := E_byte (pos b : Z) | E_op (fr : Z).

Definition flat_write (off : Z) (data : list Z) : list event :=
  imap (fun i b => E_byte (off + Z.of_nat i) b) data.

Lemma flat_write_app off d1 d2 :
  flat_write off (d1 ++ d2) = flat_write off d1 ++ flat_write (off + Z.of_nat (length d1)) d2.
Proof.
  unfold flat_write. rewrite imap_app. f_equal. apply imap_ext. intros i b _. simpl. f_equal. lia.
Qed.

(** What a request that has been queued asks for. *)
Definition asks (fr : Z) (stub : call_stub) : list event :=
  if decide (st_fop stub = GF_FOP_WRITE) then flat_write (st_off stub) (iov_data (st_vector stub))
  else if st_wind stub then [E_op fr] else [].

(** What is still to be sent for it. *)
Definition pending_of (r : wb_request) : list event :=
  match rq_stub r with
  | Some s => if rq_stack_wound r || rq_marked_for_resume r then [] else asks (rq_frame r) s
  | None => []
  end.

Definition pending (l : list wb_request) : list event := concat (map pending_of l).

Lemma pending_app l k : pending (l ++ k) = pending l ++ pending k.
Proof. unfold pending. by rewrite map_app, concat_app. Qed.

Lemma pending_write r :
  is_write r = true -> rq_stack_wound r = false -> rq_marked_for_resume r = false ->
  pending_of r = flat_write (rq_off r) (rq_data r).
Proof.
  unfold is_write, pending_of, asks, rq_data, rq_off, rq_vector. destruct (rq_stub r) as [s|]; [|done].
  intros Hw%bool_decide_eq_true -> ->. simpl. by rewrite decide_True.
Qed.

(** Writes that follow each other are one write. *)
Lemma contiguous_flat page e rs :
  Forall (holds page) rs -> contiguous e rs ->
  concat (map (fun r => flat_write (rq_off r) (rq_data r)) rs) = flat_write e (concat (map rq_data rs)).
Proof.
  intros Hh. revert e. induction Hh as [|r rs Hr Hrs IH]; intros e; simpl; [done|]. intros [<- Hc].
  rewrite flat_write_app, (holds_length page r Hr). f_equal. by apply IH.
Qed.

Lemma settled_map_prefix page U u l k :
  (forall r, rq_off (u r) = rq_off r /\ rq_write_size (u r) = rq_write_size r /\ (loose (u r) = true -> loose r = true)) ->
  settled page (fun _ => False) (l ++ k) -> settled page U (map u l ++ k).
Proof.
  intros Hu. induction l as [|x l IH]; simpl.
  - induction k as [|y k IH]; simpl; [done|]. intros [Hc Hs]. split; [|auto]. destruct k; [done|]. intros H. by destruct (Hc H).
  - intros [Hc Hs]. split; [|by apply IH]. destruct (Hu x) as (E1 & E2 & E3).
    assert (forall y, clash page (u x) y -> clash page x y) as Hx.
    { intros y (H1 & H2 & H3). unfold joins in H3. rewrite E1, E2 in H3. split_and!; [auto|done|done]. }
    destruct l as [|y l]; simpl in *.
    + destruct k; [done|]. intros H. by destruct (Hc (Hx _ H)).
    + intros (H1 & H2 & H3)%Hx. destruct (Hu y) as (F1 & F2 & F3). unfold joins in H3. rewrite F1, F2 in H3.
      destruct Hc. split_and!; auto.
Qed.

Lemma settled_drop page U l1 l2 : settled page U (l1 ++ l2) -> settled page U l2.
Proof. induction l1 as [|x l1 IH]; simpl; [done|]. intros [_ ?]. auto. Qed.

Lemma settled_front page U l1 l2 :
  Forall (fun r => is_write r = false) l1 \/ Forall (fun r => rq_stack_wound r = true) l1 -> settled page U l2 ->
  settled page U (l1 ++ l2).
Proof.
  assert (forall x, is_write x = false \/ rq_stack_wound x = true -> loose x = false) as Hlo.
  { intros x [E|E]; unfold loose; rewrite E; [done|]. by rewrite andb_false_r. }
  intros [H|H] Hs; induction H as [|x l1 Hx Hl IH]; simpl; try done; apply settled_cons_not_loose; auto.
Qed.

(** Only offsets, sizes and flags matter to what can be joined. *)
Lemma settled_attrs page l l' :
  map (fun r => (rq_off r, rq_write_size r, loose r)) l' = map (fun r => (rq_off r, rq_write_size r, loose r)) l ->
  settled page (fun _ => False) l -> settled page (fun _ => False) l'.
Proof.
  revert l'. induction l as [|x l IH]; intros [|x' l'] E; simplify_eq/=; [done|].
  intros [Hc Hs]. split; [|by apply IH]. destruct l' as [|y' l'], l as [|y l]; simplify_eq/=; [done|].
  intros (J1 & J2 & J3 & J4). apply Hc. split_and!; [congruence..|]. split; [congruence|lia].
Qed.
