(* ===== verification/WriteBehindInv.v ===== *)
(** * The invariant of a write-behind file

    What is still to be done for the requests of a file is a list of tokens: the
    threads and the calls in flight hold them.  The invariant says that they
    account for the reference counts and flags of the requests, how the requests
    are ordered, and what the counters are; each critical section of the lock
    keeps it. *)

From stdpp Require Import gmap base list numbers strings.
From S2P Require Import Prelude WriteBehind WriteBehindOps WriteBehindFacts.
Open Scope Z_scope.

(** ** Tokens *)

(** A frame whose request is still to be queued, a write to be answered, a write
    on its way to the child, an operation to be resumed, one that has been, and
    a write that has been answered. *)
Inductive token :=
  | T_new (fr : Z) | T_unwind (fr : Z) | T_wind (fr : Z) | T_mark (fr : Z) | T_op (fr : Z) | T_done (fr : Z).

#[export] Instance token_eq_dec : EqDecision token.
Proof. solve_decision. Defined.

Definition tok_frame (t : token) : Z :=
  match t with T_new fr | T_unwind fr | T_wind fr | T_mark fr | T_op fr | T_done fr => fr end.

(** Tokens with the same key exclude each other. *)
Definition tok_key (t : token) : nat * Z :=
  match t with
  | T_new fr | T_unwind fr | T_done fr => (0%nat, fr)
  | T_wind fr => (1%nat, fr)
  | T_mark fr | T_op fr => (2%nat, fr)
  end.

(** ** The invariant *)

Section Invariant.
Context (page : Z).

Record write_ok (T : list token) (r : wb_request) : Prop := {
  wo_holds : holds page r;
  wo_refcount : rq_refcount r = Z.b2z (negb (rq_got_reply r)) +
    Z.b2z (negb (rq_write_behind r) || bool_decide (T_unwind (rq_frame r) ∈ T));
  wo_pos : 0 < rq_refcount r;
  wo_reply : rq_got_reply r = true -> rq_stack_wound r = true;
  wo_answered : if rq_write_behind r then T_unwind (rq_frame r) ∈ T \/ T_done (rq_frame r) ∈ T
                else (T_unwind (rq_frame r) ∉ T) /\ (T_done (rq_frame r) ∉ T);
  wo_marked : rq_marked_for_resume r = false
}.

Record other_ok (T : list token) (r : wb_request) : Prop := {
  oo_refcount : rq_refcount r = 1;
  oo_wound : rq_stack_wound r = false;
  oo_behind : rq_write_behind r = false;
  oo_marked : rq_stub r = None -> rq_marked_for_resume r = true;
  oo_resumed : rq_marked_for_resume r = false -> (T_mark (rq_frame r) ∉ T) /\ (T_op (rq_frame r) ∉ T)
}.

Definition request_ok (T : list token) (r : wb_request) : Prop :=
  if is_write r then write_ok T r else other_ok T r.

(** A write whose bytes another one has taken waits to be answered. *)
Record passive_ok (T : list token) (r : wb_request) : Prop := {
  po_write : is_write r = true;
  po_refcount : rq_refcount r = 1;
  po_behind : rq_write_behind r = true;
  po_unwind : T_unwind (rq_frame r) ∈ T
}.

Definition token_ok (l passive : list wb_request) (t : token) : Prop :=
  match t with
  | T_new fr => fr ∉ frames (l ++ passive)
  | T_unwind fr => exists r, r ∈ l ++ passive /\ rq_frame r = fr /\ is_write r = true /\ rq_write_behind r = true
  | T_wind fr => exists r, r ∈ l /\ rq_frame r = fr /\ is_write r = true /\ rq_stack_wound r = true /\
      rq_got_reply r = false
  | T_mark fr => exists r, r ∈ l /\ rq_frame r = fr /\ is_write r = false /\ rq_stub r <> None /\
      rq_marked_for_resume r = true
  | T_op fr => exists r, r ∈ l /\ rq_frame r = fr /\ rq_stub r = None
  | T_done fr => True
  end.

(** Writes on their way come first, then those that are answered; operations
    that are being done have no write in front of them. *)
Definition in_order (x y : wb_request) : Prop :=
  (rq_stack_wound y = true -> is_write x = true /\ rq_stack_wound x = true) /\
  answered_first x y /\
  (rq_marked_for_resume y = true -> is_write x = false /\ rq_marked_for_resume x = true).

Record queue_ok (n : Z) (T : list token) (l passive : list wb_request) : Prop := {
  q_frames : NoDup (frames (l ++ passive));
  q_keys : NoDup (map tok_key T);
  q_next : Forall (fun fr => fr < n) (frames (l ++ passive) ++ map tok_frame T);
  q_tokens : Forall (token_ok l passive) T;
  q_requests : Forall (request_ok T) l;
  q_passive : Forall (passive_ok T) passive;
  q_order : pairwise in_order l
}.

(** The bytes that were answered and are not written, and those not yet sent. *)
Definition wsize (r : wb_request) : Z :=
  if is_write r && rq_write_behind r && negb (rq_got_reply r) then rq_write_size r else 0.
Definition asize (r : wb_request) : Z :=
  if is_write r && negb (rq_stack_wound r) then rq_write_size r else 0.

Record counts_ok (f : wb_file) : Prop := {
  ct_window : wb_window_current f = total wsize (wb_requests f);
  ct_bound : total wsize (wb_requests f) <= wb_window_conf f + page;
  ct_conf : 0 <= wb_window_conf f /\ 0 < page < 2 ^ 31 /\ wb_window_conf f + page < 2 ^ 64;
  ct_aggregate : wb_aggregate_current f = u64 (total asize (wb_requests f))
}.

Record file_ok (n : Z) (T : list token) (f : wb_file) : Prop := {
  fo_queue : queue_ok n T (wb_requests f) (wb_passive_requests f);
  fo_settled : settled page (fun _ => False) (wb_requests f);
  fo_counts : counts_ok f
}.

(** The writes of a queue. *)
Definition write_frames (l : list wb_request) : list Z := frames (filter (fun r => is_write r = true) l).

Lemma write_frames_app l k : write_frames (l ++ k) = write_frames l ++ write_frames k.
Proof. unfold write_frames. by rewrite filter_app, map_app. Qed.

Lemma write_frames_ext l l' :
  Forall2 (fun r r' => rq_frame r' = rq_frame r /\ is_write r' = is_write r) l l' -> write_frames l' = write_frames l.
Proof.
  unfold write_frames. induction 1 as [|r r' l l' [E1 E2] _ IH]; [done|]. rewrite !filter_cons, E2.
  case_decide; simpl; congruence.
Qed.

Lemma write_frames_map u l :
  (forall r, rq_frame (u r) = rq_frame r /\ is_write (u r) = is_write r) -> write_frames (map u l) = write_frames l.
Proof. intros Hu. apply write_frames_ext, Forall2_fmap_r, Forall_Forall2_diag, Forall_true. done. Qed.

(** The order of the tokens does not matter. *)
#[export] Instance queue_ok_proper n : Proper ((≡ₚ) ==> (=) ==> (=) ==> iff) (queue_ok n).
Proof.
  assert (forall T T' l p, T ≡ₚ T' -> queue_ok n T l p -> queue_ok n T' l p) as Himp.
  { intros T T' l p HT [Hf Hk Hn Ht Hr Hp Ho].
    assert (forall t, t ∈ T <-> t ∈ T') as Hin by (intros t; by rewrite HT).
    split; try done.
    - by rewrite <-HT.
    - by rewrite <-HT.
    - by rewrite <-HT.
    - eapply Forall_impl; [exact Hr|]. intros r. unfold request_ok. destruct (is_write r).
      + intros []. split; try done; [|by destruct (rq_write_behind r); rewrite <-!Hin].
        by rewrite <-(bool_decide_ext _ _ (Hin (T_unwind (rq_frame r)))).
      + intros []. split; try done. by rewrite <-!Hin.
    - eapply Forall_impl; [exact Hp|]. intros r []. split; try done. by rewrite <-Hin. }
  intros T T' HT l ? <- p ? <-. split; apply Himp; by rewrite HT.
Qed.

#[export] Instance file_ok_proper n : Proper ((≡ₚ) ==> (=) ==> iff) (file_ok n).
Proof.
  intros T T' HT f ? <-. split; intros []; split; try done; [by rewrite <-HT|by rewrite HT].
Qed.

(** A request that still justifies the tokens of the first. *)
Definition carries (r r' : wb_request) : Prop :=
  rq_frame r' = rq_frame r /\ is_write r' = is_write r /\ (rq_write_behind r = true -> rq_write_behind r' = true) /\
  (rq_stack_wound r = true -> rq_stack_wound r' = true) /\ rq_got_reply r' = rq_got_reply r /\
  (rq_marked_for_resume r = true -> rq_marked_for_resume r' = true) /\ (rq_stub r' = None <-> rq_stub r = None).

#[export] Instance carries_refl : Reflexive carries.
Proof. intros r. unfold carries. naive_solver. Qed.

Lemma token_ok_carries l passive l' passive' t :
  (forall fr, fr ∈ frames (l' ++ passive') -> fr ∈ frames (l ++ passive)) ->
  (forall r, r ∈ l -> (exists r', r' ∈ l' /\ carries r r') \/
    (loose r = true /\ exists r', r' ∈ passive' /\ carries r r')) ->
  (forall r, r ∈ passive -> exists r', r' ∈ passive' /\ carries r r') ->
  token_ok l passive t -> token_ok l' passive' t.
Proof.
  intros Hfr Hl Hp. destruct t as [fr|fr|fr|fr|fr|fr]; simpl; [by auto| | | | |done].
  - intros (r & Hr & <- & Hw & Hb). assert (exists r', r' ∈ l' ++ passive' /\ carries r r') as (r' & Hr' & Hc).
    { apply elem_of_app in Hr as [Hr|Hr]; [destruct (Hl r Hr) as [(r' & ? & ?)|(_ & r' & ? & ?)]|destruct (Hp r Hr) as (r' & ? & ?)];
        exists r'; (split; [apply elem_of_app; auto|done]). }
    exists r'. destruct Hc as (-> & -> & ? & _). split_and!; auto.
  - intros (r & Hr & <- & Hw & Hs & Hg). destruct (Hl r Hr) as [(r' & Hr' & Hc)|[Hlo _]].
    + exists r'. destruct Hc as (-> & -> & _ & Hs' & -> & _). split_and!; auto.
    + unfold loose in Hlo. rewrite Hs, andb_false_r in Hlo. done.
  - intros (r & Hr & <- & Hw & Hs & Hg). destruct (Hl r Hr) as [(r' & Hr' & Hc)|[Hlo _]].
    + exists r'. destruct Hc as (-> & -> & _ & _ & _ & ? & E). split_and!; auto. by rewrite E.
    + unfold loose in Hlo. by rewrite Hw in Hlo.
  - intros (r & Hr & <- & Hs). destruct (Hl r Hr) as [(r' & Hr' & Hc)|[Hlo _]].
    + exists r'. destruct Hc as (-> & _ & _ & _ & _ & _ & E). split_and!; auto. by rewrite E.
    + unfold loose, is_write in Hlo. by rewrite Hs in Hlo.
Qed.

(** ** Answering writes *)

Lemma mark_behind_fields r :
  rq_frame (mark_behind r) = rq_frame r /\ is_write (mark_behind r) = is_write r /\
  rq_refcount (mark_behind r) = rq_refcount r /\ rq_stack_wound (mark_behind r) = rq_stack_wound r /\
  rq_got_reply (mark_behind r) = rq_got_reply r /\ rq_marked_for_resume (mark_behind r) = rq_marked_for_resume r /\
  rq_stub (mark_behind r) = rq_stub r /\ rq_write_size (mark_behind r) = rq_write_size r /\
  rq_write_behind (mark_behind r) = is_write r || rq_write_behind r.
Proof.
  unfold mark_behind. destruct (is_write r) eqn:E; simpl; [|by rewrite E]. split_and!; try done.
Qed.

Lemma frames_mark_behind l : frames (map mark_behind l) = frames l.
Proof. induction l as [|r l IH]; simpl; [done|]. f_equal; [apply mark_behind_fields|done]. Qed.

Lemma holds_fields r r' : rq_stub r' = rq_stub r -> rq_write_size r' = rq_write_size r -> holds page r -> holds page r'.
Proof. unfold holds, rq_vector. by intros -> ->. Qed.

Section Unwinds.
Context (n : Z) (T : list token) (l1 l2 passive : list wb_request).
Context (Hq : queue_ok n T (l1 ++ l2) passive).

Let U : list token := map T_unwind (frames (filter unanswered l1)).

Lemma elem_of_U t : t ∈ U <-> exists r, r ∈ l1 /\ unanswered r /\ t = T_unwind (rq_frame r).
Proof.
  unfold U. rewrite map_map, list_elem_of_fmap. setoid_rewrite list_elem_of_filter. naive_solver.
Qed.

Lemma unanswered_tokens r : r ∈ l1 ++ l2 -> unanswered r -> (T_unwind (rq_frame r) ∉ T) /\ (T_done (rq_frame r) ∉ T).
Proof.
  intros Hr [Hw Hb]. pose proof (q_requests _ _ _ _ Hq) as Hall. rewrite Forall_forall in Hall. specialize (Hall r Hr).
  unfold request_ok in Hall. rewrite Hw in Hall. pose proof (wo_answered _ _ Hall) as Ha. by rewrite Hb in Ha.
Qed.

Lemma in_U r : r ∈ l1 ++ l2 -> T_unwind (rq_frame r) ∈ U <-> r ∈ l1 /\ unanswered r.
Proof.
  intros Hr. rewrite elem_of_U. split; [|by intros [? ?]; eauto]. intros (x & Hx & Hux & [= E]).
  assert (r = x) as ->; [|done]. eapply (NoDup_map_eq rq_frame); [apply Hq|set_solver|set_solver|done].
Qed.

Lemma unwinds_keys : NoDup (map tok_key (U ++ T)).
Proof.
  rewrite map_app. apply NoDup_app. split_and!; [| |apply Hq].
  - unfold U. rewrite !map_map. change (NoDup (map (fun r => (0%nat, rq_frame r)) (filter unanswered l1))).
    apply (NoDup_fmap_1 snd). rewrite <-list_fmap_compose.
    change (NoDup (frames (filter unanswered l1))). pose proof (q_frames _ _ _ _ Hq) as Hnd.
    rewrite !map_app in Hnd. apply NoDup_app in Hnd as [[Hnd _]%NoDup_app _].
    eapply sublist_NoDup; [exact Hnd|]. apply (fmap_sublist rq_frame), sublist_filter.
  - intros k (t & -> & (r & Hr & Hun & ->)%elem_of_U)%list_elem_of_fmap (t' & Ek & Ht')%list_elem_of_fmap.
    destruct (unanswered_tokens r) as [H1 H2]; [set_solver|done|].
    pose proof (q_tokens _ _ _ _ Hq) as Htok. rewrite Forall_forall in Htok. specialize (Htok t' Ht').
    destruct t'; simpl in *; simplify_eq; [|done..]. apply Htok. rewrite !map_app. apply elem_of_app. left. apply elem_of_app. left.
    by apply list_elem_of_fmap_2.
Qed.

(** A request that is not answered now keeps what it had. *)
Lemma unwinds_request r : r ∈ l1 ++ l2 -> ~ (r ∈ l1 /\ unanswered r) -> request_ok (U ++ T) r.
Proof.
  intros Hrl Hnu. pose proof (q_requests _ _ _ _ Hq) as Hr. rewrite Forall_forall in Hr. specialize (Hr r Hrl).
  rewrite <-in_U in Hnu by done. assert (forall t, t ∈ U -> exists fr, t = T_unwind fr) as HU.
  { intros t (x & _ & _ & ->)%elem_of_U. eauto. }
  unfold request_ok in *. destruct (is_write r).
  - destruct Hr. split; try done.
    + rewrite wo_refcount0. do 3 f_equal. apply bool_decide_ext. rewrite elem_of_app. tauto.
    + assert (T_done (rq_frame r) ∉ U) by (intros [? ?]%HU; done).
      destruct (rq_write_behind r); rewrite !elem_of_app; tauto.
  - destruct Hr. split; try done. intros Hm. specialize (oo_resumed0 Hm).
    assert ((T_mark (rq_frame r) ∉ U) /\ (T_op (rq_frame r) ∉ U)) by (split; intros [? ?]%HU; done).
    rewrite !elem_of_app. tauto.
Qed.

Lemma unwinds_marked r : r ∈ l1 -> request_ok (U ++ T) (mark_behind r).
Proof.
  intros Hr1. assert (r ∈ l1 ++ l2) as Hrl by set_solver. destruct (decide (unanswered r)) as [Hun|Hnu].
  2:{ assert (mark_behind r = r) as ->; [|apply unwinds_request; [done|tauto]].
      unfold mark_behind. destruct (is_write r) eqn:E; [|done].
      destruct (rq_write_behind r) eqn:Eb; [by destruct r; simpl in *; subst|]. by destruct Hnu. }
  assert (T_unwind (rq_frame r) ∈ U ++ T) as HU by (apply elem_of_app; left; by apply in_U).
  destruct Hun as [Hw Hb]. pose proof (q_requests _ _ _ _ Hq) as Hr. rewrite Forall_forall in Hr. specialize (Hr r Hrl).
  unfold mark_behind. rewrite Hw. unfold request_ok in *. change (is_write (rq_set_write_behind r)) with (is_write r).
  rewrite Hw in *. destruct Hr. split; simpl; try done.
  - rewrite wo_refcount0, Hb. by rewrite (bool_decide_true (T_unwind (rq_frame r) ∈ U ++ T)).
  - by left.
Qed.

Lemma in_order_mark_behind x y : in_order x y -> in_order (mark_behind x) y /\ in_order (mark_behind x) (mark_behind y).
Proof.
  intros (H1 & H2 & H3). destruct (mark_behind_fields x) as (_ & E1 & _ & E2 & _ & E3 & _ & _ & E4).
  destruct (mark_behind_fields y) as (_ & F1 & _ & F2 & _ & F3 & _ & _ & F4).
  unfold in_order, answered_first. rewrite E1, E2, E3, E4, F2, F3. split_and!; try done; by intros ->.
Qed.

Lemma mark_behind_carries r : carries r (mark_behind r).
Proof.
  destruct (mark_behind_fields r) as (E1 & E2 & _ & E3 & E4 & E5 & E6 & _ & E7). unfold carries.
  rewrite E1, E2, E3, E4, E5, E6, E7. split_and!; try done. intros ->. apply orb_true_r.
Qed.

Lemma queue_unwinds : queue_ok n (U ++ T) (map mark_behind l1 ++ l2) passive.
Proof.
  pose proof Hq as [Hf Hk Hn Ht Hr Hp Ho].
  assert (frames ((map mark_behind l1 ++ l2) ++ passive) = frames ((l1 ++ l2) ++ passive)) as Efr
    by (by rewrite !map_app, frames_mark_behind).
  split.
  - by rewrite Efr.
  - apply unwinds_keys.
  - rewrite Efr, (map_app tok_frame). apply Forall_app in Hn as [Hn1 Hn2]. rewrite !Forall_app. split_and!; try done.
    apply Forall_forall. intros fr (t & -> & (r & Hr1 & _ & ->)%elem_of_U)%list_elem_of_fmap. simpl.
    rewrite Forall_forall in Hn1. apply Hn1. apply list_elem_of_fmap_2. set_solver.
  - rewrite Forall_forall in Ht. apply Forall_forall. intros t [(r & Hr1 & [Hw _] & ->)%elem_of_U|Hin]%elem_of_app.
    + exists (mark_behind r). destruct (mark_behind_fields r) as (E1 & E2 & _ & _ & _ & _ & _ & _ & E3).
      rewrite E1, E2, E3, Hw. split_and!; try done.
      apply elem_of_app; left; apply elem_of_app; left. by apply list_elem_of_fmap_2.
    + apply (token_ok_carries (l1 ++ l2) passive); [by rewrite Efr| |intros r ?; by exists r|auto].
      intros r [Hr1|Hr2]%elem_of_app; left; [exists (mark_behind r)|exists r]; (split; [|apply mark_behind_carries || reflexivity]).
      * apply elem_of_app; left. by apply list_elem_of_fmap_2.
      * set_solver.
  - apply Forall_app. split; apply Forall_forall.
    + intros r' (r & -> & Hr1)%list_elem_of_fmap. by apply unwinds_marked.
    + intros r Hr2. apply unwinds_request; [set_solver|]. intros [Hr1 _]. rewrite !map_app in Hf.
      apply NoDup_app in Hf as [(_ & Hd & _)%NoDup_app _]. by apply (Hd (rq_frame r)); apply list_elem_of_fmap_2.
  - eapply Forall_impl; [exact Hp|]. intros r []. split; try done. set_solver.
  - apply (pairwise_map_prefix in_order); [done|..|done]; intros; by apply in_order_mark_behind.
Qed.

(** Two writes can be joined now only if the second has just been answered. *)
Lemma unwinds_settled :
  settled page (fun _ => False) (l1 ++ l2) ->
  settled page (fun r => T_unwind (rq_frame r) ∈ U) (map mark_behind l1 ++ l2).
Proof.
  intros Hs. pose proof (q_order _ _ _ _ Hq) as Ho.
  assert (forall r, r ∈ l1 -> unanswered r -> T_unwind (rq_frame (mark_behind r)) ∈ U) as HU.
  { intros r Hr Hun. rewrite (proj1 (mark_behind_fields r)). apply in_U; [set_solver|done]. }
  clearbody U. clear Hq. induction l1 as [|x l IH]; simpl in *.
  { clear Ho. induction l2 as [|y l IH]; simpl in *; [done|]. destruct Hs as [Hxy Hs]. split; [|auto].
    destruct l; [done|]. intros Hc. by destruct (Hxy Hc). }
  destruct Hs as [Hxy Hs], Ho as [Hox Ho]. split; [|apply IH; [done|done|]; set_solver].
  assert (forall y, in_order x y -> (clash page x y -> False) -> clash page (mark_behind x) y ->
    rq_write_behind y = true -> False) as Hnc.
  { intros y (_ & Hxa & _) Hno (Hlx & Hly & Hj) Hy.
    assert (is_write x = true) as Hw.
    { unfold loose in Hlx. rewrite (proj1 (proj2 (mark_behind_fields x))) in Hlx. by destruct (is_write x). }
    specialize (Hxa Hw Hy). apply Hno. assert (mark_behind x = x) as E; [|by rewrite E in *; split_and!].
    unfold mark_behind. rewrite Hw. by destruct x; simpl in *; subst. }
  destruct l as [|y l]; simpl in *.
  - destruct l2 as [|y l']; [done|]. intros Hc. exfalso. apply Forall_cons in Hox as [Hoy _].
    apply (Hnc y Hoy Hxy Hc). destruct Hc as (_ & Hly & _). unfold loose in Hly. by apply andb_true_iff in Hly as [_ ?].
  - intros Hc. apply Forall_cons in Hox as [Hoy _]. destruct (decide (unanswered y)) as [Hun|Hnu]; [apply HU; [set_solver|done]|].
    exfalso. assert (is_write y = true) as Hw.
    { destruct Hc as (_ & Hly & _). unfold loose in Hly. rewrite (proj1 (proj2 (mark_behind_fields y))) in Hly. by destruct (is_write y). }
    assert (rq_write_behind y = true) as Hb by (destruct (rq_write_behind y) eqn:E; [done|]; by destruct Hnu).
    assert (mark_behind y = y) as E by (unfold mark_behind; rewrite Hw; by destruct y; simpl in *; subst).
    rewrite E in Hc. eauto.
Qed.

Lemma unwinds_follow :
  pairwise (fun x y => T_unwind (rq_frame x) ∈ U -> loose y = true -> T_unwind (rq_frame y) ∈ U) (map mark_behind l1 ++ l2).
Proof.
  apply (pairwise_map_prefix in_order); [apply Hq|..].
  - intros x y Hx Hy (_ & Ho & _). rewrite !(proj1 (mark_behind_fields _)), !in_U by set_solver.
    intros [_ [Hw Hb]] Hl. split; [done|]. destruct (rq_write_behind y) eqn:E; [|].
    + specialize (Ho Hw E). congruence.
    + split; [|done]. unfold loose in Hl. rewrite (proj1 (proj2 (mark_behind_fields y))) in Hl. by destruct (is_write y).
  - intros x y Hx Hy (_ & Ho & _). rewrite !(proj1 (mark_behind_fields _)), !in_U by set_solver.
    intros [_ [Hw Hb]] Hl. unfold loose in Hl. apply andb_true_iff in Hl as [_ Hl]. specialize (Ho Hw Hl). congruence.
  - intros x y Hx Hy _ HU. exfalso. apply in_U in HU as [Hx1 _]; [|set_solver].
    pose proof (q_frames _ _ _ _ Hq) as Hf. rewrite !map_app in Hf.
    apply NoDup_app in Hf as [(_ & Hd & _)%NoDup_app _]. by apply (Hd (rq_frame x)); apply list_elem_of_fmap_2.
Qed.
End Unwinds.

(** ** Collapsing writes *)

Lemma kept_request T r r' : kept page r r' -> request_ok T r -> request_ok T r'.
Proof.
  intros [(E1 & E2 & E3 & E4 & E5 & E6 & E7 & E8 & _) Hh]. unfold request_ok. rewrite E2. destruct (is_write r).
  - intros []. split; rewrite ?E1, ?E3, ?E4, ?E5, ?E6, ?E7; auto.
  - intros []. split; rewrite ?E1, ?E3, ?E4, ?E5, ?E6, ?E7, ?E8; auto.
Qed.

Lemma kept_carries r r' : kept page r r' -> carries r r'.
Proof.
  intros [(E1 & E2 & E3 & E4 & E5 & E6 & E7 & E8 & _) _]. unfold carries. by rewrite E1, E2, E4, E5, E6, E7, E8.
Qed.

Lemma kept_order l l' : Forall2 (kept page) l l' -> pairwise in_order l -> pairwise in_order l'.
Proof.
  assert (forall x x' y y', kept page x x' -> kept page y y' -> in_order x y -> in_order x' y') as Hk.
  { intros x x' y y' [(E1 & E2 & E3 & E4 & E5 & E6 & E7 & E8 & _) _] [(F1 & F2 & F3 & F4 & F5 & F6 & F7 & F8 & _) _].
    unfold in_order, answered_first. by rewrite E2, E4, E5, E7, F4, F5, F7. }
  induction 1 as [|x x' l l' Hx Hl IH]; simpl; [done|]. intros [HF Ho]. split; [|auto]. clear IH Ho.
  induction Hl as [|y y' l l' Hy Hl IH]; [constructor|]. apply Forall_cons in HF as [? ?]. constructor; eauto.
Qed.

Lemma kept_frames l l' : Forall2 (kept page) l l' -> frames l' = frames l.
Proof. induction 1 as [|x x' l l' Hx Hl IH]; simpl; [done|]. f_equal; [apply Hx|done]. Qed.

Lemma loose_ok T r : request_ok T r -> loose r = true -> T_unwind (rq_frame r) ∈ T ->
  rq_refcount r = 2 /\ is_write r = true /\ rq_write_behind r = true /\ rq_got_reply r = false /\ holds page r.
Proof.
  unfold request_ok, loose. intros Hr [[Hw Hs%negb_true_iff]%andb_true_iff Hb]%andb_true_iff HT. rewrite Hw in Hr. destruct Hr.
  assert (rq_got_reply r = false) as Hg by (apply not_true_iff_false; intros E; specialize (wo_reply0 E); congruence).
  split_and!; try done. rewrite wo_refcount0, Hb, Hg, bool_decide_true by done. done.
Qed.

(** The requests that stay and those that become passive make a queue. *)
Lemma queue_squeezed n T l passive l0 k m :
  queue_ok n T l passive -> sublist l0 l -> l0 ++ m ≡ₚ l -> Forall2 (kept page) l0 k ->
  Forall (fun r => T_unwind (rq_frame r) ∈ T /\ loose r = true) m ->
  queue_ok n T k (passive ++ map (rq_set_refcount 1) m).
Proof.
  intros [Hf Hk Hn Ht Hr Hp Ho] Hsub Hperm Hkept Hm.
  assert (frames (k ++ passive ++ map (rq_set_refcount 1) m) ≡ₚ frames (l ++ passive)) as Efr.
  { rewrite !map_app, (kept_frames _ _ Hkept), map_map. simpl. rewrite <-Hperm, map_app.
    rewrite (Permutation_app_comm (frames passive)). by rewrite app_assoc. }
  rewrite Forall_forall in Hr. rewrite Forall_forall in Hm. rewrite Forall_forall in Ht.
  assert (forall r, r ∈ l0 -> exists r', r' ∈ k /\ kept page r r') as Hfind.
  { intros r [i Hi]%list_elem_of_lookup. destruct (Forall2_lookup_l _ _ _ _ _ Hkept Hi) as (r' & Hr' & ?).
    exists r'. split; [by eapply list_elem_of_lookup_2|done]. }
  assert (forall r, r ∈ m -> request_ok T r) as Hrm by (intros r Hrm; apply Hr; rewrite <-Hperm; set_solver).
  split.
  - by rewrite Efr.
  - done.
  - by rewrite Efr.
  - apply Forall_forall. intros t Hin. apply (token_ok_carries l passive); [|..|auto].
    + intros fr. by rewrite Efr.
    + intros r Hrl. rewrite <-Hperm in Hrl. apply elem_of_app in Hrl as [Hr0|Hr0].
      * left. destruct (Hfind r Hr0) as (r' & ? & ?). exists r'. split; [done|by apply kept_carries].
      * right. split; [by apply Hm|]. exists (rq_set_refcount 1 r). split; [apply elem_of_app; right; by apply list_elem_of_fmap_2|].
        unfold carries. simpl. naive_solver.
    + intros r Hrp. exists r. split; [set_solver|reflexivity].
  - apply Forall_forall. intros r' [i Hi]%list_elem_of_lookup.
    destruct (Forall2_lookup_r _ _ _ _ _ Hkept Hi) as (r & Hr0 & Hrr). apply (kept_request T r); [done|]. apply Hr.
    rewrite <-Hperm. apply elem_of_app. left. by eapply list_elem_of_lookup_2.
  - apply Forall_app. split; [done|]. apply Forall_forall. intros r' (r & -> & Hrm')%list_elem_of_fmap.
    destruct (Hm r Hrm') as [HT Hl]. destruct (loose_ok T r) as (_ & ? & ? & _); [auto..|]. by split.
  - eapply kept_order; [done|]. by eapply pairwise_sublist.
Qed.

(** Two writes that are joined ask for what they asked for apart. *)
Lemma absorb_measures T h r :
  page < 2 ^ 64 -> request_ok T h -> request_ok T r -> loose h = true -> loose r = true ->
  holds page h -> holds page r -> joins page h r ->
  request_ok T (absorb h r) /\ wsize (absorb h r) = wsize h + wsize r /\ asize (absorb h r) = asize h + asize r /\
  pending_of (absorb h r) = pending_of h ++ pending_of r.
Proof.
  intros Hpage Hh Hr Hlh Hlr Hhh Hhr Hj.
  destruct (append_bytes_ok page Hpage h r Hhh Hhr) as (_ & Hha & Hfl & Hsz & Hd); [apply Hj|].
  split; [by apply (kept_request T h); [split|]|].
  assert (forall x, request_ok T x -> loose x = true -> is_write x = true /\ rq_stack_wound x = false /\
    rq_write_behind x = true /\ rq_got_reply x = false /\ rq_marked_for_resume x = false) as Hlo.
  { intros x Hx [[Hw Hs%negb_true_iff]%andb_true_iff Hb]%andb_true_iff. unfold request_ok in Hx. rewrite Hw in Hx.
    destruct Hx. split_and!; try done. apply not_true_iff_false. intros E. specialize (wo_reply0 E). congruence. }
  destruct (Hlo h Hh Hlh) as (Hw1 & Hs1 & Hb1 & Hg1 & Hm1), (Hlo r Hr Hlr) as (Hw2 & Hs2 & Hb2 & Hg2 & Hm2).
  destruct Hfl as (_ & E2 & _ & E4 & E5 & E6 & E7 & _ & E9).
  unfold wsize, asize. rewrite E2, E4, E5, E6, Hw1, Hs1, Hb1, Hg1, Hw2, Hs2, Hb2, Hg2. simpl. split_and!; [done..|].
  rewrite !pending_write by congruence. rewrite Hd, flat_write_app, (holds_length page h Hhh), E9. by rewrite <-(proj1 Hj).
Qed.

Lemma queue_collapse n T l passive (P : wb_request -> Prop) :
  page < 2 ^ 64 -> queue_ok n T l passive -> settled page P l ->
  pairwise (fun x y => P x -> loose y = true -> P y) l ->
  (forall r, P r -> T_unwind (rq_frame r) ∈ T) ->
  exists k passive', collapse_loop page (mk_collapse true 0 0 None None) [] l passive = Some (k, passive') /\
    queue_ok n T k passive' /\ settled page (fun _ => False) k /\
    write_frames (k ++ passive') ≡ₚ write_frames (l ++ passive) /\
    total wsize k = total wsize l /\ total asize k = total asize l /\ pending k = pending l.
Proof.
  intros Hpage Hq Hs Hf HP. pose proof Hq as [Hnd _ _ _ Hr _ Ho].
  assert (Forall (fun r => loose r = true -> holds page r) l) as Hl.
  { eapply Forall_impl; [exact Hr|]. unfold request_ok, loose. intros r Hrr Hlr. destruct (is_write r); [apply Hrr|done]. }
  pose proof (squeeze_moved page P l None) as Hm. specialize (Hm (List.Forall_nil _) Hs Hf).
  assert (Forall (fun r => T_unwind (rq_frame r) ∈ T /\ loose r = true) (snd (squeeze page None l))) as Hm'.
  { eapply Forall_impl; [exact Hm|]. naive_solver. }
  destruct (squeeze_split page Hpage l None) as (l0 & Hsub & Hperm & Hkept); [constructor|done|]. simpl in Hkept.
  assert (Forall (fun r => rq_refcount r = 2) (snd (squeeze page None l))) as H2.
  { rewrite Forall_forall in Hr. rewrite Forall_forall in Hm'. apply Forall_forall. intros r Hrm. destruct (Hm' r Hrm).
    apply (loose_ok T r); [|done..]. apply Hr. rewrite <-Hperm. set_solver. }
  assert (Forall (request_ok T) ([] ++ l)) as Hok by done.
  exists (fst (squeeze page None l)), (passive ++ map (rq_set_refcount 1) (snd (squeeze page None l))). split_and!.
  - apply (collapse_squeeze page Hpage l None _ [] passive); [done|constructor|done|done|done].
  - by eapply queue_squeezed.
  - apply (squeeze_settled page Hpage l None); [constructor|done|]. eapply pairwise_impl; [|exact Ho]. by intros x y (_ & ? & _).
  - rewrite !write_frames_app, (write_frames_map (rq_set_refcount 1)) by done.
    rewrite (write_frames_ext l0 (fst (squeeze page None l))).
    2:{ eapply Forall2_impl; [exact Hkept|]. by intros r r' [(? & ? & _) _]. }
    rewrite (Permutation_app_comm (write_frames passive)), app_assoc, <-write_frames_app. f_equiv. unfold write_frames. by rewrite Hperm.
  - apply (squeeze_measure page Hpage Z.add (total wsize) (request_ok T)) with (p := None); [apply total_app| |constructor|done|done].
    intros h r ? ? ? ? ? ? ?. destruct (absorb_measures T h r) as (? & ? & _); [done..|]. split; [done|]. simpl. lia.
  - apply (squeeze_measure page Hpage Z.add (total asize) (request_ok T)) with (p := None); [apply total_app| |constructor|done|done].
    intros h r ? ? ? ? ? ? ?. destruct (absorb_measures T h r) as (? & _ & ? & _); [done..|]. split; [done|]. simpl. lia.
  - apply (squeeze_measure page Hpage app pending (request_ok T)) with (p := None); [apply pending_app| |constructor|done|done].
    intros h r ? ? ? ? ? ? ?. destruct (absorb_measures T h r) as (? & _ & _ & E); [done..|]. split; [done|].
    unfold pending. simpl. by rewrite !app_nil_r, E.
Qed.

(** ** Winding and resuming *)

(** A request looks at the tokens of its frame only, and not at all of those. *)
Lemma request_ok_ext T T' r :
  (forall t, tok_frame t = rq_frame r -> (forall fr, t <> T_new fr /\ t <> T_wind fr) -> t ∈ T <-> t ∈ T') ->
  request_ok T r -> request_ok T' r.
Proof.
  intros Ht. assert (T_unwind (rq_frame r) ∈ T <-> T_unwind (rq_frame r) ∈ T') as H1 by by apply Ht.
  assert (T_done (rq_frame r) ∈ T <-> T_done (rq_frame r) ∈ T') as H2 by by apply Ht.
  assert (T_mark (rq_frame r) ∈ T <-> T_mark (rq_frame r) ∈ T') as H3 by by apply Ht.
  assert (T_op (rq_frame r) ∈ T <-> T_op (rq_frame r) ∈ T') as H4 by by apply Ht.
  unfold request_ok. destruct (is_write r).
  - intros []. split; try done; [by rewrite <-(bool_decide_ext _ _ H1)|]. by destruct (rq_write_behind r); rewrite <-?H1, <-?H2.
  - intros []. split; try done. by rewrite <-H3, <-H4.
Qed.

Section Winds.
Context (n : Z) (T : list token) (l1 l2 passive : list wb_request).
Context (Hq : queue_ok n T (l1 ++ l2) passive) (Hw : Forall (fun r => is_write r = true) l1).

Let W : list token := map T_wind (frames (filter not_wound l1)).

Lemma elem_of_W t : t ∈ W <-> exists r, r ∈ l1 /\ not_wound r /\ t = T_wind (rq_frame r).
Proof. unfold W. rewrite map_map, list_elem_of_fmap. setoid_rewrite list_elem_of_filter. naive_solver. Qed.

Lemma winds_keys : NoDup (map tok_key (W ++ T)).
Proof.
  rewrite map_app. apply NoDup_app. pose proof (q_frames _ _ _ _ Hq) as Hnd. split_and!; [| |apply Hq].
  - unfold W. rewrite !map_map. change (NoDup (map (fun r => (1%nat, rq_frame r)) (filter not_wound l1))).
    apply (NoDup_fmap_1 snd). rewrite <-list_fmap_compose.
    change (NoDup (frames (filter not_wound l1))). rewrite !map_app in Hnd. apply NoDup_app in Hnd as [[Hnd _]%NoDup_app _].
    eapply sublist_NoDup; [exact Hnd|]. apply (fmap_sublist rq_frame), sublist_filter.
  - intros k (t & -> & (r & Hr & Hun & ->)%elem_of_W)%list_elem_of_fmap (t' & Ek & Ht')%list_elem_of_fmap.
    pose proof (q_tokens _ _ _ _ Hq) as Htok. rewrite Forall_forall in Htok. specialize (Htok t' Ht').
    destruct t'; simpl in *; simplify_eq. destruct Htok as (x & Hx & Ex & _ & Hs & _).
    assert (x = r) as -> by (eapply (NoDup_map_eq rq_frame); [exact Hnd|set_solver|set_solver|done]).
    unfold not_wound in Hun. congruence.
Qed.

Lemma winds_carries r : carries r (rq_set_stack_wound r).
Proof. unfold carries. simpl. naive_solver. Qed.

Lemma queue_winds : queue_ok n (W ++ T) (map rq_set_stack_wound l1 ++ l2) passive.
Proof.
  pose proof Hq as [Hf Hk Hn Ht Hr Hp Ho].
  assert (frames ((map rq_set_stack_wound l1 ++ l2) ++ passive) = frames ((l1 ++ l2) ++ passive)) as Efr
    by (by rewrite !map_app, map_map).
  assert (forall r, request_ok T r -> request_ok (W ++ T) r) as Hext.
  { intros r. apply request_ok_ext. intros t _ Hk'. rewrite elem_of_app, elem_of_W. naive_solver. }
  assert (forall r, r ∈ l1 -> is_write r = true) as Hw' by (by apply Forall_forall). split.
  - by rewrite Efr.
  - apply winds_keys.
  - rewrite Efr, (map_app tok_frame). apply Forall_app in Hn as [Hn1 Hn2]. rewrite !Forall_app. split_and!; try done.
    apply Forall_forall. intros fr (t & -> & (r & Hr1 & _ & ->)%elem_of_W)%list_elem_of_fmap. simpl.
    rewrite Forall_forall in Hn1. apply Hn1. apply list_elem_of_fmap_2. set_solver.
  - rewrite Forall_forall in Ht. apply Forall_forall. intros t [(r & Hr1 & Hnw & ->)%elem_of_W|Hin]%elem_of_app.
    + exists (rq_set_stack_wound r). simpl. split_and!; try done; [|exact (Hw' r Hr1)|].
      { apply elem_of_app; left. by apply list_elem_of_fmap_2. }
      assert (r ∈ l1 ++ l2) as Hrl by set_solver. rewrite Forall_forall in Hr. specialize (Hr r Hrl).
      unfold request_ok in Hr. rewrite (Hw' r Hr1) in Hr. destruct Hr. apply not_true_iff_false. intros E.
      specialize (wo_reply0 E). unfold not_wound in Hnw. congruence.
    + apply (token_ok_carries (l1 ++ l2) passive); [by rewrite Efr| |intros r ?; by exists r|auto].
      intros r [Hr1|Hr2]%elem_of_app; left; [exists (rq_set_stack_wound r)|exists r]; (split; [|apply winds_carries || reflexivity]).
      * apply elem_of_app; left. by apply list_elem_of_fmap_2.
      * set_solver.
  - apply Forall_app in Hr as [Hr1 Hr2]. apply Forall_app. split; [|eapply Forall_impl; [exact Hr2|auto]].
    apply Forall_forall. intros r' (r & -> & Hrl)%list_elem_of_fmap. rewrite Forall_forall in Hr1.
    specialize (Hext r (Hr1 r Hrl)). unfold request_ok in *. change (is_write (rq_set_stack_wound r)) with (is_write r).
    rewrite (Hw' r Hrl) in *. destruct Hext. by split.
  - eapply Forall_impl; [exact Hp|]. intros r []. split; try done. set_solver.
  - apply (pairwise_map_prefix in_order); [done|..|done].
    + intros x y Hx Hy (H1 & H2 & H3). split_and!; try done. intros _. split; [exact (Hw' x Hx)|done].
    + intros x y Hx Hy (H1 & H2 & H3). split_and!; try done. intros E. split; [by apply H1|done].
Qed.
End Winds.

Section Mark.
Context (n : Z) (T : list token) (l1 l2 passive : list wb_request) (r : wb_request).
Context (Hq : queue_ok n T (l1 ++ r :: l2) passive).
Context (Hw : is_write r = false) (Hm : rq_marked_for_resume r = false) (Hs : rq_stub r <> None).
Context (Hl1 : Forall (fun x => is_write x = false /\ rq_marked_for_resume x = true) l1).

Lemma queue_mark : queue_ok n (T_mark (rq_frame r) :: T) (l1 ++ rq_set_marked r :: l2) passive.
Proof.
  pose proof Hq as [Hf Hk Hn Ht Hr Hp Ho].
  assert (frames ((l1 ++ rq_set_marked r :: l2) ++ passive) = frames ((l1 ++ r :: l2) ++ passive)) as Efr
    by (by rewrite !map_app).
  pose proof Hr as [Hr1 [Hrr Hr2]%Forall_cons]%Forall_app. unfold request_ok in Hrr. rewrite Hw in Hrr.
  assert (forall x, x ∈ l1 ++ l2 -> rq_frame x <> rq_frame r) as Hne.
  { intros x Hx E. rewrite !map_app in Hf. apply NoDup_app in Hf as [(_ & Hd & Hc)%NoDup_app _]. simpl in Hc.
    apply NoDup_cons in Hc as [Hc _]. apply elem_of_app in Hx as [Hx|Hx].
    - apply (Hd (rq_frame x)); [by apply list_elem_of_fmap_2|]. rewrite E. by left.
    - apply Hc. rewrite <-E. by apply list_elem_of_fmap_2. }
  assert (forall x, x ∈ l1 ++ l2 -> request_ok T x -> request_ok (T_mark (rq_frame r) :: T) x) as Hext.
  { intros x Hx. apply request_ok_ext. intros t Et _. rewrite elem_of_cons. split; [by right|].
    intros [->|?]; [|done]. simpl in Et. by destruct (Hne x Hx). }
  split.
  - by rewrite Efr.
  - simpl. constructor; [|done]. intros (t & Ek & Hin)%list_elem_of_fmap.
    destruct (oo_resumed _ _ Hrr Hm) as [H1 H2]. destruct t; simpl in Ek; simplify_eq.
  - rewrite Efr. apply Forall_app in Hn as [Hn1 Hn2]. apply Forall_app. split; [done|]. simpl. constructor; [|done].
    rewrite Forall_forall in Hn1. apply Hn1, list_elem_of_fmap_2. set_solver.
  - constructor.
    + exists (rq_set_marked r). simpl. split_and!; try done. set_solver.
    + eapply Forall_impl; [exact Ht|]. intros t. apply token_ok_carries; [by rewrite Efr| |intros x ?; by exists x].
      intros x Hx. left. apply elem_of_app in Hx as [Hx|[->|Hx]%elem_of_cons].
      * exists x. split; [set_solver|reflexivity].
      * exists (rq_set_marked r). split; [set_solver|]. unfold carries. simpl. naive_solver.
      * exists x. split; [set_solver|reflexivity].
  - rewrite Forall_forall in Hr1. rewrite Forall_forall in Hr2. apply Forall_app. split; [|constructor].
    + apply Forall_forall. intros x Hx. apply Hext; [set_solver|auto].
    + unfold request_ok. change (is_write (rq_set_marked r)) with (is_write r). rewrite Hw. destruct Hrr. by split.
    + apply Forall_forall. intros x Hx. apply Hext; [set_solver|auto].
  - eapply Forall_impl; [exact Hp|]. intros x []. split; try done. by right.
  - apply pairwise_app in Ho as (Ho1 & [HoF Ho2] & Hox). apply pairwise_app. split_and!; [done|split; [|done]|].
    + eapply Forall_impl; [exact HoF|]. intros y (H1 & H2 & H3). split_and!; try done.
    + intros x y Hx [->|Hy]%elem_of_cons; [|apply Hox; [done|by right]].
      destruct (Hox x r Hx) as (H1 & H2 & H3); [by left|]. split_and!; try done. intros _.
      rewrite Forall_forall in Hl1. by apply Hl1.
Qed.
End Mark.

(** ** The critical section of [wb_process_queue] *)

Lemma mark_behind_measures T l :
  Forall (request_ok T) l ->
  total wsize (map mark_behind l) =
    total wsize l + total (fun r => if rq_got_reply r then 0 else rq_write_size r) (filter unanswered l) /\
  total asize (map mark_behind l) = total asize l /\ pending (map mark_behind l) = pending l.
Proof.
  induction 1 as [|r l Hr Hl IH]; [done|]. destruct IH as (IH1 & IH2 & IH3).
  destruct (mark_behind_fields r) as (E1 & E2 & _ & E3 & E4 & E5 & E6 & E7 & E8). simpl. rewrite IH1, IH2.
  change (pending (r :: l)) with (pending_of r ++ pending l).
  change (pending (?x :: ?l)) with (pending_of x ++ pending l). rewrite IH3. split_and!.
  - rewrite filter_cons. unfold wsize at 1. rewrite E2, E8, E4, E7. unfold wsize at 2. case_decide as Hun.
    + destruct Hun as [-> ->]. simpl. destruct (rq_got_reply r); simpl; lia.
    + destruct (is_write r) eqn:Ew; simpl; [|lia]. destruct (rq_write_behind r) eqn:Eb; [simpl; lia|]. by destruct Hun.
  - unfold asize. by rewrite E2, E3, E7.
  - unfold pending_of. by rewrite E1, E3, E5, E6.
Qed.

Lemma unanswered_sizes T l :
  Forall (request_ok T) l ->
  0 <= total (fun r => if rq_got_reply r then 0 else rq_write_size r) (filter unanswered l) <=
    total rq_write_size (filter unanswered l).
Proof.
  induction 1 as [|r l Hr Hl IH]; [done|]. rewrite filter_cons. case_decide as Hun; [|done].
  simpl. destruct Hun as [Hw _]. unfold request_ok in Hr. rewrite Hw in Hr. destruct (wo_holds _ _ Hr).
  destruct (rq_got_reply r); lia.
Qed.

Lemma wsize_nonneg T l : Forall (request_ok T) l -> 0 <= total wsize l.
Proof.
  intros Hr. apply total_nonneg. eapply Forall_impl; [exact Hr|]. intros r. unfold request_ok, wsize.
  destruct (is_write r); simpl; [|done]. intros []. destruct wo_holds0. repeat case_match; lia.
Qed.

Lemma mark_unwinds_ok n T f :
  file_ok n T f -> exists f1 u, __wb_mark_unwinds f = (f1, u) /\
    queue_ok n (map T_unwind u ++ T) (wb_requests f1) (wb_passive_requests f1) /\ counts_ok f1 /\
    settled page (fun r => T_unwind (rq_frame r) ∈ map T_unwind u) (wb_requests f1) /\
    pairwise (fun x y => T_unwind (rq_frame x) ∈ map T_unwind u -> loose y = true ->
      T_unwind (rq_frame y) ∈ map T_unwind u) (wb_requests f1) /\
    pending (wb_requests f1) = pending (wb_requests f) /\ wb_window_conf f1 = wb_window_conf f /\
    write_frames (wb_requests f1 ++ wb_passive_requests f1) = write_frames (wb_requests f ++ wb_passive_requests f).
Proof.
  intros [Hq Hs Hc]. unfold __wb_mark_unwinds.
  assert (exists f1 u, (f, []) = (f1, u) /\
    queue_ok n (map T_unwind u ++ T) (wb_requests f1) (wb_passive_requests f1) /\ counts_ok f1 /\
    settled page (fun r => T_unwind (rq_frame r) ∈ map T_unwind u) (wb_requests f1) /\
    pairwise (fun x y => T_unwind (rq_frame x) ∈ map T_unwind u -> loose y = true ->
      T_unwind (rq_frame y) ∈ map T_unwind u) (wb_requests f1) /\
    pending (wb_requests f1) = pending (wb_requests f) /\ wb_window_conf f1 = wb_window_conf f /\
    write_frames (wb_requests f1 ++ wb_passive_requests f1) = write_frames (wb_requests f ++ wb_passive_requests f)) as Hnone.
  { exists f, []. simpl. split_and!; try done.
    - by apply (settled_map_prefix page _ id [] (wb_requests f)).
    - apply pairwise_intro. intros x y _ _ Hx. by apply elem_of_nil in Hx. }
  destruct (wb_requests f) as [|r0 l0] eqn:El; [exact Hnone|].
  destruct (Z.leb_spec (wb_window_current f) (wb_window_conf f)) as [Hle|]; [|exact Hnone].
  clear Hnone. rewrite <-El in *. clear El r0 l0. unfold __wb_mark_unwind_till.
  destruct Hc as [Hwin Hbnd (Hc0 & Hp0 & Hc1) Hagg]. pose proof (q_requests _ _ _ _ Hq) as Hr.
  pose proof (wsize_nonneg T _ Hr) as Hnn.
  destruct (unwind_till_spec (wb_window_conf f - wb_window_current f) 0 (wb_requests f) page) as (l1 & l2 & El & -> & Hb); [lia| |lia|].
  { eapply Forall_impl; [exact Hr|]. intros r Hrr Hw. unfold request_ok in Hrr. rewrite Hw in Hrr.
    destruct (wo_holds _ _ Hrr). lia. }
  eexists _, _. split; [done|]. simpl. rewrite El in *. pose proof Hr as [Hr1 Hr2]%Forall_app.
  destruct (mark_behind_measures T l1 Hr1) as (M1 & M2 & M3).
  pose proof (unanswered_sizes T l1 Hr1) as Hle2.
  split_and!.
  - by apply queue_unwinds.
  - rewrite total_app in *. split; simpl; rewrite ?total_app, ?M1, ?M2; try done.
    + rewrite Hwin, u64_small; [lia|]. unfold is_u64. lia.
    + lia.
  - by eapply unwinds_settled.
  - by eapply unwinds_follow.
  - by rewrite !pending_app, M3.
  - done.
  - rewrite !write_frames_app, write_frames_map; [done|]. intros r. unfold mark_behind. by destruct (is_write r) eqn:E.
Qed.

(** The writes that are wound follow each other, and are what was to be sent
    next. *)
Record winds_spec (l l' : list wb_request) (w : list Z) (ws : list wb_request) : Prop := {
  ws_frames : w = frames ws;
  ws_elem : forall r, r ∈ ws -> r ∈ l' /\ is_write r = true /\ holds page r;
  ws_contiguous : exists e, contiguous e ws;
  ws_pending : pending l = concat (map (fun r => flat_write (rq_off r) (rq_data r)) ws) ++ pending l'
}.

Lemma wound_measures T l :
  Forall (request_ok T) l -> Forall (fun r => is_write r = true) l ->
  total wsize (map rq_set_stack_wound l) = total wsize l /\
  total asize l = total rq_write_size (filter not_wound l) /\ total asize (map rq_set_stack_wound l) = 0 /\
  pending l = concat (map (fun r => flat_write (rq_off r) (rq_data r)) (filter not_wound l)) /\
  pending (map rq_set_stack_wound l) = [].
Proof.
  induction 1 as [|r l Hr Hl IH]; [done|]. intros [Hw Hws]%Forall_cons.
  destruct (IH Hws) as (I1 & I2 & I3 & I4 & I5). unfold request_ok in Hr. rewrite Hw in Hr. destruct Hr.
  assert (pending_of (rq_set_stack_wound r) = []) as Hp by (unfold pending_of; simpl; by destruct (rq_stub r)).
  change (pending (r :: l)) with (pending_of r ++ pending l).
  change (pending (map rq_set_stack_wound (r :: l))) with
    (pending_of (rq_set_stack_wound r) ++ pending (map rq_set_stack_wound l)).
  simpl. unfold asize at 1 3. change (is_write (rq_set_stack_wound r)) with (is_write r).
  rewrite I1, I2, I3, I4, I5, Hw, Hp. simpl. destruct (rq_stack_wound r) eqn:Es.
  - rewrite filter_cons_False by (unfold not_wound; congruence). split_and!; try done.
    unfold pending_of. rewrite Es. by destruct (rq_stub r).
  - rewrite filter_cons_True by done. split_and!; try done. simpl. by rewrite pending_write.
Qed.

Lemma mark_winds_ok n T f conf wind_all :
  file_ok n T f -> exists f' w ws, __wb_mark_winds conf wind_all f = (f', w) /\
    file_ok n (map T_wind w ++ T) f' /\ winds_spec (wb_requests f) (wb_requests f') w ws /\
    wb_window_conf f' = wb_window_conf f /\
    write_frames (wb_requests f' ++ wb_passive_requests f') = write_frames (wb_requests f ++ wb_passive_requests f).
Proof.
  intros Hf. unfold __wb_mark_winds.
  assert (exists f' w ws, (f, []) = (f', w) /\
    file_ok n (map T_wind w ++ T) f' /\ winds_spec (wb_requests f) (wb_requests f') w ws /\
    wb_window_conf f' = wb_window_conf f /\
    write_frames (wb_requests f' ++ wb_passive_requests f') = write_frames (wb_requests f ++ wb_passive_requests f)) as Hnone.
  { exists f, [], []. split_and!; try done. split; simpl; try done. by intros r ?%elem_of_nil. }
  destruct (wb_requests f) as [|r0 l0] eqn:El; [exact Hnone|]. rewrite <-El in *. clear El r0 l0.
  destruct (if negb wind_all && _ then _ else _) as [[other noncont] incomplete].
  destruct ((enable_trickling_writes conf && _) || _ || _ || _ || _); [|exact Hnone]. clear Hnone.
  destruct Hf as [Hq Hs [Hwin Hbnd Hconf Hagg]]. unfold __wb_mark_wind_all.
  destruct (wind_all_spec true 0 (wb_requests f)) as (l1 & l2 & El & Hw & -> & Hc).
  rewrite El in *. pose proof (q_requests _ _ _ _ Hq) as [Hr1 _]%Forall_app.
  destruct (wound_measures T l1 Hr1 Hw) as (M1 & M2 & M3 & M4 & M5).
  eexists _, _, (map rq_set_stack_wound (filter not_wound l1)). split; [done|]. split_and!; [split|split|..]; simpl; try done.
  - by apply queue_winds.
  - apply settled_map_prefix; [|done]. intros r. simpl. split_and!; try done. unfold loose. simpl. by rewrite andb_false_r.
  - rewrite total_app in *. split; simpl; rewrite ?total_app, ?M1, ?M3; try done.
    rewrite Hagg, u64_sub_l, M2. f_equal. lia.
  - by rewrite map_map.
  - intros r' (r & -> & [Hn Hrl]%list_elem_of_filter)%list_elem_of_fmap. rewrite Forall_forall in Hw. specialize (Hw r Hrl).
    split_and!; [apply elem_of_app; left; by apply list_elem_of_fmap_2|done|].
    rewrite Forall_forall in Hr1. specialize (Hr1 r Hrl). unfold request_ok in Hr1. rewrite Hw in Hr1. apply Hr1.
  - exists (match filter not_wound l1 with [] => 0 | r :: _ => rq_off r end). clear -Hc. revert Hc.
    generalize (match filter not_wound l1 with [] => 0 | r :: _ => rq_off r end). induction (filter not_wound l1); simpl; [done|].
    intros e [? ?]. auto.
  - rewrite !pending_app, M4, M5, map_map. done.
  - by rewrite !write_frames_app, write_frames_map.
Qed.

Lemma process_ok n T f conf flush_all :
  file_ok n T f -> exists f' u w o ws, process_locked conf page flush_all f = Some (f', u, w, o) /\
    file_ok n (map T_unwind u ++ map T_wind w ++ map T_mark o ++ T) f' /\
    wb_window_conf f' = wb_window_conf f /\
    write_frames (wb_requests f' ++ wb_passive_requests f') ≡ₚ write_frames (wb_requests f ++ wb_passive_requests f) /\
    ((o = [] /\ winds_spec (wb_requests f) (wb_requests f') w ws) \/
     (w = [] /\ exists r s, o = [rq_frame r] /\ r ∈ wb_requests f' /\ rq_stub r = Some s /\ is_write r = false /\
        pending (wb_requests f) = asks (rq_frame r) s ++ pending (wb_requests f'))).
Proof.
  intros Hf. unfold process_locked.
  destruct (mark_unwinds_ok n T f Hf) as (f1 & u & -> & Hq1 & [Hwin Hbnd Hconf Hagg] & Hs1 & Hfo & Hp1 & Hc1 & Hw1).
  destruct (queue_collapse n _ _ _ _ ltac:(lia) Hq1 Hs1 Hfo) as (k & passive' & Ek & Hq2 & Hs2 & Hwf2 & Hw2 & Ha2 & Hp2).
  { intros r Hr. set_solver. }
  rewrite Hw1 in Hwf2. unfold __wb_collapse_write_bufs. rewrite Ek. cbn [mbind option_bind].
  set (f2 := set_passive passive' (set_requests k f1)).
  assert (file_ok n (map T_unwind u ++ T) f2) as Hf2.
  { split; simpl; [done|done|]. split; simpl; rewrite ?Hw2, ?Ha2; done. }
  unfold __wb_get_other_requests. change (wb_requests f2) with k.
  destruct (get_other_spec k) as [->|(l1 & r & s & l2 & -> & Hw & Hm & Hsr & Hwr & Hmr & ->)].
  - assert (set_requests k f2 = f2) as -> by done.
    destruct (mark_winds_ok n _ f2 conf flush_all Hf2) as (f' & w & ws & -> & Hf' & Hws & Hc' & Hwf').
    exists f', u, w, [], ws. split_and!; [done| |simpl in Hc'; congruence|by rewrite Hwf'|].
    + simpl. rewrite (app_assoc (map T_unwind u)), (Permutation_app_comm (map T_unwind u)), <-app_assoc. done.
    + left. split; [done|]. destruct Hws. split; try done. simpl in *. congruence.
  - exists (set_requests (l1 ++ rq_set_marked r :: l2) f2), u, [], [rq_frame r], []. split_and!; [done| |done| |].
    + simpl. rewrite <-Permutation_middle. destruct Hf2 as [Hq Hs Hc]. split; simpl.
      * apply queue_mark; try done; [congruence|]. apply Forall_forall. rewrite Forall_forall in Hw. rewrite Forall_forall in Hm. auto.
      * apply settled_front; [by left|]. apply settled_cons_not_loose; [unfold loose; change (is_write (rq_set_marked r)) with (is_write r); by rewrite Hwr|].
        apply settled_drop with (l1 := l1 ++ [r]). by rewrite <-app_assoc.
      * destruct Hc as [C1 C2 C3 C4]. simpl in *. rewrite total_app in *. by split; simpl; rewrite ?total_app.
    + rewrite <-Hwf2. simpl. rewrite !write_frames_app. unfold write_frames. rewrite !filter_cons.
      change (is_write (rq_set_marked r)) with (is_write r). by rewrite Hwr.
    + right. split; [done|]. exists (rq_set_marked r), s. simpl. split_and!; try done; [set_solver|].
      rewrite <-Hp1, <-Hp2, !pending_app.
      pose proof (q_requests _ _ _ _ Hq2) as [_ [Hrr _]%Forall_cons]%Forall_app. unfold request_ok in Hrr. rewrite Hwr in Hrr.
      assert (pending l1 = []) as ->.
      { clear -Hm. induction Hm as [|x l1 Hx Hl IH]; [done|]. unfold pending in *. simpl. rewrite IH, app_nil_r.
        unfold pending_of. rewrite Hx, orb_true_r. by destruct (rq_stub x). }
      unfold pending. simpl. unfold pending_of at 1 3. simpl. rewrite Hsr, (oo_wound _ _ Hrr), Hmr. by rewrite orb_true_r.
Qed.
End Invariant.
