(* ===== verification/WriteBehindSteps.v ===== *)
(** * The critical sections of write-behind keep the invariant

    Beside [process_ok] of [WriteBehindInv]: queueing a request, giving up a
    reference, the answer to a collected write, and resuming an operation. *)

From stdpp Require Import gmap base list numbers strings.
From S2P Require Import Prelude WriteBehind WriteBehindOps WriteBehindFacts WriteBehindInv.
Open Scope Z_scope.

(** ** Requests in their lists *)

Lemma find_request_split fr l r : find_request fr l = Some r -> exists l1 l2, l = l1 ++ r :: l2 /\ rq_frame r = fr.
Proof.
  intros [Hr E%Z.eqb_eq]%List.find_some. apply List.in_split in Hr as (l1 & l2 & ->). eauto.
Qed.

Lemma find_request_elem l r : NoDup (frames l) -> r ∈ l -> find_request (rq_frame r) l = Some r.
Proof.
  unfold find_request. induction l as [|x l IH]; simpl; [by intros _ ?%elem_of_nil|].
  intros [Hx Hl]%NoDup_cons [->|Hr]%elem_of_cons; [by rewrite Z.eqb_refl|].
  destruct (Z.eqb_spec (rq_frame x) (rq_frame r)) as [E|]; [|auto]. destruct Hx. rewrite E. by apply list_elem_of_fmap_2.
Qed.

Lemma find_request_none fr l : fr ∉ frames l -> find_request fr l = None.
Proof.
  unfold find_request. induction l as [|x l IH]; simpl; [done|]. intros Hn.
  destruct (Z.eqb_spec (rq_frame x) fr); [set_solver|]. apply IH. set_solver.
Qed.

Lemma get_request_elem f r :
  NoDup (frames (wb_requests f ++ wb_passive_requests f)) -> r ∈ wb_requests f ++ wb_passive_requests f ->
  get_request (rq_frame r) f = Some r.
Proof.
  rewrite map_app. intros (H1 & H2 & H3)%NoDup_app Hr. unfold get_request. apply elem_of_app in Hr as [Hr|Hr].
  - by rewrite find_request_elem.
  - rewrite find_request_none; [by apply find_request_elem|]. intros Hin. eapply H2; [exact Hin|]. by apply list_elem_of_fmap_2.
Qed.

Lemma unref_in_split l1 r l2 :
  rq_frame r ∉ frames l1 -> 0 < rq_refcount r ->
  unref_in (rq_frame r) (l1 ++ r :: l2) =
    Some (l1 ++ (if rq_refcount r =? 1 then [] else [rq_set_refcount (rq_refcount r - 1) r]) ++ l2).
Proof.
  intros Hn Hp. induction l1 as [|x l1 IH]; simpl in *.
  - rewrite Z.eqb_refl. destruct (Z.leb_spec (rq_refcount r) 0); [lia|].
    destruct (Z.eqb_spec (rq_refcount r - 1) 0), (Z.eqb_spec (rq_refcount r) 1); try done; lia.
  - destruct (Z.eqb_spec (rq_frame x) (rq_frame r)); [set_solver|]. by rewrite IH by set_solver.
Qed.

Lemma unref_in_none fr l : fr ∉ frames l -> unref_in fr l = None.
Proof.
  induction l as [|x l IH]; simpl; [done|]. intros Hn. destruct (Z.eqb_spec (rq_frame x) fr); [set_solver|].
  by rewrite IH by set_solver.
Qed.

Lemma map_request_split fr g l1 r l2 :
  NoDup (frames (l1 ++ r :: l2)) -> rq_frame r = fr -> map_request fr g (l1 ++ r :: l2) = l1 ++ g r :: l2.
Proof.
  intros Hnd <-. assert (forall l, rq_frame r ∉ frames l -> map_request (rq_frame r) g l = l) as Hid.
  { intros l Hl. induction l as [|x l IH]; simpl in *; [done|]. destruct (Z.eqb_spec (rq_frame x) (rq_frame r)); [set_solver|].
    f_equal. apply IH. set_solver. }
  rewrite map_app in Hnd. simpl in Hnd. apply NoDup_app in Hnd as (_ & Hd & [Hc _]%NoDup_cons).
  unfold map_request in *. rewrite map_app. simpl. rewrite Z.eqb_refl, !Hid; [done|done|]. intros Hin. eapply Hd; [exact Hin|by left].
Qed.

Lemma map_request_none fr g l : fr ∉ frames l -> map_request fr g l = l.
Proof.
  induction l as [|x l IH]; simpl; [done|]. intros Hn. unfold map_request in *. simpl.
  destruct (Z.eqb_spec (rq_frame x) fr); [set_solver|]. f_equal. apply IH. set_solver.
Qed.

(** ** Replacing a request *)

Section Steps.
Context (page : Z).

(** A request with the same place in the order. *)
Definition same_place (r r' : wb_request) : Prop :=
  rq_frame r' = rq_frame r /\ is_write r' = is_write r /\ rq_stack_wound r' = rq_stack_wound r /\
  rq_write_behind r' = rq_write_behind r /\ rq_marked_for_resume r' = rq_marked_for_resume r.

Lemma in_order_place l1 r r' l2 :
  Forall (same_place r) (option_list r') -> pairwise in_order (l1 ++ r :: l2) -> pairwise in_order (l1 ++ option_list r' ++ l2).
Proof.
  destruct r' as [r'|]; simpl; intros Hp Ho.
  - apply Forall_cons in Hp as [(E1 & E2 & E3 & E4 & E5) _].
    apply pairwise_app in Ho as (H1 & [HF H2] & H3). apply pairwise_app. split_and!; [done|split; [|done]|].
    + eapply Forall_impl; [exact HF|]. intros y. unfold in_order, answered_first. by rewrite E2, E3, E4, E5.
    + intros x y Hx [->|Hy]%elem_of_cons; [|apply H3; [done|by right]]. specialize (H3 x r Hx ltac:(by left)).
      revert H3. unfold in_order, answered_first. by rewrite E3, E4, E5.
  - eapply pairwise_sublist; [|exact Ho]. apply sublist_app; [done|]. by constructor.
Qed.

(** Only what concerns the frame of the request changes. *)
Lemma queue_replace n T T' l1 r l2 passive r' :
  queue_ok page n T (l1 ++ r :: l2) passive -> Forall (same_place r) (option_list r') ->
  NoDup (map tok_key T') -> (forall t, tok_frame t <> rq_frame r -> t ∈ T' <-> t ∈ T) ->
  (forall t, t ∈ T' -> tok_frame t = rq_frame r -> token_ok (l1 ++ option_list r' ++ l2) passive t) ->
  Forall (request_ok page T') (option_list r') ->
  queue_ok page n T' (l1 ++ option_list r' ++ l2) passive.
Proof.
  intros [Hf Hk Hn Ht Hr Hp Ho] Hpl Hk' HT Htok Hr'.
  assert (sublist (frames ((l1 ++ option_list r' ++ l2) ++ passive)) (frames ((l1 ++ r :: l2) ++ passive))) as Hsub.
  { rewrite !map_app. apply sublist_app; [|done]. apply sublist_app; [done|]. simpl. destruct r' as [r'|]; simpl; [|by constructor].
    apply Forall_cons in Hpl as [(-> & _) _]. done. }
  assert (forall x, x ∈ l1 ++ l2 ++ passive -> rq_frame x <> rq_frame r) as Hne.
  { intros x Hx E. rewrite <-app_assoc, map_app in Hf. simpl in Hf. apply NoDup_app in Hf as (_ & Hd & [Hc _]%NoDup_cons).
    apply elem_of_app in Hx as [Hx|Hx].
    - apply (Hd (rq_frame x)); [by apply list_elem_of_fmap_2|]. rewrite E. by left.
    - apply Hc. rewrite <-E. by apply list_elem_of_fmap_2. }
  rewrite Forall_forall in Ht. split.
  - by eapply sublist_NoDup.
  - done.
  - apply Forall_app in Hn as [Hn1 Hn2]. apply Forall_app. split; [by eapply Forall_sublist|].
    apply Forall_forall. intros fr (t & -> & Hin)%list_elem_of_fmap. rewrite Forall_forall in Hn1. rewrite Forall_forall in Hn2.
    destruct (decide (tok_frame t = rq_frame r)) as [E|Hnr]; [|apply Hn2, list_elem_of_fmap_2; by apply HT].
    rewrite E. apply Hn1, list_elem_of_fmap_2. set_solver.
  - apply Forall_forall. intros t Hin. destruct (decide (tok_frame t = rq_frame r)) as [E|Hnr]; [auto|].
    apply HT in Hin; [|done]. specialize (Ht t Hin).
    destruct t as [fr|fr|fr|fr|fr|fr]; simpl in *; [|..|done].
    + intros Hin'. apply Ht. eapply elem_of_submseteq; [exact Hin'|]. by apply sublist_submseteq.
    + destruct Ht as (x & Hx & <- & Hx'). exists x. split; [set_solver|done].
    + destruct Ht as (x & Hx & <- & Hx'). exists x. split; [set_solver|done].
    + destruct Ht as (x & Hx & <- & Hx'). exists x. split; [set_solver|done].
    + destruct Ht as (x & Hx & <- & Hx'). exists x. split; [set_solver|done].
  - assert (forall x, x ∈ l1 ++ l2 -> request_ok page T x -> request_ok page T' x) as Hext.
    { intros x Hx. apply request_ok_ext. intros t Et _. symmetry. apply HT. rewrite Et. apply Hne. set_solver. }
    apply Forall_app in Hr as [Hr1 [_ Hr2]%Forall_cons]. rewrite Forall_forall in Hr1. rewrite Forall_forall in Hr2.
    rewrite !Forall_app. split_and!; [|done|]; apply Forall_forall; intros x Hx; apply Hext; [set_solver|auto|set_solver|auto].
  - rewrite Forall_forall in Hp. apply Forall_forall. intros x Hx. specialize (Hp x Hx). destruct Hp. split; try done.
    apply HT; [|done]. simpl. apply Hne. set_solver.
  - by eapply in_order_place.
Qed.

(** What remains of a request that has given up a reference. *)
Definition unreffed (r : wb_request) : option wb_request :=
  if rq_refcount r =? 1 then None else Some (rq_set_refcount (rq_refcount r - 1) r).

Lemma unref_request f l1 r l2 :
  wb_requests f = l1 ++ r :: l2 -> NoDup (frames (l1 ++ r :: l2)) -> 0 < rq_refcount r ->
  __wb_request_unref (rq_frame r) f = Some (set_requests (l1 ++ option_list (unreffed r) ++ l2) f).
Proof.
  intros El Hnd Hp. unfold __wb_request_unref. rewrite El, unref_in_split; [|..|done].
  - unfold unreffed. by destruct (rq_refcount r =? 1).
  - rewrite map_app in Hnd. apply NoDup_app in Hnd as (_ & Hd & _). intros Hin. apply (Hd _ Hin). by left.
Qed.

Lemma unref_passive f l1 r l2 :
  wb_passive_requests f = l1 ++ r :: l2 -> NoDup (frames (wb_requests f ++ l1 ++ r :: l2)) -> rq_refcount r = 1 ->
  __wb_request_unref (rq_frame r) f = Some (set_passive (l1 ++ l2) f).
Proof.
  intros El Hnd Hp. unfold __wb_request_unref. rewrite !map_app in Hnd. apply NoDup_app in Hnd as (_ & Hd & Hnd).
  rewrite unref_in_none; [|intros Hin; apply (Hd _ Hin); rewrite elem_of_app; right; by left].
  rewrite El, unref_in_split; [|..|lia]; [by rewrite Hp|].
  apply NoDup_app in Hnd as (_ & Hd' & _). intros Hin. apply (Hd' _ Hin). by left.
Qed.

(** A passive request goes when it is answered. *)
Lemma queue_drop_passive n T l l1 r l2 :
  queue_ok page n (T_unwind (rq_frame r) :: T) l (l1 ++ r :: l2) -> queue_ok page n (T_done (rq_frame r) :: T) l (l1 ++ l2).
Proof.
  intros [Hf Hk Hn Ht Hr Hp Ho].
  assert (forall x, x ∈ l ++ l1 ++ l2 -> rq_frame x <> rq_frame r) as Hne.
  { intros x Hx E. rewrite app_assoc, map_app in Hf. simpl in Hf. apply NoDup_app in Hf as (_ & Hd & [Hc _]%NoDup_cons).
    rewrite app_assoc in Hx. apply elem_of_app in Hx as [Hx|Hx].
    - apply (Hd (rq_frame x)); [by apply list_elem_of_fmap_2|]. rewrite E. by left.
    - apply Hc. rewrite <-E. by apply list_elem_of_fmap_2. }
  assert (sublist (frames (l ++ l1 ++ l2)) (frames (l ++ l1 ++ r :: l2))) as Hsub.
  { apply (fmap_sublist rq_frame). apply sublist_app; [done|]. apply sublist_app; [done|]. by constructor. }
  assert (forall t, tok_frame t <> rq_frame r -> t ∈ T_done (rq_frame r) :: T <-> t ∈ T_unwind (rq_frame r) :: T) as HT.
  { intros t Hnr. rewrite !elem_of_cons. split; (intros [->|?]; [done|by right]). }
  split.
  - by eapply sublist_NoDup.
  - done.
  - apply Forall_app in Hn as [Hn1 Hn2]. apply Forall_app. split; [by eapply Forall_sublist|done].
  - apply Forall_cons in Ht as [_ Ht]. constructor; [done|]. simpl in Hk. apply NoDup_cons in Hk as [Hk _].
    rewrite Forall_forall in Ht. apply Forall_forall. intros t Hin. specialize (Ht t Hin).
    destruct t as [fr|fr|fr|fr|fr|fr]; simpl in *; try done.
    + intros Hin'. apply Ht. eapply elem_of_submseteq; [exact Hin'|]. by apply sublist_submseteq.
    + destruct Ht as (x & Hx & <- & Hx'). exists x. split; [|done].
      assert (x <> r) by (intros ->; apply Hk; by apply (list_elem_of_fmap_2 tok_key) in Hin). set_solver.
  - rewrite Forall_forall in Hr. apply Forall_forall. intros x Hx. eapply request_ok_ext; [|by apply Hr].
    intros t Et _. symmetry. apply HT. rewrite Et. apply Hne. set_solver.
  - apply Forall_app in Hp as [Hp1 [_ Hp2]%Forall_cons]. rewrite Forall_forall in Hp1. rewrite Forall_forall in Hp2.
    apply Forall_app. split; apply Forall_forall; intros x Hx.
    + destruct (Hp1 x Hx). split; try done. apply HT; [|done]. apply Hne. set_solver.
    + destruct (Hp2 x Hx). split; try done. apply HT; [|done]. apply Hne. set_solver.
  - done.
Qed.

Lemma key_notin t T : NoDup (map tok_key (t :: T)) -> forall t', tok_key t' = tok_key t -> t' ∉ T.
Proof. simpl. intros [Hn _]%NoDup_cons t' E Hin. apply Hn. rewrite <-E. by apply list_elem_of_fmap_2. Qed.

(** The queue may change where a request that is on its way or being done gives
    up a reference. *)
Lemma settled_replace l1 r l2 r' :
  (rq_stack_wound r = true \/ (is_write r = false /\ rq_marked_for_resume r = true)) ->
  Forall (same_place r) (option_list r') -> pairwise in_order (l1 ++ r :: l2) ->
  settled page (fun _ => False) (l1 ++ r :: l2) -> settled page (fun _ => False) (l1 ++ option_list r' ++ l2).
Proof.
  intros Hr Hpl Ho Hs. apply pairwise_app in Ho as (_ & _ & Ho).
  assert (forall x, x ∈ l1 -> in_order x r) as Hx by (intros x Hx; apply Ho; [done|by left]).
  assert (settled page (fun _ => False) (option_list r' ++ l2)) as Hs2.
  { assert (settled page (fun _ => False) l2) as Hl2.
    { apply (settled_drop page _ (l1 ++ [r])). by rewrite <-app_assoc. }
    destruct r' as [r'|]; simpl; [|done]. apply settled_cons_not_loose; [|done].
    apply Forall_cons in Hpl as [(_ & E2 & E3 & _) _]. unfold loose. rewrite E2, E3.
    destruct Hr as [->|[-> _]]; [by rewrite andb_false_r|done]. }
  apply settled_front; [|done]. destruct Hr as [Hw|[_ Hm]].
  - right. apply Forall_forall. intros x Hx1. by apply (Hx x Hx1).
  - left. apply Forall_forall. intros x Hx1. by apply (Hx x Hx1).
Qed.

(** What a token says of the request of its frame. *)
Lemma token_says n T l passive r t :
  queue_ok page n T l passive -> r ∈ l -> t ∈ T -> tok_frame t = rq_frame r ->
  match t with
  | T_new _ => False
  | T_unwind _ => is_write r = true /\ rq_write_behind r = true
  | T_wind _ => is_write r = true /\ rq_stack_wound r = true /\ rq_got_reply r = false
  | T_mark _ => is_write r = false /\ rq_stub r <> None /\ rq_marked_for_resume r = true
  | T_op _ => is_write r = false /\ rq_stub r = None
  | T_done _ => True
  end.
Proof.
  intros Hq Hr Ht Et. pose proof (q_frames _ _ _ _ _ Hq) as Hnd. pose proof (q_tokens _ _ _ _ _ Hq) as Hok.
  rewrite Forall_forall in Hok. specialize (Hok t Ht).
  assert (forall x, x ∈ l ++ passive -> rq_frame x = rq_frame r -> x = r) as Hu.
  { intros x Hx E. eapply (NoDup_map_eq rq_frame); [exact Hnd|done|set_solver|done]. }
  destruct t as [fr|fr|fr|fr|fr|fr]; simpl in *; subst fr; [| | | | |done].
  - apply Hok, list_elem_of_fmap_2. set_solver.
  - destruct Hok as (x & Hx & Ex & Hx'). by rewrite (Hu x) in Hx'.
  - destruct Hok as (x & Hx & Ex & Hx'). by rewrite (Hu x) in Hx' by set_solver.
  - destruct Hok as (x & Hx & Ex & Hx'). by rewrite (Hu x) in Hx' by set_solver.
  - destruct Hok as (x & Hx & Ex & Hx'). rewrite (Hu x) in Hx' by set_solver. unfold is_write. by rewrite Hx'.
Qed.

(** ** Giving up references *)

(** A critical section that keeps the invariant and what is to be sent; a write
    only goes when it has been answered. *)
Record keeps (n : Z) (T' : list token) (f f' : wb_file) : Prop := {
  kp_ok : file_ok page n T' f';
  kp_pending : pending (wb_requests f') = pending (wb_requests f);
  kp_conf : wb_window_conf f' = wb_window_conf f;
  kp_writes : forall fr, fr ∈ write_frames (wb_requests f ++ wb_passive_requests f) ->
    fr ∈ write_frames (wb_requests f' ++ wb_passive_requests f') \/ T_done fr ∈ T'
}.

Lemma replace_writes (T' : list token) l1 r l2 r' passive :
  Forall (same_place r) (option_list r') -> (is_write r = true -> r' = None -> T_done (rq_frame r) ∈ T') ->
  forall fr, fr ∈ write_frames ((l1 ++ r :: l2) ++ passive) ->
    fr ∈ write_frames ((l1 ++ option_list r' ++ l2) ++ passive) \/ T_done fr ∈ T'.
Proof.
  intros Hpl Hd fr. change (r :: l2) with ([r] ++ l2). rewrite !write_frames_app. unfold write_frames at 2.
  destruct r' as [r'|]; simpl.
  - apply Forall_cons in Hpl as [(E1 & E2 & _) _]. unfold write_frames at 5. rewrite !filter_cons, E2.
    case_decide; simpl; rewrite ?E1; auto.
  - rewrite filter_cons. case_decide as Hw; simpl; [|auto]. specialize (Hd Hw eq_refl). set_solver.
Qed.

Lemma set_window_id f : set_window (wb_window_current f) f = f.
Proof. by destruct f. Qed.

(** A file whose list changed in one place. *)
Lemma file_replace n T T' f l1 r l2 r' w :
  file_ok page n T f -> wb_requests f = l1 ++ r :: l2 ->
  queue_ok page n T' (l1 ++ option_list r' ++ l2) (wb_passive_requests f) ->
  settled page (fun _ => False) (l1 ++ option_list r' ++ l2) -> Forall (same_place r) (option_list r') ->
  (is_write r = true -> r' = None -> T_done (rq_frame r) ∈ T') ->
  total wsize (option_list r') <= wsize r -> w = wb_window_current f - wsize r + total wsize (option_list r') ->
  total asize (option_list r') = asize r -> pending (option_list r') = pending_of r ->
  keeps n T' f (set_requests (l1 ++ option_list r' ++ l2) (set_window w f)).
Proof.
  intros [Hq Hs [C1 C2 C3 C4]] El Hq' Hs' Hpl Hd Hle Ew E2 E3. rewrite El in *. rewrite !total_app in *. simpl in *.
  split; simpl.
  - split; simpl; [done|done|]. split; simpl; rewrite ?total_app, ?E2; try done; lia.
  - by rewrite El, !pending_app, E3.
  - done.
  - rewrite El. by apply replace_writes.
Qed.

(** A write gives up a reference, with the token that stood for it. *)
Lemma queue_unref_write n T T' l1 r r1 l2 passive :
  queue_ok page n T (l1 ++ r :: l2) passive -> is_write r = true -> same_place r r1 ->
  rq_stub r1 = rq_stub r -> rq_write_size r1 = rq_write_size r -> rq_refcount r1 = rq_refcount r ->
  (rq_got_reply r1 = true -> rq_stack_wound r = true) ->
  NoDup (map tok_key T') -> (forall t, tok_frame t <> rq_frame r -> t ∈ T' <-> t ∈ T) ->
  (forall t, t ∈ T' -> t ∈ T \/ t = T_done (rq_frame r)) ->
  (T_wind (rq_frame r) ∈ T' -> rq_got_reply r1 = false) ->
  rq_refcount r - 1 = Z.b2z (negb (rq_got_reply r1)) +
    Z.b2z (negb (rq_write_behind r) || bool_decide (T_unwind (rq_frame r) ∈ T')) ->
  (if rq_write_behind r then T_unwind (rq_frame r) ∈ T' \/ T_done (rq_frame r) ∈ T'
   else (T_unwind (rq_frame r) ∉ T') /\ (T_done (rq_frame r) ∉ T')) ->
  queue_ok page n T' (l1 ++ option_list (unreffed r1) ++ l2) passive.
Proof.
  intros Hq Hw Hsame Es Ez Ec Hgw Hk HT Hsub Hwind Hrc Hans. pose proof Hsame as (E1 & E2 & E3 & E4 & E5).
  assert (rq_refcount r <> 1 -> unreffed r1 = Some (rq_set_refcount (rq_refcount r1 - 1) r1)) as Hsome.
  { intros Hne. unfold unreffed. rewrite Ec. by destruct (Z.eqb_spec (rq_refcount r) 1). }
  pose proof (q_requests _ _ _ _ _ Hq) as [_ [Hrr _]%Forall_cons]%Forall_app. unfold request_ok in Hrr. rewrite Hw in Hrr.
  eapply queue_replace; [exact Hq| |done|done| |].
  - unfold unreffed. destruct (rq_refcount r1 =? 1); simpl; [constructor|]. by apply Forall_singleton.
  - intros t Hin Et. destruct (Hsub t Hin) as [Hin'| ->]; [|done].
    pose proof (token_says _ _ _ _ r t Hq ltac:(set_solver) Hin' Et) as Hsay.
    destruct t as [x|x|x|x|x|x]; simpl in Et; subst x; simpl;
      [done| | |destruct Hsay; congruence|destruct Hsay; congruence|done].
    + destruct Hsay as [_ Hb]. rewrite bool_decide_true, orb_true_r in Hrc by done. simpl in Hrc.
      rewrite Hsome by (destruct (rq_got_reply r1); simpl in Hrc; lia).
      exists (rq_set_refcount (rq_refcount r1 - 1) r1). simpl. split_and!; [set_solver|done| |congruence].
      change (is_write r1 = true). congruence.
    + destruct Hsay as (_ & Hsw & _). rewrite (Hwind Hin) in Hrc. simpl in Hrc.
      rewrite Hsome by (destruct (negb _ || _); simpl in Hrc; lia).
      exists (rq_set_refcount (rq_refcount r1 - 1) r1). simpl. split_and!; [set_solver|done| |congruence|auto].
      change (is_write r1 = true). congruence.
  - unfold unreffed. rewrite Ec. destruct (Z.eqb_spec (rq_refcount r) 1) as [|Hne]; simpl; [constructor|].
    apply Forall_singleton. unfold request_ok. change (is_write (rq_set_refcount _ r1)) with (is_write r1).
    rewrite E2, Hw. destruct Hrr. split; simpl; rewrite ?E1, ?E4, ?E5; try done; [|lia|by rewrite E3].
    by apply (holds_fields page r).
Qed.

(** Where the request goes it counts for nothing. *)
Lemma unreffed_measures T r r1 :
  write_ok page T r -> is_write r = true -> same_place r r1 -> rq_stub r1 = rq_stub r ->
  rq_write_size r1 = rq_write_size r -> (rq_refcount r1 = 1 -> rq_got_reply r1 = true) ->
  (rq_got_reply r1 = true -> rq_stack_wound r = true) ->
  total wsize (option_list (unreffed r1)) = wsize r1 /\ total asize (option_list (unreffed r1)) = asize r /\
  pending (option_list (unreffed r1)) = pending_of r.
Proof.
  intros Hr Hw (E1 & E2 & E3 & E4 & E5) Es Ez Hrep Hsw. unfold unreffed.
  destruct (Z.eqb_spec (rq_refcount r1) 1) as [Hone|]; simpl.
  - specialize (Hrep Hone). unfold wsize, asize, pending_of. rewrite Hrep, (Hsw Hrep), !andb_false_r.
    split_and!; try done. by destruct (rq_stub r).
  - split_and!; [exact (Z.add_0_r (wsize r1))| |].
    + transitivity (asize r1); [exact (Z.add_0_r (asize r1))|]. unfold asize. by rewrite E2, E3, Ez.
    + transitivity (pending_of r1); [exact (app_nil_r (pending_of r1))|]. unfold pending_of. by rewrite Es, E1, E3, E5.
Qed.

Lemma unref_settled l1 r r1 l2 :
  same_place r r1 -> rq_stub r1 = rq_stub r -> rq_write_size r1 = rq_write_size r ->
  (rq_refcount r1 = 1 -> rq_stack_wound r = true) -> pairwise in_order (l1 ++ r :: l2) ->
  settled page (fun _ => False) (l1 ++ r :: l2) -> settled page (fun _ => False) (l1 ++ option_list (unreffed r1) ++ l2).
Proof.
  intros (E1 & E2 & E3 & E4 & E5) Es Ez Hw Ho Hs. unfold unreffed. destruct (Z.eqb_spec (rq_refcount r1) 1) as [Hone|].
  - apply (settled_replace l1 r l2); [auto|constructor|done..].
  - eapply settled_attrs; [|exact Hs]. rewrite !map_app. simpl.
    assert (loose (rq_set_refcount (rq_refcount r1 - 1) r1) = loose r) as ->
      by (change (loose r1 = loose r); unfold loose; by rewrite E2, E3, E4).
    assert (rq_off (rq_set_refcount (rq_refcount r1 - 1) r1) = rq_off r) as ->
      by (change (rq_off r1 = rq_off r); unfold rq_off; by rewrite Es).
    by rewrite Ez.
Qed.

Lemma unwind_passive n T f l1 r l2 :
  file_ok page n (T_unwind (rq_frame r) :: T) f -> wb_passive_requests f = l1 ++ r :: l2 ->
  exists f', __wb_request_unref (rq_frame r) f = Some f' /\ keeps n (T_done (rq_frame r) :: T) f f'.
Proof.
  intros [Hq Hs Hc] El. rewrite El in *. pose proof Hq as [Hnd _ _ _ _ Hp _].
  apply Forall_app in Hp as [_ [Hpr _]%Forall_cons]. exists (set_passive (l1 ++ l2) f). split; [|split]; try done.
  - by apply unref_passive; [..|apply Hpr].
  - split; simpl; [by apply queue_drop_passive|done|]. by destruct Hc.
  - rewrite El. simpl. intros fr. change (r :: l2) with ([r] ++ l2). rewrite !write_frames_app. unfold write_frames at 3. simpl.
    rewrite filter_cons, (po_write _ _ Hpr). simpl. set_solver.
Qed.

Lemma unwind_listed n T f l1 r l2 :
  file_ok page n (T_unwind (rq_frame r) :: T) f -> wb_requests f = l1 ++ r :: l2 ->
  exists f', __wb_request_unref (rq_frame r) f = Some f' /\ keeps n (T_done (rq_frame r) :: T) f f'.
Proof.
  intros Hf El. pose proof Hf as [Hq Hs Hc]. pose proof Hq as [Hnd Hk _ _ Hr Hp Ho].
  pose proof (key_notin _ _ Hk) as Hkey. rewrite El in *.
  destruct (token_says _ _ _ _ r _ Hq ltac:(set_solver) ltac:(by left) eq_refl) as [Hw Hb].
  pose proof Hr as [_ [Hrr _]%Forall_cons]%Forall_app. unfold request_ok in Hrr. rewrite Hw in Hrr.
  pose proof (wo_refcount _ _ _ Hrr) as Hrc. rewrite Hb, bool_decide_true in Hrc by by left. simpl in Hrc.
  assert (rq_refcount r = 1 -> rq_got_reply r = true) as Hrep
    by (intros E; destruct (rq_got_reply r) eqn:Eg; [done|]; simpl in Hrc; lia).
  assert (same_place r r) as Hpl by done.
  assert (T_unwind (rq_frame r) ∉ T_done (rq_frame r) :: T) as Hnu.
  { intros [?|Hin]%elem_of_cons; [done|]. by apply (Hkey _ eq_refl) in Hin. }
  destruct (unreffed_measures _ r r Hrr Hw Hpl eq_refl eq_refl Hrep (wo_reply _ _ _ Hrr)) as (M1 & M2 & M3).
  rewrite (unref_request f l1 r l2); [|done|by rewrite map_app in Hnd; apply NoDup_app in Hnd as [? _]|apply Hrr].
  eexists. split; [done|]. rewrite <-(set_window_id f) at 2. eapply file_replace; try done.
  - eapply queue_unref_write; [exact Hq|done..|apply Hrr|done| | | | |].
    + intros t Hne. rewrite !elem_of_cons. split; (intros [->|?]; [done|by right]).
    + intros t [->|?]%elem_of_cons; [by right|left; by right].
    + intros [?|Hin]%elem_of_cons; [done|].
      by destruct (token_says _ _ _ _ r _ Hq ltac:(set_solver) (list_elem_of_further _ _ _ Hin) eq_refl) as (_ & _ & ?).
    + rewrite Hb, bool_decide_false by done. simpl. lia.
    + rewrite Hb. right. by left.
  - apply (unref_settled l1 r); try done. intros E. apply Hrr. auto.
  - unfold unreffed. case_match; simpl; by repeat constructor.
  - intros _ _. by left.
  - lia.
  - lia.
Qed.

Lemma unwind_ok n T f fr :
  file_ok page n (T_unwind fr :: T) f ->
  exists r f', get_request fr f = Some r /\ __wb_request_unref fr f = Some f' /\ keeps n (T_done fr :: T) f f'.
Proof.
  intros Hf. pose proof Hf as [Hq _ _]. pose proof Hq as [Hnd _ _ [Ht _]%Forall_cons _ _ _].
  destruct Ht as (r & Hr0 & <- & _). exists r. rewrite (get_request_elem f r) by done.
  apply elem_of_app in Hr0 as [Hr0|Hr0]; apply list_elem_of_In, List.in_split in Hr0 as (l1 & l2 & El).
  - destruct (unwind_listed n T f l1 r l2 Hf El) as (f' & ?). by exists f'.
  - destruct (unwind_passive n T f l1 r l2 Hf El) as (f' & ?). by exists f'.
Qed.

(** ** Replies *)

(** The request as [wb_sync_cbk] leaves it. *)
Definition replied (op_ret op_errno : Z) (r : wb_request) : wb_request :=
  if negb (rq_write_behind r) && (op_ret =? -1) then rq_set_answer op_ret op_errno (rq_set_got_reply r)
  else rq_set_got_reply r.

Lemma replied_fields op_ret op_errno r :
  rq_frame (replied op_ret op_errno r) = rq_frame r /\ rq_stub (replied op_ret op_errno r) = rq_stub r /\
  rq_write_size (replied op_ret op_errno r) = rq_write_size r /\ rq_refcount (replied op_ret op_errno r) = rq_refcount r /\
  rq_write_behind (replied op_ret op_errno r) = rq_write_behind r /\
  rq_stack_wound (replied op_ret op_errno r) = rq_stack_wound r /\ rq_got_reply (replied op_ret op_errno r) = true /\
  rq_marked_for_resume (replied op_ret op_errno r) = rq_marked_for_resume r.
Proof. unfold replied. by destruct (_ && _). Qed.

(** What [sync_replies] does for one request. *)
Lemma sync_reply_eq f l1 r l2 op_ret op_errno winds :
  wb_requests f = l1 ++ r :: l2 -> NoDup (frames (wb_requests f ++ wb_passive_requests f)) -> 0 < rq_refcount r ->
  sync_replies (rq_frame r :: winds) op_ret op_errno f =
  sync_replies winds op_ret op_errno
    (set_requests (l1 ++ option_list (unreffed (replied op_ret op_errno r)) ++ l2)
      (set_window (if rq_write_behind r then u64 (wb_window_current f - rq_write_size r) else wb_window_current f) f)).
Proof.
  intros El Hnd Hp. simpl. rewrite (get_request_elem f r) by (done || (rewrite El; set_solver)). cbn [mbind option_bind].
  rewrite El in Hnd. pose proof Hnd as Hnd'. rewrite map_app in Hnd'. apply NoDup_app in Hnd' as (Hn1 & Hn2 & Hn3).
  assert (rq_frame r ∉ frames (wb_passive_requests f)) as Hnp.
  { intros Hin. apply (Hn2 (rq_frame r)); [|done]. rewrite map_app. apply elem_of_app. right. by left. }
  assert (forall g x h, wb_requests h = l1 ++ x :: l2 -> rq_frame x = rq_frame r ->
    wb_passive_requests h = wb_passive_requests f -> upd_request (rq_frame r) g h = set_requests (l1 ++ g x :: l2) h) as Hupd.
  { intros g x h E1 Ex E2. unfold upd_request. rewrite E1, E2, map_request_split, map_request_none; try done.
    - rewrite <-E2. by destruct h.
    - rewrite map_app in *. simpl in *. by rewrite Ex. }
  rewrite (Hupd rq_set_got_reply r f) by done.
  set (f2 := if negb (rq_write_behind r) && (op_ret =? -1) then _ else _).
  assert (f2 = set_requests (l1 ++ replied op_ret op_errno r :: l2) f) as ->.
  { unfold f2, replied. destruct (_ && _); [|done]. by rewrite (Hupd _ (rq_set_got_reply r)). }
  set (f3 := if rq_write_behind r then _ else _).
  assert (f3 = set_window (if rq_write_behind r then u64 (wb_window_current f - rq_write_size r) else wb_window_current f)
    (set_requests (l1 ++ replied op_ret op_errno r :: l2) f)) as -> by (unfold f3; destruct (rq_write_behind r); [done|by destruct f]).
  destruct (replied_fields op_ret op_errno r) as (E1 & _ & _ & E2 & _).
  rewrite <-E1. erewrite unref_request; [|done| |by rewrite E2].
  - cbn [mbind option_bind]. done.
  - rewrite map_app in *. simpl in *. by rewrite E1.
Qed.

Lemma sync_reply_ok n T f l1 r l2 op_ret op_errno :
  file_ok page n (T_wind (rq_frame r) :: T) f -> wb_requests f = l1 ++ r :: l2 ->
  keeps n T f
    (set_requests (l1 ++ option_list (unreffed (replied op_ret op_errno r)) ++ l2)
      (set_window (if rq_write_behind r then u64 (wb_window_current f - rq_write_size r) else wb_window_current f) f)).
Proof.
  intros Hf El. pose proof Hf as [Hq Hs [C1 C2 C3 _]]. rewrite El in *. pose proof Hq as [Hnd Hk _ _ Hr Hp Ho].
  pose proof (key_notin _ _ Hk) as Hkey. set (r1 := replied op_ret op_errno r).
  destruct (token_says _ _ _ _ r _ Hq ltac:(set_solver) ltac:(by left) eq_refl) as (Hw & Hsw & Hg).
  destruct (replied_fields op_ret op_errno r) as (E1 & E2 & E3 & E4 & E5 & E6 & E7 & E8). fold r1 in E1, E2, E3, E4, E5, E6, E7, E8.
  pose proof Hr as [Hr1 [Hrr Hr2]%Forall_cons]%Forall_app. unfold request_ok in Hrr. rewrite Hw in Hrr.
  pose proof (wsize_nonneg page _ _ Hr1). pose proof (wsize_nonneg page _ _ Hr2). pose proof (wo_holds _ _ _ Hrr) as [Hsz _].
  assert (forall t, tok_key t <> tok_key (T_wind (rq_frame r)) -> t ∈ T_wind (rq_frame r) :: T <-> t ∈ T) as HT.
  { intros t Hne. rewrite elem_of_cons. split; [by intros [->|?]|by right]. }
  assert (same_place r r1) as Hpl by (unfold same_place, is_write; by rewrite E2).
  destruct (unreffed_measures _ r r1 Hrr Hw Hpl E2 E3 ltac:(done) ltac:(done)) as (M1 & M2 & M3).
  assert (wsize r1 = 0) as Hz by (unfold wsize; by rewrite E7, andb_false_r).
  assert (wsize r = if rq_write_behind r then rq_write_size r else 0) as Hz'
    by (unfold wsize; rewrite Hw, Hg, andb_true_r; done).
  assert (rq_refcount r - 1 = Z.b2z (negb (rq_write_behind r) || bool_decide (T_unwind (rq_frame r) ∈ T))) as Hrc.
  { assert (tok_key (T_unwind (rq_frame r)) <> tok_key (T_wind (rq_frame r))) as Hne by (simpl; congruence).
    rewrite (wo_refcount _ _ _ Hrr), Hg, (bool_decide_ext _ _ (HT _ Hne)). simpl. lia. }
  pose proof (wo_answered _ _ _ Hrr) as Ha.
  assert (if rq_write_behind r then T_unwind (rq_frame r) ∈ T \/ T_done (rq_frame r) ∈ T
    else (T_unwind (rq_frame r) ∉ T) /\ (T_done (rq_frame r) ∉ T)) as Ha'
    by (destruct (rq_write_behind r); by rewrite !HT in Ha by (simpl; congruence)).
  rewrite total_app in C1, C2. simpl in C1, C2. eapply file_replace; try done.
  - eapply queue_unref_write; [exact Hq|done..| | | | | |done].
    + simpl in Hk. by apply NoDup_cons in Hk as [_ ?].
    + intros t Hne. symmetry. apply HT. intros E. apply Hne. by destruct t; simplify_eq/=.
    + intros t Ht. left. by right.
    + intros Hin. by destruct (Hkey _ eq_refl Hin).
    + by rewrite E7.
  - by apply (unref_settled l1 r).
  - unfold unreffed. destruct (rq_refcount r1 =? 1); simpl; [constructor|]. by apply Forall_singleton.
  - unfold unreffed. rewrite E4. intros _. destruct (Z.eqb_spec (rq_refcount r) 1) as [Eo|]; [|done]. intros _.
    rewrite Eo in Hrc. destruct (rq_write_behind r); [|done]. destruct Ha' as [Hu|?]; [|done]. by rewrite bool_decide_true in Hrc.
  - rewrite M1, Hz, Hz'. destruct (rq_write_behind r); lia.
  - rewrite M1, Hz, Hz' in *. destruct (rq_write_behind r); [rewrite u64_small; unfold is_u64|]; lia.
Qed.

Lemma sync_replies_ok n op_ret op_errno winds : forall T f,
  file_ok page n (map T_wind winds ++ T) f ->
  exists f', sync_replies winds op_ret op_errno f = Some f' /\ keeps n T f f'.
Proof.
  induction winds as [|fr winds IH]; intros T f Hf; [by exists f; split; [|split; auto]|]. simpl in Hf.
  pose proof Hf as [[Hnd _ _ Ht Hr _ _] _ _]. apply Forall_cons in Ht as [(r & Hin & <- & Hw & _) _].
  pose proof Hr as Hr'. rewrite Forall_forall in Hr'. specialize (Hr' r Hin). unfold request_ok in Hr'. rewrite Hw in Hr'.
  apply list_elem_of_In, List.in_split in Hin as (l1 & l2 & El).
  rewrite (sync_reply_eq f l1 r l2 op_ret op_errno winds El Hnd (wo_pos _ _ _ Hr')).
  destruct (sync_reply_ok n _ f l1 r l2 op_ret op_errno Hf El) as [Hf' Hp Hc Hw'].
  destruct (IH T _ Hf') as (f' & -> & [Hok Hpe Hc' Hw'']). exists f'. split; [done|]. split; [done|..].
  - rewrite Hpe. exact Hp.
  - by rewrite Hc'.
  - intros fr Hfr. destruct (Hw' fr Hfr) as [Hin|Hin]; [auto|]. right. apply elem_of_app in Hin as [Hin|Hin]; [|done].
    by apply list_elem_of_fmap in Hin as (x & ? & _).
Qed.

(** ** Operations *)

Lemma op_measures r : is_write r = false -> wsize r = 0 /\ asize r = 0.
Proof. unfold wsize, asize. by intros ->. Qed.

Lemma resume_ok n T f fr :
  file_ok page n (T_mark fr :: T) f ->
  exists r s, get_request fr f = Some r /\ rq_stub r = Some s /\ st_fop s <> GF_FOP_WRITE /\
    keeps n (T_op fr :: T) f (upd_request fr (rq_set_stub None) f).
Proof.
  intros Hf. pose proof Hf as [Hq Hs _]. pose proof Hq as [Hnd Hk _ [Ht _]%Forall_cons Hr _ Ho].
  destruct Ht as (r & Hin & <- & Hw & Hst & Hm). pose proof (key_notin _ _ Hk) as Hkey.
  pose proof Hr as Hr'. rewrite Forall_forall in Hr'. specialize (Hr' r Hin). unfold request_ok in Hr'. rewrite Hw in Hr'.
  destruct (rq_stub r) as [s|] eqn:Es; [|done]. exists r, s.
  assert (st_fop s <> GF_FOP_WRITE) as Hfop by (unfold is_write in Hw; rewrite Es in Hw; by apply bool_decide_eq_false in Hw).
  apply list_elem_of_In, List.in_split in Hin as (l1 & l2 & El). rewrite El in *.
  split_and!; [apply get_request_elem; rewrite El; [done|set_solver]|done|done|].
  pose proof Hnd as Hnd'. rewrite map_app in Hnd'. apply NoDup_app in Hnd' as (Hnd1 & Hd & _).
  assert (upd_request (rq_frame r) (rq_set_stub None) f = set_requests (l1 ++ [rq_set_stub None r] ++ l2) f) as ->.
  { unfold upd_request. rewrite El, map_request_split, map_request_none; try done.
    apply Hd. rewrite map_app. simpl. set_solver. }
  assert (Forall (same_place r) (option_list (Some (rq_set_stub None r)))) as Hpl by (by apply Forall_singleton).
  destruct (op_measures r Hw) as [M1 M2].
  rewrite <-(set_window_id f) at 2. eapply (file_replace n _ _ f l1 r l2 (Some (rq_set_stub None r))); try done.
  - eapply queue_replace; [exact Hq|done|done| | |].
    + intros t Hne. rewrite !elem_of_cons. split; (intros [->|?]; [done|by right]).
    + intros t [->|Hin]%elem_of_cons Et; [exists (rq_set_stub None r); split; [set_solver|done]|].
      pose proof (token_says _ _ _ _ r t Hq ltac:(set_solver) ltac:(by right) Et) as Hsay.
      destruct t as [x|x|x|x|x|x]; simpl in Et; subst x; [done|destruct Hsay; congruence|destruct Hsay; congruence|..|done];
        (exfalso; eapply Hkey; [|exact Hin]; done).
    + apply Forall_singleton. unfold request_ok. change (is_write (rq_set_stub None r)) with false. cbn iota.
      destruct Hr'. split; try done. simpl. congruence.
  - apply (settled_replace l1 r l2); auto.
  - rewrite M1. done.
  - rewrite M1. simpl. change (wsize (rq_set_stub None r)) with 0. lia.
  - unfold pending_of. rewrite Es, Hm, orb_true_r. done.
Qed.

Lemma unref_op_ok n T f fr :
  file_ok page n (T_op fr :: T) f ->
  exists f', __wb_request_unref fr f = Some f' /\ keeps n T f f'.
Proof.
  intros Hf. pose proof Hf as [Hq Hs _]. pose proof Hq as [Hnd Hk _ [Ht _]%Forall_cons Hr _ Ho].
  destruct Ht as (r & Hin & <- & Es). pose proof (key_notin _ _ Hk) as Hkey.
  assert (is_write r = false) as Hw by (unfold is_write; by rewrite Es).
  pose proof Hr as Hr'. rewrite Forall_forall in Hr'. specialize (Hr' r Hin). unfold request_ok in Hr'. rewrite Hw in Hr'.
  apply list_elem_of_In, List.in_split in Hin as (l1 & l2 & El). rewrite El in *.
  pose proof Hnd as Hnd'. rewrite map_app in Hnd'. apply NoDup_app in Hnd' as (Hnd1 & Hd & _).
  rewrite (unref_request f l1 r l2 El Hnd1) by (rewrite (oo_refcount _ _ Hr'); lia).
  assert (unreffed r = None) as -> by (unfold unreffed; by rewrite (oo_refcount _ _ Hr')).
  eexists. split; [done|]. destruct (op_measures r Hw) as [M1 M2].
  rewrite <-(set_window_id f) at 2. eapply (file_replace n _ _ f l1 r l2 None); try done.
  - eapply queue_replace; [exact Hq|done| | | |done].
    + simpl in Hk. by apply NoDup_cons in Hk as [_ ?].
    + intros t Hne. rewrite elem_of_cons. split; [by right|by intros [->|?]].
    + intros t Hin Et. pose proof (token_says _ _ _ _ r t Hq ltac:(set_solver) ltac:(by right) Et) as Hsay.
      destruct t as [x|x|x|x|x|x]; simpl in Et; subst x; [done|destruct Hsay; congruence|destruct Hsay; congruence|..|done];
        (exfalso; eapply Hkey; [|exact Hin]; done).
  - apply (settled_replace l1 r l2); [|done..]. right. split; [done|]. by apply Hr'.
  - congruence.
  - rewrite M1. done.
  - rewrite M1. simpl. lia.
  - unfold pending_of. by rewrite Es.
Qed.

(** ** Queueing *)

(** The request that [wb_enqueue] links. *)
Definition queued_request (fr : Z) (stub : call_stub) : wb_request :=
  if decide (st_fop stub = GF_FOP_WRITE) then
    mk_request fr (Some stub) (iov_length (st_vector stub)) 2 false false false false (i32 (iov_length (st_vector stub))) 0
  else mk_request fr (Some stub) 0 1 false false false false 0 0.

Lemma enqueue_eq f fr stub :
  wb_enqueue f fr stub =
    set_aggregate (if decide (st_fop stub = GF_FOP_WRITE) then u64 (wb_aggregate_current f + iov_length (st_vector stub))
                   else wb_aggregate_current f)
      (set_requests (wb_requests f ++ [queued_request fr stub]) f).
Proof. unfold wb_enqueue, queued_request. by case_decide; destruct f. Qed.

Lemma queued_fields fr stub :
  rq_frame (queued_request fr stub) = fr /\ rq_stub (queued_request fr stub) = Some stub /\
  rq_write_behind (queued_request fr stub) = false /\ rq_stack_wound (queued_request fr stub) = false /\
  rq_got_reply (queued_request fr stub) = false /\ rq_marked_for_resume (queued_request fr stub) = false /\
  is_write (queued_request fr stub) = bool_decide (st_fop stub = GF_FOP_WRITE).
Proof. unfold queued_request, is_write. by case_decide. Qed.

Lemma settled_snoc l r : loose r = false -> settled page (fun _ => False) l -> settled page (fun _ => False) (l ++ [r]).
Proof.
  intros Hr. induction l as [|x l IH]; simpl; [done|]. intros [Hc Hs]. split; [|auto]. destruct l as [|y l]; simpl; [|done].
  intros (_ & ? & _). congruence.
Qed.

Lemma queued_ok T fr stub :
  (st_fop stub = GF_FOP_WRITE -> page < 2 ^ 31 /\ good_vector page (st_vector stub)) ->
  (forall t, t ∈ T -> tok_frame t <> fr) -> request_ok page T (queued_request fr stub).
Proof.
  intros Hv Hn. unfold request_ok. destruct (queued_fields fr stub) as (_ & _ & _ & _ & _ & _ & ->).
  assert (forall t, tok_frame t = fr -> t ∉ T) as Hn' by (intros t E Ht; by apply (Hn t)).
  unfold queued_request. case_decide as Hw.
  - rewrite bool_decide_true by done. destruct (Hv Hw) as [Hp Hg]. unfold good_vector in Hg.
    destruct (st_vector stub) as [|v [|]] eqn:Ev; try done.
    assert (iov_length [v] = iov_len v) as El by (unfold iov_length, i32; simpl; rewrite Z.add_0_r, (u64_small (iov_len v)) by (unfold is_u64; lia);
      rewrite Z.mod_small, u64_small; unfold is_u64; lia).
    rewrite El. split; try done; simpl; [|by split; apply Hn'].
    split; simpl; [lia|]. unfold rq_vector. simpl. rewrite Ev. exists v. split_and!; try done; lia.
  - rewrite bool_decide_false by done. split; try done; simpl. intros _. by split; apply Hn'.
Qed.

Lemma queue_enqueue n T l passive fr stub :
  (st_fop stub = GF_FOP_WRITE -> page < 2 ^ 31 /\ good_vector page (st_vector stub)) ->
  queue_ok page n (T_new fr :: T) l passive -> queue_ok page n T (l ++ [queued_request fr stub]) passive.
Proof.
  intros Hv [Hf Hk Hn [Hnew Ht]%Forall_cons Hr Hp Ho]. pose proof (key_notin _ _ Hk) as Hkey. simpl in Hnew.
  set (r := queued_request fr stub). destruct (queued_fields fr stub) as (E1 & E2 & E3 & E4 & E5 & E6 & E7). fold r in E1, E2, E3, E4, E5, E6, E7.
  assert (frames ((l ++ [r]) ++ passive) ≡ₚ fr :: frames (l ++ passive)) as Hperm.
  { rewrite !map_app. simpl. rewrite E1, <-app_assoc. simpl. by rewrite <-Permutation_middle. }
  assert (forall t, t ∈ T -> tok_frame t <> fr) as Hnone.
  { intros t Hin Et. rewrite Forall_forall in Ht. specialize (Ht t Hin).
    destruct t as [x|x|x|x|x|x]; simpl in Et; subst x; simpl in Ht; try (by apply (Hkey _ eq_refl Hin));
      try (exfalso; eapply Hkey; [|exact Hin]; done); destruct Ht as (y & Hy & Ey & _);
      apply Hnew; rewrite <-Ey; apply list_elem_of_fmap_2; set_solver. }
  assert (forall t, tok_frame t <> fr -> t ∈ T <-> t ∈ T_new fr :: T) as HT.
  { intros t Hne. rewrite elem_of_cons. split; [by right|by intros [->|?]]. }
  assert (forall x, x ∈ l ++ passive -> rq_frame x <> fr) as Hne.
  { intros x Hx E. apply Hnew. rewrite <-E. by apply list_elem_of_fmap_2. }
  split.
  - rewrite Hperm. by constructor.
  - simpl in Hk. by apply NoDup_cons in Hk as [_ ?].
  - apply Forall_app in Hn as [Hn1 [Hn2 Hn3]%Forall_cons]. apply Forall_app. split; [|done]. rewrite Hperm. by constructor.
  - rewrite Forall_forall in Ht. apply Forall_forall. intros t Hin. specialize (Ht t Hin). specialize (Hnone t Hin).
    destruct t as [x|x|x|x|x|x]; simpl in *; try done.
    + rewrite Hperm. set_solver.
    + destruct Ht as (y & Hy & ?). exists y. split; [set_solver|done].
    + destruct Ht as (y & Hy & ?). exists y. split; [set_solver|done].
    + destruct Ht as (y & Hy & ?). exists y. split; [set_solver|done].
    + destruct Ht as (y & Hy & ?). exists y. split; [set_solver|done].
  - apply Forall_app. split; [|apply Forall_singleton; by apply queued_ok]. rewrite Forall_forall in Hr.
    apply Forall_forall. intros x Hx. eapply request_ok_ext; [|by apply Hr]. intros t Et _. symmetry. apply HT. rewrite Et.
    apply Hne. set_solver.
  - rewrite Forall_forall in Hp. apply Forall_forall. intros x Hx. destruct (Hp x Hx). split; try done.
    apply HT; [|done]. simpl. apply Hne. set_solver.
  - apply pairwise_app. split_and!; [done|done|]. intros x y _ ->%list_elem_of_singleton. unfold in_order, answered_first.
    rewrite E3, E4, E6. done.
Qed.

Lemma enqueue_ok n T f fr stub :
  (st_fop stub = GF_FOP_WRITE -> good_vector page (st_vector stub)) -> file_ok page n (T_new fr :: T) f ->
  file_ok page n T (wb_enqueue f fr stub) /\
  pending (wb_requests (wb_enqueue f fr stub)) = pending (wb_requests f) ++ asks fr stub /\
  write_frames (wb_requests (wb_enqueue f fr stub) ++ wb_passive_requests (wb_enqueue f fr stub)) ≡ₚ
    (if decide (st_fop stub = GF_FOP_WRITE) then [fr] else []) ++ write_frames (wb_requests f ++ wb_passive_requests f).
Proof.
  intros Hv [Hq Hs Hc]. rewrite enqueue_eq. set (r := queued_request fr stub).
  destruct (queued_fields fr stub) as (E1 & E2 & E3 & E4 & E5 & E6 & E7). fold r in E1, E2, E3, E4, E5, E6, E7.
  destruct Hc as [C1 C2 C3 C4].
  assert (wsize r = 0) as Hw by (unfold wsize; by rewrite E3, andb_false_r).
  split_and!; [split; simpl|..].
  - apply queue_enqueue; [|done]. intros E. split; [lia|auto].
  - apply settled_snoc; [|done]. unfold loose. by rewrite E3, andb_false_r.
  - split; simpl; rewrite ?total_app; simpl; rewrite ?Hw; try done; [lia|lia|].
    assert (asize r = if decide (st_fop stub = GF_FOP_WRITE) then iov_length (st_vector stub) else 0) as ->.
    { unfold asize. rewrite E4, E7. unfold r, queued_request. case_decide; [by rewrite bool_decide_true|by rewrite bool_decide_false]. }
    rewrite C4. repeat case_decide; try done; rewrite ?u64_add_l; f_equal; lia.
  - simpl. rewrite pending_app. f_equal. unfold pending. simpl. rewrite app_nil_r. unfold pending_of. by rewrite E1, E2, E4, E6.
  - simpl. rewrite <-app_assoc, !write_frames_app. rewrite !app_assoc. f_equiv. rewrite Permutation_app_comm. f_equiv.
    unfold write_frames. rewrite filter_cons, E7. repeat case_decide; simpl; rewrite ?E1; try done;
      rewrite bool_decide_eq_true in *; done.
Qed.

(** The rest of a file does not matter. *)
Lemma file_ok_same n T f f' :
  wb_requests f' = wb_requests f -> wb_passive_requests f' = wb_passive_requests f ->
  wb_window_conf f' = wb_window_conf f -> wb_window_current f' = wb_window_current f ->
  wb_aggregate_current f' = wb_aggregate_current f -> file_ok page n T f -> file_ok page n T f'.
Proof.
  intros E1 E2 E3 E4 E5 [Hq Hs [C1 C2 C3 C4]]. split; [by rewrite E1, E2|by rewrite E1|]. split; rewrite ?E1, ?E3, ?E4, ?E5; done.
Qed.

(** Frames that are not in use change nothing. *)
Lemma file_ok_next n n' T f : n <= n' -> file_ok page n T f -> file_ok page n' T f.
Proof.
  intros Hn [[Hf Hk Hx Ht Hr Hp Ho] Hs Hc]. split; [|done..]. split; try done. eapply Forall_impl; [exact Hx|]. simpl. lia.
Qed.
End Steps.
