(* ===== verification/WriteBehindSafe.v ===== *)
(** * Write-behind under any interleaving

    The tokens of [WriteBehindInv] read off the threads, the calls in flight and
    the answers given so far; the invariant holds in every reachable state of the
    system, and every step that can be taken succeeds. *)

From stdpp Require Import gmap base list numbers strings relations.
From S2P Require Import Prelude WriteBehind WriteBehindOps WriteBehindFacts WriteBehindInv WriteBehindSteps.
Open Scope Z_scope.

(** ** Tokens of the system *)

Definition call_tokens (c : wb_call) : list token :=
  match c with
  | C_writev winds _ _ => map T_wind winds
  | C_other _ fr true => [T_op fr]
  | _ => []
  end.

Definition action_tokens (a : action) : list token :=
  match a with
  | A_writev fr _ _ _ | A_enqueue fr _ | A_flush fr _ => [T_new fr]
  | A_unwind fr => [T_unwind fr]
  | A_sync winds others _ => map T_wind winds ++ map T_mark others
  | A_resume fr _ => [T_mark fr]
  | A_unref fr | A_fsync_cbk fr true _ _ => [T_op fr]
  | A_sync_cbk winds _ _ => map T_wind winds
  | A_wind c => call_tokens c
  | _ => []
  end.

Definition thread_tokens (th : list action) : list token := concat (map action_tokens th).

Definition output_tokens (outs : list output) : list token :=
  omap (fun o => match o with O_unwind fr _ _ => Some (T_done fr) | _ => None end) outs.

Definition sys_tokens (y : wb_sys) : list token :=
  concat (map thread_tokens (y_threads y)) ++ concat (map call_tokens (y_calls y)) ++ output_tokens (y_log y).

Lemma thread_tokens_app th th' : thread_tokens (th ++ th') = thread_tokens th ++ thread_tokens th'.
Proof. unfold thread_tokens. by rewrite map_app, concat_app. Qed.

(** ** Collected writes *)

(** A write of one vector with something in it. *)
Definition single (r : wb_request) : Prop := length (rq_vector r) = 1%nat /\ 0 < rq_write_size r.

(** Every write goes with one of the calls, in order. *)
Lemma sync_loop_ok conf l : forall cur count size bytes,
  Forall single l -> (l = [] -> cur = []) -> count = Z.of_nat (length cur) -> count + 1 <= MAX_VECTOR_COUNT ->
  0 <= size -> 0 <= bytes ->
  exists calls b, sync_loop conf [] cur count size bytes l = Some (calls, b) /\ 0 <= b /\ concat calls = cur ++ l.
Proof.
  induction l as [|r l IH]; intros cur count size bytes Hl Hc Hn Hm Hs Hb; simpl.
  { exists [], bytes. by rewrite Hc. }
  apply Forall_cons in Hl as [[Hr1 Hr2] Hl]. rewrite Hr1.
  assert ((match cur with [] => (true, []) | _ :: _ => (true, []) end : bool * list bool) = (true, [])) as -> by by destruct cur.
  cbn [negb]. destruct (Z.ltb_spec MAX_VECTOR_COUNT (count + Z.of_nat 1)) as [|Hm']; [lia|].
  set (size' := match cur with [] => 0 | _ => size end + rq_write_size r).
  assert (0 <= size') as Hs' by (unfold size'; destruct cur; lia).
  set (full := match l with [] => true | next :: _ => _ end). destruct full eqn:Ef.
  - simpl. destruct (IH [] 0 size' (bytes + size')) as (calls & b & -> & Hb' & Ec); try done; try lia.
    exists ((cur ++ [r]) :: calls), b. split_and!; [done|done|]. simpl. by rewrite Ec, <-app_assoc.
  - destruct (IH (cur ++ [r]) (count + Z.of_nat 1) size' bytes) as (calls & b & -> & Hb' & Ec); try done.
    + intros ->. done.
    + rewrite length_app. simpl. lia.
    + unfold full in Ef. destruct l as [|next l]; [done|]. apply Forall_cons in Hl as [[Hn1 _] _]. rewrite Hn1 in Ef.
      apply orb_false_elim in Ef as [Ef _]. apply Z.ltb_ge in Ef. lia.
    + exists calls, b. split_and!; [done|done|]. by rewrite Ec, <-app_assoc.
Qed.

Lemma wb_sync_ok conf l :
  Forall single l -> exists calls b, wb_sync conf [] l = Some (calls, b) /\ 0 <= b /\ concat calls = l.
Proof.
  intros Hl. unfold wb_sync. destruct (forallb _ l) eqn:E; [|by apply sync_loop_ok].
  exists [], 0. split_and!; [done|done|]. destruct Hl as [|r l [Hr _] _]; [done|]. simpl in E. by destruct (rq_vector r).
Qed.

Section Safe.
Context (conf : wb_conf) (page : Z).

(** ** Actions *)

(** Writes as they are let in, and no stub is destroyed while it is queued. *)
Definition action_ok (a : action) : Prop :=
  match a with
  | A_destroy_stub _ => False
  | A_writev _ _ vector _ => good_vector page vector
  | A_enqueue _ stub => st_fop stub = GF_FOP_WRITE -> good_vector page (st_vector stub)
  | _ => True
  end.

(** A frame that is not to be queued, and a resumed operation that is forgotten. *)
Lemma file_ok_drop n T f t :
  (exists fr, t = T_new fr \/ t = T_op fr) -> file_ok page n (t :: T) f -> file_ok page n T f.
Proof.
  intros [fr Ht] [[Hf Hk Hn [_ Htk]%Forall_cons Hr Hp Ho] Hs Hc]. split; [|done..].
  assert (forall x, x ∈ t :: T <-> x = t \/ x ∈ T) as Hin by (intros x; by rewrite elem_of_cons).
  assert (forall x, t <> x -> x ∈ t :: T <-> x ∈ T) as Hne by (intros x Hx; rewrite Hin; naive_solver).
  split; try done.
  - simpl in Hk. by apply NoDup_cons in Hk as [_ ?].
  - apply Forall_app in Hn as [Hn1 [_ Hn2]%Forall_cons]. apply Forall_app. by split.
  - eapply Forall_impl; [exact Hr|]. intros r. unfold request_ok. destruct (is_write r).
    + intros [? Hrc ? ? Ha ?]. assert (t <> T_unwind (rq_frame r)) as Hu by naive_solver.
      rewrite (bool_decide_ext _ _ (Hne _ Hu)) in Hrc.
      split; try done. destruct (rq_write_behind r); rewrite !Hne in Ha by naive_solver; done.
    + intros [? ? ? ? Hm]. split; try done. intros Hf'. destruct (Hm Hf'). rewrite !Hin in *. naive_solver.
  - eapply Forall_impl; [exact Hp|]. intros r [? ? ? Hu]. split; try done. rewrite Hne in Hu by naive_solver. done.
Qed.

Lemma file_ok_new n T f : file_ok page n T f -> file_ok page (n + 1) (T_new n :: T) f.
Proof.
  intros Hf. destruct Hf as [[Hf Hk Hn Htk Hr Hp Ho] Hs Hc]. split; [|done..].
  pose proof Hn as [Hn1 Hn2]%Forall_app. rewrite Forall_forall in Hn1. rewrite Forall_forall in Hn2.
  assert (forall x, x <> T_new n -> x ∈ T_new n :: T <-> x ∈ T) as Hne by (intros x Hx; rewrite elem_of_cons; naive_solver).
  split; try done.
  - simpl. constructor; [|done]. intros (t & Et & Hin)%list_elem_of_fmap.
    assert (n < n); [|lia]. replace n with (tok_frame t) at 1 by (by destruct t; simplify_eq/=). by apply Hn2, list_elem_of_fmap_2.
  - apply Forall_app. split; [|constructor; [simpl; lia|]].
    + apply Forall_forall. intros x Hx. specialize (Hn1 x Hx). lia.
    + apply Forall_forall. intros x Hx. specialize (Hn2 x Hx). lia.
  - constructor; [|done]. simpl. intros Hin. specialize (Hn1 n Hin). lia.
  - eapply Forall_impl; [exact Hr|]. intros r. apply request_ok_ext. intros t _ Ht. symmetry. apply Hne. apply (Ht n).
  - eapply Forall_impl; [exact Hp|]. intros r []. split; try done. by apply Hne.
Qed.

(** The tokens of a thread and of what it has just shown. *)
Definition step_tokens (k : list action) (outs : list output) : list token :=
  thread_tokens k ++ concat (map call_tokens (calls_of outs)) ++ output_tokens outs.

(** A step of a thread from a file [f], where the others hold [R]. *)
Record goes (n : Z) (R : list token) (f f' : wb_file) (k' : list action) (outs : list output) : Prop := {
  go_ok : file_ok page n (step_tokens k' outs ++ R) f';
  go_actions : Forall action_ok k';
  go_conf : wb_window_conf f' = wb_window_conf f;
  go_writes : forall fr, fr ∈ write_frames (wb_requests f ++ wb_passive_requests f) ->
    fr ∈ write_frames (wb_requests f' ++ wb_passive_requests f') \/ T_done fr ∈ step_tokens k' outs ++ R
}.

Lemma goes_keeps n R T f f' k' outs :
  keeps page n T f f' -> T ≡ₚ step_tokens k' outs ++ R -> Forall action_ok k' -> goes n R f f' k' outs.
Proof. intros [Hok _ Hc Hw] HT Ha. split; [by rewrite <-HT|done|done|]. intros fr Hfr. rewrite <-HT. auto. Qed.

Lemma keeps_same n T f f' :
  wb_requests f' = wb_requests f -> wb_passive_requests f' = wb_passive_requests f ->
  wb_window_conf f' = wb_window_conf f -> wb_window_current f' = wb_window_current f ->
  wb_aggregate_current f' = wb_aggregate_current f -> file_ok page n T f -> keeps page n T f f'.
Proof.
  intros E1 E2 E3 E4 E5 Hf. split; [by eapply file_ok_same|by rewrite E1|done|]. rewrite E1, E2. auto.
Qed.

Lemma thread_tokens_cons a k : thread_tokens (a :: k) = action_tokens a ++ thread_tokens k.
Proof. done. Qed.

(** A list of actions that hold one token each. *)
Lemma thread_tokens_map {A} (g : A -> action) (t : A -> token) l :
  (forall x, action_tokens (g x) = [t x]) -> thread_tokens (map g l) = map t l.
Proof. intros Hg. induction l as [|x l IH]; [done|]. simpl. by rewrite thread_tokens_cons, IH, Hg. Qed.

Lemma Forall_action_map {A} (g : A -> action) l : (forall x, action_ok (g x)) -> Forall action_ok (map g l).
Proof. intros Hg. apply Forall_fmap, Forall_true. done. Qed.

Lemma run_process n R flush_all on_enomem k s :
  file_ok page n (thread_tokens k ++ R) (ws_file s) -> Forall action_ok k ->
  exists st k' outs, run conf page [] (A_process flush_all on_enomem) k s = Some (st, k', outs) /\
    goes n R (ws_file s) (ws_file st) k' outs.
Proof.
  intros Hf Hk. destruct (process_ok page n _ _ conf flush_all Hf) as (f' & u & w & o & ws & E & Hf' & Hc & Hw & _).
  simpl. rewrite E. eexists _, _, _. split; [done|]. split; simpl.
  - unfold step_tokens. rewrite thread_tokens_app, thread_tokens_cons, (thread_tokens_map A_unwind T_unwind) by done. simpl.
    by rewrite !app_nil_r, <-!app_assoc.
  - apply Forall_app. split; [by apply Forall_action_map|]. by constructor.
  - done.
  - intros fr Hfr. left. by rewrite Hw.
Qed.

(** The requests that a thread is to wind. *)
Lemma winds_found n T f winds :
  file_ok page n T f -> Forall (fun fr => T_wind fr ∈ T) winds ->
  exists rs, mapM (fun fr => get_request fr f) winds = Some rs /\ map rq_frame rs = winds /\ Forall single rs /\
    Forall (fun r => get_request (rq_frame r) f = Some r /\ holds page r) rs.
Proof.
  intros [Hq _ _] Hw. induction Hw as [|fr winds Hfr Hw (rs & IH1 & IH2 & IH3 & IH4)]; [by exists []|].
  pose proof (q_tokens _ _ _ _ _ Hq) as Ht. rewrite Forall_forall in Ht.
  destruct (Ht _ Hfr) as (r & Hr & <- & Hwr & _). pose proof (q_requests _ _ _ _ _ Hq) as Hok. rewrite Forall_forall in Hok.
  specialize (Hok r Hr). unfold request_ok in Hok. rewrite Hwr in Hok. destruct (wo_holds _ _ _ Hok) as (Hsz & v & Hv & _).
  assert (get_request (rq_frame r) f = Some r) as Hget by (apply get_request_elem; [apply Hq|set_solver]).
  exists (r :: rs). simpl. rewrite Hget. simpl. rewrite IH1. simpl.
  split_and!; [done|by rewrite IH2|constructor; [|done]; split; [by rewrite Hv|lia]|].
  constructor; [|done]. split; [done|apply Hok].
Qed.

Lemma run_sync n R winds others on_enomem k s :
  file_ok page n (action_tokens (A_sync winds others on_enomem) ++ thread_tokens k ++ R) (ws_file s) -> Forall action_ok k ->
  exists st k' outs, run conf page [] (A_sync winds others on_enomem) k s = Some (st, k', outs) /\
    goes n R (ws_file s) (ws_file st) k' outs.
Proof.
  intros Hf Hk. destruct (winds_found _ _ _ winds Hf) as (rs & E & Ers & Hs & _).
  { apply Forall_forall. intros fr Hfr. simpl. apply elem_of_app. left. apply elem_of_app. left. by apply list_elem_of_fmap_2. }
  destruct (wb_sync_ok conf rs Hs) as (calls & b & E2 & Hb & Ec).
  cbn [run]. rewrite E. cbn [mbind option_bind]. rewrite E2. cbn [mbind option_bind].
  destruct (Z.eqb_spec b (-1)); [lia|]. eexists _, _, _. split; [done|]. eapply goes_keeps; [by apply keeps_same| |].
  - unfold step_tokens. simpl. rewrite !thread_tokens_app, !app_nil_r.
    rewrite (thread_tokens_map (fun fr => A_resume fr on_enomem) T_mark) by done.
    assert (thread_tokens (map (fun rs => A_wind (sync_call rs)) calls) = map T_wind winds) as ->.
    { rewrite <-Ers, <-Ec. clear. induction calls as [|c calls IH]; [done|]. simpl. rewrite thread_tokens_cons, IH.
      simpl. by rewrite !map_app, map_map. }
    by rewrite <-!app_assoc.
  - rewrite !Forall_app. split_and!; [by apply Forall_action_map..|done].
Qed.

Lemma run_writev n R fr off vector ok k s :
  file_ok page n (T_new fr :: thread_tokens k ++ R) (ws_file s) -> good_vector page vector -> Forall action_ok k ->
  exists st k' outs, run conf page [] (A_writev fr off vector ok) k s = Some (st, k', outs) /\
    goes n R (ws_file s) (ws_file st) k' outs.
Proof.
  intros Hf Hv Hk. simpl. destruct (writev_locked (iov_length vector) (ws_file s)) as [f' disabled] eqn:E.
  eexists _, _, _. split; [done|].
  assert (forall T, file_ok page n T (ws_file s) -> keeps page n T (ws_file s) f') as Hsame.
  { intros T HT. unfold writev_locked in E. destruct (_ && _); injection E as <- _; by apply keeps_same. }
  pose proof (file_ok_drop n _ _ (T_new fr) (ex_intro _ fr (or_introl eq_refl)) Hf) as Hdrop.
  assert (forall acts, thread_tokens acts = [] -> Forall action_ok acts -> goes n R (ws_file s) f' (acts ++ k) []) as Hnone.
  { intros acts Ea Hacts. eapply goes_keeps; [by apply Hsame; exact Hdrop| |by apply Forall_app].
    unfold step_tokens. rewrite thread_tokens_app, Ea. simpl. by rewrite app_nil_r. }
  unfold writev_actions. destruct (wb_op_ret (ws_file s) =? -1); [by apply Hnone; repeat constructor|].
  destruct disabled; [by apply Hnone; repeat constructor|]. destruct ok; [|by apply Hnone; repeat constructor].
  eapply goes_keeps; [apply Hsame; exact Hf| |constructor; [by intros _|by constructor]].
  unfold step_tokens. simpl. by rewrite app_nil_r.
Qed.

Lemma run_enqueue n R fr stub k s :
  file_ok page n (T_new fr :: thread_tokens k ++ R) (ws_file s) ->
  (st_fop stub = GF_FOP_WRITE -> good_vector page (st_vector stub)) -> Forall action_ok k ->
  goes n R (ws_file s) (wb_enqueue (ws_file s) fr stub) k [] /\
  (st_fop stub = GF_FOP_WRITE -> fr ∈ write_frames (wb_requests (wb_enqueue (ws_file s) fr stub) ++
    wb_passive_requests (wb_enqueue (ws_file s) fr stub))).
Proof.
  intros Hf Hv Hk. destruct (enqueue_ok page n _ _ fr stub Hv Hf) as (Hf' & _ & Hw). split.
  - split; [unfold step_tokens; simpl; by rewrite app_nil_r|done|by rewrite enqueue_eq|].
    intros fr' Hfr. left. rewrite Hw. apply elem_of_app. by right.
  - intros Ew. rewrite Hw, decide_True by done. set_solver.
Qed.

Lemma run_resume n R fr on_enomem k s :
  file_ok page n (T_mark fr :: thread_tokens k ++ R) (ws_file s) -> Forall action_ok k ->
  exists st k' outs, run conf page [] (A_resume fr on_enomem) k s = Some (st, k', outs) /\
    goes n R (ws_file s) (ws_file st) k' outs.
Proof.
  intros Hf Hk. destruct (resume_ok page n _ _ fr Hf) as (r & stub & E1 & E2 & _ & Hkeep). simpl. rewrite E1. simpl.
  rewrite E2. simpl. eexists _, _, _. split; [done|]. eapply goes_keeps; [exact Hkeep|..].
  - unfold step_tokens. destruct (st_wind stub); simpl; rewrite app_nil_r; done.
  - destruct (st_wind stub); simpl; by repeat constructor.
Qed.

Lemma run_unref n R fr k s :
  file_ok page n (T_op fr :: thread_tokens k ++ R) (ws_file s) -> Forall action_ok k ->
  exists st k' outs, run conf page [] (A_unref fr) k s = Some (st, k', outs) /\
    goes n R (ws_file s) (ws_file st) k' outs.
Proof.
  intros Hf Hk. destruct (unref_op_ok page n _ _ fr Hf) as (f' & E & Hkeep). simpl. rewrite E. simpl.
  eexists _, _, _. split; [done|]. eapply goes_keeps; [exact Hkeep| |done]. unfold step_tokens. simpl. by rewrite app_nil_r.
Qed.

Lemma run_unwind n R fr k s :
  file_ok page n (T_unwind fr :: thread_tokens k ++ R) (ws_file s) -> Forall action_ok k ->
  exists st k' outs, run conf page [] (A_unwind fr) k s = Some (st, k', outs) /\
    goes n R (ws_file s) (ws_file st) k' outs.
Proof.
  intros Hf Hk. destruct (unwind_ok page n _ _ fr Hf) as (r & f' & E1 & E & Hkeep). simpl. rewrite E1. simpl. rewrite E. simpl.
  eexists _, _, _. split; [done|]. eapply goes_keeps; [exact Hkeep| |done]. unfold step_tokens. simpl. solve_Permutation.
Qed.

Lemma run_sync_cbk n R winds op_ret op_errno k s :
  file_ok page n (map T_wind winds ++ thread_tokens k ++ R) (ws_file s) -> Forall action_ok k ->
  exists st k' outs, run conf page [] (A_sync_cbk winds op_ret op_errno) k s = Some (st, k', outs) /\
    goes n R (ws_file s) (ws_file st) k' outs.
Proof.
  intros Hf Hk. destruct (sync_replies_ok page n op_ret op_errno winds _ _ Hf) as (f' & E & [Hok Hp Hc Hw]).
  simpl. unfold sync_cbk_locked. rewrite E. simpl. eexists _, _, _. split; [done|].
  apply (goes_keeps n R (thread_tokens k ++ R)).
  - destruct (op_ret =? -1); [|by split]. split; try done. by eapply file_ok_same; [..|exact Hok].
  - unfold step_tokens. rewrite thread_tokens_cons. simpl. by rewrite app_nil_r.
  - by constructor.
Qed.

Lemma take_error_keeps n T op_ret op_errno f f' ret errno :
  take_error op_ret op_errno f = (f', ret, errno) -> file_ok page n T f -> keeps page n T f f'.
Proof. unfold take_error. destruct (_ =? _); intros [= <- _ _] Hf; by apply keeps_same. Qed.

(** The actions that do not touch the queue. *)
Lemma run_quiet n R a k s :
  file_ok page n (action_tokens a ++ thread_tokens k ++ R) (ws_file s) -> Forall action_ok k ->
  match a with
  | A_answer _ _ _ | A_wind _ | A_set_error _ _ | A_fsync_cbk _ _ _ _ | A_flush _ _ | A_ffr_cbk _ _ _ | A_ffr_unwind _ _ _ =>
      exists st k' outs, run conf page [] a k s = Some (st, k', outs) /\ goes n R (ws_file s) (ws_file st) k' outs
  | _ => True
  end.
Proof.
  intros Hf Hk. destruct a as [| c| | | | | | | | | |fr request op_ret op_errno|fr ok|fr op_ret op_errno|fr op_ret op_errno|]; try done; simpl.
  - eexists _, _, _. split; [done|]. eapply goes_keeps; [by apply keeps_same| |done]. unfold step_tokens. simpl. by rewrite app_nil_r.
  - eexists _, _, _. split; [done|]. eapply goes_keeps; [by apply keeps_same| |done]. unfold step_tokens. simpl. solve_Permutation.
  - eexists _, _, _. split; [done|]. eapply goes_keeps; [by apply keeps_same| |done]. unfold step_tokens. simpl. by rewrite app_nil_r.
  - destruct (take_error op_ret op_errno (ws_file s)) as [[f' ret] errno] eqn:E. eexists _, _, _. split; [done|].
    eapply goes_keeps; [by eapply take_error_keeps| |]; destruct request; simpl; try by repeat constructor.
    all: unfold step_tokens; simpl; by rewrite app_nil_r.
  - destruct ok; simpl; (eexists _, _, _; split; [done|]).
    + eapply goes_keeps; [by apply keeps_same| |]; [|by repeat constructor]. unfold step_tokens. simpl. by rewrite app_nil_r.
    + pose proof (file_ok_drop n _ _ (T_new fr) (ex_intro _ fr (or_introl eq_refl)) Hf) as Hdrop.
      eapply goes_keeps; [by apply keeps_same; [..|exact Hdrop]| |by constructor]. unfold step_tokens. simpl. by rewrite app_nil_r.
  - destruct (flushes_behind conf (ws_file s)); [|destruct (_ =? 2)]; (eexists _, _, _; split; [done|]);
      (eapply goes_keeps; [by apply keeps_same| |by repeat constructor]); unfold step_tokens; simpl; by rewrite app_nil_r.
  - destruct (take_error op_ret op_errno (ws_file s)) as [[f' ret] errno] eqn:E. eexists _, _, _. split; [done|].
    eapply goes_keeps; [by eapply take_error_keeps| |by repeat constructor]. unfold step_tokens. simpl. by rewrite app_nil_r.
Qed.

Lemma run_ok n R a k s :
  file_ok page n (action_tokens a ++ thread_tokens k ++ R) (ws_file s) -> action_ok a -> Forall action_ok k ->
  exists st k' outs, run conf page [] a k s = Some (st, k', outs) /\ goes n R (ws_file s) (ws_file st) k' outs /\
    forall fr stub, (fr, stub) ∈ queued_by a -> st_fop stub = GF_FOP_WRITE ->
      fr ∈ write_frames (wb_requests (ws_file st) ++ wb_passive_requests (ws_file st)).
Proof.
  intros Hf Ha Hk.
  assert ((exists st k' outs, run conf page [] a k s = Some (st, k', outs) /\ goes n R (ws_file s) (ws_file st) k' outs) ->
    queued_by a = [] -> exists st k' outs, run conf page [] a k s = Some (st, k', outs) /\ goes n R (ws_file s) (ws_file st) k' outs /\
    forall fr stub, (fr, stub) ∈ queued_by a -> st_fop stub = GF_FOP_WRITE ->
      fr ∈ write_frames (wb_requests (ws_file st) ++ wb_passive_requests (ws_file st))) as Hq.
  { intros (st & k' & outs & ? & ?) ->. exists st, k', outs. split_and!; try done. by intros fr stub ?%elem_of_nil. }
  pose proof (run_quiet n R a k s Hf Hk) as Hquiet.
  destruct a; try (by apply Hq); try done.
  - apply Hq; [by apply run_writev|done].
  - destruct (run_enqueue n R fr stub k s Hf Ha Hk) as [Hg Hw]. simpl. eexists _, _, _. split_and!; [done|done|].
    intros fr' stub' [= -> ->]%list_elem_of_singleton Hfop. auto.
  - apply Hq; [by apply run_process|done].
  - apply Hq; [by apply run_unwind|done].
  - apply Hq; [by apply run_sync|done].
  - apply Hq; [by apply run_resume|done].
  - apply Hq; [by apply run_unref|done].
  - apply Hq; [by apply run_sync_cbk|done].
Qed.

(** ** The system *)

Record sys_ok (window : Z) (y : wb_sys) : Prop := {
  so_file : file_ok page (y_next y) (sys_tokens y) (y_file y);
  so_actions : Forall (Forall action_ok) (y_threads y);
  so_conf : wb_window_conf (y_file y) = window;
  so_queued : forall fr stub, (fr, stub) ∈ y_queued y -> st_fop stub = GF_FOP_WRITE ->
    fr ∈ write_frames (wb_requests (y_file y) ++ wb_passive_requests (y_file y)) \/ T_done fr ∈ sys_tokens y
}.

Lemma calls_of_app o o' : calls_of (o ++ o') = calls_of o ++ calls_of o'.
Proof. apply omap_app. Qed.

Lemma output_tokens_app o o' : output_tokens (o ++ o') = output_tokens o ++ output_tokens o'.
Proof. apply omap_app. Qed.

(** The tokens that the thread at work does not hold. *)
Definition other_tokens (i : nat) (y : wb_sys) : list token :=
  concat (map thread_tokens (delete i (y_threads y))) ++ concat (map call_tokens (y_calls y)) ++ output_tokens (y_log y).

Lemma threads_perm i th k threads :
  threads !! i = Some th -> concat (map thread_tokens (<[i := k]> threads)) ≡ₚ
    thread_tokens k ++ concat (map thread_tokens (delete i threads)).
Proof.
  intros Hi. pose proof (lookup_lt_Some _ _ _ Hi) as Hlt. rewrite insert_take_drop, delete_take_drop by done.
  rewrite !map_app, !concat_app. simpl. solve_Permutation.
Qed.

Lemma sys_tokens_perm i y a k :
  y_threads y !! i = Some (a :: k) -> sys_tokens y ≡ₚ action_tokens a ++ thread_tokens k ++ other_tokens i y.
Proof.
  intros Hth. unfold sys_tokens, other_tokens. rewrite <-(list_insert_id _ _ _ Hth) at 1.
  rewrite (threads_perm i _ _ _ Hth), thread_tokens_cons. by rewrite <-!app_assoc.
Qed.

Lemma start_ok y c :
  legal page (L_start c) y ->
  thread_tokens (start c (y_next y)) ∈ [[]; [T_new (y_next y)]] /\ Forall action_ok (start c (y_next y)).
Proof.
  intros Hl.
  assert (forall fop fr, fop <> GF_FOP_WRITE -> Forall action_ok (queue_op fop fr)) as Hq.
  { intros fop fr Hfop. unfold queue_op. constructor; [by intros ?|by constructor]. }
  destruct c as [allocs off vector|[] [] []|[] [] []|valid [] [] []|[] [] []|[] [] []|[] [] []|[] [] []|[] [] [] allocs]; simpl in *;
    try (split; [set_solver|by repeat constructor]); try (split; [set_solver|by apply Hq]).
  all: unfold wb_setattr; simpl; destruct (_ =? 0); simpl; split; try set_solver; try (by repeat constructor); by apply Hq.
Qed.

Lemma callback_ok n T f c op_ret op_errno :
  file_ok page n (call_tokens c ++ T) f ->
  file_ok page n (thread_tokens (callback c true op_ret op_errno) ++ T) f /\
  Forall action_ok (callback c true op_ret op_errno).
Proof.
  intros Hf. destruct c as [winds off data|fr off data|fop fr request|fr background]; simpl in *.
  - split; [unfold wb_sync_cbk, thread_tokens; simpl; by rewrite app_nil_r|by repeat constructor].
  - split; [done|by repeat constructor].
  - assert (file_ok page n T f) as Hdrop.
    { destruct request; [|done]. by apply (file_ok_drop n T f (T_op fr)); [exists fr; right|]. }
    destruct fop, request; simpl; split; try done; by repeat constructor.
  - destruct background; split; try done; by repeat constructor.
Qed.

(** Only the answers that were given are done. *)
Lemma no_done fr th : T_done fr ∉ thread_tokens th.
Proof.
  induction th as [|a th IH]; [by apply not_elem_of_nil|]. rewrite thread_tokens_cons, elem_of_app. intros [Ha|?]; [|done].
  assert (forall l, (T_done fr ∉ map T_wind l) /\ (T_done fr ∉ map T_mark l)) as Hmap.
  { intros l. split; by intros (x & ? & _)%list_elem_of_fmap. }
  destruct a as [| [| |? ? []|]| | | | | | | | | |? []| | | |]; simpl in Ha; set_solver.
Qed.

Lemma done_logged fr y : T_done fr ∈ sys_tokens y -> exists op_ret op_errno, O_unwind fr op_ret op_errno ∈ y_log y.
Proof.
  unfold sys_tokens. rewrite !elem_of_app. intros [Hin|[Hin|Hin]].
  - apply list_elem_of_In, in_concat in Hin as (l & Hl & Hin). apply list_elem_of_In, list_elem_of_fmap in Hl as (th & -> & _).
    apply list_elem_of_In in Hin. by apply no_done in Hin.
  - apply list_elem_of_In, in_concat in Hin as (l & Hl & Hin). apply list_elem_of_In, list_elem_of_fmap in Hl as (c & -> & _).
    apply list_elem_of_In in Hin. destruct (no_done fr [A_wind c]). by rewrite thread_tokens_cons, app_nil_r.
  - apply list_elem_of_omap in Hin as (o & Ho & E). destruct o; simplify_eq/=. eauto.
Qed.

Lemma exec_start w y c :
  sys_ok w y -> legal page (L_start c) y -> exists y', exec conf page (L_start c) y = Some y' /\ sys_ok w y'.
Proof.
  intros [Hf Hacts Hc Hq] Hl. destruct (start_ok y c Hl) as [Ht Ha]. simpl. eexists. split; [done|].
  set (y' := mk_sys _ _ _ _ _ _).
  assert (sys_tokens y' ≡ₚ thread_tokens (start c (y_next y)) ++ sys_tokens y) as HT.
  { unfold sys_tokens, y'. simpl. rewrite map_app, concat_app. simpl. solve_Permutation. }
  split.
  - rewrite HT. change (y_file y') with (y_file y). simpl. rewrite elem_of_cons, list_elem_of_singleton in Ht.
    destruct Ht as [->| ->]; [|by apply file_ok_new]. by eapply file_ok_next; [|exact Hf]; lia.
  - simpl. apply Forall_app. split; [done|]. by apply Forall_singleton.
  - done.
  - intros fr stub Hin Hfop. simpl in Hin. destruct (Hq fr stub Hin Hfop) as [?|?]; [by left|]. right. rewrite HT. set_solver.
Qed.

Lemma exec_run w y i :
  sys_ok w y -> (i < length (y_threads y))%nat -> exists y', exec conf page (L_run i []) y = Some y' /\ sys_ok w y'.
Proof.
  intros Hy Hi. apply lookup_lt_is_Some in Hi as [th Hth]. pose proof Hy as [Hf Hacts Hc Hq].
  pose proof (Forall_lookup_1 _ _ _ _ Hacts Hth) as Hta. unfold exec. rewrite Hth. cbn [mbind option_bind].
  destruct th as [|a k]; [by exists y|]. apply Forall_cons in Hta as [Ha Hk].
  pose proof (sys_tokens_perm i y a k Hth) as HT.
  rewrite HT in Hf. destruct (run_ok (y_next y) (other_tokens i y) a k (y_state y) Hf Ha Hk) as (st & k' & outs & -> & Hg & Hnew).
  simpl. eexists. split; [done|]. set (y' := mk_sys _ _ _ _ _ _).
  assert (sys_tokens y' ≡ₚ step_tokens k' outs ++ other_tokens i y) as HT'.
  { unfold sys_tokens, step_tokens, other_tokens, y'. simpl. rewrite (threads_perm i _ _ _ Hth).
    rewrite map_app, concat_app, output_tokens_app. solve_Permutation. }
  destruct Hg as [Hok Hga Hgc Hgw]. change (y_file y') with (ws_file st).
  assert (forall fr, fr ∈ write_frames (wb_requests (y_file y) ++ wb_passive_requests (y_file y)) \/ T_done fr ∈ sys_tokens y ->
    fr ∈ write_frames (wb_requests (ws_file st) ++ wb_passive_requests (ws_file st)) \/ T_done fr ∈ sys_tokens y') as Hkeep.
  { intros fr [Hfr|Hfr]; [rewrite HT'; by apply Hgw|]. right. rewrite HT'. rewrite HT in Hfr.
    rewrite app_assoc, <-thread_tokens_cons in Hfr. pose proof (no_done fr (a :: k)). set_solver. }
  split; simpl.
  - by rewrite HT'.
  - by apply Forall_insert.
  - rewrite <-Hc. exact Hgc.
  - intros fr stub [Hin|Hin]%elem_of_app Hfop; [apply Hkeep; eauto|]. left. eauto.
Qed.

Lemma exec_reply w y j op_ret op_errno :
  sys_ok w y -> (j < length (y_calls y))%nat ->
  exists y', exec conf page (L_reply j true op_ret op_errno) y = Some y' /\ sys_ok w y'.
Proof.
  intros [Hf Hacts Hc Hq] Hj. apply lookup_lt_is_Some in Hj as [c Hcall]. unfold exec. rewrite Hcall. cbn [mbind option_bind].
  set (R := concat (map thread_tokens (y_threads y)) ++ concat (map call_tokens (delete j (y_calls y))) ++ output_tokens (y_log y)).
  assert (sys_tokens y ≡ₚ call_tokens c ++ R) as HT.
  { unfold sys_tokens, R. rewrite (delete_Permutation _ _ _ Hcall) at 1. simpl. solve_Permutation. }
  rewrite HT in Hf. destruct (callback_ok _ _ _ c op_ret op_errno Hf) as [Hf' Ha]. eexists. split; [done|].
  set (y' := mk_sys _ _ _ _ _ _).
  assert (sys_tokens y' ≡ₚ thread_tokens (callback c true op_ret op_errno) ++ R) as HT'.
  { unfold sys_tokens, R, y'. simpl. rewrite map_app, concat_app. simpl. solve_Permutation. }
  split; simpl; [by rewrite HT'|apply Forall_app; split; [done|by apply Forall_singleton]|done|].
  intros fr stub Hin Hfop. destruct (Hq fr stub Hin Hfop) as [?|Hd]; [by left|]. right. rewrite HT'. rewrite HT in Hd.
  apply elem_of_app in Hd as [Hd|Hd]; [|set_solver]. destruct (no_done fr [A_wind c]). by rewrite thread_tokens_cons, app_nil_r.
Qed.

Lemma exec_legal w y l : sys_ok w y -> legal page l y -> exists y', exec conf page l y = Some y' /\ sys_ok w y'.
Proof.
  intros Hy Hl. destruct l as [c|i allocs|j frame op_ret op_errno].
  - by apply exec_start.
  - destruct Hl as [Hi ->]. by apply exec_run.
  - destruct Hl as [Hj ->]. by apply exec_reply.
Qed.

Lemma fresh_ok f :
  wb_requests f = [] -> wb_passive_requests f = [] -> wb_window_current f = 0 -> wb_aggregate_current f = 0 ->
  0 <= wb_window_conf f -> 0 < page < 2 ^ 31 -> wb_window_conf f + page < 2 ^ 64 -> sys_ok (wb_window_conf f) (fresh_sys f).
Proof.
  intros E1 E2 E3 E4 Hc Hp Hb. split; simpl; try done; [|by intros fr stub ?%elem_of_nil].
  unfold y_file. simpl. split; rewrite ?E1, ?E2; simpl; try done.
  - by split; try constructor.
  - split; rewrite ?E1; simpl; try done; lia.
Qed.

Lemma reachable_ok w y y' : sys_ok w y -> rtc (wb_step conf page) y y' -> sys_ok w y'.
Proof.
  intros Hy Hr. induction Hr as [|y1 y2 y3 (l & Hl & E) _ IH]; [done|]. apply IH.
  destruct (exec_legal w y1 l Hy Hl) as (y' & E' & ?). congruence.
Qed.
End Safe.
