(* ===== verification/WriteBehindOrder.v ===== *)
(** * The order in which write-behind sends what was queued

    Where a thread ends before the next begins, the calls to the child are what
    was queued: the same bytes at the same places and the same operations, in the
    same order, however the writes were collapsed and collected.  What is still to
    be sent is read off the thread at work and the queue. *)

From stdpp Require Import gmap base list numbers strings relations.
From S2P Require Import Prelude WriteBehind WriteBehindOps WriteBehindFacts WriteBehindInv WriteBehindSteps WriteBehindSafe.
Open Scope Z_scope.

(** ** What was sent and what was asked for *)

(** The calls for requests of the queue; the others never were in it. *)
Definition sent_of (o : output) : list event :=
  match o with
  | O_call (C_writev _ off data) => flat_write off data
  | O_call (C_other _ fr true) => [E_op fr]
  | _ => []
  end.

Definition sent (log : list output) : list event := concat (map sent_of log).

Definition asked (queued : list (Z * call_stub)) : list event := concat (map (fun '(fr, stub) => asks fr stub) queued).

Lemma sent_app l k : sent (l ++ k) = sent l ++ sent k.
Proof. unfold sent. by rewrite map_app, concat_app. Qed.

Lemma asked_app l k : asked (l ++ k) = asked l ++ asked k.
Proof. unfold asked. by rewrite map_app, concat_app. Qed.

(** ** What a thread is about to send *)

Definition write_plan (f : wb_file) (fr : Z) : list event :=
  match get_request fr f with Some r => flat_write (rq_off r) (rq_data r) | None => [] end.

Definition op_plan (f : wb_file) (fr : Z) : list event :=
  match get_request fr f ≫= rq_stub with Some s => asks fr s | None => [] end.

Definition plan_of (f : wb_file) (a : action) : list event :=
  match a with
  | A_wind c => sent_of (O_call c)
  | A_sync winds others _ => concat (map (write_plan f) winds) ++ concat (map (op_plan f) others)
  | A_resume fr _ => op_plan f fr
  | _ => []
  end.

Definition plan (f : wb_file) (th : list action) : list event := concat (map (plan_of f) th).

Lemma plan_app f th th' : plan f (th ++ th') = plan f th ++ plan f th'.
Proof. unfold plan. by rewrite map_app, concat_app. Qed.

(** An action that has nothing to send. *)
Definition quiet (a : action) : Prop :=
  match a with
  | A_wind c => sent_of (O_call c) = []
  | A_sync _ _ _ | A_resume _ _ => False
  | _ => True
  end.

Lemma plan_quiet f th : Forall quiet th -> plan f th = [].
Proof.
  unfold plan. induction 1 as [|a th Ha _ IH]; simpl; [done|]. rewrite IH, app_nil_r. by destruct a.
Qed.

(** What is about to be sent comes before anything that looks at the queue. *)
Fixpoint ordered (th : list action) : Prop :=
  match th with
  | [] => True
  | (A_unwind _ | A_wind _ | A_answer _ _ _) :: k => ordered k
  | _ :: k => Forall quiet k
  end.

Lemma quiet_ordered th : Forall quiet th -> ordered th.
Proof. induction 1 as [|a th Ha Hth IH]; [done|]. by destruct a. Qed.

(** The writes to be collected follow each other, and one operation at most is
    resumed. *)
Definition sync_ok (f : wb_file) (a : action) : Prop :=
  match a with
  | A_sync winds others _ => (length others <= 1)%nat /\
      exists rs e, mapM (fun fr => get_request fr f) winds = Some rs /\ contiguous e rs
  | _ => True
  end.

Lemma sync_ok_quiet f th : Forall quiet th -> Forall (sync_ok f) th.
Proof. intros Hth. eapply Forall_impl; [exact Hth|]. by intros []. Qed.

(** ** Collected writes *)

Lemma contiguous_app e l k :
  contiguous e (l ++ k) -> contiguous e l /\ exists e', contiguous e' k.
Proof.
  revert e. induction l as [|r l IH]; intros e; simpl; [eauto|]. intros [E H]. destruct (IH _ H) as [? ?]. eauto.
Qed.

Lemma contiguous_head e l : contiguous e l -> contiguous (match l with r :: _ => rq_off r | [] => 0 end) l.
Proof. destruct l; [done|]. simpl. by intros [-> ?]. Qed.

(** However the writes are collected, the calls have the same bytes. *)
Lemma sync_calls_sent page f calls e :
  Forall (holds page) (concat calls) -> contiguous e (concat calls) ->
  plan f (map (fun rs => A_wind (sync_call rs)) calls) =
  concat (map (fun r => flat_write (rq_off r) (rq_data r)) (concat calls)).
Proof.
  revert e. induction calls as [|c calls IH]; intros e; simpl; [done|]. intros [Hh1 Hh2]%Forall_app Hc.
  apply contiguous_app in Hc as [Hc1 [e' Hc2]]. unfold plan in *. simpl. rewrite (IH e' Hh2 Hc2), map_app, concat_app. f_equal.
  by rewrite (contiguous_flat page _ c Hh1 (contiguous_head _ _ Hc1)).
Qed.

(** ** Requests that are looked up later *)

Definition same_bytes (r r' : wb_request) : Prop :=
  rq_frame r' = rq_frame r /\ rq_stub r' = rq_stub r /\ rq_write_size r' = rq_write_size r.

Lemma unref_in_bytes fr l : forall l', unref_in fr l = Some l' -> forall r', r' ∈ l' -> exists r, r ∈ l /\ same_bytes r r'.
Proof.
  induction l as [|x l IH]; simpl; intros l' E r' Hr'; [done|]. destruct (rq_frame x =? fr).
  - injection E as <-. destruct (rq_refcount x <=? 0); [by exists r'|]. destruct (rq_refcount x - 1 =? 0).
    + exists r'. split; [by right|done].
    + apply elem_of_cons in Hr' as [->|Hr']; [|exists r'; split; [by right|done]]. exists x. split; [by left|done].
  - destruct (unref_in fr l) as [k|]; simplify_eq/=. apply elem_of_cons in Hr' as [->|Hr']; [exists x; split; [by left|done]|].
    destruct (IH k eq_refl r' Hr') as (r & ? & ?). exists r. split; [by right|done].
Qed.

Lemma unref_bytes fr f f' :
  __wb_request_unref fr f = Some f' -> forall r', r' ∈ wb_requests f' ++ wb_passive_requests f' ->
  exists r, r ∈ wb_requests f ++ wb_passive_requests f /\ same_bytes r r'.
Proof.
  unfold __wb_request_unref. destruct (unref_in fr (wb_requests f)) as [l|] eqn:E1.
  - intros [= <-] r' [Hr|Hr]%elem_of_app; simpl in *; [|exists r'; split; [set_solver|done]].
    destruct (unref_in_bytes _ _ _ E1 r' Hr) as (r & ? & ?). exists r. split; [set_solver|done].
  - destruct (unref_in fr (wb_passive_requests f)) as [l|] eqn:E2; simpl; [|done].
    intros [= <-] r' [Hr|Hr]%elem_of_app; simpl in *; [exists r'; split; [set_solver|done]|].
    destruct (unref_in_bytes _ _ _ E2 r' Hr) as (r & ? & ?). exists r. split; [set_solver|done].
Qed.

Section Order.
Context (conf : wb_conf) (page : Z).

(** A request that a thread is to send is found with the same bytes. *)
Lemma lookup_bytes n T n' T' f f' fr t :
  (forall r', r' ∈ wb_requests f' ++ wb_passive_requests f' ->
    exists r, r ∈ wb_requests f ++ wb_passive_requests f /\ same_bytes r r') ->
  file_ok page n T f -> file_ok page n' T' f' -> t ∈ T' -> t = T_wind fr \/ t = T_mark fr ->
  exists r r', get_request fr f = Some r /\ get_request fr f' = Some r' /\ same_bytes r r'.
Proof.
  intros Hsame [Hq _ _] [Hq' _ _] Ht Hk. pose proof (q_tokens _ _ _ _ _ Hq') as Htok. rewrite Forall_forall in Htok.
  assert (exists r', r' ∈ wb_requests f' /\ rq_frame r' = fr) as (r' & Hr' & <-).
  { specialize (Htok t Ht). destruct Hk as [-> | ->]; simpl in Htok; destruct Htok as (r' & ? & ? & _); eauto. }
  destruct (Hsame r') as (r & Hr & Hb); [set_solver|]. pose proof Hb as (E & _). exists r, r'.
  rewrite E at 1. rewrite (get_request_elem f r), (get_request_elem f' r') by (apply Hq || apply Hq' || set_solver). done.
Qed.

Lemma same_bytes_plan r r' :
  same_bytes r r' -> rq_off r' = rq_off r /\ rq_data r' = rq_data r.
Proof. intros (_ & E & _). unfold rq_data, rq_vector, rq_off. by rewrite E. Qed.

Lemma mapM_bytes f f' winds : forall rs,
  (forall fr, fr ∈ winds -> exists r r', get_request fr f = Some r /\ get_request fr f' = Some r' /\ same_bytes r r') ->
  mapM (fun fr => get_request fr f) winds = Some rs ->
  exists rs', mapM (fun fr => get_request fr f') winds = Some rs' /\ Forall2 same_bytes rs rs'.
Proof.
  induction winds as [|fr winds IH]; intros rs Hw E; simpl in *.
  - injection E as <-. by exists [].
  - destruct (Hw fr) as (r & r' & E1 & E2 & Hb); [by left|]. rewrite E1 in E. rewrite E2. simpl in *.
    destruct (mapM _ winds) as [rs0|]; [injection E as <-|done].
    destruct (IH rs0) as (rs' & -> & ?); [intros x Hx; apply Hw; by right|done|]. exists (r' :: rs'). split; [done|by constructor].
Qed.

Lemma contiguous_bytes rs rs' : forall e, Forall2 same_bytes rs rs' -> contiguous e rs -> contiguous e rs'.
Proof.
  intros e Hb. revert e. induction Hb as [|r r' rs rs' Hr _ IH]; intros e; simpl; [done|]. intros [E H].
  destruct (same_bytes_plan r r' Hr) as [-> _]. destruct Hr as (_ & _ & ->). auto.
Qed.

Lemma plans_same n T n' T' f f' th :
  (forall r', r' ∈ wb_requests f' ++ wb_passive_requests f' ->
    exists r, r ∈ wb_requests f ++ wb_passive_requests f /\ same_bytes r r') ->
  file_ok page n T f -> file_ok page n' T' f' -> (forall t, t ∈ thread_tokens th -> t ∈ T') ->
  Forall (sync_ok f) th -> plan f' th = plan f th /\ Forall (sync_ok f') th.
Proof.
  intros Hsame Hf Hf'. pose proof (lookup_bytes n T n' T' f f') as Hlook.
  assert (forall fr, T_wind fr ∈ T' -> write_plan f' fr = write_plan f fr) as Hw.
  { intros fr Ht. destruct (Hlook fr _ Hsame Hf Hf' Ht ltac:(by left)) as (r & r' & E & E' & Hb).
    unfold write_plan. rewrite E, E'. by destruct (same_bytes_plan r r' Hb) as [-> ->]. }
  assert (forall fr, T_mark fr ∈ T' -> op_plan f' fr = op_plan f fr) as Ho.
  { intros fr Ht. destruct (Hlook fr _ Hsame Hf Hf' Ht ltac:(by right)) as (r & r' & E & E' & (_ & Es & _)).
    unfold op_plan. rewrite E, E'. simpl. by rewrite Es. }
  induction th as [|a th IH]; intros Ht Hs; [done|]. apply Forall_cons in Hs as [Ha Hs].
  destruct IH as [IH1 IH2]; [|done|].
  { intros t Hin. apply Ht. rewrite thread_tokens_cons. set_solver. }
  assert (forall t, t ∈ action_tokens a -> t ∈ T') as Hta.
  { intros t Hin. apply Ht. rewrite thread_tokens_cons. set_solver. }
  split.
  - unfold plan in *. simpl. rewrite IH1. f_equal. destruct a; simpl in *; try done.
    + f_equal; f_equal; apply map_ext_in; intros fr Hfr%list_elem_of_In; [apply Hw|apply Ho]; apply Hta, elem_of_app;
        [left|right]; by apply list_elem_of_fmap_2.
    + apply Ho, Hta. by left.
  - constructor; [|done]. destruct a as [| | | | | |winds others on_enomem| | | | | | | | |]; try done.
    destruct Ha as (Hl & rs & e & Hrs & Hc). split; [done|].
    destruct (mapM_bytes f f' winds rs) as (rs' & Hrs' & Hb); [|done|exists rs', e; split; [done|by eapply contiguous_bytes]].
    intros fr Hfr. eapply Hlook; [done..| |by left]. apply Hta, elem_of_app. left. by apply list_elem_of_fmap_2.
Qed.

(** ** Steps *)

(** A step of the thread at work: what it sends and what is left to be sent is
    what there was, and what it queues. *)
Record sends (f : wb_file) (a : action) (k : list action) (f' : wb_file) (k' : list action) (outs : list output) : Prop := {
  sd_ordered : ordered k';
  sd_sync : Forall (sync_ok f') k';
  sd_sent : sent outs ++ plan f' k' ++ pending (wb_requests f') =
            plan_of f a ++ plan f k ++ pending (wb_requests f) ++ asked (queued_by a)
}.

(** Nothing is sent where nothing was to be sent. *)
Lemma sends_quiet f a k f' k' outs :
  plan_of f a = [] -> queued_by a = [] -> sent outs = [] -> Forall quiet k -> Forall quiet k' ->
  pending (wb_requests f') = pending (wb_requests f) -> sends f a k f' k' outs.
Proof.
  intros E1 E2 E3 Hk Hk' Ep. split; [by apply quiet_ordered|by apply sync_ok_quiet|].
  rewrite E1, E2, E3, !plan_quiet, Ep by done. simpl. by rewrite app_nil_r.
Qed.

Lemma winds_plan f ws :
  (forall r, r ∈ ws -> get_request (rq_frame r) f = Some r) ->
  mapM (fun fr => get_request fr f) (frames ws) = Some ws /\
  concat (map (write_plan f) (frames ws)) = concat (map (fun r => flat_write (rq_off r) (rq_data r)) ws).
Proof.
  induction ws as [|r ws IH]; intros Hget; [done|]. destruct IH as [IH1 IH2]; [intros x Hx; apply Hget; by right|].
  simpl. rewrite IH2. unfold write_plan at 1. rewrite (Hget r) by by left. simpl. by rewrite IH1.
Qed.

Lemma sends_process n R flush_all on_enomem k s st k' outs :
  file_ok page n (thread_tokens k ++ R) (ws_file s) -> Forall quiet k ->
  run conf page [] (A_process flush_all on_enomem) k s = Some (st, k', outs) ->
  sends (ws_file s) (A_process flush_all on_enomem) k (ws_file st) k' outs.
Proof.
  intros Hf Hk. destruct (process_ok page n _ _ conf flush_all Hf) as (f' & u & w & o & ws & E & Hf' & _ & _ & Hsp).
  simpl. rewrite E. intros [= <- <- <-]. simpl.
  assert (forall r, r ∈ wb_requests f' -> get_request (rq_frame r) f' = Some r) as Hget.
  { intros r Hr. apply get_request_elem; [apply Hf'|set_solver]. }
  assert (plan f' (map A_unwind u) = []) as Hu by (by apply plan_quiet, Forall_fmap, Forall_true).
  assert (ordered (map A_unwind u ++ A_sync w o on_enomem :: k)) as Hord by (clear -Hk; by induction u).
  assert (Forall (sync_ok f') (map A_unwind u)) as Hsu by (by apply Forall_fmap, Forall_true).
  destruct Hsp as [(-> & Hws)|(-> & r & stub & -> & Hr & Es & Hwr & Hp)].
  - destruct Hws as [-> Hel [e Hc] Hp]. destruct (winds_plan f' ws) as [HM HP]; [intros r Hr; by apply Hget, Hel|].
    split; [done| |].
    + apply Forall_app. split; [done|]. constructor; [|by apply sync_ok_quiet]. split; [simpl; lia|eauto].
    + simpl. rewrite plan_app, Hu. unfold plan at 1. simpl. fold (plan f' k). rewrite !plan_quiet by done.
      rewrite !app_nil_r, HP. by rewrite Hp.
  - split; [done| |].
    + apply Forall_app. split; [done|]. constructor; [|by apply sync_ok_quiet]. split; [simpl; lia|by exists [], 0].
    + simpl. rewrite plan_app, Hu. unfold plan at 1. simpl. fold (plan f' k). rewrite !plan_quiet by done.
      rewrite !app_nil_r. unfold op_plan. rewrite Hget by done. simpl. by rewrite Es, Hp.
Qed.

Lemma sends_sync n R winds others on_enomem k s st k' outs :
  file_ok page n (action_tokens (A_sync winds others on_enomem) ++ thread_tokens k ++ R) (ws_file s) ->
  Forall quiet k -> sync_ok (ws_file s) (A_sync winds others on_enomem) ->
  run conf page [] (A_sync winds others on_enomem) k s = Some (st, k', outs) ->
  sends (ws_file s) (A_sync winds others on_enomem) k (ws_file st) k' outs.
Proof.
  intros Hf Hk (Hl & rs & e & Hrs & Hc). destruct (winds_found page _ _ _ winds Hf) as (rs' & E & Ers & Hs & Hh).
  { apply Forall_forall. intros fr Hfr. simpl. apply elem_of_app. left. apply elem_of_app. left. by apply list_elem_of_fmap_2. }
  rewrite Hrs in E. injection E as <-. destruct (wb_sync_ok conf rs Hs) as (calls & b & E2 & Hb & Ec).
  cbn [run]. rewrite Hrs. cbn [mbind option_bind]. rewrite E2. cbn [mbind option_bind].
  destruct (Z.eqb_spec b (-1)); [lia|]. intros [= <- <- <-].
  assert (Forall (sync_ok (ws_file s)) (map (fun rs => A_wind (sync_call rs)) calls ++ map (fun fr => A_resume fr on_enomem) others ++ k)) as Hsy.
  { rewrite !Forall_app. split_and!; [by apply Forall_fmap, Forall_true..|by apply sync_ok_quiet]. }
  split; [|done|].
  - clear -Hl Hk. induction calls as [|c calls IH]; simpl; [|done].
    destruct others as [|fr [|]]; simpl in *; [by apply quiet_ordered|done|lia].
  - rewrite Forall_forall in Hh. rewrite !plan_app, (sync_calls_sent page _ calls e); [|rewrite Ec..]; [|apply Forall_forall; intros r Hr; by apply Hh|done].
    rewrite Ec, (plan_quiet _ k) by done. simpl. rewrite !app_nil_r, <-!app_assoc. f_equal; [|f_equal].
    + rewrite <-Ers. symmetry. apply winds_plan. intros r Hr. by apply Hh.
    + unfold plan. by rewrite map_map.
Qed.

Lemma sends_resume n R fr on_enomem k s st k' outs :
  file_ok page n (T_mark fr :: thread_tokens k ++ R) (ws_file s) -> Forall quiet k ->
  run conf page [] (A_resume fr on_enomem) k s = Some (st, k', outs) ->
  sends (ws_file s) (A_resume fr on_enomem) k (ws_file st) k' outs.
Proof.
  intros Hf Hk. destruct (resume_ok page n _ _ fr Hf) as (r & stub & E1 & E2 & Hfop & Hkeep). simpl. rewrite E1. simpl.
  rewrite E2. simpl. intros [= <- <- <-]. simpl. pose proof (kp_pending _ _ _ _ _ Hkeep) as Hp. simpl in Hp.
  assert (op_plan (ws_file s) fr = if st_wind stub then [E_op fr] else []) as Ho.
  { unfold op_plan. rewrite E1. simpl. rewrite E2. unfold asks. by rewrite decide_False. }
  split.
  - destruct (st_wind stub); simpl; [by apply quiet_ordered|by repeat constructor].
  - destruct (st_wind stub); simpl; repeat constructor; by apply sync_ok_quiet.
  - simpl. rewrite Hp, Ho, plan_app, (plan_quiet (ws_file s) k), (plan_quiet _ k) by done.
    destruct (st_wind stub); simpl; by rewrite app_nil_r.
Qed.

Lemma sends_unwind n R fr k s st k' outs :
  file_ok page n (T_unwind fr :: thread_tokens k ++ R) (ws_file s) -> ordered k -> Forall (sync_ok (ws_file s)) k ->
  run conf page [] (A_unwind fr) k s = Some (st, k', outs) ->
  sends (ws_file s) (A_unwind fr) k (ws_file st) k' outs.
Proof.
  intros Hf Ho Hs. destruct (unwind_ok page n _ _ fr Hf) as (r & f' & E1 & E & [Hf' Hp _ _]). simpl. rewrite E1. simpl. rewrite E.
  intros [= <- <- <-]. simpl.
  destruct (plans_same n _ n _ (ws_file s) f' k (unref_bytes _ _ _ E) Hf Hf') as [Hplan Hsync]; [|done|].
  { intros t Ht. right. set_solver. }
  split; [done|done|]. simpl. by rewrite Hplan, Hp, app_nil_r.
Qed.

Lemma sends_writev fr off vector ok k s st k' outs :
  Forall quiet k -> run conf page [] (A_writev fr off vector ok) k s = Some (st, k', outs) ->
  sends (ws_file s) (A_writev fr off vector ok) k (ws_file st) k' outs.
Proof.
  intros Hk. simpl. destruct (writev_locked _ _) as [f' disabled] eqn:E. intros [= <- <- <-].
  apply sends_quiet; try done.
  - apply Forall_app. split; [|done]. unfold writev_actions. repeat case_match; by repeat constructor.
  - unfold writev_locked in E. by destruct (_ && _); injection E as <- _.
Qed.

Lemma run_sends n R a k s st k' outs :
  file_ok page n (action_tokens a ++ thread_tokens k ++ R) (ws_file s) -> action_ok page a ->
  ordered (a :: k) -> Forall (sync_ok (ws_file s)) (a :: k) ->
  run conf page [] a k s = Some (st, k', outs) -> sends (ws_file s) a k (ws_file st) k' outs.
Proof.
  intros Hf Ha Ho [Hsa Hsk]%Forall_cons Hr. destruct a; try done; simpl in Ho.
  - simpl in Hr. injection Hr as <- <- <-. by split; [..|simpl; rewrite app_nil_r].
  - simpl in Hr. injection Hr as <- <- <-. split; [done|done|]. unfold sent, asked. cbn [map concat plan_of queued_by].
    by rewrite !app_nil_r.
  - by eapply sends_writev.
  - simpl in Hr. injection Hr as <- <- <-. destruct (enqueue_ok page n _ _ fr stub Ha Hf) as (_ & Hp & _).
    split; [by apply quiet_ordered|by apply sync_ok_quiet|]. simpl. rewrite Hp, !plan_quiet by done. unfold asked. simpl. by rewrite app_nil_r.
  - eapply sends_process; [exact Hf|exact Ho|exact Hr].
  - eapply sends_unwind; [exact Hf|done|done|exact Hr].
  - eapply sends_sync; [exact Hf|done|done|exact Hr].
  - eapply sends_resume; [exact Hf|done|exact Hr].
  - destruct (unref_op_ok page n _ _ fr Hf) as (f' & E & [_ Hp _ _]). simpl in Hr. rewrite E in Hr. simpl in Hr.
    injection Hr as <- <- <-. by apply sends_quiet.
  - destruct (sync_replies_ok page n op_ret op_errno winds _ _ Hf) as (f' & E & [_ Hp _ _]).
    simpl in Hr. unfold sync_cbk_locked in Hr. rewrite E in Hr. simpl in Hr. injection Hr as <- <- <-.
    apply sends_quiet; try done; [by constructor|]. by destruct (op_ret =? -1).
  - simpl in Hr. injection Hr as <- <- <-. by apply sends_quiet.
  - simpl in Hr. destruct (take_error _ _ _) as [[f' ret] errno] eqn:E. injection Hr as <- <- <-. apply sends_quiet; try done.
    + destruct request; by repeat constructor.
    + unfold take_error in E. by destruct (_ =? _); injection E as <- _ _.
  - simpl in Hr. destruct allocs; injection Hr as <- <- <-; apply sends_quiet; try done; by repeat constructor.
  - simpl in Hr. destruct (flushes_behind _ _); [|destruct (_ =? 2)]; injection Hr as <- <- <-; apply sends_quiet; try done;
      by repeat constructor.
  - simpl in Hr. destruct (take_error _ _ _) as [[f' ret] errno] eqn:E. injection Hr as <- <- <-. apply sends_quiet; try done.
    + by repeat constructor.
    + unfold take_error in E. by destruct (_ =? _); injection E as <- _ _.
Qed.

(** ** The system *)

(** [th] is the thread at work: the others have ended. *)
Definition at_work (y : wb_sys) (th : list action) : Prop :=
  exists ths, Forall (fun th => th = []) ths /\ ((y_threads y = ths /\ th = []) \/ y_threads y = ths ++ [th]).

Record order_ok (w : Z) (y : wb_sys) : Prop := {
  od_sys : sys_ok page w y;
  od_thread : exists th, at_work y th /\ ordered th /\ Forall (sync_ok (y_file y)) th /\
    sent (y_log y) ++ plan (y_file y) th ++ pending (wb_requests (y_file y)) = asked (y_queued y)
}.

Lemma idle_at_work y th : idle y -> at_work y th -> th = [].
Proof. intros Hi (ths & _ & [[_ ?]|E]); [done|]. unfold idle in Hi. rewrite E in Hi. by apply Forall_app in Hi as [_ [? _]%Forall_cons]. Qed.

Lemma start_quiet c fr : Forall quiet (start c fr).
Proof.
  destruct c as [allocs off vector|[] [] []|[] [] []|valid [] [] []|[] [] []|[] [] []|[] [] []|[] [] []|[] [] [] allocs]; simpl;
    try (by repeat constructor); unfold wb_setattr; simpl; destruct (_ =? 0); by repeat constructor.
Qed.

Lemma callback_quiet c op_ret op_errno : Forall quiet (callback c true op_ret op_errno).
Proof. destruct c as [| |[] ? []|? []]; by repeat constructor. Qed.

(** A thread that begins has nothing to send yet. *)
Lemma order_begin w y y' th :
  idle y -> order_ok w y -> sys_ok page w y' -> Forall quiet th -> y_threads y' = y_threads y ++ [th] ->
  y_file y' = y_file y -> y_log y' = y_log y -> y_queued y' = y_queued y -> order_ok w y'.
Proof.
  intros Hi [_ (th0 & Hat & _ & _ & Hs)] Hy' Hq Et Ef El Eq. split; [done|]. exists th.
  rewrite (idle_at_work y th0 Hi Hat) in Hs. split_and!.
  - exists (y_threads y). split; [exact Hi|]. by right.
  - by apply quiet_ordered.
  - by apply sync_ok_quiet.
  - by rewrite Ef, El, Eq, plan_quiet.
Qed.

Lemma order_run w y y' i allocs :
  order_ok w y -> legal page (L_run i allocs) y -> exec conf page (L_run i allocs) y = Some y' -> order_ok w y'.
Proof.
  intros [Hy (th & Hat & Ho & Hsy & Hs)] Hl E. destruct (exec_legal conf page w y _ Hy Hl) as (y1 & E1 & Hy1).
  rewrite E in E1. injection E1 as <-. split; [done|]. destruct Hl as [Hi ->]. simpl in E.
  destruct (y_threads y !! i) as [th'|] eqn:Hth; [|done]. simpl in E.
  destruct th' as [|a k]; [injection E as <-; by exists th|].
  destruct (run conf page [] a k (y_state y)) as [[[st k'] outs]|] eqn:Er; [|done]. injection E as <-. simpl.
  destruct Hat as (ths & Hths & Et).
  assert (y_threads y = ths ++ [a :: k] /\ i = length ths /\ th = a :: k) as (Ey & -> & ->).
  { rewrite Forall_lookup in Hths. destruct Et as [[Ey ->]|Ey]; rewrite Ey in Hth; [by apply Hths in Hth|].
    apply lookup_app_Some in Hth as [Hth|[Hge Hth]]; [by apply Hths in Hth|].
    apply list_lookup_singleton_Some in Hth as [? ->]. split_and!; [done|lia|done]. }
  pose proof Hy as [Hf Hacts _ _]. pose proof (Forall_lookup_1 _ _ _ _ Hacts Hth) as [Ha _]%Forall_cons.
  assert (file_ok page (y_next y) (action_tokens a ++ thread_tokens k ++ other_tokens (length ths) y) (ws_file (y_state y))) as Hf'.
  { rewrite <-(sys_tokens_perm _ _ _ _ Hth). exact Hf. }
  destruct (run_sends _ _ a k (y_state y) st k' outs Hf' Ha Ho Hsy Er) as [Ho' Hsy' Hs'].
  exists k'. split_and!; [|done|done|].
  - exists ths. split; [done|]. right. simpl. by rewrite Ey, insert_app_r_alt, Nat.sub_diag by lia.
  - unfold y_file in *. simpl. rewrite sent_app, asked_app, <-Hs, <-!app_assoc. f_equal. rewrite Hs'.
    unfold plan. simpl. by rewrite <-!app_assoc.
Qed.

Lemma order_step w y y' : order_ok w y -> orderly_step conf page y y' -> order_ok w y'.
Proof.
  intros Hy (l & Hl & Ho & E). destruct (exec_legal conf page w y l (od_sys _ _ Hy) Hl) as (y1 & E1 & Hy1).
  rewrite E in E1. injection E1 as <-. destruct l as [c|i allocs|j frame op_ret op_errno].
  - simpl in E. injection E as <-. by eapply order_begin; [..|apply start_quiet|done|done|done|done].
  - by eapply order_run.
  - destruct Hl as [Hj ->]. simpl in E. destruct (y_calls y !! j) as [c|]; [|done]. injection E as <-.
    by eapply order_begin; [..|apply callback_quiet|done|done|done|done].
Qed.
End Order.
