(* ===== verification/WriteBehindProps.v ===== *)
(** * What write-behind promises

    The theorems about a file from the moment it is opened: no step goes wrong in
    any interleaving, how many bytes are answered before they are written, that
    writes are answered once, that operations wait for the writes before them, and
    that what was queued is sent in order; and runs in which an operation is never
    answered, a write is answered too early, and writes are sent in the wrong
    order. *)

From stdpp Require Import gmap base list numbers strings relations.
From S2P Require Import Prelude WriteBehind WriteBehindOps WriteBehindFacts WriteBehindInv WriteBehindSteps WriteBehindSafe WriteBehindOrder.
Open Scope Z_scope.

(** ** Files that have been opened *)

Inductive opened (conf : wb_conf) (f : wb_file) : Prop :=
  | opened_open local mode alloc op_ret op_errno ret errno :
      wb_open_cbk conf local mode alloc op_ret op_errno = (Some f, ret, errno) -> opened conf f
  | opened_create flags mode alloc op_ret op_errno ret errno :
      wb_create_cbk conf flags mode alloc op_ret op_errno = (Some f, ret, errno) -> opened conf f.

(** A window and pages that the counters can hold. *)
Definition fits (conf : wb_conf) (page : Z) : Prop :=
  0 <= window_size conf /\ 0 < page < 2 ^ 31 /\ window_size conf + page < 2 ^ 64.

Lemma opened_fields conf f :
  opened conf f ->
  wb_requests f = [] /\ wb_passive_requests f = [] /\ wb_window_current f = 0 /\ wb_aggregate_current f = 0 /\
  (wb_window_conf f = 0 \/ wb_window_conf f = window_size conf).
Proof.
  assert (forall a b, let f := set_open a b (wb_file_create conf) in
    wb_requests f = [] /\ wb_passive_requests f = [] /\ wb_window_current f = 0 /\ wb_aggregate_current f = 0 /\
    (wb_window_conf f = 0 \/ wb_window_conf f = window_size conf)) as Hset.
  { intros a b. simpl. split_and!; try done. destruct b; auto. }
  intros [local mode alloc op_ret op_errno ret errno E|flags mode alloc op_ret op_errno ret errno E].
  - unfold wb_open_cbk in E. destruct local as [[flags wbflags]|]; [|done].
    destruct (op_ret =? -1); [done|]. destruct alloc; [|done]. injection E as <- _ _. apply Hset.
  - unfold wb_create_cbk in E. destruct (op_ret =? -1); [done|]. destruct alloc; [|done]. injection E as <- _ _. apply Hset.
Qed.

Lemma opened_ok conf page f : opened conf f -> fits conf page -> sys_ok page (wb_window_conf f) (fresh_sys f).
Proof.
  intros (E1 & E2 & E3 & E4 & Hc)%opened_fields (H1 & H2 & H3). apply fresh_ok; try done; destruct Hc as [-> | ->]; lia.
Qed.

Section Reachable.
Context (conf : wb_conf) (page : Z) (f : wb_file) (y : wb_sys).
Context (Ho : opened conf f) (Hfit : fits conf page) (Hr : rtc (wb_step conf page) (fresh_sys f) y).

Lemma opened_reachable : sys_ok page (wb_window_conf f) y.
Proof. eapply reachable_ok; [by eapply opened_ok|exact Hr]. Qed.
End Reachable.

(** ** The theorems *)

(** C9: However the threads of write-behind are interleaved, and whatever the
    child answers, every step that can be taken succeeds: no request is used
    after it was freed, no write goes out of a buffer, and no request is missing
    when it is to be answered, wound or resumed.  This is for writes of one
    vector that is not empty and not longer than a page, in a buffer of a page,
    and as long as there is memory; without these conditions [wb_writev] and the
    collapsing of writes do go wrong. *)
Theorem wb_queue_safe conf page f y l :
  opened conf f -> fits conf page -> rtc (wb_step conf page) (fresh_sys f) y -> legal page l y ->
  exists y', exec conf page l y = Some y'.
Proof.
  intros Ho Hfit Hr Hl. destruct (exec_legal conf page _ y l (opened_reachable conf page f y Ho Hfit Hr) Hl) as (y' & ? & _). eauto.
Qed.

(** The bytes of the queue that were answered and are not written. *)
Definition bytes_behind (f : wb_file) : Z :=
  total (fun r => if is_write r && rq_write_behind r && negb (rq_got_reply r) then rq_write_size r else 0) (wb_requests f).

(** C20: [window_current] is exact in every reachable state: it is the number of
    bytes that were answered before they are written, which is never more than the
    window and one page.  The subtractions in [wb_sync_cbk] and
    [__wb_mark_unwinds] do not wrap around. *)
Theorem wb_window_bounds conf page f y :
  opened conf f -> fits conf page -> rtc (wb_step conf page) (fresh_sys f) y ->
  wb_window_current (y_file y) = bytes_behind (y_file y) /\
  0 <= wb_window_current (y_file y) <= wb_window_conf f + page.
Proof.
  intros Ho Hfit Hr. destruct (opened_reachable conf page f y Ho Hfit Hr) as [[Hq _ [C1 C2 _ _]] _ Hc _].
  pose proof (wsize_nonneg page _ _ (q_requests _ _ _ _ _ Hq)). rewrite C1, <-Hc. split; [done|lia].
Qed.

(** The frames that [wb_stack_unwind] has answered. *)
Definition answered (log : list output) : list Z :=
  omap (fun o => match o with O_unwind fr _ _ => Some fr | _ => None end) log.

(** C19: a queued write is answered once at most, and it does not leave the queue
    before it was answered. *)
Theorem wb_write_answered_once conf page f y :
  opened conf f -> fits conf page -> rtc (wb_step conf page) (fresh_sys f) y ->
  NoDup (answered (y_log y)) /\
  forall fr stub, (fr, stub) ∈ y_queued y -> st_fop stub = GF_FOP_WRITE ->
    fr ∈ map rq_frame (wb_requests (y_file y) ++ wb_passive_requests (y_file y)) \/ fr ∈ answered (y_log y).
Proof.
  intros Ho Hfit Hr. destruct (opened_reachable conf page f y Ho Hfit Hr) as [[Hq _ _] _ _ Hw].
  assert (map T_done (answered (y_log y)) = output_tokens (y_log y)) as Hlog.
  { unfold answered, output_tokens. induction (y_log y) as [|[] l IH]; simpl; [done|done| |done]. by f_equal. }
  split.
  - pose proof (q_keys _ _ _ _ _ Hq) as Hk. unfold sys_tokens in Hk. rewrite !map_app in Hk.
    apply NoDup_app in Hk as (_ & _ & Hk). apply NoDup_app in Hk as (_ & _ & Hk). rewrite <-Hlog, map_map in Hk.
    by eapply NoDup_fmap_1.
  - intros fr stub Hin Hfop. destruct (Hw fr stub Hin Hfop) as [Hf|Hd].
    + left. apply list_elem_of_fmap in Hf as (r & -> & [_ Hr']%list_elem_of_filter). by apply list_elem_of_fmap_2.
    + right. apply done_logged in Hd as (ret & errno & Hin'). apply list_elem_of_omap. by exists (O_unwind fr ret errno).
Qed.

(** C18: an operation that was queued is not with the child while a queued write
    is: it waits for the answers to the writes before it, and the writes behind it
    wait for its answer. *)
Theorem wb_barrier conf page f y fop fr winds off data :
  opened conf f -> fits conf page -> rtc (wb_step conf page) (fresh_sys f) y ->
  C_other fop fr true ∈ y_calls y -> winds <> [] -> C_writev winds off data ∉ y_calls y.
Proof.
  intros Ho Hfit Hr Hop Hne Hwr. destruct (opened_reachable conf page f y Ho Hfit Hr) as [[Hq _ _] _ _ _].
  destruct winds as [|w winds]; [done|]. pose proof (q_tokens _ _ _ _ _ Hq) as Ht. rewrite Forall_forall in Ht.
  assert (forall c t, c ∈ y_calls y -> t ∈ call_tokens c -> t ∈ sys_tokens y) as Hcalls.
  { intros c t Hc Hin. unfold sys_tokens. rewrite !elem_of_app. right. left. apply list_elem_of_In, in_concat.
    exists (call_tokens c). split; [apply in_map|]; by apply list_elem_of_In. }
  destruct (Ht _ (Hcalls _ (T_op fr) Hop ltac:(by left))) as (x & Hx & _ & Ex).
  destruct (Ht _ (Hcalls _ (T_wind w) Hwr ltac:(by left))) as (z & Hz & _ & Ez & Hwound & _).
  pose proof (q_requests _ _ _ _ _ Hq) as Hok. rewrite Forall_forall in Hok. specialize (Hok x Hx).
  assert (is_write x = false) as Ew by (unfold is_write; by rewrite Ex). unfold request_ok in Hok. rewrite Ew in Hok.
  pose proof (oo_marked _ _ Hok Ex) as Em.
  destruct (pairwise_elem _ _ x z (q_order _ _ _ _ _ Hq) Hx Hz) as [->|[(H1 & _)|(_ & _ & H3)]]; [congruence| |].
  - destruct (H1 Hwound). congruence.
  - destruct (H3 Em). congruence.
Qed.

(** C6: where a thread ends before the next begins, the child is sent what was
    queued, in the order in which it was queued: the same bytes at the same offsets
    and the same operations between them, however the writes were collapsed into
    pages and collected into calls.  When no thread is at work, what was not sent is
    still in the queue. *)
Theorem wb_data_order conf page f y :
  opened conf f -> fits conf page -> rtc (orderly_step conf page) (fresh_sys f) y ->
  sent (y_log y) `prefix_of` asked (y_queued y) /\
  (idle y -> asked (y_queued y) = sent (y_log y) ++ pending (wb_requests (y_file y))).
Proof.
  intros Ho Hfit Hr. assert (order_ok page (wb_window_conf f) y) as [_ (th & Hat & _ & _ & Hs)].
  { assert (order_ok page (wb_window_conf f) (fresh_sys f)) as H0.
    { split; [by eapply opened_ok|]. exists []. split_and!; [by exists []; split; [|left]|done|done|].
      unfold y_file. simpl. by destruct (opened_fields _ _ Ho) as (-> & _). }
    clear Ho. induction Hr as [|y1 y2 y3 H12 _ IH]; [done|]. apply IH. by eapply order_step. }
  split; [by eexists|]. intros Hi. by rewrite <-Hs, (idle_at_work y th Hi Hat).
Qed.

(** ** Runs *)

Definition example_conf : wb_conf := mk_wb_conf WB_AGGREGATE_SIZE WB_WINDOW_SIZE 0 false false true.

(** A file that is opened with these flags. *)
Definition example_file (flags : Z) : wb_file :=
  match wb_open_cbk example_conf (Some (flags, 0)) 0 true 0 0 with (Some f, _, _) => f | _ => wb_file_create example_conf end.

Lemma example_opened flags : opened example_conf (example_file flags).
Proof. by eapply (opened_open _ _ (Some (flags, 0)) 0 true 0 0). Qed.

Lemma example_fits : fits example_conf 8.
Proof. by vm_compute. Qed.

(** Four times the byte [b] at [off]; a thread that runs to its end. *)
Definition example_write (off b : Z) : wb_label :=
  L_start (K_writev true off [mk_iovec [b; b; b; b; 0; 0; 0; 0] 4]).
Definition run_thread (i : nat) : list wb_label := replicate 8 (L_run i []).

(** Three writes that follow each other and an fsync, and the answers to two
    calls. *)
Definition example_labels : list wb_label :=
  example_write 0 1 :: run_thread 0 ++ example_write 4 2 :: run_thread 1 ++ example_write 8 3 :: run_thread 2 ++
  L_start (K_fsync true true true) :: run_thread 3 ++ L_reply 0 true 4 0 :: run_thread 4 ++ L_reply 0 true 8 0 :: run_thread 5.

Definition example_end (flags : Z) : wb_sys :=
  default (fresh_sys (example_file flags)) (run_orderly example_conf 8 example_labels (fresh_sys (example_file flags))).

Lemma example_orderly flags :
  run_orderly example_conf 8 example_labels (fresh_sys (example_file flags)) <> None ->
  rtc (orderly_step example_conf 8) (fresh_sys (example_file flags)) (example_end flags).
Proof.
  unfold example_end. destruct (run_orderly _ _ _ _) as [y|] eqn:E; [|done]. intros _. by eapply run_orderly_rtc.
Qed.

Lemma orderly_rtc conf page y y' : rtc (orderly_step conf page) y y' -> rtc (wb_step conf page) y y'.
Proof. apply rtc_subrel. intros y1 y2 (l & Hl & _ & E). by exists l. Qed.

Lemma example_run flags :
  run_orderly example_conf 8 example_labels (fresh_sys (example_file flags)) <> None ->
  rtc (wb_step example_conf 8) (fresh_sys (example_file flags)) (example_end flags).
Proof. intros H. by apply orderly_rtc, example_orderly. Qed.

Lemma wb_queue_safe_witness :
  opened example_conf (example_file 1) /\ fits example_conf 8 /\
  rtc (wb_step example_conf 8) (fresh_sys (example_file 1)) (example_end 1) /\
  exists y', exec example_conf 8 (L_reply 0 true 0 0) (example_end 1) = Some y'.
Proof.
  assert (rtc (wb_step example_conf 8) (fresh_sys (example_file 1)) (example_end 1)) as Hr by (apply example_run; by vm_compute).
  split_and!; [apply example_opened|apply example_fits|exact Hr|].
  apply (wb_queue_safe example_conf 8 (example_file 1) (example_end 1) _ (example_opened 1) example_fits Hr).
  vm_compute. by split; [lia|].
Defined.

Lemma wb_window_bounds_witness :
  wb_window_current (y_file (example_end 1)) = bytes_behind (y_file (example_end 1)) /\
  0 <= wb_window_current (y_file (example_end 1)) <= wb_window_conf (example_file 1) + 8.
Proof.
  apply (wb_window_bounds example_conf 8 (example_file 1) (example_end 1) (example_opened 1) example_fits).
  apply example_run. by vm_compute.
Defined.

Lemma wb_write_answered_once_witness :
  answered (y_log (example_end 1)) = [0; 1; 2] /\ NoDup (answered (y_log (example_end 1))) /\
  forall fr stub, (fr, stub) ∈ y_queued (example_end 1) -> st_fop stub = GF_FOP_WRITE ->
    fr ∈ map rq_frame (wb_requests (y_file (example_end 1)) ++ wb_passive_requests (y_file (example_end 1))) \/
    fr ∈ answered (y_log (example_end 1)).
Proof.
  split; [by vm_compute|].
  apply (wb_write_answered_once example_conf 8 (example_file 1) (example_end 1) (example_opened 1) example_fits).
  apply example_run. by vm_compute.
Defined.

Lemma wb_barrier_witness :
  C_other GF_FOP_FSYNC 3 true ∈ y_calls (example_end 1) /\ C_writev [1] 4 [2; 2; 2; 2; 3; 3; 3; 3] ∉ y_calls (example_end 1).
Proof.
  assert (y_calls (example_end 1) = [C_other GF_FOP_FSYNC 3 true]) as E by (by vm_compute).
  assert (C_other GF_FOP_FSYNC 3 true ∈ y_calls (example_end 1)) as Hop by (rewrite E; by left).
  split; [exact Hop|].
  apply (wb_barrier example_conf 8 (example_file 1) (example_end 1) GF_FOP_FSYNC 3 [1] _ _ (example_opened 1) example_fits);
    [apply example_run; by vm_compute|exact Hop|done].
Defined.

Lemma wb_data_order_witness :
  rtc (orderly_step example_conf 8) (fresh_sys (example_file 1)) (example_end 1) /\
  asked (y_queued (example_end 1)) = sent (y_log (example_end 1)) ++ pending (wb_requests (y_file (example_end 1))) /\
  sent (y_log (example_end 1)) = flat_write 0 [1; 1; 1; 1; 2; 2; 2; 2; 3; 3; 3; 3] ++ [E_op 3].
Proof.
  assert (rtc (orderly_step example_conf 8) (fresh_sys (example_file 1)) (example_end 1)) as Hr
    by (apply example_orderly; by vm_compute).
  split_and!; [exact Hr| |by vm_compute].
  apply (wb_data_order example_conf 8 (example_file 1) (example_end 1) (example_opened 1) example_fits Hr).
  apply (bool_decide_unpack _). by vm_compute.
Defined.

(** ** Runs that go wrong *)

(** An operation may wait for ever.  [wb_process_queue] looks for operations
    to resume before it answers the writes it has marked; when the write in front of
    an operation goes with its answer, nothing looks at the queue again.  Here an
    fsync on a file without a window is neither answered nor sent, although no call
    is in flight, every write before it was answered, and every thread has ended. *)
Theorem other_request_stuck :
  exists f y stub, opened example_conf f /\ rtc (orderly_step example_conf 8) (fresh_sys f) y /\
    idle y /\ y_calls y = [] /\ map rq_frame (wb_requests (y_file y)) = [3] /\
    last (y_queued y) = Some (3, stub) /\ st_fop stub = GF_FOP_FSYNC /\ answered (y_log y) = [0; 1; 2] /\
    forall op_ret op_errno, O_answer 3 op_ret op_errno ∉ y_log y.
Proof.
  exists (example_file O_DIRECT), (example_end O_DIRECT), (mk_stub GF_FOP_FSYNC true 0 []).
  split_and!; [apply example_opened|apply example_orderly; by vm_compute| |by vm_compute..|].
  - apply (bool_decide_unpack _). by vm_compute.
  - intros op_ret op_errno. unfold example_end. vm_compute. intros Hin.
    repeat (apply elem_of_cons in Hin as [?|Hin]; [done|]). by apply elem_of_nil in Hin.
Qed.

(** On a file that was opened with [O_DIRECT], for which the window is set to
    nothing, a write is still answered before it is sent: [written_behind <= size]
    lets one write past a window of zero. *)
Theorem direct_write_acked_early :
  exists f y, opened example_conf f /\ wb_window_conf f = 0 /\
    rtc (orderly_step example_conf 8) (fresh_sys f) y /\ y_log y = [O_unwind 0 4 0] /\
    map (fun r => (rq_frame r, rq_stub r ≫= fun s => Some (st_off s))) (wb_requests (y_file y)) = [(0, Some 0)].
Proof.
  exists (example_file O_DIRECT).
  destruct (run_orderly example_conf 8 (example_write 0 1 :: replicate 4 (L_run 0 [])) (fresh_sys (example_file O_DIRECT))) as [y|] eqn:E;
    [|by vm_compute in E]. exists y.
  split_and!; [apply example_opened|done|by eapply run_orderly_rtc|..]; vm_compute in E; by injection E as <-.
Qed.

(** The requests to be wound are taken off under the lock and wound after it
    was released, so that two threads may wind them the other way round.  Here a
    write was answered and the next one, of the same bytes, overtakes it: the file
    ends with the old ones. *)
Theorem winds_reordered :
  exists f y, opened example_conf f /\ rtc (wb_step example_conf 8) (fresh_sys f) y /\
    answered (take 1 (y_log y)) = [0] /\
    asked (y_queued y) = flat_write 0 [1; 1; 1; 1] ++ flat_write 0 [2; 2; 2; 2] ++ [E_op 2] /\
    sent (y_log y) = flat_write 0 [2; 2; 2; 2] ++ flat_write 0 [1; 1; 1; 1].
Proof.
  exists (example_file 1).
  destruct (run_labels example_conf 8 (example_write 0 1 :: replicate 4 (L_run 0 []) ++ example_write 0 2 :: run_thread 1 ++
    L_start (K_fsync true true true) :: run_thread 2 ++ run_thread 0) (fresh_sys (example_file 1))) as [y|] eqn:E;
    [|by vm_compute in E]. exists y.
  split_and!; [apply example_opened|by eapply run_labels_rtc|..]; vm_compute in E; by injection E as <-.
Qed.
