(* ===== verification/StripeData.v ===== *)
(** * The striping translator: data

    The structures of stripe.h, the requests and answers that cluster/stripe
    (src/xlators/cluster/stripe/src) exchanges with its neighbours, and the
    effects of a handler.  Child translators are numbers.  What the translator
    only passes on (flags, lock descriptions, the dictionary of a lookup) is a
    number too; the dictionaries of xattrs that it makes and reads are maps from keys
    to the bytes that dict.c makes of numbers. *)

From stdpp Require Import base list numbers strings gmap.
From S2P Require Import Prelude.

Open Scope Z_scope.

Definition xlator := Z.

(** ** Arguments of the file operations *)

(** [loc_t]: a path and an inode, either of which may be missing. *)
Record loc_t := mk_loc { loc_path : option string; loc_inode : option Z }.

Record fd_t := mk_fd { fd_id : Z; fd_inode : option Z }.

(** [struct stat]; [st_rest] stands for the fields that are only copied. *)
Record stat := mk_stat { st_mode : Z; st_size : Z; st_blocks : Z; st_rest : Z }.

Definition stat0 : stat := mk_stat 0 0 0 0.

(** The file type in [st_mode]. *)
Definition S_ISREG (mode : Z) : bool := Z.land mode 61440 =? 32768.
Definition S_ISDIR (mode : Z) : bool := Z.land mode 61440 =? 16384.

Record statvfs := mk_statvfs {
  f_bsize : Z; f_frsize : Z; f_blocks : Z; f_bfree : Z; f_bavail : Z;
  f_files : Z; f_ffree : Z; f_favail : Z; f_fsid : Z; f_flag : Z; f_namemax : Z }.

Definition statvfs0 : statvfs := mk_statvfs 0 0 0 0 0 0 0 0 0 0 0.

(** The counters of [struct xlator_stats] that are added up, and the rest. *)
Record xlator_stats := mk_stats {
  nr_files : Z; free_disk : Z; disk_usage : Z; nr_clients : Z; stats_rest : Z }.

Definition stats0 : xlator_stats := mk_stats 0 0 0 0 0.

(** ** Numbers in dictionaries

    What dict.c makes of integers: data is the bytes of a string, with its end. *)

(** The decimal digits of a number, the last one first; 20 are enough for 64 bits. *)
Fixpoint decimal (fuel : nat) (n : Z) : list Z :=
  match fuel with
  | O => []
  | S fuel => n `mod` 10 :: (if n / 10 =? 0 then [] else decimal fuel (n / 10))
  end.

Definition print_digits (n : Z) : list Z := reverse (map (Z.add 48) (decimal 20 n)).

(** [asprintf] with PRId64 or PRId32 *)
Definition print_int (v : Z) : list Z := if v <? 0 then 45 :: print_digits (- v) else print_digits v.

Definition data_from_int64 (value : Z) : list Z := print_int (i64 value) ++ [0].
Definition data_from_int32 (value : Z) : list Z := print_int (i32 value) ++ [0].

Fixpoint skip_spaces (s : list Z) : list Z :=
  match s with
  | c :: s' => if (c =? 32) || ((9 <=? c) && (c <=? 13)) then skip_spaces s' else s
  | [] => []
  end.

Definition take_sign (s : list Z) : bool * list Z :=
  match s with
  | c :: s' => if c =? 45 then (true, s') else if c =? 43 then (false, s') else (false, s)
  | [] => (false, [])
  end.

(** The value of a digit or letter. *)
Definition digit_value (c : Z) : Z :=
  if (48 <=? c) && (c <=? 57) then c - 48
  else if (97 <=? c) && (c <=? 122) then c - 87
  else if (65 <=? c) && (c <=? 90) then c - 55
  else 36.

(** The digits at the start, to the base [b]. *)
Fixpoint leading_digits (b : Z) (s : list Z) : list Z :=
  match s with
  | c :: s' => if digit_value c <? b then digit_value c :: leading_digits b s' else []
  | [] => []
  end.

Definition number (b : Z) (s : list Z) : Z := foldl (fun n d => n * b + d) 0 (leading_digits b s).

(** The base is found from the prefix: 0x, 0 or none. *)
Definition unsigned_number (s : list Z) : Z :=
  match s with
  | z :: x :: d :: _ =>
      if (z =? 48) && ((x =? 120) || (x =? 88)) && (digit_value d <? 16) then number 16 (drop 2 s)
      else number (if z =? 48 then 8 else 10) s
  | z :: _ => number (if z =? 48 then 8 else 10) s
  | [] => 0
  end.

(** [strtoull (s, NULL, 0)], and [strtoul] where a long has 64 bits *)
Definition strtoull_0 (s : list Z) : Z :=
  let '(negative, s) := take_sign (skip_spaces s) in
  let v := unsigned_number s in
  if 2 ^ 64 <=? v then 2 ^ 64 - 1 else if negative then u64 (- v) else v.

Definition data_to_int64 (data : list Z) : Z := i64 (strtoull_0 data).
Definition data_to_int32 (data : list Z) : Z := i32 (strtoull_0 data).

(** A dictionary of xattrs: data by keys. *)
Abbreviation xattr_dict := (gmap string (list Z)).

Definition dict_set_int64 (dict : xattr_dict) (key : string) (val : Z) : xattr_dict := <[key := data_from_int64 val]> dict.
Definition dict_set_int32 (dict : xattr_dict) (key : string) (val : Z) : xattr_dict := <[key := data_from_int32 val]> dict.

(** A part of memory: [iov_base] is an address. *)
Record iovec := mk_iovec { iov_base : Z; iov_len : Z }.

(** The operations that are wound to a child. *)
Inductive fop :=
| F_lookup (loc : loc_t) (xattr_req : Z)
| F_stat (loc : loc_t)
| F_fstat (fd : fd_t)
| F_statfs (loc : loc_t)
| F_truncate (loc : loc_t) (offset : Z)
| F_ftruncate (fd : fd_t) (offset : Z)
| F_setattr (loc : loc_t) (stbuf : stat) (valid : Z)
| F_fsetattr (fd : fd_t) (stbuf : stat) (valid : Z)
| F_rename (oldloc newloc : loc_t)
| F_link (oldloc newloc : loc_t)
| F_unlink (loc : loc_t)
| F_rmdir (loc : loc_t)
| F_mknod (loc : loc_t) (mode rdev : Z)
| F_mkdir (loc : loc_t) (mode : Z)
| F_create (loc : loc_t) (flags mode : Z) (fd : fd_t)
| F_open (loc : loc_t) (flags : Z) (fd : fd_t) (wbflags : Z)
| F_opendir (loc : loc_t) (fd : fd_t)
| F_getxattr (loc : loc_t)
| F_setxattr (loc : loc_t) (dict : xattr_dict) (flags : Z)
| F_lk (fd : fd_t) (cmd lock : Z)
| F_setdents (fd : fd_t) (flags entries count : Z)
| F_flush (fd : fd_t)
| F_fsync (fd : fd_t) (flags : Z)
| F_fsyncdir (fd : fd_t) (flags : Z)
| F_readv (fd : fd_t) (size offset : Z)
| F_writev (fd : fd_t) (vector : list iovec) (offset : Z)
| F_stats (flags : Z).

(** What an answer carries beside [op_ret] and [op_errno]. *)
Inductive payload :=
| P_null
| P_none
| P_buf (buf : stat)
| P_pair (pre post : stat)
| P_inode (inode : option Z) (buf preparent postparent : stat)
| P_lookup (inode : option Z) (buf : stat) (dict : option Z) (postparent : stat)
| P_rename (buf preold postold prenew postnew : stat)
| P_create (fd : option fd_t) (inode : option Z) (buf preparent postparent : stat)
| P_fd (fd : option fd_t)
| P_xattr (dict : xattr_dict)
| P_lock (lock : Z)
| P_statvfs (buf : statvfs)
| P_stats (stats : xlator_stats)
| P_read (vector : list iovec) (stbuf : stat).

(** ** stripe.h *)

Record stripe_options := mk_options { path_pattern : string; opt_block_size : Z }.

Record stripe_private := mk_private {
  pattern : list stripe_options;
  xl_array : list xlator;
  block_size : Z;
  nodes_down : Z;
  first_child_down : bool;
  child_count : Z;
  state : list Z;
  xattr_supported : bool }.

Record readv_replies := mk_replies {
  rr_vector : list iovec; rr_count : Z; rr_op_ret : Z; rr_op_errno : Z; rr_stbuf : stat }.

(** [xl_array] may be NULL, and so may its entries. *)
Record stripe_fd_ctx := mk_fctx {
  fctx_stripe_size : Z;
  fctx_stripe_count : Z;
  fctx_static_array : bool;
  fctx_xl_array : option (list (option xlator)) }.

Definition fctx0 : stripe_fd_ctx := mk_fctx 0 0 false None.

(** A [struct stat] that is collected from the children, with the size and the
    number of blocks that are kept beside it ([stbuf], [stbuf_size] and
    [stbuf_blocks], and so for the other four). *)
Record collected := mk_collected { c_buf : stat; c_size : Z; c_blocks : Z }.

Definition collected0 : collected := mk_collected stat0 0 0.

(** The translator as its handlers see it: its children, its private data and its
    name. *)
Record stripe_xl := mk_xl { children : list xlator; private : stripe_private; xl_name : string }.

(** The local data of a request; [loc] and [loc2] are [None] while their path is
    NULL. *)
Record stripe_local := mk_local {
  l_stbuf : collected;
  l_pre_buf : collected;
  l_post_buf : collected;
  l_preparent : collected;
  l_postparent : collected;
  l_replies : list readv_replies;
  l_statvfs_buf : statvfs;
  l_stats : xlator_stats;
  l_failed : bool;
  l_unwind : bool;
  l_entry_count : Z;
  l_call_count : Z;
  l_wind_count : Z;
  l_op_ret : Z;
  l_op_errno : Z;
  l_flags : Z;
  l_inode : option Z;
  l_loc : option loc_t;
  l_loc2 : option loc_t;
  l_dict : option Z;
  l_fctx : option stripe_fd_ctx;
  l_stripe_size : Z;
  l_xattr_self_heal_needed : bool;
  l_entry_self_heal_needed : bool;
  l_lock : Z;
  l_fd : option fd_t }.

(** [CALLOC]: all zero. *)
Definition local0 : stripe_local :=
  mk_local collected0 collected0 collected0 collected0 collected0 [] statvfs0 stats0 false false 0 0 0 0 0 0 None None None None None 0 false false 0 None.

(** Assignments to the fields. *)
Definition set_stbuf (v : collected) (l : stripe_local) : stripe_local :=
  mk_local v (l_pre_buf l) (l_post_buf l) (l_preparent l) (l_postparent l) (l_replies l) (l_statvfs_buf l) (l_stats l) (l_failed l) (l_unwind l) (l_entry_count l) (l_call_count l) (l_wind_count l) (l_op_ret l) (l_op_errno l) (l_flags l) (l_inode l) (l_loc l) (l_loc2 l) (l_dict l) (l_fctx l) (l_stripe_size l) (l_xattr_self_heal_needed l) (l_entry_self_heal_needed l) (l_lock l) (l_fd l).
Definition set_pre_buf (v : collected) (l : stripe_local) : stripe_local :=
  mk_local (l_stbuf l) v (l_post_buf l) (l_preparent l) (l_postparent l) (l_replies l) (l_statvfs_buf l) (l_stats l) (l_failed l) (l_unwind l) (l_entry_count l) (l_call_count l) (l_wind_count l) (l_op_ret l) (l_op_errno l) (l_flags l) (l_inode l) (l_loc l) (l_loc2 l) (l_dict l) (l_fctx l) (l_stripe_size l) (l_xattr_self_heal_needed l) (l_entry_self_heal_needed l) (l_lock l) (l_fd l).
Definition set_post_buf (v : collected) (l : stripe_local) : stripe_local :=
  mk_local (l_stbuf l) (l_pre_buf l) v (l_preparent l) (l_postparent l) (l_replies l) (l_statvfs_buf l) (l_stats l) (l_failed l) (l_unwind l) (l_entry_count l) (l_call_count l) (l_wind_count l) (l_op_ret l) (l_op_errno l) (l_flags l) (l_inode l) (l_loc l) (l_loc2 l) (l_dict l) (l_fctx l) (l_stripe_size l) (l_xattr_self_heal_needed l) (l_entry_self_heal_needed l) (l_lock l) (l_fd l).
Definition set_preparent (v : collected) (l : stripe_local) : stripe_local :=
  mk_local (l_stbuf l) (l_pre_buf l) (l_post_buf l) v (l_postparent l) (l_replies l) (l_statvfs_buf l) (l_stats l) (l_failed l) (l_unwind l) (l_entry_count l) (l_call_count l) (l_wind_count l) (l_op_ret l) (l_op_errno l) (l_flags l) (l_inode l) (l_loc l) (l_loc2 l) (l_dict l) (l_fctx l) (l_stripe_size l) (l_xattr_self_heal_needed l) (l_entry_self_heal_needed l) (l_lock l) (l_fd l).
Definition set_postparent (v : collected) (l : stripe_local) : stripe_local :=
  mk_local (l_stbuf l) (l_pre_buf l) (l_post_buf l) (l_preparent l) v (l_replies l) (l_statvfs_buf l) (l_stats l) (l_failed l) (l_unwind l) (l_entry_count l) (l_call_count l) (l_wind_count l) (l_op_ret l) (l_op_errno l) (l_flags l) (l_inode l) (l_loc l) (l_loc2 l) (l_dict l) (l_fctx l) (l_stripe_size l) (l_xattr_self_heal_needed l) (l_entry_self_heal_needed l) (l_lock l) (l_fd l).
Definition set_replies (v : list readv_replies) (l : stripe_local) : stripe_local :=
  mk_local (l_stbuf l) (l_pre_buf l) (l_post_buf l) (l_preparent l) (l_postparent l) v (l_statvfs_buf l) (l_stats l) (l_failed l) (l_unwind l) (l_entry_count l) (l_call_count l) (l_wind_count l) (l_op_ret l) (l_op_errno l) (l_flags l) (l_inode l) (l_loc l) (l_loc2 l) (l_dict l) (l_fctx l) (l_stripe_size l) (l_xattr_self_heal_needed l) (l_entry_self_heal_needed l) (l_lock l) (l_fd l).
Definition set_statvfs_buf (v : statvfs) (l : stripe_local) : stripe_local :=
  mk_local (l_stbuf l) (l_pre_buf l) (l_post_buf l) (l_preparent l) (l_postparent l) (l_replies l) v (l_stats l) (l_failed l) (l_unwind l) (l_entry_count l) (l_call_count l) (l_wind_count l) (l_op_ret l) (l_op_errno l) (l_flags l) (l_inode l) (l_loc l) (l_loc2 l) (l_dict l) (l_fctx l) (l_stripe_size l) (l_xattr_self_heal_needed l) (l_entry_self_heal_needed l) (l_lock l) (l_fd l).
Definition set_stats (v : xlator_stats) (l : stripe_local) : stripe_local :=
  mk_local (l_stbuf l) (l_pre_buf l) (l_post_buf l) (l_preparent l) (l_postparent l) (l_replies l) (l_statvfs_buf l) v (l_failed l) (l_unwind l) (l_entry_count l) (l_call_count l) (l_wind_count l) (l_op_ret l) (l_op_errno l) (l_flags l) (l_inode l) (l_loc l) (l_loc2 l) (l_dict l) (l_fctx l) (l_stripe_size l) (l_xattr_self_heal_needed l) (l_entry_self_heal_needed l) (l_lock l) (l_fd l).
Definition set_failed (v : bool) (l : stripe_local) : stripe_local :=
  mk_local (l_stbuf l) (l_pre_buf l) (l_post_buf l) (l_preparent l) (l_postparent l) (l_replies l) (l_statvfs_buf l) (l_stats l) v (l_unwind l) (l_entry_count l) (l_call_count l) (l_wind_count l) (l_op_ret l) (l_op_errno l) (l_flags l) (l_inode l) (l_loc l) (l_loc2 l) (l_dict l) (l_fctx l) (l_stripe_size l) (l_xattr_self_heal_needed l) (l_entry_self_heal_needed l) (l_lock l) (l_fd l).
Definition set_unwind (v : bool) (l : stripe_local) : stripe_local :=
  mk_local (l_stbuf l) (l_pre_buf l) (l_post_buf l) (l_preparent l) (l_postparent l) (l_replies l) (l_statvfs_buf l) (l_stats l) (l_failed l) v (l_entry_count l) (l_call_count l) (l_wind_count l) (l_op_ret l) (l_op_errno l) (l_flags l) (l_inode l) (l_loc l) (l_loc2 l) (l_dict l) (l_fctx l) (l_stripe_size l) (l_xattr_self_heal_needed l) (l_entry_self_heal_needed l) (l_lock l) (l_fd l).
Definition set_entry_count (v : Z) (l : stripe_local) : stripe_local :=
  mk_local (l_stbuf l) (l_pre_buf l) (l_post_buf l) (l_preparent l) (l_postparent l) (l_replies l) (l_statvfs_buf l) (l_stats l) (l_failed l) (l_unwind l) v (l_call_count l) (l_wind_count l) (l_op_ret l) (l_op_errno l) (l_flags l) (l_inode l) (l_loc l) (l_loc2 l) (l_dict l) (l_fctx l) (l_stripe_size l) (l_xattr_self_heal_needed l) (l_entry_self_heal_needed l) (l_lock l) (l_fd l).
Definition set_call_count (v : Z) (l : stripe_local) : stripe_local :=
  mk_local (l_stbuf l) (l_pre_buf l) (l_post_buf l) (l_preparent l) (l_postparent l) (l_replies l) (l_statvfs_buf l) (l_stats l) (l_failed l) (l_unwind l) (l_entry_count l) v (l_wind_count l) (l_op_ret l) (l_op_errno l) (l_flags l) (l_inode l) (l_loc l) (l_loc2 l) (l_dict l) (l_fctx l) (l_stripe_size l) (l_xattr_self_heal_needed l) (l_entry_self_heal_needed l) (l_lock l) (l_fd l).
Definition set_wind_count (v : Z) (l : stripe_local) : stripe_local :=
  mk_local (l_stbuf l) (l_pre_buf l) (l_post_buf l) (l_preparent l) (l_postparent l) (l_replies l) (l_statvfs_buf l) (l_stats l) (l_failed l) (l_unwind l) (l_entry_count l) (l_call_count l) v (l_op_ret l) (l_op_errno l) (l_flags l) (l_inode l) (l_loc l) (l_loc2 l) (l_dict l) (l_fctx l) (l_stripe_size l) (l_xattr_self_heal_needed l) (l_entry_self_heal_needed l) (l_lock l) (l_fd l).
Definition set_op_ret (v : Z) (l : stripe_local) : stripe_local :=
  mk_local (l_stbuf l) (l_pre_buf l) (l_post_buf l) (l_preparent l) (l_postparent l) (l_replies l) (l_statvfs_buf l) (l_stats l) (l_failed l) (l_unwind l) (l_entry_count l) (l_call_count l) (l_wind_count l) v (l_op_errno l) (l_flags l) (l_inode l) (l_loc l) (l_loc2 l) (l_dict l) (l_fctx l) (l_stripe_size l) (l_xattr_self_heal_needed l) (l_entry_self_heal_needed l) (l_lock l) (l_fd l).
Definition set_op_errno (v : Z) (l : stripe_local) : stripe_local :=
  mk_local (l_stbuf l) (l_pre_buf l) (l_post_buf l) (l_preparent l) (l_postparent l) (l_replies l) (l_statvfs_buf l) (l_stats l) (l_failed l) (l_unwind l) (l_entry_count l) (l_call_count l) (l_wind_count l) (l_op_ret l) v (l_flags l) (l_inode l) (l_loc l) (l_loc2 l) (l_dict l) (l_fctx l) (l_stripe_size l) (l_xattr_self_heal_needed l) (l_entry_self_heal_needed l) (l_lock l) (l_fd l).
Definition set_flags (v : Z) (l : stripe_local) : stripe_local :=
  mk_local (l_stbuf l) (l_pre_buf l) (l_post_buf l) (l_preparent l) (l_postparent l) (l_replies l) (l_statvfs_buf l) (l_stats l) (l_failed l) (l_unwind l) (l_entry_count l) (l_call_count l) (l_wind_count l) (l_op_ret l) (l_op_errno l) v (l_inode l) (l_loc l) (l_loc2 l) (l_dict l) (l_fctx l) (l_stripe_size l) (l_xattr_self_heal_needed l) (l_entry_self_heal_needed l) (l_lock l) (l_fd l).
Definition set_inode (v : option Z) (l : stripe_local) : stripe_local :=
  mk_local (l_stbuf l) (l_pre_buf l) (l_post_buf l) (l_preparent l) (l_postparent l) (l_replies l) (l_statvfs_buf l) (l_stats l) (l_failed l) (l_unwind l) (l_entry_count l) (l_call_count l) (l_wind_count l) (l_op_ret l) (l_op_errno l) (l_flags l) v (l_loc l) (l_loc2 l) (l_dict l) (l_fctx l) (l_stripe_size l) (l_xattr_self_heal_needed l) (l_entry_self_heal_needed l) (l_lock l) (l_fd l).
Definition set_loc (v : option loc_t) (l : stripe_local) : stripe_local :=
  mk_local (l_stbuf l) (l_pre_buf l) (l_post_buf l) (l_preparent l) (l_postparent l) (l_replies l) (l_statvfs_buf l) (l_stats l) (l_failed l) (l_unwind l) (l_entry_count l) (l_call_count l) (l_wind_count l) (l_op_ret l) (l_op_errno l) (l_flags l) (l_inode l) v (l_loc2 l) (l_dict l) (l_fctx l) (l_stripe_size l) (l_xattr_self_heal_needed l) (l_entry_self_heal_needed l) (l_lock l) (l_fd l).
Definition set_loc2 (v : option loc_t) (l : stripe_local) : stripe_local :=
  mk_local (l_stbuf l) (l_pre_buf l) (l_post_buf l) (l_preparent l) (l_postparent l) (l_replies l) (l_statvfs_buf l) (l_stats l) (l_failed l) (l_unwind l) (l_entry_count l) (l_call_count l) (l_wind_count l) (l_op_ret l) (l_op_errno l) (l_flags l) (l_inode l) (l_loc l) v (l_dict l) (l_fctx l) (l_stripe_size l) (l_xattr_self_heal_needed l) (l_entry_self_heal_needed l) (l_lock l) (l_fd l).
Definition set_dict (v : option Z) (l : stripe_local) : stripe_local :=
  mk_local (l_stbuf l) (l_pre_buf l) (l_post_buf l) (l_preparent l) (l_postparent l) (l_replies l) (l_statvfs_buf l) (l_stats l) (l_failed l) (l_unwind l) (l_entry_count l) (l_call_count l) (l_wind_count l) (l_op_ret l) (l_op_errno l) (l_flags l) (l_inode l) (l_loc l) (l_loc2 l) v (l_fctx l) (l_stripe_size l) (l_xattr_self_heal_needed l) (l_entry_self_heal_needed l) (l_lock l) (l_fd l).
Definition set_fctx (v : option stripe_fd_ctx) (l : stripe_local) : stripe_local :=
  mk_local (l_stbuf l) (l_pre_buf l) (l_post_buf l) (l_preparent l) (l_postparent l) (l_replies l) (l_statvfs_buf l) (l_stats l) (l_failed l) (l_unwind l) (l_entry_count l) (l_call_count l) (l_wind_count l) (l_op_ret l) (l_op_errno l) (l_flags l) (l_inode l) (l_loc l) (l_loc2 l) (l_dict l) v (l_stripe_size l) (l_xattr_self_heal_needed l) (l_entry_self_heal_needed l) (l_lock l) (l_fd l).
Definition set_stripe_size (v : Z) (l : stripe_local) : stripe_local :=
  mk_local (l_stbuf l) (l_pre_buf l) (l_post_buf l) (l_preparent l) (l_postparent l) (l_replies l) (l_statvfs_buf l) (l_stats l) (l_failed l) (l_unwind l) (l_entry_count l) (l_call_count l) (l_wind_count l) (l_op_ret l) (l_op_errno l) (l_flags l) (l_inode l) (l_loc l) (l_loc2 l) (l_dict l) (l_fctx l) v (l_xattr_self_heal_needed l) (l_entry_self_heal_needed l) (l_lock l) (l_fd l).
Definition set_xattr_self_heal_needed (v : bool) (l : stripe_local) : stripe_local :=
  mk_local (l_stbuf l) (l_pre_buf l) (l_post_buf l) (l_preparent l) (l_postparent l) (l_replies l) (l_statvfs_buf l) (l_stats l) (l_failed l) (l_unwind l) (l_entry_count l) (l_call_count l) (l_wind_count l) (l_op_ret l) (l_op_errno l) (l_flags l) (l_inode l) (l_loc l) (l_loc2 l) (l_dict l) (l_fctx l) (l_stripe_size l) v (l_entry_self_heal_needed l) (l_lock l) (l_fd l).
Definition set_entry_self_heal_needed (v : bool) (l : stripe_local) : stripe_local :=
  mk_local (l_stbuf l) (l_pre_buf l) (l_post_buf l) (l_preparent l) (l_postparent l) (l_replies l) (l_statvfs_buf l) (l_stats l) (l_failed l) (l_unwind l) (l_entry_count l) (l_call_count l) (l_wind_count l) (l_op_ret l) (l_op_errno l) (l_flags l) (l_inode l) (l_loc l) (l_loc2 l) (l_dict l) (l_fctx l) (l_stripe_size l) (l_xattr_self_heal_needed l) v (l_lock l) (l_fd l).
Definition set_lock (v : Z) (l : stripe_local) : stripe_local :=
  mk_local (l_stbuf l) (l_pre_buf l) (l_post_buf l) (l_preparent l) (l_postparent l) (l_replies l) (l_statvfs_buf l) (l_stats l) (l_failed l) (l_unwind l) (l_entry_count l) (l_call_count l) (l_wind_count l) (l_op_ret l) (l_op_errno l) (l_flags l) (l_inode l) (l_loc l) (l_loc2 l) (l_dict l) (l_fctx l) (l_stripe_size l) (l_xattr_self_heal_needed l) (l_entry_self_heal_needed l) v (l_fd l).
Definition set_fd (v : option fd_t) (l : stripe_local) : stripe_local :=
  mk_local (l_stbuf l) (l_pre_buf l) (l_post_buf l) (l_preparent l) (l_postparent l) (l_replies l) (l_statvfs_buf l) (l_stats l) (l_failed l) (l_unwind l) (l_entry_count l) (l_call_count l) (l_wind_count l) (l_op_ret l) (l_op_errno l) (l_flags l) (l_inode l) (l_loc l) (l_loc2 l) (l_dict l) (l_fctx l) (l_stripe_size l) (l_xattr_self_heal_needed l) (l_entry_self_heal_needed l) (l_lock l) v.

(** ** Effects *)

(** The callback that is to receive an answer. *)
Inductive cbk :=
| CB_common_inode
| CB_unwind
| CB_fsync
| CB_unlink
| CB_truncate
| CB_buf
| CB_inode
| CB_lookup
| CB_sh_make_entry
| CB_sh_chown
| CB_statfs
| CB_setattr
| CB_rename
| CB_first_rename
| CB_first_rmdir
| CB_mknod
| CB_mknod_setxattr
| CB_mknod_unlink
| CB_create
| CB_create_setxattr
| CB_create_unlink
| CB_open
| CB_open_getxattr
| CB_opendir
| CB_lk
| CB_stats
| CB_readv (node_index : Z)
| CB_writev.

#[export] Instance cbk_eq_dec : EqDecision cbk.
Proof. solve_decision. Defined.

(** What a handler does, in order.  [Spawn] starts a frame of its own with its
    local data and winds its calls; [Destroy] ends such a frame. *)
Inductive event :=
| Wind (cb : cbk) (child : xlator) (call : fop)
| Unwind (ret err : Z) (p : payload)
| Spawn (rlocal : stripe_local) (winds : list (cbk * xlator * fop))
| Destroy
| Fd_ctx_set (ctx : stripe_fd_ctx)
| Fctx_free
| Inode_ref | Inode_unref
| Dict_ref | Dict_unref
| Fd_ref | Fd_unref
| Loc_copy | Loc_wipe.
