(* ===== verification/Stripe.v ===== *)
(** * The striping translator: operations on files as a whole

    stripe.c except for the data path: every request that is sent to all
    children, the callbacks that collect their answers, and the configuration.
    A callback returns the new local data and its effects; [None] is a
    dereference of a NULL pointer or an access outside of an array.  [VALIDATE_OR_GOTO]
    is modelled for the members of its arguments; the errno of that path is the
    initial value of [op_errno]. *)

From stdpp Require Import base list numbers strings gmap.
From S2P Require Import Prelude StripeData.

Open Scope Z_scope.

(** ** What callbacks have in common *)

Definition result : Type := option (stripe_local * list event).

(** [FIRST_CHILD (this) == cookie->this] *)
Definition is_first_child (this : stripe_xl) (child : xlator) : bool :=
  match children this with c :: _ => c =? child | [] => false end.

(** [callcnt = --local->call_count] *)
Definition dec_call_count (l : stripe_local) : stripe_local := set_call_count (i32 (l_call_count l - 1)) l.

(** The errno of a failed call; a lost connection fails the whole request. *)
Definition note_error (ret err : Z) (l : stripe_local) : stripe_local :=
  if ret =? -1 then
    let l := set_op_errno err l in
    if err =? ENOTCONN then set_failed true l else l
  else l.

(** A failure of any kind fails the whole request. *)
Definition note_failure (ret err : Z) (l : stripe_local) : stripe_local :=
  if ret =? -1 then set_op_errno err (set_failed true l) else l.

(** One more [struct stat]: that of the first child is copied, the blocks are
    added up, and the size is the largest. *)
Definition collect (first : bool) (st : stat) (c : collected) : collected :=
  mk_collected (if first then st else c_buf c)
    (if c_size c <? st_size st then st_size st else c_size c)
    (i64 (c_blocks c + st_blocks st)).

(** The collected size and blocks are put into the [struct stat]. *)
Definition settle (c : collected) : collected :=
  mk_collected (mk_stat (st_mode (c_buf c)) (c_size c) (c_blocks c) (st_rest (c_buf c)))
    (c_size c) (c_blocks c).

Definition fail_if_failed (l : stripe_local) : stripe_local :=
  if l_failed l then set_op_ret (-1) l else l.

(** [if (local->loc.path) loc_wipe (&local->loc)], and the same for [loc2]. *)
Definition wipe_loc (l : stripe_local) : stripe_local * list event :=
  match l_loc l with Some _ => (set_loc None l, [Loc_wipe]) | None => (l, []) end.

Definition wipe_loc2 (l : stripe_local) : stripe_local * list event :=
  match l_loc2 l with Some _ => (set_loc2 None l, [Loc_wipe]) | None => (l, []) end.

(** [&local->loc] as an argument. *)
Definition local_loc (loc : option loc_t) : loc_t := default (mk_loc None None) loc.

Definition wipe_locs (l : stripe_local) : stripe_local * list event :=
  let '(l, ev) := wipe_loc l in
  let '(l, ev2) := wipe_loc2 l in (l, ev ++ ev2).

(** References are taken and given up unless the pointer is NULL. *)
Definition ref_inode (i : option Z) : list event := if i then [Inode_ref] else [].
Definition ref_dict (d : option Z) : list event := if d then [Dict_ref] else [].
Definition unref_inode (i : option Z) : list event := if i then [Inode_unref] else [].
Definition unref_fd (f : option fd_t) : list event := if f then [Fd_unref] else [].
Definition unref_dict (d : option Z) : list event := if d then [Dict_unref] else [].

(** The loop over [this->children]. *)
Definition wind_all (this : stripe_xl) (cb : cbk) (call : fop) : list event :=
  map (fun c => Wind cb c call) (children this).

(** ** Callbacks *)

Section Callbacks.
Variable this : stripe_xl.
Variable cookie : xlator.
Variables ret err : Z.
Variable p : payload.
Implicit Type l : stripe_local.

Definition stripe_common_inode_cbk l : result := Some (l, [Unwind ret err p]).

Definition stripe_stack_unwind_cbk l : result :=
  let l := note_error ret err (dec_call_count l) in
  let l := if 0 <=? ret then set_op_ret ret l else l in
  if l_call_count l =? 0 then
    let l := fail_if_failed l in
    let '(l, ev) := wipe_locs l in
    Some (l, ev ++ [Unwind (l_op_ret l) (l_op_errno l) P_none])
  else Some (l, []).

(** The answers of [fsync], [truncate] and [setattr] are collected alike; they
    differ in which [op_ret] counts as success. *)
Definition collect_pair (value : Z) l : option stripe_local :=
  match p with
  | P_pair prebuf postbuf =>
      let f := is_first_child this cookie in
      Some (set_post_buf (collect f postbuf (l_post_buf l))
             (set_pre_buf (collect f prebuf (l_pre_buf l)) (set_op_ret value l)))
  | _ => None
  end.

Definition answer_pair l : result :=
  let l := fail_if_failed l in
  let '(l, ev) := wipe_locs l in
  let l := if l_op_ret l =? -1 then l
           else set_post_buf (settle (l_post_buf l)) (set_pre_buf (settle (l_pre_buf l)) l) in
  Some (l, ev ++ [Unwind (l_op_ret l) (l_op_errno l) (P_pair (c_buf (l_pre_buf l)) (c_buf (l_post_buf l)))]).

Definition stripe_fsync_cbk l : result :=
  let l := note_error ret err (dec_call_count l) in
  l ← (if 0 <=? ret then collect_pair ret l else Some l);
  if l_call_count l =? 0 then answer_pair l else Some (l, []).

Definition stripe_truncate_cbk l : result :=
  let l := note_error ret err (dec_call_count l) in
  l ← (if ret =? 0 then collect_pair 0 l else Some l);
  if l_call_count l =? 0 then answer_pair l else Some (l, []).

Definition stripe_setattr_cbk l : result :=
  let l := note_error ret err (dec_call_count l) in
  l ← (if ret =? 0 then collect_pair 0 l else Some l);
  if l_call_count l =? 0 then answer_pair l else Some (l, []).

Definition stripe_stack_unwind_unlink_cbk l : result :=
  let l := note_error ret err (dec_call_count l) in
  l ← (if 0 <=? ret then
         match p with
         | P_pair preparent postparent =>
             let f := is_first_child this cookie in
             Some (set_postparent (collect f postparent (l_postparent l))
                    (set_preparent (collect f preparent (l_preparent l)) (set_op_ret ret l)))
         | _ => None
         end
       else Some l);
  if l_call_count l =? 0 then
    let l := fail_if_failed l in
    let '(l, ev) := wipe_locs l in
    let l := if l_op_ret l =? -1 then l
             else set_postparent (settle (l_postparent l)) (set_preparent (settle (l_preparent l)) l) in
    Some (l, ev ++ [Unwind (l_op_ret l) (l_op_errno l)
                      (P_pair (c_buf (l_preparent l)) (c_buf (l_postparent l)))])
  else Some (l, []).

Definition stripe_stack_unwind_buf_cbk l : result :=
  let l := note_error ret err (dec_call_count l) in
  l ← (if ret =? 0 then
         match p with
         | P_buf buf => Some (set_stbuf (collect (is_first_child this cookie) buf (l_stbuf l)) (set_op_ret 0 l))
         | _ => None
         end
       else Some l);
  if l_call_count l =? 0 then
    let l := fail_if_failed l in
    let '(l, ev) := wipe_locs l in
    let l := if l_op_ret l =? -1 then l else set_stbuf (settle (l_stbuf l)) l in
    Some (l, ev ++ [Unwind (l_op_ret l) (l_op_errno l) (P_buf (c_buf (l_stbuf l)))])
  else Some (l, []).

(** The three [struct stat] of an answer that concerns a new entry. *)
Definition collect_entry (buf pre post : stat) l : stripe_local :=
  let f := is_first_child this cookie in
  set_postparent (collect f post (l_postparent l))
    (set_preparent (collect f pre (l_preparent l)) (set_stbuf (collect f buf (l_stbuf l)) l)).

Definition settle_entry l : stripe_local :=
  if l_op_ret l =? -1 then l
  else set_stbuf (settle (l_stbuf l))
         (set_postparent (settle (l_postparent l)) (set_preparent (settle (l_preparent l)) l)).

Definition entry_payload l : payload :=
  P_inode (l_inode l) (c_buf (l_stbuf l)) (c_buf (l_preparent l)) (c_buf (l_postparent l)).

Definition stripe_stack_unwind_inode_cbk l : result :=
  let l := note_error ret err (dec_call_count l) in
  '(l, ev) ← (if 0 <=? ret then
         match p with
         | P_inode inode buf pre post =>
             let l := set_op_ret 0 l in
             let '(l, ev) := if is_first_child this cookie then (set_inode inode l, ref_inode inode) else (l, []) in
             Some (collect_entry buf pre post l, ev)
         | _ => None
         end
       else Some (l, []));
  if l_call_count l =? 0 then
    let l := settle_entry (fail_if_failed l) in
    Some (l, ev ++ Unwind (l_op_ret l) (l_op_errno l) (entry_payload l) :: unref_inode (l_inode l))
  else Some (l, ev).

(** The frame of a self-heal: a failed entry is made on every child, and given
    its owner. *)
Definition stripe_sh_chown_cbk l : result :=
  let l := dec_call_count l in
  if l_call_count l =? 0 then Some (set_loc None l, [Loc_wipe; Destroy]) else Some (l, []).

Definition GF_SET_ATTR_UID : Z := 2.
Definition GF_SET_ATTR_GID : Z := 4.

Definition stripe_sh_make_entry_cbk l : result :=
  let loc := local_loc (l_loc l) in
  Some (l, [Wind CB_sh_chown cookie (F_setattr loc (c_buf (l_stbuf l)) (Z.lor GF_SET_ATTR_UID GF_SET_ATTR_GID))]).

(** [alloc]: the frame and its local data could be allocated. *)
Definition stripe_entry_self_heal (alloc : bool) l : list event :=
  let mode := st_mode (c_buf (l_stbuf l)) in
  if negb (S_ISREG mode || S_ISDIR mode) then []
  else if negb alloc then []
  else
    let loc := local_loc (l_loc l) in
    let rlocal := set_stbuf (mk_collected (c_buf (l_stbuf l)) 0 0)
                    (set_loc (Some loc) (set_call_count (child_count (private this)) local0)) in
    let winds := map (fun c => (CB_sh_make_entry, c,
                   if S_ISREG mode then F_mknod loc mode 0 else F_mkdir loc mode)) (children this) in
    [Loc_copy; Spawn rlocal winds].

Definition stripe_lookup_cbk (alloc : bool) l : result :=
  let l := dec_call_count l in
  let l := if ret =? -1 then
             let l := if l_op_errno l =? ESTALE then l else set_op_errno err l in
             let l := if (err =? ENOTCONN) || (err =? ESTALE) then set_failed true l else l in
             if err =? ENOENT then set_entry_self_heal_needed true l else l
           else l in
  '(l, ev) ← (if 0 <=? ret then
         match p with
         | P_lookup inode buf dict postparent =>
             let l := set_op_ret 0 l in
             let f := is_first_child this cookie in
             let '(l, ev) := if f then (set_dict dict (set_inode inode l), ref_inode inode ++ ref_dict dict) else (l, []) in
             Some (set_postparent (collect f postparent (l_postparent l))
                    (set_stbuf (collect f buf (l_stbuf l)) l), ev)
         | _ => None
         end
       else Some (l, []));
  if l_call_count l =? 0 then
    let heal := if (l_op_ret l =? 0) && l_entry_self_heal_needed l then stripe_entry_self_heal alloc l else [] in
    let l := fail_if_failed l in
    let l := if l_op_ret l =? -1 then l
             else set_postparent (settle (l_postparent l)) (set_stbuf (settle (l_stbuf l)) l) in
    let l := set_loc None l in
    Some (l, ev ++ heal ++ Loc_wipe ::
      Unwind (l_op_ret l) (l_op_errno l)
        (P_lookup (l_inode l) (c_buf (l_stbuf l)) (l_dict l) (c_buf (l_postparent l)))
      :: unref_inode (l_inode l) ++ unref_dict (l_dict l))
  else Some (l, ev).

Definition add_statvfs (s b : statvfs) : statvfs :=
  mk_statvfs (f_bsize b) (f_frsize b) (u64 (f_blocks s + f_blocks b)) (u64 (f_bfree s + f_bfree b))
    (u64 (f_bavail s + f_bavail b)) (u64 (f_files s + f_files b)) (u64 (f_ffree s + f_ffree b))
    (u64 (f_favail s + f_favail b)) (f_fsid b) (f_flag b) (f_namemax b).

Definition stripe_statfs_cbk l : result :=
  let l := dec_call_count l in
  let l := if negb (ret =? 0) && negb (err =? ENOTCONN) then set_op_errno err l else l in
  l ← (if ret =? 0 then
         match p with
         | P_statvfs buf => Some (set_op_ret 0 (set_statvfs_buf (add_statvfs (l_statvfs_buf l) buf) l))
         | _ => None
         end
       else Some l);
  if l_call_count l =? 0 then
    Some (l, [Unwind (l_op_ret l) (l_op_errno l) (P_statvfs (l_statvfs_buf l))])
  else Some (l, []).

(** The further answers of a rename are added to those of the first child. *)
Definition merge_stat (st : stat) (c : collected) : collected :=
  let b := c_buf c in
  mk_collected (mk_stat (st_mode b) (if st_size b <? st_size st then st_size st else st_size b)
                  (i64 (st_blocks b + st_blocks st)) (st_rest b))
    (c_size c) (c_blocks c).

Definition rename_payload l : payload :=
  P_rename (c_buf (l_stbuf l)) (c_buf (l_preparent l)) (c_buf (l_postparent l))
    (c_buf (l_pre_buf l)) (c_buf (l_post_buf l)).

Definition stripe_stack_rename_cbk l : result :=
  let l := note_error ret err (dec_call_count l) in
  l ← (if ret =? 0 then
         match p with
         | P_rename buf preold postold prenew postnew =>
             let l := set_op_ret 0 l in
             let l := set_stbuf (merge_stat buf (l_stbuf l)) l in
             let l := set_preparent (merge_stat preold (l_preparent l)) l in
             let l := set_postparent (merge_stat postold (l_postparent l)) l in
             let l := set_pre_buf (merge_stat prenew (l_pre_buf l)) l in
             Some (set_post_buf (merge_stat postnew (l_post_buf l)) l)
         | _ => None
         end
       else Some l);
  if l_call_count l =? 0 then
    let l := fail_if_failed l in
    let '(l, ev) := wipe_locs l in
    Some (l, ev ++ [Unwind (l_op_ret l) (l_op_errno l) (rename_payload l)])
  else Some (l, []).

(** [local->stbuf = *buf], which leaves the collected size and blocks. *)
Definition copy_stat (st : stat) (c : collected) : collected := mk_collected st (c_size c) (c_blocks c).

Definition wind_rest (cb : cbk) (call : fop) : list event :=
  map (fun c => Wind cb c call) (tail (children this)).

Definition stripe_first_rename_cbk l : result :=
  if ret =? -1 then
    let '(l, ev) := wipe_locs l in Some (l, ev ++ [Unwind ret err p])
  else
    match p with
    | P_rename buf preold postold prenew postnew =>
        let l := set_stbuf (copy_stat buf (l_stbuf l)) l in
        let l := set_preparent (copy_stat preold (l_preparent l)) l in
        let l := set_postparent (copy_stat postold (l_postparent l)) l in
        let l := set_pre_buf (copy_stat prenew (l_pre_buf l)) l in
        let l := set_post_buf (copy_stat postnew (l_post_buf l)) l in
        let l := dec_call_count (set_op_ret 0 l) in
        let loc := local_loc (l_loc l) in
        let loc2 := local_loc (l_loc2 l) in
        Some (l, wind_rest CB_rename (F_rename loc loc2))
    | _ => None
    end.

Definition stripe_first_rmdir_cbk l : result :=
  if ret =? -1 then Some (l, [Unwind ret err P_null])
  else
    match p with
    | P_pair preparent postparent =>
        let l := dec_call_count l in
        let c_pre := l_preparent l in
        let c_post := l_postparent l in
        let l := set_preparent (mk_collected preparent (st_size preparent)
                   (i64 (c_blocks c_pre + st_blocks preparent))) l in
        let l := set_postparent (mk_collected postparent (st_size postparent)
                   (i64 (c_blocks c_post + st_blocks postparent))) l in
        let loc := local_loc (l_loc l) in
        Some (l, wind_rest CB_unlink (F_rmdir loc))
    | _ => None
    end.

(** *** mknod and create *)

(** The keys; the buffers of 256 bytes are long enough for them. *)
Definition size_key : string := "trusted." +:+ xl_name this +:+ ".stripe-size".
Definition count_key : string := "trusted." +:+ xl_name this +:+ ".stripe-count".
Definition index_key : string := "trusted." +:+ xl_name this +:+ ".stripe-index".

(** The xattrs of the [i]-th child.  There is memory for the dictionary, and the
    results of the calls are not looked at. *)
Definition stripe_dict (size : Z) (i : Z) : xattr_dict :=
  dict_set_int32 (dict_set_int32 (dict_set_int64 ∅ size_key size) count_key (child_count (private this))) index_key i.

Definition stripe_mknod_ifreg_fail_unlink_cbk l : result :=
  let l := dec_call_count l in
  if l_call_count l =? 0 then
    let l := set_loc None l in
    Some (l, [Loc_wipe; Unwind (l_op_ret l) (l_op_errno l) (entry_payload l)])
  else Some (l, []).

(** [trav] is NULL here: the loop that should undo the mknod does nothing. *)
Definition stripe_mknod_ifreg_setxattr_cbk l : result :=
  let l := dec_call_count l in
  let l := if ret =? -1 then set_op_errno err (set_op_ret (-1) l) else l in
  if l_call_count l =? 0 then
    if l_op_ret l =? -1 then
      let trav := @nil xlator in
      let loc := local_loc (l_loc l) in
      Some (set_call_count (child_count (private this)) l,
            map (fun c => Wind CB_mknod_unlink c (F_unlink loc)) trav)
    else
      let l := set_loc None l in
      Some (l, [Loc_wipe; Unwind (l_op_ret l) (l_op_errno l) (entry_payload l)])
  else Some (l, []).

Definition stripe_mknod_ifreg_cbk l : result :=
  let l := note_failure ret err (dec_call_count l) in
  l ← (if 0 <=? ret then
         match p with
         | P_inode _ buf pre post => Some (collect_entry buf pre post (set_op_ret ret l))
         | _ => None
         end
       else Some l);
  if l_call_count l =? 0 then
    let l := settle_entry (fail_if_failed l) in
    if negb (l_op_ret l =? -1) && xattr_supported (private this) then
      let loc := local_loc (l_loc l) in
      Some (set_call_count (child_count (private this)) l,
            imap (fun i c => Wind CB_mknod_setxattr c
                    (F_setxattr loc (stripe_dict (l_stripe_size l) (Z.of_nat i)) 0)) (children this))
    else
      let l := set_loc None l in
      Some (l, [Loc_wipe; Unwind (l_op_ret l) (l_op_errno l) (entry_payload l)])
  else Some (l, []).

Definition create_payload l : payload :=
  P_create (l_fd l) (l_inode l) (c_buf (l_stbuf l)) (c_buf (l_preparent l)) (c_buf (l_postparent l)).

Definition answer_create l : stripe_local * list event :=
  let l := set_loc None l in
  (l, Loc_wipe :: Unwind (l_op_ret l) (l_op_errno l) (create_payload l)
        :: unref_inode (l_inode l) ++ unref_fd (l_fd l)).

Definition stripe_create_fail_unlink_cbk l : result :=
  let l := dec_call_count l in
  if l_call_count l =? 0 then Some (answer_create l) else Some (l, []).

Definition stripe_create_setxattr_cbk l : result :=
  let l := dec_call_count l in
  let l := if ret =? -1 then set_op_errno err (set_op_ret (-1) l) else l in
  if l_call_count l =? 0 then
    if l_op_ret l =? -1 then
      let loc := local_loc (l_loc l) in
      Some (set_call_count (child_count (private this)) l, wind_all this CB_create_unlink (F_unlink loc))
    else Some (answer_create l)
  else Some (l, []).

(** The loop [for (i = 0; i < priv->child_count; i++)] over [xl_array]. *)
Definition wind_setxattrs (loc : loc_t) (size : Z) : list event :=
  imap (fun i c => Wind CB_create_setxattr c (F_setxattr loc (stripe_dict size (Z.of_nat i)) 0))
    (take (Z.to_nat (child_count (private this))) (xl_array (private this))).

Definition stripe_create_cbk (alloc : bool) l : result :=
  let priv := private this in
  let l := note_failure ret err (dec_call_count l) in
  l ← (if 0 <=? ret then
         match p with
         | P_create _ _ buf pre post => Some (collect_entry buf pre post (set_op_ret ret l))
         | _ => None
         end
       else Some l);
  if l_call_count l =? 0 then
    let l := settle_entry (fail_if_failed l) in
    let ev := if (0 <=? l_op_ret l) && alloc then
                [Fd_ctx_set (mk_fctx (l_stripe_size l) (child_count priv) true (Some (map Some (xl_array priv))))]
              else [] in
    if negb (l_op_ret l =? -1) && negb (l_stripe_size l =? 0) && xattr_supported priv then
      let loc := local_loc (l_loc l) in
      Some (set_call_count (child_count priv) l, ev ++ wind_setxattrs loc (l_stripe_size l))
    else
      let '(l, ev') := answer_create l in Some (l, ev ++ ev')
  else Some (l, []).

(** *** open *)

Definition stripe_open_cbk l : result :=
  let l := note_failure ret err (dec_call_count l) in
  let l := if 0 <=? ret then set_op_ret ret l else l in
  if l_call_count l =? 0 then
    let l := fail_if_failed l in
    ev ← (if l_op_ret l =? -1 then Some (if l_fctx l then [Fctx_free] else [])
          else ctx ← l_fctx l; Some [Fd_ctx_set ctx]);
    let l := set_loc None l in
    Some (l, ev ++ Loc_wipe :: Unwind (l_op_ret l) (l_op_errno l) (P_fd (l_fd l)) :: unref_fd (l_fd l))
  else Some (l, []).

(** The part of [stripe_open_getxattr_cbk] under the lock, for an answer without an
    error.  [allocs]: whether the context and its array could be allocated. *)
Definition io_error l : stripe_local := set_op_errno EIO (set_op_ret (-1) l).

Definition getxattr_size (d : xattr_dict) (ctx : stripe_fd_ctx) (heal : bool) : stripe_fd_ctx * bool :=
  match d !! size_key with
  | None => (ctx, true)
  | Some data =>
      let ctx := if fctx_stripe_size ctx =? 0 then
                   mk_fctx (data_to_int64 data) (fctx_stripe_count ctx) (fctx_static_array ctx) (fctx_xl_array ctx)
                 else ctx in
      (ctx, heal || negb (fctx_stripe_size ctx =? data_to_int64 data))
  end.

(** The array, made by the first answer with a count; [None]: the count is zero. *)
Definition getxattr_array (alloc : bool) (count : Z) (ctx : stripe_fd_ctx) : option stripe_fd_ctx :=
  match fctx_xl_array ctx with
  | Some _ => Some ctx
  | None =>
      if count =? 0 then None
      else Some (mk_fctx (fctx_stripe_size ctx) count (fctx_static_array ctx)
                   (if alloc && (0 <? count) then Some (replicate (Z.to_nat count) None) else None))
  end.

(** [fctx->xl_array[index] = prev->this], if there is an array. *)
Definition getxattr_store (index : Z) (ctx : stripe_fd_ctx) : option stripe_fd_ctx :=
  match fctx_xl_array ctx with
  | None => Some ctx
  | Some a =>
      if (0 <=? index) && (index <? Z.of_nat (length a)) then
        Some (mk_fctx (fctx_stripe_size ctx) (fctx_stripe_count ctx) (fctx_static_array ctx)
                (Some (<[Z.to_nat index := Some cookie]> a)))
      else None
  end.

Definition getxattr_index (d : xattr_dict) (ctx : stripe_fd_ctx) l : option stripe_local :=
  match d !! index_key with
  | None => Some (set_xattr_self_heal_needed true l)
  | Some data =>
      let index := data_to_int32 data in
      if child_count (private this) <? index then Some (io_error l)
      else
        ctx ← getxattr_store index ctx;
        Some (set_op_ret 0 (set_entry_count (i32 (l_entry_count l + 1)) (set_fctx (Some ctx) l)))
  end.

Definition getxattr_count (alloc : bool) (d : xattr_dict) (ctx : stripe_fd_ctx) l : option stripe_local :=
  match d !! count_key with
  | None => Some (set_xattr_self_heal_needed true l)
  | Some data =>
      match getxattr_array alloc (data_to_int32 data) ctx with
      | None =>
          Some (io_error (set_fctx (Some (mk_fctx (fctx_stripe_size ctx) 0 (fctx_static_array ctx) None)) l))
      | Some ctx =>
          let l := set_fctx (Some ctx) l in
          if negb (fctx_stripe_count ctx =? data_to_int32 data) then Some (io_error l)
          else getxattr_index d ctx l
      end
  end.

Definition getxattr_reply (allocs : bool * bool) (d : xattr_dict) l : option stripe_local :=
  match (if l_fctx l then l_fctx l else if fst allocs then Some fctx0 else None) with
  | None => Some (set_op_ret (-1) (set_op_errno ENOMEM l))
  | Some ctx =>
      let '(ctx, heal) := getxattr_size d ctx (l_xattr_self_heal_needed l) in
      getxattr_count (snd allocs) d ctx (set_xattr_self_heal_needed heal (set_fctx (Some ctx) l))
  end.

(** The [err:] part. *)
Definition fail_open l : result :=
  let l := set_loc None l in
  Some (l, Loc_wipe :: Unwind (l_op_ret l) (l_op_errno l) (P_fd (l_fd l)) :: unref_fd (l_fd l)).

Definition stripe_open_getxattr_cbk (allocs : bool * bool) l : result :=
  let l := dec_call_count l in
  l ← (if ret =? -1 then
         let l := set_op_ret (-1) l in
         let l := if l_op_errno l =? EIO then l else set_op_errno err l in
         Some (if err =? ENOTCONN then set_failed true l else l)
       else match p with P_xattr d => getxattr_reply allocs d l | _ => None end);
  if l_call_count l =? 0 then
    if negb (l_op_ret l =? 0) then fail_open l
    else
      ctx ← l_fctx l;
      if negb (l_entry_count l =? fctx_stripe_count ctx) then fail_open (io_error l)
      else if fctx_stripe_size ctx =? 0 then fail_open (io_error l)
      else
        let loc := local_loc (l_loc l) in fd ← l_fd l;
        Some (set_call_count (fctx_stripe_count ctx) l, wind_all this CB_open (F_open loc (l_flags l) fd 0))
  else Some (l, []).

(** *** The others *)

Definition stripe_opendir_cbk l : result :=
  let l := dec_call_count l in
  let l := if ret =? -1 then set_op_errno err (set_op_ret (-1) l) else l in
  let l := if 0 <=? ret then set_op_ret ret l else l in
  if l_call_count l =? 0 then
    Some (l, Unwind (l_op_ret l) (l_op_errno l) (P_fd (l_fd l)) :: unref_fd (l_fd l))
  else Some (l, []).

Definition stripe_lk_cbk l : result :=
  let l := note_error ret err (dec_call_count l) in
  l ← (if (0 <=? ret) && is_first_child this cookie then
         match p with
         | P_lock lock => Some (set_lock lock (set_op_ret ret l))
         | _ => None
         end
       else Some l);
  if l_call_count l =? 0 then
    let l := fail_if_failed l in
    Some (l, [Unwind (l_op_ret l) (l_op_errno l) (P_lock (l_lock l))])
  else Some (l, []).

Definition add_stats (s b : xlator_stats) : xlator_stats :=
  mk_stats (u64 (nr_files s + nr_files b)) (u64 (free_disk s + free_disk b))
    (u64 (disk_usage s + disk_usage b)) (u64 (nr_clients s + nr_clients b)) (stats_rest s).

Definition stripe_stats_cbk l : result :=
  let l := dec_call_count l in
  let l := if ret =? -1 then set_op_errno err (set_op_ret (-1) l) else l in
  l ← (if ret =? 0 then
         match p with
         | P_stats s =>
             Some (if l_op_ret l =? -2 then set_op_ret 0 (set_stats s l)
                   else set_stats (add_stats (l_stats l) s) l)
         | _ => None
         end
       else Some l);
  if l_call_count l =? 0 then
    Some (l, [Unwind (l_op_ret l) (l_op_errno l) (P_stats (l_stats l))])
  else Some (l, []).

End Callbacks.

(** ** Requests

    A request returns the local data of its frame and the effects.  Where it
    fails before a frame has local data, these are [local0].  [alloc]: the local
    data could be allocated. *)

Definition started : Type := stripe_local * list event.

Definition fail_request (err : Z) : started := (local0, [Unwind (-1) err P_null]).

(** [VALIDATE_OR_GOTO] of a path and an inode, or of the inode of an fd. *)
Definition bad_loc (loc : loc_t) : bool :=
  match loc_path loc, loc_inode loc with Some _, Some _ => false | _, _ => true end.

Definition bad_fd (fd : fd_t) : bool :=
  match fd_inode fd with Some _ => false | None => true end.

(** [loc_copy]: [local->loc.path] is set when the path of the source is. *)
Definition loc_copy (loc : loc_t) : option loc_t := if loc_path loc then Some loc else None.

Section Requests.
Variable this : stripe_xl.
Variable alloc : bool.

(** [op_ret = -1] and [call_count = priv->child_count]. *)
Definition new_local : stripe_local := set_call_count (child_count (private this)) (set_op_ret (-1) local0).

Definition stripe_lookup (loc : loc_t) (xattr_req : Z) : started :=
  if bad_loc loc then fail_request 1
  else if negb alloc then fail_request ENOMEM
  else (set_loc (loc_copy loc) new_local, Loc_copy :: wind_all this CB_lookup (F_lookup loc xattr_req)).

Definition stripe_stat (loc : loc_t) : started :=
  if bad_loc loc then fail_request 1
  else if first_child_down (private this) then fail_request ENOTCONN
  else if negb alloc then fail_request ENOMEM
  else (new_local, wind_all this CB_buf (F_stat loc)).

Definition stripe_statfs (loc : loc_t) : started :=
  if negb alloc then fail_request ENOMEM
  else (set_op_errno ENOTCONN new_local, wind_all this CB_statfs (F_statfs loc)).

Definition stripe_truncate (loc : loc_t) (offset : Z) : started :=
  if bad_loc loc then fail_request 1
  else if first_child_down (private this) then fail_request ENOTCONN
  else if negb alloc then fail_request ENOMEM
  else (new_local, wind_all this CB_truncate (F_truncate loc offset)).

Definition stripe_setattr (loc : loc_t) (stbuf : stat) (valid : Z) : started :=
  if bad_loc loc then fail_request 1
  else if first_child_down (private this) then fail_request ENOTCONN
  else if negb alloc then fail_request ENOMEM
  else (new_local, wind_all this CB_setattr (F_setattr loc stbuf valid)).

Definition stripe_fsetattr (fd : fd_t) (stbuf : stat) (valid : Z) : started :=
  if bad_fd fd then fail_request 1
  else if negb alloc then fail_request ENOMEM
  else (new_local, wind_all this CB_setattr (F_fsetattr fd stbuf valid)).

(** A call to [trav->xlator], the first child, alone. *)
Definition wind_first (cb : cbk) (call : fop) : list event :=
  match children this with c :: _ => [Wind cb c call] | [] => [] end.

Definition stripe_rename (oldloc newloc : loc_t) : started :=
  if bad_loc oldloc then fail_request 1
  else if negb (nodes_down (private this) =? 0) then fail_request ENOTCONN
  else if negb alloc then fail_request ENOMEM
  else (set_loc2 (loc_copy newloc) (set_loc (loc_copy oldloc) new_local),
        Loc_copy :: Loc_copy :: wind_first CB_first_rename (F_rename oldloc newloc)).

Definition stripe_unlink (loc : loc_t) : started :=
  if bad_loc loc then fail_request 1
  else if first_child_down (private this) then fail_request ENOTCONN
  else if negb (nodes_down (private this) =? 0) then fail_request ENOTCONN
  else if negb alloc then fail_request ENOMEM
  else (new_local, wind_all this CB_unlink (F_unlink loc)).

Definition stripe_rmdir (loc : loc_t) : started :=
  if bad_loc loc then fail_request 1
  else if negb (nodes_down (private this) =? 0) then fail_request ENOTCONN
  else if negb alloc then fail_request ENOMEM
  else (set_loc (loc_copy loc) new_local, Loc_copy :: wind_first CB_first_rmdir (F_rmdir loc)).

(** [fnmatch (pattern, path, FNM_NOESCAPE) == 0] of the C library. *)
Variable fnmatch : string -> string -> bool.

Fixpoint matching_option (path : string) (opts : list stripe_options) (bs : Z) : Z :=
  match opts with
  | [] => bs
  | o :: opts => if fnmatch (path_pattern o) path then opt_block_size o else matching_option path opts bs
  end.

(** The block size is 64 bits wide, the result of the function 32. *)
Definition stripe_get_matching_bs (path : string) (opts : list stripe_options) (default_bs : Z) : Z :=
  i32 (matching_option path opts default_bs).

Definition matching_bs (loc : loc_t) : Z :=
  stripe_get_matching_bs (default ""%string (loc_path loc)) (pattern (private this)) (block_size (private this)).

Definition stripe_mknod (loc : loc_t) (mode rdev : Z) : started :=
  if bad_loc loc then fail_request 1
  else if first_child_down (private this) then fail_request ENOTCONN
  else if S_ISREG mode then
    if negb (nodes_down (private this) =? 0) then fail_request EIO
    else if negb alloc then fail_request ENOMEM
    else
      (set_loc (loc_copy loc) (set_inode (loc_inode loc)
         (set_stripe_size (matching_bs loc) (set_op_errno ENOTCONN new_local))),
       Loc_copy :: wind_all this CB_mknod (F_mknod loc mode rdev))
  else (local0, wind_first CB_common_inode (F_mknod loc mode rdev)).

Definition stripe_mkdir (loc : loc_t) (mode : Z) : started :=
  if bad_loc loc then fail_request 1
  else if first_child_down (private this) then fail_request ENOTCONN
  else if negb alloc then fail_request ENOMEM
  else (new_local, wind_all this CB_inode (F_mkdir loc mode)).

Definition stripe_link (oldloc newloc : loc_t) : started :=
  if bad_loc oldloc then fail_request 1
  else if negb (nodes_down (private this) =? 0) then fail_request ENOTCONN
  else if negb alloc then fail_request ENOMEM
  else (new_local, wind_all this CB_inode (F_link oldloc newloc)).

Definition O_APPEND : Z := 1024.
Definition no_append (flags : Z) : Z := Z.land flags (Z.lnot O_APPEND).

Definition stripe_create (loc : loc_t) (flags mode : Z) (fd : fd_t) : started :=
  let priv := private this in
  if first_child_down priv || negb (nodes_down priv =? 0) then fail_request EIO
  else if negb alloc then fail_request ENOMEM
  else
    (set_fd (Some fd) (set_loc (loc_copy loc) (set_inode (loc_inode loc)
       (set_stripe_size (matching_bs loc) (set_op_errno ENOTCONN new_local)))),
     ref_inode (loc_inode loc) ++ Loc_copy :: Fd_ref
       :: wind_all this CB_create (F_create loc (no_append flags) mode fd)).

(** [alloc_ctx]: the context could be allocated.  Its failure leaves the frame with
    its local data, and the reference and the copy in it are lost. *)
Definition stripe_open (alloc_ctx : bool) (loc : loc_t) (flags : Z) (fd : fd_t) (wbflags : Z) : started :=
  let priv := private this in
  if bad_loc loc then fail_request 1
  else if first_child_down priv then fail_request ENOTCONN
  else if negb alloc then fail_request ENOMEM
  else
    let l := set_stripe_size (matching_bs loc) (set_call_count (child_count priv)
               (set_flags (no_append flags) (set_loc (loc_copy loc) (set_fd (Some fd) local0)))) in
    if xattr_supported priv then
      (l, Fd_ref :: Loc_copy :: wind_all this CB_open_getxattr (F_getxattr loc))
    else if negb alloc_ctx then (l, [Fd_ref; Loc_copy; Unwind (-1) ENOMEM P_null])
    else
      (set_fctx (Some (mk_fctx (l_stripe_size l) (child_count priv) true (Some (map Some (xl_array priv))))) l,
       Fd_ref :: Loc_copy :: wind_all this CB_open (F_open loc (no_append flags) fd wbflags)).

Definition stripe_opendir (loc : loc_t) (fd : fd_t) : started :=
  if bad_loc loc then fail_request 1
  else if first_child_down (private this) then fail_request ENOTCONN
  else if negb alloc then fail_request ENOMEM
  else (set_fd (Some fd) (set_call_count (child_count (private this)) local0),
        Fd_ref :: wind_all this CB_opendir (F_opendir loc fd)).

Definition stripe_lk (fd : fd_t) (cmd lock : Z) : started :=
  if bad_fd fd then fail_request 1
  else if negb alloc then fail_request ENOMEM
  else (new_local, wind_all this CB_lk (F_lk fd cmd lock)).

Definition stripe_setdents (fd : fd_t) (flags entries count : Z) : started :=
  if bad_fd fd then fail_request 1
  else if negb alloc then fail_request ENOMEM
  else (new_local, wind_all this CB_unwind (F_setdents fd flags entries count)).

Definition stripe_flush (fd : fd_t) : started :=
  if bad_fd fd then fail_request 1
  else if first_child_down (private this) then fail_request ENOTCONN
  else if negb alloc then fail_request ENOMEM
  else (new_local, wind_all this CB_unwind (F_flush fd)).

Definition stripe_fsync (fd : fd_t) (flags : Z) : started :=
  if bad_fd fd then fail_request 1
  else if negb alloc then fail_request ENOMEM
  else (new_local, wind_all this CB_fsync (F_fsync fd flags)).

Definition stripe_fstat (fd : fd_t) : started :=
  if bad_fd fd then fail_request 1
  else if negb alloc then fail_request ENOMEM
  else (new_local, wind_all this CB_buf (F_fstat fd)).

Definition stripe_ftruncate (fd : fd_t) (offset : Z) : started :=
  if bad_fd fd then fail_request 1
  else if negb alloc then fail_request ENOMEM
  else (new_local, wind_all this CB_truncate (F_ftruncate fd offset)).

Definition stripe_fsyncdir (fd : fd_t) (flags : Z) : started :=
  if bad_fd fd then fail_request 1
  else if negb alloc then fail_request ENOMEM
  else (new_local, wind_all this CB_unwind (F_fsyncdir fd flags)).

Definition stripe_stats (flags : Z) : started :=
  if negb alloc then fail_request ENOMEM
  else (set_op_ret (-2) new_local, wind_all this CB_stats (F_stats flags)).

(** [stripe_release]: the context of an fd is taken from it, if it has one, and freed, with
    its array unless that is the array of the translator. *)
Definition stripe_release (ctx : option stripe_fd_ctx) : option stripe_fd_ctx * list event :=
  match ctx with None => (None, []) | Some _ => (None, [Fctx_free]) end.

End Requests.
