(* ===== verification/StripeConf.v ===== *)
(** * The striping translator: configuration

    The options of a volume, their parsing (with [gf_string2bytesize] and
    [gf_string2boolean] of common-utils.c), and the state of the children that
    notifications keep.  A C string is the list of its characters. *)

From Stdlib Require Import Ascii String.
From stdpp Require Import base list numbers strings.
From S2P Require Import Prelude StripeData.

Open Scope Z_scope.

(** ** Strings of the C library *)

Definition chars (s : string) : list ascii := list_ascii_of_string s.

(** The successive results of [strtok_r (s, d, ...)]: the parts between
    delimiters that are not empty.  [cur] is the part read so far, reversed. *)
Fixpoint strtok (d : ascii) (s cur : list ascii) : list (list ascii) :=
  match s with
  | [] => if cur then [] else [reverse cur]
  | c :: s =>
      if decide (c = d) then (if cur then [] else [reverse cur]) ++ strtok d s []
      else strtok d s (c :: cur)
  end.

Definition code (c : ascii) : Z := Z.of_nat (nat_of_ascii c).

Definition isspace (c : ascii) : bool := (code c =? 32) || ((9 <=? code c) && (code c <=? 13)).
Definition isdigit (c : ascii) : bool := (48 <=? code c) && (code c <=? 57).

Definition tolower (c : ascii) : ascii :=
  if (65 <=? code c) && (code c <=? 90) then ascii_of_nat (nat_of_ascii c + 32) else c.

(** [strcasecmp (a, b) == 0] *)
Definition strcasecmp (a : list ascii) (b : string) : bool :=
  bool_decide (map tolower a = map tolower (chars b)).

Fixpoint skip_space (s : list ascii) : list ascii :=
  match s with c :: s' => if isspace c then skip_space s' else s | [] => [] end.

(** The digits at the front: their value, and what follows them. *)
Fixpoint digits (v : Z) (s : list ascii) : Z * list ascii :=
  match s with
  | c :: s' => if isdigit c then digits (10 * v + (code c - 48)) s' else (v, s)
  | [] => (v, [])
  end.

(** [strtoull (s, &tail, 10)] of a string without a minus sign: [None] for a
    value out of range, and the whole string as the tail when there is no digit. *)
Definition strtoull (s : list ascii) : option (Z * list ascii) :=
  let t := skip_space s in
  let t := match t with c :: t' => if decide (c = "+"%char) then t' else t | [] => [] end in
  match t with
  | c :: _ => if isdigit c then
                let '(v, tail) := digits 0 t in
                if v <? 2 ^ 64 then Some (v, tail) else None
              else Some (0, s)
  | [] => Some (0, s)
  end.

(** ** common-utils.c *)

Definition GF_UNIT_KB : Z := 1024.
Definition GF_UNIT_MB : Z := 1048576.
Definition GF_UNIT_GB : Z := 1073741824.
Definition GF_UNIT_TB : Z := 1099511627776.
Definition GF_UNIT_PB : Z := 1125899906842624.

Definition byte_unit (tail : list ascii) : option Z :=
  if strcasecmp tail "KB" then Some GF_UNIT_KB
  else if strcasecmp tail "MB" then Some GF_UNIT_MB
  else if strcasecmp tail "GB" then Some GF_UNIT_GB
  else if strcasecmp tail "TB" then Some GF_UNIT_TB
  else if strcasecmp tail "PB" then Some GF_UNIT_PB
  else None.

(** [None]: the function returns -1. *)
Definition gf_string2bytesize (str : list ascii) : option Z :=
  match skip_space str with
  | "-"%char :: _ => None
  | _ =>
      '(value, tail) ← strtoull str;
      match tail with
      | [] => Some value
      | _ => unit ← byte_unit tail; Some (u64 (value * unit))
      end
  end.

Definition gf_string2boolean (str : list ascii) : option bool :=
  if existsb (strcasecmp str) ["1"; "on"; "yes"; "true"; "enable"]%string then Some true
  else if existsb (strcasecmp str) ["0"; "off"; "no"; "false"; "disable"]%string then Some false
  else None.

(** ** stripe.c *)

(** The outcome of a function that reports an error by -1. *)
Inductive outcome (A : Type) := Done (a : A) | Failed (a : A) | Fault.
Arguments Done {A} a.
Arguments Failed {A} a.
Arguments Fault {A}.

(** One entry of the option.  The pattern is copied into an array of 256
    characters, of which the last must stay zero. *)
Definition parse_option (str : list ascii) : outcome (option stripe_options) :=
  let '(pattern, num) :=
    match strtok ":" str [] with
    | p :: n :: _ => (p, Some n)
    | [p] => (chars "*", Some p)
    | [] => (chars "*", None)
    end in
  match num with
  | None => Failed None
  | Some num =>
      match gf_string2bytesize num with
      | None => Failed None
      | Some size =>
          if (length pattern <? 256)%nat then Done (Some (mk_options (string_of_list_ascii pattern) size))
          else Fault
      end
  end.

Fixpoint parse_options (toks : list (list ascii)) (opts : list stripe_options) : outcome (list stripe_options) :=
  match toks with
  | [] => Done opts
  | t :: toks =>
      match parse_option t with
      | Done (Some o) => parse_options toks (opts ++ [o])
      | Done None | Failed _ => Failed opts
      | Fault => Fault
      end
  end.

Definition set_stripe_block_size (opts : list stripe_options) (data : string) : outcome (list stripe_options) :=
  parse_options (strtok "," (chars data) []) opts.

(** [init].  [alloc]: every allocation succeeds.  [child_count] has eight bits. *)
Definition i8 (z : Z) : Z := (z + 2 ^ 7) `mod` 2 ^ 8 - 2 ^ 7.

Definition init (name : string) (alloc : bool) (xls : list xlator) (o_block_size o_use_xattr : option string) :
    outcome (option stripe_xl) :=
  let count := Z.of_nat (length xls) in
  if (count =? 0) || (count =? 1) then Failed None
  else if negb alloc then Failed None
  else if 256 <? count then Failed None
  else
    match (match o_block_size with None => Done [] | Some data => set_stripe_block_size [] data end) with
    | Fault => Fault
    | Failed _ => Failed None
    | Done pattern =>
        let xattr := default true (o ← o_use_xattr; gf_string2boolean (chars o)) in
        Done (Some (mk_xl xls
          (mk_private pattern xls (128 * GF_UNIT_KB) (u8 (i8 count)) false (i8 count)
             (replicate (length xls) 0) xattr) name))
    end.

(** [notify]: the state of the child at [data], the number of children that are
    down, and whether the event is passed to the parents.  [None]: [data] is not a
    child, and the state behind the last one is written. *)
Inductive gf_event := GF_EVENT_CHILD_UP | GF_EVENT_CHILD_DOWN | GF_EVENT_OTHER.

Fixpoint index_of (x : xlator) (xls : list xlator) : option nat :=
  match xls with
  | [] => None
  | y :: xls => if x =? y then Some 0%nat else S <$> index_of x xls
  end.

Definition down_clients (st : list Z) : Z := Z.of_nat (length (List.filter (fun s => s =? 0) st)).

Definition child_event (this : stripe_xl) (data : xlator) (up : bool) : option (stripe_xl * bool) :=
  let priv := private this in
  let n := Z.to_nat (child_count priv) in
  i ← index_of data (take n (xl_array priv));
  let st := <[i := if up then 1 else 0]> (state priv) in
  let first := match children this with c :: _ => c =? data | [] => false end in
  Some (mk_xl (children this)
          (mk_private (pattern priv) (xl_array priv) (block_size priv) (u8 (down_clients (take n st)))
             (if first then negb up else first_child_down priv) (child_count priv) st (xattr_supported priv)) (xl_name this),
        first).

Definition notify (this : stripe_xl) (event : gf_event) (data : xlator) : option (stripe_xl * bool) :=
  match event with
  | GF_EVENT_CHILD_UP => child_event this data true
  | GF_EVENT_CHILD_DOWN => child_event this data false
  | GF_EVENT_OTHER => Some (this, true)
  end.
