(* ===== verification/StripeIO.v ===== *)
(** * The striping translator: reading and writing

    [stripe_readv] and [stripe_writev] cut a request at the borders of stripes and
    send each piece to the child that keeps the stripe, at the offset it has in the
    file.  [iov_subset] is that of common-utils.h.  [None] is a division by zero or
    an access through a NULL pointer.  The references to the buffers of an answer,
    which [stripe_readv_cbk] collects in an iobref, are not part of the model. *)

From stdpp Require Import base list numbers strings.
From S2P Require Import Prelude StripeData Stripe.

Open Scope Z_scope.

(** ** common-utils.h *)

Definition min (a b : Z) : Z := if a <? b then a else b.

(** With an unsigned [b], of 64 bits. *)
Definition floor (a b : Z) : Z := u64 (u64 a `div` (if b =? 0 then 1 else b) * b).
Definition roof (a b : Z) : Z := u64 (u64 (a + b - 1) `div` (if b =? 0 then 1 else b) * b).

(** The loop of [iov_subset]; [offset] is the position of [orig] in the vector. *)
Fixpoint iov_subset (orig : list iovec) (src_offset dst_offset offset : Z) : list iovec :=
  match orig with
  | [] => []
  | v :: orig =>
      let rest := iov_subset orig src_offset dst_offset (i64 (offset + iov_len v)) in
      if (u64 (offset + iov_len v) <? u64 src_offset) || (dst_offset <? offset) then rest
      else
        let start_offset := if offset <=? src_offset then u64 (src_offset - offset) else 0 in
        let end_offset := if u64 dst_offset <=? u64 (offset + iov_len v)
                          then u64 (dst_offset - offset) else iov_len v in
        mk_iovec (iov_base v + start_offset) (u64 (end_offset - start_offset)) :: rest
  end.

(** The child at an index of the array of a context. *)
Definition fctx_child (ctx : stripe_fd_ctx) (idx : Z) : option xlator :=
  a ← fctx_xl_array ctx;
  if 0 <=? idx then c ← a !! Z.to_nat idx; c else None.

(** ** Writing *)

(** [total_size], an [int32_t]. *)
Fixpoint total_size (vector : list iovec) (acc : Z) : Z :=
  match vector with [] => acc | v :: vector => total_size vector (i32 (acc + iov_len v)) end.

(** Where the loop of [stripe_writev] is. *)
Record wloop := mk_wloop { offset_offset : Z; remaining_size : Z }.

(** [fill_size]: up to the end of the stripe, or of the request. *)
Definition fill_size (ss offset : Z) (w : wloop) : Z :=
  let n := ss - Z.rem (offset + offset_offset w) ss in
  if remaining_size w <? n then remaining_size w else n.

(** One turn of the loop: the local data, the call, and where the loop goes on, if
    it does.  [alloc]: the vector of the piece could be allocated. *)
Definition writev_turn (ctx : stripe_fd_ctx) (fd : fd_t) (vector : list iovec) (offset : Z) (alloc : bool)
    (w : wloop) (l : stripe_local) : option (stripe_local * event * option wloop) :=
  let ss := l_stripe_size l in
  if (ss =? 0) || (fctx_stripe_count ctx =? 0) then None
  else
    let idx := i32 (Z.rem (Z.quot (offset + offset_offset w) ss) (fctx_stripe_count ctx)) in
    let fill := fill_size ss offset w in
    let remaining := i32 (remaining_size w - fill) in
    if negb alloc then Some (l, Unwind (-1) ENOMEM P_null, None)
    else
      let tmp_vec := iov_subset vector (offset_offset w) (offset_offset w + fill) 0 in
      let l := set_wind_count (i32 (l_wind_count l + 1)) l in
      let l := if remaining =? 0 then set_unwind true l else l in
      child ← fctx_child ctx idx;
      Some (l, Wind CB_writev child (F_writev fd tmp_vec (i64 (offset + offset_offset w))),
            if remaining =? 0 then None
            else Some (mk_wloop (i32 (offset_offset w + fill)) remaining)).

(** The part before the loop: the local data and the start of the loop, or the
    answer.  [ctx]: the context of the fd, if it has one. *)
Definition writev_start (ctx : option stripe_fd_ctx) (vector : list iovec) (alloc : bool) :
    stripe_local * list event * option wloop :=
  match ctx with
  | None => (local0, [Unwind (-1) EINVAL P_null], None)
  | Some ctx =>
      if negb alloc then (local0, [Unwind (-1) ENOMEM P_null], None)
      else (set_stripe_size (fctx_stripe_size ctx) local0, [], Some (mk_wloop 0 (total_size vector 0)))
  end.

(** The loop without callbacks in between; [fuel] bounds its turns. *)
Fixpoint writev_loop (fuel : nat) (ctx : stripe_fd_ctx) (fd : fd_t) (vector : list iovec) (offset : Z)
    (w : wloop) (l : stripe_local) : option (stripe_local * list event) :=
  match fuel with
  | O => None
  | S fuel =>
      '(l, e, w) ← writev_turn ctx fd vector offset true w l;
      match w with
      | None => Some (l, [e])
      | Some w => '(l, es) ← writev_loop fuel ctx fd vector offset w l; Some (l, e :: es)
      end
  end.

Definition stripe_writev (ctx : option stripe_fd_ctx) (fd : fd_t) (vector : list iovec) (offset : Z)
    (alloc : bool) : option (stripe_local * list event) :=
  match ctx, writev_start ctx vector alloc with
  | Some ctx, (l, ev, Some w) =>
      '(l, es) ← writev_loop (S (Z.to_nat (remaining_size w))) ctx fd vector offset w l; Some (l, ev ++ es)
  | _, (l, ev, _) => Some (l, ev)
  end.

Definition stripe_writev_cbk (ret err : Z) (p : payload) (l : stripe_local) : result :=
  let l := set_call_count (i32 (l_call_count l + 1)) l in
  let callcnt := l_call_count l in
  let l := if ret =? -1 then set_op_ret (-1) (set_op_errno err l) else l in
  l ← (if 0 <=? ret then
         match p with
         | P_pair prebuf postbuf =>
             Some (set_pre_buf (copy_stat prebuf (l_pre_buf l)) (set_post_buf (copy_stat postbuf (l_post_buf l))
                    (set_op_ret (i32 (l_op_ret l + ret)) l)))
         | _ => None
         end
       else Some l);
  if (callcnt =? l_wind_count l) && l_unwind l then
    Some (l, [Unwind (l_op_ret l) (l_op_errno l) (P_pair (c_buf (l_pre_buf l)) (c_buf (l_post_buf l)))])
  else Some (l, []).

(** ** Reading *)

Definition reply0 : readv_replies := mk_replies [] 0 0 0 stat0.

(** The loop of [stripe_readv]: [todo] more pieces, of which the first has number
    [node_index] and begins at [frame_offset].  [allocs]: whether the local data of
    each piece can be allocated. *)
Fixpoint readv_loop (ctx : stripe_fd_ctx) (fd : fd_t) (size offset off_index : Z) (allocs : Z -> bool)
    (todo : nat) (node_index frame_offset : Z) : option (list event) :=
  match todo with
  | O => Some []
  | S todo =>
      if negb (allocs node_index) then Some [Unwind (-1) ENOMEM P_null]
      else
        let ss := u64 (fctx_stripe_size ctx) in
        let frame_size := u64 (min (roof (frame_offset + 1) ss) (u64 (offset + size)) - frame_offset) in
        let idx := Z.rem (off_index + node_index) (fctx_stripe_count ctx) in
        child ← fctx_child ctx idx;
        es ← readv_loop ctx fd size offset off_index allocs todo (node_index + 1) (i64 (frame_offset + frame_size));
        Some (Wind (CB_readv node_index) child (F_readv fd frame_size frame_offset) :: es)
  end.

Definition stripe_readv (ctx : option stripe_fd_ctx) (fd : fd_t) (size offset : Z)
    (alloc alloc_replies : bool) (allocs : Z -> bool) : option (stripe_local * list event) :=
  match ctx with
  | None => Some (local0, [Unwind (-1) EBADFD P_null])
  | Some ctx =>
      let ss := u64 (fctx_stripe_size ctx) in
      let rounded_start := floor offset ss in
      let rounded_end := roof (offset + size) ss in
      if ss =? 0 then None
      else
        let num_stripe := i32 (rounded_end `div` ss - rounded_start `div` ss) in
        if negb alloc then Some (local0, [Unwind (-1) ENOMEM P_null])
        else
          let l := set_wind_count num_stripe local0 in
          if negb alloc_replies then Some (l, [Unwind (-1) ENOMEM P_null])
          else if fctx_stripe_count ctx =? 0 then None
          else
            let l := set_replies (replicate (Z.to_nat num_stripe) reply0) l in
            let off_index := i32 ((u64 offset `div` ss) `mod` u64 (fctx_stripe_count ctx)) in
            es ← readv_loop ctx fd size offset off_index allocs (Z.to_nat num_stripe) 0 offset;
            Some (l, es)
  end.

(** The loop over the answers: [op_ret] and [op_errno], or -1 and the errno of the
    first piece that failed, and the largest size up to there. *)
Fixpoint sum_replies (rs : list readv_replies) (ret err size : Z) : Z * Z * Z :=
  match rs with
  | [] => (ret, err, size)
  | r :: rs =>
      if rr_op_ret r =? -1 then (-1, rr_op_errno r, size)
      else sum_replies rs (i32 (ret + rr_op_ret r)) err
             (if size <? st_size (rr_stbuf r) then st_size (rr_stbuf r) else size)
  end.

(** [alloc]: the vector of the answer could be allocated. *)
Definition answer_read (alloc : bool) (err : Z) (rs : list readv_replies) : event :=
  let st := rr_stbuf (default reply0 (head rs)) in
  let '(ret, err, size) := sum_replies rs 0 err (st_size st) in
  let st := mk_stat (st_mode st) size (st_blocks st) (st_rest st) in
  if ret =? -1 then Unwind ret err (P_read [] st)
  else if negb alloc then Unwind (-1) err (P_read [] st)
  else Unwind ret err (P_read (rs ≫= rr_vector) st).

Definition stripe_readv_cbk (alloc : bool) (index : Z) (ret err : Z) (p : payload) (l : stripe_local) : result :=
  old ← l_replies l !! Z.to_nat index;
  r ← (if 0 <=? ret then
         match p with
         | P_read vector stbuf => Some (mk_replies vector (Z.of_nat (length vector)) ret err stbuf)
         | _ => None
         end
       else Some (mk_replies (rr_vector old) (rr_count old) ret err (rr_stbuf old)));
  let l := set_replies (<[Z.to_nat index := r]> (l_replies l)) l in
  let l := set_call_count (i32 (l_call_count l + 1)) l in
  if l_call_count l =? l_wind_count l then
    Some (set_replies [] l, [answer_read alloc err (l_replies l)])
  else Some (l, []).

(** ** All callbacks *)

(** [allocs]: whether the allocations of a callback succeed. *)
Definition stripe_callback (this : stripe_xl) (allocs : bool * bool) (cb : cbk) (cookie : xlator)
    (ret err : Z) (p : payload) (l : stripe_local) : result :=
  match cb with
  | CB_common_inode => stripe_common_inode_cbk ret err p l
  | CB_unwind => stripe_stack_unwind_cbk ret err l
  | CB_fsync => stripe_fsync_cbk this cookie ret err p l
  | CB_unlink => stripe_stack_unwind_unlink_cbk this cookie ret err p l
  | CB_truncate => stripe_truncate_cbk this cookie ret err p l
  | CB_buf => stripe_stack_unwind_buf_cbk this cookie ret err p l
  | CB_inode => stripe_stack_unwind_inode_cbk this cookie ret err p l
  | CB_lookup => stripe_lookup_cbk this cookie ret err p (fst allocs) l
  | CB_sh_make_entry => stripe_sh_make_entry_cbk cookie l
  | CB_sh_chown => stripe_sh_chown_cbk l
  | CB_statfs => stripe_statfs_cbk ret err p l
  | CB_setattr => stripe_setattr_cbk this cookie ret err p l
  | CB_rename => stripe_stack_rename_cbk ret err p l
  | CB_first_rename => stripe_first_rename_cbk this ret err p l
  | CB_first_rmdir => stripe_first_rmdir_cbk this ret err p l
  | CB_mknod => stripe_mknod_ifreg_cbk this cookie ret err p l
  | CB_mknod_setxattr => stripe_mknod_ifreg_setxattr_cbk this ret err l
  | CB_mknod_unlink => stripe_mknod_ifreg_fail_unlink_cbk l
  | CB_create => stripe_create_cbk this cookie ret err p (fst allocs) l
  | CB_create_setxattr => stripe_create_setxattr_cbk this ret err l
  | CB_create_unlink => stripe_create_fail_unlink_cbk l
  | CB_open => stripe_open_cbk ret err l
  | CB_open_getxattr => stripe_open_getxattr_cbk this cookie ret err p allocs l
  | CB_opendir => stripe_opendir_cbk ret err l
  | CB_lk => stripe_lk_cbk this cookie ret err p l
  | CB_stats => stripe_stats_cbk ret err p l
  | CB_readv i => stripe_readv_cbk (fst allocs) i ret err p l
  | CB_writev => stripe_writev_cbk ret err p l
  end.
