(* ===== verification/StripeFile.v ===== *)
(** * Striped files: what they promise

    Every child keeps a plain file; together they make up one file, whose bytes
    are found by the number of their stripe.  Lemmas on how the
    operations of the children appear in that file. *)

From stdpp Require Import strings gmap base list numbers.
From S2P Require Import Prelude PosixFile StripeData Stripe StripeIO.

Open Scope Z_scope.

(** ** Memory *)

Definition memory := Z -> Z.

Definition iov_bytes (mem : memory) (v : iovec) : list Z := map (fun i => mem (iov_base v + i)) (seqZ 0 (iov_len v)).

Definition iov_data (mem : memory) (vector : list iovec) : list Z := concat (map (iov_bytes mem) vector).

(** ** Volumes: a file on every child *)

Abbreviation volume := (gmap xlator file).

Definition vol_file (v : volume) (c : xlator) : file := default [] (v !! c).

Definition vol_write (v : volume) (c : xlator) (offset : Z) (data : list Z) : volume :=
  <[c := pwrite (vol_file v c) offset data]> v.

(** What a child does with a write or a truncation wound to it. *)
Definition perform (mem : memory) (v : volume) (e : event) : volume :=
  match e with
  | Wind _ c (F_writev _ vector offset) => vol_write v c offset (iov_data mem vector)
  | Wind _ c (F_truncate _ offset) | Wind _ c (F_ftruncate _ offset) => <[c := ftruncate (vol_file v c) offset]> v
  | _ => v
  end.

(** ** The file they make up *)

Definition owner (ctx : stripe_fd_ctx) (o : Z) : option xlator :=
  fctx_child ctx ((o `div` fctx_stripe_size ctx) `mod` fctx_stripe_count ctx).

Definition stripe_children (ctx : stripe_fd_ctx) : list xlator :=
  match fctx_xl_array ctx with Some a => a ≫= option_list | None => [] end.

Definition striped_size (ctx : stripe_fd_ctx) (v : volume) : nat :=
  foldr Nat.max 0%nat (map (fun c => length (vol_file v c)) (stripe_children ctx)).

Definition owner_file (ctx : stripe_fd_ctx) (v : volume) (o : nat) : file :=
  match owner ctx (Z.of_nat o) with Some c => vol_file v c | None => [] end.

Definition striped (ctx : stripe_fd_ctx) (v : volume) : file :=
  map (fun o => default 0 (owner_file ctx v o !! o)) (seq 0 (striped_size ctx v)).

(** Every byte of the file is present on the child that keeps it. *)
Definition dense (ctx : stripe_fd_ctx) (v : volume) : Prop :=
  forall o, (o < striped_size ctx v)%nat -> (o < length (owner_file ctx v o))%nat.

(** A context with children for all stripes. *)
Record ctx_ok (ctx : stripe_fd_ctx) : Prop := {
  co_size : 0 < fctx_stripe_size ctx < 2 ^ 31;
  co_count : 0 < fctx_stripe_count ctx < 2 ^ 31;
  co_array : exists cs, fctx_xl_array ctx = Some (map Some cs) /\ Z.of_nat (length cs) = fctx_stripe_count ctx }.

(** ** Lemmas on striped files *)

Lemma stripe_children_ok ctx cs :
  fctx_xl_array ctx = Some (map Some cs) -> stripe_children ctx = cs.
Proof.
  intros E. unfold stripe_children. rewrite E. clear E.
  induction cs as [|c cs IH]; [done|]. simpl. unfold mbind in IH. by rewrite IH.
Qed.

Lemma owner_in ctx o : ctx_ok ctx -> exists c, owner ctx o = Some c /\ c ∈ stripe_children ctx.
Proof.
  intros [Hs Hc (cs & Ea & Hl)]. unfold owner, fctx_child. rewrite Ea. simpl.
  pose proof (Z.mod_pos_bound (o `div` fctx_stripe_size ctx) (fctx_stripe_count ctx) ltac:(lia)) as Hm.
  rewrite (proj2 (Z.leb_le _ _)) by lia.
  destruct (lookup_lt_is_Some_2 cs (Z.to_nat ((o `div` fctx_stripe_size ctx) `mod` fctx_stripe_count ctx))) as [c Ec]; [lia|].
  exists c. change (map Some cs) with (Some <$> cs). rewrite list_lookup_fmap, Ec. simpl. split; [done|].
  rewrite (stripe_children_ok _ _ Ea). by eapply list_elem_of_lookup_2.
Qed.

Lemma vol_file_write v c o d c' :
  vol_file (vol_write v c o d) c' = if decide (c = c') then pwrite (vol_file v c) o d else vol_file v c'.
Proof.
  unfold vol_file at 1, vol_write. case_decide as E; [subst; by rewrite lookup_insert_eq|].
  by rewrite lookup_insert_ne.
Qed.

Lemma striped_length ctx v : length (striped ctx v) = striped_size ctx v.
Proof. unfold striped. by rewrite length_map, length_seq. Qed.

Lemma child_le_size ctx v c : c ∈ stripe_children ctx -> (length (vol_file v c) <= striped_size ctx v)%nat.
Proof.
  unfold striped_size. induction (stripe_children ctx) as [|c' cs IH]; [by intros ?%elem_of_nil|].
  intros [->|Hc]%elem_of_cons; simpl; [lia|]. specialize (IH Hc). lia.
Qed.

Lemma striped_byte ctx v o : ctx_ok ctx -> byte (striped ctx v) o = byte (owner_file ctx v o) o.
Proof.
  intros Hok. unfold byte at 1, striped. change (map ?f ?l) with (f <$> l). rewrite list_lookup_fmap.
  destruct (decide (o < striped_size ctx v)%nat) as [Ho|Ho].
  - by rewrite lookup_seq_lt.
  - rewrite lookup_seq_ge by lia. simpl. unfold byte. rewrite lookup_ge_None_2; [done|].
    unfold owner_file. destruct (owner_in ctx (Z.of_nat o) Hok) as (c & -> & Hc).
    pose proof (child_le_size ctx v c Hc). lia.
Qed.

(** A change of one child that never makes its file shorter. *)
Lemma striped_size_insert ctx v c f :
  c ∈ stripe_children ctx -> (length (vol_file v c) <= length f)%nat ->
  striped_size ctx (<[c := f]> v) = Nat.max (striped_size ctx v) (length f).
Proof.
  unfold striped_size. induction (stripe_children ctx) as [|c' cs IH]; [by intros ?%elem_of_nil|].
  intros Hc Hle. simpl. unfold vol_file at 1. destruct (decide (c' = c)) as [->|Hne].
  - rewrite lookup_insert_eq. simpl. destruct (decide (c ∈ cs)) as [Hin|Hni]; [rewrite IH by done; lia|].
    assert (map (fun c' => length (vol_file (<[c:=f]> v) c')) cs = map (fun c' => length (vol_file v c')) cs) as ->; [|lia].
    apply map_ext_in. intros a Ha%list_elem_of_In. unfold vol_file. rewrite lookup_insert_ne; [done|].
    intros ->. done.
  - rewrite lookup_insert_ne by done. apply elem_of_cons in Hc as [->|Hc]; [done|]. rewrite IH by done.
    unfold vol_file at 2. lia.
Qed.

(** A write that stays on the child that keeps its bytes is a write to the file. *)
Lemma striped_write ctx v c o d :
  ctx_ok ctx -> 0 <= o -> c ∈ stripe_children ctx ->
  (forall i, o <= i < o + Z.of_nat (length d) -> owner ctx i = Some c) ->
  striped ctx (vol_write v c o d) = pwrite (striped ctx v) o d.
Proof.
  intros Hok Ho Hc Hown.
  assert (length (vol_file v c) <= length (pwrite (vol_file v c) o d))%nat as Hle.
  { rewrite pwrite_length. case_decide; lia. }
  apply file_eq.
  - rewrite pwrite_length, !striped_length. unfold vol_write. rewrite striped_size_insert by done.
    pose proof (child_le_size ctx v c Hc). rewrite pwrite_length. case_decide; lia.
  - intros i _. rewrite pwrite_byte, !striped_byte by done. unfold owner_file.
    destruct (owner_in ctx (Z.of_nat i) Hok) as (c' & Ec & _). rewrite Ec, vol_file_write.
    case_decide as Hcc; [subst c'; rewrite pwrite_byte; case_decide; done|].
    case_decide as Hin; [|done]. rewrite Hown in Ec by lia. congruence.
Qed.

(** ** Pieces of a request *)

(** The data [d] at offset [o], cut into pieces that stay on one child each. *)
Inductive pieces (ctx : stripe_fd_ctx) : Z -> list Z -> list (xlator * Z * list Z) -> Prop :=
| pieces_nil o : pieces ctx o [] []
| pieces_cons o c d ds ps :
    c ∈ stripe_children ctx ->
    (forall i, o <= i < o + Z.of_nat (length d) -> owner ctx i = Some c) ->
    pieces ctx (o + Z.of_nat (length d)) ds ps ->
    pieces ctx o (d ++ ds) ((c, o, d) :: ps).

Definition write_piece (v : volume) (p : xlator * Z * list Z) : volume := vol_write v p.1.1 p.1.2 p.2.

Lemma pieces_write ctx o d ps v :
  ctx_ok ctx -> pieces ctx o d ps -> 0 <= o ->
  striped ctx (foldl write_piece v ps) = pwrite (striped ctx v) o d.
Proof.
  intros Hok Hp. revert v. induction Hp as [|o c d ds ps Hc Hown _ IH]; intros v Ho; [done|].
  simpl. rewrite IH by lia. unfold write_piece. simpl. rewrite striped_write by done. by apply pwrite_app.
Qed.

(** The pieces are in order, so that none overlaps another. *)
Lemma pieces_after ctx o d ps c o' d' :
  pieces ctx o d ps -> (c, o', d') ∈ ps -> o <= o'.
Proof.
  induction 1 as [|o c0 d ds ps _ _ _ IH]; [by intros ?%elem_of_nil|].
  intros [[= -> -> ->]|Hin]%elem_of_cons; [lia|]. specialize (IH Hin). lia.
Qed.

Definition apart (p q : xlator * Z * list Z) : Prop :=
  0 <= p.1.2 /\ 0 <= q.1.2 /\
  (p.1.2 + Z.of_nat (length p.2) <= q.1.2 \/ q.1.2 + Z.of_nat (length q.2) <= p.1.2).

#[export] Instance apart_sym : Symmetric apart.
Proof. unfold apart. intros p q. tauto. Qed.

Lemma pieces_apart ctx o d ps : pieces ctx o d ps -> 0 <= o -> pairwise apart ps.
Proof.
  induction 1 as [|o c d ds ps _ _ Hps IH]; simpl; [done|]. intros Ho. split; [|apply IH; lia].
  apply Forall_forall. intros [[c' o'] d'] Hin%list_elem_of_In. pose proof (pieces_after _ _ _ _ _ _ _ Hps Hin).
  unfold apart. simpl. lia.
Qed.

Lemma write_piece_comm v p q : apart p q -> write_piece (write_piece v p) q = write_piece (write_piece v q) p.
Proof.
  destruct p as [[c1 o1] d1], q as [[c2 o2] d2]. unfold apart, write_piece. simpl. intros (H1 & H2 & Hd).
  apply map_eq. intros c. unfold vol_write at 1 3.
  destruct (decide (c1 = c2)) as [->|Hne].
  - rewrite !vol_file_write, !decide_True by done. unfold vol_write. rewrite !insert_insert_eq.
    by rewrite pwrite_comm.
  - rewrite !vol_file_write, !decide_False by congruence. unfold vol_write. by rewrite insert_insert_ne.
Qed.

(** The order in which the children get to the pieces does not matter. *)
Lemma write_pieces_perm ps qs : ps ≡ₚ qs -> pairwise apart ps -> forall v, foldl write_piece v ps = foldl write_piece v qs.
Proof.
  induction 1 as [|p ps qs Hp IH|p q ps|ps qs rs Hp1 IH1 Hp2 IH2]; intros Ha v; simpl in *.
  - done.
  - apply IH. tauto.
  - rewrite write_piece_comm; [done|]. destruct Ha as [Hf _]. by inversion Hf.
  - rewrite IH1 by done. apply IH2. by rewrite <-Hp1.
Qed.

(** ** Reading *)

(** On a dense file, what a child has of a piece is what the file has. *)
Lemma striped_read ctx v c o n :
  ctx_ok ctx -> dense ctx v -> 0 <= o -> 0 <= n -> c ∈ stripe_children ctx ->
  (forall i, o <= i < o + n -> owner ctx i = Some c) ->
  pread (vol_file v c) o n = pread (striped ctx v) o n.
Proof.
  intros Hok Hd Ho Hn Hc Hown. pose proof (child_le_size ctx v c Hc) as Hle.
  assert (forall i, (Z.to_nat o <= i < Z.to_nat (o + n))%nat -> owner_file ctx v i = vol_file v c) as Hf.
  { intros i Hi. unfold owner_file. rewrite Hown; [done|lia]. }
  apply file_eq.
  - rewrite !pread_length, striped_length.
    set (m := Nat.min (Z.to_nat (o + n)) (striped_size ctx v)).
    destruct (decide (Z.to_nat o < m)%nat) as [Hm|Hm]; [|lia].
    assert (m - 1 < length (owner_file ctx v (m - 1)))%nat as Hlt by (apply Hd; lia).
    rewrite Hf in Hlt by lia. lia.
  - intros i Hi. rewrite pread_length in Hi. rewrite !pread_byte, striped_byte by (done || lia).
    rewrite Hf by lia. done.
Qed.

Lemma dense_write ctx v c o d :
  ctx_ok ctx -> 0 <= o <= Z.of_nat (striped_size ctx v) -> c ∈ stripe_children ctx ->
  (forall i, o <= i < o + Z.of_nat (length d) -> owner ctx i = Some c) ->
  dense ctx v -> dense ctx (vol_write v c o d).
Proof.
  intros Hok Ho Hc Hown Hd i Hi.
  assert (length (vol_file v c) <= length (pwrite (vol_file v c) o d))%nat as Hle.
  { rewrite pwrite_length. case_decide; lia. }
  unfold vol_write in Hi. rewrite striped_size_insert, pwrite_length in Hi by done.
  unfold owner_file. destruct (owner_in ctx (Z.of_nat i) Hok) as (c' & Ec & Hc'). rewrite Ec, vol_file_write.
  specialize (Hd i). unfold owner_file in Hd. rewrite Ec in Hd.
  pose proof (child_le_size ctx v c Hc).
  destruct (decide (c = c')) as [<-|Hcc]; [rewrite pwrite_length|]; repeat case_decide; try (lia || (apply Hd; lia)).
  destruct (decide (i < striped_size ctx v)%nat); [by auto|]. rewrite Hown in Ec by lia. congruence.
Qed.

Lemma pieces_dense ctx o d ps v :
  ctx_ok ctx -> pieces ctx o d ps -> 0 <= o <= Z.of_nat (striped_size ctx v) ->
  dense ctx v -> dense ctx (foldl write_piece v ps).
Proof.
  intros Hok Hp. revert v. induction Hp as [|o c d ds ps Hc Hown _ IH]; intros v Ho Hd; [done|].
  simpl. unfold write_piece at 2. simpl. apply IH; [|by apply dense_write].
  rewrite <-striped_length, striped_write, pwrite_length, striped_length by (done || lia).
  case_decide; subst; simpl; lia.
Qed.

(** ** Truncation *)

Definition vol_truncate (v : volume) (cs : list xlator) (o : Z) : volume :=
  foldl (fun v c => <[c := ftruncate (vol_file v c) o]> v) v cs.

Lemma ftruncate_idemp f o : ftruncate (ftruncate f o) o = ftruncate f o.
Proof.
  apply file_eq; [by rewrite !ftruncate_length|]. intros i _. rewrite !ftruncate_byte. by repeat case_decide.
Qed.

Lemma vol_truncate_file v cs o c :
  vol_file (vol_truncate v cs o) c = if decide (c ∈ cs) then ftruncate (vol_file v c) o else vol_file v c.
Proof.
  unfold vol_truncate. revert v. induction cs as [|c' cs IH]; intros v; simpl; [done|]. rewrite IH.
  unfold vol_file. destruct (decide (c' = c)) as [->|Hne].
  - rewrite lookup_insert_eq. simpl. rewrite (decide_True (P := c ∈ c :: cs)) by left.
    case_decide; [by rewrite ftruncate_idemp|done].
  - rewrite lookup_insert_ne by done. by repeat case_decide; set_solver.
Qed.

Lemma vol_truncate_size ctx v o :
  stripe_children ctx <> [] -> striped_size ctx (vol_truncate v (stripe_children ctx) o) = Z.to_nat o.
Proof.
  intros Hne. unfold striped_size.
  assert (Forall (fun n => n = Z.to_nat o)
    (map (fun c => length (vol_file (vol_truncate v (stripe_children ctx) o) c)) (stripe_children ctx))) as Hf.
  { apply List.Forall_map, List.Forall_forall. intros c Hc%list_elem_of_In.
    rewrite vol_truncate_file, decide_True by done. apply ftruncate_length. }
  destruct (stripe_children ctx) as [|c cs] eqn:E; [done|]. clear E. simpl in Hf |- *.
  inversion Hf as [|? ? H0 Hf']. subst. rewrite H0. clear -Hf'. induction Hf'; simpl; lia.
Qed.

Lemma striped_truncate ctx v o :
  ctx_ok ctx -> striped ctx (vol_truncate v (stripe_children ctx) o) = ftruncate (striped ctx v) o.
Proof.
  intros Hok.
  assert (stripe_children ctx <> []) as Hne.
  { destruct (owner_in ctx 0 Hok) as (c & _ & Hc). destruct (stripe_children ctx); [by apply elem_of_nil in Hc|done]. }
  apply file_eq.
  - by rewrite ftruncate_length, striped_length, vol_truncate_size.
  - intros i _. rewrite ftruncate_byte, !striped_byte by done. unfold owner_file.
    destruct (owner_in ctx (Z.of_nat i) Hok) as (c & -> & Hc).
    by rewrite vol_truncate_file, decide_True, ftruncate_byte.
Qed.

(** After a truncation all children are equally long. *)
Lemma dense_truncate ctx v o : ctx_ok ctx -> dense ctx (vol_truncate v (stripe_children ctx) o).
Proof.
  intros Hok i Hi. destruct (owner_in ctx (Z.of_nat i) Hok) as (c & Ec & Hc). unfold owner_file. rewrite Ec.
  rewrite vol_truncate_file, decide_True, ftruncate_length by done.
  rewrite vol_truncate_size in Hi; [done|]. intros E. rewrite E in Hc. by apply elem_of_nil in Hc.
Qed.

Lemma vol_truncate_lookup v cs o c :
  vol_truncate v cs o !! c = if decide (c ∈ cs) then Some (ftruncate (vol_file v c) o) else v !! c.
Proof.
  unfold vol_truncate. revert v. induction cs as [|c' cs IH]; intros v; simpl; [done|]. rewrite IH.
  unfold vol_file. destruct (decide (c' = c)) as [->|Hne].
  - rewrite lookup_insert_eq. simpl. rewrite (decide_True (P := c ∈ c :: cs)) by left.
    case_decide; [by rewrite ftruncate_idemp|done].
  - rewrite lookup_insert_ne by done. by repeat case_decide; set_solver.
Qed.

Lemma vol_truncate_perm v cs cs' o : cs ≡ₚ cs' -> vol_truncate v cs o = vol_truncate v cs' o.
Proof.
  intros Hp. apply map_eq. intros c. rewrite !vol_truncate_lookup.
  by repeat case_decide; rewrite Hp in *.
Qed.

(** ** An example: two children, and stripes of four bytes *)

Definition two_children : stripe_xl :=
  mk_xl [1; 2] (mk_private [] [1; 2] 4 0 false 2 [1; 1] true) "stripe"%string.
Definition two_ctx : stripe_fd_ctx := mk_fctx 4 2 true (Some [Some 1; Some 2]).
Definition an_fd : fd_t := mk_fd 7 (Some 9).

(** Memory whose byte at an address is the address. *)
Definition addresses : memory := fun a => a.
