(* ===== verification/StripeIOFacts.v ===== *)
(** * The striping translator: lemmas on reading and writing

    The loops of [stripe_writev] and [stripe_readv] cut a request into pieces that
    stay on one child each, and nothing of it is lost; the answers to a read are put
    together in the order of the pieces. *)

From stdpp Require Import gmap base list numbers.
From S2P Require Import Prelude PosixFile StripeData Stripe StripeIO StripeFile.

Open Scope Z_scope.

(** ** Vectors *)

Definition vlen (vector : list iovec) : Z := foldr (fun v n => iov_len v + n) 0 vector.

Definition vec_ok (vector : list iovec) : Prop := Forall (fun v => 0 <= iov_len v) vector.

Lemma vlen_nonneg vs : vec_ok vs -> 0 <= vlen vs.
Proof. induction 1; simpl; lia. Qed.

Lemma iov_bytes_length mem v : length (iov_bytes mem v) = Z.to_nat (iov_len v).
Proof. unfold iov_bytes. by rewrite length_map, length_seqZ. Qed.

Lemma iov_bytes_byte mem v i : (i < Z.to_nat (iov_len v))%nat -> byte (iov_bytes mem v) i = mem (iov_base v + Z.of_nat i).
Proof.
  intros Hi. unfold byte, iov_bytes. change (map ?f ?l) with (f <$> l).
  rewrite list_lookup_fmap, lookup_seqZ_lt by lia. done.
Qed.

Lemma iov_data_length mem vs : vec_ok vs -> length (iov_data mem vs) = Z.to_nat (vlen vs).
Proof.
  induction 1 as [|v vs Hv Hvs IH]; [done|]. unfold iov_data in *. simpl.
  rewrite length_app, iov_bytes_length, IH. pose proof (vlen_nonneg vs Hvs). lia.
Qed.

Lemma iov_bytes_slice mem b n s e :
  0 <= s <= e -> e <= n ->
  iov_bytes mem (mk_iovec (b + s) (e - s)) = drop (Z.to_nat s) (take (Z.to_nat e) (iov_bytes mem (mk_iovec b n))).
Proof.
  intros Hs He. apply file_eq.
  - rewrite length_drop, length_take, !iov_bytes_length. simpl. lia.
  - intros i Hi. rewrite iov_bytes_length in Hi. simpl in Hi. rewrite iov_bytes_byte by done. simpl.
    unfold byte. rewrite lookup_drop, lookup_take_lt by lia. fold (byte (iov_bytes mem (mk_iovec b n)) (Z.to_nat s + i)).
    rewrite iov_bytes_byte by (simpl; lia). simpl. f_equal. lia.
Qed.

(** A slice of two lists, one after the other. *)
Lemma drop_take_app {A} (s t : nat) (l k : list A) :
  (s <= length l)%nat -> drop s (take t (l ++ k)) = drop s (take t l) ++ take (t - length l) k.
Proof.
  intros Hs. rewrite take_app. destruct (decide (t <= length l)%nat) as [Ht|Ht].
  - replace (t - length l)%nat with 0%nat by lia. by rewrite !app_nil_r.
  - rewrite drop_app_le; [done|]. rewrite length_take. lia.
Qed.

Lemma drop_take_app_gt {A} (s t : nat) (l k : list A) :
  (length l <= s)%nat -> drop s (take t (l ++ k)) = drop (s - length l) (take (t - length l) k).
Proof.
  intros Hs. rewrite take_app, drop_app.
  rewrite (drop_ge (take t l)) by (rewrite length_take; lia). simpl. rewrite length_take.
  destruct (decide (t <= length l)%nat); [|do 2 f_equal; lia].
  replace (t - length l)%nat with 0%nat by lia. by rewrite take_0, !drop_nil.
Qed.

(** [iov_subset] selects the bytes from [src] to [dst]. *)
Lemma iov_subset_data mem vs src dst off :
  vec_ok vs -> 0 <= off -> off + vlen vs < 2 ^ 63 -> 0 <= src <= dst -> dst < 2 ^ 63 ->
  iov_data mem (iov_subset vs src dst off) =
  drop (Z.to_nat (src - off)) (take (Z.to_nat (dst - off)) (iov_data mem vs)).
Proof.
  intros Hv. revert off. induction Hv as [|[b n] vs Hn Hvs IH]; intros off Ho Hsum Hs Hd.
  { change (iov_data mem []) with (@nil Z). by rewrite take_nil, drop_nil. }
  pose proof (vlen_nonneg vs Hvs). simpl in Hn, Hsum |- *. rewrite (i64_small (off + n)) by (unfold is_i64; lia).
  rewrite (u64_small (off + n)), (u64_small src), (u64_small dst) by (unfold is_u64; lia). specialize (IH (off + n) ltac:(lia) ltac:(lia) Hs Hd).
  unfold iov_data at 2. simpl. fold (iov_data mem vs). set (B := iov_bytes mem _).
  assert (length B = Z.to_nat n) as HB by apply iov_bytes_length.
  destruct (Z.ltb_spec (off + n) src) as [Hlt|Hge]; simpl.
  { rewrite drop_take_app_gt by lia. rewrite IH, HB. f_equal; [lia|]. f_equal. lia. }
  destruct (Z.ltb_spec dst off) as [Hlt'|Hge']; simpl.
  { rewrite IH. replace (Z.to_nat (dst - (off + n))) with 0%nat by lia. replace (Z.to_nat (dst - off)) with 0%nat by lia.
    by rewrite !take_0, !drop_nil. }
  unfold iov_data at 1. simpl. fold (iov_data mem (iov_subset vs src dst (off + n))). rewrite IH, drop_take_app by lia.
  replace (Z.to_nat (src - (off + n))) with 0%nat by lia. rewrite drop_0, HB. f_equal; [|f_equal; lia].
  set (s := if off <=? src then u64 (src - off) else 0).
  assert (s = Z.max 0 (src - off)) as Es.
  { unfold s. destruct (Z.leb_spec off src); rewrite ?u64_small by (unfold is_u64; lia); lia. }
  set (e := if dst <=? off + n then u64 (dst - off) else n).
  assert (e = Z.min (dst - off) n) as Ee.
  { unfold e. destruct (Z.leb_spec dst (off + n)); rewrite ?u64_small by (unfold is_u64; lia); lia. }
  clearbody s e. rewrite u64_small by (unfold is_u64; lia). unfold B. rewrite (iov_bytes_slice mem b n s e) by lia.
  rewrite Es, Ee. f_equal; [lia|]. destruct (decide (dst - off <= n)); [f_equal; lia|].
  rewrite !take_ge; [done| |]; rewrite iov_bytes_length; simpl; lia.
Qed.

(** ** Stripes *)

Lemma i32_small z : - 2 ^ 31 <= z < 2 ^ 31 -> i32 z = z.
Proof. unfold i32. intros. rewrite Z.mod_small by lia. lia. Qed.

Lemma same_stripe ss x i : 0 < ss -> x <= i < x + (ss - x `mod` ss) -> i `div` ss = x `div` ss.
Proof.
  intros Hs Hi. pose proof (Z.div_mod x ss ltac:(lia)). pose proof (Z.mod_pos_bound x ss Hs).
  symmetry. apply (Z.div_unique_pos i ss (x `div` ss) (i - ss * (x `div` ss))); lia.
Qed.

Lemma owner_range ctx x n i :
  ctx_ok ctx -> n <= fctx_stripe_size ctx - x `mod` fctx_stripe_size ctx -> x <= i < x + n ->
  owner ctx i = owner ctx x.
Proof. intros [Hs _ _] Hn Hi. unfold owner. by rewrite (same_stripe _ x i) by lia. Qed.

(** ** The loop of [stripe_writev] *)

(** An event that winds a piece. *)
Definition winds_piece (mem : memory) (fd : fd_t) (e : event) (p : xlator * Z * list Z) : Prop :=
  exists vector, e = Wind CB_writev p.1.1 (F_writev fd vector p.1.2) /\ iov_data mem vector = p.2.

Section Writing.
Context (mem : memory) (ctx : stripe_fd_ctx) (fd : fd_t) (vector : list iovec) (offset : Z).
Context (Hok : ctx_ok ctx) (Hvec : vec_ok vector) (Hlen : vlen vector < 2 ^ 31).
Context (Hoff : 0 <= offset) (Hend : offset + vlen vector < 2 ^ 63).

Let data := iov_data mem vector.
Let ss := fctx_stripe_size ctx.

(** The loop is at a place of the request. *)
Definition wloop_ok (w : wloop) : Prop :=
  0 <= offset_offset w /\ 0 <= remaining_size w /\ offset_offset w + remaining_size w = vlen vector.

Lemma fill_size_ok w :
  wloop_ok w ->
  0 <= fill_size ss offset w <= remaining_size w /\
  fill_size ss offset w <= ss - (offset + offset_offset w) `mod` ss /\
  (0 < remaining_size w -> 0 < fill_size ss offset w).
Proof.
  intros (H1 & H2 & H3). unfold fill_size. destruct Hok as [Hs _ _]. fold ss in Hs.
  rewrite Z.rem_mod_nonneg by lia. pose proof (Z.mod_pos_bound (offset + offset_offset w) ss ltac:(lia)).
  destruct (Z.ltb_spec (remaining_size w) (ss - (offset + offset_offset w) `mod` ss)); lia.
Qed.

(** One turn winds a piece, counts it, and goes on behind it. *)
Lemma writev_turn_ok w l :
  wloop_ok w -> l_stripe_size l = ss -> 
  exists c vec, owner ctx (offset + offset_offset w) = Some c /\ c ∈ stripe_children ctx /\
    let fill := fill_size ss offset w in
    iov_data mem vec = take (Z.to_nat fill) (drop (Z.to_nat (offset_offset w)) data) /\
    let l' := set_wind_count (i32 (l_wind_count l + 1)) l in
    writev_turn ctx fd vector offset true w l =
      Some (if remaining_size w =? fill then set_unwind true l' else l',
            Wind CB_writev c (F_writev fd vec (offset + offset_offset w)),
            if remaining_size w =? fill then None
            else Some (mk_wloop (offset_offset w + fill) (remaining_size w - fill))).
Proof using Hend Hlen Hoff Hok Hvec.
  intros Hw Hl. pose proof (fill_size_ok w Hw) as (Hf1 & Hf2 & Hf3). destruct Hw as (H1 & H2 & H3).
  destruct (owner_in ctx (offset + offset_offset w) Hok) as (c & Hc & Hin).
  cbv zeta. set (fill := fill_size ss offset w) in *.
  exists c, (iov_subset vector (offset_offset w) (offset_offset w + fill) 0).
  split; [done|]. split; [done|]. split.
  { rewrite iov_subset_data by (done || lia). rewrite !Z.sub_0_r, take_drop_commute. do 2 f_equal. lia. }
  destruct Hok as [Hs Hn _]. unfold writev_turn. rewrite Hl. fold fill. fold ss in Hs.
  rewrite !(proj2 (Z.eqb_neq _ _)) by lia. simpl.
  rewrite Z.quot_div_nonneg, Z.rem_mod_nonneg by (try apply Z.div_pos; lia).
  pose proof (Z.mod_pos_bound ((offset + offset_offset w) `div` ss) (fctx_stripe_count ctx) ltac:(lia)) as Hm.
  rewrite (i32_small (_ `mod` _)) by lia.
  change (fctx_child ctx _) with (owner ctx (offset + offset_offset w)). rewrite Hc. simpl.
  rewrite (i32_small (remaining_size w - fill)), (i32_small (offset_offset w + fill)), i64_small by (unfold is_i64; lia).
  destruct (Z.eqb_spec (remaining_size w - fill) 0), (Z.eqb_spec (remaining_size w) fill); by try lia.
Qed.

(** All turns: the calls wind the pieces of what remains, in order. *)
Lemma writev_loop_ok fuel w l :
  wloop_ok w -> l_stripe_size l = ss -> (Z.to_nat (remaining_size w) < fuel)%nat ->
  exists l' es ps, writev_loop fuel ctx fd vector offset w l = Some (l', es) /\
    Forall2 (winds_piece mem fd) es ps /\
    pieces ctx (offset + offset_offset w) (drop (Z.to_nat (offset_offset w)) data) ps.
Proof using Hend Hlen Hoff Hok Hvec.
  revert w l. induction fuel as [|fuel IH]; intros w l Hw Hl Hfuel; [lia|].
  destruct (writev_turn_ok w l Hw Hl) as (c & vec & Hc & Hin & Hd & Et). simpl in Hd, Et. simpl. rewrite Et. simpl.
  pose proof (fill_size_ok w Hw) as (Hf1 & Hf2 & Hf3). destruct Hw as (H1 & H2 & H3).
  set (fill := fill_size ss offset w) in *. set (d := take (Z.to_nat fill) (drop (Z.to_nat (offset_offset w)) data)) in *.
  assert (length d = Z.to_nat fill) as Hld.
  { unfold d, data. rewrite length_take, length_drop, iov_data_length by done. lia. }
  assert (forall i, offset + offset_offset w <= i < offset + offset_offset w + Z.of_nat (length d) ->
            owner ctx i = Some c) as Hown.
  { intros i Hi. rewrite <-Hc. apply (owner_range _ _ fill); [done|done|lia]. }
  destruct (Z.eqb_spec (remaining_size w) fill) as [E|Hne].
  - eexists _, _, [(c, offset + offset_offset w, d)]. split_and!; [done| |].
    + constructor; [|constructor]. by exists vec.
    + replace (drop _ data) with (d ++ []); [by constructor; [..|constructor]|].
      unfold d. rewrite app_nil_r, take_ge; [done|]. unfold data. rewrite length_drop, iov_data_length by done. lia.
  - edestruct (IH (mk_wloop (offset_offset w + fill) (remaining_size w - fill))
      (set_wind_count (i32 (l_wind_count l + 1)) l)) as (l' & es & ps & El & Hes & Hps);
      [unfold wloop_ok; simpl; lia|by rewrite <-Hl|simpl; lia|].
    rewrite El. simpl in Hps |- *. eexists _, _, ((c, offset + offset_offset w, d) :: ps). split_and!; [done| |].
    + constructor; [|done]. by exists vec.
    + replace (drop (Z.to_nat (offset_offset w)) data) with (d ++ drop (Z.to_nat (offset_offset w + fill)) data).
      * constructor; [done..|]. replace (offset + offset_offset w + Z.of_nat (length d)) with (offset + (offset_offset w + fill)) by lia. done.
      * unfold d. replace (Z.to_nat (offset_offset w + fill)) with (Z.to_nat (offset_offset w) + Z.to_nat fill)%nat by lia.
        by rewrite <-drop_drop, take_drop.
Qed.

Lemma total_size_ok vs acc :
  vec_ok vs -> 0 <= acc -> acc + vlen vs < 2 ^ 31 -> total_size vs acc = acc + vlen vs.
Proof.
  intros Hv. revert acc. induction Hv as [|v vs Hn Hvs IH]; intros acc Ha Hs; simpl in *; [lia|].
  pose proof (vlen_nonneg vs Hvs). rewrite i32_small by lia. rewrite IH; lia.
Qed.

(** A write is wound in pieces, and never faults. *)
Lemma stripe_writev_pieces :
  exists l es ps, stripe_writev (Some ctx) fd vector offset true = Some (l, es) /\
    Forall2 (winds_piece mem fd) es ps /\ pieces ctx offset data ps.
Proof using Hend Hlen Hoff Hok Hvec.
  pose proof (vlen_nonneg vector Hvec). unfold stripe_writev, writev_start.
  rewrite total_size_ok by (done || lia). cbn -[writev_loop vlen].
  edestruct (writev_loop_ok (S (Z.to_nat (vlen vector))) (mk_wloop 0 (vlen vector))
    (set_stripe_size (fctx_stripe_size ctx) local0)) as (l & es & ps & El & Hes & Hps);
    [unfold wloop_ok; simpl; lia|done|simpl; lia|].
  simpl in Hps. rewrite Z.add_0_r in Hps. rewrite Z.add_0_l, El. by exists l, es, ps.
Qed.

End Writing.

(** The children perform the calls in any order; the outcome is that of the pieces. *)
Lemma perform_pieces mem fd es ps v :
  Forall2 (winds_piece mem fd) es ps -> foldl (perform mem) v es = foldl write_piece v ps.
Proof.
  intros Hes. revert v. induction Hes as [|e [[c o] d] es ps (vec & -> & Hd) _ IH]; intros v; [done|].
  simpl in *. unfold write_piece at 2. simpl. by rewrite IH, Hd.
Qed.

Lemma Forall2_perm_l {A B} (R : A -> B -> Prop) l l' k :
  l ≡ₚ l' -> Forall2 R l k -> exists k', k ≡ₚ k' /\ Forall2 R l' k'.
Proof.
  intros Hp. revert k. induction Hp as [|x l l' _ IH|x y l|l l' l'' _ IH1 _ IH2]; intros k HF.
  - by exists k.
  - inversion HF as [|? b ? k0 Hxb HF']; subst. destruct (IH _ HF') as (k' & Hk & HF2).
    exists (b :: k'). split; [by f_equiv|by constructor].
  - inversion HF as [|? b ? k0 Hb HF']; subst. inversion HF' as [|? b' ? k1 Hb' HF'']; subst.
    exists (b' :: b :: k1). split; [apply perm_swap|by repeat constructor].
  - destruct (IH1 _ HF) as (k1 & Hk1 & HF1). destruct (IH2 _ HF1) as (k2 & Hk2 & HF2).
    exists k2. split; [by etrans|done].
Qed.

(** ** The loop of [stripe_readv] *)

(** The calls of a read from [o] to [e], numbered from [k] on. *)
Inductive read_pieces (ctx : stripe_fd_ctx) (fd : fd_t) (e : Z) : Z -> Z -> list event -> Prop :=
| read_pieces_nil k : read_pieces ctx fd e e k []
| read_pieces_cons o k c n es :
    c ∈ stripe_children ctx -> 0 <= n ->
    (forall i, o <= i < o + n -> owner ctx i = Some c) ->
    read_pieces ctx fd e (o + n) (k + 1) es ->
    read_pieces ctx fd e o k (Wind (CB_readv k) c (F_readv fd n o) :: es).

Lemma roof_ok a b : 0 < b -> 0 <= a -> a + b < 2 ^ 63 -> roof a b = (a + b - 1) `div` b * b.
Proof.
  intros Hb Ha Hlt. unfold roof. rewrite (proj2 (Z.eqb_neq _ _)) by lia. rewrite (u64_small (a + b - 1)) by (unfold is_u64; lia).
  pose proof (Z.mul_div_le (a + b - 1) b Hb). pose proof (Z.div_pos (a + b - 1) b ltac:(lia) Hb).
  apply u64_small. unfold is_u64. nia.
Qed.

(** The end of the stripe of [a]. *)
Lemma roof_next a b : 0 < b -> 0 <= a -> a + 1 + b < 2 ^ 63 -> roof (a + 1) b = (a `div` b + 1) * b.
Proof.
  intros Hb Ha Hlt. rewrite roof_ok by lia. f_equal. replace (a + 1 + b - 1) with (a + 1 * b) by lia.
  by rewrite Z.div_add by lia.
Qed.

Section Reading.
Context (ctx : stripe_fd_ctx) (fd : fd_t) (size offset : Z).
Context (Hok : ctx_ok ctx) (Hoff : 0 <= offset) (Hsize : 0 <= size < 2 ^ 30).
Context (Hend : offset + size + fctx_stripe_size ctx < 2 ^ 62).

Let ss := fctx_stripe_size ctx.
Let ends := offset + size.
Let last := (ends + ss - 1) `div` ss.
Let off_index := (offset `div` ss) `mod` fctx_stripe_count ctx.

(** Where the loop is: at the end, or at the beginning of its share of a stripe. *)
Definition rloop_ok (todo : nat) (k fo : Z) : Prop :=
  (todo = 0%nat /\ fo = ends) \/
  (0 <= k /\ offset <= fo <= ends /\ fo `div` ss = offset `div` ss + k /\
   Z.of_nat todo = last - (offset `div` ss + k) /\ 0 < Z.of_nat todo).

Lemma last_bounds x : x `div` ss < last <-> (x `div` ss) * ss < ends.
Proof using Hok.
  destruct Hok as [Hs _ _]. unfold last. fold ss in Hs.
  pose proof (Z.div_mod (ends + ss - 1) ss ltac:(lia)). pose proof (Z.mod_pos_bound (ends + ss - 1) ss ltac:(lia)).
  set (q := (ends + ss - 1) `div` ss) in *. set (p := x `div` ss). split; nia.
Qed.

Lemma rloop_next todo k fo :
  rloop_ok (S todo) k fo ->
  let fo' := Z.min ((fo `div` ss + 1) * ss) ends in
  fo <= fo' <= fo + (ss - fo `mod` ss) /\ rloop_ok todo (k + 1) fo'.
Proof using Hok Hoff.
  intros [[? _]|(Hk & Hfo & Hq & Ht & _)]; [done|]. cbv zeta. pose proof Hok as [Hs _ _]. fold ss in Hs.
  pose proof (Z.div_mod fo ss ltac:(lia)). pose proof (Z.mod_pos_bound fo ss ltac:(lia)).
  split; [nia|]. destruct (decide (todo = 0%nat)) as [->|Hne].
  - left. split; [done|]. assert (~ fo `div` ss + 1 < last) as Hn by lia.
    pose proof (last_bounds ((fo `div` ss + 1) * ss)) as Hb. rewrite Z.div_mul in Hb by lia. lia.
  - right. pose proof (last_bounds ((fo `div` ss + 1) * ss)) as Hb. rewrite Z.div_mul in Hb by lia.
    assert ((fo `div` ss + 1) * ss < ends) by (apply Hb; lia).
    rewrite Z.min_l by lia. rewrite Z.div_mul by lia. split_and!; nia.
Qed.

Lemma readv_loop_ok todo k fo :
  rloop_ok todo k fo -> 
  exists es, readv_loop ctx fd size offset off_index (fun _ => true) todo k fo = Some es /\
    read_pieces ctx fd ends fo k es /\ length es = todo.
Proof using Hend Hoff Hok Hsize.
  revert k fo. induction todo as [|todo IH]; intros k fo Hr.
  { destruct Hr as [[_ ->]|(_ & _ & _ & _ & ?)]; [|lia]. exists []. split_and!; [done|constructor|done]. }
  destruct (rloop_next todo k fo Hr) as [Hfo Hr']. destruct (IH _ _ Hr') as (es & El & Hes & Hle).
  destruct Hr as [[? _]|(Hk & Hb & Hq & Ht & _)]; [done|]. pose proof Hok as [Hs Hn _]. fold ss in Hs.
  destruct (owner_in ctx fo Hok) as (c & Hc & Hin).
  simpl. assert (fctx_stripe_size ctx = ss) as Ess by done. rewrite Ess, (u64_small ss) by (unfold is_u64; lia).
  rewrite roof_next by (fold ss in Hend; unfold ends in *; lia).
  rewrite (u64_small (offset + size)) by (unfold is_u64; lia). fold ends.
  assert (min ((fo `div` ss + 1) * ss) ends = Z.min ((fo `div` ss + 1) * ss) ends) as ->
    by (unfold min; case_match; lia).
  set (fo' := Z.min ((fo `div` ss + 1) * ss) ends) in *. fold ss in Hend.
  rewrite (u64_small (fo' - fo)) by (unfold is_u64; lia). rewrite (i64_small (fo + (fo' - fo))) by (unfold is_i64; lia).
  replace (fo + (fo' - fo)) with fo' by lia. rewrite El.
  assert (0 <= off_index + k) by (unfold off_index; pose proof (Z.mod_pos_bound (offset `div` ss) (fctx_stripe_count ctx) ltac:(lia)); lia).
  rewrite Z.rem_mod_nonneg by lia. unfold off_index. rewrite Zplus_mod_idemp_l, <-Hq.
  change (fctx_child ctx _) with (owner ctx fo). rewrite Hc. simpl. eexists. split_and!; [done| |simpl; lia].
  constructor; [done|lia| |by replace (fo + (fo' - fo)) with fo' by lia].
  intros i Hi. rewrite <-Hc. apply (owner_range _ _ (fo' - fo)); [done|fold ss; lia|lia].
Qed.

(** A read is wound in pieces, unless it is empty and begins a stripe. *)
Lemma stripe_readv_pieces :
  exists es, stripe_readv (Some ctx) fd size offset true true (fun _ => true) =
      Some (set_replies (replicate (length es) reply0) (set_wind_count (Z.of_nat (length es)) local0), es) /\
    read_pieces ctx fd ends offset 0 es /\ Z.of_nat (length es) <= size + 1.
Proof using Hend Hoff Hok Hsize.
  pose proof Hok as [Hs Hn _]. fold ss in Hs, Hend.
  unfold stripe_readv. assert (fctx_stripe_size ctx = ss) as -> by done. rewrite (u64_small ss) by (unfold is_u64; lia).
  rewrite !(proj2 (Z.eqb_neq _ _)) by lia.
  rewrite roof_ok by (unfold ends in *; lia). fold ends. fold last. rewrite Z.div_mul by lia.
  assert (floor offset ss `div` ss = offset `div` ss) as ->.
  { unfold floor. rewrite (proj2 (Z.eqb_neq _ _)) by lia. rewrite (u64_small offset) by (unfold is_u64; lia).
    pose proof (Z.mul_div_le offset ss ltac:(lia)). pose proof (Z.div_pos offset ss ltac:(lia) ltac:(lia)).
    rewrite u64_small by (unfold is_u64; nia). by rewrite Z.div_mul by lia. }
  assert (0 <= last - offset `div` ss <= size + 1) as Hnum.
  { unfold last. pose proof (Z.div_mod (ends + ss - 1) ss ltac:(lia)). pose proof (Z.mod_pos_bound (ends + ss - 1) ss ltac:(lia)).
    pose proof (Z.div_mod offset ss ltac:(lia)). pose proof (Z.mod_pos_bound offset ss ltac:(lia)). unfold ends in *. nia. }
  rewrite (i32_small (last - offset `div` ss)) by lia. simpl.
  rewrite (u64_small offset), (u64_small (fctx_stripe_count ctx)) by (unfold is_u64; lia).
  pose proof (Z.mod_pos_bound (offset `div` ss) (fctx_stripe_count ctx) ltac:(lia)).
  rewrite (i32_small (_ `mod` _)) by lia. fold off_index.
  destruct (readv_loop_ok (Z.to_nat (last - offset `div` ss)) 0 offset) as (es & El & Hes & Hle).
  { unfold rloop_ok. destruct (decide (last = offset `div` ss)) as [E|Hne]; [left|right; unfold ends; lia].
    split; [lia|]. pose proof (last_bounds offset) as Hb. pose proof (Z.mul_div_le offset ss ltac:(lia)). unfold ends in *. nia. }
  rewrite El. simpl. exists es. rewrite Hle, Z2Nat.id by lia. split_and!; [done..|lia].
Qed.

End Reading.
