(* ===== verification/StripeRequests.v ===== *)
(** * The striping translator: requests, and that each is answered once

    A request in progress: its local data, the calls that have not been answered,
    and the effects so far.  One of the calls that are out is answered, in any order,
    and its callback runs.  The callbacks count the answers, and the last one either
    answers the request or begins the next round of calls. *)

From stdpp Require Import base numbers list gmap strings relations.
From S2P Require Import Prelude StripeData Stripe StripeIO.
Open Scope Z_scope.

(** An answer of a child, the callback it is for, and the outcome of the
    allocations in the callback. *)
Record answer := mk_answer {
  a_cb : cbk; a_child : xlator; a_ret : Z; a_err : Z; a_payload : payload; a_allocs : bool * bool }.

Definition handle (this : stripe_xl) (a : answer) (l : stripe_local) : result :=
  stripe_callback this (a_allocs a) (a_cb a) (a_child a) (a_ret a) (a_err a) (a_payload a) l.

(** The callbacks of answers that arrive one after the other. *)
Fixpoint run_answers (this : stripe_xl) (answers : list answer) (l : stripe_local) : result :=
  match answers with
  | [] => Some (l, [])
  | a :: answers =>
      '(l, ev) ← handle this a l;
      '(l, ev') ← run_answers this answers l;
      Some (l, ev ++ ev')
  end.

(** ** The answers to a read *)

(** A good answer to the piece with number [a.1]: a vector and a [struct stat]. *)
Definition read_answer (k : Z) (c : xlator) (err : Z) (mem_len : Z) (vector : list iovec) (st : stat) : answer :=
  mk_answer (CB_readv k) c mem_len err (P_read vector st) (true, true).

Definition reply_of (a : answer) : readv_replies :=
  match a_payload a with
  | P_read vector st => mk_replies vector (Z.of_nat (length vector)) (a_ret a) (a_err a) st
  | _ => reply0
  end.

Definition index_of_answer (a : answer) : nat := match a_cb a with CB_readv k => Z.to_nat k | _ => 0%nat end.

(** An answer to one of [n] pieces that is not an error. *)
Definition good_read (n : nat) (a : answer) : Prop :=
  (exists k, a_cb a = CB_readv k) /\ 0 <= a_ret a /\ (index_of_answer a < n)%nat /\
  (exists vector st, a_payload a = P_read vector st) /\ a_allocs a = (true, true).

Definition put_reply (rs : list readv_replies) (a : answer) : list readv_replies :=
  <[index_of_answer a := reply_of a]> rs.

Lemma handle_read this n a l :
  good_read n a -> length (l_replies l) = n ->
  handle this a l =
    let l' := set_call_count (i32 (l_call_count l + 1)) (set_replies (put_reply (l_replies l) a) l) in
    Some (if l_call_count l' =? l_wind_count l
          then (set_replies [] l', [answer_read true (a_err a) (put_reply (l_replies l) a)])
          else (l', [])).
Proof.
  intros ((k & Ek) & Hr & Hi & (vec & st & Ep) & Ea) Hl. unfold handle, index_of_answer, put_reply, reply_of in *.
  rewrite Ek, Ep, Ea in *. unfold stripe_callback, stripe_readv_cbk, index_of_answer. rewrite Ek.
  destruct (lookup_lt_is_Some_2 (l_replies l) (Z.to_nat k)) as [old ->]; [lia|]. simpl.
  rewrite (proj2 (Z.leb_le _ _)) by lia. simpl. by case_match.
Qed.

(** The last answer, whichever it is, makes the callback answer with all of them. *)
Lemma run_reads this n answers l :
  Forall (good_read n) answers -> answers <> [] -> length (l_replies l) = n -> Z.of_nat n < 2 ^ 31 ->
  l_wind_count l = Z.of_nat n -> 0 <= l_call_count l ->
  l_call_count l + Z.of_nat (length answers) = Z.of_nat n ->
  exists l' err, run_answers this answers l =
    Some (l', [answer_read true err (foldl put_reply (l_replies l) answers)]).
Proof.
  intros HF. revert l. induction HF as [|a answers Ha HF IH]; intros l Hne Hl Hn Hw Hc Hsum; [done|].
  simpl in Hsum |- *. rewrite (handle_read _ n) by done. cbv zeta.
  set (l1 := set_call_count _ _).
  assert (l_call_count l1 = l_call_count l + 1) as E1.
  { unfold l1. simpl. unfold i32. rewrite Z.mod_small by lia. lia. }
  destruct answers as [|b answers].
  - rewrite E1, Hw. simpl in Hsum. rewrite (proj2 (Z.eqb_eq _ _)) by lia. simpl. eauto.
  - rewrite E1, Hw. rewrite (proj2 (Z.eqb_neq _ _)) by (simpl in Hsum; lia). cbn [mbind option_bind].
    destruct (IH l1) as (l' & err & E); [done| |done|done|lia|simpl in *; lia|].
    { unfold l1, put_reply. simpl. by rewrite length_insert. }
    rewrite E. simpl. eauto.
Qed.

(** The replies end up in the order of the pieces. *)
Lemma put_replies_lookup answers rs i :
  NoDup (map index_of_answer answers) ->
  foldl put_reply rs answers !! i =
  match list_find (fun a => index_of_answer a = i) answers with
  | Some (_, a) => if decide (i < length rs)%nat then Some (reply_of a) else None
  | None => rs !! i
  end.
Proof.
  revert rs. induction answers as [|a answers IH]; intros rs Hnd; [done|]. simpl in Hnd |- *.
  apply NoDup_cons in Hnd as [Ha Hnd]. rewrite IH by done.
  assert (length (put_reply rs a) = length rs) as -> by apply length_insert. unfold put_reply at 1.
  destruct (decide (index_of_answer a = i)) as [E|Hne]; simpl.
  - destruct (list_find _ answers) as [[j b]|] eqn:Ef; simpl.
    + apply list_find_Some in Ef as (Hj & Hb & _). destruct Ha. rewrite E, <-Hb.
      change (map index_of_answer answers) with (index_of_answer <$> answers).
      apply list_elem_of_fmap_2. by eapply list_elem_of_lookup_2.
    + rewrite E. case_decide; [by rewrite list_lookup_insert_eq|].
      rewrite list_lookup_insert_None, lookup_ge_None_2 by lia. done.
  - destruct (list_find _ answers) as [[j b]|]; simpl; [done|]. by rewrite list_lookup_insert_ne.
Qed.

(** ** Requests in progress *)

(** The calls among the effects of a handler, and the number of answers: a frame is
    answered by an [Unwind], or ends by a [Destroy]. *)
Definition winds (ev : list event) : list (cbk * xlator) :=
  omap (fun e => match e with Wind cb c _ => Some (cb, c) | _ => None end) ev.

Definition ends (e : event) : bool := match e with Unwind _ _ _ | Destroy => true | _ => false end.

Definition answered (ev : list event) : nat := length (List.filter ends ev).

Record request := mk_request {
  rq_local : stripe_local;
  rq_pending : list (cbk * xlator);
  rq_answers : nat }.

Definition start (s : started) : request := mk_request (fst s) (winds (snd s)) (answered (snd s)).

(** What a child may answer: an error, or what the callback expects.  The xattrs of a
    file are those that were given to it when it was made, or none.  That the xattrs of
    a file made by mknod can be set is an assumption, see [mknod_setxattr_stuck]. *)
Definition xattrs_ok (this : stripe_xl) (d : xattr_dict) : Prop :=
  d !! size_key this = None /\ d !! count_key this = None /\ d !! index_key this = None \/
  is_Some (d !! size_key this) /\ data_to_int32 <$> d !! count_key this = Some (child_count (private this)) /\
    exists index, data_to_int32 <$> d !! index_key this = Some index /\ 0 <= index < child_count (private this).

Definition shape_ok (this : stripe_xl) (cb : cbk) (p : payload) : Prop :=
  match cb, p with
  | (CB_fsync | CB_truncate | CB_setattr | CB_unlink | CB_first_rmdir | CB_writev), P_pair _ _ => True
  | CB_buf, P_buf _ => True
  | (CB_inode | CB_mknod), P_inode _ _ _ _ => True
  | CB_lookup, P_lookup _ _ _ _ => True
  | CB_statfs, P_statvfs _ => True
  | (CB_rename | CB_first_rename), P_rename _ _ _ _ _ => True
  | CB_create, P_create _ _ _ _ _ => True
  | CB_open_getxattr, P_xattr d => xattrs_ok this d
  | CB_lk, P_lock _ => True
  | CB_stats, P_stats _ => True
  | CB_readv _, P_read _ _ => True
  | (CB_common_inode | CB_unwind | CB_sh_make_entry | CB_sh_chown | CB_mknod_setxattr | CB_mknod_unlink
    | CB_create_setxattr | CB_create_unlink | CB_open | CB_opendir), _ => True
  | _, _ => False
  end.

Definition answer_ok (this : stripe_xl) (a : answer) : Prop :=
  (a_ret a = -1 \/ 0 <= a_ret a /\ shape_ok this (a_cb a) (a_payload a)) /\
  (a_cb a = CB_mknod_setxattr -> a_ret a <> -1).

Inductive req_step (this : stripe_xl) (r : request) : request -> Prop :=
| req_answer a p1 p2 l ev :
    rq_pending r = p1 ++ (a_cb a, a_child a) :: p2 ->
    answer_ok this a ->
    handle this a (rq_local r) = Some (l, ev) ->
    req_step this r (mk_request l ((p1 ++ p2) ++ winds ev) (rq_answers r + answered ev)).

(** A translator as [init] makes it, with fewer than 128 children. *)
Record this_ok (this : stripe_xl) : Prop := {
  to_count : child_count (private this) = Z.of_nat (length (children this));
  to_array : xl_array (private this) = children this;
  to_size : (2 <= length (children this) < 128)%nat }.

(** ** The rounds of a request *)

(** How many rounds of calls are left. *)
Definition rank (cb : cbk) : nat :=
  match cb with
  | CB_create => 3
  | CB_create_setxattr | CB_mknod | CB_open_getxattr | CB_first_rename | CB_first_rmdir => 2
  | _ => 1
  end.

(** The callbacks that count [call_count] down. *)
Definition counts (cb : cbk) : bool :=
  match cb with
  | CB_common_inode | CB_first_rename | CB_first_rmdir | CB_readv _ | CB_writev | CB_sh_make_entry | CB_sh_chown => false
  | _ => true
  end.

(** The context that is collected while a file is opened. *)
Definition open_ctx_ok (this : stripe_xl) (ctx : stripe_fd_ctx) : Prop :=
  let n := child_count (private this) in
  (fctx_stripe_count ctx = 0 /\ fctx_stripe_size ctx = 0 /\ fctx_xl_array ctx = None) \/
  (fctx_stripe_count ctx = n /\
   forall a, fctx_xl_array ctx = Some a -> Z.of_nat (length a) = n).

Definition extra (this : stripe_xl) (cb : cbk) (l : stripe_local) : Prop :=
  match cb with
  | CB_open_getxattr => is_Some (l_fd l) /\ forall ctx, l_fctx l = Some ctx -> open_ctx_ok this ctx
  | CB_open => is_Some (l_fctx l)
  | CB_mknod_setxattr => l_op_ret l <> -1
  | _ => True
  end.

(** A list of effects that ends a round with an answer. *)
Definition one_answer (ev : list event) : Prop := winds ev = [] /\ answered ev = 1%nat.

(** What the last callback of a round may do, and what the others do. *)
Definition round_end (this : stripe_xl) (cb : cbk) (l : stripe_local) (ev : list event) : Prop :=
  one_answer ev \/
  (exists cb', (rank cb' < rank cb)%nat /\ counts cb' = true /\ winds ev = map (pair cb') (children this) /\
     answered ev = 0%nat /\ l_call_count l = Z.of_nat (length (children this)) /\ extra this cb' l).

Definition round_goes_on (this : stripe_xl) (cb : cbk) (k : Z) (l : stripe_local) (ev : list event) : Prop :=
  winds ev = [] /\ answered ev = 0%nat /\ l_call_count l = k - 1 /\ extra this cb l.

Definition counted_ok (this : stripe_xl) (cb : cbk) (k : Z) (res : result) : Prop :=
  exists l ev, res = Some (l, ev) /\ (if k =? 1 then round_end this cb l ev else round_goes_on this cb k l ev).

(** ** Lemmas on the pieces of callbacks *)

Lemma winds_app e1 e2 : winds (e1 ++ e2) = winds e1 ++ winds e2.
Proof. apply omap_app. Qed.

Lemma answered_app e1 e2 : answered (e1 ++ e2) = (answered e1 + answered e2)%nat.
Proof. unfold answered. by rewrite List.filter_app, length_app. Qed.

Lemma winds_map (cb : cbk) (f : nat -> xlator -> fop) cs :
  winds (imap (fun i c => Wind cb c (f i c)) cs) = map (pair cb) cs.
Proof.
  unfold winds. revert f. induction cs as [|c cs IH]; intros f; [done|]. simpl. f_equal.
  specialize (IH (fun i => f (S i))). done.
Qed.

Lemma answered_map (cb : cbk) (f : nat -> xlator -> fop) cs :
  answered (imap (fun i c => Wind cb c (f i c)) cs) = 0%nat.
Proof.
  unfold answered. revert f. induction cs as [|c cs IH]; intros f; [done|]. simpl.
  specialize (IH (fun i => f (S i))). done.
Qed.

Lemma winds_all this cb f : winds (wind_all this cb f) = map (pair cb) (children this).
Proof. unfold wind_all, winds. induction (children this) as [|c cs IH]; [done|]. simpl. by f_equal. Qed.

Lemma answered_all this cb f : answered (wind_all this cb f) = 0%nat.
Proof. unfold wind_all, answered. by induction (children this). Qed.

Lemma note_error_count ret err l : l_call_count (note_error ret err l) = l_call_count l.
Proof. unfold note_error. by repeat case_match. Qed.
Lemma note_failure_count ret err l : l_call_count (note_failure ret err l) = l_call_count l.
Proof. unfold note_failure. by repeat case_match. Qed.
Lemma fail_if_failed_count l : l_call_count (fail_if_failed l) = l_call_count l.
Proof. unfold fail_if_failed. by case_match. Qed.
Lemma dec_call_count_ok l k : l_call_count l = k -> 0 <= k < 128 -> l_call_count (dec_call_count l) = k - 1.
Proof. intros Hk Hb. unfold dec_call_count. simpl. unfold i32. rewrite Z.mod_small by lia. lia. Qed.

(** Effects that are neither calls nor answers. *)
Definition quiet (ev : list event) : Prop := winds ev = [] /\ answered ev = 0%nat.

Lemma quiet_wipe l : quiet (snd (wipe_locs l)).
Proof. unfold wipe_locs, wipe_loc, wipe_loc2. by repeat case_match; simplify_eq/=. Qed.
Lemma quiet_unref_inode i : quiet (unref_inode i).
Proof. by destruct i. Qed.
Lemma quiet_unref_fd f : quiet (unref_fd f).
Proof. by destruct f. Qed.
Lemma quiet_unref_dict d : quiet (unref_dict d).
Proof. by destruct d. Qed.

(** ** The callbacks, one by one *)

Lemma one_answer_unwind ret err p ev : quiet ev -> one_answer (Unwind ret err p :: ev).
Proof.
  intros [H1 H2]. change (Unwind ret err p :: ev) with ([Unwind ret err p] ++ ev).
  split; rewrite ?winds_app, ?answered_app, ?H1, ?H2; done.
Qed.

Lemma one_answer_app e1 e2 : quiet e1 -> one_answer e2 -> one_answer (e1 ++ e2).
Proof. intros [H1 H2] [H3 H4]. split; rewrite ?winds_app, ?answered_app, ?H1, ?H2, ?H3, ?H4; done. Qed.

Lemma one_answer_cons e ev : quiet [e] -> one_answer ev -> one_answer (e :: ev).
Proof. apply (one_answer_app [e]). Qed.

Lemma quiet_app e1 e2 : quiet e1 -> quiet e2 -> quiet (e1 ++ e2).
Proof. intros [H1 H2] [H3 H4]. split; rewrite ?winds_app, ?answered_app, ?H1, ?H2, ?H3, ?H4; done. Qed.

Lemma quiet_nil : quiet [].
Proof. done. Qed.

Lemma quiet_ref_inode i : quiet (ref_inode i).
Proof. by destruct i. Qed.
Lemma quiet_ref_dict d : quiet (ref_dict d).
Proof. by destruct d. Qed.

Lemma quiet_cons e ev : quiet [e] -> quiet ev -> quiet (e :: ev).
Proof. apply (quiet_app [e]). Qed.

(** The end of a round, and a callback in its middle. *)
Lemma counted_end this cb k l' ev : k = 1 -> round_end this cb l' ev -> counted_ok this cb k (Some (l', ev)).
Proof. intros ->. exists l', ev. done. Qed.

Lemma counted_on this cb k l' ev :
  k <> 1 -> quiet ev -> l_call_count l' = k - 1 -> extra this cb l' -> counted_ok this cb k (Some (l', ev)).
Proof. intros Hne [Hw Ha] Hc Hx. exists l', ev. rewrite (proj2 (Z.eqb_neq _ _)) by done. done. Qed.

(** A callback in two parts: what is done with the answer, and the end of a round. *)
Lemma counted_split this cb k (m : result) (fin : stripe_local -> list event -> result) :
  (exists l1 ev1, m = Some (l1, ev1) /\ quiet ev1 /\ l_call_count l1 = k - 1 /\ extra this cb l1 /\
     (k = 1 -> exists l2 ev2, fin l1 ev1 = Some (l2, ev2) /\ round_end this cb l2 ev2)) ->
  counted_ok this cb k ('(l, ev) ← m; if l_call_count l =? 0 then fin l ev else Some (l, ev)).
Proof.
  intros (l1 & ev1 & -> & Hq & Hc & Hx & Hend). simpl. rewrite Hc. destruct (Z.eqb_spec (k - 1) 0) as [E|Hne].
  - destruct Hend as (l2 & ev2 & -> & Hr); [lia|]. by apply counted_end; [lia|].
  - by apply counted_on; [lia|..].
Qed.

(** Follows the structure of a list of effects. *)
Ltac effects :=
  repeat match goal with
  | |- one_answer (_ ++ _) => apply one_answer_app
  | |- one_answer (Unwind _ _ _ :: _) => apply one_answer_unwind
  | |- one_answer (_ :: _) => apply one_answer_cons
  | |- quiet (_ ++ _) => apply quiet_app
  | |- quiet (unref_inode _) => apply quiet_unref_inode
  | |- quiet (unref_fd _) => apply quiet_unref_fd
  | |- quiet (unref_dict _) => apply quiet_unref_dict
  | |- quiet (ref_inode _) => apply quiet_ref_inode
  | |- quiet (ref_dict _) => apply quiet_ref_dict
  | H : quiet ?e |- quiet ?e => exact H
  | H : forall a l, quiet _ |- quiet _ => apply H
  | |- quiet _ => split; reflexivity
  end.

Section Counted.
Context (this : stripe_xl) (cookie : xlator) (ret err : Z) (p : payload) (l : stripe_local) (k : Z).
Context (Hthis : this_ok this) (Hk : l_call_count l = k) (Hb : 1 <= k < 128).
Context (Hret : ret = -1 \/ 0 <= ret).

Lemma dec_count : l_call_count (dec_call_count l) = k - 1.
Proof using Hk Hb. apply dec_call_count_ok; [done|lia]. Qed.

(** Case analysis of a callback; what is left are its outcomes. *)
Ltac outcomes :=
  pose proof dec_count as Hdec; revert Hdec; generalize (dec_call_count l); intros l0 Hdec;
  repeat (case_match; simplify_eq/=); try (exfalso; lia);
  rewrite ?note_error_count, ?note_failure_count, ?fail_if_failed_count in *; simpl in *;
  repeat match goal with
  | H : (_ =? _) = true |- _ => apply Z.eqb_eq in H
  | H : (_ =? _) = false |- _ => apply Z.eqb_neq in H
  | H : wipe_locs ?x = (_, ?e) |- _ =>
      let Q := fresh "Q" in assert (quiet e) as Q by (pose proof (quiet_wipe x) as Q; by rewrite H in Q); clear H
  end;
  repeat match goal with
  | H : (_ && _)%bool = true |- _ => apply andb_true_iff in H as [H ?]
  | H : (_ <=? _) = true |- _ => apply Z.leb_le in H
  end;
  try match goal with H : _ = -1 \/ False |- _ => exfalso; destruct H; [lia|done] end; try (exfalso; lia).

Ltac counted :=
  outcomes;
  first [ apply counted_end; [lia|left; by effects]
        | apply counted_on; [lia|by effects|simpl; rewrite ?note_error_count, ?note_failure_count; (done || lia)|done] ].

Lemma unwind_counted : counted_ok this CB_unwind k (stripe_stack_unwind_cbk ret err l).
Proof using Hk Hb. unfold stripe_stack_unwind_cbk. counted. Qed.

Lemma fsync_counted (Hp : ret = -1 \/ shape_ok this CB_fsync p) : counted_ok this CB_fsync k (stripe_fsync_cbk this cookie ret err p l).
Proof using Hk Hb Hret. unfold stripe_fsync_cbk, collect_pair, answer_pair. counted. Qed.

Lemma truncate_counted (Hp : ret = -1 \/ shape_ok this CB_truncate p) : counted_ok this CB_truncate k (stripe_truncate_cbk this cookie ret err p l).
Proof using Hk Hb Hret. unfold stripe_truncate_cbk, collect_pair, answer_pair. counted. Qed.

Lemma setattr_counted (Hp : ret = -1 \/ shape_ok this CB_setattr p) : counted_ok this CB_setattr k (stripe_setattr_cbk this cookie ret err p l).
Proof using Hk Hb Hret. unfold stripe_setattr_cbk, collect_pair, answer_pair. counted. Qed.

Lemma unlink_counted (Hp : ret = -1 \/ shape_ok this CB_unlink p) : counted_ok this CB_unlink k (stripe_stack_unwind_unlink_cbk this cookie ret err p l).
Proof using Hk Hb Hret. unfold stripe_stack_unwind_unlink_cbk. counted. Qed.

Lemma buf_counted (Hp : ret = -1 \/ shape_ok this CB_buf p) : counted_ok this CB_buf k (stripe_stack_unwind_buf_cbk this cookie ret err p l).
Proof using Hk Hb Hret. unfold stripe_stack_unwind_buf_cbk. counted. Qed.

Lemma inode_counted (Hp : ret = -1 \/ shape_ok this CB_inode p) : counted_ok this CB_inode k (stripe_stack_unwind_inode_cbk this cookie ret err p l).
Proof using Hk Hb Hret. unfold stripe_stack_unwind_inode_cbk. counted. Qed.

Lemma quiet_heal alloc l' : quiet (stripe_entry_self_heal this alloc l').
Proof. unfold stripe_entry_self_heal. by repeat case_match. Qed.

Lemma lookup_counted alloc (Hp : ret = -1 \/ shape_ok this CB_lookup p) : counted_ok this CB_lookup k (stripe_lookup_cbk this cookie ret err p alloc l).
Proof using Hk Hb Hret.
  pose proof quiet_heal as Hheal. unfold stripe_lookup_cbk. pose proof dec_count as Hdec. revert Hdec.
  generalize (dec_call_count l). intros l0 Hdec. set (l1 := if ret =? -1 then _ else _).
  assert (l_call_count l1 = k - 1) as H1 by (unfold l1; by repeat case_match). clearbody l1.
  apply (counted_split this CB_lookup k _ (fun l ev => _)). destruct (0 <=? ret) eqn:Er.
  - destruct Hp as [Hp|Hp]; [apply Z.leb_le in Er; lia|]. destruct p; try done.
    destruct (is_first_child this cookie) eqn:Ef; do 2 eexists; (split; [done|]); split_and!; try done; try (by effects);
      intros _; do 2 eexists; (split; [done|]); left; case_match; by effects.
  - do 2 eexists. split; [done|]. split_and!; [done..|]. intros _. do 2 eexists. (split; [done|]). left.
    case_match; by effects.
Qed.

Lemma statfs_counted (Hp : ret = -1 \/ shape_ok this CB_statfs p) : counted_ok this CB_statfs k (stripe_statfs_cbk ret err p l).
Proof using Hk Hb Hret. unfold stripe_statfs_cbk. counted. Qed.

Lemma rename_counted (Hp : ret = -1 \/ shape_ok this CB_rename p) : counted_ok this CB_rename k (stripe_stack_rename_cbk ret err p l).
Proof using Hk Hb Hret. unfold stripe_stack_rename_cbk. counted. Qed.

Lemma opendir_counted : counted_ok this CB_opendir k (stripe_opendir_cbk ret err l).
Proof using Hk Hb Hret. unfold stripe_opendir_cbk. counted. Qed.

Lemma lk_counted (Hp : ret = -1 \/ shape_ok this CB_lk p) : counted_ok this CB_lk k (stripe_lk_cbk this cookie ret err p l).
Proof using Hk Hb Hret. unfold stripe_lk_cbk. counted. Qed.

Lemma stats_counted (Hp : ret = -1 \/ shape_ok this CB_stats p) : counted_ok this CB_stats k (stripe_stats_cbk ret err p l).
Proof using Hk Hb Hret. unfold stripe_stats_cbk. counted. Qed.

(** A round that begins another one on all children. *)
Lemma next_round cb cb' l' ev ev' :
  (rank cb' < rank cb)%nat -> counts cb' = true -> quiet ev -> winds ev' = map (pair cb') (children this) ->
  answered ev' = 0%nat -> l_call_count l' = child_count (private this) -> extra this cb' l' ->
  round_end this cb l' (ev ++ ev').
Proof using Hthis.
  intros Hr Hc [Hw Ha] Hw' Ha' Hn Hx. right. exists cb'. destruct Hthis as [Hcc _ _].
  split_and!; [done|done| | |by rewrite Hn, Hcc|done]; rewrite ?winds_app, ?answered_app, ?Hw, ?Ha; done.
Qed.

Lemma mknod_unlink_counted : counted_ok this CB_mknod_unlink k (stripe_mknod_ifreg_fail_unlink_cbk l).
Proof using Hk Hb. unfold stripe_mknod_ifreg_fail_unlink_cbk. counted. Qed.

Lemma mknod_setxattr_counted (Hne : ret <> -1) :
  l_op_ret l <> -1 -> counted_ok this CB_mknod_setxattr k (stripe_mknod_ifreg_setxattr_cbk this ret err l).
Proof using Hk Hb Hret.
  intros Ho. unfold stripe_mknod_ifreg_setxattr_cbk. rewrite (proj2 (Z.eqb_neq ret _)) by done.
  assert (l_op_ret (dec_call_count l) <> -1) as Ho' by done. revert Ho'. outcomes; intros Ho'; try done;
    [apply counted_end; [lia|left; by effects]|apply counted_on; [lia|done|lia|done]].
Qed.

Lemma mknod_counted (Hp : ret = -1 \/ shape_ok this CB_mknod p) : counted_ok this CB_mknod k (stripe_mknod_ifreg_cbk this cookie ret err p l).
Proof using Hk Hb Hret Hthis.
  unfold stripe_mknod_ifreg_cbk. outcomes;
    try (first [ apply counted_on; [lia|done|simpl; rewrite ?note_failure_count; (done || lia)|done]
               | apply counted_end; [lia|left; by effects] ]).
  all: apply counted_end; [lia|].
  all: apply (next_round _ CB_mknod_setxattr _ []); [simpl; lia|done|done| | |done|].
  all: rewrite ?winds_map, ?answered_map; try done.
  all: match goal with H : negb _ = true |- _ => by apply negb_true_iff, Z.eqb_neq in H end.
Qed.

Lemma create_unlink_counted : counted_ok this CB_create_unlink k (stripe_create_fail_unlink_cbk l).
Proof using Hk Hb. unfold stripe_create_fail_unlink_cbk, answer_create. counted. Qed.

Lemma create_setxattr_counted : counted_ok this CB_create_setxattr k (stripe_create_setxattr_cbk this ret err l).
Proof using Hk Hb Hthis Hret.
  unfold stripe_create_setxattr_cbk, answer_create. outcomes;
    try (first [ apply counted_on; [lia|done|simpl; (done || lia)|done]
               | apply counted_end; [lia|left; by effects] ]).
  all: apply counted_end; [lia|].
  all: apply (next_round _ CB_create_unlink _ []); [simpl; lia|done|done| | |done|done].
  all: first [apply (winds_all this) | apply (answered_all this)].
Qed.

Lemma create_counted alloc (Hp : ret = -1 \/ shape_ok this CB_create p) :
  counted_ok this CB_create k (stripe_create_cbk this cookie ret err p alloc l).
Proof using Hk Hb Hret Hthis.
  assert (take (Z.to_nat (child_count (private this))) (xl_array (private this)) = children this) as Hx.
  { destruct Hthis as [Hc Ha _]. rewrite Hc, Ha, Nat2Z.id. by apply take_ge. }
  unfold stripe_create_cbk, wind_setxattrs, answer_create. rewrite Hx. outcomes;
    try (first [ apply counted_on; [lia|done|simpl; rewrite ?note_failure_count; (done || lia)|done]
               | apply counted_end; [lia|left; by effects] ]).
  all: apply counted_end; [lia|].
  all: try (apply (next_round _ CB_create_setxattr _ [_]); [simpl; lia|done|done| | |done|done];
            by rewrite ?winds_map, ?answered_map).
  all: apply (next_round _ CB_create_setxattr _ []); [simpl; lia|done|done| | |done|done];
            by rewrite ?winds_map, ?answered_map.
Qed.

Lemma open_counted : extra this CB_open l -> counted_ok this CB_open k (stripe_open_cbk ret err l).
Proof using Hk Hb Hret.
  intros Hx. assert (l_fctx (dec_call_count l) = l_fctx l) as Ef by done. revert Ef.
  unfold stripe_open_cbk. pose proof dec_count as Hdec. revert Hdec. generalize (dec_call_count l). intros l0 Hdec Ef.
  simpl in Hx. rewrite <-Ef in Hx. set (l1 := if 0 <=? ret then _ else _).
  assert (l_call_count l1 = k - 1) as H1 by (unfold l1; case_match; simpl; by rewrite note_failure_count).
  assert (l_fctx (fail_if_failed l1) = l_fctx l0 /\ l_fctx l1 = l_fctx l0) as [H2 H3].
  { unfold l1, note_failure, fail_if_failed. by repeat case_match. }
  clearbody l1. rewrite H1. destruct (Z.eqb_spec (k - 1) 0).
  - destruct Hx as [ctx Hx]. rewrite H2, Hx. case_match; simpl; apply counted_end; try lia; left; by effects.
  - apply counted_on; [lia|done|done|]. simpl. by rewrite H3.
Qed.


(** What an answer with xattrs leaves: a good context, or an error. *)
Definition got_xattrs (l0 l1 : stripe_local) : Prop :=
  l_call_count l1 = l_call_count l0 /\ l_fd l1 = l_fd l0 /\ l_loc l1 = l_loc l0 /\
  (forall ctx, l_fctx l1 = Some ctx -> open_ctx_ok this ctx) /\ (l_fctx l1 = None -> l_op_ret l1 = -1).

Lemma getxattr_index_ok d index ctx l0 :
  data_to_int32 <$> d !! index_key this = Some index ->
  0 <= index < child_count (private this) -> open_ctx_ok this ctx -> l_fctx l0 = Some ctx ->
  exists l1, getxattr_index this cookie d ctx l0 = Some l1 /\ got_xattrs l0 l1.
Proof using Hthis.
  clear Hk Hb Hret. intros Hx Hi Hctx Hl. destruct Hthis as [Hcc _ Hn]. unfold getxattr_index.
  destruct (d !! index_key this) as [data|]; [|done]. injection Hx as ->.
  rewrite (proj2 (Z.ltb_ge _ _)) by lia. unfold getxattr_store.
  destruct (fctx_xl_array ctx) as [arr|] eqn:Ea; simpl.
  - destruct Hctx as [(_ & _ & E)|[Hcnt Harr]]; [congruence|]. rewrite (Harr arr Ea).
    rewrite (proj2 (Z.leb_le _ _)), (proj2 (Z.ltb_lt _ _)) by lia. simpl. eexists. split; [done|].
    split_and!; [done..| |done]. intros ctx' [= <-]. right. simpl. split; [done|]. intros a [= <-].
    rewrite length_insert. by apply Harr.
  - eexists. split; [done|]. split_and!; [done..| |done]. by intros ctx' [= <-].
Qed.

Lemma getxattr_reply_ok allocs d l0 :
  xattrs_ok this d -> (forall ctx, l_fctx l0 = Some ctx -> open_ctx_ok this ctx) ->
  exists l1, getxattr_reply this cookie allocs d l0 = Some l1 /\ got_xattrs l0 l1.
Proof using Hthis.
  clear Hk Hb Hret. intros Hd Hl. unfold getxattr_reply. set (m := if l_fctx l0 then _ else _).
  destruct m as [ctx|] eqn:Em.
  2: { eexists. split; [done|]. split_and!; done. }
  assert (open_ctx_ok this ctx) as Hctx.
  { unfold m in Em. destruct (l_fctx l0) as [c|]; [simplify_eq; auto|]. destruct (fst allocs); [|done].
    injection Em as <-. by left. }
  clear Em m. pose proof Hthis as [Hcc _ Hn]. unfold getxattr_size, getxattr_count.
  destruct Hd as [(-> & -> & _)|([sz ->] & Hcount & index & Hindex & Hi)].
  { simpl. eexists. split; [done|]. split_and!; [done..| |done]. by intros ctx' [= <-]. }
  destruct (d !! count_key this) as [data|]; [|done]. injection Hcount as ->.
  set (n := child_count (private this)) in *.
  set (ctx1 := if fctx_stripe_size ctx =? 0 then _ else _).
  assert (fctx_xl_array ctx1 = fctx_xl_array ctx /\ fctx_stripe_count ctx1 = fctx_stripe_count ctx) as [E1 E2]
    by (unfold ctx1; by case_match).
  clearbody ctx1. unfold getxattr_array. rewrite E1. destruct (fctx_xl_array ctx) as [arr|] eqn:Ea.
  - destruct Hctx as [(_ & _ & E)|[Hcnt Harr]]; [congruence|]. rewrite E2, Hcnt, Z.eqb_refl. simpl.
    edestruct (getxattr_index_ok d index ctx1) as (l1 & E & Hg); [done|done| | |rewrite E; by exists l1].
    + right. split; [by rewrite E2|]. rewrite E1. intros a [= <-]. by apply Harr.
    + done.
  - rewrite (proj2 (Z.eqb_neq n 0)) by lia. cbn [fctx_stripe_count]. rewrite Z.eqb_refl. simpl.
    edestruct (getxattr_index_ok d index) as (l1 & E & Hg); [done|done| | |rewrite E; by exists l1].
    + right. simpl. split; [done|]. intros a. case_match; [|done]. intros [= <-]. rewrite length_replicate. lia.
    + done.
Qed.

Lemma getxattr_counted allocs (Hp : ret = -1 \/ shape_ok this CB_open_getxattr p) :
  extra this CB_open_getxattr l -> counted_ok this CB_open_getxattr k (stripe_open_getxattr_cbk this cookie ret err p allocs l).
Proof using Hk Hb Hret Hthis.
  intros [Hfd Hctx]. unfold stripe_open_getxattr_cbk. pose proof dec_count as Hdec.
  assert (l_fctx (dec_call_count l) = l_fctx l /\ l_fd (dec_call_count l) = l_fd l) as [Ef Ed] by done. revert Hdec Ef Ed.
  generalize (dec_call_count l). intros l0 Hdec Ef Ed. rewrite <-Ef in Hctx. rewrite <-Ed in Hfd.
  assert (exists l1, (if ret =? -1 then _ else _) = Some l1 /\ got_xattrs l0 l1) as (l1 & -> & Hc & Hf & _ & Hx & Hn).
  { destruct (Z.eqb_spec ret (-1)) as [->|Hne].
    - eexists. split; [done|]. split_and!; repeat case_match; done.
    - destruct Hp as [Hp|Hp]; [done|]. destruct p; try done. by apply getxattr_reply_ok. }
  simpl. rewrite Hc, Hdec. destruct (Z.eqb_spec (k - 1) 0).
  2: { apply counted_on; [lia|done|lia|]. simpl. by rewrite Hf. }
  destruct (Z.eqb_spec (l_op_ret l1) 0) as [E0|E0]; simpl; [|apply counted_end; [lia|left; by effects]].
  destruct (l_fctx l1) as [ctx|] eqn:E1; [|specialize (Hn eq_refl); lia]. simpl. specialize (Hx ctx eq_refl).
  case_match; [apply counted_end; [lia|left; by effects]|].
  destruct (Z.eqb_spec (fctx_stripe_size ctx) 0) as [Es|Es]; [apply counted_end; [lia|left; by effects]|].
  rewrite Hf. destruct Hfd as [fd ->]. simpl. apply counted_end; [lia|].
  apply (next_round _ CB_open _ []); [simpl; lia|done|done|apply winds_all|apply answered_all| |].
  - simpl. destruct Hx as [(_ & ? & _)|[? _]]; done.
  - simpl. by rewrite E1.
Qed.

End Counted.

(** All callbacks that count. *)
Lemma handle_counted this a l k :
  this_ok this -> counts (a_cb a) = true -> answer_ok this a -> l_call_count l = k -> 1 <= k < 128 ->
  extra this (a_cb a) l -> counted_ok this (a_cb a) k (handle this a l).
Proof.
  intros Ht Hc [Hr Hm] Hk Hb Hx. destruct a as [cb c ret err p allocs]. unfold handle. simpl in *.
  assert (ret = -1 \/ 0 <= ret) as Hret by tauto.
  assert (ret = -1 \/ shape_ok this cb p) as Hp by tauto. clear Hr.
  destruct cb; try done; simpl;
    eauto using unwind_counted, fsync_counted, unlink_counted, truncate_counted, buf_counted, inode_counted, lookup_counted,
      statfs_counted, setattr_counted, rename_counted, mknod_counted, mknod_setxattr_counted, mknod_unlink_counted,
      create_counted, create_setxattr_counted, create_unlink_counted, open_counted, getxattr_counted, opendir_counted,
      lk_counted, stats_counted.
Qed.

(** ** The invariant of a request *)

(** The calls that are made once, before or instead of a round. *)
Definition single (cb : cbk) : bool :=
  match cb with CB_common_inode | CB_first_rename | CB_first_rmdir => true | _ => false end.

Record in_round (this : stripe_xl) (cb : cbk) (l : stripe_local) (pending : list (cbk * xlator)) : Prop := {
  ir_some : pending <> [];
  ir_same : Forall (fun p => p.1 = cb) pending;
  ir_bound : (length pending <= length (children this))%nat;
  ir_kind : (counts cb = true /\ l_call_count l = Z.of_nat (length pending) /\ extra this cb l) \/
    (single cb = true /\ length pending = 1%nat /\
     (cb <> CB_common_inode -> l_call_count l = Z.of_nat (length (children this)))) }.

Definition req_inv (this : stripe_xl) (r : request) : Prop :=
  (rq_pending r = [] /\ rq_answers r = 1%nat) \/
  (exists cb, rq_answers r = 0%nat /\ in_round this cb (rq_local r) (rq_pending r)).

(** A bound on the number of answers that are still to come. *)
Definition to_come (this : stripe_xl) (r : request) : nat :=
  match rq_pending r with
  | [] => 0
  | (cb, _) :: _ => rank cb * S (length (children this)) + length (rq_pending r)
  end.

(** The callbacks of the single calls. *)
Lemma wind_rest_ok this cb f :
  winds (wind_rest this cb f) = map (pair cb) (tail (children this)) /\ answered (wind_rest this cb f) = 0%nat.
Proof.
  unfold wind_rest, winds, answered. destruct (children this) as [|c0 cs]; [done|]. simpl.
  induction cs as [|c cs [IH1 IH2]]; [done|]. simpl. split; [by f_equal|done].
Qed.

Lemma handle_single this a l :
  this_ok this -> single (a_cb a) = true -> answer_ok this a ->
  (a_cb a <> CB_common_inode -> l_call_count l = Z.of_nat (length (children this))) ->
  exists l' ev, handle this a l = Some (l', ev) /\
    (one_answer ev \/
     exists cb', (rank cb' < rank (a_cb a))%nat /\ counts cb' = true /\
       winds ev = map (pair cb') (tail (children this)) /\ answered ev = 0%nat /\
       l_call_count l' = Z.of_nat (length (children this)) - 1 /\ extra this cb' l').
Proof.
  intros [Hcc _ Hn] Hs [Hr _] Hk. destruct a as [cb c ret err p allocs]. unfold handle. simpl in *.
  destruct cb; try done; simpl.
  - do 2 eexists. split; [done|]. left. by effects.
  - unfold stripe_first_rename_cbk. destruct (Z.eqb_spec ret (-1)) as [->|Hne].
    + destruct (wipe_locs l) as [l' ev] eqn:E. do 2 eexists. split; [done|]. left.
      assert (quiet ev) by (pose proof (quiet_wipe l) as Q; by rewrite E in Q). by effects.
    + destruct Hr as [?|[_ Hp]]; [done|]. destruct p; try done. do 2 eexists. split; [done|]. right. exists CB_rename.
      destruct (wind_rest_ok this CB_rename (F_rename (local_loc (l_loc l)) (local_loc (l_loc2 l)))) as [Hw Ha].
      split_and!; [simpl; lia|done|exact Hw|exact Ha| |done].
      simpl. rewrite Hk by done. unfold i32. rewrite Z.mod_small by lia. lia.
  - unfold stripe_first_rmdir_cbk. destruct (Z.eqb_spec ret (-1)) as [->|Hne].
    + do 2 eexists. split; [done|]. left. by effects.
    + destruct Hr as [?|[_ Hp]]; [done|]. destruct p; try done. do 2 eexists. split; [done|]. right. exists CB_unlink.
      destruct (wind_rest_ok this CB_unlink (F_rmdir (local_loc (l_loc l)))) as [Hw Ha].
      split_and!; [simpl; lia|done|exact Hw|exact Ha| |done].
      simpl. rewrite Hk by done. unfold i32. rewrite Z.mod_small by lia. lia.
Qed.

(** ** Steps *)

Lemma in_round_split this cb l p1 cb' c p2 :
  in_round this cb l (p1 ++ (cb', c) :: p2) -> cb' = cb /\ Forall (fun p => p.1 = cb) (p1 ++ p2).
Proof.
  intros [_ HF _ _]. apply Forall_app in HF as [H1 H2]. apply Forall_cons in H2 as [H2 H3]. split; [done|].
  by apply Forall_app.
Qed.

Lemma Forall_pair (cb : cbk) (cs : list xlator) : Forall (fun p : cbk * xlator => p.1 = cb) (map (pair cb) cs).
Proof. by induction cs; constructor. Qed.

Lemma to_come_split this r cb l p1 c p2 :
  rq_pending r = p1 ++ (cb, c) :: p2 -> in_round this cb l (rq_pending r) ->
  to_come this r = (rank cb * S (length (children this)) + S (length (p1 ++ p2)))%nat.
Proof.
  intros Hpend [_ HF _ _]. unfold to_come. rewrite Hpend in HF |- *. destruct p1 as [|[cb1 c1] p1]; simpl; [done|].
  inversion HF as [|? ? E _]. simpl in E. rewrite E, !length_app. simpl. lia.
Qed.

(** The request is answered. *)
Lemma answered_step this r l p ev :
  rq_answers r = 0%nat -> p = [] -> one_answer ev -> (0 < to_come this r)%nat ->
  let r' := mk_request l (p ++ winds ev) (rq_answers r + answered ev) in
  req_inv this r' /\ (to_come this r' < to_come this r)%nat.
Proof. intros Hz -> [Hw Ha] Hm. cbv zeta. rewrite Hw, Ha, Hz. split; [by left|done]. Qed.

(** A further round begins. *)
Lemma next_round_step this r l p ev cb cb' cs :
  rq_answers r = 0%nat -> p = [] -> to_come this r = (rank cb * S (length (children this)) + 1)%nat ->
  (rank cb' < rank cb)%nat -> counts cb' = true ->
  winds ev = map (pair cb') cs -> cs <> [] -> (length cs <= length (children this))%nat -> answered ev = 0%nat ->
  l_call_count l = Z.of_nat (length cs) -> extra this cb' l ->
  let r' := mk_request l (p ++ winds ev) (rq_answers r + answered ev) in
  req_inv this r' /\ (to_come this r' < to_come this r)%nat.
Proof.
  intros Hz -> Hm Hrank Hcount Hw Hcs Hle Hans Hcc Hx. cbv zeta. rewrite Hw, Hans, Hz. split.
  - right. exists cb'. split; [done|]. split; simpl; [by destruct cs|apply Forall_pair|by rewrite length_map|].
    left. by rewrite length_map.
  - rewrite Hm. unfold to_come. simpl. destruct cs as [|c0 cs]; [done|]. simpl in Hle |- *. rewrite length_map. nia.
Qed.

(** An answer is handled, the invariant is kept, and there is less to come. *)
Lemma answer_step this r a p1 p2 :
  this_ok this -> req_inv this r -> rq_pending r = p1 ++ (a_cb a, a_child a) :: p2 -> answer_ok this a ->
  exists l ev, handle this a (rq_local r) = Some (l, ev) /\
    let r' := mk_request l ((p1 ++ p2) ++ winds ev) (rq_answers r + answered ev) in
    req_inv this r' /\ (to_come this r' < to_come this r)%nat.
Proof.
  intros Ht [[Hp _]|(cb & Hz & Hr)] Hpend Ha; [by rewrite Hp in Hpend; destruct p1|].
  pose proof Hr as Hr'. rewrite Hpend in Hr'. destruct (in_round_split _ _ _ _ _ _ _ Hr') as [Hcb HF]. subst cb.
  pose proof (to_come_split this r _ _ p1 _ p2 Hpend Hr) as Hm. pose proof Ht as [_ _ Hn].
  destruct Hr' as [_ _ Hlen Hkind]. rewrite length_app in Hlen, Hkind. simpl in Hlen, Hkind.
  destruct Hkind as [(Hc & Hcc & Hx)|(Hs & Hone & Hcc)].
  - destruct (handle_counted this a (rq_local r) (Z.of_nat (length p1 + S (length p2)))) as (l & ev & Eh & Hround);
      [done..|lia|done|].
    exists l, ev. split; [done|]. destruct (Z.eqb_spec (Z.of_nat (length p1 + S (length p2))) 1) as [E1|E1].
    + assert (p1 ++ p2 = []) as Hnil by (apply length_zero_iff_nil; rewrite length_app; lia).
      destruct Hround as [H1|(cb' & Hrank & Hcount & Hw & Hans & Hcc' & Hx')]; [apply answered_step; try done; lia|].
      apply (next_round_step _ _ _ _ _ (a_cb a) cb' (children this)); try done; [by rewrite Hm, Hnil|].
      intros E. rewrite E in Hn. simpl in Hn. lia.
    + destruct Hround as (Hw & Hans & Hcc' & Hx'). simpl. rewrite Hw, Hans, Hz, app_nil_r.
      assert (p1 ++ p2 <> []) as Hne by (intros E; apply (f_equal length) in E; rewrite length_app in E; simpl in E; lia).
      assert (in_round this (a_cb a) l (p1 ++ p2)) as Hr2.
      { split; [done|done|rewrite length_app; lia|]. left. rewrite length_app. split_and!; [done|lia|done]. }
      split; [right; by exists (a_cb a)|]. rewrite Hm. unfold to_come. simpl.
      destruct (p1 ++ p2) as [|[cb1 c1] p'] eqn:Ep; [done|]. inversion HF as [|? ? E _]. simpl in E. rewrite E. simpl. lia.
  - assert (p1 ++ p2 = []) as Hnil by (apply length_zero_iff_nil; rewrite length_app; lia).
    destruct (handle_single this a (rq_local r) Ht Hs Ha Hcc) as (l & ev & Eh & Hround). exists l, ev. split; [done|].
    destruct Hround as [H1|(cb' & Hrank & Hcount & Hw & Hans & Hcc' & Hx')]; [apply answered_step; try done; lia|].
    apply (next_round_step _ _ _ _ _ (a_cb a) cb' (tail (children this))); try done; try (by rewrite Hm, Hnil);
      destruct (children this) as [|c0 [|c1 cs]]; simpl in *; try lia; done.
Qed.

(** ** All requests *)

Inductive stripe_req :=
| R_lookup (loc : loc_t) (xattr_req : Z)
| R_stat (loc : loc_t)
| R_statfs (loc : loc_t)
| R_truncate (loc : loc_t) (offset : Z)
| R_setattr (loc : loc_t) (stbuf : stat) (valid : Z)
| R_fsetattr (fd : fd_t) (stbuf : stat) (valid : Z)
| R_rename (oldloc newloc : loc_t)
| R_unlink (loc : loc_t)
| R_rmdir (loc : loc_t)
| R_mknod (loc : loc_t) (mode rdev : Z)
| R_mkdir (loc : loc_t) (mode : Z)
| R_link (oldloc newloc : loc_t)
| R_create (loc : loc_t) (flags mode : Z) (fd : fd_t)
| R_open (alloc_ctx : bool) (loc : loc_t) (flags : Z) (fd : fd_t) (wbflags : Z)
| R_opendir (loc : loc_t) (fd : fd_t)
| R_lk (fd : fd_t) (cmd lock : Z)
| R_setdents (fd : fd_t) (flags entries count : Z)
| R_flush (fd : fd_t)
| R_fsync (fd : fd_t) (flags : Z)
| R_fstat (fd : fd_t)
| R_ftruncate (fd : fd_t) (offset : Z)
| R_fsyncdir (fd : fd_t) (flags : Z)
| R_stats (flags : Z).

(** The table of file operations, except for reads and writes. *)
Definition begin (this : stripe_xl) (alloc : bool) (fnmatch : string -> string -> bool) (q : stripe_req) : started :=
  match q with
  | R_lookup loc x => stripe_lookup this alloc loc x
  | R_stat loc => stripe_stat this alloc loc
  | R_statfs loc => stripe_statfs this alloc loc
  | R_truncate loc o => stripe_truncate this alloc loc o
  | R_setattr loc st v => stripe_setattr this alloc loc st v
  | R_fsetattr fd st v => stripe_fsetattr this alloc fd st v
  | R_rename a b => stripe_rename this alloc a b
  | R_unlink loc => stripe_unlink this alloc loc
  | R_rmdir loc => stripe_rmdir this alloc loc
  | R_mknod loc m d => stripe_mknod this alloc fnmatch loc m d
  | R_mkdir loc m => stripe_mkdir this alloc loc m
  | R_link a b => stripe_link this alloc a b
  | R_create loc f m fd => stripe_create this alloc fnmatch loc f m fd
  | R_open ac loc f fd w => stripe_open this alloc fnmatch ac loc f fd w
  | R_opendir loc fd => stripe_opendir this alloc loc fd
  | R_lk fd c k => stripe_lk this alloc fd c k
  | R_setdents fd f e n => stripe_setdents this alloc fd f e n
  | R_flush fd => stripe_flush this alloc fd
  | R_fsync fd f => stripe_fsync this alloc fd f
  | R_fstat fd => stripe_fstat this alloc fd
  | R_ftruncate fd o => stripe_ftruncate this alloc fd o
  | R_fsyncdir fd f => stripe_fsyncdir this alloc fd f
  | R_stats f => stripe_stats this alloc f
  end.

(** A request that goes to all children, after some effects. *)
Lemma all_inv this cb l ev f :
  this_ok this -> counts cb = true -> quiet ev -> l_call_count l = child_count (private this) -> extra this cb l ->
  req_inv this (start (l, ev ++ wind_all this cb f)).
Proof.
  intros [Hcc _ Hn] Hc [Hw Ha] Hk Hx. right. exists cb. unfold start. simpl.
  rewrite winds_app, answered_app, winds_all, answered_all, Hw, Ha. split; [done|].
  assert (children this <> []) by (intros E; rewrite E in Hn; simpl in Hn; lia).
  split; simpl; [by destruct (children this)|apply Forall_pair|by rewrite length_map|].
  left. by rewrite length_map, Hk, Hcc.
Qed.

Lemma fail_inv this err : req_inv this (start (fail_request err)).
Proof. by left. Qed.

Lemma first_inv this cb l ev f :
  this_ok this -> single cb = true -> quiet ev ->
  (cb <> CB_common_inode -> l_call_count l = child_count (private this)) ->
  req_inv this (start (l, ev ++ wind_first this cb f)).
Proof.
  intros [Hcc _ Hn] Hc [Hw Ha] Hk. right. exists cb. unfold start. simpl.
  rewrite winds_app, answered_app, Hw, Ha. unfold wind_first.
  destruct (children this) as [|c cs] eqn:E; [simpl in Hn; lia|]. split; [done|]. rewrite <-E in Hcc.
  split; simpl; [done|by repeat constructor|rewrite E; simpl; lia|]. right. split_and!; [done|done|].
  intros Hne. by rewrite Hk, Hcc.
Qed.

Lemma begin_inv this alloc fnmatch q : this_ok this -> req_inv this (start (begin this alloc fnmatch q)).
Proof.
  intros Ht. destruct q; simpl;
    unfold stripe_lookup, stripe_stat, stripe_statfs, stripe_truncate, stripe_setattr, stripe_fsetattr, stripe_rename,
      stripe_unlink, stripe_rmdir, stripe_mknod, stripe_mkdir, stripe_link, stripe_create, stripe_open, stripe_opendir,
      stripe_lk, stripe_setdents, stripe_flush, stripe_fsync, stripe_fstat, stripe_ftruncate, stripe_fsyncdir, stripe_stats;
    repeat case_match; simplify_eq/=; try apply fail_inv;
    try (by apply (all_inv _ _ _ [])); try (by apply (all_inv _ _ _ [_])); try (by apply (all_inv _ _ _ [_; _]));
    try (by apply (first_inv _ _ _ [])); try (by apply (first_inv _ _ _ [_])); try (by apply (first_inv _ _ _ [_; _])).
  - change (Loc_copy :: Fd_ref :: ?w) with ([Loc_copy; Fd_ref] ++ w). rewrite app_assoc.
    apply all_inv; [done|done|by effects|done|done].
  - by left.
  - apply (all_inv _ _ _ [_; _]); try done. simpl. by eexists.
Qed.

Lemma to_come_start this alloc fnmatch q :
  this_ok this -> (to_come this (start (begin this alloc fnmatch q)) <= 4 * S (length (children this)))%nat.
Proof.
  intros Ht. destruct (begin_inv this alloc fnmatch q Ht) as [[Hp _]|(cb & _ & [Hs HF Hle _])].
  - unfold to_come. rewrite Hp. lia.
  - unfold to_come. destruct (rq_pending _) as [|[cb1 c1] p]; [done|].
    assert (rank cb1 <= 3)%nat by (destruct cb1; simpl; lia). simpl in Hle |- *. nia.
Qed.

Lemma request_reachable_inv this alloc fnmatch q r :
  this_ok this -> rtc (req_step this) (start (begin this alloc fnmatch q)) r -> req_inv this r.
Proof.
  intros Ht. apply (rtc_ind_r (req_inv this)); [by apply begin_inv|].
  intros r1 r2 _ [a p1 p2 l ev Hp Ha Eh] Hinv.
  destruct (answer_step this r1 a p1 p2 Ht Hinv Hp Ha) as (l1 & ev1 & E1 & Hi & _). rewrite Eh in E1. by simplify_eq.
Qed.

Lemma steps_bound this r k r' :
  this_ok this -> req_inv this r -> nsteps (req_step this) k r r' -> (k + to_come this r' <= to_come this r)%nat.
Proof.
  intros Ht Hinv Hs. revert Hinv. induction Hs as [r|k r r1 r2 [a p1 p2 l ev Hp Ha Eh] _ IH]; intros Hinv; [done|].
  destruct (answer_step this r a p1 p2 Ht Hinv Hp Ha) as (l1 & ev1 & E1 & Hi & Hlt). rewrite Eh in E1. simplify_eq.
  specialize (IH Hi). lia.
Qed.

(** ** Theorems *)

(** C17: With 2 to 127 children, every request but reads and writes is answered
    exactly once.  In every state it can reach, by answers of the children in
    any order, either it is answered and no call is out, or calls are out, it is
    not answered yet, and the next answer is handled without a fault; and with n
    children it is answered after at most 4 (n + 1) answers.  Children may
    answer with any errors, except that the setxattr of a mknod must not fail,
    since that mknod would never be answered, and the xattrs found by an open
    are all absent or, from a stripe of the same number of children, all there.
    *)
Theorem stripe_request_answered_once this alloc fnmatch q k r :
  this_ok this -> nsteps (req_step this) k (start (begin this alloc fnmatch q)) r ->
  (rq_pending r = [] /\ rq_answers r = 1%nat \/
   rq_pending r <> [] /\ rq_answers r = 0%nat /\
   forall a, (a_cb a, a_child a) ∈ rq_pending r -> answer_ok this a -> is_Some (handle this a (rq_local r))) /\
  (k <= 4 * S (length (children this)))%nat.
Proof.
  intros Ht Hs. pose proof (begin_inv this alloc fnmatch q Ht) as H0.
  assert (req_inv this r) as Hinv by (eapply request_reachable_inv; [done|by eapply rtc_nsteps_2]). split.
  - destruct Hinv as [?|(cb & Hz & Hr)]; [by left|]. right. split_and!; [by destruct Hr|done|].
    intros a (p1 & p2 & Hp)%list_elem_of_split Ha.
    destruct (answer_step this r a p1 p2) as (l & ev & -> & _); [done|by right; exists cb|done|done|by eexists].
  - pose proof (steps_bound _ _ _ _ Ht H0 Hs) as Hb. etrans; [|apply (to_come_start this alloc fnmatch q Ht)]. lia.
Qed.


(** A rename of which the first child fails. *)
Lemma stripe_request_answered_once_witness :
  exists this r, rq_answers r = 1%nat /\ this_ok this /\
    nsteps (req_step this) 1 (start (begin this true (fun _ _ => false)
      (R_rename (mk_loc (Some "a"%string) (Some 5)) (mk_loc (Some "b"%string) None)))) r.
Proof.
  set (this := mk_xl [1; 2] (mk_private [] [1; 2] 4 0 false 2 [1; 1] true) "stripe"%string).
  assert (this_ok this) as Ht by (by split; simpl; [| |lia]).
  set (q := R_rename (mk_loc (Some "a"%string) (Some 5)) (mk_loc (Some "b"%string) None)).
  set (r := mk_request (new_local this) [] 1).
  set (a := mk_answer CB_first_rename 1 (-1) ENOENT P_null (true, true)).
  assert (handle this a (rq_local (start (begin this true (fun _ _ => false) q))) =
    Some (new_local this, [Loc_wipe; Loc_wipe; Unwind (-1) ENOENT P_null])) as Eh by (by vm_compute).
  assert (rq_pending (start (begin this true (fun _ _ => false) q)) = [] ++ (a_cb a, a_child a) :: []) as Ep by (by vm_compute).
  assert (answer_ok this a) as Ha by (split; [by left|done]).
  assert (nsteps (req_step this) 1 (start (begin this true (fun _ _ => false) q)) r) as Hs.
  { apply nsteps_once. exact (req_answer this _ a [] [] _ _ Ep Ha Eh). }
  exists this, r. split; [|by split].
  destruct (stripe_request_answered_once this true (fun _ _ => false) q 1 r Ht Hs) as [[[_ H]|[H _]] _]; done.
Defined.
