(* ===== verification/StripeFileProps.v ===== *)
(** * Striped files behave as files

    The refinement of pread(2), pwrite(2) and ftruncate(2) by the striping
    translator over children that have them: whatever the order in which the
    children work and answer. *)

From stdpp Require Import base numbers list gmap.
From S2P Require Import Prelude PosixFile StripeData Stripe StripeIO StripeFile StripeIOFacts StripeRequests.

Open Scope Z_scope.

(** ** Answers to a read *)

(** [a] answers the call [e] with what the child has. *)
Definition answers_read (mem : memory) (v : volume) (e : event) (a : answer) : Prop :=
  match e with
  | Wind (CB_readv k) c (F_readv _ n o) =>
      exists vector st err, vec_ok vector /\ iov_data mem vector = pread (vol_file v c) o n /\
        a = mk_answer (CB_readv k) c (Z.of_nat (length (pread (vol_file v c) o n))) err (P_read vector st) (true, true)
  | _ => False
  end.

Lemma read_pieces_good mem ctx v fd e o k es answers :
  read_pieces ctx fd e o k es -> 0 <= k -> Forall2 (answers_read mem v) es answers ->
  Forall (good_read (Z.to_nat k + length es)) answers /\
  map index_of_answer answers = seq (Z.to_nat k) (length es).
Proof.
  intros Hp. revert answers. induction Hp as [k|o k c n es _ _ _ _ IH]; intros answers Hk HF.
  { inversion HF. subst. split; [constructor|done]. }
  inversion HF as [|e0 a es0 answers0 Ha HF']. subst. destruct Ha as (vec & st & err & Hv & Hd & ->).
  destruct (IH answers0 ltac:(lia) HF') as [HG HM]. simpl. rewrite HM, Z2Nat.inj_add by lia.
  replace (Z.to_nat k + Z.to_nat 1)%nat with (S (Z.to_nat k)) in * by lia. split.
  - constructor.
    + split_and!; simpl; [by eexists|lia| |by do 2 eexists|done]. unfold index_of_answer. simpl. lia.
    + replace (Z.to_nat k + S (length es))%nat with (S (Z.to_nat k) + length es)%nat by lia.
      by replace (Z.to_nat (k + 1)) with (S (Z.to_nat k)) in HG by lia.
  - done.
Qed.

(** The vectors of the answers, in order, hold what the file has. *)
Lemma read_pieces_data mem ctx v fd e o k es answers :
  ctx_ok ctx -> dense ctx v -> read_pieces ctx fd e o k es -> 0 <= o ->
  Forall2 (answers_read mem v) es answers ->
  o <= e /\
  iov_data mem (map reply_of answers ≫= rr_vector) = pread (striped ctx v) o (e - o) /\
  foldr (fun r n => rr_op_ret r + n) 0 (map reply_of answers) = Z.of_nat (length (pread (striped ctx v) o (e - o))) /\
  Forall (fun r => 0 <= rr_op_ret r) (map reply_of answers).
Proof.
  intros Hok Hd Hp. revert answers. induction Hp as [k|o k c n es Hc Hn Hown _ IH]; intros answers Ho HF.
  { inversion HF. subst. rewrite Z.sub_diag. simpl. split_and!; [lia|done..|constructor]. }
  inversion HF as [|e0 a es0 answers0 Ha HF']. subst. destruct Ha as (vec & st & err & Hv & Hdat & ->).
  destruct (IH answers0 ltac:(lia) HF') as (Hle & Hcat & Hsum & Hpos).
  rewrite (striped_read ctx v c o n) in Hdat |- * by done.
  assert (pread (striped ctx v) o (e - o) = pread (striped ctx v) o n ++ pread (striped ctx v) (o + n) (e - (o + n))) as ->.
  { rewrite pread_app by lia. f_equal. lia. }
  split_and!; [lia| | |].
  - simpl. unfold iov_data in *. rewrite map_app, concat_app. unfold mbind in Hcat. by rewrite Hcat, Hdat.
  - simpl in Hsum |- *. rewrite Hsum, length_app. lia.
  - simpl. constructor; [simpl; lia|done].
Qed.

Lemma sum_replies_ok rs ret err size :
  Forall (fun r => 0 <= rr_op_ret r) rs -> 0 <= ret ->
  ret + foldr (fun r n => rr_op_ret r + n) 0 rs < 2 ^ 31 ->
  exists size', sum_replies rs ret err size = (ret + foldr (fun r n => rr_op_ret r + n) 0 rs, err, size').
Proof.
  intros HF. revert ret size. induction HF as [|r rs Hr HF IH]; intros ret size H0 Hlt; simpl in *.
  { eexists. do 2 f_equal. lia. }
  assert (0 <= foldr (fun r n => rr_op_ret r + n) 0 rs) by (clear -HF; induction HF; simpl; lia).
  rewrite (proj2 (Z.eqb_neq _ _)) by lia. rewrite i32_small by lia.
  destruct (IH (ret + rr_op_ret r) (if size <? st_size (rr_stbuf r) then st_size (rr_stbuf r) else size)) as [s' ->]; [lia..|].
  eexists. do 2 f_equal. lia.
Qed.

(** The replies, wherever they come from, are in the order of the pieces. *)
Lemma put_replies_sorted answers sorted n rs :
  answers ≡ₚ sorted -> map index_of_answer sorted = seq 0 n -> length rs = n ->
  foldl put_reply rs answers = map reply_of sorted.
Proof.
  intros Hp Hs Hl.
  assert (length sorted = n) as Hn by (rewrite <-(length_map index_of_answer), Hs, length_seq; done).
  assert (NoDup (map index_of_answer sorted)) as Hnd by (rewrite Hs; apply NoDup_seq).
  assert (NoDup (map index_of_answer answers)) as Hnd'.
  { change (NoDup (index_of_answer <$> answers)). rewrite Hp. done. }
  apply list_eq. intros i. rewrite put_replies_lookup by done.
  change (map reply_of sorted) with (reply_of <$> sorted). rewrite list_lookup_fmap.
  assert (forall a, a ∈ sorted -> sorted !! index_of_answer a = Some a) as Hat.
  { intros a [j Hj]%list_elem_of_lookup_1. pose proof (f_equal (fun l => l !! j) Hs) as Hsj. simpl in Hsj.
    change (map index_of_answer sorted) with (index_of_answer <$> sorted) in Hsj.
    rewrite list_lookup_fmap, Hj, lookup_seq_lt in Hsj by (apply lookup_lt_Some in Hj; lia).
    simpl in Hsj. injection Hsj as Hsj. by rewrite Hsj. }
  destruct (list_find _ answers) as [[j a]|] eqn:Ef.
  - apply list_find_Some in Ef as (Hj & Hi & _). assert (a ∈ sorted) as Hin.
    { rewrite <-Hp. by eapply list_elem_of_lookup_2. }
    pose proof (Hat a Hin) as Ha. rewrite Hi in Ha. rewrite Ha. simpl.
    rewrite decide_True; [done|]. apply lookup_lt_Some in Ha. lia.
  - apply list_find_None in Ef. destruct (decide (i < n)%nat) as [Hi|Hi].
    + destruct (lookup_lt_is_Some_2 sorted i) as [a Ha]; [lia|].
      assert (a ∈ sorted) as Hin by (by eapply list_elem_of_lookup_2). pose proof (Hat a Hin) as Hx.
      assert (index_of_answer a = i) as Ei.
      { apply (NoDup_lookup sorted (index_of_answer a) i a); [|done|done]. by eapply NoDup_fmap_1. }
      rewrite Forall_forall in Ef. destruct (Ef a); [by rewrite Hp|done].
    + rewrite !lookup_ge_None_2 by lia. done.
Qed.

(** ** Operations on a striped file *)

(** The operations of a user.  Every one has its own buffers. *)
Inductive file_op :=
| Op_write (mem : memory) (vector : list iovec) (offset : Z)
| Op_truncate (offset : Z)
| Op_read (size offset : Z).

(** On a plain file: the new contents, and what is read. *)
Definition file_step (f : file) (op : file_op) : file * list Z :=
  match op with
  | Op_write mem vector offset => (pwrite f offset (iov_data mem vector), [])
  | Op_truncate offset => (ftruncate f offset, [])
  | Op_read size offset => (f, pread f offset size)
  end.

(** On a striped one.  [order] is any order of the calls, or of the answers. *)
Inductive stripe_step (this : stripe_xl) (ctx : stripe_fd_ctx) (fd : fd_t) (v : volume) :
    file_op -> volume -> list Z -> Prop :=
| step_write mem vector offset l es order :
    stripe_writev (Some ctx) fd vector offset true = Some (l, es) -> order ≡ₚ es ->
    stripe_step this ctx fd v (Op_write mem vector offset) (foldl (perform mem) v order) []
| step_truncate offset l es order :
    stripe_ftruncate this true fd offset = (l, es) -> order ≡ₚ es ->
    stripe_step this ctx fd v (Op_truncate offset) (foldl (perform (fun _ => 0)) v order) []
| step_read size offset l es mem answers order l' ret err vector st :
    stripe_readv (Some ctx) fd size offset true true (fun _ => true) = Some (l, es) ->
    Forall2 (answers_read mem v) es answers -> order ≡ₚ answers ->
    run_answers this order l = Some (l', [Unwind ret err (P_read vector st)]) ->
    ret = Z.of_nat (length (iov_data mem vector)) ->
    stripe_step this ctx fd v (Op_read size offset) v (iov_data mem vector).

(** The requests that are considered: within the limits of the types, reads of at
    least a byte, and no write that leaves a hole behind the end. *)
Definition op_ok (ctx : stripe_fd_ctx) (f : file) (op : file_op) : Prop :=
  match op with
  | Op_write _ vector offset =>
      vec_ok vector /\ vlen vector < 2 ^ 31 /\ 0 <= offset <= Z.of_nat (length f) /\ offset + vlen vector < 2 ^ 63
  | Op_truncate offset => 0 <= offset
  | Op_read size offset => 0 <= offset /\ 0 < size < 2 ^ 30 /\ offset + size + fctx_stripe_size ctx < 2 ^ 62
  end.

(** The context names the children of the translator, and the fd is open. *)
Record serves (this : stripe_xl) (ctx : stripe_fd_ctx) (fd : fd_t) : Prop := {
  sv_ctx : ctx_ok ctx;
  sv_children : children this ≡ₚ stripe_children ctx;
  sv_fd : bad_fd fd = false }.

Section Refinement.
Context (this : stripe_xl) (ctx : stripe_fd_ctx) (fd : fd_t) (Hserves : serves this ctx fd).

Lemma write_sim mem vector offset v l es order :
  op_ok ctx (striped ctx v) (Op_write mem vector offset) -> dense ctx v ->
  stripe_writev (Some ctx) fd vector offset true = Some (l, es) -> order ≡ₚ es ->
  striped ctx (foldl (perform mem) v order) = pwrite (striped ctx v) offset (iov_data mem vector) /\
  dense ctx (foldl (perform mem) v order).
Proof using Hserves.
  intros (Hv & Hlen & Hoff & Hend) Hd Ew Hp. destruct Hserves as [Hok _ _]. rewrite striped_length in Hoff.
  destruct (stripe_writev_pieces mem ctx fd vector offset Hok Hv Hlen ltac:(lia) Hend) as (l1 & es1 & ps & Ew1 & HF & Hps).
  rewrite Ew in Ew1. simplify_eq. symmetry in Hp. destruct (Forall2_perm_l _ _ _ _ Hp HF) as (qs & Hq & HFq).
  rewrite (perform_pieces _ _ _ _ _ HFq).
  rewrite <-(write_pieces_perm ps qs Hq) by (eapply pieces_apart; [done|lia]). split.
  - by apply pieces_write; [..|lia].
  - by eapply pieces_dense.
Qed.

Lemma truncate_perform offset v cs :
  foldl (perform (fun _ => 0)) v (map (fun c => Wind CB_truncate c (F_ftruncate fd offset)) cs) = vol_truncate v cs offset.
Proof. unfold vol_truncate. revert v. induction cs as [|c cs IH]; intros v; [done|]. simpl. apply IH. Qed.

Lemma truncate_sim offset v l es order :
  stripe_ftruncate this true fd offset = (l, es) -> order ≡ₚ es ->
  striped ctx (foldl (perform (fun _ => 0)) v order) = ftruncate (striped ctx v) offset /\
  dense ctx (foldl (perform (fun _ => 0)) v order).
Proof using Hserves.
  destruct Hserves as [Hok Hch Hfd]. unfold stripe_ftruncate. rewrite Hfd. simpl. intros [= <- <-] Hp.
  unfold wind_all in Hp. apply Permutation_map_inv in Hp as (cs & -> & Hcs).
  rewrite truncate_perform. rewrite (vol_truncate_perm _ cs (stripe_children ctx)).
  - split; [by apply striped_truncate|by apply dense_truncate].
  - by rewrite <-Hcs.
Qed.

Lemma read_run mem size offset v l es answers order :
  op_ok ctx (striped ctx v) (Op_read size offset) -> dense ctx v ->
  stripe_readv (Some ctx) fd size offset true true (fun _ => true) = Some (l, es) ->
  Forall2 (answers_read mem v) es answers -> order ≡ₚ answers ->
  exists l' err vector st,
    run_answers this order l =
      Some (l', [Unwind (Z.of_nat (length (iov_data mem vector))) err (P_read vector st)]) /\
    iov_data mem vector = pread (striped ctx v) offset size.
Proof using Hserves.
  intros (Hoff & Hsize & Hend) Hd Er HF Hp. destruct Hserves as [Hok _ _].
  destruct (stripe_readv_pieces ctx fd size offset Hok Hoff ltac:(lia) Hend) as (es1 & Er1 & Hes & Hnum).
  rewrite Er in Er1. injection Er1 as -> ->.
  destruct (read_pieces_good mem _ v _ _ _ _ _ answers Hes ltac:(lia) HF) as [HG HM].
  destruct (read_pieces_data mem _ v _ _ _ _ _ answers Hok Hd Hes Hoff HF) as (_ & Hcat & Hsum & Hpos).
  replace (offset + size - offset) with size in * by lia.
  pose proof (pread_length (striped ctx v) offset size) as Hpl.
  assert (es1 <> []) as Hne. { intros ->. inversion Hes. lia. }
  pose proof (Forall2_length _ _ _ HF) as Hl.
  set (l := set_replies _ _).
  assert (length (l_replies l) = length es1) as Hrl by apply length_replicate.
  assert (Z.of_nat (length es1) < 2 ^ 31) as Hn by lia.
  destruct (run_reads this (length es1) order l) as (l' & err & Erun); [by rewrite Hp| | | |done|done| |].
  { intros ->. apply Permutation_nil_l in Hp. subst. simpl in Hl. by destruct es1. }
  { done. } { done. } { simpl. rewrite Hp, <-Hl. lia. }
  rewrite (put_replies_sorted order answers (length es1)) in Erun by (done || by rewrite HM).
  destruct (sum_replies_ok (map reply_of answers) 0 err (st_size (rr_stbuf (default reply0 (head (map reply_of answers))))))
    as [size' Es]; [done|lia|lia|].
  rewrite Erun. unfold answer_read. rewrite Es, Hsum, Z.add_0_l, (proj2 (Z.eqb_neq _ _)) by lia.
  do 4 eexists. split; [|exact Hcat]. by rewrite Hcat.
Qed.

(** A request is wound without a fault, and the answers to a read, whatever their
    order, are passed on together. *)
Definition goes_through (v : volume) (op : file_op) : Prop :=
  match op with
  | Op_write _ vector offset => exists l es, stripe_writev (Some ctx) fd vector offset true = Some (l, es)
  | Op_truncate _ => True
  | Op_read size offset =>
      exists l es, stripe_readv (Some ctx) fd size offset true true (fun _ => true) = Some (l, es) /\
        forall mem answers order, Forall2 (answers_read mem v) es answers -> order ≡ₚ answers ->
          exists l' ret err vector st, run_answers this order l = Some (l', [Unwind ret err (P_read vector st)])
  end.

Lemma op_goes_through v op : dense ctx v -> op_ok ctx (striped ctx v) op -> goes_through v op.
Proof using Hserves.
  intros Hd Ho. pose proof Hserves as [Hok _ _]. destruct op as [mem vector offset|offset|size offset]; cbn [goes_through]; [|done|].
  - destruct Ho as (Hv & Hlen & Hoff & Hend).
    destruct (stripe_writev_pieces mem ctx fd vector offset) as (l & es & _ & E & _); eauto; lia.
  - pose proof Ho as (Hoff & Hsize & Hend).
    destruct (stripe_readv_pieces ctx fd size offset Hok Hoff ltac:(lia) Hend) as (es & E & _).
    rewrite E. do 2 eexists. split; [done|]. intros mem answers order HF Hp.
    destruct (read_run _ _ _ _ _ _ _ _ Ho Hd E HF Hp) as (l' & err & vec & st & Er & _). eauto 6.
Qed.

Lemma step_sim v op v' r :
  dense ctx v -> op_ok ctx (striped ctx v) op -> stripe_step this ctx fd v op v' r ->
  file_step (striped ctx v) op = (striped ctx v', r) /\ dense ctx v'.
Proof using Hserves.
  intros Hd Ho Hs. destruct Hs as [mem vector offset l es order Ew Hp|offset l es order Et Hp
    |size offset l es mem answers order l' ret err vector st Er HF Hp Erun Hret]; simpl.
  - destruct (write_sim mem vector offset v l es order) as [-> Hd']; done.
  - destruct (truncate_sim offset v l es order) as [-> Hd']; done.
  - destruct (read_run _ _ _ _ _ _ _ _ Ho Hd Er HF Hp) as (l1 & err1 & vec1 & st1 & E & Hdat).
    rewrite Erun in E. simplify_eq. by rewrite <-Hdat.
Qed.

(** Several operations, one after the other. *)
Inductive stripe_run (v : volume) : list file_op -> volume -> list (list Z) -> Prop :=
| run_nil : stripe_run v [] v []
| run_cons op ops v1 v' r rs :
    stripe_step this ctx fd v op v1 r -> stripe_run v1 ops v' rs -> stripe_run v (op :: ops) v' (r :: rs).

Fixpoint file_run (f : file) (ops : list file_op) : file * list (list Z) :=
  match ops with
  | [] => (f, [])
  | op :: ops => let '(f, r) := file_step f op in let '(f, rs) := file_run f ops in (f, r :: rs)
  end.

Fixpoint ops_ok (f : file) (ops : list file_op) : Prop :=
  match ops with
  | [] => True
  | op :: ops => op_ok ctx f op /\ ops_ok (fst (file_step f op)) ops
  end.

Lemma run_sim v ops v' rs :
  dense ctx v -> ops_ok (striped ctx v) ops -> stripe_run v ops v' rs ->
  file_run (striped ctx v) ops = (striped ctx v', rs) /\ dense ctx v'.
Proof using Hserves.
  intros Hd Ho Hr. induction Hr as [|v op ops v1 v' r rs Hs _ IH]; simpl in *; [done|].
  destruct Ho as [Ho Hos]. destruct (step_sim _ _ _ _ Hd Ho Hs) as [Es Hd1]. rewrite Es in Hos |- *.
  destruct (IH Hd1 Hos) as [-> Hd']. done.
Qed.

End Refinement.

Lemma dense_empty ctx : dense ctx ∅.
Proof.
  intros o Ho. exfalso. unfold striped_size in Ho. induction (stripe_children ctx) as [|c cs IH]; simpl in Ho; [lia|].
  unfold vol_file in Ho at 1. rewrite lookup_empty in Ho. simpl in Ho. apply IH. lia.
Qed.

(** ** Theorems *)

(** C3: A file that is striped over several children behaves as one file.  Whatever
    the order in which the children perform the pieces of a write or a truncation
    and answer the pieces of a read, a sequence of operations that starts on a new
    file and leaves no hole behind its end reads what the same operations read from
    a plain file, and every further operation goes through. *)
Theorem stripe_file_refines this ctx fd ops v rs op :
  serves this ctx fd -> ops_ok ctx [] ops -> stripe_run this ctx fd ∅ ops v rs ->
  file_run [] ops = (striped ctx v, rs) /\
  (op_ok ctx (striped ctx v) op -> goes_through this ctx fd v op).
Proof.
  intros Hs Ho Hr. assert (striped ctx ∅ = []) as E.
  { apply length_zero_iff_nil. rewrite striped_length. unfold striped_size.
    induction (stripe_children ctx) as [|c cs IH]; [done|]. simpl. by rewrite IH. }
  rewrite <-E in Ho |- *. destruct (run_sim this ctx fd Hs _ _ _ _ (dense_empty ctx) Ho Hr) as [-> Hd].
  split; [done|]. by apply op_goes_through.
Qed.

Lemma two_children_serve : serves two_children two_ctx an_fd.
Proof. split; [split; simpl; [lia|lia|by exists [1; 2]]|done|done]. Qed.

(** Six bytes are written, the file is cut to five, and read; the second child answers
    before the first. *)
Lemma stripe_file_refines_witness :
  exists v, file_run [] [Op_write addresses [mk_iovec 10 6] 0; Op_truncate 5; Op_read 8 0] =
    (striped two_ctx v, [[]; []; [10; 11; 12; 13; 14]]).
Proof.
  set (w1 := Wind CB_writev 1 (F_writev an_fd [mk_iovec 10 4] 0)).
  set (w2 := Wind CB_writev 2 (F_writev an_fd [mk_iovec 14 2] 4)).
  set (v1 := <[1 := [10; 11; 12; 13]]> (<[2 := [0; 0; 0; 0; 14; 15]]> (∅ : volume))).
  set (v2 := <[1 := [10; 11; 12; 13; 0]]> (<[2 := [0; 0; 0; 0; 14]]> (∅ : volume))).
  set (a1 := mk_answer (CB_readv 0) 1 4 0 (P_read [mk_iovec 10 4] stat0) (true, true)).
  set (a2 := mk_answer (CB_readv 1) 2 1 0 (P_read [mk_iovec 14 1] stat0) (true, true)).
  assert (foldl (perform addresses) ∅ [w2; w1] = v1) as E1 by (by vm_compute).
  assert (foldl (perform (fun _ => 0)) v1 (wind_all two_children CB_truncate (F_ftruncate an_fd 5)) = v2) as E2 by (by vm_compute).
  assert (stripe_run two_children two_ctx an_fd ∅
    [Op_write addresses [mk_iovec 10 6] 0; Op_truncate 5; Op_read 8 0] v2 [[]; []; [10; 11; 12; 13; 14]]) as Hrun.
  { apply (run_cons _ _ _ _ _ _ v1).
    { rewrite <-E1. refine (step_write two_children two_ctx an_fd ∅ addresses [mk_iovec 10 6] 0
        (set_unwind true (set_wind_count 2 (set_stripe_size 4 local0))) [w1; w2] [w2; w1] _ _); [by vm_compute|].
      apply perm_swap. }
    apply (run_cons _ _ _ _ _ _ v2).
    { rewrite <-E2. by refine (step_truncate two_children two_ctx an_fd v1 5 (new_local two_children) _ _ _ _). }
    apply (run_cons _ _ _ _ _ _ v2); [|constructor].
    refine (step_read two_children two_ctx an_fd v2 8 0 (set_replies [reply0; reply0] (set_wind_count 2 local0))
      [Wind (CB_readv 0) 1 (F_readv an_fd 4 0); Wind (CB_readv 1) 2 (F_readv an_fd 4 4)] addresses [a1; a2] [a2; a1]
      (set_call_count 2 (set_replies [] (set_wind_count 2 local0))) 5 0 [mk_iovec 10 4; mk_iovec 14 1] stat0 _ _ _ _ _);
      [by vm_compute| |apply perm_swap|by vm_compute|by vm_compute].
    constructor; [exists [mk_iovec 10 4], stat0, 0|constructor; [exists [mk_iovec 14 1], stat0, 0|constructor]];
      (split; [constructor; [simpl; lia|constructor]|]); split; by vm_compute. }
  exists v2. refine (proj1 (stripe_file_refines two_children two_ctx an_fd _ v2 _ (Op_truncate 0) two_children_serve _ Hrun)).
  simpl. unfold vec_ok. split_and!; try done; try lia. repeat constructor; simpl; lia.
Defined.
