(* ===== verification/StripeWriteProps.v ===== *)
(** * The striping translator: answers to writes, and departures from the intent

    A write is answered while its pieces are still being wound: callbacks run
    between the turns of the loop.  The other theorems show inputs on which the code
    does not do what it means to. *)

From stdpp Require Import base numbers strings list gmap relations.
From S2P Require Import Prelude PosixFile StripeData Stripe StripeConf StripeIO StripeFile StripeIOFacts StripeRequests StripeFileProps.

Open Scope Z_scope.

(** ** A write in progress *)

(** Where the loop is, if it has not ended; the local data; the number of calls that
    are out; and the number of answers to the request. *)
Record write := mk_write {
  wr_loop : option wloop; wr_local : stripe_local; wr_pending : nat; wr_answers : nat }.

Definition write_answer_ok (ret : Z) (p : payload) : Prop := ret = -1 \/ 0 <= ret /\ exists pre post, p = P_pair pre post.

Inductive write_step (ctx : stripe_fd_ctx) (fd : fd_t) (vector : list iovec) (offset : Z) (s : write) : write -> Prop :=
| write_turn w l c call next :
    wr_loop s = Some w ->
    writev_turn ctx fd vector offset true w (wr_local s) = Some (l, Wind CB_writev c call, next) ->
    write_step ctx fd vector offset s (mk_write next l (S (wr_pending s)) (wr_answers s))
| write_answer n ret err p l ev :
    wr_pending s = S n -> write_answer_ok ret p ->
    stripe_writev_cbk ret err p (wr_local s) = Some (l, ev) ->
    write_step ctx fd vector offset s (mk_write (wr_loop s) l n (wr_answers s + answered ev)).

Definition start_write (ctx : stripe_fd_ctx) (vector : list iovec) : write :=
  let '(l, _, w) := writev_start (Some ctx) vector true in mk_write w l 0 0.

Section Write.
Context (ctx : stripe_fd_ctx) (fd : fd_t) (vector : list iovec) (offset : Z).
Context (Hok : ctx_ok ctx) (Hvec : vec_ok vector) (Hlen : vlen vector < 2 ^ 30).
Context (Hoff : 0 <= offset) (Hend : offset + vlen vector < 2 ^ 63).

Record write_inv (s : write) : Prop := {
  wi_size : l_stripe_size (wr_local s) = fctx_stripe_size ctx;
  wi_count : 0 <= l_call_count (wr_local s) /\
    l_call_count (wr_local s) + Z.of_nat (wr_pending s) = l_wind_count (wr_local s);
  wi_loop : match wr_loop s with
    | Some w => wloop_ok vector w /\ l_wind_count (wr_local s) <= offset_offset w /\ l_unwind (wr_local s) = false /\
        (remaining_size w = 0 -> offset_offset w = 0)
    | None => l_unwind (wr_local s) = true /\ 1 <= l_wind_count (wr_local s) <= 1 + vlen vector
    end;
  wi_answers : wr_answers s = if wr_loop s then 0%nat else if decide (wr_pending s = 0%nat) then 1%nat else 0%nat }.

Lemma write_turn_inv s w :
  write_inv s -> wr_loop s = Some w ->
  exists l c call next, writev_turn ctx fd vector offset true w (wr_local s) = Some (l, Wind CB_writev c call, next) /\
    write_inv (mk_write next l (S (wr_pending s)) (wr_answers s)).
Proof using Hok Hvec Hlen Hoff Hend.
  intros [Hs [Hc0 Hc] Hl Ha] Ew. rewrite Ew in Hl, Ha. destruct Hl as (Hw & Hle & Hu & Hz).
  destruct (writev_turn_ok (fun _ => 0) ctx fd vector offset Hok Hvec ltac:(lia) Hoff Hend w (wr_local s) Hw Hs)
    as (c & vec & _ & _ & _ & Et). cbv zeta in Et.
  destruct (fill_size_ok ctx vector offset Hok Hoff w Hw) as (Hf1 & _ & Hf2).
  destruct Hw as (Ho1 & Ho2 & Ho3). set (fill := fill_size _ _ _) in *.
  do 4 eexists. split; [exact Et|]. set (l1 := set_wind_count _ _).
  assert (l_wind_count l1 = l_wind_count (wr_local s) + 1) as E1 by (unfold l1; simpl; apply i32_small; lia).
  assert (l_unwind l1 = false /\ l_call_count l1 = l_call_count (wr_local s) /\ l_stripe_size l1 = l_stripe_size (wr_local s))
    as (E2 & E3 & E4) by done. clearbody l1.
  destruct (Z.eqb_spec (remaining_size w) fill) as [E|Hne]; split; simpl; rewrite ?E1, ?E2, ?E3, ?E4; try done; try lia.
  split_and!; try done; unfold wloop_ok; simpl; lia.
Qed.

Lemma write_answer_inv s n ret err p :
  write_inv s -> wr_pending s = S n -> write_answer_ok ret p ->
  exists l ev, stripe_writev_cbk ret err p (wr_local s) = Some (l, ev) /\
    write_inv (mk_write (wr_loop s) l n (wr_answers s + answered ev)).
Proof using Hvec Hlen.
  clear Hok Hoff Hend. intros [Hs [Hc0 Hc] Hl Ha] Hp Hr. unfold stripe_writev_cbk.
  set (l1 := set_call_count _ _).
  assert (l_wind_count (wr_local s) < 2 ^ 31) as Hwc.
  { destruct (wr_loop s) as [w|]; [|lia]. destruct Hl as ((? & ? & ?) & ? & _). lia. }
  assert (l_call_count l1 = l_call_count (wr_local s) + 1) as E1 by (unfold l1; simpl; apply i32_small; lia).
  assert (l_wind_count l1 = l_wind_count (wr_local s) /\ l_unwind l1 = l_unwind (wr_local s) /\
    l_stripe_size l1 = l_stripe_size (wr_local s)) as (F1 & F2 & F3) by done. clearbody l1.
  set (l2 := if ret =? -1 then _ else l1).
  assert (exists l3, (if 0 <=? ret then match p with P_pair prebuf postbuf => _ | _ => None end else Some l2) = Some l3 /\
    l_call_count l3 = l_call_count l1 /\ l_wind_count l3 = l_wind_count (wr_local s) /\ l_unwind l3 = l_unwind (wr_local s) /\
    l_stripe_size l3 = l_stripe_size (wr_local s)) as (l3 & -> & H1 & H2 & H3 & H4).
  { unfold l2. destruct Hr as [->|[Hr (pre & post & ->)]]; simpl; [by eexists|].
    rewrite (proj2 (Z.leb_le _ _)), (proj2 (Z.eqb_neq _ _)) by lia. by eexists. }
  simpl. rewrite E1, H2, H3. rewrite Hp in Hc.
  destruct (Z.eqb_spec (l_call_count (wr_local s) + 1) (l_wind_count (wr_local s))) as [E|Hne], (l_unwind (wr_local s)) eqn:Eu;
    simpl; do 2 eexists; (split; [done|]); split; simpl; rewrite ?H1, ?H2, ?H3, ?H4, ?Eu; try done; try lia.
  - rewrite Ha. destruct (wr_loop s); [by destruct Hl as (_ & _ & ? & _)|]. rewrite decide_False by lia. rewrite decide_True by lia. done.
  - rewrite Ha, Nat.add_0_r. destruct (wr_loop s); [done|]. destruct Hl; done.
  - rewrite Ha, Nat.add_0_r. destruct (wr_loop s); [done|]. by rewrite !decide_False by lia.
  - rewrite Ha, Nat.add_0_r. destruct (wr_loop s); [done|]. destruct Hl; done.
Qed.

Lemma start_write_inv : write_inv (start_write ctx vector).
Proof using Hvec Hlen.
  pose proof (vlen_nonneg vector Hvec). split; simpl; try done; try lia.
  rewrite total_size_ok by (done || lia). unfold wloop_ok. simpl. split_and!; try done; lia.
Qed.

Lemma write_reachable_inv s : rtc (write_step ctx fd vector offset) (start_write ctx vector) s -> write_inv s.
Proof using Hok Hvec Hlen Hoff Hend.
  apply (rtc_ind_r write_inv); [apply start_write_inv|]. intros s1 s2 _ Hs Hinv.
  destruct Hs as [w l c call next Hw Et|n ret err p l ev Hp Hr Ec].
  - destruct (write_turn_inv s1 w Hinv Hw) as (l' & c' & call' & next' & E & Hi). rewrite Et in E. by simplify_eq.
  - destruct (write_answer_inv s1 n ret err p Hinv Hp Hr) as (l' & ev' & E & Hi). rewrite Ec in E. by simplify_eq.
Qed.

End Write.

(** C22: A write is answered exactly once, though its callbacks run while its pieces
    are still being wound.  In every interleaving of the turns of the loop with the
    answers of the children: when the loop has ended and no call is out there is one
    answer, before that there is none, and neither a turn nor a callback faults. *)
Theorem stripe_write_answered_once ctx fd vector offset s :
  ctx_ok ctx -> vec_ok vector -> vlen vector < 2 ^ 30 -> 0 <= offset -> offset + vlen vector < 2 ^ 63 ->
  rtc (write_step ctx fd vector offset) (start_write ctx vector) s ->
  wr_answers s = (match wr_loop s, wr_pending s with None, O => 1 | _, _ => 0 end)%nat /\
  (forall w, wr_loop s = Some w -> exists l c call next,
     writev_turn ctx fd vector offset true w (wr_local s) = Some (l, Wind CB_writev c call, next)) /\
  (forall ret err p, wr_pending s <> 0%nat -> write_answer_ok ret p -> is_Some (stripe_writev_cbk ret err p (wr_local s))).
Proof.
  intros Hok Hv Hl Ho He Hr. pose proof (write_reachable_inv ctx fd vector offset Hok Hv Hl Ho He s Hr) as Hi. split_and!.
  - rewrite (wi_answers _ _ _ Hi). destruct (wr_loop s), (wr_pending s); done.
  - intros w Hw. destruct (write_turn_inv ctx fd vector offset Hok Hv Hl Ho He s w Hi Hw) as (l & c & call & next & E & _). eauto.
  - intros ret err p Hp Ha. destruct (wr_pending s) as [|n] eqn:En; [done|].
    destruct (write_answer_inv ctx vector Hv Hl s n ret err p Hi En Ha) as (l & ev & E & _). by eexists.
Qed.

(** ** The result of a write *)

Definition write_answer_of (a : answer) : Prop := a_cb a = CB_writev /\ write_answer_ok (a_ret a) (a_payload a).

(** What an answer makes of [op_ret]. *)
Definition add_ret (r : Z) (a : answer) : Z := if a_ret a =? -1 then -1 else i32 (r + a_ret a).

Lemma handle_write this a l :
  a_cb a = CB_writev -> write_answer_ok (a_ret a) (a_payload a) -> l_unwind l = true -> - 2 ^ 31 <= l_call_count l + 1 < 2 ^ 31 ->
  exists l1 err p, handle this a l =
      Some (l1, if l_call_count l + 1 =? l_wind_count l then [Unwind (l_op_ret l1) err p] else []) /\
    l_call_count l1 = l_call_count l + 1 /\ l_wind_count l1 = l_wind_count l /\ l_unwind l1 = true /\
    l_op_ret l1 = add_ret (l_op_ret l) a.
Proof.
  intros Hcb Hr Hu Hb. unfold handle, add_ret. rewrite Hcb. cbn [stripe_callback]. unfold stripe_writev_cbk.
  assert (i32 (l_call_count l + 1) = l_call_count l + 1) as E by (apply i32_small; lia).
  destruct Hr as [Hr|[Hr (pre & post & Hp)]].
  - rewrite Hr. simpl. rewrite E, Hu, andb_true_r.
    match goal with |- context [Some (?x, [Unwind _ ?e ?q])] => exists x, e, q end.
    split; [by destruct (l_call_count l + 1 =? l_wind_count l)|done].
  - rewrite Hp, (proj2 (Z.leb_le _ _)), (proj2 (Z.eqb_neq _ _)) by lia. simpl. rewrite E, Hu, andb_true_r.
    match goal with |- context [Some (?x, [Unwind _ ?e ?q])] => exists x, e, q end.
    split; [by destruct (l_call_count l + 1 =? l_wind_count l)|done].
Qed.

Lemma run_writes this answers l :
  Forall write_answer_of answers -> answers <> [] -> l_unwind l = true -> 0 <= l_call_count l ->
  l_call_count l + Z.of_nat (length answers) = l_wind_count l -> l_wind_count l < 2 ^ 31 ->
  exists l' err p, run_answers this answers l = Some (l', [Unwind (foldl add_ret (l_op_ret l) answers) err p]).
Proof.
  intros HF. revert l. induction HF as [|a answers [Hcb Hr] HF IH]; intros l Hne Hu Hc Hsum Hb; [done|].
  cbn [run_answers foldl]. simpl in Hsum.
  destruct (handle_write this a l Hcb Hr Hu ltac:(lia)) as (l1 & err & p & -> & H1 & H2 & H3 & H4).
  destruct answers as [|b answers].
  - rewrite (proj2 (Z.eqb_eq _ _)) by (simpl in Hsum; lia). simpl. rewrite H4. eauto.
  - rewrite (proj2 (Z.eqb_neq _ _)) by (simpl in Hsum; lia). cbn [mbind option_bind].
    destruct (IH l1) as (l' & err' & p' & E); [done|done|lia|simpl in *; lia|lia|].
    rewrite E, H4. simpl. eauto.
Qed.

(** The turns of the loop count their calls, and the last one is marked. *)
Lemma writev_loop_count fuel ctx fd vector offset w l l' es :
  writev_loop fuel ctx fd vector offset w l = Some (l', es) -> 0 <= l_wind_count l ->
  l_wind_count l + Z.of_nat fuel < 2 ^ 31 ->
  l_wind_count l' = l_wind_count l + Z.of_nat (length es) /\ l_unwind l' = true /\ es <> [] /\
  l_call_count l' = l_call_count l /\ l_op_ret l' = l_op_ret l /\ (length es <= fuel)%nat.
Proof.
  revert w l l' es. induction fuel as [|fuel IH]; intros w l l' es E H0 Hb; [done|]. simpl in E.
  destruct (writev_turn ctx fd vector offset true w l) as [[[l1 e] next]|] eqn:Et; [|done]. simpl in E.
  assert (l_wind_count l1 = l_wind_count l + 1 /\ l_call_count l1 = l_call_count l /\ l_op_ret l1 = l_op_ret l /\
    (next = None -> l_unwind l1 = true)) as (H1 & H2 & H3 & H4).
  { unfold writev_turn in Et. repeat case_match; simplify_eq/=; destruct (fctx_child _ _); simplify_eq/=;
      rewrite i32_small by lia; done. }
  destruct next as [w'|].
  - destruct (writev_loop fuel ctx fd vector offset w' l1) as [[l2 es2]|] eqn:El; [|done]. simpl in E. simplify_eq.
    destruct (IH _ _ _ _ El) as (G1 & G2 & _ & G4 & G5 & G6); [lia..|]. simpl. split_and!; try done; try lia; congruence.
  - simplify_eq. simpl. split_and!; try done; try lia. by apply H4.
Qed.

(** The result of a write, for any order of the answers.  Without a failure it is
    the number of bytes the children wrote; but a failed piece is forgotten by the
    successes after it: then the result is one less than what was written since. *)
Theorem stripe_write_result this ctx fd vector offset l es answers :
  0 <= total_size vector 0 < 2 ^ 30 -> stripe_writev (Some ctx) fd vector offset true = Some (l, es) ->
  Forall write_answer_of answers -> length answers = length es ->
  foldr (fun a n => Z.max 0 (a_ret a) + n) 0 answers < 2 ^ 30 ->
  exists l' ret err p, run_answers this answers l = Some (l', [Unwind ret err p]) /\
    (Forall (fun a => 0 <= a_ret a) answers -> ret = foldr (fun a n => a_ret a + n) 0 answers) /\
    (forall pre f post, answers = pre ++ f :: post -> a_ret f = -1 -> Forall (fun a => 0 <= a_ret a) post ->
       ret = foldr (fun a n => a_ret a + n) 0 post - 1).
Proof.
  intros Ht Ew HF Hl Hsum. unfold stripe_writev in Ew. cbn -[writev_loop total_size] in Ew.
  destruct (writev_loop _ ctx fd vector offset _ _) as [[l0 es0]|] eqn:El; [|done]. simpl in Ew. injection Ew as -> ->.
  apply writev_loop_count in El as (H1 & H2 & H3 & H4 & H5 & H6); [|simpl; lia|cbn [l_wind_count set_stripe_size local0]; lia].
  simpl in H1, H4, H5. 
  destruct (run_writes this answers l) as (l' & err & p & E); [done|by intros ->; destruct es|done|lia|lia|lia|].
  assert (forall answers r, Forall (fun a => 0 <= a_ret a) answers -> -1 <= r ->
    r + foldr (fun a n => Z.max 0 (a_ret a) + n) 0 answers < 2 ^ 31 ->
    foldl add_ret r answers = r + foldr (fun a n => a_ret a + n) 0 answers) as Hfold.
  { clear. induction answers as [|a answers IH]; intros r HF Hr Hb; simpl in *; [lia|].
    apply Forall_cons in HF as [Ha HF].
    assert (0 <= foldr (fun a n => Z.max 0 (a_ret a) + n) 0 answers) by (clear; induction answers; simpl; lia).
    unfold add_ret at 2. rewrite (proj2 (Z.eqb_neq _ _)) by lia. rewrite i32_small by lia. rewrite IH by (done || lia). lia. }
  rewrite H5 in E. exists l', (foldl add_ret 0 answers), err, p. split; [done|]. split.
  - intros Hpos. rewrite Hfold by (done || lia). lia.
  - intros pre f post -> Hf Hpos. rewrite foldl_app. simpl. unfold add_ret at 2. rewrite Hf. simpl.
    assert (forall pre, 0 <= foldr (fun a n => Z.max 0 (a_ret a) + n) 0 pre) as H0 by (clear; induction pre; simpl; lia).
    rewrite Hfold; [lia|done|lia|].
    assert (forall pre, foldr (fun a n => Z.max 0 (a_ret a) + n) 0 post <=
      foldr (fun a n => Z.max 0 (a_ret a) + n) 0 (pre ++ f :: post)) as Hle.
    { clear. induction pre; simpl; lia. }
    specialize (Hle pre). lia.
Qed.

(** ** Departures from the intent *)

(** A file with a hole is read wrongly.  After two bytes at offset 0 and two at
    offset 4, with stripes of four bytes, a read of the file returns the four bytes
    next to each other: the answers of the children are joined without regard to how
    much of its stripe each has. *)
Theorem sparse_read_shifts :
  let ops := [Op_write addresses [mk_iovec 10 2] 0; Op_write addresses [mk_iovec 20 2] 4; Op_read 8 0] in
  (exists v, stripe_run two_children two_ctx an_fd ∅ ops v [[]; []; [10; 11; 20; 21]]) /\
  snd (file_run [] ops) = [[]; []; [10; 11; 0; 0; 20; 21]].
Proof.
  split; [|by vm_compute]. eexists.
  set (w1 := Wind CB_writev 1 (F_writev an_fd [mk_iovec 10 2] 0)).
  set (w2 := Wind CB_writev 2 (F_writev an_fd [mk_iovec 20 2] 4)).
  assert (foldl (perform addresses) ∅ [w1] = {[1 := [10; 11]]}) as E1 by (by vm_compute).
  assert (foldl (perform addresses) {[1 := [10; 11]]} [w2] = <[2 := [0; 0; 0; 0; 20; 21]]> {[1 := [10; 11]]}) as E2 by (by vm_compute).
  apply (run_cons _ _ _ _ _ _ {[1 := [10; 11]]}).
  { rewrite <-E1. by apply (step_write two_children two_ctx an_fd ∅ addresses [mk_iovec 10 2] 0
      (set_unwind true (set_wind_count 1 (set_stripe_size 4 local0))) [w1] [w1]). }
  apply (run_cons _ _ _ _ _ _ (<[2 := [0; 0; 0; 0; 20; 21]]> {[1 := [10; 11]]})).
  { rewrite <-E2. by apply (step_write two_children two_ctx an_fd {[1 := [10; 11]]} addresses [mk_iovec 20 2] 4
      (set_unwind true (set_wind_count 1 (set_stripe_size 4 local0))) [w2] [w2]). }
  apply (run_cons _ _ _ _ _ _ (<[2 := [0; 0; 0; 0; 20; 21]]> {[1 := [10; 11]]})); [|constructor].
  set (as0 := [mk_answer (CB_readv 0) 1 2 0 (P_read [mk_iovec 10 2] stat0) (true, true);
               mk_answer (CB_readv 1) 2 2 0 (P_read [mk_iovec 20 2] stat0) (true, true)]).
  assert (Forall2 (answers_read addresses (<[2 := [0; 0; 0; 0; 20; 21]]> {[1 := [10; 11]]}))
    [Wind (CB_readv 0) 1 (F_readv an_fd 4 0); Wind (CB_readv 1) 2 (F_readv an_fd 4 4)] as0) as HF.
  { constructor; [exists [mk_iovec 10 2], stat0, 0|constructor; [exists [mk_iovec 20 2], stat0, 0|constructor]];
      (split; [constructor; [simpl; lia|constructor]|]); split; by vm_compute. }
  exact (step_read two_children two_ctx an_fd _ 8 0 (set_replies [reply0; reply0] (set_wind_count 2 local0))
    [Wind (CB_readv 0) 1 (F_readv an_fd 4 0); Wind (CB_readv 1) 2 (F_readv an_fd 4 4)] addresses as0 as0
    (set_call_count 2 (set_replies [] (set_wind_count 2 local0))) 4 0 [mk_iovec 10 2; mk_iovec 20 2] stat0
    eq_refl HF (reflexivity _) eq_refl eq_refl).
Qed.

(** A read of no bytes at the beginning of a stripe is never answered: no call is
    wound, and no answer is given. *)
Theorem empty_read_unanswered ctx fd offset :
  ctx_ok ctx -> 0 <= offset < 2 ^ 61 -> offset `mod` fctx_stripe_size ctx = 0 ->
  exists l, stripe_readv (Some ctx) fd 0 offset true true (fun _ => true) = Some (l, []).
Proof.
  intros [Hs Hn _] Ho Hm. unfold stripe_readv. set (ss := fctx_stripe_size ctx) in *.
  rewrite (u64_small ss) by (unfold is_u64; lia). rewrite !(proj2 (Z.eqb_neq _ _)) by lia. rewrite Z.add_0_r.
  rewrite roof_ok by lia. rewrite Z.div_mul by lia. pose proof (Z.div_mod offset ss ltac:(lia)) as Hd. rewrite Hm, Z.add_0_r in Hd.
  assert (0 <= offset `div` ss) by (apply Z.div_pos; lia).
  assert (floor offset ss `div` ss = offset `div` ss) as ->.
  { unfold floor. rewrite (proj2 (Z.eqb_neq _ _)) by lia. rewrite (u64_small offset) by (unfold is_u64; lia).
    rewrite u64_small by (unfold is_u64; lia). by rewrite Z.div_mul by lia. }
  assert ((offset + ss - 1) `div` ss = offset `div` ss) as ->.
  { replace (offset + ss - 1) with (ss - 1 + (offset `div` ss) * ss) by lia. rewrite Z.div_add by lia.
    rewrite Z.div_small by lia. lia. }
  rewrite Z.sub_diag. simpl. by eexists.
Qed.

(** A mknod whose xattrs cannot be set is never answered.  When one of the calls
    of that round fails, the last callback of the round should remove the file again;
    it winds no call and gives no answer. *)
Theorem mknod_setxattr_stuck this ret err l :
  l_call_count l = 1 -> ret = -1 \/ l_op_ret l = -1 ->
  exists l', stripe_mknod_ifreg_setxattr_cbk this ret err l = Some (l', []).
Proof.
  intros Hc Hr. unfold stripe_mknod_ifreg_setxattr_cbk.
  assert (l_call_count (dec_call_count l) = 0) as Hd by (rewrite (dec_call_count_ok l 1); [done|done|lia]).
  destruct Hr as [->|Hr]; simpl in Hd |- *; [rewrite Hd; by eexists|].
  destruct (ret =? -1); simpl; rewrite Hd; simpl; rewrite ?Hr; by eexists.
Qed.

(** A block size of 4 GiB is taken for zero.  The option is read as a number of 64
    bits, of which [stripe_get_matching_bs] returns the lower 32; a file gets a context
    without a stripe size, and a write to it divides by zero. *)
Theorem large_block_size_is_zero path fd vector offset array :
  exists o, set_stripe_block_size [] "*:4GB" = Done [o] /\ opt_block_size o = 2 ^ 32 /\
    stripe_get_matching_bs (fun _ _ => true) path [o] (128 * GF_UNIT_KB) = 0 /\
    stripe_writev (Some (mk_fctx 0 2 true array)) fd vector offset true = None.
Proof. eexists. split; [by vm_compute|]. split_and!; reflexivity. Qed.

(** ** Witnesses *)

Lemma two_ctx_ok : ctx_ok two_ctx.
Proof. split; simpl; [lia|lia|]. by exists [1; 2]. Qed.

(** A write of six bytes at offset 2, of which the second piece is answered while the
    third is not wound yet. *)
Lemma stripe_write_answered_once_witness :
  exists s, rtc (write_step two_ctx an_fd [mk_iovec 10 6] 2) (start_write two_ctx [mk_iovec 10 6]) s /\ wr_answers s = 0%nat.
Proof.
  set (l1 := set_wind_count 1 (set_stripe_size 4 local0)).
  set (s1 := mk_write (Some (mk_wloop 2 4)) l1 1 0).
  set (l2 := set_pre_buf collected0 (set_post_buf collected0 (set_op_ret 2 (set_call_count 1 l1)))).
  set (s2 := mk_write (Some (mk_wloop 2 4)) l2 0 0).
  assert (rtc (write_step two_ctx an_fd [mk_iovec 10 6] 2) (start_write two_ctx [mk_iovec 10 6]) s2) as Hr.
  { apply (rtc_l _ _ s1).
    - by apply (write_turn _ _ _ _ (start_write two_ctx [mk_iovec 10 6]) (mk_wloop 0 6) l1 1
        (F_writev an_fd [mk_iovec 10 2] 2) (Some (mk_wloop 2 4))).
    - apply rtc_once. refine (write_answer _ _ _ _ s1 0 2 0 (P_pair stat0 stat0) l2 [] eq_refl _ _); [|vm_compute; reflexivity].
      right. split; [lia|by exists stat0, stat0]. }
  exists s2. split; [exact Hr|].
  by destruct (stripe_write_answered_once two_ctx an_fd [mk_iovec 10 6] 2 s2 two_ctx_ok
    ltac:(repeat constructor; simpl; lia) ltac:(simpl; lia) ltac:(lia) ltac:(simpl; lia) Hr) as [-> _].
Defined.

(** The first child fails, the second one writes four bytes: three are reported. *)
Lemma stripe_write_result_witness :
  exists l es l' err p,
    stripe_writev (Some two_ctx) an_fd [mk_iovec 10 8] 0 true = Some (l, es) /\
    run_answers two_children
      [mk_answer CB_writev 1 (-1) ENOSPC P_null (true, true); mk_answer CB_writev 2 4 0 (P_pair stat0 stat0) (true, true)] l =
      Some (l', [Unwind 3 err p]).
Proof.
  set (answers := [mk_answer CB_writev 1 (-1) ENOSPC P_null (true, true); mk_answer CB_writev 2 4 0 (P_pair stat0 stat0) (true, true)]).
  set (w1 := Wind CB_writev 1 (F_writev an_fd [mk_iovec 10 4] 0)).
  set (w2 := Wind CB_writev 2 (F_writev an_fd [mk_iovec 14 4] 4)).
  set (l := set_unwind true (set_wind_count 2 (set_stripe_size 4 local0))).
  assert (stripe_writev (Some two_ctx) an_fd [mk_iovec 10 8] 0 true = Some (l, [w1; w2])) as Ew by (vm_compute; reflexivity).
  destruct (stripe_write_result two_children two_ctx an_fd [mk_iovec 10 8] 0 l [w1; w2] answers ltac:(vm_compute; by split) Ew) as
    (l' & ret & err & p & E & _ & Hf).
  - apply Forall_cons. split; [split; [done|by left]|]. apply Forall_singleton. split; [done|]. right.
    split; [simpl; lia|by exists stat0, stat0].
  - done.
  - done.
  - specialize (Hf [] _ _ eq_refl eq_refl). rewrite Hf in E by (repeat constructor; simpl; lia).
    exists l, [w1; w2], l', err, p. split; [exact Ew|exact E].
Defined.

Lemma empty_read_unanswered_witness :
  exists l, stripe_readv (Some two_ctx) an_fd 0 8 true true (fun _ => true) = Some (l, []).
Proof. apply (empty_read_unanswered two_ctx an_fd 8 two_ctx_ok); [lia|done]. Defined.

Lemma mknod_setxattr_stuck_witness :
  exists l', stripe_mknod_ifreg_setxattr_cbk two_children (-1) ENOTSUP (set_call_count 1 local0) = Some (l', []).
Proof. apply (mknod_setxattr_stuck two_children (-1) ENOTSUP (set_call_count 1 local0)); [done|by left]. Defined.
