(* ===== verification/StripeProps.v ===== *)
(** * The striping translator: what requests return, and its configuration

    The result of a request from the answers of the children, in any order; files
    that are opened again; where the code departs from its intent; what [init] sets up
    and what the notifications of the children keep. *)

From stdpp Require Import base numbers strings list gmap relations.
From S2P Require Import Prelude PosixFile StripeData Stripe StripeConf StripeIO StripeFile StripeIOFacts StripeRequests StripeFileProps.

Open Scope Z_scope.

(** ** stat and fstat *)

(** An answer to stat or fstat. *)
Definition stat_answer (a : answer) : Prop :=
  a_cb a = CB_buf /\ (a_ret a = 0 \/ a_ret a = -1) /\ (a_ret a = 0 -> exists st, a_payload a = P_buf st).

Definition answer_stat (a : answer) : stat := match a_payload a with P_buf st => st | _ => stat0 end.

Definition succeeded (a : answer) : bool := a_ret a =? 0.
Definition lost (a : answer) : bool := (a_ret a =? -1) && (a_err a =? ENOTCONN).

(** The part of the callback before the end of the round. *)
Definition absorb (this : stripe_xl) (l : stripe_local) (a : answer) : stripe_local :=
  let l := note_error (a_ret a) (a_err a) (dec_call_count l) in
  if succeeded a then
    set_stbuf (collect (is_first_child this (a_child a)) (answer_stat a) (l_stbuf l)) (set_op_ret 0 l)
  else l.

Definition finish_stat (l : stripe_local) : result :=
  let l := fail_if_failed l in
  let '(l, ev) := wipe_locs l in
  let l := if l_op_ret l =? -1 then l else set_stbuf (settle (l_stbuf l)) l in
  Some (l, ev ++ [Unwind (l_op_ret l) (l_op_errno l) (P_buf (c_buf (l_stbuf l)))]).

Lemma handle_stat this a l :
  stat_answer a ->
  handle this a l = (if l_call_count (absorb this l a) =? 0 then finish_stat (absorb this l a) else Some (absorb this l a, [])).
Proof.
  intros (Hcb & Hr & Hp). unfold handle, absorb, succeeded, answer_stat. rewrite Hcb. simpl.
  unfold stripe_stack_unwind_buf_cbk. destruct Hr as [E|E].
  - destruct (Hp E) as [st Hst]. rewrite Hst, E. done.
  - rewrite E. done.
Qed.

Lemma absorb_count this l a k : l_call_count l = k -> 0 <= k < 128 -> l_call_count (absorb this l a) = k - 1.
Proof.
  intros Hk Hb. unfold absorb. case_match; simpl; rewrite note_error_count; by apply dec_call_count_ok.
Qed.

(** Until the last answer, the answers are absorbed. *)
Lemma run_stats this answers l :
  Forall stat_answer answers -> answers <> [] -> l_call_count l = Z.of_nat (length answers) -> (length answers < 128)%nat ->
  run_answers this answers l = finish_stat (foldl (absorb this) l answers).
Proof.
  intros HF. revert l. induction HF as [|a answers Ha HF IH]; intros l Hne Hc Hb; [done|].
  simpl in Hc, Hb |- *. rewrite handle_stat by done.
  rewrite (absorb_count _ _ _ _ Hc) by lia. destruct answers as [|b answers].
  - rewrite (proj2 (Z.eqb_eq _ _)) by (simpl; lia). unfold finish_stat.
    destruct (wipe_locs _) as [l1 ev]. cbn [mbind option_bind run_answers foldl]. by rewrite app_nil_r.
  - rewrite (proj2 (Z.eqb_neq _ _)) by (simpl; lia). cbn [mbind option_bind].
    rewrite (IH (absorb this l a)); [|done|rewrite (absorb_count _ _ _ _ Hc) by lia; simpl; lia|simpl in *; lia].
    unfold finish_stat. by destruct (wipe_locs _) as [l1 ev].
Qed.

Lemma dec_fields l : l_failed (dec_call_count l) = l_failed l /\ l_op_ret (dec_call_count l) = l_op_ret l /\
  l_stbuf (dec_call_count l) = l_stbuf l.
Proof. done. Qed.

(** What the answers leave. *)
Lemma absorbed this answers l :
  Forall stat_answer answers ->
  let l' := foldl (absorb this) l answers in
  l_failed l' = l_failed l || existsb lost answers /\
  l_op_ret l' = (if existsb succeeded answers then 0 else l_op_ret l) /\
  c_size (l_stbuf l') = foldl Z.max (c_size (l_stbuf l)) (map (fun a => st_size (answer_stat a)) (List.filter succeeded answers)) /\
  c_blocks (l_stbuf l') = foldl (fun s b => i64 (s + b)) (c_blocks (l_stbuf l))
                            (map (fun a => st_blocks (answer_stat a)) (List.filter succeeded answers)).
Proof.
  intros HF. revert l. induction HF as [|a answers Ha HF IH]; intros l; cbv zeta.
  { simpl. by rewrite orb_false_r. }
  destruct (IH (absorb this l a)) as (H1 & H2 & H3 & H4). clear IH. simpl foldl. rewrite H1, H2, H3, H4.
  destruct Ha as (_ & Hr & _). unfold absorb, succeeded, lost, note_error. simpl.
  destruct Hr as [E|E]; rewrite E; simpl.
  - clear H1 H2 H3 H4. split_and!; [done|by destruct (existsb (fun a0 => a_ret a0 =? 0) answers)| |done].
    f_equal. case_match; [apply Z.ltb_lt in H|apply Z.ltb_ge in H]; lia.
  - destruct (a_err a =? ENOTCONN) eqn:En; simpl; split_and!; try done; by destruct (l_failed l).
Qed.

Lemma foldl_max_nat ns m : foldl Z.max (Z.of_nat m) (map Z.of_nat ns) = Z.of_nat (Nat.max m (foldr Nat.max 0%nat ns)).
Proof.
  revert m. induction ns as [|n ns IH]; intros m; simpl; [f_equal; lia|].
  rewrite <-Nat2Z.inj_max, IH. f_equal. lia.
Qed.

Lemma foldr_max_perm ns ms : ns ≡ₚ ms -> foldr Nat.max 0%nat ns = foldr Nat.max 0%nat ms.
Proof. induction 1; simpl; lia. Qed.

Lemma filter_forallb {A} (f : A -> bool) l : forallb f l = true -> List.filter f l = l.
Proof. induction l as [|x l IH]; [done|]. simpl. intros [-> ?]%andb_true_iff. by rewrite IH. Qed.

Lemma forallb_existsb {A} (f : A -> bool) l : l <> [] -> forallb f l = true -> existsb f l = true.
Proof. destruct l as [|x l]; [done|]. simpl. intros _ [-> _]%andb_true_iff. done. Qed.

(** The answer at the end of the round. *)
Lemma finish_stat_ok l :
  l_op_ret l = 0 \/ l_op_ret l = -1 ->
  exists l' err b, finish_stat l = Some (l', snd (wipe_locs (fail_if_failed l)) ++
      [Unwind (if (l_op_ret l =? 0) && negb (l_failed l) then 0 else -1) err (P_buf b)]) /\
    ((l_op_ret l =? 0) && negb (l_failed l) = true -> st_size b = c_size (l_stbuf l) /\ st_blocks b = c_blocks (l_stbuf l)).
Proof.
  intros Ho. unfold finish_stat. destruct (wipe_locs (fail_if_failed l)) as [l1 ev] eqn:E.
  assert (l_op_ret l1 = l_op_ret (fail_if_failed l) /\ l_stbuf l1 = l_stbuf (fail_if_failed l)) as [H1 H2].
  { unfold wipe_locs, wipe_loc, wipe_loc2 in E. repeat case_match; by simplify_eq/=. }
  cbn [snd]. unfold fail_if_failed in H1, H2. destruct (l_failed l); simpl in H1, H2.
  - rewrite andb_false_r, H1. simpl. do 3 eexists. split; [by rewrite H1|done].
  - rewrite andb_true_r. destruct Ho as [Ho|Ho]; rewrite Ho in H1 |- *; rewrite H1; simpl;
      do 3 eexists; (split; [by rewrite H1|]); [|done].
    intros _. simpl. by rewrite H2.
Qed.

Lemma absorb_locs this answers l :
  l_loc (foldl (absorb this) l answers) = l_loc l /\ l_loc2 (foldl (absorb this) l answers) = l_loc2 l.
Proof.
  revert l. induction answers as [|a answers IH]; intros l; [done|]. simpl. destruct (IH (absorb this l a)) as [-> ->].
  unfold absorb, note_error. by repeat case_match.
Qed.

Lemma wipe_none l : l_loc l = None -> l_loc2 l = None -> snd (wipe_locs (fail_if_failed l)) = [].
Proof.
  intros H1 H2. unfold wipe_locs, wipe_loc, wipe_loc2, fail_if_failed.
  destruct (l_failed l); simpl; rewrite H1; simpl; by rewrite H2.
Qed.

Lemma succeeded_not_lost answers : forallb succeeded answers = true -> existsb lost answers = false.
Proof.
  induction answers as [|a answers IH]; [done|]. simpl. intros [Ha Hall]%andb_true_iff. rewrite IH by done.
  unfold succeeded in Ha. unfold lost. apply Z.eqb_eq in Ha. by rewrite Ha.
Qed.

(** The largest of the sizes that the children report is the size of the file. *)
Lemma sizes_striped ctx v answers :
  map a_child answers ≡ₚ stripe_children ctx ->
  Forall (fun a => st_size (answer_stat a) = Z.of_nat (length (vol_file v (a_child a)))) answers ->
  foldl Z.max 0 (map (fun a => st_size (answer_stat a)) answers) = Z.of_nat (striped_size ctx v).
Proof.
  intros Hp Hsz.
  assert (map (fun a => st_size (answer_stat a)) answers =
          map Z.of_nat (map (fun a => length (vol_file v (a_child a))) answers)) as ->.
  { rewrite map_map. apply map_ext_in. intros a Ha%list_elem_of_In. rewrite Forall_forall in Hsz. by apply Hsz. }
  rewrite (foldl_max_nat _ 0%nat). f_equal. simpl. unfold striped_size. apply foldr_max_perm.
  rewrite <-(map_map a_child (fun c => length (vol_file v c))). by apply fmap_Permutation.
Qed.

(** The result of fstat.  Whatever the order of the answers, it succeeds exactly
    if a child succeeds and none has lost its connection; and when all succeed the
    size it reports is the size of the striped file. *)
Theorem stripe_fstat_result this ctx fd v answers :
  this_ok this -> serves this ctx fd -> Forall stat_answer answers ->
  map a_child answers ≡ₚ children this ->
  Forall (fun a => st_size (answer_stat a) = Z.of_nat (length (vol_file v (a_child a)))) answers ->
  exists l err b,
    run_answers this answers (fst (stripe_fstat this true fd)) =
      Some (l, [Unwind (if existsb succeeded answers && negb (existsb lost answers) then 0 else -1) err (P_buf b)]) /\
    (forallb succeeded answers = true -> st_size b = Z.of_nat (length (striped ctx v))).
Proof.
  intros Ht [Hok Hch Hfd] HF Hp Hsz. pose proof Ht as [Hcc _ Hn]. unfold stripe_fstat in *. rewrite Hfd in *. simpl in *.
  pose proof (Permutation_length Hp) as Hl. rewrite length_map in Hl.
  assert (answers <> []) as Hne by (intros ->; simpl in Hl; lia).
  rewrite run_stats; [|done|done|simpl; by rewrite Hcc, Hl|lia].
  destruct (absorbed this answers (new_local this) HF) as (H1 & H2 & H3 & _). simpl in H1, H2, H3.
  destruct (absorb_locs this answers (new_local this)) as [E1 E2]. set (l1 := foldl _ _ _) in *.
  destruct (finish_stat_ok l1) as (l' & err & b & E & Hb); [rewrite H2; case_match; auto|].
  rewrite (wipe_none l1 E1 E2), H1, H2 in E. rewrite H1, H2 in Hb. exists l', err, b. split.
  { rewrite E. by destruct (existsb succeeded answers), (existsb lost answers). }
  intros Hall. rewrite (forallb_existsb _ _ Hne Hall), (succeeded_not_lost _ Hall) in Hb.
  destruct Hb as [-> _]; [done|]. rewrite H3, filter_forallb, striped_length by done.
  apply sizes_striped; [by rewrite Hp|done].
Qed.

(** ** create and open *)

(** Entries that are stored in any order end up in their places. *)
Section Stores.
Context {A : Type}.

Definition store (a : list A) (p : nat * A) : list A := <[p.1 := p.2]> a.

Lemma stores_perm (ps qs : list (nat * A)) :
  ps ≡ₚ qs -> NoDup (map fst ps) -> forall a, foldl store a ps = foldl store a qs.
Proof.
  induction 1 as [|p ps qs Hp IH|p q ps|ps qs rs Hp1 IH1 Hp2 IH2]; intros Hnd a; simpl in *.
  - done.
  - apply NoDup_cons in Hnd as [_ Hnd]. by apply IH.
  - apply NoDup_cons in Hnd as [Hq _]. unfold store at 2 3 5 6. rewrite list_insert_insert_ne; [done|]. set_solver.
  - rewrite IH1 by done. apply IH2. change (NoDup (fst <$> qs)). by rewrite <-Hp1.
Qed.

Lemma stores_in_order (l a pre : list A) :
  length a = length l ->
  foldl store (pre ++ a) (imap (fun i x => ((length pre + i)%nat, x)) l) = pre ++ l.
Proof.
  revert a pre. induction l as [|x l IH]; intros [|y a] pre Hl; try done.
  simpl. unfold store at 2. simpl. rewrite insert_app_r. simpl.
  specialize (IH a (pre ++ [x])). rewrite <-!app_assoc in IH. simpl in IH, Hl. rewrite <-IH by lia. f_equal.
  apply imap_ext. intros i y' _. simpl. f_equal. rewrite length_app. simpl. lia.
Qed.

Lemma stores_sorted (ps : list (nat * A)) (l a : list A) :
  ps ≡ₚ imap pair l -> length a = length l -> foldl store a ps = l.
Proof.
  intros Hp Hl. rewrite (stores_perm ps (imap pair l)); [|done|].
  - apply (stores_in_order l a []). done.
  - change (NoDup (fst <$> ps)). rewrite Hp, fmap_imap. unfold compose. simpl.
    assert (forall n, imap (fun i (_ : A) => (n + i)%nat) l = seq n (length l)) as E.
    { clear. induction l as [|x l IH]; intros n; [done|]. simpl. rewrite Nat.add_0_r. f_equal.
      rewrite <-(IH (S n)). apply imap_ext. intros. simpl. lia. }
    pose proof (E 0%nat) as E0. simpl in E0. rewrite E0. apply NoDup_seq.
Qed.

End Stores.

(** ** Numbers in dictionaries *)

Lemma digits_range fuel n : 0 <= n -> Forall (fun d => 0 <= d < 10) (decimal fuel n).
Proof.
  revert n. induction fuel as [|fuel IH]; intros n Hn; [constructor|]. cbn [decimal]. constructor; [apply Z.mod_pos_bound; lia|].
  destruct (_ =? 0); [constructor|]. apply IH, Z.div_pos; lia.
Qed.

Lemma digits_value fuel n : 0 <= n < 10 ^ Z.of_nat fuel -> foldr (fun d a => a * 10 + d) 0 (decimal fuel n) = n.
Proof.
  revert n. induction fuel as [|fuel IH]; intros n Hn; [simpl in *; lia|]. cbn [decimal foldr].
  rewrite Nat2Z.inj_succ, Z.pow_succ_r in Hn by lia. pose proof (Z.div_mod n 10 ltac:(lia)) as Hd.
  destruct (Z.eqb_spec (n / 10) 0) as [E|E]; simpl; [lia|]. rewrite IH; [lia|].
  split; [apply Z.div_pos; lia|apply Z.div_lt_upper_bound; lia].
Qed.

(** The first digit is not 0. *)
Lemma digits_first fuel n :
  0 < n < 10 ^ Z.of_nat fuel -> exists ds d, decimal fuel n = ds ++ [d] /\ 0 < d < 10.
Proof.
  revert n. induction fuel as [|fuel IH]; intros n Hn; [simpl in *; lia|]. cbn [decimal].
  rewrite Nat2Z.inj_succ, Z.pow_succ_r in Hn by lia. pose proof (Z.div_mod n 10 ltac:(lia)). pose proof (Z.mod_pos_bound n 10).
  destruct (Z.eqb_spec (n / 10) 0) as [E|E]; [exists [], (n `mod` 10); split; [done|lia]|].
  destruct (IH (n / 10)) as (ds & d & -> & Hd).
  { split; [|apply Z.div_lt_upper_bound; lia]. pose proof (Z.div_pos n 10). lia. }
  by exists (n `mod` 10 :: ds), d.
Qed.

Lemma leading_printed ds : Forall (fun d => 0 <= d < 10) ds -> leading_digits 10 (map (Z.add 48) ds ++ [0]) = ds.
Proof.
  induction 1 as [|d ds Hd _ IH]; [done|]. cbn [map app leading_digits].
  assert (digit_value (48 + d) = d) as ->.
  { unfold digit_value. rewrite (proj2 (Z.leb_le 48 _)), (proj2 (Z.leb_le _ 57)) by lia. simpl. lia. }
  rewrite (proj2 (Z.ltb_lt d 10)) by lia. by rewrite IH.
Qed.

Lemma number_printed n : 0 <= n < 2 ^ 64 -> number 10 (print_digits n ++ [0]) = n.
Proof.
  intros Hn. unfold number, print_digits. assert (forall l, reverse (map (Z.add 48) l) = map (Z.add 48) (reverse l)) as -> by (intros; symmetry; apply fmap_reverse).
  rewrite leading_printed.
  - rewrite <-(digits_value 20 n) at 2 by (simpl; lia). generalize (decimal 20 n). intros ds.
    induction ds as [|d ds IH]; [done|]. rewrite reverse_cons, foldl_app. simpl. by rewrite IH.
  - apply Forall_reverse, digits_range. lia.
Qed.

(** A printed number begins with a digit, and with 0 only if it is 0. *)
Lemma printed_first n :
  0 < n < 2 ^ 64 -> exists d rest, print_digits n = d :: rest /\ 48 < d < 58.
Proof.
  intros Hn. destruct (digits_first 20 n) as (ds & d & E & Hd); [simpl; lia|]. unfold print_digits.
  rewrite E, map_app, reverse_app. simpl. eexists _, _. split; [done|lia].
Qed.

Lemma unsigned_printed n : 0 <= n < 2 ^ 64 -> unsigned_number (print_digits n ++ [0]) = n.
Proof.
  intros Hn. destruct (decide (n = 0)) as [->|]; [by vm_compute|].
  destruct (printed_first n) as (d & rest & E & Hd); [lia|]. rewrite <-(number_printed n) at 2 by done.
  rewrite E. simpl. rewrite (proj2 (Z.eqb_neq d 48)) by lia. simpl. by destruct (rest ++ [0]) as [|x [|y l]].
Qed.

Lemma strtoull_printed v : - 2 ^ 63 <= v < 2 ^ 64 -> strtoull_0 (print_int v ++ [0]) = u64 v.
Proof.
  intros Hv. unfold print_int. destruct (Z.ltb_spec v 0).
  - unfold strtoull_0. simpl. rewrite unsigned_printed by lia. rewrite (proj2 (Z.leb_gt _ _)) by lia. by rewrite Z.opp_involutive.
  - assert (u64 v = v) as -> by (apply u64_small; unfold is_u64; lia).
    rewrite <-(unsigned_printed v) at 2 by lia. unfold strtoull_0.
    assert (take_sign (skip_spaces (print_digits v ++ [0])) = (false, print_digits v ++ [0])) as ->.
    { destruct (decide (v = 0)) as [->|]; [by vm_compute|]. destruct (printed_first v) as (d & rest & -> & Hd); [lia|].
      simpl. rewrite (proj2 (Z.eqb_neq d 32)), (proj2 (Z.leb_gt d 13)), andb_false_r by lia. simpl.
      by rewrite (proj2 (Z.eqb_neq d 45)), (proj2 (Z.eqb_neq d 43)) by lia. }
    rewrite unsigned_printed by lia. by rewrite (proj2 (Z.leb_gt _ _)) by lia.
Qed.

(** What a dictionary was given it gives back. *)
Lemma data_int64_roundtrip v : is_i64 v -> data_to_int64 (data_from_int64 v) = v.
Proof.
  intros Hv. unfold data_to_int64, data_from_int64. rewrite (i64_small v Hv). unfold is_i64 in Hv.
  rewrite strtoull_printed by lia. rewrite <-(i64_small v) at 2 by done. unfold i64, u64. by rewrite Zplus_mod_idemp_l.
Qed.

Lemma data_int32_roundtrip v : - 2 ^ 31 <= v < 2 ^ 31 -> data_to_int32 (data_from_int32 v) = v.
Proof.
  intros Hv. unfold data_to_int32, data_from_int32. rewrite (i32_small v Hv).
  rewrite strtoull_printed by lia. destruct (Z.ltb_spec v 0).
  - assert (u64 v = v + 2 ^ 32 * 2 ^ 32) as -> by (unfold u64; symmetry; apply Z.mod_unique_pos with (-1); lia).
    rewrite <-(i32_small v) at 2 by lia. unfold i32.
    replace (v + 2 ^ 32 * 2 ^ 32 + 2 ^ 31) with (v + 2 ^ 31 + 2 ^ 32 * 2 ^ 32) by lia. by rewrite Z.mod_add by lia.
  - rewrite u64_small by (unfold is_u64; lia). apply i32_small; lia.
Qed.

(** The three keys are different. *)
Lemma stripe_dict_lookups this size i :
  is_i64 size -> - 2 ^ 31 <= child_count (private this) < 2 ^ 31 -> - 2 ^ 31 <= i < 2 ^ 31 ->
  data_to_int64 <$> stripe_dict this size i !! size_key this = Some size /\
  data_to_int32 <$> stripe_dict this size i !! count_key this = Some (child_count (private this)) /\
  data_to_int32 <$> stripe_dict this size i !! index_key this = Some i.
Proof.
  intros Hs Hc Hi. unfold stripe_dict, dict_set_int32, dict_set_int64.
  assert (size_key this <> count_key this /\ size_key this <> index_key this /\ count_key this <> index_key this) as (H1 & H2 & H3).
  { unfold size_key, count_key, index_key. split_and!; by intros E%(inj _)%(inj _). }
  rewrite !lookup_insert_ne, lookup_insert_eq by done.
  rewrite (lookup_insert_ne _ (index_key this) (count_key this)), !lookup_insert_eq by done. simpl.
  by rewrite data_int64_roundtrip, !data_int32_roundtrip.
Qed.

(** The xattrs that are given to the children. *)
Definition stored (ev : list event) : list (xlator * xattr_dict) :=
  omap (fun e => match e with Wind _ c (F_setxattr _ d _) => Some (c, d) | _ => None end) ev.

Definition xattr_answer (p : xlator * xattr_dict) : answer :=
  mk_answer CB_open_getxattr (fst p) 0 0 (P_xattr (snd p)) (true, true).

Definition open_answer (c : xlator) : answer := mk_answer CB_open c 0 0 P_none (true, true).

Section Open.
Context (this : stripe_xl) (size : Z) (loc : loc_t) (fl : Z) (fd : fd_t).
Context (Ht : this_ok this) (Hs : 0 < size < 2 ^ 31).

Let n := child_count (private this).

(** The local data of an open in progress. *)
Record opening (l : stripe_local) (arr : list (option xlator)) (e k : Z) : Prop := {
  og_count : l_call_count l = k;
  og_entries : l_entry_count l = e;
  og_ret : l_op_ret l = 0;
  og_failed : l_failed l = false;
  og_fd : l_fd l = Some fd;
  og_loc : l_loc l = Some loc;
  og_flags : l_flags l = fl;
  og_ctx : l_fctx l = Some (mk_fctx size n false (Some arr)) \/
           l_fctx l = None /\ arr = replicate (Z.to_nat n) None }.

Lemma getxattr_reply_good i c l arr e k :
  (i < Z.to_nat n)%nat -> length arr = Z.to_nat n -> 0 <= e < 2 ^ 30 -> opening l arr e k ->
  exists l', getxattr_reply this c (true, true) (stripe_dict this size (Z.of_nat i)) l = Some l' /\
    opening l' (<[i := Some c]> arr) (e + 1) k /\
    l_fctx l' = Some (mk_fctx size n false (Some (<[i := Some c]> arr))).
Proof using Ht Hs.
  intros Hi Ha He [Hk He' Hr Hf Hfd Hl Hfl Hctx]. pose proof Ht as [Hcc _ Hn]. fold n in Hcc.
  assert (forall z, - 2 ^ 31 <= z < 2 ^ 31 -> i32 z = z) as H32 by apply i32_small.
  destruct (stripe_dict_lookups this size (Z.of_nat i)) as (Dsize & Dcount & Dindex); [unfold is_i64; lia|lia|lia|].
  fold n in Dcount. set (d := stripe_dict this size (Z.of_nat i)) in *. clearbody d.
  unfold getxattr_reply. simpl.
  assert (exists ctx, (if l_fctx l then l_fctx l else Some fctx0) = Some ctx /\ fctx_static_array ctx = false /\
    (fctx_stripe_size ctx = size \/ fctx_stripe_size ctx = 0) /\
    (fctx_xl_array ctx = Some arr /\ fctx_stripe_count ctx = n \/ fctx_xl_array ctx = None /\ arr = replicate (Z.to_nat n) None))
    as (ctx & -> & Hst & Hsz & Harr).
  { destruct Hctx as [->|[-> ->]]; eexists; (split; [done|]); simpl; auto. }
  unfold getxattr_size. destruct (d !! size_key this) as [dsize|]; [|done]. injection Dsize as ->. simpl.
  set (ctx1 := if fctx_stripe_size ctx =? 0 then _ else _).
  assert (fctx_stripe_size ctx1 = size /\ fctx_xl_array ctx1 = fctx_xl_array ctx /\ fctx_stripe_count ctx1 = fctx_stripe_count ctx
    /\ fctx_static_array ctx1 = false) as (E1 & E2 & E3 & E4).
  { unfold ctx1. destruct Hsz as [Hsz|Hsz]; rewrite Hsz; [rewrite (proj2 (Z.eqb_neq _ _)) by lia|]; done. }
  clearbody ctx1. unfold getxattr_count, getxattr_array.
  destruct (d !! count_key this) as [dcount|]; [|done]. injection Dcount as ->. rewrite E2.
  unfold getxattr_index, getxattr_store. destruct (d !! index_key this) as [dindex|]; [|done]. injection Dindex as ->. simpl. fold n.
  destruct Harr as [[Harr Hcnt]|[Harr ->]]; rewrite Harr; simpl.
  - rewrite E3, Hcnt, Z.eqb_refl. simpl. rewrite (proj2 (Z.ltb_ge _ _)) by lia. rewrite E2, Harr, Ha, Nat2Z.id.
    rewrite (proj2 (Z.leb_le _ _)), (proj2 (Z.ltb_lt _ _)) by lia. simpl. eexists. split; [done|].
    rewrite E1, E4. split; [|done]. split; simpl; try done; [|by left]. rewrite He', H32; lia.
  - rewrite (proj2 (Z.eqb_neq n 0)) by lia. simpl. rewrite (proj2 (Z.ltb_lt 0 n)) by lia. rewrite Z.eqb_refl. simpl.
    rewrite (proj2 (Z.ltb_ge _ _)) by lia. rewrite length_replicate, Nat2Z.id.
    rewrite (proj2 (Z.leb_le _ _)), (proj2 (Z.ltb_lt _ _)) by lia. simpl. eexists. split; [done|].
    rewrite E1, E4. split; [|done]. split; simpl; try done; [|by left]. rewrite He', H32; lia.
Qed.

Definition slot (p : nat * xlator) : xlator * xattr_dict := (snd p, stripe_dict this size (Z.of_nat (fst p))).

(** The xattrs come back in any order. *)
Lemma run_getxattrs ps l arr e :
  ps <> [] -> Forall (fun p => (fst p < Z.to_nat n)%nat) ps -> length arr = Z.to_nat n -> 0 <= e ->
  e + Z.of_nat (length ps) = n -> opening l arr e (Z.of_nat (length ps)) ->
  exists l', run_answers this (map (fun p => xattr_answer (slot p)) ps) l =
      Some (l', wind_all this CB_open (F_open loc fl fd 0)) /\
    l_fctx l' = Some (mk_fctx size n false (Some (foldl store arr (map (fun p => (fst p, Some (snd p))) ps)))) /\
    l_call_count l' = n /\ l_op_ret l' = 0 /\ l_failed l' = false /\ l_loc l' = Some loc /\ l_fd l' = Some fd.
Proof using Ht Hs.
  intros Hne HF. revert l arr e Hne. pose proof Ht as [Hcc _ Hn]. fold n in Hcc.
  induction HF as [|[i c] ps Hi HF IH]; intros l arr e Hne Ha He Hsum Ho; [done|].
  simpl in Hi, Hsum |- *. unfold handle. simpl. unfold stripe_open_getxattr_cbk. simpl.
  assert (opening (dec_call_count l) arr e (Z.of_nat (length ps))) as Hd.
  { destruct Ho as [Hk ? ? ? ? ? ? ?]. split; try done. rewrite (dec_call_count_ok l _ Hk); simpl; lia. }
  destruct (getxattr_reply_good i c _ arr e _ Hi Ha ltac:(lia) Hd) as (l1 & -> & Ho1 & Hx1). simpl.
  destruct Ho1 as [Hk1 He1 Hr1 Hf1 Hfd1 Hl1 Hfl1 Hc1]. rewrite Hk1.
  destruct ps as [|q ps].
  - simpl. rewrite Hr1, Hx1. simpl. rewrite He1. simpl in Hsum. rewrite (proj2 (Z.eqb_eq (e + 1) n)) by lia. simpl.
    rewrite (proj2 (Z.eqb_neq _ _)) by lia. rewrite Hfd1, Hl1, Hfl1. simpl.
    eexists. split; [by rewrite app_nil_r|]. split_and!; try done.
  - rewrite (proj2 (Z.eqb_neq _ _)) by (simpl; lia). cbn [mbind option_bind].
    destruct (IH l1 (<[i := Some c]> arr) (e + 1)) as (l2 & E2 & Hrest);
      [done|by rewrite length_insert|lia|simpl in *; lia|by split|].
    simpl in E2 |- *. rewrite E2. simpl. eexists. split; [done|]. exact Hrest.
Qed.

(** All children open the file. *)
Lemma run_opens cs l ctx k :
  cs <> [] -> k = Z.of_nat (length cs) -> k < 128 ->
  l_call_count l = k -> l_op_ret l = 0 -> l_failed l = false -> l_fctx l = Some ctx -> l_fd l = Some fd ->
  exists l' err, run_answers this (map open_answer cs) l =
    Some (l', [Fd_ctx_set ctx; Loc_wipe; Unwind 0 err (P_fd (Some fd)); Fd_unref]).
Proof using Ht.
  clear Hs. revert l k. induction cs as [|c cs IH]; intros l k Hne Hk Hb Hc Hr Hf Hx Hfd; [done|].
  cbn [map run_answers]. simpl in Hk.
  assert (l_call_count (dec_call_count l) = k - 1) as Hd by (apply dec_call_count_ok; [done|lia]).
  unfold handle at 1. cbn [open_answer a_cb a_child a_ret a_err a_payload a_allocs stripe_callback].
  unfold stripe_open_cbk, note_failure. cbn [Z.eqb Z.leb Z.compare]. set (l1 := set_op_ret 0 (dec_call_count l)).
  assert (l_call_count l1 = k - 1) as H1 by done. rewrite H1. destruct cs as [|c' cs].
  - rewrite (proj2 (Z.eqb_eq _ _)) by (simpl in Hk; lia). unfold fail_if_failed, l1. simpl. rewrite Hf. simpl. rewrite Hx.
    simpl. rewrite Hfd. simpl. eauto.
  - rewrite (proj2 (Z.eqb_neq _ _)) by (simpl in Hk; lia). cbn [mbind option_bind].
    destruct (IH l1 (k - 1)) as (l' & err & E); try done; try (simpl in *; lia). rewrite E. simpl. eauto.
Qed.

End Open.

Definition create_succeeds (a : answer) : Prop :=
  a_cb a = CB_create /\ a_ret a = 0 /\ a_allocs a = (true, true) /\
  exists f i buf pre post, a_payload a = P_create f i buf pre post.

(** All children create the file: the context is set, and the xattrs are stored. *)
Lemma run_creates this size loc answers l k :
  this_ok this -> xattr_supported (private this) = true -> size <> 0 ->
  Forall create_succeeds answers -> answers <> [] -> k = Z.of_nat (length answers) -> k < 128 ->
  l_call_count l = k -> l_failed l = false -> l_stripe_size l = size -> l_loc l = Some loc ->
  exists l', run_answers this answers l =
    Some (l', Fd_ctx_set (mk_fctx size (child_count (private this)) true (Some (map Some (children this))))
                :: wind_setxattrs this loc size).
Proof.
  intros Ht Hx Hsz HF. revert l k. induction HF as [|a answers Ha HF IH]; intros l k Hne Hk Hb Hc Hf Hs Hl; [done|].
  cbn [run_answers]. simpl in Hk. destruct Ha as (Hcb & Hr & Hal & f & i & buf & pre & post & Hp).
  assert (l_call_count (dec_call_count l) = k - 1) as Hd by (apply dec_call_count_ok; [done|lia]).
  unfold handle at 1. rewrite Hcb, Hr, Hal, Hp. cbn [stripe_callback fst].
  unfold stripe_create_cbk, note_failure. cbn [Z.eqb Z.leb Z.compare mbind option_bind].
  set (l1 := collect_entry this (a_child a) buf pre post (set_op_ret 0 (dec_call_count l))).
  assert (l_call_count l1 = k - 1) as H1 by done.
  assert (l_op_ret l1 = 0 /\ l_failed l1 = false /\ l_stripe_size l1 = size /\ l_loc l1 = Some loc) as (H2 & H3 & H4 & H5) by done.
  clearbody l1. rewrite H1. destruct answers as [|b answers].
  - rewrite (proj2 (Z.eqb_eq _ _)) by (simpl in Hk; lia). unfold fail_if_failed. rewrite H3. unfold settle_entry.
    rewrite H2. simpl. rewrite H2, H4, H5. simpl. rewrite (proj2 (Z.eqb_neq _ _)) by done. rewrite Hx. simpl.
    eexists. rewrite app_nil_r. destruct Ht as [_ -> _]. done.
  - rewrite (proj2 (Z.eqb_neq _ _)) by (simpl in Hk; lia). cbn [mbind option_bind].
    destruct (IH l1 (k - 1)) as (l' & E); try done; try (simpl in *; lia). rewrite E. simpl. eauto.
Qed.

Lemma stored_imap cb loc (f : nat -> xattr_dict) cs :
  stored (imap (fun i c => Wind cb c (F_setxattr loc (f i) 0)) cs) = imap (fun i c => (c, f i)) cs.
Proof. revert f. induction cs as [|c cs IH]; intros f; [done|]. simpl. f_equal. apply (IH (fun i => f (S i))). Qed.

Lemma stored_setxattrs this loc size :
  this_ok this -> stored (wind_setxattrs this loc size) = map (slot this size) (imap pair (children this)).
Proof.
  intros [Hcc Ha _]. unfold wind_setxattrs. rewrite Ha, take_ge by lia.
  rewrite (stored_imap _ _ (fun i => stripe_dict this size (Z.of_nat i))). symmetry. apply fmap_imap.
Qed.

Lemma run_answers_app this as1 as2 l l1 ev1 l2 ev2 :
  run_answers this as1 l = Some (l1, ev1) -> run_answers this as2 l1 = Some (l2, ev2) ->
  run_answers this (as1 ++ as2) l = Some (l2, ev1 ++ ev2).
Proof.
  revert l ev1. induction as1 as [|a as1 IH]; intros l ev1 H1 H2; simpl in *; [by simplify_eq|].
  destruct (handle this a l) as [[l0 ev0]|]; [|done]. simpl in *.
  destruct (run_answers this as1 l0) as [[l' ev']|] eqn:E; [|done]. simpl in H1. simplify_eq.
  rewrite (IH _ _ E H2). simpl. by rewrite app_assoc.
Qed.

Lemma loc_copy_ok loc : bad_loc loc = false -> loc_copy loc = Some loc.
Proof. unfold bad_loc, loc_copy. by destruct (loc_path loc). Qed.

(** From the xattrs of all children, open finds the children again. *)
Lemma open_finds this fnmatch loc fl fd wb size ps opened :
  this_ok this -> bad_loc loc = false -> 0 < size < 2 ^ 31 ->
  xattr_supported (private this) = true -> first_child_down (private this) = false ->
  ps ≡ₚ imap pair (children this) -> opened ≡ₚ children this ->
  exists l err ev,
    run_answers this (map xattr_answer (map (slot this size) ps) ++ map open_answer opened)
      (fst (stripe_open this true fnmatch true loc fl fd wb)) =
    Some (l, ev ++ [Fd_ctx_set (mk_fctx size (child_count (private this)) false (Some (map Some (children this))));
                    Loc_wipe; Unwind 0 err (P_fd (Some fd)); Fd_unref]).
Proof.
  intros Ht Hloc Hs Hx Hfirst Hps Hop. pose proof Ht as [Hcc _ Hn].
  unfold stripe_open. rewrite Hloc, Hfirst, Hx, (loc_copy_ok _ Hloc). simpl.
  pose proof (Permutation_length Hps) as Hl. rewrite length_imap in Hl.
  pose proof (Permutation_length Hop) as Hl2.
  destruct (run_getxattrs this size loc (no_append fl) fd Ht Hs ps
    (set_stripe_size (matching_bs this fnmatch loc) (set_call_count (child_count (private this))
       (set_flags (no_append fl) (set_loc (Some loc) (set_fd (Some fd) local0)))))
    (replicate (Z.to_nat (child_count (private this))) None) 0) as (l1 & E1 & Hc1 & Hk1 & Hr1 & Hf1 & Hl1 & Hfd1).
  { intros ->. simpl in Hl. lia. }
  { rewrite Hps. apply Forall_forall. intros p (i & c & -> & Hi)%elem_of_lookup_imap. simpl.
    apply lookup_lt_Some in Hi. rewrite Hcc. lia. }
  { by rewrite length_replicate. } { lia. } { lia. }
  { split; simpl; try done; [by rewrite Hl, Hcc|by right]. }
  rewrite (stores_sorted _ (map Some (children this))) in Hc1.
  - destruct (run_opens this fd Ht opened l1 _ (Z.of_nat (length opened)) ltac:(intros ->; simpl in Hl2; lia) eq_refl
      ltac:(lia) ltac:(rewrite Hk1, Hcc, Hl2; done) Hr1 Hf1 Hc1 Hfd1) as (l2 & err & E2).
    exists l2, err. eexists. rewrite map_map. exact (run_answers_app _ _ _ _ _ _ _ _ E1 E2).
  - rewrite Hps. change (map ?f ?l) with (f <$> l). rewrite fmap_imap, imap_fmap. done.
  - rewrite length_replicate, length_map. lia.
Qed.

(** C21: A file that was created is found again.  With all children up and all
    calls successful, and whatever the order in which the children answer, create
    stores xattrs on them, numbers in decimal under keys with the name of the
    translator, from which a later open sets up the context that create had set: the
    same stripe size, and the same child for every stripe. *)
Theorem create_open_roundtrip this fnmatch loc flags mode fd flags' wbflags created l1 ev1 order fd' opened :
  this_ok this -> bad_loc loc = false -> 0 < matching_bs this fnmatch loc ->
  xattr_supported (private this) = true -> first_child_down (private this) = false -> nodes_down (private this) = 0 ->
  Forall create_succeeds created -> length created = length (children this) ->
  run_answers this created (fst (stripe_create this true fnmatch loc flags mode fd)) = Some (l1, ev1) ->
  order ≡ₚ stored ev1 -> opened ≡ₚ children this ->
  exists array l2 err ev2,
    Fd_ctx_set (mk_fctx (matching_bs this fnmatch loc) (child_count (private this)) true array) ∈ ev1 /\
    run_answers this (map xattr_answer order ++ map open_answer opened)
      (fst (stripe_open this true fnmatch true loc flags' fd' wbflags)) =
      Some (l2, ev2 ++ [Fd_ctx_set (mk_fctx (matching_bs this fnmatch loc) (child_count (private this)) false array);
                        Loc_wipe; Unwind 0 err (P_fd (Some fd')); Fd_unref]).
Proof.
  intros Ht Hloc Hsz Hx Hfirst Hdown HF Hlen Hrun Hord Hop. pose proof Ht as [Hcc _ Hn].
  set (size := matching_bs this fnmatch loc) in *.
  assert (size < 2 ^ 31) as Hmax.
  { unfold size, matching_bs, stripe_get_matching_bs, i32.
    match goal with |- (?a `mod` ?b) - _ < _ => pose proof (Z.mod_pos_bound a b ltac:(lia)) end. lia. }
  unfold stripe_create in Hrun. rewrite Hfirst, Hdown in Hrun. simpl in Hrun. fold size in Hrun.
  rewrite (loc_copy_ok _ Hloc) in Hrun.
  destruct (run_creates this size loc created (set_fd (Some fd) (set_loc (Some loc) (set_inode (loc_inode loc)
    (set_stripe_size size (set_op_errno ENOTCONN (new_local this)))))) (Z.of_nat (length created))) as (l' & E);
    try done; try lia; [intros ->; simpl in Hlen; lia|simpl; by rewrite Hcc, Hlen|].
  rewrite Hrun in E. injection E as -> ->.
  change (stored (Fd_ctx_set ?x :: ?w)) with (stored w) in Hord. rewrite stored_setxattrs in Hord by done.
  apply Permutation_map_inv in Hord as (ps & -> & Hps). symmetry in Hps.
  destruct (open_finds this fnmatch loc flags' fd' wbflags size ps opened) as (l2 & err & ev2 & E2); try done.
  exists (Some (map Some (children this))), l2, err, ev2. split; [by left|exact E2].
Qed.

(** ** Witnesses *)

Lemma two_children_ok : this_ok two_children.
Proof. by split; simpl; [| |lia]. Qed.

Lemma stripe_fstat_result_witness :
  exists l err b,
    run_answers two_children
      [mk_answer CB_buf 2 0 0 (P_buf (mk_stat 0 6 1 0)) (true, true); mk_answer CB_buf 1 0 0 (P_buf (mk_stat 0 4 1 0)) (true, true)]
      (fst (stripe_fstat two_children true an_fd)) = Some (l, [Unwind 0 err (P_buf b)]) /\ st_size b = 6.
Proof.
  set (v := <[1 := [10; 11; 12; 13]]> (<[2 := [0; 0; 0; 0; 14; 15]]> (∅ : volume))).
  set (answers := [mk_answer CB_buf 2 0 0 (P_buf (mk_stat 0 6 1 0)) (true, true); mk_answer CB_buf 1 0 0 (P_buf (mk_stat 0 4 1 0)) (true, true)]).
  destruct (stripe_fstat_result two_children two_ctx an_fd v answers two_children_ok two_children_serve) as (l & err & b & E & Hsz).
  - apply Forall_cons. split; [|apply Forall_singleton]; (split; [done|split; [by left|intros _; by eexists]]).
  - apply perm_swap.
  - apply Forall_cons. split; [|apply Forall_singleton]; by vm_compute.
  - exists l, err, b. split; [exact E|]. rewrite Hsz by done. by vm_compute.
Defined.

Lemma create_open_roundtrip_witness :
  exists array l2 err ev2,
    run_answers two_children
      (map xattr_answer [(2, stripe_dict two_children 4 1); (1, stripe_dict two_children 4 0)] ++ map open_answer [1; 2])
      (fst (stripe_open two_children true (fun _ _ => false) true (mk_loc (Some "f"%string) (Some 5)) 0 an_fd 0)) =
    Some (l2, ev2 ++ [Fd_ctx_set (mk_fctx 4 2 false array); Loc_wipe; Unwind 0 err (P_fd (Some an_fd)); Fd_unref]).
Proof.
  set (loc := mk_loc (Some "f"%string) (Some 5)).
  set (c1 := mk_answer CB_create 1 0 0 (P_create None None stat0 stat0 stat0) (true, true)).
  set (c2 := mk_answer CB_create 2 0 0 (P_create None None stat0 stat0 stat0) (true, true)).
  set (order := [(2, stripe_dict two_children 4 1); (1, stripe_dict two_children 4 0)]).
  destruct (run_answers two_children [c2; c1] (fst (stripe_create two_children true (fun _ _ => false) loc 0 0 an_fd)))
    as [[l1 ev1]|] eqn:E; [|vm_compute in E; done].
  assert (order ≡ₚ stored ev1) as Ho by (vm_compute in E; injection E as _ <-; vm_compute; apply perm_swap).
  destruct (create_open_roundtrip two_children (fun _ _ => false) loc 0 0 an_fd 0 0 [c2; c1] l1 ev1 order an_fd [1; 2]
    two_children_ok eq_refl ltac:(by vm_compute) eq_refl eq_refl eq_refl
    ltac:(apply Forall_cons; split; [|apply Forall_singleton]; (split; [done|split; [done|split; [done|by do 5 eexists]]]))
    eq_refl E Ho ltac:(done)) as (array & l2 & err & ev2 & _ & E2).
  exists array, l2, err, ev2. exact E2.
Defined.

(** What [init] makes of its children. *)
Lemma init_children name alloc xls o_bs o_xattr this :
  init name alloc xls o_bs o_xattr = Done (Some this) ->
  children this = xls /\ xl_array (private this) = xls /\ child_count (private this) = i8 (Z.of_nat (length xls)) /\
  (2 <= length xls <= 256)%nat.
Proof.
  unfold init. destruct ((Z.of_nat (length xls) =? 0) || (Z.of_nat (length xls) =? 1)) eqn:E1; [done|].
  destruct (negb alloc); [done|]. destruct (256 <? Z.of_nat (length xls)) eqn:E2; [done|]. intros E.
  apply orb_false_iff in E1 as [E0 E1]. apply Z.eqb_neq in E0, E1. apply Z.ltb_ge in E2.
  repeat case_match; simplify_eq/=; split_and!; done || lia.
Qed.

Lemma init_well_formed_ok name alloc xls o_bs o_xattr this :
  init name alloc xls o_bs o_xattr = Done (Some this) -> (length xls < 128)%nat -> this_ok this.
Proof.
  intros (H1 & H2 & H3 & Hl)%init_children Hn. split; rewrite ?H1, ?H2, ?H3; [|done|lia].
  unfold i8. rewrite Z.mod_small by lia. lia.
Qed.

(** A translator that [init] accepts is well formed, as every request relies on,
    exactly if it has fewer than 128 children, though up to 256 are accepted: the
    number of children is kept in eight bits with a sign. *)
Theorem init_well_formed name alloc xls o_bs o_xattr this :
  init name alloc xls o_bs o_xattr = Done (Some this) ->
  (this_ok this <-> (length xls < 128)%nat) /\ ((128 <= length xls < 256)%nat -> child_count (private this) < 0).
Proof.
  intros E. split; [split|].
  - intros [_ _ [_ Hn]]. destruct (init_children _ _ _ _ _ _ E) as (H1 & _). by rewrite H1 in Hn.
  - by apply (init_well_formed_ok name alloc xls o_bs o_xattr).
  - intros Hn. destruct (init_children _ _ _ _ _ _ E) as (_ & _ & -> & _). unfold i8.
    replace (Z.of_nat (length xls) + 2 ^ 7) with (Z.of_nat (length xls) - 128 + 1 * 2 ^ 8) by lia.
    rewrite Z.mod_add, Z.mod_small; lia.
Qed.

(** ** The state of the children *)

Inductive notified (this : stripe_xl) : stripe_xl -> Prop :=
| notified_by ev c this' pass : c ∈ children this -> notify this ev c = Some (this', pass) -> notified this this'.

Record conf_inv (this : stripe_xl) : Prop := {
  ci_ok : this_ok this;
  ci_state : length (state (private this)) = length (children this);
  ci_down : nodes_down (private this) = down_clients (state (private this)) }.

Lemma index_of_ok x xls : x ∈ xls -> exists i, index_of x xls = Some i /\ (i < length xls)%nat.
Proof.
  induction xls as [|y xls IH]; [by intros ?%elem_of_nil|]. intros Hx. simpl. destruct (Z.eqb_spec x y) as [->|Hne].
  - exists 0%nat. split; [done|lia].
  - apply elem_of_cons in Hx as [?|Hx]; [done|]. destruct (IH Hx) as (i & -> & Hi). exists (S i). split; [done|lia].
Qed.

Lemma down_clients_bound st : 0 <= down_clients st <= Z.of_nat (length st).
Proof. unfold down_clients. pose proof (List.filter_length_le (fun s => s =? 0) st). lia. Qed.

Lemma notify_inv this ev c :
  conf_inv this -> c ∈ children this ->
  exists this' pass, notify this ev c = Some (this', pass) /\ conf_inv this' /\ children this' = children this.
Proof.
  intros Hi Hc. pose proof Hi as [[Hcc Ha Hn] Hst Hd].
  assert (forall up, exists this' pass, child_event this c up = Some (this', pass) /\ conf_inv this' /\
    children this' = children this) as Hev.
  { intros up. unfold child_event. rewrite Hcc, Ha, Nat2Z.id, take_ge by lia.
    destruct (index_of_ok c (children this) Hc) as (i & -> & Hlt). simpl. do 2 eexists. split; [done|]. split; [|done].
    set (st := <[i := _]> (state (private this))).
    assert (length st = length (children this)) as Hl by (unfold st; by rewrite length_insert).
    split; simpl; [by split|done|]. rewrite take_ge by lia. pose proof (down_clients_bound st).
    unfold u8. rewrite Z.mod_small by lia. done. }
  destruct ev; simpl; [apply Hev..|]. eauto.
Qed.

Lemma init_inv name alloc xls o_bs o_xattr this :
  init name alloc xls o_bs o_xattr = Done (Some this) -> this_ok this -> conf_inv this.
Proof.
  intros E Ht. split; [done| |]; pose proof Ht as [Hcc _ Hn]; unfold init in E; repeat case_match; simplify_eq/=.
  all: rewrite ?length_replicate; try done.
  all: rewrite Hcc; unfold down_clients, u8; rewrite Z.mod_small by lia; f_equal; clear.
  all: induction xls as [|x xls IH]; simpl; [done|by f_equal].
Qed.

(** The number of children that are down is exact after any notifications, so that
    requests which need all children are refused exactly when one is down; and no
    notification from a child faults. *)
Theorem notify_counts_down name alloc xls o_bs o_xattr this0 this :
  init name alloc xls o_bs o_xattr = Done (Some this0) -> (length xls < 128)%nat -> rtc notified this0 this ->
  nodes_down (private this) = Z.of_nat (length (List.filter (fun s => s =? 0) (state (private this)))) /\
  (nodes_down (private this) = 0 <-> Forall (fun s => s <> 0) (state (private this))) /\
  this_ok this /\ forall ev c, c ∈ children this -> is_Some (notify this ev c).
Proof.
  intros E Hn Hr. assert (this_ok this0) as Ht0 by (by apply (init_well_formed_ok _ _ _ _ _ _ E)).
  assert (conf_inv this) as Hi.
  { revert Hr. apply (rtc_ind_r conf_inv); [by eapply init_inv|]. intros t1 t2 _ [ev c t' pass Hc En] Hi.
    destruct (notify_inv t1 ev c Hi Hc) as (t'' & pass' & E' & Hi' & _). rewrite En in E'. by simplify_eq. }
  pose proof Hi as [Hok Hst Hd]. split_and!; [done| |done|].
  - rewrite Hd. unfold down_clients. generalize (state (private this)). clear. intros st.
    induction st as [|s st IH]; simpl; [done|]. rewrite Forall_cons. destruct (Z.eqb_spec s 0); simpl; [lia|].
    rewrite IH. tauto.
  - intros ev c Hc. destruct (notify_inv this ev c Hi Hc) as (t' & pass & -> & _). by eexists.
Qed.

(** ** Witnesses *)

Lemma init_well_formed_witness :
  exists this, init "stripe"%string true [1; 2] None None = Done (Some this) /\ this_ok this.
Proof.
  destruct (init "stripe"%string true [1; 2] None None) as [[this|]|[this|]|] eqn:E; try (vm_compute in E; done).
  exists this. split; [done|]. apply (proj1 (init_well_formed "stripe"%string true [1; 2] None None this E)). simpl. lia.
Defined.

Lemma notify_counts_down_witness :
  exists this0 this, init "stripe"%string true [1; 2] None None = Done (Some this0) /\ notify this0 GF_EVENT_CHILD_UP 2 = Some (this, false) /\
    nodes_down (private this) = 1.
Proof.
  destruct (init "stripe"%string true [1; 2] None None) as [[this0|]|[this0|]|] eqn:E; try (vm_compute in E; done).
  destruct (notify this0 GF_EVENT_CHILD_UP 2) as [[this pass]|] eqn:En;
    [|vm_compute in E; injection E as <-; vm_compute in En; done].
  exists this0, this. split; [done|]. split.
  - vm_compute in E. injection E as <-. vm_compute in En. injection En as <- <-. done.
  - rewrite (proj1 (notify_counts_down "stripe"%string true [1; 2] None None this0 this E ltac:(simpl; lia)
      (rtc_once _ _ (notified_by this0 _ 2 this pass ltac:(vm_compute in E; injection E as <-; set_solver) En)))).
    vm_compute in E. injection E as <-. vm_compute in En. injection En as <- _. by vm_compute.
Defined.
